(* ===== verification/_CoqProject ===== *)
-Q . S2P
Prelude.v
Bytes.v
Framing.v
Crypto.v
Packet.v
BackedReader.v
BackedWriter.v
Keepalive.v
OutputWindow.v
Link.v
OutputInterrupt.v
FlowControl.v
FramingIo.v
LocalPacket.v
LocalDecoder.v
Exchange.v
Connection.v
Recovery.v
System.v
SessionFlow.v
SessionRecovery.v
Wire.v
Keys.v
Registry.v
SessionTable.v
Router.v
Handshake.v
Socks.v
Tunnel.v
ClientEnvironment.v
ForwardConfig.v
SshAgentBind.v
ForwardSocket.v
ForwardPacket.v
ForwardFlow.v
ForwardWorker.v
ForwardEngine.v
ForwardOrder.v
ForwardInvariant.v
Text.v
SshConfig.v
SshConfigInvariant.v
Bootstrap.v
ClientTimers.v
TmuxFilter.v
HtmLayout.v
HtmFraming.v
HtmPane.v
HtmState.v
HtmInvariant.v
HtmSafety.v
HtmFormats.v
HtmControl.v
HtmCommands.v
HtmServer.v
HtmDaemon.v
