(* ===== verification/Prelude.v ===== *)
(** * et.rs, verified

    et.rs is a remote shell whose sessions survive network failures. A client
    and a server hold one [Connection] each; packets are numbered, encrypted
    and kept by the sender until they are acknowledged; after a failure the
    two ends reconnect, tell each other what they have read, and replay the
    rest. On the server machine, a terminal process registers with the server
    over a local socket, and the server hands it the sessions of its clients.
    A session also carries forwarded connections, each with a window of its
    own. This development translates those parts into Rocq functions and
    proves what makes them correct. Paths below are under [src/crates/].

    ** Files

    - [Prelude], [Bytes]: results, lengths in [Z], bytes, text, UTF-8.
    - [Framing], [Crypto], [Packet], [Keepalive], [Keys]: the files of the same
      names of [et-core/src]. libsodium and BLAKE2b are the class [Sodium] with
      its laws (decryption inverts encryption, lengths).
    - [BackedReader], [BackedWriter]: [et-core/src/backed_reader.rs] and
      [backed_writer.rs], the numbered streams and their replay.
    - [OutputWindow], [OutputInterrupt], [FlowControl]: the files of
      [et-core/src] that bound, classify and queue terminal output.
    - [Link]: one direction of a session from writer to reader, as a step
      relation in which a transport may break at any byte.
    - [FramingIo], [Exchange]: [et-net/src/framing_io.rs], and two programs that
      exchange messages over bounded channels.
    - [Connection], [Recovery], [System]: [et-net/src/connection.rs],
      [connection_pending.rs], [connection_nonblocking.rs] and
      [connection_recovery.rs], and both ends of a session together.
    - [SessionFlow], [SessionRecovery]: the output of a session on the server
      and the recovery of its connection, [et-server/src/session_flow.rs],
      [session_flow_write.rs] and [session_recovery.rs]. The threads that share
      the queue ([flow_step]) and the connection ([session_step]) are
      interleaved at their locks.
    - [LocalPacket], [LocalDecoder]: [et-net/src/local_packet.rs].
    - [Registry], [SessionTable], [Router]: [et-server/src/registry.rs],
      [session_table.rs], [session_slot.rs], [runtime_state.rs],
      [runtime_lifecycle.rs], [router_loop.rs] and [router_registration.rs]: who
      is registered, who owns a session, and how terminals come and go.
    - [Wire], [Handshake]: protobuf fields, and the handshake of
      [et-net/src/handshake.rs] and [et-server/src/runtime_handler.rs].
    - [Socks]: [et-net/src/socks.rs] and the handshake loop of
      [et-net/src/forward_io.rs].
    - [ForwardSocket], [ForwardPacket], [ForwardWorker], [ForwardEngine]: port
      forwarding, [SocketIo], [Worker] and [Engine] of
      [et-net/src/forward_poll.rs], [forward_worker.rs] and
      [forward_worker_state.rs], in the mode in which the session itself drives
      the worker. [ForwardFlow] runs both ends of a forwarded connection
      against each other, [ForwardInvariant] holds the invariant of the engine,
      and [ForwardOrder] runs it against a peer without windows.
      [SshAgentBind]: the bindings of [ssh-agent] sessions that it replays.
    - [Tunnel], [ClientEnvironment], [ForwardConfig], [ClientTimers],
      [TmuxFilter]: the client's side of a session. Tunnel arguments and host
      names ([et-cli/src/tunnel.rs], [host.rs]); the environment and the
      requests that are sent ([client_environment.rs] and [forward_config.rs]
      of [et-bin/src]); its gate and its clock ([delivery_gate.rs],
      [keepalive_clock.rs]); the filter for tmux control mode
      ([terminal_tmux_filter.rs]).
    - [Text], [SshConfig], [SshConfigInvariant], [Bootstrap]: text with white
      space and lines; the query of [ssh -G] and its parser
      ([et-bin/src/ssh_config.rs]) with what a resolved configuration holds;
      and the command lines that start the remote process
      ([et-bin/src/bootstrap.rs]), which are stated against a POSIX shell's
      rules of quoting.
    - [HtmLayout], [HtmFraming], [HtmPane], [HtmState], [HtmFormats],
      [HtmControl], [HtmServer]: the terminal multiplexer, [layout.rs],
      [framing.rs], [screen.rs] with [terminal_handler.rs], [state.rs],
      [formats.rs], [control.rs] and [server.rs] of [et-htm/src].
      [HtmInvariant] and [HtmSafety] hold the invariant of the multiplexer's
      state and that its operations keep it, [HtmCommands] the same of every
      command, and [HtmDaemon] what is proved of the daemon's loop.

    ** How the code is translated

    A struct is a record, an enum an inductive type, a method a function that
    returns the new state with its result; [Result] is [result], and a panic
    is a value. Integers are [Z] with the wrap-around and the checks of their
    width written out; instants and durations are nanoseconds. The answers of
    the operating system (clock, sockets, random bytes) are arguments, so a
    theorem that quantifies over them holds for any behaviour of the system. A
    call that may block is [Returned] or [Waiting]. A dialogue between two
    processes is a [prog], run against another by the rules of [Exchange].
    Threads that share a lock are interleaved at their critical sections
    ([core_step], [router_step], [flow_step], [session_step]). The code prost generates from the [.proto]
    files is a parameter with the laws it documents; [Wire] provides an
    instance of them. The multiplexer's methods are functions of a state
    monad ([HtmState.M]) over one record, in which an index out of range, a
    missing key and an [unwrap] of [None] are panics; what its panes' ptys,
    processes and WebAssembly screens answer is the record [Host]. Sizes of
    splits are single-precision floats. The Unix branches are the ones modelled; [usize] has 64
    bits and the target is little-endian; a mutex is not poisoned.

    ** What is shown

    - A session delivers messages once and in order, through any failure of
      the transport: within an epoch a prefix of what was admitted, across
      resets that both ends complete a subsequence of it, since a reset gives
      up what was not read ([System.world_history]). A reconnect without a
      reset succeeds while the replay limits hold and sequences fit 31 bits
      ([System], [Link], [Recovery]). The buffered reader and writer implement
      that contract ([BackedReader.reader_refines], [BackedWriter]).
    - The exchanges of recovery and handshake do not deadlock and end in
      agreement; each side obeys only what was proved under the shared key
      ([Recovery], [Handshake]).
    - Nonces do not repeat and ciphers stay in step ([Crypto]).
    - Output is queued without loss or beyond bound, interrupts drop what they
      say, and held output is released ([FlowControl], [OutputInterrupt],
      [OutputWindow]).
    - The threads of a session keep the order of control output and lose none,
      wake each other, and drain the queue; a pause keeps the writer off the
      connection until a resume ([SessionFlow]). What a write reports is
      whether the connection's writer took the packet, and while recoveries
      follow one another, what is installed is what was copied
      ([SessionRecovery]).
    - Local streams are read as they were written, however they are cut
      ([LocalPacket], [LocalDecoder]).
    - A terminal that is gone stays gone, a session is started once, every
      registered terminal is watched, and its hang-up is reported
      ([SessionTable], [Registry], [Router]).
    - Past its greeting, a SOCKS request is understood however it is cut into
      reads ([Socks]).
    - Between two ends with windows a forwarded connection carries its bytes
      in order, refuses none, holds no more than the window and never wedges
      ([ForwardFlow]); whatever a peer sends, the engine keeps its limits on
      sockets, parked connections and queues ([ForwardInvariant]). The parser
      written by hand for data packets agrees with the general one
      ([ForwardPacket]).
    - Tunnels, environment and the first packet of a session stay within
      their bounds ([Tunnel], [ClientEnvironment], [ForwardConfig]), recorded
      agent bindings and the tmux filter do not depend on how the stream is
      cut ([SshAgentBind], [TmuxFilter]), and the delivery gate never wedges
      ([ClientTimers]).
    - A value in an ssh configuration cannot become another directive, what
      is resolved is well formed ([SshConfig], [SshConfigInvariant]), and no
      path, user or terminal type can leave its word in the remote command
      ([Bootstrap]).
    - The multiplexer's daemon never panics, whatever its client sends; every
      command keeps its state well formed; what a client is sent is never cut
      inside a record; layouts keep their panes and extents; the memory of
      all screens and the history of each pane are bounded ([HtmDaemon],
      [HtmCommands], [HtmLayout], [HtmPane], [HtmFraming]).
    - Twelve theorems exhibit behaviour that the code does not intend:
      [BackedWriter.catchup_exceeds_entry_limit],
      [FlowControl.flush_moves_stderr_to_stdout],
      [Socks.pipelined_method_reply_lost], [Socks.split_greeting_refused],
      [Socks.request_version_depends_on_cut], [TmuxFilter.response_line_is_lost],
      [ForwardConfig.forward_only_init_overruns],
      [ClientEnvironment.removal_keeps_star_pattern],
      [ForwardOrder.legacy_data_overtaken], [ForwardOrder.legacy_close_loses],
      [SessionRecovery.late_resume_loses_output], in which a recovery cancels
      the pause of the next one, and [SessionFlow.resumed_pause_not_woken], in
      which such a resume costs a recovery its wake-up.

    ** Bounds and fuel

    Loops over input recurse on the input or on the list of the system's
    answers. Where fuel is used it is the length of the data or the number of
    answers, plus one where the last turn only looks; every turn consumes at
    least one of them, so it is enough. [SessionTable.claim_returns] and the
    theorems on deadlock bound the loops that have no such measure. Template
    expansion recurses on the nesting depth, which the code limits to 64, and
    on the template. [HtmDaemon.daemon_never_panics] holds while fewer than
    2^32 commands, less those of one turn, have been numbered: beyond them
    the 32-bit identities of panes and windows would repeat.

    ** Not modelled

    Of forwarding, the worker thread with its channels, the registry of
    listeners, the graceful stop and what binds, resolves and connects
    ([et-net/src/forward.rs], [forward_endpoint.rs] but for the parser) are
    left out, as are the sockets of the agent; the command line proper
    ([et-cli/src/client.rs], [server.rs]), which [clap] generates; the
    transport and the client of the multiplexer ([et-htm/src/transport*.rs],
    [client*.rs]); the programs of [et-bin] but for the files above, which
    are loops around system calls; the loop that bridges a terminal and a
    connection ([et-server/src/terminal_bridge.rs]), and of a session
    ([session*.rs]) the blocking writes that follow it, but for the two-phase
    write ([System.flow_write_packet]), the writes of a session that does not
    stage its output and the wake channel; a reset that only one end
    completes; a teardown between the phases of that write; the session
    set-up after the decision in [runtime_handler.rs]; the Windows branches,
    socket options, the capacity of buffers, and logging. *)

From Stdlib Require Export ZArith Lia.
From Stdlib Require Export Strings.Byte.
From stdpp Require Export base list numbers option sets.

#[export] Set Default Goal Selector "!".
Open Scope Z_scope.

(** ** Results

    Rust's [Result<T, E>]. *)

Inductive result (E A : Type) : Type :=
| Ok (a : A)
| Err (e : E).
Arguments Ok {E A} a.
Arguments Err {E A} e.

Definition is_ok {E A} (r : result E A) : bool :=
  match r with Ok _ => true | Err _ => false end.

Definition map_err {E F A} (f : E -> F) (r : result E A) : result F A :=
  match r with Ok a => Ok a | Err e => Err (f e) end.

Declare Scope rs_scope.
Delimit Scope rs_scope with rs.

(** The [?] operator on [Result], on [Option], and [let ... else]. *)
Notation "'let?' x ':=' e 'in' k" :=
  (match e with Ok x => k | Err err => Err err end)
  (at level 10, x pattern, e at level 200, k at level 200) : rs_scope.
Notation "'let!' x ':=' e 'in' k" :=
  (match e with Some x => k | None => None end)
  (at level 10, x pattern, e at level 200, k at level 200) : rs_scope.
Open Scope rs_scope.

(** ** Bytes *)

#[export] Instance byte_eq_decision : EqDecision byte := Byte.byte_eq_dec.

Definition b2z (b : byte) : Z := Z.of_N (Byte.to_N b).

(** [z as u8]: truncation to eight bits. *)
Definition z2b (z : Z) : byte :=
  match Byte.of_N (Z.to_N (z mod 256)) with Some b => b | None => x00 end.

Lemma b2z_range b : 0 <= b2z b < 256.
Proof. unfold b2z. pose proof (Byte.to_N_bounded b). lia. Qed.

Lemma b2z_z2b z : b2z (z2b z) = z mod 256.
Proof.
  unfold b2z, z2b. pose proof (Z.mod_pos_bound z 256 ltac:(lia)) as Hm.
  destruct (Byte.of_N (Z.to_N (z mod 256))) as [b|] eqn:E.
  - apply Byte.to_of_N in E. rewrite E. lia.
  - apply Byte.of_N_None_iff in E. lia.
Qed.

Lemma b2z_inj b c : b2z b = b2z c -> b = c.
Proof.
  unfold b2z. intros H. apply N2Z.inj in H.
  pose proof (Byte.of_to_N b) as Hb. rewrite H, Byte.of_to_N in Hb. congruence.
Qed.

Lemma z2b_b2z b : z2b (b2z b) = b.
Proof. apply b2z_inj. rewrite b2z_z2b. apply Z.mod_small, b2z_range. Qed.

Lemma b2z_z2b_small z : 0 <= z < 256 -> b2z (z2b z) = z.
Proof. intros. rewrite b2z_z2b. by apply Z.mod_small. Qed.

(** ** Lengths and slices measured in [Z]

    [usize] values are integers; [zlen] is [.len()], [ztake]/[zdrop] are
    [&v[..n]] and [&v[n..]], and [slice] is [&v[a..b]] (their bounds checks
    are the business of the invariants that keep indices in range). *)

Definition zlen {A} (l : list A) : Z := Z.of_nat (length l).
Definition ztake {A} (n : Z) (l : list A) : list A := take (Z.to_nat n) l.
Definition zdrop {A} (n : Z) (l : list A) : list A := drop (Z.to_nat n) l.
Definition slice {A} (l : list A) (a b : Z) : list A := ztake (b - a) (zdrop a l).

Section zlen_lemmas.
Context {A : Type}.
Implicit Types l k : list A.

Lemma zlen_nonneg l : 0 <= zlen l.
Proof. unfold zlen. lia. Qed.
Lemma zlen_nil : zlen (@nil A) = 0.
Proof. reflexivity. Qed.
Lemma zlen_cons (x : A) l : zlen (x :: l) = 1 + zlen l.
Proof. unfold zlen. simpl. lia. Qed.
Lemma zlen_app l k : zlen (l ++ k) = zlen l + zlen k.
Proof. unfold zlen. rewrite length_app. lia. Qed.
Lemma zlen_rev l : zlen (rev l) = zlen l.
Proof. unfold zlen. by rewrite length_rev. Qed.
Lemma zlen_ztake n l : zlen (ztake n l) = Z.min (Z.max 0 n) (zlen l).
Proof. unfold zlen, ztake. rewrite length_take. lia. Qed.
Lemma zlen_zdrop n l : zlen (zdrop n l) = Z.max 0 (zlen l - Z.max 0 n).
Proof. unfold zlen, zdrop. rewrite length_drop. lia. Qed.
Lemma zlen_slice l a b : 0 <= a <= b -> b <= zlen l -> zlen (slice l a b) = b - a.
Proof. intros. unfold slice. rewrite zlen_ztake, zlen_zdrop. lia. Qed.
Lemma zlen_0_nil l : zlen l = 0 -> l = [].
Proof. unfold zlen. destruct l; simpl; [done|lia]. Qed.
Lemma zlen_replicate n (x : A) : zlen (replicate n x) = Z.of_nat n.
Proof. unfold zlen. by rewrite length_replicate. Qed.

Lemma ztake_all l n : zlen l <= n -> ztake n l = l.
Proof. unfold zlen, ztake. intros. apply take_ge. lia. Qed.
Lemma zdrop_all l n : zlen l <= n -> zdrop n l = [].
Proof. unfold zlen, zdrop. intros. apply drop_ge. lia. Qed.
Lemma zdrop_0 l : zdrop 0 l = l.
Proof. reflexivity. Qed.
Lemma ztake_0 l : ztake 0 l = [].
Proof. reflexivity. Qed.
Lemma ztake_zdrop n l : ztake n l ++ zdrop n l = l.
Proof. apply take_drop. Qed.
Lemma ztake_app_l n l k : n <= zlen l -> ztake n (l ++ k) = ztake n l.
Proof. unfold zlen, ztake. intros. apply take_app_le. lia. Qed.
Lemma ztake_app_ge n l k : zlen l <= n -> ztake n (l ++ k) = l ++ ztake (n - zlen l) k.
Proof.
  intros H. unfold ztake, zlen in *. rewrite take_app_ge by lia. do 2 f_equal. lia.
Qed.
Lemma ztake_app_exact l k : ztake (zlen l) (l ++ k) = l.
Proof. rewrite ztake_app_l by lia. apply ztake_all. lia. Qed.
Lemma zdrop_app_exact l k : zdrop (zlen l) (l ++ k) = k.
Proof. unfold zlen, zdrop. rewrite Nat2Z.id. apply drop_app_length. Qed.
Lemma zdrop_app_l n l k : 0 <= n <= zlen l -> zdrop n (l ++ k) = zdrop n l ++ k.
Proof. unfold zlen, zdrop. intros. apply drop_app_le. lia. Qed.
Lemma zdrop_app_ge n l k : zlen l <= n -> zdrop n (l ++ k) = zdrop (n - zlen l) k.
Proof.
  unfold zlen, zdrop. intros. rewrite drop_app_ge by lia. f_equal. lia.
Qed.
Lemma zdrop_zdrop a b l : 0 <= a -> 0 <= b -> zdrop a (zdrop b l) = zdrop (b + a) l.
Proof. unfold zdrop. intros. rewrite drop_drop. f_equal. lia. Qed.
Lemma ztake_ztake a b l : ztake a (ztake b l) = ztake (Z.min a b) l.
Proof. unfold ztake. rewrite take_take. f_equal. lia. Qed.
Lemma ztake_slice l a b n : a <= b -> n <= b - a -> ztake n (slice l a b) = slice l a (a + n).
Proof. intros. unfold slice. rewrite ztake_ztake.
  by replace (Z.min n (b - a)) with (a + n - a) by lia.
Qed.
Lemma zdrop_slice l a b n :
  0 <= a -> 0 <= n <= b - a -> zdrop n (slice l a b) = slice l (a + n) b.
Proof.
  intros. unfold slice, zdrop, ztake. rewrite skipn_firstn_comm, drop_drop.
  replace (Z.to_nat (b - a) - Z.to_nat n)%nat with (Z.to_nat (b - (a + n))) by lia.
  by replace (Z.to_nat a + Z.to_nat n)%nat with (Z.to_nat (a + n)) by lia.
Qed.
Lemma slice_full l a : 0 <= a <= zlen l -> slice l a (zlen l) = zdrop a l.
Proof. intros. unfold slice. apply ztake_all. rewrite zlen_zdrop. lia. Qed.
Lemma slice_join l a b c : 0 <= a <= b -> b <= c -> slice l a b ++ slice l b c = slice l a c.
Proof.
  intros H1 H2. unfold slice. replace (zdrop b l) with (zdrop (b - a) (zdrop a l)).
  2: { rewrite zdrop_zdrop by lia. f_equal. lia. }
  rewrite <-(ztake_zdrop (b - a) (ztake (c - a) (zdrop a l))). f_equal.
  - rewrite ztake_ztake. f_equal. lia.
  - unfold ztake, zdrop. rewrite skipn_firstn_comm. f_equal. lia.
Qed.
Lemma slice_nil l a : slice l a a = [].
Proof. unfold slice. rewrite Z.sub_diag. apply ztake_0. Qed.
Lemma zdrop_cons x l n : 0 < n -> zdrop n (x :: l) = zdrop (n - 1) l.
Proof.
  intros. unfold zdrop. replace (Z.to_nat n) with (S (Z.to_nat (n - 1))) by lia. done.
Qed.
Lemma ztake_cons x l n : 0 < n -> ztake n (x :: l) = x :: ztake (n - 1) l.
Proof.
  intros. unfold ztake. replace (Z.to_nat n) with (S (Z.to_nat (n - 1))) by lia. done.
Qed.
End zlen_lemmas.

Create Rewrite HintDb zlen.
#[export] Hint Rewrite @zlen_nil @zlen_cons @zlen_app @zlen_rev @zlen_ztake @zlen_zdrop
  @zlen_replicate : zlen.

(** Evaluate closed [Z.of_nat] constants, which [lia] does not do below a
    boolean comparison. *)
Ltac nat_literal n :=
  lazymatch n with O => idtac | S ?m => nat_literal m end.
Ltac eval_of_nat :=
  repeat match goal with
  | |- context [Z.of_nat ?n] =>
      nat_literal n; let z := eval compute in (Z.of_nat n) in change (Z.of_nat n) with z
  | H : context [Z.of_nat ?n] |- _ =>
      nat_literal n; let z := eval compute in (Z.of_nat n) in change (Z.of_nat n) with z in H
  end.

(** Normalise lengths, then linear arithmetic. *)
Ltac len_lia :=
  autorewrite with zlen in *; eval_of_nat;
  repeat match goal with
  | |- context [zlen ?l] =>
      lazymatch goal with H : 0 <= zlen l |- _ => fail | _ => pose proof (zlen_nonneg l) end
  | _ : context [zlen ?l] |- _ =>
      lazymatch goal with H : 0 <= zlen l |- _ => fail | _ => pose proof (zlen_nonneg l) end
  end; lia.

(** Case analysis on every [if] and [match] scrutinee of the goal. *)
Ltac case_all := repeat (case_match; simplify_eq/=; try done).

(** ** Fixed-width integers and their byte encodings *)

Definition u32_max : Z := 2 ^ 32 - 1.
Definition u64_max : Z := 2 ^ 64 - 1.
Definition usize_max : Z := u64_max.
Definition i64_max : Z := 2 ^ 63 - 1.
Definition i64_min : Z := - 2 ^ 63.

(** [x.saturating_add(y)] and [x.saturating_sub(y)] on an unsigned type. *)
Definition sat_add (max x y : Z) : Z := Z.min max (x + y).
Definition sat_sub (x y : Z) : Z := Z.max 0 (x - y).

(** [x.checked_add(y)] on [i64] and on [usize]. *)
Definition i64_checked_add (x y : Z) : option Z :=
  if (i64_min <=? x + y) && (x + y <=? i64_max) then Some (x + y) else None.
Definition usize_checked_add (x y : Z) : option Z :=
  if x + y <=? usize_max then Some (x + y) else None.

(** [option::unwrap_or] and [option::is_some_and]. *)
Definition unwrap_or {A} (d : A) (o : option A) : A :=
  match o with Some a => a | None => d end.
Definition is_some_and {A} (p : A -> bool) (o : option A) : bool :=
  match o with Some a => p a | None => false end.

(** Two's complement reading of the [w]-bit pattern [z]. *)
Definition to_signed (w z : Z) : Z := if z <? 2 ^ (w - 1) then z else z - 2 ^ w.

(** [to_le_bytes] / [from_le_bytes] at any width, and the big-endian pair. *)
Fixpoint le_bytes (n : nat) (z : Z) : list byte :=
  match n with
  | O => []
  | S n => z2b z :: le_bytes n (z / 256)
  end.

Fixpoint le_val (l : list byte) : Z :=
  match l with
  | [] => 0
  | b :: l => b2z b + 256 * le_val l
  end.

Definition be_bytes (n : nat) (z : Z) : list byte := rev (le_bytes n z).
Definition be_val (l : list byte) : Z := le_val (rev l).

Lemma length_le_bytes n z : length (le_bytes n z) = n.
Proof. revert z. induction n; intros; simpl; auto. Qed.
Lemma length_be_bytes n z : length (be_bytes n z) = n.
Proof. unfold be_bytes. by rewrite length_rev, length_le_bytes. Qed.
Lemma zlen_le_bytes n z : zlen (le_bytes n z) = Z.of_nat n.
Proof. unfold zlen. by rewrite length_le_bytes. Qed.
Lemma zlen_be_bytes n z : zlen (be_bytes n z) = Z.of_nat n.
Proof. unfold zlen. by rewrite length_be_bytes. Qed.
#[export] Hint Rewrite zlen_le_bytes zlen_be_bytes : zlen.

Lemma pow256_S n : 256 ^ Z.of_nat (S n) = 256 * 256 ^ Z.of_nat n.
Proof. rewrite Nat2Z.inj_succ, Z.pow_succ_r; lia. Qed.
Lemma pow256_pos n : 0 < 256 ^ Z.of_nat n.
Proof. apply Z.pow_pos_nonneg; lia. Qed.

Lemma le_val_le_bytes n z : le_val (le_bytes n z) = z mod 256 ^ Z.of_nat n.
Proof.
  revert z. induction n as [|n IH]; intros z; simpl le_bytes; simpl le_val.
  - by rewrite Z.mod_1_r.
  - rewrite IH, b2z_z2b, pow256_S, Z.rem_mul_r; [lia|lia|apply pow256_pos].
Qed.

Lemma le_val_bound l : 0 <= le_val l < 256 ^ zlen l.
Proof.
  unfold zlen. induction l as [|b l IH]; [simpl; lia|].
  simpl le_val. change (length (b :: l)) with (S (length l)).
  rewrite pow256_S. pose proof (b2z_range b). lia.
Qed.

Lemma le_bytes_le_val l : le_bytes (length l) (le_val l) = l.
Proof.
  induction l as [|b l IH]; [done|]. simpl. pose proof (b2z_range b) as Hb. f_equal.
  - apply b2z_inj. rewrite b2z_z2b.
    replace (b2z b + 256 * le_val l) with (b2z b + le_val l * 256) by lia.
    rewrite Z.mod_add by lia. by apply Z.mod_small.
  - replace (b2z b + 256 * le_val l) with (b2z b + le_val l * 256) by lia.
    rewrite Z.div_add, Z.div_small by lia. done.
Qed.

Lemma le_val_inj l k : length l = length k -> le_val l = le_val k -> l = k.
Proof. intros Hl Hv. rewrite <-(le_bytes_le_val l), <-(le_bytes_le_val k). congruence. Qed.

Lemma be_val_be_bytes n z : be_val (be_bytes n z) = z mod 256 ^ Z.of_nat n.
Proof. unfold be_val, be_bytes. by rewrite rev_involutive, le_val_le_bytes. Qed.

Lemma be_val_bound l : 0 <= be_val l < 256 ^ zlen l.
Proof. unfold be_val. rewrite <-(zlen_rev l). apply le_val_bound. Qed.

Lemma be_bytes_be_val l : be_bytes (length l) (be_val l) = l.
Proof.
  unfold be_bytes, be_val. rewrite <-(length_rev l), le_bytes_le_val.
  apply rev_involutive.
Qed.

Lemma to_signed_small w z : 0 <= z < 2 ^ (w - 1) -> to_signed w z = z.
Proof. intros. unfold to_signed. case_match; lia. Qed.

(** Resolve every boolean test of the goal that linear arithmetic decides. *)
Ltac decide_ifs :=
  repeat match goal with
  | |- context [if ?c then _ else _] =>
      lazymatch type of c with bool => idtac end;
      let H := fresh in
      first [ assert (c = true) as H by len_lia | assert (c = false) as H by len_lia ];
      rewrite H; clear H
  end.
