(* ===== verification/Bytes.v ===== *)
(** * Bytes: the standard library's byte-slice and string operations

    The operations of [[u8]], [u8] and [str] that the sources use, on lists of
    bytes. A [str] is its UTF-8 bytes; the operations below that the sources
    apply to strings only look for ASCII characters, for which the character
    and the byte view agree. *)

From Stdlib Require Import Strings.String Strings.Ascii.
From stdpp Require Import countable.
From S2P Require Import Prelude.

#[export] Program Instance byte_countable : Countable byte :=
  inj_countable' b2z z2b _.
Next Obligation. apply z2b_b2z. Qed.

(** A byte-string literal. *)
Definition bytes_of (s : string) : list byte := list_byte_of_string s.

Definition beq (a b : byte) : bool := Byte.eqb a b.
Arguments beq : simpl never.

Lemma beq_spec a b : reflect (a = b) (beq a b).
Proof.
  unfold beq. destruct (Byte.eqb a b) eqn:E; constructor.
  - by apply Byte.byte_dec_bl.
  - intros ->. by rewrite Byte.byte_dec_lb in E.
Qed.

Lemma beq_refl a : beq a a = true.
Proof. by destruct (beq_spec a a). Qed.

(** ** [u8] classification *)

Definition in_range (lo hi : Z) (b : byte) : bool := (lo <=? b2z b) && (b2z b <=? hi).

Definition is_ascii_lowercase (b : byte) : bool := in_range 0x61 0x7a b.
Definition is_ascii_uppercase (b : byte) : bool := in_range 0x41 0x5a b.
Definition is_ascii_digit (b : byte) : bool := in_range 0x30 0x39 b.
Definition is_ascii_alphabetic (b : byte) : bool := is_ascii_lowercase b || is_ascii_uppercase b.
Definition is_ascii_alphanumeric (b : byte) : bool :=
  is_ascii_lowercase b || is_ascii_uppercase b || is_ascii_digit b.

(** Space, tab, line feed, form feed and carriage return. *)
Definition is_ascii_whitespace (b : byte) : bool :=
  (b2z b =? 0x20) || (b2z b =? 9) || (b2z b =? 10) || (b2z b =? 12) || (b2z b =? 13).

Definition to_ascii_lowercase (b : byte) : byte :=
  if is_ascii_uppercase b then z2b (b2z b + 32) else b.

(** ** Slices *)

Fixpoint starts_with (pre l : list byte) : bool :=
  match pre, l with
  | [], _ => true
  | p :: pre, b :: l => beq p b && starts_with pre l
  | _, [] => false
  end.

Definition ends_with (suf l : list byte) : bool := starts_with (rev suf) (rev l).

Definition strip_prefix (pre l : list byte) : option (list byte) :=
  if starts_with pre l then Some (drop (length pre) l) else None.

Fixpoint list_eqb (a b : list byte) : bool :=
  match a, b with
  | [], [] => true
  | x :: a, y :: b => beq x y && list_eqb a b
  | _, _ => false
  end.

Definition eq_ignore_ascii_case (a b : list byte) : bool :=
  list_eqb (map to_ascii_lowercase a) (map to_ascii_lowercase b).

Definition contains (b : byte) (l : list byte) : bool := existsb (beq b) l.

(** [split(pred)]: the pieces between the separators, always at least one. *)
Fixpoint split_by (pred : byte -> bool) (l : list byte) : list (list byte) :=
  match l with
  | [] => [[]]
  | b :: l =>
      if pred b then [] :: split_by pred l
      else match split_by pred l with
           | piece :: rest => (b :: piece) :: rest
           | [] => [[b]]
           end
  end.

(** [split_ascii_whitespace]: the non-empty pieces. *)
Definition split_ascii_whitespace (l : list byte) : list (list byte) :=
  filter (fun piece => piece <> []) (split_by is_ascii_whitespace l).

(** [split_inclusive(|b| b == sep)]: pieces that keep their separator; none
    for the empty slice. *)
Fixpoint split_inclusive (sep : byte) (l : list byte) : list (list byte) :=
  match l with
  | [] => []
  | b :: l =>
      if beq b sep then [b] :: split_inclusive sep l
      else match split_inclusive sep l with
           | piece :: rest => (b :: piece) :: rest
           | [] => [[b]]
           end
  end.

(** [str::split_once(c)]. *)
Fixpoint split_once (c : byte) (l : list byte) : option (list byte * list byte) :=
  match l with
  | [] => None
  | b :: l =>
      if beq b c then Some ([], l)
      else match split_once c l with
           | Some (x, y) => Some (b :: x, y)
           | None => None
           end
  end.

(** [iter().position(pred)]. *)
Fixpoint position (pred : byte -> bool) (l : list byte) : option nat :=
  match l with
  | [] => None
  | b :: l => if pred b then Some O else S <$> position pred l
  end.

(** ** UTF-8 *)

Definition continuation (lo hi : Z) (l : list byte) : option (list byte) :=
  match l with
  | b :: rest => if in_range lo hi b then Some rest else None
  | [] => None
  end.

(** One character of well-formed UTF-8 (Unicode table 3-7). *)
Definition utf8_char (l : list byte) : option (list byte) :=
  match l with
  | [] => None
  | b :: rest =>
      if in_range 0 0x7f b then Some rest
      else if in_range 0xc2 0xdf b then continuation 0x80 0xbf rest
      else if b2z b =? 0xe0 then let! l := continuation 0xa0 0xbf rest in continuation 0x80 0xbf l
      else if b2z b =? 0xed then let! l := continuation 0x80 0x9f rest in continuation 0x80 0xbf l
      else if in_range 0xe1 0xef b then
        let! l := continuation 0x80 0xbf rest in continuation 0x80 0xbf l
      else if b2z b =? 0xf0 then
        let! l := continuation 0x90 0xbf rest in
        let! l := continuation 0x80 0xbf l in continuation 0x80 0xbf l
      else if in_range 0xf1 0xf3 b then
        let! l := continuation 0x80 0xbf rest in
        let! l := continuation 0x80 0xbf l in continuation 0x80 0xbf l
      else if b2z b =? 0xf4 then
        let! l := continuation 0x80 0x8f rest in
        let! l := continuation 0x80 0xbf l in continuation 0x80 0xbf l
      else None
  end.

Fixpoint utf8_chars (fuel : nat) (l : list byte) : bool :=
  match l, fuel with
  | [], _ => true
  | _, O => false
  | _, S fuel => match utf8_char l with Some rest => utf8_chars fuel rest | None => false end
  end.

(** [std::str::from_utf8(l).is_ok()]: every character takes at least a byte. *)
Definition from_utf8 (l : list byte) : bool := utf8_chars (length l) l.

(** The second byte that may follow the first byte of a character of three or
    four bytes. *)
Definition second_byte (b : byte) : option (Z * Z) :=
  if b2z b =? 0xe0 then Some (0xa0, 0xbf)
  else if b2z b =? 0xed then Some (0x80, 0x9f)
  else if in_range 0xe1 0xef b then Some (0x80, 0xbf)
  else if b2z b =? 0xf0 then Some (0x90, 0xbf)
  else if in_range 0xf1 0xf3 b then Some (0x80, 0xbf)
  else if b2z b =? 0xf4 then Some (0x80, 0x8f)
  else None.

(** What follows the longest start of a character at an ill-formed place. *)
Definition skip_invalid (l : list byte) : list byte :=
  match l with
  | [] => []
  | b :: rest =>
      match second_byte b with
      | None => rest
      | Some (lo, hi) =>
          match continuation lo hi rest with
          | None => rest
          | Some rest =>
              if in_range 0xf0 0xf4 b then unwrap_or rest (continuation 0x80 0xbf rest) else rest
          end
      end
  end.

Fixpoint utf8_lossy (fuel : nat) (l : list byte) : list byte :=
  match l, fuel with
  | [], _ | _, O => []
  | _, S fuel =>
      match utf8_char l with
      | Some rest => take (length l - length rest) l ++ utf8_lossy fuel rest
      | None => [xef; xbf; xbd] ++ utf8_lossy fuel (skip_invalid l)
      end
  end.

(** [String::from_utf8_lossy] *)
Definition from_utf8_lossy (l : list byte) : list byte := utf8_lossy (length l) l.

Lemma continuation_suffix lo hi l rest : continuation lo hi l = Some rest -> exists b, l = b :: rest.
Proof. unfold continuation. destruct l as [|b l]; [done|]. destruct (in_range lo hi b); [|done]. intros [= ->]. by exists b. Qed.

Lemma utf8_char_suffix l rest : utf8_char l = Some rest -> exists c, l = c ++ rest.
Proof.
  destruct l as [|b l]; [done|]. cbn [utf8_char]. intros H.
  repeat match type of H with
  | context [if ?c then _ else _] => destruct c
  | context [continuation ?lo ?hi ?x] =>
      let E := fresh in destruct (continuation lo hi x) eqn:E; cbn in H; [apply continuation_suffix in E as [? ->]|done]
  end; try done; injection H as ->; try (by eexists [_]); try (by eexists [_; _]);
  try (by eexists [_; _; _]); by eexists [_; _; _; _].
Qed.

(** Well-formed text is left as it is. *)
Lemma from_utf8_lossy_id l : from_utf8 l = true -> from_utf8_lossy l = l.
Proof.
  unfold from_utf8, from_utf8_lossy. generalize (length l) as fuel. intros fuel. revert l.
  induction fuel as [|fuel IH]; intros [|b l]; try done. intros H. cbn [utf8_chars utf8_lossy] in *.
  destruct (utf8_char (b :: l)) as [rest|] eqn:E; [|done]. apply utf8_char_suffix in E as [c ->].
  rewrite (IH rest H), length_app, Nat.add_sub. by rewrite take_app_length.
Qed.

(** ** Text from integers *)

Definition digit_char (d : Z) : byte := z2b (if d <? 10 then 0x30 + d else 0x61 + d - 10).

(** The digits of a number below [radix ^ fuel], without leading zeros. *)
Fixpoint digits (fuel : nat) (radix n : Z) : list byte :=
  match fuel with
  | O => []
  | S fuel => (if n <? radix then [] else digits fuel radix (n / radix)) ++ [digit_char (n mod radix)]
  end.

Fixpoint joined (sep : list byte) (l : list (list byte)) : list byte :=
  match l with
  | [] => []
  | [x] => x
  | x :: l => x ++ sep ++ joined sep l
  end.

(** Decimal text of an integer of at most 20 digits. *)
Definition dec (z : Z) : list byte := if z <? 0 then bytes_of "-" ++ digits 20 10 (- z) else digits 20 10 z.

(** ** Integers from text *)

Definition hex_digit (b : byte) : option Z :=
  if is_ascii_digit b then Some (b2z b - 0x30)
  else if in_range 0x61 0x66 b then Some (b2z b - 0x61 + 10)
  else if in_range 0x41 0x46 b then Some (b2z b - 0x41 + 10)
  else None.

Fixpoint digits_value (digit : byte -> option Z) (radix max acc : Z) (l : list byte) : option Z :=
  match l with
  | [] => Some acc
  | b :: l =>
      let! d := digit b in
      let acc := acc * radix + d in
      if (d <? radix) && (acc <=? max) then digits_value digit radix max acc l else None
  end.

(** [from_str_radix] on an unsigned type: an optional plus sign and at least
    one digit. *)
Definition from_str_radix (radix max : Z) (l : list byte) : option Z :=
  match l with
  | [] => None
  | b :: rest =>
      if beq b x2b then
        match rest with [] => None | _ => digits_value hex_digit radix max 0 rest end
      else digits_value hex_digit radix max 0 l
  end.

(** ** Lemmas *)

Lemma starts_with_spec pre l : starts_with pre l = true <-> exists rest, l = pre ++ rest.
Proof.
  revert l. induction pre as [|p pre IH]; intros l; cbn [starts_with].
  - split; [by exists l|done].
  - destruct l as [|b l]; [split; [done|by intros [? ?]]|].
    rewrite andb_true_iff, IH. split.
    + intros [H [rest ->]]. destruct (beq_spec p b) as [->|]; [|done]. by exists rest.
    + intros [rest [= -> ->]]. rewrite beq_refl. eauto.
Qed.

Lemma list_eqb_spec a b : list_eqb a b = true <-> a = b.
Proof.
  revert b. induction a as [|x a IH]; intros [|y b]; cbn; try (split; [done|done]).
  rewrite andb_true_iff, IH. destruct (beq_spec x y) as [->|]; [naive_solver|].
  split; [by intros [? _]|intros [= -> _]]. done.
Qed.

Lemma contains_spec b l : contains b l = true <-> b ∈ l.
Proof.
  unfold contains. rewrite existsb_exists. split.
  - intros (x & Hin & Hx). destruct (beq_spec b x) as [->|]; [|done]. by apply list_elem_of_In.
  - intros Hin. exists b. split; [by apply list_elem_of_In|apply beq_refl].
Qed.

Lemma concat_split_inclusive sep l : concat (split_inclusive sep l) = l.
Proof.
  induction l as [|b l IH]; [done|]. cbn [split_inclusive].
  destruct (beq b sep); [cbn; by rewrite IH|].
  destruct (split_inclusive sep l); cbn in *; by rewrite <-IH.
Qed.

(** Every piece ends at its separator; only the last may lack one. *)
Definition is_line (sep : byte) (piece : list byte) : Prop :=
  exists body, piece = body ++ [sep] /\ sep ∉ body.

Lemma split_inclusive_pieces sep l :
  Forall (is_line sep) (split_inclusive sep l) \/
  exists lines rest, split_inclusive sep l = lines ++ [rest] /\ Forall (is_line sep) lines /\
    rest <> [] /\ sep ∉ rest.
Proof.
  induction l as [|b l IH]; [by left|]. cbn [split_inclusive].
  destruct (beq_spec b sep) as [->|Hb].
  - assert (is_line sep [sep]) as Hl by (exists []; split; [done|apply not_elem_of_nil]).
    destruct IH as [IH|(lines & rest & -> & IH & Hr)]; [left; by constructor|right].
    exists ([sep] :: lines), rest. split_and!; [done|by constructor|apply Hr..].
  - destruct IH as [IH|(lines & rest & -> & IH & Hr & Hs)].
    + destruct (split_inclusive sep l) as [|piece pieces].
      * right. exists [], [b]. split_and!; [done..|]. rewrite list_elem_of_singleton. congruence.
      * left. apply Forall_cons_iff in IH as [(body & -> & Hbody) IH].
        constructor; [|done]. exists (b :: body). split; [done|].
        rewrite elem_of_cons. intros [?|?]; [congruence|done].
    + destruct lines as [|line lines]; cbn [app].
      * right. exists [], (b :: rest). split_and!; [done..|]. rewrite elem_of_cons.
        intros [?|?]; [congruence|done].
      * right. apply Forall_cons_iff in IH as [(body & -> & Hbody) IH].
        exists ((b :: body ++ [sep]) :: lines), rest. split_and!; [done| |done|done].
        constructor; [|done]. exists (b :: body). split; [done|].
        rewrite elem_of_cons. intros [?|?]; [congruence|done].
Qed.

Lemma split_once_spec (sep : byte) s l r :
  split_once sep s = Some (l, r) <-> s = l ++ sep :: r /\ ~ sep ∈ l.
Proof.
  revert l. induction s as [|b s IH]; intros l; cbn [split_once].
  - split; [done|]. intros [H _]. by destruct l.
  - destruct (beq_spec b sep) as [->|Hne].
    + split.
      * intros [= <- <-]. split; [done|]. apply not_elem_of_nil.
      * intros [H Hl]. destruct l as [|c l]; [by injection H as ->|].
        injection H as -> ->. destruct Hl. left.
    + split.
      * destruct (split_once sep s) as [[l' r']|]; [|done]. intros [= <- ->].
        destruct (proj1 (IH l') eq_refl) as [-> Hl]. split; [done|]. rewrite not_elem_of_cons. auto.
      * intros [H Hl]. destruct l as [|c l]; [by injection H as ->|]. injection H as -> ->.
        apply not_elem_of_cons in Hl as [_ Hl]. assert (split_once sep (l ++ sep :: r) = Some (l, r)) as ->; [|done].
        by apply IH.
Qed.

(** ** Decimal text is read back *)

Lemma digits_value_app digit radix max acc a b :
  digits_value digit radix max acc (a ++ b) =
  let! v := digits_value digit radix max acc a in digits_value digit radix max v b.
Proof.
  revert acc. induction a as [|x a IH]; intros acc; [done|]. cbn [app digits_value].
  destruct (digit x); [|done]. cbv zeta. destruct (_ && _); [apply IH|done].
Qed.

Lemma decimal_digit (P : Z -> Prop) d :
  0 <= d < 10 -> P 0 -> P 1 -> P 2 -> P 3 -> P 4 -> P 5 -> P 6 -> P 7 -> P 8 -> P 9 -> P d.
Proof.
  intros Hd. assert (d = 0 \/ d = 1 \/ d = 2 \/ d = 3 \/ d = 4 \/ d = 5 \/ d = 6 \/ d = 7 \/ d = 8 \/ d = 9) as H by lia.
  intuition (subst; assumption).
Qed.

Lemma hex_digit_digit_char d : 0 <= d < 10 -> hex_digit (digit_char d) = Some d.
Proof. intros Hd. by apply (decimal_digit (fun d => hex_digit (digit_char d) = Some d)). Qed.

Lemma is_ascii_digit_digit_char d : 0 <= d < 10 -> is_ascii_digit (digit_char d) = true.
Proof. intros Hd. by apply (decimal_digit (fun d => is_ascii_digit (digit_char d) = true)). Qed.

Lemma digits_value_digits fuel max n :
  0 <= n <= max -> n < 10 ^ Z.of_nat fuel -> digits_value hex_digit 10 max 0 (digits fuel 10 n) = Some n.
Proof.
  revert n. induction fuel as [|fuel IH]; intros n Hn Hf; [cbn in *; f_equal; lia|]. cbn [digits].
  pose proof (Z.mod_pos_bound n 10). pose proof (Z.div_mod n 10). rewrite digits_value_app.
  rewrite Nat2Z.inj_succ, Z.pow_succ_r in Hf by lia.
  assert (Hlast : forall v, v * 10 + n mod 10 = n -> digits_value hex_digit 10 max v [digit_char (n mod 10)] = Some n).
  { intros v Hv. cbn [digits_value]. rewrite hex_digit_digit_char by lia. cbv zeta. rewrite Hv.
    by rewrite (proj2 (Z.ltb_lt _ _)), (proj2 (Z.leb_le _ _)) by lia. }
  destruct (Z.ltb_spec n 10).
  - apply Hlast. rewrite Z.mod_small by lia. lia.
  - rewrite IH; [apply Hlast; lia| |].
    + split; [apply Z.div_pos; lia|]. transitivity n; [|lia]. apply Z.div_le_upper_bound; lia.
    + apply Z.div_lt_upper_bound; lia.
Qed.

Lemma digits_all fuel n : 0 <= n -> Forall (fun b => is_ascii_digit b = true) (digits fuel 10 n).
Proof.
  revert n. induction fuel as [|fuel IH]; intros n Hn; [constructor|]. cbn [digits]. apply Forall_app. split.
  - destruct (n <? 10); [constructor|]. apply IH. apply Z.div_pos; lia.
  - apply Forall_singleton, is_ascii_digit_digit_char, Z.mod_pos_bound. lia.
Qed.

Lemma dec_digits n : 0 <= n -> Forall (fun b => is_ascii_digit b = true) (dec n) /\ dec n <> [].
Proof.
  intros Hn. unfold dec. rewrite (proj2 (Z.ltb_ge n 0)) by lia. split; [by apply digits_all|].
  change 20%nat with (S 19). cbn [digits]. intros H. by apply app_eq_nil in H as [_ ?].
Qed.

(** A number printed in decimal is read back. *)
Lemma from_str_radix_dec max n : 0 <= n <= max -> n < 10 ^ 20 -> from_str_radix 10 max (dec n) = Some n.
Proof.
  intros Hn Hf. destruct (dec_digits n) as [Hd Hne]; [lia|].
  assert (Hv : digits_value hex_digit 10 max 0 (dec n) = Some n).
  { unfold dec. rewrite (proj2 (Z.ltb_ge n 0)) by lia. by apply digits_value_digits. }
  destruct (dec n) as [|b rest]; [done|]. apply Forall_cons_1 in Hd as [Hb _]. unfold from_str_radix.
  destruct (beq_spec b x2b) as [->|]; [by vm_compute in Hb|done].
Qed.

(** What is read is in range. *)
Lemma from_str_radix_bound radix max l v : 0 <= radix -> from_str_radix radix max l = Some v -> 0 <= v <= Z.max 0 max.
Proof.
  assert (Hd : forall b d, hex_digit b = Some d -> 0 <= d).
  { intros b d. unfold hex_digit, is_ascii_digit, in_range.
    repeat (destruct (_ && _) eqn:H; [apply andb_prop in H as [H _]; apply Z.leb_le in H; intros [= <-]; lia|clear H]). done. }
  assert (Hv : forall l acc, 0 <= radix -> 0 <= acc <= Z.max 0 max -> digits_value hex_digit radix max acc l = Some v ->
    0 <= v <= Z.max 0 max).
  { intros l'. induction l' as [|b l' IH]; intros acc Hr Hacc; cbn [digits_value]; [by intros [= <-]|].
    destruct (hex_digit b) as [d|] eqn:Hb; [|done]. cbv zeta. destruct (_ && _) eqn:Hok; [|done].
    apply andb_prop in Hok as [_ Hok]. apply Z.leb_le in Hok. apply IH; [done|]. specialize (Hd _ _ Hb). nia. }
  intros Hr. unfold from_str_radix. destruct l as [|b l]; [done|]. destruct (beq b x2b).
  - destruct l; [done|]. apply Hv; [done|lia].
  - apply Hv; [done|lia].
Qed.

Lemma split_by_app pred a b :
  Forall (fun x => pred x = false) a -> split_by pred (a ++ b) =
  match split_by pred b with piece :: rest => (a ++ piece) :: rest | [] => [a] end.
Proof.
  intros Ha. assert (Hne : split_by pred b <> []) by (destruct b; cbn; [done|]; repeat case_match; done).
  induction Ha as [|x a Hx _ IH]; cbn [app split_by]; [by destruct (split_by pred b)|]. rewrite Hx, IH.
  by destruct (split_by pred b).
Qed.

(** Text without the separator, up to a separator, is the first piece. *)
Lemma split_by_piece pred a x b :
  Forall (fun x => pred x = false) a -> pred x = true -> split_by pred (a ++ x :: b) = a :: split_by pred b.
Proof. intros Ha Hx. rewrite split_by_app by done. cbn [split_by]. by rewrite Hx, app_nil_r. Qed.

Lemma split_by_last pred a : Forall (fun x => pred x = false) a -> split_by pred a = [a].
Proof. intros Ha. rewrite <- (app_nil_r a) at 1. rewrite split_by_app by done. cbn. by rewrite app_nil_r. Qed.
