(* ===== verification/Framing.v ===== *)
(** * Framing: [crates/et-core/src/framing.rs]

    The two length prefixes of the protocol: the native (little-endian)
    [i64] in front of handshake and IPC messages, and the big-endian [u32] in
    front of every encrypted packet. Both parsers enforce the 128 MiB cap. *)

From S2P Require Import Prelude.

Definition MAX_PROTO_LEN : Z := 128 * 1024 * 1024.

Inductive FrameError := Short | Negative | TooLarge | TooSmall.

#[export] Instance FrameError_eq_dec : EqDecision FrameError.
Proof. solve_decision. Defined.

(** [payload.len() as i64] and [payload.len() as u32] are the truncating casts
    built into [le_bytes] and [be_bytes]. *)
Definition frame_native_i64 (payload : list byte) : list byte :=
  le_bytes 8 (zlen payload) ++ payload.

Definition parse_native_i64_len (buf : list byte) : result FrameError Z :=
  if zlen buf <? 8 then Err Short else
  let len := to_signed 64 (le_val (ztake 8 buf)) in
  if len <? 0 then Err Negative else
  if MAX_PROTO_LEN <? len then Err TooLarge else
  Ok len.

Definition frame_be_u32 (payload : list byte) : list byte :=
  be_bytes 4 (zlen payload) ++ payload.

Definition parse_be_u32_len (buf : list byte) : result FrameError Z :=
  if zlen buf <? 4 then Err Short else
  let len := be_val (ztake 4 buf) in
  if MAX_PROTO_LEN <? len then Err TooLarge else
  Ok len.

(** The value carried by a big-endian prefix, whatever follows it. *)
Lemma be_u32_prefix_val n rest :
  be_val (ztake 4 (be_bytes 4 n ++ rest)) = n mod 2 ^ 32.
Proof.
  rewrite (ztake_app_exact (be_bytes 4 n) rest : ztake 4 _ = _).
  by rewrite be_val_be_bytes.
Qed.

Lemma le_i64_prefix_val n rest :
  le_val (ztake 8 (le_bytes 8 n ++ rest)) = n mod 2 ^ 64.
Proof.
  rewrite (ztake_app_exact (le_bytes 8 n) rest : ztake 8 _ = _).
  by rewrite le_val_le_bytes.
Qed.

(** Parsing a prefix and enough of what follows gives the same answer as
    parsing the whole buffer: only the first four bytes matter. *)
Lemma parse_be_u32_len_app buf rest :
  4 <= zlen buf -> parse_be_u32_len (buf ++ rest) = parse_be_u32_len buf.
Proof.
  intros H. unfold parse_be_u32_len. rewrite ztake_app_l by lia.
  by decide_ifs.
Qed.

Lemma parse_be_u32_len_bytes n rest :
  0 <= n <= MAX_PROTO_LEN -> parse_be_u32_len (be_bytes 4 n ++ rest) = Ok n.
Proof.
  unfold MAX_PROTO_LEN. intros H. unfold parse_be_u32_len.
  rewrite be_u32_prefix_val, Z.mod_small by lia.
  unfold MAX_PROTO_LEN. by decide_ifs.
Qed.

Lemma parse_be_u32_len_range buf n :
  parse_be_u32_len buf = Ok n -> 4 <= zlen buf /\ 0 <= n <= MAX_PROTO_LEN.
Proof.
  unfold parse_be_u32_len. pose proof (be_val_bound (ztake 4 buf)).
  case_all. intros. simplify_eq. lia.
Qed.

(** Framing an IPC message and parsing its length prefix gives back the
    payload length for every payload within the cap, whatever bytes follow,
    and [TooLarge] for every longer payload a [Vec] can hold. *)
Theorem native_i64_roundtrip payload rest :
  zlen payload <= i64_max ->
  parse_native_i64_len (frame_native_i64 payload ++ rest) =
    if zlen payload <=? MAX_PROTO_LEN then Ok (zlen payload) else Err TooLarge.
Proof.
  unfold i64_max. intros H. unfold parse_native_i64_len, frame_native_i64.
  rewrite <-app_assoc, le_i64_prefix_val.
  pose proof (zlen_nonneg payload).
  rewrite Z.mod_small, to_signed_small by lia.
  destruct (Z.leb_spec (zlen payload) MAX_PROTO_LEN); by decide_ifs.
Qed.

Lemma native_i64_roundtrip_witness :
  parse_native_i64_len (frame_native_i64 [x61; x62] ++ [x63]) = Ok 2.
Proof. apply (native_i64_roundtrip [x61; x62] [x63]). vm_compute. congruence. Defined.
