(* ===== verification/Crypto.v ===== *)
(** * Crypto: [crates/et-core/src/crypto.rs] and [crates/et-sodium/src/lib.rs]

    The nonce counter of the two packet streams, the secretbox wrappers, the
    connection proofs and the epoch rekey. libsodium and the BLAKE2b crate are
    parameters (class [Sodium]); what the code relies on of them is the class
    [SodiumLaws]. *)

From Stdlib Require Import String DecimalString DecimalZ DecimalFacts.
From S2P Require Import Prelude Bytes.

Definition KEY_LEN : Z := 32.
Definition NONCE_LEN : nat := 24.
Definition MAC_LEN : Z := 16.
Definition AUTH_CHALLENGE_BYTES : Z := 32.
Definition EPOCH_SALT_BYTES : Z := 32.
Definition PROOF_BYTES : Z := 32.
Definition DIR_CLIENT_TO_SERVER : byte := x00.
Definition DIR_SERVER_TO_CLIENT : byte := x01.

(** ** The external primitives *)

Class Sodium := {
  (** [crypto_secretbox_easy(m, nonce, key)]: tag followed by ciphertext. *)
  crypto_secretbox_easy : list byte -> list byte -> list byte -> list byte;
  (** [crypto_secretbox_open_easy(c, nonce, key)]: [None] is [rc != 0]. *)
  crypto_secretbox_open_easy : list byte -> list byte -> list byte -> option (list byte);
  (** Keyed BLAKE2b-256 ([Blake2bMac<U32>]): [None] is a rejected key. *)
  blake2b_mac : list byte -> list byte -> option (list byte)
}.

Class SodiumLaws (sodium : Sodium) := {
  easy_zlen m n k : zlen (crypto_secretbox_easy m n k) = zlen m + MAC_LEN;
  open_easy m n k : crypto_secretbox_open_easy (crypto_secretbox_easy m n k) n k = Some m;
  open_zlen c n k m :
    crypto_secretbox_open_easy c n k = Some m -> zlen c = zlen m + MAC_LEN;
  (** BLAKE2b accepts keys of up to 64 bytes and returns 32 of them here. *)
  blake2b_accepts k m : zlen k <= 64 -> is_Some (blake2b_mac k m);
  blake2b_zlen k m d : blake2b_mac k m = Some d -> zlen d = PROOF_BYTES
}.

Inductive DecryptError := DShort | BadMac.
Inductive EncryptError := EncryptErr.
Inductive ProofError := ProofErr.

#[export] Instance DecryptError_eq_dec : EqDecision DecryptError.
Proof. solve_decision. Defined.

(** ** Nonces *)

(** [CryptoHandler::bump]: add one, little-endian with carry. *)
Fixpoint bump (nonce : list byte) : list byte :=
  match nonce with
  | [] => []
  | b :: rest =>
      let b' := z2b (b2z b + 1) in
      if b2z b' =? 0 then b' :: bump rest else b' :: rest
  end.

(** The nonce a handler of [direction] starts from. *)
Definition nonce0 (direction : byte) : list byte :=
  replicate (NONCE_LEN - 1) x00 ++ [direction].

Lemma length_bump n : length (bump n) = length n.
Proof. induction n as [|b n IH]; simpl; [done|]. case_match; simpl; lia. Qed.

Lemma le_val_bump n : le_val (bump n) = (le_val n + 1) mod 256 ^ zlen n.
Proof.
  unfold zlen. induction n as [|b n IH]; [done|].
  change (length (b :: n)) with (S (length n)).
  rewrite pow256_S. simpl bump. cbv zeta.
  pose proof (b2z_range b) as Hb. pose proof (le_val_bound n) as Hn. unfold zlen in Hn.
  rewrite b2z_z2b. simpl le_val.
  destruct (Z.eqb_spec ((b2z b + 1) mod 256) 0) as [E|E]; simpl le_val; rewrite b2z_z2b.
  - assert (b2z b = 255) as -> by (apply Z.mod_divide in E as [q ?]; lia).
    rewrite IH. replace (255 + 256 * le_val n + 1) with (256 * (le_val n + 1)) by lia.
    rewrite Z.mul_mod_distr_l by lia. done.
  - destruct (Z.eq_dec (b2z b) 255) as [Hx|]; [rewrite Hx in E; by destruct E|].
    rewrite (Z.mod_small (b2z b + 1)) by lia. rewrite Z.mod_small; lia.
Qed.

Definition bumps (k : nat) (n : list byte) : list byte := Nat.iter k bump n.

Lemma length_bumps k n : length (bumps k n) = length n.
Proof. unfold bumps. induction k; simpl; [done|]. by rewrite length_bump. Qed.

Lemma bumps_S k n : bumps (S k) n = bump (bumps k n).
Proof. done. Qed.

Lemma bumps_add j k n : bumps (j + k) n = bumps j (bumps k n).
Proof. induction j; simpl; [done|]. unfold bumps in *. simpl. by rewrite IHj. Qed.

Lemma le_val_bumps k n : le_val (bumps k n) = (le_val n + Z.of_nat k) mod 256 ^ zlen n.
Proof.
  induction k as [|k IH].
  - simpl. rewrite Z.add_0_r, Z.mod_small; [done|apply le_val_bound].
  - rewrite bumps_S, le_val_bump. unfold zlen at 1. rewrite length_bumps.
    rewrite IH, Zplus_mod_idemp_l. f_equal. lia.
Qed.

Lemma le_val_nonce0 d : le_val (nonce0 d) = b2z d * 2 ^ 184.
Proof.
  unfold nonce0. cbn [replicate app le_val NONCE_LEN Nat.sub].
  change (b2z x00) with 0. lia.
Qed.

Lemma zlen_nonce0 d : zlen (nonce0 d) = 24.
Proof. done. Qed.

(** C31: Nonces never repeat, neither inside a stream
    nor between the two directions, for the first [2^184] packets: the nonce
    after [i] packets of direction [d] equals the nonce after [j] packets of
    direction [e] only when [d = e] and [i = j]. *)
Theorem nonce_unique d e i j :
  Z.of_nat i < 2 ^ 184 -> Z.of_nat j < 2 ^ 184 ->
  bumps i (nonce0 d) = bumps j (nonce0 e) -> d = e /\ i = j.
Proof.
  intros Hi Hj H%(f_equal le_val).
  rewrite !le_val_bumps, !le_val_nonce0, !zlen_nonce0 in H.
  pose proof (b2z_range d) as Hd. pose proof (b2z_range e) as He.
  change (256 ^ 24) with (2 ^ 184 * 256) in H.
  rewrite !Z.mod_small in H by lia.
  assert (b2z d = b2z e) as Hde by lia.
  split; [by apply b2z_inj|lia].
Qed.

(** ** The secretbox wrappers of [et-sodium] and the packet cipher *)

Record CryptoHandler := mkCrypto {
  original_key : list byte;
  base_key : list byte;
  nonce : list byte;
  direction : byte
}.

Section handler.
Context {sodium : Sodium}.

Definition secretbox_with_prefix (prefix plaintext nonce key : list byte) : list byte :=
  prefix ++ crypto_secretbox_easy plaintext nonce key.

Definition secretbox (plaintext nonce key : list byte) : list byte :=
  secretbox_with_prefix [] plaintext nonce key.

Definition secretbox_open (ciphertext nonce key : list byte) : option (list byte) :=
  if zlen ciphertext <? MAC_LEN then None
  else crypto_secretbox_open_easy ciphertext nonce key.

(** Write [src] over the front of the caller's buffer [out]. *)
Definition overwrite (out src : list byte) : list byte := src ++ zdrop (zlen src) out.

(** The buffer after the call and the byte count. [None] is the [assert!]. *)
Definition secretbox_into (out plaintext nonce key : list byte) : option (list byte * Z) :=
  if zlen plaintext + MAC_LEN <=? zlen out
  then Some (overwrite out (crypto_secretbox_easy plaintext nonce key),
             zlen plaintext + MAC_LEN)
  else None.

(** On failure the buffer's content is unspecified and not returned. *)
Definition secretbox_open_into (out ciphertext nonce key : list byte) : option (list byte * Z) :=
  if (zlen ciphertext <? MAC_LEN) || (zlen out <? zlen ciphertext - MAC_LEN) then None
  else
    let! m := crypto_secretbox_open_easy ciphertext nonce key in
    Some (overwrite out m, zlen ciphertext - MAC_LEN).

Definition secretbox_open_in_place (buffer nonce key : list byte) : option (list byte * Z) :=
  if zlen buffer <? MAC_LEN then None
  else
    let! m := crypto_secretbox_open_easy buffer nonce key in
    Some (overwrite buffer m, zlen buffer - MAC_LEN).

Definition generichash (key message : list byte) : result ProofError (list byte) :=
  match blake2b_mac key message with Some d => Ok d | None => Err ProofErr end.

(** *** [impl CryptoHandler] *)

Definition new (key : list byte) (dir : byte) : CryptoHandler :=
  {| original_key := key; base_key := key; nonce := nonce0 dir; direction := dir |}.

Definition with_nonce (c : CryptoHandler) (n : list byte) : CryptoHandler :=
  {| original_key := original_key c; base_key := base_key c; nonce := n;
     direction := direction c |}.

Definition bump_handler (c : CryptoHandler) : CryptoHandler := with_nonce c (bump (nonce c)).

Definition rekey (c : CryptoHandler) (salt : list byte) : CryptoHandler * result ProofError unit :=
  if negb (zlen salt =? EPOCH_SALT_BYTES) then (c, Err ProofErr)
  else
    match generichash (original_key c) salt with
    | Err e => (c, Err e)
    | Ok derived =>
        ({| original_key := original_key c; base_key := derived;
            nonce := nonce0 (direction c); direction := direction c |}, Ok tt)
    end.

(** The buffer is returned only when it was written. *)
Definition encrypt_into (c : CryptoHandler) (out plaintext : list byte)
  : CryptoHandler * result EncryptError (list byte * Z) :=
  if zlen out <? zlen plaintext + MAC_LEN then (c, Err EncryptErr)
  else
    let c := bump_handler c in
    (c, match secretbox_into out plaintext (nonce c) (base_key c) with
        | Some r => Ok r
        | None => Err EncryptErr
        end).

Definition decrypt_into (c : CryptoHandler) (out ciphertext : list byte)
  : CryptoHandler * option (list byte * Z) :=
  if (zlen ciphertext <? MAC_LEN) || (zlen out <? zlen ciphertext - MAC_LEN) then (c, None)
  else
    let saved := nonce c in
    let c := bump_handler c in
    match secretbox_open_into out ciphertext (nonce c) (base_key c) with
    | Some r => (c, Some r)
    | None => (with_nonce c saved, None)
    end.

Definition decrypt_in_place (c : CryptoHandler) (buffer : list byte)
  : CryptoHandler * option (list byte * Z) :=
  if zlen buffer <? MAC_LEN then (c, None)
  else
    let saved := nonce c in
    let c := bump_handler c in
    match secretbox_open_in_place buffer (nonce c) (base_key c) with
    | Some r => (c, Some r)
    | None => (with_nonce c saved, None)
    end.

Definition next_nonce_and_key (c : CryptoHandler) : CryptoHandler * (list byte * list byte) :=
  let c := bump_handler c in (c, (nonce c, base_key c)).

Definition encrypt_detached (prefix plaintext nonce key : list byte) : list byte :=
  secretbox_with_prefix prefix plaintext nonce key.

Definition encrypt_with_prefix (c : CryptoHandler) (prefix plaintext : list byte)
  : CryptoHandler * result EncryptError (list byte) :=
  let c := bump_handler c in
  (c, Ok (secretbox_with_prefix prefix plaintext (nonce c) (base_key c))).

Definition encrypt (c : CryptoHandler) (plaintext : list byte)
  : CryptoHandler * result EncryptError (list byte) :=
  let c := bump_handler c in
  (c, Ok (secretbox plaintext (nonce c) (base_key c))).

Definition decrypt (c : CryptoHandler) (ciphertext : list byte)
  : CryptoHandler * result DecryptError (list byte) :=
  if zlen ciphertext <? MAC_LEN then (c, Err DShort)
  else
    let saved := nonce c in
    let c := bump_handler c in
    match secretbox_open ciphertext (nonce c) (base_key c) with
    | Some out => (c, Ok out)
    | None => (with_nonce c saved, Err BadMac)
    end.

(** Two handlers that encrypt and decrypt the same stream at the same point. *)
Definition synced (c d : CryptoHandler) : Prop := base_key c = base_key d /\ nonce c = nonce d.

Lemma with_nonce_saved c : with_nonce (bump_handler c) (nonce c) = c.
Proof. by destruct c. Qed.

Lemma decrypt_state c ct :
  fst (decrypt c ct) = match snd (decrypt c ct) with Ok _ => bump_handler c | Err _ => c end.
Proof. unfold decrypt. case_all. by rewrite with_nonce_saved. Qed.

Lemma decrypt_into_state c out ct :
  fst (decrypt_into c out ct) =
    match snd (decrypt_into c out ct) with Some _ => bump_handler c | None => c end.
Proof. unfold decrypt_into. case_all. by rewrite with_nonce_saved. Qed.

Lemma decrypt_in_place_state c ct :
  fst (decrypt_in_place c ct) =
    match snd (decrypt_in_place c ct) with Some _ => bump_handler c | None => c end.
Proof. unfold decrypt_in_place. case_all. by rewrite with_nonce_saved. Qed.

(** A rejected ciphertext leaves the handler exactly as it was (the nonce is
    rolled back), for all three decryption entry points; an accepted one
    advances the nonce by one. *)
Theorem decrypt_nonce_step c out ct :
  fst (decrypt c ct) =
    match snd (decrypt c ct) with Ok _ => bump_handler c | Err _ => c end /\
  fst (decrypt_into c out ct) =
    match snd (decrypt_into c out ct) with Some _ => bump_handler c | None => c end /\
  fst (decrypt_in_place c ct) =
    match snd (decrypt_in_place c ct) with Some _ => bump_handler c | None => c end.
Proof.
  split_and!; [apply decrypt_state|apply decrypt_into_state|apply decrypt_in_place_state].
Qed.

(** Rekeying forgets the current epoch: it depends only on the original key
    and the direction, so the server's [n]th reset agrees with a fresh client
    process that rekeys once from the passkey. *)
Theorem rekey_from_original c d salt :
  original_key c = original_key d -> direction c = direction d ->
  snd (rekey c salt) = Ok tt ->
  rekey c salt = rekey d salt.
Proof. unfold rekey. intros -> ->. case_all. Qed.

Section laws.
Context {laws : SodiumLaws sodium}.

Lemma secretbox_zlen m n k : zlen (secretbox m n k) = zlen m + MAC_LEN.
Proof. unfold secretbox, secretbox_with_prefix. rewrite app_nil_l. apply easy_zlen. Qed.

Lemma secretbox_roundtrip m n k : secretbox_open (secretbox m n k) n k = Some m.
Proof.
  unfold secretbox_open. rewrite secretbox_zlen. pose proof (zlen_nonneg m).
  unfold MAC_LEN. decide_ifs. apply open_easy.
Qed.

(** The step the two ends of a stream share: what the synced sender encrypted
    decrypts, and the ends are synced again. *)
Lemma decrypt_sealed d m :
  decrypt d (crypto_secretbox_easy m (bump (nonce d)) (base_key d)) = (bump_handler d, Ok m).
Proof.
  unfold decrypt. rewrite easy_zlen. pose proof (zlen_nonneg m).
  assert ((zlen m + MAC_LEN <? MAC_LEN) = false) as -> by lia.
  pose proof (secretbox_roundtrip m (bump (nonce d)) (base_key d)) as R.
  unfold secretbox, secretbox_with_prefix in R. rewrite app_nil_l in R.
  simpl. by rewrite R.
Qed.

(** A decrypting handler in step with the encrypting one recovers the
    plaintext and stays in step: after any sequence of messages the receiver
    has exactly the sender's plaintexts. *)
Fixpoint encrypt_all (c : CryptoHandler) (ms : list (list byte))
  : CryptoHandler * list (list byte) :=
  match ms with
  | [] => (c, [])
  | m :: ms =>
      match encrypt c m with
      | (c, Ok ct) => let (c, cts) := encrypt_all c ms in (c, ct :: cts)
      | (c, Err _) => (c, [])
      end
  end.

Fixpoint decrypt_all (d : CryptoHandler) (cts : list (list byte))
  : CryptoHandler * result DecryptError (list (list byte)) :=
  match cts with
  | [] => (d, Ok [])
  | ct :: cts =>
      match decrypt d ct with
      | (d, Ok m) =>
          match decrypt_all d cts with
          | (d, Ok ms) => (d, Ok (m :: ms))
          | (d, Err e) => (d, Err e)
          end
      | (d, Err e) => (d, Err e)
      end
  end.

(** A peer with the same key and nonce decrypts a whole stream of messages, in
    order, and the two handlers end in step. *)
Theorem cipher_stream_roundtrip c d ms :
  synced c d ->
  exists d', decrypt_all d (snd (encrypt_all c ms)) = (d', Ok ms) /\
    synced (fst (encrypt_all c ms)) d'.
Proof.
  revert c d. induction ms as [|m ms IH]; intros c d [Hk Hn]; simpl; [by exists d|].
  destruct (IH (bump_handler c) (bump_handler d)) as (d' & Hd & Hs).
  { split; simpl; congruence. }
  destruct (encrypt_all (bump_handler c) ms) as [c' cts] eqn:E. simpl in *.
  exists d'. split; [|done].
  unfold secretbox, secretbox_with_prefix. rewrite app_nil_l, Hn, Hk, decrypt_sealed.
  by rewrite Hd.
Qed.

(** The buffer-writing variants agree with the allocating ones: same
    ciphertext at the front of the buffer, same plaintext, same handler. *)
Theorem into_variants_agree c out m :
  zlen m + MAC_LEN <= zlen out ->
  let ct := secretbox m (bump (nonce c)) (base_key c) in
  encrypt c m = (bump_handler c, Ok ct) /\
  encrypt_into c out m =
    (bump_handler c, Ok (ct ++ zdrop (zlen ct) out, zlen m + MAC_LEN)) /\
  decrypt_into c out ct = (bump_handler c, Some (m ++ zdrop (zlen m) out, zlen m)) /\
  decrypt_in_place c ct = (bump_handler c, Some (m ++ zdrop (zlen m) ct, zlen m)).
Proof.
  intros H ct. pose proof (zlen_nonneg m) as Hm. unfold MAC_LEN in H.
  pose proof (secretbox_zlen m (bump (nonce c)) (base_key c)) as Hct. fold ct in Hct.
  assert (crypto_secretbox_open_easy ct (bump (nonce c)) (base_key c) = Some m) as Ho.
  { apply open_easy. }
  unfold MAC_LEN in Hct.
  unfold encrypt, encrypt_into, secretbox_into, decrypt_into, secretbox_open_into,
    decrypt_in_place, secretbox_open_in_place, MAC_LEN; cbn [bump_handler with_nonce nonce base_key].
  rewrite Ho, Hct. decide_ifs. unfold overwrite.
  change (crypto_secretbox_easy m (bump (nonce c)) (base_key c)) with ct. rewrite Hct.
  by replace (zlen m + 16 - 16) with (zlen m) by lia.
Qed.
End laws.
End handler.

(** ** Connection proofs *)

(** [n.to_string().into_bytes()] for [i32] and [usize]. *)
Definition dec (z : Z) : list byte := bytes_of (NilZero.string_of_int (Z.to_int z)).

Definition constant_time_eq (left right : list byte) : bool :=
  if negb (zlen left =? zlen right) then false
  else fold_left (fun diff ab => Z.lor diff (Z.lxor (b2z ab.1) (b2z ab.2)))
         (zip left right) 0 =? 0.

Definition connection_proof_message (client_id : list byte) (protocol_version : Z)
    (challenge : list byte) (reset_intent : bool) : list byte :=
  bytes_of "EternalTerminal connect auth v2" ++ [x00] ++
  dec protocol_version ++ [x00] ++
  dec (zlen client_id) ++ [x00] ++
  client_id ++ [x00] ++
  dec (zlen challenge) ++ [x00] ++
  challenge ++ [x00] ++
  [if reset_intent then "1"%byte else "0"%byte].

Definition reset_decision_message (client_id : list byte) (protocol_version : Z)
    (challenge : list byte) (status : Z) (reset_required : bool) (reset_salt : list byte)
  : list byte :=
  bytes_of "EternalTerminal reset decision v3" ++ [x00] ++
  dec protocol_version ++ [x00] ++
  client_id ++ [x00] ++
  dec (zlen challenge) ++ [x00] ++
  challenge ++ [x00] ++
  dec status ++ [x00] ++
  [if reset_required then "1"%byte else "0"%byte] ++ [x00] ++
  dec (zlen reset_salt) ++ [x00] ++
  reset_salt.

Section proofs.
Context {sodium : Sodium}.

Definition connection_proof (key client_id : list byte) (protocol_version : Z)
    (challenge : list byte) (reset_intent : bool) : result ProofError (list byte) :=
  if negb (zlen challenge =? AUTH_CHALLENGE_BYTES) then Err ProofErr
  else generichash key
         (connection_proof_message client_id protocol_version challenge reset_intent).

Definition verify_connection_proof (proof key client_id : list byte) (protocol_version : Z)
    (challenge : list byte) (reset_intent : bool) : bool :=
  if negb (zlen proof =? PROOF_BYTES) || negb (zlen challenge =? AUTH_CHALLENGE_BYTES)
  then false
  else
    match connection_proof key client_id protocol_version challenge reset_intent with
    | Ok expected => constant_time_eq proof expected
    | Err _ => false
    end.

Definition reset_decision_proof (key client_id : list byte) (protocol_version : Z)
    (challenge : list byte) (status : Z) (reset_required : bool) (reset_salt : list byte)
  : result ProofError (list byte) :=
  if negb (zlen challenge =? AUTH_CHALLENGE_BYTES) then Err ProofErr
  else if reset_required && negb (zlen reset_salt =? EPOCH_SALT_BYTES) then Err ProofErr
  else if negb reset_required && negb (zlen reset_salt =? 0) then Err ProofErr
  else generichash key
         (reset_decision_message client_id protocol_version challenge status
            reset_required reset_salt).

Definition verify_reset_decision_proof (proof key client_id : list byte)
    (protocol_version : Z) (challenge : list byte) (status : Z) (reset_required : bool)
    (reset_salt : list byte) : bool :=
  if negb (zlen proof =? PROOF_BYTES) || negb (zlen challenge =? AUTH_CHALLENGE_BYTES)
  then false
  else
    match reset_decision_proof key client_id protocol_version challenge status
            reset_required reset_salt with
    | Ok expected => constant_time_eq proof expected
    | Err _ => false
    end.
End proofs.

Lemma fold_lor_zero (l : list (byte * byte)) acc :
  fold_left (fun diff ab => Z.lor diff (Z.lxor (b2z ab.1) (b2z ab.2))) l acc = 0 <->
  acc = 0 /\ Forall (fun ab => ab.1 = ab.2) l.
Proof.
  revert acc. induction l as [|[a b] l IH]; intros acc; simpl.
  - split; [by intros ->|by intros [-> _]].
  - rewrite IH, Z.lor_eq_0_iff, Z.lxor_eq_0_iff, Forall_cons_iff. simpl.
    split; [intros ((-> & H%b2z_inj) & ?)|intros (-> & -> & ?)]; auto.
Qed.

Lemma constant_time_eq_spec l k : constant_time_eq l k = true <-> l = k.
Proof.
  unfold constant_time_eq, zlen.
  destruct (Z.eqb_spec (Z.of_nat (length l)) (Z.of_nat (length k))) as [E|E]; simpl.
  - rewrite Z.eqb_eq, fold_lor_zero. apply Nat2Z.inj in E. split; [intros [_ H]|intros ->].
    + revert k E H. induction l as [|a l IH]; intros [|b k]; simpl; try done.
      intros E [Hab H]%Forall_cons_iff. simpl in Hab. subst b. f_equal. apply IH; [lia|done].
    + split; [done|]. clear E. induction k; simpl; by constructor.
  - split; [done|]. by intros ->.
Qed.

(** *** The signed messages determine what was signed *)

Lemma to_int_not_nil z :
  Z.to_int z <> Decimal.Pos Decimal.Nil /\ Z.to_int z <> Decimal.Neg Decimal.Nil.
Proof.
  split; intros E; pose proof (DecimalZ.of_to z) as H; rewrite E in H; by subst z.
Qed.

Lemma dec_inj a b : dec a = dec b -> a = b.
Proof.
  unfold dec, bytes_of. intros H%(f_equal string_of_list_byte).
  rewrite !string_of_list_byte_of_string in H.
  apply (f_equal NilZero.int_of_string) in H.
  rewrite !NilZero.isi in H by apply to_int_not_nil.
  injection H as H%(f_equal Z.of_int). by rewrite !DecimalZ.of_to in H.
Qed.

Lemma nil_empty_no_nul u : x00 ∉ bytes_of (NilEmpty.string_of_uint u).
Proof.
  unfold bytes_of.
  induction u; cbn; rewrite ?not_elem_of_cons; auto using not_elem_of_nil.
Qed.

Lemma dec_no_nul z : x00 ∉ dec z.
Proof.
  unfold dec, bytes_of. destruct (Z.to_int z) as [u|u]; cbn;
    rewrite ?not_elem_of_cons; split_and?; try done;
    unfold NilZero.string_of_uint; destruct u;
      (apply nil_empty_no_nul || (cbn; set_solver)).
Qed.

(** A NUL-terminated field is read back uniquely. *)
Lemma nul_field_inj (a b r s : list byte) :
  x00 ∉ a -> x00 ∉ b -> a ++ [x00] ++ r = b ++ [x00] ++ s -> a = b /\ r = s.
Proof.
  revert b. induction a as [|x a IH]; intros [|y b]; simpl; intros Ha Hb H; simplify_eq.
  - done.
  - set_solver.
  - set_solver.
  - destruct (IH b) as [-> ->]; set_solver.
Qed.

(** A field whose length is fixed beforehand is read back uniquely. *)
Lemma sized_field_inj (a b r s : list byte) :
  zlen a = zlen b -> a ++ r = b ++ s -> a = b /\ r = s.
Proof. unfold zlen. intros E H. apply app_inj_1 in H; [done|lia]. Qed.

(** Peel a decimal field off an equation between two messages. *)
Ltac peel_dec H :=
  apply nul_field_inj in H as [?%dec_inj H]; [|apply dec_no_nul|apply dec_no_nul].

(** The message signed by the connection proof determines the client id, the
    protocol version, the challenge and the reset intent: no two connection
    attempts share one. *)
Theorem connection_proof_message_inj id1 v1 ch1 r1 id2 v2 ch2 r2 :
  connection_proof_message id1 v1 ch1 r1 = connection_proof_message id2 v2 ch2 r2 ->
  id1 = id2 /\ v1 = v2 /\ ch1 = ch2 /\ r1 = r2.
Proof.
  unfold connection_proof_message. intros H.
  apply app_inv_head, app_inv_head in H. peel_dec H. peel_dec H.
  apply sized_field_inj in H as [-> H]; [|done].
  apply app_inv_head in H. peel_dec H.
  apply sized_field_inj in H as [-> H]; [|done].
  apply app_inv_head in H. split_and!; try done. by destruct r1, r2.
Qed.

(** The reset decision is likewise unambiguous for client ids without a NUL
    byte (ids are alphanumeric), and a reset decision is never a connection
    proof message. *)
Theorem reset_decision_message_inj id1 v1 ch1 st1 q1 salt1 id2 v2 ch2 st2 q2 salt2 :
  x00 ∉ id1 -> x00 ∉ id2 ->
  reset_decision_message id1 v1 ch1 st1 q1 salt1 =
    reset_decision_message id2 v2 ch2 st2 q2 salt2 ->
  id1 = id2 /\ v1 = v2 /\ ch1 = ch2 /\ st1 = st2 /\ q1 = q2 /\ salt1 = salt2.
Proof.
  unfold reset_decision_message. intros N1 N2 H.
  apply app_inv_head, app_inv_head in H. peel_dec H.
  apply nul_field_inj in H as [-> H]; [|done..]. peel_dec H.
  apply sized_field_inj in H as [-> H]; [|done].
  apply app_inv_head in H. peel_dec H.
  apply sized_field_inj in H as [Hq H]; [|done].
  apply app_inv_head in H. peel_dec H.
  split_and!; try done. by destruct q1, q2.
Qed.

Lemma message_domains_differ id1 v1 ch1 r1 id2 v2 ch2 st2 q2 salt2 :
  connection_proof_message id1 v1 ch1 r1 <> reset_decision_message id2 v2 ch2 st2 q2 salt2.
Proof. done. Qed.

Section verify.
Context {sodium : Sodium} {laws : SodiumLaws sodium}.

Lemma generichash_zlen k m d : generichash k m = Ok d -> zlen d = PROOF_BYTES.
Proof. unfold generichash. case_match eqn:E; intros; simplify_eq. by eapply blake2b_zlen. Qed.

Lemma verify_connection_proof_iff proof key id v ch q :
  verify_connection_proof proof key id v ch q = true <-> connection_proof key id v ch q = Ok proof.
Proof.
  unfold verify_connection_proof. destruct (connection_proof key id v ch q) as [d|e] eqn:E.
  - assert (zlen d = PROOF_BYTES /\ zlen ch = AUTH_CHALLENGE_BYTES) as [Hd Hc].
    { unfold connection_proof in E. case_all. split; [by eapply generichash_zlen|lia]. }
    case_match eqn:T; [|rewrite constant_time_eq_spec; naive_solver].
    split; [done|]. intros [= ->]. lia.
  - by case_match.
Qed.

Lemma verify_reset_decision_proof_iff proof key id v ch st q salt :
  verify_reset_decision_proof proof key id v ch st q salt = true <->
  reset_decision_proof key id v ch st q salt = Ok proof.
Proof.
  unfold verify_reset_decision_proof. destruct (reset_decision_proof key id v ch st q salt) as [d|e] eqn:E.
  - assert (zlen d = PROOF_BYTES /\ zlen ch = AUTH_CHALLENGE_BYTES) as [Hd Hc].
    { unfold reset_decision_proof in E. case_all. split; [by eapply generichash_zlen|lia]. }
    case_match eqn:T; [|rewrite constant_time_eq_spec; naive_solver].
    split; [done|]. intros [= ->]. lia.
  - by case_match.
Qed.

(** The verifiers accept exactly the proof the prover computes: a proof is
    accepted if and only if it is the keyed hash of the same id, version,
    challenge and intent, so a challenge of the wrong size, or a salt that does
    not fit the reset flag, is never accepted. *)
Theorem verify_accepts_exactly_the_proof proof key id v ch st q salt :
  (verify_connection_proof proof key id v ch q = true <->
     connection_proof key id v ch q = Ok proof) /\
  (verify_reset_decision_proof proof key id v ch st q salt = true <->
     reset_decision_proof key id v ch st q salt = Ok proof).
Proof. split; [apply verify_connection_proof_iff|apply verify_reset_decision_proof_iff]. Qed.

Lemma rekey_ok c salt :
  zlen (original_key c) <= 64 -> zlen salt = EPOCH_SALT_BYTES ->
  exists derived, rekey c salt =
    ({| original_key := original_key c; base_key := derived;
        nonce := nonce0 (direction c); direction := direction c |}, Ok tt).
Proof.
  intros Hk Hs. unfold rekey, generichash. rewrite Hs. simpl.
  destruct (blake2b_accepts _ salt Hk) as [d ->]. by exists d.
Qed.
End verify.

(** ** A concrete cipher

    Not a cipher anyone should use: the tag is the first 16 bytes of the
    nonce. It satisfies every law, so the theorems about the code hold of a
    computable instance. *)

Definition toy_tag (n : list byte) : list byte := ztake 16 (n ++ replicate 16 x00).

#[local] Instance toy_sodium : Sodium := {|
  crypto_secretbox_easy m n k := toy_tag n ++ m;
  crypto_secretbox_open_easy c n k :=
    if zlen c <? 16 then None
    else if decide (ztake 16 c = toy_tag n) then Some (zdrop 16 c) else None;
  blake2b_mac k m :=
    if zlen k <=? 64 then Some (ztake 32 (m ++ k ++ replicate 32 x00)) else None
|}.

Lemma zlen_toy_tag n : zlen (toy_tag n) = 16.
Proof. unfold toy_tag. len_lia. Qed.

#[local] Instance toy_laws : SodiumLaws toy_sodium.
Proof.
  split; simpl.
  - intros. rewrite zlen_app, zlen_toy_tag. unfold MAC_LEN. lia.
  - intros. pose proof (zlen_toy_tag n) as Hn. rewrite zlen_app, Hn.
    pose proof (zlen_nonneg m). decide_ifs.
    rewrite <-Hn, ztake_app_exact, zdrop_app_exact. by rewrite decide_True.
  - intros c n k m. case_all. intros [= <-]. unfold MAC_LEN. len_lia.
  - intros k m H. decide_ifs. by eexists.
  - intros k m d. case_all. intros [= <-]. unfold PROOF_BYTES. len_lia.
Qed.

(** ** Witnesses *)

Definition demo_handler : CryptoHandler := new (replicate 32 x61) DIR_CLIENT_TO_SERVER.

Lemma nonce_unique_witness : bumps 3 (nonce0 x00) = bumps 3 (nonce0 x00) /\ x00 = x00 /\ 3%nat = 3%nat.
Proof. split; [done|]. apply (nonce_unique x00 x00 3 3); done. Defined.

Lemma rekey_from_original_witness :
  rekey demo_handler (replicate 32 x62) = rekey (bump_handler demo_handler) (replicate 32 x62).
Proof. apply (rekey_from_original demo_handler (bump_handler demo_handler)); vm_compute; done. Defined.

Lemma cipher_stream_roundtrip_witness :
  exists d', decrypt_all demo_handler (snd (encrypt_all demo_handler [[x61]; [x62; x63]])) =
    (d', Ok [[x61]; [x62; x63]]) /\ synced (fst (encrypt_all demo_handler [[x61]; [x62; x63]])) d'.
Proof. apply (cipher_stream_roundtrip (laws := toy_laws) demo_handler demo_handler). done. Defined.

Lemma into_variants_agree_witness :
  encrypt demo_handler [x61] =
    (bump_handler demo_handler, Ok (secretbox [x61] (bump (nonce demo_handler)) (base_key demo_handler))).
Proof.
  apply (into_variants_agree (laws := toy_laws) demo_handler (replicate 20 x00) [x61]).
  vm_compute. congruence.
Defined.

Lemma connection_proof_message_inj_witness : [x61] = [x61] /\ 6 = 6 /\ [x62] = [x62] /\ true = true.
Proof. by apply (connection_proof_message_inj [x61] 6 [x62] true [x61] 6 [x62] true). Defined.

Lemma reset_decision_message_inj_witness :
  [x61] = [x61] /\ 6 = 6 /\ [x62] = [x62] /\ 1 = 1 /\ true = true /\ [x63] = [x63].
Proof.
  apply (reset_decision_message_inj [x61] 6 [x62] 1 true [x63] [x61] 6 [x62] 1 true [x63]);
    [by intros ?%list_elem_of_singleton..|done].
Defined.

Lemma verify_accepts_exactly_the_proof_witness :
  verify_connection_proof (sodium := toy_sodium) [x61] (replicate 32 x61) [x62] 6 [x63] true = true <->
  connection_proof (sodium := toy_sodium) (replicate 32 x61) [x62] 6 [x63] true = Ok [x61].
Proof.
  exact (proj1 (verify_accepts_exactly_the_proof (laws := toy_laws)
    [x61] (replicate 32 x61) [x62] 6 [x63] 1 true [])).
Defined.
