(* ===== verification/Packet.v ===== *)
(** * Packet: [crates/et-core/src/packet.rs]

    The packet [encrypted_flag | header | payload] and the hand-written
    [TerminalBuffer] codec that queued terminal output is merged with. *)

From Stdlib Require Import String.
From S2P Require Import Prelude Bytes Crypto.

(** [TerminalPacketType::TerminalBuffer as u8]. *)
Definition TERMINAL_BUFFER : byte := x01.

Definition HEADER_LEN : Z := 2.

Record Packet := mkPacket {
  encrypted : bool;
  header : byte;
  payload : list byte
}.

#[export] Instance Packet_eq_dec : EqDecision Packet.
Proof. solve_decision. Defined.

Inductive PacketError := PShort.

Definition new (hdr : byte) (body : list byte) : Packet := mkPacket false hdr body.

Definition raw (enc : bool) (hdr : byte) (body : list byte) : Packet := mkPacket enc hdr body.

Definition from_serialized (bytes : list byte) : result PacketError Packet :=
  match bytes with
  | flag :: hdr :: body => Ok (mkPacket (negb (b2z flag =? 0)) hdr body)
  | _ => Err PShort
  end.

(** The owning variant drains the two header bytes in place. *)
Definition from_serialized_vec (bytes : list byte) : result PacketError Packet :=
  if zlen bytes <? HEADER_LEN then Err PShort else
  match bytes !! 0%nat, bytes !! 1%nat with
  | Some flag, Some hdr => Ok (mkPacket (negb (b2z flag =? 0)) hdr (zdrop HEADER_LEN bytes))
  | _, _ => Err PShort
  end.

Definition wire_len (p : Packet) : Z := HEADER_LEN + zlen (payload p).

Definition serialize (p : Packet) : list byte :=
  [z2b (if encrypted p then 1 else 0); header p] ++ payload p.

Section cipher.
Context {sodium : Sodium}.

Definition encrypt (p : Packet) (crypto : CryptoHandler)
  : CryptoHandler * result EncryptError Packet :=
  match Crypto.encrypt crypto (payload p) with
  | (c, Ok ct) => (c, Ok (mkPacket true (header p) ct))
  | (c, Err e) => (c, Err e)
  end.

Definition decrypt (p : Packet) (crypto : CryptoHandler)
  : CryptoHandler * result DecryptError Packet :=
  if negb (encrypted p) then (crypto, Ok p)
  else
    match Crypto.decrypt crypto (payload p) with
    | (c, Ok m) => (c, Ok (mkPacket false (header p) m))
    | (c, Err e) => (c, Err e)
    end.
End cipher.

(** ** The terminal-buffer codec *)

(** [x.checked_shl(s)] on [usize]: fails only on the shift amount. *)
Definition usize_checked_shl (x s : Z) : option Z :=
  if s <? 64 then Some (Z.land (Z.shiftl x s) usize_max) else None.

(** The length loop of [decode_terminal_buffer], on the bytes from [idx] on. *)
Fixpoint decode_len (bytes : list byte) (len shift idx : Z) : option (Z * Z) :=
  match bytes with
  | [] => None
  | b :: rest =>
      let idx := idx + 1 in
      let! low := usize_checked_shl (Z.land (b2z b) 0x7f) shift in
      let len := Z.lor len low in
      if Z.land (b2z b) 0x80 =? 0 then Some (len, idx)
      else
        let shift := shift + 7 in
        if 35 <=? shift then None else decode_len rest len shift idx
  end.

Definition decode_terminal_buffer (payload : list byte) : option (list byte * bool) :=
  match payload with
  | [] => None
  | tag :: rest =>
      if negb (b2z tag =? 0x0a) then None
      else
        let! (len, idx) := decode_len rest 0 0 1 in
        let! end_ := usize_checked_add idx len in
        if zlen payload <? end_ then None
        else
          let buf := slice payload idx end_ in
          match zdrop end_ payload with
          | [] => Some (buf, false)
          | [t; v] =>
              if negb (b2z t =? 0x10) then None
              else if b2z v =? 0 then Some (buf, false)
              else if b2z v =? 1 then Some (buf, true)
              else None
          | _ => None
          end
  end.

(** [encode_varint] writes into a ten-byte array; the fuel is its size. *)
Fixpoint encode_varint_go (fuel : nat) (value : Z) : list byte :=
  match fuel with
  | O => []
  | S fuel =>
      if 0x80 <=? value
      then z2b (Z.lor (b2z (z2b value)) 0x80) :: encode_varint_go fuel (Z.shiftr value 7)
      else [z2b value]
  end.

Definition encode_varint (value : Z) : list byte := encode_varint_go 10 value.

Definition encode_terminal_buffer (bytes : list byte) (is_stderr : bool) : list byte :=
  [z2b 0x0a] ++ encode_varint (zlen bytes) ++ bytes ++
  (if is_stderr then [z2b 0x10; z2b 0x01] else []).

(** The mutated packet and whether the bytes were appended. *)
Definition append_terminal_buffer (packet : Packet) (bytes : list byte) (is_stderr : bool)
    (limit : Z) : Packet * bool :=
  if encrypted packet then (packet, false)
  else
    match decode_terminal_buffer (payload packet) with
    | None => (packet, false)
    | Some (body, stderr) =>
        let old_len := zlen body in
        let new_len := old_len + zlen bytes in
        if negb (Bool.eqb stderr is_stderr) || (limit <? new_len) then (packet, false)
        else
          let old_prefix := 1 + zlen (encode_varint old_len) in
          let varint := encode_varint new_len in
          let new_prefix := 1 + zlen varint in
          let p := ztake (old_prefix + old_len) (payload packet) in
          let p := if old_prefix <? new_prefix
                   then ztake 1 p ++ replicate (Z.to_nat (new_prefix - old_prefix)) x00 ++ zdrop 1 p
                   else p in
          let p := ztake 1 p ++ varint ++ zdrop new_prefix p in
          let p := p ++ bytes in
          let p := if is_stderr then p ++ [z2b 0x10; z2b 0x01] else p in
          (mkPacket (encrypted packet) (header packet) p, true)
    end.

(** Examples, as in the tests of [packet.rs]. *)
Example serialize_unencrypted :
  serialize (new x00 (bytes_of "hello")) = [x00; x00] ++ bytes_of "hello".
Proof. reflexivity. Qed.
Example decode_example :
  decode_terminal_buffer (encode_terminal_buffer (bytes_of "hello") true) =
    Some (bytes_of "hello", true).
Proof. vm_compute. reflexivity. Qed.

(** ** Serialisation *)

Lemma from_serialized_vec_eq bytes : from_serialized_vec bytes = from_serialized bytes.
Proof.
  unfold from_serialized_vec, HEADER_LEN.
  destruct bytes as [|a [|b bytes]]; try done. by decide_ifs.
Qed.

(** Parsing inverts serialisation for both parsers; the parsers agree on every
    input and reject exactly the inputs shorter than the two header bytes. *)
Theorem packet_roundtrip p bytes :
  from_serialized (serialize p) = Ok p /\
  from_serialized_vec bytes = from_serialized bytes /\
  (from_serialized bytes = Err PShort <-> zlen bytes < HEADER_LEN) /\
  zlen (serialize p) = wire_len p.
Proof.
  split_and!.
  - destruct p as [[] h body]; done.
  - apply from_serialized_vec_eq.
  - unfold HEADER_LEN. destruct bytes as [|a [|b bytes]]; simpl; split; intros; try done.
    len_lia.
  - unfold serialize, wire_len, HEADER_LEN. len_lia.
Qed.

Section cipher_lemmas.
Context {sodium : Sodium} {laws : SodiumLaws sodium}.

Lemma decrypt_encrypt p c d :
  encrypted p = false -> synced c d ->
  exists q, encrypt p c = (bump_handler c, Ok q) /\
    encrypted q = true /\ decrypt q d = (bump_handler d, Ok p).
Proof.
  intros Hp [Hk Hn]. unfold encrypt, Crypto.encrypt. eexists. split_and!; [done|done|].
  unfold decrypt. simpl.
  unfold secretbox, secretbox_with_prefix. rewrite app_nil_l, Hk, Hn, decrypt_sealed.
  destruct p; simpl in *; by subst.
Qed.
End cipher_lemmas.

(** ** Bit arithmetic of the varint *)

Lemma land_7f b : Z.land (b2z b) 0x7f = b2z b mod 128.
Proof. destruct b; reflexivity. Qed.
Lemma land_80 b : (Z.land (b2z b) 0x80 =? 0) = (b2z b <? 128).
Proof. destruct b; reflexivity. Qed.
Lemma lor_80 b : Z.lor (b2z b) 0x80 = b2z b mod 128 + 128.
Proof. destruct b; reflexivity. Qed.

Lemma lor_shiftl_add a x s :
  0 <= s -> 0 <= a < 2 ^ s -> Z.lor a (Z.shiftl x s) = a + x * 2 ^ s.
Proof.
  intros Hs Ha. rewrite <-Z.shiftl_mul_pow2 by done.
  assert (Z.land a (Z.shiftl x s) = 0) as Hl.
  { apply Z.bits_inj'. intros n Hn. rewrite Z.land_spec, Z.bits_0.
    destruct (Z.lt_ge_cases n s).
    - rewrite Z.shiftl_spec_low by done. apply andb_false_r.
    - rewrite <-(Z.mod_small a (2 ^ s)) by done.
      by rewrite Z.mod_pow2_bits_high by lia. }
  by rewrite Z.add_nocarry_lxor, Z.lxor_lor.
Qed.

Lemma usize_checked_shl_small x s :
  0 <= s < 64 -> 0 <= x -> x * 2 ^ s < 2 ^ 64 -> usize_checked_shl x s = Some (Z.shiftl x s).
Proof.
  intros Hs Hx H. unfold usize_checked_shl. decide_ifs. f_equal.
  change usize_max with (Z.ones 64).
  rewrite Z.land_ones by lia. rewrite Z.shiftl_mul_pow2 by lia.
  apply Z.mod_small. split; [|done].
  apply Z.mul_nonneg_nonneg; [done|]. apply Z.pow_nonneg. lia.
Qed.

(** One group of seven bits: what the decoder reads back of what the encoder
    wrote. *)
Lemma group_value v : 0 <= v -> b2z (z2b (Z.lor (b2z (z2b v)) 0x80)) = v mod 128 + 128.
Proof.
  intros Hv. rewrite lor_80, !b2z_z2b.
  rewrite Z.mod_mod_divide by (by exists 2).
  apply Z.mod_small. pose proof (Z.mod_pos_bound v 128). lia.
Qed.

Lemma encode_varint_go_pos fuel v : 1 <= zlen (encode_varint_go (S fuel) v).
Proof. simpl. case_match; len_lia. Qed.

Lemma decode_len_encode (k fuel : nat) v rest len idx :
  (1 <= k <= 5)%nat -> (k <= fuel)%nat -> 0 <= v < 128 ^ Z.of_nat k ->
  0 <= len < 2 ^ (7 * (5 - Z.of_nat k)) ->
  decode_len (encode_varint_go fuel v ++ rest) len (7 * (5 - Z.of_nat k)) idx =
    Some (len + v * 2 ^ (7 * (5 - Z.of_nat k)), idx + zlen (encode_varint_go fuel v)).
Proof.
  revert fuel v len idx. induction k as [|k IH]; intros fuel v len idx Hk Hf Hv Hl; [lia|].
  destruct fuel as [|fuel]; [lia|]. set (s := 7 * (5 - Z.of_nat (S k))) in *.
  assert (0 <= s <= 28) as Hs by lia.
  assert (2 ^ s <= 2 ^ 28) as Hp by (apply Z.pow_le_mono_r; lia).
  assert (0 < 2 ^ s) by (apply Z.pow_pos_nonneg; lia).
  cbn [encode_varint_go]. destruct (Z.leb_spec 0x80 v) as [Hge|Hlt]; cbn [app decode_len]; cbv zeta.
  - rewrite land_7f, land_80, group_value by lia.
    pose proof (Z.mod_pos_bound v 128 ltac:(lia)) as Hm.
    rewrite <-Zplus_mod_idemp_r, Z_mod_same_full, Z.add_0_r, Zmod_mod.
    rewrite usize_checked_shl_small by nia.
    rewrite lor_shiftl_add by lia. decide_ifs.
    assert (1 <= Z.of_nat k) as Hk1.
    { destruct k; [|lia]. change (128 ^ Z.of_nat 1) with 128 in Hv. lia. }
    rewrite Z.shiftr_div_pow2 by lia. change (2 ^ 7) with 128.
    replace (s + 7) with (7 * (5 - Z.of_nat k)) by lia.
    assert (2 ^ (7 * (5 - Z.of_nat k)) = 2 ^ s * 128) as Hpow.
    { replace (7 * (5 - Z.of_nat k)) with (s + 7) by lia. rewrite Z.pow_add_r by lia. lia. }
    rewrite IH; [|lia|lia| |rewrite Hpow; nia].
    + rewrite zlen_cons, Hpow. pose proof (Z.div_mod v 128 ltac:(lia)).
      decide_ifs. do 2 f_equal; [nia|lia].
    + replace (Z.of_nat (S k)) with (Z.of_nat k + 1) in Hv by lia.
      rewrite Z.pow_add_r in Hv by lia.
      split; [apply Z.div_pos; lia|apply Z.div_lt_upper_bound; lia].
  - rewrite land_7f, land_80, b2z_z2b_small by lia.
    rewrite (Z.mod_small v 128) by lia. rewrite usize_checked_shl_small by nia.
    rewrite lor_shiftl_add by lia. decide_ifs. done.
Qed.

(** How [decode_terminal_buffer] reads what follows the buffer. *)
Definition stderr_suffix (sfx : list byte) : option bool :=
  match sfx with
  | [] => Some false
  | [t; v] =>
      if negb (b2z t =? 0x10) then None
      else if b2z v =? 0 then Some false
      else if b2z v =? 1 then Some true
      else None
  | _ => None
  end.

Lemma encode_varint_zlen v : 1 <= zlen (encode_varint v) <= 10.
Proof.
  unfold encode_varint. split; [apply encode_varint_go_pos|].
  assert (forall f w, zlen (encode_varint_go f w) <= Z.of_nat f) as H; [|exact (H 10%nat v)].
  induction f as [|f IH]; intros w; cbn [encode_varint_go]; [done|].
  case_match; [specialize (IH (Z.shiftr w 7))|]; len_lia.
Qed.

Lemma decode_canonical body sfx :
  zlen body < 2 ^ 35 ->
  decode_terminal_buffer ([z2b 0x0a] ++ encode_varint (zlen body) ++ body ++ sfx) =
    (b ← stderr_suffix sfx; Some (body, b)).
Proof.
  intros H. unfold decode_terminal_buffer. set (vs := encode_varint (zlen body)).
  pose proof (encode_varint_zlen (zlen body)) as Hvs. fold vs in Hvs.
  cbn [app]. change (negb (b2z (z2b 10) =? 10)) with false. cbv iota.
  pose proof (decode_len_encode 5 10 (zlen body) (body ++ sfx) 0 1) as HD.
  change (7 * (5 - Z.of_nat 5)) with 0 in HD. change (encode_varint_go 10 (zlen body)) with vs in HD.
  pose proof (zlen_nonneg body). change (128 ^ Z.of_nat 5) with (2 ^ 35) in HD.
  rewrite HD by lia. cbv iota zeta.
  rewrite Z.add_0_l, Z.mul_1_r.
  unfold usize_checked_add, usize_max, u64_max. decide_ifs.
  set (p := z2b 10 :: vs ++ body ++ sfx).
  assert (zdrop (1 + zlen vs + zlen body) p = sfx) as ->.
  { unfold p. replace (1 + zlen vs + zlen body) with (zlen (z2b 10 :: vs ++ body)) by len_lia.
    rewrite (app_assoc vs). exact (zdrop_app_exact (z2b 10 :: vs ++ body) sfx). }
  assert (slice p (1 + zlen vs) (1 + zlen vs + zlen body) = body) as ->.
  { unfold slice, p. replace (1 + zlen vs) with (zlen (z2b 10 :: vs)) by len_lia.
    change (z2b 10 :: vs ++ body ++ sfx) with ((z2b 10 :: vs) ++ body ++ sfx).
    rewrite zdrop_app_exact. replace (_ - _) with (zlen body) by lia. apply ztake_app_exact. }
  unfold stderr_suffix. destruct sfx as [|t [|v [|]]]; simpl; try done.
  case_all.
Qed.

Definition stderr_bytes (e : bool) : list byte := if e then [z2b 0x10; z2b 0x01] else [].

Lemma stderr_suffix_bytes e : stderr_suffix (stderr_bytes e) = Some e.
Proof. by destruct e. Qed.

Lemma decode_encode bytes e :
  zlen bytes < 2 ^ 35 ->
  decode_terminal_buffer (encode_terminal_buffer bytes e) = Some (bytes, e).
Proof.
  intros H. unfold encode_terminal_buffer. fold (stderr_bytes e).
  by rewrite decode_canonical, stderr_suffix_bytes.
Qed.

(** Decoding a terminal buffer inverts encoding it, for every buffer the
    five-byte length the decoder accepts can express. *)
Theorem terminal_buffer_roundtrip bytes e :
  zlen bytes < 2 ^ 35 ->
  decode_terminal_buffer (encode_terminal_buffer bytes e) = Some (bytes, e).
Proof. apply decode_encode. Qed.

Lemma encode_varint_go_mono fuel v w :
  0 <= v <= w -> zlen (encode_varint_go fuel v) <= zlen (encode_varint_go fuel w).
Proof.
  revert v w. induction fuel as [|fuel IH]; intros v w H; simpl; [done|].
  destruct (Z.leb_spec 128 v), (Z.leb_spec 128 w); try lia; autorewrite with zlen; [|len_lia|lia].
  apply Z.add_le_mono_l, IH. rewrite !Z.shiftr_div_pow2 by lia.
  split; [apply Z.div_pos; lia|apply Z.div_le_mono; lia].
Qed.

(** The in-place rewrite on a canonical packet: drop the suffix, widen the
    length prefix, overwrite it, append. *)
Lemma append_canonical hdr body sfx e bytes limit :
  zlen body + zlen bytes < 2 ^ 35 -> stderr_suffix sfx = Some e ->
  zlen body + zlen bytes <= limit ->
  append_terminal_buffer
    (mkPacket false hdr ([z2b 0x0a] ++ encode_varint (zlen body) ++ body ++ sfx)) bytes e limit =
  (mkPacket false hdr (encode_terminal_buffer (body ++ bytes) e), true).
Proof.
  intros H Hs Hl. pose proof (zlen_nonneg bytes). unfold append_terminal_buffer.
  cbn [encrypted payload header]. rewrite decode_canonical, Hs by lia. cbn [mbind option_bind].
  cbv zeta. rewrite eqb_reflx. decide_ifs.
  set (vs := encode_varint (zlen body)). set (ws := encode_varint (zlen body + zlen bytes)).
  assert (zlen vs <= zlen ws) as Hvw.
  { apply encode_varint_go_mono. pose proof (zlen_nonneg body). lia. }
  set (tag := z2b 10).
  assert (ztake (1 + zlen vs + zlen body) ([tag] ++ vs ++ body ++ sfx) = [tag] ++ vs ++ body) as ->.
  { replace (1 + zlen vs + zlen body) with (zlen ([tag] ++ vs ++ body)) by len_lia.
    rewrite !(app_assoc vs), !app_assoc. rewrite <-(app_assoc _ body sfx).
    rewrite (app_assoc _ body). apply ztake_app_exact. }
  set (p := if _ <? _ then _ else _).
  assert (exists z, p = [tag] ++ z ++ body /\ zlen z = zlen ws) as (z & -> & Hz).
  { unfold p. destruct (Z.ltb_spec (1 + zlen vs) (1 + zlen ws)).
    - exists (replicate (Z.to_nat (1 + zlen ws - (1 + zlen vs))) x00 ++ vs).
      rewrite <-!app_assoc. split; [done|]. len_lia.
    - exists vs. split; [done|]. lia. }
  assert (zdrop (1 + zlen ws) ([tag] ++ z ++ body) = body) as ->.
  { replace (1 + zlen ws) with (zlen ([tag] ++ z)) by len_lia.
    rewrite app_assoc. apply zdrop_app_exact. }
  change (ztake 1 ([tag] ++ z ++ body)) with [tag].
  unfold encode_terminal_buffer. rewrite zlen_app. fold ws tag.
  destruct e; by rewrite <-!app_assoc, ?app_nil_r.
Qed.

Lemma append_encoded hdr body bytes e e' limit :
  zlen body + zlen bytes < 2 ^ 35 ->
  append_terminal_buffer (new hdr (encode_terminal_buffer body e)) bytes e' limit =
    if Bool.eqb e e' && (zlen body + zlen bytes <=? limit)
    then (new hdr (encode_terminal_buffer (body ++ bytes) e), true)
    else (new hdr (encode_terminal_buffer body e), false).
Proof.
  intros H. destruct (Bool.eqb e e' && _) eqn:T.
  - apply andb_prop in T as [<-%eqb_prop Hl]. unfold new, encode_terminal_buffer at 1.
    fold (stderr_bytes e). apply append_canonical; [done|apply stderr_suffix_bytes|lia].
  - unfold append_terminal_buffer, new. cbn [encrypted payload].
    pose proof (zlen_nonneg bytes). rewrite decode_encode by lia. cbv zeta.
    destruct (Bool.eqb e e'); [|done]. simpl in T |- *. by decide_ifs.
Qed.

(** Merging queued output in place is the same as decoding, concatenating and
    re-encoding: on a packet that carries [body] of one stream, appending
    [bytes] of the same stream within the limit gives the packet of
    [body ++ bytes], and otherwise the packet is left alone and the call says
    so. *)
Theorem append_terminal_buffer_spec hdr body bytes e e' limit :
  zlen body + zlen bytes < 2 ^ 35 ->
  append_terminal_buffer (new hdr (encode_terminal_buffer body e)) bytes e' limit =
    if Bool.eqb e e' && (zlen body + zlen bytes <=? limit)
    then (new hdr (encode_terminal_buffer (body ++ bytes) e), true)
    else (new hdr (encode_terminal_buffer body e), false).
Proof. apply append_encoded. Qed.

(** ** Witnesses *)

Lemma terminal_buffer_roundtrip_witness :
  decode_terminal_buffer (encode_terminal_buffer (bytes_of "ls") true) = Some (bytes_of "ls", true).
Proof. apply (terminal_buffer_roundtrip (bytes_of "ls") true). vm_compute. done. Defined.

Lemma append_terminal_buffer_spec_witness :
  append_terminal_buffer (new x01 (encode_terminal_buffer (bytes_of "ab") false)) (bytes_of "c") false 16 =
    (new x01 (encode_terminal_buffer (bytes_of "ab" ++ bytes_of "c") false), true).
Proof. apply (append_terminal_buffer_spec x01 (bytes_of "ab") (bytes_of "c") false false 16). vm_compute. done. Defined.
