(* ===== verification/BackedReader.v ===== *)
(** * BackedReader: [crates/et-core/src/backed_reader.rs]

    The receiving half of a connection: a growable byte buffer with a read and
    a fill position, frame reassembly, decryption in nonce order, and the replay
    queue filled by a reconnect. The file ends with the refinement of the
    buffer arithmetic to an abstract reader whose buffer is the list of bytes
    received and not yet decoded. *)

From S2P Require Import Prelude Framing Crypto Packet.

Inductive ReadItem := PacketItem (p : Packet) | NeedMore.

Inductive ReadError :=
| Frame (e : FrameError)
| PacketErr (e : PacketError)
| CryptoErr (e : DecryptError)
| Unencrypted.

Definition MIN_SOCKET_READ : Z := 16 * 1024.
Definition MAX_SOCKET_READ : Z := 256 * 1024.
Definition CLIENT_MAX_SOCKET_READ : Z := 64 * 1024.
Definition SERVER_MAX_SOCKET_READ : Z := 96 * 1024.

(** [TerminalPacketType::KeepAlive as u8]. *)
Definition KEEP_ALIVE : byte := x00.

Record BackedReader := mkReader {
  crypto : CryptoHandler;
  partial : list byte;
  offset : Z;
  filled : Z;
  replay : list Packet;
  sequence : Z;
  data_sequence : Z;
  connected : bool;
  read_hint : Z;
  read_requested : Z;
  last_frame_len : Z;
  max_socket_read : Z
}.

(** Field updates. *)
Definition set_buffer (r : BackedReader) (new_partial : list byte) (new_offset : Z) (new_filled : Z) : BackedReader :=
  {| crypto := crypto r; partial := new_partial; offset := new_offset; filled :=
     new_filled; replay := replay r; sequence := sequence r; data_sequence :=
     data_sequence r; connected := connected r; read_hint := read_hint r;
     read_requested := read_requested r; last_frame_len := last_frame_len r;
     max_socket_read := max_socket_read r |}.

Definition set_crypto (r : BackedReader) (new_crypto : CryptoHandler) : BackedReader :=
  {| crypto := new_crypto; partial := partial r; offset := offset r; filled := filled
     r; replay := replay r; sequence := sequence r; data_sequence := data_sequence r;
     connected := connected r; read_hint := read_hint r; read_requested :=
     read_requested r; last_frame_len := last_frame_len r; max_socket_read :=
     max_socket_read r |}.

Definition set_replay (r : BackedReader) (new_replay : list Packet) : BackedReader :=
  {| crypto := crypto r; partial := partial r; offset := offset r; filled := filled r;
     replay := new_replay; sequence := sequence r; data_sequence := data_sequence r;
     connected := connected r; read_hint := read_hint r; read_requested :=
     read_requested r; last_frame_len := last_frame_len r; max_socket_read :=
     max_socket_read r |}.

Definition set_sequences (r : BackedReader) (new_sequence : Z) (new_data_sequence : Z) : BackedReader :=
  {| crypto := crypto r; partial := partial r; offset := offset r; filled := filled r;
     replay := replay r; sequence := new_sequence; data_sequence := new_data_sequence;
     connected := connected r; read_hint := read_hint r; read_requested :=
     read_requested r; last_frame_len := last_frame_len r; max_socket_read :=
     max_socket_read r |}.

Definition set_connected (r : BackedReader) (new_connected : bool) : BackedReader :=
  {| crypto := crypto r; partial := partial r; offset := offset r; filled := filled r;
     replay := replay r; sequence := sequence r; data_sequence := data_sequence r;
     connected := new_connected; read_hint := read_hint r; read_requested :=
     read_requested r; last_frame_len := last_frame_len r; max_socket_read :=
     max_socket_read r |}.

Definition set_hint (r : BackedReader) (new_read_hint : Z) : BackedReader :=
  {| crypto := crypto r; partial := partial r; offset := offset r; filled := filled r;
     replay := replay r; sequence := sequence r; data_sequence := data_sequence r;
     connected := connected r; read_hint := new_read_hint; read_requested :=
     read_requested r; last_frame_len := last_frame_len r; max_socket_read :=
     max_socket_read r |}.

Definition set_requested (r : BackedReader) (new_read_requested : Z) : BackedReader :=
  {| crypto := crypto r; partial := partial r; offset := offset r; filled := filled r;
     replay := replay r; sequence := sequence r; data_sequence := data_sequence r;
     connected := connected r; read_hint := read_hint r; read_requested :=
     new_read_requested; last_frame_len := last_frame_len r; max_socket_read :=
     max_socket_read r |}.

Definition set_frame_len (r : BackedReader) (new_last_frame_len : Z) : BackedReader :=
  {| crypto := crypto r; partial := partial r; offset := offset r; filled := filled r;
     replay := replay r; sequence := sequence r; data_sequence := data_sequence r;
     connected := connected r; read_hint := read_hint r; read_requested :=
     read_requested r; last_frame_len := new_last_frame_len; max_socket_read :=
     max_socket_read r |}.

(** [v[at..at + src.len()].copy_from_slice(src)]. *)
Definition write_at (v : list byte) (at_ : Z) (src : list byte) : list byte :=
  ztake at_ v ++ src ++ zdrop (at_ + zlen src) v.

Section reader.
Context {sodium : Sodium}.

Definition new (c : CryptoHandler) (conn : bool) : BackedReader :=
  {| crypto := c; partial := []; offset := 0; filled := 0; replay := []; sequence := 0;
     data_sequence := 0; connected := conn; read_hint := MIN_SOCKET_READ;
     read_requested := 0; last_frame_len := 0; max_socket_read := MAX_SOCKET_READ |}.

Definition with_max_socket_read (r : BackedReader) (bytes : Z) : BackedReader :=
  {| crypto := crypto r; partial := partial r; offset := offset r; filled := filled r;
     replay := replay r; sequence := sequence r; data_sequence := data_sequence r;
     connected := connected r; read_hint := read_hint r; read_requested := read_requested r;
     last_frame_len := last_frame_len r; max_socket_read := Z.max bytes MIN_SOCKET_READ |}.

(** The bytes received and not yet decoded: [&partial[offset..filled]]. *)
Definition pending (r : BackedReader) : list byte := slice (partial r) (offset r) (filled r).

(** The first half of [prepare_read_slice]: reclaim the consumed front. *)
Definition reclaim (r : BackedReader) (min_space : Z) : BackedReader :=
  if offset r =? filled r then set_buffer r (partial r) 0 0
  else if (0 <? offset r) &&
          ((sat_sub (zlen (partial r)) (filled r) <? min_space)
           || (64 * 1024 <=? offset r)
           || (filled r - offset r <=? 16 * 1024))
  then set_buffer r (write_at (partial r) 0 (pending r)) 0 (filled r - offset r)
  else r.

(** The returned slice is [&mut partial[filled..]]. *)
Definition prepare_read_slice (r : BackedReader) (min_space : Z) : BackedReader :=
  let r := reclaim r min_space in
  let required := filled r + min_space in
  if zlen (partial r) <? required
  then set_buffer r (partial r ++ replicate (Z.to_nat (required - zlen (partial r))) x00)
         (offset r) (filled r)
  else r.

Definition commit_read (r : BackedReader) (count : Z) : BackedReader :=
  set_buffer r (partial r) (offset r) (filled r + count).

Definition feed (r : BackedReader) (bytes : list byte) : BackedReader :=
  match bytes with
  | [] => r
  | _ =>
      let r := prepare_read_slice r (zlen bytes) in
      let r := set_buffer r (write_at (partial r) (filled r) bytes) (offset r) (filled r) in
      commit_read r (zlen bytes)
  end.

Definition aligned_read_len (r : BackedReader) (limit : Z) : Z :=
  let frame := last_frame_len r in
  if frame <? MIN_SOCKET_READ / 4 then limit
  else
    let finish (rest : Z) :=
      if limit <=? rest then rest
      else
        let whole := (limit - rest) / frame in
        if (rest =? 0) && (whole =? 0) then limit else rest + whole * frame in
    let n := zlen (pending r) in
    if n =? 0 then finish 0
    else if n <=? 3 then limit
    else
      match parse_be_u32_len (pending r) with
      | Ok len => finish (sat_sub (4 + len) n)
      | Err _ => limit
      end.

(** The size of the read asked for. [capacity] is [partial.capacity()], which
    the allocator chooses. *)
Definition prepare_socket_read (capacity : Z) (r : BackedReader) : BackedReader * Z :=
  let r :=
    if (offset r =? filled r) && (read_hint r =? MIN_SOCKET_READ)
       && (4 * MIN_SOCKET_READ <? capacity)
    then set_buffer r [] 0 0 else r in
  let size := aligned_read_len r (read_hint r) in
  let r := set_requested r size in
  (prepare_read_slice r size, size).

Definition commit_socket_read (r : BackedReader) (count : Z) : BackedReader :=
  let r := commit_read r count in
  if read_requested r <=? count
  then set_hint r (Z.min (read_hint r * 4) (max_socket_read r))
  else if count <? read_hint r / 4
  then set_hint r (Z.max (read_hint r / 2) MIN_SOCKET_READ)
  else r.

(** [stream.read] into the prepared slice, then the commit: the body of
    [connection_nonblocking::try_read] when the socket returns [bytes]. *)
Definition socket_read (capacity : Z) (r : BackedReader) (bytes : list byte) : BackedReader :=
  let (r, _) := prepare_socket_read capacity r in
  let r := set_buffer r (write_at (partial r) (filled r) bytes) (offset r) (filled r) in
  commit_socket_read r (zlen bytes).

Definition has_buffered_data (r : BackedReader) : bool :=
  if negb (connected r) then false
  else
    match replay r with
    | _ :: _ => true
    | [] =>
        let available := pending r in
        if zlen available <? 4 then false
        else
          match parse_be_u32_len available with
          | Ok len => (len <? HEADER_LEN) || (4 + len <=? zlen available)
          | Err _ => true
          end
    end.

Definition decode_packet (c : CryptoHandler) (serialized : list byte)
  : CryptoHandler * result ReadError Packet :=
  match serialized with
  | flag :: hdr :: ciphertext =>
      if b2z flag =? 0 then (c, Err Unencrypted)
      else
        match Crypto.decrypt c ciphertext with
        | (c, Ok plaintext) => (c, Ok (raw false hdr plaintext))
        | (c, Err e) => (c, Err (CryptoErr e))
        end
  | _ => (c, Err (PacketErr PShort))
  end.

Definition note_data (r : BackedReader) (p : Packet) : BackedReader :=
  if decide (header p = KEEP_ALIVE) then r
  else set_sequences r (sequence r) (sequence r).

Definition pop_live (r : BackedReader) : BackedReader * result ReadError ReadItem :=
  if negb (connected r) then (r, Ok NeedMore)
  else
    let available := pending r in
    if zlen available <? 4 then (r, Ok NeedMore)
    else
      match parse_be_u32_len available with
      | Err e => (r, Err (Frame e))
      | Ok len =>
          if len <? HEADER_LEN then (r, Err (Frame TooSmall))
          else if zlen available <? 4 + len then (r, Ok NeedMore)
          else
            let start := offset r + 4 in
            let end_ := start + len in
            let r := set_buffer r (partial r) end_ (filled r) in
            let r := set_frame_len r (4 + len) in
            let (c, result) := decode_packet (crypto r) (slice (partial r) start end_) in
            let r := set_crypto r c in
            let r := if offset r =? filled r then set_buffer r (partial r) 0 0 else r in
            match result with
            | Err e => (r, Err e)
            | Ok packet =>
                let r := set_sequences r (sequence r + 1) (data_sequence r) in
                (note_data r packet, Ok (PacketItem packet))
            end
      end.

Definition pop (r : BackedReader) : BackedReader * result ReadError ReadItem :=
  if negb (connected r) then (r, Ok NeedMore)
  else
    match replay r with
    | packet :: rest => (set_replay r rest, Ok (PacketItem packet))
    | [] => pop_live r
    end.

Definition reset (r : BackedReader) (salt : list byte) : BackedReader * result ProofError unit :=
  match rekey (crypto r) salt with
  | (c, Err e) => (set_crypto r c, Err e)
  | (c, Ok _) =>
      let r := set_crypto r c in
      let r := set_buffer r [] 0 0 in
      let r := set_replay r [] in
      let r := set_sequences r 0 0 in
      (set_connected r false, Ok tt)
  end.

(** The catchup loop of [revive], on a clone of the cipher. *)
Fixpoint decode_catchup (c : CryptoHandler) (catchup : list (list byte))
  : CryptoHandler * result ReadError (list Packet) :=
  match catchup with
  | [] => (c, Ok [])
  | serialized :: rest =>
      match decode_packet c serialized with
      | (c, Err e) => (c, Err e)
      | (c, Ok packet) =>
          match decode_catchup c rest with
          | (c, Ok decoded) => (c, Ok (packet :: decoded))
          | (c, Err e) => (c, Err e)
          end
      end
  end.

Definition carries_data (decoded : list Packet) : bool :=
  existsb (fun p => negb (bool_decide (header p = KEEP_ALIVE))) decoded.

Definition revive (r : BackedReader) (catchup : list (list byte))
  : BackedReader * result ReadError unit :=
  match decode_catchup (crypto r) catchup with
  | (_, Err e) => (r, Err e)
  | (c, Ok decoded) =>
      let n := zlen catchup in
      let data := carries_data decoded in
      let r := set_buffer r [] 0 0 in
      let r := set_crypto r c in
      let r := set_replay r (replay r ++ decoded) in
      let r := set_sequences r (sequence r + n) (data_sequence r) in
      let r := if data then set_sequences r (sequence r) (sequence r) else r in
      (set_connected r true, Ok tt)
  end.

Definition unread (r : BackedReader) (packet : Packet) : BackedReader :=
  set_replay r (replay r ++ [packet]).

Definition invalidate (r : BackedReader) : BackedReader :=
  set_connected (set_buffer r [] 0 0) false.
End reader.

(** ** The abstract reader

    What the buffer arithmetic implements: a FIFO of received bytes, cut into
    frames from the front. *)

Record AReader := mkAReader {
  a_crypto : CryptoHandler;
  a_pending : list byte;
  a_replay : list Packet;
  a_sequence : Z;
  a_data_sequence : Z;
  a_connected : bool
}.

Inductive FrameStep :=
| FrameNeed
| FrameBad (e : FrameError)
| FrameBody (body rest : list byte).

(** The first frame of a byte sequence. *)
Definition next_frame (l : list byte) : FrameStep :=
  if zlen l <? 4 then FrameNeed
  else
    match parse_be_u32_len l with
    | Err e => FrameBad e
    | Ok len =>
        if len <? HEADER_LEN then FrameBad TooSmall
        else if zlen l <? 4 + len then FrameNeed
        else FrameBody (slice l 4 (4 + len)) (zdrop (4 + len) l)
    end.

Definition abs (r : BackedReader) : AReader :=
  {| a_crypto := crypto r; a_pending := pending r; a_replay := replay r;
     a_sequence := sequence r; a_data_sequence := data_sequence r;
     a_connected := connected r |}.

Section abstract_ops.
Context {sodium : Sodium}.

Definition a_feed (a : AReader) (bytes : list byte) : AReader :=
  mkAReader (a_crypto a) (a_pending a ++ bytes) (a_replay a) (a_sequence a)
    (a_data_sequence a) (a_connected a).

Definition a_pop_live (a : AReader) : AReader * result ReadError ReadItem :=
  if negb (a_connected a) then (a, Ok NeedMore)
  else
    match next_frame (a_pending a) with
    | FrameNeed => (a, Ok NeedMore)
    | FrameBad e => (a, Err (Frame e))
    | FrameBody body rest =>
        match decode_packet (a_crypto a) body with
        | (c, Err e) =>
            (mkAReader c rest (a_replay a) (a_sequence a) (a_data_sequence a)
               (a_connected a), Err e)
        | (c, Ok p) =>
            let s := a_sequence a + 1 in
            (mkAReader c rest (a_replay a) s
               (if decide (header p = KEEP_ALIVE) then a_data_sequence a else s)
               (a_connected a), Ok (PacketItem p))
        end
    end.

Definition a_pop (a : AReader) : AReader * result ReadError ReadItem :=
  if negb (a_connected a) then (a, Ok NeedMore)
  else
    match a_replay a with
    | p :: rest =>
        (mkAReader (a_crypto a) (a_pending a) rest (a_sequence a) (a_data_sequence a)
           (a_connected a), Ok (PacketItem p))
    | [] => a_pop_live a
    end.

Definition a_reset (a : AReader) (salt : list byte) : AReader * result ProofError unit :=
  match rekey (a_crypto a) salt with
  | (c, Err e) =>
      (mkAReader c (a_pending a) (a_replay a) (a_sequence a) (a_data_sequence a)
         (a_connected a), Err e)
  | (c, Ok _) => (mkAReader c [] [] 0 0 false, Ok tt)
  end.

Definition a_revive (a : AReader) (catchup : list (list byte)) : AReader * result ReadError unit :=
  match decode_catchup (a_crypto a) catchup with
  | (_, Err e) => (a, Err e)
  | (c, Ok decoded) =>
      let s := a_sequence a + zlen catchup in
      (mkAReader c [] (a_replay a ++ decoded) s
         (if carries_data decoded then s else a_data_sequence a) true, Ok tt)
  end.

Definition a_unread (a : AReader) (p : Packet) : AReader :=
  mkAReader (a_crypto a) (a_pending a) (a_replay a ++ [p]) (a_sequence a)
    (a_data_sequence a) (a_connected a).

Definition a_invalidate (a : AReader) : AReader :=
  mkAReader (a_crypto a) [] (a_replay a) (a_sequence a) (a_data_sequence a) false.
End abstract_ops.

(** ** Well-formedness: every slice the code takes is in range, and the
    adaptive read size stays between its bounds. *)

Record wf (r : BackedReader) : Prop := {
  wf_offset : 0 <= offset r <= filled r;
  wf_filled : filled r <= zlen (partial r);
  wf_hint : MIN_SOCKET_READ <= read_hint r <= max_socket_read r;
  wf_frame : 0 <= last_frame_len r
}.

Lemma zlen_write_at v a src :
  0 <= a -> a + zlen src <= zlen v -> zlen (write_at v a src) = zlen v.
Proof. intros. unfold write_at. len_lia. Qed.

Lemma slice_write_at v a o src :
  0 <= o <= a -> a + zlen src <= zlen v ->
  slice (write_at v a src) o (a + zlen src) = slice v o a ++ src.
Proof.
  intros Ho Ha. pose proof (zlen_nonneg src). unfold slice, write_at.
  rewrite zdrop_app_l by len_lia.
  assert (zdrop o (ztake a v) = ztake (a - o) (zdrop o v)) as ->.
  { unfold zdrop, ztake. rewrite skipn_firstn_comm. f_equal. lia. }
  set (x := ztake (a - o) (zdrop o v)).
  assert (zlen x = a - o) by (unfold x; len_lia).
  replace (a + zlen src - o) with (zlen (x ++ src)) by len_lia.
  rewrite app_assoc. apply ztake_app_exact.
Qed.

Lemma zlen_pending r : wf r -> zlen (pending r) = filled r - offset r.
Proof. intros [??]. unfold pending. apply zlen_slice; lia. Qed.

Lemma slice_app_l {A} (v w : list A) a b : 0 <= a <= b -> b <= zlen v -> slice (v ++ w) a b = slice v a b.
Proof. intros. unfold slice. rewrite zdrop_app_l, ztake_app_l by len_lia. done. Qed.

Lemma reclaim_spec r n : wf r -> wf (reclaim r n) /\ abs (reclaim r n) = abs r.
Proof.
  intros Hwf. pose proof (zlen_pending r Hwf) as Hp. destruct Hwf as [Ho Hf Hh Hl].
  unfold reclaim. destruct (Z.eqb_spec (offset r) (filled r)) as [E|E]; [|case_match].
  - split; [split; simpl; lia|]. unfold abs, pending; simpl. by rewrite E, !slice_nil.
  - split; [split; simpl; rewrite ?zlen_write_at; lia|].
    unfold abs, pending; simpl. f_equal. fold (pending r).
    rewrite <-Hp, <-(Z.add_0_l (zlen (pending r))), slice_write_at by lia.
    by rewrite slice_nil.
  - done.
Qed.

Lemma prepare_read_slice_spec r n :
  wf r -> 0 <= n ->
  let r' := prepare_read_slice r n in
  wf r' /\ abs r' = abs r /\ filled r' + n <= zlen (partial r').
Proof.
  intros Hwf Hn. destruct (reclaim_spec r n Hwf) as [Hw1 Ha1].
  unfold prepare_read_slice; cbv zeta. set (r1 := reclaim r n) in *.
  destruct (Z.ltb_spec (zlen (partial r1)) (filled r1 + n)); [|split_and!; [done|done|lia]].
  destruct Hw1 as [Ho1 Hf1 Hh1 Hl1]. split_and!; simpl.
  - split; simpl; try lia. len_lia.
  - rewrite <-Ha1. unfold abs, pending; simpl. by rewrite slice_app_l by lia.
  - len_lia.
Qed.

(** Writing [bytes] into the prepared slice and committing them. *)
Lemma fill_spec r bytes :
  wf r -> filled r + zlen bytes <= zlen (partial r) ->
  let r' := commit_read (set_buffer r (write_at (partial r) (filled r) bytes)
                           (offset r) (filled r)) (zlen bytes) in
  wf r' /\ abs r' = a_feed (abs r) bytes.
Proof.
  intros [Ho Hf Hh Hl] H. pose proof (zlen_nonneg bytes). simpl. split.
  - split; simpl; rewrite ?zlen_write_at; lia.
  - unfold abs, a_feed, pending; simpl. by rewrite slice_write_at by lia.
Qed.

Lemma a_feed_nil a : a_feed a [] = a.
Proof. destruct a; unfold a_feed; simpl. by rewrite app_nil_r. Qed.

Lemma feed_refines r bytes :
  wf r -> wf (feed r bytes) /\ abs (feed r bytes) = a_feed (abs r) bytes.
Proof.
  intros Hwf. destruct bytes as [|b bytes]; [by rewrite a_feed_nil|].
  unfold feed. set (bs := b :: bytes).
  destruct (prepare_read_slice_spec r (zlen bs) Hwf (zlen_nonneg _)) as (Hw & Ha & Hs).
  rewrite <-Ha. by apply fill_spec.
Qed.

Lemma aligned_read_len_pos r limit :
  0 < limit -> 0 < aligned_read_len r limit.
Proof.
  intros Hl. unfold aligned_read_len, MIN_SOCKET_READ. change (16 * 1024 / 4) with 4096.
  destruct (Z.ltb_spec (last_frame_len r) 4096) as [|Hf]; [done|].
  assert (forall rest, 0 <= rest ->
    0 < if limit <=? rest then rest
        else if (rest =? 0) && ((limit - rest) / last_frame_len r =? 0) then limit
        else rest + (limit - rest) / last_frame_len r * last_frame_len r) as Hfin.
  { intros rest Hr. destruct (Z.leb_spec limit rest); [lia|].
    pose proof (Z.div_pos (limit - rest) (last_frame_len r) ltac:(lia) ltac:(lia)).
    case_match; nia. }
  case_match; [by apply Hfin|]. case_match; [done|]. case_match; [|done].
  apply Hfin. unfold sat_sub. lia.
Qed.

Lemma wf_set_requested r n : wf r -> wf (set_requested r n) /\ abs (set_requested r n) = abs r.
Proof. intros [????]. split; [by split|done]. Qed.

Lemma prepare_socket_read_spec capacity r :
  wf r ->
  let (r', size) := prepare_socket_read capacity r in
  wf r' /\ abs r' = abs r /\ 0 < size /\ filled r' + size <= zlen (partial r').
Proof.
  intros Hwf. unfold prepare_socket_read.
  set (r0 := if _ && _ && _ then _ else _).
  assert (wf r0 /\ abs r0 = abs r) as [Hw0 <-].
  { unfold r0. case_match eqn:T; [|done]. destruct Hwf as [Ho Hf Hh Hl].
    split; [split; simpl; done|]. unfold abs, pending; simpl.
    replace (offset r) with (filled r) by lia. by rewrite !slice_nil. }
  clearbody r0. assert (0 < aligned_read_len r0 (read_hint r0)) as Hpos.
  { apply aligned_read_len_pos. destruct Hw0. unfold MIN_SOCKET_READ in *. lia. }
  set (size := aligned_read_len r0 (read_hint r0)) in *.
  destruct (wf_set_requested r0 size Hw0) as [Hw1 <-].
  destruct (prepare_read_slice_spec (set_requested r0 size) size) as (? & ? & ?); [done|lia|].
  done.
Qed.

(** No operation on the receive path ever asks the socket for zero bytes: a
    zero-length read is indistinguishable from end of file, which disconnects. *)
Theorem socket_read_never_empty capacity r :
  wf r -> 0 < snd (prepare_socket_read capacity r).
Proof.
  intros Hwf. pose proof (prepare_socket_read_spec capacity r Hwf) as H.
  destruct (prepare_socket_read capacity r). apply H.
Qed.

Lemma commit_socket_read_spec r n :
  wf (commit_read r n) ->
  wf (commit_socket_read r n) /\ abs (commit_socket_read r n) = abs (commit_read r n).
Proof.
  intros [Ho Hf Hh Hl]. unfold commit_socket_read. set (r1 := commit_read r n) in *. clearbody r1.
  assert (MIN_SOCKET_READ <= read_hint r1) as Hmin by lia. unfold MIN_SOCKET_READ in *.
  pose proof (Z.div_le_upper_bound (read_hint r1) 2 (read_hint r1)).
  repeat case_match; (split; [split; simpl; unfold MIN_SOCKET_READ; lia|done]).
Qed.

Lemma socket_read_refines capacity r bytes :
  wf r -> zlen bytes <= snd (prepare_socket_read capacity r) ->
  wf (socket_read capacity r bytes) /\
  abs (socket_read capacity r bytes) = a_feed (abs r) bytes.
Proof.
  intros Hwf Hb. unfold socket_read. pose proof (prepare_socket_read_spec capacity r Hwf) as H.
  destruct (prepare_socket_read capacity r) as [r' size]. simpl in Hb.
  destruct H as (Hw & Ha & Hs & Hsp).
  destruct (fill_spec r' bytes Hw ltac:(lia)) as [Hw' Ha'].
  destruct (commit_socket_read_spec _ _ Hw') as [Hw'' Ha''].
  rewrite <-Ha, <-Ha'. done.
Qed.

Section refinement.
Context {sodium : Sodium}.

(** Consuming [n] bytes from the front of the buffer. *)
Lemma consume_spec r n :
  wf r -> 0 <= n <= zlen (pending r) ->
  let r1 := set_buffer r (partial r) (offset r + n) (filled r) in
  let r2 := if offset r1 =? filled r1 then set_buffer r1 (partial r1) 0 0 else r1 in
  wf r2 /\ pending r2 = zdrop n (pending r).
Proof.
  intros Hwf Hn. rewrite zlen_pending in Hn by done. destruct Hwf as [Ho Hf Hh Hl].
  simpl. destruct (Z.eqb_spec (offset r + n) (filled r)) as [E|E]; simpl.
  - split; [split; simpl; lia|]. unfold pending; simpl. rewrite slice_nil.
    symmetry. apply zdrop_all. rewrite zlen_slice; lia.
  - split; [split; simpl; lia|]. unfold pending; simpl. by rewrite zdrop_slice by lia.
Qed.

Lemma frame_body_slice r len :
  wf r -> 0 <= len -> 4 + len <= zlen (pending r) ->
  slice (partial r) (offset r + 4) (offset r + 4 + len) = slice (pending r) 4 (4 + len).
Proof.
  intros Hwf Hl Hn. rewrite zlen_pending in Hn by done. destruct Hwf as [Ho Hf _ _].
  unfold pending. unfold slice at 2. rewrite zdrop_slice by lia.
  rewrite ztake_slice by lia. f_equal. lia.
Qed.

Lemma wf_irrelevant r c s d l :
  wf r -> 0 <= l ->
  wf (set_frame_len (set_sequences (set_crypto r c) s d) l).
Proof. intros [????] ?. by split. Qed.

Lemma pop_live_refines r :
  wf r ->
  wf (fst (pop_live r)) /\
  a_pop_live (abs r) = (abs (fst (pop_live r)), snd (pop_live r)).
Proof.
  intros Hwf. unfold pop_live, a_pop_live. cbn [abs a_connected a_pending a_crypto].
  destruct (connected r) eqn:Hc; [|done]. cbn [negb]. unfold next_frame.
  destruct (Z.ltb_spec (zlen (pending r)) 4); [done|].
  destruct (parse_be_u32_len (pending r)) as [len|e] eqn:Hp; [|done].
  apply parse_be_u32_len_range in Hp as [_ Hlen].
  destruct (Z.ltb_spec len HEADER_LEN); [done|].
  destruct (Z.ltb_spec (zlen (pending r)) (4 + len)); [done|].
  cbn -[decode_packet Z.add]. rewrite frame_body_slice by (done || lia).
  destruct (consume_spec r (4 + len) Hwf ltac:(lia)) as [Hw2 Hp2]. cbn -[Z.add] in Hw2, Hp2.
  rewrite <-Z.add_assoc.
  destruct (decode_packet (crypto r) (slice (pending r) 4 (4 + len))) as [c [p|e]].
  - destruct (offset r + (4 + len) =? filled r) eqn:E; unfold note_data, abs; case_decide;
      (split; [destruct Hw2; split; simpl in *; try done; lia
              |by cbn -[Z.add]; rewrite Hc, <-Hp2]).
  - destruct (offset r + (4 + len) =? filled r) eqn:E; unfold abs;
      (split; [destruct Hw2; split; simpl in *; try done; lia
              |by cbn -[Z.add]; rewrite Hc, <-Hp2]).
Qed.

Lemma pop_refines r :
  wf r ->
  wf (fst (pop r)) /\ a_pop (abs r) = (abs (fst (pop r)), snd (pop r)).
Proof.
  intros Hwf. unfold pop, a_pop. cbn [abs a_connected a_replay].
  destruct (connected r) eqn:Hc; [|done]. cbn [negb].
  destruct (replay r) as [|p rest] eqn:Hr.
  - by apply pop_live_refines.
  - simpl. split; [by destruct Hwf; split|]. by unfold abs; simpl; rewrite Hc.
Qed.

Lemma revive_refines r catchup :
  wf r ->
  wf (fst (revive r catchup)) /\
  a_revive (abs r) catchup = (abs (fst (revive r catchup)), snd (revive r catchup)).
Proof.
  intros [Ho Hf Hh Hl]. unfold revive, a_revive. cbn [abs a_crypto].
  destruct (decode_catchup (crypto r) catchup) as [c [decoded|e]]; [|by split].
  destruct (carries_data decoded) eqn:E; simpl; (split; [by split|done]).
Qed.

Lemma reset_refines r salt :
  wf r ->
  wf (fst (reset r salt)) /\
  a_reset (abs r) salt = (abs (fst (reset r salt)), snd (reset r salt)).
Proof.
  intros [Ho Hf Hh Hl]. unfold reset, a_reset. cbn [abs a_crypto].
  destruct (rekey (crypto r) salt) as [c [[]|e]]; simpl; (split; [by split|done]).
Qed.

Lemma invalidate_refines r : wf r -> wf (invalidate r) /\ abs (invalidate r) = a_invalidate (abs r).
Proof. intros [Ho Hf Hh Hl]. split; [by split|done]. Qed.

Lemma unread_refines r p : wf r -> wf (unread r p) /\ abs (unread r p) = a_unread (abs r) p.
Proof. intros [Ho Hf Hh Hl]. split; [by split|done]. Qed.

Lemma new_wf c conn : wf (new c conn).
Proof. split; simpl; unfold MIN_SOCKET_READ, MAX_SOCKET_READ; try lia. done. Qed.

Lemma new_max_wf c conn bytes : wf (with_max_socket_read (new c conn) bytes).
Proof. split; cbn; unfold MIN_SOCKET_READ; try lia. done. Qed.

(** C14: The reader's buffer arithmetic implements the abstract reader: on a
    well-formed reader every operation that changes it (feeding bytes, a socket
    read into the prepared buffer, [pop], [pop_live], [unread], revive, reset and
    invalidate) keeps the slice bounds in range (no slicing panics) and commutes
    with the abstraction, results included. *)
Theorem reader_refines r :
  wf r ->
  (forall bytes, wf (feed r bytes) /\ abs (feed r bytes) = a_feed (abs r) bytes) /\
  (forall capacity bytes, zlen bytes <= snd (prepare_socket_read capacity r) ->
     wf (socket_read capacity r bytes) /\
     abs (socket_read capacity r bytes) = a_feed (abs r) bytes) /\
  (wf (fst (pop r)) /\ a_pop (abs r) = (abs (fst (pop r)), snd (pop r))) /\
  (wf (fst (pop_live r)) /\
     a_pop_live (abs r) = (abs (fst (pop_live r)), snd (pop_live r))) /\
  (forall p, wf (unread r p) /\ abs (unread r p) = a_unread (abs r) p) /\
  (forall catchup, wf (fst (revive r catchup)) /\
     a_revive (abs r) catchup = (abs (fst (revive r catchup)), snd (revive r catchup))) /\
  (forall salt, wf (fst (reset r salt)) /\
     a_reset (abs r) salt = (abs (fst (reset r salt)), snd (reset r salt))) /\
  (wf (invalidate r) /\ abs (invalidate r) = a_invalidate (abs r)).
Proof.
  intros Hwf. split_and!.
  1: by intros; apply feed_refines.
  1: by intros; apply socket_read_refines.
  1,2: by apply pop_refines.
  1,2: by apply pop_live_refines.
  1: by intros; apply unread_refines.
  1: by intros; apply revive_refines.
  1: by intros; apply reset_refines.
  all: by apply invalidate_refines.
Qed.

(** [has_buffered_data] tells exactly whether [pop] has something to say
    without more socket data: a packet or an error. *)
Theorem has_buffered_data_iff r :
  wf r -> has_buffered_data r = true <-> snd (pop r) <> Ok NeedMore.
Proof.
  intros Hwf. destruct (pop_refines r Hwf) as [_ H].
  assert (snd (pop r) = snd (a_pop (abs r))) as -> by (by rewrite H).
  unfold has_buffered_data, a_pop, a_pop_live, next_frame. cbn [abs a_connected a_replay a_pending a_crypto].
  destruct (connected r); [|done]. destruct (replay r); [|done]. cbn [negb].
  destruct (zlen (pending r) <? 4); [done|].
  destruct (parse_be_u32_len (pending r)) as [len|]; [|done].
  destruct (len <? HEADER_LEN); [done|]. cbn [orb].
  destruct (Z.ltb_spec (zlen (pending r)) (4 + len)), (Z.leb_spec (4 + len) (zlen (pending r)));
    try lia; [done|].
  by destruct (decode_packet _ _) as [? []].
Qed.
End refinement.

(** ** Witnesses *)

Definition demo_reader : BackedReader := new (Crypto.new (replicate 32 x61) x00) true.

Lemma socket_read_never_empty_witness : 0 < snd (prepare_socket_read 0 demo_reader).
Proof. apply (socket_read_never_empty 0 demo_reader), new_wf. Defined.

Lemma reader_refines_witness :
  wf (feed demo_reader [x00; x00]) /\
  abs (feed demo_reader [x00; x00]) = a_feed (abs demo_reader) [x00; x00].
Proof. apply (reader_refines (sodium := toy_sodium) demo_reader), new_wf. Defined.

Lemma has_buffered_data_iff_witness :
  has_buffered_data (feed demo_reader [x00; x00; x00; x01]) = true <->
  snd (pop (sodium := toy_sodium) (feed demo_reader [x00; x00; x00; x01])) <> Ok NeedMore.
Proof.
  apply (has_buffered_data_iff (sodium := toy_sodium) (feed demo_reader [x00; x00; x00; x01])).
  apply feed_refines, new_wf.
Defined.
