(* ===== verification/BackedWriter.v ===== *)
(** * BackedWriter: [crates/et-core/src/backed_writer.rs]

    The sending half of a connection: every packet is framed, encrypted under
    the next nonce and kept in a bounded backup (newest first) until the peer
    acknowledged it, so that a reconnect can replay what the peer missed. *)

From S2P Require Import Prelude Framing Crypto Packet.

Definition MAX_BACKUP_BYTES : Z := 64 * 1024 * 1024.
Definition DISCONNECT_BUFFER_BYTES : Z := 64 * 1024 * 1024.
Definition MAX_RECOVERY_BACKUP_BYTES : Z := 76 * 1024 * 1024.
Definition MAX_BACKUP_PACKETS : Z := 262144.
Definition MAX_DISCONNECT_PACKETS : Z := 262144.
Definition CONNECTED_BACKUP_BYTES : Z := 8 * 1024 * 1024.
Definition CONNECTED_BACKUP_PACKETS : Z := 32768.
Definition MAX_UNACKNOWLEDGED_BYTES : Z := 4 * 1024 * 1024.
Definition ACK_RETAIN_SLACK_PACKETS : Z := 1024.
Definition ACK_RETAIN_SLACK_BYTES : Z := 256 * 1024.
Definition ACK_RETAIN_FLOOR_PACKETS : Z := 16.

Inductive WriterOutcome := Skipped | BufferedOnly | Send (frame : list byte).

Inductive RecoverError := AheadOfServer | TooFarBehind.

Record ReservedWrite := mkReserved {
  prefix : list byte;
  rw_nonce : list byte;
  rw_key : list byte;
  packet_wire_len : Z
}.

Record BackedWriter := mkWriter {
  crypto : CryptoHandler;
  backup : list (list byte);
  backup_size : Z;
  disconnected_bytes : Z;
  disconnected_packets : Z;
  sequence : Z;
  connected : bool;
  acknowledged : option Z;
  unacknowledged_bytes : Z
}.

(** Field updates. *)
Definition set_crypto (w : BackedWriter) (new_crypto : CryptoHandler) : BackedWriter :=
  {| crypto := new_crypto; backup := backup w; backup_size := backup_size w;
     disconnected_bytes := disconnected_bytes w; disconnected_packets :=
     disconnected_packets w; sequence := sequence w; connected := connected w;
     acknowledged := acknowledged w; unacknowledged_bytes := unacknowledged_bytes w |}.

Definition set_backup (w : BackedWriter) (new_backup : list (list byte)) (new_backup_size
    : Z) : BackedWriter :=
  {| crypto := crypto w; backup := new_backup; backup_size := new_backup_size;
     disconnected_bytes := disconnected_bytes w; disconnected_packets :=
     disconnected_packets w; sequence := sequence w; connected := connected w;
     acknowledged := acknowledged w; unacknowledged_bytes := unacknowledged_bytes w |}.

Definition set_disconnected (w : BackedWriter) (new_disconnected_bytes : Z)
    (new_disconnected_packets : Z) : BackedWriter :=
  {| crypto := crypto w; backup := backup w; backup_size := backup_size w;
     disconnected_bytes := new_disconnected_bytes; disconnected_packets :=
     new_disconnected_packets; sequence := sequence w; connected := connected w;
     acknowledged := acknowledged w; unacknowledged_bytes := unacknowledged_bytes w |}.

Definition set_sequence (w : BackedWriter) (new_sequence : Z) : BackedWriter :=
  {| crypto := crypto w; backup := backup w; backup_size := backup_size w;
     disconnected_bytes := disconnected_bytes w; disconnected_packets :=
     disconnected_packets w; sequence := new_sequence; connected := connected w;
     acknowledged := acknowledged w; unacknowledged_bytes := unacknowledged_bytes w |}.

Definition set_connected (w : BackedWriter) (new_connected : bool) : BackedWriter :=
  {| crypto := crypto w; backup := backup w; backup_size := backup_size w;
     disconnected_bytes := disconnected_bytes w; disconnected_packets :=
     disconnected_packets w; sequence := sequence w; connected := new_connected;
     acknowledged := acknowledged w; unacknowledged_bytes := unacknowledged_bytes w |}.

Definition set_acknowledged (w : BackedWriter) (new_acknowledged : option Z)
    (new_unacknowledged_bytes : Z) : BackedWriter :=
  {| crypto := crypto w; backup := backup w; backup_size := backup_size w;
     disconnected_bytes := disconnected_bytes w; disconnected_packets :=
     disconnected_packets w; sequence := sequence w; connected := connected w;
     acknowledged := new_acknowledged; unacknowledged_bytes :=
     new_unacknowledged_bytes |}.

(** Bytes of a frame after its length prefix: [frame.len() - 4]. *)
Definition wire (frame : list byte) : Z := zlen frame - 4.

Definition wire_sum (frames : list (list byte)) : Z :=
  fold_right (fun f s => wire f + s) 0 frames.

(** [i64::try_from(n)] and [usize::try_from(n)]. *)
Definition i64_try_from (n : Z) : option Z := if n <=? i64_max then Some n else None.
Definition usize_try_from (n : Z) : option Z := if 0 <=? n then Some n else None.

(** [while over(size, len) { let Some(old) = backup.pop_back() else break;
    size -= old.len() - 4 }] on the backup read oldest first. *)
Fixpoint pop_while (over : Z -> Z -> bool) (oldest_first : list (list byte)) (size : Z)
  : list (list byte) * Z :=
  match oldest_first with
  | [] => ([], size)
  | old :: rest =>
      if over size (zlen oldest_first) then pop_while over rest (size - wire old)
      else (oldest_first, size)
  end.

Definition trim_back (over : Z -> Z -> bool) (w : BackedWriter) : BackedWriter :=
  let (l, size) := pop_while over (rev (backup w)) (backup_size w) in
  set_backup w (rev l) size.

Section writer.
Context {sodium : Sodium}.

Definition new (c : CryptoHandler) (conn : bool) : BackedWriter :=
  {| crypto := c; backup := []; backup_size := 0; disconnected_bytes := 0;
     disconnected_packets := 0; sequence := 0; connected := conn; acknowledged := None;
     unacknowledged_bytes := 0 |}.

Definition reserved_encrypt (rw : ReservedWrite) (body : list byte) : list byte :=
  encrypt_detached (prefix rw) body (rw_nonce rw) (rw_key rw).

Definition reserved_header (rw : ReservedWrite) : byte := unwrap_or x00 (prefix rw !! 5%nat).

Definition reserved_payload_len (rw : ReservedWrite) : Z := packet_wire_len rw - 2 - MAC_LEN.

(** The admission test of [reserve_write]: a disconnected writer refuses what
    would overflow its disconnect buffer or the recovery total. *)
Definition write_refused (w : BackedWriter) (payload_len : Z) : bool :=
  let packet_len := 2 + payload_len in
  let wire_len := unwrap_or i64_max (i64_try_from (packet_len + MAC_LEN)) in
  let disconnected_fits :=
    is_some_and (fun total => total <=? DISCONNECT_BUFFER_BYTES)
      (length ← i64_try_from packet_len; i64_checked_add (disconnected_bytes w) length) in
  let recovery_fits :=
    is_some_and (fun total => total <=? MAX_RECOVERY_BACKUP_BYTES)
      (i64_checked_add (backup_size w) wire_len) in
  negb (connected w) &&
  (negb disconnected_fits || (MAX_DISCONNECT_PACKETS <=? disconnected_packets w)
   || negb recovery_fits).

Definition reserve_write (w : BackedWriter) (hdr : byte) (payload_len : Z)
  : BackedWriter * option ReservedWrite :=
  if write_refused w payload_len then (w, None)
  else
    let pwl := 2 + payload_len + MAC_LEN in
    let pre := be_bytes 4 pwl ++ [x01; hdr] in
    let '(c, (n, k)) := next_nonce_and_key (crypto w) in
    (set_crypto w c,
     Some {| prefix := pre; rw_nonce := n; rw_key := k; packet_wire_len := pwl |}).

(** The packets the connected caps may not drop. *)
Definition protected_packets (w : BackedWriter) : Z :=
  match acknowledged w with
  | None => usize_max
  | Some acked => unwrap_or usize_max (usize_try_from (sequence w - acked))
  end.

Definition over_connected_caps (unacked size len : Z) : bool :=
  ((CONNECTED_BACKUP_BYTES <? size) || (CONNECTED_BACKUP_PACKETS <? len)) && (unacked <? len).

Definition over_hard_caps (size len : Z) : bool :=
  (MAX_BACKUP_BYTES <? size) || (MAX_BACKUP_PACKETS <? len).

Definition commit_write (w : BackedWriter) (reserved : ReservedWrite) (frame : list byte)
  : BackedWriter * WriterOutcome :=
  let pwl := packet_wire_len reserved in
  let w := set_acknowledged w (acknowledged w) (unacknowledged_bytes w + pwl) in
  let w := set_backup w (frame :: backup w) (backup_size w + pwl) in
  let w := set_sequence w (sequence w + 1) in
  if negb (connected w) then
    (set_disconnected w (disconnected_bytes w + pwl) (disconnected_packets w + 1),
     BufferedOnly)
  else
    let w := trim_back (over_connected_caps (protected_packets w)) w in
    let w := trim_back over_hard_caps w in
    (w, Send frame).

(** The frame a write of [body] under [hdr] commits. *)
Definition next_frame_of (w : BackedWriter) (hdr : byte) (body : list byte) : list byte :=
  (be_bytes 4 (2 + zlen body + MAC_LEN) ++ [x01; hdr]) ++
  crypto_secretbox_easy body (bump (nonce (crypto w))) (base_key (crypto w)).

Definition write_packet (w : BackedWriter) (hdr : byte) (body : list byte)
  : BackedWriter * WriterOutcome :=
  match reserve_write w hdr (zlen body) with
  | (w, None) => (w, Skipped)
  | (w, Some reserved) => commit_write w reserved (reserved_encrypt reserved body)
  end.

Definition recover (w : BackedWriter) (last_valid_sequence : Z)
  : result RecoverError (list (list byte)) :=
  let messages_to_recover := sequence w - last_valid_sequence in
  if messages_to_recover <? 0 then Err AheadOfServer
  else if messages_to_recover =? 0 then Ok []
  else
    match usize_try_from messages_to_recover with
    | None => Err TooFarBehind
    | Some count =>
        if zlen (backup w) <? count then Err TooFarBehind
        else Ok (rev (map (zdrop 4) (ztake count (backup w))))
    end.

(** The slack loop of [acknowledge]: how many of the acknowledged frames from
    [keep] on are retained. *)
Fixpoint slack_kept (frames : list (list byte)) (slack_packets slack_bytes : Z) : Z :=
  match frames with
  | [] => 0
  | frame :: rest =>
      if slack_packets <? ACK_RETAIN_SLACK_PACKETS then
        let wire_len := wire frame in
        if (ACK_RETAIN_FLOOR_PACKETS <=? slack_packets)
           && (ACK_RETAIN_SLACK_BYTES <? slack_bytes + wire_len)
        then 0
        else 1 + slack_kept rest (slack_packets + 1) (slack_bytes + wire_len)
      else 0
  end.

Definition acknowledge (w : BackedWriter) (acked : Z) : BackedWriter :=
  if negb (connected w) || (acked <? 0) || (sequence w <? acked) then w
  else
    let unacked := unwrap_or usize_max (usize_try_from (sequence w - acked)) in
    let w := set_acknowledged w (Some acked) (wire_sum (ztake unacked (backup w))) in
    let keep := Z.min unacked (zlen (backup w)) in
    let keep := keep + slack_kept (zdrop keep (backup w)) 0 0 in
    trim_back (fun _ len => keep <? len) w.

Definition delivery_backlog (w : BackedWriter) : option (Z * Z) :=
  a ← acknowledged w; Some (a, unacknowledged_bytes w).

Definition revive (w : BackedWriter) : BackedWriter :=
  let w := set_connected w true in
  let w := set_disconnected w 0 0 in
  trim_back (fun size _ => MAX_BACKUP_BYTES <? size) w.

Definition reset (w : BackedWriter) (salt : list byte) : BackedWriter * result ProofError unit :=
  match rekey (crypto w) salt with
  | (c, Err e) => (set_crypto w c, Err e)
  | (c, Ok _) => (new c false, Ok tt)
  end.

Definition invalidate (w : BackedWriter) : BackedWriter := set_connected w false.

Definition has_capacity (w : BackedWriter) (bytes : Z) : bool :=
  connected w
  || (is_some_and (fun total => total <=? DISCONNECT_BUFFER_BYTES)
        (i64_checked_add (disconnected_bytes w) bytes)
      && (disconnected_packets w <? MAX_DISCONNECT_PACKETS)
      && is_some_and (fun total => total <=? MAX_RECOVERY_BACKUP_BYTES)
           (i64_checked_add (backup_size w) bytes)).
End writer.

(** ** Trimming keeps a suffix of the history *)

Lemma wire_sum_app l k : wire_sum (l ++ k) = wire_sum l + wire_sum k.
Proof. induction l; simpl; lia. Qed.

Lemma wire_sum_rev l : wire_sum (rev l) = wire_sum l.
Proof. induction l; simpl; [done|]. rewrite wire_sum_app. simpl. lia. Qed.

Lemma wire_sum_nonneg l : Forall (fun f => 0 <= wire f) l -> 0 <= wire_sum l.
Proof. induction 1; simpl; lia. Qed.

(** What trimming drops is a prefix of the oldest-first backup, its bytes
    leave the size, and it stops at the first state that is not over. *)
Lemma pop_while_spec over l size :
  exists dropped, l = dropped ++ fst (pop_while over l size) /\
    snd (pop_while over l size) = size - wire_sum dropped /\
    (fst (pop_while over l size) = [] \/
     over (snd (pop_while over l size)) (zlen (fst (pop_while over l size))) = false).
Proof.
  revert size. induction l as [|f l IH]; intros size; simpl.
  - exists []. simpl. split_and!; [done|lia|by left].
  - destruct (over size (zlen (f :: l))) eqn:E.
    + destruct (IH (size - wire f)) as (d & Hl & Hs & Hstop).
      exists (f :: d). simpl. split_and!; [by rewrite <-Hl|lia|done].
    + exists []. simpl. split_and!; [done|lia|by right].
Qed.

(** Trimming never reaches past a suffix that is not over. *)
Lemma pop_while_keeps over d keep size :
  over (size - wire_sum d) (zlen keep) = false ->
  zlen keep <= zlen (fst (pop_while over (d ++ keep) size)).
Proof.
  revert size. induction d as [|f d IH]; intros size H; simpl in *.
  - rewrite Z.sub_0_r in H. destruct keep as [|f k]; [done|]. cbn [pop_while]. by rewrite H.
  - destruct (over size (zlen (f :: d ++ keep))); [|cbn [fst]; len_lia].
    apply IH. by replace (size - wire f - wire_sum d) with (size - (wire f + wire_sum d)) by lia.
Qed.

Section history.
Context {sodium : Sodium}.

(** [repr w hist]: [hist] is the list of frames this epoch committed, oldest
    first; the backup holds its newest part and the counters agree. *)
Record repr (w : BackedWriter) (hist : list (list byte)) : Prop := {
  repr_sequence : sequence w = zlen hist;
  repr_backup : exists old, hist = old ++ rev (backup w);
  repr_size : backup_size w = wire_sum (backup w);
  repr_wire : Forall (fun f => 2 + MAC_LEN <= wire f) hist
}.

Lemma trim_back_fields over w :
  let w' := trim_back over w in
  crypto w' = crypto w /\ disconnected_bytes w' = disconnected_bytes w /\
  disconnected_packets w' = disconnected_packets w /\ sequence w' = sequence w /\
  connected w' = connected w /\ acknowledged w' = acknowledged w /\
  unacknowledged_bytes w' = unacknowledged_bytes w.
Proof. unfold trim_back. by destruct (pop_while over (rev (backup w)) (backup_size w)). Qed.

Lemma trim_back_repr over w hist : repr w hist -> repr (trim_back over w) hist.
Proof.
  intros [Hseq [old Hold] Hsize Hwire].
  destruct (pop_while_spec over (rev (backup w)) (backup_size w)) as (d & Hd & Hs & _).
  unfold trim_back. destruct (pop_while over (rev (backup w)) (backup_size w)) as [l s].
  simpl in *. split; simpl; [done| | |done].
  - exists (old ++ d). by rewrite rev_involutive, <-app_assoc, <-Hd.
  - rewrite wire_sum_rev, Hs, Hsize, <-(wire_sum_rev (backup w)), Hd, wire_sum_app. lia.
Qed.

Lemma trim_back_stop over w :
  let w' := trim_back over w in
  backup w' = [] \/ over (backup_size w') (zlen (backup w')) = false.
Proof.
  destruct (pop_while_spec over (rev (backup w)) (backup_size w)) as (d & Hd & Hs & Hstop).
  unfold trim_back. destruct (pop_while over (rev (backup w)) (backup_size w)) as [l s].
  simpl in *. rewrite zlen_rev. destruct Hstop as [->|]; [by left|by right].
Qed.

Lemma trim_back_shrinks over w : zlen (backup (trim_back over w)) <= zlen (backup w).
Proof.
  destruct (pop_while_spec over (rev (backup w)) (backup_size w)) as (d & Hd & _).
  unfold trim_back. destruct (pop_while over (rev (backup w)) (backup_size w)) as [l s].
  simpl in *. apply (f_equal zlen) in Hd. autorewrite with zlen in Hd. rewrite zlen_rev. len_lia.
Qed.

(** If the newest [n] frames do not trigger the trim condition, they stay. *)
Lemma trim_back_keeps over w hist n :
  repr w hist -> 0 <= n <= zlen (backup w) ->
  over (wire_sum (zdrop (zlen hist - n) hist)) n = false ->
  n <= zlen (backup (trim_back over w)).
Proof.
  intros [Hseq [old Hold] Hsize Hwire] Hn Hover.
  set (b := rev (backup w)). assert (zlen b = zlen (backup w)) as Hb by apply zlen_rev.
  set (m := zlen b - n).
  assert (zdrop (zlen hist - n) hist = zdrop m b) as Htail.
  { rewrite Hold. fold b. rewrite zdrop_app_ge by (unfold m; len_lia).
    f_equal. unfold m. len_lia. }
  rewrite Htail in Hover.
  assert (n <= zlen (fst (pop_while over b (backup_size w)))) as H.
  { rewrite <-(ztake_zdrop m b) at 1.
    replace n with (zlen (zdrop m b)) at 1 by (unfold m; len_lia).
    apply pop_while_keeps. replace (zlen (zdrop m b)) with n by (unfold m; len_lia).
    replace (backup_size w - wire_sum (ztake m b)) with (wire_sum (zdrop m b)); [done|].
    rewrite Hsize, <-(wire_sum_rev (backup w)). fold b.
    rewrite <-(ztake_zdrop m b) at 2. rewrite wire_sum_app. lia. }
  unfold trim_back. fold b. destruct (pop_while over b (backup_size w)). simpl in *.
  by rewrite zlen_rev.
Qed.
End history.

(** ** The invariant of the writer *)

(** A stretch of history the hard caps can hold. *)
Definition fits (frames : list (list byte)) : Prop :=
  wire_sum frames <= MAX_BACKUP_BYTES /\ zlen frames <= MAX_BACKUP_PACKETS.

(** [winv w hist acked]: [acked] is the highest sequence the peer ever
    acknowledged. The backup covers every stretch of history after [acked]
    that the hard caps can hold, and the byte and packet counters are within
    their caps. *)
Record winv (w : BackedWriter) (hist : list (list byte)) (acked : Z) : Prop := {
  inv_repr : repr w hist;
  inv_acked : 0 <= acked <= zlen hist;
  inv_acknowledged : forall a, acknowledged w = Some a -> 0 <= a <= acked;
  inv_cover : forall s, acked <= s <= zlen hist -> fits (zdrop s hist) ->
    zlen hist - s <= zlen (backup w);
  inv_total : backup_size w <= MAX_RECOVERY_BACKUP_BYTES;
  inv_total_connected : connected w = true -> backup_size w <= MAX_BACKUP_BYTES;
  inv_disconnected_bytes : 0 <= disconnected_bytes w <= DISCONNECT_BUFFER_BYTES + MAC_LEN;
  inv_disconnected_packets : 0 <= disconnected_packets w <= MAX_DISCONNECT_PACKETS
}.

Section invariant.
Context {sodium : Sodium}.

Lemma repr_backup_wire w hist :
  repr w hist -> (2 + MAC_LEN) * zlen (backup w) <= backup_size w.
Proof.
  intros [_ [old Hold] Hsize Hwire]. rewrite Hold in Hwire.
  apply Forall_app in Hwire as [_ Hw].
  rewrite Hsize, <-wire_sum_rev, <-zlen_rev. clear Hold.
  induction Hw as [|f l Hf Hl IH]; [done|].
  rewrite zlen_cons. cbn [wire_sum fold_right]. unfold MAC_LEN, wire_sum in *. lia.
Qed.

Lemma repr_len w hist : repr w hist -> zlen (backup w) <= zlen hist.
Proof. intros [_ [old ->] _ _]. len_lia. Qed.

Lemma rev_ztake {A} (l : list A) n :
  0 <= n <= zlen l -> rev (ztake n l) = zdrop (zlen l - n) (rev l).
Proof.
  unfold ztake, zdrop, zlen. intros H. rewrite skipn_rev. do 2 f_equal. lia.
Qed.

(** What a reconnecting peer is sent, in every case. *)
Lemma recover_repr w hist last :
  repr w hist ->
  recover w last =
    if zlen hist <? last then Err AheadOfServer
    else if zlen (backup w) <? zlen hist - last then Err TooFarBehind
    else Ok (map (zdrop 4) (zdrop last hist)).
Proof.
  intros Hr. pose proof (repr_len _ _ Hr) as Hlen. destruct Hr as [Hseq [old Hold] _ _].
  unfold recover, usize_try_from. rewrite Hseq.
  destruct (Z.ltb_spec (zlen hist) last); [by decide_ifs|].
  destruct (Z.ltb_spec (zlen hist - last) 0); [lia|].
  destruct (Z.eqb_spec (zlen hist - last) 0).
  { rewrite zdrop_all by lia. pose proof (zlen_nonneg (backup w)). by decide_ifs. }
  rewrite (proj2 (Z.leb_le 0 _)) by lia.
  destruct (Z.ltb_spec (zlen (backup w)) (zlen hist - last)); [done|]. f_equal.
  assert (zlen hist = zlen old + zlen (backup w)) by (rewrite Hold; len_lia).
  rewrite <-map_rev, rev_ztake by lia. f_equal.
  replace (zdrop last hist) with (zdrop last (old ++ rev (backup w))) by (by rewrite <-Hold).
  rewrite zdrop_app_ge by lia. f_equal. lia.
Qed.

Lemma fits_zdrop s l : Forall (fun f => 2 + MAC_LEN <= wire f) l -> fits l -> fits (zdrop s l).
Proof.
  intros Hw [Hb Hn]. unfold fits. rewrite <-(ztake_zdrop s l) in Hb, Hw.
  apply Forall_app in Hw as [Hw _]. rewrite wire_sum_app in Hb.
  assert (0 <= wire_sum (ztake s l)).
  { apply wire_sum_nonneg. eapply Forall_impl; [exact Hw|]. unfold MAC_LEN. simpl. lia. }
  split; [lia|]. len_lia.
Qed.

Lemma fits_prefix l k : Forall (fun f => 2 + MAC_LEN <= wire f) k -> fits (l ++ k) -> fits l.
Proof.
  intros Hw [Hb Hn]. rewrite wire_sum_app in Hb. rewrite zlen_app in Hn.
  assert (0 <= wire_sum k).
  { apply wire_sum_nonneg. eapply Forall_impl; [exact Hw|]. unfold MAC_LEN. simpl. lia. }
  split; [lia|]. len_lia.
Qed.
End invariant.

Section preservation.
Context {sodium : Sodium} {laws : SodiumLaws sodium}.

Lemma next_frame_wire w hdr body : wire (next_frame_of w hdr body) = 2 + zlen body + MAC_LEN.
Proof.
  unfold wire, next_frame_of. rewrite !zlen_app, easy_zlen, zlen_be_bytes.
  unfold MAC_LEN. len_lia.
Qed.

(** The state right after a frame is pushed, before any trimming. *)
Definition pushed (w : BackedWriter) (f : list byte) : BackedWriter :=
  let w := set_crypto w (bump_handler (crypto w)) in
  let w := set_acknowledged w (acknowledged w) (unacknowledged_bytes w + wire f) in
  let w := set_backup w (f :: backup w) (backup_size w + wire f) in
  set_sequence w (sequence w + 1).

Lemma write_packet_eq w hdr body :
  write_packet w hdr body =
    let f := next_frame_of w hdr body in
    let p := pushed w f in
    if write_refused w (zlen body) then (w, Skipped)
    else if connected w then
      (trim_back over_hard_caps (trim_back (over_connected_caps (protected_packets p)) p), Send f)
    else
      (set_disconnected p (disconnected_bytes w + wire f) (disconnected_packets w + 1),
       BufferedOnly).
Proof.
  cbv zeta. unfold write_packet, reserve_write.
  destruct (write_refused w (zlen body)); [done|].
  unfold pushed. rewrite next_frame_wire. unfold commit_write, next_nonce_and_key.
  cbn. by destruct (connected w).
Qed.

Lemma pushed_repr w hist f :
  repr w hist -> 2 + MAC_LEN <= wire f -> repr (pushed w f) (hist ++ [f]).
Proof.
  intros [Hseq [old Hold] Hsize Hwire] Hf. split.
  - cbn. rewrite Hseq. len_lia.
  - exists old. cbn. by rewrite Hold, app_assoc.
  - cbn. unfold wire_sum in *. lia.
  - apply Forall_app. split; [done|by constructor].
Qed.

Lemma pushed_cover w hist acked f s :
  winv w hist acked -> 2 + MAC_LEN <= wire f ->
  acked <= s <= zlen (hist ++ [f]) -> fits (zdrop s (hist ++ [f])) ->
  zlen (hist ++ [f]) - s <= zlen (backup (pushed w f)).
Proof.
  intros Hinv Hf Hs Hfit. cbn [pushed backup set_sequence set_backup].
  rewrite zlen_app, !zlen_cons, zlen_nil in *.
  destruct (Z.eq_dec s (zlen hist + 1)); [len_lia|].
  assert (fits (zdrop s hist)) as Hfit'.
  { rewrite zdrop_app_l in Hfit by (pose proof (inv_acked _ _ _ Hinv); lia).
    eapply fits_prefix; [|exact Hfit]. by constructor. }
  pose proof (inv_cover _ _ _ Hinv s ltac:(lia) Hfit').
  cbn [set_acknowledged set_crypto backup]. lia.
Qed.

Lemma protected_covers w hist acked f :
  winv w hist acked -> zlen hist + 1 - acked <= protected_packets (pushed w f) \/
  zlen (backup (pushed w f)) <= protected_packets (pushed w f).
Proof.
  intros Hinv. unfold protected_packets. cbn [pushed acknowledged set_sequence set_backup
    set_acknowledged set_crypto sequence backup].
  pose proof (repr_sequence _ _ (inv_repr _ _ _ Hinv)) as ->.
  destruct (acknowledged w) as [a|] eqn:Ha.
  - left. pose proof (inv_acknowledged _ _ _ Hinv a Ha). pose proof (inv_acked _ _ _ Hinv).
    unfold usize_try_from. decide_ifs. simpl. lia.
  - right. pose proof (repr_backup_wire _ _ (inv_repr _ _ _ Hinv)).
    pose proof (inv_total _ _ _ Hinv). rewrite zlen_cons.
    unfold MAC_LEN, MAX_RECOVERY_BACKUP_BYTES, usize_max, u64_max in *. lia.
Qed.

(** The connected branch of a write keeps every stretch of unacknowledged
    history that the hard caps can hold. *)
Lemma connected_trim_cover w hist acked f s :
  winv w hist acked -> 2 + MAC_LEN <= wire f ->
  acked <= s <= zlen (hist ++ [f]) -> fits (zdrop s (hist ++ [f])) ->
  let p := pushed w f in
  zlen (hist ++ [f]) - s <=
    zlen (backup (trim_back over_hard_caps
                    (trim_back (over_connected_caps (protected_packets p)) p))).
Proof.
  intros Hinv Hf Hs Hfit p. set (n := zlen (hist ++ [f]) - s).
  pose proof (pushed_cover _ _ _ _ _ Hinv Hf Hs Hfit) as H0. fold n p in H0.
  pose proof (pushed_repr _ _ _ (inv_repr _ _ _ Hinv) Hf) as Hrp. fold p in Hrp.
  assert (zdrop (zlen (hist ++ [f]) - n) (hist ++ [f]) = zdrop s (hist ++ [f])) as Htail.
  { f_equal. unfold n. lia. }
  assert (n <= zlen (backup (trim_back (over_connected_caps (protected_packets p)) p))) as H1.
  { eapply trim_back_keeps; [exact Hrp|unfold n in *; lia|]. unfold over_connected_caps.
    destruct (protected_covers _ _ _ f Hinv) as [Hp|Hp]; fold p in Hp;
      apply andb_false_intro2; [|lia].
    unfold n in *. rewrite zlen_app, zlen_cons, zlen_nil in *. lia. }
  eapply trim_back_keeps; [by apply trim_back_repr|unfold n in *; lia|].
  rewrite Htail. destruct Hfit as [Hb Hk]. unfold over_hard_caps.
  rewrite zlen_zdrop in Hk. unfold n in *. pose proof (inv_acked _ _ _ Hinv). lia.
Qed.
End preservation.

(** ** Traces of writer operations *)

Inductive wop :=
| OpWrite (hdr : byte) (body : list byte)
| OpAck (acked : Z)
| OpInvalidate
| OpRevive.

(** A writer with the history and the highest acknowledgement of its epoch. *)
Record ghost := mkGhost { g_writer : BackedWriter; g_hist : list (list byte); g_acked : Z }.

Section traces.
Context {sodium : Sodium}.

Definition ack_accepted (w : BackedWriter) (a : Z) : bool :=
  connected w && (0 <=? a) && (a <=? sequence w).

Lemma ack_accepted_eq w a :
  ack_accepted w a = negb (negb (connected w) || (a <? 0) || (sequence w <? a)).
Proof. unfold ack_accepted. destruct (connected w); simpl; [lia|done]. Qed.

Definition wstep (g : ghost) (op : wop) : ghost :=
  let w := g_writer g in
  match op with
  | OpWrite hdr body =>
      match write_packet w hdr body with
      | (w', Skipped) => mkGhost w' (g_hist g) (g_acked g)
      | (w', _) => mkGhost w' (g_hist g ++ [next_frame_of w hdr body]) (g_acked g)
      end
  | OpAck a =>
      mkGhost (acknowledge w a) (g_hist g)
        (if ack_accepted w a then Z.max (g_acked g) a else g_acked g)
  | OpInvalidate => mkGhost (invalidate w) (g_hist g) (g_acked g)
  | OpRevive => mkGhost (revive w) (g_hist g) (g_acked g)
  end.

Definition wrun (ops : list wop) (g : ghost) : ghost := fold_left wstep ops g.

Definition wstart (c : CryptoHandler) (conn : bool) : ghost := mkGhost (new c conn) [] 0.

Definition ginv (g : ghost) : Prop := winv (g_writer g) (g_hist g) (g_acked g).

Lemma wstart_inv c conn : ginv (wstart c conn).
Proof.
  split; cbn; try done; try lia.
  split; cbn; [done|by exists []|done|constructor].
Qed.

Lemma refused_bounds w n :
  write_refused w n = false -> connected w = false -> 0 <= n ->
  0 <= backup_size w -> 0 <= disconnected_bytes w ->
  disconnected_bytes w + (2 + n) <= DISCONNECT_BUFFER_BYTES /\
  disconnected_packets w < MAX_DISCONNECT_PACKETS /\
  backup_size w + (2 + n + MAC_LEN) <= MAX_RECOVERY_BACKUP_BYTES.
Proof.
  unfold write_refused. intros H Hc Hn Hs Hd. rewrite Hc in H. cbn [negb andb] in H.
  apply orb_false_iff in H as [[H1%negb_false_iff H2]%orb_false_iff H3%negb_false_iff].
  unfold i64_try_from, i64_checked_add, MAC_LEN, DISCONNECT_BUFFER_BYTES,
    MAX_RECOVERY_BACKUP_BYTES, i64_max, i64_min, is_some_and in *.
  destruct (Z.leb_spec (2 + n) (2 ^ 63 - 1)); [|done]. cbn [mbind option_bind] in H1.
  destruct ((- 2 ^ 63 <=? disconnected_bytes w + (2 + n)) && _) eqn:E1; [|done].
  cbv beta iota in H1. destruct (Z.leb_spec (2 + n + 16) (2 ^ 63 - 1)); cbn [unwrap_or] in H3;
    (destruct (_ && _) eqn:E3 in H3; [|done]); cbv beta iota in H3; lia.
Qed.

Lemma repr_size_nonneg w hist : repr w hist -> 0 <= backup_size w.
Proof.
  intros Hr. pose proof (repr_backup_wire _ _ Hr). pose proof (zlen_nonneg (backup w)).
  unfold MAC_LEN in *. lia.
Qed.

(** Trimming by [over] gets below any byte bound it enforces. *)
Lemma trim_back_below over w hist bound :
  repr w hist -> 0 <= bound ->
  (forall size len, over size len = false -> size <= bound) ->
  backup_size (trim_back over w) <= bound.
Proof.
  intros Hr Hb Hover. destruct (trim_back_stop over w) as [E|E]; [|eauto].
  rewrite (repr_size _ _ (trim_back_repr over _ _ Hr)), E. done.
Qed.

Section laws.
Context {laws : SodiumLaws sodium}.

Lemma write_inv g hdr body : ginv g -> ginv (wstep g (OpWrite hdr body)).
Proof.
  destruct g as [w hist acked]. unfold ginv. intros Hinv. cbn [g_writer g_hist g_acked] in Hinv.
  cbn [wstep g_writer g_hist g_acked]. rewrite write_packet_eq. cbv zeta.
  set (f := next_frame_of w hdr body).
  assert (2 + MAC_LEN <= wire f) as Hf.
  { unfold f. rewrite next_frame_wire. len_lia. }
  destruct (write_refused w (zlen body)) eqn:Href; [done|].
  pose proof (pushed_repr w hist f (inv_repr _ _ _ Hinv) Hf) as Hrp.
  pose proof (inv_acked _ _ _ Hinv) as Hack. pose proof (zlen_nonneg body) as Hbody.
  destruct (connected w) eqn:Hc; cbn [g_writer g_hist g_acked].
  - set (p := pushed w f) in *. set (q := trim_back (over_connected_caps _) p).
    pose proof (trim_back_fields (over_connected_caps (protected_packets p)) p) as F1.
    pose proof (trim_back_fields over_hard_caps q) as F2. fold q in F1.
    destruct F1 as (_ & D1 & P1 & _ & C1 & A1 & _), F2 as (_ & D2 & P2 & _ & C2 & A2 & _).
    assert (backup_size (trim_back over_hard_caps q) <= MAX_BACKUP_BYTES) as Hsize.
    { eapply trim_back_below; [by apply trim_back_repr| |].
      - done.
      - unfold over_hard_caps. lia. }
    split; rewrite ?D2, ?P2, ?C2, ?A2, ?D1, ?P1, ?C1, ?A1.
    + by do 2 apply trim_back_repr.
    + len_lia.
    + apply Hinv.
    + intros. by apply (connected_trim_cover w hist acked).
    + unfold MAX_BACKUP_BYTES, MAX_RECOVERY_BACKUP_BYTES in *. lia.
    + done.
    + apply Hinv.
    + apply Hinv.
  - pose proof (inv_disconnected_bytes _ _ _ Hinv) as Hd.
    destruct (refused_bounds w (zlen body) Href Hc Hbody
                (repr_size_nonneg _ _ (inv_repr _ _ _ Hinv)) ltac:(lia)) as (B1 & B2 & B3).
    pose proof (next_frame_wire w hdr body) as Hw. fold f in Hw. clearbody f.
    pose proof (inv_disconnected_packets _ _ _ Hinv).
    split.
    + destruct Hrp. by split.
    + len_lia.
    + apply Hinv.
    + intros. by apply (pushed_cover w hist acked).
    + cbn -[Z.add Z.mul]. lia.
    + cbn. congruence.
    + cbn -[Z.add Z.mul]. unfold MAC_LEN in *. lia.
    + cbn -[Z.add Z.mul]. lia.
Qed.

Lemma invalidate_inv g : ginv g -> ginv (wstep g OpInvalidate).
Proof. intros [[] ? ? ? ? ? ? ?]. split; try done. Qed.

Lemma revive_inv g : ginv g -> ginv (wstep g OpRevive).
Proof.
  destruct g as [w hist acked]. unfold ginv. intros Hinv. cbn [g_writer g_hist g_acked] in Hinv.
  cbn [wstep g_writer g_hist g_acked]. unfold revive.
  set (q := set_disconnected (set_connected w true) 0 0).
  assert (repr q hist) as Hq by (destruct (inv_repr _ _ _ Hinv); by split).
  pose proof (trim_back_fields (fun size _ => MAX_BACKUP_BYTES <? size) q) as F.
  destruct F as (_ & D1 & P1 & _ & C1 & A1 & _).
  assert (backup_size (trim_back (fun size _ => MAX_BACKUP_BYTES <? size) q)
            <= MAX_BACKUP_BYTES) as Hsize.
  { eapply trim_back_below; [done|done|]. simpl. lia. }
  split; rewrite ?D1, ?P1, ?C1, ?A1.
  - by apply trim_back_repr.
  - apply Hinv.
  - apply Hinv.
  - intros s Hs Hfit. pose proof (inv_cover _ _ _ Hinv s Hs Hfit).
    eapply trim_back_keeps; [done|cbn; lia|].
    replace (zlen hist - (zlen hist - s)) with s by lia. destruct Hfit. lia.
  - unfold MAX_BACKUP_BYTES, MAX_RECOVERY_BACKUP_BYTES in *. lia.
  - done.
  - done.
  - done.
Qed.

Lemma slack_kept_bounds frames p b : 0 <= slack_kept frames p b <= zlen frames.
Proof.
  revert p b. induction frames as [|f l IH]; intros p b; cbn [slack_kept]; [done|].
  specialize (IH (p + 1) (b + wire f)). repeat case_match; len_lia.
Qed.

Lemma ack_inv g a : ginv g -> ginv (wstep g (OpAck a)).
Proof.
  destruct g as [w hist acked]. unfold ginv. intros Hinv. cbn [g_writer g_hist g_acked] in Hinv.
  cbn [wstep g_writer g_hist g_acked]. unfold acknowledge. rewrite ack_accepted_eq.
  pose proof (repr_sequence _ _ (inv_repr _ _ _ Hinv)) as Hseq.
  pose proof (inv_acked _ _ _ Hinv) as Hack.
  destruct (negb (connected w) || (a <? 0) || (sequence w <? a)) eqn:T;
    [done|]. apply orb_false_iff in T as [[Hconn Ha0]%orb_false_iff Ha1]. cbn [negb].
  unfold usize_try_from. rewrite (proj2 (Z.leb_le 0 _)) by lia. cbn [unwrap_or].
  set (u := sequence w - a).
  set (q := set_acknowledged w (Some a) (wire_sum (ztake u (backup w)))).
  cbv zeta. set (keep := Z.min u (zlen (backup q))).
  set (kept := keep + slack_kept (zdrop keep (backup q)) 0 0).
  assert (keep <= kept) as Hkept.
  { unfold kept. pose proof (slack_kept_bounds (zdrop keep (backup q)) 0 0). lia. }
  assert (repr q hist) as Hq by (destruct (inv_repr _ _ _ Hinv); by split).
  pose proof (trim_back_fields (fun _ len => kept <? len) q) as F.
  destruct F as (_ & D1 & P1 & _ & C1 & A1 & _).
  assert (backup_size (trim_back (fun _ len => kept <? len) q) <= backup_size w) as Hsize.
  { destruct (pop_while_spec (fun _ len => kept <? len) (rev (backup q)) (backup_size q))
      as (d & Hd & Hs & _).
    unfold trim_back. destruct (pop_while _ _ _) as [l s]. cbn in Hs, Hd |- *.
    assert (0 <= wire_sum d); [|lia]. destruct (inv_repr _ _ _ Hinv) as [_ [old Hold] _ Hw].
    rewrite Hold, Hd in Hw. apply Forall_app in Hw as [_ [Hw _]%Forall_app].
    apply wire_sum_nonneg. eapply Forall_impl; [exact Hw|]. unfold MAC_LEN. simpl. lia. }
  pose proof (inv_total _ _ _ Hinv). pose proof (inv_total_connected _ _ _ Hinv) as Htc.
  split; rewrite ?D1, ?P1, ?C1, ?A1.
  - by apply trim_back_repr.
  - lia.
  - cbn. intros ? [= <-]. lia.
  - intros s Hs Hfit. pose proof (inv_cover _ _ _ Hinv s ltac:(lia) Hfit) as Hcov.
    eapply trim_back_keeps; [done|cbn; lia|]. cbv beta.
    assert (zlen hist - s <= keep); [|lia].
    unfold keep, u. cbn [q backup set_acknowledged]. lia.
  - lia.
  - cbn. intros Hc. specialize (Htc Hc). lia.
  - apply Hinv.
  - apply Hinv.
Qed.

Lemma wrun_inv ops g : ginv g -> ginv (wrun ops g).
Proof.
  revert g. induction ops as [|op ops IH]; intros g H; [done|]. apply IH.
  destruct op; [by apply write_inv|by apply ack_inv|by apply invalidate_inv|by apply revive_inv].
Qed.
End laws.
End traces.

(** ** What the writer guarantees *)

Section guarantees.
Context {sodium : Sodium}.

(** An acknowledgement retains the unacknowledged tail plus a bounded slack:
    at most [ACK_RETAIN_SLACK_PACKETS] frames, and once more than
    [ACK_RETAIN_FLOOR_PACKETS] of them, at most [ACK_RETAIN_SLACK_BYTES]. *)
Lemma slack_kept_spec frames p b :
  0 <= p <= ACK_RETAIN_SLACK_PACKETS ->
  let k := slack_kept frames p b in
  p + k <= ACK_RETAIN_SLACK_PACKETS /\
  (p + k <= ACK_RETAIN_FLOOR_PACKETS \/ k = 0 \/
   b + wire_sum (ztake k frames) <= ACK_RETAIN_SLACK_BYTES).
Proof.
  unfold ACK_RETAIN_SLACK_PACKETS, ACK_RETAIN_FLOOR_PACKETS.
  revert p b. induction frames as [|f l IH]; intros p b Hp; cbn [slack_kept]; cbv zeta; [lia|].
  unfold ACK_RETAIN_SLACK_PACKETS, ACK_RETAIN_FLOOR_PACKETS.
  destruct (Z.ltb_spec p 1024); [|lia].
  destruct ((16 <=? p) && (ACK_RETAIN_SLACK_BYTES <? b + wire f)) eqn:T; [lia|].
  destruct (IH (p + 1) (b + wire f) ltac:(lia)) as [H1 H2].
  pose proof (slack_kept_bounds l (p + 1) (b + wire f)) as Hk.
  set (k := slack_kept l (p + 1) (b + wire f)) in *. split; [lia|].
  rewrite ztake_cons by lia. replace (1 + k - 1) with k by lia. cbn [wire_sum fold_right].
  fold (wire_sum (ztake k l)).
  destruct H2 as [H2|[H2|H2]]; [left; lia| |right; right; lia].
  rewrite H2 in *. rewrite ztake_0. cbn [wire_sum fold_right].
  destruct (Z.leb_spec 16 p); [right; right|left]; lia.
Qed.

(** Trimming to a length keeps exactly the newest frames. *)
Lemma trim_back_to k w :
  0 <= k <= zlen (backup w) ->
  backup (trim_back (fun _ len => k <? len) w) = ztake k (backup w).
Proof.
  intros Hk. set (over := fun _ len : Z => k <? len). set (b := rev (backup w)).
  assert (zlen b = zlen (backup w)) as Hb by apply zlen_rev.
  pose proof (pop_while_keeps over (ztake (zlen b - k) b) (zdrop (zlen b - k) b)
                (backup_size w)) as Hge.
  rewrite ztake_zdrop in Hge. replace (zlen (zdrop (zlen b - k) b)) with k in Hge by len_lia.
  specialize (Hge (Z.ltb_irrefl k)).
  destruct (pop_while_spec over b (backup_size w)) as (d & Hd & _ & Hstop).
  unfold trim_back. fold b. destruct (pop_while over b (backup_size w)) as [l s].
  simpl in *. assert (zlen l = k) as Hl.
  { destruct Hstop as [->|H]; [rewrite zlen_nil in *; lia|unfold over in H; lia]. }
  apply (f_equal (@rev _)) in Hd. unfold b in Hd. rewrite rev_involutive, rev_app_distr in Hd.
  rewrite Hd, <-Hl, <-(zlen_rev l). symmetry. apply ztake_app_exact.
Qed.

(** An accepted acknowledgement releases everything but the unacknowledged
    tail and a bounded slack (at most 1024 frames, and past 16 of them at most
    256 KiB), drops nothing unacknowledged, and recomputes the backlog. *)
Theorem acknowledge_retains w a :
  ack_accepted w a = true ->
  let w' := acknowledge w a in
  let tail := Z.min (sequence w - a) (zlen (backup w)) in
  let slack := zlen (backup w') - tail in
  backup w' = ztake (tail + slack) (backup w) /\
  0 <= slack <= ACK_RETAIN_SLACK_PACKETS /\
  (slack <= ACK_RETAIN_FLOOR_PACKETS \/
   wire_sum (zdrop tail (backup w')) <= ACK_RETAIN_SLACK_BYTES) /\
  delivery_backlog w' = Some (a, wire_sum (ztake tail (backup w))).
Proof.
  intros Hacc w' tail slack. rewrite ack_accepted_eq in Hacc. apply negb_true_iff in Hacc.
  set (q := set_acknowledged w (Some a) (wire_sum (ztake (sequence w - a) (backup w)))).
  pose proof (slack_kept_bounds (zdrop tail (backup w)) 0 0) as Hk.
  destruct (slack_kept_spec (zdrop tail (backup w)) 0 0 ltac:(done)) as [S1 S2].
  set (k := slack_kept (zdrop tail (backup w)) 0 0) in *.
  apply orb_false_iff in Hacc as Hacc'. destruct Hacc' as [[_ Ha0]%orb_false_iff Ha1].
  assert (w' = trim_back (fun _ len => tail + k <? len) q) as Hw'.
  { unfold w', acknowledge. rewrite Hacc. unfold usize_try_from.
    by rewrite (proj2 (Z.leb_le 0 _)) by lia. }
  pose proof (zlen_nonneg (backup w)) as Hb0.
  assert (backup w' = ztake (tail + k) (backup w)) as Hbk.
  { rewrite Hw'. apply (trim_back_to (tail + k) q). rewrite zlen_zdrop in Hk.
    cbn [q backup set_acknowledged]. unfold tail in *. lia. }
  assert (slack = k) as Hs.
  { unfold slack. rewrite Hbk. rewrite zlen_zdrop in Hk. unfold tail in *. len_lia. }
  rewrite Hs. split_and!; [done|lia|lia| |].
  - destruct S2 as [S2|[S2|S2]]; [left; lia| |right].
    + left. rewrite S2. unfold ACK_RETAIN_FLOOR_PACKETS. lia.
    + rewrite Hbk. assert (0 <= tail) by (unfold tail; lia).
      replace (zdrop tail (ztake (tail + k) (backup w))) with (ztake k (zdrop tail (backup w)));
        [lia|]. unfold zdrop, ztake. rewrite skipn_firstn_comm. f_equal. lia.
  - unfold delivery_backlog. rewrite Hw'.
    destruct (trim_back_fields (fun _ len => tail + k <? len) q) as (_&_&_&_&_&->&->).
    cbn. do 3 f_equal. unfold tail, ztake, zlen.
    destruct (Z.le_ge_cases (sequence w - a) (Z.of_nat (length (backup w)))).
    + f_equal. lia.
    + rewrite !take_ge by lia. done.
Qed.
End guarantees.

Section guarantees_laws.
Context {sodium : Sodium} {laws : SodiumLaws sodium}.

(** C15: A reconnecting peer that has received [s] packets is sent exactly the
    packets it missed, in order: whatever sequence of writes, acknowledgements,
    disconnects and reconnects came before, every [s] between the highest
    acknowledgement and the writer's sequence recovers, as long as the missed
    packets fit the hard caps. *)
Theorem recover_exact c conn ops s :
  let g := wrun ops (wstart c conn) in
  g_acked g <= s <= zlen (g_hist g) -> fits (zdrop s (g_hist g)) ->
  recover (g_writer g) s = Ok (map (zdrop 4) (zdrop s (g_hist g))).
Proof.
  intros g Hs Hfit. pose proof (wrun_inv ops _ (wstart_inv c conn)) as Hinv. fold g in Hinv.
  rewrite (recover_repr _ _ _ (inv_repr _ _ _ Hinv)).
  pose proof (inv_cover _ _ _ Hinv s Hs Hfit). by decide_ifs.
Qed.

(** In every reachable state, [recover] either replays exactly the missed
    packets or fails for the stated reason: the peer claims a sequence the
    writer has not reached, or one older than the backup. *)
Theorem recover_total c conn ops last :
  let g := wrun ops (wstart c conn) in
  recover (g_writer g) last =
    if sequence (g_writer g) <? last then Err AheadOfServer
    else if zlen (backup (g_writer g)) <? sequence (g_writer g) - last then Err TooFarBehind
    else Ok (map (zdrop 4) (zdrop last (g_hist g))).
Proof.
  intros g. pose proof (wrun_inv ops _ (wstart_inv c conn)) as Hinv. fold g in Hinv.
  rewrite (repr_sequence _ _ (inv_repr _ _ _ Hinv)). apply recover_repr, Hinv.
Qed.

(** Memory stays bounded in every reachable state: the backup never exceeds
    76 MiB (64 MiB while connected), it holds at least 18 bytes per packet, and
    the disconnect buffer stays within its caps up to one authentication tag. *)
Theorem writer_bounds c conn ops :
  let w := g_writer (wrun ops (wstart c conn)) in
  (2 + MAC_LEN) * zlen (backup w) <= backup_size w <= MAX_RECOVERY_BACKUP_BYTES /\
  (connected w = true -> backup_size w <= MAX_BACKUP_BYTES) /\
  0 <= disconnected_bytes w <= DISCONNECT_BUFFER_BYTES + MAC_LEN /\
  0 <= disconnected_packets w <= MAX_DISCONNECT_PACKETS /\
  zlen (backup w) <= sequence w.
Proof.
  intros w. pose proof (wrun_inv ops _ (wstart_inv c conn)) as Hinv. unfold ginv in Hinv.
  fold w in Hinv. set (hist := g_hist _) in Hinv. set (ack := g_acked _) in Hinv.
  pose proof (repr_sequence _ _ (inv_repr _ _ _ Hinv)) as Hseq.
  pose proof (repr_len _ _ (inv_repr _ _ _ Hinv)) as Hlen.
  pose proof (repr_backup_wire _ _ (inv_repr _ _ _ Hinv)) as Hwire.
  destruct Hinv as [_ _ _ _ Ht Htc Hdb Hdp]. split_and!; try done; lia.
Qed.

Lemma capacity_admits w payload_len :
  0 <= payload_len -> 0 <= backup_size w -> 0 <= disconnected_bytes w ->
  has_capacity w (2 + payload_len + MAC_LEN) = true ->
  write_refused w payload_len = false.
Proof.
  intros Hn Hs Hd. unfold has_capacity, write_refused. destruct (connected w); [done|].
  cbn [orb negb andb]. unfold i64_try_from, i64_checked_add, is_some_and, MAC_LEN,
    DISCONNECT_BUFFER_BYTES, MAX_RECOVERY_BACKUP_BYTES, i64_max, i64_min.
  destruct (_ && (disconnected_bytes w + _ <=? _)) eqn:E1; [|done].
  destruct (_ && (backup_size w + _ <=? _)) eqn:E2; [|by rewrite andb_false_r].
  cbv beta iota. intros H.
  destruct (Z.leb_spec (2 + payload_len) (2 ^ 63 - 1)); [|lia].
  destruct (Z.leb_spec (2 + payload_len + 16) (2 ^ 63 - 1)); [|lia].
  cbn [mbind option_bind unwrap_or].
  destruct (_ && (disconnected_bytes w + (2 + payload_len) <=? _)) eqn:E3; [|lia].
  rewrite E2. lia.
Qed.

(** [has_capacity] is a sound admission test: in every reachable state, when
    it holds for the wire size of a packet, that packet is not skipped. *)
Theorem has_capacity_admits c conn ops hdr body :
  let w := g_writer (wrun ops (wstart c conn)) in
  has_capacity w (2 + zlen body + MAC_LEN) = true ->
  snd (write_packet w hdr body) <> Skipped.
Proof.
  intros w Hcap. pose proof (wrun_inv ops _ (wstart_inv c conn)) as Hinv. unfold ginv in Hinv.
  fold w in Hinv. rewrite write_packet_eq. cbv zeta.
  rewrite capacity_admits; [by destruct (connected w)|apply zlen_nonneg| | |done].
  - eapply repr_size_nonneg, (inv_repr _ _ _ Hinv).
  - apply (inv_disconnected_bytes _ _ _ Hinv).
Qed.
End guarantees_laws.

(** ** The packet cap across reconnects

    [revive] trims by bytes only. Outages with reconnects in between but no
    connected write stack one disconnect buffer on the other. *)

Section flapping.
Context {sodium : Sodium} {laws : SodiumLaws sodium}.

Definition keepalive_write : wop := OpWrite x00 [].

Lemma trim_back_noop over w :
  over (backup_size w) (zlen (backup w)) = false -> trim_back over w = w.
Proof.
  intros H. unfold trim_back. destruct (rev (backup w)) as [|f l] eqn:E.
  - cbn. apply (f_equal (@rev _)) in E. rewrite rev_involutive in E. cbn in E.
    destruct w; cbn in *; by subst.
  - cbn [pop_while]. rewrite <-E, zlen_rev, H, rev_involutive. by destruct w.
Qed.

(** Room for [k] more packets of 18 bytes on a disconnected writer. *)
Definition room (w : BackedWriter) (k : Z) : Prop :=
  connected w = false /\ 0 <= backup_size w /\ 0 <= disconnected_bytes w /\
  disconnected_packets w + k <= MAX_DISCONNECT_PACKETS /\
  disconnected_bytes w + 18 * k <= DISCONNECT_BUFFER_BYTES /\
  backup_size w + 18 * k <= MAX_BACKUP_BYTES.

Lemma disconnected_write g k :
  room (g_writer g) k -> 1 <= k ->
  let g' := wstep g keepalive_write in
  room (g_writer g') (k - 1) /\
  zlen (backup (g_writer g')) = zlen (backup (g_writer g)) + 1 /\
  backup_size (g_writer g') = backup_size (g_writer g) + 18 /\
  zlen (g_hist g') = zlen (g_hist g) + 1.
Proof.
  intros (Hc & Hs & Hd & Hp & Hb & Ht) Hk. cbn [wstep keepalive_write].
  rewrite write_packet_eq. cbv zeta. set (w := g_writer g) in *.
  pose proof (next_frame_wire w x00 []) as Hf. set (f := next_frame_of w x00 []) in *.
  clearbody f. change (2 + zlen [] + MAC_LEN) with 18 in Hf.
  assert (write_refused w (zlen []) = false) as ->.
  { apply capacity_admits; try done. change (2 + zlen [] + MAC_LEN) with 18.
    unfold has_capacity. rewrite Hc. unfold i64_checked_add, DISCONNECT_BUFFER_BYTES,
      MAX_RECOVERY_BACKUP_BYTES, MAX_DISCONNECT_PACKETS, MAX_BACKUP_BYTES, i64_min, i64_max in *.
    cbn [orb]. decide_ifs. unfold is_some_and. lia. }
  rewrite Hc. cbn [g_writer g_hist]. unfold room.
  cbn [connected backup_size disconnected_bytes disconnected_packets backup set_disconnected
       pushed set_sequence set_backup set_acknowledged set_crypto].
  autorewrite with zlen. rewrite Hf. split_and!; try done; lia.
Qed.

Lemma disconnected_writes (n : nat) g :
  room (g_writer g) (Z.of_nat n) ->
  let g' := wrun (replicate n keepalive_write) g in
  connected (g_writer g') = false /\
  zlen (backup (g_writer g')) = zlen (backup (g_writer g)) + Z.of_nat n /\
  backup_size (g_writer g') = backup_size (g_writer g) + 18 * Z.of_nat n /\
  zlen (g_hist g') = zlen (g_hist g) + Z.of_nat n.
Proof.
  revert g. induction n as [|n IH]; intros g Hroom; cbv zeta.
  - cbn. destruct Hroom as (Hc & _). split_and!; try done; lia.
  - destruct (disconnected_write g (Z.of_nat (S n)) Hroom ltac:(lia)) as (Hr & Hl & Hs & Ha).
    replace (Z.of_nat (S n) - 1) with (Z.of_nat n) in Hr by lia.
    destruct (IH _ Hr) as (Hc' & Hl' & Hs' & Ha').
    change (replicate (S n) keepalive_write) with (keepalive_write :: replicate n keepalive_write).
    change (wrun (keepalive_write :: replicate n keepalive_write) g)
      with (wrun (replicate n keepalive_write) (wstep g keepalive_write)).
    split_and!; [done|lia..].
Qed.

(** [k] packets of 18 bytes, all in the backup of a freshly disconnected
    writer. *)
Definition stacked (g : ghost) (k : Z) : Prop :=
  zlen (backup (g_writer g)) = k /\ zlen (g_hist g) = k /\
  backup_size (g_writer g) = 18 * k /\ connected (g_writer g) = false /\
  disconnected_bytes (g_writer g) = 0 /\ disconnected_packets (g_writer g) = 0.

(** An outage of [n] packets, then a reconnect that writes nothing. *)
Definition outage (n : nat) : list wop := replicate n keepalive_write ++ [OpRevive; OpInvalidate].

Lemma outage_stacks n g k :
  Z.of_nat n <= MAX_DISCONNECT_PACKETS -> 18 * (k + Z.of_nat n) <= MAX_BACKUP_BYTES ->
  stacked g k -> stacked (wrun (outage n) g) (k + Z.of_nat n).
Proof.
  intros Hn Hb (Hl & Hh & Hs & Hc & Hd & Hp). unfold wrun, outage. rewrite fold_left_app.
  destruct (disconnected_writes n g) as (Hc' & Hl' & Hs' & Hh').
  { unfold room. unfold MAX_DISCONNECT_PACKETS, DISCONNECT_BUFFER_BYTES, MAX_BACKUP_BYTES in *.
    rewrite Hs, Hd, Hp. pose proof (zlen_nonneg (backup (g_writer g))). split_and!; try done; lia. }
  unfold wrun in *. set (g' := fold_left wstep (replicate n keepalive_write) g) in *.
  clearbody g'. cbn [fold_left wstep g_writer g_hist g_acked]. unfold revive, stacked.
  rewrite trim_back_noop; cbn [g_writer g_hist backup_size set_disconnected set_connected];
    [|lia].
  cbn. split_and!; try done; lia.
Qed.

Lemma three_outages n c :
  Z.of_nat n = MAX_DISCONNECT_PACKETS ->
  exists catchup,
    recover (g_writer (wrun (outage n ++ outage n ++ outage n) (wstart c false))) 0 = Ok catchup /\
    MAX_BACKUP_PACKETS + MAX_DISCONNECT_PACKETS < zlen catchup.
Proof.
  intros Hn. set (ops := outage n ++ _).
  assert (stacked (wrun ops (wstart c false)) (0 + Z.of_nat n + Z.of_nat n + Z.of_nat n)) as Hst.
  { unfold MAX_DISCONNECT_PACKETS in Hn. unfold ops, wrun. rewrite !fold_left_app.
    do 3 (apply outage_stacks;
      [unfold MAX_DISCONNECT_PACKETS; lia|unfold MAX_BACKUP_BYTES; lia|]). done. }
  destruct Hst as (Hl & Hh & _).
  pose proof (wrun_inv ops _ (wstart_inv c false)) as Hinv.
  rewrite (recover_repr _ _ _ (inv_repr _ _ _ Hinv)), Hl, Hh.
  unfold MAX_BACKUP_PACKETS, MAX_DISCONNECT_PACKETS in *. decide_ifs.
  eexists. split; [done|]. rewrite zdrop_0. unfold zlen in *. rewrite length_map. lia.
Qed.

(** C39: Finding: three outages of [MAX_DISCONNECT_PACKETS] small packets each, with
    reconnects that write nothing in between, leave a writer whose catchup for
    a peer that received nothing has more entries than the
    [MAX_BACKUP_PACKETS + MAX_DISCONNECT_PACKETS] every receiver accepts. *)
Theorem catchup_exceeds_entry_limit c :
  exists ops catchup,
    recover (g_writer (wrun ops (wstart c false))) 0 = Ok catchup /\
    MAX_BACKUP_PACKETS + MAX_DISCONNECT_PACKETS < zlen catchup.
Proof.
  eexists. apply (three_outages (Z.to_nat MAX_DISCONNECT_PACKETS)).
  apply Z2Nat.id. unfold MAX_DISCONNECT_PACKETS. lia.
Qed.
End flapping.

(** ** Witnesses *)

Definition demo_crypto : CryptoHandler := Crypto.new (replicate 32 x61) x00.

Lemma acknowledge_retains_witness :
  let w := g_writer (wrun (sodium := toy_sodium) [OpWrite x01 [x61]; OpWrite x01 [x62]] (wstart demo_crypto true)) in
  delivery_backlog (acknowledge w 1) = Some (1, 19).
Proof.
  intros w. destruct (acknowledge_retains w 1) as (_ & _ & _ & H); [vm_compute; done|].
  cbv zeta in H. rewrite H. vm_compute. done.
Defined.

Lemma recover_exact_witness :
  let g := wrun (sodium := toy_sodium) [OpWrite x01 [x61]; OpInvalidate; OpWrite x01 [x62]] (wstart demo_crypto true) in
  recover (g_writer g) 1 = Ok (map (zdrop 4) (zdrop 1 (g_hist g))).
Proof.
  apply (recover_exact (laws := toy_laws) demo_crypto true [OpWrite x01 [x61]; OpInvalidate; OpWrite x01 [x62]] 1).
  - vm_compute. split; congruence.
  - vm_compute. split; congruence.
Defined.

Lemma recover_total_witness :
  recover (g_writer (wrun (sodium := toy_sodium) [OpWrite x01 [x61]] (wstart demo_crypto true))) 2 = Err AheadOfServer.
Proof. exact (recover_total (laws := toy_laws) demo_crypto true [OpWrite x01 [x61]] 2). Defined.

Lemma writer_bounds_witness :
  disconnected_packets (g_writer (wrun (sodium := toy_sodium) [OpWrite x01 [x61]] (wstart demo_crypto false)))
    <= MAX_DISCONNECT_PACKETS.
Proof.
  destruct (writer_bounds (laws := toy_laws) demo_crypto false [OpWrite x01 [x61]]) as (_ & _ & _ & H & _).
  exact (proj2 H).
Defined.

Lemma has_capacity_admits_witness :
  snd (write_packet (sodium := toy_sodium) (g_writer (wrun (sodium := toy_sodium) [] (wstart demo_crypto false))) x01 [x61]) <> Skipped.
Proof.
  apply (has_capacity_admits (laws := toy_laws) demo_crypto false [] x01 [x61]). vm_compute. done.
Defined.

Lemma catchup_exceeds_entry_limit_witness :
  exists ops catchup, recover (g_writer (wrun (sodium := toy_sodium) ops (wstart demo_crypto false))) 0 = Ok catchup /\
    MAX_BACKUP_PACKETS + MAX_DISCONNECT_PACKETS < zlen catchup.
Proof. exact (catchup_exceeds_entry_limit (laws := toy_laws) demo_crypto). Defined.
