(* ===== verification/Keepalive.v ===== *)
(** * Keepalive: [crates/et-core/src/keepalive.rs]

    The delivery acknowledgement carried by keep-alive packets: its eight-byte
    encoding, and the schedule that decides which keep-alives carry it. *)

From S2P Require Import Prelude Crypto BackedWriter.

Definition ACK_PAYLOAD_LEN : nat := 8.
Definition ACK_INTERVAL_BYTES : Z := 512 * 1024.

(** [i64::to_be_bytes] and [i64::from_be_bytes] on eight bytes. *)
Definition encode_ack (sequence : Z) : list byte :=
  be_bytes ACK_PAYLOAD_LEN (Z.max sequence 0).

Definition decode_ack (payload : list byte) : option Z :=
  if zlen payload =? Z.of_nat ACK_PAYLOAD_LEN then
    let value := to_signed 64 (be_val payload) in
    if 0 <=? value then Some value else None
  else None.

Definition ack_bytes (ack : option (list byte)) : list byte :=
  match ack with Some ack => ack | None => [] end.

Inductive AckSide := Initiator | Responder.

#[export] Instance AckSide_eq_dec : EqDecision AckSide.
Proof. solve_decision. Defined.

Record AckSchedule := { attached : option Z }.

(** [AckSchedule::default]. *)
Definition default : AckSchedule := {| attached := None |}.

(** [AckSchedule::next]. Both sequences are non-negative [i64] values, so the
    subtraction does not overflow. *)
Definition next (s : AckSchedule) (side : AckSide) (sequence data_sequence : Z)
    (peer_acknowledges volume : bool) : AckSchedule * option (list byte) :=
  let attach :=
    match attached s with
    | None => peer_acknowledges || bool_decide (side = Initiator)
    | Some a =>
        peer_acknowledges &&
          (volume || (a <? data_sequence) || (ACK_RETAIN_FLOOR_PACKETS <=? sequence - a))
    end in
  if attach then ({| attached := Some sequence |}, Some (encode_ack sequence)) else (s, None).

(** ** The encoding *)

Lemma decode_encode_ack v : 0 <= v <= i64_max -> decode_ack (encode_ack v) = Some v.
Proof.
  intros Hv. unfold decode_ack, encode_ack. rewrite zlen_be_bytes, Z.eqb_refl.
  rewrite be_val_be_bytes. change (256 ^ Z.of_nat ACK_PAYLOAD_LEN) with (2 ^ 64).
  unfold i64_max in Hv. rewrite Z.max_l, Z.mod_small by lia.
  rewrite to_signed_small by (change (64 - 1) with 63; lia).
  rewrite (proj2 (Z.leb_le 0 v)) by lia. done.
Qed.

(** An acknowledgement payload determines its sequence and is determined by
    it: a payload decodes to [v] exactly when it is the encoding of the
    non-negative [i64] value [v]. Every other payload, the legacy empty one in
    particular, is ignored. *)
Theorem decode_ack_iff payload v :
  decode_ack payload = Some v <-> 0 <= v <= i64_max /\ payload = encode_ack v.
Proof.
  split; [|intros [? ->]; by apply decode_encode_ack].
  unfold decode_ack. destruct (Z.eqb_spec (zlen payload) (Z.of_nat ACK_PAYLOAD_LEN)) as [Hl|];
    [|done].
  pose proof (be_val_bound payload) as Hb. rewrite Hl in Hb.
  change (256 ^ Z.of_nat ACK_PAYLOAD_LEN) with (2 ^ 64) in Hb.
  unfold to_signed. change (64 - 1) with 63.
  destruct (Z.ltb_spec (be_val payload) (2 ^ 63)).
  - rewrite (proj2 (Z.leb_le 0 (be_val payload))) by lia. intros [= <-].
    unfold i64_max. split; [lia|]. unfold encode_ack. rewrite Z.max_l by lia.
    replace ACK_PAYLOAD_LEN with (length payload) by (unfold zlen in Hl; lia).
    by rewrite be_bytes_be_val.
  - rewrite (proj2 (Z.leb_gt 0 _)) by lia. done.
Qed.

(** ** The schedule over one connection *)

(** One keep-alive opportunity: the reader's two sequences, whether the peer
    has acknowledged, and whether it is a volume acknowledgement. *)
Record opportunity := {
  o_sequence : Z; o_data_sequence : Z; o_peer : bool; o_volume : bool
}.

Definition step (side : AckSide) (s : AckSchedule) (o : opportunity) :=
  next s side (o_sequence o) (o_data_sequence o) (o_peer o) (o_volume o).

(** The payloads sent for a run of opportunities. *)
Fixpoint keepalives (side : AckSide) (s : AckSchedule) (l : list opportunity) :
    list (option (list byte)) :=
  match l with
  | [] => []
  | o :: l => let (s, ack) := step side s o in ack :: keepalives side s l
  end.

(** How many keep-alives of a run carry an acknowledgement. *)
Fixpoint attached_count (l : list (option (list byte))) : Z :=
  match l with
  | [] => 0
  | Some _ :: l => 1 + attached_count l
  | None :: l => attached_count l
  end.

(** The reader's sequences over time: neither ever goes back, and a data
    packet is a packet. *)
Fixpoint progresses (seq data : Z) (l : list opportunity) : Prop :=
  match l with
  | [] => True
  | o :: l =>
      seq <= o_sequence o /\ data <= o_data_sequence o <= o_sequence o /\
      progresses (o_sequence o) (o_data_sequence o) l
  end.

Definition last_sequence (seq : Z) (l : list opportunity) : Z :=
  fold_left (fun _ o => o_sequence o) l seq.

Lemma legacy_settled side s l :
  (side = Initiator -> attached s <> None) -> (side = Responder -> attached s = None) ->
  Forall (fun o => o_peer o = false) l ->
  keepalives side s l = map (fun _ => None) l.
Proof.
  intros Hi Hr Hl. induction Hl as [|o l Ho Hl IH]; [done|]. cbn [keepalives map].
  replace (step side s o) with (s, @None (list byte)); [by rewrite IH|].
  unfold step, next. rewrite Ho.
  destruct side, (attached s); try done; by (destruct (Hi eq_refl) || specialize (Hr eq_refl)).
Qed.

(** A peer that never acknowledges (a legacy implementation) is sent upstream's
    empty keep-alives: all of them by a responder, all but the announcing
    first one by an initiator. *)
Theorem legacy_peer_sees_empty_keepalives o l :
  o_peer o = false -> Forall (fun o => o_peer o = false) l ->
  keepalives Responder default (o :: l) = map (fun _ => None) (o :: l) /\
  keepalives Initiator default (o :: l) =
    Some (encode_ack (o_sequence o)) :: map (fun _ => None) l.
Proof.
  intros Ho Hl. split; [apply legacy_settled; try done; by constructor|].
  cbn [keepalives]. unfold step, next. rewrite Ho. cbn [default attached orb].
  rewrite bool_decide_true by done. by rewrite legacy_settled.
Qed.

(** Towards a peer that acknowledges, the schedule never leaves news behind:
    after every keep-alive the latest attached acknowledgement covers every
    data packet read so far, and misses fewer than [ACK_RETAIN_FLOOR_PACKETS]
    packets in all; a volume keep-alive misses none. *)
Theorem schedule_stays_fresh side s o s' ack :
  o_peer o = true -> o_data_sequence o <= o_sequence o ->
  step side s o = (s', ack) ->
  exists a, attached s' = Some a /\ o_data_sequence o <= a /\
    o_sequence o - a < ACK_RETAIN_FLOOR_PACKETS /\
    (ack = Some (encode_ack (o_sequence o)) /\ a = o_sequence o \/
     ack = None /\ s' = s /\ o_volume o = false).
Proof.
  intros Hp Hd. unfold step, next. rewrite Hp. unfold ACK_RETAIN_FLOOR_PACKETS.
  destruct (attached s) as [a|] eqn:E; cbn [andb orb].
  - destruct (_ || _ || _) eqn:C; intros [= <- <-].
    + exists (o_sequence o). split_and!; [done|done|lia|by left].
    + apply orb_false_iff in C as [[Hv Hnew]%orb_false_iff Hfloor].
      exists a. split_and!; [done|lia|lia|by right].
  - intros [= <- <-]. exists (o_sequence o). split_and!; [done|done|lia|by left].
Qed.

Lemma idle_run side a l seq data :
  a <= seq -> progresses seq data l ->
  Forall (fun o => o_volume o = false /\ o_data_sequence o <= a) l ->
  ACK_RETAIN_FLOOR_PACKETS * attached_count (keepalives side {| attached := Some a |} l)
    <= last_sequence seq l - a.
Proof.
  revert a seq data. induction l as [|o l IH]; intros a seq data Ha Hp Hl; [cbn; lia|].
  destruct Hp as (H1 & H2 & Hp). apply Forall_cons_iff in Hl as [[Hv Hd] Hl].
  change (last_sequence seq (o :: l)) with (last_sequence (o_sequence o) l).
  cbn [keepalives]. unfold step, next. cbn [attached]. rewrite Hv.
  rewrite (proj2 (Z.ltb_ge a (o_data_sequence o))) by lia. cbn [orb].
  destruct (Z.leb_spec ACK_RETAIN_FLOOR_PACKETS (o_sequence o - a)) as [Hf|Hf];
    [destruct (o_peer o)|rewrite andb_false_r]; cbn [andb attached_count].
  - specialize (IH (o_sequence o) (o_sequence o) _ ltac:(lia) Hp). rewrite Z.mul_add_distr_l.
    assert (Forall (fun o' => o_volume o' = false /\ o_data_sequence o' <= o_sequence o) l) as Hl'.
    { eapply Forall_impl; [exact Hl|]. cbn. intros ? [? ?]. split; [done|lia]. }
    specialize (IH Hl'). lia.
  - by apply IH with (o_data_sequence o); [lia|..].
  - by apply IH with (o_data_sequence o); [lia|..].
Qed.

(** An idle connection stays quiet: once an acknowledgement of [a] went out and
    only keep-alives are read after it, the following keep-alives carry at most
    one acknowledgement per [ACK_RETAIN_FLOOR_PACKETS] packets read. *)
Theorem idle_acknowledgements_are_rare side s o s' ack l :
  step side s o = (s', Some ack) ->
  progresses (o_sequence o) (o_data_sequence o) l ->
  Forall (fun o' => o_volume o' = false /\ o_data_sequence o' <= o_sequence o) l ->
  ACK_RETAIN_FLOOR_PACKETS * attached_count (keepalives side s' l)
    <= last_sequence (o_sequence o) l - o_sequence o.
Proof.
  unfold step at 1, next. destruct (match attached s with None => _ | Some _ => _ end);
    [intros [= <- <-]|done].
  intros Hp Hl. by eapply idle_run; [lia|..].
Qed.

(** ** Witnesses *)

Lemma legacy_peer_sees_empty_keepalives_witness :
  keepalives Responder default [{| o_sequence := 1; o_data_sequence := 0; o_peer := false; o_volume := true |}]
    = [None].
Proof.
  apply (legacy_peer_sees_empty_keepalives
    {| o_sequence := 1; o_data_sequence := 0; o_peer := false; o_volume := true |} []); [done|constructor].
Defined.

Lemma schedule_stays_fresh_witness :
  exists a, attached {| attached := Some 7 |} = Some a /\ 5 <= a /\ 7 - a < ACK_RETAIN_FLOOR_PACKETS /\
    (Some (encode_ack 7) = Some (encode_ack 7) /\ a = 7 \/
     Some (encode_ack 7) = None /\ {| attached := Some 7 |} = {| attached := Some 3 |} /\ false = false).
Proof.
  apply (schedule_stays_fresh Initiator {| attached := Some 3 |}
    {| o_sequence := 7; o_data_sequence := 5; o_peer := true; o_volume := false |}); [done|done|].
  reflexivity.
Defined.

Lemma idle_acknowledgements_are_rare_witness :
  ACK_RETAIN_FLOOR_PACKETS * attached_count (keepalives Initiator {| attached := Some 3 |}
    [{| o_sequence := 19; o_data_sequence := 3; o_peer := true; o_volume := false |}]) <= 19 - 3.
Proof.
  apply (idle_acknowledgements_are_rare Initiator default
    {| o_sequence := 3; o_data_sequence := 3; o_peer := true; o_volume := false |}
    {| attached := Some 3 |} (encode_ack 3)); cbn; [done|lia|by repeat constructor].
Defined.
