(* ===== verification/OutputWindow.v ===== *)
(** * OutputWindow: [crates/et-core/src/output_window.rs]

    The server's bound on terminal output the client has not acknowledged.
    [Instant]s and [Duration]s are nanosecond counts; [now] is an argument. *)

From S2P Require Import Prelude Crypto BackedWriter Keepalive.

Definition MIN_PIPE_BYTES : Z := 512 * 1024.
Definition PIPE_GAIN : Z := 2.
Definition MAX_WINDOW_BYTES : Z := 16 * 1024 * 1024.
(** [Duration::from_secs(10)]. *)
Definition PATIENCE : Z := 10 * 1000000000.
Definition PACKET_OVERHEAD : Z := 2 + MAC_LEN.
Definition MARK_SPACING : Z := 16 * 1024.
Definition MARKS_PER_WINDOW : Z := 64.
Definition MAX_MARKS : Z := 256.
Definition PIPE_SAMPLES : nat := 8.

(** [later.saturating_duration_since(earlier)]. *)
Definition duration_since (later earlier : Z) : Z := Z.max 0 (later - earlier).

(** [u64::saturating_add] and [saturating_mul]. *)
Definition u64_add (x y : Z) : Z := sat_add u64_max x y.
Definition u64_mul (x y : Z) : Z := Z.min u64_max (x * y).

(** [i64::saturating_sub] and [saturating_mul]. *)
Definition i64_clamp (x : Z) : Z := Z.max i64_min (Z.min i64_max x).

Record Mark := mkMark {
  m_sequence : Z;
  m_sent : Z;
  m_terminal : Z;
  m_delivered : Z;
  m_delivered_at : Z;
  m_first_sent : Z
}.

Record OutputWindow := mkWindow {
  marks : list Mark;
  since_mark : Z;
  written : Z;
  delivered : Z;
  terminal_written : Z;
  terminal_delivered : Z;
  delivered_at : option Z;
  delivered_sent : option Z;
  min_rtt : option Z;
  pipe : list Z;
  next_pipe : nat;
  ack_written : option Z;
  peer_reads_acks : bool;
  armed : bool;
  acknowledged_here : bool;
  stalled : option (Z * Z);
  released : option Z
}.

Definition default : OutputWindow := {|
  marks := []; since_mark := 0; written := 0; delivered := 0; terminal_written := 0;
  terminal_delivered := 0; delivered_at := None; delivered_sent := None; min_rtt := None;
  pipe := replicate PIPE_SAMPLES 0; next_pipe := 0; ack_written := None;
  peer_reads_acks := false; armed := false; acknowledged_here := false; stalled := None;
  released := None |}.

Definition for_new_transport (w : OutputWindow) : OutputWindow := {|
  marks := marks default; since_mark := since_mark default;
  written := written w; delivered := delivered w;
  terminal_written := terminal_written w; terminal_delivered := terminal_delivered w;
  delivered_at := delivered_at default; delivered_sent := delivered_sent default;
  min_rtt := min_rtt default; pipe := pipe default; next_pipe := next_pipe default;
  ack_written := ack_written default;
  peer_reads_acks := peer_reads_acks w; armed := armed w;
  acknowledged_here := acknowledged_here default; stalled := stalled default;
  released := released default |}.

(** Field updates. *)
Definition set_marks (w : OutputWindow) (new_marks : list Mark) (new_since_mark : Z) : OutputWindow :=
  {| marks := new_marks; since_mark := new_since_mark; written := written w; delivered :=
     delivered w; terminal_written := terminal_written w; terminal_delivered :=
     terminal_delivered w; delivered_at := delivered_at w; delivered_sent := delivered_sent w;
     min_rtt := min_rtt w; pipe := pipe w; next_pipe := next_pipe w; ack_written := ack_written
     w; peer_reads_acks := peer_reads_acks w; armed := armed w; acknowledged_here :=
     acknowledged_here w; stalled := stalled w; released := released w |}.

Definition set_written (w : OutputWindow) (new_written : Z) (new_terminal_written : Z) (new_ack_written : option Z) : OutputWindow :=
  {| marks := marks w; since_mark := since_mark w; written := new_written; delivered :=
     delivered w; terminal_written := new_terminal_written; terminal_delivered :=
     terminal_delivered w; delivered_at := delivered_at w; delivered_sent := delivered_sent w;
     min_rtt := min_rtt w; pipe := pipe w; next_pipe := next_pipe w; ack_written :=
     new_ack_written; peer_reads_acks := peer_reads_acks w; armed := armed w; acknowledged_here
     := acknowledged_here w; stalled := stalled w; released := released w |}.

Definition set_rtt (w : OutputWindow) (new_min_rtt : option Z) : OutputWindow :=
  {| marks := marks w; since_mark := since_mark w; written := written w; delivered := delivered
     w; terminal_written := terminal_written w; terminal_delivered := terminal_delivered w;
     delivered_at := delivered_at w; delivered_sent := delivered_sent w; min_rtt := new_min_rtt;
     pipe := pipe w; next_pipe := next_pipe w; ack_written := ack_written w; peer_reads_acks :=
     peer_reads_acks w; armed := armed w; acknowledged_here := acknowledged_here w; stalled :=
     stalled w; released := released w |}.

Definition set_pipe (w : OutputWindow) (new_pipe : list Z) (new_next_pipe : nat) : OutputWindow :=
  {| marks := marks w; since_mark := since_mark w; written := written w; delivered := delivered
     w; terminal_written := terminal_written w; terminal_delivered := terminal_delivered w;
     delivered_at := delivered_at w; delivered_sent := delivered_sent w; min_rtt := min_rtt w;
     pipe := new_pipe; next_pipe := new_next_pipe; ack_written := ack_written w; peer_reads_acks
     := peer_reads_acks w; armed := armed w; acknowledged_here := acknowledged_here w; stalled
     := stalled w; released := released w |}.

Definition set_terminal_delivered (w : OutputWindow) (new_terminal_delivered : Z) (new_delivered_sent : option Z) : OutputWindow :=
  {| marks := marks w; since_mark := since_mark w; written := written w; delivered := delivered
     w; terminal_written := terminal_written w; terminal_delivered := new_terminal_delivered;
     delivered_at := delivered_at w; delivered_sent := new_delivered_sent; min_rtt := min_rtt w;
     pipe := pipe w; next_pipe := next_pipe w; ack_written := ack_written w; peer_reads_acks :=
     peer_reads_acks w; armed := armed w; acknowledged_here := acknowledged_here w; stalled :=
     stalled w; released := released w |}.

Definition set_delivered (w : OutputWindow) (new_delivered : Z) (new_delivered_at : option Z) : OutputWindow :=
  {| marks := marks w; since_mark := since_mark w; written := written w; delivered :=
     new_delivered; terminal_written := terminal_written w; terminal_delivered :=
     terminal_delivered w; delivered_at := new_delivered_at; delivered_sent := delivered_sent w;
     min_rtt := min_rtt w; pipe := pipe w; next_pipe := next_pipe w; ack_written := ack_written
     w; peer_reads_acks := peer_reads_acks w; armed := armed w; acknowledged_here :=
     acknowledged_here w; stalled := stalled w; released := released w |}.

Definition set_proof (w : OutputWindow) (new_peer_reads_acks : bool) (new_armed : bool) (new_acknowledged_here : bool) : OutputWindow :=
  {| marks := marks w; since_mark := since_mark w; written := written w; delivered := delivered
     w; terminal_written := terminal_written w; terminal_delivered := terminal_delivered w;
     delivered_at := delivered_at w; delivered_sent := delivered_sent w; min_rtt := min_rtt w;
     pipe := pipe w; next_pipe := next_pipe w; ack_written := ack_written w; peer_reads_acks :=
     new_peer_reads_acks; armed := new_armed; acknowledged_here := new_acknowledged_here;
     stalled := stalled w; released := released w |}.

Definition set_hold (w : OutputWindow) (new_stalled : option (Z * Z)) (new_released : option Z) : OutputWindow :=
  {| marks := marks w; since_mark := since_mark w; written := written w; delivered := delivered
     w; terminal_written := terminal_written w; terminal_delivered := terminal_delivered w;
     delivered_at := delivered_at w; delivered_sent := delivered_sent w; min_rtt := min_rtt w;
     pipe := pipe w; next_pipe := next_pipe w; ack_written := ack_written w; peer_reads_acks :=
     peer_reads_acks w; armed := armed w; acknowledged_here := acknowledged_here w; stalled :=
     new_stalled; released := new_released |}.

Definition seed_round_trip (w : OutputWindow) (rtt : Z) : OutputWindow :=
  set_rtt w (Some (match min_rtt w with None => rtt | Some m => Z.min m rtt end)).

Definition window (w : OutputWindow) : Z :=
  let p := foldr Z.max 0 (pipe w) in
  let p := Z.max (u64_mul p PIPE_GAIN) MIN_PIPE_BYTES in
  Z.min (u64_add ACK_INTERVAL_BYTES p) MAX_WINDOW_BYTES.

Definition unacknowledged_terminal (w : OutputWindow) (unacknowledged : Z) : Z :=
  Z.min (sat_sub (terminal_written w) (terminal_delivered w)) unacknowledged.

Definition on_write (w : OutputWindow) (sequence payload_len : Z) (terminal carries_ack : bool)
    (now : Z) : OutputWindow :=
  let length := payload_len in
  let w := set_written w (u64_add (written w) length)
    (if terminal then u64_add (terminal_written w) length else terminal_written w)
    (match ack_written w with
     | None => if carries_ack then Some sequence else None
     | Some s => Some s
     end) in
  if negb (acknowledged_here w) then w
  else
    let spacing := Z.max (window w / MARKS_PER_WINDOW) MARK_SPACING in
    let w :=
      if bool_decide (marks w = []) || (spacing <=? since_mark w) then
        let kept := if zlen (marks w) =? MAX_MARKS then tail (marks w) else marks w in
        set_marks w (kept ++
          [{| m_sequence := sequence; m_sent := now; m_terminal := terminal_written w;
              m_delivered := delivered w; m_delivered_at := unwrap_or now (delivered_at w);
              m_first_sent := unwrap_or now (delivered_sent w) |}]) 0
      else w in
    set_marks w (marks w) (u64_add (since_mark w) length).

(** The [while let Some(mark) = self.marks.front()] loop: the last mark popped
    and the marks left. *)
Fixpoint pop_marks (acknowledged : Z) (newest : option Mark) (l : list Mark)
  : option Mark * list Mark :=
  match l with
  | [] => (newest, [])
  | mark :: rest =>
      if acknowledged <? m_sequence mark then (newest, l)
      else pop_marks acknowledged (Some mark) rest
  end.

(** The bandwidth-delay sample of [on_ack]: [u128] arithmetic, saturated to
    [u64]. *)
Definition sample_pipe (w : OutputWindow) (mark : Mark) (seeded delivered now : Z) : OutputWindow :=
  let rtt := Z.min seeded (duration_since now (m_sent mark)) in
  let w := set_rtt w (Some rtt) in
  let span := Z.max (duration_since now (m_delivered_at mark))
                    (duration_since (m_sent mark) (m_first_sent mark)) in
  let bytes := sat_sub delivered (m_delivered mark) in
  if span =? 0 then w
  else set_pipe w (<[next_pipe w := Z.min u64_max (bytes * rtt / span)]> (pipe w))
         ((next_pipe w + 1) mod PIPE_SAMPLES).

Definition on_ack (w : OutputWindow) (acknowledged unacknowledged now : Z) : OutputWindow :=
  let delivered_now := sat_sub (written w) unacknowledged in
  let (newest, left) := pop_marks acknowledged None (marks w) in
  let w := set_marks w left (since_mark w) in
  let w := match newest, min_rtt w with
           | Some mark, Some seeded => sample_pipe w mark seeded delivered_now now
           | _, _ => w
           end in
  let w := match newest with
           | Some mark => set_terminal_delivered w
               (Z.max (terminal_delivered w) (m_terminal mark)) (Some (m_sent mark))
           | None => w
           end in
  let w := if (delivered w <? delivered_now) || bool_decide (delivered_at w = None)
           then set_delivered w (Z.max (delivered w) delivered_now) (Some now)
           else w in
  let w := set_proof w (peer_reads_acks w) (armed w) true in
  let w := if is_some_and (fun s => s <=? acknowledged) (ack_written w)
           then set_proof w true (armed w) (acknowledged_here w) else w in
  if peer_reads_acks w && (window w <=? unacknowledged_terminal w unacknowledged)
  then set_proof w (peer_reads_acks w) true (acknowledged_here w) else w.

(** [Some d]: terminal output waits, until [d] at the latest. *)
Definition blocked (w : OutputWindow) (acknowledged unacknowledged now : Z)
  : OutputWindow * option Z :=
  if negb (armed w) || negb (acknowledged_here w) then (set_hold w None (released w), None)
  else
    let held_back :=
      match released w with Some r => acknowledged <=? r | None => false end in
    if held_back then (w, None)
    else
      let w := set_hold w (stalled w) None in
      if unacknowledged_terminal w unacknowledged <? window w
      then (set_hold w None (released w), None)
      else
        match stalled w with
        | Some (seen, since) =>
            if seen =? acknowledged then
              if PATIENCE <=? duration_since now since
              then (set_hold w None (Some acknowledged), None)
              else (w, Some (since + PATIENCE))
            else (set_hold w (Some (acknowledged, now)) (released w), Some (now + PATIENCE))
        | None => (set_hold w (Some (acknowledged, now)) (released w), Some (now + PATIENCE))
        end.

Definition unacknowledged_payload (acknowledged unacknowledged_wire sequence : Z) : Z :=
  let packets := Z.max (i64_clamp (sequence - acknowledged)) 0 in
  let payload := i64_clamp (unacknowledged_wire - i64_clamp (packets * PACKET_OVERHEAD)) in
  if 0 <=? payload then payload else 0.

(** ** Traces *)

Inductive event :=
| EvWrite (sequence payload_len : Z) (terminal carries_ack : bool) (now : Z)
| EvAck (acknowledged unacknowledged now : Z)
| EvPoll (acknowledged unacknowledged now : Z)
| EvSeed (rtt : Z)
| EvTransport.

Definition wstep (w : OutputWindow) (e : event) : OutputWindow :=
  match e with
  | EvWrite s n t c now => on_write w s n t c now
  | EvAck a u now => on_ack w a u now
  | EvPoll a u now => fst (blocked w a u now)
  | EvSeed rtt => seed_round_trip w rtt
  | EvTransport => for_new_transport w
  end.

Definition wrun (evs : list event) : OutputWindow := fold_left wstep evs default.

Lemma wrun_snoc evs e : wrun (evs ++ [e]) = wstep (wrun evs) e.
Proof. unfold wrun. by rewrite fold_left_app. Qed.

(** The values a trace can hold: lengths are [usize], byte counts [u64]. *)
Definition event_ok (e : event) : Prop :=
  match e with
  | EvWrite _ n _ _ _ => 0 <= n
  | EvAck _ u _ | EvPoll _ u _ => 0 <= u
  | EvSeed rtt => 0 <= rtt
  | EvTransport => True
  end.

(** ** The size of the window *)

Lemma foldr_max_nonneg l : 0 <= foldr Z.max 0 l.
Proof. induction l; simpl; lia. Qed.

Lemma window_range w :
  ACK_INTERVAL_BYTES + MIN_PIPE_BYTES <= window w <= MAX_WINDOW_BYTES.
Proof.
  unfold window, u64_add, u64_mul, sat_add, ACK_INTERVAL_BYTES, MIN_PIPE_BYTES, MAX_WINDOW_BYTES,
    PIPE_GAIN, u64_max. pose proof (foldr_max_nonneg (pipe w)). lia.
Qed.

(** The counters stay consistent in every reachable state: what is
    acknowledged was written, terminal output is part of all output, and the
    tables stay within their sizes. *)
Record window_inv (w : OutputWindow) : Prop := {
  wi_delivered : 0 <= delivered w <= written w;
  wi_written : written w <= u64_max;
  wi_terminal : 0 <= terminal_delivered w <= terminal_written w;
  wi_terminal_written : terminal_written w <= written w;
  wi_marks : Forall (fun m => 0 <= m_terminal m <= terminal_written w /\
                              0 <= m_delivered m <= delivered w) (marks w);
  wi_marks_len : zlen (marks w) <= MAX_MARKS;
  wi_pipe : length (pipe w) = PIPE_SAMPLES;
  wi_next : (next_pipe w < PIPE_SAMPLES)%nat
}.

Lemma pop_marks_spec a newest l :
  exists popped, l = popped ++ snd (pop_marks a newest l) /\
    fst (pop_marks a newest l) = match last popped with Some m => Some m | None => newest end /\
    Forall (fun m => m_sequence m <= a) popped /\
    match snd (pop_marks a newest l) with [] => True | m :: _ => a < m_sequence m end.
Proof.
  revert newest. induction l as [|m l IH]; intros newest; cbn [pop_marks].
  - by exists [].
  - destruct (Z.ltb_spec a (m_sequence m)).
    + exists []. split_and!; try done.
    + destruct (IH (Some m)) as (p & Hl & Hn & Hp & Hs). exists (m :: p).
      split_and!; [cbn; by rewrite <-Hl| |by constructor|done].
      rewrite Hn. destruct p; [done|]. rewrite last_cons_cons. 
      destruct (last _) eqn:E; [done|]. by apply last_None in E.
Qed.

Lemma default_inv : window_inv default.
Proof. split; unfold u64_max, MAX_MARKS, PIPE_SAMPLES; cbn; try lia; done. Qed.

Lemma on_write_inv w s n t c now : window_inv w -> 0 <= n -> window_inv (on_write w s n t c now).
Proof.
  intros [Hd Hw Ht Htw Hm Hml Hp Hn] Hlen. unfold on_write. cbv zeta.
  set (w1 := set_written w _ _ _).
  assert (window_inv w1) as H1.
  { unfold w1, u64_add, sat_add. split; cbn; try done; try lia.
    - destruct t; lia.
    - destruct t; lia.
    - eapply Forall_impl; [exact Hm|]. cbn. intros m. destruct t; lia. }
  destruct (negb (acknowledged_here w1)); [done|].
  clearbody w1. clear -H1. destruct H1 as [Hd Hw Ht Htw Hm Hml Hp Hn].
  destruct (bool_decide _ || _); [|by split].
  split; cbn; try done.
  - apply Forall_app. split; [|constructor; [cbn; lia|done]].
    destruct (_ =? _); [|done]. destruct (marks w1); [done|]. apply Forall_cons_iff in Hm. apply Hm.
  - rewrite zlen_app, zlen_cons, zlen_nil. unfold MAX_MARKS in *.
    destruct (Z.eqb_spec (zlen (marks w1)) 256) as [E|E]; [|lia].
    destruct (marks w1); cbn [tail]; len_lia.
Qed.

Lemma sample_pipe_inv w m seeded d now : window_inv w -> window_inv (sample_pipe w m seeded d now).
Proof.
  intros [Hd Hw Ht Htw Hm Hml Hp Hn]. unfold sample_pipe. cbv zeta.
  destruct (_ =? 0); [by split|]. split; cbn -[Nat.modulo]; try done.
  - by rewrite length_insert.
  - apply Nat.mod_upper_bound. done.
Qed.

Lemma set_proof_inv w p a h : window_inv w -> window_inv (set_proof w p a h).
Proof. intros []. by split. Qed.

Lemma on_ack_inv w a u now : window_inv w -> 0 <= u -> window_inv (on_ack w a u now).
Proof.
  intros Hinv Hu. unfold on_ack. destruct (pop_marks_spec a None (marks w)) as (popped & Hl & Hnew & _).
  destruct (pop_marks a None (marks w)) as [newest left] eqn:E. cbn [fst snd] in *. cbv zeta.
  set (d := sat_sub (written w) u). set (w1 := set_marks w left (since_mark w)).
  assert (window_inv w1 /\ d <= written w1 /\
    match newest with Some m => 0 <= m_terminal m <= terminal_written w1 | None => True end)
    as (H1 & Hd1 & Hnw).
  { destruct Hinv as [Hd Hw Ht Htw Hm Hml Hp Hn]. rewrite Hl in Hm, Hml. rewrite zlen_app in Hml.
    apply Forall_app in Hm as [Hpop Hm]. pose proof (zlen_nonneg popped).
    split; [|split]; [split; cbn; try done; lia|unfold d, sat_sub; cbn; lia|].
    rewrite Hnew. destruct (last popped) as [m|] eqn:El; [|done].
    apply last_Some_elem_of in El. rewrite Forall_forall in Hpop. by apply Hpop. }
  clearbody w1. clear Hl Hnew E Hinv popped left.
  set (w2 := match newest, min_rtt w1 with Some mark, Some seeded => _ | _, _ => w1 end).
  assert (window_inv w2 /\ written w2 = written w1 /\ terminal_written w2 = terminal_written w1)
    as (H2 & Hw2 & Ht2).
  { unfold w2. destruct newest as [m|]; [|done]. destruct (min_rtt w1); [|done].
    split; [by apply sample_pipe_inv|]. unfold sample_pipe. cbv zeta. by destruct (_ =? 0). }
  rewrite <-Hw2 in Hd1. rewrite <-Ht2 in Hnw. clearbody w2.
  set (w3 := match newest with Some mark => set_terminal_delivered _ _ _ | None => w2 end).
  assert (window_inv w3 /\ written w3 = written w2) as (H3 & Hw3).
  { unfold w3. destruct newest as [m|]; [|done]. destruct H2. split; [split; cbn; try done; lia|done]. }
  rewrite <-Hw3 in Hd1. clearbody w3.
  set (w4 := if _ || _ then _ else w3).
  assert (window_inv w4) as H4.
  { unfold w4. destruct (_ || _); [|done]. destruct H3 as [Hd Hw Ht Htw Hm Hml Hp Hn].
    split; cbn; try done; [lia|]. eapply Forall_impl; [exact Hm|]. cbn. lia. }
  clearbody w4.
  destruct (is_some_and _ _); destruct (_ && _); repeat apply set_proof_inv; done.
Qed.

Lemma blocked_inv w a u now : window_inv w -> window_inv (fst (blocked w a u now)).
Proof.
  intros Hinv. assert (forall x y, window_inv (set_hold w x y)) as H
    by (intros; destruct Hinv; by split).
  unfold blocked. cbv zeta. repeat case_match; try apply H; done.
Qed.

Lemma window_run_inv evs : Forall event_ok evs -> window_inv (wrun evs).
Proof.
  induction evs as [|e evs IH] using rev_ind; [intros _; apply default_inv|].
  intros [Hevs He%Forall_cons_iff]%Forall_app. destruct He as [He _]. rewrite wrun_snoc.
  specialize (IH Hevs). destruct e; cbn [wstep event_ok] in *.
  - by apply on_write_inv.
  - by apply on_ack_inv.
  - by apply blocked_inv.
  - destruct IH. by split.
  - destruct IH. split; cbn; try done. unfold MAX_MARKS. lia.
Qed.

(** In every reachable state the window is between 1 MiB and 16 MiB, so it is
    larger than the volume after which a reading client acknowledges; the
    counters are consistent and the tables bounded. *)
Theorem window_bounds evs :
  Forall event_ok evs ->
  let w := wrun evs in
  2 * ACK_INTERVAL_BYTES <= window w <= MAX_WINDOW_BYTES /\
  delivered w <= written w /\ terminal_delivered w <= terminal_written w <= written w /\
  zlen (marks w) <= MAX_MARKS /\ length (pipe w) = PIPE_SAMPLES.
Proof.
  intros Hevs w. destruct (window_run_inv evs Hevs). pose proof (window_range w) as Hr.
  unfold MIN_PIPE_BYTES, ACK_INTERVAL_BYTES in *. fold w in wi_delivered0, wi_terminal0 |- *.
  split_and!; try done; try lia; apply wi_delivered0 || apply wi_terminal0.
Qed.

(** ** Who is bounded *)

(** The client read one of this side's acknowledgements: it acknowledged a
    sequence at or after a keep-alive that carried one. *)
Definition reads_acks (evs : list event) : Prop :=
  exists pre a u now post s n t now', evs = pre ++ EvAck a u now :: post /\
    EvWrite s n t true now' ∈ pre /\ s <= a.

(** The client acknowledged on the current transport. *)
Definition acked_here (evs : list event) : Prop :=
  exists pre a u now post, evs = pre ++ EvAck a u now :: post /\ EvTransport ∉ post.

Record proof_inv (w : OutputWindow) (evs : list event) : Prop := {
  pi_written : forall s, ack_written w = Some s ->
    exists n t now, EvWrite s n t true now ∈ evs;
  pi_reads : peer_reads_acks w = true -> reads_acks evs;
  pi_armed : armed w = true -> peer_reads_acks w = true;
  pi_here : acknowledged_here w = true -> acked_here evs
}.

Lemma reads_acks_snoc evs e : reads_acks evs -> reads_acks (evs ++ [e]).
Proof.
  intros (pre & a & u & now & post & s & n & t & now' & -> & Hin & Hs).
  exists pre, a, u, now, (post ++ [e]), s, n, t, now'. split_and!; [|done..].
  by rewrite <-app_assoc.
Qed.

Lemma acked_here_snoc evs e : e <> EvTransport -> acked_here evs -> acked_here (evs ++ [e]).
Proof.
  intros He (pre & a & u & now & post & -> & Hpost).
  exists pre, a, u, now, (post ++ [e]). split; [by rewrite <-app_assoc|].
  rewrite elem_of_app, list_elem_of_singleton. intros [?| <-]; done.
Qed.

(** Steps that change none of the flags. *)
Lemma proof_inv_same w w' evs e :
  proof_inv w evs -> e <> EvTransport ->
  ack_written w' = ack_written w -> peer_reads_acks w' = peer_reads_acks w ->
  armed w' = armed w -> acknowledged_here w' = acknowledged_here w ->
  proof_inv w' (evs ++ [e]).
Proof.
  intros [H1 H2 H3 H4] He E1 E2 E3 E4. split; rewrite ?E1, ?E2, ?E3, ?E4.
  - intros s Hs. destruct (H1 s Hs) as (n & t & now & Hin). exists n, t, now.
    apply elem_of_app. by left.
  - intros. by apply reads_acks_snoc, H2.
  - done.
  - intros. by apply acked_here_snoc; [|apply H4].
Qed.

Lemma on_write_flags w s n t c now :
  peer_reads_acks (on_write w s n t c now) = peer_reads_acks w /\
  armed (on_write w s n t c now) = armed w /\
  acknowledged_here (on_write w s n t c now) = acknowledged_here w /\
  ack_written (on_write w s n t c now) =
    match ack_written w with Some s => Some s | None => if c then Some s else None end.
Proof.
  unfold on_write. cbv zeta. destruct (negb _); [done|]. by destruct (bool_decide _ || _).
Qed.

Lemma blocked_flags w a u now :
  let w' := fst (blocked w a u now) in
  peer_reads_acks w' = peer_reads_acks w /\ armed w' = armed w /\
  acknowledged_here w' = acknowledged_here w /\ ack_written w' = ack_written w.
Proof. unfold blocked. cbv zeta. repeat case_match; done. Qed.

Lemma on_ack_flags w a u now :
  let w' := on_ack w a u now in
  ack_written w' = ack_written w /\ acknowledged_here w' = true /\
  (peer_reads_acks w' = true ->
     peer_reads_acks w = true \/ exists s, ack_written w = Some s /\ s <= a) /\
  (armed w' = true -> armed w = true \/ peer_reads_acks w' = true) /\
  (peer_reads_acks w = true -> peer_reads_acks w' = true).
Proof.
  unfold on_ack. destruct (pop_marks a None (marks w)) as [newest left]. cbv zeta.
  set (d := sat_sub (written w) u). set (w1 := set_marks w left (since_mark w)).
  set (w2 := match newest, min_rtt w1 with Some mark, Some seeded => _ | _, _ => w1 end).
  set (w3 := match newest with Some mark => set_terminal_delivered _ _ _ | None => w2 end).
  set (w4 := if _ || _ then _ else w3).
  assert (ack_written w4 = ack_written w /\ peer_reads_acks w4 = peer_reads_acks w /\
    armed w4 = armed w) as (E1 & E2 & E3).
  { unfold w4, w3, w2, sample_pipe. cbv zeta. destruct newest, (min_rtt w1), (_ || _);
      try done; by destruct (_ =? 0). }
  clearbody w4. clear w3 w2 w1 d. cbn [set_proof ack_written].
  rewrite E1. destruct (ack_written w) as [s|] eqn:Es; cbn [is_some_and];
    [destruct (Z.leb_spec s a)|]; destruct (_ && _) eqn:C;
    try (apply andb_true_iff in C as [C _]);
    cbn [set_proof peer_reads_acks armed acknowledged_here ack_written] in *;
    rewrite ?E1, ?E2, ?E3 in *; naive_solver.
Qed.

Lemma wrun_proof evs : proof_inv (wrun evs) evs.
Proof.
  induction evs as [|e evs IH] using rev_ind; [by split|]. rewrite wrun_snoc.
  destruct e as [s n t c now|a u now|a u now|rtt|]; cbn [wstep].
  - destruct (on_write_flags (wrun evs) s n t c now) as (E1 & E2 & E3 & E4).
    destruct IH as [H1 H2 H3 H4]. split; rewrite ?E1, ?E2, ?E3, ?E4.
    + intros s' Hs'. destruct (ack_written (wrun evs)) as [s0|].
      * injection Hs' as <-. destruct (H1 s0 eq_refl) as (n' & t' & now' & Hin).
        exists n', t', now'. apply elem_of_app. by left.
      * destruct c; [|done]. injection Hs' as <-. exists n, t, now.
        apply elem_of_app. right. by apply list_elem_of_singleton.
    + intros. by apply reads_acks_snoc, H2.
    + done.
    + intros. by apply acked_here_snoc; [|apply H4].
  - destruct (on_ack_flags (wrun evs) a u now) as (E1 & E2 & E3 & E4 & E5).
    destruct IH as [H1 H2 H3 H4]. split.
    + rewrite E1. intros s Hs. destruct (H1 s Hs) as (n & t & now' & Hin). exists n, t, now'.
      apply elem_of_app. by left.
    + intros [Hp|(s & Hs & Hle)]%E3; [by apply reads_acks_snoc, H2|].
      destruct (H1 s Hs) as (n & t & now' & Hin).
      by exists evs, a, u, now, [], s, n, t, now'.
    + intros [Ha|Hp]%E4; [|done]. by apply E5, H3.
    + intros _. exists evs, a, u, now, []. split; [done|]. apply not_elem_of_nil.
  - destruct (blocked_flags (wrun evs) a u now) as (E1 & E2 & E3 & E4).
    by apply (proof_inv_same (wrun evs)).
  - by apply (proof_inv_same (wrun evs)).
  - destruct IH as [H1 H2 H3 H4]. split; cbn; try done. intros. by apply reads_acks_snoc, H2.
Qed.

(** Only a proven client is ever held back: output waits only if the client
    acknowledged on the current transport and has read one of this side's
    acknowledgements. A peer that never acknowledges, and any client before
    its first acknowledgement on a new transport, is never bounded. *)
Theorem only_proven_clients_are_bounded evs a u now d :
  snd (blocked (wrun evs) a u now) = Some d -> acked_here evs /\ reads_acks evs.
Proof.
  destruct (wrun_proof evs) as [_ H2 H3 H4]. unfold blocked.
  destruct (negb (armed (wrun evs)) || negb (acknowledged_here (wrun evs))) eqn:C; [done|].
  apply orb_false_iff in C as [C1%negb_false_iff C2%negb_false_iff]. auto.
Qed.

(** ** How long output is held *)

(** A client that read what was sent is not held back: with less than an
    acknowledgement interval (and the smallest pipe) outstanding, output goes
    out. *)
Lemma not_blocked_below_window w a u now :
  u < ACK_INTERVAL_BYTES + MIN_PIPE_BYTES -> snd (blocked w a u now) = None.
Proof.
  intros Hu. pose proof (window_range (set_hold w (stalled w) None)) as Hr. unfold blocked.
  destruct (_ || _); [done|]. cbv zeta. destruct (match released w with Some _ => _ | None => _ end);
    [done|].
  rewrite (proj2 (Z.ltb_lt _ _)); [done|]. unfold unacknowledged_terminal. lia.
Qed.

(** Held output leaves the stall recorded that its deadline counts from. *)
Lemma blocked_some w a u now w' d :
  blocked w a u now = (w', Some d) ->
  exists since, stalled w' = Some (a, since) /\ released w' = None /\ d = since + PATIENCE /\
    armed w' = true /\ acknowledged_here w' = true /\
    (since = now \/ stalled w = Some (a, since)).
Proof.
  unfold blocked. destruct (negb (armed w) || negb (acknowledged_here w)) eqn:C; [done|].
  apply orb_false_iff in C as [C1%negb_false_iff C2%negb_false_iff]. cbv zeta.
  destruct (match released w with Some _ => _ | None => _ end); [done|].
  destruct (_ <? window _); [done|]. cbn [set_hold stalled released].
  destruct (stalled w) as [[seen since]|]; [destruct (Z.eqb_spec seen a) as [->|]|].
  - destruct (Z.leb_spec PATIENCE (duration_since now since)) as [|Hp]; [done|].
    intros [= <- <-]. exists since. cbn. split_and!; try done. by right.
  - intros [= <- <-]. exists now. cbn. split_and!; try done. by left.
  - intros [= <- <-]. exists now. cbn. split_and!; try done. by left.
Qed.

(** After a release, output goes out until an acknowledgement beyond the one
    it was waiting on. *)
Lemma released_not_blocked w a a' u now :
  released w = Some a -> a' <= a -> snd (blocked w a' u now) = None.
Proof.
  intros Hr Ha. unfold blocked. destruct (_ || _); [done|]. rewrite Hr.
  by rewrite (proj2 (Z.leb_le _ _)) by done.
Qed.

(** A poll with the same acknowledgement, while the stall is recorded. *)
Lemma blocked_again w a since u now :
  stalled w = Some (a, since) -> released w = None ->
  armed w = true -> acknowledged_here w = true ->
  blocked w a u now =
    if unacknowledged_terminal w u <? window w then (set_hold w None None, None)
    else if PATIENCE <=? duration_since now since then (set_hold w None (Some a), None)
    else (w, Some (since + PATIENCE)).
Proof.
  intros Hs Hr Ha Hh. unfold blocked. rewrite Ha, Hh, Hr. cbn [negb orb]. cbv zeta.
  cbn [set_hold stalled released]. rewrite Hs, Z.eqb_refl.
  replace (set_hold w (Some (a, since)) None) with w; [done|].
  rewrite <-Hs, <-Hr. by destruct w.
Qed.

(** Held output is never wedged. Once [blocked] answers with a deadline [d], it
    is at most [PATIENCE] away. While the acknowledgement does not move, every
    later answer is free or the same [d]; from [d] on it is free; and once the
    patience ran out with a whole window outstanding, output stays free for
    every acknowledgement that is not beyond [a]. (The clock is monotonic: a
    recorded stall is not in the future.) *)
Theorem held_output_is_released w a u now w' d :
  (forall x since, stalled w = Some (x, since) -> since <= now) ->
  blocked w a u now = (w', Some d) ->
  d <= now + PATIENCE /\
  (forall u' now', snd (blocked w' a u' now') = None \/ snd (blocked w' a u' now') = Some d) /\
  (forall u' now', d <= now' -> snd (blocked w' a u' now') = None) /\
  (forall u' now' a' u'' now'', d <= now' -> window w' <= unacknowledged_terminal w' u' ->
     a' <= a -> snd (blocked (fst (blocked w' a u' now')) a' u'' now'') = None).
Proof.
  intros Hclock Hb. destruct (blocked_some _ _ _ _ _ _ Hb) as (since & Hs & Hr & -> & Ha & Hh & Hnow).
  assert (forall now', since + PATIENCE <= now' -> (PATIENCE <=? duration_since now' since) = true)
    as Hpat by (intros; unfold duration_since, PATIENCE in *; lia).
  pose proof (fun u' now' => blocked_again w' a since u' now' Hs Hr Ha Hh) as Hag.
  split_and!.
  - destruct Hnow as [->|Hold]; [lia|]. specialize (Hclock _ _ Hold). lia.
  - intros u' now'. rewrite Hag. repeat case_match; auto.
  - intros u' now' Hd. rewrite Hag, Hpat by done. by case_match.
  - intros u' now' a' u'' now'' Hd Hw Hle. rewrite Hag, Hpat by done.
    rewrite (proj2 (Z.ltb_ge _ _)) by done. by apply (released_not_blocked _ a).
Qed.

(** ** The payload behind a writer's backlog *)

(** [unacknowledged_payload] recovers the payload bytes from the wire bytes
    the writer counts: it is the sum of the payload lengths of the
    unacknowledged frames. *)
Theorem unacknowledged_payload_exact acked frames :
  0 <= acked -> acked + zlen frames <= i64_max -> wire_sum frames <= i64_max ->
  Forall (fun f => 2 + MAC_LEN <= wire f) frames ->
  unacknowledged_payload acked (wire_sum frames) (acked + zlen frames) =
    foldr Z.add 0 (map (fun f => wire f - (2 + MAC_LEN)) frames).
Proof.
  intros Ha Hn Hw Hf.
  assert (wire_sum frames - zlen frames * PACKET_OVERHEAD =
    foldr Z.add 0 (map (fun f => wire f - (2 + MAC_LEN)) frames) /\
    0 <= wire_sum frames - zlen frames * PACKET_OVERHEAD) as [Heq Hpos].
  { clear Hn Hw. induction Hf as [|f l Hwf Hl [IH1 IH2]]; [done|].
    rewrite zlen_cons. cbn [map foldr]. rewrite <-IH1. unfold wire_sum in *. cbn [fold_right].
    unfold PACKET_OVERHEAD, MAC_LEN in *. lia. }
  rewrite <-Heq. unfold unacknowledged_payload, i64_clamp, i64_min, PACKET_OVERHEAD, MAC_LEN,
    i64_max in *. pose proof (zlen_nonneg frames).
  replace (acked + zlen frames - acked) with (zlen frames) by lia. case_match; lia.
Qed.

(** ** Witnesses *)

Lemma window_bounds_witness :
  2 * ACK_INTERVAL_BYTES <= window (wrun [EvWrite 1 100 true false 5]) <= MAX_WINDOW_BYTES.
Proof.
  apply (window_bounds [EvWrite 1 100 true false 5]). by repeat constructor.
Defined.

(** A client that acknowledges a keep-alive of this side while 2 MiB are
    outstanding. *)
Definition demo_trace : list event :=
  [EvWrite 1 8 false true 0; EvWrite 2 (2 * 1024 * 1024) true false 1;
   EvAck 1 (2 * 1024 * 1024) 2].

Lemma only_proven_clients_are_bounded_witness : acked_here demo_trace /\ reads_acks demo_trace.
Proof.
  apply (only_proven_clients_are_bounded demo_trace 1 (2 * 1024 * 1024) 3 (3 + PATIENCE)).
  vm_compute. done.
Defined.

Lemma held_output_is_released_witness :
  let (w', _) := blocked (wrun demo_trace) 1 (2 * 1024 * 1024) 3 in
  snd (blocked w' 1 (2 * 1024 * 1024) (3 + PATIENCE)) = None.
Proof.
  destruct (blocked (wrun demo_trace) 1 (2 * 1024 * 1024) 3) as [w' r] eqn:E.
  destruct (held_output_is_released (wrun demo_trace) 1 (2 * 1024 * 1024) 3 w' (3 + PATIENCE)) as (_ & _ & H & _).
  - intros x since. vm_compute. congruence.
  - rewrite E. f_equal. apply (f_equal snd) in E. vm_compute in E. cbn in E. by rewrite <-E.
  - apply H. lia.
Defined.

Lemma unacknowledged_payload_exact_witness :
  unacknowledged_payload 0 (wire_sum [replicate 30 x00]) (0 + zlen [replicate 30 x00]) = 8.
Proof.
  rewrite (unacknowledged_payload_exact 0 [replicate 30 x00]); [done|lia|vm_compute; congruence..|].
  repeat constructor. vm_compute. congruence.
Defined.
