(* ===== verification/Link.v ===== *)
(** * Link: one direction of a session, end to end

    A [BackedWriter], the byte stream of the current transport, and the
    [BackedReader] of the peer, as [connection.rs], [connection_recovery.rs]
    and [connection_nonblocking.rs] drive them: writes, partial socket reads,
    acknowledgements, transports that fail at any byte, disconnects seen by one
    end before the other, recoveries that only one end completes, and epoch
    resets. The theorems say what reaches the reader's application. *)

From S2P Require Import Prelude Framing Crypto Packet BackedReader BackedWriter.

(** ** Frames of a stream *)

Definition message : Type := byte * list byte.

(** The packet the application reads for a message. *)
Definition packet_of (m : message) : Packet := raw false (fst m) (snd m).

(** Size of a message inside a frame. *)
Definition message_wire (m : message) : Z := 2 + zlen (snd m) + MAC_LEN.

Lemma bumps_bump k n : bumps k (bump n) = bumps (S k) n.
Proof. change (bump n) with (bumps 1 n). by rewrite <-bumps_add, Nat.add_1_r. Qed.

Section frames.
Context {sodium : Sodium}.

Definition sealed_frame (key n : list byte) (m : message) : list byte :=
  (be_bytes 4 (message_wire m) ++ [x01; fst m]) ++ crypto_secretbox_easy (snd m) n key.

(** The frames of a stream of messages whose last used nonce is [n]. *)
Fixpoint frames (key n : list byte) (l : list message) : list (list byte) :=
  match l with
  | [] => []
  | m :: l => sealed_frame key (bump n) m :: frames key (bump n) l
  end.

Lemma frames_app key n l k :
  frames key n (l ++ k) = frames key n l ++ frames key (bumps (length l) n) k.
Proof.
  revert n. induction l as [|m l IH]; intros n; [done|]. cbn [app frames length].
  by rewrite IH, bumps_bump.
Qed.

Lemma length_frames key n l : length (frames key n l) = length l.
Proof. revert n. induction l; intros n; simpl; [done|]. by rewrite IHl. Qed.

Lemma zlen_frames key n l : zlen (frames key n l) = zlen l.
Proof. unfold zlen. by rewrite length_frames. Qed.

Lemma zdrop_frames key n l s :
  0 <= s <= zlen l ->
  zdrop s (frames key n l) = frames key (bumps (Z.to_nat s) n) (zdrop s l).
Proof.
  intros Hs. rewrite <-(ztake_zdrop s l) at 1. rewrite frames_app.
  assert (length (ztake s l) = Z.to_nat s) as Hl.
  { unfold ztake, zlen in *. rewrite length_take. lia. }
  rewrite Hl. replace s with (zlen (frames key n (ztake s l))) at 1.
  - apply zdrop_app_exact.
  - rewrite zlen_frames. len_lia.
Qed.

Context {laws : SodiumLaws sodium}.

Lemma sealed_frame_body key n m :
  zdrop 4 (sealed_frame key n m) = x01 :: fst m :: crypto_secretbox_easy (snd m) n key.
Proof.
  unfold sealed_frame. rewrite <-app_assoc.
  replace 4 with (zlen (be_bytes 4 (message_wire m))) at 1 by (rewrite zlen_be_bytes; done).
  apply zdrop_app_exact.
Qed.

Lemma wire_sealed_frame key n m : wire (sealed_frame key n m) = message_wire m.
Proof.
  unfold wire, sealed_frame. rewrite !zlen_app, easy_zlen, zlen_be_bytes.
  unfold message_wire. len_lia.
Qed.

Lemma decode_sealed c m :
  decode_packet c (zdrop 4 (sealed_frame (base_key c) (bump (nonce c)) m)) =
    (bump_handler c, Ok (packet_of m)).
Proof. rewrite sealed_frame_body. cbn [decode_packet]. by rewrite decrypt_sealed. Qed.

(** A handler [k] nonces further. *)
Definition advance (k : nat) (c : CryptoHandler) : CryptoHandler :=
  with_nonce c (bumps k (nonce c)).

Lemma decode_catchup_frames c l :
  decode_catchup c (map (zdrop 4) (frames (base_key c) (nonce c) l)) =
    (advance (length l) c, Ok (map packet_of l)).
Proof.
  revert c. induction l as [|m l IH]; intros c; [by destruct c|].
  cbn [frames map decode_catchup]. rewrite decode_sealed.
  change (frames (base_key c) (bump (nonce c)) l) with
    (frames (base_key (bump_handler c)) (nonce (bump_handler c)) l).
  rewrite IH. unfold advance, bump_handler, with_nonce at 1 2 3.
  cbn [nonce original_key base_key direction length with_nonce]. by rewrite bumps_bump.
Qed.

Definition sendable (m : message) : Prop := message_wire m <= MAX_PROTO_LEN.

(** The front of a byte stream that starts with a frame: not enough yet, or
    exactly that frame. *)
Lemma next_frame_front key n m p t R :
  sendable m -> p ++ t = sealed_frame key n m ++ R ->
  next_frame p = FrameNeed /\ zlen p < zlen (sealed_frame key n m) \/
  exists rest, next_frame p = FrameBody (zdrop 4 (sealed_frame key n m)) rest /\
    p = sealed_frame key n m ++ rest.
Proof.
  intros Hm Heq. pose proof (wire_sealed_frame key n m) as Hw. unfold wire in Hw.
  set (f := sealed_frame key n m) in *. unfold sendable in Hm.
  assert (2 <= message_wire m) as Hm2 by (unfold message_wire, MAC_LEN; len_lia).
  unfold next_frame. destruct (Z.ltb_spec (zlen p) 4); [left; split; [done|lia]|].
  assert (parse_be_u32_len p = Ok (message_wire m)) as ->.
  { rewrite <-(parse_be_u32_len_app p t), Heq by lia. unfold f, sealed_frame.
    rewrite <-!app_assoc. apply parse_be_u32_len_bytes. lia. }
  unfold HEADER_LEN. rewrite (proj2 (Z.ltb_ge _ _)) by lia.
  destruct (Z.ltb_spec (zlen p) (4 + message_wire m)); [left; split; [done|lia]|]. right.
  exists (zdrop (zlen f) p). assert (p = f ++ zdrop (zlen f) p) as Hp.
  { rewrite <-(ztake_zdrop (zlen f) p) at 1. f_equal.
    rewrite <-(ztake_app_l (zlen f) p t), Heq, ztake_app_exact by lia. done. }
  split; [|done]. replace (4 + message_wire m) with (zlen f) by lia. f_equal.
  rewrite Hp at 1. unfold slice. rewrite zdrop_app_l by lia.
  replace (zlen f - 4) with (zlen (zdrop 4 f)) by len_lia. apply ztake_app_exact.
Qed.
End frames.

(** ** The link *)

Record link := mkLink {
  l_writer : BackedWriter;
  l_reader : BackedReader;
  (** Bytes handed to the current transport and not yet read from it. *)
  l_wire : list byte;
  (** Whether the transport still carries new bytes of this writer to this
      reader. *)
  l_open : bool;
  (** What the writer admitted, and what the reader's application received. *)
  l_sent : list message;
  l_delivered : list Packet
}.

Section link_steps.
Context {sodium : Sodium}.

Definition link_start (cw cr : CryptoHandler) (max_socket_read : Z) : link :=
  mkLink (BackedWriter.new cw true) (with_max_socket_read (BackedReader.new cr true) max_socket_read) []
    true [] [].

(** The state after [prepare_write_packet] admitted a packet. *)
Definition after_write (s : link) (w : BackedWriter) (outcome : WriterOutcome) (m : message) : link :=
  match outcome with
  | Skipped => mkLink w (l_reader s) (l_wire s) (l_open s) (l_sent s) (l_delivered s)
  | BufferedOnly =>
      mkLink w (l_reader s) (l_wire s) (l_open s) (l_sent s ++ [m]) (l_delivered s)
  | Send frame =>
      mkLink w (l_reader s) (if l_open s then l_wire s ++ frame else l_wire s) (l_open s)
        (l_sent s ++ [m]) (l_delivered s)
  end.

Definition with_writer (s : link) (w : BackedWriter) : link :=
  mkLink w (l_reader s) (l_wire s) (l_open s) (l_sent s) (l_delivered s).
Definition with_reader (s : link) (r : BackedReader) : link :=
  mkLink (l_writer s) r (l_wire s) (l_open s) (l_sent s) (l_delivered s).
Definition with_wire (s : link) (b : list byte) (open : bool) : link :=
  mkLink (l_writer s) (l_reader s) b open (l_sent s) (l_delivered s).
Definition deliver (s : link) (r : BackedReader) (p : Packet) : link :=
  mkLink (l_writer s) r (l_wire s) (l_open s) (l_sent s) (l_delivered s ++ [p]).

(** [recover_catchup s catchup r]: the sequence exchange and the catchup
    transfer of [exchange_recovery], then the reader's side of
    [run_recovery_handshake_with] on the disconnected candidate. *)
Definition recover_catchup (s : link) (catchup : list (list byte)) (r : BackedReader) : Prop :=
  recover (l_writer s) (BackedReader.sequence (l_reader s)) = Ok catchup /\
  BackedReader.revive (BackedReader.invalidate (l_reader s)) catchup = (r, Ok tt).

Inductive lstep : link -> link -> Prop :=
(** [Connection::prepare_write_packet] *)
| step_write s m w outcome :
    sendable m ->
    write_packet (l_writer s) (fst m) (snd m) = (w, outcome) ->
    lstep s (after_write s w outcome m)
(** One read of [try_read]: any part of what is on the wire, up to the
    size asked for. *)
| step_socket_read s capacity n :
    0 < n <= zlen (l_wire s) ->
    n <= snd (prepare_socket_read capacity (l_reader s)) ->
    lstep s (with_wire (with_reader s (socket_read capacity (l_reader s) (ztake n (l_wire s))))
               (zdrop n (l_wire s)) (l_open s))
(** A read of [try_read] that delivers nothing. *)
| step_socket_idle s capacity :
    lstep s (with_reader s (fst (prepare_socket_read capacity (l_reader s))))
(** One read of [read_packet]: through its own buffer and [feed]. *)
| step_feed s n :
    0 < n <= zlen (l_wire s) ->
    lstep s (with_wire (with_reader s (feed (l_reader s) (ztake n (l_wire s))))
               (zdrop n (l_wire s)) (l_open s))
| step_pop s r p :
    pop (l_reader s) = (r, Ok (PacketItem p)) -> lstep s (deliver s r p)
(** A read error disconnects. *)
| step_pop_error s r e :
    pop (l_reader s) = (r, Err e) -> lstep s (with_reader s (BackedReader.invalidate r))
(** [authenticate_peer]: one live packet, requeued behind the catchup. *)
| step_authenticate s r p :
    pop_live (l_reader s) = (r, Ok (PacketItem p)) -> lstep s (with_reader s (unread r p))
| step_authenticate_error s r e :
    pop_live (l_reader s) = (r, Err e) -> lstep s (with_reader s (BackedReader.invalidate r))
(** The peer acknowledges a sequence its reader has reached. *)
| step_acknowledge s a :
    0 <= a <= BackedReader.sequence (l_reader s) ->
    lstep s (with_writer s (acknowledge (l_writer s) a))
(** The transport fails: of the bytes in flight only the first [n] still
    arrive. *)
| step_break s n : lstep s (with_wire s (ztake n (l_wire s)) false)
| step_writer_down s : lstep s (with_writer s (invalidate (l_writer s)))
| step_reader_down s : lstep s (with_reader s (BackedReader.invalidate (l_reader s)))
(** Recovery on a new transport, completed by both ends. *)
| step_recover s catchup r :
    recover_catchup s catchup r ->
    lstep s (mkLink (revive (invalidate (l_writer s))) r [] true (l_sent s) (l_delivered s))
(** The reader's end completed it, the writer's end failed and keeps its old
    transport. *)
| step_recover_reader s catchup r :
    recover_catchup s catchup r ->
    lstep s (mkLink (l_writer s) r [] false (l_sent s) (l_delivered s))
(** The writer's end completed it, the reader's end failed and keeps its old
    transport. *)
| step_recover_writer s :
    lstep s (mkLink (revive (invalidate (l_writer s))) (l_reader s) (l_wire s) false
               (l_sent s) (l_delivered s))
(** A reset recovery completed by both ends: a new epoch. *)
| step_reset s salt w r r' :
    reset (invalidate (l_writer s)) salt = (w, Ok tt) ->
    BackedReader.reset (BackedReader.invalidate (l_reader s)) salt = (r, Ok tt) ->
    BackedReader.revive r [] = (r', Ok tt) ->
    lstep s (mkLink (revive w) r' [] true [] []).

(** The links that a client and a server of the same passkey can reach. *)
Inductive reachable (key : list byte) (dir : byte) : link -> Prop :=
| reach_start max_socket_read :
    reachable key dir (link_start (Crypto.new key dir) (Crypto.new key dir) max_socket_read)
| reach_step s s' : reachable key dir s -> lstep s s' -> reachable key dir s'.

(** ** The invariant *)

(** The reader's stream position: the bytes it holds and the bytes on the
    wire are the frames from its sequence on, all of them while the transport
    is up. *)
Definition stream_inv (s : link) (hist : list (list byte)) : Prop :=
  BackedReader.connected (l_reader s) = true ->
  exists tail,
    pending (l_reader s) ++ l_wire s ++ tail =
      concat (zdrop (BackedReader.sequence (l_reader s)) hist) /\
    (l_open s = true -> connected (l_writer s) = true -> tail = []).

(** The frames of the current epoch, whose first nonce is after [n0]. *)
Definition link_frames (s : link) (n0 : list byte) : list (list byte) :=
  frames (base_key (crypto (l_writer s))) n0 (l_sent s).

Record linv (s : link) (n0 : list byte) (acked : Z) : Prop := {
  i_writer : winv (l_writer s) (link_frames s n0) acked;
  i_reader : wf (l_reader s);
  i_sendable : Forall sendable (l_sent s);
  i_original : original_key (crypto (l_writer s)) =
    original_key (BackedReader.crypto (l_reader s));
  i_key : base_key (crypto (l_writer s)) = base_key (BackedReader.crypto (l_reader s));
  i_direction : direction (crypto (l_writer s)) = direction (BackedReader.crypto (l_reader s));
  i_wnonce : nonce (crypto (l_writer s)) = bumps (length (l_sent s)) n0;
  i_rnonce : nonce (BackedReader.crypto (l_reader s)) =
    bumps (Z.to_nat (BackedReader.sequence (l_reader s))) n0;
  i_sequence : acked <= BackedReader.sequence (l_reader s) <= zlen (l_sent s);
  i_delivered : l_delivered s ++ replay (l_reader s) =
    map packet_of (ztake (BackedReader.sequence (l_reader s)) (l_sent s));
  i_stream : stream_inv s (link_frames s n0)
}.
End link_steps.

(** ** Preservation *)

Section writer_facts.
Context {sodium : Sodium} {laws : SodiumLaws sodium}.

Lemma trim_back_crypto over w : crypto (trim_back over w) = crypto w.
Proof. apply trim_back_fields. Qed.

Lemma trim_back_connected over w : connected (trim_back over w) = connected w.
Proof. apply trim_back_fields. Qed.

Lemma write_fields w m w' outcome :
  write_packet w (fst m) (snd m) = (w', outcome) ->
  match outcome with
  | Skipped => w' = w
  | BufferedOnly => crypto w' = bump_handler (crypto w) /\ connected w = false
  | Send f =>
      crypto w' = bump_handler (crypto w) /\ connected w = true /\
      f = sealed_frame (base_key (crypto w)) (bump (nonce (crypto w))) m
  end /\ connected w' = connected w.
Proof.
  rewrite write_packet_eq. cbv zeta. set (f := next_frame_of w (fst m) (snd m)).
  assert (f = sealed_frame (base_key (crypto w)) (bump (nonce (crypto w))) m) as Hf by done.
  clearbody f. destruct (write_refused w (zlen (snd m))); [by intros [= <- <-]|].
  destruct (connected w) eqn:Hc; intros [= <- <-]; [|done].
  by rewrite !trim_back_crypto, !trim_back_connected.
Qed.

Lemma acknowledge_fields w a :
  crypto (acknowledge w a) = crypto w /\ connected (acknowledge w a) = connected w.
Proof.
  unfold acknowledge. destruct (_ || _); [done|]. cbv zeta.
  by rewrite trim_back_crypto, trim_back_connected.
Qed.

Lemma revive_fields w : crypto (revive w) = crypto w /\ connected (revive w) = true.
Proof. unfold revive. by rewrite trim_back_crypto, trim_back_connected. Qed.

(** The writer's invariant under the link's steps. *)
Lemma winv_write w hist acked m w' outcome :
  winv w hist acked -> write_packet w (fst m) (snd m) = (w', outcome) ->
  winv w' (match outcome with
           | Skipped => hist
           | _ => hist ++ [sealed_frame (base_key (crypto w)) (bump (nonce (crypto w))) m]
           end) acked.
Proof.
  intros Hinv Hw. pose proof (write_inv (mkGhost w hist acked) (fst m) (snd m) Hinv) as H.
  unfold ginv, wstep in H. cbn [g_writer g_hist g_acked] in H. rewrite Hw in H.
  destruct outcome; exact H.
Qed.

Lemma winv_recovered w hist acked : winv w hist acked -> winv (revive (invalidate w)) hist acked.
Proof.
  intros H. apply (revive_inv (mkGhost (invalidate w) hist acked)).
  by apply (invalidate_inv (mkGhost w hist acked)).
Qed.

Lemma winv_acknowledge w hist acked a :
  winv w hist acked ->
  winv (acknowledge w a) hist (if ack_accepted w a then Z.max acked a else acked).
Proof. apply (ack_inv (mkGhost w hist acked)). Qed.
End writer_facts.

Section preservation.
Context {sodium : Sodium} {laws : SodiumLaws sodium}.

(** The stream from a position on: nothing, or a frame and the stream after
    it. *)
Lemma stream_step key n0 sent q :
  0 <= q <= zlen sent ->
  zdrop q (frames key n0 sent) = [] /\ q = zlen sent \/
  exists m, sent !! Z.to_nat q = Some m /\ q < zlen sent /\
    zdrop q (frames key n0 sent) =
      sealed_frame key (bump (bumps (Z.to_nat q) n0)) m :: zdrop (q + 1) (frames key n0 sent) /\
    ztake (q + 1) sent = ztake q sent ++ [m].
Proof.
  intros Hq. rewrite !zdrop_frames by lia.
  destruct (zdrop q sent) as [|m l] eqn:E.
  - left. split; [done|]. apply (f_equal zlen) in E. rewrite zlen_nil, zlen_zdrop in E. lia.
  - right. exists m. assert (sent !! Z.to_nat q = Some m) as Hm.
    { unfold zdrop in E. by rewrite <-(Nat.add_0_r (Z.to_nat q)), <-lookup_drop, E. }
    apply (f_equal zlen) in E as Hl. rewrite zlen_zdrop, zlen_cons in Hl.
    pose proof (zlen_nonneg l). split_and!; [done|lia| |].
    + rewrite zdrop_frames by lia. cbn [frames]. do 2 f_equal.
      * by replace (Z.to_nat (q + 1)) with (S (Z.to_nat q)) by lia.
      * by rewrite <-zdrop_zdrop, E by lia.
    + unfold ztake. replace (Z.to_nat (q + 1)) with (S (Z.to_nat q)) by lia.
      by apply take_S_r.
Qed.

(** The reader never fails on the stream, and what it decodes is the next
    message. *)
Lemma live_pop s n0 acked r res :
  linv s n0 acked -> pop_live (l_reader s) = (r, res) ->
  res = Ok NeedMore /\
    (BackedReader.connected (l_reader s) = true -> l_wire s = [] -> l_open s = true ->
     connected (l_writer s) = true -> BackedReader.sequence (l_reader s) = zlen (l_sent s)) \/
  exists m, res = Ok (PacketItem (packet_of m)) /\
    let q := BackedReader.sequence (l_reader s) in
    wf r /\ BackedReader.crypto r = bump_handler (BackedReader.crypto (l_reader s)) /\
    replay r = replay (l_reader s) /\ BackedReader.sequence r = q + 1 /\ q < zlen (l_sent s) /\
    ztake (q + 1) (l_sent s) = ztake q (l_sent s) ++ [m] /\
    stream_inv (with_reader s r) (link_frames s n0).
Proof.
  intros Hinv Hpop. pose proof (pop_live_refines _ (i_reader _ _ _ Hinv)) as [Hwf Href].
  rewrite Hpop in Hwf, Href. cbn [fst snd] in Hwf, Href.
  unfold a_pop_live in Href. cbn [abs a_connected a_pending a_crypto a_replay a_sequence] in Href.
  destruct (BackedReader.connected (l_reader s)) eqn:Hc; [|cbn in Href; left; split; [congruence|done]].
  cbn [negb] in Href. destruct (i_stream _ _ _ Hinv Hc) as (tail & Hs & Htail).
  unfold link_frames in *.
  set (q := BackedReader.sequence (l_reader s)) in *.
  pose proof (i_sequence _ _ _ Hinv) as Hq. pose proof (inv_acked _ _ _ (i_writer _ _ _ Hinv)).
  destruct (stream_step (base_key (crypto (l_writer s))) n0 (l_sent s) q ltac:(unfold q; lia))
    as [[E Hend]|(m & Hm & Hlt & E & Htake)]; rewrite E in Hs; cbn [concat] in Hs.
  { apply app_eq_nil in Hs as [Hs _]. rewrite Hs in Href. change (next_frame []) with FrameNeed in Href. left; split; [congruence|done]. }
  assert (sendable m) as Hsend.
  { eapply Forall_lookup_1; [apply (i_sendable _ _ _ Hinv)|exact Hm]. }
  destruct (next_frame_front _ _ _ _ _ _ Hsend Hs) as [[Hn Hshort]|(rest & Hn & Hp)];
    rewrite Hn in Href; [left|right; clear Hn].
  { split; [congruence|]. intros _ Hw Ho Hcw. rewrite Hw, (Htail Ho Hcw) in Hs.
    apply (f_equal zlen) in Hs. len_lia. }
  rewrite (i_key _ _ _ Hinv) in Href, Hs, Hp |- *. unfold q in Href at 1.
  rewrite <-(i_rnonce _ _ _ Hinv), decode_sealed in Href.
  injection Href as E1 E2 E3 E4 E5 E6 E7. exists m.
  split_and!; try done. intros _. exists tail. cbn [with_reader l_reader l_wire l_open l_writer].
  rewrite <-E2, <-E4. split; [|done]. rewrite Hp, <-app_assoc in Hs.
  by apply app_inv_head in Hs.
Qed.

(** A packet enters the history; its frame reaches the wire while the
    transport is up. *)
Lemma inv_admit s n0 acked m w wire' :
  let f := sealed_frame (base_key (crypto (l_writer s))) (bump (nonce (crypto (l_writer s)))) m in
  linv s n0 acked -> sendable m ->
  winv w (link_frames s n0 ++ [f]) acked ->
  crypto w = bump_handler (crypto (l_writer s)) -> connected w = connected (l_writer s) ->
  wire' = (if l_open s && connected (l_writer s) then l_wire s ++ f else l_wire s) ->
  linv (mkLink w (l_reader s) wire' (l_open s) (l_sent s ++ [m]) (l_delivered s)) n0 acked.
Proof.
  intros f [Hw Hr Hs Ho Hk Hd Hwn Hrn Hq Hdel Hst] Hm Hw' Hc Hconn ->.
  assert (frames (base_key (crypto w)) n0 (l_sent s ++ [m]) = link_frames s n0 ++ [f]) as Hfr.
  { rewrite Hc, frames_app. cbn. unfold f, link_frames. by rewrite Hwn. }
  pose proof (inv_acked _ _ _ Hw) as Hack. unfold link_frames in Hack. rewrite zlen_frames in Hack.
  split; unfold link_frames, stream_inv; cbn [l_writer l_reader l_wire l_open l_sent l_delivered];
    rewrite ?Hfr; try rewrite Hc; try done.
  - apply Forall_app. by split; [|constructor].
  - cbn. by rewrite Hwn, length_app, Nat.add_1_r.
  - len_lia.
  - by rewrite ztake_app_l by lia.
  - intros Hcr. destruct (Hst Hcr) as (tail & E & Htail). rewrite Hconn.
    rewrite zdrop_app_l by (unfold link_frames; rewrite zlen_frames; lia).
    rewrite concat_app, <-E. cbn [concat]. rewrite app_nil_r.
    destruct (l_open s && connected (l_writer s)) eqn:C.
    + apply andb_true_iff in C as [C1 C2]. exists []. rewrite (Htail C1 C2).
      split; [by rewrite !app_assoc, !app_nil_r|done].
    + exists (tail ++ f). split; [by rewrite !app_assoc|].
      intros C1 C2. by rewrite C1, C2 in C.
Qed.

Lemma inv_write s n0 acked m w outcome :
  linv s n0 acked -> sendable m ->
  write_packet (l_writer s) (fst m) (snd m) = (w, outcome) ->
  linv (after_write s w outcome m) n0 acked.
Proof.
  intros Hinv Hm Hw. pose proof (winv_write _ _ _ _ _ _ (i_writer _ _ _ Hinv) Hw) as Hwinv.
  destruct (write_fields _ _ _ _ Hw) as [Hf Hconn].
  destruct outcome as [| |f]; cbn [after_write].
  - rewrite Hf. by destruct s.
  - destruct Hf as [Hc Hdown]. eapply inv_admit; try done. by rewrite Hdown, andb_false_r.
  - destruct Hf as (Hc & Hup & ->). eapply inv_admit; try done. by rewrite Hup, andb_true_r.
Qed.

(** Steps that only change the writer, and neither its stream nor its
    history. *)
Lemma inv_with_writer s n0 acked acked' w :
  linv s n0 acked -> crypto w = crypto (l_writer s) ->
  (connected w = true -> connected (l_writer s) = true) ->
  winv w (link_frames s n0) acked' -> acked' <= BackedReader.sequence (l_reader s) ->
  linv (with_writer s w) n0 acked'.
Proof.
  intros [Hw Hr Hs Ho Hk Hd Hwn Hrn Hq Hdel Hst] Hc Hconn Hw' Ha.
  split; unfold link_frames, stream_inv;
    cbn [with_writer l_writer l_reader l_wire l_open l_sent l_delivered]; rewrite ?Hc; try done.
  - lia.
  - intros Hcr. destruct (Hst Hcr) as (tail & E & Htail). exists tail. auto.
Qed.

(** A read moves bytes from the wire to the reader. *)
Lemma inv_receive s n0 acked r n :
  linv s n0 acked -> wf r -> abs r = a_feed (abs (l_reader s)) (ztake n (l_wire s)) ->
  linv (with_wire (with_reader s r) (zdrop n (l_wire s)) (l_open s)) n0 acked.
Proof.
  intros [Hw Hr Hs Ho Hk Hd Hwn Hrn Hq Hdel Hst] Hwf Habs. injection Habs as E1 E2 E3 E4 _ E6.
  split; unfold link_frames, stream_inv;
    cbn [with_wire with_reader l_writer l_reader l_wire l_open l_sent l_delivered];
    rewrite ?E1, ?E2, ?E3, ?E4, ?E6; try done.
  intros Hcr. destruct (Hst Hcr) as (tail & E & Htail). exists tail. split; [|done].
  by rewrite <-app_assoc, (app_assoc (ztake n _)), ztake_zdrop.
Qed.

Lemma inv_same_reader s n0 acked r :
  linv s n0 acked -> wf r -> abs r = abs (l_reader s) -> linv (with_reader s r) n0 acked.
Proof.
  intros Hinv Hwf Habs. assert (abs r = a_feed (abs (l_reader s)) (ztake 0 (l_wire s))) as Hf.
  { rewrite ztake_0, Habs. unfold a_feed. rewrite app_nil_r. by destruct (abs (l_reader s)). }
  pose proof (inv_receive s n0 acked r 0 Hinv Hwf Hf) as H. rewrite zdrop_0 in H. by destruct s.
Qed.

Lemma inv_break s n0 acked n :
  linv s n0 acked -> linv (with_wire s (ztake n (l_wire s)) false) n0 acked.
Proof.
  intros [Hw Hr Hs Ho Hk Hd Hwn Hrn Hq Hdel Hst]. split; try done.
  intros Hcr. destruct (Hst Hcr) as (tail & E & Htail).
  exists (zdrop n (l_wire s) ++ tail). cbn. split; [|done].
  by rewrite (app_assoc (ztake n _)), ztake_zdrop.
Qed.

Lemma inv_reader_down s n0 acked :
  linv s n0 acked -> linv (with_reader s (BackedReader.invalidate (l_reader s))) n0 acked.
Proof.
  intros [Hw Hr Hs Ho Hk Hd Hwn Hrn Hq Hdel Hst]. split; try done.
  by apply invalidate_refines.
Qed.

(** The reader decodes the next message of the stream. *)
Lemma inv_decode s n0 acked r m delivered :
  let q := BackedReader.sequence (l_reader s) in
  linv s n0 acked -> wf r ->
  BackedReader.crypto r = bump_handler (BackedReader.crypto (l_reader s)) ->
  BackedReader.sequence r = q + 1 -> q < zlen (l_sent s) ->
  ztake (q + 1) (l_sent s) = ztake q (l_sent s) ++ [m] ->
  stream_inv (with_reader s r) (link_frames s n0) ->
  delivered ++ replay r = (l_delivered s ++ replay (l_reader s)) ++ [packet_of m] ->
  linv (mkLink (l_writer s) r (l_wire s) (l_open s) (l_sent s) delivered) n0 acked.
Proof.
  intros q [Hw Hr Hs Ho Hk Hd Hwn Hrn Hq Hdel Hst] Hwf Hc Hseq Hlt Htake Hst' Hdel'.
  pose proof (inv_acked _ _ _ Hw) as Hack.
  split; cbn [l_writer l_reader l_wire l_open l_sent l_delivered];
    rewrite ?Hc, ?Hseq; cbn [bump_handler with_nonce base_key original_key direction nonce];
    try done.
  - unfold q. rewrite Hrn. by replace (Z.to_nat (BackedReader.sequence (l_reader s) + 1))
      with (S (Z.to_nat (BackedReader.sequence (l_reader s)))) by lia.
  - unfold q in *. lia.
  - fold q in Hdel. rewrite Htake, map_app, <-Hdel. done.
Qed.

Lemma inv_pop s n0 acked r res :
  linv s n0 acked -> pop (l_reader s) = (r, res) ->
  res = Ok NeedMore /\
    (BackedReader.connected (l_reader s) = true -> l_wire s = [] -> l_open s = true ->
     connected (l_writer s) = true -> l_delivered s = map packet_of (l_sent s)) \/
  exists p, res = Ok (PacketItem p) /\ linv (deliver s r p) n0 acked /\
    BackedReader.connected r = BackedReader.connected (l_reader s).
Proof.
  intros Hinv Hpop.
  assert (BackedReader.connected r = BackedReader.connected (l_reader s)) as Hconn.
  { destruct (pop_refines _ (i_reader _ _ _ Hinv)) as [_ Href]. rewrite Hpop in Href.
    unfold a_pop, a_pop_live in Href. cbn [fst snd] in Href.
    repeat case_match; apply (f_equal (fun x => a_connected (fst x))) in Href; by cbn in Href. }
  unfold pop in Hpop.
  destruct (BackedReader.connected (l_reader s)) eqn:Hc; [|left; by injection Hpop].
  cbn [negb] in Hpop. destruct (replay (l_reader s)) as [|p rest] eqn:Hrep.
  - destruct (live_pop _ _ _ _ _ Hinv Hpop)
      as [[-> Hend]|(m & -> & Hwf & Hcr & Hr & Hseq & Hlt & Htake & Hst)]; [left|right].
    + split; [done|]. intros _ Hw Ho Hcw. pose proof (i_delivered _ _ _ Hinv) as Hd.
      rewrite Hrep, app_nil_r, (Hend Hc Hw Ho Hcw), ztake_all in Hd by lia. done.
    + exists (packet_of m). split_and!; [done| |done]. eapply inv_decode; try done.
      by rewrite Hr, Hrep, !app_nil_r.
  - injection Hpop as <- <-. right. exists p. split_and!; [done| |done].
    destruct Hinv as [Hw [] Hs Ho Hk Hd Hwn Hrn Hq Hdel Hst]. split; try done.
    cbn [deliver l_delivered l_reader set_replay replay BackedReader.sequence l_sent].
    by rewrite <-Hdel, Hrep, <-app_assoc.
Qed.

Lemma inv_authenticate s n0 acked r p :
  linv s n0 acked -> pop_live (l_reader s) = (r, Ok (PacketItem p)) ->
  linv (with_reader s (unread r p)) n0 acked.
Proof.
  intros Hinv Hpop. destruct (live_pop _ _ _ _ _ Hinv Hpop)
      as [[? _]|(m & [= ->] & Hwf & Hcr & Hr & Hseq & Hlt & Htake & Hst)]; [done|].
  eapply inv_decode; try done; [by apply unread_refines|].
  cbn [unread replay set_replay]. by rewrite Hr, app_assoc.
Qed.

(** A catchup brings the reader to the end of the stream. *)
Lemma inv_recover s n0 acked catchup r w open :
  linv s n0 acked -> recover_catchup s catchup r ->
  crypto w = crypto (l_writer s) -> winv w (link_frames s n0) acked ->
  linv (mkLink w r [] open (l_sent s) (l_delivered s)) n0 acked.
Proof.
  intros [Hw Hr Hs Ho Hk Hd Hwn Hrn Hq Hdel Hst] [Hrec Hrev] Hc Hw'.
  set (q := BackedReader.sequence (l_reader s)) in *.
  pose proof (inv_acked _ _ _ Hw) as Hack. unfold link_frames in *.
  rewrite (recover_repr _ _ _ (inv_repr _ _ _ Hw)), zlen_frames in Hrec.
  destruct (zlen (l_sent s) <? q) eqn:E1; [done|].
  destruct (_ <? _) in Hrec; [done|]. injection Hrec as <-.
  pose proof (invalidate_refines _ Hr) as [Hwf _].
  pose proof (revive_refines _ (map (zdrop 4) (zdrop q
    (frames (base_key (crypto (l_writer s))) n0 (l_sent s)))) Hwf) as [Hwf' Href].
  rewrite Hrev in Hwf', Href. cbn [fst snd] in Hwf', Href. unfold a_revive in Href.
  rewrite zdrop_frames in Href by lia.
  cbn [abs BackedReader.invalidate set_connected set_buffer BackedReader.crypto a_crypto a_sequence
       BackedReader.sequence a_replay replay] in Href.
  rewrite Hk, <-Hrn, decode_catchup_frames in Href. injection Href as E2 E3 E4 E5 _ _.
  assert (BackedReader.sequence r = zlen (l_sent s)) as Hseq.
  { rewrite <-E5. unfold zlen at 1. rewrite length_map, length_frames. fold (zlen (zdrop q (l_sent s))).
    unfold q in *. len_lia. }
  split; cbn [l_writer l_reader l_wire l_open l_sent l_delivered];
    unfold link_frames, stream_inv; cbn [l_writer l_reader l_wire l_open l_sent l_delivered];
    rewrite ?Hc, <-?E2, ?Hseq; try done.
  - cbn. rewrite Hrn, <-bumps_add. f_equal. unfold zdrop, zlen in *. rewrite length_drop. lia.
  - lia.
  - rewrite <-E4, app_assoc, Hdel, <-map_app, ztake_zdrop, ztake_all by lia. done.
  - intros _. exists []. rewrite <-E3, zdrop_all by (rewrite zlen_frames; lia). done.
Qed.

Lemma inv_recover_writer s n0 acked :
  linv s n0 acked ->
  linv (mkLink (revive (invalidate (l_writer s))) (l_reader s) (l_wire s) false
          (l_sent s) (l_delivered s)) n0 acked.
Proof.
  intros [Hw Hr Hs Ho Hk Hd Hwn Hrn Hq Hdel Hst].
  destruct (revive_fields (invalidate (l_writer s))) as [Hc _].
  split; unfold link_frames, stream_inv;
    cbn [l_writer l_reader l_wire l_open l_sent l_delivered]; rewrite ?Hc; try done.
  - by apply winv_recovered.
  - intros Hcr. destruct (Hst Hcr) as (tail & E & _). by exists tail.
Qed.

(** Two ends in one epoch without history. *)
Lemma inv_fresh w r c :
  crypto w = c -> winv w [] 0 ->
  wf r -> abs r = mkAReader c [] [] 0 0 true ->
  linv (mkLink w r [] true [] []) (nonce c) 0.
Proof.
  intros Hc Hw Hwf Habs. injection Habs as E1 E2 E3 E4 _ E6.
  split; unfold link_frames, stream_inv;
    cbn [l_writer l_reader l_wire l_open l_sent l_delivered];
    rewrite ?Hc, ?E1, ?E2, ?E3, ?E4; try done.
  intros _. exists []. done.
Qed.

Lemma inv_reset s n0 acked salt w r r' :
  linv s n0 acked ->
  reset (invalidate (l_writer s)) salt = (w, Ok tt) ->
  BackedReader.reset (BackedReader.invalidate (l_reader s)) salt = (r, Ok tt) ->
  BackedReader.revive r [] = (r', Ok tt) ->
  exists n1, linv (mkLink (revive w) r' [] true [] []) n1 0.
Proof.
  intros Hinv Hw Hr Hrev.
  pose proof (invalidate_refines _ (i_reader _ _ _ Hinv)) as [Hwf _].
  pose proof (reset_refines _ salt Hwf) as [Hwf1 Href]. rewrite Hr in Hwf1, Href.
  pose proof (revive_refines _ [] Hwf1) as [Hwf2 Href2]. cbn [fst snd] in *.
  rewrite Hrev in Hwf2, Href2. cbn [fst snd] in *.
  unfold a_reset in Href. unfold reset in Hw.
  assert (rekey (BackedReader.crypto (l_reader s)) salt = rekey (crypto (l_writer s)) salt \/
    exists e, snd (rekey (crypto (l_writer s)) salt) = Err e) as Hk.
  { unfold rekey. rewrite <-(i_original _ _ _ Hinv), <-(i_direction _ _ _ Hinv).
    destruct (negb _); [right; by eexists|].
    destruct (generichash _ _); [by left|right; by eexists]. }
  change (a_crypto (abs (BackedReader.invalidate (l_reader s))))
    with (BackedReader.crypto (l_reader s)) in Href.
  change (crypto (invalidate (l_writer s))) with (crypto (l_writer s)) in Hw.
  destruct (rekey (crypto (l_writer s)) salt) as [c [[]|e]]; [|done].
  destruct Hk as [Hk|[e He]]; [|done]. rewrite Hk in Href. apply (f_equal fst) in Href as E. cbn [fst] in E.
  injection Hw as <-. exists (nonce c). apply (inv_fresh _ _ c);
    [by apply revive_fields| |done|].
  - apply (revive_inv (wstart c false)), wstart_inv.
  - rewrite <-E in Href2. apply (f_equal fst) in Href2. exact (eq_sym Href2).
Qed.

Lemma inv_step s s' n0 acked :
  linv s n0 acked -> lstep s s' -> exists n1 acked', linv s' n1 acked'.
Proof.
  intros Hinv Hstep.
  destruct Hstep as [s m w o Hm Hw|s cap n Hn Hsz|s cap|s n Hn|s r p Hp|s r e Hp|s r p Hp|s r e Hp|s a Ha
    |s n|s|s|s cu r Hr|s cu r Hr|s|s salt w r r' Hw Hr Hv].
  - exists n0, acked. by apply inv_write.
  - exists n0, acked. destruct (socket_read_refines cap (l_reader s) (ztake n (l_wire s)))
      as [Hwf Habs]; [apply Hinv|len_lia|]. by apply inv_receive.
  - exists n0, acked. pose proof (prepare_socket_read_spec cap (l_reader s) (i_reader _ _ _ Hinv)) as H.
    destruct (prepare_socket_read cap (l_reader s)) as [r size]. destruct H as (Hwf & Habs & _).
    by apply inv_same_reader.
  - exists n0, acked. destruct (feed_refines (l_reader s) (ztake n (l_wire s)))
      as [Hwf Habs]; [apply Hinv|]. by apply inv_receive.
  - exists n0, acked. destruct (inv_pop _ _ _ _ _ Hinv Hp) as [[? _]|(p' & [= <-] & H & _)]; done.
  - destruct (inv_pop _ _ _ _ _ Hinv Hp) as [[? _]|(p' & ? & H & _)]; done.
  - exists n0, acked. by apply inv_authenticate.
  - destruct (live_pop _ _ _ _ _ Hinv Hp) as [[? _]|(m & ? & _)]; done.
  - exists n0, (if ack_accepted (l_writer s) a then Z.max acked a else acked).
    destruct (acknowledge_fields (l_writer s) a) as [Hc Hk].
    pose proof (i_sequence _ _ _ Hinv).
    eapply inv_with_writer; [done|done|by rewrite Hk|by apply winv_acknowledge, Hinv|].
    destruct (ack_accepted _ _); lia.
  - exists n0, acked. by apply inv_break.
  - exists n0, acked. eapply inv_with_writer; try done; [|by apply (i_sequence _ _ _ Hinv)].
    by apply (invalidate_inv (mkGhost (l_writer s) (link_frames s n0) acked)), Hinv.
  - exists n0, acked. by apply inv_reader_down.
  - exists n0, acked. eapply inv_recover; [done..|exact (proj1 (revive_fields (invalidate (l_writer s))))|].
    apply winv_recovered, Hinv.
  - exists n0, acked. eapply inv_recover; [done..|]. apply Hinv.
  - exists n0, acked. by apply inv_recover_writer.
  - destruct (inv_reset _ _ _ _ _ _ _ Hinv Hw Hr Hv) as [n1 H]. by exists n1, 0.
Qed.

Lemma reachable_inv key dir s : reachable key dir s -> exists n0 acked, linv s n0 acked.
Proof.
  induction 1 as [max|s s' _ (n0 & acked & IH) Hstep]; [|by eapply inv_step].
  exists (nonce0 dir), 0. apply (inv_fresh _ _ (Crypto.new key dir)); [done| |apply new_max_wf|done].
  apply (wstart_inv (Crypto.new key dir) true).
Qed.
End preservation.

(** ** What the application receives *)

Section delivery.
Context {sodium : Sodium}.

(** The application reads until there is nothing to read, [n] packets at
    most. *)
Fixpoint pops (n : nat) (s : link) : link :=
  match n with
  | O => s
  | S n =>
      match pop (l_reader s) with
      | (r, Ok (PacketItem p)) => pops n (deliver s r p)
      | _ => s
      end
  end.

(** The transport delivers what is in flight and the application reads it. *)
Definition drain (s : link) : link :=
  pops (length (l_sent s))
    (with_wire (with_reader s (feed (l_reader s) (l_wire s))) [] (l_open s)).

(** The link after a recovery that both ends completed. *)
Definition recovered (s : link) (r : BackedReader) : link :=
  mkLink (revive (invalidate (l_writer s))) r [] true (l_sent s) (l_delivered s).

Fixpoint stream_wire (l : list message) : Z :=
  match l with
  | [] => 0
  | m :: l => message_wire m + stream_wire l
  end.

Context {laws : SodiumLaws sodium}.

Lemma wire_sum_frames key n l : wire_sum (frames key n l) = stream_wire l.
Proof.
  revert n. induction l as [|m l IH]; intros n; [done|].
  cbn [frames stream_wire]. unfold wire_sum in *. cbn [fold_right].
  by rewrite wire_sealed_frame, IH.
Qed.

Lemma pops_all n s n0 acked :
  linv s n0 acked -> BackedReader.connected (l_reader s) = true ->
  connected (l_writer s) = true -> l_open s = true -> l_wire s = [] ->
  (length (l_sent s) <= length (l_delivered s) + n)%nat ->
  l_delivered (pops n s) = map packet_of (l_sent s).
Proof.
  revert s. induction n as [|n IH]; intros s Hinv Hcr Hcw Ho Hw Hn; cbn [pops].
  - pose proof (i_delivered _ _ _ Hinv) as Hd. pose proof (i_sequence _ _ _ Hinv) as Hq.
    pose proof (inv_acked _ _ _ (i_writer _ _ _ Hinv)) as Ha.
    apply (f_equal length) in Hd as Hl. rewrite length_app, length_map in Hl.
    unfold ztake in Hl. rewrite length_take in Hl.
    assert (replay (l_reader s) = []) as Hr by (apply nil_length_inv; lia).
    rewrite Hr in Hd, Hl. cbn [length] in Hl.
    rewrite app_nil_r, ztake_all in Hd by (unfold zlen; lia). done.
  - destruct (pop (l_reader s)) as [r res] eqn:Hpop.
    destruct (inv_pop _ _ _ _ _ Hinv Hpop) as [[-> Hend]|(p & -> & Hinv' & Hcr')]; [auto|].
    rewrite (IH (deliver s r p)); cbn; try done; [by rewrite Hcr'|].
    rewrite length_app. cbn. lia.
Qed.

Lemma recover_within_caps s n0 acked :
  linv s n0 acked ->
  let missed := zdrop (BackedReader.sequence (l_reader s)) (l_sent s) in
  stream_wire missed <= MAX_BACKUP_BYTES -> zlen missed <= MAX_BACKUP_PACKETS ->
  exists catchup r, recover_catchup s catchup r /\ BackedReader.connected r = true.
Proof.
  intros Hinv missed Hb Hp. pose proof (i_writer _ _ _ Hinv) as Hw.
  pose proof (i_sequence _ _ _ Hinv) as Hq. pose proof (inv_acked _ _ _ Hw) as Ha.
  unfold link_frames in *. rewrite zlen_frames in Ha.
  set (q := BackedReader.sequence (l_reader s)) in *.
  assert (fits (zdrop q (frames (base_key (crypto (l_writer s))) n0 (l_sent s)))) as Hfit.
  { rewrite zdrop_frames by lia. split; [by rewrite wire_sum_frames|by rewrite zlen_frames]. }
  pose proof (inv_cover _ _ _ Hw q) as Hcov. rewrite zlen_frames in Hcov.
  specialize (Hcov ltac:(lia) Hfit).
  set (catchup := map (zdrop 4) (zdrop q (frames (base_key (crypto (l_writer s))) n0 (l_sent s)))).
  assert (exists c d, decode_catchup (BackedReader.crypto (l_reader s)) catchup = (c, Ok d))
    as (c & d & Hdec).
  { unfold catchup. rewrite zdrop_frames, (i_key _ _ _ Hinv) by lia. unfold q at 1.
    rewrite <-(i_rnonce _ _ _ Hinv), decode_catchup_frames. by do 2 eexists. }
  assert (snd (BackedReader.revive (BackedReader.invalidate (l_reader s)) catchup) = Ok tt /\
    BackedReader.connected (fst (BackedReader.revive (BackedReader.invalidate (l_reader s)) catchup))
      = true) as [Hok Hcon].
  { unfold BackedReader.revive.
    change (BackedReader.crypto (BackedReader.invalidate (l_reader s)))
      with (BackedReader.crypto (l_reader s)). by rewrite Hdec. }
  destruct (BackedReader.revive (BackedReader.invalidate (l_reader s)) catchup) as [r res] eqn:Hr.
  exists catchup, r. split; [split|done]; [|by rewrite Hr, <-Hok].
  rewrite (recover_repr _ _ _ (inv_repr _ _ _ Hw)), zlen_frames. fold q.
  rewrite (proj2 (Z.ltb_ge _ _)) by lia. by rewrite (proj2 (Z.ltb_ge _ _)) by lia.
Qed.

Lemma inv_delivered_prefix s n0 acked :
  linv s n0 acked -> l_delivered s `prefix_of` map packet_of (l_sent s).
Proof.
  intros Hinv. exists (replay (l_reader s) ++
    map packet_of (zdrop (BackedReader.sequence (l_reader s)) (l_sent s))).
  by rewrite app_assoc, (i_delivered _ _ _ Hinv), <-map_app, ztake_zdrop.
Qed.

(** Exactly once, in order: whatever happens to the transports, what the
    reader's application received is a prefix of what the writer admitted in
    this epoch; the packets replayed and not yet read continue that prefix; and
    the reader never sees a packet it cannot decode. *)
Theorem delivered_exactly_once key dir s :
  reachable key dir s ->
  l_delivered s `prefix_of` map packet_of (l_sent s) /\
  l_delivered s ++ replay (l_reader s) =
    map packet_of (ztake (BackedReader.sequence (l_reader s)) (l_sent s)) /\
  is_ok (snd (pop (l_reader s))) = true.
Proof.
  intros (n0 & acked & Hinv)%reachable_inv. pose proof (i_delivered _ _ _ Hinv) as Hd.
  split_and!; [|done|].
  - by eapply inv_delivered_prefix.
  - destruct (pop (l_reader s)) as [r res] eqn:Hpop.
    by destruct (inv_pop _ _ _ _ _ Hinv Hpop) as [[-> _]|(p & -> & _)].
Qed.

(** While both ends are connected over a live transport nothing is lost: once
    the transport has delivered what is in flight and the application has read
    it, the application has received everything that was admitted. *)
Theorem live_link_delivers_all key dir s :
  reachable key dir s ->
  connected (l_writer s) = true -> BackedReader.connected (l_reader s) = true ->
  l_open s = true ->
  l_delivered (drain s) = map packet_of (l_sent s).
Proof.
  intros (n0 & acked & Hinv)%reachable_inv Hcw Hcr Ho. unfold drain.
  destruct (feed_refines (l_reader s) (l_wire s)) as [Hwf Habs]; [apply Hinv|].
  apply (f_equal a_connected) in Habs as Hc. cbn in Hc.
  assert (linv (with_wire (with_reader s (feed (l_reader s) (l_wire s))) [] (l_open s)) n0 acked)
    as Hinv'.
  { pose proof (inv_receive s n0 acked (feed (l_reader s) (l_wire s)) (zlen (l_wire s)) Hinv Hwf) as H.
    rewrite ztake_all, zdrop_all in H by lia. by apply H. }
  rewrite (pops_all _ _ n0 acked); cbn; try done; [by rewrite Hc|lia].
Qed.

(** A recovery after any outage loses nothing that the replay caps can hold:
    from every reachable state, if what the reader has not received is at most
    [MAX_BACKUP_BYTES] and [MAX_BACKUP_PACKETS], recovery succeeds and the
    application then receives every admitted packet, once and in order. *)
Theorem recovery_delivers_all key dir s :
  reachable key dir s ->
  let missed := zdrop (BackedReader.sequence (l_reader s)) (l_sent s) in
  stream_wire missed <= MAX_BACKUP_BYTES -> zlen missed <= MAX_BACKUP_PACKETS ->
  exists catchup r,
    recover_catchup s catchup r /\
    l_delivered (drain (recovered s r)) = map packet_of (l_sent s).
Proof.
  intros (n0 & acked & Hinv)%reachable_inv missed Hb Hp.
  destruct (recover_within_caps _ _ _ Hinv Hb Hp) as (catchup & r & Hrec & Hcon).
  exists catchup, r. split; [done|].
  destruct (revive_fields (invalidate (l_writer s))) as [Hc Hup].
  assert (linv (recovered s r) n0 acked) as Hinv'.
  { eapply inv_recover; [done..|apply winv_recovered, Hinv]. }
  unfold drain. cbn [recovered l_sent l_wire l_reader l_open feed].
  eapply (pops_all _ (recovered s r)); [exact Hinv'|done|exact Hup|done|done|cbn; lia].
Qed.
End delivery.

(** ** Witnesses *)

(** A link on which a message was written, and one whose transport then broke
    before the message arrived, both ends noticing. *)
Definition demo_key : list byte := replicate 32 x61.
Definition demo_message : message := (x01, [x62; x63]).
Definition demo_start : link :=
  link_start (Crypto.new demo_key DIR_CLIENT_TO_SERVER) (Crypto.new demo_key DIR_CLIENT_TO_SERVER)
    SERVER_MAX_SOCKET_READ.
Definition demo_live : link :=
  let wo := write_packet (sodium := toy_sodium) (l_writer demo_start) (fst demo_message) (snd demo_message) in
  after_write demo_start (fst wo) (snd wo) demo_message.
Definition demo_broken : link := with_wire demo_live (ztake 3 (l_wire demo_live)) false.

Lemma demo_live_reachable : reachable (sodium := toy_sodium) demo_key DIR_CLIENT_TO_SERVER demo_live.
Proof.
  eapply reach_step; [apply reach_start|]. apply step_write; [vm_compute; congruence|].
  apply surjective_pairing.
Qed.

Lemma demo_broken_reachable : reachable (sodium := toy_sodium) demo_key DIR_CLIENT_TO_SERVER demo_broken.
Proof. eapply reach_step; [apply demo_live_reachable|]. apply step_break. Qed.

Lemma delivered_exactly_once_witness :
  l_delivered demo_live `prefix_of` map packet_of (l_sent demo_live).
Proof.
  exact (proj1 (delivered_exactly_once (laws := toy_laws) demo_key DIR_CLIENT_TO_SERVER demo_live
    demo_live_reachable)).
Defined.

Lemma live_link_delivers_all_witness :
  l_delivered (drain (sodium := toy_sodium) demo_live) = [packet_of demo_message].
Proof.
  apply (live_link_delivers_all (laws := toy_laws) demo_key DIR_CLIENT_TO_SERVER demo_live
    demo_live_reachable); vm_compute; done.
Defined.

Lemma recovery_delivers_all_witness :
  exists catchup r, recover_catchup (sodium := toy_sodium) demo_broken catchup r /\
    l_delivered (drain (sodium := toy_sodium) (recovered demo_broken r)) = [packet_of demo_message].
Proof.
  apply (recovery_delivers_all (laws := toy_laws) demo_key DIR_CLIENT_TO_SERVER demo_broken
    demo_broken_reachable); vm_compute; congruence.
Defined.
