(* ===== verification/OutputInterrupt.v ===== *)
(** * OutputInterrupt: [crates/et-core/src/output_interrupt.rs]

    Recognising an interrupt in client input that may be split over packets, and
    dropping unsent terminal output without breaking a tmux control-mode
    stream. The [memchr] crate is a parameter (class [Memchr]). *)

From Stdlib Require Import String.
From S2P Require Import Prelude Bytes.

Definition FLUSH_THRESHOLD : Z := 64 * 1024.

Definition NL : byte := x0a.
Definition CR : byte := x0d.
Definition ESC : byte := x1b.
Definition PERCENT : byte := x25.
Definition BACKSLASH : byte := x5c.

(** ** The search functions of the [memchr] crate *)

Class Memchr := {
  (** Index of the first occurrence, of the last one, of the first of either
      byte, and of all of either byte. *)
  memchr : byte -> list byte -> option nat;
  memrchr : byte -> list byte -> option nat;
  memchr2 : byte -> byte -> list byte -> option nat;
  memchr2_iter : byte -> byte -> list byte -> list nat
}.

Class MemchrLaws (search : Memchr) := {
  memchr_spec b l :
    match memchr b l with
    | Some i => l !! i = Some b /\ b ∉ take i l
    | None => b ∉ l
    end;
  memrchr_spec b l :
    match memrchr b l with
    | Some i => l !! i = Some b /\ b ∉ drop (S i) l
    | None => b ∉ l
    end;
  memchr2_spec a b l :
    match memchr2 a b l with
    | Some i => l !! i = Some a \/ l !! i = Some b
    | None => (a ∉ l) /\ (b ∉ l)
    end;
  memchr2_iter_spec a b l i :
    (i ∈ memchr2_iter a b l) <-> (l !! i = Some a \/ l !! i = Some b)
}.

(** ** Interrupts in client input *)

Record InterruptInput := mkInput { carry : list byte; overlong : bool }.

Definition input_default : InterruptInput := {| carry := []; overlong := false |}.

Definition is_interrupt_byte (b : byte) : bool :=
  (b2z b =? 3) || (b2z b =? 26) || (b2z b =? 28).

Definition interrupt_keys : list (list byte) :=
  map bytes_of ["C-c"; "^C"; "C-z"; "^Z"; "C-\"; "C-|"]%string.

(** The token loop of [command_requests_interrupt]. *)
Fixpoint scan_tokens (hex literal : bool) (tokens : list (list byte)) : bool :=
  match tokens with
  | [] => false
  | token :: rest =>
      match strip_prefix (bytes_of "-") token with
      | Some flags =>
          let '(hex, literal) :=
            if contains x48 flags then (true, false)
            else if contains x6c flags then (false, true)
            else (hex, literal) in
          if existsb (fun f => beq f x74 || beq f x63 || beq f x4e) flags
          then match rest with
               | [] => false
               | _ :: rest => scan_tokens hex literal rest
               end
          else scan_tokens hex literal rest
      | None =>
          if literal then scan_tokens hex literal rest
          else
            let number :=
              match strip_prefix (bytes_of "0x") token with
              | Some n => Some n
              | None => strip_prefix (bytes_of "0X") token
              end in
            if hex || match number with Some _ => true | None => false end then
              let number := unwrap_or token number in
              if (1 <=? zlen number) && (zlen number <=? 2)
                 && match from_str_radix 16 255 number with
                    | Some v => (v =? 3) || (v =? 26) || (v =? 28)
                    | None => false
                    end
              then true
              else scan_tokens hex literal rest
            else if existsb (eq_ignore_ascii_case token) interrupt_keys then true
            else scan_tokens hex literal rest
      end
  end.

Definition command_requests_interrupt (bytes : list byte) : bool :=
  if negb (from_utf8 bytes) then false
  else
    match split_ascii_whitespace bytes with
    | [] => false
    | first :: tokens =>
        if list_eqb first (bytes_of "send-keys") || list_eqb first (bytes_of "send")
        then scan_tokens false false tokens
        else false
    end.

(** One byte of the loop of [InterruptInput::feed]. *)
Definition feed_byte (s : InterruptInput) (b : byte) : InterruptInput * bool :=
  if beq b NL || beq b CR then
    ({| carry := []; overlong := false |},
     negb (overlong s) && command_requests_interrupt (carry s))
  else if negb (overlong s) then
    if zlen (carry s) =? 4096 then ({| carry := []; overlong := true |}, false)
    else ({| carry := carry s ++ [b]; overlong := overlong s |}, false)
  else (s, false).

Fixpoint feed_bytes (s : InterruptInput) (interrupt : bool) (bytes : list byte)
  : InterruptInput * bool :=
  match bytes with
  | [] => (s, interrupt)
  | b :: bytes => let (s, hit) := feed_byte s b in feed_bytes s (interrupt || hit) bytes
  end.

Definition feed (s : InterruptInput) (bytes : list byte) : InterruptInput * bool :=
  let (s, interrupt) := feed_bytes s (existsb is_interrupt_byte bytes) bytes in
  (s, interrupt || (negb (overlong s) && command_requests_interrupt (carry s))).

(** ** The state of the output stream *)

Definition TMUX_DCS : list byte := ESC :: bytes_of "P1000p".

Definition strip_dcs (token : list byte) : list byte := unwrap_or token (strip_prefix TMUX_DCS token).

Definition control_tokens : list (list byte) :=
  map bytes_of
    ["%begin"; "%end"; "%error"; "%output"; "%extended-output"; "%exit"; "%layout-change";
     "%window-add"; "%window-close"; "%window-renamed"; "%pane-mode-changed";
     "%window-pane-changed"; "%unlinked-window-add"; "%unlinked-window-close";
     "%unlinked-window-renamed"; "%session-changed"; "%session-renamed";
     "%session-window-changed"; "%sessions-changed"; "%client-detached";
     "%client-session-changed"; "%subscription-changed"; "%message"; "%config-error";
     "%continue"; "%pause"; "%paste-buffer-changed"; "%paste-buffer-deleted"]%string.

Definition is_tmux_control_token (token : list byte) : bool :=
  existsb (list_eqb (strip_dcs token)) control_tokens.

Definition arms_control_mode (token : list byte) : bool :=
  let token := strip_dcs token in
  negb (list_eqb token (bytes_of "%exit")) && is_tmux_control_token token.

Definition line_first_token (line : list byte) : list byte :=
  let token := unwrap_or [] (head (split_by is_ascii_whitespace line)) in
  strip_dcs token.

Record TerminalStream := mkStream {
  token : list byte;
  token_done : bool;
  midline : bool;
  control : bool;
  block : bool;
  escape : bool
}.

Definition stream_default : TerminalStream := {|
  token := []; token_done := false; midline := false; control := false; block := false;
  escape := false |}.

Definition token_may_be_control (s : TerminalStream) : bool :=
  if bool_decide (token s = []) then false
  else if starts_with (token s) TMUX_DCS then true
  else
    let token := strip_dcs (token s) in
    list_eqb token (bytes_of "%")
    || (starts_with (bytes_of "%") token && is_some_and is_ascii_lowercase (token !! 1%nat)).

(** One byte of the loop of [observe], after the skip. *)
Definition observe_byte (s : TerminalStream) (b : byte) : TerminalStream :=
  if control s && negb (block s) && escape s && beq b BACKSLASH then
    {| token := []; token_done := false; midline := false; control := false;
       block := block s; escape := false |}
  else
    let escape := beq b ESC in
    if beq b NL then
      let t := strip_dcs (token s) in
      {| token := []; token_done := false; midline := false;
         control := if arms_control_mode t then true else control s;
         block := if list_eqb t (bytes_of "%begin") then true
                  else if list_eqb t (bytes_of "%end") || list_eqb t (bytes_of "%error")
                  then false else block s;
         escape := escape |}
    else
      let white := is_ascii_whitespace b in
      let control_ :=
        if white && negb (token_done s) && arms_control_mode (token s) then true else control s in
      let done_ := if white then true else token_done s in
      if negb done_ && (zlen (token s) <? 32) then
        let t := token s ++ [b] in
        if list_eqb t TMUX_DCS then
          {| token := []; token_done := done_; midline := false; control := true;
             block := block s; escape := escape |}
        else
          {| token := t; token_done := done_; midline := true; control := control_;
             block := block s; escape := escape |}
      else
        {| token := token s; token_done := done_; midline := true; control := control_;
           block := block s; escape := escape |}.

Section observe.
Context {search : Memchr}.

Definition may_contain_control (s : TerminalStream) (bytes : list byte) : bool :=
  if control s || (negb (token_done s) && token_may_be_control s) then true
  else
    let tail_start := sat_sub (zlen bytes) 3 in
    match memchr2 PERCENT ESC (zdrop tail_start bytes) with
    | Some _ => true
    | None =>
        existsb (fun index : nat =>
          let next := bytes !! S index in
          if bool_decide (bytes !! index = Some PERCENT)
          then is_some_and is_ascii_lowercase next
          else bool_decide (next = Some x50))
          (memchr2_iter PERCENT ESC bytes)
    end.

(** The loop of [observe] from position [i]; [rest] is [&bytes[i..]]. Every
    iteration consumes a byte. *)
Fixpoint observe_loop (fuel : nat) (s : TerminalStream) (rest : list byte) : TerminalStream :=
  match fuel, rest with
  | S fuel, _ :: _ =>
      let skipping := negb (control s) && (token_done s || (32 <=? zlen (token s))) in
      match (if skipping then memchr NL rest else Some O) with
      | None =>
          {| token := token s; token_done := token_done s; midline := true;
             control := control s; block := block s;
             escape := bool_decide (last rest = Some ESC) |}
      | Some rel =>
          match drop rel rest with
          | b :: rest => observe_loop fuel (observe_byte s b) rest
          | [] => s
          end
      end
  | _, _ => s
  end.

Definition observe (s : TerminalStream) (bytes : list byte) : TerminalStream :=
  if negb (control s) && (token_done s || negb (token_may_be_control s))
     && bool_decide (memchr2 PERCENT ESC bytes = None)
  then
    match memrchr NL bytes with
    | Some last_nl =>
        observe_loop (length bytes)
          {| token := []; token_done := false; midline := false; control := control s;
             block := block s; escape := false |} (drop (last_nl + 1) bytes)
    | None =>
        if token_done s || (32 <=? zlen (token s)) then
          if bool_decide (bytes = []) then s
          else {| token := token s; token_done := token_done s; midline := true;
                  control := control s; block := block s; escape := false |}
        else observe_loop (length bytes) s bytes
    end
  else observe_loop (length bytes) s bytes.

(** ** Dropping and reordering unsent output *)

Record FilteredOutput := mkFiltered {
  kept : list byte;
  dropped : Z;
  skip_until_newline : bool;
  droppable : list byte
}.

(** The first loop of [partition]: finish the control-mode line whose front
    was already sent, and the non-[%] lines after it. *)
Fixpoint finish_line (fuel : nat) (s : TerminalStream) (kept rest : list byte)
  : TerminalStream * list byte * list byte :=
  match fuel, rest with
  | S fuel, b :: _ =>
      if beq b PERCENT || beq b NL then (s, kept, rest)
      else
        match position (beq NL) rest with
        | None => (observe s rest, kept ++ rest, [])
        | Some newline =>
            let line := take (newline + 1) rest in
            finish_line fuel (observe s line) (kept ++ line) (drop (newline + 1) rest)
        end
  | _, _ => (s, kept, rest)
  end.

Definition is_pane (token : list byte) : bool :=
  list_eqb token (bytes_of "%output") || list_eqb token (bytes_of "%extended-output").

Definition keep_line (s : TerminalStream) (line : list byte) : bool :=
  let token := line_first_token line in
  let control_token :=
    is_tmux_control_token token || (control s && starts_with (bytes_of "%") token) in
  let dcs_terminator :=
    control s && negb (block s)
    && (starts_with [ESC; BACKSLASH] token
        || (escape s && starts_with [BACKSLASH] line)) in
  block s || (control s && midline s) || (control_token && negb (is_pane token))
  || dcs_terminator || (control s && bool_decide (token = [])).

(** The second loop of [partition]. *)
Fixpoint partition_lines (retain : bool) (s : TerminalStream) (kept droppable : list byte)
    (skip : bool) (lines : list (list byte)) : list byte * list byte * bool :=
  match lines with
  | [] => (kept, droppable, skip)
  | line :: lines =>
      if keep_line s line
      then partition_lines retain (observe s line) (kept ++ line) droppable skip lines
      else
        partition_lines retain (observe s line) kept
          (if retain then droppable ++ line else droppable)
          (if is_pane (line_first_token line) && negb (ends_with [NL] line) then true else skip)
          lines
  end.

Definition partition (s : TerminalStream) (bytes : list byte) (retain : bool) : FilteredOutput :=
  let '(state, kept, rest) :=
    match bytes with
    | b :: _ =>
        if control s && midline s && negb (beq b PERCENT) && negb (beq b NL)
        then finish_line (length bytes) s [] bytes
        else (s, [], bytes)
    | [] => (s, [], bytes)
    end in
  let '(kept, droppable, skip) :=
    partition_lines retain state kept [] false (split_inclusive NL rest) in
  {| kept := kept; dropped := zlen bytes - zlen kept; skip_until_newline := skip;
     droppable := droppable |}.

Definition stream_filter (s : TerminalStream) (bytes : list byte) : FilteredOutput :=
  partition s bytes false.

(** The prefix scan of [promote_control]: the end of the last complete line
    outside a response block. *)
Fixpoint complete_prefix (observed : TerminalStream) (offset complete : nat)
    (lines : list (list byte)) : nat :=
  match lines with
  | [] => complete
  | line :: lines =>
      let observed := observe observed line in
      let offset := (offset + length line)%nat in
      complete_prefix observed offset
        (if ends_with [NL] line && negb (block observed) then offset else complete) lines
  end.

Definition promote_control (s : TerminalStream) (bytes : list byte) : option (list byte) :=
  if negb (control s)
     && negb (existsb (fun line => is_tmux_control_token (line_first_token line))
                (split_by (beq NL) bytes))
  then None
  else
    let complete := complete_prefix s 0 0 (split_inclusive NL bytes) in
    let result := partition s (take complete bytes) true in
    if bool_decide (kept result = []) || bool_decide (droppable result = []) then None
    else Some ((kept result ++ droppable result) ++ drop complete bytes).
End observe.

(** ** Input split over packets *)

Lemma feed_bytes_acc s i l :
  feed_bytes s i l = (fst (feed_bytes s false l), i || snd (feed_bytes s false l)).
Proof.
  revert s i. induction l as [|b l IH]; intros s i; cbn [feed_bytes fst snd].
  - by rewrite orb_false_r.
  - destruct (feed_byte s b) as [s' hit]. rewrite (IH s' (i || hit)), (IH s' (false || hit)).
    cbn. by rewrite orb_assoc.
Qed.

Lemma feed_bytes_app s i a b :
  feed_bytes s i (a ++ b) = feed_bytes (fst (feed_bytes s i a)) (snd (feed_bytes s i a)) b.
Proof.
  revert s i. induction a as [|x a IH]; intros s i; [done|]. cbn [app feed_bytes].
  by destruct (feed_byte s x).
Qed.

(** The packets of one stretch of input: the final state, and whether any of
    them was taken for an interrupt. *)
Fixpoint feed_chunks (s : InterruptInput) (chunks : list (list byte)) : InterruptInput * bool :=
  match chunks with
  | [] => (s, false)
  | c :: chunks =>
      let (s, hit) := feed s c in
      let (s, hits) := feed_chunks s chunks in
      (s, hit || hits)
  end.

Lemma feed_app s a b :
  fst (feed s (a ++ b)) = fst (feed (fst (feed s a)) b) /\
  (snd (feed s (a ++ b)) = true ->
   snd (feed s a) = true \/ snd (feed (fst (feed s a)) b) = true).
Proof.
  assert (forall t l, fst (feed t l) = fst (feed_bytes t false l)) as Hfst.
  { intros t l. unfold feed. rewrite feed_bytes_acc. by destruct (feed_bytes t false l). }
  assert (forall t l, snd (feed t l) = existsb is_interrupt_byte l || snd (feed_bytes t false l) ||
    (negb (overlong (fst (feed_bytes t false l))) &&
     command_requests_interrupt (carry (fst (feed_bytes t false l))))) as Hsnd.
  { intros t l. unfold feed. rewrite feed_bytes_acc. by destruct (feed_bytes t false l). }
  rewrite !Hfst, !Hsnd, existsb_app, feed_bytes_app.
  rewrite (feed_bytes_acc (fst (feed_bytes s false a)) (snd (feed_bytes s false a)) b).
  cbn [fst snd]. split; [done|]. rewrite !orb_true_iff. tauto.
Qed.

(** Splitting client input over packets neither changes the recogniser's state
    nor hides an interrupt: whatever the packets, an interrupt that the
    unsplit input requests is reported for one of them. *)
Theorem interrupt_survives_packets s chunk chunks :
  fst (feed_chunks s (chunk :: chunks)) = fst (feed s (concat (chunk :: chunks))) /\
  (snd (feed s (concat (chunk :: chunks))) = true ->
   snd (feed_chunks s (chunk :: chunks)) = true).
Proof.
  revert s chunk. induction chunks as [|c chunks IH]; intros s chunk.
  - cbn [feed_chunks concat]. rewrite app_nil_r. destruct (feed s chunk) as [s' hit].
    cbn. by rewrite orb_false_r.
  - cbn [feed_chunks]. change (concat (chunk :: c :: chunks)) with (chunk ++ concat (c :: chunks)).
    destruct (feed_app s chunk (concat (c :: chunks))) as [H1 H2].
    destruct (IH (fst (feed s chunk)) c) as [IH1 IH2]. rewrite H1.
    destruct (feed s chunk) as [s1 hit]. cbn [fst snd feed_chunks] in *.
    destruct (feed s1 c) as [s2 hit2]. destruct (feed_chunks s2 chunks) as [s3 hits].
    cbn [fst snd] in *. split; [done|]. intros [->|H]%H2; [done|].
    rewrite (IH2 H). by rewrite orb_true_r.
Qed.

(** ** [observe] against its byte-by-byte reference *)

Definition observe_ref (s : TerminalStream) (bytes : list byte) : TerminalStream :=
  fold_left observe_byte bytes s.

(** States that no operation tells apart: once the token buffer is full,
    whether the token is finished does not matter. *)
Record same_stream (s t : TerminalStream) : Prop := {
  same_token : token s = token t;
  same_midline : midline s = midline t;
  same_control : control s = control t;
  same_block : block s = block t;
  same_escape : escape s = escape t;
  same_done : token_done s = token_done t \/ 32 <= zlen (token s)
}.

#[export] Instance same_stream_equiv : Equivalence same_stream.
Proof.
  split.
  - intros s. by split; try left.
  - intros s t [H1 H2 H3 H4 H5 H6]. split; try done. rewrite <-H1.
    destruct H6 as [->|?]; [by left|by right].
  - intros s t u [H1 H2 H3 H4 H5 H6] [K1 K2 K3 K4 K5 K6]. split; try congruence.
    rewrite <-H1 in K6. destruct H6 as [H6|?]; [|by right].
    destruct K6 as [K6|?]; [left; congruence|by right].
Qed.

Lemma strip_dcs_no_prefix t : starts_with TMUX_DCS t = false -> strip_dcs t = t.
Proof. intros H. unfold strip_dcs, strip_prefix. by rewrite H. Qed.

Lemma control_tokens_shape :
  Forall (fun c => starts_with (bytes_of "%") c = true /\
                   is_some_and is_ascii_lowercase (c !! 1%nat) = true /\ zlen c <= 24)
    control_tokens.
Proof. unfold control_tokens. repeat constructor; vm_compute; congruence. Qed.

Lemma control_token_shape t :
  is_tmux_control_token t = true ->
  starts_with (bytes_of "%") (strip_dcs t) = true /\
  is_some_and is_ascii_lowercase (strip_dcs t !! 1%nat) = true /\ zlen (strip_dcs t) <= 24.
Proof.
  unfold is_tmux_control_token. intros (c & Hin & Hc)%existsb_exists.
  apply list_eqb_spec in Hc as ->. apply list_elem_of_In in Hin.
  pose proof control_tokens_shape as H. rewrite Forall_forall in H. by apply H.
Qed.

(** The token buffer never holds the DCS introducer: completing it enters
    control mode and clears the buffer. A finished token outside control mode
    is not one that arms it. A line starts with an empty token. *)
Record stream_wf (s : TerminalStream) : Prop := {
  wf_clean : starts_with TMUX_DCS (token s) = false;
  wf_start : midline s = false -> token s = [] /\ token_done s = false;
  wf_quiet : token_done s = true -> control s = false -> arms_control_mode (token s) = false
}.

Lemma full_token_never_arms t :
  starts_with TMUX_DCS t = false -> 32 <= zlen t -> arms_control_mode t = false.
Proof.
  intros Hc Ht. unfold arms_control_mode. rewrite (strip_dcs_no_prefix t Hc).
  destruct (is_tmux_control_token t) eqn:E; [|by rewrite andb_false_r].
  apply control_token_shape in E as (_ & _ & E). rewrite (strip_dcs_no_prefix t Hc) in E. lia.
Qed.

Lemma starts_with_snoc pre t b :
  starts_with pre (t ++ [b]) = true -> starts_with pre t = true \/ pre = t ++ [b].
Proof.
  intros [rest Hr]%starts_with_spec. destruct rest as [|x rest _] using rev_ind.
  - right. by rewrite Hr, app_nil_r.
  - left. rewrite app_assoc in Hr. apply app_inj_tail in Hr as [-> _].
    apply starts_with_spec. by exists rest.
Qed.

Lemma observe_byte_wf s b : stream_wf s -> stream_wf (observe_byte s b).
Proof.
  intros [Hc Hst Hq]. unfold observe_byte. destruct (_ && beq b BACKSLASH); [done|].
  destruct (beq b NL); [done|]. cbv zeta.
  destruct (is_ascii_whitespace b); cbn [andb negb].
  - split; cbn; [done|done|]. intros _.
    destruct (token_done s) eqn:Hd; cbn [andb negb]; [by apply Hq|].
    by destruct (arms_control_mode (token s)).
  - destruct (negb (token_done s) && _) eqn:Hp; [|by split].
    destruct (list_eqb (token s ++ [b]) TMUX_DCS) eqn:E; split; cbn; try done.
    + intros _. split; [done|]. by destruct (token_done s).
    + destruct (starts_with TMUX_DCS (token s ++ [b])) eqn:P; [|done].
      apply starts_with_snoc in P as [P|P]; [congruence|].
      rewrite <-P, (proj2 (list_eqb_spec _ _)) in E; done.
    + intros Hd. by rewrite Hd in Hp.
Qed.

(** Indistinguishable states stay so. *)
Lemma observe_byte_same s t b :
  stream_wf s -> stream_wf t -> same_stream s t ->
  same_stream (observe_byte s b) (observe_byte t b).
Proof.
  intros [Hs _ _] _ [H1 H2 H3 H4 H5 H6]. unfold observe_byte.
  rewrite <-H1, <-H3, <-H4, <-H5. destruct (_ && beq b BACKSLASH); [done|].
  destruct (beq b NL); [done|]. cbv zeta.
  destruct H6 as [<-|Hfull]; [reflexivity|].
  rewrite (full_token_never_arms _ Hs Hfull), !andb_false_r.
  rewrite (proj2 (Z.ltb_ge (zlen (token s)) 32)), !andb_false_r by done.
  split; cbn; try done. by right.
Qed.

Lemma observe_ref_wf s l : stream_wf s -> stream_wf (observe_ref s l).
Proof.
  revert s. induction l as [|b l IH]; intros s H; [done|]. by apply IH, observe_byte_wf.
Qed.

Lemma observe_ref_same s t l :
  stream_wf s -> stream_wf t -> same_stream s t ->
  same_stream (observe_ref s l) (observe_ref t l).
Proof.
  revert s t. induction l as [|b l IH]; intros s t Hs Ht H; [done|].
  apply IH; [by apply observe_byte_wf..|by apply observe_byte_same].
Qed.

(** Once the first token is over, nothing matters until the next newline. *)
Definition skipping (s : TerminalStream) : bool :=
  negb (control s) && (token_done s || (32 <=? zlen (token s))).

Definition skipped (s : TerminalStream) (l : list byte) : TerminalStream :=
  {| token := token s; token_done := token_done s; midline := true; control := control s;
     block := block s; escape := bool_decide (last l = Some ESC) |}.

Lemma skipping_byte s b :
  stream_wf s -> skipping s = true -> b <> NL ->
  same_stream (observe_byte s b) (skipped s [b]) /\ skipping (observe_byte s b) = true.
Proof.
  intros [Hc _ Hq] Hsk Hb. unfold skipping in *. apply andb_true_iff in Hsk as [Hcon Hsk].
  apply negb_true_iff in Hcon. unfold observe_byte. rewrite Hcon. cbn [andb].
  destruct (beq_spec b NL) as [|_]; [done|]. cbv zeta.
  assert (is_ascii_whitespace b && negb (token_done s) && arms_control_mode (token s) = false) as ->.
  { destruct (token_done s); [by rewrite andb_false_r|]. cbn in Hsk.
    by rewrite full_token_never_arms, andb_false_r by (done || lia). }
  assert (negb (if is_ascii_whitespace b then true else token_done s) && (zlen (token s) <? 32)
    = false) as ->.
  { destruct (is_ascii_whitespace b), (token_done s); try done. cbn in Hsk |- *. lia. }
  assert (beq b ESC = bool_decide (last [b] = Some ESC)) as He.
  { destruct (beq_spec b ESC) as [->|]; [done|]. symmetry. apply bool_decide_false. cbn. congruence. }
  split; [split; cbn; try done|].
  - destruct (is_ascii_whitespace b), (token_done s); auto. cbn in Hsk. right. lia.
  - cbn. destruct (is_ascii_whitespace b); [done|]. done.
Qed.

Lemma skipping_run s l :
  stream_wf s -> skipping s = true -> NL ∉ l -> l <> [] ->
  same_stream (observe_ref s l) (skipped s l).
Proof.
  revert s. induction l as [|b l IH]; intros s Hwf Hsk Hnl Hne; [done|].
  apply not_elem_of_cons in Hnl as [Hb Hnl].
  destruct (skipping_byte s b Hwf Hsk ltac:(congruence)) as [Hsame Hsk'].
  change (observe_ref s (b :: l)) with (observe_ref (observe_byte s b) l).
  destruct l as [|c l]; [done|].
  etransitivity; [apply IH; [by apply observe_byte_wf|done|done|done]|].
  destruct Hsame as [H1 H2 H3 H4 H5 H6]. split; cbn in *; try done.
Qed.

(** A newline forgets the line: only the token, the mode and the block
    matter. *)
Lemma observe_newline s t :
  token s = token t -> control s = control t -> block s = block t ->
  observe_byte s NL = observe_byte t NL.
Proof.
  intros H1 H2 H3. unfold observe_byte. rewrite H1, H2, H3.
  change (beq NL BACKSLASH) with false. by rewrite !andb_false_r.
Qed.

(** Outside control mode, a line whose token cannot become a control token. *)
Record quiet (s : TerminalStream) : Prop := {
  q_wf : stream_wf s;
  q_control : control s = false;
  q_token : token_done s = true \/ token_may_be_control s = false
}.

Lemma may_be_control_arms s :
  stream_wf s -> token_may_be_control s = false -> arms_control_mode (token s) = false.
Proof.
  intros [Hc _ _] Hm. unfold arms_control_mode. rewrite (strip_dcs_no_prefix _ Hc).
  destruct (is_tmux_control_token (token s)) eqn:E; [|by rewrite andb_false_r].
  apply control_token_shape in E as (E1 & E2 & _). rewrite (strip_dcs_no_prefix _ Hc) in E1, E2.
  unfold token_may_be_control in Hm. rewrite (strip_dcs_no_prefix _ Hc), E1, E2 in Hm.
  destruct (token s); [done|]. rewrite bool_decide_false in Hm by done.
  destruct (starts_with _ TMUX_DCS); [done|]. by rewrite orb_true_r in Hm.
Qed.

Lemma quiet_arms s : quiet s -> arms_control_mode (token s) = false.
Proof.
  intros [Hwf Hcon [Hd|Hm]]; [by apply Hwf|by apply may_be_control_arms].
Qed.

Lemma not_arming_no_block t :
  starts_with TMUX_DCS t = false -> arms_control_mode t = false ->
  list_eqb t (bytes_of "%begin") = false /\ list_eqb t (bytes_of "%end") = false /\
  list_eqb t (bytes_of "%error") = false.
Proof.
  intros Hc Ha.
  assert (forall c, arms_control_mode c = true -> list_eqb t c = false) as H.
  { intros c Hcc. destruct (list_eqb t c) eqn:E; [|done]. apply list_eqb_spec in E. congruence. }
  split_and!; apply H; vm_compute; done.
Qed.

Lemma quiet_newline s :
  quiet s ->
  observe_byte s NL =
    {| token := []; token_done := false; midline := false; control := control s;
       block := block s; escape := false |}.
Proof.
  intros Hq. pose proof (quiet_arms s Hq) as Ha. destruct Hq as [[Hc _ _] Hcon _].
  unfold observe_byte. rewrite Hcon. cbn [andb].
  change (beq NL NL) with true. change (beq NL ESC) with false.
  rewrite (strip_dcs_no_prefix _ Hc), Ha.
  destruct (not_arming_no_block _ Hc Ha) as (-> & -> & ->). done.
Qed.

(** A byte that starts no control token keeps the line quiet. *)
Lemma may_be_control_snoc s b :
  starts_with TMUX_DCS (token s ++ [b]) = false -> stream_wf s ->
  token_may_be_control s = false -> b <> PERCENT -> b <> ESC ->
  forall t, token t = token s ++ [b] -> token_may_be_control t = false.
Proof.
  intros Hc' [Hc _ _] Hm Hp He t Ht. unfold token_may_be_control in *. rewrite Ht.
  rewrite (strip_dcs_no_prefix _ Hc'). rewrite (strip_dcs_no_prefix _ Hc) in Hm.
  rewrite bool_decide_false by (by destruct (token s)).
  destruct (token s) as [|x l]; cbn [app] in *.
  - change TMUX_DCS with (ESC :: bytes_of "P1000p"). cbn [starts_with].
    destruct (beq_spec b ESC); [done|]. cbn [andb].
    change (bytes_of "%") with [PERCENT]. cbn [list_eqb starts_with].
    destruct (beq_spec b PERCENT); [done|]. destruct (beq_spec PERCENT b); [congruence|]. done.
  - rewrite bool_decide_false in Hm by done.
    destruct (starts_with (x :: l) TMUX_DCS) eqn:E1; [done|].
    assert (starts_with (x :: l ++ [b]) TMUX_DCS = false) as ->.
    { destruct (starts_with (x :: l ++ [b]) TMUX_DCS) eqn:E2; [|done].
      apply starts_with_spec in E2 as [rest E2]. rewrite <-E1. symmetry. apply starts_with_spec.
      exists (b :: rest). rewrite E2. cbn. by rewrite <-app_assoc. }
    change (bytes_of "%") with [PERCENT] in *. cbn [list_eqb starts_with] in *.
    destruct l as [|y l]; cbn in *.
    + rewrite andb_true_r in *. destruct (beq_spec x PERCENT) as [->|]; [done|].
      destruct (beq_spec PERCENT x); [congruence|]. by rewrite andb_false_r.
    + rewrite andb_false_r in *. done.
Qed.

Lemma quiet_byte s b :
  quiet s -> b <> PERCENT -> b <> ESC -> quiet (observe_byte s b) /\ block (observe_byte s b) = block s.
Proof.
  intros Hq Hp He. pose proof (quiet_arms s Hq) as Ha. pose proof Hq as [Hwf Hcon Htok].
  destruct (beq_spec b NL) as [->|Hnl].
  { rewrite (quiet_newline s Hq). split; [|done]. split; [done|done|by right]. }
  pose proof (observe_byte_wf s b Hwf) as Hwf'. unfold observe_byte in *. rewrite Hcon in *.
  cbn [andb] in *. destruct (beq_spec b NL) as [|_]; [done|]. cbv zeta in *.
  rewrite Ha, andb_false_r in *. destruct (is_ascii_whitespace b); cbn [andb negb] in *.
  { split; [|done]. split; [done|done|by left]. }
  destruct (token_done s) eqn:Hd; cbn [andb negb] in *.
  { split; [|done]. split; [done|done|by left]. }
  destruct Htok as [Htok|Htok]; [done|].
  destruct (zlen (token s) <? 32).
  - destruct (list_eqb (token s ++ [b]) TMUX_DCS) eqn:E.
    + exfalso. apply list_eqb_spec in E. unfold token_may_be_control in Htok.
      destruct (token s) as [|x l] eqn:Et; [by injection E|].
      rewrite bool_decide_false, (proj2 (starts_with_spec _ _)) in Htok by
        (done || (exists [b]; by rewrite E)). done.
    + split; [|done]. split; [done|done|right].
      eapply may_be_control_snoc; [apply Hwf'|exact Hwf|done..].
  - split; [|done]. split; [done|done|by right].
Qed.

Lemma quiet_run s l :
  quiet s -> PERCENT ∉ l -> ESC ∉ l ->
  quiet (observe_ref s l) /\ block (observe_ref s l) = block s.
Proof.
  revert s. induction l as [|b l IH]; intros s Hq Hp He; [done|].
  apply not_elem_of_cons in Hp as [Hp1 Hp]. apply not_elem_of_cons in He as [He1 He].
  destruct (quiet_byte s b Hq ltac:(congruence) ltac:(congruence)) as [Hq' Hb].
  destruct (IH _ Hq' Hp He) as [H1 H2]. split; [done|]. change (observe_ref s (b :: l)) with (observe_ref (observe_byte s b) l). congruence.
Qed.

Section observe_ok.
Context {search : Memchr} {laws : MemchrLaws search}.

Lemma observe_loop_ok fuel s l :
  (length l <= fuel)%nat -> stream_wf s -> same_stream (observe_loop fuel s l) (observe_ref s l).
Proof.
  revert s l. induction fuel as [|fuel IH]; intros s l Hf Hwf.
  { destruct l; [done|]. cbn in Hf. lia. }
  destruct l as [|b l]; [done|]. cbn [observe_loop]. fold (skipping s).
  destruct (skipping s) eqn:Hsk.
  - pose proof (memchr_spec NL (b :: l)) as Hm. destruct (memchr NL (b :: l)) as [rel|].
    + destruct Hm as [Hrel Hbefore]. pose proof (drop_S _ _ _ Hrel) as Hdrop.
      rewrite Hdrop. set (before := take rel (b :: l)) in *.
      assert (b :: l = before ++ NL :: drop (S rel) (b :: l)) as Hsplit.
      { unfold before. by rewrite <-Hdrop, take_drop. }
      rewrite Hsplit at 2. unfold observe_ref. rewrite fold_left_app. cbn [fold_left].
      fold (observe_ref s before).
      assert (observe_byte (observe_ref s before) NL = observe_byte s NL) as ->.
      { destruct before as [|x before']; [done|].
        destruct (skipping_run s (x :: before') Hwf Hsk Hbefore ltac:(done)) as [H1 _ H3 H4 _ _].
        by apply observe_newline. }
      apply IH; [|by apply observe_byte_wf]. rewrite length_drop. cbn [length] in *. lia.
    + symmetry. by apply skipping_run.
  - cbn [drop]. change (observe_ref s (b :: l)) with (observe_ref (observe_byte s b) l).
    apply IH; [cbn in Hf; lia|by apply observe_byte_wf].
Qed.

(** The optimised [observe] is the byte-by-byte scan, up to a flag that no
    operation can observe. *)
Lemma observe_ok s l : stream_wf s -> same_stream (observe s l) (observe_ref s l).
Proof.
  intros Hwf. unfold observe.
  destruct (negb (control s) && (token_done s || negb (token_may_be_control s)) && _) eqn:Hfast;
    [|by apply observe_loop_ok].
  apply andb_true_iff in Hfast as [[Hcon Htok]%andb_true_iff Hclean].
  apply negb_true_iff in Hcon. apply bool_decide_eq_true in Hclean.
  pose proof (memchr2_spec PERCENT ESC l) as Hm2. rewrite Hclean in Hm2. destruct Hm2 as [Hp He].
  assert (quiet s) as Hq.
  { split; [done|done|]. apply orb_true_iff in Htok as [?|?%negb_true_iff]; auto. }
  pose proof (memrchr_spec NL l) as Hmr. destruct (memrchr NL l) as [last_nl|].
  - destruct Hmr as [Hlast Hafter]. pose proof (drop_S _ _ _ Hlast) as Hdrop.
    assert (l = take last_nl l ++ NL :: drop (S last_nl) l) as Hsplit by (by rewrite <-Hdrop, take_drop).
    rewrite Nat.add_1_r. rewrite Hsplit at 3. unfold observe_ref. rewrite fold_left_app.
    cbn [fold_left]. fold (observe_ref s (take last_nl l)).
    destruct (quiet_run s (take last_nl l) Hq) as [Hq' Hb].
    { intros Hin. apply Hp. rewrite Hsplit. apply elem_of_app. by left. }
    { intros Hin. apply He. rewrite Hsplit. apply elem_of_app. by left. }
    rewrite (quiet_newline _ Hq'), Hb, (q_control _ Hq'), (q_control _ Hq).
    apply observe_loop_ok; [rewrite length_drop; lia|done].
  - destruct (token_done s || (32 <=? zlen (token s))) eqn:Hsk; [|by apply observe_loop_ok].
    destruct (bool_decide_reflect (l = [])) as [->|Hne]; [done|].
    rewrite (skipping_run s l Hwf); [|unfold skipping; by rewrite Hcon|done|done].
    split; cbn; try done; [|by left]. symmetry. apply bool_decide_false. intros Hl.
    by apply last_Some_elem_of in Hl.
Qed.

Lemma observe_wf s l : stream_wf s -> stream_wf (observe s l).
Proof.
  intros Hwf. destruct (observe_ok s l Hwf) as [H1 H2 H3 _ _ H6].
  pose proof (observe_ref_wf s l Hwf) as [Hc Hst Hq]. rewrite <-H1 in Hc.
  split; [done|rewrite H1, H2|rewrite H1, H3].
  - intros Hm. destruct (Hst Hm) as [Ht Hd]. split; [done|].
    destruct H6 as [->|Hfull]; [done|]. by rewrite H1, Ht in Hfull.
  - destruct H6 as [->|Hfull]; [done|].
    intros _ _. rewrite <-H1. by apply full_token_never_arms.
Qed.
End observe_ok.

(** ** What the filter keeps *)

Lemma head_split_by p l :
  head (split_by p l) = Some (unwrap_or [] (head (split_by p l))).
Proof.
  destruct l as [|b l]; [done|]. cbn. destruct (p b); [done|]. by destruct (split_by p l).
Qed.

Definition first_piece (l : list byte) : list byte :=
  unwrap_or [] (head (split_by is_ascii_whitespace l)).

Lemma first_piece_cons b l :
  first_piece (b :: l) = if is_ascii_whitespace b then [] else b :: first_piece l.
Proof.
  unfold first_piece. cbn [split_by]. destruct (is_ascii_whitespace b); [done|].
  by destruct (split_by is_ascii_whitespace l).
Qed.

Lemma first_piece_line l : first_piece (l ++ [NL]) = first_piece l.
Proof.
  induction l as [|b l IH]; [done|]. cbn [app]. by rewrite !first_piece_cons, IH.
Qed.

Lemma first_piece_in b l : b ∈ first_piece l -> b ∈ l.
Proof.
  induction l as [|x l IH]; [done|]. rewrite first_piece_cons.
  destruct (is_ascii_whitespace x); [by intros ?%elem_of_nil|].
  rewrite !elem_of_cons. tauto.
Qed.

Lemma no_dcs l : ESC ∉ l -> starts_with TMUX_DCS l = false.
Proof.
  intros He. destruct (starts_with TMUX_DCS l) eqn:E; [|done].
  apply starts_with_spec in E as [rest ->]. destruct He. apply elem_of_app. left. by left.
Qed.

Lemma line_first_token_eq line : ESC ∉ line -> line_first_token line = first_piece line.
Proof.
  intros He. unfold line_first_token. apply strip_dcs_no_prefix, no_dcs.
  intros Hin. by apply He, first_piece_in.
Qed.

(** In control mode, bytes without an escape neither leave control mode nor
    touch the block before the newline; the token collects the line's first
    word. *)
Lemma control_bytes s l :
  control s = true -> escape s = false -> ESC ∉ token s -> ESC ∉ l -> NL ∉ l ->
  zlen (token s) <= 32 ->
  let s' := observe_ref s l in
  control s' = true /\ block s' = block s /\ escape s' = false /\
  token s' = (if token_done s then token s else take 32 (token s ++ first_piece l)).
Proof.
  revert s. induction l as [|b l IH]; intros s Hc He Ht Hl Hn Hlen; cbv zeta.
  { cbn. split_and!; try done. destruct (token_done s); [done|].
    rewrite app_nil_r, take_ge; [done|]. unfold zlen in Hlen. lia. }
  apply not_elem_of_cons in Hl as [Hb Hl]. apply not_elem_of_cons in Hn as [Hbn Hn].
  change (observe_ref s (b :: l)) with (observe_ref (observe_byte s b) l).
  assert (observe_byte s b =
    {| token := if negb (if is_ascii_whitespace b then true else token_done s)
                   && (zlen (token s) <? 32) then token s ++ [b] else token s;
       token_done := if is_ascii_whitespace b then true else token_done s;
       midline := true; control := true; block := block s; escape := false |}) as E.
  { unfold observe_byte. rewrite He, andb_false_r. cbn [andb].
    destruct (beq_spec b NL) as [|_]; [congruence|]. destruct (beq_spec b ESC) as [|_]; [congruence|].
    cbv zeta. rewrite Hc. destruct (negb _ && (zlen (token s) <? 32)) eqn:P.
    - destruct (list_eqb (token s ++ [b]) TMUX_DCS) eqn:E.
      + apply list_eqb_spec in E. exfalso.
        assert (ESC ∈ token s ++ [b]) as Hin by (rewrite E; by left).
        apply elem_of_app in Hin as [?|?%list_elem_of_singleton]; congruence.
      + by destruct (_ && _ && _).
    - by destruct (_ && _ && _). }
  rewrite E. destruct (IH (observe_byte s b)) as (I1 & I2 & I3 & I4); rewrite ?E; cbn; try done.
  - destruct (negb _ && _); [|done]. rewrite elem_of_app, list_elem_of_singleton.
    intros [?|?]; [done|congruence].
  - destruct (negb _ && (zlen (token s) <? 32)) eqn:P; [|done].
    apply andb_true_iff in P as [_ P]. len_lia.
  - rewrite E in I1, I2, I3, I4. cbn in I1, I2, I3, I4. split_and!; try done. rewrite I4.
    rewrite first_piece_cons. destruct (is_ascii_whitespace b); cbn [negb andb].
    + destruct (token_done s); [done|]. rewrite app_nil_r, take_ge; [done|].
      unfold zlen in Hlen. lia.
    + destruct (token_done s); [done|]. cbn [negb andb].
      destruct (Z.ltb_spec (zlen (token s)) 32); [by rewrite <-app_assoc|].
      unfold zlen in *. rewrite !take_app_le by lia. done.
Qed.

(** A line of control mode that the filter drops leaves the stream where it
    was. *)
Lemma dropped_line s body :
  stream_wf s -> control s = true -> escape s = false -> keep_line s (body ++ [NL]) = false ->
  ESC ∉ body -> NL ∉ body ->
  same_stream (observe_ref s (body ++ [NL])) s.
Proof.
  intros Hwf Hc He Hk Hesc Hnl. unfold keep_line in Hk. rewrite Hc in Hk. cbn [andb] in Hk.
  apply orb_false_iff in Hk as [[[[Hb Hm]%orb_false_iff Hct]%orb_false_iff _]%orb_false_iff _].
  destruct (wf_start _ Hwf Hm) as [Ht Hd].
  assert (ESC ∉ body ++ [NL]) as Hesc'.
  { rewrite elem_of_app, list_elem_of_singleton. by intros [?|?]. }
  rewrite (line_first_token_eq _ Hesc'), first_piece_line in Hct.
  destruct (control_bytes s body) as (C1 & C2 & C3 & C4); try done.
  { rewrite Ht. apply not_elem_of_nil. } { by rewrite Ht. }
  rewrite Hd, Ht in C4. cbn [app] in C4.
  unfold observe_ref in *. rewrite fold_left_app. cbn [fold_left].
  set (t := fold_left observe_byte body s) in *.
  assert (ESC ∉ first_piece body) as Hfp by (intros Hin; by apply Hesc, first_piece_in).
  assert (starts_with TMUX_DCS (token t) = false) as Hclean.
  { rewrite C4. apply no_dcs. intros Hin. apply Hfp.
    rewrite <-(take_drop 32 (first_piece body)). apply elem_of_app. by left. }
  assert (forall c, is_tmux_control_token c = true -> starts_with TMUX_DCS c = false ->
    is_pane c = false -> zlen c < 32 -> list_eqb (token t) c = false) as Hne.
  { intros c H1 H2 H3 H4. destruct (list_eqb (token t) c) eqn:E; [|done].
    apply list_eqb_spec in E. rewrite C4 in E.
    assert (first_piece body = c) as Hfc.
    { rewrite <-E. symmetry. apply take_ge. apply (f_equal length) in E. unfold zlen in H4.
      rewrite length_take in E. lia. }
    by rewrite Hfc, H1, H3 in Hct. }
  unfold observe_byte. rewrite C1, C3, !andb_false_r. cbn [andb].
  change (beq NL NL) with true. change (beq NL ESC) with false. cbv zeta.
  rewrite (strip_dcs_no_prefix _ Hclean).
  rewrite !Hne by (vm_compute; done). split; cbn; try done.
  - by destruct (arms_control_mode (token t)).
  - by left.
Qed.

Section filter_ok.
Context {search : Memchr} {laws : MemchrLaws search}.

(** The bytes a pass over lines keeps, and those it drops. *)
Fixpoint kept_of (s : TerminalStream) (lines : list (list byte)) : list byte :=
  match lines with
  | [] => []
  | line :: lines => (if keep_line s line then line else []) ++ kept_of (observe s line) lines
  end.

Fixpoint dropped_of (s : TerminalStream) (lines : list (list byte)) : list byte :=
  match lines with
  | [] => []
  | line :: lines => (if keep_line s line then [] else line) ++ dropped_of (observe s line) lines
  end.

Lemma partition_lines_eq retain s kept droppable skip lines :
  fst (partition_lines retain s kept droppable skip lines) =
    (kept ++ kept_of s lines, droppable ++ (if retain then dropped_of s lines else [])).
Proof.
  revert s kept droppable skip. induction lines as [|line lines IH]; intros s kept droppable skip.
  { cbn. destruct retain; by rewrite !app_nil_r. }
  cbn [partition_lines kept_of dropped_of]. destruct (keep_line s line); rewrite IH; cbn [app].
  - by rewrite app_assoc.
  - destruct retain; [|done]. by rewrite app_assoc.
Qed.

Lemma kept_dropped_perm s lines :
  kept_of s lines ++ dropped_of s lines ≡ₚ concat lines.
Proof.
  revert s. induction lines as [|line lines IH]; intros s; [done|].
  cbn [kept_of dropped_of concat]. rewrite <-(IH (observe s line)).
  destruct (keep_line s line); cbn [app]; [by rewrite app_assoc|].
  rewrite Permutation_app_swap_app. done.
Qed.

Lemma kept_sublist s lines : kept_of s lines `sublist_of` concat lines.
Proof.
  revert s. induction lines as [|line lines IH]; intros s; [done|].
  cbn [kept_of concat]. apply sublist_app; [|done].
  destruct (keep_line s line); [done|apply sublist_nil_l].
Qed.

(** The first loop of [partition] splits the input and keeps the front. *)
Lemma position_some p l i : position p l = Some i -> (i < length l)%nat.
Proof.
  revert i. induction l as [|b l IH]; intros i; [done|]. cbn.
  destruct (p b); [intros [= <-]; lia|]. destruct (position p l); [|done].
  intros [= <-]. specialize (IH _ eq_refl). lia.
Qed.

Lemma finish_line_spec fuel s acc l s' acc' rest :
  stream_wf s -> finish_line fuel s acc l = (s', acc', rest) ->
  exists front, l = front ++ rest /\ acc' = acc ++ front /\ stream_wf s' /\
    same_stream s' (observe_ref s front).
Proof.
  assert (forall s acc l, stream_wf s -> exists front, l = front ++ l /\ acc = acc ++ front /\
    stream_wf s /\ same_stream s (observe_ref s front)) as Hstop.
  { intros. exists []. by rewrite app_nil_r. }
  revert s acc l. induction fuel as [|fuel IH]; intros s acc l Hwf; cbn [finish_line].
  { intros [= <- <- <-]. by apply Hstop. }
  destruct l as [|b l]; [intros [= <- <- <-]; by apply Hstop|].
  destruct (beq b PERCENT || beq b NL);
    [intros [= <- <- <-]; by apply Hstop|].
  destruct (position (beq NL) (b :: l)) as [i|].
  - intros H. apply IH in H as (front & Hl & -> & Hwf' & Hs); [|by apply observe_wf].
    exists (take (i + 1) (b :: l) ++ front). rewrite <-!app_assoc, <-Hl, take_drop.
    split_and!; [done..|]. unfold observe_ref. rewrite fold_left_app. etransitivity; [exact Hs|].
    apply observe_ref_same; [by apply observe_wf|by apply observe_ref_wf|by apply observe_ok].
  - intros [= <- <- <-]. exists (b :: l). rewrite app_nil_r.
    split_and!; [done..|by apply observe_wf|by apply observe_ok].
Qed.

Lemma partition_spec s bytes retain :
  stream_wf s ->
  exists front rest s', bytes = front ++ rest /\ stream_wf s' /\
    same_stream s' (observe_ref s front) /\
    kept (partition s bytes retain) = front ++ kept_of s' (split_inclusive NL rest) /\
    droppable (partition s bytes retain) =
      (if retain then dropped_of s' (split_inclusive NL rest) else []) /\
    dropped (partition s bytes retain) = zlen bytes - zlen (kept (partition s bytes retain)).
Proof.
  intros Hwf. unfold partition.
  set (start := match bytes with [] => _ | _ :: _ => _ end).
  assert (exists front rest s', start = (s', front, rest) /\ bytes = front ++ rest /\
    stream_wf s' /\ same_stream s' (observe_ref s front)) as (front & rest & s' & -> & Hb & Hw & Hs).
  { unfold start. destruct bytes as [|b l]; [by exists [], [], s|].
    destruct (_ && negb (beq b NL)); [|by exists [], (b :: l), s].
    destruct (finish_line _ s [] (b :: l)) as [[s' acc] rest] eqn:E.
    apply finish_line_spec in E as (front & Hl & -> & Hw & Hs); [|done].
    by exists front, rest, s'. }
  exists front, rest, s'. split_and!; [done..| | |].
  all: pose proof (partition_lines_eq retain s' front [] false (split_inclusive NL rest)) as E.
  all: destruct (partition_lines retain s' front [] false (split_inclusive NL rest)) as [[k d] sk].
  all: cbn in E |- *; injection E as -> ->; done.
Qed.

(** Filtering only drops whole bytes in place: what is kept is a subsequence of
    the unsent output in its order, and the reported count is exactly what was
    dropped. *)
Theorem filter_conserves s bytes :
  stream_wf s ->
  kept (stream_filter s bytes) `sublist_of` bytes /\
  zlen (kept (stream_filter s bytes)) + dropped (stream_filter s bytes) = zlen bytes /\
  0 <= dropped (stream_filter s bytes).
Proof.
  intros Hwf. unfold stream_filter.
  destruct (partition_spec s bytes false Hwf) as (front & rest & s' & Hb & _ & _ & Hk & _ & Hd).
  assert (kept (partition s bytes false) `sublist_of` bytes) as Hsub.
  { rewrite Hk, Hb. apply sublist_app; [done|].
    rewrite <-(concat_split_inclusive NL rest) at 2. apply kept_sublist. }
  apply sublist_length in Hsub as Hlen. split_and!; [done|lia|]. unfold zlen in *. lia.
Qed.

(** Promoting control responses loses and invents nothing: the new order is a
    permutation of the queued bytes whose incomplete tail stays last. *)
Theorem promote_permutes s bytes out :
  stream_wf s -> promote_control s bytes = Some out ->
  out ≡ₚ bytes /\ exists front tail, out = front ++ tail /\ tail `suffix_of` bytes /\
    tail = drop (complete_prefix s 0 0 (split_inclusive NL bytes)) bytes.
Proof.
  intros Hwf. unfold promote_control. destruct (negb (control s) && _); [done|]. cbv zeta.
  set (n := complete_prefix s 0 0 (split_inclusive NL bytes)).
  destruct (_ || _); [done|]. intros [= <-]. split.
  - destruct (partition_spec s (take n bytes) true Hwf) as (front & rest & s' & Hb & _ & _ & -> & -> & _).
    rewrite <-(app_assoc front), kept_dropped_perm, concat_split_inclusive, <-Hb. by rewrite take_drop.
  - do 2 eexists. split_and!; [done| |done]. exists (take n bytes). by rewrite take_drop.
Qed.

(** Control mode without escapes. *)
Record plain (s : TerminalStream) : Prop := {
  p_wf : stream_wf s;
  p_control : control s = true;
  p_escape : escape s = false;
  p_token : ESC ∉ token s;
  p_len : zlen (token s) <= 32
}.

Lemma plain_byte s b : plain s -> b <> ESC -> plain (observe_byte s b).
Proof.
  intros [Hwf Hc He Ht Hl] Hb. destruct (beq_spec b NL) as [->|Hn].
  - split; [by apply observe_byte_wf|..]; unfold observe_byte; rewrite He, andb_false_r;
      change (beq NL NL) with true; cbn; rewrite ?Hc; try done; [|apply not_elem_of_nil].
    by destruct (arms_control_mode _).
  - destruct (control_bytes s [b]) as (C1 & C2 & C3 & C4); try done.
    { rewrite list_elem_of_singleton. congruence. } { rewrite list_elem_of_singleton. congruence. }
    change (observe_ref s [b]) with (observe_byte s b) in *.
    split; [by apply observe_byte_wf|done|done|..]; rewrite C4; destruct (token_done s); try done.
    + intros Hin. assert (ESC ∈ token s ++ first_piece [b]) as Hin'.
      { rewrite <-(take_drop 32). apply elem_of_app. by left. }
      apply elem_of_app in Hin' as [?|Hx%first_piece_in%list_elem_of_singleton]; [done|congruence].
    + unfold zlen. rewrite length_take. lia.
Qed.

Lemma plain_run s l : plain s -> ESC ∉ l -> plain (observe_ref s l).
Proof.
  revert s. induction l as [|b l IH]; intros s Hs Hl; [done|].
  apply not_elem_of_cons in Hl as [Hb Hl]. by apply IH, Hl; apply plain_byte.
Qed.

Lemma plain_same s t : plain s -> stream_wf t -> same_stream s t -> plain t.
Proof. intros [Hwf Hc He Ht Hl] Hwf' [H1 H2 H3 H4 H5 H6]. split; congruence. Qed.

(** Lines, the last of which may be incomplete. *)
Definition pieces (lines : list (list byte)) : Prop :=
  Forall (is_line NL) lines \/ exists init rest, lines = init ++ [rest] /\
     Forall (is_line NL) init /\ rest <> [] /\ NL ∉ rest.

Lemma pieces_cons line lines :
  pieces (line :: lines) -> is_line NL line /\ pieces lines \/ lines = [] /\ NL ∉ line.
Proof.
  intros [H|(init & rest & Hl & Hi & Hr & Hn)].
  - apply Forall_cons_iff in H as [H1 H2]. left. split; [done|by left].
  - destruct init as [|x init]; injection Hl as -> ->; [by right|left].
    apply Forall_cons_iff in Hi as [H1 H2]. split; [done|right]. by exists init, rest.
Qed.

(** What the filter keeps leaves the client where the whole output would. *)
Lemma kept_lines_sync lines s t :
  plain s -> stream_wf t -> same_stream s t -> pieces lines -> ESC ∉ concat lines ->
  control (observe_ref t (kept_of s lines)) = true /\
  block (observe_ref t (kept_of s lines)) = block (observe_ref s (concat lines)).
Proof.
  revert s t. induction lines as [|line lines IH]; intros s t Hs Ht Hst Hp He.
  { cbn. destruct Hst as [_ _ H3 H4 _ _]. rewrite <-H3, <-H4. split; [apply Hs|done]. }
  cbn [concat] in He. rewrite elem_of_app in He. apply Decidable.not_or in He as [He1 He2].
  pose proof (p_wf _ Hs) as Hwf. pose proof (observe_ok s line Hwf) as Hobs.
  pose proof (observe_wf s line Hwf) as Hwf1. pose proof (observe_ref_wf s line Hwf) as Hwf2.
  assert (plain (observe s line)) as Hs1.
  { apply (plain_same (observe_ref s line)); [by apply plain_run|done|by symmetry]. }
  assert (block (observe_ref s (concat (line :: lines))) =
    block (observe_ref (observe s line) (concat lines))) as ->.
  { cbn [concat]. unfold observe_ref. rewrite fold_left_app. symmetry.
    apply same_block, observe_ref_same; [done|done|by rewrite Hobs]. }
  cbn [kept_of]. destruct (keep_line s line) eqn:Hk; cbn [app].
  - unfold observe_ref at 1 2. rewrite fold_left_app. fold (observe_ref t line).
    apply IH; [done|by apply observe_ref_wf| |by destruct (pieces_cons _ _ Hp) as [[_ ?]|[-> _]];
      [|left]|done].
    rewrite Hobs. by apply observe_ref_same.
  - destruct (pieces_cons _ _ Hp) as [[(body & -> & Hb) Hp']|[-> Hn]].
    + apply IH; [done..| |done|done]. rewrite Hobs, <-Hst. apply dropped_line; try done; [apply Hs..|].
      intros Hin. apply He1, elem_of_app. by left.
    + cbn [kept_of concat]. destruct Hst as [_ _ H3 H4 _ _]. destruct Hs as [_ Hc Hesc Htok Hlen].
      destruct (control_bytes s line) as (C1 & C2 & _ & _); try done.
      change (observe_ref t []) with t. change (observe_ref (observe s line) []) with (observe s line).
      rewrite (same_block _ _ Hobs). split; congruence.
Qed.

(** Interrupting a tmux control-mode stream does not derail it: after the kept
    bytes the client is still in control mode, and inside a response block
    exactly if it would be after the whole output. (tmux escapes control bytes
    in notifications, so unsent output in control mode has no ESC before the
    final terminator.) *)
Theorem filter_keeps_control_mode s bytes :
  stream_wf s -> control s = true -> escape s = false -> ESC ∉ token s -> zlen (token s) <= 32 ->
  ESC ∉ bytes ->
  let after := observe s (kept (stream_filter s bytes)) in
  control after = true /\ block after = block (observe s bytes).
Proof.
  intros Hwf Hc He Ht Hl Hesc after.
  destruct (partition_spec s bytes false Hwf) as (front & rest & s' & Hb & Hwf' & Hs' & Hk & _ & _).
  subst after. unfold stream_filter. rewrite Hk. set (k := kept_of s' (split_inclusive NL rest)).
  rewrite Hb, elem_of_app in Hesc. apply Decidable.not_or in Hesc as [He1 He2].
  assert (plain s) as Hps by by split.
  assert (plain s') as Hps'.
  { apply (plain_same (observe_ref s front)); [by apply plain_run|done|by symmetry]. }
  destruct (kept_lines_sync (split_inclusive NL rest) s' (observe_ref s front)) as [K1 K2]; try done.
  { by apply observe_ref_wf. } { apply split_inclusive_pieces. }
  { by rewrite concat_split_inclusive. }
  rewrite concat_split_inclusive in K2.
  rewrite (same_control _ _ (observe_ok s (front ++ k) Hwf)),
    (same_block _ _ (observe_ok s (front ++ k) Hwf)), (same_block _ _ (observe_ok s bytes Hwf)), Hb.
  unfold observe_ref in *. rewrite !fold_left_app. split; [done|]. fold k in K2. rewrite K2.
  apply same_block, observe_ref_same; [done|by apply observe_ref_wf|done].
Qed.

(** The scanner may be fed in any pieces: observing the packets one by one is
    observing their concatenation, and both are the byte-by-byte scan. *)
Theorem observe_chunks s chunks :
  stream_wf s ->
  same_stream (fold_left observe chunks s) (observe s (concat chunks)) /\
  same_stream (observe s (concat chunks)) (fold_left observe_byte (concat chunks) s) /\
  stream_wf (fold_left observe chunks s).
Proof.
  intros Hwf. split_and!; [|by apply observe_ok|].
  - rewrite (observe_ok s (concat chunks) Hwf). revert s Hwf.
    induction chunks as [|c chunks IH]; intros s Hwf; [done|]. cbn [fold_left concat].
    rewrite (IH _ (observe_wf s c Hwf)). unfold observe_ref at 2. rewrite fold_left_app.
    apply observe_ref_same; [by apply observe_wf|by apply observe_ref_wf|by apply observe_ok].
  - revert s Hwf. induction chunks as [|c chunks IH]; intros s Hwf; [done|].
    by apply IH, observe_wf.
Qed.
End filter_ok.

(** ** A search implementation

    Straightforward versions of the searches satisfy the laws. *)

Lemma position_spec p l :
  match position p l with
  | Some i => exists b, l !! i = Some b /\ p b = true /\ Forall (fun x => p x = false) (take i l)
  | None => Forall (fun x => p x = false) l
  end.
Proof.
  induction l as [|b l IH]; cbn [position]; [constructor|].
  destruct (p b) eqn:E; [by exists b|].
  destruct (position p l) as [i|]; cbn.
  - destruct IH as (x & H1 & H2 & H3). exists x. split_and!; [done|done|by constructor].
  - by constructor.
Qed.

Lemma not_beq_forall b l : Forall (fun x => beq b x = false) l -> b ∉ l.
Proof.
  intros H Hin. rewrite Forall_forall in H. specialize (H b Hin). by rewrite beq_refl in H.
Qed.

Definition simple_memchr (b : byte) (l : list byte) : option nat := position (beq b) l.

Fixpoint simple_memrchr (b : byte) (l : list byte) : option nat :=
  match l with
  | [] => None
  | x :: l =>
      match simple_memrchr b l with
      | Some i => Some (S i)
      | None => if beq b x then Some O else None
      end
  end.

#[local] Instance simple_search : Memchr := {|
  memchr := simple_memchr;
  memrchr := simple_memrchr;
  memchr2 a b l := position (fun x => beq a x || beq b x) l;
  memchr2_iter a b l :=
    filter (fun i => l !! i = Some a \/ l !! i = Some b) (seq 0 (length l))
|}.

#[local] Instance simple_search_laws : MemchrLaws simple_search.
Proof.
  split; cbn.
  - intros b l. unfold simple_memchr. pose proof (position_spec (beq b) l) as H.
    destruct (position (beq b) l) as [i|]; [|by apply not_beq_forall].
    destruct H as (x & H1 & H2 & H3). destruct (beq_spec b x) as [->|]; [|done].
    split; [done|by apply not_beq_forall].
  - intros b l. induction l as [|x l IH]; cbn [simple_memrchr]; [apply not_elem_of_nil|].
    destruct (simple_memrchr b l) as [i|]; [done|].
    destruct (beq_spec b x) as [->|Hx]; [done|]. by apply not_elem_of_cons.
  - intros a b l. pose proof (position_spec (fun x => beq a x || beq b x) l) as H.
    destruct (position _ l) as [i|].
    + destruct H as (x & H1 & H2 & _). apply orb_true_iff in H2 as [H2|H2].
      * destruct (beq_spec a x) as [->|]; [by left|done].
      * destruct (beq_spec b x) as [->|]; [by right|done].
    + split; apply not_beq_forall; (eapply Forall_impl; [exact H|]); cbn;
        intros x Hx; by apply orb_false_iff in Hx as [? ?].
  - intros a b l i. rewrite list_elem_of_filter, elem_of_seq. split; [tauto|].
    intros H. split; [done|].
    destruct H as [H|H]; apply lookup_lt_Some in H; lia.
Qed.

(** ** Witnesses *)

(** A stream inside tmux control mode, at a line start. *)
Definition demo_stream : TerminalStream :=
  observe (search := simple_search) stream_default (TMUX_DCS ++ bytes_of "%begin 1 2 3" ++ [NL]).

Lemma demo_stream_wf : stream_wf demo_stream.
Proof. split; vm_compute; done. Qed.

Lemma filter_conserves_witness :
  zlen (kept (stream_filter (search := simple_search) demo_stream (bytes_of "junk" ++ [NL]))) +
  dropped (stream_filter (search := simple_search) demo_stream (bytes_of "junk" ++ [NL])) = 5.
Proof.
  apply (filter_conserves (laws := simple_search_laws) demo_stream (bytes_of "junk" ++ [NL])), demo_stream_wf.
Defined.

Lemma promote_permutes_witness :
  match promote_control (search := simple_search) demo_stream (bytes_of "%output %1 a" ++ [NL]) with
  | Some out => out ≡ₚ bytes_of "%output %1 a" ++ [NL]
  | None => True
  end.
Proof.
  destruct (promote_control (search := simple_search) demo_stream (bytes_of "%output %1 a" ++ [NL]))
    as [out|] eqn:E; [|exact I].
  exact (proj1 (promote_permutes (laws := simple_search_laws) demo_stream _ out demo_stream_wf E)).
Defined.

Lemma filter_keeps_control_mode_witness :
  control (observe (search := simple_search) demo_stream
    (kept (stream_filter (search := simple_search) demo_stream (bytes_of "junk" ++ [NL])))) = true.
Proof.
  apply (filter_keeps_control_mode (laws := simple_search_laws) demo_stream (bytes_of "junk" ++ [NL]));
    [apply demo_stream_wf|reflexivity|reflexivity| |vm_compute; congruence|];
    apply (bool_decide_unpack _); vm_compute; exact I.
Defined.

Lemma observe_chunks_witness :
  same_stream (fold_left (observe (search := simple_search)) [[x61]; [NL]] demo_stream)
    (observe (search := simple_search) demo_stream [x61; NL]).
Proof.
  exact (proj1 (observe_chunks (laws := simple_search_laws) demo_stream [[x61]; [NL]] demo_stream_wf)).
Defined.
