(* ===== verification/FlowControl.v ===== *)
(** * FlowControl: [crates/et-core/src/flow_control.rs]

    The bounded output queue of a session: a terminal lane whose output may be
    merged, evicted, dropped on an interrupt or reordered for a tmux control
    client, and an independent control lane. The generated protobuf codec of
    [TerminalBuffer] is a parameter (class [TerminalBufferCodec]). *)

From S2P Require Import Prelude Bytes Packet OutputInterrupt.

Definition FRAME_BYTES : Z := 4.
Definition MAX_PACKETS_PER_LANE : Z := 4096.
Definition COALESCED_TERMINAL_BYTES : Z := 16 * 1024.

(** The protobuf message, as [prost] generates it. *)
Record TerminalBuffer := mkTB { buffer : option (list byte); is_stderr : option bool }.

Class TerminalBufferCodec := {
  tb_decode : list byte -> option TerminalBuffer;
  tb_encode : TerminalBuffer -> list byte
}.

(** Messages within protobuf's 2 GiB limit. *)
Definition small (b : list byte) : Prop := zlen b < 2 ^ 31.
Definition tb_small (m : TerminalBuffer) : Prop :=
  match buffer m with Some b => small b | None => True end.

(** What the code relies on: protobuf's encoding of the two optional fields. *)
Class TerminalBufferLaws (codec : TerminalBufferCodec) := {
  tb_decode_encode m : tb_small m -> tb_decode (tb_encode m) = Some m;
  tb_encode_bytes b e : small b ->
    tb_encode (mkTB (Some b) e) =
      [z2b 0x0a] ++ encode_varint (zlen b) ++ b ++
      match e with Some v => [z2b 0x10; z2b (if v then 1 else 0)] | None => [] end;
  (** The hand-written decoder accepts only encodings the generated one reads
      the same way. *)
  tb_decode_agrees p b e : decode_terminal_buffer p = Some (b, e) ->
    exists m, tb_decode p = Some m /\ buffer m = Some b /\ unwrap_or false (is_stderr m) = e
}.

Inductive FlowControlMode := Backpressure | Discard.

#[export] Instance FlowControlMode_eq_dec : EqDecision FlowControlMode.
Proof. solve_decision. Defined.

Inductive QueuePushError := Full (p : Packet) | Oversized (p : Packet).

Inductive OutputLane := LaneTerminal | LaneControl.

Record OutputQueue := mkQueue {
  mode : FlowControlMode;
  limit : Z;
  terminal_bytes : Z;
  control_bytes : Z;
  terminal_packets : Z;
  control_packets : Z;
  terminal : list Packet;
  control : list Packet;
  prefer_terminal : bool;
  stream : TerminalStream;
  before_take : option TerminalStream;
  skip_until_newline : bool;
  promotion_pending : bool
}.

(** Field updates ([set_limit] is also the source's). *)
Definition set_terminal (q : OutputQueue) (new_terminal : list Packet) (new_terminal_bytes : Z)
    (new_terminal_packets : Z) : OutputQueue :=
  {| mode := mode q; limit := limit q; terminal_bytes := new_terminal_bytes; control_bytes :=
     control_bytes q; terminal_packets := new_terminal_packets; control_packets :=
     control_packets q; terminal := new_terminal; control := control q; prefer_terminal :=
     prefer_terminal q; stream := stream q; before_take := before_take q; skip_until_newline :=
     skip_until_newline q; promotion_pending := promotion_pending q |}.

Definition set_control (q : OutputQueue) (new_control : list Packet) (new_control_bytes : Z)
    (new_control_packets : Z) : OutputQueue :=
  {| mode := mode q; limit := limit q; terminal_bytes := terminal_bytes q; control_bytes :=
     new_control_bytes; terminal_packets := terminal_packets q; control_packets :=
     new_control_packets; terminal := terminal q; control := new_control; prefer_terminal :=
     prefer_terminal q; stream := stream q; before_take := before_take q; skip_until_newline :=
     skip_until_newline q; promotion_pending := promotion_pending q |}.

Definition set_prefer (q : OutputQueue) (new_prefer_terminal : bool) : OutputQueue :=
  {| mode := mode q; limit := limit q; terminal_bytes := terminal_bytes q; control_bytes :=
     control_bytes q; terminal_packets := terminal_packets q; control_packets := control_packets
     q; terminal := terminal q; control := control q; prefer_terminal := new_prefer_terminal;
     stream := stream q; before_take := before_take q; skip_until_newline := skip_until_newline
     q; promotion_pending := promotion_pending q |}.

Definition set_stream (q : OutputQueue) (new_stream : TerminalStream) (new_before_take : option
    TerminalStream) : OutputQueue :=
  {| mode := mode q; limit := limit q; terminal_bytes := terminal_bytes q; control_bytes :=
     control_bytes q; terminal_packets := terminal_packets q; control_packets := control_packets
     q; terminal := terminal q; control := control q; prefer_terminal := prefer_terminal q;
     stream := new_stream; before_take := new_before_take; skip_until_newline :=
     skip_until_newline q; promotion_pending := promotion_pending q |}.

Definition set_skip (q : OutputQueue) (new_skip_until_newline : bool) : OutputQueue :=
  {| mode := mode q; limit := limit q; terminal_bytes := terminal_bytes q; control_bytes :=
     control_bytes q; terminal_packets := terminal_packets q; control_packets := control_packets
     q; terminal := terminal q; control := control q; prefer_terminal := prefer_terminal q;
     stream := stream q; before_take := before_take q; skip_until_newline :=
     new_skip_until_newline; promotion_pending := promotion_pending q |}.

Definition set_promotion (q : OutputQueue) (new_promotion_pending : bool) : OutputQueue :=
  {| mode := mode q; limit := limit q; terminal_bytes := terminal_bytes q; control_bytes :=
     control_bytes q; terminal_packets := terminal_packets q; control_packets := control_packets
     q; terminal := terminal q; control := control q; prefer_terminal := prefer_terminal q;
     stream := stream q; before_take := before_take q; skip_until_newline := skip_until_newline
     q; promotion_pending := new_promotion_pending |}.

Definition set_limit (q : OutputQueue) (new_limit : Z) : OutputQueue :=
  {| mode := mode q; limit := new_limit; terminal_bytes := terminal_bytes q; control_bytes :=
     control_bytes q; terminal_packets := terminal_packets q; control_packets := control_packets
     q; terminal := terminal q; control := control q; prefer_terminal := prefer_terminal q;
     stream := stream q; before_take := before_take q; skip_until_newline := skip_until_newline
     q; promotion_pending := promotion_pending q |}.

Definition new (m : FlowControlMode) (lim : Z) : OutputQueue :=
  {| mode := m; limit := lim; terminal_bytes := 0; control_bytes := 0; terminal_packets := 0;
     control_packets := 0; terminal := []; control := []; prefer_terminal := true;
     stream := stream_default; before_take := None; skip_until_newline := false;
     promotion_pending := false |}.

Definition is_terminal_output (p : Packet) : bool := beq (header p) TERMINAL_BUFFER.

Definition packet_cost (p : Packet) : Z := sat_add usize_max (wire_len p) FRAME_BYTES.

Section queue.
Context {codec : TerminalBufferCodec} {search : Memchr}.

(** The binary search of [truncate_terminal]: [high] halves its distance to
    [low] in each of at most [high - low] rounds. *)
Fixpoint truncate_search (fuel : nat) (bytes : list byte) (e : option bool) (lim low high : Z) : Z :=
  match fuel with
  | O => low
  | S fuel =>
      if low <? high then
        let middle := low + (high - low + 1) / 2 in
        let encoded := tb_encode (mkTB (Some (zdrop (zlen bytes - middle) bytes)) e) in
        if sat_add usize_max (zlen encoded) (HEADER_LEN + FRAME_BYTES) <=? lim
        then truncate_search fuel bytes e lim middle high
        else truncate_search fuel bytes e lim low (middle - 1)
      else low
  end.

Definition truncate_terminal (packet : Packet) (lim : Z) : result Packet Packet :=
  match tb_decode (payload packet) with
  | None => Err packet
  | Some m =>
      match buffer m with
      | None => Err packet
      | Some bytes =>
          let low := truncate_search (length bytes) bytes (is_stderr m) lim 0 (zlen bytes) in
          Ok (Packet.new (header packet)
                (tb_encode (mkTB (Some (zdrop (zlen bytes - low) bytes)) (is_stderr m))))
      end
  end.

Definition skip_through_newline (q : OutputQueue) (packet : Packet)
  : OutputQueue * option Packet :=
  if negb (skip_until_newline q) then (q, Some packet)
  else
    match tb_decode (payload packet) with
    | None => (q, Some packet)
    | Some m =>
        match buffer m with
        | None => (q, Some packet)
        | Some bytes =>
            match position (beq NL) bytes with
            | None => (q, None)
            | Some newline =>
                let q := set_skip q false in
                let bytes := drop (newline + 1) bytes in
                match bytes with
                | [] => (q, None)
                | _ => (q, Some (Packet.new (header packet)
                                   (tb_encode (mkTB (Some bytes) (is_stderr m)))))
                end
            end
        end
    end.

(** Whether the bytes a terminal packet carries may hold tmux control
    traffic. *)
Definition packet_may_contain_control (q : OutputQueue) (packet : Packet) : bool :=
  match decode_terminal_buffer (payload packet) with
  | Some (bytes, _) => may_contain_control (stream q) bytes
  | None =>
      match tb_decode (payload packet) with
      | Some m => may_contain_control (stream q) (unwrap_or [] (buffer m))
      | None => true
      end
  end.

(** [self.terminal.back_mut()]: the packets before the last one and the last. *)
Definition split_back (l : list Packet) : option (list Packet * Packet) :=
  match rev l with
  | [] => None
  | back :: front => Some (rev front, back)
  end.

Definition push_back_terminal (q : OutputQueue) (packet : Packet) : OutputQueue :=
  set_terminal q (terminal q ++ [packet]) (terminal_bytes q + packet_cost packet)
    (terminal_packets q + 1).

Definition append_terminal (q : OutputQueue) (packet : Packet) : OutputQueue :=
  let q := if packet_may_contain_control q packet then set_promotion q true else q in
  match split_back (terminal q), decode_terminal_buffer (payload packet) with
  | Some (front, back), Some (bytes, e) =>
      match append_terminal_buffer back bytes e COALESCED_TERMINAL_BYTES with
      | (merged, true) =>
          set_terminal q (front ++ [merged])
            (terminal_bytes q - packet_cost back + packet_cost merged) (terminal_packets q)
      | (_, false) => push_back_terminal q packet
      end
  | _, _ => push_back_terminal q packet
  end.

(** The eviction loop of [push_terminal] on the lane's packets. *)
Fixpoint evict (lim wanted : Z) (lane : list Packet) (bytes packets : Z)
  : (list Packet * Z * Z) * bool :=
  if (lim <? sat_add usize_max bytes wanted) || (MAX_PACKETS_PER_LANE <=? packets) then
    match lane with
    | [] => (([], bytes, packets), false)
    | removed :: lane => evict lim wanted lane (bytes - packet_cost removed) (packets - 1)
    end
  else ((lane, bytes, packets), true).

Definition push_terminal (q : OutputQueue) (packet : Packet)
  : OutputQueue * result QueuePushError unit :=
  match skip_through_newline q packet with
  | (q, None) => (q, Ok tt)
  | (q, Some packet) =>
      let fitted :=
        if limit q <? packet_cost packet then
          if decide (mode q = Backpressure) then Err (Oversized packet)
          else map_err Oversized (truncate_terminal packet (limit q))
        else Ok packet in
      match fitted with
      | Err e => (q, Err e)
      | Ok packet =>
          let wanted := packet_cost packet in
          if bool_decide (mode q = Backpressure)
             && ((limit q <? sat_add usize_max (terminal_bytes q) wanted)
                 || (MAX_PACKETS_PER_LANE <=? terminal_packets q))
          then (q, Err (Full packet))
          else
            match evict (limit q) wanted (terminal q) (terminal_bytes q) (terminal_packets q) with
            | ((lane, bytes, packets), false) =>
                (set_terminal q lane bytes packets, Err (Full packet))
            | ((lane, bytes, packets), true) =>
                (append_terminal (set_terminal q lane bytes packets) packet, Ok tt)
            end
      end
  end.

Definition push_control (q : OutputQueue) (packet : Packet)
  : OutputQueue * result QueuePushError unit :=
  let wanted := packet_cost packet in
  if limit q <? wanted then (q, Err (Oversized packet))
  else if (limit q <? sat_add usize_max (control_bytes q) wanted)
          || (MAX_PACKETS_PER_LANE <=? control_packets q)
  then (q, Err (Full packet))
  else (set_control q (control q ++ [packet]) (control_bytes q + wanted) (control_packets q + 1),
        Ok tt).

Definition push (q : OutputQueue) (packet : Packet) : OutputQueue * result QueuePushError unit :=
  if is_terminal_output packet then push_terminal q packet else push_control q packet.

(** The decoding loop that [filter_terminal] and [promote_terminal_control]
    share: the bodies and stream flags of the lane, unless a packet is
    opaque. *)
Fixpoint lane_bodies (lane : list Packet) : option (list (list byte * option bool)) :=
  match lane with
  | [] => Some []
  | p :: lane =>
      let! m := tb_decode (payload p) in
      let! body := buffer m in
      let! rest := lane_bodies lane in
      Some ((body, is_stderr m) :: rest)
  end.

(** The rewriting loop of [promote_terminal_control]. *)
Fixpoint rewrite_lane (lane : list Packet) (bodies : list (list byte * option bool))
    (remaining : list byte) (bytes : Z) : list Packet * Z :=
  match lane, bodies with
  | p :: lane, (body, e) :: bodies =>
      let q := Packet.new (header p) (tb_encode (mkTB (Some (take (length body) remaining)) e)) in
      let (rest, bytes) :=
        rewrite_lane lane bodies (drop (length body) remaining)
          (bytes - packet_cost p + packet_cost q) in
      (q :: rest, bytes)
  | _, _ => (lane, bytes)
  end.

Definition promote_terminal_control (q : OutputQueue) : OutputQueue :=
  if negb (promotion_pending q) || (terminal_bytes q <? FLUSH_THRESHOLD) then q
  else
    let q := set_promotion q false in
    match lane_bodies (terminal q) with
    | None => q
    | Some bodies =>
        match promote_control (stream q) (concat (map fst bodies)) with
        | None => q
        | Some promoted =>
            let (lane, bytes) := rewrite_lane (terminal q) bodies promoted (terminal_bytes q) in
            set_terminal q lane bytes (terminal_packets q)
        end
    end.

(** [pop_front] of one lane. *)
Definition pop_terminal (q : OutputQueue) : option (OutputQueue * Packet) :=
  match terminal q with
  | [] => None
  | p :: lane => Some (set_terminal q lane (terminal_bytes q) (terminal_packets q), p)
  end.

Definition pop_control (q : OutputQueue) : option (OutputQueue * Packet) :=
  match control q with
  | [] => None
  | p :: lane => Some (set_control q lane (control_bytes q) (control_packets q), p)
  end.

Definition or_else {A} (a b : option A) : option A :=
  match a with Some _ => a | None => b end.

Definition take_packet (q : OutputQueue) : OutputQueue * option Packet :=
  let q := promote_terminal_control q in
  match (if prefer_terminal q then or_else (pop_terminal q) (pop_control q)
         else or_else (pop_control q) (pop_terminal q)) with
  | None => (q, None)
  | Some (q, packet) =>
      let q := set_prefer q (negb (prefer_terminal q)) in
      if is_terminal_output packet then
        let before := Some (stream q) in
        let after :=
          match decode_terminal_buffer (payload packet) with
          | Some (bytes, _) => observe (stream q) bytes
          | None =>
              match tb_decode (payload packet) with
              | Some m => observe (stream q) (unwrap_or [] (buffer m))
              | None => stream q
              end
          end in
        (set_stream q after before, Some packet)
      else (q, Some packet)
  end.

Definition take_control (q : OutputQueue) : OutputQueue * option Packet :=
  match pop_control q with
  | None => (q, None)
  | Some (q, packet) => (set_prefer q true, Some packet)
  end.

Definition complete (q : OutputQueue) (packet : Packet) : OutputQueue :=
  if is_terminal_output packet
  then set_terminal q (terminal q) (terminal_bytes q - packet_cost packet) (terminal_packets q - 1)
  else set_control q (control q) (control_bytes q - packet_cost packet) (control_packets q - 1).

Definition restore_front (q : OutputQueue) (packet : Packet) : OutputQueue :=
  if is_terminal_output packet then
    let q := match before_take q with
             | Some s => set_stream q s None
             | None => q
             end in
    set_terminal q (packet :: terminal q) (terminal_bytes q) (terminal_packets q)
  else set_control q (packet :: control q) (control_bytes q) (control_packets q).

Definition pop (q : OutputQueue) : OutputQueue * option Packet :=
  match take_packet q with
  | (q, Some packet) => (complete q packet, Some packet)
  | (q, None) => (q, None)
  end.

Definition can_accept_terminal (q : OutputQueue) (payload_bytes : Z) : bool :=
  let wanted := sat_add usize_max payload_bytes (HEADER_LEN + FRAME_BYTES) in
  match mode q with
  | Backpressure =>
      (terminal_packets q <? MAX_PACKETS_PER_LANE)
      && (sat_add usize_max (terminal_bytes q) wanted <=? limit q)
  | Discard => wanted <=? limit q
  end.

Definition can_resume (q : OutputQueue) (lane : OutputLane) (free_bytes : Z) : bool :=
  let room bytes packets :=
    (packets <=? MAX_PACKETS_PER_LANE / 2)
    && (sat_add usize_max bytes free_bytes <=? limit q) in
  match lane with
  | LaneTerminal =>
      if decide (mode q = Discard) then free_bytes <=? limit q
      else room (terminal_bytes q) (terminal_packets q)
  | LaneControl => room (control_bytes q) (control_packets q)
  end.

Definition is_empty (q : OutputQueue) : bool :=
  bool_decide (terminal q = []) && bool_decide (control q = []).

Definition bytes (q : OutputQueue) : Z := terminal_bytes q + control_bytes q.

(** The retaining loop of [filter_terminal]. *)
Fixpoint retain_lane (lane : list Packet) (bodies : list (list byte * option bool))
    (remaining : list byte) (bytes packets : Z) : list Packet * Z * Z :=
  match lane, bodies with
  | p :: lane, (body, e) :: bodies =>
      let bytes := bytes - packet_cost p in
      let packets := packets - 1 in
      let count := Nat.min (length remaining) (length body) in
      if bool_decide (count = O) then retain_lane lane bodies remaining bytes packets
      else
        let q := Packet.new (header p) (tb_encode (mkTB (Some (take count remaining)) e)) in
        let '(rest, bytes, packets) :=
          retain_lane lane bodies (drop count remaining) (bytes + packet_cost q) (packets + 1) in
        (q :: rest, bytes, packets)
  | _, _ => ([], bytes, packets)
  end.

Definition filter_terminal (q : OutputQueue) (threshold : Z) : OutputQueue * Z :=
  match lane_bodies (terminal q) with
  | None => (q, 0)
  | Some bodies =>
      let all := concat (map fst bodies) in
      if bool_decide (all = []) || (zlen all <? threshold) then (q, 0)
      else
        let result := stream_filter (stream q) all in
        let q := set_skip q (skip_until_newline q || OutputInterrupt.skip_until_newline result) in
        let '(lane, bytes, packets) :=
          retain_lane (terminal q) bodies (kept result) (terminal_bytes q) (terminal_packets q) in
        (set_terminal q lane bytes packets, dropped result)
  end.

Definition flush_terminal_on_interrupt (q : OutputQueue) : OutputQueue * Z :=
  filter_terminal q FLUSH_THRESHOLD.

(** The appending loop of [discard_drained_terminal]. *)
Fixpoint append_drained (q : OutputQueue) (drained : list Packet) : OutputQueue :=
  match drained with
  | [] => q
  | packet :: drained =>
      let q := match skip_through_newline q packet with
               | (q, Some packet) => append_terminal q packet
               | (q, None) => q
               end in
      append_drained q drained
  end.

Definition discard_drained_terminal (q : OutputQueue) (drained : list Packet) : OutputQueue * Z :=
  match drained with
  | [] => (q, 0)
  | _ => filter_terminal (append_drained q drained) 0
  end.
End queue.

(** ** Accounting *)

Fixpoint cost_sum (l : list Packet) : Z :=
  match l with
  | [] => 0
  | p :: l => packet_cost p + cost_sum l
  end.

Lemma cost_sum_app l k : cost_sum (l ++ k) = cost_sum l + cost_sum k.
Proof. induction l as [|p l IH]; cbn [app cost_sum]; lia. Qed.

Lemma packet_cost_pos p : 0 < packet_cost p.
Proof.
  unfold packet_cost, sat_add, wire_len, HEADER_LEN, FRAME_BYTES, usize_max, u64_max.
  pose proof (zlen_nonneg (payload p)). lia.
Qed.

Lemma cost_sum_nonneg l : 0 <= cost_sum l.
Proof. induction l as [|p l IH]; [done|]. cbn [cost_sum]. pose proof (packet_cost_pos p). lia. Qed.

Definition on_terminal (p : Packet) : Prop := is_terminal_output p = true.
Definition on_control (p : Packet) : Prop := is_terminal_output p = false.

(** A queue with the packets taken from it and not yet completed. *)
Record session_queue := mkSQ { sq_queue : OutputQueue; sq_inflight : list Packet }.

(** The counters of one lane: its packets and its share of those in flight. *)
Record lane_inv (lane inflight : list Packet) (bytes packets : Z) : Prop := {
  li_bytes : bytes = cost_sum lane + cost_sum inflight;
  li_packets : packets = zlen lane + zlen inflight
}.

Record queue_inv (s : session_queue) : Prop := {
  qi_terminal : lane_inv (terminal (sq_queue s)) (filter on_terminal (sq_inflight s))
    (terminal_bytes (sq_queue s)) (terminal_packets (sq_queue s));
  qi_control : lane_inv (control (sq_queue s)) (filter on_control (sq_inflight s))
    (control_bytes (sq_queue s)) (control_packets (sq_queue s));
  qi_terminal_lane : Forall on_terminal (terminal (sq_queue s));
  qi_control_lane : Forall on_control (control (sq_queue s))
}.

Section steps.
Context {codec : TerminalBufferCodec} {search : Memchr}.

Inductive qstep : session_queue -> session_queue -> Prop :=
| q_push q fl p : qstep (mkSQ q fl) (mkSQ (fst (push q p)) fl)
| q_take q fl q' p : take_packet q = (q', Some p) -> qstep (mkSQ q fl) (mkSQ q' (p :: fl))
| q_take_control q fl q' p : take_control q = (q', Some p) -> qstep (mkSQ q fl) (mkSQ q' (p :: fl))
| q_complete q fl1 p fl2 : qstep (mkSQ q (fl1 ++ p :: fl2)) (mkSQ (complete q p) (fl1 ++ fl2))
| q_restore q fl1 p fl2 : qstep (mkSQ q (fl1 ++ p :: fl2)) (mkSQ (restore_front q p) (fl1 ++ fl2))
| q_flush q fl : qstep (mkSQ q fl) (mkSQ (fst (flush_terminal_on_interrupt q)) fl)
| q_drain q fl ps : Forall on_terminal ps ->
    qstep (mkSQ q fl) (mkSQ (fst (discard_drained_terminal q ps)) fl)
| q_limit q fl lim : qstep (mkSQ q fl) (mkSQ (set_limit q lim) fl).

Inductive queue_reachable (m : FlowControlMode) (lim : Z) : session_queue -> Prop :=
| qr_new : queue_reachable m lim (mkSQ (new m lim) [])
| qr_step s s' : queue_reachable m lim s -> qstep s s' -> queue_reachable m lim s'.

(** What the operations on the terminal lane promise: the counters move with
    the lane, the control lane is untouched. *)
Record terminal_change (q q' : OutputQueue) : Prop := {
  tc_bytes : terminal_bytes q' - cost_sum (terminal q') = terminal_bytes q - cost_sum (terminal q);
  tc_packets : terminal_packets q' - zlen (terminal q') = terminal_packets q - zlen (terminal q);
  tc_lane : Forall on_terminal (terminal q) -> Forall on_terminal (terminal q');
  tc_control : control q' = control q;
  tc_control_bytes : control_bytes q' = control_bytes q;
  tc_control_packets : control_packets q' = control_packets q;
  tc_mode : mode q' = mode q;
  tc_limit : limit q' = limit q
}.

Lemma terminal_change_refl q : terminal_change q q.
Proof. by split. Qed.

Lemma terminal_change_trans q1 q2 q3 :
  terminal_change q1 q2 -> terminal_change q2 q3 -> terminal_change q1 q3.
Proof.
  intros [A1 A2 A3 A4 A5 A6 A7 A8] [B1 B2 B3 B4 B5 B6 B7 B8].
  split; try congruence; try lia. auto.
Qed.

Lemma change_inv q q' fl :
  terminal_change q q' -> queue_inv (mkSQ q fl) -> queue_inv (mkSQ q' fl).
Proof.
  intros [A1 A2 A3 A4 A5 A6 _ _] [[T1 T2] [C1 C2] TL CL]. cbn in *.
  split; cbn; rewrite ?A4, ?A5, ?A6; auto; split; cbn; auto; lia.
Qed.

Lemma skip_change q p q' r :
  skip_through_newline q p = (q', r) ->
  terminal_change q q' /\ terminal q' = terminal q /\ terminal_bytes q' = terminal_bytes q /\
  terminal_packets q' = terminal_packets q /\ stream q' = stream q /\
  match r with Some p' => header p' = header p | None => True end.
Proof.
  unfold skip_through_newline. intros H.
  repeat (case_match; simplify_eq/=); split_and!; try done; by split.
Qed.

Lemma append_header p b e lim : header (fst (append_terminal_buffer p b e lim)) = header p.
Proof. unfold append_terminal_buffer. by repeat case_match. Qed.

Lemma split_back_eq l front back : split_back l = Some (front, back) -> l = front ++ [back].
Proof.
  unfold split_back. destruct (rev l) as [|x r] eqn:E; [done|]. intros [= <- <-].
  apply (f_equal (@rev _)) in E. by rewrite rev_involutive in E.
Qed.

Lemma push_back_change q p :
  on_terminal p -> terminal_change q (push_back_terminal q p).
Proof.
  intros Hp. split; cbn; try done; rewrite ?cost_sum_app, ?zlen_app, ?zlen_cons, ?zlen_nil;
    cbn; try lia. intros. apply Forall_app. by split; [|constructor].
Qed.

Lemma append_change q p : on_terminal p -> terminal_change q (append_terminal q p).
Proof.
  intros Hp. unfold append_terminal. set (q1 := if packet_may_contain_control q p then _ else q).
  assert (terminal_change q q1) as H1 by (unfold q1; destruct (packet_may_contain_control q p); by split).
  clearbody q1. eapply terminal_change_trans; [exact H1|].
  destruct (split_back (terminal q1)) as [[front back]|] eqn:Hb; [|by apply push_back_change].
  apply split_back_eq in Hb.
  destruct (decode_terminal_buffer (payload p)) as [[b e]|]; [|by apply push_back_change].
  pose proof (append_header back b e COALESCED_TERMINAL_BYTES) as Hh.
  destruct (append_terminal_buffer back b e COALESCED_TERMINAL_BYTES) as [merged []];
    [|by apply push_back_change]. cbn in Hh.
  split; cbn; try done; rewrite ?Hb, ?cost_sum_app, ?zlen_app, ?zlen_cons, ?zlen_nil; cbn; try lia.
  intros [H2 H3%Forall_cons_iff]%Forall_app. apply Forall_app. split; [done|].
  constructor; [|done]. destruct H3 as [H3 _]. unfold on_terminal, is_terminal_output in *. by rewrite Hh.
Qed.

Lemma evict_spec lim wanted lane b n lane' b' n' ok :
  evict lim wanted lane b n = ((lane', b', n'), ok) ->
  b' - cost_sum lane' = b - cost_sum lane /\ n' - zlen lane' = n - zlen lane /\
  lane' `suffix_of` lane /\
  (ok = true -> sat_add usize_max b' wanted <= lim /\ n' < MAX_PACKETS_PER_LANE).
Proof.
  revert b n. induction lane as [|p lane IH]; intros b n; cbn [evict].
  - destruct (_ || _) eqn:E; intros [= <- <- <- <-]; split_and!; try done.
    intros _. apply orb_false_iff in E as [E1 E2]. lia.
  - destruct (_ || _) eqn:E.
    + intros H. apply IH in H as (H1 & H2 & H3 & H4). rewrite zlen_cons. cbn [cost_sum].
      split_and!; [lia|lia|by apply suffix_cons_r|done].
    + intros [= <- <- <- <-]. split_and!; try done. intros _.
      apply orb_false_iff in E as [E1 E2]. lia.
Qed.

Lemma truncate_header p lim p' : truncate_terminal p lim = Ok p' -> header p' = header p.
Proof. unfold truncate_terminal. intros. by repeat (case_match; simplify_eq/=). Qed.

Lemma on_terminal_header p p' : header p' = header p -> on_terminal p -> on_terminal p'.
Proof. unfold on_terminal, is_terminal_output. by intros ->. Qed.

Lemma evicted_change q lane b n :
  b - cost_sum lane = terminal_bytes q - cost_sum (terminal q) ->
  n - zlen lane = terminal_packets q - zlen (terminal q) ->
  lane `suffix_of` terminal q ->
  terminal_change q (set_terminal q lane b n).
Proof.
  intros H1 H2 [dropped_ H3]. split; cbn; try done.
  rewrite H3. intros [_ ?]%Forall_app. done.
Qed.

Lemma push_terminal_change q p :
  on_terminal p -> terminal_change q (fst (push_terminal q p)).
Proof.
  intros Hp. unfold push_terminal. destruct (skip_through_newline q p) as [q1 r] eqn:Hs.
  destruct (skip_change _ _ _ _ Hs) as (H1 & _ & _ & _ & _ & Hh). destruct r as [p1|]; [|done].
  assert (on_terminal p1) as Hp1 by (by apply (on_terminal_header p)).
  set (fitted := if _ <? _ then _ else Ok p1).
  assert (forall p2, fitted = Ok p2 -> on_terminal p2) as Hfit.
  { unfold fitted. intros p2 Hp2. destruct (_ <? _); [|congruence].
    destruct (decide _); [done|]. destruct (truncate_terminal p1 (limit q1)) eqn:Ht; [|done].
    injection Hp2 as <-. by apply (on_terminal_header p1), Hp1; apply truncate_header in Ht. }
  destruct fitted as [p2|e]; [|done]. specialize (Hfit p2 eq_refl).
  destruct (bool_decide _ && _); [done|].
  destruct (evict _ _ _ _ _) as [[[lane b] n] ok] eqn:He.
  apply evict_spec in He as (E1 & E2 & E3 & _).
  pose proof (evicted_change q1 lane b n E1 E2 E3) as Hev.
  destruct ok; cbn [fst]; [|by eapply terminal_change_trans].
  eapply terminal_change_trans; [exact H1|]. eapply terminal_change_trans; [exact Hev|].
  by apply append_change.
Qed.

Lemma rewrite_lane_spec lane bodies rem b lane' b' :
  rewrite_lane lane bodies rem b = (lane', b') ->
  b' - cost_sum lane' = b - cost_sum lane /\ length lane' = length lane /\
  (Forall on_terminal lane -> Forall on_terminal lane').
Proof.
  revert bodies rem b lane' b'. induction lane as [|p lane IH]; intros bodies rem b lane' b';
    cbn [rewrite_lane]; [by intros [= <- <-]|].
  destruct bodies as [|[body e] bodies]; [by intros [= <- <-]|].
  destruct (rewrite_lane lane bodies _ _) as [rest b1] eqn:E. intros [= <- <-].
  apply IH in E as (H1 & H2 & H3). cbn [cost_sum length]. split_and!; [lia|lia|].
  intros [Hp Hl]%Forall_cons_iff. constructor; [by apply (on_terminal_header p)|auto].
Qed.

Lemma promote_change q : terminal_change q (promote_terminal_control q).
Proof.
  unfold promote_terminal_control. destruct (_ || _); [apply terminal_change_refl|].
  assert (terminal_change q (set_promotion q false)) as H1 by by split.
  destruct (lane_bodies _) as [bodies|]; [|done].
  destruct (promote_control _ _) as [promoted|]; [|done].
  destruct (rewrite_lane _ _ _ _) as [lane b] eqn:E.
  apply rewrite_lane_spec in E as (E1 & E2 & E3). cbn in E1, E2, E3.
  eapply terminal_change_trans; [exact H1|]. split; cbn; try done.
  unfold zlen. by rewrite E2.
Qed.

Lemma retain_lane_spec lane bodies rem b n lane' b' n' :
  length bodies = length lane ->
  retain_lane lane bodies rem b n = (lane', b', n') ->
  b' - cost_sum lane' = b - cost_sum lane /\ n' - zlen lane' = n - zlen lane /\
  (Forall on_terminal lane -> Forall on_terminal lane').
Proof.
  revert bodies rem b n lane' b' n'. induction lane as [|p lane IH];
    intros bodies rem b n lane' b' n' Hl; cbn [retain_lane]; [by intros [= <- <- <-]|].
  destruct bodies as [|[body e] bodies]; [done|]. injection Hl as Hl.
  rewrite zlen_cons. cbn [cost_sum]. cbv zeta.
  destruct (bool_decide _).
  - intros H. apply IH in H as (H1 & H2 & H3); [|done]. split_and!; [lia|lia|].
    intros [_ ?]%Forall_cons_iff. auto.
  - destruct (retain_lane lane bodies _ _ _) as [[rest b1] n1] eqn:E. intros [= <- <- <-].
    apply IH in E as (H1 & H2 & H3); [|done]. rewrite zlen_cons. cbn [cost_sum].
    split_and!; [lia|lia|].
    intros [Hp Hl']%Forall_cons_iff. constructor; [by apply (on_terminal_header p)|auto].
Qed.

Lemma lane_bodies_length lane bodies : lane_bodies lane = Some bodies -> length bodies = length lane.
Proof.
  revert bodies. induction lane as [|p lane IH]; intros bodies; cbn [lane_bodies];
    [by intros [= <-]|].
  destruct (tb_decode (payload p)) as [m|]; [|done]. destruct (buffer m); [|done].
  destruct (lane_bodies lane); [|done]. intros [= <-]. cbn. by rewrite (IH _ eq_refl).
Qed.

Lemma filter_change q threshold : terminal_change q (fst (filter_terminal q threshold)).
Proof.
  unfold filter_terminal. destruct (lane_bodies (terminal q)) as [bodies|] eqn:Hb;
    [|apply terminal_change_refl].
  destruct (_ || _); [apply terminal_change_refl|]. cbv zeta.
  set (q1 := set_skip q _). assert (terminal_change q q1) as H1 by by split.
  destruct (retain_lane _ _ _ _ _) as [[lane b] n] eqn:E. cbn [fst].
  apply retain_lane_spec in E as (E1 & E2 & E3); [|by apply lane_bodies_length].
  eapply terminal_change_trans; [exact H1|]. by split.
Qed.

Lemma drained_change q ps : Forall on_terminal ps -> terminal_change q (append_drained q ps).
Proof.
  intros Hps. revert q. induction Hps as [|p ps Hp _ IH]; intros q; [apply terminal_change_refl|].
  cbn [append_drained]. destruct (skip_through_newline q p) as [q1 r] eqn:Hs.
  destruct (skip_change _ _ _ _ Hs) as (H1 & _ & _ & _ & _ & Hh).
  eapply terminal_change_trans; [|apply IH]. destruct r as [p1|]; [|done].
  eapply terminal_change_trans; [exact H1|]. apply append_change.
  by apply (on_terminal_header p).
Qed.
End steps.

(** ** The size of a merged packet *)

Lemma decode_terminal_zlen p b e :
  decode_terminal_buffer p = Some (b, e) -> 2 + zlen b + (if e then 2 else 0) <= zlen p.
Proof.
  unfold decode_terminal_buffer. destruct p as [|tag rest]; [done|].
  destruct (negb _); [done|].
  assert (forall l len shift idx v i, 0 <= len -> decode_len l len shift idx = Some (v, i) ->
    idx < i /\ 0 <= v) as Hidx.
  { induction l as [|x l IH]; intros len shift idx v i Hlen; cbn [decode_len]; [done|].
    destruct (usize_checked_shl _ _) as [low|] eqn:Hlow; [|done].
    assert (0 <= Z.lor len low).
    { apply Z.lor_nonneg. split; [done|]. unfold usize_checked_shl in Hlow.
      destruct (_ <? _); [|done]. injection Hlow as <-. apply Z.land_nonneg. right. done. }
    destruct (_ =? 0); [intros [= <- <-]; lia|].
    destruct (_ <=? _); [done|]. intros H'%IH; [lia|done]. }
  destruct (decode_len rest 0 0 1) as [[len idx]|] eqn:E; [|done].
  apply Hidx in E as [Hi Hlen]; [|done].
  unfold usize_checked_add. destruct (_ <=? usize_max); [|done].
  set (p := tag :: rest). destruct (Z.ltb_spec (zlen p) (idx + len)) as [|Hle]; [done|].
  assert (zlen (slice p idx (idx + len)) <= Z.max 0 len) as Hs.
  { unfold slice. rewrite zlen_ztake. lia. }
  assert (zlen (slice p idx (idx + len)) <= zlen p - idx) as Hs2.
  { unfold slice. rewrite zlen_ztake, zlen_zdrop. pose proof (zlen_nonneg p). len_lia. }
  pose proof (zlen_zdrop (idx + len) p) as Hd.
  destruct (zdrop (idx + len) p) as [|t [|v [|]]]; try done.
  - intros [= <- <-]. lia.
  - autorewrite with zlen in Hd.
    repeat case_match; intros; simplify_eq; lia.
Qed.

Section bounds.
Context {codec : TerminalBufferCodec} {search : Memchr}.

Lemma varint_short v : 0 <= v <= COALESCED_TERMINAL_BYTES -> zlen (encode_varint v) <= 3.
Proof. intros H. exact (encode_varint_go_mono 10 v COALESCED_TERMINAL_BYTES H). Qed.

Lemma append_cost back b e merged p :
  append_terminal_buffer back b e COALESCED_TERMINAL_BYTES = (merged, true) ->
  decode_terminal_buffer (payload p) = Some (b, e) ->
  packet_cost merged <= packet_cost back + packet_cost p.
Proof.
  intros Hm Hp. apply decode_terminal_zlen in Hp. unfold append_terminal_buffer in Hm.
  destruct (encrypted back); [done|].
  destruct (decode_terminal_buffer (payload back)) as [[body stderr]|] eqn:Hb; [|done].
  apply decode_terminal_zlen in Hb. cbv zeta in Hm.
  destruct (negb (Bool.eqb stderr e) || _) eqn:C; [done|].
  apply orb_false_iff in C as [C1%negb_false_iff%eqb_prop C2%Z.ltb_ge]. subst stderr.
  pose proof (zlen_nonneg body). pose proof (zlen_nonneg b).
  pose proof (varint_short (zlen body) ltac:(lia)) as V1.
  pose proof (varint_short (zlen body + zlen b) ltac:(lia)) as V2.
  pose proof (encode_varint_zlen (zlen body)) as V3.
  injection Hm as <-. unfold packet_cost, wire_len, sat_add. cbn [payload].
  set (v1 := encode_varint (zlen body)) in *. set (v2 := encode_varint (zlen body + zlen b)) in *.
  set (p1 := ztake (1 + zlen v1 + zlen body) (payload back)).
  assert (zlen p1 <= 1 + zlen v1 + zlen body) as P1.
  { unfold p1. rewrite zlen_ztake. lia. }
  set (p2 := if _ <? _ then _ else p1).
  assert (zlen p2 <= 4 + zlen body) as P2.
  { unfold p2. destruct (Z.ltb_spec (1 + zlen v1) (1 + zlen v2)); [|lia].
    autorewrite with zlen. lia. }
  assert (zlen (ztake 1 p2 ++ v2 ++ zdrop (1 + zlen v2) p2) <= 4 + zlen body) as P3.
  { autorewrite with zlen. pose proof (zlen_nonneg p2). lia. }
  unfold FRAME_BYTES, HEADER_LEN, usize_max, u64_max.
  destruct e; autorewrite with zlen in P3 |- *; lia.
Qed.

(** Appending costs at most the packet's own cost. *)
Lemma append_terminal_cost q p :
  let q' := append_terminal q p in
  terminal_bytes q' <= terminal_bytes q + packet_cost p /\
  terminal_packets q' <= terminal_packets q + 1 /\
  zlen (terminal q') <= zlen (terminal q) + 1.
Proof.
  unfold append_terminal. cbv zeta. set (q1 := if packet_may_contain_control q p then _ else q).
  assert (terminal_bytes q1 = terminal_bytes q /\ terminal_packets q1 = terminal_packets q /\
    terminal q1 = terminal q) as (<- & <- & <-) by (unfold q1; by destruct (packet_may_contain_control q p)).
  clearbody q1.
  assert (terminal_bytes (push_back_terminal q1 p) <= terminal_bytes q1 + packet_cost p /\
    terminal_packets (push_back_terminal q1 p) <= terminal_packets q1 + 1 /\
    zlen (terminal (push_back_terminal q1 p)) <= zlen (terminal q1) + 1) as Hpb.
  { cbn. len_lia. }
  destruct (split_back (terminal q1)) as [[front back]|] eqn:Hb; [|done].
  apply split_back_eq in Hb.
  destruct (decode_terminal_buffer (payload p)) as [[b e]|] eqn:Hd; [|done].
  destruct (append_terminal_buffer back b e COALESCED_TERMINAL_BYTES) as [merged []] eqn:Hm; [|done].
  pose proof (append_cost _ _ _ _ _ Hm Hd). cbn. rewrite Hb. len_lia.
Qed.

(** An accepted push keeps its lane within the byte limit and the packet
    limit. *)
Lemma push_terminal_bound q p q' :
  skip_until_newline q = false -> limit q < usize_max ->
  push_terminal q p = (q', Ok tt) ->
  terminal_bytes q' <= limit q /\ terminal_packets q' <= MAX_PACKETS_PER_LANE.
Proof.
  intros Hskip Hlim. unfold push_terminal, skip_through_newline. rewrite Hskip. cbn [negb].
  destruct (if limit q <? packet_cost p then _ else Ok p) as [p2|]; [|done].
  destruct (bool_decide _ && _); [done|].
  destruct (evict _ _ _ _ _) as [[[lane b] n] ok] eqn:He.
  apply evict_spec in He as (_ & _ & _ & Hok). destruct ok; [|done]. intros [= <-].
  destruct (Hok eq_refl) as [H1 H2].
  destruct (append_terminal_cost (set_terminal q lane b n) p2) as (A1 & A2 & _).
  cbn in A1, A2. unfold sat_add in H1. lia.
Qed.

Lemma push_control_bound q p q' :
  limit q < usize_max -> push_control q p = (q', Ok tt) ->
  control_bytes q' <= limit q /\ control_packets q' <= MAX_PACKETS_PER_LANE.
Proof.
  intros Hlim. unfold push_control. destruct (_ <? _); [done|].
  destruct (_ || _) eqn:C; [done|]. apply orb_false_iff in C as [C1 C2]. intros [= <-]. cbn.
  unfold sat_add in C1. lia.
Qed.

Lemma filter_terminal_cons p l :
  filter on_terminal (p :: l) =
    if is_terminal_output p then p :: filter on_terminal l else filter on_terminal l.
Proof.
  rewrite filter_cons. unfold on_terminal. by destruct (is_terminal_output p).
Qed.

Lemma filter_control_cons p l :
  filter on_control (p :: l) =
    if is_terminal_output p then filter on_control l else p :: filter on_control l.
Proof.
  rewrite filter_cons. unfold on_control. by destruct (is_terminal_output p).
Qed.

(** Taking moves a packet from the front of a lane to the packets in flight. *)
Lemma take_inv q fl q' p :
  queue_inv (mkSQ q fl) -> take_packet q = (q', Some p) -> queue_inv (mkSQ q' (p :: fl)).
Proof.
  intros Hinv%(change_inv _ _ _ (promote_change q)). unfold take_packet.
  set (q1 := promote_terminal_control q) in *. clearbody q1.
  destruct Hinv as [[T1 T2] [C1 C2] TL CL]. cbn in *.
  assert (forall q2, pop_terminal q1 = Some (q2, p) ->
    is_terminal_output p = true /\ queue_inv (mkSQ q2 (p :: fl))) as HT.
  { unfold pop_terminal. intros q2. destruct (terminal q1) as [|x lane] eqn:El; [done|].
    intros [= <- ->]. apply Forall_cons_iff in TL as [Hx TL]. split; [done|].
    rewrite zlen_cons in T2. cbn [cost_sum] in T1.
    split; cbn [sq_queue sq_inflight set_terminal set_control terminal control terminal_bytes
      terminal_packets control_bytes control_packets]; try done;
      rewrite ?filter_terminal_cons, ?filter_control_cons, Hx;
      split; cbn [cost_sum]; rewrite ?zlen_cons; lia. }
  assert (forall q2, pop_control q1 = Some (q2, p) ->
    is_terminal_output p = false /\ queue_inv (mkSQ q2 (p :: fl))) as HC.
  { unfold pop_control. intros q2. destruct (control q1) as [|x lane] eqn:El; [done|].
    intros [= <- ->]. apply Forall_cons_iff in CL as [Hx CL]. split; [done|].
    rewrite zlen_cons in C2. cbn [cost_sum] in C1.
    split; cbn [sq_queue sq_inflight set_terminal set_control terminal control terminal_bytes
      terminal_packets control_bytes control_packets]; try done;
      rewrite ?filter_terminal_cons, ?filter_control_cons, Hx;
      split; cbn [cost_sum]; rewrite ?zlen_cons; lia. }
  destruct (if prefer_terminal q1 then _ else _) as [[q2 x]|] eqn:Hpop; [|done].
  intros Htake. assert (x = p) as -> by (destruct (is_terminal_output x); by injection Htake).
  assert (queue_inv (mkSQ q2 (p :: fl))) as H2.
  { unfold or_else in Hpop.
    destruct (prefer_terminal q1), (pop_terminal q1), (pop_control q1); simplify_eq;
      (by apply HT) || (by apply HC). }
  destruct H2 as [T C TL' CL'].
  destruct (is_terminal_output p); injection Htake as <-; by split.
Qed.

Lemma filter_middle l1 p l2 :
  let t := is_terminal_output p in
  cost_sum (filter on_terminal (l1 ++ p :: l2)) =
    (if t then packet_cost p else 0) + cost_sum (filter on_terminal (l1 ++ l2)) /\
  zlen (filter on_terminal (l1 ++ p :: l2)) =
    (if t then 1 else 0) + zlen (filter on_terminal (l1 ++ l2)) /\
  cost_sum (filter on_control (l1 ++ p :: l2)) =
    (if t then 0 else packet_cost p) + cost_sum (filter on_control (l1 ++ l2)) /\
  zlen (filter on_control (l1 ++ p :: l2)) =
    (if t then 0 else 1) + zlen (filter on_control (l1 ++ l2)).
Proof.
  cbv zeta. rewrite !filter_app, !cost_sum_app, !zlen_app, filter_terminal_cons, filter_control_cons.
  destruct (is_terminal_output p); cbn [cost_sum]; rewrite ?zlen_cons; lia.
Qed.

Lemma queue_step_inv s s' : queue_inv s -> qstep s s' -> queue_inv s'.
Proof.
  intros Hinv Hstep.
  destruct Hstep as [q fl p|q fl q' p Ht|q fl q' p Ht|q fl1 p fl2|q fl1 p fl2|q fl|q fl ps Hps|q fl lim].
  - unfold push. destruct (is_terminal_output p) eqn:Hp.
    { by apply (change_inv q); [apply push_terminal_change|]. }
    unfold push_control. destruct (_ <? _); [done|]. destruct (_ || _); [done|].
    destruct Hinv as [T [C1 C2] TL CL]. split; cbn in *; try done.
    + split; rewrite ?cost_sum_app, ?zlen_app, ?zlen_cons, ?zlen_nil; cbn [cost_sum]; lia.
    + apply Forall_app. by split; [|constructor].
  - by eapply take_inv.
  - unfold take_control, pop_control in Ht. destruct (control q) as [|x lane] eqn:El; [done|].
    injection Ht as <- ->. destruct Hinv as [T [C1 C2] TL CL]. cbn in *. rewrite El in *.
    apply Forall_cons_iff in CL as [Hx CL]. rewrite zlen_cons in C2. cbn [cost_sum] in C1.
    split; cbn [sq_queue sq_inflight set_prefer set_control terminal control terminal_bytes
      terminal_packets control_bytes control_packets]; try done;
      rewrite ?filter_terminal_cons, ?filter_control_cons, Hx; try done;
      split; cbn [cost_sum]; rewrite ?zlen_cons; lia.
  - destruct Hinv as [[T1 T2] [C1 C2] TL CL]. cbn in *.
    destruct (filter_middle fl1 p fl2) as (F1 & F2 & F3 & F4).
    rewrite F1 in T1. rewrite F2 in T2. rewrite F3 in C1. rewrite F4 in C2.
    unfold complete.
    destruct (is_terminal_output p); cbn in *; split; cbn; try done; split; cbn; lia.
  - destruct Hinv as [[T1 T2] [C1 C2] TL CL]. cbn in *.
    destruct (filter_middle fl1 p fl2) as (F1 & F2 & F3 & F4).
    rewrite F1 in T1. rewrite F2 in T2. rewrite F3 in C1. rewrite F4 in C2.
    unfold restore_front.
    destruct (is_terminal_output p) eqn:Hp; cbn in *;
      [destruct (before_take q)|]; split; cbn; try done; try (by constructor);
      split; cbn [cost_sum]; rewrite ?zlen_cons; lia.
  - by apply (change_inv q); [apply filter_change|].
  - destruct ps as [|p ps]; [done|]. cbn [discard_drained_terminal].
    apply (change_inv (append_drained q (p :: ps))); [apply filter_change|].
    by apply (change_inv q); [apply drained_change|].
  - by destruct Hinv as [[] [] ? ?].
Qed.

Lemma queue_reachable_inv m lim s : queue_reachable m lim s -> queue_inv s.
Proof.
  induction 1 as [|s s' _ IH Hstep]; [|by eapply queue_step_inv].
  by split; try split; try constructor.
Qed.
End bounds.

(** ** What the queue guarantees *)

Section guarantees.
Context {codec : TerminalBufferCodec} {search : Memchr}.

Lemma cost_sum_lanes l :
  cost_sum l = cost_sum (filter on_terminal l) + cost_sum (filter on_control l).
Proof.
  induction l as [|p l IH]; [done|]. rewrite filter_terminal_cons, filter_control_cons.
  destruct (is_terminal_output p); cbn [cost_sum]; lia.
Qed.

(** The byte and packet counters are exact in every reachable state, packets in
    flight included: no subtraction of the code underflows, and an idle queue
    with nothing in flight counts zero. *)
Theorem queue_accounting m lim s :
  queue_reachable m lim s ->
  let q := sq_queue s in
  bytes q = cost_sum (terminal q) + cost_sum (control q) + cost_sum (sq_inflight s) /\
  0 <= terminal_bytes q /\ 0 <= control_bytes q /\
  terminal_packets q = zlen (terminal q) + zlen (filter on_terminal (sq_inflight s)) /\
  control_packets q = zlen (control q) + zlen (filter on_control (sq_inflight s)).
Proof.
  intros [[T1 T2] [C1 C2] _ _]%queue_reachable_inv q. unfold bytes.
  rewrite (cost_sum_lanes (sq_inflight s)). fold q in T1, T2, C1, C2.
  pose proof (cost_sum_nonneg (terminal q)). pose proof (cost_sum_nonneg (control q)).
  pose proof (cost_sum_nonneg (filter on_terminal (sq_inflight s))).
  pose proof (cost_sum_nonneg (filter on_control (sq_inflight s))).
  split_and!; [lia|lia|lia|done|done].
Qed.

(** An accepted packet never takes its lane over the limit: neither by bytes
    nor by packets, merging and eviction included; and the other lane does not
    notice. *)
Theorem accepted_push_stays_bounded q p q' :
  limit q < usize_max -> skip_until_newline q = false ->
  push q p = (q', Ok tt) ->
  if is_terminal_output p
  then terminal_bytes q' <= limit q /\ terminal_packets q' <= MAX_PACKETS_PER_LANE /\
       control q' = control q /\ control_bytes q' = control_bytes q
  else control_bytes q' <= limit q /\ control_packets q' <= MAX_PACKETS_PER_LANE /\
       terminal q' = terminal q /\ terminal_bytes q' = terminal_bytes q.
Proof.
  intros Hlim Hskip. unfold push. destruct (is_terminal_output p) eqn:Hp; intros H.
  - destruct (push_terminal_bound _ _ _ Hskip Hlim H).
    destruct (push_terminal_change q p Hp) as [_ _ _ C1 C2 _ _ _]. rewrite H in C1, C2. done.
  - destruct (push_control_bound _ _ _ Hlim H). unfold push_control in H.
    destruct (_ <? _); [done|]. destruct (_ || _); [done|]. by injection H as <-.
Qed.

Lemma promote_keeps q :
  length (terminal (promote_terminal_control q)) = length (terminal q) /\
  control (promote_terminal_control q) = control q /\
  prefer_terminal (promote_terminal_control q) = prefer_terminal q.
Proof.
  unfold promote_terminal_control. destruct (_ || _); [done|].
  destruct (lane_bodies _) as [bodies|]; [|done].
  destruct (promote_control _ _) as [promoted|]; [|done].
  destruct (rewrite_lane _ _ _ _) as [lane b] eqn:E.
  by apply rewrite_lane_spec in E as (_ & E2 & _).
Qed.

(** With both lanes waiting, a take serves the preferred one and turns. *)
Lemma take_served q fl q' p :
  queue_inv (mkSQ q fl) -> terminal q <> [] -> control q <> [] ->
  take_packet q = (q', Some p) ->
  is_terminal_output p = prefer_terminal q /\ prefer_terminal q' = negb (prefer_terminal q) /\
  (if prefer_terminal q then control q' = control q else length (terminal q') = length (terminal q)).
Proof.
  intros Hinv HT HC. unfold take_packet. destruct (promote_keeps q) as (Hl & Hc & Hp).
  apply (change_inv _ _ _ (promote_change q)) in Hinv.
  set (q1 := promote_terminal_control q) in *. clearbody q1.
  destruct Hinv as [_ _ TL CL]. cbn in TL, CL. rewrite <-Hp, <-Hl, <-Hc.
  rewrite <-Hc in HC. assert (terminal q1 <> []) as HT1.
  { destruct (terminal q1); [|done]. by destruct (terminal q). }
  unfold pop_terminal, pop_control.
  destruct (terminal q1) as [|t lt] eqn:Et; [done|]. destruct (control q1) as [|c lc] eqn:Ec; [done|].
  apply Forall_cons_iff in TL as [Ht TL]. apply Forall_cons_iff in CL as [Hcc CL].
  unfold on_terminal, on_control in *.
  destruct (prefer_terminal q1) eqn:Ep; cbn [or_else]; rewrite ?Ht, ?Hcc; intros [= <- <-]; cbn;
    rewrite ?Ep, ?Et, ?Ec; done.
Qed.

(** Neither lane starves the other: while both hold packets, two takes in a row
    serve one packet of each. *)
Theorem lanes_alternate m lim s q1 p1 q2 p2 :
  queue_reachable m lim s ->
  terminal (sq_queue s) <> [] -> control (sq_queue s) <> [] ->
  take_packet (sq_queue s) = (q1, Some p1) -> take_packet q1 = (q2, Some p2) ->
  is_terminal_output p2 = negb (is_terminal_output p1).
Proof.
  intros Hinv%queue_reachable_inv HT HC H1 H2. destruct s as [q fl]. cbn [sq_queue] in *.
  destruct (take_served _ _ _ _ Hinv HT HC H1) as (P1 & P2 & P3).
  pose proof (take_inv _ _ _ _ Hinv H1) as Hinv1.
  apply (change_inv _ _ _ (promote_change q1)) in Hinv1.
  destruct (promote_keeps q1) as (Hl & Hc & Hp). unfold take_packet in H2.
  set (q3 := promote_terminal_control q1) in *. clearbody q3.
  destruct Hinv1 as [_ _ TL CL]. cbn in TL, CL. rewrite Hp, P2 in H2.
  unfold pop_terminal, pop_control in H2. rewrite P1.
  destruct (prefer_terminal q) eqn:Eq; cbn [negb] in *.
  - rewrite Hc, P3 in H2, CL. destruct (control q) as [|c lc]; [done|]. cbn [or_else] in H2.
    apply Forall_cons_iff in CL as [Hcc _]. unfold on_control in Hcc. rewrite Hcc in H2.
    by injection H2 as _ <-.
  - destruct (terminal q3) as [|t lt] eqn:Et.
    { destruct (terminal q); [done|]. rewrite P3 in Hl. done. }
    cbn [or_else] in H2. apply Forall_cons_iff in TL as [Htt _]. unfold on_terminal in Htt.
    rewrite Htt in H2. by injection H2 as _ <-.
Qed.
End guarantees.

(** ** Truncation *)

Section truncation.
Context {codec : TerminalBufferCodec} {laws : TerminalBufferLaws codec}.

(** The packet that carries the last [n] bytes. *)
Definition suffix_packet (h : byte) (b : list byte) (e : option bool) (n : Z) : Packet :=
  Packet.new h (tb_encode (mkTB (Some (zdrop (zlen b - n) b)) e)).

Lemma suffix_cost h b e n :
  small b -> 0 <= n <= zlen b ->
  packet_cost (suffix_packet h b e n) =
    1 + zlen (encode_varint n) + n + (match e with Some _ => 2 | None => 0 end) + 6.
Proof.
  intros Hs Hn. unfold packet_cost, wire_len, suffix_packet, Packet.new. cbn [payload].
  assert (zlen (zdrop (zlen b - n) b) = n) as Hl by (rewrite zlen_zdrop; lia).
  rewrite tb_encode_bytes by (unfold small in *; lia). rewrite Hl.
  pose proof (encode_varint_zlen n). unfold small in Hs.
  unfold sat_add, HEADER_LEN, FRAME_BYTES, usize_max, u64_max. rewrite !zlen_app, Hl.
  destruct e; len_lia.
Qed.

Lemma suffix_cost_mono h b e n k :
  small b -> 0 <= n <= k -> k <= zlen b ->
  packet_cost (suffix_packet h b e n) <= packet_cost (suffix_packet h b e k).
Proof.
  intros Hs Hn Hk. rewrite !suffix_cost by (done || lia).
  pose proof (encode_varint_go_mono 10 n k Hn) as Hv. unfold encode_varint. lia.
Qed.

Lemma truncate_search_spec fuel h b e lim low high :
  small b -> 0 <= low <= high -> high <= zlen b -> high - low <= Z.of_nat fuel ->
  (low = 0 \/ packet_cost (suffix_packet h b e low) <= lim) ->
  (forall k, high < k <= zlen b -> lim < packet_cost (suffix_packet h b e k)) ->
  let n := truncate_search fuel b e lim low high in
  low <= n <= high /\ (n = 0 \/ packet_cost (suffix_packet h b e n) <= lim) /\
  (forall k, n < k <= zlen b -> lim < packet_cost (suffix_packet h b e k)).
Proof.
  intros Hs. revert low high. induction fuel as [|fuel IH]; intros low high Hl Hh Hf Hlow Hhigh;
    cbn [truncate_search]; cbv zeta.
  { replace high with low in * by lia. split_and!; [lia|lia|done|done]. }
  destruct (Z.ltb_spec low high) as [Hlt|]; [|replace high with low in * by lia; done].
  set (mid := low + (high - low + 1) / 2).
  assert (low < mid <= high) as Hmid.
  { unfold mid. pose proof (Z.div_lt_upper_bound (high - low + 1) 2 (high - low + 1)).
    assert (1 <= (high - low + 1) / 2) by (apply Z.div_le_lower_bound; lia). lia. }
  assert (sat_add usize_max (zlen (tb_encode (mkTB (Some (zdrop (zlen b - mid) b)) e)))
    (HEADER_LEN + FRAME_BYTES) = packet_cost (suffix_packet h b e mid)) as ->.
  { unfold packet_cost, wire_len, suffix_packet, sat_add. cbn [payload Packet.new].
    f_equal. lia. }
  destruct (Z.leb_spec (packet_cost (suffix_packet h b e mid)) lim) as [Hfit|Hover].
  - destruct (IH mid high) as (R1 & R2 & R3); [lia..|auto|done|]. split_and!; [lia|lia|done|done].
  - destruct (IH low (mid - 1)) as (R1 & R2 & R3); [lia..|done| |split_and!; [lia|lia|done|done]].
    intros k Hk. pose proof (suffix_cost_mono h b e mid k Hs). lia.
Qed.

(** Truncating an oversized packet keeps the longest tail that fits: the
    result carries the last [n] bytes, fits the limit unless it is empty, and no
    longer tail would. *)
Theorem truncate_keeps_longest_tail p lim m b :
  tb_decode (payload p) = Some m -> buffer m = Some b -> small b ->
  exists n, 0 <= n <= zlen b /\
    truncate_terminal p lim = Ok (suffix_packet (header p) b (is_stderr m) n) /\
    (n = 0 \/ packet_cost (suffix_packet (header p) b (is_stderr m) n) <= lim) /\
    (forall k, n < k <= zlen b -> lim < packet_cost (suffix_packet (header p) b (is_stderr m) k)) /\
    tb_decode (payload (suffix_packet (header p) b (is_stderr m) n)) =
      Some (mkTB (Some (zdrop (zlen b - n) b)) (is_stderr m)).
Proof.
  intros Hd Hb Hs. pose proof (zlen_nonneg b).
  destruct (truncate_search_spec (length b) (header p) b (is_stderr m) lim 0 (zlen b) Hs
    ltac:(lia) ltac:(lia) ltac:(unfold zlen; lia) (or_introl eq_refl) ltac:(intros; lia))
    as (N1 & N2 & N3).
  eexists. split_and!; [exact (proj1 N1)|exact (proj2 N1)| |exact N2|exact N3|].
  - unfold truncate_terminal. by rewrite Hd, Hb.
  - cbn [suffix_packet Packet.new payload]. apply tb_decode_encode. unfold tb_small. cbn.
    unfold small in *. rewrite zlen_zdrop. lia.
Qed.
End truncation.

(** ** The terminal byte stream *)

(** A packet as the terminal writes it: one stream's bytes, encoded by
    [encode_terminal_buffer]. *)
Definition canonical (p : Packet) : Prop :=
  exists b e, small b /\ p = Packet.new TERMINAL_BUFFER (encode_terminal_buffer b e).

(** The bytes a packet carries, each with the stream it belongs to. *)
Definition packet_stream (p : Packet) : list (byte * bool) :=
  match decode_terminal_buffer (payload p) with
  | Some (b, e) => map (fun x => (x, e)) b
  | None => []
  end.

Definition lane_stream (q : OutputQueue) : list (byte * bool) :=
  concat (map packet_stream (terminal q)).

Section lossless.
Context {codec : TerminalBufferCodec} {search : Memchr}.

Lemma decode_canonical_packet b e :
  small b -> decode_terminal_buffer (encode_terminal_buffer b e) = Some (b, e).
Proof. intros Hb. apply decode_encode. unfold small in Hb. lia. Qed.

Lemma append_lossless q p :
  Forall canonical (terminal q) -> canonical p ->
  lane_stream (append_terminal q p) = lane_stream q ++ packet_stream p /\
  Forall canonical (terminal (append_terminal q p)).
Proof.
  intros Hq Hp. unfold append_terminal. set (q1 := if packet_may_contain_control q p then _ else q).
  assert (terminal q1 = terminal q) as Et by (unfold q1; by destruct (packet_may_contain_control q p)).
  assert (lane_stream (push_back_terminal q1 p) = lane_stream q ++ packet_stream p /\
    Forall canonical (terminal (push_back_terminal q1 p))) as Hpb.
  { unfold lane_stream. cbn. rewrite Et, map_app, concat_app. cbn. rewrite app_nil_r.
    split; [done|]. apply Forall_app. by split; [|constructor]. }
  destruct (split_back (terminal q1)) as [[front back]|] eqn:Hb; [|done].
  apply split_back_eq in Hb. rewrite Et in Hb.
  destruct Hp as (b & e & Hs & ->). cbn [Packet.new payload] in *.
  rewrite (decode_canonical_packet b e Hs).
  rewrite Hb in Hq. apply Forall_app in Hq as [Hfront Hback%Forall_cons_iff].
  destruct Hback as [(body & e' & Hs' & ->) _]. unfold small in *.
  rewrite append_encoded by lia.
  destruct (Bool.eqb e' e && (zlen body + zlen b <=? COALESCED_TERMINAL_BYTES)) eqn:C; [|done].
  apply andb_true_iff in C as [<-%eqb_prop C%Z.leb_le]. unfold COALESCED_TERMINAL_BYTES in C.
  assert (small (body ++ b)) as Hsb by (unfold small; len_lia).
  unfold lane_stream. cbn [set_terminal terminal]. rewrite Hb, !map_app, !concat_app.
  cbn [map concat]. unfold packet_stream at 2 4 5. cbn [Packet.new payload].
  rewrite !decode_canonical_packet by done. rewrite !app_nil_r, map_app, app_assoc.
  split; [done|]. apply Forall_app. split; [done|]. constructor; [|done]. by exists (body ++ b), e'.
Qed.

Lemma push_unskipped q p :
  mode q = Backpressure -> skip_until_newline q = false ->
  Forall canonical (terminal q) -> canonical p ->
  match push_terminal q p with
  | (q', Ok _) =>
      lane_stream q' = lane_stream q ++ packet_stream p /\ Forall canonical (terminal q') /\
      control q' = control q
  | (q', Err e) => q' = q /\ (e = Full p \/ e = Oversized p)
  end.
Proof.
  intros Hm Hskip Hq Hp. pose proof Hp as (b & e & Hs & Ep).
  assert (is_terminal_output p = true) as Ht by (by rewrite Ep).
  unfold push_terminal, skip_through_newline. rewrite Hskip. cbn [negb].
  destruct (limit q <? packet_cost p) eqn:Hsize.
  { rewrite decide_True by done. split; [done|by right]. }
  rewrite bool_decide_true by done. cbn [andb].
  destruct (_ || _) eqn:Hfull; [split; [done|by left]|].
  assert (evict (limit q) (packet_cost p) (terminal q) (terminal_bytes q) (terminal_packets q) =
    ((terminal q, terminal_bytes q, terminal_packets q), true)) as ->.
  { destruct (terminal q); cbn [evict]; by rewrite Hfull. }
  replace (set_terminal q (terminal q) (terminal_bytes q) (terminal_packets q)) with q
    by (by destruct q).
  destruct (append_lossless q p Hq Hp) as [H1 H2]. split_and!; [done..|].
  apply (tc_control _ _ (append_change q p Ht)).
Qed.

(** A packet of which the rest of a flush leaves something is pushed as that. *)
Lemma skip_push q p q1 p1 :
  skip_through_newline q p = (q1, Some p1) -> skip_until_newline q1 = false -> push_terminal q p = push_terminal q1 p1.
Proof.
  intros E Hs. unfold push_terminal at 1. rewrite E. unfold push_terminal, skip_through_newline. by rewrite Hs.
Qed.

Context {laws : TerminalBufferLaws codec}.

(** The bytes of a packet that a flush still waiting for the end of its line
    lets through. *)
Fixpoint through_newline (l : list (byte * bool)) : list (byte * bool) :=
  match l with
  | [] => []
  | (b, _) :: l => if beq NL b then l else through_newline l
  end.

Definition admitted_stream (q : OutputQueue) (p : Packet) : list (byte * bool) :=
  if skip_until_newline q then through_newline (packet_stream p) else packet_stream p.

Lemma through_newline_position b (e : bool) :
  through_newline (map (fun x => (x, e)) b) =
  match position (beq NL) b with
  | Some n => map (fun x => (x, e)) (drop (n + 1) b)
  | None => []
  end.
Proof.
  induction b as [|x b IH]; [done|]. cbn [map through_newline position]. destruct (beq NL x); [done|].
  rewrite IH. by destruct (position (beq NL) b).
Qed.

Lemma encode_canonical b e :
  small b -> encode_terminal_buffer b e = tb_encode (mkTB (Some b) (if e then Some true else None)).
Proof. intros Hs. rewrite tb_encode_bytes by done. unfold encode_terminal_buffer. by destruct e. Qed.

(** What the rest of a flush leaves of a packet. *)
Lemma skip_cases q p :
  skip_until_newline q = true -> canonical p ->
  match skip_through_newline q p with
  | (q', None) => terminal q' = terminal q /\ control q' = control q /\ admitted_stream q p = []
  | (q', Some p') => q' = set_skip q false /\ canonical p' /\ packet_stream p' = admitted_stream q p
  end.
Proof.
  intros Hskip (b & e & Hs & ->).
  assert (forall b', small b' -> packet_stream (Packet.new TERMINAL_BUFFER (encode_terminal_buffer b' e)) =
    map (fun x => (x, e)) b') as Hps.
  { intros b' Hs'. unfold packet_stream. cbn [Packet.new payload]. by rewrite decode_canonical_packet. }
  unfold admitted_stream, skip_through_newline. rewrite Hskip, Hps, through_newline_position by done.
  cbn [negb Packet.new payload header]. rewrite encode_canonical, tb_decode_encode by done. cbn [buffer is_stderr].
  destruct (position (beq NL) b) as [n|]; [|done].
  assert (small (drop (n + 1) b)) as Hd by (unfold small, zlen in *; rewrite length_drop; lia).
  destruct (drop (n + 1) b) as [|x rest]; [done|]. rewrite <-encode_canonical by done.
  split; [done|]. split; [by exists (x :: rest), e|]. by apply Hps.
Qed.

(** C32: In backpressure mode output is never lost. Queue and packet hold what
    the terminal writes, the encoding of [encode_terminal_buffer]. The bytes of
    an accepted packet are appended, in order and on their own stream, to the
    queued output; after an interrupt whose flush ended inside a line, those up
    to the next newline are the rest of what it drops. A refused packet leaves
    the queued output as it was and is handed back with the bytes that are
    still to be written, and outside of such a flush queue and packet are
    unchanged. *)
Theorem backpressure_is_lossless q p :
  mode q = Backpressure -> Forall canonical (terminal q) -> canonical p ->
  match push q p with
  | (q', Ok _) =>
      lane_stream q' = lane_stream q ++ admitted_stream q p /\ Forall canonical (terminal q') /\
      control q' = control q
  | (q', Err e) =>
      exists p', (e = Full p' \/ e = Oversized p') /\ canonical p' /\ packet_stream p' = admitted_stream q p /\
        terminal q' = terminal q /\ control q' = control q /\ skip_until_newline q' = false /\
        (skip_until_newline q = false -> q' = q /\ p' = p)
  end.
Proof.
  intros Hm Hq Hp. assert (is_terminal_output p = true) as Ht by (by destruct Hp as (b & e & _ & ->)).
  unfold push. rewrite Ht. destruct (skip_until_newline q) eqn:Hskip.
  - pose proof (skip_cases q p Hskip Hp) as Hs. destruct (skip_through_newline q p) as [q1 [p1|]] eqn:E.
    + destruct Hs as (-> & Hp1 & <-). rewrite (skip_push q p _ p1 E eq_refl).
      pose proof (push_unskipped (set_skip q false) p1 Hm eq_refl Hq Hp1) as H.
      destruct (push_terminal (set_skip q false) p1) as [q' [u|e]]; [done|]. destruct H as [-> He]. by exists p1.
    + destruct Hs as (H1 & H2 & ->). unfold push_terminal. rewrite E. unfold lane_stream. rewrite H1, app_nil_r. done.
  - pose proof (push_unskipped q p Hm Hskip Hq Hp) as H. unfold admitted_stream. rewrite Hskip.
    destruct (push_terminal q p) as [q' [u|e]]; [done|]. destruct H as [-> He]. by exists p.
Qed.


Definition text (bodies : list (list byte * option bool)) : list byte := concat (map fst bodies).

Lemma lane_bodies_cons h b e lane bodies :
  small b -> lane_bodies lane = Some bodies ->
  lane_bodies (Packet.new h (tb_encode (mkTB (Some b) e)) :: lane) = Some ((b, e) :: bodies).
Proof.
  intros Hs Hl. cbn [lane_bodies Packet.new payload].
  rewrite tb_decode_encode by done. cbn [buffer is_stderr]. by rewrite Hl.
Qed.

(** Distributing kept bytes over the packets they came from keeps all of
    them. *)
Lemma retain_text lane bodies rem bytes packets :
  length bodies = length lane -> (length rem <= length (text bodies))%nat -> small rem ->
  exists bodies', lane_bodies (fst (fst (retain_lane lane bodies rem bytes packets))) = Some bodies' /\
    text bodies' = rem.
Proof.
  revert bodies rem bytes packets. induction lane as [|p lane IH];
    intros bodies rem bytes packets Hl Hr Hs.
  - destruct bodies; [|done]. cbn in Hr. exists []. split; [done|]. by destruct rem; [|cbn in Hr; lia].
  - destruct bodies as [|[body e] bodies]; [done|]. injection Hl as Hl.
    unfold text in Hr. cbn [map concat fst] in Hr. fold (text bodies) in Hr. rewrite length_app in Hr.
    cbn [retain_lane]. cbv zeta.
    destruct (bool_decide_reflect (Nat.min (length rem) (length body) = 0%nat)) as [Hc|Hc].
    + apply IH; [done| |done]. lia.
    + set (n := Nat.min (length rem) (length body)) in *.
      destruct (IH bodies (drop n rem) (bytes - packet_cost p + packet_cost (Packet.new (header p)
        (tb_encode (mkTB (Some (take n rem)) e)))) (packets - 1 + 1)) as (bodies' & H1 & H2);
        [done|rewrite length_drop; lia|unfold small, zlen in *; rewrite length_drop; lia|].
      destruct (retain_lane lane bodies (drop n rem) _ _) as [[rest b1] n1]. cbn [fst] in H1 |- *.
      exists ((take n rem, e) :: bodies'). split.
      * apply lane_bodies_cons; [|done]. unfold small, zlen in *. rewrite length_take. lia.
      * unfold text in *. cbn [map concat fst]. by rewrite H2, take_drop.
Qed.

(** An interrupt drops exactly what the stream filter rejects: nothing when
    less than the threshold is queued; otherwise the lane afterwards holds the
    kept bytes, in order, and the call reports the number of bytes dropped. *)
Theorem flush_drops_exactly q bodies threshold :
  lane_bodies (terminal q) = Some bodies -> small (text bodies) -> stream_wf (stream q) ->
  MemchrLaws search ->
  let result := stream_filter (stream q) (text bodies) in
  let (q', n) := filter_terminal q threshold in
  (text bodies = [] \/ zlen (text bodies) < threshold) /\ q' = q /\ n = 0 \/
  exists bodies', lane_bodies (terminal q') = Some bodies' /\ text bodies' = kept result /\
    n = zlen (text bodies) - zlen (kept result) /\ control q' = control q /\ stream q' = stream q.
Proof.
  intros Hb Hs Hwf Hsearch result. unfold filter_terminal. rewrite Hb. fold (text bodies).
  destruct (bool_decide_reflect (text bodies = [])) as [->|Hne]; [left; split_and!; auto|].
  cbn [orb]. destruct (Z.ltb_spec (zlen (text bodies)) threshold); [left; split_and!; auto|].
  fold result. cbv zeta.
  destruct (partition_spec (stream q) (text bodies) false Hwf)
    as (front & rest & s' & Hsplit & _ & _ & Hk & _ & Hdrop).
  fold (stream_filter (stream q) (text bodies)) in Hk, Hdrop. fold result in Hk, Hdrop.
  assert (length (kept result) <= length (text bodies))%nat as Hlen.
  { rewrite Hk, Hsplit, !length_app. apply Nat.add_le_mono_l.
    rewrite <-(concat_split_inclusive NL rest) at 2. apply sublist_length, kept_sublist. }
  destruct (retain_text (terminal q) bodies (kept result) (terminal_bytes q) (terminal_packets q))
    as (bodies' & R1 & R2); [by apply lane_bodies_length|done|unfold small, zlen in *; lia|].
  cbn [terminal set_skip terminal_bytes terminal_packets].
  destruct (retain_lane _ _ _ _ _) as [[lane bs] ps]. cbn [fst] in R1.
  right. exists bodies'. by split_and!.
Qed.
End lossless.

(** ** A codec

    The protobuf encoding of the two fields, read back with the hand-written
    decoder, satisfies the laws. *)

Definition simple_encode (m : TerminalBuffer) : list byte :=
  match buffer m with
  | Some b => [z2b 0x0a] ++ encode_varint (zlen b) ++ b
  | None => []
  end ++
  match is_stderr m with Some v => [z2b 0x10; z2b (if v then 1 else 0)] | None => [] end.

Definition simple_decode_buffer (l : list byte) : option TerminalBuffer :=
  match decode_terminal_buffer l with
  | Some (b, e) =>
      Some (mkTB (Some b)
        (if negb e && list_eqb l ([z2b 0x0a] ++ encode_varint (zlen b) ++ b)
         then None else Some e))
  | None => None
  end.

Definition simple_decode (l : list byte) : option TerminalBuffer :=
  match l with
  | [] => Some (mkTB None None)
  | [t; v] =>
      if beq t (z2b 0x10) then Some (mkTB None (Some (beq v (z2b 1)))) else simple_decode_buffer l
  | _ => simple_decode_buffer l
  end.

#[local] Instance simple_codec : TerminalBufferCodec := {|
  tb_decode := simple_decode; tb_encode := simple_encode |}.

Lemma simple_decode_0a rest :
  simple_decode (z2b 0x0a :: rest) = simple_decode_buffer (z2b 0x0a :: rest).
Proof. by destruct rest as [|? [|]]. Qed.

#[local] Instance simple_codec_laws : TerminalBufferLaws simple_codec.
Proof.
  split; cbn [tb_decode tb_encode simple_codec].
  - intros [[b|] e] Hs; [|by destruct e as [[]|]]. unfold tb_small, small in Hs. cbn [buffer] in Hs.
    unfold simple_encode. cbn [buffer is_stderr]. rewrite <-!app_assoc.
    set (sfx := match e with Some v => _ | None => [] end).
    change ([z2b 0x0a] ++ encode_varint (zlen b) ++ b ++ sfx)
      with (z2b 0x0a :: encode_varint (zlen b) ++ b ++ sfx).
    rewrite simple_decode_0a. unfold simple_decode_buffer.
    change (z2b 0x0a :: encode_varint (zlen b) ++ b ++ sfx)
      with ([z2b 0x0a] ++ encode_varint (zlen b) ++ b ++ sfx).
    rewrite decode_canonical by lia.
    destruct e as [v|]; unfold sfx.
    + assert (stderr_suffix [z2b 0x10; z2b (if v then 1 else 0)] = Some v) as -> by (by destruct v).
      cbn [mbind option_bind]. destruct (negb v && _) eqn:E; [|done].
      apply andb_true_iff in E as [_ E]. apply list_eqb_spec, (f_equal zlen) in E. autorewrite with zlen in E. lia.
    + cbn [mbind option_bind stderr_suffix negb andb]. rewrite app_nil_r.
      by rewrite (proj2 (list_eqb_spec _ _)) by done.
  - intros b e Hs. unfold simple_encode. cbn [buffer is_stderr]. by rewrite <-!app_assoc.
  - intros p b e Hd. assert (simple_decode p = simple_decode_buffer p) as ->.
    { unfold decode_terminal_buffer in Hd. destruct p as [|t rest]; [done|].
      destruct (Z.eqb_spec (b2z t) 0x0a) as [Ht|]; [|done].
      replace t with (z2b 0x0a) by (rewrite <-Ht; apply z2b_b2z). apply simple_decode_0a. }
    unfold simple_decode_buffer. rewrite Hd. eexists. split_and!; [done|done|]. cbn.
    destruct e; [done|]. by destruct (negb false && _).
Qed.

#[local] Existing Instance simple_search.

(** C40: Finding: the bytes that survive a flush are handed out again by packet
    length, and each packet keeps its own stream flag. Bytes of a stderr packet
    behind dropped stdout output move to stdout: here all of [%error x] was
    stderr, and its first two bytes come out as stdout. *)
Theorem flush_moves_stderr_to_stdout :
  let out := Packet.new TERMINAL_BUFFER (encode_terminal_buffer [x61; NL] false) in
  let err := Packet.new TERMINAL_BUFFER
    (encode_terminal_buffer ([x25; x65; x72; x72; x6f; x72; x20; x78] ++ [NL]) true) in
  let q := fst (push (new Backpressure 1000) out) in
  let (q', n) := discard_drained_terminal q [err] in
  n = 2 /\ packet_stream err = map (fun b => (b, true)) [x25; x65; x72; x72; x6f; x72; x20; x78; NL] /\
  lane_stream q' = map (fun b => (b, false)) [x25; x65] ++
                   map (fun b => (b, true)) [x72; x72; x6f; x72; x20; x78; NL].
Proof. vm_compute. done. Qed.

(** ** Witnesses *)

Definition demo_terminal : Packet := Packet.new TERMINAL_BUFFER (encode_terminal_buffer [x61; NL] false).
Definition demo_control : Packet := Packet.new x00 [x62].
Definition demo_session : session_queue :=
  let q := fst (push (codec := simple_codec) (search := simple_search) (new Backpressure 1000) demo_terminal) in
  mkSQ (fst (push (codec := simple_codec) (search := simple_search) q demo_control)) [].

Lemma demo_session_reachable :
  queue_reachable (codec := simple_codec) (search := simple_search) Backpressure 1000 demo_session.
Proof. eapply qr_step; [eapply qr_step; [apply qr_new|apply q_push]|apply q_push]. Qed.

Lemma queue_accounting_witness :
  bytes (sq_queue demo_session) = packet_cost demo_terminal + packet_cost demo_control.
Proof.
  destruct (queue_accounting (codec := simple_codec) (search := simple_search) Backpressure 1000 demo_session
    demo_session_reachable) as [H _].
  cbv zeta in H. rewrite H. vm_compute. reflexivity.
Defined.

Lemma accepted_push_stays_bounded_witness :
  terminal_bytes (fst (push (codec := simple_codec) (search := simple_search) (new Backpressure 1000)
    demo_terminal)) <= 1000.
Proof.
  apply (accepted_push_stays_bounded (codec := simple_codec) (search := simple_search)
    (new Backpressure 1000) demo_terminal _ eq_refl eq_refl eq_refl).
Defined.

Lemma lanes_alternate_witness :
  let t1 := take_packet (sq_queue demo_session) in
  let t2 := take_packet (fst t1) in
  match snd t1, snd t2 with
  | Some p1, Some p2 => is_terminal_output p2 = negb (is_terminal_output p1)
  | _, _ => False
  end.
Proof.
  intros t1 t2. assert (snd t1 <> None /\ snd t2 <> None) as [N1 N2] by (vm_compute; split; discriminate).
  subst t2. destruct t1 as [q1 [p1|]] eqn:E1; [|by destruct N1]. cbn [fst] in N2 |- *.
  destruct (take_packet q1) as [q2 [p2|]] eqn:E2; [|by destruct N2]. cbn [snd].
  apply (lanes_alternate (codec := simple_codec) (search := simple_search) Backpressure 1000 demo_session q1 p1 q2 p2
    demo_session_reachable); [vm_compute; discriminate..|exact E1|exact E2].
Defined.

Lemma truncate_keeps_longest_tail_witness :
  exists n, 0 <= n <= 2 /\
    truncate_terminal (codec := simple_codec) demo_terminal 11 =
      Ok (suffix_packet (codec := simple_codec) TERMINAL_BUFFER [x61; NL] None n).
Proof.
  destruct (truncate_keeps_longest_tail (laws := simple_codec_laws) demo_terminal 11
    (mkTB (Some [x61; NL]) None) [x61; NL]) as (n & H1 & H2 & _); [vm_compute; reflexivity..|].
  exists n. split; [exact H1|exact H2].
Defined.

Lemma backpressure_is_lossless_witness :
  lane_stream (fst (push (codec := simple_codec) (search := simple_search) (new Backpressure 1000) demo_terminal)) =
    [(x61, false); (NL, false)].
Proof.
  apply (backpressure_is_lossless (laws := simple_codec_laws) (search := simple_search) (new Backpressure 1000)
    demo_terminal); [done|constructor|].
  exists [x61; NL], false. split; [vm_compute; reflexivity|done].
Defined.

Lemma flush_drops_exactly_witness :
  exists bodies',
    lane_bodies (codec := simple_codec) (terminal (fst
      (filter_terminal (codec := simple_codec) (search := simple_search) (sq_queue demo_session) 1))) = Some bodies' /\
    text bodies' = kept (stream_filter (search := simple_search) (stream (sq_queue demo_session)) [x61; NL]).
Proof.
  pose proof (flush_drops_exactly (laws := simple_codec_laws) (search := simple_search) (sq_queue demo_session)
    [([x61; NL], None)] 1) as H.
  destruct (filter_terminal _ 1) as [q' n]. destruct H as [[H _]|(bodies' & H1 & H2 & _)].
  - vm_compute. reflexivity.
  - vm_compute. reflexivity.
  - split; vm_compute; done.
  - apply simple_search_laws.
  - exfalso. destruct H as [H|H]; vm_compute in H; discriminate.
  - exists bodies'. split; [exact H1|exact H2].
Defined.
