(* ===== verification/FramingIo.v ===== *)
(** * FramingIo: [crates/et-net/src/framing_io.rs]

    Length-prefixed messages over a socket: bounded writes, bodies read in
    64 KiB pieces, and reads under an idle timeout and an absolute deadline.
    Clock readings (nanoseconds) and the answers of the socket calls are
    arguments. *)

From S2P Require Import Prelude Framing.

(** The [io::ErrorKind]s the code distinguishes. *)
Inductive io_kind :=
| WouldBlock | Interrupted | TimedOut | UnexpectedEof | WriteZero | NotConnected
| BrokenPipe | ConnectionAborted | ConnectionReset | InvalidData | InvalidInput | OtherIo.

#[export] Instance io_kind_eq_dec : EqDecision io_kind.
Proof. solve_decision. Defined.

(** A blocking call either returns or is still waiting for the system. *)
Inductive blocking (W R : Type) :=
| Returned (r : R)
| Waiting (w : W).
Arguments Returned {W R} r.
Arguments Waiting {W R} w.

(** Durations, in nanoseconds. *)
Definition secs (n : Z) : Z := n * 1000000000.
Definition SOCKET_IDLE_TIMEOUT : Z := secs 30.
Definition SOCKET_ABSOLUTE_TIMEOUT : Z := secs 60.
Definition PROTO_READ_CHUNK : Z := 64 * 1024.

(** ** Messages *)

(** [(0..=max_len).contains(&length)] *)
Definition length_allowed (max_len length : Z) : bool := (0 <=? length) && (length <=? max_len).

(** [write_proto_limited] on an encoded message: the bytes written. *)
Definition write_proto_limited (max_len : Z) (encoded : list byte) : result io_kind (list byte) :=
  if i64_max <? zlen encoded then Err InvalidInput
  else if negb (length_allowed max_len (zlen encoded)) then Err InvalidInput
  else Ok (le_bytes 8 (zlen encoded) ++ encoded).

(** The length that [read_proto_limited] and [read_frame_limited_deadline]
    take from the eight prefix bytes. *)
Definition frame_length (max_len : Z) (prefix : list byte) : result io_kind Z :=
  let length := to_signed 64 (le_val prefix) in
  if length_allowed max_len length then Ok length else Err InvalidData.

(** [read_body] over any reader: [read_exact] reads the number of bytes it is
    given or fails. *)
Section body.
Context {R : Type} (read_exact : R -> Z -> R * result io_kind (list byte)).

Fixpoint read_body_go (fuel : nat) (reader : R) (length : Z) (acc : list byte)
  : R * result io_kind (list byte) :=
  if length <=? zlen acc then (reader, Ok acc)
  else
    match fuel with
    | O => (reader, Err OtherIo)
    | S fuel =>
        let count := Z.min (length - zlen acc) PROTO_READ_CHUNK in
        match read_exact reader count with
        | (reader, Ok chunk) => read_body_go fuel reader length (acc ++ chunk)
        | (reader, Err e) => (reader, Err e)
        end
    end.

(** Every turn adds at least one byte, so [length] turns are enough. *)
Definition read_body (reader : R) (length : Z) : R * result io_kind (list byte) :=
  read_body_go (Z.to_nat length) reader length [].

(** [read_frame_limited_deadline], and [read_proto_limited] before decoding. *)
Definition read_frame_limited (max_len : Z) (reader : R) : R * result io_kind (list byte) :=
  match read_exact reader 8 with
  | (reader, Ok prefix) =>
      match frame_length max_len prefix with
      | Ok length => read_body reader length
      | Err e => (reader, Err e)
      end
  | (reader, Err e) => (reader, Err e)
  end.
End body.

(** A reader over bytes in memory, [io::Cursor]. *)
Definition cursor_read_exact (input : list byte) (n : Z) : list byte * result io_kind (list byte) :=
  if n <=? zlen input then (zdrop n input, Ok (ztake n input)) else ([], Err UnexpectedEof).

(** ** Deadlines *)

(** One turn of a read loop: the clock at its start, the clock when the
    socket timeout is set, the socket's answer, and the clock after it. *)
Record read_turn := mkReadTurn {
  rt_now : Z;
  rt_set : Z;
  rt_answer : result io_kind (list byte);
  rt_after : Z
}.

Definition elapsed (deadline : option Z) (now : Z) : bool := is_some_and (fun d => d <=? now) deadline.

Definition earliest (idle absolute : option Z) : option Z :=
  match idle, absolute with
  | Some i, Some a => Some (Z.min i a)
  | Some i, None => Some i
  | None, Some a => Some a
  | None, None => None
  end.

(** The loop of [read_exact_with_deadlines] with [need] bytes to go; the bytes
    read come back as well. *)
Fixpoint read_exact_loop (need : Z) (idle absolute idle_deadline : option Z) (turns : list read_turn)
  : list byte * blocking unit (result io_kind unit) :=
  if need =? 0 then ([], Returned (Ok tt))
  else
    match turns with
    | [] => ([], Waiting tt)
    | t :: turns =>
        if elapsed idle_deadline (rt_now t) || elapsed absolute (rt_now t)
        then ([], Returned (Err TimedOut))
        else
          let next := earliest idle_deadline absolute in
          if elapsed next (rt_set t) then ([], Returned (Err TimedOut))
          else
            match rt_answer t with
            | Ok received =>
                if zlen received =? 0 then ([], Returned (Err UnexpectedEof))
                else
                  let idle_deadline := match idle with Some i => Some (rt_after t + i) | None => None end in
                  let '(taken, r) := read_exact_loop (need - zlen received) idle absolute idle_deadline turns in
                  (received ++ taken, r)
            | Err Interrupted => read_exact_loop need idle absolute idle_deadline turns
            | Err WouldBlock =>
                match next with
                | Some _ => read_exact_loop need idle absolute idle_deadline turns
                | None => ([], Returned (Err WouldBlock))
                end
            | Err TimedOut =>
                match next with
                | Some _ => read_exact_loop need idle absolute idle_deadline turns
                | None => ([], Returned (Err TimedOut))
                end
            | Err e => ([], Returned (Err e))
            end
    end.

Definition read_exact_with_deadlines (need : Z) (idle absolute : option Z) (start : Z)
    (turns : list read_turn) : list byte * blocking unit (result io_kind unit) :=
  read_exact_loop need idle absolute (match idle with Some i => Some (start + i) | None => None end) turns.

(** One turn of [write_all_deadline]: the clock and the socket's answer. *)
Record all_turn := mkAllTurn { at_now : Z; at_answer : result io_kind Z }.

Fixpoint write_all_deadline (buffer : list byte) (deadline : Z) (turns : list all_turn)
  : list byte * blocking unit (result io_kind unit) :=
  if zlen buffer =? 0 then ([], Returned (Ok tt))
  else
    match turns with
    | [] => ([], Waiting tt)
    | t :: turns =>
        if deadline <=? at_now t then ([], Returned (Err TimedOut))
        else
          match at_answer t with
          | Ok count =>
              if count =? 0 then ([], Returned (Err WriteZero))
              else
                let '(sent, r) := write_all_deadline (zdrop count buffer) deadline turns in
                (ztake count buffer ++ sent, r)
          | Err Interrupted => write_all_deadline buffer deadline turns
          | Err e => ([], Returned (Err e))
          end
    end.

(** ** Messages round-trip *)

Lemma to_signed_le_bytes n :
  0 <= n <= i64_max -> to_signed 64 (le_val (le_bytes 8 n)) = n.
Proof.
  intros H. unfold i64_max in H. rewrite le_val_le_bytes.
  rewrite Z.mod_small by (change (256 ^ Z.of_nat 8) with (2 ^ 64); lia).
  unfold to_signed. decide_ifs. done.
Qed.

Lemma cursor_read_app n l k : zlen l = n -> cursor_read_exact (l ++ k) n = (k, Ok l).
Proof.
  intros <-. unfold cursor_read_exact. rewrite zdrop_app_exact, ztake_app_exact.
  by rewrite (proj2 (Z.leb_le _ _)) by len_lia.
Qed.

Lemma read_body_cursor fuel body rest length acc :
  zlen acc + zlen body = length -> zlen body <= Z.of_nat fuel ->
  read_body_go cursor_read_exact fuel (body ++ rest) length acc = (rest, Ok (acc ++ body)).
Proof.
  revert body acc. induction fuel as [|fuel IH]; intros body acc H1 H2; cbn [read_body_go].
  - assert (zlen body = 0) as E by len_lia. apply zlen_0_nil in E as ->.
    rewrite app_nil_r. by rewrite (proj2 (Z.leb_le _ _)) by len_lia.
  - destruct (Z.leb_spec length (zlen acc)).
    { assert (zlen body = 0) as E by len_lia. apply zlen_0_nil in E as ->. by rewrite app_nil_r. }
    set (count := Z.min (length - zlen acc) PROTO_READ_CHUNK).
    assert (0 < count <= zlen body) by (unfold count, PROTO_READ_CHUNK; lia).
    rewrite <-(ztake_zdrop count body) at 1. rewrite <-app_assoc, cursor_read_app by len_lia.
    rewrite IH by len_lia. by rewrite <-app_assoc, ztake_zdrop.
Qed.

Lemma frame_length_written max_len n :
  0 <= n <= max_len -> n <= i64_max -> frame_length max_len (le_bytes 8 n) = Ok n.
Proof.
  intros H1 H2. unfold frame_length. rewrite to_signed_le_bytes by lia.
  unfold length_allowed. by rewrite !(proj2 (Z.leb_le _ _)) by lia.
Qed.

(** A message that the writer accepts is read back whole, in 64 KiB pieces,
    and nothing behind it is touched; a message above the limit is refused
    before anything is written. *)
Theorem frame_roundtrip max_len encoded rest :
  match write_proto_limited max_len encoded with
  | Ok written =>
      read_frame_limited cursor_read_exact max_len (written ++ rest) = (rest, Ok encoded) /\
      zlen written = 8 + zlen encoded
  | Err e => e = InvalidInput /\ (max_len < zlen encoded \/ i64_max < zlen encoded)
  end.
Proof.
  unfold write_proto_limited. destruct (Z.ltb_spec i64_max (zlen encoded)); [by auto|].
  destruct (length_allowed max_len (zlen encoded)) eqn:E; cbn [negb]; unfold length_allowed in E.
  - apply andb_true_iff in E as [_ E%Z.leb_le]. split; [|len_lia].
    unfold read_frame_limited. rewrite <-app_assoc, cursor_read_app by len_lia.
    rewrite frame_length_written by len_lia. unfold read_body.
    by rewrite (read_body_cursor _ encoded rest _ []) by len_lia.
  - split; [done|]. apply andb_false_iff in E as [E%Z.leb_gt|E%Z.leb_gt]; len_lia.
Qed.

(** ** Deadlines hold *)

(** The bytes asked for and never more: what the socket promises of a read
    into a buffer of [need] bytes. *)
Fixpoint answers_fit (need : Z) (turns : list read_turn) : Prop :=
  match turns with
  | [] => True
  | t :: turns =>
      match rt_answer t with
      | Ok received => zlen received <= need /\ answers_fit (need - zlen received) turns
      | Err _ => answers_fit need turns
      end
  end.

Lemma read_exact_loop_returns need idle a idle_deadline turns :
  Exists (fun t => a <= rt_now t) turns ->
  exists r, snd (read_exact_loop need idle (Some a) idle_deadline turns) = Returned r.
Proof.
  intros H. revert need idle_deadline. induction H as [t turns Ht|t turns H IH]; intros need idle_deadline;
    cbn [read_exact_loop]; (destruct (need =? 0); [by eauto|]).
  - rewrite orb_comm. unfold elapsed at 1. cbn [is_some_and].
    rewrite (proj2 (Z.leb_le _ _)) by lia. cbn [orb]. by eauto.
  - destruct (elapsed idle_deadline (rt_now t) || elapsed (Some a) (rt_now t)); [by eauto|].
    destruct (elapsed _ (rt_set t)); [by eauto|].
    destruct (rt_answer t) as [received|e].
    + destruct (zlen received =? 0); [by eauto|].
      destruct (IH (need - zlen received)
        (match idle with Some i => Some (rt_after t + i) | None => None end)) as [r Hr].
      destruct (read_exact_loop _ _ _ _ turns). cbn [snd] in *. by eauto.
    + destruct e; try (by eauto); destruct (earliest idle_deadline (Some a)); by eauto.
Qed.

Lemma read_exact_loop_ok need idle absolute idle_deadline turns taken :
  0 <= need -> answers_fit need turns ->
  read_exact_loop need idle absolute idle_deadline turns = (taken, Returned (Ok tt)) ->
  zlen taken = need.
Proof.
  revert need idle_deadline taken. induction turns as [|t turns IH]; intros need idle_deadline taken H0 Hfit;
    cbn [read_exact_loop]; destruct (Z.eqb_spec need 0) as [->|Hn]; intros H; try by simplify_eq.
  cbn [answers_fit] in Hfit. case_match; [by simplify_eq|]. case_match; [by simplify_eq|].
  destruct (rt_answer t) as [received|e].
  - destruct Hfit as [Hr Hfit]. case_match; [by simplify_eq|].
    destruct (read_exact_loop _ _ _ _ turns) as [rest r] eqn:E. simplify_eq.
    apply IH in E; [len_lia|lia|done].
  - destruct e; try (by simplify_eq); try (by eapply IH);
      destruct (earliest idle_deadline absolute); try (by simplify_eq); by eapply IH.
Qed.

(** However the peer trickles its bytes, a read under an absolute deadline
    returns once the clock of a turn has reached it, and returns [Ok] only
    with exactly the bytes asked for. *)
Theorem trickle_cannot_outlast_deadline need idle a start turns :
  0 <= need -> answers_fit need turns -> Exists (fun t => a <= rt_now t) turns ->
  match read_exact_with_deadlines need idle (Some a) start turns with
  | (taken, Returned (Ok _)) => zlen taken = need
  | (_, Returned (Err _)) => True
  | (_, Waiting _) => False
  end.
Proof.
  intros H0 Hfit Hex. unfold read_exact_with_deadlines.
  destruct (read_exact_loop_returns need idle a
    (match idle with Some i => Some (start + i) | None => None end) turns Hex) as [r Hr].
  destruct (read_exact_loop _ _ _ _ turns) as [taken out] eqn:E. cbn [snd] in Hr. subst out.
  destruct r as [[]|]; [|done]. by eapply read_exact_loop_ok.
Qed.

(** ** Witnesses *)

Lemma trickle_cannot_outlast_deadline_witness :
  match read_exact_with_deadlines 2 None (Some 5) 0 [mkReadTurn 1 1 (Ok [x61]) 2; mkReadTurn 6 6 (Ok [x62]) 7] with
  | (_, Waiting _) => False
  | _ => True
  end.
Proof.
  assert (answers_fit 2 [mkReadTurn 1 1 (Ok [x61]) 2; mkReadTurn 6 6 (Ok [x62]) 7]) as Hf by (vm_compute; repeat split; discriminate).
  pose proof (trickle_cannot_outlast_deadline 2 None 5 0 [mkReadTurn 1 1 (Ok [x61]) 2; mkReadTurn 6 6 (Ok [x62]) 7]
    ltac:(lia) Hf ltac:(apply Exists_cons_tl, Exists_cons_hd; cbn; lia)) as H.
  vm_compute in H |- *. exact H.
Defined.
