(* ===== verification/LocalPacket.v ===== *)
(** * LocalPacket: the writers of [crates/et-net/src/local_packet.rs]

    Packets between [etserver] and [etterminal]: native 64-bit length, two
    header bytes, payload; status packets; the upstream router stream; and
    the writers that keep a half-written frame across a full socket. The
    target is little-endian and [usize] has 64 bits. What a [Write] answers
    is an argument. *)

From Stdlib Require Import String.
From S2P Require Import Prelude Bytes Framing FramingIo Crypto Packet.

Definition MAX_LOCAL_PACKET_LEN : Z := 128 * 1024 * 1024.
Definition MAX_REGISTRATION_LEN : Z := 4096.
Definition REGISTRATION_STATUS : byte := xfe.
Definition STARTUP_STATUS : byte := xff.
Definition MAX_STATUS_MESSAGE : Z := 8 * 1024.
Definition PREFIX_LEN : Z := 8.
Definition PAYLOAD_READ_STEP : Z := 64 * 1024.
Definition UPSTREAM_ROUTER_STREAM : byte := x01.
Definition ROUTER_HEAD_MAX : Z := PREFIX_LEN + HEADER_LEN.

Inductive LocalPacketError :=
| LIo (e : io_kind)
| TruncatedPrefix
| TruncatedPayload
| NegativeLength
| FrameTooLarge (length limit : Z)
| MalformedPacket (e : PacketError)
| TrailingData
| AlreadyComplete
| UnknownRouterMessage (header : byte).

Inductive RouterFraming := Upstream | Packets.

#[export] Instance RouterFraming_eq_dec : EqDecision RouterFraming.
Proof. solve_decision. Defined.

(** [i64::to_ne_bytes] *)
Definition ne_bytes (z : Z) : list byte := le_bytes 8 z.

Definition flag_byte (b : bool) : byte := if b then x01 else x00.

Definition encode_local_packet (p : Packet) : result io_kind (list byte) :=
  let wire_len := wire_len p in
  if MAX_LOCAL_PACKET_LEN <? wire_len then Err InvalidInput
  else if i64_max <? wire_len then Err InvalidInput
  else Ok (ne_bytes wire_len ++ [flag_byte (encrypted p); header p] ++ payload p).

(** ** Status packets *)

Definition status_packet (hdr : byte) (r : result (list byte) unit) : Packet :=
  new hdr
    match r with
    | Ok _ => [x00]
    | Err message => x01 :: ztake (Z.min (zlen message) MAX_STATUS_MESSAGE) message
    end.

(** The error of a status: the message it carries, or one of two [InvalidData]. *)
Inductive StatusError :=
| StatusOther (message : list byte)
| StatusUnexpected
| StatusMalformed.

(** [to_string] of that error. *)
Definition status_error_text (e : StatusError) : list byte :=
  match e with
  | StatusOther message => message
  | StatusUnexpected => bytes_of "unexpected local status packet"
  | StatusMalformed => bytes_of "malformed local status packet"
  end.

Definition parse_status (p : Packet) (expected_header : byte) : result StatusError unit :=
  if encrypted p || negb (bool_decide (header p = expected_header)) then Err StatusUnexpected
  else
    match payload p with
    | b :: message =>
        if (b2z b =? 0) && bool_decide (message = []) then Ok tt
        else if (b2z b =? 1) && (zlen message <=? MAX_STATUS_MESSAGE) then Err (StatusOther (from_utf8_lossy message))
        else Err StatusMalformed
    | [] => Err StatusMalformed
    end.

Definition registration_status_packet (r : result (list byte) RouterFraming) : Packet :=
  match r with
  | Ok Packets => status_packet REGISTRATION_STATUS (Ok tt)
  | Ok Upstream => new REGISTRATION_STATUS [x00; UPSTREAM_ROUTER_STREAM]
  | Err message => status_packet REGISTRATION_STATUS (Err message)
  end.

Definition parse_registration_status (p : Packet) : result StatusError RouterFraming :=
  if negb (encrypted p) && bool_decide (header p = REGISTRATION_STATUS)
     && bool_decide (payload p = [x00; UPSTREAM_ROUTER_STREAM])
  then Ok Upstream
  else match parse_status p REGISTRATION_STATUS with Ok _ => Ok Packets | Err e => Err e end.

(** ** The router stream *)

(** [TerminalPacketType] of [ETerminal.proto]. *)
Definition TERMINAL_INFO : byte := x02.
Definition TERMINAL_CLOSE : byte := x0b.

Inductive UpstreamMessage := Proto | Close.

Definition upstream_router_message (hdr : byte) : option UpstreamMessage :=
  if bool_decide (hdr = TERMINAL_BUFFER) || bool_decide (hdr = TERMINAL_INFO) then Some Proto
  else if bool_decide (hdr = TERMINAL_CLOSE) then Some Close
  else None.

(** [RouterHead::new]: the bytes before a payload of [payload_len] bytes. *)
Definition router_head (hdr : byte) (payload_len : Z) (framing : RouterFraming) : result io_kind (list byte) :=
  let max_payload_len :=
    match framing with Packets => MAX_LOCAL_PACKET_LEN - HEADER_LEN | Upstream => MAX_LOCAL_PACKET_LEN end in
  if max_payload_len <? payload_len then Err InvalidInput
  else
    match framing with
    | Packets =>
        if i64_max <? HEADER_LEN + payload_len then Err InvalidInput
        else Ok (ne_bytes (HEADER_LEN + payload_len) ++ [x00; hdr])
    | Upstream =>
        match upstream_router_message hdr with
        | Some Close => if payload_len =? 0 then Ok [hdr] else Err InvalidInput
        | Some Proto => if i64_max <? payload_len then Err InvalidInput else Ok (hdr :: ne_bytes payload_len)
        | None => Err InvalidInput
        end
    end.

(** The frame of [write_router_message_with]. *)
Definition router_frame (p : Packet) (framing : RouterFraming) : result io_kind (list byte) :=
  let? head := router_head (header p) (zlen (payload p)) framing in
  Ok (head ++ payload p).

(** ** Blocking writes *)

(** One turn of a write loop: whether [cancelled] says so, and the answer of
    the stream: how many bytes it has room for, or an error. *)
Record write_turn := mkWriteTurn {
  wt_cancelled : bool;
  wt_answer : result io_kind Z
}.

(** What [write] takes of the bytes it is offered. *)
Definition accepts (room : Z) (bytes : list byte) : Z := Z.min (Z.max 0 room) (zlen bytes).

(** [write_all_blocking]: the bytes that were taken, and the result. *)
Fixpoint write_all_blocking (buffer : list byte) (turns : list write_turn)
  : list byte * blocking unit (result io_kind unit) :=
  match buffer with
  | [] => ([], Returned (Ok tt))
  | _ =>
      match turns with
      | [] => ([], Waiting tt)
      | t :: turns =>
          if wt_cancelled t then ([], Returned (Err TimedOut))
          else
            match wt_answer t with
            | Ok room =>
                let count := accepts room buffer in
                if count =? 0 then ([], Returned (Err WriteZero))
                else
                  let '(taken, r) := write_all_blocking (zdrop count buffer) turns in
                  (ztake count buffer ++ taken, r)
            | Err Interrupted | Err WouldBlock => write_all_blocking buffer turns
            | Err e => ([], Returned (Err e))
            end
      end
  end.

(** [flush_blocking] *)
Fixpoint flush_blocking (turns : list (bool * result io_kind unit)) : blocking unit (result io_kind unit) :=
  match turns with
  | [] => Waiting tt
  | (cancelled, answer) :: turns =>
      if cancelled then Returned (Err TimedOut)
      else
        match answer with
        | Ok _ => Returned (Ok tt)
        | Err Interrupted | Err WouldBlock => flush_blocking turns
        | Err e => Returned (Err e)
        end
  end.

(** [write_local_packet_with] and [write_router_message_with] on their frame. *)
Definition write_frame (frame : result io_kind (list byte)) (turns : list write_turn)
    (flushes : list (bool * result io_kind unit)) : list byte * blocking unit (result io_kind unit) :=
  match frame with
  | Err e => ([], Returned (Err e))
  | Ok frame =>
      match write_all_blocking frame turns with
      | (taken, Returned (Ok _)) => (taken, flush_blocking flushes)
      | (taken, r) => (taken, r)
      end
  end.

(** ** Frames that survive a full socket *)

Definition STDERR_SUFFIX : list byte := [x10; x01].

Record TerminalBufferFrame := mkFrame {
  f_head : list byte;
  f_output_len : Z;
  f_suffix : list byte;
  f_written : Z
}.

(** The varint loop is the one of [encode_varint]. *)
Definition frame_new (output_len : Z) (is_stderr : bool) : result io_kind TerminalBufferFrame :=
  if MAX_LOCAL_PACKET_LEN <? output_len then Err InvalidInput
  else
    let varint := encode_varint output_len in
    let suffix := if is_stderr then STDERR_SUFFIX else [] in
    let payload_len :=
      if output_len =? 0 then zlen suffix else 1 + zlen varint + output_len + zlen suffix in
    let wire_len := HEADER_LEN + payload_len in
    if MAX_LOCAL_PACKET_LEN <? wire_len then Err InvalidInput
    else if i64_max <? wire_len then Err InvalidInput
    else
      Ok (mkFrame
            (ne_bytes wire_len ++ [x00; TERMINAL_BUFFER] ++ (if output_len =? 0 then [] else z2b 0x0a :: varint))
            output_len suffix 0).

Definition total_len (f : TerminalBufferFrame) : Z := zlen (f_head f) + f_output_len f + zlen (f_suffix f).
Definition is_complete (f : TerminalBufferFrame) : bool := f_written f =? total_len f.
Definition is_started (f : TerminalBufferFrame) : bool := negb (f_written f =? 0).

(** The buffers one [write_some] offers, concatenated. *)
Definition offered (f : TerminalBufferFrame) (output : list byte) : list byte :=
  let head_len := zlen (f_head f) in
  if f_written f <? head_len then zdrop (f_written f) (f_head f) ++ output ++ f_suffix f
  else if f_written f <? head_len + zlen output then zdrop (f_written f - head_len) output ++ f_suffix f
  else zdrop (f_written f - head_len - zlen output) (f_suffix f).

(** [write_some]: [answer] is the room the (vectored) write finds; the bytes it
    takes of the offered ones come back. *)
Definition write_some (f : TerminalBufferFrame) (output : list byte) (answer : result io_kind Z)
  : TerminalBufferFrame * list byte * result io_kind Z :=
  if negb (zlen output =? f_output_len f) then (f, [], Err InvalidInput)
  else
    match answer with
    | Err e => (f, [], Err e)
    | Ok room =>
        let count := accepts room (offered f output) in
        if (count =? 0) && negb (is_complete f) then (f, [], Err WriteZero)
        else (mkFrame (f_head f) (f_output_len f) (f_suffix f) (f_written f + count),
              ztake count (offered f output), Ok count)
    end.

(** The loop of [write_local_terminal_buffer_until_cancelled] (Unix): the bytes
    written, and how often [progress] was raised. *)
Fixpoint write_frame_until (f : TerminalBufferFrame) (output : list byte) (turns : list write_turn)
  : TerminalBufferFrame * list byte * Z * blocking unit (result io_kind unit) :=
  if is_complete f then (f, [], 0, Returned (Ok tt))
  else
    match turns with
    | [] => (f, [], 0, Waiting tt)
    | t :: turns =>
        if wt_cancelled t then (f, [], 0, Returned (Err TimedOut))
        else
          match write_some f output (wt_answer t) with
          | (f, taken, Ok _) =>
              let '(f, more, progress, r) := write_frame_until f output turns in
              (f, taken ++ more, progress + 1, r)
          | (f, _, Err Interrupted) | (f, _, Err WouldBlock) => write_frame_until f output turns
          | (f, _, Err e) => (f, [], 0, Returned (Err e))
          end
    end.

(** ** Lemmas and theorems *)

(** What the frame puts on the wire. *)
Definition frame_bytes (f : TerminalBufferFrame) (output : list byte) : list byte := f_head f ++ output ++ f_suffix f.

Lemma offered_spec f output :
  zlen output = f_output_len f -> 0 <= f_written f <= total_len f ->
  offered f output = zdrop (f_written f) (frame_bytes f output).
Proof.
  intros Ho [Hw1 Hw2]. unfold total_len in Hw2. unfold offered, frame_bytes.
  destruct (Z.ltb_spec (f_written f) (zlen (f_head f))); [by rewrite zdrop_app_l by lia|].
  rewrite zdrop_app_ge by lia. destruct (Z.ltb_spec (f_written f) (zlen (f_head f) + zlen output)).
  - by rewrite zdrop_app_l by lia.
  - by rewrite zdrop_app_ge by lia.
Qed.

Lemma accepts_bounds room bytes : 0 <= accepts room bytes <= zlen bytes.
Proof. unfold accepts. pose proof (zlen_nonneg bytes). lia. Qed.

(** A blocking write puts out a prefix of its buffer, and all of it when it
    returns [Ok]. *)
Lemma write_all_blocking_spec buffer turns :
  let '(taken, r) := write_all_blocking buffer turns in
  taken `prefix_of` buffer /\ (r = Returned (Ok tt) -> taken = buffer).
Proof.
  revert buffer. induction turns as [|t turns IH]; intros [|b buffer]; cbn [write_all_blocking]; try done.
  { split; [apply prefix_nil|done]. }
  destruct (wt_cancelled t); [split; [apply prefix_nil|done]|].
  destruct (wt_answer t) as [room|[]]; try (split; [apply prefix_nil|done]); try apply (IH (b :: buffer)).
  destruct (accepts room (b :: buffer) =? 0); [split; [apply prefix_nil|done]|].
  set (count := accepts room (b :: buffer)). specialize (IH (zdrop count (b :: buffer))).
  destruct (write_all_blocking (zdrop count (b :: buffer)) turns) as [taken r]. destruct IH as [Hp Hr].
  split; [|intros Hok; rewrite (Hr Hok); apply ztake_zdrop].
  destruct Hp as [k Hk]. exists k. by rewrite <-app_assoc, <-Hk, ztake_zdrop.
Qed.

Definition frame_inv (f : TerminalBufferFrame) (output : list byte) : Prop :=
  zlen output = f_output_len f /\ 0 <= f_written f <= total_len f.

Lemma zlen_frame_bytes f output : zlen output = f_output_len f -> zlen (frame_bytes f output) = total_len f.
Proof. intros H. unfold frame_bytes, total_len. rewrite !zlen_app. lia. Qed.

(** One write of a frame goes on where the last one stopped. *)
Lemma write_some_spec f output answer f' taken r :
  frame_inv f output -> write_some f output answer = (f', taken, r) ->
  frame_inv f' output /\ f_head f' = f_head f /\ f_suffix f' = f_suffix f /\ f_written f' = f_written f + zlen taken /\
  taken = slice (frame_bytes f output) (f_written f) (f_written f') /\ (forall e, r = Err e -> taken = []).
Proof.
  intros [Ho Hw]. unfold write_some. rewrite Ho, Z.eqb_refl. cbn [negb].
  assert (Hsame : forall e, r = Err e -> f' = f -> taken = [] ->
    frame_inv f' output /\ f_head f' = f_head f /\ f_suffix f' = f_suffix f /\ f_written f' = f_written f + zlen taken /\
    taken = slice (frame_bytes f output) (f_written f) (f_written f') /\ (forall e, r = Err e -> taken = [])).
  { intros e -> -> ->. split_and!; try done; [rewrite zlen_nil; lia|]. unfold slice. by rewrite Z.sub_diag. }
  destruct answer as [room|e]; [|intros; simplify_eq; by eapply Hsame].
  destruct ((_ =? 0) && _) eqn:E; [intros; simplify_eq; by eapply Hsame|]. clear Hsame. intros; simplify_eq.
  pose proof (offered_spec f output Ho Hw) as Hoff. pose proof (accepts_bounds room (offered f output)) as Hb.
  set (count := accepts room (offered f output)) in *. pose proof (zlen_frame_bytes f output Ho) as Hz.
  assert (zlen (offered f output) = total_len f - f_written f) as Hol by (rewrite Hoff; len_lia).
  cbn [f_head f_suffix f_written]. split_and!; [|done|done|rewrite zlen_ztake; lia| |done].
  - split; cbn [f_output_len f_written]; [done|]. unfold total_len in *. cbn [f_head f_output_len f_suffix]. lia.
  - unfold slice. rewrite Hoff. f_equal. lia.
Qed.

(** Where a frame is after some writes: what was put out is the piece between
    the two places. *)
Definition frame_moved (f f' : TerminalBufferFrame) (output taken : list byte) : Prop :=
  frame_inv f' output /\ f_head f' = f_head f /\ f_suffix f' = f_suffix f /\ f_written f <= f_written f' /\
  taken = slice (frame_bytes f output) (f_written f) (f_written f').

Lemma frame_moved_refl f output : frame_inv f output -> frame_moved f f output [].
Proof. intros H. unfold frame_moved, slice. rewrite Z.sub_diag. by split_and!. Qed.

Lemma frame_moved_trans f f1 f2 output a b :
  frame_inv f output -> frame_moved f f1 output a -> frame_moved f1 f2 output b -> frame_moved f f2 output (a ++ b).
Proof.
  intros [_ Hf] (_ & Hh1 & Hs1 & Hw1 & ->) (H2 & Hh2 & Hs2 & Hw2 & ->).
  split_and!; [done|congruence|congruence|lia|]. unfold frame_bytes. rewrite Hh1, Hs1. apply slice_join; lia.
Qed.

Lemma write_frame_until_spec turns f output :
  frame_inv f output ->
  let '(f', taken, _, r) := write_frame_until f output turns in
  frame_moved f f' output taken /\ (r = Returned (Ok tt) <-> is_complete f' = true).
Proof.
  revert f. induction turns as [|t turns IH]; intros f Hf; pose proof (frame_moved_refl f output Hf) as Hrefl;
    cbn [write_frame_until]; destruct (is_complete f) eqn:Hc; try (by split; [|rewrite Hc]).
  destruct (wt_cancelled t); [by split; [|rewrite Hc]|].
  destruct (write_some f output (wt_answer t)) as [[f1 taken1] r1] eqn:Hws.
  destruct (write_some_spec _ _ _ _ _ _ Hf Hws) as (Hf1 & Hh & Hs & Hw & Ht & He).
  assert (Hmove : frame_moved f f1 output taken1).
  { split_and!; try done. pose proof (zlen_nonneg taken1). lia. }
  destruct r1 as [n|e].
  - specialize (IH f1 Hf1). destruct (write_frame_until f1 output turns) as [[[f2 more] n2] r2].
    destruct IH as [Hm Hr]. split; [by eapply frame_moved_trans|done].
  - specialize (He e eq_refl). rewrite He, zlen_nil, Z.add_0_r in Hw.
    assert (f1 = f) as ->.
    { destruct f, f1, Hf as [Hf _], Hf1 as [Hf1 _]; cbn in *. by subst. }
    destruct e; try (by apply IH); by split; [|rewrite Hc].
Qed.

(** A terminal frame resumes where the socket left it: whatever room the
    writes find, and however often they block or are interrupted, the bytes
    on the stream are a prefix of one well-formed local packet, the whole of
    it exactly when the write returns [Ok]; the packet is the one
    [encode_local_packet] builds from the same output. *)
Theorem frame_resumes output is_stderr f turns :
  output <> [] -> frame_new (zlen output) is_stderr = Ok f ->
  exists frame, encode_local_packet (new TERMINAL_BUFFER (encode_terminal_buffer output is_stderr)) = Ok frame /\
  let '(f', taken, _, r) := write_frame_until f output turns in
  taken `prefix_of` frame /\ (r = Returned (Ok tt) <-> taken = frame).
Proof.
  intros Hne. unfold frame_new. destruct (Z.ltb_spec MAX_LOCAL_PACKET_LEN (zlen output)); [done|]. cbv zeta.
  assert (0 < zlen output) as Hpos by (destruct output; [done|len_lia]).
  rewrite (proj2 (Z.eqb_neq _ _)) by lia. set (suffix := if is_stderr then STDERR_SUFFIX else []).
  set (varint := encode_varint (zlen output)). set (wl := HEADER_LEN + (1 + zlen varint + zlen output + zlen suffix)).
  destruct (Z.ltb_spec MAX_LOCAL_PACKET_LEN wl) as [|Hl1]; [done|]. destruct (Z.ltb_spec i64_max wl) as [|Hl2]; [done|].
  intros [= <-]. set (f := mkFrame _ _ _ _).
  assert (Hp : encode_terminal_buffer output is_stderr = z2b 0x0a :: varint ++ output ++ suffix).
  { unfold encode_terminal_buffer, suffix. by destruct is_stderr. }
  assert (Hwire : wire_len (new TERMINAL_BUFFER (encode_terminal_buffer output is_stderr)) = wl).
  { unfold wire_len. cbn [payload new]. rewrite Hp. unfold wl. len_lia. }
  assert (Henc : encode_local_packet (new TERMINAL_BUFFER (encode_terminal_buffer output is_stderr)) = Ok (frame_bytes f output)).
  { unfold encode_local_packet. rewrite Hwire. rewrite (proj2 (Z.ltb_ge _ _)) by lia. rewrite (proj2 (Z.ltb_ge _ _)) by lia.
    cbn [encrypted header payload new flag_byte]. rewrite Hp. unfold frame_bytes, f. cbn [f_head f_suffix]. done. }
  exists (frame_bytes f output). split; [done|].
  assert (Hf : frame_inv f output).
  { split; [done|]. unfold total_len, f. cbn. pose proof (zlen_nonneg suffix). len_lia. }
  pose proof (write_frame_until_spec turns f output Hf) as Hspec.
  destruct (write_frame_until f output turns) as [[[f' taken] n] r].
  destruct Hspec as [([Ho' Hw'] & Hh & Hs & Hw & Ht) Hr]. cbn [f_written f] in Ht.
  assert (Htot : total_len f' = zlen (frame_bytes f output)).
  { unfold total_len. rewrite Hh, Hs. unfold frame_bytes. len_lia. }
  unfold slice in Ht. rewrite zdrop_0, Z.sub_0_r in Ht. rewrite Ht. split.
  - exists (zdrop (f_written f') (frame_bytes f output)). by rewrite ztake_zdrop.
  - rewrite Hr. unfold is_complete. rewrite Z.eqb_eq. split.
    + intros E. apply ztake_all. lia.
    + intros E%(f_equal zlen). rewrite zlen_ztake in E. lia.
Qed.

(** What the server tells a terminal about its registration is what the
    terminal understands: a status packet parses to the same framing or to
    the same message, cut to its limit; a well-formed message within the limit
    arrives unchanged. *)
Theorem registration_status_roundtrip r :
  parse_registration_status (registration_status_packet r) =
    match r with Ok f => Ok f | Err m => Err (StatusOther (from_utf8_lossy (ztake MAX_STATUS_MESSAGE m))) end /\
  forall m, r = Err m -> from_utf8 m = true -> zlen m <= MAX_STATUS_MESSAGE ->
    parse_registration_status (registration_status_packet r) = Err (StatusOther m).
Proof.
  enough (E : parse_registration_status (registration_status_packet r) =
    match r with Ok f => Ok f | Err m => Err (StatusOther (from_utf8_lossy (ztake MAX_STATUS_MESSAGE m))) end).
  { split; [done|]. intros m -> Hu Hm. by rewrite E, ztake_all, from_utf8_lossy_id. }
  destruct r as [[]|m]; [reflexivity|reflexivity|]. unfold parse_registration_status, registration_status_packet, status_packet, parse_status.
  cbn [encrypted header payload new negb orb andb]. rewrite bool_decide_true by done.
  rewrite bool_decide_false by (intros [=]). cbn [negb orb]. change (b2z x01 =? 0) with false. change (b2z x01 =? 1) with true.
  cbn [andb]. rewrite (proj2 (Z.leb_le _ _)) by (rewrite zlen_ztake; unfold MAX_STATUS_MESSAGE; lia).
  do 3 f_equal. destruct (Z.le_gt_cases (zlen m) MAX_STATUS_MESSAGE).
  - rewrite !ztake_all by lia. done.
  - by rewrite Z.min_r by lia.
Qed.

(** ** Witnesses *)

Lemma frame_resumes_witness :
  exists f frame, frame_new 3 true = Ok f /\
    snd (fst (fst (write_frame_until f [x61; x62; x63] [mkWriteTurn false (Ok 5); mkWriteTurn false (Err WouldBlock)])))
      `prefix_of` frame.
Proof.
  destruct (frame_new 3 true) as [f|] eqn:E; [|vm_compute in E; discriminate E]. exists f.
  destruct (frame_resumes [x61; x62; x63] true f [mkWriteTurn false (Ok 5); mkWriteTurn false (Err WouldBlock)] ltac:(done) E)
    as (frame & _ & H). exists frame. split; [done|].
  destruct (write_frame_until f [x61; x62; x63] _) as [[[f' taken] n] r]. exact (proj1 H).
Defined.
