(* ===== verification/LocalDecoder.v ===== *)
(** * LocalDecoder: the readers of [crates/et-net/src/local_packet.rs]

    [LocalPacketDecoder] and [UpstreamRouterDecoder], which keep a partial
    message while their stream would block. A stream is the bytes that are
    still to come and what its next reads do. The two decoders meet one
    interface, against which the theorem on whole streams is proved. The
    initialised part of a payload is modelled, its capacity is not. *)

From S2P Require Import Prelude Bytes Framing FramingIo Crypto Packet LocalPacket.

(** ** Streams *)

(** What one [read] does: give at most some number of bytes (none at the end
    of the stream), or fail. *)
Inductive stream_turn :=
| Give (n : Z)
| WouldBlockTurn
| InterruptedTurn
| FailTurn (e : io_kind).

Record source := mkSource {
  to_come : list byte;
  turns : list stream_turn
}.

(** [read_ready] into a buffer of [n] bytes; the retries of [Interrupted] are
    those of every read loop of the file. A stream whose turns are used up
    blocks. *)
Fixpoint read_ready_go (bytes : list byte) (ts : list stream_turn) (n : Z)
  : source * result LocalPacketError (option (list byte)) :=
  match ts with
  | [] => (mkSource bytes [], Ok None)
  | Give k :: ts =>
      let count := Z.min (Z.max 1 k) n in
      (mkSource (zdrop count bytes) ts,
       match bytes with [] => Err (LIo UnexpectedEof) | _ => Ok (Some (ztake count bytes)) end)
  | WouldBlockTurn :: ts => (mkSource bytes ts, Ok None)
  | InterruptedTurn :: ts => read_ready_go bytes ts n
  | FailTurn e :: ts => (mkSource bytes ts, Err (LIo e))
  end.

Definition read_ready (s : source) (n : Z) : source * result LocalPacketError (option (list byte)) :=
  read_ready_go (to_come s) (turns s) n.

Definition parse_length (prefix : list byte) (limit : Z) : result LocalPacketError Z :=
  let length := to_signed 64 (le_val prefix) in
  if length <? 0 then Err NegativeLength
  else if limit <? length then Err (FrameTooLarge length limit)
  else Ok length.

(** [grow_payload] *)
Definition grow_payload (payload : list byte) (filled body_len : Z) : list byte :=
  if zlen payload =? filled
  then payload ++ replicate (Z.to_nat (Z.min body_len (filled + PAYLOAD_READ_STEP) - filled)) x00
  else payload.

(** What a read into [payload[filled..]] leaves there. *)
Definition write_into (payload : list byte) (filled : Z) (bytes : list byte) : list byte :=
  ztake filled payload ++ bytes ++ zdrop (filled + zlen bytes) payload.

(** ** Length-prefixed packets *)

(** [prefix] and [header] hold the bytes that have arrived of the two arrays. *)
Record LocalPacketDecoder := mkDecoder {
  max_packet_len : Z;
  d_prefix : list byte;
  expected : option Z;
  d_header : list byte;
  d_payload : list byte;
  d_filled : Z;
  d_complete : bool
}.

Definition with_limit (limit : Z) : LocalPacketDecoder :=
  mkDecoder (Z.min limit MAX_LOCAL_PACKET_LEN) [] None [] [] 0 false.

Definition decoder_new : LocalPacketDecoder := with_limit MAX_LOCAL_PACKET_LEN.

Definition decoder_is_empty (d : LocalPacketDecoder) : bool :=
  bool_decide (d_prefix d = []) && match expected d with None => true | Some _ => false end.

Definition required_bytes (d : LocalPacketDecoder) : Z :=
  match expected d with
  | None => PREFIX_LEN - zlen (d_prefix d)
  | Some n => Z.max 0 (n - (zlen (d_header d) + d_filled d))
  end.

Definition set_prefix (d : LocalPacketDecoder) (prefix : list byte) (n : option Z) : LocalPacketDecoder :=
  mkDecoder (max_packet_len d) prefix n (d_header d) (d_payload d) (d_filled d) (d_complete d).
Definition set_header (d : LocalPacketDecoder) (hdr : list byte) : LocalPacketDecoder :=
  mkDecoder (max_packet_len d) (d_prefix d) (expected d) hdr (d_payload d) (d_filled d) (d_complete d).
Definition set_payload (d : LocalPacketDecoder) (body : list byte) (filled : Z) : LocalPacketDecoder :=
  mkDecoder (max_packet_len d) (d_prefix d) (expected d) (d_header d) body filled (d_complete d).
Definition set_complete (d : LocalPacketDecoder) : LocalPacketDecoder :=
  mkDecoder (max_packet_len d) (d_prefix d) (expected d) (d_header d) (d_payload d) (d_filled d) true.

(** [Packet::raw(header[0] != 0, header[1], payload)] *)
Definition decoder_packet (d : LocalPacketDecoder) : Packet :=
  match d_header d with
  | flag :: hdr :: _ => raw (negb (b2z flag =? 0)) hdr (d_payload d)
  | _ => raw false x00 (d_payload d)
  end.

(** [feed] *)
Definition feed_prefix (d : LocalPacketDecoder) (input : list byte)
  : LocalPacketDecoder * list byte * result LocalPacketError unit :=
  match expected d with
  | Some _ => (d, input, Ok tt)
  | None =>
      let count := Z.min (PREFIX_LEN - zlen (d_prefix d)) (zlen input) in
      let prefix := d_prefix d ++ ztake count input in
      if zlen prefix =? PREFIX_LEN then
        match parse_length prefix (max_packet_len d) with
        | Ok n => (set_prefix d prefix (Some n), zdrop count input, Ok tt)
        | Err e => (set_prefix d prefix None, zdrop count input, Err e)
        end
      else (set_prefix d prefix None, zdrop count input, Ok tt)
  end.

Definition feed_header (d : LocalPacketDecoder) (target : Z) (input : list byte) : LocalPacketDecoder * list byte :=
  if zlen (d_header d) <? target then
    let count := Z.min (target - zlen (d_header d)) (zlen input) in
    (set_header d (d_header d ++ ztake count input), zdrop count input)
  else (d, input).

(** The payload after [count] bytes went first into the room made before. *)
Definition feed_payload (d : LocalPacketDecoder) (chunk : list byte) : LocalPacketDecoder :=
  let room := Z.min (zlen (d_payload d) - d_filled d) (zlen chunk) in
  set_payload d (write_into (d_payload d) (d_filled d) (ztake room chunk) ++ zdrop room chunk) (d_filled d + zlen chunk).

Definition feed (d : LocalPacketDecoder) (input : list byte)
  : LocalPacketDecoder * result LocalPacketError (option Packet) :=
  if d_complete d then (d, Err AlreadyComplete)
  else
    match feed_prefix d input with
    | (d, _, Err e) => (d, Err e)
    | (d, input, Ok _) =>
        match expected d with
        | None => (d, match input with [] => Ok None | _ => Err TrailingData end)
        | Some n =>
            let target := Z.min n HEADER_LEN in
            let (d, input) := feed_header d target input in
            if zlen (d_header d) =? target then
              let body_len := Z.max 0 (n - HEADER_LEN) in
              let count := Z.min (body_len - d_filled d) (zlen input) in
              let d := feed_payload d (ztake count input) in
              let input := zdrop count input in
              if zlen (d_header d) + d_filled d =? n then
                match input with
                | _ :: _ => (d, Err TrailingData)
                | [] =>
                    if n <? HEADER_LEN then (set_complete d, Err (MalformedPacket PShort))
                    else (set_payload (set_complete d) [] (d_filled d), Ok (Some (decoder_packet d)))
                end
              else (d, match input with [] => Ok None | _ => Err TrailingData end)
            else (d, match input with [] => Ok None | _ => Err TrailingData end)
        end
    end.

(** [read_from]: the three loops, of which every turn reads once; [fuel] is
    one more than the turns of the stream. *)
Fixpoint read_from_go (fuel : nat) (d : LocalPacketDecoder) (s : source)
  : LocalPacketDecoder * source * result LocalPacketError (option Packet) :=
  match fuel with
  | O => (d, s, Ok None)
  | S fuel =>
      match expected d with
      | None =>
          match read_ready s (PREFIX_LEN - zlen (d_prefix d)) with
          | (s, Err e) => (d, s, Err e)
          | (s, Ok None) => (d, s, Ok None)
          | (s, Ok (Some bytes)) =>
              let prefix := d_prefix d ++ bytes in
              if zlen prefix =? PREFIX_LEN then
                match parse_length prefix (max_packet_len d) with
                | Ok n => read_from_go fuel (set_prefix d prefix (Some n)) s
                | Err e => (set_prefix d prefix None, s, Err e)
                end
              else read_from_go fuel (set_prefix d prefix None) s
          end
      | Some n =>
          let target := Z.min n HEADER_LEN in
          if zlen (d_header d) <? target then
            match read_ready s (target - zlen (d_header d)) with
            | (s, Err e) => (d, s, Err e)
            | (s, Ok None) => (d, s, Ok None)
            | (s, Ok (Some bytes)) => read_from_go fuel (set_header d (d_header d ++ bytes)) s
            end
          else if n <? HEADER_LEN then (set_complete d, s, Err (MalformedPacket PShort))
          else
            let body_len := n - HEADER_LEN in
            if d_filled d <? body_len then
              let d := set_payload d (grow_payload (d_payload d) (d_filled d) body_len) (d_filled d) in
              match read_ready s (zlen (d_payload d) - d_filled d) with
              | (s, Err e) => (d, s, Err e)
              | (s, Ok None) => (d, s, Ok None)
              | (s, Ok (Some bytes)) =>
                  read_from_go fuel (set_payload d (write_into (d_payload d) (d_filled d) bytes) (d_filled d + zlen bytes)) s
              end
            else (set_payload (set_complete d) [] (d_filled d), s, Ok (Some (decoder_packet d)))
      end
  end.

Definition read_from (d : LocalPacketDecoder) (s : source)
  : LocalPacketDecoder * source * result LocalPacketError (option Packet) :=
  if d_complete d then (d, s, Err AlreadyComplete)
  else read_from_go (S (length (turns s))) d s.

(** [finish] *)
Definition decoder_finish (d : LocalPacketDecoder) : result LocalPacketError unit :=
  if d_complete d then Ok tt
  else if zlen (d_prefix d) <? PREFIX_LEN then Err TruncatedPrefix
  else Err TruncatedPayload.

(** ** The upstream router stream *)

Record UpstreamRouterDecoder := mkUpstream {
  u_header : option byte;
  u_length : list byte;
  u_body_len : option Z;
  u_payload : list byte;
  u_filled : Z
}.

Definition upstream_default : UpstreamRouterDecoder := mkUpstream None [] None [] 0.

(** The loops after the type byte. *)
Fixpoint upstream_body (fuel : nat) (u : UpstreamRouterDecoder) (hdr : byte) (s : source)
  : UpstreamRouterDecoder * source * result LocalPacketError (option Packet) :=
  match fuel with
  | O => (u, s, Ok None)
  | S fuel =>
      match u_body_len u with
      | None =>
          match read_ready s (PREFIX_LEN - zlen (u_length u)) with
          | (s, Err e) => (u, s, Err e)
          | (s, Ok None) => (u, s, Ok None)
          | (s, Ok (Some bytes)) =>
              let length := u_length u ++ bytes in
              if zlen length =? PREFIX_LEN then
                match parse_length length MAX_LOCAL_PACKET_LEN with
                | Ok n => upstream_body fuel (mkUpstream (u_header u) length (Some n) (u_payload u) (u_filled u)) hdr s
                | Err e => (mkUpstream (u_header u) length None (u_payload u) (u_filled u), s, Err e)
                end
              else upstream_body fuel (mkUpstream (u_header u) length None (u_payload u) (u_filled u)) hdr s
          end
      | Some body_len =>
          if u_filled u <? body_len then
            let body := grow_payload (u_payload u) (u_filled u) body_len in
            let u := mkUpstream (u_header u) (u_length u) (u_body_len u) body (u_filled u) in
            match read_ready s (zlen body - u_filled u) with
            | (s, Err e) => (u, s, Err e)
            | (s, Ok None) => (u, s, Ok None)
            | (s, Ok (Some bytes)) =>
                upstream_body fuel (mkUpstream (u_header u) (u_length u) (u_body_len u)
                  (write_into body (u_filled u) bytes) (u_filled u + zlen bytes)) hdr s
            end
          else (upstream_default, s, Ok (Some (new hdr (u_payload u))))
      end
  end.

Definition upstream_read_from (u : UpstreamRouterDecoder) (s : source)
  : UpstreamRouterDecoder * source * result LocalPacketError (option Packet) :=
  match u_header u with
  | Some hdr => upstream_body (S (length (turns s))) u hdr s
  | None =>
      match read_ready s 1 with
      | (s, Err e) => (u, s, Err e)
      | (s, Ok None) => (u, s, Ok None)
      | (s, Ok (Some bytes)) =>
          match bytes with
          | [] => (u, s, Ok None)
          | hdr :: _ =>
              match upstream_router_message hdr with
              | Some Close => (u, s, Ok (Some (new hdr [])))
              | Some Proto =>
                  upstream_body (S (length (turns s)))
                    (mkUpstream (Some hdr) (u_length u) (u_body_len u) (u_payload u) (u_filled u)) hdr s
              | None => (u, s, Err (UnknownRouterMessage hdr))
              end
          end
      end
  end.

(** [RouterStreamDecoder] *)
Inductive RouterStreamDecoder :=
| PacketStream (d : LocalPacketDecoder)
| UpstreamStream (u : UpstreamRouterDecoder).

Definition router_decoder_new (framing : RouterFraming) : RouterStreamDecoder :=
  match framing with
  | Packets => PacketStream decoder_new
  | Upstream => UpstreamStream upstream_default
  end.

Definition router_read_from (r : RouterStreamDecoder) (s : source)
  : RouterStreamDecoder * source * result LocalPacketError (option Packet) :=
  match r with
  | PacketStream d =>
      match read_from d s with
      | (d, s, Ok (Some p)) => (PacketStream decoder_new, s, Ok (Some p))
      | (d, s, r) => (PacketStream d, s, r)
      end
  | UpstreamStream u =>
      let '(u, s, r) := upstream_read_from u s in (UpstreamStream u, s, r)
  end.

(** ** Reads *)

Lemma read_ready_spec s n s' r :
  1 <= n -> read_ready s n = (s', r) ->
  match r with
  | Ok (Some bytes) => to_come s = bytes ++ to_come s' /\ 1 <= zlen bytes <= n /\ (length (turns s') < length (turns s))%nat
  | Ok None => to_come s' = to_come s
  | Err e => to_come s' = to_come s /\ exists k, e = LIo k
  end.
Proof.
  intros Hn. destruct s as [bytes ts]. unfold read_ready. cbn [to_come turns].
  induction ts as [|t ts IH]; cbn [read_ready_go]; [by intros [= <- <-]|].
  destruct t as [k| | |e].
  - destruct bytes as [|b bytes]; intros [= <- <-]; cbn [to_come turns].
    + split; [by unfold zdrop; rewrite drop_nil|eauto].
    + rewrite ztake_zdrop. split; [done|]. split; [|cbn; lia]. rewrite zlen_ztake. len_lia.
  - by intros [= <- <-].
  - intros H. specialize (IH H). destruct r as [[b|]|e]; [|done|done]. destruct IH as (? & ? & ?).
    split; [done|]. split; [done|]. cbn. lia.
  - intros [= <- <-]. eauto.
Qed.

(** A partial message: [payload] holds [body] and at most one step more. *)
Definition holds_body (payload : list byte) (filled : Z) (body : list byte) (body_len : Z) : Prop :=
  filled = zlen body /\ ztake filled payload = body /\ filled <= zlen payload <= filled + PAYLOAD_READ_STEP /\
  zlen payload <= body_len.

Lemma holds_body_start n : 0 <= n -> holds_body [] 0 [] n.
Proof. intros. unfold holds_body, PAYLOAD_READ_STEP. change (zlen (@nil byte)) with 0. split_and!; try done; lia. Qed.

(** Room for the next read, and the read into it. *)
Lemma grow_payload_spec payload filled body body_len :
  holds_body payload filled body body_len -> filled < body_len ->
  holds_body (grow_payload payload filled body_len) filled body body_len /\
  1 <= zlen (grow_payload payload filled body_len) - filled.
Proof.
  intros (Hf & Ht & Hl & Hb) Hlt. pose proof (zlen_nonneg body). unfold grow_payload.
  destruct (Z.eqb_spec (zlen payload) filled) as [E|E]; [|by split; [|lia]].
  set (room := Z.min body_len (filled + PAYLOAD_READ_STEP) - filled).
  assert (0 < room <= PAYLOAD_READ_STEP) by (unfold room, PAYLOAD_READ_STEP in *; lia).
  assert (zlen (payload ++ replicate (Z.to_nat room) x00) = filled + room) as Hz.
  { rewrite zlen_app, zlen_replicate. lia. }
  split; [|lia]. split; [done|]. split; [by rewrite ztake_app_l by lia|]. rewrite Hz. unfold room in *. lia.
Qed.

Lemma write_into_spec payload filled body body_len bytes :
  holds_body payload filled body body_len -> zlen bytes <= zlen payload - filled ->
  holds_body (write_into payload filled bytes) (filled + zlen bytes) (body ++ bytes) body_len.
Proof.
  intros (Hf & Ht & Hl & Hb) Hz. pose proof (zlen_nonneg bytes). pose proof (zlen_nonneg body).
  unfold write_into. rewrite Ht.
  assert (zlen (body ++ bytes ++ zdrop (filled + zlen bytes) payload) = zlen payload) as Hlen by len_lia.
  split; [len_lia|]. split.
  - rewrite app_assoc. replace (filled + zlen bytes) with (zlen (body ++ bytes)) at 1 by len_lia. apply ztake_app_exact.
  - rewrite Hlen. lia.
Qed.

(** ** Length-prefixed packets *)

(** The first packet of a stream. *)
Definition parse_local (limit : Z) (input : list byte) : option (result LocalPacketError Packet * list byte) :=
  if zlen input <? 8 then None
  else
    match parse_length (ztake 8 input) limit with
    | Err e => Some (Err e, zdrop 8 input)
    | Ok n =>
        if zlen input <? 8 + n then None
        else
          Some (match slice input 8 (8 + n) with
                | flag :: hdr :: body => Ok (raw (negb (b2z flag =? 0)) hdr body)
                | _ => Err (MalformedPacket PShort)
                end, zdrop (8 + n) input)
    end.

Definition holds_local (d : LocalPacketDecoder) (i : list byte) : Prop :=
  d_complete d = false /\ d_prefix d = ztake 8 i /\ d_header d = ztake 2 (zdrop 8 i) /\
  match expected d with
  | None => zlen i < 8 /\ d_payload d = [] /\ d_filled d = 0
  | Some n => 8 <= zlen i <= 8 + n /\ parse_length (ztake 8 i) (max_packet_len d) = Ok n /\
      holds_body (d_payload d) (d_filled d) (zdrop 10 i) (Z.max 0 (n - 2))
  end.

Lemma parse_length_range prefix limit n : parse_length prefix limit = Ok n -> 0 <= n <= limit.
Proof. unfold parse_length. case_all. intros; simplify_eq. lia. Qed.

Lemma take_app_small (n : Z) (i b : list byte) : zlen i <= n -> ztake n (i ++ b) = i ++ ztake (n - zlen i) b.
Proof.
  intros H. unfold ztake, zlen in *. rewrite take_app_ge by lia. f_equal. f_equal. lia.
Qed.

(** The message of a complete input. *)
Lemma parse_local_complete d i n :
  holds_local d i -> expected d = Some n -> zlen i = 8 + n -> 2 <= n ->
  parse_local (max_packet_len d) i = Some (Ok (decoder_packet d), []).
Proof.
  intros (_ & _ & Hh & He) Hn Hz H2. rewrite Hn in He. destruct He as ([H8 _] & Hp & Hf & Ht & _ & Hb).
  unfold parse_local. rewrite (proj2 (Z.ltb_ge _ _)) by lia. rewrite Hp. rewrite (proj2 (Z.ltb_ge _ _)) by lia.
  rewrite <-Hz, slice_full by lia. rewrite (zdrop_all i (zlen i)) by lia.
  assert (Hpay : d_payload d = zdrop 10 i).
  { rewrite <-Ht. symmetry. apply ztake_all. pose proof (zlen_zdrop 10 i). lia. }
  unfold decoder_packet. rewrite Hh, Hpay.
  assert (Hcut : zdrop 10 i = zdrop 2 (zdrop 8 i)) by (rewrite zdrop_zdrop by lia; done). rewrite Hcut.
  assert (Hz8 : zlen (zdrop 8 i) = n) by (rewrite zlen_zdrop; lia).
  destruct (zdrop 8 i) as [|flag [|hdr body]]; [exfalso; unfold zlen in Hz8; cbn in Hz8; lia..|done].
Qed.

Lemma parse_local_short d i :
  holds_local d i -> match expected d with Some n => zlen i < 8 + n | None => True end ->
  parse_local (max_packet_len d) i = None.
Proof.
  intros (_ & _ & _ & He) Hz. unfold parse_local. destruct (expected d) as [n|].
  - destruct He as ([H8 _] & -> & _). rewrite (proj2 (Z.ltb_ge _ _)) by lia. by rewrite (proj2 (Z.ltb_lt _ _)) by lia.
  - destruct He as [Hi _]. by rewrite (proj2 (Z.ltb_lt _ _)) by lia.
Qed.

(** What one call of [read_from] does from a partial message [i]. *)
Definition read_outcome {D} (holds : D -> list byte -> Prop) (parse : list byte -> option (result LocalPacketError Packet * list byte))
    (fresh : D -> Prop) (i : list byte) (s : source) (o : D * source * result LocalPacketError (option Packet)) : Prop :=
  let '(d', s', r) := o in
  exists fed, to_come s = fed ++ to_come s' /\
  match r with
  | Ok None => holds d' (i ++ fed) /\ parse (i ++ fed) = None
  | Ok (Some p) => parse (i ++ fed) = Some (Ok p, []) /\ fresh d'
  | Err e => (exists rest, parse (i ++ fed) = Some (Err e, rest)) \/ exists k, e = LIo k
  end.

(** Composition of reads. *)
Lemma read_outcome_more {D} (holds : D -> list byte -> Prop) parse fresh i b s s1 o :
  to_come s = b ++ to_come s1 -> read_outcome holds parse fresh (i ++ b) s1 o -> read_outcome holds parse fresh i s o.
Proof.
  intros Hs. destruct o as [[d' s'] r]. intros (fed & Hf & Hr). exists (b ++ fed).
  split; [by rewrite Hs, Hf, app_assoc|]. by rewrite app_assoc.
Qed.

Lemma read_outcome_stop {D} (holds : D -> list byte -> Prop) parse fresh i s s' d r :
  to_come s' = to_come s -> holds d i -> parse i = None ->
  (match r with Ok None => True | Err e => exists k, e = LIo k | Ok (Some _) => False end) ->
  read_outcome holds parse fresh i s (d, s', r).
Proof.
  intros Hs Hd Hp Hr. exists []. split; [by rewrite Hs|]. rewrite app_nil_r. destruct r as [[p|]|e]; [done|done|by right].
Qed.

Lemma holds_local_prefix d i b :
  holds_local d i -> expected d = None -> zlen b <= 8 - zlen i ->
  let prefix := d_prefix d ++ b in
  prefix = i ++ b /\
  (zlen prefix <> 8 -> holds_local (set_prefix d prefix None) (i ++ b)) /\
  (zlen prefix = 8 -> forall n, parse_length prefix (max_packet_len d) = Ok n ->
     holds_local (set_prefix d prefix (Some n)) (i ++ b)) /\
  (zlen prefix = 8 -> forall e, parse_length prefix (max_packet_len d) = Err e ->
     parse_local (max_packet_len d) (i ++ b) = Some (Err e, [])).
Proof.
  intros (Hc & Hp & Hh & He) Hn Hb. rewrite Hn in He. destruct He as (Hi & Hpay & Hfill).
  pose proof (zlen_nonneg b). pose proof (zlen_nonneg i).
  assert (E : d_prefix d ++ b = i ++ b) by (by rewrite Hp, ztake_all by lia). cbn zeta. rewrite E.
  assert (zdrop 8 (i ++ b) = []) as Hd8 by (apply zdrop_all; len_lia).
  assert (d_header d = []) as Hh' by (rewrite Hh, zdrop_all by lia; done).
  assert (ztake 8 (i ++ b) = i ++ b) as Ht8 by (apply ztake_all; len_lia).
  split; [done|]. split; [|split].
  - intros Hne. unfold holds_local. cbn [d_complete d_prefix d_header expected d_payload d_filled set_prefix].
    rewrite Hd8, Ht8, Hh'. split_and!; try done. len_lia.
  - intros Heq n Hpl. pose proof (parse_length_range _ _ _ Hpl). unfold holds_local.
    cbn [d_complete d_prefix d_header expected d_payload d_filled set_prefix max_packet_len].
    rewrite Hd8, Ht8, Hh', Hpay, Hfill, (zdrop_all (i ++ b) 10) by lia.
    split_and!; try done; [lia|lia|]. apply holds_body_start. lia.
  - intros Heq e Hpl. unfold parse_local. rewrite (proj2 (Z.ltb_ge _ _)) by lia. by rewrite Ht8, Hpl, Hd8.
Qed.

Lemma holds_local_header d i n b :
  holds_local d i -> expected d = Some n -> zlen (d_header d) < Z.min n 2 ->
  zlen b <= Z.min n 2 - zlen (d_header d) -> holds_local (set_header d (d_header d ++ b)) (i ++ b).
Proof.
  intros (Hc & Hp & Hh & He) Hn Hlt Hb. rewrite Hn in He. destruct He as ([H8 Hi] & Hpl & Hbody).
  pose proof (zlen_nonneg b). pose proof (zlen_nonneg i).
  assert (Hz : zlen i < 10 /\ zlen (d_header d) = zlen i - 8).
  { rewrite Hh, zlen_ztake, zlen_zdrop in *. lia. }
  assert (Hd10 : zdrop 10 i = [] /\ zdrop 10 (i ++ b) = []) by (split; apply zdrop_all; len_lia).
  destruct Hd10 as [E1 E2]. rewrite E1 in Hbody.
  unfold holds_local. cbn [d_complete d_prefix d_header expected d_payload d_filled set_header max_packet_len].
  rewrite Hn, ztake_app_l, zdrop_app_l, E2 by lia. split_and!; try done; [|len_lia|len_lia].
  rewrite take_app_small by len_lia. f_equal; [rewrite Hh; apply ztake_all; len_lia|].
  symmetry. apply ztake_all. len_lia.
Qed.

Lemma holds_local_payload d i n b body :
  holds_local d i -> expected d = Some n -> 10 <= zlen i -> zlen i + zlen b <= 8 + n ->
  holds_body body (d_filled d + zlen b) (zdrop 10 i ++ b) (Z.max 0 (n - 2)) ->
  holds_local (set_payload d body (d_filled d + zlen b)) (i ++ b).
Proof.
  intros (Hc & Hp & Hh & He) Hn Hi10 Hz Hbody. rewrite Hn in He. destruct He as ([H8 Hi] & Hpl & _).
  pose proof (zlen_nonneg b). unfold holds_local.
  cbn [d_complete d_prefix d_header expected d_payload d_filled set_payload max_packet_len].
  rewrite Hn, ztake_app_l, !zdrop_app_l by lia. split_and!; try done; [|len_lia|len_lia].
  rewrite ztake_app_l by len_lia. done.
Qed.

Lemma read_from_go_spec fuel d i s :
  holds_local d i -> (length (turns s) < fuel)%nat ->
  read_outcome holds_local (parse_local (max_packet_len d)) (fun _ => True) i s (read_from_go fuel d s).
Proof.
  revert d i s. induction fuel as [|fuel IH]; intros d i s Hd Hfuel; [lia|]. cbn [read_from_go].
  destruct (expected d) as [n|] eqn:Hn.
  - pose proof Hd as (Hc & Hp & Hh & He). rewrite Hn in He. destruct He as ([H8 Hi] & Hpl & Hbody).
    pose proof (parse_length_range _ _ _ Hpl) as Hrange. unfold HEADER_LEN in *.
    assert (Hhz : zlen (d_header d) = Z.min 2 (zlen i - 8)) by (rewrite Hh, zlen_ztake, zlen_zdrop; lia).
    assert (Hshort : zlen i < 8 + n -> parse_local (max_packet_len d) i = None).
    { intros Hz. apply parse_local_short; [done|]. by rewrite Hn. }
    destruct (Z.ltb_spec (zlen (d_header d)) (Z.min n 2)) as [Hlt|Hge].
    { specialize (Hshort ltac:(lia)). destruct (read_ready s (Z.min n 2 - zlen (d_header d))) as [s1 r1] eqn:Hr.
      apply read_ready_spec in Hr; [|lia]. destruct r1 as [[b|]|e].
      - destruct Hr as (Hs1 & Hb & Hturns). eapply read_outcome_more; [exact Hs1|].
        apply (IH (set_header d (d_header d ++ b))); [|lia]. by eapply holds_local_header; [done..|lia].
      - by eapply read_outcome_stop.
      - destruct Hr. by eapply read_outcome_stop. }
    destruct (Z.ltb_spec n 2) as [Hsmall|H2].
    { exists []. split; [done|]. rewrite app_nil_r. left. unfold parse_local. rewrite (proj2 (Z.ltb_ge _ _)) by lia.
      rewrite Hpl, (proj2 (Z.ltb_ge _ _)) by lia. eexists. do 3 f_equal.
      destruct (slice i 8 (8 + n)) as [|x [|y l]] eqn:E; try done. exfalso.
      apply (f_equal zlen) in E. rewrite zlen_slice in E by lia. rewrite !zlen_cons in E. pose proof (zlen_nonneg l). lia. }
    assert (Hi10 : 10 <= zlen i) by lia. pose proof Hbody as (Hf & _). rewrite zlen_zdrop in Hf.
    destruct (Z.ltb_spec (d_filled d) (n - 2)) as [Hmore|Hfull].
    + specialize (Hshort ltac:(lia)). rewrite Z.max_r in Hbody by lia. destruct (grow_payload_spec _ _ _ _ Hbody Hmore) as [Hgrown Hroom].
      set (body := grow_payload (d_payload d) (d_filled d) (n - 2)) in *.
      cbn [d_payload set_payload d_filled]. destruct (read_ready s (zlen body - d_filled d)) as [s1 r1] eqn:Hr.
      apply read_ready_spec in Hr; [|lia].
      assert (Hstop : holds_local (set_payload d body (d_filled d)) i).
      { rewrite <-(app_nil_r i). replace (d_filled d) with (d_filled d + zlen (@nil byte)) at 1 by (rewrite zlen_nil; lia).
        eapply holds_local_payload; [done|done|done|rewrite zlen_nil; lia|]. rewrite app_nil_r, Z.max_r by lia. by rewrite zlen_nil, Z.add_0_r. }
      destruct r1 as [[b|]|e]; [|by eapply read_outcome_stop|destruct Hr; by eapply read_outcome_stop].
      destruct Hr as (Hs1 & Hb & Hturns). eapply read_outcome_more; [exact Hs1|].
      assert (Hw := write_into_spec _ _ _ _ b Hgrown ltac:(lia)). destruct Hgrown as (_ & _ & _ & Hcap).
      apply (IH (set_payload (set_payload d body (d_filled d)) (write_into body (d_filled d) b) (d_filled d + zlen b))); [|lia].
      eapply (holds_local_payload d); [done|done|done|lia|]. by rewrite Z.max_r by lia.
    + exists []. split; [done|]. rewrite app_nil_r. split; [|done].
      eapply parse_local_complete; [done|done| |done]. lia.
  - pose proof Hd as (_ & Hp & _ & He). rewrite Hn in He. destruct He as (Hi & _).
    assert (Hpz : zlen (d_prefix d) = zlen i) by (rewrite Hp, ztake_all by lia; done).
    assert (Hshort : parse_local (max_packet_len d) i = None) by (apply parse_local_short; [done|by rewrite Hn]).
    unfold PREFIX_LEN. destruct (read_ready s (8 - zlen (d_prefix d))) as [s1 r1] eqn:Hr.
    apply read_ready_spec in Hr; [|lia].
    destruct r1 as [[b|]|e]; [|by eapply read_outcome_stop|destruct Hr; by eapply read_outcome_stop].
    destruct Hr as (Hs1 & Hb & Hturns).
    destruct (holds_local_prefix d i b Hd Hn ltac:(lia)) as (_ & Hpart & Hfull & Hbad).
    eapply read_outcome_more; [exact Hs1|].
    destruct (Z.eqb_spec (zlen (d_prefix d ++ b)) 8) as [E8|E8].
    + destruct (parse_length (d_prefix d ++ b) (max_packet_len d)) as [n|e] eqn:Hpl.
      * by apply (IH (set_prefix d (d_prefix d ++ b) (Some n))); [apply Hfull|lia].
      * exists []. split; [done|]. rewrite app_nil_r. left. eexists. by apply Hbad.
    + by apply (IH (set_prefix d (d_prefix d ++ b) None)); [apply Hpart|lia].
Qed.

(** ** Feeding *)

Lemma feed_payload_spec payload filled body body_len chunk :
  holds_body payload filled body body_len -> filled + zlen chunk <= body_len ->
  let room := Z.min (zlen payload - filled) (zlen chunk) in
  holds_body (write_into payload filled (ztake room chunk) ++ zdrop room chunk) (filled + zlen chunk) (body ++ chunk) body_len.
Proof.
  intros Hbody Hfit. pose proof Hbody as (Hf & Ht & Hl & Hb). pose proof (zlen_nonneg chunk). pose proof (zlen_nonneg body).
  cbn zeta. destruct (Z.le_gt_cases (zlen chunk) (zlen payload - filled)) as [Hroom|Hroom].
  - rewrite Z.min_r, ztake_all, zdrop_all, app_nil_r by lia. by apply write_into_spec.
  - rewrite Z.min_l by lia. set (room := zlen payload - filled) in *. unfold write_into. rewrite Ht.
    rewrite (zdrop_all payload) by (rewrite zlen_ztake; lia). rewrite app_nil_r, <-app_assoc, ztake_zdrop.
    unfold holds_body. split; [len_lia|]. split; [|unfold PAYLOAD_READ_STEP; len_lia].
    replace (filled + zlen chunk) with (zlen (body ++ chunk)) by len_lia. apply ztake_all. lia.
Qed.

(** The answer to a chunk, from the message it belongs to. *)
Definition feed_answer (parsed : option (result LocalPacketError Packet * list byte)) : result LocalPacketError (option Packet) :=
  match parsed with
  | None => Ok None
  | Some (Ok p, []) => Ok (Some p)
  | Some (Err (MalformedPacket e), []) => Err (MalformedPacket e)
  | Some (Ok _, _ :: _) | Some (Err (MalformedPacket _), _ :: _) => Err TrailingData
  | Some (Err e, _) => Err e
  end.

(** The decoder waits for more. *)
Definition unfinished (d : LocalPacketDecoder) (i : list byte) : Prop :=
  holds_local d i /\ match expected d with Some n => zlen i < 8 + n | None => True end.

(** The answer once the length is known and [i ++ input] is seen. *)
Lemma feed_answer_sized d i n input :
  holds_local d i -> expected d = Some n ->
  feed_answer (parse_local (max_packet_len d) (i ++ input)) =
  if zlen (i ++ input) <? 8 + n then Ok None
  else match zdrop (8 + n) (i ++ input) with
       | _ :: _ => Err TrailingData
       | [] => if n <? 2 then Err (MalformedPacket PShort)
               else match slice (i ++ input) 8 (8 + n) with
                    | flag :: hdr :: body => Ok (Some (raw (negb (b2z flag =? 0)) hdr body))
                    | _ => Err (MalformedPacket PShort)
                    end
       end.
Proof.
  intros (_ & _ & _ & He) Hn. rewrite Hn in He. destruct He as ([H8 _] & Hpl & _).
  pose proof (zlen_nonneg input). pose proof (parse_length_range _ _ _ Hpl) as Hr. unfold parse_local.
  rewrite (proj2 (Z.ltb_ge _ _)) by len_lia. rewrite ztake_app_l, Hpl by lia.
  destruct (Z.ltb_spec (zlen (i ++ input)) (8 + n)); [done|].
  destruct (zdrop (8 + n) (i ++ input)) as [|x l]; cbn; [|by destruct (slice (i ++ input) 8 (8 + n)) as [|a [|b c]]].
  destruct (Z.ltb_spec n 2) as [Hs|Hs].
  - destruct (slice (i ++ input) 8 (8 + n)) as [|a [|b c]] eqn:E; try done. exfalso.
    assert (zlen (slice (i ++ input) 8 (8 + n)) = n) as Hz by (rewrite zlen_slice; lia).
    rewrite E in Hz. unfold zlen in Hz. cbn in Hz. lia.
  - by destruct (slice (i ++ input) 8 (8 + n)) as [|a [|b c]].
Qed.

Lemma feed_header_spec d i n input :
  holds_local d i -> expected d = Some n ->
  let '(d', rest) := feed_header d (Z.min n 2) input in
  exists b, input = b ++ rest /\ holds_local d' (i ++ b) /\ expected d' = Some n /\ max_packet_len d' = max_packet_len d /\
    zlen (d_header d') <= Z.min n 2 /\ (zlen (d_header d') < Z.min n 2 -> rest = []).
Proof.
  intros Hd Hn. pose proof Hd as (_ & _ & Hh & He). rewrite Hn in He. destruct He as ([H8 Hi] & _).
  assert (Hhz : zlen (d_header d) = Z.min 2 (zlen i - 8)) by (rewrite Hh, zlen_ztake, zlen_zdrop; lia).
  unfold feed_header. destruct (Z.ltb_spec (zlen (d_header d)) (Z.min n 2)) as [Hlt|Hge].
  - pose proof (zlen_nonneg input). set (count := Z.min (Z.min n 2 - zlen (d_header d)) (zlen input)).
    exists (ztake count input). rewrite ztake_zdrop. split_and!; try done.
    + eapply holds_local_header; [done|done|done|len_lia].
    + cbn. len_lia.
    + cbn. intros Hs. apply zdrop_all. unfold count in *. len_lia.
  - exists []. rewrite app_nil_r. split_and!; try done; lia.
Qed.

Lemma feed_sized d i n input :
  holds_local d i -> expected d = Some n -> zlen i < 8 + n \/ n = 0 ->
  let '(d1, rest) := feed_header d (Z.min n 2) input in
  let '(d', r) :=
    if zlen (d_header d1) =? Z.min n 2 then
      let body_len := Z.max 0 (n - 2) in
      let count := Z.min (body_len - d_filled d1) (zlen rest) in
      let d2 := feed_payload d1 (ztake count rest) in
      let rest := zdrop count rest in
      if zlen (d_header d2) + d_filled d2 =? n then
        match rest with
        | _ :: _ => (d2, Err TrailingData)
        | [] => if n <? 2 then (set_complete d2, Err (MalformedPacket PShort))
                else (set_payload (set_complete d2) [] (d_filled d2), Ok (Some (decoder_packet d2)))
        end
      else (d2, match rest with [] => Ok None | _ => Err TrailingData end)
    else (d1, match rest with [] => Ok None | _ => Err TrailingData end) in
  r = feed_answer (parse_local (max_packet_len d) (i ++ input)) /\ (r = Ok None -> unfinished d' (i ++ input)).
Proof.
  intros Hd Hn Hlt. pose proof (feed_header_spec d i n input Hd Hn) as Hhead.
  destruct (feed_header d (Z.min n 2) input) as [d1 rest]. destruct Hhead as (b & -> & Hd1 & Hn1 & Hmax & Hh1 & Hshort).
  rewrite <-Hmax, app_assoc. rewrite (feed_answer_sized d1 (i ++ b) n rest Hd1 Hn1).
  set (j := i ++ b) in *. pose proof Hd1 as (_ & _ & Hh & He). rewrite Hn1 in He. destruct He as ([H8 Hi] & Hpl & Hbody).
  pose proof (parse_length_range _ _ _ Hpl) as Hr. pose proof (zlen_nonneg rest).
  assert (Hhz : zlen (d_header d1) = Z.min 2 (zlen j - 8)) by (rewrite Hh, zlen_ztake, zlen_zdrop; lia).
  destruct (Z.eqb_spec (zlen (d_header d1)) (Z.min n 2)) as [Hfull|Hpart].
  2: { rewrite Hshort, app_nil_r by lia. rewrite (proj2 (Z.ltb_lt _ _)) by lia. split; [done|]. intros _.
       split; [done|]. rewrite Hn1. lia. }
  cbv zeta. pose proof Hbody as (Hf & _). rewrite zlen_zdrop in Hf.
  set (count := Z.min (Z.max 0 (n - 2) - d_filled d1) (zlen rest)).
  assert (Hcount : 0 <= count <= zlen rest) by (unfold count; lia).
  set (d2 := feed_payload d1 (ztake count rest)).
  assert (Hcz : zlen (ztake count rest) = count) by (rewrite zlen_ztake; lia).
  assert (Hd2 : n < 2 \/ holds_local d2 (j ++ ztake count rest)).
  { destruct (Z.lt_ge_cases n 2); [by left|right]. unfold d2, feed_payload.
    eapply holds_local_payload; [done|done|lia|unfold count in *; lia|].
    apply feed_payload_spec; [done|]. unfold count in *. lia. }
  assert (Hh2 : d_header d2 = d_header d1) by done. assert (Hf2 : d_filled d2 = d_filled d1 + count).
  { cbn. by rewrite Hcz. }
  rewrite Hh2, Hf2.
  destruct (Z.eqb_spec (zlen (d_header d1) + (d_filled d1 + count)) n) as [Hdone|Hmore].
  - assert (Hz : zlen (j ++ ztake count rest) = 8 + n) by (rewrite zlen_app, Hcz; lia).
    assert (Hdrop : zdrop (8 + n) (j ++ rest) = zdrop count rest).
    { rewrite <-(ztake_zdrop count rest) at 1. rewrite app_assoc, <-Hz. apply zdrop_app_exact. }
    rewrite Hdrop. rewrite (proj2 (Z.ltb_ge (zlen (j ++ rest)) (8 + n))) by (rewrite zlen_app, Hcz in Hz; rewrite zlen_app; lia).
    destruct (zdrop count rest) as [|x l] eqn:E; [|by split].
    destruct (Z.ltb_spec n 2) as [|H2]; [by split|]. destruct Hd2 as [|Hd2]; [lia|].
    assert (Hall : j ++ ztake count rest = j ++ rest).
    { f_equal. rewrite <-(ztake_zdrop count rest) at 2. by rewrite E, app_nil_r. }
    pose proof (parse_local_complete d2 _ n Hd2 Hn1 Hz H2) as Hp. rewrite Hall in Hp, Hz.
    pose proof (feed_answer_sized d1 j n rest Hd1 Hn1) as Ha. change (max_packet_len d1) with (max_packet_len d2) in Ha.
    rewrite Hp in Ha. rewrite (proj2 (Z.ltb_ge _ _)), Hdrop, (proj2 (Z.ltb_ge _ _)) in Ha by lia. cbn in Ha. by split.
  - assert (zlen (j ++ rest) < 8 + n /\ zdrop count rest = []) as [Hless Hnil].
    { unfold count in *. destruct (Z.le_gt_cases (zlen rest) (Z.max 0 (n - 2) - d_filled d1)).
      - rewrite Z.min_r in * by lia. split; [len_lia|]. apply zdrop_all. lia.
      - exfalso. lia. }
    rewrite Hnil, (proj2 (Z.ltb_lt (zlen (j ++ rest)) (8 + n))) by done. split; [done|]. intros _.
    assert (Hall : j ++ rest = j ++ ztake count rest).
    { f_equal. rewrite <-(ztake_zdrop count rest) at 1. by rewrite Hnil, app_nil_r. }
    rewrite Hall in *. destruct Hd2 as [Hn2|Hd2].
    + exfalso. unfold count in *. len_lia.
    + split; [done|]. change (expected d2) with (expected d1). rewrite Hn1. done.
Qed.

Lemma feed_spec d i input :
  unfinished d i ->
  let '(d', r) := feed d input in
  r = feed_answer (parse_local (max_packet_len d) (i ++ input)) /\ (r = Ok None -> unfinished d' (i ++ input)).
Proof.
  intros [Hd Hun]. pose proof Hd as (Hc & Hp & _ & He). unfold feed. rewrite Hc. unfold feed_prefix, PREFIX_LEN, HEADER_LEN.
  destruct (expected d) as [n|] eqn:Hn.
  - rewrite Hn. pose proof (feed_sized d i n input Hd Hn (or_introl Hun)) as Hf. cbv zeta in Hf |- *.
    destruct (feed_header d (Z.min n 2) input) as [d1 rest]. exact Hf.
  - destruct He as (Hi & _). pose proof (zlen_nonneg input).
    assert (Hpz : d_prefix d = i) by (by rewrite Hp, ztake_all by lia).
    rewrite Hpz. set (count := Z.min (8 - zlen i) (zlen input)).
    assert (Hcz : zlen (ztake count input) = count) by (rewrite zlen_ztake; unfold count; lia).
    destruct (holds_local_prefix d i (ztake count input) Hd Hn ltac:(unfold count in *; lia)) as (_ & Hpart & Hfull & Hbad).
    rewrite Hpz in Hpart, Hfull, Hbad. assert (Hall : i ++ input = (i ++ ztake count input) ++ zdrop count input) by (by rewrite <-app_assoc, ztake_zdrop).
    destruct (Z.eqb_spec (zlen (i ++ ztake count input)) 8) as [E8|E8].
    + specialize (Hfull E8). specialize (Hbad E8).
      destruct (parse_length (i ++ ztake count input) (max_packet_len d)) as [n|e] eqn:Hpl.
      * pose proof (parse_length_range _ _ _ Hpl) as Hr. specialize (Hfull n eq_refl). cbn [expected set_prefix].
        pose proof (feed_sized (set_prefix d (i ++ ztake count input) (Some n)) _ n (zdrop count input) Hfull eq_refl ltac:(lia)) as Hf.
        rewrite <-Hall in Hf. cbn [max_packet_len set_prefix] in Hf. cbv zeta in Hf |- *.
        destruct (feed_header _ (Z.min n 2) (zdrop count input)) as [d1 rest]. exact Hf.
      * split; [|by intros [=]]. unfold parse_local. rewrite (proj2 (Z.ltb_ge _ _)) by (rewrite Hall, zlen_app, E8; len_lia).
        rewrite Hall, ztake_app_l by lia. rewrite ztake_all, Hpl by lia. cbn. unfold parse_length in Hpl. by case_all; simplify_eq.
    + assert (zdrop count input = []) as Hnil.
      { apply zdrop_all. rewrite zlen_app, Hcz in E8. unfold count in *. lia. }
      rewrite Hnil in *. rewrite app_nil_r in Hall. cbn [expected set_prefix].
      split; [|intros _; rewrite Hall; split; [by apply Hpart|done]].
      unfold parse_local. rewrite (proj2 (Z.ltb_lt _ _)); [done|]. rewrite Hall, zlen_app, Hcz in *. unfold count in *. lia.
Qed.

(** ** The upstream router stream *)

Definition parse_upstream (input : list byte) : option (result LocalPacketError Packet * list byte) :=
  match input with
  | [] => None
  | hdr :: rest =>
      match upstream_router_message hdr with
      | None => Some (Err (UnknownRouterMessage hdr), rest)
      | Some Close => Some (Ok (new hdr []), rest)
      | Some Proto =>
          if zlen rest <? 8 then None
          else
            match parse_length (ztake 8 rest) MAX_LOCAL_PACKET_LEN with
            | Err e => Some (Err e, zdrop 8 rest)
            | Ok n => if zlen rest <? 8 + n then None else Some (Ok (new hdr (slice rest 8 (8 + n))), zdrop (8 + n) rest)
            end
      end
  end.

(** After the type byte. *)
Definition holds_rest (u : UpstreamRouterDecoder) (hdr : byte) (rest : list byte) : Prop :=
  u_header u = Some hdr /\ upstream_router_message hdr = Some Proto /\ u_length u = ztake 8 rest /\
  match u_body_len u with
  | None => zlen rest < 8 /\ u_payload u = [] /\ u_filled u = 0
  | Some n => 8 <= zlen rest <= 8 + n /\ parse_length (ztake 8 rest) MAX_LOCAL_PACKET_LEN = Ok n /\
      holds_body (u_payload u) (u_filled u) (zdrop 8 rest) n
  end.

Definition holds_upstream (u : UpstreamRouterDecoder) (i : list byte) : Prop :=
  match i with
  | [] => u = upstream_default
  | hdr :: rest => holds_rest u hdr rest
  end.

Lemma upstream_body_spec fuel u hdr rest s :
  holds_rest u hdr rest -> (length (turns s) < fuel)%nat ->
  read_outcome holds_upstream parse_upstream (fun u => u = upstream_default) (hdr :: rest) s (upstream_body fuel u hdr s).
Proof.
  revert u rest s. induction fuel as [|fuel IH]; intros u rest s Hu Hfuel; [lia|]. cbn [upstream_body].
  pose proof Hu as (Hhdr & Hproto & Hlen & Hb). destruct (u_body_len u) as [n|] eqn:Hn.
  - destruct Hb as ([H8 Hi] & Hpl & Hbody). pose proof (parse_length_range _ _ _ Hpl) as Hrange.
    pose proof Hbody as (Hf & Ht & _ & Hcap). rewrite zlen_zdrop in Hf.
    destruct (Z.ltb_spec (u_filled u) n) as [Hmore|Hfull].
    + assert (Hshort : parse_upstream (hdr :: rest) = None).
      { cbn [parse_upstream]. rewrite Hproto, (proj2 (Z.ltb_ge _ _)) by lia. rewrite Hpl. by rewrite (proj2 (Z.ltb_lt _ _)) by lia. }
      destruct (grow_payload_spec _ _ _ _ Hbody Hmore) as [Hgrown Hroom].
      set (body := grow_payload (u_payload u) (u_filled u) n) in *. cbv zeta.
      cbn [u_header u_length u_body_len u_filled u_payload].
      destruct (read_ready s (zlen body - u_filled u)) as [s1 r1] eqn:Hr. apply read_ready_spec in Hr; [|lia].
      assert (Hstop : holds_upstream (mkUpstream (u_header u) (u_length u) (Some n) body (u_filled u)) (hdr :: rest)).
      { by split_and!. }
      destruct r1 as [[b|]|e]; [|by eapply read_outcome_stop|destruct Hr; by eapply read_outcome_stop].
      destruct Hr as (Hs1 & Hbz & Hturns). eapply read_outcome_more; [exact Hs1|]. cbn [app].
      pose proof (write_into_spec _ _ _ _ b Hgrown ltac:(lia)) as Hw. destruct Hgrown as (_ & _ & _ & Hgcap).
      apply IH; [|lia]. unfold holds_rest. cbn [u_header u_length u_body_len u_filled u_payload].
      rewrite ztake_app_l, zdrop_app_l by lia. split_and!; try done; len_lia.
    + exists []. split; [done|]. rewrite app_nil_r. split; [|done]. cbn [parse_upstream]. rewrite Hproto.
      rewrite (proj2 (Z.ltb_ge _ _)) by lia. rewrite Hpl. rewrite (proj2 (Z.ltb_ge _ _)) by lia.
      assert (zlen rest = 8 + n) as Hz by lia. rewrite <-Hz, slice_full, (zdrop_all rest (zlen rest)) by lia.
      do 3 f_equal. unfold new. f_equal. rewrite <-Ht. apply ztake_all. lia.
  - destruct Hb as (Hi & Hpay & Hfill). assert (Hlz : u_length u = rest) by (by rewrite Hlen, ztake_all by lia).
    assert (Hshort : parse_upstream (hdr :: rest) = None).
    { cbn [parse_upstream]. by rewrite Hproto, (proj2 (Z.ltb_lt _ _)) by lia. }
    unfold PREFIX_LEN. rewrite Hlz. destruct (read_ready s (8 - zlen rest)) as [s1 r1] eqn:Hr.
    apply read_ready_spec in Hr; [|lia].
    destruct r1 as [[b|]|e]; [|by eapply read_outcome_stop|destruct Hr; by eapply read_outcome_stop].
    destruct Hr as (Hs1 & Hbz & Hturns). eapply read_outcome_more; [exact Hs1|]. cbn [app].
    assert (Ht8 : ztake 8 (rest ++ b) = rest ++ b) by (apply ztake_all; len_lia).
    assert (Hd8 : zdrop 8 (rest ++ b) = []) by (apply zdrop_all; len_lia). rewrite Hpay, Hfill.
    destruct (Z.eqb_spec (zlen (rest ++ b)) 8) as [E8|E8].
    + destruct (parse_length (rest ++ b) MAX_LOCAL_PACKET_LEN) as [n|e] eqn:Hpl.
      * pose proof (parse_length_range _ _ _ Hpl). apply IH; [|lia]. unfold holds_rest.
        cbn [u_header u_length u_body_len u_filled u_payload]. rewrite Ht8, Hd8. split_and!; try done; [lia|lia|].
        apply holds_body_start. lia.
      * exists []. split; [done|]. rewrite app_nil_r. left. cbn [parse_upstream]. rewrite Hproto.
        rewrite (proj2 (Z.ltb_ge _ _)) by lia. rewrite Ht8, Hpl. eauto.
    + apply IH; [|lia]. unfold holds_rest. cbn [u_header u_length u_body_len u_filled u_payload].
      rewrite Ht8. split_and!; try done. len_lia.
Qed.

Lemma upstream_read_from_spec u i s :
  holds_upstream u i ->
  read_outcome holds_upstream parse_upstream (fun u => u = upstream_default) i s (upstream_read_from u s).
Proof.
  destruct i as [|hdr rest]; intros Hu.
  - cbn in Hu. subst u. unfold upstream_read_from. cbn [u_header upstream_default].
    destruct (read_ready s 1) as [s1 r1] eqn:Hr. apply read_ready_spec in Hr; [|lia].
    destruct r1 as [[b|]|e]; [|by eapply read_outcome_stop|destruct Hr; by eapply read_outcome_stop].
    destruct Hr as (Hs1 & Hbz & Hturns). destruct b as [|hdr b]; [rewrite zlen_nil in Hbz; lia|].
    assert (b = []) as -> by (apply zlen_0_nil; rewrite zlen_cons in Hbz; pose proof (zlen_nonneg b); lia).
    eapply read_outcome_more; [exact Hs1|]. cbn [app].
    destruct (upstream_router_message hdr) as [[]|] eqn:Hm.
    + apply upstream_body_spec; [|lia]. unfold holds_rest. cbn. by split_and!.
    + exists []. split; [done|]. cbn. by rewrite Hm.
    + exists []. split; [done|]. left. cbn. rewrite Hm. eauto.
  - pose proof Hu as (Hhdr & _). unfold upstream_read_from. rewrite Hhdr. apply upstream_body_spec; [done|lia].
Qed.

(** ** Whole streams *)

(** What a decoder of a router stream promises its reader. *)
Class StreamDecoder (D : Type) := {
  sd_start : D;
  sd_read : D -> source -> D * source * result LocalPacketError (option Packet);
  sd_parse : list byte -> option (result LocalPacketError Packet * list byte);
  sd_holds : D -> list byte -> Prop
}.

Class StreamDecoderLaws (D : Type) {decoder : StreamDecoder D} : Prop := {
  sd_holds_start : sd_holds sd_start [];
  sd_parse_nil : sd_parse [] = None;
  sd_parse_app i f m rest : sd_parse i = Some (m, rest) -> sd_parse (i ++ f) = Some (m, rest ++ f);
  sd_read_spec d i s : sd_holds d i ->
    read_outcome sd_holds sd_parse (fun d => d = sd_start) i s (sd_read d s)
}.

(** Call after call until an error: the packets. *)
Fixpoint read_stream {D} {decoder : StreamDecoder D} (calls : nat) (d : D) (s : source)
  : D * source * list Packet * option LocalPacketError :=
  match calls with
  | O => (d, s, [], None)
  | S calls =>
      match sd_read d s with
      | (d, s, Err e) => (d, s, [], Some e)
      | (d, s, Ok None) => read_stream calls d s
      | (d, s, Ok (Some p)) => let '(d, s, ps, e) := read_stream calls d s in (d, s, p :: ps, e)
      end
  end.

Section stream.
Context {D : Type} {decoder : StreamDecoder D} {laws : StreamDecoderLaws D}.

(** The bytes of one message. *)
Definition message_of (bytes : list byte) (p : Packet) : Prop := sd_parse bytes = Some (Ok p, []).

(** From a partial message, over a stream of whole messages: packets come out
    in order, none is lost or made up, and only the transport can fail. *)
Lemma read_stream_spec calls d i s frames ps d' s' got e :
  sd_holds d i -> sd_parse i = None -> Forall2 message_of frames ps -> i ++ to_come s = concat frames ->
  read_stream calls d s = (d', s', got, e) ->
  got `prefix_of` ps /\
  (exists i', concat (drop (length got) frames) = i' ++ to_come s' /\ (e = None -> sd_parse i' = None)) /\
  (forall err, e = Some err -> exists k, err = LIo k).
Proof.
  revert d i s frames ps got. induction calls as [|calls IH]; intros d i s frames ps got Hd Hi Hm Hs; cbn [read_stream].
  { intros [= <- <- <- <-]. split; [apply prefix_nil|]. split; [|done]. exists i. split; [by cbn|done]. }
  pose proof (sd_read_spec d i s Hd) as Hread. destruct (sd_read d s) as [[d1 s1] r]. destruct Hread as (fed & Hfed & Hr).
  assert (Hs1 : (i ++ fed) ++ to_come s1 = concat frames) by (by rewrite <-app_assoc, <-Hfed).
  assert (Hhead : forall m rest, sd_parse (i ++ fed) = Some (m, rest) -> exists f fs p ps', frames = f :: fs /\ ps = p :: ps' /\
    Forall2 message_of fs ps' /\ m = Ok p /\ concat fs = rest ++ to_come s1).
  { intros m rest Hp. apply (sd_parse_app _ (to_come s1)) in Hp. rewrite Hs1 in Hp.
    destruct Hm as [|f p fs ps' Hfp Hrest].
    - cbn in Hp. by rewrite sd_parse_nil in Hp.
    - exists f, fs, p, ps'. apply (sd_parse_app _ (concat fs)) in Hfp. cbn in Hp. rewrite Hp in Hfp. injection Hfp as -> Hfp.
      by split_and!. }
  destruct r as [[p|]|err].
  - destruct Hr as [Hp ->]. destruct (Hhead _ _ Hp) as (f & fs & p' & ps' & -> & -> & Hrest & [= <-] & Hcat).
    destruct (read_stream calls sd_start s1) as [[[d2 s2] more] e2] eqn:Hmore. intros [= <- <- <- <-].
    destruct (IH sd_start [] s1 fs ps' more sd_holds_start sd_parse_nil Hrest) as (H1 & H2 & H3); [by rewrite Hcat|done|].
    split; [by apply prefix_cons|]. split; [exact H2|exact H3].
  - intros Hmore. destruct Hr as [Hr1 Hr2]. by apply (IH d1 (i ++ fed) s1 frames ps).
  - intros [= <- <- <- <-]. split; [apply prefix_nil|]. split.
    + exists (i ++ fed). split; [by cbn|done].
    + intros err' [= <-]. destruct Hr as [[rest Hp]|Hio]; [|done].
      by destruct (Hhead _ _ Hp) as (f & fs & p' & ps' & _ & _ & _ & [=] & _).
Qed.
End stream.

(** ** The two framings *)

Lemma read_from_go_limit fuel d s : max_packet_len (fst (fst (read_from_go fuel d s))) = max_packet_len d.
Proof.
  revert d s. induction fuel as [|fuel IH]; intros d s; [done|]. cbn [read_from_go].
  destruct (expected d) as [n|].
  - destruct (_ <? _).
    + destruct (read_ready s _) as [s1 [[b|]|e]]; [by rewrite IH|done|done].
    + destruct (_ <? _); [done|]. destruct (_ <? _); [|done]. cbv zeta.
      destruct (read_ready s _) as [s1 [[b|]|e]]; [by rewrite IH|done|done].
  - destruct (read_ready s _) as [s1 [[b|]|e]]; [|done|done]. cbv zeta. destruct (_ =? _); [|by rewrite IH].
    destruct (parse_length _ _); [by rewrite IH|done].
Qed.

Lemma parse_local_app limit i f m rest :
  parse_local limit i = Some (m, rest) -> parse_local limit (i ++ f) = Some (m, rest ++ f).
Proof.
  unfold parse_local. destruct (Z.ltb_spec (zlen i) 8); [done|]. rewrite (proj2 (Z.ltb_ge _ _)) by len_lia.
  rewrite ztake_app_l by lia. destruct (parse_length (ztake 8 i) limit) as [n|e] eqn:Hpl.
  - pose proof (parse_length_range _ _ _ Hpl). destruct (Z.ltb_spec (zlen i) (8 + n)); [done|].
    rewrite (proj2 (Z.ltb_ge _ _)) by len_lia. rewrite zdrop_app_l by lia.
    assert (slice (i ++ f) 8 (8 + n) = slice i 8 (8 + n)) as ->.
    { unfold slice. rewrite zdrop_app_l by lia. rewrite ztake_app_l; [done|len_lia]. }
    by intros [= <- <-].
  - rewrite zdrop_app_l by lia. by intros [= <- <-].
Qed.

Lemma parse_upstream_app i f m rest :
  parse_upstream i = Some (m, rest) -> parse_upstream (i ++ f) = Some (m, rest ++ f).
Proof.
  destruct i as [|hdr i]; [done|]. cbn [app parse_upstream]. destruct (upstream_router_message hdr) as [[]|]; [|by intros [= <- <-]..].
  destruct (Z.ltb_spec (zlen i) 8); [done|]. rewrite (proj2 (Z.ltb_ge _ _)) by len_lia.
  rewrite ztake_app_l by lia. destruct (parse_length (ztake 8 i) _) as [n|e] eqn:Hpl.
  - pose proof (parse_length_range _ _ _ Hpl). destruct (Z.ltb_spec (zlen i) (8 + n)); [done|].
    rewrite (proj2 (Z.ltb_ge _ _)) by len_lia. rewrite zdrop_app_l by lia.
    assert (slice (i ++ f) 8 (8 + n) = slice i 8 (8 + n)) as ->.
    { unfold slice. rewrite zdrop_app_l by lia. rewrite ztake_app_l; [done|len_lia]. }
    by intros [= <- <-].
  - rewrite zdrop_app_l by lia. by intros [= <- <-].
Qed.

(** [RouterStreamDecoder] of one framing. *)
#[export] Instance router_stream (framing : RouterFraming) : StreamDecoder RouterStreamDecoder := {
  sd_start := router_decoder_new framing;
  sd_read := router_read_from;
  sd_parse := match framing with Packets => parse_local MAX_LOCAL_PACKET_LEN | Upstream => parse_upstream end;
  sd_holds r i :=
    match framing, r with
    | Packets, PacketStream d => holds_local d i /\ max_packet_len d = MAX_LOCAL_PACKET_LEN
    | Upstream, UpstreamStream u => holds_upstream u i
    | _, _ => False
    end
}.

#[export] Instance router_stream_laws (framing : RouterFraming) :
  StreamDecoderLaws RouterStreamDecoder (decoder := router_stream framing).
Proof.
  split.
  - by destruct framing.
  - by destruct framing.
  - intros i f m rest. destruct framing; [apply parse_upstream_app|apply parse_local_app].
  - intros d i s Hd. destruct framing; destruct d as [d|u]; try done; cbn [sd_read router_stream router_read_from].
    + pose proof (upstream_read_from_spec u i s Hd) as H. destruct (upstream_read_from u s) as [[u' s'] r].
      destruct H as (fed & Hf & Hr). exists fed. split; [done|]. destruct r as [[p|]|e]; [|done|done].
      destruct Hr as [Hr ->]. done.
    + destruct Hd as [Hd Hmax]. unfold read_from. destruct Hd as [Hc Hd'] eqn:E. clear E. rewrite Hc.
      pose proof (read_from_go_spec (S (length (turns s))) d i s (conj Hc Hd') ltac:(lia)) as H.
      pose proof (read_from_go_limit (S (length (turns s))) d s) as Hlim. rewrite Hmax in H, Hlim.
      destruct (read_from_go _ d s) as [[d' s'] r]. cbn in Hlim. destruct H as (fed & Hf & Hr).
      destruct r as [[p|]|e]; exists fed; (split; [done|]); [|by destruct Hr as [? ?]|done]. by destruct Hr.
Qed.

Lemma parse_length_written n limit : 0 <= n <= limit -> limit <= i64_max -> parse_length (ne_bytes n) limit = Ok n.
Proof.
  intros Hn Hl. unfold parse_length, ne_bytes. rewrite le_val_le_bytes. unfold i64_max in Hl.
  rewrite Z.mod_small by (change (256 ^ Z.of_nat 8) with (2 ^ 64); lia). rewrite to_signed_small by lia.
  by rewrite !(proj2 (Z.ltb_ge _ _)) by lia.
Qed.

(** What the writer frames, the reader parses. *)
Lemma router_frame_parses framing p bytes :
  encrypted p = false -> router_frame p framing = Ok bytes ->
  message_of (decoder := router_stream framing) bytes p.
Proof.
  destruct p as [enc hdr body]. cbn. intros -> Hf. unfold router_frame, router_head in Hf. cbn [header payload] in Hf.
  pose proof (zlen_nonneg body). unfold message_of. cbn [sd_parse router_stream].
  assert (Hz8 : forall n, zlen (ne_bytes n) = 8) by (intros n; apply zlen_le_bytes).
  destruct framing.
  - destruct (Z.ltb_spec MAX_LOCAL_PACKET_LEN (zlen body)); [done|].
    destruct (upstream_router_message hdr) as [[]|] eqn:Hm; [| |done].
    + destruct (Z.ltb_spec i64_max (zlen body)); [done|].
      change (Ok (hdr :: (ne_bytes (zlen body) ++ body)) = Ok (E := io_kind) bytes) in Hf.
      assert (bytes = hdr :: (ne_bytes (zlen body) ++ body)) as -> by congruence. cbn [parse_upstream]. rewrite Hm.
      rewrite zlen_app, Hz8. rewrite (proj2 (Z.ltb_ge _ _)) by lia.
      rewrite ztake_app_l, ztake_all by (rewrite Hz8; lia).
      rewrite parse_length_written by (unfold MAX_LOCAL_PACKET_LEN, i64_max in *; lia).
      rewrite (proj2 (Z.ltb_ge _ _)) by lia. unfold slice. rewrite <-(Hz8 (zlen body)), zdrop_app_exact.
      rewrite (zdrop_all (ne_bytes (zlen body) ++ body)) by len_lia. rewrite ztake_all by lia. done.
    + destruct (Z.eqb_spec (zlen body) 0) as [E|]; [|done]. apply zlen_0_nil in E as ->. injection Hf as <-. cbn. by rewrite Hm.
  - destruct (Z.ltb_spec (MAX_LOCAL_PACKET_LEN - HEADER_LEN) (zlen body)); [done|].
    destruct (Z.ltb_spec i64_max (HEADER_LEN + zlen body)); [done|]. unfold HEADER_LEN in *.
    change (Ok ((ne_bytes (2 + zlen body) ++ [x00; hdr]) ++ body) = Ok (E := io_kind) bytes) in Hf.
    assert (bytes = (ne_bytes (2 + zlen body) ++ [x00; hdr]) ++ body) as -> by congruence.
    unfold parse_local. rewrite !zlen_app, Hz8. rewrite (proj2 (Z.ltb_ge _ _)) by len_lia.
    rewrite <-app_assoc. rewrite ztake_app_l, ztake_all by (rewrite Hz8; lia).
    rewrite parse_length_written by (unfold MAX_LOCAL_PACKET_LEN, i64_max in *; lia).
    rewrite (proj2 (Z.ltb_ge _ _)) by len_lia. unfold slice. rewrite <-(Hz8 (2 + zlen body)), zdrop_app_exact.
    rewrite (zdrop_all (ne_bytes (2 + zlen body) ++ _)) by len_lia. rewrite ztake_all by len_lia. done.
Qed.

(** ** Theorems *)

(** Whatever [etserver] writes to [etterminal], [etterminal] reads: however
    the stream cuts it, blocks or interrupts it, in either framing, the
    packets come out in order, none lost, changed or made up; the decoder
    fails only when the transport does, and has delivered everything once all
    bytes have come. *)
Theorem router_stream_roundtrip framing ps frames s calls d' s' got e :
  Forall2 (fun p bytes => encrypted p = false /\ router_frame p framing = Ok bytes) ps frames ->
  to_come s = concat frames ->
  read_stream (decoder := router_stream framing) calls (router_decoder_new framing) s = (d', s', got, e) ->
  got `prefix_of` ps /\ (forall err, e = Some err -> exists k, err = LIo k) /\
  (e = None -> to_come s' = [] -> got = ps).
Proof.
  intros Hps Hs Hread.
  assert (Hm : Forall2 (message_of (decoder := router_stream framing)) frames ps).
  { clear -Hps. induction Hps as [|p f ps frames [He Hf] _ IH]; constructor; [by apply router_frame_parses|done]. }
  destruct (read_stream_spec (laws := router_stream_laws framing) calls (router_decoder_new framing) [] s frames ps d' s' got e)
    as (Hpre & (i' & Hcat & Hnone) & Herr); [apply (sd_holds_start (decoder := router_stream framing))|
    apply (sd_parse_nil (decoder := router_stream framing))|done|done|done|].
  split; [done|]. split; [done|]. intros -> Hempty. rewrite Hempty, app_nil_r in Hcat. destruct Hpre as [rest ->].
  assert (Hleft : Forall2 (message_of (decoder := router_stream framing)) (drop (length got) frames) rest).
  { rewrite <-(drop_app_length got rest). by apply Forall2_drop. }
  destruct Hleft as [|f p fs rest' Hf _]; [by rewrite app_nil_r|]. exfalso. cbn in Hcat.
  apply (sd_parse_app (decoder := router_stream framing) _ (concat fs)) in Hf. rewrite Hcat in Hf.
  by rewrite Hnone in Hf.
Qed.

(** Chunk after chunk until there is an answer: the answer, and the chunks
    that were not fed. *)
Fixpoint feed_all (d : LocalPacketDecoder) (chunks : list (list byte))
  : result LocalPacketError (option Packet) * list (list byte) :=
  match chunks with
  | [] => (Ok None, [])
  | chunk :: chunks =>
      match feed d chunk with
      | (d, Ok None) => feed_all d chunks
      | (_, r) => (r, chunks)
      end
  end.

Lemma feed_limit d input : max_packet_len (fst (feed d input)) = max_packet_len d.
Proof.
  unfold feed, feed_prefix, feed_header. destruct (d_complete d); [done|].
  destruct (expected d) as [n|] eqn:Hn.
  - rewrite Hn. destruct (_ <? _); cbn -[Z.min]; destruct (_ =? _); try done; destruct (_ =? _); try done;
      destruct (zdrop _ _); try done; by destruct (n <? HEADER_LEN).
  - cbn zeta. destruct (zlen _ =? PREFIX_LEN); [|done]. destruct (parse_length _ _) as [n|e]; [|done]. cbn [expected set_prefix].
    destruct (_ <? _); cbn -[Z.min]; destruct (_ =? _); try done; destruct (_ =? _); try done;
      destruct (zdrop _ _); try done; by destruct (n <? HEADER_LEN).
Qed.

Lemma feed_all_spec d i chunks :
  unfinished d i ->
  let '(r, unfed) := feed_all d chunks in
  exists used, chunks = used ++ unfed /\ r = feed_answer (parse_local (max_packet_len d) (i ++ concat used)) /\
  (r = Ok None -> unfed = []).
Proof.
  revert d i. induction chunks as [|chunk chunks IH]; intros d i Hd; cbn [feed_all].
  { exists []. cbn [concat]. rewrite (app_nil_r i). destruct Hd as [Hd Hz]. by rewrite (parse_local_short d i Hd Hz). }
  pose proof (feed_spec d i chunk Hd) as Hf. pose proof (feed_limit d chunk) as Hlim.
  destruct (feed d chunk) as [d1 r]. cbn in Hlim. destruct Hf as [Hr Hun].
  assert (Hstop : r <> Ok None -> exists used, chunk :: chunks = used ++ chunks /\
    r = feed_answer (parse_local (max_packet_len d) (i ++ concat used)) /\ (r = Ok None -> chunks = [])).
  { intros Hne. exists [chunk]. cbn. by rewrite app_nil_r. }
  destruct r as [[p|]|e]; [by apply Hstop| |by apply Hstop]. specialize (IH d1 (i ++ chunk) (Hun eq_refl)).
  destruct (feed_all d1 chunks) as [r unfed]. destruct IH as (used & -> & Hr' & Hl). exists (chunk :: used).
  split; [done|]. rewrite Hlim in Hr'. cbn. by rewrite app_assoc.
Qed.

(** Feeding a packet piece by piece is reading it at once: the decoder's answer
    is determined by the bytes fed so far, however they were cut: a packet when
    they are exactly one, nothing while they are a part of one, an error for
    bytes beyond it or a length it refuses. *)
Theorem feed_is_incremental limit chunks :
  let '(r, unfed) := feed_all (with_limit limit) chunks in
  exists used, chunks = used ++ unfed /\
  r = feed_answer (parse_local (Z.min limit MAX_LOCAL_PACKET_LEN) (concat used)) /\
  (r = Ok None -> unfed = []).
Proof. by apply (feed_all_spec (with_limit limit) []). Qed.

(** ** Witnesses *)

(** A resize and a close, in pieces of three bytes with a block in between. *)
Definition demo_messages : list Packet := [new TERMINAL_INFO [x61; x62]; new TERMINAL_CLOSE []].
Definition demo_frames : list (list byte) := [TERMINAL_INFO :: ne_bytes 2 ++ [x61; x62]; [TERMINAL_CLOSE]].
Definition demo_source : source :=
  mkSource (concat demo_frames) [Give 3; InterruptedTurn; Give 3; WouldBlockTurn; Give 3; Give 3; Give 3; Give 3; Give 3].

Lemma router_stream_roundtrip_witness :
  exists d' s' got, read_stream (decoder := router_stream Upstream) 3 (router_decoder_new Upstream) demo_source =
    (d', s', got, None) /\ got = demo_messages.
Proof.
  destruct (read_stream (decoder := router_stream Upstream) 3 (router_decoder_new Upstream) demo_source)
    as [[[d' s'] got] e] eqn:E.
  assert (e = None /\ to_come s' = []) as [-> Hs].
  { apply (f_equal (fun o => (snd o, to_come (snd (fst (fst o)))))) in E. vm_compute in E. by injection E as -> ->. }
  exists d', s', got. split; [done|].
  refine (proj2 (proj2 (router_stream_roundtrip Upstream demo_messages demo_frames demo_source 3 d' s' got None _ eq_refl E)) eq_refl Hs).
  by repeat constructor.
Defined.
