(* ===== verification/Exchange.v ===== *)
(** * Exchange: two ends of a framed handshake

    The connect handshake and the recovery exchange are straight programs that
    write and read length-prefixed messages ([framing_io.rs]) over one socket.
    A program is a value of [prog]; [outcome] is what it writes and returns on
    a given input stream; [nstep] runs two programs against each other over a
    pair of byte channels of bounded capacity, with partial reads and writes
    and, if asked for, an I/O failure of either end at any moment. The file
    proves once, for every such pair, that a result can only be the one the
    two programs agree on, and when no run can get stuck. *)

From S2P Require Import Prelude Framing FramingIo.

(** ** Programs *)

Inductive prog (E A : Type) : Type :=
| Done (r : result E A)
| WriteMsg (bytes : list byte) (k : prog E A)
| ReadMsg (max_len : Z) (k : result io_kind (list byte) -> prog E A).
Arguments Done {E A} r.
Arguments WriteMsg {E A} bytes k.
Arguments ReadMsg {E A} max_len k.

(** The first message of a stream, if it is complete; an error if its length
    is refused. *)
Definition split_frame (max_len : Z) (input : list byte) : option (result io_kind (list byte) * list byte) :=
  if zlen input <? 8 then None
  else
    match frame_length max_len (ztake 8 input) with
    | Err e => Some (Err e, zdrop 8 input)
    | Ok n =>
        if zlen input <? 8 + n then None
        else Some (Ok (slice input 8 (8 + n)), zdrop (8 + n) input)
    end.

(** Bytes the read in progress still asks the socket for. *)
Definition wanted (max_len : Z) (acc : list byte) : Z :=
  if zlen acc <? 8 then 8 - zlen acc
  else
    match frame_length max_len (ztake 8 acc) with
    | Err _ => 0
    | Ok n => 8 + n - zlen acc
    end.

(** What a program writes on an input stream, and its result unless it is
    left waiting for input. *)
Fixpoint outcome {E A} (p : prog E A) (input : list byte) : list byte * option (result E A) :=
  match p with
  | Done r => ([], Some r)
  | WriteMsg bytes k => let (out, r) := outcome k input in (bytes ++ out, r)
  | ReadMsg max_len k =>
      match split_frame max_len input with
      | None => ([], None)
      | Some (message, rest) => outcome (k message) rest
      end
  end.

(** Messages written and read on the way. *)
Fixpoint messages {E A} (p : prog E A) (input : list byte) : nat :=
  match p with
  | Done _ => 0
  | WriteMsg _ k => S (messages k input)
  | ReadMsg max_len k =>
      match split_frame max_len input with
      | None => 0
      | Some (message, rest) => S (messages (k message) rest)
      end
  end.

(** ** Runs *)

(** One step of one end: [out] goes to its channel, [inp] comes from the
    peer's. *)
Inductive party_step {E A} (faulty : bool) :
  prog E A -> list byte -> prog E A -> list byte -> list byte -> list byte -> Prop :=
| ps_write x rest k acc : x <> [] -> party_step faulty (WriteMsg (x ++ rest) k) acc (WriteMsg rest k) acc x []
| ps_written k acc : party_step faulty (WriteMsg [] k) acc k acc [] []
| ps_read x max_len k acc :
    x <> [] -> zlen x <= wanted max_len acc ->
    party_step faulty (ReadMsg max_len k) acc (ReadMsg max_len k) (acc ++ x) [] x
| ps_message max_len k acc message rest :
    split_frame max_len acc = Some (message, rest) ->
    party_step faulty (ReadMsg max_len k) acc (k message) rest [] []
(** The socket fails or the deadline passes. *)
| ps_fail p acc e : faulty = true -> party_step faulty p acc (Done (Err e)) [] [] [].

(** Two ends: their programs, the message being read, and all bytes each has
    taken from and given to the transport. *)
Record net (E A B : Type) := mkNet {
  pa : prog E A; acca : list byte; ra : list byte; wa : list byte;
  pb : prog E B; accb : list byte; rb : list byte; wb : list byte
}.
Arguments mkNet {E A B}.
Arguments pa {E A B}.
Arguments acca {E A B}.
Arguments ra {E A B}.
Arguments wa {E A B}.
Arguments pb {E A B}.
Arguments accb {E A B}.
Arguments rb {E A B}.
Arguments wb {E A B}.

(** Each direction holds at most [cap] bytes between write and read. *)
Inductive nstep {E A B} (faulty : bool) (cap : Z) : net E A B -> net E A B -> Prop :=
| n_a c p acc out inp :
    party_step faulty (pa c) (acca c) p acc out inp ->
    out = [] \/ zlen (wa c ++ out) - zlen (rb c) <= cap ->
    (ra c ++ inp) `prefix_of` wb c ->
    nstep faulty cap c (mkNet p acc (ra c ++ inp) (wa c ++ out) (pb c) (accb c) (rb c) (wb c))
| n_b c p acc out inp :
    party_step faulty (pb c) (accb c) p acc out inp ->
    out = [] \/ zlen (wb c ++ out) - zlen (ra c) <= cap ->
    (rb c ++ inp) `prefix_of` wa c ->
    nstep faulty cap c (mkNet (pa c) (acca c) (ra c) (wa c) p acc (rb c ++ inp) (wb c ++ out)).

Definition net_start {E A B} (p : prog E A) (q : prog E B) : net E A B := mkNet p [] [] [] q [] [] [].

Inductive net_reachable {E A B} (faulty : bool) (cap : Z) (p : prog E A) (q : prog E B) : nat -> net E A B -> Prop :=
| nr_start : net_reachable faulty cap p q 0 (net_start p q)
| nr_step n c c' : net_reachable faulty cap p q n c -> nstep faulty cap c c' -> net_reachable faulty cap p q (S n) c'.

(** ** Frames *)

Definition framed (message : list byte) : list byte := le_bytes 8 (zlen message) ++ message.

Lemma write_proto_framed max_len encoded bytes :
  write_proto_limited max_len encoded = Ok bytes ->
  bytes = framed encoded /\ zlen encoded <= max_len /\ zlen encoded <= i64_max.
Proof.
  unfold write_proto_limited, length_allowed. destruct (Z.ltb_spec i64_max (zlen encoded)); [done|].
  destruct (Z.leb_spec 0 (zlen encoded)); [|len_lia]. destruct (Z.leb_spec (zlen encoded) max_len); [|done].
  cbn. intros; by simplify_eq.
Qed.

Lemma write_proto_ok max_len encoded :
  zlen encoded <= max_len -> zlen encoded <= i64_max ->
  write_proto_limited max_len encoded = Ok (framed encoded).
Proof.
  intros H1 H2. unfold write_proto_limited, length_allowed. rewrite (proj2 (Z.ltb_ge _ _)) by lia.
  by rewrite !(proj2 (Z.leb_le _ _)) by len_lia.
Qed.

Lemma zlen_framed m : zlen (framed m) = 8 + zlen m.
Proof. unfold framed. len_lia. Qed.

Lemma split_frame_framed max_len m rest :
  zlen m <= max_len -> zlen m <= i64_max -> split_frame max_len (framed m ++ rest) = Some (Ok m, rest).
Proof.
  intros H1 H2. unfold split_frame. rewrite zlen_app, zlen_framed.
  rewrite (proj2 (Z.ltb_ge _ _)) by len_lia. unfold framed. rewrite <-app_assoc.
  rewrite (ztake_app_exact (le_bytes 8 (zlen m)) (m ++ rest) : ztake 8 _ = _).
  rewrite frame_length_written by len_lia. rewrite (proj2 (Z.ltb_ge _ _)) by len_lia.
  unfold slice. replace (8 + zlen m - 8) with (zlen m) by lia.
  rewrite (zdrop_app_exact (le_bytes 8 (zlen m)) (m ++ rest) : zdrop 8 _ = _), ztake_app_exact.
  replace (8 + zlen m) with (zlen (framed m)) by (rewrite zlen_framed; lia).
  rewrite app_assoc. by rewrite (zdrop_app_exact (framed m)).
Qed.

Lemma split_frame_strict max_len m i :
  zlen m <= max_len -> zlen m <= i64_max -> i `prefix_of` framed m -> i <> framed m ->
  split_frame max_len i = None.
Proof.
  intros Hmax Hm [f Hf] Hne. pose proof (f_equal zlen Hf) as Hz. rewrite zlen_framed, zlen_app in Hz.
  assert (0 < zlen f) as Hfp.
  { destruct f; [|len_lia]. by rewrite app_nil_r in Hf. }
  unfold split_frame. destruct (Z.ltb_spec (zlen i) 8) as [|Hi]; [done|].
  assert (ztake 8 i = le_bytes 8 (zlen m)) as ->.
  { rewrite <-(ztake_app_l 8 i f), <-Hf by lia. unfold framed.
    exact (ztake_app_exact (le_bytes 8 (zlen m)) m). }
  rewrite frame_length_written by len_lia. by rewrite (proj2 (Z.ltb_lt _ _)) by lia.
Qed.

Lemma split_frame_app max_len i f message rest :
  split_frame max_len i = Some (message, rest) ->
  split_frame max_len (i ++ f) = Some (message, rest ++ f).
Proof.
  unfold split_frame. destruct (Z.ltb_spec (zlen i) 8); [done|]. rewrite zlen_app.
  rewrite (proj2 (Z.ltb_ge _ _)) by len_lia. rewrite ztake_app_l by lia.
  destruct (frame_length max_len (ztake 8 i)) as [n|e] eqn:E.
  - unfold frame_length, length_allowed in E. case_match eqn:E'; [|done]. simplify_eq.
    apply andb_true_iff in E' as [?%Z.leb_le _].
    destruct (Z.ltb_spec (zlen i) (8 + to_signed 64 (le_val (ztake 8 i)))); [done|]. intros; simplify_eq.
    rewrite (proj2 (Z.ltb_ge _ _)) by len_lia. unfold slice.
    rewrite !zdrop_app_l by lia. rewrite ztake_app_l by len_lia. done.
  - intros; simplify_eq. by rewrite zdrop_app_l by lia.
Qed.

(** Which first message a prefix of a stream of frames shows. *)
Lemma split_frame_prefix max_len m rest i message i' :
  zlen m <= max_len -> zlen m <= i64_max -> i `prefix_of` framed m ++ rest ->
  split_frame max_len i = Some (message, i') ->
  message = Ok m /\ i = framed m ++ i' /\ i' `prefix_of` rest.
Proof.
  intros H1 H2 [f Hf] Hs. apply (split_frame_app _ _ f) in Hs as Hs'.
  rewrite <-Hf, split_frame_framed in Hs' by done. injection Hs' as <- ->.
  split; [done|]. split; [|by exists f]. rewrite app_assoc in Hf. by apply app_inv_tail in Hf.
Qed.

(** ** Input streams only grow *)

(** A read never asks for more than its message. *)
Lemma wanted_pos max_len acc : split_frame max_len acc = None -> 0 < wanted max_len acc.
Proof.
  unfold split_frame, wanted. destruct (Z.ltb_spec (zlen acc) 8); [lia|].
  destruct (frame_length _ _); [|done]. by destruct (Z.ltb_spec (zlen acc) (8 + a)); [lia|].
Qed.

(** Where an input that is not yet two whole frames ends. *)
Lemma two_frames_cut a b i :
  i `prefix_of` framed a ++ framed b -> i <> framed a ++ framed b ->
  i `prefix_of` framed a /\ i <> framed a \/
  exists j, i = framed a ++ j /\ j `prefix_of` framed b /\ j <> framed b.
Proof.
  intros [f Hf] Hne. destruct (app_eq_app _ _ _ _ Hf) as [l [[E1 E2]|[E1 E2]]].
  - destruct l as [|x l].
    + rewrite app_nil_r in E1. right. exists []. rewrite app_nil_r. split; [done|]. split; [apply prefix_nil|].
      intros E. apply (f_equal zlen) in E. rewrite zlen_framed in E. len_lia.
    + left. split; [by exists (x :: l)|]. intros ->. apply (f_equal zlen) in E1. len_lia.
  - right. exists l. split; [done|]. split; [by exists f|]. intros ->. by rewrite E1 in Hne.
Qed.

Section programs.
Context {E A : Type}.
Implicit Types (p q start : prog E A) (i f read written acc : list byte).

Lemma outcome_app p i f r :
  snd (outcome p i) = Some r -> outcome p (i ++ f) = outcome p i.
Proof.
  revert i. induction p as [r'|bytes k IH|max_len k IH]; intros i; cbn [outcome]; [done|..].
  - destruct (outcome k i) as [out r'] eqn:Ek. cbn [snd]. intros ->.
    rewrite IH by (by rewrite Ek). by rewrite Ek.
  - destruct (split_frame max_len i) as [[message rest]|] eqn:Ef; [|done]. intros H.
    rewrite (split_frame_app _ _ _ _ _ Ef). by apply IH.
Qed.

Lemma outcome_mono p i f : fst (outcome p i) `prefix_of` fst (outcome p (i ++ f)).
Proof.
  revert i. induction p as [r'|bytes k IH|max_len k IH]; intros i; cbn [outcome]; [done|..].
  - specialize (IH i). destruct (outcome k i), (outcome k (i ++ f)). cbn [fst] in *. by apply prefix_app.
  - destruct (split_frame max_len i) as [[message rest]|] eqn:Ef; [|apply prefix_nil].
    rewrite (split_frame_app _ _ _ _ _ Ef). by apply IH.
Qed.

Lemma outcome_prefix p i j : i `prefix_of` j -> fst (outcome p i) `prefix_of` fst (outcome p j).
Proof. intros [f ->]. apply outcome_mono. Qed.

Lemma outcome_final p i j o r : i `prefix_of` j -> outcome p i = (o, Some r) -> outcome p j = (o, Some r).
Proof. intros [f ->] H. rewrite (outcome_app _ _ _ r); by rewrite H. Qed.

(** ** One end follows its program *)

(** What is left to do from the present state is what is left of the
    program's outcome on every continuation of its input. *)
Definition on_track start p acc read written : Prop :=
  forall f, outcome start (read ++ f) =
    (written ++ fst (outcome p (acc ++ f)), snd (outcome p (acc ++ f))).

(** The same, or the end failed on its way. *)
Definition was_on_track start p acc read written : Prop :=
  on_track start p acc read written \/
  (exists e, p = Done (Err e)) /\ forall f, written `prefix_of` fst (outcome start (read ++ f)).

Lemma on_track_step start p acc q acc' out inp read written :
  party_step false p acc q acc' out inp ->
  on_track start p acc read written -> on_track start q acc' (read ++ inp) (written ++ out).
Proof.
  intros Hs H f. destruct Hs as [x rest k acc Hx|k acc|x m k acc Hx Hw|m k acc message rest Hm|p acc e He];
    rewrite ?app_nil_r; [..|done].
  - rewrite H. cbn [outcome]. destruct (outcome k (acc ++ f)). cbn [fst snd]. by rewrite <-!app_assoc.
  - rewrite H. cbn [outcome]. by destruct (outcome k (acc ++ f)).
  - rewrite <-app_assoc, H. by rewrite <-!app_assoc.
  - rewrite H. cbn [outcome]. by rewrite (split_frame_app _ _ _ _ _ Hm).
Qed.

Lemma was_on_track_prefix start p acc read written :
  was_on_track start p acc read written -> forall f, written `prefix_of` fst (outcome start (read ++ f)).
Proof. intros [H|[_ H]] f; [|done]. rewrite H. cbn [fst]. by apply prefix_app_r. Qed.

Lemma party_step_cases faulty p acc q acc' out inp :
  party_step faulty p acc q acc' out inp ->
  party_step false p acc q acc' out inp \/ (exists e, q = Done (Err e)) /\ acc' = [] /\ out = [] /\ inp = [].
Proof. intros []; [left; by constructor..|right; by eauto]. Qed.

Lemma was_on_track_step faulty start p acc q acc' out inp read written :
  party_step faulty p acc q acc' out inp ->
  was_on_track start p acc read written -> was_on_track start q acc' (read ++ inp) (written ++ out).
Proof.
  intros Hs H. destruct (party_step_cases _ _ _ _ _ _ _ Hs) as [Hs'|([e ->] & -> & -> & ->)].
  - destruct H as [H|[[e ->] _]]; [left; by eapply on_track_step|].
    inversion Hs'; by simplify_eq.
  - right. split; [by eauto|]. rewrite !app_nil_r. by eapply was_on_track_prefix.
Qed.

Lemma on_track_start p : on_track p p [] [] [].
Proof. intros f. cbn [app]. by destruct (outcome p f). Qed.

(** An end that returned a value returned what its program returns. *)
Lemma returned_outcome start acc read written a :
  was_on_track start (Done (Ok a)) acc read written -> outcome start read = (written, Some (Ok a)).
Proof.
  intros [H|[[e He] _]]; [|done]. specialize (H []). cbn [outcome fst snd] in H.
  by rewrite !app_nil_r in H.
Qed.
End programs.

(** ** Two ends *)

Section networks.
Context {E A B : Type} (faulty : bool) (cap : Z).
Implicit Types (c : net E A B).

Record net_inv (p : prog E A) (q : prog E B) c : Prop := {
  ni_a : was_on_track p (pa c) (acca c) (ra c) (wa c);
  ni_b : was_on_track q (pb c) (accb c) (rb c) (wb c);
  ni_ra : ra c `prefix_of` wb c;
  ni_rb : rb c `prefix_of` wa c
}.

Lemma net_reachable_inv p q n c : net_reachable faulty cap p q n c -> net_inv p q c.
Proof.
  induction 1 as [|n c c' _ [Ha Hb Hra Hrb] Hs].
  - split; [left; apply on_track_start..|done|done].
  - destruct Hs as [c p' acc out inp Hs Hcap Hin|c p' acc out inp Hs Hcap Hin]; split; cbn [pa acca ra wa pb accb rb wb];
      try done; try (by eapply was_on_track_step); by apply prefix_app_r.
Qed.

(** The result of an end that completed, whatever happened to the other: it
    is its program's result on bytes that the other end's program writes in
    answer to what this end wrote. *)
Lemma completed_against p q n c a :
  net_reachable faulty cap p q n c -> pa c = Done (Ok a) ->
  outcome p (ra c) = (wa c, Some (Ok a)) /\ ra c `prefix_of` fst (outcome q (wa c)).
Proof.
  intros [Ha Hb Hra Hrb]%net_reachable_inv Hp. rewrite Hp in Ha.
  split; [by eapply returned_outcome|]. etrans; [exact Hra|].
  destruct Hrb as [f Hf]. rewrite Hf. by eapply was_on_track_prefix.
Qed.
End networks.

(** The same network seen from the other end. *)
Definition flip {E A B} (c : net E A B) : net E B A :=
  mkNet (pb c) (accb c) (rb c) (wb c) (pa c) (acca c) (ra c) (wa c).

Lemma flip_reachable {E A B} faulty cap (p : prog E A) (q : prog E B) n c :
  net_reachable faulty cap p q n c -> net_reachable faulty cap q p n (flip c).
Proof.
  induction 1 as [|n c c' _ IH Hs]; [constructor|]. econstructor; [exact IH|].
  destruct Hs as [c p' acc out inp|c p' acc out inp].
  - by apply (n_b faulty cap (flip c)).
  - by apply (n_a faulty cap (flip c)).
Qed.

Lemma net_reachable_faulty {E A B} cap (p : prog E A) (q : prog E B) n c :
  net_reachable false cap p q n c -> net_reachable true cap p q n c.
Proof.
  assert (forall T (x : prog E T) acc x' acc' out inp,
    party_step false x acc x' acc' out inp -> party_step true x acc x' acc' out inp) as Hp.
  { intros T x acc x' acc' out inp []; by constructor. }
  induction 1 as [|n c c' _ IH Hs]; [constructor|]. eapply nr_step; [exact IH|].
  destruct Hs; [eapply n_a|eapply n_b]; eauto.
Qed.

(** ** No run gets stuck

    Two programs that answer each other completely: run against the other's
    whole output each writes its whole output, and this is the least pair of
    outputs (it is reached by answering step by step from nothing). *)

Fixpoint answers {E A B} (n : nat) (p : prog E A) (q : prog E B) : list byte * list byte :=
  match n with
  | O => ([], [])
  | S n => let (sa, sb) := answers n p q in (fst (outcome p sb), fst (outcome q sa))
  end.

Section agreement.
Context {E A B : Type} (p : prog E A) (q : prog E B).
Context (oa ob : list byte) (xa : result E A) (xb : result E B) (rounds : nat) (cap : Z).
Implicit Types (c : net E A B).

Record agree : Prop := {
  ag_a : outcome p ob = (oa, Some xa);
  ag_b : outcome q oa = (ob, Some xb);
  ag_least : answers rounds p q = (oa, ob);
  (** Each end reads all that the other writes. *)
  ag_exact_a : forall i, i `prefix_of` ob -> i <> ob -> snd (outcome p i) = None;
  ag_exact_b : forall i, i `prefix_of` oa -> i <> oa -> snd (outcome q i) = None;
  (** Before it has read all of it, the second end writes no more than fits
      the channel. *)
  ag_cap : 0 < cap;
  ag_fits : forall i, i `prefix_of` oa -> i <> oa -> zlen (fst (outcome q i)) <= cap
}.

Context (Hagree : agree).

Record run_inv c : Prop := {
  ri_a : on_track p (pa c) (acca c) (ra c) (wa c);
  ri_b : on_track q (pb c) (accb c) (rb c) (wb c);
  ri_ra : ra c `prefix_of` wb c;
  ri_rb : rb c `prefix_of` wa c;
  ri_wa : wa c `prefix_of` oa;
  ri_wb : wb c `prefix_of` ob
}.

Lemma on_track_output {T} (start cur : prog E T) acc read written :
  on_track start cur acc read written -> written `prefix_of` fst (outcome start read).
Proof. intros H. specialize (H []). rewrite app_nil_r in H. rewrite H. cbn [fst]. by apply prefix_app_r. Qed.

Lemma run_reachable_inv n c : net_reachable false cap p q n c -> run_inv c.
Proof.
  induction 1 as [|n c c' _ [Ha Hb Hra Hrb Hwa Hwb] Hs].
  - split; try (by apply on_track_start); try done; apply prefix_nil.
  - destruct Hs as [c p' acc out inp Hs Hcap Hin|c p' acc out inp Hs Hcap Hin];
      split; cbn [pa acca ra wa pb accb rb wb]; try done; try (by eapply on_track_step); try (by apply prefix_app_r).
    + etrans; [eapply on_track_output, on_track_step; [exact Hs|exact Ha]|].
      change oa with (fst (oa, Some xa)). rewrite <-(ag_a Hagree).
      apply outcome_prefix. by etrans.
    + etrans; [eapply on_track_output, on_track_step; [exact Hs|exact Hb]|].
      change ob with (fst (ob, Some xb)). rewrite <-(ag_b Hagree). apply outcome_prefix. by etrans.
Qed.

(** Any pair of outputs at which neither end writes more contains theirs. *)
Lemma answers_least sa sb n :
  fst (outcome p sb) `prefix_of` sa -> fst (outcome q sa) `prefix_of` sb ->
  fst (answers n p q) `prefix_of` sa /\ snd (answers n p q) `prefix_of` sb.
Proof.
  intros Ha Hb. induction n as [|n [IH1 IH2]]; cbn [answers]; [split; apply prefix_nil|].
  destruct (answers n p q) as [ta tb]. cbn [fst snd] in *.
  split; (etrans; [by apply outcome_prefix|done]).
Qed.

(** Why an end cannot move. *)
Inductive stuck {T} (cur : prog E T) (acc read written peer_read peer_written : list byte) : Prop :=
| stuck_write b rest k : cur = WriteMsg (b :: rest) k -> cap <= zlen written - zlen peer_read ->
    stuck cur acc read written peer_read peer_written
| stuck_read m k : cur = ReadMsg m k -> split_frame m acc = None -> read = peer_written ->
    stuck cur acc read written peer_read peer_written
| stuck_done r : cur = Done r -> stuck cur acc read written peer_read peer_written.

Lemma moves_or_stuck {T} (cur : prog E T) acc read written peer_read peer_written :
  read `prefix_of` peer_written ->
  (exists cur' acc' out inp, party_step false cur acc cur' acc' out inp /\
     (out = [] \/ zlen (written ++ out) - zlen peer_read <= cap) /\ (read ++ inp) `prefix_of` peer_written) \/
  stuck cur acc read written peer_read peer_written.
Proof.
  intros Hr. destruct cur as [r|[|b rest] k|m k].
  - right. by eapply stuck_done.
  - left. exists k, acc, [], []. split; [constructor|]. split; [by left|by rewrite app_nil_r].
  - destruct (Z.leb_spec cap (zlen written - zlen peer_read)); [right; by eapply stuck_write|].
    left. exists (WriteMsg rest k), acc, [b], []. split; [by apply (ps_write false [b])|].
    split; [right; len_lia|by rewrite app_nil_r].
  - destruct (split_frame m acc) as [[message rest]|] eqn:Ef.
    + left. exists (k message), rest, [], []. split; [by constructor|]. split; [by left|by rewrite app_nil_r].
    + destruct Hr as [[|b f] ->]; [right; eapply stuck_read; [done..|by rewrite app_nil_r]|].
      left. exists (ReadMsg m k), (acc ++ [b]), [], [b]. split.
      * apply ps_read; [done|]. pose proof (wanted_pos _ _ Ef). len_lia.
      * split; [by auto|]. exists f. by rewrite <-app_assoc.
Qed.

Lemma track_done {T} (start : prog E T) r acc read written :
  on_track start (Done r) acc read written -> outcome start read = (written, Some r).
Proof. intros H. specialize (H []). cbn [outcome fst snd] in H. by rewrite !app_nil_r in H. Qed.

Lemma track_read {T} (start : prog E T) m k acc read written :
  on_track start (ReadMsg m k) acc read written -> split_frame m acc = None ->
  outcome start read = (written, None).
Proof.
  intros H Hm. specialize (H []). cbn [outcome] in H. rewrite !app_nil_r, Hm in H.
  cbn [fst snd] in H. by rewrite app_nil_r in H.
Qed.

Lemma track_write {T} (start : prog E T) b rest k acc read written :
  on_track start (WriteMsg (b :: rest) k) acc read written ->
  zlen written < zlen (fst (outcome start read)).
Proof.
  intros H. specialize (H []). rewrite app_nil_r in H. rewrite H. cbn [outcome].
  destruct (outcome k (acc ++ [])). cbn [fst]. len_lia.
Qed.

(** An end that returned has read all of the other's output. *)
Lemma exact_done {T} (start : prog E T) r acc read written peer all :
  (forall i, i `prefix_of` all -> i <> all -> snd (outcome start i) = None) ->
  on_track start (Done r) acc read written -> read `prefix_of` peer -> peer `prefix_of` all ->
  peer = read.
Proof.
  intros Hex H Hr Ha. apply track_done in H.
  destruct (decide (read = all)) as [->|Hne]; [by apply (anti_symm prefix)|].
  pose proof (Hex read ltac:(by etrans) Hne) as Hn. by rewrite H in Hn.
Qed.

Lemma stuck_reads c :
  run_inv c -> fst (outcome p (wb c)) = wa c -> fst (outcome q (wa c)) = wb c ->
  wb c = ob /\ wa c = oa.
Proof.
  intros [_ _ _ _ Hwa Hwb] Ha Hb. destruct (answers_least (wa c) (wb c) rounds) as [H1 H2].
  - by rewrite Ha.
  - by rewrite Hb.
  - rewrite (ag_least Hagree) in H1, H2. cbn [fst snd] in H1, H2. by split; apply (anti_symm prefix).
Qed.

(** Unless both ends have returned, one of them can move. *)
Lemma never_stuck n c :
  net_reachable false cap p q n c ->
  pa c = Done xa /\ pb c = Done xb \/ exists c', nstep false cap c c'.
Proof.
  intros Hreach. pose proof (run_reachable_inv _ _ Hreach) as Hinv.
  pose proof (ag_cap Hagree) as Hcap. pose proof Hinv as [Ha Hb Hra Hrb Hwa Hwb].
  destruct (moves_or_stuck (pa c) (acca c) (ra c) (wa c) (rb c) (wb c) Hra)
    as [(p' & acc' & out & inp & H1 & H2 & H3)|Sa]; [right; eexists; by eapply n_a|].
  destruct (moves_or_stuck (pb c) (accb c) (rb c) (wb c) (ra c) (wa c) Hrb)
    as [(p' & acc' & out & inp & H1 & H2 & H3)|Sb]; [right; eexists; by eapply n_b|].
  left. destruct Sa as [b rest k Ea Fa|m k Ea Fa Ga|r Ea]; destruct Sb as [b' rest' k' Eb Fb|m' k' Eb Fb Gb|r' Eb];
    rewrite Ea in Ha; rewrite Eb in Hb.
  - exfalso. apply track_write in Hb. destruct (decide (rb c = oa)) as [E'|Hne].
    + assert (wa c = rb c) as Ew by (rewrite E' in *; by apply (anti_symm prefix)). rewrite Ew in Fa. lia.
    + pose proof (ag_fits Hagree (rb c) (transitivity Hrb Hwa) Hne). len_lia.
  - exfalso. rewrite Gb in Fa. lia.
  - exfalso. pose proof (exact_done _ _ _ _ _ (wa c) oa (ag_exact_b Hagree) Hb Hrb Hwa) as E'.
    rewrite E' in Fa. lia.
  - exfalso. rewrite Ga in Fb. lia.
  - exfalso. apply track_read in Ha, Hb; [|done..]. rewrite Ga in Ha. rewrite Gb in Hb.
    destruct (stuck_reads c Hinv) as [E1 E2]; [by rewrite Ha|by rewrite Hb|].
    rewrite E1, (ag_a Hagree) in Ha. done.
  - exfalso. apply track_read in Ha; [|done]. apply track_done in Hb. rewrite Ga in Ha.
    pose proof (outcome_final _ _ (wa c) _ _ Hrb Hb) as Hb'.
    destruct (stuck_reads c Hinv) as [E1 E2]; [by rewrite Ha|by rewrite Hb'|].
    rewrite E1, (ag_a Hagree) in Ha. done.
  - exfalso. pose proof (exact_done _ _ _ _ _ (wb c) ob (ag_exact_a Hagree) Ha Hra Hwb) as E'.
    rewrite E' in Fb. lia.
  - exfalso. apply track_read in Hb; [|done]. apply track_done in Ha. rewrite Gb in Hb.
    pose proof (outcome_final _ _ (wb c) _ _ Hra Ha) as Ha'.
    destruct (stuck_reads c Hinv) as [E1 E2]; [by rewrite Ha'|by rewrite Hb|].
    rewrite E2, (ag_b Hagree) in Hb. done.
  - apply track_done in Ha, Hb. rewrite Ea, Eb.
    pose proof (outcome_final _ _ ob _ _ (transitivity Hra Hwb) Ha) as Ha'.
    pose proof (outcome_final _ _ oa _ _ (transitivity Hrb Hwa) Hb) as Hb'.
    rewrite (ag_a Hagree) in Ha'. rewrite (ag_b Hagree) in Hb'. by simplify_eq.
Qed.

(** Every step makes progress: bytes or messages that are left. *)
Definition left_to_do c : Z :=
  Z.of_nat (messages (pa c) (acca c ++ zdrop (zlen (ra c)) ob)) +
  Z.of_nat (messages (pb c) (accb c ++ zdrop (zlen (rb c)) oa)) +
  (zlen oa - zlen (wa c)) + (zlen ob - zlen (wb c)) + (zlen ob - zlen (ra c)) + (zlen oa - zlen (rb c)).

Lemma party_step_messages {T} (cur cur' : prog E T) acc acc' out inp read all :
  party_step false cur acc cur' acc' out inp -> (read ++ inp) `prefix_of` all ->
  Z.of_nat (messages cur' (acc' ++ zdrop (zlen (read ++ inp)) all)) + 1 <=
  Z.of_nat (messages cur (acc ++ zdrop (zlen read) all)) + zlen out + zlen inp.
Proof.
  intros Hs [f ->]. rewrite zdrop_app_exact. rewrite <-app_assoc, zdrop_app_exact.
  destruct Hs as [x rest k acc Hx|k acc|x m k acc Hx Hw|m k acc message rest Hm|]; [..|done].
  - cbn [messages]. rewrite app_nil_l. destruct x; [done|]. len_lia.
  - cbn [messages]. rewrite app_nil_l. len_lia.
  - rewrite <-app_assoc. destruct x; [done|]. len_lia.
  - cbn [messages]. rewrite app_nil_l, (split_frame_app _ _ _ _ _ Hm). len_lia.
Qed.

Lemma nstep_progress n c c' :
  net_reachable false cap p q n c -> nstep false cap c c' -> left_to_do c' + 1 <= left_to_do c.
Proof.
  intros Hreach Hs. pose proof (run_reachable_inv _ _ Hreach) as [_ _ _ _ Hwa Hwb].
  destruct Hs as [c p' acc out inp Hs _ Hin|c p' acc out inp Hs _ Hin]; unfold left_to_do;
    cbn [pa acca ra wa pb accb rb wb].
  - pose proof (party_step_messages _ _ _ _ _ _ _ _ Hs (transitivity Hin Hwb)). len_lia.
  - pose proof (party_step_messages _ _ _ _ _ _ _ _ Hs (transitivity Hin Hwa)). len_lia.
Qed.

(** No run is longer than the bytes and messages of the two programs. *)
Lemma runs_end n c :
  net_reachable false cap p q n c ->
  Z.of_nat n <= Z.of_nat (messages p ob + messages q oa) + 2 * (zlen oa + zlen ob).
Proof.
  intros H. assert (Z.of_nat n + left_to_do c <= left_to_do (net_start p q)) as Hn.
  { induction H as [|n c c' H IH Hs]; [lia|]. pose proof (nstep_progress _ _ _ H Hs). lia. }
  pose proof (run_reachable_inv _ _ H) as [_ _ Hra Hrb Hwa Hwb].
  assert (0 <= left_to_do c) as Hpos.
  { unfold left_to_do. pose proof (prefix_length _ _ Hra). pose proof (prefix_length _ _ Hrb).
    pose proof (prefix_length _ _ Hwa). pose proof (prefix_length _ _ Hwb). unfold zlen. lia. }
  assert (left_to_do (net_start p q) =
    Z.of_nat (messages p ob + messages q oa) + 2 * (zlen oa + zlen ob)) as Hs; [|lia].
  unfold left_to_do. cbn [net_start pa acca ra wa pb accb rb wb app].
  rewrite !zlen_nil, !zdrop_0. lia.
Qed.

Lemma agree_bounded : exists bound, forall n c, net_reachable false cap p q n c -> (n <= bound)%nat.
Proof.
  eexists (Z.to_nat _). intros n c H. pose proof (runs_end _ _ H) as Hb.
  apply Z2Nat.inj_le in Hb; [rewrite Nat2Z.id in Hb; exact Hb|lia|len_lia].
Qed.
End agreement.

(** ** A scheduler

    One run: the first end moves whenever it can, as far as it can. *)

Definition party_turn {E A} (p : prog E A) (acc available : list byte) (room : Z)
  : option (prog E A * list byte * list byte * list byte) :=
  match p with
  | Done _ => None
  | WriteMsg [] k => Some (k, acc, [], [])
  | WriteMsg bytes k =>
      let n := Z.min room (zlen bytes) in
      if 0 <? n then Some (WriteMsg (zdrop n bytes) k, acc, ztake n bytes, []) else None
  | ReadMsg max_len k =>
      match split_frame max_len acc with
      | Some (message, rest) => Some (k message, rest, [], [])
      | None =>
          match ztake (wanted max_len acc) available with
          | [] => None
          | x => Some (ReadMsg max_len k, acc ++ x, [], x)
          end
      end
  end.

Definition turn {E A B} (cap : Z) (c : net E A B) : option (net E A B) :=
  match party_turn (pa c) (acca c) (zdrop (zlen (ra c)) (wb c)) (cap - (zlen (wa c) - zlen (rb c))) with
  | Some (p, acc, out, inp) => Some (mkNet p acc (ra c ++ inp) (wa c ++ out) (pb c) (accb c) (rb c) (wb c))
  | None =>
      match party_turn (pb c) (accb c) (zdrop (zlen (rb c)) (wa c)) (cap - (zlen (wb c) - zlen (ra c))) with
      | Some (p, acc, out, inp) => Some (mkNet (pa c) (acca c) (ra c) (wa c) p acc (rb c ++ inp) (wb c ++ out))
      | None => None
      end
  end.

(** The state when nobody can move or the fuel is used up, and the steps made. *)
Fixpoint schedule {E A B} (fuel : nat) (cap : Z) (c : net E A B) (n : nat) : nat * net E A B :=
  match fuel with
  | O => (n, c)
  | S fuel => match turn cap c with Some c' => schedule fuel cap c' (S n) | None => (n, c) end
  end.

Lemma party_turn_step {E A} (p q : prog E A) acc acc' available room out inp :
  party_turn p acc available room = Some (q, acc', out, inp) ->
  party_step false p acc q acc' out inp /\ (out = [] \/ zlen out <= room) /\ inp `prefix_of` available.
Proof.
  destruct p as [r|bytes k|max_len k]; cbn [party_turn]; [done| |].
  - destruct bytes as [|b bytes]; [intros; simplify_eq; split_and!; [constructor|by left|apply prefix_nil]|].
    set (n := Z.min room (zlen (b :: bytes))). destruct (Z.ltb_spec 0 n) as [Hn|]; [|done]. intros; simplify_eq.
    split_and!; [|right; rewrite zlen_ztake; lia|apply prefix_nil].
    rewrite <-(ztake_zdrop n (b :: bytes)) at 1. constructor. intros E0.
    assert (zlen (ztake n (b :: bytes)) = 0) as Hz by (by rewrite E0). rewrite zlen_ztake in Hz. lia.
  - destruct (split_frame max_len acc) as [[message rest]|] eqn:Es.
    { intros; simplify_eq. split_and!; [by constructor|by left|apply prefix_nil]. }
    destruct (ztake (wanted max_len acc) available) as [|b x] eqn:Ex; [done|]. intros; simplify_eq.
    split_and!; [|by left|exists (zdrop (wanted max_len acc) available); by rewrite <-Ex, ztake_zdrop].
    constructor; [done|]. rewrite <-Ex, zlen_ztake. pose proof (wanted_pos _ _ Es). lia.
Qed.

Lemma turn_step {E A B} cap (c c' : net E A B) :
  ra c `prefix_of` wb c -> rb c `prefix_of` wa c -> turn cap c = Some c' ->
  nstep false cap c c' /\ ra c' `prefix_of` wb c' /\ rb c' `prefix_of` wa c'.
Proof.
  intros [ka Ha] [kb Hb]. unfold turn. rewrite Ha at 1. rewrite zdrop_app_exact.
  destruct (party_turn (pa c) _ _ _) as [[[[p acc] out] inp]|] eqn:E1.
  - apply party_turn_step in E1 as (H1 & H2 & [f ->]). intros; simplify_eq.
    assert (ra c ++ inp `prefix_of` wb c) as Hp by (rewrite Ha; exists f; by rewrite app_assoc).
    split; [apply n_a; [done|destruct H2; [by left|right; rewrite zlen_app; lia]|done]|].
    split; [done|]. exists (kb ++ out). cbn. by rewrite Hb, app_assoc.
  - rewrite Hb at 1. rewrite zdrop_app_exact.
    destruct (party_turn (pb c) _ _ _) as [[[[p acc] out] inp]|] eqn:E2; [|done].
    apply party_turn_step in E2 as (H1 & H2 & [f ->]). intros; simplify_eq.
    assert (rb c ++ inp `prefix_of` wa c) as Hp by (rewrite Hb; exists f; by rewrite app_assoc).
    split; [apply n_b; [done|destruct H2; [by left|right; rewrite zlen_app; lia]|done]|].
    split; [|done]. exists (ka ++ out). cbn. by rewrite Ha, app_assoc.
Qed.

Lemma schedule_reachable {E A B} fuel cap (p : prog E A) (q : prog E B) :
  let s := schedule fuel cap (net_start p q) 0 in net_reachable false cap p q (fst s) (snd s).
Proof.
  cbv zeta. assert (forall n c, ra c `prefix_of` wb c -> rb c `prefix_of` wa c -> net_reachable false cap p q n c ->
    net_reachable false cap p q (fst (schedule fuel cap c n)) (snd (schedule fuel cap c n))) as H.
  { induction fuel as [|fuel IH]; intros n c H1 H2 Hr; cbn [schedule]; [done|].
    destruct (turn cap c) as [c'|] eqn:Et; [|done]. apply turn_step in Et as (Hs & H3 & H4); [|done..].
    apply IH; [done..|]. by eapply nr_step. }
  apply H; [apply prefix_nil..|constructor].
Qed.
