(* ===== verification/Connection.v ===== *)
(** * Connection: [crates/et-net/src/connection.rs], [connection_pending.rs],
    [connection_nonblocking.rs]

    One end of a session's encrypted transport: the writer and the reader, one
    retained partly written frame, the keep-alive schedule and the output
    window. The operating system is an argument of the operations: clock
    readings (in nanoseconds), the result of each [send], [recv], [poll] and of
    the [MSG_PEEK] probe. The effect of the operations on the transport is part
    of the state: the bytes handed to the kernel and whether this end shut the
    socket down. The Unix branches of the code are the ones modelled. *)

From S2P Require Import Prelude Framing FramingIo Crypto Packet BackedReader BackedWriter Keepalive OutputWindow.

(** ** Errors *)

Inductive ConnError :=
| Io (e : io_kind)
| Read (e : ReadError)
| Recover (e : RecoverError)
| EncryptFailed
| Backpressure
| PacketTooLarge
| SequenceOutOfRange (sequence : Z)
| InvalidRecoverySequence (sequence : option Z).

Inductive WritePacketError :=
| BeforeReplay (e : ConnError)
| ReplayOwned (e : ConnError).

Definition into_inner (e : WritePacketError) : ConnError :=
  match e with BeforeReplay e | ReplayOwned e => e end.

(** ** State *)

(** What this end did to its socket. *)
Record Stream := mkStream {
  (** Bytes handed to the kernel, in order. *)
  tx : list byte;
  (** [shutdown(Shutdown::Both)] was called. *)
  shut : bool
}.

Definition fresh_stream : Stream := mkStream [] false.

Definition transmit (s : Stream) (bytes : list byte) : Stream := mkStream (tx s ++ bytes) (shut s).
Definition shutdown_both (s : Stream) : Stream := mkStream (tx s) true.

(** [InboundMark]: packets read and bytes queued unread. *)
Definition InboundMark : Type := Z * Z.

#[export] Instance InboundMark_eq_dec : EqDecision InboundMark.
Proof. unfold InboundMark. solve_decision. Defined.

Record PendingWrite := mkPending {
  p_frame : list byte;
  p_offset : Z;
  p_deadline : Z;
  p_heard : option (InboundMark * Z)
}.

(** [PreparedWrite]: the frame to send and its timeout, if the transport is
    live. *)
Definition PreparedWrite : Type := option (list byte * Z).

Record Connection := mkConn {
  stream : Stream;
  writer : BackedWriter;
  reader : BackedReader;
  live_write_timeout : Z;
  peer_silence : option Z;
  pending_live : option PendingWrite;
  acks : AckSchedule;
  output_window : option OutputWindow
}.

Definition set_stream (c : Connection) (new_stream : Stream) : Connection :=
  mkConn new_stream (writer c) (reader c) (live_write_timeout c) (peer_silence c)
    (pending_live c) (acks c) (output_window c).
Definition set_writer (c : Connection) (new_writer : BackedWriter) : Connection :=
  mkConn (stream c) new_writer (reader c) (live_write_timeout c) (peer_silence c)
    (pending_live c) (acks c) (output_window c).
Definition set_reader (c : Connection) (new_reader : BackedReader) : Connection :=
  mkConn (stream c) (writer c) new_reader (live_write_timeout c) (peer_silence c)
    (pending_live c) (acks c) (output_window c).
Definition set_pending (c : Connection) (new_pending : option PendingWrite) : Connection :=
  mkConn (stream c) (writer c) (reader c) (live_write_timeout c) (peer_silence c)
    new_pending (acks c) (output_window c).
Definition set_acks (c : Connection) (new_acks : AckSchedule) : Connection :=
  mkConn (stream c) (writer c) (reader c) (live_write_timeout c) (peer_silence c)
    (pending_live c) new_acks (output_window c).
Definition set_window (c : Connection) (new_window : option OutputWindow) : Connection :=
  mkConn (stream c) (writer c) (reader c) (live_write_timeout c) (peer_silence c)
    (pending_live c) (acks c) new_window.

Definition DEFAULT_LIVE_WRITE_TIMEOUT : Z := secs 2.
Definition FLOW_CONTROL_LIVE_WRITE_TIMEOUT : Z := secs 5.
Definition FLOW_CONTROL_PEER_SILENCE : Z := secs 10.
Definition WRITE_QUANTUM : Z := 256 * 1024.

(** [Instant::checked_sub]: an [Instant] is a 64-bit number of seconds and a
    nanosecond part. *)
Definition instant_min : Z := secs (- 2 ^ 63).
Definition checked_sub (t d : Z) : option Z := if instant_min <=? t - d then Some (t - d) else None.

Definition new (key : list byte) (encrypt decrypt : byte) (max_socket_read : Z) : Connection := {|
  stream := fresh_stream;
  writer := BackedWriter.new (Crypto.new key encrypt) true;
  reader := with_max_socket_read (BackedReader.new (Crypto.new key decrypt) true) max_socket_read;
  live_write_timeout := DEFAULT_LIVE_WRITE_TIMEOUT;
  peer_silence := None;
  pending_live := None;
  acks := Keepalive.default;
  output_window := None |}.

Definition new_client (key : list byte) : Connection :=
  new key DIR_CLIENT_TO_SERVER DIR_SERVER_TO_CLIENT CLIENT_MAX_SOCKET_READ.
Definition new_server (key : list byte) : Connection :=
  new key DIR_SERVER_TO_CLIENT DIR_CLIENT_TO_SERVER SERVER_MAX_SOCKET_READ.

Definition conn_connected (c : Connection) : bool := connected (writer c).

(** ** The retained frame *)

(** [Drop for PendingWrite]. *)
Definition drop_pending (s : Stream) (p : PendingWrite) : Stream :=
  if p_offset p =? zlen (p_frame p) then s else shutdown_both s.

Definition drop_live (s : Stream) (p : option PendingWrite) : Stream :=
  match p with Some p => drop_pending s p | None => s end.

Definition disconnect (c : Connection) : Connection :=
  mkConn (drop_live (stream c) (pending_live c)) (invalidate (writer c))
    (BackedReader.invalidate (reader c)) (live_write_timeout c) (peer_silence c) None (acks c)
    (output_window c).

Definition into_pending (prepared : PreparedWrite) (now : Z) : option PendingWrite :=
  match prepared with
  | Some (frame, timeout) => Some (mkPending frame 0 (now + timeout) None)
  | None => None
  end.

Definition defer_while_peer_talks (p : PendingWrite) (inbound : InboundMark) (now silence timeout : Z)
  : PendingWrite :=
  let heard_at :=
    match p_heard p with
    | Some (seen, at_) => if decide (seen = inbound) then at_ else now
    | None => unwrap_or now (checked_sub (p_deadline p) timeout)
    end in
  let limit := heard_at + silence in
  mkPending (p_frame p) (p_offset p)
    (if now <? limit then Z.min limit (now + timeout) else p_deadline p)
    (Some (inbound, heard_at)).

(** The bytes one [send] offers. *)
Definition offered (p : PendingWrite) : list byte :=
  slice (p_frame p) (p_offset p) (Z.min (zlen (p_frame p)) (p_offset p + WRITE_QUANTUM)).

(** [PendingWrite::advance]: [send] is what the kernel answers. *)
Definition advance (s : Stream) (p : PendingWrite) (now : Z) (send : result io_kind Z)
  : Stream * PendingWrite * result io_kind bool :=
  if p_deadline p <=? now then (s, p, Err TimedOut)
  else
    match send with
    | Ok count =>
        if count =? 0 then (s, p, Err WriteZero)
        else
          let p' := mkPending (p_frame p) (p_offset p + count) (p_deadline p) (p_heard p) in
          (transmit s (ztake count (offered p)), p', Ok (p_offset p' =? zlen (p_frame p)))
    | Err WouldBlock | Err Interrupted => (s, p, Ok false)
    | Err e => (s, p, Err e)
    end.

(** One turn of [finish]: the clock, the answer to [send], and the outcome of
    [wait_writable] if the frame is not complete. *)
Record write_turn := mkTurn {
  t_now : Z;
  t_send : result io_kind Z;
  t_wait : result io_kind unit
}.

(** [PendingWrite::finish]; the frame is dropped when the call returns. *)
Fixpoint finish (s : Stream) (p : PendingWrite) (turns : list write_turn)
  : Stream * blocking PendingWrite (result WritePacketError unit) :=
  match turns with
  | [] => (s, Waiting p)
  | t :: turns =>
      match advance s p (t_now t) (t_send t) with
      | (s, p, Ok true) => (drop_pending s p, Returned (Ok tt))
      | (s, p, Ok false) =>
          match t_wait t with
          | Ok _ | Err TimedOut => finish s p turns
          | Err e => (drop_pending s p, Returned (Err (ReplayOwned (Io e))))
          end
      | (s, p, Err e) => (drop_pending s p, Returned (Err (ReplayOwned (Io e))))
      end
  end.

(** ** Operations *)

(** Outcome of the [MSG_PEEK] probe: the number of bytes seen. *)
Definition refresh_connectivity (c : Connection) (probe : result io_kind Z)
  : Connection * result ConnError unit :=
  if negb (conn_connected c) then (c, Ok tt)
  else
    match probe with
    | Ok count => if count =? 0 then (set_writer c (invalidate (writer c)), Ok tt) else (c, Ok tt)
    | Err WouldBlock | Err Interrupted => (c, Ok tt)
    | Err BrokenPipe | Err ConnectionAborted | Err ConnectionReset | Err NotConnected =>
        (set_writer c (invalidate (writer c)), Ok tt)
    | Err e => (disconnect c, Err (Io e))
    end.

Definition note_output (c : Connection) (outcome : WriterOutcome) (hdr : byte) (payload_len now : Z)
  : Connection :=
  match output_window c, outcome with
  | None, _ | _, Skipped => c
  | Some w, _ =>
      let carries_ack := bool_decide (hdr = KEEP_ALIVE) && (payload_len =? Z.of_nat ACK_PAYLOAD_LEN) in
      set_window c (Some (on_write w (sequence (writer c)) payload_len
        (bool_decide (hdr = TERMINAL_BUFFER)) carries_ack now))
  end.

Section operations.
Context {sodium : Sodium}.

Definition prepare_write_packet_unprobed (c : Connection) (hdr : byte) (body : list byte) (now : Z)
  : Connection * result WritePacketError PreparedWrite :=
  match pending_live c with
  | Some _ => (c, Err (BeforeReplay Backpressure))
  | None =>
      let live := conn_connected c in
      let (w, outcome) := write_packet (writer c) hdr body in
      let c := note_output (set_writer c w) outcome hdr (zlen body) now in
      match outcome with
      | Send frame => (c, Ok (if live then Some (frame, live_write_timeout c) else None))
      | BufferedOnly => (c, Ok None)
      | Skipped => (c, Err (BeforeReplay Backpressure))
      end
  end.

Definition prepare_write_packet (c : Connection) (hdr : byte) (body : list byte)
    (probe : result io_kind Z) (now : Z) : Connection * result WritePacketError PreparedWrite :=
  match pending_live c with
  | Some _ => (c, Err (BeforeReplay Backpressure))
  | None =>
      let (c, refreshed) := refresh_connectivity c probe in
      let c := if is_ok refreshed then c else disconnect c in
      prepare_write_packet_unprobed c hdr body now
  end.

(** [prepare_write_packet_with]: [clone] is the outcome of cloning the
    socket. *)
Definition prepare_write_packet_with (c : Connection) (hdr : byte) (body : list byte)
    (clone : result io_kind unit) (probe : result io_kind Z) (now : Z)
  : Connection * result WritePacketError PreparedWrite :=
  match pending_live c with
  | Some _ => (c, Err (BeforeReplay Backpressure))
  | None =>
      let (c, refreshed) := refresh_connectivity c probe in
      let c := if is_ok refreshed then c else disconnect c in
      match clone with
      | Err e => if conn_connected c then (c, Err (BeforeReplay (Io e)))
                 else prepare_write_packet_unprobed c hdr body now
      | Ok _ => prepare_write_packet_unprobed c hdr body now
      end
  end.

Definition reserve_write_packet (c : Connection) (hdr : byte) (payload_len : Z)
  : Connection * result WritePacketError ReservedWrite :=
  match pending_live c with
  | Some _ => (c, Err (BeforeReplay Backpressure))
  | None =>
      match reserve_write (writer c) hdr payload_len with
      | (w, Some reserved) => (set_writer c w, Ok reserved)
      | (w, None) => (set_writer c w, Err (BeforeReplay Backpressure))
      end
  end.

Definition commit_write_packet (c : Connection) (reserved : ReservedWrite) (frame : list byte) (now : Z)
  : Connection * PreparedWrite :=
  let live := conn_connected c in
  let (w, outcome) := commit_write (writer c) reserved frame in
  let c := note_output (set_writer c w) outcome (reserved_header reserved)
    (reserved_payload_len reserved) now in
  match outcome with
  | Send frame => (c, if live then Some (frame, live_write_timeout c) else None)
  | BufferedOnly | Skipped => (c, None)
  end.

(** [inbound_mark]; [unread] is [FIONREAD]. *)
Definition inbound_mark (c : Connection) (unread : Z) : InboundMark :=
  (BackedReader.sequence (reader c), unread).

(** The first half of [advance_write]. *)
Definition defer_pending (c : Connection) (now unread : Z) : Connection :=
  match peer_silence c, pending_live c with
  | Some silence, Some p =>
      if p_deadline p <=? now
      then set_pending c (Some (defer_while_peer_talks p (inbound_mark c unread) now silence
             (live_write_timeout c)))
      else c
  | _, _ => c
  end.

(** [advance_write] reads the clock twice. *)
Definition advance_write (c : Connection) (now unread now' : Z) (send : result io_kind Z)
  : Connection * result WritePacketError bool :=
  let c := defer_pending c now unread in
  match pending_live c with
  | None => (c, Ok true)
  | Some p =>
      match advance (stream c) p now' send with
      | (s, p, Ok true) => (set_pending (set_stream c (drop_pending s p)) None, Ok true)
      | (s, p, Ok false) => (set_pending (set_stream c s) (Some p), Ok false)
      | (s, p, Err e) => (disconnect (set_pending (set_stream c s) (Some p)), Err (ReplayOwned (Io e)))
      end
  end.

(** Answers of the system to one [start_write_packet_owned]. *)
Record start_os := mkStart {
  so_probe : result io_kind Z;
  so_now : Z;
  so_pending_at : Z;
  so_advance_at : Z;
  so_unread : Z;
  so_send_at : Z;
  so_send : result io_kind Z
}.

Definition start_prepared (c : Connection) (prepared : result WritePacketError PreparedWrite) (o : start_os)
  : Connection * result WritePacketError unit :=
  match prepared with
  | Err e => (c, Err e)
  | Ok prepared =>
      let c := set_pending (set_stream c (drop_live (stream c) (pending_live c)))
                 (into_pending prepared (so_pending_at o)) in
      let (c, r) := advance_write c (so_advance_at o) (so_unread o) (so_send_at o) (so_send o) in
      (c, match r with Ok _ => Ok tt | Err e => Err e end)
  end.

Definition start_write_packet_owned (c : Connection) (hdr : byte) (body : list byte) (o : start_os)
  : Connection * result WritePacketError unit :=
  let (c, prepared) := prepare_write_packet c hdr body (so_probe o) (so_now o) in
  start_prepared c prepared o.

Definition start_write_packet_owned_unprobed (c : Connection) (hdr : byte) (body : list byte) (o : start_os)
  : Connection * result WritePacketError unit :=
  let (c, prepared) := prepare_write_packet_unprobed c hdr body (so_now o) in
  start_prepared c prepared o.

(** [PreparedWrite::send] and [send_until] on this connection's stream. *)
Definition send_prepared (s : Stream) (prepared : PreparedWrite) (now : Z) (deadline : option Z)
    (turns : list write_turn) : Stream * blocking PendingWrite (result WritePacketError unit) :=
  match into_pending prepared now with
  | None => (s, Returned (Ok tt))
  | Some p =>
      finish s (mkPending (p_frame p) (p_offset p) (unwrap_or (p_deadline p) deadline) (p_heard p)) turns
  end.

Definition write_packet_owned_until (c : Connection) (hdr : byte) (body : list byte)
    (deadline : option Z) (probe : result io_kind Z) (now pending_at : Z) (turns : list write_turn)
  : Connection * blocking PendingWrite (result WritePacketError unit) :=
  match prepare_write_packet c hdr body probe now with
  | (c, Err e) => (c, Returned (Err e))
  | (c, Ok prepared) =>
      match send_prepared (stream c) prepared pending_at deadline turns with
      | (s, Returned (Ok _)) => (set_stream c s, Returned (Ok tt))
      | (s, Returned (Err e)) => (disconnect (set_stream c s), Returned (Err e))
      | (s, Waiting p) => (set_stream c s, Waiting p)
      end
  end.

Definition write_packet_owned (c : Connection) (hdr : byte) (body : list byte)
    (probe : result io_kind Z) (now pending_at : Z) (turns : list write_turn) :=
  write_packet_owned_until c hdr body None probe now pending_at turns.

Definition map_returned {W R R'} (f : R -> R') (b : blocking W R) : blocking W R' :=
  match b with Returned r => Returned (f r) | Waiting w => Waiting w end.

(** [write_packet_live] and [write_packet_live_until]. *)
Definition write_packet_live_until (c : Connection) (hdr : byte) (body : list byte) (deadline : option Z)
    (probe : result io_kind Z) (now pending_at : Z) (turns : list write_turn)
  : Connection * blocking PendingWrite (result ConnError unit) :=
  if negb (conn_connected c) then (c, Returned (Err (Io NotConnected)))
  else
    let (c, r) := write_packet_owned_until c hdr body deadline probe now pending_at turns in
    (c, map_returned (fun r =>
          match map_err into_inner r with
          | Err e => Err e
          | Ok _ => if conn_connected c then Ok tt else Err (Io NotConnected)
          end) r).

Definition live_write_deadline (c : Connection) (since : Z) : Z := since + live_write_timeout c.

Definition backdate_pending_write (c : Connection) (since : Z) : Connection :=
  match pending_live c with
  | Some p => set_pending c (Some (mkPending (p_frame p) (p_offset p)
                (Z.min (p_deadline p) (live_write_deadline c since)) (p_heard p)))
  | None => c
  end.

Definition pending_write_deadline (c : Connection) : option Z :=
  match pending_live c with Some p => Some (p_deadline p) | None => None end.

Definition finish_pending_write (c : Connection) (turns : list write_turn)
  : Connection * blocking PendingWrite (result WritePacketError unit) :=
  match pending_live c with
  | None => (c, Returned (Ok tt))
  | Some p =>
      let (s, r) := finish (stream c) p turns in
      let c := set_pending (set_stream c s) None in
      match r with
      | Returned (Err e) => (disconnect c, Returned (Err e))
      | Returned (Ok _) => (c, Returned (Ok tt))
      | Waiting p => (c, Waiting p)
      end
  end.

Definition shutdown (c : Connection) (closed : result io_kind unit) : Connection * result ConnError unit :=
  let c := disconnect c in
  (set_stream c (shutdown_both (stream c)),
   match closed with
   | Ok _ | Err NotConnected => Ok tt
   | Err e => Err (Io e)
   end).

(** *** Reading *)

(** What a receive call delivers, with the buffer capacity it meets. *)
Definition recv_result : Type := Z * result io_kind (list byte).

Definition pop_result (r : result ReadError ReadItem) : result ConnError (option Packet) :=
  match r with
  | Ok (PacketItem p) => Ok (Some p)
  | Ok NeedMore => Ok None
  | Err e => Err (Read e)
  end.

(** The loop of [try_read]: [recv i] is the kernel's answer to the [i]-th
    receive call. The bytes taken off the transport are returned as well. *)
Fixpoint try_read_loop (rounds : nat) (r : BackedReader) (recv : nat -> recv_result) (i : nat)
  : BackedReader * list byte * result ConnError (option Packet) :=
  match pop r with
  | (r, Ok NeedMore) =>
      match rounds with
      | O => (r, [], Ok None)
      | S rounds =>
          match recv i with
          | (capacity, Ok received) =>
              if zlen received =? 0
              then (fst (prepare_socket_read capacity r), [], Err (Io UnexpectedEof))
              else
                let '(r, taken, result) := try_read_loop rounds (socket_read capacity r received) recv (S i) in
                (r, received ++ taken, result)
          | (capacity, Err e) =>
              (fst (prepare_socket_read capacity r), [],
               match e with WouldBlock | Interrupted => Ok None | _ => Err (Io e) end)
          end
      end
  | (r, popped) => (r, [], pop_result popped)
  end.

Definition try_read (r : BackedReader) (recv : nat -> recv_result) := try_read_loop 4 r recv 0.

Definition try_read_packet (c : Connection) (recv : nat -> recv_result)
  : Connection * list byte * result ConnError (option Packet) :=
  match try_read (reader c) recv with
  | (r, taken, Ok p) => (set_reader c r, taken, Ok p)
  | (r, taken, Err e) => (disconnect (set_reader c r), taken, Err e)
  end.

(** One turn of a read with a deadline: the clock, the answer to setting the
    socket's timeout and that to the read. *)
Record read_turn := mkReadTurn {
  rt_now : Z;
  rt_timeout : result io_kind unit;
  rt_answer : result io_kind (list byte)
}.

(** [read_packet]: [reads] are the blocking reads it performs. *)
Fixpoint read_packet (c : Connection) (reads : list (result io_kind (list byte)))
  : Connection * list byte * blocking unit (result ConnError Packet) :=
  match pop (reader c) with
  | (r, Ok (PacketItem p)) => (set_reader c r, [], Returned (Ok p))
  | (r, Err e) => (disconnect (set_reader c r), [], Returned (Err (Read e)))
  | (r, Ok NeedMore) =>
      let c := set_reader c r in
      match reads with
      | [] => (c, [], Waiting tt)
      | Ok received :: reads =>
          if zlen received =? 0 then (disconnect c, [], Returned (Err (Io UnexpectedEof)))
          else
            let '(c, taken, result) := read_packet (set_reader c (feed (reader c) received)) reads in
            (c, received ++ taken, result)
      | Err Interrupted :: reads => read_packet c reads
      | Err e :: reads => (disconnect c, [], Returned (Err (Io e)))
      end
  end.

(** [read_packet_until]: each turn reads the clock, sets the socket's timeout
    and reads. [cleared] is the answer to taking the timeout off again, which
    counts only once a packet was popped: its failure drops that packet, and
    leaves the connection as it is. *)
Fixpoint read_packet_until (c : Connection) (deadline : Z) (reads : list read_turn) (cleared : result io_kind unit)
  : Connection * list byte * blocking unit (result ConnError Packet) :=
  match pop (reader c) with
  | (r, Ok (PacketItem p)) =>
      (set_reader c r, [], Returned (match cleared with Ok _ => Ok p | Err e => Err (Io e) end))
  | (r, Err e) => (disconnect (set_reader c r), [], Returned (Err (Read e)))
  | (r, Ok NeedMore) =>
      let c := set_reader c r in
      match reads with
      | [] => (c, [], Waiting tt)
      | mkReadTurn now timeout answer :: reads =>
          if deadline <=? now then (disconnect c, [], Returned (Err (Io TimedOut)))
          else
            match timeout, answer with
            | Err e, _ => (c, [], Returned (Err (Io e)))
            | Ok _, Ok received =>
                if zlen received =? 0 then (disconnect c, [], Returned (Err (Io UnexpectedEof)))
                else
                  let '(c, taken, result) :=
                    read_packet_until (set_reader c (feed (reader c) received)) deadline reads cleared in
                  (c, received ++ taken, result)
            | Ok _, Err Interrupted => read_packet_until c deadline reads cleared
            | Ok _, Err e => (disconnect c, [], Returned (Err (Io e)))
            end
      end
  end.
End operations.

(** *** Acknowledgements and the output window *)

Definition acknowledge_delivery (c : Connection) (seq now : Z) : Connection :=
  let c := set_writer c (acknowledge (writer c) seq) in
  match output_window c, delivery_backlog (writer c) with
  | Some w, Some (acked, unacked) =>
      if (acked =? seq) && conn_connected c
      then set_window c (Some (on_ack w acked
             (unacknowledged_payload acked unacked (sequence (writer c))) now))
      else c
  | _, _ => c
  end.

Definition bound_unacknowledged_output (c : Connection) : Connection :=
  set_window c (Some (unwrap_or OutputWindow.default (output_window c))).

Definition seed_output_round_trip (c : Connection) (rtt : Z) : Connection :=
  match output_window c with
  | Some w => set_window c (Some (seed_round_trip w rtt))
  | None => c
  end.

Definition output_window_blocked (c : Connection) (now : Z) : Connection * option Z :=
  match output_window c with
  | None => (c, None)
  | Some w =>
      if negb (conn_connected c) then (c, None)
      else
        match delivery_backlog (writer c) with
        | None => (c, None)
        | Some (acked, unacked) =>
            let (w, held) := blocked w acked
              (unacknowledged_payload acked unacked (sequence (writer c))) now in
            (set_window c (Some w), held)
        end
  end.

Definition keepalive_ack (c : Connection) : list byte := encode_ack (BackedReader.sequence (reader c)).

Definition next_keepalive_ack (c : Connection) (side : AckSide) (volume : bool)
  : Connection * option (list byte) :=
  let (s, ack) := next (acks c) side (BackedReader.sequence (reader c)) (data_sequence (reader c))
    (match delivery_backlog (writer c) with Some _ => true | None => false end) volume in
  (set_acks c s, ack).

(** [minimize_output_buffering], its socket options apart. *)
Definition minimize_output_buffering (c : Connection) : Connection :=
  mkConn (stream c) (writer c) (reader c) FLOW_CONTROL_LIVE_WRITE_TIMEOUT
    (Some FLOW_CONTROL_PEER_SILENCE) (pending_live c) (acks c) (output_window c).

Definition can_buffer_write (c : Connection) (bytes : Z) : bool := has_capacity (writer c) bytes.

(** [prepare_recovery_candidate]: the state of this end on a new socket. *)
Definition prepare_recovery_candidate (c : Connection) : Connection :=
  disconnect {|
    stream := fresh_stream;
    writer := writer c;
    reader := reader c;
    live_write_timeout := live_write_timeout c;
    peer_silence := peer_silence c;
    pending_live := None;
    acks := Keepalive.default;
    output_window := match output_window c with Some w => Some (for_new_transport w) | None => None end |}.
