(* ===== verification/Recovery.v ===== *)
(** * Recovery: [crates/et-net/src/connection_recovery.rs]

    A reconnect on a new socket: both ends exchange their reader sequences and
    then the packets the other one missed (or agree on a fresh epoch), replace
    their transport and revive reader and writer. The protobuf codec generated
    for [SequenceHeader] and [CatchupBuffer] is a parameter. *)

From S2P Require Import Prelude Framing FramingIo Exchange Crypto Packet BackedReader BackedWriter.
From S2P Require Import Keepalive OutputWindow Connection.

Definition MAX_HANDSHAKE_PROTO_LEN : Z := 4 * 1024.
Definition MAX_RECOVERY_PROTO_LEN : Z := 144 * 1024 * 1024.
Definition DEFAULT_RECOVERY_TIMEOUT : Z := secs 10.

Definition i32_max : Z := 2 ^ 31 - 1.

(** ** Messages *)

Record SequenceHeader := mkHeader {
  sequence_number : option Z;
  h_reset : option bool;
  h_reset_salt : option (list byte)
}.

Class RecoveryCodec := {
  header_encode : SequenceHeader -> list byte;
  header_decode : list byte -> option SequenceHeader;
  catchup_encode : list (list byte) -> list byte;
  catchup_decode : list byte -> option (list (list byte))
}.

(** A [bytes] entry of field 1: tag, length, content. *)
Definition catchup_entry (entry : list byte) : list byte :=
  z2b 0x0a :: encode_varint (zlen entry) ++ entry.

Definition salt_size (h : SequenceHeader) : Z :=
  match h_reset_salt h with Some salt => zlen salt | None => 0 end.

(** What the code relies on: decoding inverts encoding of messages that a
    64-bit length can describe, a header takes at most
    a few bytes besides its salt, and [repeated bytes buffer = 1] is laid out
    as protobuf documents it. *)
Class RecoveryCodecLaws (codec : RecoveryCodec) : Prop := {
  header_roundtrip h :
    (forall n, sequence_number h = Some n -> 0 <= n <= i32_max) -> salt_size h <= i64_max ->
    header_decode (header_encode h) = Some h;
  header_size h : zlen (header_encode h) <= 24 + salt_size h;
  catchup_layout l : catchup_encode l = concat (map catchup_entry l);
  catchup_roundtrip l :
    zlen (catchup_encode l) <= i64_max -> catchup_decode (catchup_encode l) = Some l
}.

(** ** Validation before decoding *)

Fixpoint decode_varint_go (bytes : list byte) (index value : Z) : option (Z * Z) :=
  match bytes with
  | [] => None
  | b :: bytes =>
      if 10 <=? index then None
      else if (index =? 9) && (1 <? b2z b) then None
      else
        let value := Z.lor value (Z.shiftl (Z.land (b2z b) 0x7f) (index * 7)) in
        if Z.land (b2z b) 0x80 =? 0 then Some (value, index + 1)
        else decode_varint_go bytes (index + 1) value
  end.

Definition decode_varint (bytes : list byte) : option (Z * Z) := decode_varint_go bytes 0 0.

Definition invalid_catchup : ConnError := Io InvalidData.

(** The loop of [validate_catchup_encoding], on the bytes from [offset] on;
    every turn consumes at least three of them. *)
Fixpoint validate_entries (fuel : nat) (rest : list byte) (entries : Z) : result ConnError unit :=
  match rest with
  | [] => Ok tt
  | tag :: rest =>
      match fuel with
      | O => Err invalid_catchup
      | S fuel =>
          if negb (b2z tag =? 0x0a) then Err invalid_catchup
          else
            match decode_varint rest with
            | None => Err invalid_catchup
            | Some (length, consumed) =>
                let rest := zdrop consumed rest in
                if usize_max <? length then Err invalid_catchup
                else if length =? 0 then Err invalid_catchup
                else if MAX_BACKUP_PACKETS + MAX_DISCONNECT_PACKETS <? entries + 1 then Err invalid_catchup
                else if zlen rest <? length then Err invalid_catchup
                else validate_entries fuel (zdrop length rest) (entries + 1)
            end
      end
  end.

Definition validate_catchup_encoding (encoded : list byte) : result ConnError unit :=
  validate_entries (length encoded) encoded 0.

(** ** The exchange *)

Record RecoveryExchange := mkExchange {
  read_peer_catchup_first : bool;
  reset_salt : option (list byte)
}.

Definition exchange_default : RecoveryExchange := mkExchange false None.
Definition exchange_client (salt : option (list byte)) : RecoveryExchange := mkExchange true salt.

(** [write_proto_limited_deadline] and [read_frame_limited_deadline] as steps
    of a program. *)
Definition write_msg {A} (max_len : Z) (encoded : list byte) (k : prog ConnError A) : prog ConnError A :=
  match write_proto_limited max_len encoded with
  | Ok bytes => WriteMsg bytes k
  | Err e => Done (Err (Io e))
  end.

Definition read_msg {A} (max_len : Z) (k : list byte -> prog ConnError A) : prog ConnError A :=
  ReadMsg max_len (fun r => match r with Ok body => k body | Err e => Done (Err (Io e)) end).

Section recovery.
Context {codec : RecoveryCodec}.

(** Catchups in the order of the roles; [k] goes on with the peer's. *)
Definition swap_catchups {A} (read_first : bool) (own : list (list byte)) (k : list byte -> prog ConnError A)
  : prog ConnError A :=
  if read_first
  then read_msg MAX_RECOVERY_PROTO_LEN (fun encoded =>
         write_msg MAX_RECOVERY_PROTO_LEN (catchup_encode own) (k encoded))
  else write_msg MAX_RECOVERY_PROTO_LEN (catchup_encode own) (read_msg MAX_RECOVERY_PROTO_LEN k).

Definition decode_peer_catchup (encoded : list byte) : result ConnError (list (list byte)) :=
  let? _ := validate_catchup_encoding encoded in
  match catchup_decode encoded with
  | Some l => Ok l
  | None => Err (Io InvalidData)
  end.

(** The exchange after the headers. *)
Definition after_headers (w : BackedWriter) (ex : RecoveryExchange) (remote : SequenceHeader)
  : prog ConnError (list (list byte)) :=
  match reset_salt ex with
  | Some salt =>
      if negb (bool_decide (h_reset remote = Some true))
         || negb (bool_decide (h_reset_salt remote = Some salt))
      then Done (Err (Io InvalidData))
      else
        swap_catchups (read_peer_catchup_first ex) [] (fun remote_catchup =>
          Done (match remote_catchup with [] => Ok [] | _ => decode_peer_catchup remote_catchup end))
  | None =>
      if bool_decide (h_reset remote = Some true)
         || is_some_and (fun salt => negb (bool_decide (salt = []))) (h_reset_salt remote)
      then Done (Err (Io InvalidData))
      else
        match sequence_number remote with
        | Some remote_sequence =>
            if 0 <=? remote_sequence
            then
              match recover w remote_sequence with
              | Err e => Done (Err (Recover e))
              | Ok catchup =>
                  swap_catchups (read_peer_catchup_first ex) catchup (fun encoded =>
                    Done (decode_peer_catchup encoded))
              end
            else Done (Err (InvalidRecoverySequence (Some remote_sequence)))
        | None => Done (Err (InvalidRecoverySequence None))
        end
  end.

(** The header this end sends. *)
Definition local_sequence (reader_sequence : Z) (ex : RecoveryExchange) : Z :=
  match reset_salt ex with Some _ => 0 | None => reader_sequence end.

Definition local_header (reader_sequence : Z) (ex : RecoveryExchange) : SequenceHeader :=
  mkHeader (Some (local_sequence reader_sequence ex))
    (match reset_salt ex with Some _ => Some true | None => None end) (reset_salt ex).

Definition exchange_recovery (w : BackedWriter) (reader_sequence : Z) (ex : RecoveryExchange)
  : prog ConnError (list (list byte)) :=
  let local := local_sequence reader_sequence ex in
  if negb ((- 2 ^ 31 <=? local) && (local <=? i32_max)) then Done (Err (SequenceOutOfRange local))
  else
    write_msg MAX_HANDSHAKE_PROTO_LEN (header_encode (local_header reader_sequence ex))
    (read_msg MAX_HANDSHAKE_PROTO_LEN (fun body =>
      match header_decode body with
      | None => Done (Err (Io InvalidData))
      | Some remote => after_headers w ex remote
      end)).
End recovery.

(** ** The ends *)

Definition restart_output_window (c : Connection) : Connection :=
  match output_window c with
  | Some _ => set_window c (Some OutputWindow.default)
  | None => c
  end.

Section ends.
Context {codec : RecoveryCodec} {sodium : Sodium}.

(** The program a recovery runs on the new socket. *)
Definition recovery_program (c : Connection) (ex : RecoveryExchange) : prog ConnError (list (list byte)) :=
  exchange_recovery (writer c) (BackedReader.sequence (reader c)) ex.

(** Reset of both halves under a negotiated salt. *)
Definition reset_halves (c : Connection) (salt : list byte) : Connection * result ConnError unit :=
  match BackedReader.reset (reader c) salt with
  | (r, Err _) => (set_reader c r, Err (Io InvalidData))
  | (r, Ok _) =>
      let c := set_reader c r in
      match reset (writer c) salt with
      | (w, Err _) => (set_writer c w, Err (Io InvalidData))
      | (w, Ok _) => (restart_output_window (set_writer c w), Ok tt)
      end
  end.

Definition revive_halves (c : Connection) (catchup : list (list byte)) : Connection * result ConnError Z :=
  match BackedReader.revive (reader c) catchup with
  | (r, Err e) => (set_reader c r, Err (Read e))
  | (r, Ok _) => (set_writer (set_reader c r) (revive (writer c)), Ok (zlen catchup))
  end.

(** [run_recovery_handshake_with] once the exchange returned. *)
Definition run_recovery_handshake_with (c : Connection) (ex : RecoveryExchange)
    (exchanged : result ConnError (list (list byte))) : Connection * result ConnError Z :=
  match exchanged with
  | Err e => (set_stream c (shutdown_both (stream c)), Err e)
  | Ok remote_catchup =>
      match reset_salt ex with
      | None => revive_halves c remote_catchup
      | Some salt =>
          match reset_halves c salt with
          | (c, Err e) => (c, Err e)
          | (c, Ok _) => revive_halves c []
          end
      end
  end.

(** [recover_with_exchange]: the new transport replaces the old one only after
    the candidate recovered. *)
Definition recover_with_exchange (c : Connection) (ex : RecoveryExchange)
    (exchanged : result ConnError (list (list byte))) : Connection * result ConnError unit :=
  match run_recovery_handshake_with (prepare_recovery_candidate c) ex exchanged with
  | (candidate, Ok _) => (candidate, Ok tt)
  | (_, Err e) => (c, Err e)
  end.

(** [establish_reset] runs its exchange as [reset_start c]. *)
Definition reset_start (c : Connection) : Connection := set_acks (disconnect c) Keepalive.default.

Definition establish_reset (c : Connection) (ex : RecoveryExchange)
    (exchanged : result ConnError (list (list byte))) : Connection * result ConnError unit :=
  match reset_salt ex with
  | None => (c, Err (Io InvalidData))
  | Some salt =>
      let c := reset_start c in
      match exchanged with
      | Err e => (set_stream c (shutdown_both (stream c)), Err e)
      | Ok remote_catchup =>
          match reset_halves c salt with
          | (c, Err e) => (c, Err e)
          | (c, Ok _) =>
              match remote_catchup with
              | [] => let (c, r) := revive_halves c [] in (c, match r with Ok _ => Ok tt | Err e => Err e end)
              | _ => (c, Err (Io InvalidData))
              end
          end
      end
  end.

(** [read_live_packet_until]: each turn reads the clock and sets the socket's
    timeouts ([constrain_recovery_io]), then reads. *)
Fixpoint read_live_packet_until (c : Connection) (deadline : Z) (reads : list read_turn)
  : Connection * list byte * blocking unit (result ConnError Packet) :=
  match pop_live (reader c) with
  | (r, Ok (PacketItem p)) => (set_reader c r, [], Returned (Ok p))
  | (r, Err e) => (disconnect (set_reader c r), [], Returned (Err (Read e)))
  | (r, Ok NeedMore) =>
      let c := set_reader c r in
      match reads with
      | [] => (c, [], Waiting tt)
      | mkReadTurn now timeout answer :: reads =>
          if deadline <=? now then (c, [], Returned (Err (Io TimedOut)))
          else
            match timeout, answer with
            | Err e, _ => (c, [], Returned (Err (Io e)))
            | Ok _, Ok received =>
                if zlen received =? 0 then (disconnect c, [], Returned (Err (Io UnexpectedEof)))
                else
                  let '(c, taken, result) :=
                    read_live_packet_until (set_reader c (feed (reader c) received)) deadline reads in
                  (c, received ++ taken, result)
            | Ok _, Err Interrupted => read_live_packet_until c deadline reads
            | Ok _, Err e => (disconnect c, [], Returned (Err (Io e)))
            end
      end
  end.

(** [cleared] is the answer to taking the timeouts off again. *)
Definition authenticate_peer (c : Connection) (deadline : Z) (reads : list read_turn) (cleared : result io_kind unit)
  : Connection * list byte * blocking unit (result ConnError unit) :=
  let '(c, taken, result) := read_live_packet_until c deadline reads in
  match result with
  | Returned (Ok p) =>
      (set_reader c (unread (reader c) p), taken,
       Returned (match cleared with Ok _ => Ok tt | Err e => Err (Io e) end))
  | Returned (Err e) => (c, taken, Returned (Err e))
  | Waiting w => (c, taken, Waiting w)
  end.
End ends.

(** ** Varints and catchup encodings *)

Lemma decode_varint_encode (k fuel : nat) v rest i value :
  (1 <= k <= 9)%nat -> (k <= fuel)%nat -> i = 9 - Z.of_nat k ->
  0 <= v < 128 ^ Z.of_nat k -> 0 <= value < 2 ^ (7 * i) ->
  decode_varint_go (encode_varint_go fuel v ++ rest) i value =
    Some (value + v * 2 ^ (7 * i), i + zlen (encode_varint_go fuel v)).
Proof.
  revert fuel v i value. induction k as [|k IH]; intros fuel v i value Hk Hf Hi Hv Hl; [lia|].
  destruct fuel as [|fuel]; [lia|].
  assert (0 < 2 ^ (7 * i)) by (apply Z.pow_pos_nonneg; lia).
  cbn [encode_varint_go]. destruct (Z.leb_spec 0x80 v) as [Hge|Hlt]; cbn [app decode_varint_go].
  - rewrite (proj2 (Z.leb_gt _ _)) by lia. rewrite (proj2 (Z.eqb_neq _ _)) by lia. cbn [andb]. cbv zeta.
    rewrite land_7f, land_80, group_value by lia.
    rewrite <-Zplus_mod_idemp_r, Z_mod_same_full, Z.add_0_r, Zmod_mod.
    replace (i * 7) with (7 * i) by lia.
    rewrite lor_shiftl_add by lia. pose proof (Z.mod_pos_bound v 128 ltac:(lia)) as Hm.
    decide_ifs. assert (1 <= Z.of_nat k) as Hk1.
    { destruct k; [|lia]. change (128 ^ Z.of_nat 1) with 128 in Hv. lia. }
    rewrite Z.shiftr_div_pow2 by lia. change (2 ^ 7) with 128.
    assert (2 ^ (7 * (i + 1)) = 2 ^ (7 * i) * 128) as Hpow.
    { replace (7 * (i + 1)) with (7 * i + 7) by lia. rewrite Z.pow_add_r by lia. lia. }
    rewrite IH; [|lia|lia|lia| |rewrite Hpow; nia].
    + rewrite zlen_cons, Hpow. pose proof (Z.div_mod v 128 ltac:(lia)). do 2 f_equal; [nia|lia].
    + replace (Z.of_nat (S k)) with (Z.of_nat k + 1) in Hv by lia. rewrite Z.pow_add_r in Hv by lia.
      split; [apply Z.div_pos; lia|apply Z.div_lt_upper_bound; lia].
  - rewrite (proj2 (Z.leb_gt _ _)) by lia. rewrite (proj2 (Z.eqb_neq _ _)) by lia. cbn [andb]. cbv zeta.
    rewrite land_7f, land_80, b2z_z2b_small by lia. rewrite (Z.mod_small v 128) by lia.
    replace (i * 7) with (7 * i) by lia. rewrite lor_shiftl_add by lia. decide_ifs. done.
Qed.

Lemma decode_varint_app v rest :
  0 <= v < 2 ^ 63 -> decode_varint (encode_varint v ++ rest) = Some (v, zlen (encode_varint v)).
Proof.
  intros Hv. unfold decode_varint, encode_varint. rewrite (decode_varint_encode 9); [|lia..|done|lia].
  change (7 * 0) with 0. do 2 f_equal. lia.
Qed.

Lemma decode_varint_go_bounds bytes i value v n :
  0 <= i <= 10 -> 0 <= value < 2 ^ (7 * i) -> decode_varint_go bytes i value = Some (v, n) ->
  0 <= v < 2 ^ 64 /\ i < n <= i + zlen bytes.
Proof.
  revert i value. induction bytes as [|b bytes IH]; intros i value Hi Hv; [done|].
  cbn [decode_varint_go]. destruct (Z.leb_spec 10 i); [done|].
  destruct ((i =? 9) && (1 <? b2z b)) eqn:E9; [done|]. cbv zeta.
  rewrite land_7f, land_80. replace (i * 7) with (7 * i) by lia. rewrite lor_shiftl_add by lia.
  pose proof (Z.mod_pos_bound (b2z b) 128 ltac:(lia)) as Hm. pose proof (b2z_range b) as Hb.
  assert (0 < 2 ^ (7 * i)) by (apply Z.pow_pos_nonneg; lia).
  assert (2 ^ (7 * (i + 1)) = 2 ^ (7 * i) * 128) as Hpow.
  { replace (7 * (i + 1)) with (7 * i + 7) by lia. rewrite Z.pow_add_r by lia. lia. }
  destruct (Z.ltb_spec (b2z b) 128) as [Hlt|Hge].
  - intros; simplify_eq. split; [|len_lia]. rewrite Z.mod_small by lia.
    destruct (Z.eqb_spec i 9) as [->|]; cbn [andb] in E9.
    + apply Z.ltb_ge in E9. change (2 ^ (7 * 9)) with (2 ^ 63) in *. nia.
    + assert (2 ^ (7 * i) <= 2 ^ 56) by (apply Z.pow_le_mono_r; lia). nia.
  - intros H1. destruct (IH (i + 1) (value + b2z b mod 128 * 2 ^ (7 * i))) as [? ?];
      [lia|rewrite Hpow; nia|done|]. split; [done|len_lia].
Qed.

Lemma decode_varint_bounds bytes v n :
  decode_varint bytes = Some (v, n) -> 0 <= v < 2 ^ 64 /\ 0 < n <= zlen bytes.
Proof.
  intros H. apply decode_varint_go_bounds in H; [|lia|simpl; lia]. lia.
Qed.

(** The encodings of a list of non-empty entries, whatever varints give their
    lengths. *)
Inductive catchup_wire : list byte -> list (list byte) -> Prop :=
| cw_nil : catchup_wire [] []
| cw_cons tag v entry rest l :
    b2z tag = 0x0a -> decode_varint (v ++ entry ++ rest) = Some (zlen entry, zlen v) -> entry <> [] ->
    catchup_wire rest l -> catchup_wire (tag :: v ++ entry ++ rest) (entry :: l).

Lemma validate_entries_sound fuel rest entries :
  validate_entries fuel rest entries = Ok tt ->
  entries <= MAX_BACKUP_PACKETS + MAX_DISCONNECT_PACKETS ->
  exists l, catchup_wire rest l /\ entries + zlen l <= MAX_BACKUP_PACKETS + MAX_DISCONNECT_PACKETS.
Proof.
  revert rest entries. induction fuel as [|fuel IH]; intros [|tag rest] entries; cbn [validate_entries];
    try done; intros H He; try (exists []; split; [constructor|len_lia]).
  destruct (Z.eqb_spec (b2z tag) 0x0a) as [Htag|]; [|done]. cbn [negb] in H.
  destruct (decode_varint rest) as [[n consumed]|] eqn:Ev; [|done]. cbv zeta in H.
  apply decode_varint_bounds in Ev as Hb. destruct Hb as [Hn Hc].
  destruct (usize_max <? n); [done|]. destruct (Z.eqb_spec n 0); [done|].
  destruct (Z.ltb_spec (MAX_BACKUP_PACKETS + MAX_DISCONNECT_PACKETS) (entries + 1)); [done|].
  destruct (Z.ltb_spec (zlen (zdrop consumed rest)) n); [done|].
  apply IH in H as (l & Hl & Hz); [|lia].
  exists (ztake n (zdrop consumed rest) :: l). split; [|len_lia].
  assert (rest = ztake consumed rest ++ ztake n (zdrop consumed rest) ++ zdrop n (zdrop consumed rest)) as E.
  { by rewrite !ztake_zdrop. }
  rewrite E at 1. constructor; [done| | |done].
  - rewrite <-E, Ev. do 2 f_equal; len_lia.
  - intros E0. apply (f_equal zlen) in E0. len_lia.
Qed.

Lemma validate_entries_complete fuel rest entries l :
  catchup_wire rest l -> (length rest <= fuel)%nat ->
  entries + zlen l <= MAX_BACKUP_PACKETS + MAX_DISCONNECT_PACKETS ->
  validate_entries fuel rest entries = Ok tt.
Proof.
  intros Hw. revert fuel entries. induction Hw as [|tag v entry rest l Htag Hv Hne Hw IH];
    intros fuel entries Hf Hz; [by destruct fuel|].
  destruct fuel as [|fuel]; [cbn in Hf; lia|]. cbn [validate_entries].
  rewrite Htag, Z.eqb_refl. cbn [negb]. rewrite Hv. cbv zeta.
  apply decode_varint_bounds in Hv as [Hn Hc]. rewrite zlen_cons in Hz.
  assert (0 < zlen entry) by (destruct entry; [done|len_lia]).
  unfold usize_max, u64_max. rewrite (proj2 (Z.ltb_ge _ _)) by lia. rewrite (proj2 (Z.eqb_neq _ _)) by lia.
  rewrite (proj2 (Z.ltb_ge _ _)) by len_lia. rewrite zdrop_app_exact.
  rewrite (proj2 (Z.ltb_ge _ _)) by len_lia. rewrite zdrop_app_exact. apply IH; [|lia].
  cbn [length] in Hf. rewrite !length_app in Hf. lia.
Qed.

Lemma catchup_wire_encoded l :
  Forall (fun e => 0 < zlen e < 2 ^ 63) l -> catchup_wire (concat (map catchup_entry l)) l.
Proof.
  induction 1 as [|e l He _ IH]; cbn [map concat]; [constructor|].
  unfold catchup_entry at 1. rewrite <-app_comm_cons, <-app_assoc. constructor; [done| | |done].
  - apply decode_varint_app. lia.
  - intros ->. by destruct He as [He _].
Qed.

Lemma catchup_wire_fun bytes l k : catchup_wire bytes l -> catchup_wire bytes k -> l = k.
Proof.
  intros H. revert k. induction H as [|tag v entry rest l Htag Hv Hne Hw IH]; intros k Hk.
  - inversion Hk; by subst.
  - inversion Hk as [|tag' v' entry' rest' l' Htag' Hv' Hne' Hw' Et Ek]. subst k.
    match goal with H : v' ++ _ = v ++ _ |- _ => rename H into Eb end.
    rewrite Eb, Hv in Hv'. injection Hv' as El Ev.
    apply app_inj_1 in Eb as [-> Eb]; [|unfold zlen in Ev; lia].
    apply app_inj_1 in Eb as [-> ->]; [|unfold zlen in El; lia]. f_equal. by apply IH.
Qed.

(** The check before decoding accepts exactly the encodings of at most
    [MAX_BACKUP_PACKETS + MAX_DISCONNECT_PACKETS] non-empty entries, and the
    entries are determined by the bytes. *)
Theorem validate_catchup_iff encoded :
  (validate_catchup_encoding encoded = Ok tt <->
   exists l, catchup_wire encoded l /\ zlen l <= MAX_BACKUP_PACKETS + MAX_DISCONNECT_PACKETS) /\
  (forall l k, catchup_wire encoded l -> catchup_wire encoded k -> l = k).
Proof.
  split; [|intros l k; apply catchup_wire_fun]. split.
  - intros H. apply validate_entries_sound in H as (l & Hl & Hz); [by eauto|].
    unfold MAX_BACKUP_PACKETS, MAX_DISCONNECT_PACKETS. lia.
  - intros (l & Hl & Hz). eapply validate_entries_complete; [done|lia|lia].
Qed.

(** ** What an exchange agrees on *)

Section exchange.
Context {codec : RecoveryCodec} {laws : RecoveryCodecLaws codec}.
Implicit Types (w : BackedWriter) (ex : RecoveryExchange).

(** A sequence and a salt that the header can carry. *)
Definition header_fits (seq : Z) ex : Prop :=
  0 <= local_sequence seq ex <= i32_max /\ salt_size (local_header seq ex) <= 4000.

Definition own_header (seq : Z) ex : list byte := header_encode (local_header seq ex).

Lemma own_header_size seq ex : header_fits seq ex -> zlen (own_header seq ex) <= MAX_HANDSHAKE_PROTO_LEN.
Proof.
  intros [_ H]. pose proof (header_size (local_header seq ex)). unfold own_header, MAX_HANDSHAKE_PROTO_LEN. lia.
Qed.

Lemma own_header_decode seq ex :
  header_fits seq ex -> header_decode (own_header seq ex) = Some (local_header seq ex).
Proof.
  intros [H Hz]. apply header_roundtrip; [|unfold i64_max; lia]. cbn [local_header sequence_number]. by intros n [= <-].
Qed.

Lemma exchange_unfold w seq ex :
  header_fits seq ex ->
  exchange_recovery w seq ex =
    WriteMsg (framed (own_header seq ex)) (read_msg MAX_HANDSHAKE_PROTO_LEN (fun body =>
      match header_decode body with
      | None => Done (Err (Io InvalidData))
      | Some remote => after_headers w ex remote
      end)).
Proof.
  intros H. pose proof (own_header_size _ _ H) as Hz. destruct H as [H _].
  unfold exchange_recovery. cbv zeta.
  rewrite (proj2 (Z.leb_le _ _)) by lia. rewrite (proj2 (Z.leb_le (local_sequence seq ex) _)) by lia.
  cbn [andb negb]. unfold write_msg.
  fold (own_header seq ex). rewrite write_proto_ok; [done|done|].
  unfold MAX_HANDSHAKE_PROTO_LEN, i64_max in *. lia.
Qed.

(** What an end writes after its header, on the input after the peer's. *)
Lemma exchange_outcome w seq ex peer peer_ex rest :
  header_fits seq ex -> header_fits peer peer_ex ->
  outcome (exchange_recovery w seq ex) (framed (own_header peer peer_ex) ++ rest) =
    let (out, r) := outcome (after_headers w ex (local_header peer peer_ex)) rest in
    (framed (own_header seq ex) ++ out, r).
Proof.
  intros H1 H2. pose proof (own_header_size _ _ H2) as Hz. rewrite exchange_unfold by done.
  unfold read_msg. cbn [outcome]. rewrite split_frame_framed; [|done|unfold MAX_HANDSHAKE_PROTO_LEN, i64_max in *; lia].
  by rewrite own_header_decode.
Qed.

(** *** The catchups *)

Lemma swap_completes rf own (g : list byte -> result ConnError (list (list byte))) rest out l :
  outcome (swap_catchups rf own (fun encoded => Done (g encoded))) rest = (out, Some (Ok l)) ->
  exists m rest', split_frame MAX_RECOVERY_PROTO_LEN rest = Some (Ok m, rest') /\ g m = Ok l.
Proof.
  unfold swap_catchups, write_msg, read_msg. destruct rf.
  - cbn [outcome]. destruct (split_frame _ rest) as [[[m|e] rest']|]; [|done..].
    destruct (write_proto_limited _ _); cbn [outcome]; [|done]. intros; simplify_eq. by eauto.
  - destruct (write_proto_limited _ _); cbn [outcome]; [|done].
    destruct (split_frame _ rest) as [[[m|e] rest']|]; cbn [outcome]; [|done..].
    intros; simplify_eq. by eauto.
Qed.

Lemma swap_output rf own (g : list byte -> result ConnError (list (list byte))) rest :
  let out := fst (outcome (swap_catchups rf own (fun encoded => Done (g encoded))) rest) in
  out = [] \/
  zlen (catchup_encode own) <= MAX_RECOVERY_PROTO_LEN /\ out `prefix_of` framed (catchup_encode own).
Proof.
  cbv zeta. unfold swap_catchups, write_msg, read_msg.
  destruct (write_proto_limited MAX_RECOVERY_PROTO_LEN (catchup_encode own)) as [bytes|] eqn:E.
  - apply write_proto_framed in E as (-> & E & _). destruct rf; cbn [outcome];
      destruct (split_frame _ rest) as [[[m|e] rest']|]; cbn [outcome fst]; rewrite ?app_nil_r; by auto.
  - destruct rf; cbn [outcome]; [|by auto].
    destruct (split_frame _ rest) as [[[m|e'] rest']|]; cbn [outcome fst]; by auto.
Qed.

Lemma after_completes w ex remote rest out l :
  outcome (after_headers w ex remote) rest = (out, Some (Ok l)) ->
  exists m rest', split_frame MAX_RECOVERY_PROTO_LEN rest = Some (Ok m, rest') /\
    match reset_salt ex with
    | Some salt => h_reset remote = Some true /\ h_reset_salt remote = Some salt /\
                   (m = [] /\ l = [] \/ decode_peer_catchup m = Ok l)
    | None => h_reset remote <> Some true /\ decode_peer_catchup m = Ok l
    end.
Proof.
  unfold after_headers. destruct (reset_salt ex) as [salt|].
  - do 2 case_bool_decide; cbn [negb orb]; try done.
    intros (m & rest' & H1 & H2)%swap_completes. exists m, rest'.
    destruct m; naive_solver.
  - case_bool_decide; cbn [orb]; [done|]. destruct (is_some_and _ _); [done|].
    destruct (sequence_number remote) as [n|]; [|done]. destruct (0 <=? n); [|done].
    destruct (recover w n); [|done]. intros (m & rest' & H1 & H2)%swap_completes. by eauto.
Qed.

(** The catchup an end owes its peer. *)
Definition owed w ex (remote : SequenceHeader) : option (list (list byte)) :=
  match reset_salt ex, sequence_number remote with
  | Some _, _ => Some []
  | None, Some n => match recover w n with Ok l => Some l | Err _ => None end
  | None, None => None
  end.

Lemma after_output w ex remote rest :
  let out := fst (outcome (after_headers w ex remote) rest) in
  out = [] \/
  exists l, owed w ex remote = Some l /\ zlen (catchup_encode l) <= MAX_RECOVERY_PROTO_LEN /\
    out `prefix_of` framed (catchup_encode l).
Proof.
  cbv zeta. unfold owed, after_headers. destruct (reset_salt ex).
  - destruct (_ || _); [by left|]. destruct (swap_output (read_peer_catchup_first ex) []
      (fun m => match m with [] => Ok [] | _ => decode_peer_catchup m end) rest) as [H|[H1 H2]]; [by left|].
    right. by exists [].
  - destruct (_ || _); [by left|]. destruct (sequence_number remote) as [n|]; [|by left].
    destruct (0 <=? n); [|by left]. destruct (recover w n) as [l|]; [|by left].
    destruct (swap_output (read_peer_catchup_first ex) l decode_peer_catchup rest) as [H|[H1 H2]]; [by left|].
    right. by exists l.
Qed.

Lemma decode_peer_encoded l k :
  zlen (catchup_encode l) <= MAX_RECOVERY_PROTO_LEN -> decode_peer_catchup (catchup_encode l) = Ok k -> k = l.
Proof.
  intros Hz. unfold decode_peer_catchup. destruct (validate_catchup_encoding _); [|done].
  rewrite catchup_roundtrip by (unfold MAX_RECOVERY_PROTO_LEN, i64_max in *; lia). congruence.
Qed.

Lemma exchange_sound_fits faulty cap wA seqA exA wB seqB exB n c l :
  header_fits seqA exA -> header_fits seqB exB ->
  net_reachable faulty cap (exchange_recovery wA seqA exA) (exchange_recovery wB seqB exB) n c ->
  pa c = Done (Ok l) ->
  reset_salt exB = reset_salt exA /\
  match reset_salt exA with
  | None => recover wB seqA = Ok l
  | Some _ => l = []
  end.
Proof.
  intros HA HB Hreach Hdone. destruct (completed_against _ _ _ _ _ _ _ Hreach Hdone) as [Hp Hq].
  pose proof (own_header_size _ _ HA) as ZA. pose proof (own_header_size _ _ HB) as ZB.
  assert (MAX_HANDSHAKE_PROTO_LEN <= i64_max) as HM by (unfold MAX_HANDSHAKE_PROTO_LEN, i64_max; lia).
  assert (exists rest, ra c = framed (own_header seqB exB) ++ rest) as [rest Hra].
  { rewrite (exchange_unfold _ _ _ HA) in Hp. rewrite (exchange_unfold _ _ _ HB) in Hq.
    unfold read_msg in Hp, Hq. cbn [outcome] in Hp. cbn [outcome] in Hq.
    destruct (split_frame MAX_HANDSHAKE_PROTO_LEN (ra c)) as [[message rest]|] eqn:Es; [|done].
    destruct (match split_frame _ (wa c) with None => _ | Some _ => _ end) as [X r]. cbn [fst] in Hq.
    destruct (split_frame_prefix _ _ _ _ _ _ ZB ltac:(lia) Hq Es) as (_ & E & _). by eauto. }
  rewrite Hra, exchange_outcome in Hp by done.
  destruct (outcome (after_headers wA exA (local_header seqB exB)) rest) as [outA r] eqn:EA.
  apply pair_eq in Hp as [Hwa ->]. apply after_completes in EA as (m & rest' & Hs & HlA).
  rewrite Hra, <-Hwa, exchange_outcome in Hq by done.
  pose proof (after_output wB exB (local_header seqA exA) outA) as HB'. cbv zeta in HB'.
  destruct (outcome (after_headers wB exB _) outA) as [outB rB]. cbn [fst] in Hq, HB'.
  apply prefix_app_inv in Hq. destruct HB' as [->|(lB & Ho & HzB & Hpre)].
  { apply prefix_nil_inv in Hq as ->. done. }
  assert (m = catchup_encode lB) as ->.
  { assert (rest `prefix_of` framed (catchup_encode lB) ++ []) as Hpre' by (rewrite app_nil_r; by etrans).
    assert (zlen (catchup_encode lB) <= i64_max) by (unfold MAX_RECOVERY_PROTO_LEN, i64_max in *; lia).
    destruct (split_frame_prefix _ _ _ _ _ _ HzB ltac:(done) Hpre' Hs) as (Hm & _). by injection Hm. }
  unfold owed, local_header, local_sequence in Ho. unfold local_header in HlA. cbn [h_reset h_reset_salt sequence_number] in Ho, HlA.
  destruct (reset_salt exA) as [sa|], (reset_salt exB) as [sb|]; [|by destruct HlA..|].
  - destruct HlA as (_ & ? & HlA). simplify_eq. split; [done|].
    destruct HlA as [[_ ->]|HlA]; [done|]. by apply decode_peer_encoded in HlA.
  - destruct HlA as [_ HlA]. apply decode_peer_encoded in HlA; [|done]. subst. split; [done|]. by destruct (recover wB seqA); simplify_eq.
Qed.

(** A sequence beyond 31 bits fails before anything is sent. *)
Lemma exchange_out_of_range w seq ex :
  i32_max < local_sequence seq ex ->
  exchange_recovery w seq ex = Done (Err (SequenceOutOfRange (local_sequence seq ex))).
Proof.
  intros H. unfold exchange_recovery. cbv zeta. rewrite (proj2 (Z.leb_gt (local_sequence seq ex) i32_max)) by lia.
  by rewrite andb_false_r.
Qed.

(** Salts are arrays of [EPOCH_SALT_BYTES] bytes. *)
Definition salt_ok ex : Prop := forall salt, reset_salt ex = Some salt -> zlen salt = EPOCH_SALT_BYTES.

Lemma in_range_fits seq ex :
  0 <= seq -> salt_ok ex -> local_sequence seq ex <= i32_max -> header_fits seq ex.
Proof.
  intros H1 H2 H3. split.
  - unfold local_sequence in *. destruct (reset_salt ex); lia.
  - unfold salt_size, local_header. cbn [h_reset_salt]. destruct (reset_salt ex) as [salt|] eqn:E; [|lia].
    rewrite (H2 _ E). unfold EPOCH_SALT_BYTES. lia.
Qed.

Lemma exchange_completed faulty cap wA seqA exA wB seqB exB n c l :
  0 <= seqA -> 0 <= seqB -> salt_ok exA -> salt_ok exB ->
  net_reachable faulty cap (exchange_recovery wA seqA exA) (exchange_recovery wB seqB exB) n c ->
  pa c = Done (Ok l) ->
  reset_salt exB = reset_salt exA /\
  match reset_salt exA with
  | None => recover wB seqA = Ok l
  | Some _ => l = []
  end.
Proof.
  intros HA HB SA SB Hreach Hdone.
  destruct (completed_against _ _ _ _ _ _ _ Hreach Hdone) as [Hp Hq].
  destruct (Z.le_gt_cases (local_sequence seqA exA) i32_max) as [RA|RA].
  2: { by rewrite exchange_out_of_range in Hp by lia. }
  pose proof (in_range_fits _ _ HA SA RA) as FA.
  destruct (Z.le_gt_cases (local_sequence seqB exB) i32_max) as [RB|RB].
  2: { rewrite (exchange_out_of_range wB) in Hq by lia. cbn in Hq. apply prefix_nil_inv in Hq.
       by rewrite Hq, exchange_unfold in Hp. }
  by eapply exchange_sound_fits; [done|apply in_range_fits|..].
Qed.

(** C3: Whatever fails or is delayed, at either end: an end that completed holds
    what the other owed to the sequence this end announced, and both had chosen
    the same epoch. *)
Theorem exchange_sound faulty cap wA seqA exA wB seqB exB n c l :
  0 <= seqA -> 0 <= seqB -> salt_ok exA -> salt_ok exB ->
  net_reachable faulty cap (exchange_recovery wA seqA exA) (exchange_recovery wB seqB exB) n c ->
  pa c = Done (Ok l) ->
  reset_salt exB = reset_salt exA /\
  match reset_salt exA with
  | None => recover wB seqA = Ok l
  | Some _ => l = []
  end.
Proof. apply exchange_completed. Qed.

(** *** Completion *)

(** A catchup that the peer's limits admit. *)
Definition catchup_admitted (l : list (list byte)) : Prop :=
  Forall (fun e => 0 < zlen e < 2 ^ 63) l /\
  zlen l <= MAX_BACKUP_PACKETS + MAX_DISCONNECT_PACKETS /\
  zlen (catchup_encode l) <= MAX_RECOVERY_PROTO_LEN.

Lemma admitted_decodes l : catchup_admitted l -> decode_peer_catchup (catchup_encode l) = Ok l.
Proof.
  intros (H1 & H2 & H3). unfold decode_peer_catchup.
  assert (validate_catchup_encoding (catchup_encode l) = Ok tt) as ->.
  { rewrite catchup_layout. eapply validate_entries_complete; [by apply catchup_wire_encoded|lia|lia]. }
  by rewrite catchup_roundtrip by (unfold MAX_RECOVERY_PROTO_LEN, i64_max in *; lia).
Qed.

Lemma admitted_written l :
  catchup_admitted l ->
  write_proto_limited MAX_RECOVERY_PROTO_LEN (catchup_encode l) = Ok (framed (catchup_encode l)) /\
  zlen (catchup_encode l) <= i64_max.
Proof.
  intros (_ & _ & H). assert (zlen (catchup_encode l) <= i64_max).
  { unfold MAX_RECOVERY_PROTO_LEN, i64_max in *. lia. }
  split; [by apply write_proto_ok|done].
Qed.

Section completion.
Context (wA wB : BackedWriter) (seqA seqB : Z) (lA lB : list (list byte)) (exA exB : RecoveryExchange).
Context (HexA : reset_salt exA = None) (HexB : reset_salt exB = None).
Context (HsA : 0 <= seqA <= i32_max) (HsB : 0 <= seqB <= i32_max).
Context (HrA : recover wA seqB = Ok lA) (HlA : catchup_admitted lA) (HlB : catchup_admitted lB).

Lemma fits_A : header_fits seqA exA.
Proof. unfold header_fits, salt_size, local_header, local_sequence. cbn. by rewrite HexA. Qed.

Lemma fits_B : header_fits seqB exB.
Proof. unfold header_fits, salt_size, local_header, local_sequence. cbn. by rewrite HexB. Qed.

Let hA := own_header seqA exA.
Let hB := own_header seqB exB.

(** This end on any part of the other's two messages. *)
Lemma end_outcome rest :
  outcome (exchange_recovery wA seqA exA) (framed hB ++ rest) =
    let (out, r) := outcome (swap_catchups (read_peer_catchup_first exA) lA (fun encoded =>
      Done (decode_peer_catchup encoded))) rest in (framed hA ++ out, r).
Proof.
  unfold hB. rewrite exchange_outcome by (apply fits_A || apply fits_B).
  unfold after_headers, local_header, local_sequence. rewrite HexA, HexB. cbn [h_reset h_reset_salt sequence_number].
  rewrite (proj2 (Z.leb_le _ _)) by lia. by rewrite HrA.
Qed.

Lemma swap_whole :
  outcome (swap_catchups (read_peer_catchup_first exA) lA (fun encoded => Done (decode_peer_catchup encoded)))
    (framed (catchup_encode lB)) = (framed (catchup_encode lA), Some (Ok lB)).
Proof.
  destruct (admitted_written _ HlA) as [EA _], (admitted_written _ HlB) as [_ ZB].
  pose proof HlB as (_ & _ & HzB). rewrite <-(app_nil_r (framed (catchup_encode lB))).
  unfold swap_catchups, write_msg, read_msg. rewrite EA.
  destruct (read_peer_catchup_first exA); cbn [outcome]; rewrite split_frame_framed by done;
    cbn [outcome]; by rewrite admitted_decodes, app_nil_r.
Qed.

Lemma swap_part j :
  j `prefix_of` framed (catchup_encode lB) -> j <> framed (catchup_encode lB) ->
  outcome (swap_catchups (read_peer_catchup_first exA) lA (fun encoded => Done (decode_peer_catchup encoded))) j =
    (if read_peer_catchup_first exA then [] else framed (catchup_encode lA), None).
Proof.
  intros H1 H2. destruct (admitted_written _ HlA) as [EA _], (admitted_written _ HlB) as [_ ZB].
  pose proof HlB as (_ & _ & HzB). unfold swap_catchups, write_msg, read_msg. rewrite EA.
  destruct (read_peer_catchup_first exA); cbn [outcome]; rewrite (split_frame_strict _ (catchup_encode lB)) by done;
    by rewrite ?app_nil_r.
Qed.

Lemma end_part i :
  i `prefix_of` framed hB -> i <> framed hB ->
  outcome (exchange_recovery wA seqA exA) i = (framed hA, None).
Proof.
  intros H1 H2. pose proof (own_header_size _ _ fits_B). rewrite exchange_unfold by apply fits_A.
  unfold read_msg. cbn [outcome]. rewrite (split_frame_strict _ hB); [by rewrite app_nil_r|done| |done|done].
  unfold hB, MAX_HANDSHAKE_PROTO_LEN, i64_max in *. lia.
Qed.

Lemma end_cut i :
  i `prefix_of` framed hB ++ framed (catchup_encode lB) -> i <> framed hB ++ framed (catchup_encode lB) ->
  snd (outcome (exchange_recovery wA seqA exA) i) = None /\
  (read_peer_catchup_first exA = true -> fst (outcome (exchange_recovery wA seqA exA) i) = framed hA).
Proof.
  intros H1 H2. destruct (two_frames_cut _ _ _ H1 H2) as [[H3 H4]|(j & -> & H3 & H4)].
  - by rewrite end_part.
  - rewrite end_outcome, swap_part by done. split; [done|]. cbn [fst]. intros ->. by rewrite app_nil_r.
Qed.
End completion.

Lemma exchange_agrees wA seqA wB seqB lA lB cap :
  0 <= seqA <= i32_max -> 0 <= seqB <= i32_max ->
  recover wA seqB = Ok lA -> recover wB seqA = Ok lB -> catchup_admitted lA -> catchup_admitted lB ->
  zlen (framed (own_header seqB (exchange_client None))) <= cap ->
  agree (exchange_recovery wA seqA exchange_default) (exchange_recovery wB seqB (exchange_client None))
    (framed (own_header seqA exchange_default) ++ framed (catchup_encode lA))
    (framed (own_header seqB (exchange_client None)) ++ framed (catchup_encode lB)) (Ok lB) (Ok lA) 3 cap.
Proof.
  intros HsA HsB HrA HrB HlA HlB Hcap.
  set (server := exchange_default). set (client := exchange_client None).
  assert (reset_salt server = None) as Rs by done. assert (reset_salt client = None) as Rc by done.
  pose proof (end_outcome wA seqA seqB lA server client Rs Rc HsA HsB HrA) as EA.
  pose proof (end_outcome wB seqB seqA lB client server Rc Rs HsB HsA HrB) as EB.
  pose proof (end_cut wA seqA seqB lA lB server client Rs Rc HsA HsB HrA HlA HlB) as CA.
  pose proof (end_cut wB seqB seqA lB lA client server Rc Rs HsB HsA HrB HlB HlA) as CB.
  assert (forall m, framed m <> []) as Hne.
  { intros m E. apply (f_equal zlen) in E. rewrite zlen_framed in E. len_lia. }
  assert (outcome (exchange_recovery wA seqA server) (framed (own_header seqB client) ++ framed (catchup_encode lB)) =
    (framed (own_header seqA server) ++ framed (catchup_encode lA), Some (Ok lB))) as WA.
  { rewrite EA. by rewrite swap_whole. }
  assert (outcome (exchange_recovery wB seqB client) (framed (own_header seqA server) ++ framed (catchup_encode lA)) =
    (framed (own_header seqB client) ++ framed (catchup_encode lB), Some (Ok lA))) as WB.
  { rewrite EB. by rewrite swap_whole. }
  assert (fst (outcome (exchange_recovery wA seqA server) (framed (own_header seqB client))) =
    framed (own_header seqA server) ++ framed (catchup_encode lA)) as PA.
  { rewrite <-(app_nil_r (framed (own_header seqB client))), EA.
    by rewrite (swap_part lA lB server) by (done || apply prefix_nil || by apply not_eq_sym). }
  assert (fst (outcome (exchange_recovery wB seqB client) (framed (own_header seqA server))) =
    framed (own_header seqB client)) as PB.
  { rewrite <-(app_nil_r (framed (own_header seqA server))), EB.
    rewrite (swap_part lB lA client) by (done || apply prefix_nil || by apply not_eq_sym).
    cbn [fst]. by rewrite app_nil_r. }
  split; [done|done| |by apply CA|by apply CB| |intros i H1 H2; by rewrite (proj2 (CB i H1 H2) eq_refl)].
  - cbn [answers].
    rewrite (end_part wA seqA seqB server client Rs Rc HsA HsB []), (end_part wB seqB seqA client server Rc Rs HsB HsA [])
      by (apply prefix_nil || by apply not_eq_sym). cbn [fst]. by rewrite PB, PA, WB.
  - rewrite zlen_framed in Hcap. len_lia.
Qed.

(** ** The length of a run *)

Lemma messages_read_msg {A} limit (k : list byte -> prog ConnError A) n input :
  (forall body rest, (messages (k body) rest <= n)%nat) ->
  (messages (read_msg limit k) input <= S n)%nat.
Proof.
  intros Hk. unfold read_msg. cbn [messages]. destruct (split_frame _ _) as [[[body|e] rest]|]; [|cbn; lia..].
  pose proof (Hk body rest). lia.
Qed.

Lemma messages_write_msg {A} limit m (k : prog ConnError A) n input :
  (messages k input <= n)%nat -> (messages (write_msg limit m k) input <= S n)%nat.
Proof. intros Hk. unfold write_msg. destruct (write_proto_limited limit m); cbn [messages]; lia. Qed.

Lemma messages_swap_catchups {A} read_first own (f : list byte -> result ConnError A) input :
  (messages (swap_catchups read_first own (fun encoded => Done (f encoded))) input <= 2)%nat.
Proof.
  unfold swap_catchups. destruct read_first.
  - apply messages_read_msg. intros body rest. by apply messages_write_msg.
  - apply messages_write_msg, messages_read_msg. done.
Qed.

Lemma messages_after_headers w ex remote input :
  (messages (after_headers w ex remote) input <= 2)%nat.
Proof.
  unfold after_headers. destruct (reset_salt ex).
  - destruct (_ || _); [cbn; lia|]. apply messages_swap_catchups.
  - destruct (_ || _); [cbn; lia|]. destruct (sequence_number remote) as [s|]; [|cbn; lia].
    destruct (0 <=? s); [|cbn; lia]. destruct (recover w s); [|cbn; lia]. apply messages_swap_catchups.
Qed.

(** An end writes and reads at most four messages. *)
Lemma messages_exchange w seq ex input : (messages (exchange_recovery w seq ex) input <= 4)%nat.
Proof.
  unfold exchange_recovery. destruct (negb _); [cbn; lia|].
  apply messages_write_msg, messages_read_msg. intros body rest.
  destruct (header_decode body); [apply messages_after_headers|cbn; lia].
Qed.

(** C4: A recovery without a reset whose two sequences fit the header's [int32]
    field, whose two writers can still replay what the other end lacks, and
    whose two catchups are within the limits of the receiving end. The server
    writes its catchup first, the client reads first. Once the client's header
    fits the socket buffer, no run of the two, however little the sockets take
    at a time and whatever the sizes of the catchups within the limits, stops
    before both ends have the other's catchup, and no run has more steps than
    eight plus twice the bytes of the two headers and the two catchups. *)
Theorem recovery_never_deadlocks wA seqA wB seqB lA lB cap n c :
  0 <= seqA <= i32_max -> 0 <= seqB <= i32_max ->
  recover wA seqB = Ok lA -> recover wB seqA = Ok lB -> catchup_admitted lA -> catchup_admitted lB ->
  zlen (framed (own_header seqB (exchange_client None))) <= cap ->
  let server := exchange_recovery wA seqA exchange_default in
  let client := exchange_recovery wB seqB (exchange_client None) in
  net_reachable false cap server client n c ->
  (pa c = Done (Ok lB) /\ pb c = Done (Ok lA) \/ exists c', nstep false cap c c') /\
  Z.of_nat n <= 8 + 2 *
    (zlen (framed (own_header seqA exchange_default)) + zlen (framed (catchup_encode lA)) +
     zlen (framed (own_header seqB (exchange_client None))) + zlen (framed (catchup_encode lB))).
Proof.
  intros HsA HsB HrA HrB HlA HlB Hcap server client Hreach.
  pose proof (exchange_agrees _ _ _ _ _ _ _ HsA HsB HrA HrB HlA HlB Hcap) as Hagree.
  split; [by eapply never_stuck|].
  pose proof (runs_end _ _ _ _ _ _ _ _ Hagree _ _ Hreach) as Hn. rewrite !zlen_app in Hn.
  pose proof (messages_exchange wA seqA exchange_default
    (framed (own_header seqB (exchange_client None)) ++ framed (catchup_encode lB))).
  pose proof (messages_exchange wB seqB (exchange_client None)
    (framed (own_header seqA exchange_default) ++ framed (catchup_encode lA))).
  lia.
Qed.
End exchange.

(** ** Catchups of a real writer *)

Lemma catchup_entry_size e : 18 <= zlen e -> 9 * zlen (catchup_entry e) <= 10 * zlen e.
Proof.
  intros H. unfold catchup_entry. rewrite zlen_cons, zlen_app. pose proof (encode_varint_zlen (zlen e)) as Hv.
  destruct (Z.lt_ge_cases (zlen e) 128); [|lia].
  assert (zlen (encode_varint (zlen e)) = 1); [|lia].
  unfold encode_varint. cbn [encode_varint_go]. by rewrite (proj2 (Z.leb_gt _ _)) by lia.
Qed.

Lemma catchup_entries_size l :
  Forall (fun e => 18 <= zlen e) l ->
  9 * zlen (concat (map catchup_entry l)) <= 10 * foldr Z.add 0 (map zlen l).
Proof.
  induction 1 as [|e l He _ IH]; [done|]. cbn [map concat foldr].
  pose proof (catchup_entry_size e He). rewrite zlen_app. lia.
Qed.

Lemma wire_sum_bodies l : Forall (fun f => 4 <= zlen f) l ->
  foldr Z.add 0 (map zlen (map (zdrop 4) l)) = wire_sum l.
Proof.
  induction 1 as [|f l Hf _ IH]; [done|]. cbn [map foldr]. rewrite IH.
  unfold wire_sum. cbn [fold_right]. unfold wire. rewrite zlen_zdrop. lia.
Qed.

(** The frames [recover] hands out. *)
Lemma recover_sizes w hist last l :
  repr w hist -> backup_size w <= MAX_RECOVERY_BACKUP_BYTES -> recover w last = Ok l ->
  Forall (fun e => 18 <= zlen e) l /\ foldr Z.add 0 (map zlen l) <= MAX_RECOVERY_BACKUP_BYTES.
Proof.
  intros Hr Hb. rewrite (recover_repr _ _ _ Hr).
  destruct (Z.ltb_spec (zlen hist) last); [done|].
  destruct (Z.ltb_spec (zlen (backup w)) (zlen hist - last)); [done|]. intros; simplify_eq.
  destruct Hr as [_ [old Hold] Hsize Hwire].
  assert (Forall (fun f => 2 + MAC_LEN <= wire f) (zdrop last hist)) as Hw.
  { rewrite <-(ztake_zdrop last hist) in Hwire. by apply Forall_app in Hwire as [_ ?]. }
  split.
  - apply Forall_map. eapply Forall_impl; [exact Hw|]. unfold wire, MAC_LEN. intros f Hf. cbn in Hf |- *.
    rewrite zlen_zdrop. lia.
  - rewrite wire_sum_bodies.
    + rewrite Hold, zdrop_app_ge by (rewrite Hold in *; len_lia).
      set (k := last - zlen old). transitivity (wire_sum (rev (backup w))); [|by rewrite wire_sum_rev, <-Hsize].
      rewrite <-(ztake_zdrop k (rev (backup w))) at 2. rewrite wire_sum_app.
      assert (0 <= wire_sum (ztake k (rev (backup w)))); [|lia].
      rewrite Hold in Hwire. apply Forall_app in Hwire as [_ Hwire].
      rewrite <-(ztake_zdrop k (rev (backup w))) in Hwire. apply Forall_app in Hwire as [Hwire _].
      apply wire_sum_nonneg. eapply Forall_impl; [exact Hwire|]. unfold MAC_LEN. cbn. lia.
    + eapply Forall_impl; [exact Hw|]. unfold wire, MAC_LEN. cbn. lia.
Qed.

(** The catchup of a writer within its byte limit fits the message limit. *)
Lemma repr_catchup_admitted {codec : RecoveryCodec} {laws : RecoveryCodecLaws codec} w hist last l :
  repr w hist -> backup_size w <= MAX_RECOVERY_BACKUP_BYTES -> recover w last = Ok l ->
  zlen (catchup_encode l) <= MAX_RECOVERY_PROTO_LEN /\
  (zlen l <= MAX_BACKUP_PACKETS + MAX_DISCONNECT_PACKETS -> catchup_admitted l).
Proof.
  intros Hr Hb Hrec. destruct (recover_sizes _ _ _ _ Hr Hb Hrec) as [H1 H2].
  pose proof (catchup_entries_size l H1) as Hz. rewrite <-catchup_layout in Hz.
  assert (zlen (catchup_encode l) <= MAX_RECOVERY_PROTO_LEN) as Hfit.
  { unfold MAX_RECOVERY_BACKUP_BYTES, MAX_RECOVERY_PROTO_LEN in *. lia. }
  split; [done|]. intros Hn. split_and!; [|done|done].
  clear -H1 H2. induction H1 as [|e l He Hl IH]; [constructor|]. cbn [map foldr] in H2.
  assert (0 <= foldr Z.add 0 (map zlen l)) as Hp.
  { clear. induction l as [|a l IHl]; cbn [map foldr]; [lia|]. pose proof (zlen_nonneg a). lia. }
  constructor; [unfold MAX_RECOVERY_BACKUP_BYTES in *; lia|]. apply IH. lia.
Qed.

(** The two limits agree as the code asserts at compile time: whatever its
    history, the catchup of a writer fits the recovery message limit with its
    protobuf framing, and the peer accepts it unless it has more than
    [MAX_BACKUP_PACKETS + MAX_DISCONNECT_PACKETS] entries. *)
Theorem writer_catchup_admitted {codec : RecoveryCodec} {laws : RecoveryCodecLaws codec}
    {sodium : Sodium} {slaws : SodiumLaws sodium} c conn ops last l :
  recover (g_writer (BackedWriter.wrun ops (wstart c conn))) last = Ok l ->
  zlen (catchup_encode l) <= MAX_RECOVERY_PROTO_LEN /\
  (zlen l <= MAX_BACKUP_PACKETS + MAX_DISCONNECT_PACKETS -> catchup_admitted l).
Proof.
  intros Hrec. pose proof (wrun_inv ops _ (wstart_inv c conn)) as Hinv. unfold ginv in Hinv.
  eapply repr_catchup_admitted; [apply Hinv|apply Hinv|done].
Qed.

(** ** The codec on the wire

    The encoding that the protobuf documentation gives for the two messages of
    [ET.proto], an instance of the laws. *)

Definition wire_bytes (tag : Z) (bytes : list byte) : list byte :=
  z2b tag :: encode_varint (zlen bytes) ++ bytes.

Definition wire_header (h : SequenceHeader) : list byte :=
  match sequence_number h with Some n => z2b 0x08 :: encode_varint n | None => [] end ++
  match h_reset h with Some b => [z2b 0x10; if b then x01 else x00] | None => [] end ++
  match h_reset_salt h with Some salt => wire_bytes 0x1a salt | None => [] end.

(** A length-delimited field and what follows it. *)
Definition read_bytes (bytes : list byte) : option (list byte * list byte) :=
  match decode_varint bytes with
  | Some (n, used) =>
      let rest := zdrop used bytes in
      if zlen rest <? n then None else Some (ztake n rest, zdrop n rest)
  | None => None
  end.

Definition unwire_salt (sequence : option Z) (reset : option bool) (bytes : list byte) : option SequenceHeader :=
  match bytes with
  | [] => Some (mkHeader sequence reset None)
  | tag :: rest =>
      if negb (b2z tag =? 0x1a) then None
      else match read_bytes rest with
           | Some (salt, []) => Some (mkHeader sequence reset (Some salt))
           | _ => None
           end
  end.

Definition unwire_reset (sequence : option Z) (bytes : list byte) : option SequenceHeader :=
  match bytes with
  | tag :: value :: rest =>
      if b2z tag =? 0x10 then unwire_salt sequence (Some (negb (b2z value =? 0))) rest
      else unwire_salt sequence None bytes
  | _ => unwire_salt sequence None bytes
  end.

Definition unwire_header (bytes : list byte) : option SequenceHeader :=
  match bytes with
  | tag :: rest =>
      if b2z tag =? 0x08
      then match decode_varint rest with
           | Some (n, used) => unwire_reset (Some n) (zdrop used rest)
           | None => None
           end
      else unwire_reset None bytes
  | [] => unwire_reset None []
  end.

Fixpoint unwire_entries (fuel : nat) (bytes : list byte) : option (list (list byte)) :=
  match bytes, fuel with
  | [], _ => Some []
  | tag :: rest, S fuel =>
      if negb (b2z tag =? 0x0a) then None
      else match read_bytes rest with
           | Some (entry, rest) =>
               match unwire_entries fuel rest with Some l => Some (entry :: l) | None => None end
           | None => None
           end
  | _, O => None
  end.

#[export] Instance wire_codec : RecoveryCodec := {
  header_encode := wire_header;
  header_decode := unwire_header;
  catchup_encode l := concat (map catchup_entry l);
  catchup_decode bytes := unwire_entries (length bytes) bytes
}.

Lemma read_bytes_app bytes rest :
  zlen bytes <= i64_max -> read_bytes (encode_varint (zlen bytes) ++ bytes ++ rest) = Some (bytes, rest).
Proof.
  intros H. unfold read_bytes. rewrite decode_varint_app by (unfold i64_max in H; len_lia). cbv zeta.
  rewrite zdrop_app_exact. destruct (Z.ltb_spec (zlen (bytes ++ rest)) (zlen bytes)) as [H1|H1].
  - rewrite zlen_app in H1. pose proof (zlen_nonneg rest). lia.
  - by rewrite ztake_app_exact, zdrop_app_exact.
Qed.

Lemma unwire_salt_roundtrip n b salt :
  match salt with Some l => zlen l <= i64_max | None => True end ->
  unwire_salt n b (match salt with Some l => wire_bytes 0x1a l | None => [] end) = Some (mkHeader n b salt).
Proof.
  destruct salt as [l|]; [|done]. intros H. unfold unwire_salt, wire_bytes.
  change (b2z (z2b 0x1a) =? 0x1a) with true. cbn [negb]. rewrite <-(app_nil_r l) at 2. by rewrite read_bytes_app.
Qed.

Lemma unwire_reset_roundtrip n (b : option bool) salt :
  match salt with Some l => zlen l <= i64_max | None => True end ->
  unwire_reset n (match b with Some b => [z2b 0x10; if b then x01 else x00] | None => [] end ++
    match salt with Some l => wire_bytes 0x1a l | None => [] end) = Some (mkHeader n b salt).
Proof.
  intros H. destruct b as [b|]; cbn [app].
  - unfold unwire_reset. change (b2z (z2b 0x10) =? 0x10) with true. cbv iota.
    rewrite unwire_salt_roundtrip by done. by destruct b.
  - rewrite <-(unwire_salt_roundtrip n None salt) by done. destruct salt as [l|]; [|done].
    unfold wire_bytes. cbn [unwire_reset]. by destruct (encode_varint (zlen l) ++ l).
Qed.

Lemma unwire_entries_roundtrip l fuel :
  zlen (concat (map catchup_entry l)) <= i64_max -> (length l <= fuel)%nat ->
  unwire_entries fuel (concat (map catchup_entry l)) = Some l.
Proof.
  revert fuel. induction l as [|e l IH]; intros fuel Hz Hf; [by destruct fuel|].
  destruct fuel as [|fuel]; [cbn in Hf; lia|]. cbn [map concat] in *. unfold catchup_entry at 1.
  cbn [app unwire_entries]. change (b2z (z2b 0x0a) =? 0x0a) with true. cbn [negb]. rewrite <-app_assoc.
  unfold catchup_entry at 1 in Hz. rewrite zlen_app, zlen_cons, zlen_app in Hz.
  pose proof (zlen_nonneg (encode_varint (zlen e))). pose proof (zlen_nonneg e).
  pose proof (zlen_nonneg (concat (map catchup_entry l))).
  rewrite read_bytes_app by lia. rewrite IH; [done|lia|cbn in Hf; lia].
Qed.

#[export] Instance wire_codec_laws : RecoveryCodecLaws wire_codec.
Proof.
  split.
  - intros [n b salt] Hn Hs. cbn [header_decode header_encode wire_codec sequence_number] in *.
    unfold wire_header. cbn [sequence_number h_reset h_reset_salt].
    assert (match salt with Some l => zlen l <= i64_max | None => True end) as Hsalt by (by destruct salt).
    destruct n as [n|].
    + specialize (Hn n eq_refl). cbn [app unwire_header]. change (b2z (z2b 0x08) =? 0x08) with true. cbv iota.
      rewrite decode_varint_app by (unfold i32_max in Hn; lia). rewrite zdrop_app_exact.
      by apply unwire_reset_roundtrip.
    + rewrite <-(unwire_reset_roundtrip None b salt) by done. cbn [app].
      by destruct b as [b|], salt as [l|].
  - intros [n b salt]. cbn [header_encode wire_codec]. unfold wire_header, salt_size. cbn [sequence_number h_reset h_reset_salt].
    assert (forall v, zlen (encode_varint v) <= 10) as Hv by (intros v; apply encode_varint_zlen).
    rewrite !zlen_app.
    assert (zlen (match n with Some n => z2b 0x08 :: encode_varint n | None => [] end) <= 11).
    { destruct n as [n|]; [|len_lia]. rewrite zlen_cons. specialize (Hv n). lia. }
    assert (zlen (match b with Some v => [z2b 0x10; if (v : bool) then x01 else x00] | None => [] end) <= 2) by (by destruct b).
    destruct salt as [l|]; [|len_lia]. unfold wire_bytes. rewrite zlen_cons, zlen_app. specialize (Hv (zlen l)). lia.
  - done.
  - intros l Hz. cbn [catchup_encode catchup_decode wire_codec] in *. apply unwire_entries_roundtrip; [done|].
    clear. induction l as [|e l IH]; [done|]. cbn [map concat]. unfold catchup_entry at 1. rewrite length_app. cbn. lia.
Qed.

(** ** Witnesses *)

(** A writer that sent one packet, the peer's that sent none; the peer read
    nothing. *)
Definition demo_writer : BackedWriter :=
  g_writer (BackedWriter.wrun (sodium := toy_sodium) [OpWrite x01 [x61]] (wstart demo_crypto true)).
Definition demo_peer : BackedWriter :=
  g_writer (BackedWriter.wrun (sodium := toy_sodium) [] (wstart demo_crypto true)).
Definition demo_catchup : list (list byte) :=
  match recover demo_writer 0 with Ok l => l | Err _ => [] end.
Definition demo_run : nat * net ConnError (list (list byte)) (list (list byte)) :=
  schedule 60 32 (net_start (exchange_recovery demo_peer 0 (exchange_client None))
    (exchange_recovery demo_writer 0 exchange_default)) 0.

Lemma exchange_sound_witness : recover demo_writer 0 = Ok demo_catchup.
Proof.
  pose proof (exchange_sound false 32 demo_peer 0 (exchange_client None) demo_writer 0 exchange_default
    (fst demo_run) (snd demo_run) demo_catchup) as H.
  destruct H as [_ H]; [lia|lia|by intros ? [=]|by intros ? [=]| |vm_compute; reflexivity|exact H].
  unfold demo_run. apply (schedule_reachable 60 32).
Defined.

Lemma demo_catchup_admitted : catchup_admitted demo_catchup.
Proof.
  unfold catchup_admitted. split_and!; [|vm_compute; discriminate..].
  assert (forallb (fun e : list byte => (0 <? zlen e) && (zlen e <? 2 ^ 63)) demo_catchup = true) as H
    by (vm_compute; reflexivity).
  rewrite Forall_forall. intros e He%list_elem_of_In. rewrite forallb_forall in H. specialize (H e He).
  cbv beta in H. lia.
Qed.

Lemma recovery_never_deadlocks_witness :
  pa (snd (schedule 60 16 (net_start (exchange_recovery demo_writer 0 exchange_default)
    (exchange_recovery demo_peer 0 (exchange_client None))) 0)) = Done (Ok []).
Proof.
  set (s := schedule 60 16 _ 0).
  destruct (recovery_never_deadlocks demo_writer 0 demo_peer 0 demo_catchup [] 16 (fst s) (snd s))
    as [[[H _]|[c' Hs]] _]; [unfold i32_max; lia|unfold i32_max; lia|vm_compute; reflexivity|vm_compute; reflexivity|
    apply demo_catchup_admitted|split_and!; [constructor|vm_compute; discriminate..]|vm_compute; discriminate|
    apply (schedule_reachable 60 16)|exact H|vm_compute; reflexivity].
Defined.

Lemma writer_catchup_admitted_witness :
  zlen (catchup_encode demo_catchup) <= MAX_RECOVERY_PROTO_LEN.
Proof.
  refine (proj1 (writer_catchup_admitted (slaws := toy_laws) demo_crypto true [OpWrite x01 [x61]] 0 demo_catchup _)).
  vm_compute. reflexivity.
Defined.
