(* ===== verification/System.v ===== *)
(** * System: a client and a server connection over failing transports

    Two [Connection]s of one session, the bytes on the way between them, and
    every interleaving of their operations with every behaviour of the sockets:
    partial sends and receives, failures at any byte, recoveries that both
    ends, one or none complete, resets that both complete. Each direction is
    a run of [Link]; the theorems of [Link] therefore hold of the connections
    as the code drives them. *)

From stdpp Require Import relations.
From S2P Require Import Prelude Framing FramingIo Exchange Crypto Packet BackedReader BackedWriter.
From S2P Require Import Keepalive OutputWindow Link Connection Recovery.

Section sending.
Context {sodium : Sodium}.

(** ** The sending half

    What a direction sees of its sender: the writer, whether the socket was
    shut down, and the bytes of a frame not yet handed to the kernel. *)

Record view := mkView {
  v_writer : BackedWriter;
  v_shut : bool;
  v_rest : list byte
}.

Definition unsent (p : PendingWrite) : list byte := zdrop (p_offset p) (p_frame p).

Definition rest (c : Connection) : list byte :=
  match pending_live c with Some p => unsent p | None => [] end.

Definition view_of (c : Connection) : view := mkView (writer c) (shut (stream c)) (rest c).

(** The link of a sender: [up] says that both ends hold the same transport,
    [on_way] are the bytes in the kernels. *)
Definition carries (up : bool) (on_way : list byte) (v : view) (s : link) : Prop :=
  let live := up && negb (v_shut v) in
  l_writer s = v_writer v /\ l_open s = live /\
  l_wire s = on_way ++ (if live then v_rest v else []).

(** From [v] to [v'] the link admits [msgs] and [x] enters the kernel; [seen]
    is a sequence the peer's reader has reached. *)
Definition sends (seen : Z) (v v' : view) (msgs : list message) (x : list byte) : Prop :=
  forall up on_way s, carries up on_way v s -> seen <= BackedReader.sequence (l_reader s) ->
  exists s', rtc lstep s s' /\ carries up (if up then on_way ++ x else on_way) v' s' /\
    l_reader s' = l_reader s /\ l_sent s' = l_sent s ++ msgs /\ l_delivered s' = l_delivered s.

Lemma sends_refl seen v : sends seen v v [] [].
Proof.
  intros up on_way s H _. exists s. rewrite !app_nil_r.
  split; [apply rtc_refl|]. split; [by destruct up|done].
Qed.

Lemma sends_trans seen v1 v2 v3 m1 m2 x1 x2 :
  sends seen v1 v2 m1 x1 -> sends seen v2 v3 m2 x2 -> sends seen v1 v3 (m1 ++ m2) (x1 ++ x2).
Proof.
  intros H1 H2 up on_way s Hs Hq. destruct (H1 _ _ _ Hs Hq) as (s1 & R1 & C1 & E1 & E2 & E3).
  destruct (H2 _ _ _ C1) as (s2 & R2 & C2 & F1 & F2 & F3); [by rewrite E1|].
  exists s2. split; [by etrans|]. split; [by destruct up; rewrite ?app_assoc|].
  split_and!; [congruence|by rewrite F2, E2, app_assoc|congruence].
Qed.

(** A step without effect on the other fields. *)
Lemma sends_step seen v v' :
  (forall up on_way s, carries up on_way v s -> seen <= BackedReader.sequence (l_reader s) ->
   exists s', rtc lstep s s' /\ carries up on_way v' s' /\
     l_reader s' = l_reader s /\ l_sent s' = l_sent s /\ l_delivered s' = l_delivered s) ->
  sends seen v v' [] [].
Proof.
  intros H up on_way s Hs Hq. destruct (H _ _ _ Hs Hq) as (s' & R & C & E1 & E2 & E3).
  exists s'. rewrite !app_nil_r. split; [done|]. split; [by destruct up|done].
Qed.

Lemma sends_write seen w sh m w' outcome :
  sendable m -> write_packet w (fst m) (snd m) = (w', outcome) ->
  sends seen (mkView w sh [])
    (mkView w' sh (match outcome with Send frame => frame | _ => [] end))
    (match outcome with Skipped => [] | _ => [m] end) [].
Proof.
  intros Hm Hw up on_way s (E1 & E2 & E3) _. cbn [v_writer v_shut v_rest] in *.
  exists (after_write s w' outcome m). split; [apply rtc_once, step_write; by rewrite ?E1|].
  rewrite app_nil_r. replace (if up then on_way else on_way) with on_way by (by destruct up).
  replace (if up && negb sh then [] else []) with (@nil byte) in E3 by (by destruct (up && negb sh)).
  rewrite app_nil_r in E3. unfold carries. cbn [v_writer v_shut v_rest].
  destruct outcome as [| |frame]; cbn [after_write l_writer l_open l_wire l_reader l_sent l_delivered];
    rewrite E2, E3; destruct (up && negb sh); rewrite ?app_nil_r; by split_and!.
Qed.

Lemma sends_transmit seen w x r : sends seen (mkView w false (x ++ r)) (mkView w false r) [] x.
Proof.
  intros up on_way s (E1 & E2 & E3) _. exists s. split; [apply rtc_refl|]. rewrite app_nil_r.
  split; [|done]. unfold carries. cbn [v_writer v_shut v_rest] in *. rewrite E1, E2, E3.
  destruct up; cbn [andb negb]; by rewrite <-?app_assoc.
Qed.

(** The frame is abandoned and the socket shut down. *)
Lemma sends_drop seen w sh r : sends seen (mkView w sh r) (mkView w true []) [] [].
Proof.
  apply sends_step. intros up on_way s (E1 & E2 & E3) _. cbn [v_writer v_shut v_rest] in *.
  destruct (up && negb sh) eqn:L.
  - exists (with_wire s (ztake (zlen on_way) (l_wire s)) false). split; [apply rtc_once, step_break|].
    split; [|done]. unfold carries. cbn [v_writer v_shut v_rest with_wire l_writer l_open l_wire].
    rewrite E3, ztake_app_exact, andb_false_r. by rewrite app_nil_r.
  - exists s. split; [apply rtc_refl|]. split; [|done]. unfold carries. cbn [v_writer v_shut v_rest].
    rewrite andb_false_r. by rewrite E1, E2, E3.
Qed.

Lemma sends_down seen w sh r : sends seen (mkView w sh r) (mkView (invalidate w) sh r) [] [].
Proof.
  apply sends_step. intros up on_way s (E1 & E2 & E3) _. cbn [v_writer v_shut v_rest] in *.
  exists (with_writer s (invalidate (l_writer s))). split; [apply rtc_once, step_writer_down|].
  split; [|done]. unfold carries. cbn. by rewrite E1, E2, E3.
Qed.

Lemma sends_acknowledge seen w sh r :
  0 <= seen -> sends seen (mkView w sh r) (mkView (acknowledge w seen) sh r) [] [].
Proof.
  intros H. apply sends_step. intros up on_way s (E1 & E2 & E3) Hq. cbn [v_writer v_shut v_rest] in *.
  exists (with_writer s (acknowledge (l_writer s) seen)). split; [apply rtc_once, step_acknowledge; lia|].
  split; [|done]. unfold carries. cbn. by rewrite E1, E2, E3.
Qed.

(** *** Sending a frame *)

(** What a socket promises of [send]: it takes some of the bytes offered. *)
Definition send_ok (p : PendingWrite) (send : result io_kind Z) : Prop :=
  match send with Ok count => 0 <= count <= zlen (offered p) | Err _ => True end.

Definition within (p : PendingWrite) : Prop := 0 <= p_offset p <= zlen (p_frame p).

Lemma unsent_nil p : within p -> unsent p = [] <-> p_offset p = zlen (p_frame p).
Proof.
  unfold within, unsent. intros H. split.
  - intros E. apply (f_equal zlen) in E. autorewrite with zlen in E. lia.
  - intros E. by rewrite zdrop_all by lia.
Qed.

Lemma offered_unsent p count :
  within p -> 0 <= count <= zlen (offered p) ->
  unsent p = ztake count (offered p) ++ zdrop (p_offset p + count) (p_frame p) /\
  p_offset p + count <= zlen (p_frame p).
Proof.
  unfold within, unsent, offered. intros Hw Hc.
  assert (p_offset p <= Z.min (zlen (p_frame p)) (p_offset p + WRITE_QUANTUM)) by (unfold WRITE_QUANTUM; lia).
  rewrite zlen_slice in Hc by lia. split; [|lia].
  unfold slice. rewrite ztake_ztake, Z.min_l by lia.
  rewrite <-zdrop_zdrop by lia. by rewrite ztake_zdrop.
Qed.

Lemma advance_sends seen w s p now send s' p' r :
  send_ok p send -> within p -> shut s = false -> advance s p now send = (s', p', r) ->
  exists x, tx s' = tx s ++ x /\ shut s' = false /\ within p' /\
    sends seen (mkView w false (unsent p)) (mkView w false (unsent p')) [] x /\
    (r = Ok true -> unsent p' = []).
Proof.
  intros Hok Hw Hs. unfold advance. assert (forall r0 : result io_kind bool, r0 <> Ok true -> exists x, tx s = tx s ++ x /\ shut s = false /\
    within p /\ sends seen (mkView w false (unsent p)) (mkView w false (unsent p)) [] x /\
    (r0 = Ok true -> unsent p = [])) as Hsame.
  { intros r0 Hr0. exists []. rewrite app_nil_r. split_and!; try done. apply sends_refl. }
  destruct (p_deadline p <=? now); [intros; simplify_eq; by apply Hsame|].
  destruct send as [count|e]; [|destruct e; intros; simplify_eq; by apply Hsame].
  destruct (Z.eqb_spec count 0); [intros; simplify_eq; by apply Hsame|]. intros; simplify_eq.
  cbn [send_ok] in Hok. destruct (offered_unsent p count Hw Hok) as [Hu Hle].
  exists (ztake count (offered p)). cbn [transmit tx shut]. unfold unsent at 2 3. cbn [p_offset p_frame].
  split_and!; [done|done|unfold within in *; cbn; lia| |].
  - rewrite Hu. apply sends_transmit.
  - intros E. injection E as E%Z.eqb_eq. by rewrite zdrop_all by lia.
Qed.

Lemma drop_sends seen w s p :
  within p -> sends seen (mkView w (shut s) (unsent p)) (mkView w (shut (drop_pending s p)) []) [] [].
Proof.
  intros Hw. unfold drop_pending. destruct (Z.eqb_spec (p_offset p) (zlen (p_frame p))) as [E|E].
  - rewrite (proj2 (unsent_nil p Hw) E). apply sends_refl.
  - apply sends_drop.
Qed.

(** The answers of a socket to [finish], each within what is offered. *)
Fixpoint turns_ok (p : PendingWrite) (turns : list write_turn) : Prop :=
  match turns with
  | [] => True
  | t :: turns =>
      send_ok p (t_send t) /\
      turns_ok (mkPending (p_frame p)
        (match t_send t with Ok count => p_offset p + count | Err _ => p_offset p end)
        (p_deadline p) (p_heard p)) turns
  end.

Lemma advance_next s p now send s' p' r :
  advance s p now send = (s', p', Ok r) ->
  p' = mkPending (p_frame p) (match send with Ok count => p_offset p + count | Err _ => p_offset p end)
         (p_deadline p) (p_heard p).
Proof.
  unfold advance. destruct (p_deadline p <=? now); [done|].
  destruct send as [count|e]; [destruct (count =? 0); intros; by simplify_eq|].
  destruct e; intros; simplify_eq; by destruct p'.
Qed.

Lemma finish_sends seen w s p turns s' out :
  turns_ok p turns -> within p -> shut s = false -> finish s p turns = (s', Returned out) ->
  exists x, tx s' = tx s ++ x /\ (is_ok out = true -> shut s' = false) /\
    sends seen (mkView w false (unsent p)) (mkView w (shut s') []) [] x.
Proof.
  revert s p. induction turns as [|t turns IH]; intros s p Hok Hw Hs; cbn [finish]; [done|].
  destruct Hok as [Hsend Hok].
  destruct (advance s p (t_now t) (t_send t)) as [[s1 p1] r] eqn:E.
  destruct (advance_sends seen w _ _ _ _ _ _ _ Hsend Hw Hs E) as (x & Hx & Hs1 & Hw1 & Hsnd & Hdone).
  assert (forall s2 (o : result WritePacketError unit), (s2, o) = (drop_pending s1 p1, out) -> (is_ok o = true -> unsent p1 = []) ->
    exists x, tx s2 = tx s ++ x /\ (is_ok out = true -> shut s2 = false) /\
    sends seen (mkView w false (unsent p)) (mkView w (shut s2) []) [] x) as Hfin.
  { intros s2 o [= -> ->] Ho. exists (x ++ []). split_and!.
    - rewrite app_nil_r. unfold drop_pending. by destruct (_ =? _).
    - intros Hout. unfold drop_pending. specialize (Ho Hout). apply unsent_nil in Ho as ->; [|done]. by rewrite Z.eqb_refl.
    - apply (sends_trans seen _ (mkView w false (unsent p1)) _ [] [] x []); [exact Hsnd|].
      rewrite <-Hs1. by apply drop_sends. }
  destruct r as [[]|e].
  - intros; simplify_eq. eapply (Hfin _ (Ok tt)); [done|]. auto.
  - pose proof (advance_next _ _ _ _ _ _ _ E) as Hp1.
    assert (finish s1 p1 turns = (s', Returned out) ->
      exists x, tx s' = tx s ++ x /\ (is_ok out = true -> shut s' = false) /\
      sends seen (mkView w false (unsent p)) (mkView w (shut s') []) [] x) as Hgo.
    { intros Hf. rewrite <-Hp1 in Hok. destruct (IH s1 p1 Hok Hw1 Hs1 Hf) as (y & Hy & Hys & Hsnd').
      exists (x ++ y). split_and!; [by rewrite Hy, Hx, app_assoc|done|].
      by apply (sends_trans seen _ (mkView w false (unsent p1)) _ [] [] x y). }
    destruct (t_wait t) as [|e]; [exact Hgo|].
    destruct e; try (intros; simplify_eq; by eapply (Hfin _ (Err _))). exact Hgo.
  - intros; simplify_eq. by eapply (Hfin _ (Err _)).
Qed.

(** *** The operations *)

Record conn_ok (c : Connection) : Prop := {
  ok_pending p : pending_live c = Some p -> connected (writer c) = true /\ within p;
  ok_shut : shut (stream c) = true -> connected (writer c) = false
}.

(** A completed operation of one end, seen by the direction it sends on. *)
Definition moves (seen : Z) (c c' : Connection) (msgs : list message) : Prop :=
  conn_ok c' /\
  exists x, tx (stream c') = tx (stream c) ++ x /\ sends seen (view_of c) (view_of c') msgs x.

Lemma moves_refl seen c : conn_ok c -> moves seen c c [].
Proof. intros H. split; [done|]. exists []. split; [by rewrite app_nil_r|apply sends_refl]. Qed.

Lemma moves_trans seen c1 c2 c3 m1 m2 :
  moves seen c1 c2 m1 -> (conn_ok c2 -> moves seen c2 c3 m2) -> moves seen c1 c3 (m1 ++ m2).
Proof.
  intros [H1 (x & Hx & S1)] H2. destruct (H2 H1) as [H3 (y & Hy & S2)]. split; [done|].
  exists (x ++ y). split; [by rewrite Hy, Hx, app_assoc|by eapply sends_trans].
Qed.

(** An operation that leaves the sending half alone. *)
Lemma moves_same seen c c' :
  conn_ok c -> stream c' = stream c -> writer c' = writer c -> pending_live c' = pending_live c ->
  moves seen c c' [].
Proof.
  intros [H1 H2] Es Ew Ep. split; [split; rewrite ?Es, ?Ew, ?Ep; done|].
  exists []. split; [by rewrite Es, app_nil_r|].
  replace (view_of c') with (view_of c); [apply sends_refl|]. unfold view_of, rest. by rewrite Es, Ew, Ep.
Qed.

Lemma disconnect_moves seen c : conn_ok c -> moves seen c (disconnect c) [].
Proof.
  intros [H1 H2]. split; [split; done|]. exists []. split.
  - rewrite app_nil_r. unfold disconnect, drop_live, drop_pending. cbn [stream].
    destruct (pending_live c); [|done]. by destruct (_ =? _).
  - apply (sends_trans seen _ (mkView (writer c) (shut (stream (disconnect c))) []) _ [] [] [] []);
      [|unfold view_of, rest, disconnect; cbn [writer stream pending_live]; apply sends_down].
    unfold view_of, rest, disconnect, drop_live. cbn [stream].
    destruct (pending_live c) as [p|] eqn:E; [|apply sends_refl]. apply drop_sends. by apply (H1 p).
Qed.

Lemma writer_down_moves seen c :
  conn_ok c -> pending_live c = None -> moves seen c (set_writer c (invalidate (writer c))) [].
Proof.
  intros [H1 H2] Hp. split; [split; cbn; [by rewrite Hp|done]|]. exists [].
  split; [by rewrite app_nil_r|]. unfold view_of, rest. cbn. rewrite Hp. apply sends_down.
Qed.

Lemma refresh_moves seen c probe c' r :
  conn_ok c -> pending_live c = None -> refresh_connectivity c probe = (c', r) ->
  moves seen c c' [] /\ pending_live c' = None.
Proof.
  intros Hok Hp. unfold refresh_connectivity.
  destruct (negb (conn_connected c)); [intros; simplify_eq; split; [by apply moves_refl|done]|].
  destruct probe as [count|e].
  - destruct (count =? 0); intros; simplify_eq; split; try done; [by apply writer_down_moves|by apply moves_refl].
  - destruct e; intros; simplify_eq; split; try done;
      first [by apply moves_refl|by apply writer_down_moves|by apply disconnect_moves].
Qed.

(** The sender with a prepared frame in hand. *)
Definition prepared_view (c : Connection) (prepared : PreparedWrite) : view :=
  mkView (writer c) (shut (stream c)) (match prepared with Some (frame, _) => frame | None => [] end).

Context {laws : SodiumLaws sodium}.

Lemma note_output_same c outcome hdr n now :
  let c' := note_output c outcome hdr n now in
  stream c' = stream c /\ writer c' = writer c /\ reader c' = reader c /\
  pending_live c' = pending_live c /\ live_write_timeout c' = live_write_timeout c.
Proof. unfold note_output. by destruct (output_window c), outcome. Qed.

Lemma prepare_unprobed_sends seen c hdr body now c' r :
  conn_ok c -> pending_live c = None -> sendable (hdr, body) ->
  prepare_write_packet_unprobed c hdr body now = (c', r) ->
  conn_ok c' /\ pending_live c' = None /\ stream c' = stream c /\
  match r with
  | Ok prepared =>
      sends seen (view_of c) (prepared_view c' prepared) [(hdr, body)] [] /\
      (prepared <> None -> shut (stream c) = false /\ connected (writer c') = true)
  | Err (BeforeReplay _) => sends seen (view_of c) (view_of c') [] []
  | Err (ReplayOwned _) => False
  end.
Proof.
  intros [H1 H2] Hp Hm. unfold prepare_write_packet_unprobed. rewrite Hp.
  destruct (write_packet (writer c) hdr body) as [w outcome] eqn:Ew.
  destruct (note_output_same (set_writer c w) outcome hdr (zlen body) now) as (E1 & E2 & E3 & E4 & E5).
  cbn [set_writer stream writer reader pending_live] in E1, E2, E3, E4.
  set (cn := note_output _ _ _ _ _) in *.
  pose proof (sends_write seen (writer c) (shut (stream c)) (hdr, body) w outcome Hm Ew) as Hsnd.
  destruct (write_fields (writer c) (hdr, body) w outcome Ew) as [Hf Hconn].
  assert (view_of c = mkView (writer c) (shut (stream c)) []) as Hv by (unfold view_of, rest; by rewrite Hp).
  assert (conn_ok cn) as Hcn.
  { split; rewrite ?E4, ?Hp, ?E1, ?E2, ?Hconn; done. }
  destruct outcome as [| |frame]; intros; simplify_eq; (split; [done|]); (split; [by rewrite E4|]);
    (split; [done|]); rewrite Hv; unfold view_of, prepared_view, rest; rewrite E1, E2, ?E4, ?Hp.
  - exact Hsnd.
  - split; [exact Hsnd|done].
  - destruct Hf as (_ & Hup & _). unfold conn_connected. rewrite Hup. split; [exact Hsnd|]. intros _.
    split; [|by rewrite Hconn]. destruct (shut (stream c)); [|done]. by rewrite H2 in Hup.
Qed.

Lemma prepare_sends seen c hdr body probe now c' r :
  conn_ok c -> sendable (hdr, body) -> prepare_write_packet c hdr body probe now = (c', r) ->
  conn_ok c' /\ (is_ok r = true -> pending_live c' = None) /\
  exists y, tx (stream c') = tx (stream c) ++ y /\
  match r with
  | Ok prepared =>
      sends seen (view_of c) (prepared_view c' prepared) [(hdr, body)] y /\
      (prepared <> None -> shut (stream c') = false /\ connected (writer c') = true)
  | Err (BeforeReplay _) => sends seen (view_of c) (view_of c') [] y
  | Err (ReplayOwned _) => False
  end.
Proof.
  intros Hok Hm. unfold prepare_write_packet. destruct (pending_live c) as [p|] eqn:Hp.
  { intros; simplify_eq. split; [done|]. split; [done|]. exists []. split; [by rewrite app_nil_r|apply sends_refl]. }
  destruct (refresh_connectivity c probe) as [c1 refreshed] eqn:Er.
  destruct (refresh_moves seen _ _ _ _ Hok Hp Er) as [Hmv Hp1].
  set (c2 := if is_ok refreshed then c1 else disconnect c1).
  assert (moves seen c c2 [] /\ pending_live c2 = None) as [Hmv2 Hp2].
  { unfold c2. destruct (is_ok refreshed); [done|]. split; [|done].
    apply (moves_trans seen c c1 _ [] []); [done|]. by apply disconnect_moves. }
  intros Hprep. destruct Hmv2 as [Hok2 (y & Hy & Hsnd)].
  destruct (prepare_unprobed_sends seen _ _ _ _ _ _ Hok2 Hp2 Hm Hprep) as (Hok' & Hp' & Hs' & Hr).
  split; [done|]. split; [done|]. exists (y ++ []). rewrite Hs'. split; [by rewrite app_nil_r|].
  destruct r as [prepared|[e|e]]; [|by apply (sends_trans seen _ (view_of c2) _ [] [])|done].
  destruct Hr as [Hr1 Hr2]. split; [by apply (sends_trans seen _ (view_of c2) _ [] [_])|done].
Qed.

(** An error before replay admitted nothing; otherwise the packet is in the
    history, whether the call failed later or not. *)
Definition admitted_by (m : message) (r : result WritePacketError unit) : list message :=
  match r with Err (BeforeReplay _) => [] | _ => [m] end.

(** What the socket promises of the send of a prepared frame. *)
Definition prepared_ok (prepared : PreparedWrite) (now : Z) (deadline : option Z) (turns : list write_turn) : Prop :=
  match into_pending prepared now with
  | Some p => turns_ok (mkPending (p_frame p) (p_offset p) (unwrap_or (p_deadline p) deadline) (p_heard p)) turns
  | None => True
  end.

Lemma finish_owned s p turns s' e : finish s p turns = (s', Returned (Err e)) -> exists e', e = ReplayOwned e'.
Proof.
  revert s p. induction turns as [|t turns IH]; intros s p; cbn [finish]; [done|].
  destruct (advance s p (t_now t) (t_send t)) as [[s1 p1] [[]|e1]]; [done| |intros; simplify_eq; by eauto].
  destruct (t_wait t) as [|e1]; [by eauto|]. destruct e1; intros; simplify_eq; by eauto.
Qed.

Lemma send_prepared_moves seen w s prepared now deadline turns s' out :
  prepared_ok prepared now deadline turns -> (prepared <> None -> shut s = false) ->
  send_prepared s prepared now deadline turns = (s', Returned out) ->
  exists x, tx s' = tx s ++ x /\ (is_ok out = true -> shut s' = shut s) /\
    (forall e, out = Err e -> exists e', e = ReplayOwned e') /\
    sends seen (mkView w (shut s) (match prepared with Some (frame, _) => frame | None => [] end))
      (mkView w (shut s') []) [] x.
Proof.
  unfold send_prepared, prepared_ok. destruct prepared as [[frame timeout]|]; cbn [into_pending].
  - intros Hok Hs Hf. assert (shut s = false) as Hs0 by auto. rewrite Hs0.
    set (p := mkPending _ _ (unwrap_or _ _) _) in *.
    destruct (finish_sends seen w s p turns s' out) as (x & Hx & Hsh & Hsnd); [done| |done|done|].
    + unfold within. cbn. len_lia.
    + exists x. split_and!; [done|done|intros e ->; by eapply finish_owned|].
      unfold unsent in Hsnd. cbn [p p_offset p_frame] in Hsnd. by rewrite zdrop_0 in Hsnd.
  - intros _ _ Hf. simplify_eq. exists []. rewrite app_nil_r. split_and!; [done|done|done|apply sends_refl].
Qed.

(** A failed send abandons the transport. *)
Lemma fail_moves seen c c1 s v msgs y x :
  tx (stream c1) = tx (stream c) ++ y -> tx s = tx (stream c1) ++ x -> pending_live c1 = None ->
  sends seen (view_of c) v msgs y -> sends seen v (mkView (writer c1) (shut s) []) [] x ->
  moves seen c (disconnect (set_stream c1 s)) msgs.
Proof.
  intros Hy Hx Hp H1 H2. split; [split; done|]. exists ((y ++ x) ++ []). split.
  { rewrite app_nil_r. unfold disconnect, drop_live. cbn [stream set_stream pending_live].
    by rewrite Hp, Hx, Hy, app_assoc. }
  rewrite <-(app_nil_r msgs). eapply sends_trans.
  { rewrite <-(app_nil_r msgs). eapply sends_trans; [exact H1|exact H2]. }
  unfold view_of, rest, disconnect, drop_live. cbn [stream set_stream pending_live writer].
  rewrite Hp. apply sends_down.
Qed.

(** A prepared frame sent to its end, for any answers of the system. *)
Lemma send_moves seen c c1 prepared m y now deadline turns c' out :
  conn_ok c1 -> pending_live c1 = None -> tx (stream c1) = tx (stream c) ++ y ->
  sends seen (view_of c) (prepared_view c1 prepared) [m] y ->
  (prepared <> None -> shut (stream c1) = false) -> prepared_ok prepared now deadline turns ->
  match send_prepared (stream c1) prepared now deadline turns with
  | (s, Returned (Ok _)) => (set_stream c1 s, Returned (Ok tt))
  | (s, Returned (Err e)) => (disconnect (set_stream c1 s), Returned (Err e))
  | (s, Waiting p) => (set_stream c1 s, Waiting p)
  end = (c', Returned out) ->
  moves seen c c' (admitted_by m out).
Proof.
  intros Hok1 Hp1 Hy Hr Hlive Hturns. destruct (send_prepared _ _ _ _ _) as [s b] eqn:Es.
  destruct b as [o|p]; [|done].
  destruct (send_prepared_moves seen (writer c1) _ _ _ _ _ _ _ Hturns Hlive Es) as (x & Hx & Hsh & Hown & Hsnd).
  destruct o as [[]|e]; intros H; simplify_eq.
  - split.
    + split; cbn [set_stream pending_live stream writer]; [by rewrite Hp1|].
      rewrite Hsh by done. apply (ok_shut _ Hok1).
    + exists (y ++ x). cbn [set_stream stream]. split; [by rewrite Hx, Hy, app_assoc|].
      apply (sends_trans seen _ (prepared_view c1 prepared) _ [_] []); [done|].
      unfold view_of, rest. cbn [set_stream stream writer pending_live]. by rewrite Hp1.
  - destruct (Hown e eq_refl) as [e' ->]. by eapply fail_moves.
Qed.

Lemma write_moves seen c hdr body deadline probe now pending_at turns c' out :
  conn_ok c -> sendable (hdr, body) ->
  (forall prepared, snd (prepare_write_packet c hdr body probe now) = Ok prepared ->
     prepared_ok prepared pending_at deadline turns) ->
  write_packet_owned_until c hdr body deadline probe now pending_at turns = (c', Returned out) ->
  moves seen c c' (admitted_by (hdr, body) out).
Proof.
  intros Hok Hm Hturns. unfold write_packet_owned_until.
  destruct (prepare_write_packet c hdr body probe now) as [c1 r] eqn:Ep. cbn [snd] in Hturns.
  destruct (prepare_sends seen _ _ _ _ _ _ _ Hok Hm Ep) as (Hok1 & Hp1 & y & Hy & Hr).
  destruct r as [prepared|[e|e]]; [|intros; simplify_eq; split; [done|by exists y]|done].
  destruct Hr as [Hr Hlive]. eapply send_moves; eauto. intros Hn. by apply Hlive.
Qed.

(** *** The retained frame *)

Lemma defer_pending_moves seen c now unread :
  conn_ok c -> moves seen c (defer_pending c now unread) [] /\
  stream (defer_pending c now unread) = stream c /\ writer (defer_pending c now unread) = writer c.
Proof.
  intros Hok. unfold defer_pending. destruct (peer_silence c) as [silence|]; [|by split; [apply moves_refl|]].
  destruct (pending_live c) as [p|] eqn:Hp; [|by split; [apply moves_refl|]].
  destruct (p_deadline p <=? now); [|by split; [apply moves_refl|]].
  split; [|done]. split.
  - split; cbn; [|apply Hok]. intros p' [= <-]. destruct (ok_pending _ Hok p Hp). done.
  - exists []. split; [by rewrite app_nil_r|]. unfold view_of, rest. cbn. rewrite Hp. apply sends_refl.
Qed.

Lemma advance_write_moves seen c now unread now' send c' r :
  conn_ok c ->
  (forall p, pending_live (defer_pending c now unread) = Some p -> send_ok p send) ->
  advance_write c now unread now' send = (c', r) -> moves seen c c' [].
Proof.
  intros Hok Hsend. unfold advance_write. cbv zeta.
  destruct (defer_pending_moves seen c now unread Hok) as (Hmv & Es & Ew).
  set (c1 := defer_pending c now unread) in *.
  destruct (pending_live c1) as [p|] eqn:Hp; [|intros; by simplify_eq].
  pose proof Hmv as [Hok1 _]. destruct (ok_pending _ Hok1 p Hp) as [Hup Hw].
  assert (shut (stream c1) = false) as Hs.
  { destruct (shut (stream c1)) eqn:E; [|done]. by rewrite (ok_shut _ Hok1 E) in Hup. }
  destruct (advance (stream c1) p now' send) as [[s p1] r1] eqn:Ea.
  destruct (advance_sends seen (writer c1) _ _ _ _ _ _ _ (Hsend p eq_refl) Hw Hs Ea) as (x & Hx & Hs1 & Hw1 & Hsnd & Hdone).
  assert (moves seen c1 (set_pending (set_stream c1 s) (Some p1)) []) as Hstep.
  { split; [split; cbn; [by intros ? [= <-]|by rewrite Hs1]|]. exists x. split; [done|].
    unfold view_of, rest. cbn. by rewrite Hp, Hs, Hs1. }
  assert (forall c2, moves seen (set_pending (set_stream c1 s) (Some p1)) c2 [] -> moves seen c c2 []) as Hthen.
  { intros c2 H2. apply (moves_trans seen c c1 c2 [] []); [done|]. intros _.
    by apply (moves_trans seen c1 (set_pending (set_stream c1 s) (Some p1)) c2 [] []). }
  destruct r1 as [[]|e]; intros; simplify_eq; apply Hthen; [|by apply moves_refl, Hstep|apply disconnect_moves, Hstep].
  specialize (Hdone eq_refl). apply unsent_nil in Hdone as Hlen; [|done].
  unfold drop_pending. rewrite Hlen, Z.eqb_refl. split; [split; cbn; [done|by rewrite Hs1]|].
  exists []. split; [by rewrite app_nil_r|]. unfold view_of, rest. cbn. rewrite Hdone. apply sends_refl.
Qed.

Lemma defer_pending_frame c now unread p :
  pending_live (defer_pending c now unread) = Some p ->
  exists p0, pending_live c = Some p0 /\ offered p = offered p0.
Proof.
  unfold defer_pending. destruct (peer_silence c); [|by eauto].
  destruct (pending_live c) as [p0|] eqn:Hp; [|by rewrite Hp].
  destruct (p_deadline p0 <=? now); [|rewrite Hp; by eauto]. cbn. intros [= <-]. by eauto.
Qed.

(** What the socket promises of the first send of a frame. *)
Definition first_send_ok (prepared : PreparedWrite) (now : Z) (send : result io_kind Z) : Prop :=
  match into_pending prepared now with Some p => send_ok p send | None => True end.

Lemma advance_write_owned c now unread now' send c' e :
  advance_write c now unread now' send = (c', Err e) -> exists e', e = ReplayOwned e'.
Proof.
  unfold advance_write. cbv zeta. destruct (pending_live _) as [p|]; [|done].
  destruct (advance _ _ _ _) as [[s p1] [[]|e1]]; intros; simplify_eq. by eauto.
Qed.

Lemma start_moves seen c c1 prepared o m c' out y :
  conn_ok c1 -> (is_ok prepared = true -> pending_live c1 = None) ->
  tx (stream c1) = tx (stream c) ++ y ->
  match prepared with
  | Ok prepared =>
      sends seen (view_of c) (prepared_view c1 prepared) [m] y /\
      (prepared <> None -> shut (stream c1) = false /\ connected (writer c1) = true)
  | Err (BeforeReplay _) => sends seen (view_of c) (view_of c1) [] y
  | Err (ReplayOwned _) => False
  end ->
  (forall pr, prepared = Ok pr -> first_send_ok pr (so_pending_at o) (so_send o)) ->
  start_prepared c1 prepared o = (c', out) -> moves seen c c' (admitted_by m out).
Proof.
  intros Hok1 Hp1 Hy Hr Hfirst. unfold start_prepared.
  destruct prepared as [pr|[e|e]]; [|intros; simplify_eq; split; [done|by exists y]|done].
  specialize (Hp1 eq_refl). specialize (Hfirst pr eq_refl). destruct Hr as [Hr Hlive]. rewrite Hp1. cbn [drop_live].
  set (c2 := set_pending _ _).
  assert (conn_ok c2) as Hok2.
  { split; cbn; [|apply Hok1]. intros p Hp. destruct pr as [[frame t]|]; [|done]. cbn in Hp. injection Hp as <-.
    split; [by apply Hlive|]. unfold within. cbn. len_lia. }
  assert (view_of c2 = prepared_view c1 pr) as Hv.
  { unfold view_of, prepared_view, rest. cbn. by destruct pr as [[frame t]|]; [unfold unsent; cbn; rewrite zdrop_0|]. }
  assert (moves seen c c2 [m]) as Hmv by (split; [done|]; exists y; by rewrite Hv).
  destruct (advance_write c2 _ _ _ _) as [c3 r] eqn:Ea. intros; simplify_eq.
  assert (moves seen c c' [m]) as Hmv'.
  { apply (moves_trans seen c c2 c' [m] []); [done|]. intros _. eapply advance_write_moves; [done| |exact Ea].
    intros p Hp. apply defer_pending_frame in Hp as (p0 & Hp0 & Ho). unfold first_send_ok in Hfirst.
    cbn in Hp0. rewrite Hp0 in Hfirst. unfold send_ok in *. by rewrite Ho. }
  destruct r as [b|e]; [exact Hmv'|]. apply advance_write_owned in Ea as [e' ->]. exact Hmv'.
Qed.

Lemma start_write_moves seen c hdr body o c' out :
  conn_ok c -> sendable (hdr, body) ->
  (forall pr, snd (prepare_write_packet c hdr body (so_probe o) (so_now o)) = Ok pr ->
     first_send_ok pr (so_pending_at o) (so_send o)) ->
  start_write_packet_owned c hdr body o = (c', out) -> moves seen c c' (admitted_by (hdr, body) out).
Proof.
  intros Hok Hm Hfirst. unfold start_write_packet_owned.
  destruct (prepare_write_packet c hdr body _ _) as [c1 r] eqn:Ep.
  destruct (prepare_sends seen _ _ _ _ _ _ _ Hok Hm Ep) as (Hok1 & Hp1 & y & Hy & Hr).
  by apply start_moves with (y := y).
Qed.

Lemma start_unprobed_moves seen c hdr body o c' out :
  conn_ok c -> sendable (hdr, body) ->
  (forall pr, snd (prepare_write_packet_unprobed c hdr body (so_now o)) = Ok pr ->
     first_send_ok pr (so_pending_at o) (so_send o)) ->
  start_write_packet_owned_unprobed c hdr body o = (c', out) -> moves seen c c' (admitted_by (hdr, body) out).
Proof.
  intros Hok Hm Hfirst. unfold start_write_packet_owned_unprobed.
  destruct (pending_live c) as [p|] eqn:Hp.
  { unfold prepare_write_packet_unprobed. rewrite Hp. cbn. intros; simplify_eq. by apply moves_refl. }
  destruct (prepare_write_packet_unprobed c hdr body _) as [c1 r] eqn:Ep.
  destruct (prepare_unprobed_sends seen _ _ _ _ _ _ Hok Hp Hm Ep) as (Hok1 & Hp1 & Hs & Hr).
  apply start_moves with (y := []); try done; [by rewrite Hs, app_nil_r|]. by rewrite Hs.
Qed.

Lemma finish_pending_moves seen c turns c' out :
  conn_ok c -> (forall p, pending_live c = Some p -> turns_ok p turns) ->
  finish_pending_write c turns = (c', Returned out) -> moves seen c c' [].
Proof.
  intros Hok Hturns. unfold finish_pending_write. destruct (pending_live c) as [p|] eqn:Hp.
  2: { intros; simplify_eq. by apply moves_refl. }
  destruct (ok_pending _ Hok p Hp) as [Hup Hw].
  assert (shut (stream c) = false) as Hs.
  { destruct (shut (stream c)) eqn:E; [|done]. by rewrite (ok_shut _ Hok E) in Hup. }
  destruct (finish (stream c) p turns) as [s r] eqn:Ef. destruct r as [o|p']; [|done].
  destruct (finish_sends seen (writer c) _ _ _ _ _ (Hturns p eq_refl) Hw Hs Ef) as (x & Hx & Hsh & Hsnd).
  assert (view_of c = mkView (writer c) false (unsent p)) as Hv by (unfold view_of, rest; by rewrite Hp, Hs).
  destruct o as [[]|e]; intros; simplify_eq.
  - split; [split; cbn; [done|by rewrite Hsh]|]. exists x. split; [done|]. rewrite Hv. exact Hsnd.
  - change (set_pending (set_stream c s) None) with (set_stream (set_pending c None) s).
    eapply (fail_moves seen c (set_pending c None) s (view_of c) [] [] x); cbn; try done.
    + by rewrite app_nil_r.
    + apply sends_refl.
    + rewrite Hv. exact Hsnd.
Qed.

(** *** The two-phase write *)

(** [write_packet] of [session_flow_write.rs], the blocking writer that drains
    the queue of an ending session: the frame is reserved and committed under
    two locks of the connection, encrypted between them, and sent under none.
    [write_serial], held throughout, keeps other writers and recoveries out. *)
Definition flow_write_packet (c : Connection) (hdr : byte) (body : list byte) (now pending_at : Z)
    (turns : list write_turn) : Connection * blocking PendingWrite (result WritePacketError unit) :=
  match reserve_write_packet c hdr (zlen body) with
  | (c, Err e) => (disconnect c, Returned (Err e))
  | (c, Ok reserved) =>
      let (c, prepared) := commit_write_packet c reserved (reserved_encrypt reserved body) now in
      match send_prepared (stream c) prepared pending_at None turns with
      | (s, Returned (Ok _)) => (set_stream c s, Returned (Ok tt))
      | (s, Returned (Err e)) => (disconnect (set_stream c s), Returned (Err e))
      | (s, Waiting p) => (set_stream c s, Waiting p)
      end
  end.

(** The two phases together are [prepare_write_packet_unprobed]. *)
Lemma two_phases c hdr body now :
  prepare_write_packet_unprobed c hdr body now =
  match reserve_write_packet c hdr (zlen body) with
  | (c, Err e) => (c, Err e)
  | (c, Ok reserved) =>
      let (c, prepared) := commit_write_packet c reserved (reserved_encrypt reserved body) now in (c, Ok prepared)
  end.
Proof.
  unfold prepare_write_packet_unprobed, reserve_write_packet, commit_write_packet, write_packet.
  destruct (pending_live c); [done|]. unfold reserve_write.
  destruct (write_refused (writer c) (zlen body)).
  { unfold note_output. by destruct (output_window (set_writer c (writer c))). }
  destruct (next_nonce_and_key (crypto (writer c))) as [cr [n k]].
  set (rw := mkReserved _ _ _ _).
  assert (reserved_header rw = hdr) as -> by done.
  assert (reserved_payload_len rw = zlen body) as -> by (unfold reserved_payload_len; cbn; lia).
  cbn [set_writer writer]. destruct (commit_write _ rw _) as [w [| |frame]] eqn:Ec; [|done|done].
  unfold commit_write in Ec. cbv zeta in Ec. by destruct (negb _) in Ec.
Qed.

Lemma flow_write_moves seen c hdr body now pending_at turns c' out :
  conn_ok c -> sendable (hdr, body) ->
  (forall prepared, snd (prepare_write_packet_unprobed c hdr body now) = Ok prepared ->
     prepared_ok prepared pending_at None turns) ->
  flow_write_packet c hdr body now pending_at turns = (c', Returned out) ->
  moves seen c c' (admitted_by (hdr, body) out).
Proof.
  intros Hok Hm. unfold flow_write_packet. destruct (pending_live c) as [p|] eqn:Hp.
  { intros _. unfold reserve_write_packet. rewrite Hp. intros; simplify_eq. by apply disconnect_moves. }
  destruct (prepare_write_packet_unprobed c hdr body now) as [c1 r] eqn:Ep.
  destruct (prepare_unprobed_sends seen _ _ _ _ _ _ Hok Hp Hm Ep) as (Hok1 & Hp1 & Hs & Hr).
  rewrite two_phases in Ep. destruct (reserve_write_packet c hdr (zlen body)) as [c2 [reserved|e]].
  - destruct (commit_write_packet c2 reserved _ now) as [c3 prepared]. simplify_eq. cbn [snd].
    intros Hturns. destruct Hr as [Hr Hlive]. rewrite <-Hs in Hlive.
    eapply (send_moves seen c c1 prepared (hdr, body) []); eauto; [by rewrite Hs, app_nil_r|].
    intros Hn. by apply Hlive.
  - simplify_eq. intros _. intros; simplify_eq. destruct e as [e|e]; [|done]. cbn [admitted_by].
    apply (moves_trans seen c c1 _ [] []); [|by intros; apply disconnect_moves].
    split; [done|]. exists []. by rewrite Hs, app_nil_r.
Qed.

Lemma shutdown_moves seen c closed c' r :
  conn_ok c -> shutdown c closed = (c', r) -> moves seen c c' [].
Proof.
  intros Hok. unfold shutdown. intros; simplify_eq.
  apply (moves_trans seen c (disconnect c) _ [] []); [by apply disconnect_moves|]. intros _.
  split; [split; done|]. exists []. split; [by rewrite app_nil_r|].
  unfold view_of, rest. cbn. apply sends_drop.
Qed.

Lemma backdate_moves seen c since : conn_ok c -> moves seen c (backdate_pending_write c since) [].
Proof.
  intros Hok. unfold backdate_pending_write. destruct (pending_live c) as [p|] eqn:Hp; [|by apply moves_refl].
  split; [split; cbn; [intros ? [= <-]; by apply (ok_pending _ Hok p Hp)|apply Hok]|].
  exists []. split; [by rewrite app_nil_r|]. unfold view_of, rest. cbn. rewrite Hp. apply sends_refl.
Qed.

Lemma acknowledge_moves seen c now :
  conn_ok c -> 0 <= seen -> moves seen c (acknowledge_delivery c seen now) [].
Proof.
  intros Hok Hseen. apply (moves_trans seen c (set_writer c (acknowledge (writer c) seen)) _ [] []).
  - split.
    + split; cbn; rewrite (proj2 (acknowledge_fields (writer c) seen)); apply Hok.
    + exists []. split; [by rewrite app_nil_r|]. by apply sends_acknowledge.
  - intros Hok'. unfold acknowledge_delivery. cbv zeta.
    repeat case_match; first [by apply moves_refl|by apply moves_same].
Qed.

(** ** The receiving half *)

(** The reader goes from [r] to [r'], takes [taken] off the front of the wire
    and hands [got] to the application. *)
Definition receives (r r' : BackedReader) (taken : list byte) (got : list Packet) : Prop :=
  forall s after, l_reader s = r -> l_wire s = taken ++ after ->
  exists s', rtc lstep s s' /\ l_reader s' = r' /\ l_wire s' = after /\ l_writer s' = l_writer s /\
    l_open s' = l_open s /\ l_sent s' = l_sent s /\ l_delivered s' = l_delivered s ++ got.

Lemma receives_refl r : receives r r [] [].
Proof. intros s after E1 E2. exists s. split; [apply rtc_refl|]. by rewrite app_nil_r. Qed.

Lemma receives_trans r1 r2 r3 t1 t2 g1 g2 :
  receives r1 r2 t1 g1 -> receives r2 r3 t2 g2 -> receives r1 r3 (t1 ++ t2) (g1 ++ g2).
Proof.
  intros H1 H2 s after E1 E2. rewrite <-app_assoc in E2.
  destruct (H1 s _ E1 E2) as (s1 & R1 & A1 & A2 & A3 & A4 & A5 & A6).
  destruct (H2 s1 _ A1 A2) as (s2 & R2 & B1 & B2 & B3 & B4 & B5 & B6).
  exists s2. split; [by etrans|]. split_and!; try congruence. by rewrite B6, A6, app_assoc.
Qed.

(** One step that takes nothing from the wire. *)
Lemma receives_once r r' got :
  (forall s, l_reader s = r -> exists s', lstep s s' /\ l_reader s' = r' /\ l_wire s' = l_wire s /\
     l_writer s' = l_writer s /\ l_open s' = l_open s /\ l_sent s' = l_sent s /\
     l_delivered s' = l_delivered s ++ got) ->
  receives r r' [] got.
Proof.
  intros H s after E1 E2. destruct (H s E1) as (s' & Hs & A1 & A2 & A3 & A4 & A5 & A6).
  rewrite app_nil_l in E2. exists s'. split; [by apply rtc_once|]. split_and!; congruence.
Qed.

Lemma receives_pop r r' p : pop r = (r', Ok (PacketItem p)) -> receives r r' [] [p].
Proof.
  intros H. apply receives_once. intros s E. exists (deliver s r' p).
  split; [apply step_pop; by rewrite E|done].
Qed.

Lemma receives_pop_error r r' e : pop r = (r', Err e) -> receives r (BackedReader.invalidate r') [] [].
Proof.
  intros H. apply receives_once. intros s E. exists (with_reader s (BackedReader.invalidate r')).
  split; [eapply step_pop_error; by rewrite E|]. by rewrite app_nil_r.
Qed.

Lemma receives_authenticate r r' p : pop_live r = (r', Ok (PacketItem p)) -> receives r (unread r' p) [] [].
Proof.
  intros H. apply receives_once. intros s E. exists (with_reader s (unread r' p)).
  split; [apply step_authenticate; by rewrite E|]. by rewrite app_nil_r.
Qed.

Lemma receives_authenticate_error r r' e :
  pop_live r = (r', Err e) -> receives r (BackedReader.invalidate r') [] [].
Proof.
  intros H. apply receives_once. intros s E. exists (with_reader s (BackedReader.invalidate r')).
  split; [eapply step_authenticate_error; by rewrite E|]. by rewrite app_nil_r.
Qed.

Lemma receives_idle r capacity : receives r (fst (prepare_socket_read capacity r)) [] [].
Proof.
  apply receives_once. intros s E. exists (with_reader s (fst (prepare_socket_read capacity (l_reader s)))).
  split; [apply step_socket_idle|]. by rewrite E, app_nil_r.
Qed.

Lemma receives_down r : receives r (BackedReader.invalidate r) [] [].
Proof.
  apply receives_once. intros s E. exists (with_reader s (BackedReader.invalidate (l_reader s))).
  split; [apply step_reader_down|]. by rewrite E, app_nil_r.
Qed.

Lemma receives_idle_down r capacity :
  receives r (BackedReader.invalidate (fst (prepare_socket_read capacity r))) [] [].
Proof.
  apply (receives_trans r (fst (prepare_socket_read capacity r)) _ [] [] [] []);
    [apply receives_idle|apply receives_down].
Qed.

Lemma receives_socket_read r capacity received :
  0 < zlen received <= snd (prepare_socket_read capacity r) ->
  receives r (socket_read capacity r received) received [].
Proof.
  intros Hn s after E1 E2.
  exists (with_wire (with_reader s (socket_read capacity (l_reader s) (ztake (zlen received) (l_wire s))))
            (zdrop (zlen received) (l_wire s)) (l_open s)).
  split; [apply rtc_once, step_socket_read; rewrite ?E1, ?E2; len_lia|].
  cbn. rewrite E1, E2, ztake_app_exact, zdrop_app_exact, app_nil_r. done.
Qed.

Lemma receives_feed r received : 0 < zlen received -> receives r (feed r received) received [].
Proof.
  intros Hn s after E1 E2.
  exists (with_wire (with_reader s (feed (l_reader s) (ztake (zlen received) (l_wire s))))
            (zdrop (zlen received) (l_wire s)) (l_open s)).
  split; [apply rtc_once, step_feed; rewrite ?E2; len_lia|].
  cbn. rewrite E1, E2, ztake_app_exact, zdrop_app_exact, app_nil_r. done.
Qed.

Lemma pop_live_needs_more r r' : pop_live r = (r', Ok NeedMore) -> r' = r.
Proof.
  unfold pop_live. destruct (negb _); [by intros [= <-]|]. cbv zeta.
  destruct (zlen (BackedReader.pending r) <? 4); [by intros [= <-]|].
  destruct (parse_be_u32_len (BackedReader.pending r)); [|done].
  destruct (_ <? HEADER_LEN); [done|]. destruct (zlen (BackedReader.pending r) <? 4 + a); [by intros [= <-]|].
  destruct (decode_packet _ _) as [c [p|e]]; done.
Qed.

Lemma pop_needs_more r r' : pop r = (r', Ok NeedMore) -> r' = r.
Proof.
  unfold pop. destruct (negb _); [by intros [= <-]|].
  destruct (replay r); [apply pop_live_needs_more|done].
Qed.

(** What the kernel promises of the receives of [try_read]: no more bytes than
    asked for. *)
Fixpoint receives_fit (rounds : nat) (r : BackedReader) (recv : nat -> recv_result) (i : nat) : Prop :=
  match rounds, recv i with
  | S rounds, (capacity, Ok received) =>
      zlen received <= snd (prepare_socket_read capacity r) /\
      receives_fit rounds (socket_read capacity r received) recv (S i)
  | _, _ => True
  end.

Definition got_of {E} (r : result E (option Packet)) : list Packet :=
  match r with Ok (Some p) => [p] | _ => [] end.

Lemma try_read_receives rounds r recv i r' taken res :
  receives_fit rounds r recv i -> try_read_loop rounds r recv i = (r', taken, res) ->
  receives r (if is_ok res then r' else BackedReader.invalidate r') taken (got_of res).
Proof.
  revert r i r' taken res. induction rounds as [|rounds IH]; intros r i r' taken res Hfit; cbn [try_read_loop];
    destruct (pop r) as [r0 [[p|]|e]] eqn:Ep; try (intros; simplify_eq; cbn;
      first [by apply receives_pop|by eapply receives_pop_error]).
  - apply pop_needs_more in Ep as ->. intros; simplify_eq. apply receives_refl.
  - apply pop_needs_more in Ep as ->. cbn [receives_fit] in Hfit.
    destruct (recv i) as [capacity [received|e]].
    + destruct Hfit as [Hn Hfit]. destruct (Z.eqb_spec (zlen received) 0) as [E0|E0].
      * intros; simplify_eq. cbn. apply receives_idle_down.
      * destruct (try_read_loop rounds _ recv (S i)) as [[r1 taken1] res1] eqn:El. intros; simplify_eq.
        apply (receives_trans _ (socket_read capacity r received) _ received taken1 [] _).
        -- apply receives_socket_read. len_lia.
        -- by eapply IH.
    + destruct e; intros; simplify_eq; cbn;
        first [apply receives_idle_down|apply receives_idle].
Qed.

Lemma try_read_packet_receives c recv c' taken res :
  receives_fit 4 (reader c) recv 0 -> try_read_packet c recv = (c', taken, res) ->
  receives (reader c) (reader c') taken (got_of res).
Proof.
  intros Hfit. unfold try_read_packet. destruct (try_read (reader c) recv) as [[r t] o] eqn:E.
  pose proof (try_read_receives _ _ _ _ _ _ _ Hfit E) as H.
  destruct o; intros; simplify_eq; exact H.
Qed.

Lemma read_packet_receives c reads c' taken res :
  read_packet c reads = (c', taken, Returned res) ->
  receives (reader c) (reader c') taken (match res with Ok p => [p] | Err _ => [] end).
Proof.
  revert c c' taken. induction reads as [|answer reads IH]; intros c c' taken; cbn [read_packet];
    destruct (pop (reader c)) as [r0 [[p|]|e]] eqn:Ep; try (intros; simplify_eq; cbn;
      first [by apply receives_pop|by eapply receives_pop_error]).
  apply pop_needs_more in Ep as ->. destruct answer as [received|e].
  - destruct (Z.eqb_spec (zlen received) 0); [intros; simplify_eq; apply receives_down|].
    cbn [set_reader reader]. destruct (read_packet _ reads) as [[c1 t1] res1] eqn:El. intros; simplify_eq.
    apply (receives_trans _ (feed (reader c) received) _ received t1 [] _).
    + apply receives_feed. len_lia.
    + exact (IH _ _ _ El).
  - destruct e; try (intros; simplify_eq; apply receives_down). intros H. exact (IH _ _ _ H).
Qed.

Lemma read_packet_until_receives c deadline reads c' taken res :
  read_packet_until c deadline reads (Ok tt) = (c', taken, Returned res) ->
  receives (reader c) (reader c') taken (match res with Ok p => [p] | Err _ => [] end).
Proof.
  revert c c' taken. induction reads as [|[now timeout answer] reads IH]; intros c c' taken; cbn [read_packet_until];
    destruct (pop (reader c)) as [r0 [[p|]|e]] eqn:Ep; try (intros; simplify_eq; cbn;
      first [by apply receives_pop|by eapply receives_pop_error]).
  apply pop_needs_more in Ep as ->. destruct (deadline <=? now); [intros; simplify_eq; apply receives_down|].
  destruct timeout; [|intros; simplify_eq; apply receives_refl]. destruct answer as [received|e].
  - destruct (Z.eqb_spec (zlen received) 0); [intros; simplify_eq; apply receives_down|].
    cbn [set_reader reader]. destruct (read_packet_until _ _ reads _) as [[c1 t1] res1] eqn:El. intros; simplify_eq.
    apply (receives_trans _ (feed (reader c) received) _ received t1 [] _).
    + apply receives_feed. len_lia.
    + exact (IH _ _ _ El).
  - destruct e; try (intros; simplify_eq; apply receives_down). intros H. exact (IH _ _ _ H).
Qed.

(** The packet [authenticate_peer] reads stays with the reader. *)
Lemma read_live_receives c deadline reads c' taken res :
  read_live_packet_until c deadline reads = (c', taken, Returned res) ->
  receives (reader c) (match res with Ok p => unread (reader c') p | Err _ => reader c' end) taken [].
Proof.
  revert c c' taken. induction reads as [|[now timeout answer] reads IH]; intros c c' taken; cbn [read_live_packet_until];
    destruct (pop_live (reader c)) as [r0 [[p|]|e]] eqn:Ep; try (intros; simplify_eq; cbn;
      first [by apply receives_authenticate|by eapply receives_authenticate_error]).
  apply pop_live_needs_more in Ep as ->. destruct (deadline <=? now); [intros; simplify_eq; apply receives_refl|].
  destruct timeout; [|intros; simplify_eq; apply receives_refl]. destruct answer as [received|e].
  - destruct (Z.eqb_spec (zlen received) 0); [intros; simplify_eq; apply receives_down|].
    cbn [set_reader reader]. destruct (read_live_packet_until _ _ reads) as [[c1 t1] res1] eqn:El. intros; simplify_eq.
    apply (receives_trans _ (feed (reader c) received) _ received t1 [] []).
    + apply receives_feed. len_lia.
    + exact (IH _ _ _ El).
  - destruct e; try (intros; simplify_eq; apply receives_down). intros H. exact (IH _ _ _ H).
Qed.

Lemma authenticate_receives c deadline reads cleared c' taken res :
  authenticate_peer c deadline reads cleared = (c', taken, Returned res) ->
  receives (reader c) (reader c') taken [].
Proof.
  unfold authenticate_peer. destruct (read_live_packet_until c deadline reads) as [[c1 t1] [o|]] eqn:E; [|done].
  pose proof (read_live_receives _ _ _ _ _ _ E) as H. destruct o; intros; simplify_eq; exact H.
Qed.

(** A call that at most gives the transport up leaves nothing of its own. *)
Definition quiet (c c' : Connection) : Prop :=
  exists r, c' = set_reader c r \/ c' = disconnect (set_reader c r).

Lemma quiet_moves seen c c' : conn_ok c -> quiet c c' -> moves seen c c' [].
Proof.
  intros Hok [r [-> | ->]]; [by apply moves_same|].
  apply (moves_trans seen c (set_reader c r) _ [] []); [by apply moves_same|]. by apply disconnect_moves.
Qed.

Lemma quiet_set c r c' : quiet (set_reader c r) c' -> quiet c c'.
Proof. intros [r' [-> | ->]]; exists r'; auto. Qed.

Lemma try_read_quiet c recv c' taken res : try_read_packet c recv = (c', taken, res) -> quiet c c'.
Proof.
  unfold try_read_packet. destruct (try_read (reader c) recv) as [[r t] [o|e]]; intros; simplify_eq; exists r; auto.
Qed.

Lemma read_packet_quiet c reads c' taken res : read_packet c reads = (c', taken, res) -> quiet c c'.
Proof.
  revert c c' taken. induction reads as [|answer reads IH]; intros c c' taken; cbn [read_packet];
    destruct (pop (reader c)) as [r0 [[p|]|e]]; try (intros; simplify_eq; exists r0; by auto).
  destruct answer as [received|e].
  - destruct (_ =? 0); [intros; simplify_eq; exists r0; by auto|].
    destruct (read_packet _ reads) as [[c1 t1] res1] eqn:El. intros; simplify_eq.
    apply IH in El. by apply quiet_set in El.
  - destruct e; try (intros; simplify_eq; exists r0; by auto). intros H. by apply IH, quiet_set in H.
Qed.

Lemma read_packet_until_quiet c deadline reads cleared c' taken res :
  read_packet_until c deadline reads cleared = (c', taken, res) -> quiet c c'.
Proof.
  revert c c' taken. induction reads as [|[now timeout answer] reads IH]; intros c c' taken; cbn [read_packet_until];
    destruct (pop (reader c)) as [r0 [[p|]|e]]; try (intros; simplify_eq; exists r0; by auto).
  destruct (deadline <=? now); [intros; simplify_eq; exists r0; by auto|].
  destruct timeout; [|intros; simplify_eq; exists r0; by auto]. destruct answer as [received|e].
  - destruct (_ =? 0); [intros; simplify_eq; exists r0; by auto|].
    destruct (read_packet_until _ _ reads _) as [[c1 t1] res1] eqn:El. intros; simplify_eq.
    apply IH in El. by apply quiet_set in El.
  - destruct e; try (intros; simplify_eq; exists r0; by auto). intros H. by apply IH, quiet_set in H.
Qed.

Lemma read_live_quiet c deadline reads c' taken res :
  read_live_packet_until c deadline reads = (c', taken, res) -> quiet c c'.
Proof.
  revert c c' taken. induction reads as [|[now timeout answer] reads IH]; intros c c' taken; cbn [read_live_packet_until];
    destruct (pop_live (reader c)) as [r0 [[p|]|e]]; try (intros; simplify_eq; exists r0; by auto).
  destruct (deadline <=? now); [intros; simplify_eq; exists r0; by auto|].
  destruct timeout; [|intros; simplify_eq; exists r0; by auto]. destruct answer as [received|e].
  - destruct (_ =? 0); [intros; simplify_eq; exists r0; by auto|].
    destruct (read_live_packet_until _ _ reads) as [[c1 t1] res1] eqn:El. intros; simplify_eq.
    apply IH in El. by apply quiet_set in El.
  - destruct e; try (intros; simplify_eq; exists r0; by auto). intros H. by apply IH, quiet_set in H.
Qed.

Lemma authenticate_moves seen c deadline reads cleared c' taken res :
  conn_ok c -> authenticate_peer c deadline reads cleared = (c', taken, res) -> moves seen c c' [].
Proof.
  intros Hok. unfold authenticate_peer.
  destruct (read_live_packet_until c deadline reads) as [[c1 t1] o] eqn:E.
  apply read_live_quiet in E. pose proof (quiet_moves seen _ _ Hok E) as Hm.
  destruct o as [[p|e]|]; intros; simplify_eq; try done.
  apply (moves_trans seen c c1 _ [] []); [done|]. intros Hok1. by apply moves_same.
Qed.

(** *** The reader under the sending operations *)

Definition stays (c c' : Connection) : Prop :=
  reader c' = reader c \/ reader c' = BackedReader.invalidate (reader c).

Lemma stays_refl c : stays c c.
Proof. by left. Qed.

Lemma stays_trans c1 c2 c3 : stays c1 c2 -> stays c2 c3 -> stays c1 c3.
Proof. unfold stays. intros [-> | ->] [-> | ->]; auto. Qed.

Lemma stays_receives c c' : stays c c' -> receives (reader c) (reader c') [] [].
Proof. intros [-> | ->]; [apply receives_refl|apply receives_down]. Qed.

Lemma refresh_stays c probe c' r : refresh_connectivity c probe = (c', r) -> stays c c'.
Proof.
  unfold refresh_connectivity. intros H. repeat case_match; simplify_eq; by (left + right).
Qed.

Lemma prepare_unprobed_stays c hdr body now c' r :
  prepare_write_packet_unprobed c hdr body now = (c', r) -> stays c c'.
Proof.
  unfold prepare_write_packet_unprobed. destruct (pending_live c); [intros; simplify_eq; apply stays_refl|].
  destruct (write_packet (writer c) hdr body) as [w outcome].
  destruct (note_output_same (set_writer c w) outcome hdr (zlen body) now) as (_ & _ & E & _).
  intros H. left. destruct outcome; simplify_eq; exact E.
Qed.

Lemma prepare_stays c hdr body probe now c' r :
  prepare_write_packet c hdr body probe now = (c', r) -> stays c c'.
Proof.
  unfold prepare_write_packet. destruct (pending_live c); [intros; simplify_eq; apply stays_refl|].
  destruct (refresh_connectivity c probe) as [c1 refreshed] eqn:Er. apply refresh_stays in Er.
  intros Hp%prepare_unprobed_stays. eapply stays_trans; [exact Er|].
  eapply stays_trans; [|exact Hp]. destruct (is_ok refreshed); [apply stays_refl|by right].
Qed.

Lemma write_stays c hdr body deadline probe now pending_at turns c' r :
  write_packet_owned_until c hdr body deadline probe now pending_at turns = (c', r) -> stays c c'.
Proof.
  unfold write_packet_owned_until. destruct (prepare_write_packet c hdr body probe now) as [c1 o] eqn:Ep.
  apply prepare_stays in Ep. intros H. eapply stays_trans; [exact Ep|].
  repeat case_match; simplify_eq; by (left + right).
Qed.

Lemma flow_write_stays c hdr body now pending_at turns c' r :
  flow_write_packet c hdr body now pending_at turns = (c', r) -> stays c c'.
Proof.
  unfold flow_write_packet. destruct (prepare_write_packet_unprobed c hdr body now) as [c1 o] eqn:Ep.
  pose proof (prepare_unprobed_stays _ _ _ _ _ _ Ep) as Hst. rewrite two_phases in Ep.
  destruct (reserve_write_packet c hdr (zlen body)) as [c2 [reserved|e]].
  - destruct (commit_write_packet c2 reserved _ now) as [c3 prepared]. simplify_eq. intros H.
    eapply stays_trans; [exact Hst|]. repeat case_match; simplify_eq; by (left + right).
  - simplify_eq. intros; simplify_eq. eapply stays_trans; [exact Hst|by right].
Qed.

Lemma advance_write_stays c now unread now' send c' r :
  advance_write c now unread now' send = (c', r) -> stays c c'.
Proof.
  unfold advance_write, defer_pending. cbv zeta. intros H. repeat case_match; simplify_eq; by (left + right).
Qed.

Lemma start_stays c prepared o c' r : start_prepared c prepared o = (c', r) -> stays c c'.
Proof.
  unfold start_prepared. destruct prepared as [pr|e]; [|intros; simplify_eq; apply stays_refl].
  destruct (advance_write _ _ _ _ _) as [c1 r1] eqn:E. apply advance_write_stays in E. intros; simplify_eq. exact E.
Qed.

Lemma finish_pending_stays c turns c' r : finish_pending_write c turns = (c', r) -> stays c c'.
Proof.
  unfold finish_pending_write. intros H. repeat case_match; simplify_eq; by (left + right).
Qed.

(** ** Calls

    The operations an end performs, each with the answers it gets from the
    system; [run] is [None] while a blocking call has not returned. *)

Inductive call :=
| CWrite (hdr : byte) (body : list byte) (deadline : option Z) (probe : result io_kind Z)
    (now pending_at : Z) (turns : list write_turn)
| CWriteLive (hdr : byte) (body : list byte) (deadline : option Z) (probe : result io_kind Z)
    (now pending_at : Z) (turns : list write_turn)
| CFlowWrite (hdr : byte) (body : list byte) (now pending_at : Z) (turns : list write_turn)
| CStartWrite (hdr : byte) (body : list byte) (o : start_os)
| CStartWriteUnprobed (hdr : byte) (body : list byte) (o : start_os)
| CAdvanceWrite (now unread now' : Z) (send : result io_kind Z)
| CFinishPending (turns : list write_turn)
| CBackdate (since : Z)
| CTryRead (recv : nat -> recv_result)
| CRead (reads : list (result io_kind (list byte)))
| CReadUntil (deadline : Z) (reads : list read_turn) (cleared : result io_kind unit)
| CAuthenticate (deadline : Z) (reads : list read_turn) (cleared : result io_kind unit)
| CAcknowledge (seq now : Z)
| CBoundOutput
| CSeedRoundTrip (rtt : Z)
| CWindowBlocked (now : Z)
| CNextAck (side : AckSide) (volume : bool)
| CMinimizeBuffering
| CDisconnect
| CShutdown (closed : result io_kind unit).

(** The state after a call, the packets it admitted, the bytes it took off the
    transport and the packets it returned. *)
Definition effect : Type := Connection * list message * list byte * list Packet.

Definition silent (c : Connection) : option effect := Some (c, [], [], []).

Definition wrote (m : message) (r : Connection * blocking PendingWrite (result WritePacketError unit))
  : option effect :=
  match r with
  | (c, Returned out) => Some (c, admitted_by m out, [], [])
  | (_, Waiting _) => None
  end.

Definition run (c : Connection) (k : call) : option effect :=
  match k with
  | CWrite hdr body deadline probe now pending_at turns =>
      wrote (hdr, body) (write_packet_owned_until c hdr body deadline probe now pending_at turns)
  | CWriteLive hdr body deadline probe now pending_at turns =>
      match write_packet_live_until c hdr body deadline probe now pending_at turns with
      | (c', Returned _) =>
          if conn_connected c
          then wrote (hdr, body) (write_packet_owned_until c hdr body deadline probe now pending_at turns)
          else silent c'
      | (_, Waiting _) => None
      end
  | CFlowWrite hdr body now pending_at turns =>
      wrote (hdr, body) (flow_write_packet c hdr body now pending_at turns)
  | CStartWrite hdr body o =>
      let (c, out) := start_write_packet_owned c hdr body o in Some (c, admitted_by (hdr, body) out, [], [])
  | CStartWriteUnprobed hdr body o =>
      let (c, out) := start_write_packet_owned_unprobed c hdr body o in
      Some (c, admitted_by (hdr, body) out, [], [])
  | CAdvanceWrite now unread now' send => silent (fst (advance_write c now unread now' send))
  | CFinishPending turns =>
      match finish_pending_write c turns with
      | (c, Returned _) => silent c
      | (_, Waiting _) => None
      end
  | CBackdate since => silent (backdate_pending_write c since)
  | CTryRead recv => let '(c, taken, r) := try_read_packet c recv in Some (c, [], taken, got_of r)
  | CRead reads =>
      match read_packet c reads with
      | (c, taken, Returned r) => Some (c, [], taken, match r with Ok p => [p] | Err _ => [] end)
      | (_, _, Waiting _) => None
      end
  | CReadUntil deadline reads cleared =>
      match read_packet_until c deadline reads cleared with
      | (c, taken, Returned r) => Some (c, [], taken, match r with Ok p => [p] | Err _ => [] end)
      | (_, _, Waiting _) => None
      end
  | CAuthenticate deadline reads cleared =>
      match authenticate_peer c deadline reads cleared with
      | (c, taken, Returned _) => Some (c, [], taken, [])
      | (_, _, Waiting _) => None
      end
  | CAcknowledge seq now => silent (acknowledge_delivery c seq now)
  | CBoundOutput => silent (bound_unacknowledged_output c)
  | CSeedRoundTrip rtt => silent (seed_output_round_trip c rtt)
  | CWindowBlocked now => silent (fst (output_window_blocked c now))
  | CNextAck side volume => silent (fst (next_keepalive_ack c side volume))
  | CMinimizeBuffering => silent (minimize_output_buffering c)
  | CDisconnect => silent (disconnect c)
  | CShutdown closed => silent (fst (shutdown c closed))
  end.

(** What holds of a call: packets are below the frame limit, the kernel never
    reports more bytes than it was offered or asked for, taking a socket's read
    timeout off does not fail, and an acknowledgement names a sequence the
    peer's reader has reached ([seen]). *)
Definition call_ok (seen : Z) (c : Connection) (k : call) : Prop :=
  match k with
  | CWrite hdr body deadline probe now pending_at turns
  | CWriteLive hdr body deadline probe now pending_at turns =>
      sendable (hdr, body) /\
      forall prepared, snd (prepare_write_packet c hdr body probe now) = Ok prepared ->
        prepared_ok prepared pending_at deadline turns
  | CFlowWrite hdr body now pending_at turns =>
      sendable (hdr, body) /\
      forall prepared, snd (prepare_write_packet_unprobed c hdr body now) = Ok prepared ->
        prepared_ok prepared pending_at None turns
  | CStartWrite hdr body o =>
      sendable (hdr, body) /\
      forall pr, snd (prepare_write_packet c hdr body (so_probe o) (so_now o)) = Ok pr ->
        first_send_ok pr (so_pending_at o) (so_send o)
  | CStartWriteUnprobed hdr body o =>
      sendable (hdr, body) /\
      forall pr, snd (prepare_write_packet_unprobed c hdr body (so_now o)) = Ok pr ->
        first_send_ok pr (so_pending_at o) (so_send o)
  | CAdvanceWrite now unread now' send => forall p, pending_live c = Some p -> send_ok p send
  | CFinishPending turns => forall p, pending_live c = Some p -> turns_ok p turns
  | CTryRead recv => receives_fit 4 (reader c) recv 0
  | CReadUntil deadline reads cleared => cleared = Ok tt
  | CAcknowledge seq now => 0 <= seq <= seen
  | _ => True
  end.

Lemma moves_seen seen seen' c c' msgs : seen <= seen' -> moves seen c c' msgs -> moves seen' c c' msgs.
Proof.
  intros Hle [H1 (x & Hx & H2)]. split; [done|]. exists x. split; [done|].
  intros up on_way s Hs Hq. apply H2; [done|lia].
Qed.

Lemma wrote_ok seen c hdr body deadline probe now pending_at turns c' msgs taken got :
  conn_ok c -> sendable (hdr, body) ->
  (forall prepared, snd (prepare_write_packet c hdr body probe now) = Ok prepared ->
     prepared_ok prepared pending_at deadline turns) ->
  wrote (hdr, body) (write_packet_owned_until c hdr body deadline probe now pending_at turns)
    = Some (c', msgs, taken, got) ->
  moves seen c c' msgs /\ receives (reader c) (reader c') taken got.
Proof.
  intros Hok Hm Ht. destruct (write_packet_owned_until _ _ _ _ _ _ _ _) as [c1 [out|]] eqn:E; [|done].
  cbn [wrote]. intros; simplify_eq. split; [by eapply write_moves|]. by eapply stays_receives, write_stays.
Qed.

Lemma silent_ok seen c c1 c' msgs taken got :
  moves seen c c1 [] -> stays c c1 -> silent c1 = Some (c', msgs, taken, got) ->
  moves seen c c' msgs /\ receives (reader c) (reader c') taken got.
Proof. unfold silent. intros Hm Hs. intros; simplify_eq. split; [done|by apply stays_receives]. Qed.

Lemma window_calls_ok seen c k c' msgs taken got :
  conn_ok c ->
  match k with CBoundOutput | CSeedRoundTrip _ | CWindowBlocked _ | CNextAck _ _ | CMinimizeBuffering => True | _ => False end ->
  run c k = Some (c', msgs, taken, got) ->
  moves seen c c' msgs /\ receives (reader c) (reader c') taken got.
Proof.
  intros Hok Hk. destruct k; try done; cbn [run]; apply silent_ok; try (by apply moves_same); try (by left).
  - unfold seed_output_round_trip. destruct (output_window c); [by apply moves_same|by apply moves_refl].
  - unfold seed_output_round_trip. by destruct (output_window c); left.
  - unfold output_window_blocked. repeat case_match; cbn [fst]; first [by apply moves_refl|by apply moves_same].
  - unfold output_window_blocked. repeat case_match; cbn [fst]; by left.
  - unfold next_keepalive_ack. destruct (next _ _ _ _ _ _). by apply moves_same.
  - unfold next_keepalive_ack. destruct (next _ _ _ _ _ _). by left.
Qed.

Lemma run_ok seen c k c' msgs taken got :
  conn_ok c -> call_ok seen c k -> run c k = Some (c', msgs, taken, got) ->
  moves seen c c' msgs /\ receives (reader c) (reader c') taken got.
Proof.
  intros Hok Hk. destruct k; cbn [call_ok] in Hk; try (by apply window_calls_ok).
  - destruct Hk. cbn [run]. by apply wrote_ok.
  - destruct Hk. cbn [run]. unfold write_packet_live_until, conn_connected.
    destruct (connected (writer c)) eqn:Ec; cbn [negb].
    + destruct (write_packet_owned_until _ _ _ _ _ _ _ _) as [c1 r] eqn:E. destruct r; [|done]. cbn [map_returned].
      rewrite <-E. by apply wrote_ok.
    + apply silent_ok; [by apply moves_refl|apply stays_refl].
  - destruct Hk. cbn [run]. destruct (flow_write_packet _ _ _ _ _ _) as [c1 [out|]] eqn:E; [|done]. cbn [wrote].
    intros; simplify_eq. split; [by eapply flow_write_moves|by eapply stays_receives, flow_write_stays].
  - destruct Hk. cbn [run]. destruct (start_write_packet_owned c hdr body o) as [c1 out] eqn:E. intros; simplify_eq.
    split; [by eapply start_write_moves|]. apply stays_receives. unfold start_write_packet_owned in E.
    destruct (prepare_write_packet _ _ _ _ _) as [c2 pr] eqn:Ep.
    eapply stays_trans; [by eapply prepare_stays|by eapply start_stays].
  - destruct Hk. cbn [run]. destruct (start_write_packet_owned_unprobed c hdr body o) as [c1 out] eqn:E. intros; simplify_eq.
    split; [by eapply start_unprobed_moves|]. apply stays_receives. unfold start_write_packet_owned_unprobed in E.
    destruct (prepare_write_packet_unprobed _ _ _ _) as [c2 pr] eqn:Ep.
    eapply stays_trans; [by eapply prepare_unprobed_stays|by eapply start_stays].
  - cbn [run]. destruct (advance_write c now unread now' send) as [c1 r] eqn:E. apply silent_ok.
    + eapply advance_write_moves; [done| |exact E]. intros p Hp.
      apply defer_pending_frame in Hp as (p0 & Hp0 & Ho). specialize (Hk _ Hp0). unfold send_ok in *. by rewrite Ho.
    + by eapply advance_write_stays.
  - cbn [run]. destruct (finish_pending_write c turns) as [c1 [out|]] eqn:E; [|done].
    apply silent_ok; [by eapply finish_pending_moves|by eapply finish_pending_stays].
  - cbn [run]. apply silent_ok; [by apply backdate_moves|]. unfold backdate_pending_write. by destruct (pending_live c); left.
  - cbn [run]. destruct (try_read_packet c recv) as [[c1 t1] r] eqn:E. intros; simplify_eq.
    split; [by eapply quiet_moves, try_read_quiet|by eapply try_read_packet_receives].
  - cbn [run]. destruct (read_packet c reads) as [[c1 t1] [r|]] eqn:E; [|done]. intros; simplify_eq.
    split; [by eapply quiet_moves, read_packet_quiet|by eapply read_packet_receives].
  - cbn [run]. destruct (read_packet_until c deadline reads cleared) as [[c1 t1] [r|]] eqn:E; [|done]. intros; simplify_eq.
    split; [by eapply quiet_moves, read_packet_until_quiet|by eapply read_packet_until_receives].
  - cbn [run]. destruct (authenticate_peer c deadline reads cleared) as [[c1 t1] [r|]] eqn:E; [|done]. intros; simplify_eq.
    split; [by eapply authenticate_moves|by eapply authenticate_receives].
  - cbn [run]. apply silent_ok.
    + apply (moves_seen seq); [lia|]. apply acknowledge_moves; [done|lia].
    + unfold acknowledge_delivery. cbv zeta. repeat case_match; by left.
  - cbn [run]. apply silent_ok; [by apply disconnect_moves|by right].
  - cbn [run]. destruct (shutdown c closed) as [c1 r] eqn:E. apply silent_ok; [by eapply shutdown_moves|].
    unfold shutdown in E. simplify_eq. by right.
Qed.
End sending.

(** ** The system *)

(** One end: its connection, the packets it admitted, the packets its
    application read, and the bytes on the way to it. *)
Record peer := mkPeer {
  p_conn : Connection;
  p_sent : list message;
  p_got : list Packet;
  p_in : list byte
}.

(** [joined]: both ends hold the same transport and it carries new bytes. *)
Record world := mkWorld {
  client : peer;
  server : peer;
  joined : bool
}.

Definition swap (w : world) : world := mkWorld (server w) (client w) (joined w).

Definition world_start (key : list byte) : world :=
  mkWorld (mkPeer (new_client key) [] [] []) (mkPeer (new_server key) [] [] []) true.

(** Bytes [c'] handed to the kernel beyond those of [c]. *)
Definition new_bytes (c c' : Connection) : list byte := zdrop (zlen (tx (stream c))) (tx (stream c')).

(** The client performed a call; a shutdown ends the transport for both. *)
Definition after_call (w : world) (e : effect) (still_on_way : list byte) : world :=
  let '(c', msgs, taken, got) := e in
  let c := p_conn (client w) in
  mkWorld (mkPeer c' (p_sent (client w) ++ msgs) (p_got (client w) ++ got) still_on_way)
    (mkPeer (p_conn (server w)) (p_sent (server w)) (p_got (server w))
       (if joined w then p_in (server w) ++ new_bytes c c' else p_in (server w)))
    (joined w && negb (shut (stream c'))).

(** The transport fails: of the bytes on the way only the first [n] and [m]
    still arrive. *)
Definition broken (w : world) (n m : Z) : world :=
  mkWorld (mkPeer (p_conn (client w)) (p_sent (client w)) (p_got (client w)) (ztake n (p_in (client w))))
    (mkPeer (p_conn (server w)) (p_sent (server w)) (p_got (server w)) (ztake m (p_in (server w))))
    false.

(** The result of an exchange; the deadline ends one that is still waiting. *)
Definition exchanged {A} (p : prog ConnError A) : result ConnError A :=
  match p with Done r => r | _ => Err (Io TimedOut) end.

Definition on_new_transport (p : peer) (c : Connection) : peer := mkPeer c (p_sent p) (p_got p) [].
Definition in_new_epoch (c : Connection) : peer := mkPeer c [] [] [].

Section system.
Context {sodium : Sodium} {codec : RecoveryCodec}.

Definition candidate_program (p : peer) (ex : RecoveryExchange) : prog ConnError (list (list byte)) :=
  recovery_program (prepare_recovery_candidate (p_conn p)) ex.

(** Both ends tried to recover without a reset. *)
Definition after_recovery (w : world) (exC exS : RecoveryExchange) (rC rS : result ConnError (list (list byte)))
  : world :=
  match recover_with_exchange (p_conn (client w)) exC rC, recover_with_exchange (p_conn (server w)) exS rS with
  | (c, Ok _), (s, Ok _) => mkWorld (on_new_transport (client w) c) (on_new_transport (server w) s) true
  | (c, Ok _), (_, Err _) => mkWorld (on_new_transport (client w) c) (server w) false
  | (_, Err _), (s, Ok _) => mkWorld (client w) (on_new_transport (server w) s) false
  | (_, Err _), (_, Err _) => w
  end.

Inductive call_step (w : world) : world -> Prop :=
| a_call k e still_on_way :
    call_ok (BackedReader.sequence (reader (p_conn (server w)))) (p_conn (client w)) k ->
    run (p_conn (client w)) k = Some e ->
    p_in (client w) = snd (fst e) ++ still_on_way ->
    call_step w (after_call w e still_on_way).

(** The steps within an epoch. *)
Inductive wstep (w : world) : world -> Prop :=
| w_client w' : call_step w w' -> wstep w w'
| w_server w' : call_step (swap w) w' -> wstep w (swap w')
| w_break n m : wstep w (broken w n m)
(** A recovery on a new transport: any run of the two exchanges, with any
    failure of either end. *)
| w_recover exC exS cap n c :
    reset_salt exC = None -> reset_salt exS = None ->
    net_reachable true cap (candidate_program (client w) exC) (candidate_program (server w) exS) n c ->
    wstep w (after_recovery w exC exS (exchanged (pa c)) (exchanged (pb c))).

(** The steps that end an epoch. *)
Inductive epoch_step (w : world) : world -> Prop :=
(** A reset recovery that both ends complete. *)
| w_reset exC exS cap n c lC lS cC cS :
    salt_ok exC -> salt_ok exS -> reset_salt exC <> None ->
    net_reachable true cap (candidate_program (client w) exC) (candidate_program (server w) exS) n c ->
    pa c = Done (Ok lC) -> pb c = Done (Ok lS) ->
    recover_with_exchange (p_conn (client w)) exC (Ok lC) = (cC, Ok tt) ->
    recover_with_exchange (p_conn (server w)) exS (Ok lS) = (cS, Ok tt) ->
    epoch_step w (mkWorld (in_new_epoch cC) (in_new_epoch cS) true)
(** [establish_reset] on the transport both ends hold, before anything else is
    sent on it, completed by both. *)
| w_establish exC exS cap n c lC lS cC cS :
    joined w = true -> p_in (client w) = [] -> p_in (server w) = [] ->
    pending_live (p_conn (client w)) = None -> pending_live (p_conn (server w)) = None ->
    salt_ok exC -> salt_ok exS ->
    net_reachable true cap (recovery_program (reset_start (p_conn (client w))) exC)
      (recovery_program (reset_start (p_conn (server w))) exS) n c ->
    pa c = Done (Ok lC) -> pb c = Done (Ok lS) ->
    establish_reset (p_conn (client w)) exC (Ok lC) = (cC, Ok tt) ->
    establish_reset (p_conn (server w)) exS (Ok lS) = (cS, Ok tt) ->
    epoch_step w (mkWorld (in_new_epoch cC) (in_new_epoch cS) true).

(** A session from its start: [past] holds each earlier epoch as it was when a
    reset ended it, the oldest first. *)
Inductive world_history (key : list byte) : list world -> world -> Prop :=
| wh_start : world_history key [] (world_start key)
| wh_step past w w' : world_history key past w -> wstep w w' -> world_history key past w'
| wh_reset past w w' : world_history key past w -> epoch_step w w' -> world_history key (past ++ [w]) w'.

Definition world_reachable (key : list byte) (w : world) : Prop := exists past, world_history key past w.

Lemma wr_start key : world_reachable key (world_start key).
Proof. exists []. apply wh_start. Qed.

Lemma wr_step key w w' : world_reachable key w -> wstep w w' -> world_reachable key w'.
Proof. intros [past H] Hs. exists past. by eapply wh_step. Qed.
End system.

(** ** Each direction is a link *)

Section soundness.
Context {sodium : Sodium} {laws : SodiumLaws sodium} {codec : RecoveryCodec} {claws : RecoveryCodecLaws codec}.

Definition direction (sender receiver : peer) (up : bool) (s : link) : Prop :=
  carries up (p_in receiver) (view_of (p_conn sender)) s /\
  l_reader s = reader (p_conn receiver) /\ l_sent s = p_sent sender /\ l_delivered s = p_got receiver.

Definition flows (key : list byte) (dir : byte) (sender receiver : peer) (up : bool) : Prop :=
  exists s, reachable key dir s /\ direction sender receiver up s.

Record sound (key : list byte) (out back : byte) (w : world) : Prop := {
  s_client : conn_ok (p_conn (client w));
  s_server : conn_ok (p_conn (server w));
  s_up : joined w = true ->
    shut (stream (p_conn (client w))) = false /\ shut (stream (p_conn (server w))) = false;
  s_out : flows key out (client w) (server w) (joined w);
  s_back : flows key back (server w) (client w) (joined w)
}.

Lemma sound_swap key out back w : sound key out back w -> sound key back out (swap w).
Proof. intros [H1 H2 H3 H4 H5]. split; cbn; try done. intros E. by destruct (H3 E). Qed.

Lemma reachable_rtc key dir s s' : rtc lstep s s' -> reachable key dir s -> reachable key dir s'.
Proof. induction 1; [done|]. intros. by eapply IHrtc, reach_step. Qed.

(** A link whose transport stops carrying new bytes. *)
Lemma flows_close key dir a b up keep :
  flows key dir a b up -> flows key dir a b (up && keep).
Proof.
  intros (s & Hr & (C1 & C2 & C3) & Hd). destruct keep; [exists s; by rewrite andb_true_r|].
  rewrite andb_false_r. exists (with_wire s (ztake (zlen (p_in b)) (l_wire s)) false).
  split; [eapply reach_step; [done|apply step_break]|]. split; [|done].
  unfold carries. cbn. rewrite C1, C3, ztake_app_exact, app_nil_r. by split_and!.
Qed.

Lemma flows_cut key dir a b up n :
  flows key dir a b up -> flows key dir a (mkPeer (p_conn b) (p_sent b) (p_got b) (ztake n (p_in b))) false.
Proof.
  intros (s & Hr & (C1 & C2 & C3) & Hd)%(flows_close _ _ _ _ _ false). rewrite andb_false_r in *.
  cbn [andb] in C2, C3. rewrite app_nil_r in C3.
  exists (with_wire s (ztake n (l_wire s)) false).
  split; [eapply reach_step; [done|apply step_break]|]. split; [|done].
  unfold carries. cbn. by rewrite C1, C3, app_nil_r.
Qed.

(** The sender's half of a call. *)
Lemma flows_send key dir a b up c' msgs got still :
  flows key dir a b up ->
  moves (BackedReader.sequence (reader (p_conn b))) (p_conn a) c' msgs ->
  flows key dir (mkPeer c' (p_sent a ++ msgs) got still)
    (mkPeer (p_conn b) (p_sent b) (p_got b)
       (if up then p_in b ++ new_bytes (p_conn a) c' else p_in b))
    (up && negb (shut (stream c'))).
Proof.
  intros (s & Hr & C & E1 & E2 & E3) [Hok (x & Hx & Hs)].
  destruct (Hs up (p_in b) s C) as (s' & R & C' & F1 & F2 & F3); [by rewrite E1|].
  exists s'. split; [by eapply reachable_rtc|]. unfold new_bytes. rewrite Hx, zdrop_app_exact.
  split; [|cbn; split_and!; congruence]. destruct C' as (D1 & D2 & D3). unfold carries. cbn [p_in p_conn].
  rewrite D1, D2, D3. cbn [view_of v_shut]. by destruct up, (shut (stream c')).
Qed.

(** The receiver's half of a call. *)
Lemma flows_receive key dir a b up c' sent taken still got :
  flows key dir a b up -> receives (reader (p_conn b)) (reader c') taken got -> p_in b = taken ++ still ->
  flows key dir a (mkPeer c' sent (p_got b ++ got) still) up.
Proof.
  intros (s & Hr & (C1 & C2 & C3) & E1 & E2 & E3) Hrec Hin.
  rewrite Hin, <-app_assoc in C3.
  destruct (Hrec s _ E1 C3) as (s' & R & F1 & F2 & F3 & F4 & F5 & F6).
  exists s'. split; [by eapply reachable_rtc|]. split; [|cbn; split_and!; congruence].
  unfold carries. cbn [p_in p_conn]. by rewrite F2, F3, F4, C1, C2.
Qed.

Lemma flows_ext key dir a a' b b' up :
  p_conn a' = p_conn a -> p_sent a' = p_sent a -> p_in b' = p_in b -> p_conn b' = p_conn b -> p_got b' = p_got b ->
  flows key dir a b up -> flows key dir a' b' up.
Proof.
  intros E1 E2 E3 E4 E5 (s & Hr & Hd). exists s. split; [done|]. unfold direction in *. by rewrite E1, E2, E3, E4, E5.
Qed.

Lemma call_sound key out back w w' : sound key out back w -> call_step w w' -> sound key out back w'.
Proof.
  intros [H1 H2 H3 H4 H5] [k [[[c' msgs] taken] got] still Hk Hrun Hin]. cbn [fst snd] in Hin.
  destruct (run_ok _ _ _ _ _ _ _ H1 Hk Hrun) as [Hm Hr]. split; cbn [after_call client server joined p_conn].
  - apply Hm.
  - done.
  - intros [Hj Hs%negb_true_iff]%andb_true_iff. split; [done|by apply H3].
  - by apply flows_send.
  - apply flows_close. eapply flows_ext; [..|by eapply flows_receive]; done.
Qed.

Lemma break_sound key out back w n m : sound key out back w -> sound key out back (broken w n m).
Proof.
  intros [H1 H2 H3 H4 H5]. split; cbn [broken client server joined p_conn]; try done.
  - eapply flows_ext; [..|eapply flows_cut; exact H4]; done.
  - eapply flows_ext; [..|eapply flows_cut; exact H5]; done.
Qed.

(** *** Recovery *)

Lemma reachable_sequence key dir s : reachable key dir s -> 0 <= BackedReader.sequence (l_reader s).
Proof.
  intros (n0 & acked & Hinv)%reachable_inv. pose proof (i_sequence _ _ _ Hinv).
  pose proof (inv_acked _ _ _ (i_writer _ _ _ Hinv)). lia.
Qed.

Lemma flows_sequence key dir a b up : flows key dir a b up -> 0 <= BackedReader.sequence (reader (p_conn b)).
Proof. intros (s & Hr & _ & <- & _). by eapply reachable_sequence. Qed.

(** A connection on a new transport. *)
Record renewed (c' : Connection) (w : BackedWriter) : Prop := {
  r_shut : shut (stream c') = false;
  r_pending : pending_live c' = None;
  r_writer : writer c' = revive w
}.

Lemma renewed_ok c' w : renewed c' w -> conn_ok c'.
Proof. intros [H1 H2 H3]. split; rewrite ?H1, ?H2; done. Qed.

Lemma revive_halves_ok c l c' n :
  revive_halves c l = (c', Ok n) ->
  BackedReader.revive (reader c) l = (reader c', Ok tt) /\ stream c' = stream c /\
  pending_live c' = pending_live c /\ writer c' = revive (writer c).
Proof.
  unfold revive_halves. destruct (BackedReader.revive (reader c) l) as [r [[]|e]]; intros; by simplify_eq.
Qed.

Lemma reset_halves_ok c salt c' :
  reset_halves c salt = (c', Ok tt) ->
  BackedReader.reset (reader c) salt = (reader c', Ok tt) /\ reset (writer c) salt = (writer c', Ok tt) /\
  stream c' = stream c /\ pending_live c' = pending_live c.
Proof.
  unfold reset_halves. destruct (BackedReader.reset (reader c) salt) as [r [[]|e]] eqn:Er; [|done].
  cbn [writer set_reader]. destruct (reset (writer c) salt) as [w [[]|e]] eqn:Ew; [|done]. intros; simplify_eq.
  unfold restart_output_window. cbn [output_window set_writer set_reader]. by destruct (output_window c).
Qed.

Lemma recovered_conn c ex r c' :
  reset_salt ex = None -> recover_with_exchange c ex r = (c', Ok tt) ->
  exists l, r = Ok l /\ BackedReader.revive (BackedReader.invalidate (reader c)) l = (reader c', Ok tt) /\
    renewed c' (invalidate (writer c)).
Proof.
  intros Hex. unfold recover_with_exchange, run_recovery_handshake_with. rewrite Hex.
  destruct r as [l|e]; [|done]. destruct (revive_halves _ l) as [c1 [n|e]] eqn:E; [|done]. intros; simplify_eq.
  apply revive_halves_ok in E as (E1 & E2 & E3 & E4). exists l. split; [done|]. split; [exact E1|].
  split; by rewrite ?E2, ?E3, ?E4.
Qed.

Lemma reset_conn c ex l c' salt :
  reset_salt ex = Some salt -> recover_with_exchange c ex (Ok l) = (c', Ok tt) ->
  exists w r, reset (invalidate (writer c)) salt = (w, Ok tt) /\
    BackedReader.reset (BackedReader.invalidate (reader c)) salt = (r, Ok tt) /\
    BackedReader.revive r [] = (reader c', Ok tt) /\ renewed c' w.
Proof.
  intros Hex. unfold recover_with_exchange, run_recovery_handshake_with. rewrite Hex.
  destruct (reset_halves _ salt) as [c1 [[]|e]] eqn:E; [|done].
  apply reset_halves_ok in E as (E1 & E2 & E3 & E4).
  destruct (revive_halves c1 []) as [c2 [n|e]] eqn:F; [|done]. intros; simplify_eq.
  apply revive_halves_ok in F as (F1 & F2 & F3 & F4). exists (writer c1), (reader c1).
  split_and!; [exact E2|exact E1|exact F1|]. split; by rewrite ?F2, ?F3, ?F4, ?E3, ?E4.
Qed.

Lemma established_conn c ex l c' :
  pending_live c = None -> shut (stream c) = false -> establish_reset c ex (Ok l) = (c', Ok tt) ->
  exists salt w r, reset_salt ex = Some salt /\ reset (invalidate (writer c)) salt = (w, Ok tt) /\
    BackedReader.reset (BackedReader.invalidate (reader c)) salt = (r, Ok tt) /\
    BackedReader.revive r [] = (reader c', Ok tt) /\ renewed c' w.
Proof.
  intros Hp Hs. unfold establish_reset. destruct (reset_salt ex) as [salt|] eqn:Hex; [|done].
  destruct (reset_halves _ salt) as [c1 [[]|e]] eqn:E; [|done].
  apply reset_halves_ok in E as (E1 & E2 & E3 & E4). destruct l as [|e l]; [|done].
  destruct (revive_halves c1 []) as [c2 [n|e]] eqn:F; [|done]. intros; simplify_eq.
  apply revive_halves_ok in F as (F1 & F2 & F3 & F4). exists salt, (writer c1), (reader c1).
  split; [done|]. split_and!; [exact E2|exact E1|exact F1|].
  split; rewrite ?F2, ?F3, ?F4, ?E3, ?E4; [|done|done]. cbn. unfold drop_live. by rewrite Hp.
Qed.

Lemma renewed_view c' w : renewed c' w -> view_of c' = mkView (revive w) false [].
Proof. intros [H1 H2 H3]. unfold view_of, rest. by rewrite H1, H2, H3. Qed.

Lemma flows_recovered key dir a b up l ca cb :
  flows key dir a b up ->
  recover (writer (p_conn a)) (BackedReader.sequence (reader (p_conn b))) = Ok l ->
  BackedReader.revive (BackedReader.invalidate (reader (p_conn b))) l = (reader cb, Ok tt) ->
  renewed ca (invalidate (writer (p_conn a))) ->
  flows key dir (on_new_transport a ca) (on_new_transport b cb) true.
Proof.
  intros (s & Hr & (C1 & C2 & C3) & E1 & E2 & E3) Hrec Hrev Hnew.
  eexists. split; [eapply reach_step; [done|eapply step_recover; split; by rewrite ?C1, ?E1]|].
  split; [|done]. unfold carries. cbn [p_conn on_new_transport p_in]. rewrite (renewed_view _ _ Hnew). cbn.
  by rewrite C1.
Qed.

Lemma flows_reader_recovered key dir a b up l cb :
  flows key dir a b up ->
  recover (writer (p_conn a)) (BackedReader.sequence (reader (p_conn b))) = Ok l ->
  BackedReader.revive (BackedReader.invalidate (reader (p_conn b))) l = (reader cb, Ok tt) ->
  flows key dir a (on_new_transport b cb) false.
Proof.
  intros (s & Hr & (C1 & C2 & C3) & E1 & E2 & E3) Hrec Hrev.
  eexists. split; [eapply reach_step; [done|eapply step_recover_reader; split; by rewrite ?C1, ?E1]|].
  split; [|done]. unfold carries. by cbn.
Qed.

Lemma flows_writer_recovered key dir a b up ca :
  flows key dir a b up -> renewed ca (invalidate (writer (p_conn a))) ->
  flows key dir (on_new_transport a ca) b false.
Proof.
  intros (s & Hr & (C1 & C2 & C3) & E)%(flows_close _ _ _ _ _ false) Hnew. rewrite andb_false_r in *.
  eexists. split; [eapply reach_step; [done|apply step_recover_writer]|].
  split; [|done]. unfold carries. cbn [p_conn on_new_transport]. rewrite (renewed_view _ _ Hnew). cbn.
  rewrite C1, C3. by split_and!.
Qed.

Lemma flows_reset key dir a b up salt wa ra ca cb :
  flows key dir a b up -> reset (invalidate (writer (p_conn a))) salt = (wa, Ok tt) ->
  BackedReader.reset (BackedReader.invalidate (reader (p_conn b))) salt = (ra, Ok tt) ->
  BackedReader.revive ra [] = (reader cb, Ok tt) -> renewed ca wa ->
  flows key dir (in_new_epoch ca) (in_new_epoch cb) true.
Proof.
  intros (s & Hr & (C1 & C2 & C3) & E1 & E2 & E3) Hw Hrd Hrev Hnew. cbn [view_of v_writer] in C1.
  eexists. split; [eapply reach_step; [done|]; eapply step_reset; [by rewrite C1|by rewrite E1|done]|].
  split; [|done]. unfold carries. cbn [p_conn in_new_epoch p_in]. rewrite (renewed_view _ _ Hnew). by cbn.
Qed.

(** What a completed candidate received. *)
Lemma candidate_completed a exA b exB cap n c l :
  0 <= BackedReader.sequence (reader (p_conn a)) -> 0 <= BackedReader.sequence (reader (p_conn b)) ->
  salt_ok exA -> salt_ok exB ->
  net_reachable true cap (candidate_program a exA) (candidate_program b exB) n c -> pa c = Done (Ok l) ->
  reset_salt exB = reset_salt exA /\
  match reset_salt exA with
  | None => recover (writer (p_conn b)) (BackedReader.sequence (reader (p_conn a))) = Ok l
  | Some _ => l = []
  end.
Proof. intros Ha Hb Sa Sb Hr Hd. exact (exchange_completed _ _ _ _ _ _ _ _ _ _ _ Ha Hb Sa Sb Hr Hd). Qed.

Lemma no_salt ex : reset_salt ex = None -> salt_ok ex.
Proof. intros E salt. by rewrite E. Qed.

Lemma exchanged_ok {A} (p : prog ConnError A) a : exchanged p = Ok a -> p = Done (Ok a).
Proof. destruct p; cbn; try done. by intros ->. Qed.

(** What both ends' results tell of their transports. *)
Lemma recover_sound key out back w exC exS cap n c :
  sound key out back w -> reset_salt exC = None -> reset_salt exS = None ->
  net_reachable true cap (candidate_program (client w) exC) (candidate_program (server w) exS) n c ->
  sound key out back (after_recovery w exC exS (exchanged (pa c)) (exchanged (pb c))).
Proof.
  intros Hs HC HS Hnet. pose proof Hs as [H1 H2 H3 H4 H5].
  pose proof (flows_sequence _ _ _ _ _ H4) as Q2. pose proof (flows_sequence _ _ _ _ _ H5) as Q1.
  unfold after_recovery.
  destruct (recover_with_exchange (p_conn (client w)) exC _) as [cc oc] eqn:Ec.
  destruct (recover_with_exchange (p_conn (server w)) exS _) as [cs os] eqn:Es.
  assert (oc = Ok tt -> exists l, recover (writer (p_conn (server w))) (BackedReader.sequence (reader (p_conn (client w)))) = Ok l /\
    BackedReader.revive (BackedReader.invalidate (reader (p_conn (client w)))) l = (reader cc, Ok tt) /\
    renewed cc (invalidate (writer (p_conn (client w))))) as Kc.
  { intros ->. apply recovered_conn in Ec as (l & El & Er & En); [|done]. exists l. split_and!; try done.
    apply exchanged_ok in El. destruct (candidate_completed _ _ _ _ _ _ _ _ Q1 Q2 (no_salt _ HC) (no_salt _ HS) Hnet El) as [_ Hl].
    by rewrite HC in Hl. }
  assert (os = Ok tt -> exists l, recover (writer (p_conn (client w))) (BackedReader.sequence (reader (p_conn (server w)))) = Ok l /\
    BackedReader.revive (BackedReader.invalidate (reader (p_conn (server w)))) l = (reader cs, Ok tt) /\
    renewed cs (invalidate (writer (p_conn (server w))))) as Ks.
  { intros ->. apply recovered_conn in Es as (l & El & Er & En); [|done]. exists l. split_and!; try done.
    apply exchanged_ok in El. apply flip_reachable in Hnet.
    destruct (candidate_completed _ _ _ _ _ _ _ _ Q2 Q1 (no_salt _ HS) (no_salt _ HC) Hnet El) as [_ Hl].
    by rewrite HS in Hl. }
  clear Ec Es. destruct oc as [[]|ec], os as [[]|es]; [..|done].
  - destruct (Kc eq_refl) as (lc & Rc & Vc & Nc), (Ks eq_refl) as (ls & Rs & Vs & Ns).
    split; cbn [client server joined p_conn on_new_transport];
      [by eapply renewed_ok|by eapply renewed_ok|by split; [apply Nc|apply Ns]| |].
    + by eapply (flows_recovered _ _ (client w)).
    + by eapply (flows_recovered _ _ (server w)).
  - destruct (Kc eq_refl) as (lc & Rc & Vc & Nc).
    split; cbn [client server joined p_conn on_new_transport]; [by eapply renewed_ok|done|done| |].
    + by eapply flows_writer_recovered.
    + eapply flows_reader_recovered; done.
  - destruct (Ks eq_refl) as (ls & Rs & Vs & Ns).
    split; cbn [client server joined p_conn on_new_transport]; [done|by eapply renewed_ok|done| |].
    + eapply flows_reader_recovered; done.
    + by eapply flows_writer_recovered.
Qed.

Lemma reset_sound key out back w exC exS cap n c lC lS cC cS :
  sound key out back w -> salt_ok exC -> salt_ok exS -> reset_salt exC <> None ->
  net_reachable true cap (candidate_program (client w) exC) (candidate_program (server w) exS) n c ->
  pa c = Done (Ok lC) ->
  recover_with_exchange (p_conn (client w)) exC (Ok lC) = (cC, Ok tt) ->
  recover_with_exchange (p_conn (server w)) exS (Ok lS) = (cS, Ok tt) ->
  sound key out back (mkWorld (in_new_epoch cC) (in_new_epoch cS) true).
Proof.
  intros [H1 H2 H3 H4 H5] SC SS Hex Hnet Hpa Hc Hs.
  pose proof (flows_sequence _ _ _ _ _ H4) as Q2. pose proof (flows_sequence _ _ _ _ _ H5) as Q1.
  destruct (candidate_completed _ _ _ _ _ _ _ _ Q1 Q2 SC SS Hnet Hpa) as [Heq _].
  destruct (reset_salt exC) as [salt|] eqn:HC; [|done].
  destruct (reset_conn _ _ _ _ _ HC Hc) as (wc & rc & A1 & A2 & A3 & A4).
  destruct (reset_conn _ _ _ _ _ Heq Hs) as (ws & rs & B1 & B2 & B3 & B4).
  split; cbn [client server joined p_conn in_new_epoch];
    [by eapply renewed_ok|by eapply renewed_ok|by split; [apply A4|apply B4]| |].
  - by eapply (flows_reset _ _ (client w) (server w)).
  - by eapply (flows_reset _ _ (server w) (client w)).
Qed.

Lemma establish_sound key out back w exC exS cap n c lC lS cC cS :
  sound key out back w -> joined w = true ->
  pending_live (p_conn (client w)) = None -> pending_live (p_conn (server w)) = None ->
  salt_ok exC -> salt_ok exS ->
  net_reachable true cap (recovery_program (reset_start (p_conn (client w))) exC)
    (recovery_program (reset_start (p_conn (server w))) exS) n c ->
  pa c = Done (Ok lC) ->
  establish_reset (p_conn (client w)) exC (Ok lC) = (cC, Ok tt) ->
  establish_reset (p_conn (server w)) exS (Ok lS) = (cS, Ok tt) ->
  sound key out back (mkWorld (in_new_epoch cC) (in_new_epoch cS) true).
Proof.
  intros [H1 H2 H3 H4 H5] Hj Pc Ps SC SS Hnet Hpa Hc Hs. destruct (H3 Hj) as [Xc Xs].
  pose proof (flows_sequence _ _ _ _ _ H4) as Q2. pose proof (flows_sequence _ _ _ _ _ H5) as Q1.
  destruct (exchange_completed _ _ _ _ _ _ _ _ _ _ _ Q1 Q2 SC SS Hnet Hpa) as [Heq _].
  destruct (established_conn _ _ _ _ Pc Xc Hc) as (salt & wc & rc & HC & A1 & A2 & A3 & A4).
  destruct (established_conn _ _ _ _ Ps Xs Hs) as (salt' & ws & rs & HS & B1 & B2 & B3 & B4).
  assert (salt' = salt) as -> by congruence.
  split; cbn [client server joined p_conn in_new_epoch];
    [by eapply renewed_ok|by eapply renewed_ok|by split; [apply A4|apply B4]| |].
  - by eapply (flows_reset _ _ (client w) (server w)).
  - by eapply (flows_reset _ _ (server w) (client w)).
Qed.

Lemma start_sound key : sound key DIR_CLIENT_TO_SERVER DIR_SERVER_TO_CLIENT (world_start key).
Proof.
  split; [split; done|split; done|done| |].
  - eexists. split; [apply (reach_start _ _ SERVER_MAX_SOCKET_READ)|]. by split.
  - eexists. split; [apply (reach_start _ _ CLIENT_MAX_SOCKET_READ)|]. by split.
Qed.

Lemma step_sound key w w' :
  sound key DIR_CLIENT_TO_SERVER DIR_SERVER_TO_CLIENT w -> wstep w w' ->
  sound key DIR_CLIENT_TO_SERVER DIR_SERVER_TO_CLIENT w'.
Proof.
  intros Hw Hstep. destruct Hstep.
  - by eapply call_sound.
  - apply sound_swap. eapply call_sound; [by apply sound_swap|done].
  - by apply break_sound.
  - by eapply recover_sound.
Qed.

Lemma epoch_sound key w w' :
  sound key DIR_CLIENT_TO_SERVER DIR_SERVER_TO_CLIENT w -> epoch_step w w' ->
  sound key DIR_CLIENT_TO_SERVER DIR_SERVER_TO_CLIENT w'.
Proof.
  intros Hw Hstep. destruct Hstep.
  - eapply (reset_sound _ _ _ w exC exS); eassumption.
  - eapply (establish_sound _ _ _ w exC exS); eassumption.
Qed.

(** Every epoch of a session, the closed ones and the current one. *)
Lemma history_sound key past w :
  world_history key past w -> Forall (sound key DIR_CLIENT_TO_SERVER DIR_SERVER_TO_CLIENT) (past ++ [w]).
Proof.
  induction 1 as [|past w w' _ IH Hs|past w w' _ IH Hs]; rewrite ?Forall_app, ?Forall_singleton in *.
  - split; [done|apply start_sound].
  - destruct IH as [IH Hw]. split; [done|by eapply step_sound].
  - destruct IH as [IH Hw]. split; [by split|by eapply epoch_sound].
Qed.

Lemma world_sound key w : world_reachable key w -> sound key DIR_CLIENT_TO_SERVER DIR_SERVER_TO_CLIENT w.
Proof. intros [past H%history_sound]. apply Forall_app in H as [_ H]. by apply Forall_inv in H. Qed.

(** *** Complete recoveries *)

Lemma revive_sequence r l r' :
  BackedReader.revive r l = (r', Ok tt) -> BackedReader.sequence r' = BackedReader.sequence r + zlen l.
Proof.
  unfold BackedReader.revive. destruct (decode_catchup _ l) as [c [d|e]]; [|done]. cbv zeta.
  destruct (carries_data d); intros [= <-]; done.
Qed.

(** What [b] has not received fits the replay caps of [a]. *)
Definition within_caps (a b : peer) : Prop :=
  let missed := zdrop (BackedReader.sequence (reader (p_conn b))) (p_sent a) in
  stream_wire missed <= MAX_BACKUP_BYTES /\ zlen missed <= MAX_BACKUP_PACKETS.

Lemma flows_catchup key dir a b up :
  flows key dir a b up -> within_caps a b ->
  exists l r, recover (writer (p_conn a)) (BackedReader.sequence (reader (p_conn b))) = Ok l /\
    catchup_admitted l /\
    BackedReader.revive (BackedReader.invalidate (reader (p_conn b))) l = (r, Ok tt) /\
    p_got b ++ replay r = map packet_of (p_sent a).
Proof.
  intros (s & (n0 & acked & Hinv)%reachable_inv & (C1 & _ & _) & E1 & E2 & E3) [Hb Hp].
  cbn [view_of v_writer] in C1. rewrite <-E1, <-E2 in Hb, Hp.
  destruct (recover_within_caps _ _ _ Hinv Hb Hp) as (l & r & [Hrec Hrev] & Hcon).
  pose proof (i_writer _ _ _ Hinv) as Hw. pose proof (inv_repr _ _ _ Hw) as Hrepr.
  pose proof (i_sequence _ _ _ Hinv) as Hq. pose proof (inv_acked _ _ _ Hw) as Ha.
  assert (zlen l = zlen (l_sent s) - BackedReader.sequence (l_reader s)) as Hl.
  { pose proof Hrec as Hr. rewrite (recover_repr _ _ _ Hrepr) in Hr. unfold link_frames in Hr.
    destruct (_ <? _) in Hr; [done|]. destruct (_ <? _) in Hr; [done|]. injection Hr as <-.
    unfold zlen at 1. rewrite length_map. fold (zlen (zdrop (BackedReader.sequence (l_reader s))
      (frames (base_key (crypto (l_writer s))) n0 (l_sent s)))). rewrite zlen_zdrop, zlen_frames. lia. }
  destruct (repr_catchup_admitted _ _ _ _ Hrepr (inv_total _ _ _ Hw) Hrec) as [_ Hadm].
  exists l, r. rewrite <-C1, <-E1, <-E2, <-E3. split_and!; [done| |done|].
  - apply Hadm. rewrite zlen_zdrop in Hp. unfold MAX_DISCONNECT_PACKETS. lia.
  - pose proof (inv_recover s n0 acked l r (l_writer s) true Hinv (conj Hrec Hrev) eq_refl Hw) as Hinv'.
    pose proof (i_delivered _ _ _ Hinv') as Hd. cbn [l_delivered l_reader l_sent] in Hd. rewrite Hd.
    apply revive_sequence in Hrev. cbn in Hrev. rewrite ztake_all by lia. done.
Qed.

Lemma recover_succeeds c ex l r :
  reset_salt ex = None -> BackedReader.revive (BackedReader.invalidate (reader c)) l = (r, Ok tt) ->
  exists c', recover_with_exchange c ex (Ok l) = (c', Ok tt) /\ reader c' = r.
Proof.
  intros Hex Hr. unfold recover_with_exchange, run_recovery_handshake_with. rewrite Hex. unfold revive_halves.
  change (reader (prepare_recovery_candidate c)) with (BackedReader.invalidate (reader c)). rewrite Hr. by eexists.
Qed.

Lemma flows_prefix key dir a b up :
  flows key dir a b up ->
  p_got b `prefix_of` map packet_of (p_sent a) /\ is_ok (snd (pop (reader (p_conn b)))) = true.
Proof.
  intros (s & (n0 & acked & Hinv)%reachable_inv & _ & <- & <- & <-). split.
  - eapply inv_delivered_prefix; exact Hinv.
  - destruct (pop (l_reader s)) as [r res] eqn:Hpop.
    by destruct (inv_pop _ _ _ _ _ Hinv Hpop) as [[-> _]|(p & -> & _)].
Qed.

(** What an end did in all epochs of a session. *)
Definition over_epochs {A} (f : world -> list A) (epochs : list world) : list A := concat (map f epochs).

Lemma over_epochs_sublist {A B} (g : A -> B) (got : world -> list B) (sent : world -> list A) epochs :
  Forall (fun e => got e `prefix_of` map g (sent e)) epochs ->
  over_epochs got epochs `sublist_of` map g (over_epochs sent epochs).
Proof.
  unfold over_epochs. induction 1 as [|e epochs [k He] _ IH]; [constructor|]. cbn [map concat].
  rewrite map_app, He. apply sublist_app; [|done]. by apply sublist_inserts_r.
Qed.

Lemma history_prefix key past w :
  world_history key past w ->
  Forall (fun e => p_got (server e) `prefix_of` map packet_of (p_sent (client e))) (past ++ [w]) /\
  Forall (fun e => p_got (client e) `prefix_of` map packet_of (p_sent (server e))) (past ++ [w]).
Proof.
  intros H%history_sound. split; eapply Forall_impl; try exact H; intros e [_ _ _ H4 H5].
  - by apply (flows_prefix _ _ _ _ _ H4).
  - by apply (flows_prefix _ _ _ _ _ H5).
Qed.

(** ** Theorems *)

(** C1: Over a whole session, from its start and across every reset that both ends
    completed: in each epoch each application has received a prefix of what the
    other end admitted in that epoch, and over all epochs what it received is a
    subsequence of what the other end admitted, so nothing arrives twice, out
    of order or from an epoch that a reset gave up. No reader meets bytes it
    cannot decode. The calls are any sequence of the operations of the two
    connections with any answers of the sockets in which packets fit the frame
    limit, the kernel reports no more bytes than it was offered, a read timeout
    can be taken off, and acknowledgements name what the peer's reader has
    reached; transports fail and are replaced at any time, and
    [establish_reset] runs with nothing on the way. *)
Theorem session_exactly_once key past w :
  world_history key past w ->
  Forall (fun e =>
    p_got (server e) `prefix_of` map packet_of (p_sent (client e)) /\
    p_got (client e) `prefix_of` map packet_of (p_sent (server e))) (past ++ [w]) /\
  over_epochs (fun e => p_got (server e)) (past ++ [w]) `sublist_of`
    map packet_of (over_epochs (fun e => p_sent (client e)) (past ++ [w])) /\
  over_epochs (fun e => p_got (client e)) (past ++ [w]) `sublist_of`
    map packet_of (over_epochs (fun e => p_sent (server e)) (past ++ [w])) /\
  is_ok (snd (pop (reader (p_conn (server w))))) = true /\
  is_ok (snd (pop (reader (p_conn (client w))))) = true.
Proof.
  intros H. destruct (history_prefix _ _ _ H) as [H1 H2].
  pose proof (world_sound key w (ex_intro _ past H)) as [_ _ _ H4 H5].
  split; [by apply Forall_and|]. split; [by apply over_epochs_sublist|]. split; [by apply over_epochs_sublist|].
  split; [apply (flows_prefix _ _ _ _ _ H4)|apply (flows_prefix _ _ _ _ _ H5)].
Qed.

(** C2: Whatever happened before, take a reconnect without a reset on a transport
    that does not fail, when neither end misses more than the replay caps hold,
    both readers' sequences fit the header's [int32] field (at most 2^31 - 1
    packets in the epoch), and the client's header fits the socket buffer. It
    cannot hang or fail: the runs of the two exchanges are bounded, one that
    stops has both ends recovered, and then each reader holds exactly what its
    application has not received of the packets the other admitted in this
    epoch. *)
Theorem session_recovers key w cap :
  world_reachable key w -> within_caps (client w) (server w) -> within_caps (server w) (client w) ->
  BackedReader.sequence (reader (p_conn (client w))) <= i32_max ->
  BackedReader.sequence (reader (p_conn (server w))) <= i32_max ->
  zlen (framed (own_header (BackedReader.sequence (reader (p_conn (client w)))) (exchange_client None))) <= cap ->
  let run_of := net_reachable false cap (candidate_program (server w) exchange_default)
    (candidate_program (client w) (exchange_client None)) in
  (exists bound, forall n c, run_of n c -> (n <= bound)%nat) /\
  forall n c, run_of n c ->
    (exists c', nstep false cap c c') \/
    exists w', w' = after_recovery w (exchange_client None) exchange_default (exchanged (pb c)) (exchanged (pa c)) /\
      world_reachable key w' /\ joined w' = true /\
      p_got (server w) ++ replay (reader (p_conn (server w'))) = map packet_of (p_sent (client w)) /\
      p_got (client w) ++ replay (reader (p_conn (client w'))) = map packet_of (p_sent (server w)).
Proof.
  intros Hw HCS HSC IC IS Hcap run_of. pose proof Hw as [_ _ _ H4 H5]%world_sound.
  pose proof (flows_sequence _ _ _ _ _ H4) as Q2. pose proof (flows_sequence _ _ _ _ _ H5) as Q1.
  destruct (flows_catchup _ _ _ _ _ H4 HCS) as (lS & rS & RS & AS & VS & DS).
  destruct (flows_catchup _ _ _ _ _ H5 HSC) as (lC & rC & RC & AC & VC & DC).
  pose proof (exchange_agrees (invalidate (writer (p_conn (server w)))) (BackedReader.sequence (reader (p_conn (server w))))
    (invalidate (writer (p_conn (client w)))) (BackedReader.sequence (reader (p_conn (client w)))) lC lS cap
    (conj Q2 IS) (conj Q1 IC) RC RS AC AS Hcap) as Hag.
  split; [by eapply agree_bounded|]. intros n c Hr.
  destruct (never_stuck _ _ _ _ _ _ _ _ Hag n c Hr) as [[Ea Eb]|Hstep]; [right|by left].
  eexists. split; [done|]. split.
  { eapply wr_step; [exact Hw|]. apply net_reachable_faulty, flip_reachable in Hr. by eapply w_recover in Hr. }
  rewrite Ea, Eb. cbn [exchanged]. unfold after_recovery.
  destruct (recover_succeeds (p_conn (client w)) (exchange_client None) lC rC eq_refl VC) as (cc & -> & Ec).
  destruct (recover_succeeds (p_conn (server w)) exchange_default lS rS eq_refl VS) as (cs & -> & Es).
  cbn [joined server client on_new_transport p_conn]. by rewrite Ec, Es.
Qed.
End soundness.

(** ** Witnesses *)

(** The client sends a packet and the server reads it; then another one is
    lost with its transport. A reset gives it up, and the first packet of the
    new epoch arrives. *)
Definition demo_write (w : world) (m : message) : option effect :=
  run (sodium := toy_sodium) (p_conn (client w))
    (CWrite (fst m) (snd m) None (Err WouldBlock) 0 0 [mkTurn 0 (Ok (4 + message_wire m)) (Ok tt)]).

Definition demo_sent (w : world) (m : message) : world :=
  match demo_write w m with Some e => after_call w e (p_in (client w)) | None => w end.

Definition demo_read (w : world) : world :=
  let s := swap w in
  match run (sodium := toy_sodium) (p_conn (client s)) (CRead [Ok (p_in (client s))]) with
  | Some e => swap (after_call s e [])
  | None => w
  end.

Definition demo_world1 : world := demo_sent (world_start demo_key) demo_message.
Definition demo_world2 : world := demo_read demo_world1.
Definition demo_world3 : world := broken (demo_sent demo_world2 demo_message) 0 3.

Definition demo_salt : list byte := repeat x07 (Z.to_nat EPOCH_SALT_BYTES).
Definition demo_reset_client : RecoveryExchange := exchange_client (Some demo_salt).
Definition demo_reset_server : RecoveryExchange := mkExchange false (Some demo_salt).

Definition demo_reset_run (w : world) :=
  schedule 200 64 (net_start (candidate_program (client w) demo_reset_client)
    (candidate_program (server w) demo_reset_server)) 0.

Definition demo_reset (w : world) : world :=
  mkWorld (in_new_epoch (fst (recover_with_exchange (sodium := toy_sodium) (p_conn (client w)) demo_reset_client (Ok []))))
    (in_new_epoch (fst (recover_with_exchange (sodium := toy_sodium) (p_conn (server w)) demo_reset_server (Ok [])))) true.

Definition demo_world4 : world := demo_reset demo_world3.
Definition demo_world5 : world := demo_read (demo_sent demo_world4 demo_message).

Lemma demo_sent_step w m e :
  demo_write w m = Some e -> snd (fst e) = [] -> sendable m ->
  (forall prepared, snd (prepare_write_packet (sodium := toy_sodium) (p_conn (client w)) (fst m) (snd m) (Err WouldBlock) 0)
     = Ok prepared -> prepared_ok prepared 0 None [mkTurn 0 (Ok (4 + message_wire m)) (Ok tt)]) ->
  wstep (sodium := toy_sodium) w (demo_sent w m).
Proof.
  intros Hw He Hm Hp. unfold demo_sent. rewrite Hw. apply w_client.
  eapply a_call; [|exact Hw|by rewrite He]. split; [by destruct m|exact Hp].
Qed.

Lemma demo_read_step w e :
  run (sodium := toy_sodium) (p_conn (server w)) (CRead [Ok (p_in (server w))]) = Some e ->
  snd (fst e) = p_in (server w) -> wstep (sodium := toy_sodium) w (demo_read w).
Proof.
  intros Hr He. unfold demo_read. cbv zeta. cbn [swap client]. rewrite Hr. apply w_server.
  eapply a_call; [|exact Hr|]; [exact I|]. cbn [swap client]. by rewrite He, app_nil_r.
Qed.

Ltac demo_sends :=
  eapply demo_sent_step; [vm_compute; reflexivity|vm_compute; reflexivity|vm_compute; discriminate|];
  let prepared := fresh in let H := fresh in
  intros prepared H; vm_compute in H; injection H as <-; vm_compute; repeat split; discriminate.

Lemma demo_step1 : wstep (sodium := toy_sodium) (world_start demo_key) demo_world1.
Proof. demo_sends. Qed.
Lemma demo_step2 : wstep (sodium := toy_sodium) demo_world1 demo_world2.
Proof. eapply demo_read_step; vm_compute; reflexivity. Qed.
Lemma demo_step3 : wstep (sodium := toy_sodium) demo_world2 (demo_sent demo_world2 demo_message).
Proof. demo_sends. Qed.

Lemma demo_epoch1 : world_history (sodium := toy_sodium) demo_key [] demo_world3.
Proof.
  apply (wh_step _ _ _ _ (wh_step _ _ _ _ (wh_step _ _ _ _ (wh_step _ _ _ _ (wh_start _)
    demo_step1) demo_step2) demo_step3) (w_break _ 0 3)).
Qed.

Lemma pair_fst {A B} (x : A * B) b : snd x = b -> x = (fst x, b).
Proof. by destruct x; intros <-. Qed.

Lemma demo_resets : epoch_step (sodium := toy_sodium) demo_world3 demo_world4.
Proof.
  apply (w_reset demo_world3 demo_reset_client demo_reset_server 64 (fst (demo_reset_run demo_world3))
    (snd (demo_reset_run demo_world3)) [] []).
  - intros salt [= <-]. vm_compute. reflexivity.
  - intros salt [= <-]. vm_compute. reflexivity.
  - done.
  - apply net_reachable_faulty. unfold demo_reset_run.
    exact (schedule_reachable 200 64 (candidate_program (client demo_world3) demo_reset_client)
      (candidate_program (server demo_world3) demo_reset_server)).
  - vm_compute. reflexivity.
  - vm_compute. reflexivity.
  - apply pair_fst. vm_compute. reflexivity.
  - apply pair_fst. vm_compute. reflexivity.
Qed.

Lemma demo_step5 : wstep (sodium := toy_sodium) demo_world4 (demo_sent demo_world4 demo_message).
Proof. demo_sends. Qed.
Lemma demo_step6 : wstep (sodium := toy_sodium) (demo_sent demo_world4 demo_message) demo_world5.
Proof. eapply demo_read_step; vm_compute; reflexivity. Qed.

Lemma demo_epoch2 : world_history (sodium := toy_sodium) demo_key [demo_world3] demo_world5.
Proof.
  apply (wh_step _ _ _ _ (wh_step _ _ _ _ (wh_reset demo_key [] _ _ demo_epoch1 demo_resets)
    demo_step5) demo_step6).
Qed.

Lemma session_exactly_once_witness :
  over_epochs (fun e => p_got (server e)) [demo_world3; demo_world5] = [packet_of demo_message; packet_of demo_message] /\
  over_epochs (fun e => p_sent (client e)) [demo_world3; demo_world5] = [demo_message; demo_message; demo_message] /\
  over_epochs (fun e => p_got (server e)) [demo_world3; demo_world5] `sublist_of`
    map packet_of (over_epochs (fun e => p_sent (client e)) [demo_world3; demo_world5]).
Proof.
  split; [vm_compute; reflexivity|]. split; [vm_compute; reflexivity|].
  exact (proj1 (proj2 (session_exactly_once (laws := toy_laws) demo_key [demo_world3] demo_world5 demo_epoch2))).
Defined.

Lemma session_recovers_witness :
  exists bound, forall n c,
    net_reachable false 32 (candidate_program (server demo_world3) exchange_default)
      (candidate_program (client demo_world3) (exchange_client None)) n c -> (n <= bound)%nat.
Proof.
  refine (proj1 (session_recovers (laws := toy_laws) demo_key demo_world3 32 (ex_intro _ [] demo_epoch1) _ _ _ _ _));
    try (split; vm_compute; discriminate); vm_compute; discriminate.
Defined.
