(* ===== verification/SessionFlow.v ===== *)
(** * SessionFlow: [crates/et-server/src/session_flow.rs]

    The output of a session on the server: the state behind the lock of
    [FlowControl], which the terminal bridge fills, the session loop empties
    and recovery pauses, and one function per method, which is what a thread
    does while it holds the lock. An operation that may notify the condition
    variable also says whether it does. The Unix branches are modelled. *)

From S2P Require Import Prelude Bytes Packet OutputInterrupt FlowControl.

Definition FLOW_CONTROL_BUFFER_BYTES : Z := 64 * 1024.
Definition CONNECTED_OUTPUT_BYTES : Z := 2 * 1024 * 1024.
Definition CONNECTED_LANE_BYTES : Z := CONNECTED_OUTPUT_BYTES / 2.
Definition CONNECTED_TERMINAL_READ_AHEAD : Z := 256 * 1024.
Definition DISCONNECTED_OUTPUT_BYTES : Z := 64 * 1024 * 1024.

Definition TERMINAL_EXIT_STATUS : byte := x0c.

Inductive StopMode := Running | Graceful | Hard.

#[export] Instance StopMode_eq_dec : EqDecision StopMode.
Proof. solve_decision. Defined.

Record BridgeWait := mkWait { wait_terminal : bool; wait_control : bool; wait_drain : bool }.

Record WriterState := mkState {
  queue : OutputQueue;
  connected : bool;
  paused : bool;
  in_flight : bool;
  pending_live_in_flight : option Packet;
  bridge_waiting : BridgeWait;
  stop : StopMode;
  unrecoverable : bool;
  default_buffering : bool;
  input : InterruptInput;
  interrupt_drain : bool;
  writer_waiting : bool
}.

Definition set_queue (v : OutputQueue) (s : WriterState) : WriterState :=
  mkState v (connected s) (paused s) (in_flight s) (pending_live_in_flight s) (bridge_waiting s) (stop s)
    (unrecoverable s) (default_buffering s) (input s) (interrupt_drain s) (writer_waiting s).
Definition set_paused (v : bool) (s : WriterState) : WriterState :=
  mkState (queue s) (connected s) v (in_flight s) (pending_live_in_flight s) (bridge_waiting s) (stop s)
    (unrecoverable s) (default_buffering s) (input s) (interrupt_drain s) (writer_waiting s).
Definition set_in_flight (v : bool) (s : WriterState) : WriterState :=
  mkState (queue s) (connected s) (paused s) v (pending_live_in_flight s) (bridge_waiting s) (stop s)
    (unrecoverable s) (default_buffering s) (input s) (interrupt_drain s) (writer_waiting s).
Definition set_pending_live (v : option Packet) (s : WriterState) : WriterState :=
  mkState (queue s) (connected s) (paused s) (in_flight s) v (bridge_waiting s) (stop s)
    (unrecoverable s) (default_buffering s) (input s) (interrupt_drain s) (writer_waiting s).
Definition set_waiting (v : BridgeWait) (s : WriterState) : WriterState :=
  mkState (queue s) (connected s) (paused s) (in_flight s) (pending_live_in_flight s) v (stop s)
    (unrecoverable s) (default_buffering s) (input s) (interrupt_drain s) (writer_waiting s).
Definition set_stop (v : StopMode) (u : bool) (s : WriterState) : WriterState :=
  mkState (queue s) (connected s) (paused s) (in_flight s) (pending_live_in_flight s) (bridge_waiting s) v
    u (default_buffering s) (input s) (interrupt_drain s) (writer_waiting s).
Definition set_input (v : InterruptInput) (s : WriterState) : WriterState :=
  mkState (queue s) (connected s) (paused s) (in_flight s) (pending_live_in_flight s) (bridge_waiting s) (stop s)
    (unrecoverable s) (default_buffering s) v (interrupt_drain s) (writer_waiting s).
Definition set_interrupt_drain (v : bool) (s : WriterState) : WriterState :=
  mkState (queue s) (connected s) (paused s) (in_flight s) (pending_live_in_flight s) (bridge_waiting s) (stop s)
    (unrecoverable s) (default_buffering s) (input s) v (writer_waiting s).
Definition set_writer_waiting (v : bool) (s : WriterState) : WriterState :=
  mkState (queue s) (connected s) (paused s) (in_flight s) (pending_live_in_flight s) (bridge_waiting s) (stop s)
    (unrecoverable s) (default_buffering s) (input s) (interrupt_drain s) v.

(** The limit of the queue follows the connection. *)
Definition set_connected (v : bool) (s : WriterState) : WriterState :=
  mkState (if default_buffering s then set_limit (queue s) (if v then CONNECTED_LANE_BYTES else DISCONNECTED_OUTPUT_BYTES)
           else queue s)
    v (paused s) (in_flight s) (pending_live_in_flight s) (bridge_waiting s) (stop s)
    (unrecoverable s) (default_buffering s) (input s) (interrupt_drain s) (writer_waiting s).

Definition with_limit (m : FlowControlMode) (lim : Z) : WriterState :=
  mkState (FlowControl.new m lim) true false false None (mkWait false false false) Running false
    (lim =? CONNECTED_LANE_BYTES) input_default false false.
Definition flow_new (m : FlowControlMode) : WriterState := with_limit m FLOW_CONTROL_BUFFER_BYTES.
Definition new_default : WriterState := with_limit Backpressure CONNECTED_LANE_BYTES.

Definition wait_for_lane (p : Packet) (s : WriterState) : WriterState :=
  let w := bridge_waiting s in
  if is_terminal_output p then set_waiting (mkWait true (wait_control w) (wait_drain w)) s
  else set_waiting (mkWait (wait_terminal w) true (wait_drain w)) s.

Definition terminal_read_ahead (s : WriterState) : option Z :=
  if default_buffering s && connected s then Some CONNECTED_TERMINAL_READ_AHEAD else None.

Definition is_none_or {A} (f : A -> bool) (o : option A) : bool := match o with Some a => f a | None => true end.

(** The waits that are over are cleared; whether there were any. *)
Definition take_ready_bridge_wait (s : WriterState) : WriterState * bool :=
  let q := queue s in
  let w := bridge_waiting s in
  let resume_bytes := Z.max (limit q / 2) (32 * 1024) in
  let drained := is_empty q in
  let t := wait_terminal w &&
           (drained || (can_resume q LaneTerminal resume_bytes
                        && is_none_or (fun ahead => terminal_bytes q <=? ahead / 2) (terminal_read_ahead s))) in
  let c := wait_control w && (drained || can_resume q LaneControl resume_bytes) in
  let d := wait_drain w && drained in
  (set_waiting (mkWait (wait_terminal w && negb t) (wait_control w && negb c) (wait_drain w && negb d)) s, t || c || d).

Inductive EnqueueError := Unavailable | Backpressured | TooLarge.

(** [FlowWriteResult]; the errors themselves are only logged. *)
Inductive FlowWriteResult := Delivered | BeforeReplay | ReplayOwned | Fatal.

#[export] Instance FlowWriteResult_eq_dec : EqDecision FlowWriteResult.
Proof. solve_decision. Defined.

Section flow.
Context {codec : TerminalBufferCodec} {search : Memchr}.

(** The state, the answer, and whether a parked writer is notified. *)
Definition enqueue_owned (p : Packet) (s : WriterState)
  : WriterState * result (Packet * EnqueueError) unit * bool :=
  if negb (bool_decide (stop s = Running)) then (s, Err (p, Unavailable), false)
  else if bool_decide (header p = TERMINAL_EXIT_STATUS) && (in_flight s || negb (is_empty (queue s)))
  then
    let w := bridge_waiting s in
    (set_waiting (mkWait (wait_terminal w) (wait_control w) true) s, Err (p, Backpressured), false)
  else
    let was_empty := is_empty (queue s) in
    match push (queue s) p with
    | (q, Ok _) => (set_queue q s, Ok tt, was_empty && negb (in_flight s) && writer_waiting s)
    | (q, Err (Full p)) => (wait_for_lane p (set_queue q s), Err (p, Backpressured), false)
    | (q, Err (Oversized p)) => (set_queue q s, Err (p, TooLarge), false)
    end.

Definition observe_input (bytes : list byte) (s : WriterState) : WriterState :=
  let (i, interrupt) := feed (input s) bytes in
  let s := set_input i s in
  if interrupt then
    let (q, dropped) := flush_terminal_on_interrupt (queue s) in
    let s := set_queue q s in
    if 0 <? dropped then set_interrupt_drain true s else s
  else s.

Definition take_interrupt_drain (s : WriterState) : WriterState * bool := (set_interrupt_drain false s, interrupt_drain s).

Definition discard_drained (drained : list Packet) (s : WriterState) : WriterState :=
  set_queue (fst (discard_drained_terminal (queue s) drained)) s.

Definition flow_can_accept_terminal (bytes : Z) (s : WriterState) : WriterState * bool :=
  let ok := bool_decide (stop s = Running) && can_accept_terminal (queue s) bytes
            && is_none_or (fun ahead => sat_add usize_max (terminal_bytes (queue s)) bytes <=? ahead) (terminal_read_ahead s) in
  if ok then (s, true)
  else
    let w := bridge_waiting s in
    (set_waiting (mkWait true (wait_control w) (wait_drain w)) s, false).

(** [pause] returns when no frame is in flight. *)
Definition pause_begin (s : WriterState) : WriterState := set_paused true s.
Definition pause_returns (s : WriterState) : bool := negb (in_flight s).

Definition resume (v : bool) (s : WriterState) : WriterState :=
  let s := set_paused false (set_connected v s) in
  if negb v && bool_decide (stop s = Graceful) then set_stop Hard true s else s.

Definition disconnected (s : WriterState) : WriterState := set_connected false s.

Definition stop_gracefully (s : WriterState) : WriterState * bool :=
  if bool_decide (stop s = Running) then
    (if connected s || paused s then set_stop Graceful (unrecoverable s) s else set_stop Hard true s, true)
  else (s, false).

Definition stop_hard (s : WriterState) : WriterState := set_stop Hard (unrecoverable s) s.

Definition is_hard_stopped (s : WriterState) : bool := bool_decide (stop s = Hard).

Definition no_pending (s : WriterState) : bool := match pending_live_in_flight s with None => true | Some _ => false end.

Definition writer_must_wait (s : WriterState) : bool :=
  match stop s with
  | Hard => false
  | Graceful =>
      paused s
      || (negb (connected s) && (negb (is_empty (queue s)) || negb (no_pending s)))
      || (is_empty (queue s) && no_pending s && in_flight s)
  | Running => paused s || negb (connected s) || (is_empty (queue s) && no_pending s)
  end.

(** [true] with a packet whose frame is already on the wire. *)
Definition take_item (terminal : bool) (s : WriterState) : WriterState * option (Packet * bool) :=
  match stop s with
  | Hard => (s, None)
  | _ =>
      if bool_decide (stop s = Graceful) && is_empty (queue s) && no_pending s then (s, None)
      else
        match pending_live_in_flight s with
        | Some p => (set_in_flight true (set_pending_live None s), Some (p, true))
        | None =>
            match (if terminal then take_packet (queue s) else take_control (queue s)) with
            | (q, None) => (set_queue q s, None)
            | (q, Some p) => (set_in_flight true (set_queue q s), Some (p, false))
            end
        end
  end.

(** [next_item] parks the writer, and goes on once it need not wait. *)
Definition next_item_park (s : WriterState) : WriterState := set_writer_waiting true s.
Definition next_item (s : WriterState) : WriterState * option (Packet * bool) := take_item true (set_writer_waiting false s).

Definition try_next_item (terminal : bool) (s : WriterState) : WriterState * option (Packet * bool) :=
  if writer_must_wait s then (s, None) else take_item terminal s.

Definition hand_back_live (p : Packet) (s : WriterState) : WriterState := set_in_flight false (set_pending_live (Some p) s).

Definition return_unstarted (p : Packet) (s : WriterState) : WriterState * bool :=
  let s := set_in_flight false s in (set_queue (restore_front (queue s) p) s, paused s).

(** Output that cannot be delivered ends a graceful stop. *)
Definition lost_connection (s : WriterState) : WriterState :=
  let s := set_connected false s in if bool_decide (stop s = Graceful) then set_stop Hard true s else s.

(** What [complete_with_signal] does with the packet. *)
Definition settle (p : Packet) (r : FlowWriteResult) (v : bool) (s : WriterState) : WriterState :=
  let s := set_connected v (set_in_flight false s) in
  match r with
  | Delivered =>
      let s := set_queue (complete (queue s) p) s in
      if negb v && bool_decide (stop s = Graceful) then set_stop Hard true s else s
  | BeforeReplay => lost_connection (set_queue (restore_front (queue s) p) s)
  | ReplayOwned => lost_connection (set_queue (complete (queue s) p) s)
  | Fatal => set_stop Hard (unrecoverable s) (set_queue (complete (queue s) p) s)
  end.

(** The state, whether the writer goes on, whether the bridge is to look
    again, and whether the threads that wait are notified. *)
Definition complete_with_signal (p : Packet) (r : FlowWriteResult) (v : bool) (s : WriterState)
  : WriterState * (bool * bool) * bool :=
  let (s, ready) := take_ready_bridge_wait (settle p r v s) in
  (s, (negb (bool_decide (stop s = Hard)),
       ready || negb v || negb (bool_decide (r = Delivered)) || bool_decide (stop s = Hard)),
   paused s || negb (bool_decide (stop s = Running)) || negb v || negb (bool_decide (r = Delivered))).

(** ** The threads of a session

    What holds the packet that is in flight: the session loop, or the writer
    that drains the queue after it, [true] when its frame is started. [pausers]
    counts the recoveries inside [pause]. [accepted] and [completed] are history: the
    control packets admitted, and the packets a writer has finished with. *)
Record session_flow := mkFlow {
  st : WriterState;
  held : option (Packet * bool);
  pausers : nat;
  accepted : list Packet;
  completed : list (Packet * FlowWriteResult)
}.

Inductive flow_op :=
| Enqueue (p : Packet)
| ObserveInput (bytes : list byte)
| TakeInterruptDrain
| DiscardDrained (drained : list Packet)
| CanAcceptTerminal (bytes : Z)
| PauseBegin
| PauseReturn
| Resume (v : bool)
| Disconnected
| StopGracefully
| StopHard
| TryNext (terminal : bool)
| Park
| Unpark
| Started
| Complete (r : FlowWriteResult) (v : bool)
| ReturnUnstarted
| HandBack.

Definition control_only (l : list Packet) : list Packet := filter on_control l.

Definition set_st (s : WriterState) (f : session_flow) : session_flow :=
  mkFlow s (held f) (pausers f) (accepted f) (completed f).

Definition take_into (f : session_flow) (r : WriterState * option (Packet * bool)) : session_flow :=
  mkFlow (fst r) (snd r) (pausers f) (accepted f) (completed f).

(** One operation of one thread: the next state, and whether it notifies.
    [None] where the thread could not do it. There is one writer, and it takes
    an item when it holds none. Recoveries pause and resume as their threads
    are scheduled: a permit is released before its resume, so that one may run
    while another recovery is inside [pause] or past it. The bridge, which drains the terminal, has ended when a writer
    parks, and a frame that is started no longer fails before the replay
    buffer owns it ([advance_write] and [finish] of the connection). *)
Definition flow_step (f : session_flow) (op : flow_op) : option (session_flow * bool) :=
  let s := st f in
  match op with
  | Enqueue p =>
      match enqueue_owned p s with
      | (s, Ok _, n) => Some (mkFlow s (held f) (pausers f) (accepted f ++ control_only [p]) (completed f), n)
      | (s, Err _, n) => Some (set_st s f, n)
      end
  | ObserveInput bytes => Some (set_st (observe_input bytes s) f, true)
  | TakeInterruptDrain => Some (set_st (fst (take_interrupt_drain s)) f, false)
  | DiscardDrained drained =>
      if forallb is_terminal_output drained && negb (writer_waiting s)
      then Some (set_st (discard_drained drained s) f, false) else None
  | CanAcceptTerminal n => Some (set_st (fst (flow_can_accept_terminal n s)) f, false)
  | PauseBegin => Some (mkFlow (pause_begin s) (held f) (S (pausers f)) (accepted f) (completed f), false)
  | PauseReturn =>
      match pausers f with
      | S k => if pause_returns s then Some (mkFlow s (held f) k (accepted f) (completed f), false) else None
      | O => None
      end
  | Resume v => Some (set_st (resume v s) f, true)
  | Disconnected => Some (set_st (disconnected s) f, true)
  | StopGracefully => let (s, n) := stop_gracefully s in Some (set_st s f, n)
  | StopHard => Some (set_st (stop_hard s) f, true)
  | TryNext terminal =>
      match held f with
      | None => if writer_waiting s then None else Some (take_into f (try_next_item terminal s), false)
      | Some _ => None
      end
  | Park => match held f with None => Some (set_st (next_item_park s) f, false) | Some _ => None end
  | Unpark =>
      if writer_waiting s && negb (writer_must_wait s) then Some (take_into f (next_item s), false) else None
  | Started =>
      match held f with
      | Some (p, _) => Some (mkFlow s (Some (p, true)) (pausers f) (accepted f) (completed f), false)
      | None => None
      end
  | Complete r v =>
      match held f with
      | Some (p, started) =>
          if started && bool_decide (r = BeforeReplay) then None
          else
            let '(s, _, n) := complete_with_signal p r v s in
            let completed := if decide (r = BeforeReplay) then completed f else completed f ++ [(p, r)] in
            Some (mkFlow s None (pausers f) (accepted f) completed, n)
      | None => None
      end
  | ReturnUnstarted =>
      match held f with
      | Some (p, false) =>
          let (s, n) := return_unstarted p s in Some (mkFlow s None (pausers f) (accepted f) (completed f), n)
      | _ => None
      end
  | HandBack =>
      match held f with
      | Some (p, true) =>
          Some (mkFlow (hand_back_live p s) None (pausers f) (accepted f) (completed f), true)
      | _ => None
      end
  end.

Definition flow_init (s : WriterState) : session_flow := mkFlow s None 0 [] [].

Inductive flow_reachable : session_flow -> Prop :=
| reach_new m : flow_reachable (flow_init (flow_new m))
| reach_default : flow_reachable (flow_init new_default)
| reach_step f op f' n : flow_reachable f -> flow_step f op = Some (f', n) -> flow_reachable f'.

(** ** The control lane under the operations of the queue *)

Lemma control_one p : control_only [p] = if is_terminal_output p then [] else [p].
Proof. unfold control_only. rewrite filter_control_cons. by destruct (is_terminal_output p). Qed.

Lemma control_only_app l k : control_only (l ++ k) = control_only l ++ control_only k.
Proof. apply filter_app. Qed.

Lemma push_lane q p :
  control (fst (push q p)) = control q ++ (if is_ok (snd (push q p)) then control_only [p] else []).
Proof.
  rewrite control_one. unfold push. destruct (is_terminal_output p) eqn:Hp.
  { rewrite (tc_control _ _ (push_terminal_change q p Hp)). by destruct (is_ok _); rewrite app_nil_r. }
  unfold push_control. destruct (_ <? _); [by rewrite app_nil_r|].
  by destruct (_ || _); [rewrite app_nil_r|].
Qed.

Lemma take_lane q q' p : queue_inv (mkSQ q []) -> take_packet q = (q', Some p) -> control q = control_only [p] ++ control q'.
Proof.
  intros Hinv%(change_inv _ _ _ (promote_change q)). rewrite control_one.
  rewrite <-(tc_control _ _ (promote_change q)). unfold take_packet.
  set (q1 := promote_terminal_control q) in *. clearbody q1.
  destruct Hinv as [_ _ TL CL]. cbn in TL, CL. unfold pop_terminal, pop_control, or_else, on_terminal, on_control in *.
  destruct (terminal q1) as [|t lt] eqn:Et, (control q1) as [|c lc] eqn:Ec; [by destruct (prefer_terminal q1)|..];
    rewrite ?Forall_cons in TL; rewrite ?Forall_cons in CL; destruct (prefer_terminal q1); cbn; intros Ht;
    repeat case_match; simplify_eq; cbn; rewrite ?Ec; try done; (destruct CL; congruence) || (destruct TL; congruence).
Qed.

Lemma take_none q q' : take_packet q = (q', None) -> terminal q = [] /\ control q = [] /\ terminal_change q q'.
Proof.
  unfold take_packet. destruct (promote_keeps q) as (Hl & Hc & _). pose proof (promote_change q) as Hch.
  set (q1 := promote_terminal_control q) in *. clearbody q1. unfold pop_terminal, pop_control, or_else.
  destruct (terminal q1) as [|t lt] eqn:Et, (control q1) as [|c lc] eqn:Ec, (prefer_terminal q1);
    repeat case_match; intros; simplify_eq; rewrite <-Hc; split_and!; try done; by destruct (terminal q).
Qed.

Lemma take_control_lane q q' p :
  queue_inv (mkSQ q []) -> take_control q = (q', Some p) -> control q = control_only [p] ++ control q'.
Proof.
  intros [_ _ _ CL]. cbn in CL. rewrite control_one. unfold take_control, pop_control.
  destruct (control q) as [|c lc] eqn:Ec; [done|]. apply Forall_cons in CL as [Hc _]. unfold on_control in Hc.
  intros [= <- <-]. by rewrite Hc.
Qed.

Lemma complete_lane q p : control (complete q p) = control q.
Proof. unfold complete. by destruct (is_terminal_output p). Qed.

Lemma restore_lane q p : control (restore_front q p) = control_only [p] ++ control q.
Proof. rewrite control_one. unfold restore_front. by destruct (is_terminal_output p), (before_take q). Qed.

Lemma flush_lane q : control (fst (flush_terminal_on_interrupt q)) = control q.
Proof. apply (tc_control _ _ (filter_change q _)). Qed.

Lemma discard_lane q ps : Forall on_terminal ps -> control (fst (discard_drained_terminal q ps)) = control q.
Proof.
  destruct ps as [|p ps]; [done|]. intros H. cbn [discard_drained_terminal].
  rewrite (tc_control _ _ (filter_change _ _)). by apply tc_control, drained_change.
Qed.

(** ** The invariant of a session's output *)

Definition some_list {A} (o : option A) : list A := match o with Some a => [a] | None => [] end.

(** The packets a writer has taken and not finished with. *)
Definition outstanding (f : session_flow) : list Packet :=
  some_list (pending_live_in_flight (st f)) ++ some_list (fst <$> held f).

Record flow_inv (f : session_flow) : Prop := {
  fi_queue : queue_inv (mkSQ (queue (st f)) (outstanding f));
  fi_order : accepted f = control_only (map fst (completed f)) ++ control_only (outstanding f) ++ control (queue (st f));
  fi_held : in_flight (st f) = match held f with Some _ => true | None => false end;
  fi_one : held f = None \/ pending_live_in_flight (st f) = None;
  fi_parked : writer_waiting (st f) = true -> held f = None;
  fi_paused : paused (st f) = true -> pausers f = O -> held f = None;
  fi_results : Forall (fun x => snd x <> BeforeReplay /\ (snd x = Fatal -> stop (st f) = Hard)) (completed f);
  fi_unrecoverable : unrecoverable (st f) = true -> stop (st f) = Hard
}.

Lemma connected_inv v s fl : queue_inv (mkSQ (queue s) fl) -> queue_inv (mkSQ (queue (set_connected v s)) fl).
Proof. unfold set_connected. cbn. destruct (default_buffering s); [|done]. by intros [[] [] ? ?]. Qed.

Lemma connected_lane v s : control (queue (set_connected v s)) = control (queue s).
Proof. unfold set_connected. cbn. by destruct (default_buffering s). Qed.

Lemma waiting_same p s :
  exists w, wait_for_lane p s = set_waiting w s.
Proof. unfold wait_for_lane. destruct (is_terminal_output p); by eexists. Qed.

(** An operation that leaves the writer's packets alone and the control lane
    too keeps the invariant. *)
Lemma inv_keep f s' pz :
  flow_inv f -> queue_inv (mkSQ (queue s') (outstanding f)) -> control (queue s') = control (queue (st f)) ->
  in_flight s' = in_flight (st f) -> pending_live_in_flight s' = pending_live_in_flight (st f) ->
  (writer_waiting s' = true -> held f = None) ->
  (paused s' = true -> pz = O -> held f = None) ->
  (stop (st f) = Hard -> stop s' = Hard) -> (unrecoverable s' = true -> stop s' = Hard) ->
  flow_inv (mkFlow s' (held f) pz (accepted f) (completed f)).
Proof.
  intros [] Hq Hc Hi Hp Hw Hn Hs Hu. unfold outstanding in *.
  split; unfold outstanding; cbn; rewrite ?Hp, ?Hi, ?Hc; auto. eapply Forall_impl; [done|]. naive_solver.
Qed.

Lemma enqueue_inv f p : flow_inv f ->
  let r := enqueue_owned p (st f) in
  flow_inv (mkFlow (fst (fst r)) (held f) (pausers f)
    (accepted f ++ if is_ok (snd (fst r)) then control_only [p] else []) (completed f)).
Proof.
  intros Hf. unfold enqueue_owned. destruct (negb _); cbn; [rewrite app_nil_r; by destruct f|].
  destruct (_ && _); cbn; [rewrite app_nil_r; by destruct Hf|].
  pose proof (push_lane (queue (st f)) p) as Hlane.
  pose proof (queue_step_inv _ _ (fi_queue _ Hf) (q_push _ _ p)) as Hq.
  assert (forall w, flow_inv (mkFlow (set_waiting w (set_queue (fst (push (queue (st f)) p)) (st f))) (held f) (pausers f)
    (accepted f ++ if is_ok (snd (push (queue (st f)) p)) then control_only [p] else []) (completed f))) as H.
  { intros w. destruct Hf. split; unfold outstanding; cbn; auto. rewrite Hlane, fi_order0. by rewrite !app_assoc. }
  destruct (push (queue (st f)) p) as [q [|[p'|p']]]; cbn in *.
  - specialize (H (bridge_waiting (st f))). by destruct H.
  - destruct (waiting_same p' (set_queue q (st f))) as [w ->]. apply H.
  - specialize (H (bridge_waiting (st f))). by destruct H.
Qed.

Lemma take_item_inv f terminal : flow_inv f -> held f = None -> (paused (st f) = true -> stop (st f) = Hard) ->
  writer_waiting (st f) = false -> flow_inv (take_into f (take_item terminal (st f))).
Proof.
  intros [] Hh Hp Hw. unfold take_item, take_into, outstanding in *. rewrite Hh in *.
  destruct (decide (stop (st f) = Hard)) as [->|Hs].
  { split; unfold outstanding; cbn; rewrite ?Hh; auto. }
  assert (paused (st f) = false) as Hp' by (destruct (paused (st f)); [exfalso; auto|done]).
  replace (match stop (st f) with Hard => _ | _ => _ end) with
    (if bool_decide (stop (st f) = Graceful) && is_empty (queue (st f)) && no_pending (st f) then (st f, None)
     else match pending_live_in_flight (st f) with
       | Some p => (set_in_flight true (set_pending_live None (st f)), Some (p, true))
       | None => match (if terminal then take_packet (queue (st f)) else take_control (queue (st f))) with
            | (q, None) => (set_queue q (st f), None)
            | (q, Some p) => (set_in_flight true (set_queue q (st f)), Some (p, false))
            end
       end) by (by destruct (stop (st f))).
  destruct (_ && _ && _). { split; unfold outstanding; cbn; rewrite ?Hh; auto. }
  destruct (pending_live_in_flight (st f)) as [p|] eqn:Epl.
  { split; unfold outstanding; cbn; auto; congruence. }
  cbn in *. destruct (if terminal then _ else _) as [q [p|]] eqn:Et; cbn.
  - assert (queue_inv (mkSQ q [p]) /\ control (queue (st f)) = control_only [p] ++ control q) as [Hq Hl].
    { destruct terminal; split; try ((eapply take_lane; done) || (eapply take_control_lane; done));
        (eapply queue_step_inv; [exact fi_queue0|(apply q_take; done) || (apply q_take_control; done)]). }
    split; unfold outstanding; cbn; rewrite ?Epl; auto; try congruence. cbn. rewrite fi_order0, Hl. done.
  - assert (terminal_change (queue (st f)) q) as Hch.
    { destruct terminal; [by apply take_none in Et as (_ & _ & ?)|]. unfold take_control in Et.
      destruct (pop_control _) as [[]|]; simplify_eq. apply terminal_change_refl. }
    split; unfold outstanding; cbn; rewrite ?Epl; cbn; auto.
    + by eapply change_inv.
    + by rewrite (tc_control _ _ Hch).
Qed.

(** The state after a completion, wake-ups aside. *)
Definition completed_state (p : Packet) (r : FlowWriteResult) (v : bool) (s : WriterState) : WriterState :=
  fst (fst (complete_with_signal p r v s)).

Lemma completed_settle p r v s : exists w, completed_state p r v s = set_waiting w (settle p r v s).
Proof. by eexists. Qed.

Lemma settle_fields p r v s :
  let s' := settle p r v s in
  in_flight s' = false /\ pending_live_in_flight s' = pending_live_in_flight s /\
  writer_waiting s' = writer_waiting s /\ paused s' = paused s /\
  (stop s = Hard -> stop s' = Hard) /\ (r = Fatal -> stop s' = Hard) /\
  ((unrecoverable s = true -> stop s = Hard) -> unrecoverable s' = true -> stop s' = Hard).
Proof.
  unfold settle, lost_connection. destruct r, v; cbn; try case_bool_decide; cbn; split_and!; done || tauto.
Qed.

Lemma lost_lane s : control (queue (lost_connection s)) = control (queue s).
Proof. rewrite <-(connected_lane false s). unfold lost_connection. by case_bool_decide. Qed.

Lemma lost_inv s fl : queue_inv (mkSQ (queue s) fl) -> queue_inv (mkSQ (queue (lost_connection s)) fl).
Proof. intros H%(connected_inv false). unfold lost_connection. by case_bool_decide. Qed.

Lemma settle_lane p r v s :
  control (queue (settle p r v s)) = (if decide (r = BeforeReplay) then control_only [p] else []) ++ control (queue s).
Proof.
  change (control (queue s)) with (control (queue (set_in_flight false s))).
  rewrite <-(connected_lane v (set_in_flight false s)). unfold settle.
  set (s1 := set_connected _ _). clearbody s1.
  destruct r, (decide _) as [Hr|Hr]; try discriminate; try congruence; rewrite ?lost_lane; cbn [queue set_queue set_stop app];
    [|apply restore_lane|apply complete_lane..].
  destruct (negb v && _); cbn [queue set_queue set_stop]; apply complete_lane.
Qed.

Lemma limit_inv q fl lim : queue_inv (mkSQ q fl) -> queue_inv (mkSQ (set_limit q lim) fl).
Proof. intros H. eapply queue_step_inv; [exact H|apply q_limit]. Qed.

Lemma settle_queue p r v s : queue_inv (mkSQ (queue s) [p]) -> queue_inv (mkSQ (queue (settle p r v s)) []).
Proof.
  intros H%(connected_inv v (set_in_flight false s) [p]). unfold settle.
  set (s1 := set_connected _ _) in *. clearbody s1.
  pose proof (queue_step_inv _ _ H (q_complete _ [] p [])) as Hc.
  pose proof (queue_step_inv _ _ H (q_restore _ [] p [])) as Hr. cbn [app] in Hc, Hr.
  destruct r; [|by apply lost_inv..|done]. by destruct (negb v && _).
Qed.

Lemma complete_inv f p started r v :
  flow_inv f -> held f = Some (p, started) ->
  flow_inv (mkFlow (completed_state p r v (st f)) None (pausers f) (accepted f)
    (if decide (r = BeforeReplay) then completed f else completed f ++ [(p, r)])).
Proof.
  intros [] Hh. unfold outstanding in *. rewrite Hh in *. destruct fi_one0 as [?|Hl]; [done|].
  rewrite Hl in *. cbn [some_list fmap option_fmap option_map fst app] in fi_queue0, fi_order0.
  destruct (settle_fields p r v (st f)) as (F1 & F2 & F3 & F4 & F5 & F6 & F7).
  pose proof (settle_lane p r v (st f)) as F8. pose proof (settle_queue p r v (st f) fi_queue0) as Hq.
  destruct (completed_settle p r v (st f)) as [w ->].
  set (s' := settle p r v (st f)) in *. clearbody s'.
  split; unfold outstanding; cbn; rewrite ?F2, ?Hl, ?F4; auto.
  - rewrite F8, fi_order0. destruct (decide _); cbn; [done|].
    rewrite map_app, control_only_app. cbn. by rewrite <-!app_assoc.
  - assert (Forall (fun x => snd x <> BeforeReplay /\ (snd x = Fatal -> stop s' = Hard)) (completed f)) as H.
    { eapply Forall_impl; [done|]. naive_solver. }
    destruct (decide _); [done|]. apply Forall_app. split; [done|]. by repeat constructor.
Qed.

Lemma must_wait_paused s : writer_must_wait s = false -> paused s = true -> stop s = Hard.
Proof. unfold writer_must_wait. intros H Hp. rewrite Hp in H. by destruct (stop s). Qed.

Lemma observe_cases bytes s : exists i d,
  observe_input bytes s = set_input i s \/
  observe_input bytes s = set_interrupt_drain d (set_queue (fst (flush_terminal_on_interrupt (queue s))) (set_input i s)).
Proof.
  unfold observe_input. destruct (feed (input s) bytes) as [i []]; [|by exists i, true; left].
  cbn. destruct (flush_terminal_on_interrupt (queue s)) as [q d].
  destruct (0 <? d); [by exists i, true; right|by exists i, (interrupt_drain s); right].
Qed.

Lemma forallb_terminal l : forallb is_terminal_output l = true -> Forall on_terminal l.
Proof. induction l as [|p l IH]; cbn; [by constructor|]. intros [? ?]%andb_true_iff. constructor; auto. Qed.

Lemma flow_step_inv f op f' n : flow_inv f -> flow_step f op = Some (f', n) -> flow_inv f'.
Proof.
  intros Hf. pose proof Hf as Hf0. destruct Hf0. destruct op; cbn [flow_step]; cbv zeta.
  - pose proof (enqueue_inv f p Hf) as H. destruct (enqueue_owned p (st f)) as [[s [u|e]] k]; intros [= <- <-]; cbn in H.
    + done.
    + by rewrite app_nil_r in H.
  - intros [= <- <-]. destruct (observe_cases bytes (st f)) as (i & d & [-> | ->]); apply inv_keep; cbn; auto.
    + by eapply queue_step_inv; [|apply q_flush].
    + apply flush_lane.
  - intros [= <- <-]. by apply inv_keep.
  - destruct (forallb _ _) eqn:Hd; [|done]. cbn. destruct (writer_waiting _) eqn:Ew; [done|]. cbn. intros [= <- <-].
    apply forallb_terminal in Hd.
    apply inv_keep; cbn; auto; [by eapply queue_step_inv; [|apply q_drain]|by apply discard_lane|congruence].
  - intros [= <- <-]. unfold flow_can_accept_terminal. destruct (_ && _ && _); by apply inv_keep.
  - intros [= <- <-]. by apply inv_keep.
  - destruct (pausers f) eqn:Ez; [done|]. unfold pause_returns. rewrite fi_held0. destruct (held f) eqn:Eh; [done|].
    intros [= <- <-]. rewrite <-Eh. apply inv_keep; auto.
  - intros [= <- <-]. unfold set_st.
    apply inv_keep; unfold resume; destruct v; cbn; try case_bool_decide; cbn; auto; try congruence.
    all: destruct (default_buffering (st f)); cbn; auto using limit_inv.
  - intros [= <- <-]. apply inv_keep; cbn; auto; destruct (default_buffering (st f)); cbn; auto using limit_inv.
  - unfold stop_gracefully. case_bool_decide; [destruct (_ || _)|]; intros [= <- <-]; apply inv_keep; cbn; auto; try congruence.
    intros ?%fi_unrecoverable0. congruence.
  - intros [= <- <-]. by apply inv_keep.
  - destruct (held f) eqn:Eh; [done|]. destruct (writer_waiting (st f)) eqn:Ew; [done|]. intros [= <- <-].
    unfold try_next_item. destruct (writer_must_wait (st f)) eqn:Em.
    + unfold take_into. cbn. rewrite <-Eh. by destruct f.
    + apply take_item_inv; auto. by apply must_wait_paused.
  - destruct (held f) eqn:Eh; [done|]. intros [= <- <-]. apply inv_keep; cbn; auto.
  - destruct (writer_waiting (st f)) eqn:Ew; [|done]. destruct (writer_must_wait (st f)) eqn:Em; [done|].
    intros [= <- <-]. change (take_into f (next_item (st f))) with
      (take_into (set_st (set_writer_waiting false (st f)) f) (take_item true (set_writer_waiting false (st f)))).
    apply take_item_inv; cbn; auto; [by apply inv_keep|by apply must_wait_paused].
  - destruct (held f) as [[p b]|] eqn:Eh; [|done]. intros [= <- <-].
    unfold outstanding in *. rewrite Eh in *. split; unfold outstanding; cbn; auto.
    + destruct fi_one0; [done|by right].
    + by intros ?%fi_parked0.
    + intros Hp Hz. by specialize (fi_paused0 Hp Hz).
  - destruct (held f) as [[p b]|] eqn:Eh; [|done]. destruct (_ && _); [done|].
    pose proof (complete_inv f p b r v Hf Eh) as H. unfold completed_state in H.
    destruct (complete_with_signal p r v (st f)) as [[s ?] k]. by intros [= <- <-].
  - destruct (held f) as [[p []]|] eqn:Eh; [done| |done]. cbn. intros [= <- <-].
    unfold outstanding in *. rewrite Eh in *. destruct fi_one0 as [?|Hl]; [done|]. rewrite Hl in *.
    split; unfold outstanding; cbn; rewrite ?Hl; auto.
    + exact (queue_step_inv _ _ fi_queue0 (q_restore _ [] p [])).
    + by rewrite restore_lane.
  - destruct (held f) as [[p []]|] eqn:Eh; [|done|done]. cbn. intros [= <- <-].
    unfold outstanding in *. rewrite Eh in *. destruct fi_one0 as [?|Hl]; [done|]. rewrite Hl in *.
    split; unfold outstanding; cbn; auto.
Qed.

Lemma flow_reachable_inv f : flow_reachable f -> flow_inv f.
Proof.
  induction 1 as [m| |f op f' n _ IH H]; [| |by eapply flow_step_inv];
    (split; cbn; try done; try (by left)); by repeat constructor.
Qed.

(** ** What the flow guarantees *)

(** C10: The control packets admitted, in order, are those a writer has
    finished with, then the one it holds, then those queued: none is lost,
    doubled or overtaken, however the pauses and resumes of recoveries
    overlap. Unless the session was stopped hard, each packet finished with
    was reported [Delivered] or [ReplayOwned] by its write on the connection
    of that moment. *)
Theorem control_owned_in_order f :
  flow_reachable f ->
  accepted f = control_only (map fst (completed f)) ++ control_only (outstanding f) ++ control (queue (st f)) /\
  (stop (st f) <> Hard -> Forall (fun x => snd x = Delivered \/ snd x = ReplayOwned) (completed f)).
Proof.
  intros H%flow_reachable_inv. split; [apply (fi_order _ H)|]. intros Hs.
  eapply Forall_impl; [apply (fi_results _ H)|]. intros [q r]. cbn. intros [H1 H2]. destruct r; auto; by exfalso; auto.
Qed.

Fixpoint flow_run (f : session_flow) (ops : list flow_op) : option session_flow :=
  match ops with
  | [] => Some f
  | op :: ops => match flow_step f op with Some (f, _) => flow_run f ops | None => None end
  end.

Definition is_resume (op : flow_op) : bool := match op with Resume _ => true | _ => false end.

Definition paused_idle (f : session_flow) : Prop := paused (st f) = true /\ held f = None.

Lemma enqueue_shape p s : exists q w, fst (fst (enqueue_owned p s)) = set_waiting w (set_queue q s).
Proof.
  assert (forall s, s = set_waiting (bridge_waiting s) (set_queue (queue s) s)) as Hid by (by intros []).
  unfold enqueue_owned. destruct (negb _); [by eexists _, _; apply Hid|]. destruct (_ && _); [by eexists (queue s), _; destruct s|].
  destruct (push _ _) as [q [u|[p'|p']]]; cbn; [by eexists q, (bridge_waiting s); destruct s| |by eexists q, (bridge_waiting s); destruct s].
  destruct (waiting_same p' (set_queue q s)) as [w ->]. by eexists _, _.
Qed.

Lemma take_item_paused b s : paused (fst (take_item b s)) = paused s.
Proof.
  unfold take_item. destruct (stop s) eqn:Es; try done.
  all: destruct (_ && _ && _); [done|]; destruct (pending_live_in_flight s); [done|];
    by destruct (if b then _ else _) as [q []].
Qed.

Lemma paused_take f r b :
  paused_idle f -> (writer_must_wait (st f) = true -> snd r = None /\ paused (fst r) = true) ->
  (writer_must_wait (st f) = false -> r = take_item b (st f) \/ r = take_item b (set_writer_waiting false (st f))) ->
  paused_idle (take_into f r) /\ completed (take_into f r) = completed f.
Proof.
  intros (Hp & Hh) H1 H2. destruct (writer_must_wait (st f)) eqn:Em.
  { destruct (H1 eq_refl). by repeat split. }
  pose proof (must_wait_paused _ Em Hp) as Hs. unfold take_item in H2. cbn in H2. rewrite Hs in H2.
  by destruct (H2 eq_refl) as [-> | ->].
Qed.

Lemma paused_step f op f' n :
  paused_idle f -> is_resume op = false -> flow_step f op = Some (f', n) -> paused_idle f' /\ completed f' = completed f.
Proof.
  intros (Hp & Hh) Hr. destruct op; cbn [flow_step]; cbv zeta; rewrite ?Hh, ?Hp; cbn [orb andb negb]; try done.
  - destruct (enqueue_shape p (st f)) as (q & w & E). destruct (enqueue_owned p (st f)) as [[s []] k]; cbn in E;
      rewrite E; intros [= <- <-]; by repeat split.
  - intros [= <- <-]. destruct (observe_cases bytes (st f)) as (i & d & [-> | ->]); by repeat split.
  - intros [= <- <-]. by repeat split.
  - destruct (_ && _); [|done]. intros [= <- <-]. by repeat split.
  - intros [= <- <-]. unfold flow_can_accept_terminal. destruct (_ && _ && _); by repeat split.
  - intros [= <- <-]. by repeat split.
  - destruct (pausers f); [done|]. destruct (pause_returns _); [|done]. intros [= <- <-]. by repeat split.
  - intros [= <- <-]. by repeat split.
  - unfold stop_gracefully. case_bool_decide; [destruct (_ || _)|]; intros [= <- <-]; by repeat split.
  - intros [= <- <-]. by repeat split.
  - destruct (writer_waiting (st f)); [done|]. intros [= <- <-].
    apply (paused_take f _ terminal); [done|..]; unfold try_next_item; intros ->; [done|by left].
  - intros [= <- <-]. by repeat split.
  - destruct (writer_waiting (st f)); [|done]. destruct (writer_must_wait (st f)) eqn:Em; [done|]. intros [= <- <-].
    apply (paused_take f _ true); [done|congruence|by right].
Qed.

(** C25: Once a recovery's pause has returned, nothing is written until a
    resume, whatever the threads do meanwhile, other recoveries' pauses and
    stopping the session included: no packet is taken and none is finished
    with. *)
Theorem pause_excludes_writer f ops f' :
  flow_reachable f -> paused (st f) = true -> pausers f = O \/ pause_returns (st f) = true ->
  forallb (fun op => negb (is_resume op)) ops = true -> flow_run f ops = Some f' ->
  in_flight (st f') = false /\ held f' = None /\ completed f' = completed f.
Proof.
  intros Hf Hp Hz Hops Hrun. assert (paused_idle f) as Hi.
  { split; [done|]. pose proof (flow_reachable_inv _ Hf) as Hf0. destruct Hz as [Hz|Hz]; [by apply (fi_paused _ Hf0)|].
    unfold pause_returns in Hz. rewrite (fi_held _ Hf0) in Hz. by destruct (held f). }
  clear Hp Hz. revert f Hf Hi Hops Hrun. induction ops as [|op ops IH]; intros f Hf Hi; cbn.
  { intros _ [= <-]. destruct Hi as (_ & Hh). split_and!; try done.
    by rewrite (fi_held _ (flow_reachable_inv _ Hf)), Hh. }
  intros [Ho%negb_true_iff Hops]%andb_true_iff. destruct (flow_step f op) as [[f1 n]|] eqn:E; [|done].
  intros Hrun. destruct (paused_step _ _ _ _ Hi Ho E) as [Hi1 Hc].
  destruct (IH f1) as (? & ? & ?); try done; [by eapply reach_step|]. split_and!; congruence.
Qed.

(** ** Wake-ups *)

Lemma is_empty_true q : is_empty q = true <-> terminal q = [] /\ control q = [].
Proof. unfold is_empty. by rewrite andb_true_iff, !bool_decide_eq_true. Qed.

Lemma evict_nil lim wanted b n : exists b' n' ok, evict lim wanted [] b n = (([], b', n'), ok).
Proof. cbn. destruct (_ || _) || destruct (_ <? _); by eexists _, _, _. Qed.

Lemma push_refused_empty q p e :
  is_empty q = true -> snd (push q p) = Err e -> is_empty (fst (push q p)) = true.
Proof.
  rewrite !is_empty_true. intros [Ht Hc] He. pose proof (push_lane q p) as Hl. rewrite He, Hc in Hl.
  split; [|exact Hl]. revert He. clear Hl. unfold push.
  destruct (is_terminal_output p); [|unfold push_control; destruct (_ <? _); [done|]; by destruct (_ || _)].
  unfold push_terminal. destruct (skip_through_newline q p) as [q1 [p1|]] eqn:Hs; [|done].
  destruct (skip_change _ _ _ _ Hs) as (_ & E & _). rewrite Ht in E. cbv zeta.
  destruct (if limit q1 <? _ then _ else _) as [p2|]; [|done]. destruct (_ && _); [done|].
  rewrite E. destruct (evict_nil (limit q1) (packet_cost p2) (terminal_bytes q1) (terminal_packets q1)) as (b & k & ok & ->).
  by destruct ok.
Qed.

Lemma must_wait_same s s' :
  stop s' = stop s -> paused s' = paused s -> connected s' = connected s -> in_flight s' = in_flight s ->
  pending_live_in_flight s' = pending_live_in_flight s -> is_empty (queue s') = is_empty (queue s) ->
  writer_must_wait s' = writer_must_wait s.
Proof. unfold writer_must_wait, no_pending. by intros -> -> -> -> -> ->. Qed.

(** An admission frees a parked writer only from an empty queue. *)
Lemma enqueue_wakes p s : writer_waiting s = true -> in_flight s = false -> writer_must_wait s = true ->
  let r := enqueue_owned p s in writer_must_wait (fst (fst r)) = false -> snd r = true.
Proof.
  intros Hw Hi Hm. unfold enqueue_owned. destruct (negb _) eqn:Hs; cbn; [congruence|].
  destruct (_ && _); cbn; [intros H; by rewrite (must_wait_same s) in H; [congruence|..]|].
  apply negb_false_iff, bool_decide_eq_true in Hs. rewrite Hi, Hw.
  assert (forall s', stop s' = stop s -> paused s' = paused s -> connected s' = connected s ->
    pending_live_in_flight s' = pending_live_in_flight s -> writer_must_wait s' = false ->
    is_empty (queue s) = true /\ is_empty (queue s') = false) as H.
  { intros s'. revert Hm. unfold writer_must_wait, no_pending. rewrite Hs. intros Hm -> -> -> ->. revert Hm.
    destruct (paused s), (connected s), (is_empty (queue s)), (is_empty (queue s')), (pending_live_in_flight s); done. }
  destruct (push (queue s) p) as [q [u|e]] eqn:E; cbn.
  { intros H1. by destruct (H (set_queue q s)) as [-> _]. }
  intros H1. exfalso. assert (is_empty (queue s) = true /\ is_empty q = false) as [H2 H3].
  { destruct e as [p'|p']; cbn in H1; [|by apply (H (set_queue q s))].
    destruct (waiting_same p' (set_queue q s)) as [w Ew]. rewrite Ew in H1. by apply (H (set_waiting w (set_queue q s))). }
  pose proof (push_refused_empty (queue s) p e H2) as H4. rewrite E in H4. cbn in H4. rewrite H4 in H3; done.
Qed.

Lemma writer_woken f op f' n :
  flow_inv f -> flow_step f op = Some (f', n) ->
  writer_waiting (st f) = true -> writer_must_wait (st f) = true -> writer_must_wait (st f') = false -> n = true.
Proof.
  intros Hf Hstep Hw Hm. pose proof (fi_parked _ Hf Hw) as Hh. pose proof (fi_held _ Hf) as Hi. rewrite Hh in Hi.
  revert Hstep.
  destruct op; cbn [flow_step]; cbv zeta; rewrite ?Hh, ?Hw, ?Hm, ?andb_false_r; cbn [negb andb]; try done.
  - pose proof (enqueue_wakes p (st f) Hw Hi Hm) as H. cbv zeta in H.
    destruct (enqueue_owned p (st f)) as [[s []] k]; intros [= <- <-]; exact H.
  - by intros [= <- <-].
  - intros [= <- <-]. cbn. intros H. rewrite (must_wait_same (st f)) in H; [congruence|done..].
  - intros [= <- <-]. cbn. unfold flow_can_accept_terminal. destruct (_ && _ && _); cbn; intros H; [congruence|].
    rewrite (must_wait_same (st f)) in H; [congruence|done..].
  - intros [= <- <-]. cbn. revert Hm. unfold writer_must_wait. cbn. by destruct (stop (st f)).
  - destruct (pausers f); [done|]. destruct (pause_returns _); [|done]. intros [= <- <-]. cbn. congruence.
  - by intros [= <- <-].
  - by intros [= <- <-].
  - unfold stop_gracefully. case_bool_decide; intros [= <- <-]; [done|]. cbn. congruence.
  - by intros [= <- <-].
  - intros [= <- <-]. cbn. intros H. rewrite (must_wait_same (st f)) in H; [congruence|done..].
Qed.

Lemma pauser_woken f op f' n :
  flow_inv f -> flow_step f op = Some (f', n) ->
  paused (st f) = true -> in_flight (st f) = true -> in_flight (st f') = false -> n = true.
Proof.
  intros Hf Hstep Hp Hi. pose proof (fi_held _ Hf) as Hh. rewrite Hi in Hh.
  pose proof (fi_parked _ Hf) as Hw. destruct (held f) as [[p b]|] eqn:Eh; [|done]. clear Hh. revert Hstep.
  destruct op as [q| | | | | | | | | | | | | | |r v| |]; cbn [flow_step]; cbv zeta; rewrite ?Eh; cbn [orb andb]; try done.
  - destruct (enqueue_shape q (st f)) as (q' & w & E). destruct (enqueue_owned q (st f)) as [[s []] k]; cbn in E;
      rewrite E; intros [= <- <-]; cbn; congruence.
  - by intros [= <- <-].
  - intros [= <- <-]; cbn; congruence.
  - destruct (_ && _); [|done]. intros [= <- <-]; cbn; congruence.
  - intros [= <- <-]. cbn. unfold flow_can_accept_terminal. destruct (_ && _ && _); cbn; congruence.
  - intros [= <- <-]; cbn; congruence.
  - unfold pause_returns. rewrite Hi. by destruct (pausers f).
  - by intros [= <- <-].
  - by intros [= <- <-].
  - unfold stop_gracefully. case_bool_decide; intros [= <- <-]; [done|]. cbn. congruence.
  - by intros [= <- <-].
  - destruct (writer_waiting (st f)); [|done]. by specialize (Hw eq_refl).
  - intros [= <- <-]; cbn; congruence.
  - destruct (_ && _); [done|]. destruct (settle_fields p r v (st f)) as (_ & _ & _ & F & _). rewrite Hp in F.
    unfold complete_with_signal, take_ready_bridge_wait. cbn. intros [= <- <-] _. by rewrite F.
  - destruct b; [done|]. cbn. intros [= <- <-]. by rewrite Hp.
  - destruct b; [|done]. by intros [= <- <-].
Qed.

Lemma step_keeps_pause f op f' n :
  flow_step f op = Some (f', n) -> is_resume op = false -> paused (st f) = true -> paused (st f') = true.
Proof.
  intros Hstep Hr Hp. revert Hstep. destruct op as [q| | | | | | | | | | |b| | | |r v| |]; cbn [flow_step]; cbv zeta; try done.
  - destruct (enqueue_shape q (st f)) as (q' & w & E). destruct (enqueue_owned q (st f)) as [[s []] k]; cbn in E;
      rewrite E; by intros [= <- <-].
  - intros [= <- <-]. by destruct (observe_cases bytes (st f)) as (i & d & [-> | ->]).
  - by intros [= <- <-].
  - destruct (_ && _); [|done]. by intros [= <- <-].
  - intros [= <- <-]. unfold flow_can_accept_terminal. by destruct (_ && _ && _).
  - by intros [= <- <-].
  - destruct (pausers f); [done|]. destruct (pause_returns _); [|done]. by intros [= <- <-].
  - by intros [= <- <-].
  - unfold stop_gracefully. case_bool_decide; [destruct (_ || _)|]; by intros [= <- <-].
  - by intros [= <- <-].
  - destruct (held f); [done|]. destruct (writer_waiting (st f)); [done|]. intros [= <- <-].
    unfold try_next_item. destruct (writer_must_wait (st f)); [done|]. cbn. by rewrite take_item_paused.
  - destruct (held f); [done|]. by intros [= <- <-].
  - destruct (writer_waiting (st f) && _); [|done]. intros [= <- <-]. unfold next_item. cbn. by rewrite take_item_paused.
  - destruct (held f) as [[]|]; [|done]. by intros [= <- <-].
  - destruct (held f) as [[p b]|]; [|done]. destruct (_ && _); [done|].
    destruct (settle_fields p r v (st f)) as (_ & _ & _ & F & _). rewrite Hp in F.
    unfold complete_with_signal, take_ready_bridge_wait. cbn. by intros [= <- <-].
  - destruct (held f) as [[p []]|]; [done| |done]. by intros [= <- <-].
  - destruct (held f) as [[p []]|]; [|done|done]. by intros [= <- <-].
Qed.

(** C26: No wake-up is lost. The parked writer is notified by any operation that
    lets it go on. A recovery inside [pause] is notified by any that ends the
    flight it waits for, as long as the flag it set is up, and nothing but a
    resume takes that flag down. *)
Theorem no_lost_wakeup f op f' n :
  flow_reachable f -> flow_step f op = Some (f', n) ->
  (writer_waiting (st f) = true -> writer_must_wait (st f) = true -> writer_must_wait (st f') = false -> n = true) /\
  ((0 < pausers f)%nat -> paused (st f) = true -> in_flight (st f) = true -> in_flight (st f') = false -> n = true) /\
  (paused (st f) = true -> is_resume op = false -> paused (st f') = true).
Proof.
  intros Hf%flow_reachable_inv Hstep. split_and!; [by eapply writer_woken| |].
  - intros _. by eapply pauser_woken.
  - intros Hp Hr. by eapply step_keeps_pause.
Qed.

(** ** The drain *)

(** [write_until_stopped], and the session loop while the transport takes
    every frame: items are taken and delivered until none is left. *)
Fixpoint deliver_all (n : nat) (f : session_flow) : session_flow :=
  match n with
  | O => f
  | S n =>
      match flow_step f (TryNext true) with
      | Some (f1, _) =>
          match held f1, flow_step f1 (Complete Delivered true) with
          | Some _, Some (f2, _) => deliver_all n f2
          | _, _ => f1
          end
      | None => f
      end
  end.

Definition no_wait : BridgeWait := mkWait false false false.

(** The packets a writer still has to deliver. *)
Definition remaining (f : session_flow) : nat :=
  length (some_list (pending_live_in_flight (st f))) + length (terminal (queue (st f))) + length (control (queue (st f))).

Record ready (f : session_flow) : Prop := {
  rd_inv : flow_inv f;
  rd_held : held f = None;
  rd_connected : connected (st f) = true;
  rd_paused : paused (st f) = false;
  rd_stop : stop (st f) <> Hard;
  rd_parked : writer_waiting (st f) = false
}.

Lemma take_count q q' p : take_packet q = (q', Some p) ->
  S (length (terminal q') + length (control q')) = (length (terminal q) + length (control q))%nat.
Proof.
  unfold take_packet. destruct (promote_keeps q) as (Hl & Hc & _). rewrite <-Hl, <-Hc.
  set (q1 := promote_terminal_control q) in *. clearbody q1. unfold pop_terminal, pop_control, or_else.
  destruct (terminal q1) as [|t lt] eqn:Et, (control q1) as [|c lc] eqn:Ec; destruct (prefer_terminal q1); try done;
    cbn; destruct (is_terminal_output _); intros [= <- <-]; cbn; rewrite ?Et, ?Ec; cbn; lia.
Qed.

Lemma empty_lengths q : is_empty q = true <-> (length (terminal q) + length (control q) = 0)%nat.
Proof. rewrite is_empty_true. split; [by intros [-> ->]|]. destruct (terminal q), (control q); cbn; auto; lia. Qed.

Lemma ready_takes f : ready f -> remaining f <> O -> exists p b f1,
  flow_step f (TryNext true) = Some (f1, false) /\ held f1 = Some (p, b) /\ S (remaining f1) = remaining f /\
  stop (st f1) = stop (st f) /\ writer_waiting (st f1) = false /\ paused (st f1) = false /\ completed f1 = completed f /\
  pending_live_in_flight (st f1) = None /\
  match pending_live_in_flight (st f) with
  | Some p' => p' = p /\ queue (st f1) = queue (st f)
  | None => take_packet (queue (st f)) = (queue (st f1), Some p)
  end.
Proof.
  intros [Hf Hh Hc Hp Hs Hw] Hr. cbn [flow_step]. rewrite Hh, Hw.
  pose proof (fi_held _ Hf) as Hi. rewrite Hh in Hi.
  assert (is_empty (queue (st f)) && no_pending (st f) = false) as Hne.
  { apply not_true_iff_false. intros [He%empty_lengths Hn]%andb_true_iff. apply Hr. unfold remaining, no_pending in *.
    destruct (pending_live_in_flight (st f)); [done|]. cbn. lia. }
  assert (writer_must_wait (st f) = false) as Hm.
  { unfold writer_must_wait. rewrite Hp, Hc, Hi, Hne. by destruct (stop (st f)). }
  unfold try_next_item, take_item. rewrite Hm, <-andb_assoc, Hne, andb_false_r.
  unfold remaining. destruct (stop (st f)) eqn:Es; try done.
  all: destruct (pending_live_in_flight (st f)) as [p|] eqn:Ep; [by eexists p, true, _|].
  all: destruct (take_packet (queue (st f))) as [q [p|]] eqn:Et;
    [|apply take_none in Et as (E1 & E2 & _); exfalso; apply Hr; unfold remaining; by rewrite Ep, E1, E2].
  all: eexists p, false, _; split_and!; try reflexivity; cbn; try done; rewrite Ep; cbn; by eapply take_count.
Qed.

Lemma settled_lanes p s :
  terminal (queue (settle p Delivered true s)) = terminal (queue s) /\
  control (queue (settle p Delivered true s)) = control (queue s).
Proof. cbn. unfold complete. by destruct (default_buffering s), (is_terminal_output p). Qed.

(** A completion that leaves the queue empty ends every wait. *)
Lemma drained_no_wait s : is_empty (queue s) = true -> bridge_waiting (fst (take_ready_bridge_wait s)) = no_wait.
Proof.
  unfold take_ready_bridge_wait. intros ->. cbn. by destruct (wait_terminal _), (wait_control _), (wait_drain _).
Qed.

Lemma settle_delivered p s :
  exists lim, queue (settle p Delivered true s) = complete (set_limit (queue s) lim) p.
Proof.
  cbn. destruct (default_buffering s); [by eexists|]. exists (limit (queue s)). by destruct (queue s).
Qed.

Lemma ready_completes f p b : flow_inv f -> held f = Some (p, b) -> paused (st f) = false -> stop (st f) <> Hard ->
  writer_waiting (st f) = false -> exists f2 n,
  flow_step f (Complete Delivered true) = Some (f2, n) /\ ready f2 /\ remaining f2 = remaining f /\
  stop (st f2) = stop (st f) /\ completed f2 = completed f ++ [(p, Delivered)] /\
  (remaining f2 = O -> bridge_waiting (st f2) = no_wait) /\
  pending_live_in_flight (st f2) = pending_live_in_flight (st f) /\
  exists lim, queue (st f2) = complete (set_limit (queue (st f)) lim) p.
Proof.
  intros Hf Hh Hp Hs Hw. destruct (flow_step f (Complete Delivered true)) as [[f2 n]|] eqn:E.
  2: { cbn [flow_step] in E. by rewrite Hh, andb_false_r in E. }
  pose proof (flow_step_inv _ _ _ _ Hf E) as Hf2. exists f2, n. split; [done|].
  revert E. cbn [flow_step]. rewrite Hh, andb_false_r. destruct (settled_lanes p (st f)) as [E1 E2].
  pose proof (drained_no_wait (settle p Delivered true (st f))) as Hd.
  unfold complete_with_signal. destruct (take_ready_bridge_wait (settle p Delivered true (st f))) as [s r] eqn:Er.
  assert (s = set_waiting (bridge_waiting s) (settle p Delivered true (st f))) as Hs' by (by injection Er as <- <-).
  destruct (decide (Delivered = BeforeReplay)); [done|]. intros [= <- <-].
  assert (remaining (mkFlow s None (pausers f) (accepted f) (completed f ++ [(p, Delivered)])) = remaining f) as Hrem.
  { unfold remaining. cbn [st]. rewrite Hs'. cbn [queue set_waiting]. by rewrite E1, E2. }
  split_and!; try done.
  - split; try done; cbn [st]; rewrite Hs'; done.
  - cbn [st]. by rewrite Hs'.
  - intros Hz. apply Hd, empty_lengths. rewrite Hrem in Hz. unfold remaining in Hz. rewrite E1, E2. lia.
  - cbn [st]. by rewrite Hs'.
  - cbn [st]. rewrite Hs'. apply settle_delivered.
Qed.

(** *** The order of the drain *)

Definition terminal_only (l : list Packet) : list Packet := filter on_terminal l.

(** A queue in which [take_packet] has nothing more to promote. *)
Definition promoted (q : OutputQueue) : Prop := promotion_pending q = false \/ terminal_bytes q < FLUSH_THRESHOLD.

Lemma promoted_same q : promoted q -> promote_terminal_control q = q.
Proof.
  unfold promote_terminal_control. intros [-> | H]; [done|]. by rewrite (proj2 (Z.ltb_lt _ _) H), orb_true_r.
Qed.

Lemma promote_promoted q : promoted (promote_terminal_control q).
Proof.
  unfold promote_terminal_control. destruct (promotion_pending q) eqn:Hp; [|by left].
  destruct (Z.ltb_spec (terminal_bytes q) FLUSH_THRESHOLD); [by right|]. left. cbn [negb orb].
  destruct (lane_bodies _); [|done]. destruct (promote_control _ _); [|done]. by destruct (rewrite_lane _ _ _ _).
Qed.

Lemma promote_limit q lim : terminal (promote_terminal_control (set_limit q lim)) = terminal (promote_terminal_control q).
Proof.
  unfold promote_terminal_control. cbn [set_limit promotion_pending terminal_bytes terminal stream set_promotion].
  destruct (_ || _); [done|]. destruct (lane_bodies _); [|done]. destruct (promote_control _ _); [|done].
  by destruct (rewrite_lane _ _ _ _).
Qed.

Lemma complete_limit q p lim : complete (set_limit q lim) p = set_limit (complete q p) lim.
Proof. unfold complete. by destruct (is_terminal_output p). Qed.

Lemma complete_promoted q p : promoted q -> promoted (complete q p).
Proof.
  unfold promoted, complete. intros [H|H]; [by left; destruct (is_terminal_output p)|]. right.
  destruct (is_terminal_output p); cbn; [|done]. pose proof (packet_cost_pos p). lia.
Qed.

Lemma terminal_one p : terminal_only [p] = if is_terminal_output p then [p] else [].
Proof. unfold terminal_only. rewrite filter_terminal_cons. by destruct (is_terminal_output p). Qed.

(** A take pops the lanes that the promotion left. *)
Lemma take_order q q' p : queue_inv (mkSQ q []) -> take_packet q = (q', Some p) ->
  terminal (promote_terminal_control q) = terminal_only [p] ++ terminal q' /\ promoted q'.
Proof.
  intros Hinv%(change_inv _ _ _ (promote_change q)). rewrite terminal_one. unfold take_packet.
  pose proof (promote_promoted q) as Hpr. set (q1 := promote_terminal_control q) in *. clearbody q1.
  destruct Hinv as [_ _ TL CL]. cbn in TL, CL. unfold pop_terminal, pop_control, or_else, on_terminal, on_control in *.
  destruct (terminal q1) as [|t lt] eqn:Et, (control q1) as [|c lc] eqn:Ec; [by destruct (prefer_terminal q1)|..];
    rewrite ?Forall_cons in TL; rewrite ?Forall_cons in CL; destruct (prefer_terminal q1); cbn; intros Ht;
    repeat case_match; simplify_eq; cbn; rewrite ?Et; (split; [|exact Hpr]); try done;
    (destruct CL; congruence) || (destruct TL; congruence).
Qed.

(** What a drain still delivers of each lane: the frame that is on the wire,
    then the lane, the terminal lane as the next take promotes it. *)
Definition control_left (f : session_flow) : list Packet :=
  control_only (some_list (pending_live_in_flight (st f))) ++ control (queue (st f)).

Definition terminal_left (f : session_flow) : list Packet :=
  match pending_live_in_flight (st f) with
  | Some p => terminal_only [p] ++ terminal (promote_terminal_control (complete (queue (st f)) p))
  | None => terminal (promote_terminal_control (queue (st f)))
  end.

Lemma turn_order f f1 f2 p lim :
  flow_inv f -> held f = None -> pending_live_in_flight (st f1) = None ->
  match pending_live_in_flight (st f) with
  | Some p' => p' = p /\ queue (st f1) = queue (st f)
  | None => take_packet (queue (st f)) = (queue (st f1), Some p)
  end ->
  pending_live_in_flight (st f2) = None -> queue (st f2) = complete (set_limit (queue (st f1)) lim) p ->
  control_left f = control_only [p] ++ control_left f2 /\ terminal_left f = terminal_only [p] ++ terminal_left f2.
Proof.
  intros Hf Hh Hp1 Ht Hp2 Hq. unfold control_left, terminal_left. rewrite Hp2, Hq.
  rewrite complete_limit, promote_limit. cbn [set_limit control some_list app]. rewrite complete_lane.
  pose proof (fi_queue _ Hf) as Hinv. unfold outstanding in Hinv. rewrite Hh in Hinv.
  destruct (pending_live_in_flight (st f)) as [p'|].
  - destruct Ht as [-> ->]. done.
  - destruct (take_order _ _ _ Hinv Ht) as [H1 H2]. rewrite (take_lane _ _ _ Hinv Ht), H1. split; [done|].
    rewrite promoted_same by (by apply complete_promoted). unfold complete. by destruct (is_terminal_output p).
Qed.

(** One turn of a ready writer: an item is taken and delivered. *)
Lemma ready_turn f : ready f -> remaining f <> O -> exists p f1 f2 k,
  flow_step f (TryNext true) = Some (f1, false) /\ is_Some (held f1) /\
  flow_step f1 (Complete Delivered true) = Some (f2, k) /\ ready f2 /\ S (remaining f2) = remaining f /\
  stop (st f2) = stop (st f) /\ completed f2 = completed f ++ [(p, Delivered)] /\
  (remaining f2 = O -> bridge_waiting (st f2) = no_wait) /\
  control_left f = control_only [p] ++ control_left f2 /\ terminal_left f = terminal_only [p] ++ terminal_left f2.
Proof.
  intros Hrd Hr. destruct (ready_takes f Hrd Hr) as (p & b & f1 & T1 & T2 & T3 & T4 & T5 & T6 & T7 & T8 & T9).
  pose proof (flow_step_inv _ _ _ _ (rd_inv _ Hrd) T1) as Hf1.
  destruct (ready_completes f1 p b) as (f2 & k & C1 & C2 & C3 & C4 & C5 & C6 & C7 & lim & C8); auto;
    [rewrite T4; apply Hrd|].
  destruct (turn_order f f1 f2 p lim) as [L1 L2]; auto; [apply (rd_inv _ Hrd)|apply (rd_held _ Hrd)|congruence|].
  exists p, f1, f2, k. rewrite T2. split_and!; first [done|lia|congruence|by eexists].
Qed.

Lemma nothing_left f : remaining f = O -> control_left f = [] /\ terminal_left f = [].
Proof.
  unfold remaining, control_left, terminal_left. destruct (pending_live_in_flight (st f)); [cbn; lia|]. intros H.
  destruct (promote_keeps (queue (st f))) as [Hl _].
  destruct (terminal (queue (st f))), (control (queue (st f))); cbn in *; try lia.
  by destruct (terminal (promote_terminal_control (queue (st f)))).
Qed.

Lemma nothing_outstanding f : flow_inv f -> held f = None -> remaining f = O -> accepted f = control_only (map fst (completed f)).
Proof.
  intros Hf Hh Hz. rewrite (fi_order _ Hf). unfold remaining, outstanding in *. rewrite Hh.
  destruct (pending_live_in_flight (st f)), (control (queue (st f))); cbn in *; try lia. by rewrite app_nil_r.
Qed.

(** C27: While the client takes what is sent, the writer empties the queue within
    as many turns as there are packets. What it delivers is an interleaving of
    the two lanes, each in its order and complete: a frame already on the wire
    first, then the control lane as it was, and the terminal lane as the
    promotion of tmux control lines leaves it. No refusal is left waiting, and
    a graceful stop has then ended. *)
Theorem writer_drains f :
  flow_reachable f -> held f = None -> connected (st f) = true -> paused (st f) = false ->
  stop (st f) <> Hard -> writer_waiting (st f) = false -> remaining f <> O ->
  let f' := deliver_all (remaining f) f in
  remaining f' = O /\ held f' = None /\ accepted f' = control_only (map fst (completed f')) /\
  (exists sent, completed f' = completed f ++ map (fun p => (p, Delivered)) sent /\ length sent = remaining f /\
     control_only sent = control_left f /\ terminal_only sent = terminal_left f) /\
  bridge_waiting (st f') = no_wait /\ stop (st f') = stop (st f).
Proof.
  intros Hf%flow_reachable_inv Hh Hc Hp Hs Hw Hr.
  assert (ready f) as Hrd by by split. clear Hf Hh Hc Hp Hs Hw.
  remember (remaining f) as n eqn:En. revert f Hrd En Hr. induction n as [|n IH]; intros f Hrd En Hr; [done|].
  destruct (ready_turn f Hrd) as (p & f1 & f2 & k & T1 & [x T2] & C1 & C2 & C3 & C4 & C5 & C6 & L1 & L2); [lia|].
  cbn [deliver_all]. rewrite T1, T2, C1. cbv zeta. destruct n as [|n].
  - assert (remaining f2 = O) as Hz by lia. cbn [deliver_all]. pose proof C2 as [Hf2 Hh2 _ _ _ _].
    destruct (nothing_left f2 Hz) as [N1 N2]. rewrite N1 in L1. rewrite N2 in L2. rewrite app_nil_r in L1, L2.
    split_and!; auto; [by apply nothing_outstanding|]. exists [p]. split_and!; done.
  - destruct (IH f2 C2) as (A1 & A2 & A3 & (sent & A4 & A5 & A6 & A7) & A8 & A9); [lia..|]. split_and!; auto; [|congruence].
    exists (p :: sent). change (p :: sent) with ([p] ++ sent). unfold control_only, terminal_only in *.
    rewrite !filter_app, A6, A7, L1, L2. split_and!; auto; [|cbn; congruence].
    rewrite A4, C5. cbn. by rewrite <-app_assoc.
Qed.


End flow.

(** ** Witnesses *)

Section witnesses.
#[local] Existing Instance simple_codec.
#[local] Existing Instance simple_search.

Lemma flow_run_reachable f ops f' : flow_reachable f -> flow_run f ops = Some f' -> flow_reachable f'.
Proof.
  revert f. induction ops as [|op ops IH]; cbn; intros f Hf; [by intros [= <-]|].
  destruct (flow_step f op) as [[f1 n]|] eqn:E; [|done]. apply IH. by eapply reach_step.
Qed.

(** The state after some operations, from a new session. *)
Definition demo_flow (ops : list flow_op) : session_flow := unwrap_or (flow_init new_default) (flow_run (flow_init new_default) ops).

Lemma demo_flow_reachable ops : flow_reachable (demo_flow ops).
Proof.
  unfold demo_flow. destruct (flow_run _ ops) eqn:E; [|apply reach_default].
  eapply flow_run_reachable; [apply reach_default|exact E].
Qed.

Definition demo_exit : Packet := Packet.new TERMINAL_EXIT_STATUS [].
Definition demo_ops : list flow_op := [Enqueue demo_terminal; Enqueue demo_control; Enqueue demo_exit].

Lemma control_owned_in_order_witness :
  accepted (demo_flow (demo_ops ++ [TryNext true; Complete Delivered true; TryNext false])) = [demo_control] /\
  held (demo_flow (demo_ops ++ [TryNext true; Complete Delivered true; TryNext false])) = Some (demo_control, false).
Proof.
  destruct (control_owned_in_order (demo_flow (demo_ops ++ [TryNext true; Complete Delivered true; TryNext false]))
    (demo_flow_reachable _)) as [H _].
  rewrite H. split; vm_compute; reflexivity.
Defined.

Lemma pause_excludes_writer_witness :
  in_flight (st (demo_flow (demo_ops ++ [PauseBegin; PauseReturn; StopGracefully; TryNext true; StopHard; TryNext true]))) = false.
Proof.
  apply (pause_excludes_writer (demo_flow (demo_ops ++ [PauseBegin; PauseReturn]))
    [StopGracefully; TryNext true; StopHard; TryNext true]);
    [apply demo_flow_reachable|vm_compute; reflexivity|left; vm_compute; reflexivity|vm_compute; reflexivity..].
Defined.

Lemma no_lost_wakeup_witness :
  let f := demo_flow [Park] in
  writer_must_wait (st f) = true /\
  exists f' n, flow_step f (Enqueue demo_control) = Some (f', n) /\ n = true.
Proof.
  split; [vm_compute; reflexivity|].
  destruct (flow_step (demo_flow [Park]) (Enqueue demo_control)) as [[f' n]|] eqn:E; [|vm_compute in E; discriminate].
  exists f', n. split; [reflexivity|].
  destruct (no_lost_wakeup (demo_flow [Park]) (Enqueue demo_control) f' n (demo_flow_reachable _) E) as [H _].
  apply H; [vm_compute; reflexivity..|]. vm_compute in E. injection E as <- <-. vm_compute. reflexivity.
Defined.

(** Three recoveries whose resumes come late: the first one's resume lets the
    writer take a packet, the third is inside [pause] for it, and the second
    one's resume takes its flag down. The completion it waits for then
    notifies nobody. *)
Theorem resumed_pause_not_woken :
  let f := demo_flow [Enqueue demo_control; PauseBegin; PauseReturn; PauseBegin; PauseReturn; Resume true; TryNext true;
    PauseBegin; Resume true] in
  pausers f = 1%nat /\ in_flight (st f) = true /\
  exists f', flow_step f (Complete Delivered true) = Some (f', false) /\ pausers f' = 1%nat /\ pause_returns (st f') = true.
Proof.
  cbv zeta. split_and!; [vm_compute; reflexivity..|]. eexists. split_and!; vm_compute; reflexivity.
Qed.

Lemma writer_drains_witness :
  remaining (demo_flow demo_ops) = 2%nat /\ remaining (deliver_all 2 (demo_flow demo_ops)) = 0%nat.
Proof.
  split; [vm_compute; reflexivity|].
  apply (writer_drains (demo_flow demo_ops)); [apply demo_flow_reachable|vm_compute; (reflexivity || discriminate)..].
Defined.

End witnesses.
