(* ===== verification/SessionRecovery.v ===== *)
(** * SessionRecovery: [crates/et-server/src/session_flow_write.rs],
    [session_recovery.rs], the output pump of [session_flow.rs]

    How a session's threads share its connection: the session loop, whose pump
    writes what is queued, and the handlers of returning clients, which take a
    snapshot of the connection, recover it on the new socket and install it.
    The connection is that of [Connection], the queue that of [SessionFlow].
    The session is one that stages all its output, and its locks are taken and
    released as the code does: one step is what one thread does under a lock. *)

From S2P Require Import Prelude Crypto Packet BackedReader BackedWriter Keepalive OutputWindow.
From S2P Require Import OutputInterrupt FlowControl SessionFlow FramingIo Exchange Connection Recovery.

(** ** Writing without blocking *)

(** Answers of the system to one call: whether the socket has room, the
    clock, and those to the write itself. *)
Record write_os := mkWriteOs { wo_room : bool; wo_now : Z; wo_start : start_os }.

Inductive NonblockingWrite :=
| Pending (deadline : Z)
| NoRoom (deadline : Z)
| Done (r : FlowWriteResult) (v : bool).

Definition flow_result (e : WritePacketError) : FlowWriteResult :=
  match e with
  | BeforeReplay (Io _) => SessionFlow.BeforeReplay
  | BeforeReplay _ => Fatal
  | ReplayOwned _ => SessionFlow.ReplayOwned
  end.

(** The last part of [write_nonblocking]. *)
Definition write_conclude (c : Connection) (step : result WritePacketError bool) : Connection * NonblockingWrite :=
  match step, pending_write_deadline c with
  | Ok false, Some deadline => (c, Pending deadline)
  | Ok _, _ => (c, Done Delivered (conn_connected c))
  | Err e, _ => let c := disconnect c in (c, Done (flow_result e) (conn_connected c))
  end.

Section session.
Context {sodium : Sodium}.

Definition write_start (c : Connection) (p : Packet) (room_wait : option Z) (o : write_os)
  : Connection * NonblockingWrite :=
  let (c, r) := start_write_packet_owned_unprobed c (header p) (payload p) (wo_start o) in
  let step := match r with
              | Ok _ => Ok (match pending_live c with None => true | Some _ => false end)
              | Err e => Err e
              end in
  let c := match room_wait with Some since => backdate_pending_write c since | None => c end in
  write_conclude c step.

(** [hard]: the flow is stopped hard. The connection, [room_wait], and the
    outcome. *)
Definition write_nonblocking (c : Connection) (hard : bool) (p : Packet) (started : bool) (room_wait : option Z)
    (o : write_os) : Connection * option Z * NonblockingWrite :=
  if hard then (c, room_wait, Done Fatal false)
  else if started then
    let s := wo_start o in
    let (c, step) := advance_write c (so_advance_at s) (so_unread s) (so_send_at s) (so_send s) in
    let (c, w) := write_conclude c step in
    (c, room_wait, w)
  else if wo_room o then
    let (c, w) := write_start c p None o in (c, None, w)
  else
    let since := unwrap_or (wo_now o) room_wait in
    let deadline := live_write_deadline c since in
    if wo_now o <? deadline then (c, Some since, NoRoom deadline)
    else let (c, w) := write_start c p (Some since) o in (c, None, w).

(** ** A recovery's network phase *)

Inductive PeerProof := ProofHandshake | ProofRequired.

(** Answers of the system: the outcome of the exchange, the reads that wait
    for a first packet, and those to the write of the first keep-alive. *)
Record recover_os := mkRecoverOs {
  ro_exchanged : result ConnError (list (list byte));
  ro_deadline : Z;
  ro_reads : list read_turn;
  ro_cleared : result io_kind unit;
  ro_probe : result io_kind Z;
  ro_now : Z;
  ro_pending_at : Z;
  ro_turns : list write_turn
}.

(** The second phase of [recover_body_with]: the candidate to install, if it
    recovered. *)
Definition recover_candidate (candidate : Connection) (ex : RecoveryExchange) (proof : PeerProof) (o : recover_os)
  : option Connection :=
  match run_recovery_handshake_with candidate ex (ro_exchanged o) with
  | (_, Err _) => None
  | (c, Ok revived) =>
      let authenticated :=
        match proof with
        | ProofRequired =>
            if revived =? 0 then
              match authenticate_peer c (ro_deadline o) (ro_reads o) (ro_cleared o) with
              | (c, _, Returned (Ok _)) => Some c
              | _ => None
              end
            else Some c
        | ProofHandshake => Some c
        end in
      match authenticated with
      | None => None
      | Some c =>
          let c := minimize_output_buffering c in
          let (c, ack) := next_keepalive_ack c Responder false in
          match write_packet_live_until c KEEP_ALIVE (ack_bytes ack) None (ro_probe o) (ro_now o) (ro_pending_at o)
                  (ro_turns o) with
          | (c, Returned (Ok _)) => Some c
          | _ => None
          end
      end
  end.
(** ** The threads *)

(** Where the pump of the session loop is. From [PumpTaken] to its completion
    the packet is in flight. *)
Inductive pump_pc :=
| PumpIdle
| PumpAsked (release : option Z)
| PumpTaken (p : Packet) (started : bool)
| PumpWritten (p : Packet) (w : NonblockingWrite)
| PumpLive (p : Packet).

(** Where a handler of a returning client is. [snapshot] is the writer it
    copied. *)
Inductive handler_pc :=
| Arrived
| Entered
| Pausing
| Permitted
| Recovering (snapshot : BackedWriter) (candidate : Connection)
| Recovered (snapshot : BackedWriter) (candidate : Connection)
| Dropping
| Released
| Resuming (connected : bool)
| Ended.

Record session := mkSession {
  s_flow : WriterState;
  s_conn : Connection;
  s_pump : pump_pc;
  s_room_wait : option Z;
  s_recovering : bool;
  s_torn_down : bool;
  s_generation : Z;
  s_handlers : list handler_pc;
  s_sent : list (Packet * FlowWriteResult)
}.

Inductive action :=
| Stage (p : Packet)
| StopOutput (graceful : bool)
| TearDown
| ClientLost (generation : Z)
| Acknowledge (sequence now : Z)
| PumpAsk (bounded : bool) (now : Z)
| PumpTake
| PumpWrite (o : write_os)
| PumpSettle
| Begin (i : nat)
| PauseSet (i : nat)
| PauseDone (i : nat)
| Snapshot (i : nat)
| Handshake (i : nat) (ex : RecoveryExchange) (proof : PeerProof) (o : recover_os)
| Install (i : nat)
| Abandon (i : nat)
| ClearFlag (i : nat)
| ReadConnected (i : nat)
| ResumeFlow (i : nat).
End session.

Definition with_flow (v : WriterState) (s : session) : session :=
  mkSession v (s_conn s) (s_pump s) (s_room_wait s) (s_recovering s) (s_torn_down s) (s_generation s) (s_handlers s) (s_sent s).
Definition with_conn (v : Connection) (s : session) : session :=
  mkSession (s_flow s) v (s_pump s) (s_room_wait s) (s_recovering s) (s_torn_down s) (s_generation s) (s_handlers s) (s_sent s).
Definition with_pump (v : pump_pc) (s : session) : session :=
  mkSession (s_flow s) (s_conn s) v (s_room_wait s) (s_recovering s) (s_torn_down s) (s_generation s) (s_handlers s) (s_sent s).
Definition with_room_wait (v : option Z) (s : session) : session :=
  mkSession (s_flow s) (s_conn s) (s_pump s) v (s_recovering s) (s_torn_down s) (s_generation s) (s_handlers s) (s_sent s).
Definition with_recovering (v : bool) (s : session) : session :=
  mkSession (s_flow s) (s_conn s) (s_pump s) (s_room_wait s) v (s_torn_down s) (s_generation s) (s_handlers s) (s_sent s).
Definition with_torn_down (v : bool) (s : session) : session :=
  mkSession (s_flow s) (s_conn s) (s_pump s) (s_room_wait s) (s_recovering s) v (s_generation s) (s_handlers s) (s_sent s).
Definition with_generation (v : Z) (s : session) : session :=
  mkSession (s_flow s) (s_conn s) (s_pump s) (s_room_wait s) (s_recovering s) (s_torn_down s) v (s_handlers s) (s_sent s).
Definition with_handler (i : nat) (v : handler_pc) (s : session) : session :=
  mkSession (s_flow s) (s_conn s) (s_pump s) (s_room_wait s) (s_recovering s) (s_torn_down s) (s_generation s)
    (<[i := v]> (s_handlers s)) (s_sent s).
Definition with_sent (v : list (Packet * FlowWriteResult)) (s : session) : session :=
  mkSession (s_flow s) (s_conn s) (s_pump s) (s_room_wait s) (s_recovering s) (s_torn_down s) (s_generation s) (s_handlers s) v.

Section steps.
Context {sodium : Sodium} {codec : TerminalBufferCodec} {search : Memchr}.

Definition mark_client_disconnected (expected : Z) (s : session) : session :=
  if negb (s_generation s =? expected) then s
  else with_flow (disconnected (s_flow s)) (with_conn (disconnect (s_conn s)) s).

(** One turn of the loop of [OutputPump::run]: whether the output window is
    full, the next item, the write, and what follows from it. *)
Definition pump_ask (bounded : bool) (now : Z) (s : session) : session :=
  match s_pump s with
  | PumpLive p => with_pump (PumpTaken p true) s
  | _ =>
      if bounded then
        let (c, release) := output_window_blocked (s_conn s) now in with_pump (PumpAsked release) (with_conn c s)
      else with_pump (PumpAsked None) s
  end.

Definition pump_take (release : option Z) (s : session) : session :=
  match try_next_item (match release with None => true | Some _ => false end) (s_flow s) with
  | (f, Some (p, started)) => with_pump (PumpTaken p started) (with_flow f s)
  | (f, None) => with_room_wait None (with_pump PumpIdle (with_flow f s))
  end.

Definition pump_write (p : Packet) (started : bool) (o : write_os) (s : session) : session :=
  let '(c, room_wait, w) :=
    write_nonblocking (s_conn s) (is_hard_stopped (s_flow s)) p started (s_room_wait s) o in
  with_pump (PumpWritten p w) (with_room_wait room_wait (with_conn c s)).

Definition pump_settle (p : Packet) (w : NonblockingWrite) (s : session) : session :=
  match w with
  | Pending _ => with_pump (PumpLive p) s
  | NoRoom _ => with_pump PumpIdle (with_flow (fst (return_unstarted p (s_flow s))) s)
  | Done r v =>
      with_sent (s_sent s ++ [(p, r)])
        (with_pump PumpIdle (with_flow (fst (fst (complete_with_signal p r v (s_flow s)))) s))
  end.

(** [try_begin_recover]: admission, then the two halves of [pause]. *)
Definition recover_admit (i : nat) (s : session) : session :=
  if s_torn_down s || s_recovering s then with_handler i Ended s
  else with_handler i Entered (with_recovering true s).

(** The first and third phases of [recover_body_with]. *)
Definition recover_snapshot (i : nat) (s : session) : session :=
  if s_torn_down s then with_handler i Dropping s
  else with_handler i (Recovering (writer (s_conn s)) (prepare_recovery_candidate (s_conn s))) s.

Definition recover_install (i : nat) (candidate : Connection) (s : session) : session :=
  if s_torn_down s then with_handler i Dropping s
  else with_handler i Dropping (with_generation (s_generation s + 1) (with_conn candidate s)).

(** [Drop for RecoverPermit]: the flag, the state of the connection, then the
    flow. The hold is empty in a session that stages its output. *)
Definition permit_clear (i : nat) (s : session) : session := with_handler i Released (with_recovering false s).
Definition permit_connected (i : nat) (s : session) : session :=
  with_handler i (Resuming (conn_connected (s_conn s))) s.
Definition permit_resume (i : nat) (v : bool) (s : session) : session :=
  with_handler i Ended (with_flow (resume v (s_flow s)) s).

Definition handler (i : nat) (s : session) : option handler_pc := s_handlers s !! i.

(** One step of one thread; [None] where the thread is not at that point. *)
Definition session_step (s : session) (a : action) : option session :=
  match a with
  | Stage p => Some (with_flow (fst (fst (enqueue_owned p (s_flow s)))) s)
  | StopOutput graceful =>
      Some (with_flow (if graceful then fst (stop_gracefully (s_flow s)) else stop_hard (s_flow s)) s)
  | TearDown => Some (with_torn_down true s)
  | ClientLost generation => Some (mark_client_disconnected generation s)
  | Acknowledge sequence now => Some (with_conn (acknowledge_delivery (s_conn s) sequence now) s)
  | PumpAsk bounded now =>
      match s_pump s with PumpIdle | PumpLive _ => Some (pump_ask bounded now s) | _ => None end
  | PumpTake => match s_pump s with PumpAsked release => Some (pump_take release s) | _ => None end
  | PumpWrite o => match s_pump s with PumpTaken p started => Some (pump_write p started o s) | _ => None end
  | PumpSettle => match s_pump s with PumpWritten p w => Some (pump_settle p w s) | _ => None end
  | Begin i => match handler i s with Some Arrived => Some (recover_admit i s) | _ => None end
  | PauseSet i =>
      match handler i s with
      | Some Entered => Some (with_handler i Pausing (with_flow (pause_begin (s_flow s)) s))
      | _ => None
      end
  | PauseDone i =>
      match handler i s with
      | Some Pausing => if pause_returns (s_flow s) then Some (with_handler i Permitted s) else None
      | _ => None
      end
  | Snapshot i => match handler i s with Some Permitted => Some (recover_snapshot i s) | _ => None end
  | Handshake i ex proof o =>
      match handler i s with
      | Some (Recovering w c) =>
          Some (with_handler i
            (match recover_candidate c ex proof o with Some c => Recovered w c | None => Dropping end) s)
      | _ => None
      end
  | Install i => match handler i s with Some (Recovered _ c) => Some (recover_install i c s) | _ => None end
  | Abandon i =>
      match handler i s with
      | Some Permitted | Some (Recovering _ _) | Some (Recovered _ _) => Some (with_handler i Dropping s)
      | _ => None
      end
  | ClearFlag i => match handler i s with Some Dropping => Some (permit_clear i s) | _ => None end
  | ReadConnected i => match handler i s with Some Released => Some (permit_connected i s) | _ => None end
  | ResumeFlow i => match handler i s with Some (Resuming v) => Some (permit_resume i v s) | _ => None end
  end.

Fixpoint session_run (s : session) (l : list action) : option session :=
  match l with
  | [] => Some s
  | a :: l => match session_step s a with Some s => session_run s l | None => None end
  end.

(** A session with so many clients to come, on a connection. *)
Definition session_start (f : WriterState) (c : Connection) (clients : nat) : session :=
  mkSession f c PumpIdle None false false 0 (replicate clients Arrived) [].
End steps.

(** ** What a write reports *)

(** Two writers with the same replay buffer, sequence and nonces. *)
Definition same_history (w w' : BackedWriter) : Prop :=
  sequence w = sequence w' /\ crypto w = crypto w' /\ backup w = backup w'.

Section ownership.
Context {sodium : Sodium}.

Lemma advance_write_history c now unread now' send :
  same_history (writer c) (writer (fst (advance_write c now unread now' send))) /\
  match snd (advance_write c now unread now' send) with Err (BeforeReplay _) => False | _ => True end.
Proof. unfold advance_write, defer_pending. repeat case_match; by simplify_eq. Qed.

Lemma conclude_history c step :
  same_history (writer c) (writer (fst (write_conclude c step))) /\
  match snd (write_conclude c step) with
  | Pending _ | Done Delivered _ => is_ok step = true
  | Done r _ => exists e, step = Err e /\ r = flow_result e
  | NoRoom _ => False
  end.
Proof.
  unfold write_conclude. destruct step as [[]|e]; [done|by destruct (pending_write_deadline c)|].
  split; [done|]. destruct e as [[]|]; cbn; by eexists.
Qed.

Lemma note_output_history c outcome hdr n now : writer (note_output c outcome hdr n now) = writer c.
Proof. unfold note_output. by destruct (output_window c), outcome. Qed.

Lemma start_history c p o :
  let (c', r) := start_write_packet_owned_unprobed c (header p) (payload p) o in
  let (taken, outcome) := write_packet (writer c) (header p) (payload p) in
  match r with
  | Ok _ | Err (ReplayOwned _) => same_history taken (writer c') /\ outcome <> Skipped
  | Err (BeforeReplay e) => same_history (writer c) (writer c') /\ e = Backpressure
  end.
Proof.
  unfold start_write_packet_owned_unprobed, prepare_write_packet_unprobed.
  destruct (pending_live c); [by destruct (write_packet _ _ _)|].
  destruct (write_packet (writer c) (header p) (payload p)) as [w outcome] eqn:Ew.
  pose proof (note_output_history (set_writer c w) outcome (header p) (zlen (payload p)) (so_now o)) as Hn.
  set (c1 := note_output _ _ _ _ _) in *. cbn [set_writer writer] in Hn.
  assert (forall prepared, outcome <> Skipped ->
    let (c', r) := start_prepared c1 (Ok prepared) o in
    match r with
    | Ok _ | Err (ReplayOwned _) => same_history w (writer c') /\ outcome <> Skipped
    | Err (BeforeReplay e) => same_history (writer c) (writer c') /\ e = Backpressure
    end) as Hstart.
  { intros prepared Ho. unfold start_prepared. rewrite <-Hn.
    match goal with |- context [advance_write ?c ?a ?b ?d ?e] =>
      destruct (advance_write_history c a b d e) as [H1 H2]; destruct (advance_write c a b d e) as [c2 [[]|[|]]] end;
      cbn in H1, H2; done. }
  destruct outcome; [|by apply Hstart..]. cbn [start_prepared]. rewrite Hn. split; [|done].
  unfold write_packet in Ew. unfold reserve_write in Ew. destruct (write_refused _ _); [by simplify_eq|].
  destruct (next_nonce_and_key _) as [cr [n k]]. unfold commit_write in Ew. cbv zeta in Ew. by destruct (negb _) in Ew.
Qed.

Lemma backdate_history c since : writer (backdate_pending_write c since) = writer c.
Proof. unfold backdate_pending_write. by destruct (pending_live c). Qed.

Lemma write_start_history c p room_wait o :
  let (c', r) := write_start c p room_wait o in
  let (taken, outcome) := write_packet (writer c) (header p) (payload p) in
  match r with
  | Pending _ | Done Delivered _ | Done SessionFlow.ReplayOwned _ =>
      same_history taken (writer c') /\ outcome <> Skipped
  | NoRoom _ | Done SessionFlow.BeforeReplay _ | Done Fatal _ => same_history (writer c) (writer c')
  end.
Proof.
  unfold write_start. pose proof (start_history c p (wo_start o)) as H.
  destruct (start_write_packet_owned_unprobed c (header p) (payload p) (wo_start o)) as [c1 r].
  destruct (write_packet (writer c) (header p) (payload p)) as [taken outcome].
  set (c2 := match room_wait with Some since => _ | None => c1 end).
  assert (writer c2 = writer c1) as E by (unfold c2; destruct room_wait; [apply backdate_history|done]).
  set (step := match r with Ok _ => _ | Err e => _ end).
  destruct (conclude_history c2 step) as [H1 H2]. destruct (write_conclude c2 step) as [c3 w]. cbn [fst snd] in *.
  rewrite E in H1. unfold same_history in *.
  unfold step in H2. clear step.
  destruct r as [u|[e|e]]; destruct w as [| |[] v]; cbn in *;
    repeat match goal with H : exists _, _ |- _ => destruct H as (? & ? & ?) end; simplify_eq/=; try done;
    try (destruct H as [_ ->]; done); intuition congruence.
Qed.

(** C11: What a write without blocking reports is what became of the packet. Of a
    packet whose frame is not started, [Delivered], [ReplayOwned] and a frame
    left [Pending] mean that the writer of the connection took it: sequence,
    nonces and replay buffer are those [write_packet] leaves, which did not
    refuse it; any other report means that they are as before. A
    started frame is already owned: its write changes no history, and reports
    neither [NoRoom] nor [BeforeReplay]. *)
Theorem write_reports_ownership c hard p room_wait o :
  (let '(c', _, r) := write_nonblocking c hard p false room_wait o in
   let (taken, outcome) := write_packet (writer c) (header p) (payload p) in
   match r with
   | Pending _ | Done Delivered _ | Done SessionFlow.ReplayOwned _ =>
       same_history taken (writer c') /\ outcome <> Skipped
   | NoRoom _ | Done SessionFlow.BeforeReplay _ | Done Fatal _ => same_history (writer c) (writer c')
   end) /\
  (let '(c', _, r) := write_nonblocking c hard p true room_wait o in
   same_history (writer c) (writer c') /\
   match r with
   | NoRoom _ | Done SessionFlow.BeforeReplay _ => False
   | Done Fatal _ => hard = true
   | _ => True
   end).
Proof.
  unfold write_nonblocking. destruct hard; [split; [by destruct (write_packet _ _ _)|done]|]. split.
  - pose proof (fun rw => write_start_history c p rw o) as H. destruct (wo_room o).
    + specialize (H None). by destruct (write_start c p None o) as [c' w].
    + destruct (_ <? _); [by destruct (write_packet _ _ _)|].
      specialize (H (Some (unwrap_or (wo_now o) room_wait))). by destruct (write_start c p _ o) as [c' w].
  - match goal with |- context [advance_write ?c ?a ?b ?d ?e] =>
      destruct (advance_write_history c a b d e) as [H1 H2]; destruct (advance_write c a b d e) as [c2 step] end.
    cbn [fst snd] in *. destruct (conclude_history c2 step) as [H3 H4].
    destruct (write_conclude c2 step) as [c3 w]. cbn [fst snd] in *. split; [unfold same_history in *; intuition congruence|].
    destruct w as [| |[] v]; try done; destruct H4 as (e & -> & He); by destruct e.
Qed.
End ownership.

(** ** What a pause protects *)

(** A handler between its admission and its resume; one that has the single
    flight; one whose pause has returned. *)
Definition active (h : handler_pc) : bool := match h with Arrived | Ended => false | _ => true end.
Definition has_flag (h : handler_pc) : bool := match h with Arrived | Ended | Released | Resuming _ => false | _ => true end.
Definition has_permit (h : handler_pc) : bool :=
  match h with Permitted | Recovering _ _ | Recovered _ _ => true | _ => false end.
Definition has_paused (h : handler_pc) : bool := match h with Pausing => true | _ => has_permit h end.
Definition snapshot_of (h : handler_pc) : option BackedWriter :=
  match h with Recovering w _ | Recovered w _ => Some w | _ => None end.
Definition resuming (h : handler_pc) : bool := match h with Released | Resuming _ => true | _ => false end.

Definition pump_holds (pc : pump_pc) : bool := match pc with PumpIdle | PumpAsked _ => false | _ => true end.

(** Two writers that have given out the same sequence numbers and nonces. *)
Definition same_numbers (w w' : BackedWriter) : Prop := sequence w = sequence w' /\ crypto w = crypto w'.

(** No handler is admitted while another has released the flag and not yet
    resumed the flow. *)
Definition orderly (s : session) (a : action) : bool :=
  match a with Begin _ => forallb (fun h => negb (resuming h)) (s_handlers s) | _ => true end.

Section protection.
Context {sodium : Sodium} {codec : TerminalBufferCodec} {search : Memchr}.

Inductive session_reachable : session -> Prop :=
| sr_start m c clients : session_reachable (session_start (flow_new m) c clients)
| sr_default c clients : session_reachable (session_start new_default c clients)
| sr_step s a s' : session_reachable s -> orderly s a = true -> session_step s a = Some s' -> session_reachable s'.

Record session_inv (s : session) : Prop := {
  si_one : forall i j h k, handler i s = Some h -> handler j s = Some k -> active h = true -> active k = true -> i = j;
  si_flag : forall i h, handler i s = Some h -> has_flag h = true -> s_recovering s = true;
  si_flight : in_flight (s_flow s) = pump_holds (s_pump s);
  si_paused : forall i h, handler i s = Some h -> has_paused h = true -> paused (s_flow s) = true;
  si_idle : forall i h, handler i s = Some h -> has_permit h = true -> pump_holds (s_pump s) = false;
  si_snapshot : forall i h w, handler i s = Some h -> snapshot_of h = Some w -> same_numbers w (writer (s_conn s))
}.

Lemma same_numbers_trans w1 w2 w3 : same_numbers w1 w2 -> same_numbers w2 w3 -> same_numbers w1 w3.
Proof. intros [] []. split; congruence. Qed.

Lemma snapshot_permit h w : snapshot_of h = Some w -> has_permit h = true.
Proof. by destruct h. Qed.

(** A step of another thread than the handlers. *)
Lemma inv_other s s' :
  session_inv s -> s_handlers s' = s_handlers s -> s_recovering s' = s_recovering s ->
  in_flight (s_flow s') = pump_holds (s_pump s') -> (paused (s_flow s) = true -> paused (s_flow s') = true) ->
  (pump_holds (s_pump s) = false -> paused (s_flow s) = true ->
    pump_holds (s_pump s') = false /\ same_numbers (writer (s_conn s)) (writer (s_conn s'))) ->
  session_inv s'.
Proof.
  intros [] Hh Hr Hi Hp Hn. unfold handler in *. split; unfold handler; rewrite ?Hh, ?Hr; eauto.
  - intros i h E Hpm. apply Hn; [eauto|]. eapply si_paused0; [exact E|]. by destruct h.
  - intros i h w E Hw. pose proof (snapshot_permit _ _ Hw) as Hpm. eapply same_numbers_trans; [by eauto|].
    apply Hn; [eauto|]. eapply si_paused0; [exact E|]. by destruct h.
Qed.

(** A step of handler [i] from [h] to [k], which leaves the pump alone. *)
Lemma inv_handler s s' i h k :
  session_inv s -> handler i s = Some h -> active h = true -> s_handlers s' = <[i := k]> (s_handlers s) ->
  s_pump s' = s_pump s -> in_flight (s_flow s') = in_flight (s_flow s) ->
  (has_flag k = true -> s_recovering s' = true) -> (has_paused k = true -> paused (s_flow s') = true) ->
  (has_permit k = true -> pump_holds (s_pump s) = false) ->
  (forall w, snapshot_of k = Some w -> same_numbers w (writer (s_conn s'))) ->
  session_inv s'.
Proof.
  intros [] Hi Ha Hh Hpu Hfl Hf Hp Hm Hw. unfold handler in *.
  assert (forall j x, s_handlers s' !! j = Some x -> active x = true -> j = i /\ x = k) as Honly.
  { intros j x. rewrite Hh. destruct (decide (i = j)) as [<-|Hn].
    - rewrite list_lookup_insert_eq by (by eapply lookup_lt_Some). by intros [= <-].
    - rewrite list_lookup_insert_ne by done. intros Hj Hx. destruct Hn. eauto. }
  split; unfold handler; rewrite ?Hpu, ?Hfl; auto.
  - intros j1 j2 x y E1 E2 A1 A2. destruct (Honly _ _ E1 A1), (Honly _ _ E2 A2). congruence.
  - intros j x E Hx. destruct (Honly _ _ E) as [-> ->]; [by destruct x|auto].
  - intros j x E Hx. destruct (Honly _ _ E) as [-> ->]; [by destruct x|auto].
  - intros j x E Hx. destruct (Honly _ _ E) as [-> ->]; [by destruct x|auto].
  - intros j x w E Hx. destruct (Honly _ _ E) as [-> ->]; [by destruct x|auto].
Qed.

Lemma window_numbers c now : same_numbers (writer c) (writer (fst (output_window_blocked c now))).
Proof. unfold output_window_blocked. repeat case_match; by split. Qed.

Lemma acknowledge_numbers c q now : same_numbers (writer c) (writer (acknowledge_delivery c q now)).
Proof.
  assert (same_numbers (writer c) (acknowledge (writer c) q)) as H.
  { unfold acknowledge. destruct (_ || _); [by split|]. cbv zeta.
    match goal with |- same_numbers _ (trim_back ?o ?w) => destruct (trim_back_fields o w) as (E1 & _ & _ & E2 & _) end.
    split; by rewrite ?E1, ?E2. }
  unfold acknowledge_delivery. repeat case_match; exact H.
Qed.

(** The pump takes nothing from a paused flow. *)
Lemma paused_no_item terminal s : paused s = true -> try_next_item terminal s = (s, None).
Proof.
  intros Hp. unfold try_next_item. destruct (writer_must_wait s) eqn:Hm; [done|].
  unfold take_item. by rewrite (must_wait_paused _ Hm Hp).
Qed.

Lemma take_item_flags terminal s :
  paused (fst (take_item terminal s)) = paused s /\
  in_flight (fst (take_item terminal s)) =
    match snd (take_item terminal s) with Some _ => true | None => in_flight s end.
Proof. unfold take_item. repeat case_match; by simplify_eq. Qed.

Lemma stop_gracefully_flags s :
  paused (fst (stop_gracefully s)) = paused s /\ in_flight (fst (stop_gracefully s)) = in_flight s.
Proof. unfold stop_gracefully. case_bool_decide; [by destruct (_ || _)|done]. Qed.

Lemma settled_flags p w s :
  let s' := pump_settle p w s in
  s_handlers s' = s_handlers s /\ s_recovering s' = s_recovering s /\ s_conn s' = s_conn s /\
  paused (s_flow s') = paused (s_flow s) /\
  (in_flight (s_flow s) = true -> in_flight (s_flow s') = pump_holds (s_pump s')).
Proof.
  destruct w as [d|d|r v]; cbn [pump_settle]; try by split_and!.
  destruct (settle_fields p r v (s_flow s)) as (F1 & _ & _ & F4 & _).
  destruct (completed_settle p r v (s_flow s)) as [w Hw]. unfold completed_state in Hw.
  cbn [s_flow with_flow with_pump with_sent]. rewrite Hw. by split_and!.
Qed.

(** Steps that no handler makes. *)
Lemma other_step_inv s a s' :
  session_inv s -> session_step s a = Some s' ->
  match a with
  | Stage _ | StopOutput _ | TearDown | ClientLost _ | Acknowledge _ _ | PumpAsk _ _ | PumpTake | PumpWrite _ | PumpSettle => True
  | _ => False
  end -> session_inv s'.
Proof.
  intros Hs Hstep Ha. pose proof (si_flight _ Hs) as Hfl. destruct a; try done; cbn [session_step] in Hstep.
  - injection Hstep as <-. destruct (enqueue_shape p (s_flow s)) as (q & w & E).
    apply (inv_other s); cbn; rewrite ?E; auto. by repeat split.
  - injection Hstep as <-. destruct (stop_gracefully_flags (s_flow s)) as [E1 E2].
    apply (inv_other s); cbn; destruct graceful; rewrite ?E1, ?E2; auto; by repeat split.
  - injection Hstep as <-. apply (inv_other s); auto. by repeat split.
  - injection Hstep as <-. unfold mark_client_disconnected. destruct (negb _); [done|].
    apply (inv_other s); cbn; auto. by repeat split.
  - injection Hstep as <-. apply (inv_other s); cbn; auto. intros Hp _. split; [done|apply acknowledge_numbers].
  - assert (s' = pump_ask bounded now s) as -> by (by destruct (s_pump s); simplify_eq).
    unfold pump_ask. destruct (s_pump s) eqn:Ep; try done; [|by apply (inv_other s); cbn; rewrite ?Ep; auto].
    destruct bounded; [|by apply (inv_other s); cbn; rewrite ?Ep; auto; repeat split].
    pose proof (window_numbers (s_conn s) now) as Hn. destruct (output_window_blocked (s_conn s) now) as [c r].
    apply (inv_other s); cbn; rewrite ?Ep; auto.
  - destruct (s_pump s) as [|release| | |] eqn:Ep; try done. injection Hstep as <-. unfold pump_take.
    set (b := match release with None => true | Some _ => false end). clearbody b.
    destruct (paused (s_flow s)) eqn:Epz.
    { rewrite (paused_no_item _ _ Epz). apply (inv_other s); cbn; auto. by repeat split. }
    unfold try_next_item. destruct (writer_must_wait (s_flow s)).
    { apply (inv_other s); cbn; auto. by repeat split. }
    destruct (take_item_flags b (s_flow s)) as [E1 E2]. destruct (take_item b (s_flow s)) as [f [[q started]|]];
      cbn in E1, E2; apply (inv_other s); cbn; rewrite ?E1, ?E2, ?Hfl, ?Ep; auto; congruence.
  - destruct (s_pump s) as [| |p started| |] eqn:Ep; try done. injection Hstep as <-. unfold pump_write.
    destruct (write_nonblocking _ _ _ _ _ _) as [[c room] w]. apply (inv_other s); cbn; rewrite ?Ep; auto. done.
  - destruct (s_pump s) as [| | |p w|] eqn:Ep; try done. injection Hstep as <-.
    destruct (settled_flags p w s) as (E1 & E2 & E3 & E4 & E5). apply (inv_other s); rewrite ?E4, ?Ep; auto. done.
Qed.

Lemma resume_flight v s : in_flight (resume v s) = in_flight s.
Proof. unfold resume. cbn. by destruct (negb v && _). Qed.

(** A handler at [Arrived] is turned away, or is the only one active. *)
Lemma admit_inv s i : session_inv s -> handler i s = Some Arrived ->
  forallb (fun h => negb (resuming h)) (s_handlers s) = true -> session_inv (recover_admit i s).
Proof.
  intros [] Hi Ho. unfold recover_admit, handler in *.
  assert (forall j x k, <[i := k]> (s_handlers s) !! j = Some x -> (j = i /\ x = k) \/ s_handlers s !! j = Some x) as Hcase.
  { intros j x k. destruct (decide (i = j)) as [<-|]; [|rewrite list_lookup_insert_ne by done; auto].
    rewrite list_lookup_insert_eq by (by eapply lookup_lt_Some). intros [= <-]. auto. }
  destruct (s_torn_down s || s_recovering s) eqn:Er.
  - split; unfold handler; cbn; auto.
    + intros j1 j2 x y [[-> ->]|E1]%Hcase [[-> ->]|E2]%Hcase; try done; eauto.
    + intros j x [[-> ->]|E]%Hcase; [done|eauto].
    + intros j x [[-> ->]|E]%Hcase; [done|eauto].
    + intros j x [[-> ->]|E]%Hcase; [done|eauto].
    + intros j x w [[-> ->]|E]%Hcase; [done|eauto].
  - apply orb_false_iff in Er as [_ Er].
    assert (forall j x, s_handlers s !! j = Some x -> active x = false) as Hnone.
    { intros j x E. apply not_true_iff_false. intros Ha. destruct (has_flag x) eqn:Ex; [by rewrite (si_flag0 _ _ E Ex) in Er|].
      rewrite forallb_forall in Ho. assert (resuming x = false) as Hx.
      { apply negb_true_iff, Ho. by eapply list_elem_of_In, list_elem_of_lookup_2. }
      by destruct x. }
    assert (forall j x, <[i := Entered]> (s_handlers s) !! j = Some x -> active x = true -> j = i /\ x = Entered) as Honly.
    { intros j x [?|E]%Hcase Ha; [done|]. by rewrite (Hnone _ _ E) in Ha. }
    split; unfold handler; cbn; auto.
    + intros j1 j2 x y E1 E2 A1 A2. by destruct (Honly _ _ E1 A1) as [-> _], (Honly _ _ E2 A2) as [-> _].
    + intros j x E Hx. destruct (Honly _ _ E) as [_ ->]; [by destruct x|done].
    + intros j x E Hx. destruct (Honly _ _ E) as [_ ->]; [by destruct x|done].
    + intros j x w E Hx. destruct (Honly _ _ E) as [_ ->]; [by destruct x|done].
Qed.

Ltac handler_moves Eh :=
  eapply inv_handler; [eassumption|exact Eh|reflexivity|reflexivity|reflexivity|..]; cbn; try done; eauto.

Lemma session_step_inv s a s' : session_inv s -> orderly s a = true -> session_step s a = Some s' -> session_inv s'.
Proof.
  intros Hs Ho Hstep. pose proof Hs as []. destruct a; try (by eapply other_step_inv).
  all: cbn [session_step] in Hstep; destruct (handler i s) as [h|] eqn:Eh; [|done]; destruct h; try done.
  - injection Hstep as <-. by apply admit_inv.
  - injection Hstep as <-. handler_moves Eh.
  - unfold pause_returns in Hstep. rewrite si_flight0 in Hstep. destruct (pump_holds (s_pump s)) eqn:Ep; [done|].
    injection Hstep as <-. handler_moves Eh.
  - injection Hstep as <-. unfold recover_snapshot. destruct (s_torn_down s); handler_moves Eh. by intros w [= <-].
  - injection Hstep as <-. destruct (recover_candidate _ _ _ _); handler_moves Eh.
  - injection Hstep as <-. unfold recover_install. destruct (s_torn_down s); handler_moves Eh.
  - injection Hstep as <-. handler_moves Eh.
  - injection Hstep as <-. handler_moves Eh.
  - injection Hstep as <-. handler_moves Eh.
  - injection Hstep as <-. handler_moves Eh.
  - injection Hstep as <-. handler_moves Eh.
  - injection Hstep as <-. unfold permit_resume. handler_moves Eh. apply resume_flight.
Qed.

Lemma session_start_inv f c clients : in_flight f = false -> session_inv (session_start f c clients).
Proof.
  intros Hf. assert (forall i h, handler i (session_start f c clients) = Some h -> h = Arrived) as Ha.
  { intros i h H. by apply lookup_replicate in H as [-> _]. }
  split; [..|]; try done; repeat intro; repeat match goal with H : handler _ _ = Some _ |- _ => apply Ha in H end; by subst.
Qed.

(** C9: While handlers are admitted one after the other's resume, recovery loses
    nothing. At most one is active, and from its snapshot to the installation
    of its candidate the old connection gives out no sequence number and no
    nonce: what is replaced is what was copied. *)
Theorem recovery_installs_current_state s i h w :
  session_reachable s -> handler i s = Some h -> snapshot_of h = Some w ->
  same_numbers w (writer (s_conn s)) /\ in_flight (s_flow s) = false /\ s_recovering s = true /\
  (forall j k, handler j s = Some k -> active k = true -> j = i).
Proof.
  intros Hr Hi Hw. assert (session_inv s) as [].
  { clear Hi Hw. induction Hr; [by apply session_start_inv..|by eapply session_step_inv]. }
  pose proof (snapshot_permit _ _ Hw) as Hp. split_and!; [by eauto| |eapply si_flag0; [exact Hi|]; by destruct h|].
  - rewrite si_flight0. by eauto.
  - intros j k Hj Hk. eapply si_one0; [exact Hj|exact Hi|done|by destruct h].
Qed.
End protection.

(** ** Output held during a recovery

    Of a session that does not stage its output. *)

Record Hold := mkHold { hold : list (byte * list byte); recover_hold_bytes : Z }.

Fixpoint payload_sum (l : list (byte * list byte)) : Z :=
  match l with [] => 0 | (_, body) :: l => zlen body + payload_sum l end.

(** [queue_if_recovering]: [r1] and [r2] are the two readings of the flag. *)
Definition queue_if_recovering (r1 r2 : bool) (c : Connection) (hdr : byte) (body : list byte) (h : Hold)
  : Hold * result unit bool :=
  if negb r1 || negb r2 then (h, Ok false)
  else if MAX_BACKUP_PACKETS + MAX_DISCONNECT_PACKETS <=? zlen (hold h) then (h, Err tt)
  else
    let requested := sat_add u64_max (recover_hold_bytes h) (zlen body) in
    if (2 ^ 63 <=? requested) || (MAX_RECOVERY_BACKUP_BYTES <? requested) || negb (can_buffer_write c requested)
    then (h, Err tt)
    else (mkHold (hold h ++ [(hdr, body)]) ((recover_hold_bytes h + zlen body) mod 2 ^ 64), Ok true).

(** One batch of [flush_recover_hold_with]. [concurrent] is what other threads
    put in the hold meanwhile, [owned] what the replay buffer took. *)
Fixpoint flush_batch (write : Connection -> byte -> list byte -> Connection * result WritePacketError unit)
    (c : Connection) (batch concurrent : list (byte * list byte)) (bytes : Z)
  : Connection * list (byte * list byte) * Hold * result ConnError unit :=
  match batch with
  | [] => (c, [], mkHold concurrent bytes, Ok tt)
  | (hdr, body) :: remaining =>
      match write c hdr body with
      | (c, Ok _) =>
          let '(c, owned, h, r) := flush_batch write c remaining concurrent ((bytes - zlen body) mod 2 ^ 64) in
          (c, (hdr, body) :: owned, h, r)
      | (c, Err (BeforeReplay e)) => (c, [], mkHold ((hdr, body) :: remaining ++ concurrent) bytes, Err e)
      | (c, Err (ReplayOwned e)) =>
          (c, [(hdr, body)], mkHold (remaining ++ concurrent) ((bytes - zlen body) mod 2 ^ 64), Err e)
      end
  end.

Lemma payload_sum_app l k : payload_sum (l ++ k) = payload_sum l + payload_sum k.
Proof. induction l as [|[] l IH]; cbn [payload_sum app]; [done|]. lia. Qed.

Lemma payload_sum_nonneg l : 0 <= payload_sum l.
Proof. induction l as [|[] l IH]; cbn [payload_sum]; [done|]. unfold zlen. lia. Qed.

(** What is held is written in the order it came, whatever the connection
    answers: a packet is written once or is still held, in its place, and the
    count of the held bytes is that of the packets held. *)
Theorem hold_flush_lossless write c batch concurrent bytes c' owned h r :
  bytes = payload_sum batch + payload_sum concurrent -> bytes < 2 ^ 64 ->
  flush_batch write c batch concurrent bytes = (c', owned, h, r) ->
  batch ++ concurrent = owned ++ hold h /\ recover_hold_bytes h = payload_sum (hold h) /\
  (r = Ok tt -> hold h = concurrent).
Proof.
  revert c bytes c' owned h r. induction batch as [|[hdr body] batch IH]; intros c bytes c' owned h r Hb Hlt; cbn.
  { intros [= <- <- <- <-]. by cbn in *. }
  cbn [payload_sum] in Hb. pose proof (payload_sum_nonneg batch). pose proof (payload_sum_nonneg concurrent).
  assert (0 <= zlen body) by (unfold zlen; lia).
  destruct (write c hdr body) as [c1 [u|[e|e]]].
  - rewrite Z.mod_small by lia. destruct (flush_batch write c1 batch concurrent (bytes - zlen body)) as [[[c2 o2] h2] r2] eqn:E.
    intros [= <- <- <- <-]. apply IH in E as (K1 & K2 & K3); [|lia..]. cbn [app]. by rewrite K1.
  - intros [= <- <- <- <-]. cbn [hold recover_hold_bytes payload_sum app]. rewrite payload_sum_app. split_and!; [done|lia|done].
  - intros [= <- <- <- <-]. cbn [hold recover_hold_bytes payload_sum app]. rewrite payload_sum_app, Z.mod_small by lia. split_and!; [done|lia|done].
Qed.

(** ** Two recoveries in a row *)

Section race.
#[local] Existing Instance toy_sodium.
#[local] Existing Instance simple_codec.
#[local] Existing Instance simple_search.

Definition demo_conn : Connection := new_server (replicate 32 x61).
Definition demo_output : Packet := Packet.new x00 [x62].

(** The peer has nothing to resend, and the keep-alive goes out in one
    [send]; the socket takes a frame at once. *)
Definition demo_recover_os : recover_os := mkRecoverOs (Ok []) 100 [] (Ok tt) (Err WouldBlock) 1 1 [mkTurn 2 (Ok 22) (Ok tt)].
Definition demo_write_os : write_os := mkWriteOs true 1 (mkStart (Err WouldBlock) 1 1 1 0 1 (Ok 23)).

Definition first_recovery : list action :=
  [Begin 0; PauseSet 0; PauseDone 0; Snapshot 0; Handshake 0 exchange_default ProofHandshake demo_recover_os; Install 0].
Definition second_admitted : list action := [Begin 1; PauseSet 1; PauseDone 1].
Definition output_written : list action :=
  [Stage demo_output; PumpAsk true 1; PumpTake; PumpWrite demo_write_os; PumpSettle].
Definition second_recovery : list action :=
  [Handshake 1 exchange_default ProofHandshake demo_recover_os; Install 1].

(** The first handler releases the flag, a second is admitted and pauses the
    flow, and the first then resumes it. *)
Definition late_resume : list action := first_recovery ++ [ClearFlag 0] ++ second_admitted ++
  [ReadConnected 0; ResumeFlow 0; Snapshot 1].

Definition race_run (l : list action) : session :=
  unwrap_or (session_start new_default demo_conn 2) (session_run (session_start new_default demo_conn 2) l).

(** C35: [RecoverPermit::drop] releases the flag of the single flight before it
    resumes the flow, so it can cancel the pause of the next recovery. The
    pump then writes on the connection that recovery has copied: the packet
    counts as delivered, and the connection installed does not have it. The
    two connections have given the same sequence number, under the same nonce
    and key, to different frames. *)
Theorem late_resume_loses_output :
  let before := race_run (late_resume ++ output_written) in
  let after := race_run (late_resume ++ output_written ++ second_recovery) in
  s_sent after = [(demo_output, Delivered)] /\ s_generation after = 2 /\
  same_numbers (writer (s_conn before)) (writer (s_conn after)) /\
  (exists frame frame' rest, backup (writer (s_conn before)) = frame :: rest /\
    backup (writer (s_conn after)) = frame' :: rest /\ frame <> frame' /\ ~ In frame (backup (writer (s_conn after)))).
Proof.
  cbv zeta. split_and!; [vm_compute; reflexivity..|split; vm_compute; reflexivity|].
  eexists _, _, _. split_and!; [vm_compute; reflexivity..|vm_compute; discriminate|].
  vm_compute. intros [H|[H|[]]]; discriminate H.
Qed.

(** ** Witness *)

Fixpoint orderly_run (s : session) (l : list action) : option session :=
  match l with
  | [] => Some s
  | a :: l =>
      if orderly s a then match session_step s a with Some s => orderly_run s l | None => None end else None
  end.

Lemma orderly_run_reachable s l s' : session_reachable s -> orderly_run s l = Some s' -> session_reachable s'.
Proof.
  revert s. induction l as [|a l IH]; cbn; intros s Hs; [by intros [= <-]|].
  destruct (orderly s a) eqn:Eo; [|done]. destruct (session_step s a) as [s1|] eqn:E; [|done].
  apply IH. by eapply sr_step.
Qed.

(** The first recovery resumes the flow, output is written, and the second is
    about to install its candidate. *)
Definition one_after_the_other : list action :=
  first_recovery ++ [ClearFlag 0; ReadConnected 0; ResumeFlow 0] ++ output_written ++ second_admitted ++ [Snapshot 1].

Lemma recovery_installs_current_state_witness :
  sequence (writer (s_conn (race_run one_after_the_other))) = 2 /\
  exists w c, handler 1 (race_run one_after_the_other) = Some (Recovering w c) /\
    same_numbers w (writer (s_conn (race_run one_after_the_other))).
Proof.
  split; [vm_compute; reflexivity|]. eexists _, _. split; [vm_compute; reflexivity|].
  eapply (recovery_installs_current_state (race_run one_after_the_other) 1); [|vm_compute; reflexivity..].
  apply (orderly_run_reachable (session_start new_default demo_conn 2) one_after_the_other);
    [apply sr_default|vm_compute; reflexivity].
Defined.
End race.
