(* ===== verification/Wire.v ===== *)
(** * Wire: the protobuf encoding of small messages

    The wire format that the protobuf documentation gives for [int32],
    [bool], [enum], [string] and [bytes] fields with numbers up to 15: the
    instances of the codec classes are built from it. The generated codec of
    the sources is a parameter of the theorems; this file shows that what they
    ask of it can be had. *)

From S2P Require Import Prelude Framing FramingIo Packet Exchange Connection Recovery.

Inductive field :=
| VarintField (number value : Z)
| BytesField (number : Z) (value : list byte).

Definition field_number (f : field) : Z :=
  match f with VarintField n _ => n | BytesField n _ => n end.

Definition encode_field (f : field) : list byte :=
  match f with
  | VarintField n v => z2b (n * 8) :: encode_varint v
  | BytesField n b => z2b (n * 8 + 2) :: encode_varint (zlen b) ++ b
  end.

Definition encode_fields (fs : list field) : list byte := concat (map encode_field fs).

Fixpoint parse_fields_go (fuel : nat) (bytes : list byte) : option (list field) :=
  match bytes, fuel with
  | [], _ => Some []
  | tag :: rest, S fuel =>
      let number := b2z tag / 8 in
      if 128 <=? b2z tag then None
      else if b2z tag mod 8 =? 0 then
        match decode_varint rest with
        | Some (v, used) => cons (VarintField number v) <$> parse_fields_go fuel (zdrop used rest)
        | None => None
        end
      else if b2z tag mod 8 =? 2 then
        match read_bytes rest with
        | Some (b, rest) => cons (BytesField number b) <$> parse_fields_go fuel rest
        | None => None
        end
      else None
  | _, O => None
  end.

Definition parse_fields (bytes : list byte) : option (list field) := parse_fields_go (length bytes) bytes.

(** The last occurrence of a field counts. *)
Fixpoint get_varint (n : Z) (fs : list field) : option Z :=
  match fs with
  | [] => None
  | f :: fs =>
      match get_varint n fs with
      | Some v => Some v
      | None => match f with VarintField m v => if m =? n then Some v else None | _ => None end
      end
  end.

Fixpoint get_bytes (n : Z) (fs : list field) : option (list byte) :=
  match fs with
  | [] => None
  | f :: fs =>
      match get_bytes n fs with
      | Some v => Some v
      | None => match f with BytesField m v => if m =? n then Some v else None | _ => None end
      end
  end.

Definition get_bool (n : Z) (fs : list field) : option bool :=
  (fun v => negb (v =? 0)) <$> get_varint n fs.

Definition opt_varint (n : Z) (v : option Z) : list field :=
  match v with Some v => [VarintField n v] | None => [] end.
Definition opt_bool (n : Z) (v : option bool) : list field :=
  match v with Some v => [VarintField n (if v then 1 else 0)] | None => [] end.
Definition opt_bytes (n : Z) (v : option (list byte)) : list field :=
  match v with Some v => [BytesField n v] | None => [] end.

(** ** Round trip *)

Definition field_ok (f : field) : Prop :=
  1 <= field_number f <= 15 /\
  match f with VarintField _ v => 0 <= v < 2 ^ 63 | BytesField _ b => zlen b <= i64_max end.

Lemma parse_encoded_go fs fuel :
  Forall field_ok fs -> (length fs <= fuel)%nat -> parse_fields_go fuel (encode_fields fs) = Some fs.
Proof.
  intros Hok. revert fuel. induction Hok as [|f fs [Hn Hf] Hok IH]; intros fuel Hl; [by destruct fuel|].
  destruct fuel as [|fuel]; [cbn in Hl; lia|]. cbn in Hl.
  unfold encode_fields. cbn [map concat]. destruct f as [n v|n b]; cbn [encode_field app parse_fields_go field_number] in *.
  - rewrite b2z_z2b_small by lia. rewrite (proj2 (Z.leb_gt _ _)) by lia.
    rewrite Z.mod_mul, Z.div_mul by lia. rewrite Z.eqb_refl. cbv iota. rewrite decode_varint_app by done. rewrite zdrop_app_exact.
    fold (encode_fields fs). rewrite IH by lia. done.
  - rewrite b2z_z2b_small by lia. rewrite (proj2 (Z.leb_gt _ _)) by lia.
    rewrite Z.add_comm, Z.mod_add, Z.div_add by lia.
    change (2 mod 8) with 2. change (2 / 8 + n) with n. change (2 =? 0) with false. change (2 =? 2) with true. cbv iota.
    rewrite <-app_assoc, read_bytes_app by done.
    fold (encode_fields fs). rewrite IH by lia. done.
Qed.

Lemma parse_encoded fs : Forall field_ok fs -> parse_fields (encode_fields fs) = Some fs.
Proof.
  intros Hok. apply parse_encoded_go; [done|]. clear. unfold encode_fields.
  induction fs as [|f fs IH]; [done|]. cbn [map concat length]. rewrite length_app.
  destruct f; cbn; lia.
Qed.

Definition field_size (f : field) : Z := match f with VarintField _ _ => 11 | BytesField _ b => 11 + zlen b end.

Lemma encode_fields_size fs : zlen (encode_fields fs) <= foldr (fun f n => field_size f + n) 0 fs.
Proof.
  unfold encode_fields. induction fs as [|f fs IH]; [done|]. cbn [map concat foldr]. rewrite zlen_app.
  assert (zlen (encode_field f) <= field_size f); [|lia].
  destruct f as [n v|n b]; cbn [encode_field field_size]; rewrite zlen_cons.
  - pose proof (encode_varint_zlen v). lia.
  - rewrite zlen_app. pose proof (encode_varint_zlen (zlen b)). lia.
Qed.
