(* ===== verification/Keys.v ===== *)
(** * Keys: [crates/et-core/src/keys.rs]

    Session ids and passkeys: generation from a random source, the
    [id/passkey] form, and the key a passkey stands for. Strings are their
    UTF-8 bytes. *)

From Stdlib Require Import String.
From S2P Require Import Prelude Bytes Crypto.

Definition ALPHANUM : list byte :=
  bytes_of "0123456789ABCDEFGHIJKLMNOPQRSTUVWXYZabcdefghijklmnopqrstuvwxyz".
Definition ID_LEN : Z := 16.
Definition PASSKEY_LEN : Z := 32.

(** [ALPHANUM[rng.gen_range(0..ALPHANUM.len())]]: [pick] is what the random
    source returns. *)
Definition alphanum (pick : Z) : byte := unwrap_or x00 (nth_error ALPHANUM (Z.to_nat pick)).

(** [picks i] is the [i]-th draw. *)
Definition gen_id_passkey (picks : nat -> Z) : list byte * list byte :=
  let draw start count := map (fun i => alphanum (picks i)) (seq start count) in
  (draw 0%nat (Z.to_nat ID_LEN), draw (Z.to_nat ID_LEN) (Z.to_nat PASSKEY_LEN)).

Definition passkey_to_key (passkey : list byte) : option (list byte) :=
  if negb (zlen passkey =? PASSKEY_LEN) || negb (forallb is_ascii_alphanumeric passkey) then None
  else Some passkey.

Definition parse_id_passkey (s : list byte) : option (list byte * list byte) :=
  match split_once "/"%byte s with
  | None => None
  | Some (id, passkey) =>
      if negb (zlen id =? ID_LEN) || negb (forallb is_ascii_alphanumeric id)
         || match passkey_to_key passkey with None => true | Some _ => false end
      then None
      else Some (id, passkey)
  end.

(** ** Theorems *)

(** What a passkey or an id consists of. *)
Definition alphanumeric (n : Z) (s : list byte) : Prop := zlen s = n /\ Forall (fun b => is_ascii_alphanumeric b = true) s.

Lemma checked_iff n s :
  negb (zlen s =? n) || negb (forallb is_ascii_alphanumeric s) = false <-> alphanumeric n s.
Proof.
  unfold alphanumeric. rewrite orb_false_iff, !negb_false_iff, Z.eqb_eq, forallb_forall, Forall_forall.
  split; intros [H1 H2]; (split; [done|]); intros x Hx; apply H2; by apply list_elem_of_In.
Qed.

Lemma alphanumeric_no_slash n s : alphanumeric n s -> ~ "/"%byte ∈ s.
Proof. intros [_ H] Hin. rewrite Forall_forall in H. by specialize (H _ Hin). Qed.

(** The text forms that are accepted are exactly an id of 16 and a passkey of
    32 alphanumeric characters around a slash, and the parts are unique. *)
Theorem parse_id_passkey_iff s id passkey :
  parse_id_passkey s = Some (id, passkey) <->
  s = id ++ "/"%byte :: passkey /\ alphanumeric ID_LEN id /\ alphanumeric PASSKEY_LEN passkey.
Proof.
  unfold parse_id_passkey, passkey_to_key. split.
  - destruct (split_once "/"%byte s) as [[l r]|] eqn:E; [|done]. apply split_once_spec in E as [-> _].
    destruct (negb (zlen r =? PASSKEY_LEN) || _) eqn:Hr; [by rewrite orb_true_r|]. rewrite orb_false_r.
    destruct (negb (zlen l =? ID_LEN) || _) eqn:Hl; [done|]. intros [= <- <-].
    by apply checked_iff in Hl, Hr.
  - intros (-> & Hid & Hp). rewrite (proj2 (split_once_spec _ _ id passkey));
      [|split; [done|by eapply alphanumeric_no_slash]].
    rewrite (proj2 (checked_iff _ _) Hid), (proj2 (checked_iff _ _) Hp). done.
Qed.

Lemma alphanum_ok pick : 0 <= pick < zlen ALPHANUM -> is_ascii_alphanumeric (alphanum pick) = true.
Proof.
  intros H. assert (forallb is_ascii_alphanumeric ALPHANUM = true) as Hall by (vm_compute; reflexivity).
  rewrite forallb_forall in Hall. unfold alphanum.
  destruct (nth_error ALPHANUM (Z.to_nat pick)) as [b|] eqn:E; cbn [unwrap_or].
  - by eapply Hall, nth_error_In.
  - apply nth_error_None in E. unfold zlen in H. lia.
Qed.

(** Generated credentials, joined by a slash, parse back to themselves and
    their passkey is a key. *)
Theorem generated_credentials_parse picks :
  (forall i, 0 <= picks i < zlen ALPHANUM) ->
  let (id, passkey) := gen_id_passkey picks in
  parse_id_passkey (id ++ "/"%byte :: passkey) = Some (id, passkey) /\
  passkey_to_key passkey = Some passkey /\ zlen passkey = KEY_LEN.
Proof.
  intros H. unfold gen_id_passkey.
  assert (forall start n, alphanumeric (Z.of_nat n) (map (fun i => alphanum (picks i)) (seq start n))) as Ha.
  { intros start n. split; [unfold zlen; by rewrite length_map, length_seq|].
    apply Forall_map, Forall_forall. intros i _. by apply alphanum_ok. }
  pose proof (Ha 0%nat 16%nat) as H1. pose proof (Ha 16%nat 32%nat) as H2.
  split_and!; [by apply parse_id_passkey_iff| |apply H2].
  apply (checked_iff PASSKEY_LEN) in H2. unfold passkey_to_key.
  change (Z.to_nat ID_LEN) with 16%nat. change (Z.to_nat PASSKEY_LEN) with 32%nat. by rewrite H2.
Qed.

(** ** Witnesses *)

Lemma generated_credentials_parse_witness :
  parse_id_passkey (bytes_of "0000000000000000/00000000000000000000000000000000") =
    Some (bytes_of "0000000000000000", bytes_of "00000000000000000000000000000000").
Proof.
  pose proof (generated_credentials_parse (fun _ => 0)) as H.
  exact (proj1 (H ltac:(intros; vm_compute; split; congruence))).
Defined.
