(* ===== verification/Registry.v ===== *)
(** * Registry: [crates/et-server/src/registry_validation.rs], [registry.rs]

    The terminals registered with the server: validation of what a terminal
    claims, the table keyed by session id, and the generations that keep a
    late event of an old registration from touching its successor. An
    [Arc<()>] identity, compared by pointer, is a number that [register]
    allocates. Terminal sockets are numbers. The Unix branches are the ones
    modelled; a mutex is not poisoned. *)

From stdpp Require Import gmap.
From S2P Require Import Prelude Bytes FramingIo Crypto Keys LocalPacket.

(** ** Data *)

(** [TerminalUserInfo] of [ETerminal.proto]. *)
Record TerminalUserInfo := mkInfo {
  ui_id : option (list byte);
  ui_passkey : option (list byte);
  ui_uid : option Z;
  ui_gid : option Z;
  ui_fd : option Z;
  ui_ptyactive : option bool;
  ui_hadreversetunnels : option bool;
  ui_disconnect_timeout_seconds : option Z;
  ui_upstream_router_stream : option bool
}.

Record Registration := mkRegistration {
  r_id : list byte;
  r_key : list byte;
  r_uid : Z;
  r_gid : Z;
  startup_ack : bool;
  router_framing : RouterFraming;
  pty_active : bool;
  had_reverse_tunnels : bool;
  disconnect_timeout_seconds : option Z;
  generation : nat
}.

(** [RegistrationIdentity]. *)
Record Identity := mkIdentity {
  i_id : list byte;
  i_generation : nat
}.

#[export] Instance Identity_eq_dec : EqDecision Identity.
Proof. solve_decision. Defined.

(** The kernel's credentials of the peer. *)
Record PeerIdentity := mkPeer {
  peer_uid : Z;
  peer_gid : Z
}.

Inductive RegistrationError := RInvalid | RDuplicate | RUnavailable | RTimeout | RIo.

Inductive StartupState :=
| Legacy
| Pending
| Complete (r : result (list byte) unit).

Record StoredRegistration := mkStored {
  s_info : Registration;
  s_stream : Z;
  s_startup : StartupState;
  registered_at : Z
}.

Record RegistryState := mkRegistry {
  registrations : gmap (list byte) StoredRegistration;
  removed : gmap (list byte) Z;
  next_generation : nat
}.

Record RegisteredTerminal := mkTerminal {
  t_identity : Identity;
  t_watcher : Z;
  t_startup_ack : bool;
  t_router_framing : RouterFraming;
  t_resumed : bool
}.

Definition registry_new : RegistryState := mkRegistry ∅ ∅ 0.

(** Ids and passkeys of the registration. *)
Definition reg_identity (r : Registration) : Identity := mkIdentity (r_id r) (generation r).
Definition same_generation (a b : Registration) : bool :=
  bool_decide (r_id a = r_id b) && bool_decide (generation a = generation b).
Definition matches (i : Identity) (r : Registration) : bool :=
  bool_decide (i_id i = r_id r) && bool_decide (i_generation i = generation r).

(** [RECOVERY_GRACE]. *)
Definition RECOVERY_GRACE : Z := secs 60.

(** ** Validation *)

Definition validate (info : TerminalUserInfo) (peer : PeerIdentity) (fresh : nat)
  : result RegistrationError Registration :=
  match ui_id info with
  | None => Err RInvalid
  | Some id =>
      if negb (zlen id =? ID_LEN) || negb (forallb is_ascii_alphanumeric id) then Err RInvalid
      else
        match ui_passkey info with
        | None => Err RInvalid
        | Some passkey =>
            match passkey_to_key passkey with
            | None => Err RInvalid
            | Some key =>
                let ack := bool_decide (ui_fd info = Some (-6)) in
                Ok {|
                  r_id := id;
                  r_key := key;
                  r_uid := peer_uid peer;
                  r_gid := peer_gid peer;
                  startup_ack := ack;
                  router_framing :=
                    if ack && negb (bool_decide (ui_upstream_router_stream info = Some true))
                    then Packets else Upstream;
                  pty_active := unwrap_or false (ui_ptyactive info);
                  had_reverse_tunnels := unwrap_or false (ui_hadreversetunnels info);
                  disconnect_timeout_seconds := ui_disconnect_timeout_seconds info;
                  generation := fresh |}
            end
        end
  end.

(** ** The table *)

(** What [poll] reports of a terminal socket. *)
Record poll_events := mkEvents {
  ev_in : bool;
  ev_hup : bool;
  ev_err : bool
}.

(** [peer_closed]: [poll] with a zero timeout, then a peek of one byte. *)
Definition peer_closed (polled : result io_kind poll_events) (peek : result io_kind Z) : bool :=
  match polled with
  | Err _ => false
  | Ok events =>
      if ev_err events then true
      else if negb (ev_in events || ev_hup events) then false
      else match peek with
           | Ok n => n =? 0
           | Err _ => ev_hup events
           end
  end.

Definition initial_startup (r : Registration) : StartupState :=
  if startup_ack r then Pending else Legacy.

Definition set_registrations (s : RegistryState) (new_registrations : gmap (list byte) StoredRegistration) : RegistryState :=
  mkRegistry new_registrations (removed s) (next_generation s).

(** [register]: [cloned] is the outcome of duplicating the socket, [closed]
    the answer of [peer_closed] on the socket of the present registration. *)
Definition register (s : RegistryState) (info : TerminalUserInfo) (stream : Z) (peer : PeerIdentity)
    (cloned : result io_kind unit) (closed : bool) (now : Z)
  : RegistryState * result RegistrationError RegisteredTerminal :=
  match validate info peer (next_generation s) with
  | Err e => (s, Err e)
  | Ok r =>
      let s := mkRegistry (registrations s) (removed s) (S (next_generation s)) in
      match cloned with
      | Err _ => (s, Err RIo)
      | Ok _ =>
          let terminal := mkTerminal (reg_identity r) stream (startup_ack r) (router_framing r) (pty_active r) in
          let stored := mkStored r stream (initial_startup r) now in
          match registrations s !! r_id r with
          | None => (set_registrations s (<[r_id r := stored]> (registrations s)), Ok terminal)
          | Some _ =>
              if negb closed then (s, Err RDuplicate)
              else (set_registrations s (<[r_id r := stored]> (registrations s)), Ok terminal)
          end
      end
  end.

(** [get_mut(id).filter(matches)]. *)
Definition current (s : RegistryState) (i : Identity) : option StoredRegistration :=
  match registrations s !! i_id i with
  | Some stored => if matches i (s_info stored) then Some stored else None
  | None => None
  end.

Definition report_startup (s : RegistryState) (i : Identity) (r : result (list byte) unit)
  : RegistryState * result RegistrationError unit :=
  match current s i with
  | None => (s, Err RUnavailable)
  | Some stored =>
      match s_startup stored with
      | Pending =>
          (set_registrations s (<[i_id i := mkStored (s_info stored) (s_stream stored) (Complete r)
             (registered_at stored)]> (registrations s)), Ok tt)
      | _ => (s, Err RInvalid)
      end
  end.

(** One turn of [wait_for_startup], at [now]: an answer, or a wait of at most
    the returned time. [timed_out] tells whether the wait before this turn ran
    out. *)
Definition wait_for_startup_turn (s : RegistryState) (r : Registration) (timed_out : bool) (deadline now : Z)
  : blocking Z (result RegistrationError unit) :=
  if timed_out then Returned (Err RTimeout)
  else
  match current s (reg_identity r) with
  | None => Returned (Err RUnavailable)
  | Some stored =>
      match s_startup stored with
      | Legacy | Complete (Ok _) => Returned (Ok tt)
      | Complete (Err _) => Returned (Err RIo)
      | Pending => if deadline <? now then Returned (Err RTimeout) else Waiting (deadline - now)
      end
  end.

(** One turn of the loop of [wait_for_condition]; [timed_out] tells whether the
    wait before this turn ran out. *)
Definition wait_for_condition_turn (s : RegistryState) (id : list byte) (present timed_out : bool) (deadline now : Z)
  : blocking Z (result RegistrationError (option Registration)) :=
  let registration := s_info <$> registrations s !! id in
  if timed_out && negb (Bool.eqb (bool_decide (is_Some registration)) present) then Returned (Err RTimeout)
  else if Bool.eqb (bool_decide (is_Some registration)) present then Returned (Ok registration)
  else if deadline <? now then Returned (Err RTimeout)
  else Waiting (deadline - now).

Definition prune_removed (removed : gmap (list byte) Z) (now : Z) : gmap (list byte) Z :=
  filter (fun entry => Z.max 0 (now - entry.2) <= RECOVERY_GRACE) removed.

Definition remove_if_current (s : RegistryState) (i : Identity) (now : Z) : RegistryState * bool :=
  match current s i with
  | Some _ =>
      (mkRegistry (delete (i_id i) (registrations s))
         (<[i_id i := now]> (prune_removed (removed s) now)) (next_generation s), true)
  | None => (s, false)
  end.

Definition was_removed (s : RegistryState) (id : list byte) (now : Z) : RegistryState * bool :=
  let s := mkRegistry (registrations s) (prune_removed (removed s) now) (next_generation s) in
  (s, bool_decide (is_Some (removed s !! id))).

Definition registry_contains (s : RegistryState) (i : Identity) : bool :=
  match current s i with Some _ => true | None => false end.

Definition clear (s : RegistryState) : RegistryState := set_registrations s ∅.

Definition get (s : RegistryState) (id : list byte) : option Registration :=
  s_info <$> registrations s !! id.

(** In the order of the map; the sources iterate in no particular order. *)
Definition resumed (s : RegistryState) : list (Registration * Z) :=
  map (fun stored => (s_info stored, registered_at stored))
    (List.filter (fun stored => pty_active (s_info stored)) (map snd (map_to_list (registrations s)))).

Definition has_resumed (s : RegistryState) : bool :=
  existsb (fun stored => pty_active (s_info stored)) (map snd (map_to_list (registrations s))).

(** The stored socket of this generation. *)
Definition clone_stream (s : RegistryState) (r : Registration) (cloned : result io_kind unit)
  : result RegistrationError Z :=
  match current s (reg_identity r) with
  | None => Err RUnavailable
  | Some stored => match cloned with Ok _ => Ok (s_stream stored) | Err _ => Err RIo end
  end.

Definition registry_len (s : RegistryState) : nat := size (registrations s).

(** ** The invariant *)

(** Entries are filed under their id and carry a generation that was
    allocated. *)
Definition registry_inv (s : RegistryState) : Prop :=
  forall id stored, registrations s !! id = Some stored ->
    r_id (s_info stored) = id /\ (generation (s_info stored) < next_generation s)%nat.

Lemma validate_fields info peer fresh r :
  validate info peer fresh = Ok r ->
  alphanumeric ID_LEN (r_id r) /\ alphanumeric PASSKEY_LEN (r_key r) /\ generation r = fresh /\
  r_uid r = peer_uid peer /\ r_gid r = peer_gid peer.
Proof.
  unfold validate, passkey_to_key. destruct (ui_id info) as [id|]; [|done].
  destruct (negb (zlen id =? ID_LEN) || _) eqn:Hid; [done|]. apply checked_iff in Hid.
  destruct (ui_passkey info) as [passkey|]; [|done].
  destruct (negb (zlen passkey =? PASSKEY_LEN) || _) eqn:Hp; [done|]. apply checked_iff in Hp.
  intros; simplify_eq. done.
Qed.

Lemma matches_iff i r : matches i r = true <-> i = reg_identity r.
Proof.
  unfold matches, reg_identity. rewrite andb_true_iff, !bool_decide_eq_true. destruct i; cbn. naive_solver.
Qed.

Lemma same_generation_iff a b : same_generation a b = true <-> reg_identity a = reg_identity b.
Proof. apply (matches_iff (reg_identity a) b). Qed.

Lemma current_Some s i stored :
  current s i = Some stored <-> registrations s !! i_id i = Some stored /\ i = reg_identity (s_info stored).
Proof.
  unfold current. destruct (registrations s !! i_id i) as [st|] eqn:E; [|naive_solver].
  destruct (matches i (s_info st)) eqn:M.
  - apply matches_iff in M. naive_solver.
  - split; [done|]. intros [[= ->] Hm]. apply matches_iff in Hm. congruence.
Qed.

Lemma contains_iff s i :
  registry_contains s i = true <->
  exists stored, registrations s !! i_id i = Some stored /\ i = reg_identity (s_info stored).
Proof.
  unfold registry_contains. setoid_rewrite <-current_Some. destruct (current s i); naive_solver.
Qed.

(** ** How the table evolves *)

(** No generation comes back: whatever a later table contains was there
    before or is of a generation allocated since. *)
Definition registry_evolves (s s' : RegistryState) : Prop :=
  registry_inv s' /\ (next_generation s <= next_generation s')%nat /\
  forall i, registry_contains s' i = true ->
    registry_contains s i = true \/ (next_generation s <= i_generation i)%nat.

Lemma evolves_refl s : registry_inv s -> registry_evolves s s.
Proof. intros H. split; [done|]. split; [done|]. auto. Qed.

(** The table only loses entries. *)
Lemma evolves_subset s s' :
  registry_inv s -> next_generation s' = next_generation s ->
  registrations s' ⊆ registrations s -> registry_evolves s s'.
Proof.
  intros Hinv Hnext Hsub. split; [|split].
  - intros id stored Hl. rewrite Hnext. apply (Hinv id). by eapply lookup_weaken.
  - lia.
  - intros i (stored & Hl & Hi)%contains_iff. left. apply contains_iff.
    exists stored. split; [by eapply lookup_weaken|done].
Qed.

(** One entry is written under its own id, for the present or the next
    generation. *)
Lemma evolves_insert s s' id stored :
  registry_inv s -> (next_generation s <= next_generation s')%nat ->
  registrations s' = <[id := stored]> (registrations s) ->
  r_id (s_info stored) = id ->
  (generation (s_info stored) < next_generation s')%nat ->
  registry_contains s (reg_identity (s_info stored)) = true \/ generation (s_info stored) = next_generation s ->
  registry_evolves s s'.
Proof.
  intros Hinv Hnext Hr Hid Hgen Hold. split; [|split]; [|done|].
  - intros id' stored'. rewrite Hr, lookup_insert_Some. intros [[<- <-]|[_ Hl]]; [done|].
    destruct (Hinv _ _ Hl). split; [done|lia].
  - intros i (st & Hl & Hi)%contains_iff. rewrite Hr, lookup_insert_Some in Hl.
    destruct Hl as [[_ <-]|[_ Hl]].
    + subst i. destruct Hold as [Ho|Ho]; [by left|]. right. cbn. lia.
    + left. apply contains_iff. eauto.
Qed.

Lemma register_evolves s info stream peer cloned closed now s' o :
  registry_inv s -> register s info stream peer cloned closed now = (s', o) -> registry_evolves s s'.
Proof.
  intros Hinv. unfold register. destruct (validate info peer (next_generation s)) as [r|e] eqn:Hv.
  2: { intros [= <- <-]. by apply evolves_refl. }
  apply validate_fields in Hv as (_ & _ & Hg & _).
  assert (Hins : registry_evolves s (mkRegistry (<[r_id r := mkStored r stream (initial_startup r) now]>
    (registrations s)) (removed s) (S (next_generation s)))).
  { eapply (evolves_insert _ _ (r_id r)); [done|cbn; lia|done|done|cbn; lia|by right]. }
  assert (Hsame : registry_evolves s (mkRegistry (registrations s) (removed s) (S (next_generation s)))).
  { split; [|split; [cbn; lia|auto]]. intros id st Hl. destruct (Hinv _ _ Hl). cbn. split; [done|lia]. }
  destruct cloned; [|by intros [= <- <-]]. cbn.
  destruct (registrations s !! r_id r); [destruct closed|]; by intros [= <- <-].
Qed.

Lemma report_startup_evolves s i r s' o :
  registry_inv s -> report_startup s i r = (s', o) -> registry_evolves s s'.
Proof.
  intros Hinv. unfold report_startup. destruct (current s i) as [st|] eqn:Hc.
  2: { intros [= <- <-]. by apply evolves_refl. }
  apply current_Some in Hc as [Hl Hi].
  destruct (s_startup st); intros [= <- <-]; [by apply evolves_refl| |by apply evolves_refl].
  destruct (Hinv _ _ Hl). eapply (evolves_insert _ _ (i_id i)); [done|done|done|done|done|].
  left. apply contains_iff. exists st. cbn. rewrite Hi in Hl. done.
Qed.

Lemma remove_if_current_evolves s i now s' o :
  registry_inv s -> remove_if_current s i now = (s', o) -> registry_evolves s s'.
Proof.
  intros Hinv. unfold remove_if_current. destruct (current s i); intros [= <- <-]; [|by apply evolves_refl].
  apply evolves_subset; [done|done|]. apply delete_subseteq.
Qed.

Lemma remove_if_current_gone s i now s' o :
  remove_if_current s i now = (s', o) ->
  registry_contains s' i = false /\ o = registry_contains s i /\
  (forall j, j <> i -> registry_contains s' j = registry_contains s j).
Proof.
  unfold remove_if_current. destruct (current s i) as [st|] eqn:Hc; intros [= <- <-].
  - apply current_Some in Hc as [Hl Hi]. split; [|split].
    + unfold registry_contains, current. cbn. by rewrite lookup_delete_eq.
    + symmetry. apply contains_iff. eauto.
    + intros j Hj. unfold registry_contains, current. cbn. destruct (decide (i_id j = i_id i)) as [E|E].
      * rewrite E, lookup_delete_eq, Hl. destruct (matches j (s_info st)) eqn:M; [|done].
        apply matches_iff in M. congruence.
      * by rewrite lookup_delete_ne by done.
  - unfold registry_contains. by rewrite Hc.
Qed.

Lemma clear_evolves s : registry_inv s -> registry_evolves s (clear s).
Proof. intros Hinv. apply evolves_subset; [done|done|]. apply map_empty_subseteq. Qed.

Lemma was_removed_evolves s id now s' o :
  registry_inv s -> was_removed s id now = (s', o) -> registry_evolves s s'.
Proof. intros Hinv. unfold was_removed. intros [= <- _]. by apply evolves_subset. Qed.

(** ** Theorems *)

(** A registration that is accepted is a generation of its own, current from
    then on, with the uid and gid of the kernel and not the claimed ones; it
    takes the place of an earlier one only when that terminal has hung up, and
    no other id is touched. A refused registration leaves the table as it
    was, and is called a duplicate only when the id is held by a terminal that
    has not hung up. *)
Theorem register_spec s info stream peer cloned closed now s' o :
  registry_inv s ->
  register s info stream peer cloned closed now = (s', o) ->
  match o with
  | Ok t =>
      exists stored, let id := i_id (t_identity t) in
        registrations s' !! id = Some stored /\ reg_identity (s_info stored) = t_identity t /\
        s_stream stored = stream /\ r_uid (s_info stored) = peer_uid peer /\ r_gid (s_info stored) = peer_gid peer /\
        registry_contains s (t_identity t) = false /\
        (is_Some (registrations s !! id) -> closed = true) /\
        delete id (registrations s') = delete id (registrations s)
  | Err e =>
      registrations s' = registrations s /\
      (e = RDuplicate -> closed = false /\ exists id, ui_id info = Some id /\ is_Some (registrations s !! id))
  end.
Proof.
  intros Hinv. unfold register. destruct (validate info peer (next_generation s)) as [r|e] eqn:Hv.
  2: { intros [= <- <-]. split; [done|]. intros ->. revert Hv. unfold validate. by repeat case_match. }
  pose proof Hv as (_ & _ & Hg & Hu & Hgid)%validate_fields.
  assert (Hid : ui_id info = Some (r_id r)).
  { revert Hv. unfold validate. repeat case_match; intros; by simplify_eq. }
  assert (Hfresh : registry_contains s (reg_identity r) = false).
  { destruct (registry_contains s (reg_identity r)) eqn:E; [|done].
    apply contains_iff in E as (st & Hl & Hi). destruct (Hinv _ _ Hl) as [_ Hlt].
    apply (f_equal i_generation) in Hi. cbn in Hi. lia. }
  destruct cloned; [|by intros [= <- <-]]. cbn.
  destruct (registrations s !! r_id r) eqn:E; [destruct closed|]; intros [= <- <-]; cbn.
  2: { split; [done|]. intros _. split; [done|]. exists (r_id r). rewrite E. split; [done|by eexists]. }
  all: eexists; rewrite lookup_insert_eq, delete_insert_eq, E;
    split_and!; try done; by intros [? [=]].
Qed.

(** ** Witnesses *)

Definition demo_info : TerminalUserInfo :=
  mkInfo (Some (repeat "a"%byte 16)) (Some (repeat "K"%byte 32)) (Some 0) (Some 0) (Some (-6)) None None None None.

Lemma register_spec_witness :
  let s := fst (register registry_new demo_info 3 (mkPeer 501 20) (Ok tt) false 0) in
  exists s' t, register s demo_info 4 (mkPeer 501 20) (Ok tt) true 9 = (s', Ok t) /\
    registry_contains s (t_identity t) = false.
Proof.
  intros s. destruct (register s demo_info 4 (mkPeer 501 20) (Ok tt) true 9) as [s' o] eqn:E.
  destruct o as [t|e]; [|by vm_compute in E]. exists s', t. split; [done|].
  assert (Hinv : registry_inv s).
  { eapply register_evolves; [|by apply surjective_pairing]. intros id st Hl; cbn in Hl; by rewrite lookup_empty in Hl. }
  pose proof (register_spec s demo_info 4 (mkPeer 501 20) (Ok tt) true 9 s' (Ok t) Hinv E) as (st & Hspec).
  apply Hspec.
Defined.
