(* ===== verification/SessionTable.v ===== *)
(** * SessionTable: [crates/et-server/src/session_table.rs], [session_slot.rs],
    [runtime_state.rs], [runtime_lifecycle.rs]

    The slots of the sessions, the guards that start them, the sockets of the
    handshakes under way, and the lifecycle thread that retires them. Every
    method runs under its mutex and is one atomic step of [core_step]; the
    threads interleave between the steps. A TCP socket and an [ActiveSession]
    are numbers. Shutting a socket down marks it; what a closed socket does
    to its peer is not modelled. A mutex is not poisoned. *)

From stdpp Require Import gmap.
From S2P Require Import Prelude Bytes FramingIo Crypto Keys LocalPacket Registry.

(** ** Slots *)

Inductive SessionState := SRegistered | SStarting | SActive.

Inductive SessionTableError :=
| TUnavailable
| ShuttingDown
| ObsoleteRegistration
| InvalidTransition
| StartingBusy
| TIo.

Inductive Slot :=
| Registered (r : Registration)
| Starting (r : Registration) (socket : Z)
| Active (r : Registration) (session : Z).

Inductive SessionConnection :=
| ConnStarting (socket : Z)
| ConnActive (session : Z).

Record TableState := mkTable {
  slots : gmap (list byte) Slot;
  table_shutdown : bool
}.

(** [SessionClaim]: the guard of a new start is its registration. *)
Inductive SessionClaim :=
| ClaimNew (start : Registration) (replaced : option SessionConnection)
| ClaimReturning (session : Z).

Definition slot_registration (s : Slot) : Registration :=
  match s with
  | Registered r => r
  | Starting r _ => r
  | Active r _ => r
  end.

Definition into_connection (s : Slot) : option SessionConnection :=
  match s with
  | Registered _ => None
  | Starting _ socket => Some (ConnStarting socket)
  | Active _ session => Some (ConnActive session)
  end.

Definition slot_state (s : Slot) : SessionState :=
  match s with
  | Registered _ => SRegistered
  | Starting _ _ => SStarting
  | Active _ _ => SActive
  end.

Definition is_starting (s : Slot) : bool := match s with Starting _ _ => true | _ => false end.
Definition is_registered (s : Slot) : bool := match s with Registered _ => true | _ => false end.

Definition set_slot (t : TableState) (id : list byte) (s : Slot) : TableState :=
  mkTable (<[id := s]> (slots t)) (table_shutdown t).

(** ** Claiming *)

(** One turn of the loop of [claim]. [socket] is [starting_socket], taken when
    the start is granted. *)
Inductive claim_step :=
| Again (t : TableState) (replaced : option SessionConnection)
| Out (t : TableState) (o : result SessionTableError SessionClaim).

Definition claim_turn (registry : RegistryState) (r : Registration) (socket : option Z)
    (t : TableState) (replaced : option SessionConnection) : claim_step :=
  if table_shutdown t then Out t (Err ShuttingDown)
  else if negb (registry_contains registry (reg_identity r)) then Out t (Err ObsoleteRegistration)
  else
    match slots t !! r_id r with
    | None => Again (set_slot t (r_id r) (Registered r)) replaced
    | Some slot =>
        if negb (same_generation (slot_registration slot) r)
        then Again (set_slot t (r_id r) (Registered r)) (into_connection slot)
        else
          match slot with
          | Registered stored =>
              match socket with
              | None => Out t (Err InvalidTransition)
              | Some k => Out (set_slot t (r_id r) (Starting stored k)) (Ok (ClaimNew stored replaced))
              end
          | Starting _ _ => Out t (Err StartingBusy)
          | Active _ session => Out t (Ok (ClaimReturning session))
          end
    end.

(** [loop]: the table stays locked, the registry does not, so every turn has
    its own view of it. The third turn is the last ([claim_returns]). *)
Fixpoint claim_loop (views : list RegistryState) (r : Registration) (socket : option Z)
    (t : TableState) (replaced : option SessionConnection)
  : option (TableState * result SessionTableError SessionClaim) :=
  match views with
  | [] => None
  | registry :: views =>
      match claim_turn registry r socket t replaced with
      | Out t o => Some (t, o)
      | Again t replaced => claim_loop views r socket t replaced
      end
  end.

(** [cloned] is the outcome of duplicating the client's socket. *)
Definition claim (views : list RegistryState) (r : Registration) (cloned : result io_kind Z) (t : TableState)
  : option (TableState * result SessionTableError SessionClaim) :=
  match cloned with
  | Err _ => Some (t, Err TIo)
  | Ok socket => claim_loop views r (Some socket) t None
  end.

(** ** The guard of a start *)

Definition own_starting (t : TableState) (start : Registration) : bool :=
  match slots t !! r_id start with
  | Some slot => is_starting slot && same_generation (slot_registration slot) start
  | None => false
  end.

(** [SessionStart::activate]; on an error the guard is dropped. *)
Definition activate_slot (t : TableState) (start : Registration) (session : Z)
  : TableState * result SessionTableError unit :=
  if table_shutdown t then (t, Err ShuttingDown)
  else if negb (own_starting t start) then (t, Err InvalidTransition)
  else (set_slot t (r_id start) (Active start session), Ok tt).

(** [Drop for SessionStart], not committed. *)
Definition drop_start (t : TableState) (start : Registration) : TableState :=
  if own_starting t start then set_slot t (r_id start) (Registered start) else t.

(** [activate] consumes the guard. *)
Definition activate (t : TableState) (start : Registration) (session : Z)
  : TableState * result SessionTableError unit :=
  match activate_slot t start session with
  | (t, Ok _) => (t, Ok tt)
  | (t, Err e) => (drop_start t start, Err e)
  end.

(** ** Queries and removal *)

Definition table_state (t : TableState) (id : list byte) : option SessionState := slot_state <$> slots t !! id.

Definition active (t : TableState) (id : list byte) : option Z :=
  match slots t !! id with
  | Some (Active _ session) => Some session
  | _ => None
  end.

(** The slot of this generation. *)
Definition slot_of (t : TableState) (i : Identity) : option Slot :=
  match slots t !! i_id i with
  | Some slot => if matches i (slot_registration slot) then Some slot else None
  | None => None
  end.

(** [remove_registration_with]: the flag given to [before_notify], and the
    connection that was removed. *)
Definition remove_registration (t : TableState) (i : Identity)
  : TableState * option (bool * option SessionConnection) :=
  match slot_of t i with
  | None => (t, None)
  | Some slot =>
      (mkTable (delete (i_id i) (slots t)) (table_shutdown t),
       Some (match slot with Active _ _ => false | _ => true end, into_connection slot))
  end.

Definition begin_shutdown (t : TableState) : TableState * list SessionConnection :=
  (mkTable ∅ true, omap into_connection (map snd (map_to_list (slots t)))).

(** ** Raw sockets *)

Record TrackedSocket := mkTracked {
  k_registration : option Identity;
  authenticated : bool;
  session_owner : bool;
  k_shut : bool
}.

Record RawSockets := mkRaw {
  next_id : Z;
  streams : gmap Z TrackedSocket
}.

Definition raw_new : RawSockets := mkRaw 0 ∅.

Definition set_streams (k : RawSockets) (m : gmap Z TrackedSocket) : RawSockets := mkRaw (next_id k) m.

Definition shut (s : TrackedSocket) : TrackedSocket :=
  mkTracked (k_registration s) (authenticated s) (session_owner s) true.

(** [is_some_and(|current| current.same_generation(identity))]. *)
Definition assigned_to (i : Identity) (s : TrackedSocket) : bool := bool_decide (k_registration s = Some i).

Definition track (k : RawSockets) (cloned : result io_kind unit) : RawSockets * option Z :=
  match cloned with
  | Err _ => (k, None)
  | Ok _ => (mkRaw (next_id k + 1) (<[next_id k := mkTracked None false false false]> (streams k)), Some (next_id k))
  end.

Definition shutdown_all (k : RawSockets) : RawSockets := set_streams k (shut <$> streams k).

Definition shutdown_inactive_registration (k : RawSockets) (i : Identity) : RawSockets :=
  set_streams k ((fun s => if negb (session_owner s) && assigned_to i s then shut s else s) <$> streams k).

Definition has_authenticated_registration (k : RawSockets) (i : Identity) : bool :=
  existsb (fun s => authenticated s && assigned_to i s) (map snd (map_to_list (streams k))).

(** [RawSocketGuard::assign], [authenticate], [own_session] and [drop]; [None]
    is [WorkerUnavailable]. *)
Definition assign (k : RawSockets) (id : Z) (i : Identity) : RawSockets * option unit :=
  let closed := map_imap (fun other s =>
    Some (if negb (other =? id) && negb (authenticated s) && assigned_to i s then shut s else s)) (streams k) in
  match closed !! id with
  | None => (set_streams k closed, None)
  | Some s => (set_streams k (<[id := mkTracked (Some i) (authenticated s) (session_owner s) (k_shut s)]> closed), Some tt)
  end.

Definition authenticate (k : RawSockets) (id : Z) : RawSockets * option unit :=
  match streams k !! id with
  | None => (k, None)
  | Some s => (set_streams k (<[id := mkTracked (k_registration s) true (session_owner s) (k_shut s)]> (streams k)), Some tt)
  end.

Definition own_session (k : RawSockets) (id : Z) : RawSockets * option unit :=
  match streams k !! id with
  | None => (k, None)
  | Some s => (set_streams k (<[id := mkTracked (k_registration s) (authenticated s) true (k_shut s)]> (streams k)), Some tt)
  end.

Definition untrack (k : RawSockets) (id : Z) : RawSockets := set_streams k (delete id (streams k)).

(** ** Admission before authentication *)

Definition MAX_PRE_AUTH_CONNECTIONS : Z := 64.

Definition try_acquire (limit active : Z) : option Z := if active <? limit then Some (active + 1) else None.
Definition release (active : Z) : Z := active - 1.

(** ** The runtime core *)

(** [RuntimeCore]: [starts] are the outstanding [SessionStart] guards,
    [claiming] is the call of [claim] that holds the table lock. *)
Record RuntimeCore := mkCore {
  registry : RegistryState;
  sessions : TableState;
  raw_sockets : RawSockets;
  starts : list Registration;
  claiming : option (Registration * Z * option SessionConnection)
}.

Definition core_new : RuntimeCore := mkCore registry_new (mkTable ∅ false) raw_new [] None.

Definition set_registry (c : RuntimeCore) (s : RegistryState) : RuntimeCore :=
  mkCore s (sessions c) (raw_sockets c) (starts c) (claiming c).
Definition set_sessions (c : RuntimeCore) (t : TableState) : RuntimeCore :=
  mkCore (registry c) t (raw_sockets c) (starts c) (claiming c).
Definition set_raw (c : RuntimeCore) (k : RawSockets) : RuntimeCore :=
  mkCore (registry c) (sessions c) k (starts c) (claiming c).
Definition set_starts (c : RuntimeCore) (l : list Registration) : RuntimeCore :=
  mkCore (registry c) (sessions c) (raw_sockets c) l (claiming c).
Definition set_claiming (c : RuntimeCore) (h : option (Registration * Z * option SessionConnection)) : RuntimeCore :=
  mkCore (registry c) (sessions c) (raw_sockets c) (starts c) h.

(** Forget one guard of this generation. *)
Fixpoint forget (start : Registration) (l : list Registration) : list Registration :=
  match l with
  | [] => []
  | s :: l => if same_generation s start then l else s :: forget start l
  end.

(** ** The lifecycle thread *)

(** [terminal_disconnected]; the connection it detaches or shuts down comes
    back. *)
Definition terminal_disconnected (c : RuntimeCore) (i : Identity) : RuntimeCore * option SessionConnection :=
  let c := set_raw c (shutdown_inactive_registration (raw_sockets c) i) in
  match remove_registration (sessions c) i with
  | (t, Some (_, connection)) => (set_sessions c t, connection)
  | (t, None) => (set_sessions c t, None)
  end.

(** [retire_ended_terminal]: what the session thread does once its bridge ended. *)
Definition retire_ended_terminal (c : RuntimeCore) (i : Identity) (now : Z) : RuntimeCore :=
  let c := set_registry c (fst (remove_if_current (registry c) i now)) in
  let c := set_raw c (shutdown_inactive_registration (raw_sockets c) i) in
  set_sessions c (fst (remove_registration (sessions c) i)).

(** The recovery time of a resumed terminal; [None] when it never expires. *)
Definition resume_limit (default_timeout : Z) (r : Registration) : option Z :=
  let seconds := unwrap_or default_timeout (disconnect_timeout_seconds r) in
  if seconds <=? 0 then None else Some (Z.max (secs seconds) RECOVERY_GRACE).

Definition resume_due (default_timeout : Z) (r : Registration) (since now : Z) : bool :=
  match resume_limit default_timeout r with
  | None => false
  | Some limit => negb (Z.max 0 (now - since) <? limit)
  end.

Inductive sweep_outcome :=
| Kept
| Expired (stream : Z)
| SweepStopped
| SweepFailed.

(** The part of [expire_unclaimed_resumes] under the table lock, for one
    registration that is due. *)
Definition expire_locked (c : RuntimeCore) (r : Registration) (now : Z) (cloned : result io_kind unit)
  : RuntimeCore * sweep_outcome :=
  if table_shutdown (sessions c) then (c, SweepStopped)
  else
    let i := reg_identity r in
    let current_slot := slot_of (sessions c) i in
    if is_some_and (fun slot => negb (is_registered slot)) current_slot then (c, Kept)
    else if has_authenticated_registration (raw_sockets c) i then (c, Kept)
    else
      match clone_stream (registry c) r cloned with
      | Err RUnavailable => (c, Kept)
      | Err _ => (c, SweepFailed)
      | Ok stream =>
          match remove_if_current (registry c) i now with
          | (s, false) => (set_registry c s, Kept)
          | (s, true) =>
              let c := set_registry c s in
              (match current_slot with
               | Some _ => set_sessions c (mkTable (delete (r_id r) (slots (sessions c))) (table_shutdown (sessions c)))
               | None => c
               end, Expired stream)
          end
      end.

(** The loop over the resumed registrations; the terminals to which a close
    is written come back. *)
Fixpoint expire_all (default_timeout : Z) (entries : list (Registration * Z)) (c : RuntimeCore) (now : Z)
    (cloned : Registration -> result io_kind unit) : RuntimeCore * list Z * bool :=
  match entries with
  | [] => (c, [], true)
  | (r, since) :: entries =>
      if negb (resume_due default_timeout r since now) then expire_all default_timeout entries c now cloned
      else
        match expire_locked c r now (cloned r) with
        | (c, Kept) => expire_all default_timeout entries c now cloned
        | (c, SweepStopped) => (c, [], true)
        | (c, SweepFailed) => (c, [], false)
        | (c, Expired stream) =>
            let c := set_raw c (shutdown_inactive_registration (raw_sockets c) (reg_identity r)) in
            let '(c, closed, ok) := expire_all default_timeout entries c now cloned in
            (c, stream :: closed, ok)
        end
  end.

Definition expire_unclaimed_resumes (default_timeout : Z) (c : RuntimeCore) (now : Z)
    (cloned : Registration -> result io_kind unit) : RuntimeCore * list Z * bool :=
  expire_all default_timeout (resumed (registry c)) c now cloned.

(** [SWEEP_INTERVAL]. *)
Definition SWEEP_INTERVAL : Z := secs 1.

Inductive LifecycleEvent :=
| TerminalDisconnected (i : Identity)
| TerminalResumed
| StopRouter
| Shutdown.

Record Lifecycle := mkLifecycle {
  next_sweep : option Z;
  sweep_failed : bool;
  router_stop : bool
}.

(** The queued events, and whether the loop returns [true]. *)
Fixpoint service_events (l : Lifecycle) (c : RuntimeCore) (now : Z) (events : list LifecycleEvent)
  : Lifecycle * RuntimeCore * bool :=
  match events with
  | [] => (l, c, false)
  | TerminalDisconnected i :: events => service_events l (fst (terminal_disconnected c i)) now events
  | TerminalResumed :: events =>
      service_events (mkLifecycle (match next_sweep l with Some due => Some due | None => Some (now + SWEEP_INTERVAL) end)
        (sweep_failed l) (router_stop l)) c now events
  | StopRouter :: events => service_events (mkLifecycle (next_sweep l) (sweep_failed l) true) c now events
  | Shutdown :: _ => (l, c, true)
  end.

(** [Lifecycle::service]; the diagnostics and the first error kept for
    [finish] are left out. *)
Definition service (default_timeout : Z) (l : Lifecycle) (c : RuntimeCore) (now : Z)
    (cloned : Registration -> result io_kind unit) (events : list LifecycleEvent) : Lifecycle * RuntimeCore * bool :=
  let '(l, c) :=
    if is_some_and (fun due => due <=? now) (next_sweep l) then
      let '(c, _, ok) := expire_unclaimed_resumes default_timeout c now cloned in
      (mkLifecycle (if has_resumed (registry c) then Some (now + SWEEP_INTERVAL) else None) (negb ok) (router_stop l), c)
    else (l, c) in
  service_events l c now events.

(** ** The interleaving *)

(** One atomic section of one thread. *)
Inductive core_step : RuntimeCore -> RuntimeCore -> Prop :=
| step_register c info stream peer cloned closed now s o :
    register (registry c) info stream peer cloned closed now = (s, o) ->
    core_step c (set_registry c s)
| step_startup c i r s o :
    report_startup (registry c) i r = (s, o) ->
    core_step c (set_registry c s)
| step_was_removed c id now s o :
    was_removed (registry c) id now = (s, o) ->
    core_step c (set_registry c s)
(* [disconnect_watched], [rollback_registration], [retire_ended_terminal] *)
| step_deregister c i now s o :
    remove_if_current (registry c) i now = (s, o) ->
    core_step c (set_registry c s)
| step_clear c :
    table_shutdown (sessions c) = true ->
    core_step c (set_registry c (clear (registry c)))
| step_claim_begin c r socket :
    claiming c = None ->
    core_step c (set_claiming c (Some (r, socket, None)))
| step_claim_again c r socket replaced t replaced' :
    claiming c = Some (r, socket, replaced) ->
    claim_turn (registry c) r (Some socket) (sessions c) replaced = Again t replaced' ->
    core_step c (set_claiming (set_sessions c t) (Some (r, socket, replaced')))
| step_claim_out c r socket replaced t o :
    claiming c = Some (r, socket, replaced) ->
    claim_turn (registry c) r (Some socket) (sessions c) replaced = Out t o ->
    core_step c (set_starts (set_claiming (set_sessions c t) None)
                   (match o with Ok (ClaimNew start _) => start :: starts c | _ => starts c end))
| step_activate c start session t o :
    claiming c = None -> start ∈ starts c ->
    activate (sessions c) start session = (t, o) ->
    core_step c (set_starts (set_sessions c t) (forget start (starts c)))
| step_drop c start :
    claiming c = None -> start ∈ starts c ->
    core_step c (set_starts (set_sessions c (drop_start (sessions c) start)) (forget start (starts c)))
(* [remove_registration_with] follows a [remove_if_current] of the generation *)
| step_remove c i t o :
    claiming c = None -> registry_contains (registry c) i = false ->
    (i_generation i < next_generation (registry c))%nat ->
    remove_registration (sessions c) i = (t, o) ->
    core_step c (set_sessions c t)
| step_begin_shutdown c :
    claiming c = None ->
    core_step c (set_sessions c (fst (begin_shutdown (sessions c))))
| step_expire c r now cloned c' o :
    claiming c = None ->
    expire_locked c r now cloned = (c', o) ->
    core_step c c'
| step_track c cloned k o :
    track (raw_sockets c) cloned = (k, o) ->
    core_step c (set_raw c k)
| step_assign c id i k o :
    assign (raw_sockets c) id i = (k, o) ->
    core_step c (set_raw c k)
| step_authenticate c id k o :
    authenticate (raw_sockets c) id = (k, o) ->
    core_step c (set_raw c k)
| step_own c id k o :
    own_session (raw_sockets c) id = (k, o) ->
    core_step c (set_raw c k)
| step_untrack c id :
    core_step c (set_raw c (untrack (raw_sockets c) id))
| step_shutdown_inactive c i :
    core_step c (set_raw c (shutdown_inactive_registration (raw_sockets c) i))
| step_shutdown_all c :
    core_step c (set_raw c (shutdown_all (raw_sockets c))).

(** Its three sections are steps of the interleaving. *)
Lemma retire_is_a_run c i now :
  claiming c = None -> (i_generation i < next_generation (registry c))%nat ->
  rtc core_step c (retire_ended_terminal c i now).
Proof.
  intros Hc Hg. destruct (remove_if_current (registry c) i now) as [s o] eqn:E.
  assert (Hn : next_generation s = next_generation (registry c)).
  { revert E. unfold remove_if_current. by destruct (current _ i); intros [= <- _]. }
  pose proof (remove_if_current_gone _ _ _ _ _ E) as (Hgone & _). unfold retire_ended_terminal. rewrite E. cbn.
  eapply rtc_l; [by eapply step_deregister|]. eapply rtc_l; [by apply (step_shutdown_inactive _ i)|].
  apply rtc_once. destruct (remove_registration (sessions c) i) as [t o'] eqn:Er.
  apply (step_remove _ i t o'); cbn; [done|done|by rewrite Hn|done].
Qed.

Definition core_reachable : RuntimeCore -> Prop := rtc core_step core_new.

(** ** Lemmas on slots *)

Lemma slot_of_Some t i slot :
  slot_of t i = Some slot <-> slots t !! i_id i = Some slot /\ i = reg_identity (slot_registration slot).
Proof.
  unfold slot_of. destruct (slots t !! i_id i) as [s|] eqn:E; [|naive_solver].
  destruct (matches i (slot_registration s)) eqn:M.
  - apply matches_iff in M. naive_solver.
  - split; [done|]. intros [[= ->] Hm]. apply matches_iff in Hm. congruence.
Qed.

Lemma slot_of_set_eq t i slot :
  i = reg_identity (slot_registration slot) -> slot_of (set_slot t (i_id i) slot) i = Some slot.
Proof. intros Hi. apply slot_of_Some. cbn. by rewrite lookup_insert_eq. Qed.

Lemma slot_of_set_ne t id slot i :
  i <> reg_identity (slot_registration slot) ->
  slot_of (set_slot t id slot) i = if decide (i_id i = id) then None else slot_of t i.
Proof.
  intros Hi. unfold slot_of. cbn. case_decide as E.
  - rewrite E, lookup_insert_eq. destruct (matches i (slot_registration slot)) eqn:M; [|done].
    by apply matches_iff in M.
  - by rewrite lookup_insert_ne by done.
Qed.

Lemma own_starting_iff t start :
  own_starting t start = true <-> exists slot, slot_of t (reg_identity start) = Some slot /\ is_starting slot = true.
Proof.
  unfold own_starting, slot_of. cbn. destruct (slots t !! r_id start) as [slot|]; [|by split; [|intros (? & ? & ?)]].
  rewrite andb_true_iff, same_generation_iff.
  destruct (matches (reg_identity start) (slot_registration slot)) eqn:M.
  - apply matches_iff in M. split; [intros []; eauto|]. by intros (? & [= <-] & ?).
  - split; [|by intros (? & ? & ?)]. intros [_ E]. assert (matches (reg_identity start) (slot_registration slot) = true); [|congruence].
    by apply matches_iff.
Qed.

Lemma contains_unique s i j :
  registry_contains s i = true -> registry_contains s j = true -> i_id i = i_id j -> i = j.
Proof. rewrite !contains_iff. intros (x & Hx & Ex) (y & Hy & Ey) E. congruence. Qed.

Lemma forget_ids start l i :
  NoDup (map reg_identity l) ->
  NoDup (map reg_identity (forget start l)) /\
  (i ∈ map reg_identity (forget start l) <-> i ∈ map reg_identity l /\ i <> reg_identity start).
Proof.
  revert i. induction l as [|s l IH]; intros i; cbn; [rewrite elem_of_nil; split; [constructor|tauto]|].
  intros [Hs Hl]%NoDup_cons. destruct (same_generation s start) eqn:E.
  - apply same_generation_iff in E. rewrite <-E, elem_of_cons. split; [done|].
    split; [|by intros [[->|?] ?]]. intros Hi. split; [by right|]. intros ->. done.
  - assert (reg_identity s <> reg_identity start).
    { intros Hn%same_generation_iff. congruence. }
    cbn. rewrite NoDup_cons, !elem_of_cons. destruct (IH (reg_identity s) Hl) as [Hnd Hin].
    split; [split; [|done]; tauto|]. destruct (IH i Hl) as [_ ->].
    split; [intros [->|[? ?]]; auto|]. intros [[->|?] ?]; auto.
Qed.

(** ** The invariant of slots and guards *)

(** The generations with an outstanding guard are distinct; such a generation
    either has its slot, then in the starting state, or is not registered any
    more; and a starting slot has its guard. *)
Record starts_inv (g : RegistryState) (t : TableState) (ids : list Identity) : Prop := {
  si_slots : forall id slot, slots t !! id = Some slot ->
    r_id (slot_registration slot) = id /\ (generation (slot_registration slot) < next_generation g)%nat;
  si_gen : forall i, i ∈ ids -> (i_generation i < next_generation g)%nat;
  si_nodup : NoDup ids;
  si_own : forall i, i ∈ ids ->
    match slot_of t i with
    | Some slot => is_starting slot = true
    | None => registry_contains g i = false \/ table_shutdown t = true
    end;
  si_starting : forall i slot, slot_of t i = Some slot -> is_starting slot = true -> i ∈ ids
}.

Lemma starts_evolves g g' t ids : starts_inv g t ids -> registry_evolves g g' -> starts_inv g' t ids.
Proof.
  intros [Hs Hg Hn Ho Hst] (_ & Hle & Hev). split; [| |done| |done].
  - intros id slot Hl. destruct (Hs id slot Hl). split; [done|lia].
  - intros i Hi. specialize (Hg i Hi). lia.
  - intros i Hi. specialize (Ho i Hi). destruct (slot_of t i); [done|]. destruct Ho as [Ho|Ho]; [|by right].
    left. destruct (registry_contains g' i) eqn:E; [|done]. destruct (Hev i E); [congruence|].
    specialize (Hg i Hi). lia.
Qed.

(** Writing the slot of one generation. *)
Lemma starts_set_slot g t ids ids' i slot :
  registry_inv g -> starts_inv g t ids ->
  i = reg_identity (slot_registration slot) ->
  registry_contains g i = true \/ is_Some (slot_of t i) ->
  NoDup ids' ->
  (forall j, j <> i -> j ∈ ids' <-> j ∈ ids) ->
  (is_starting slot = true <-> i ∈ ids') ->
  starts_inv g (set_slot t (i_id i) slot) ids'.
Proof.
  intros Hg [Hs Hgen Hn Ho Hst] Hi Hheld Hnd Hids His.
  assert (Hlt : (i_generation i < next_generation g)%nat).
  { destruct Hheld as [(st & Hl & ->)%contains_iff|[sl [Hl Hi']%slot_of_Some]].
    - apply (Hg _ _ Hl).
    - rewrite Hi'. apply (Hs _ _ Hl). }
  split; [| |done| |].
  - intros id sl. cbn. rewrite lookup_insert_Some. intros [[<- <-]|[_ Hl]]; [|by apply Hs]. by subst i.
  - intros j Hj. destruct (decide (j = i)) as [->|Hne]; [done|]. apply Hgen. by apply Hids.
  - intros j Hj. destruct (decide (j = i)) as [->|Hne].
    { rewrite slot_of_set_eq by done. by apply His. }
    rewrite slot_of_set_ne by congruence. specialize (Ho j (proj1 (Hids j Hne) Hj)).
    case_decide as E; [|done]. destruct Hheld as [Hc|[sl [Hl Hi']%slot_of_Some]].
    + left. destruct (registry_contains g j) eqn:Hcj; [|done]. exfalso. apply Hne. by eapply contains_unique.
    + destruct (slot_of t j) as [sl'|] eqn:E'; [|done]. apply slot_of_Some in E' as [Hl' Hj']. congruence.
  - intros j sl Hj Hstart. destruct (decide (j = i)) as [->|Hne].
    { rewrite slot_of_set_eq in Hj by done. apply His. congruence. }
    rewrite slot_of_set_ne in Hj by congruence. case_decide; [done|]. apply Hids; [done|]. by eapply Hst.
Qed.

Lemma slot_of_delete t i j :
  is_Some (slot_of t i) ->
  slot_of (mkTable (delete (i_id i) (slots t)) (table_shutdown t)) j = if decide (j = i) then None else slot_of t j.
Proof.
  intros [sl [Hl Hi]%slot_of_Some]. unfold slot_of. cbn. destruct (decide (i_id j = i_id i)) as [E|E].
  - rewrite E, lookup_delete_eq. case_decide; [done|]. rewrite Hl.
    destruct (matches j (slot_registration sl)) eqn:M; [|done]. apply matches_iff in M. congruence.
  - rewrite lookup_delete_ne by done. rewrite decide_False by congruence. done.
Qed.

(** Dropping the slot of a generation that is not registered. *)
Lemma starts_delete g t ids i :
  starts_inv g t ids -> registry_contains g i = false -> is_Some (slot_of t i) ->
  starts_inv g (mkTable (delete (i_id i) (slots t)) (table_shutdown t)) ids.
Proof.
  intros [Hs Hgen Hn Ho Hst] Hc Hi. pose proof (fun j => slot_of_delete t i j Hi) as Hslot.
  split; [|done|done| |].
  - intros id slot Hd. cbn in Hd. apply lookup_delete_Some in Hd as [_ Hd]. by apply Hs.
  - intros j Hj. rewrite Hslot. case_decide as E; [subst j; by left|]. by apply Ho.
  - intros j slot. rewrite Hslot. case_decide; [done|]. apply Hst.
Qed.

Lemma starts_shutdown g t ids : starts_inv g t ids -> starts_inv g (fst (begin_shutdown t)) ids.
Proof.
  intros [Hs Hgen Hn Ho Hst]. split; [|done|done| |].
  - intros id slot Hl. cbn in Hl. by rewrite lookup_empty in Hl.
  - intros i _. unfold slot_of. cbn. rewrite lookup_empty. by right.
  - intros i slot. unfold slot_of. cbn. by rewrite lookup_empty.
Qed.

(** A turn of [claim]. *)
Lemma starts_claim_again g r k t replaced t' replaced' ids :
  registry_inv g -> starts_inv g t ids ->
  claim_turn g r (Some k) t replaced = Again t' replaced' -> starts_inv g t' ids.
Proof.
  intros Hg Hs. unfold claim_turn. destruct (table_shutdown t) eqn:Hsh; [done|].
  destruct (registry_contains g (reg_identity r)) eqn:Hc; [cbn|done].
  assert (Hset : slot_of t (reg_identity r) = None -> starts_inv g (set_slot t (r_id r) (Registered r)) ids).
  { intros Hnone. apply (starts_set_slot g t ids ids (reg_identity r)); [done|done|done|by left|by destruct Hs|done|].
    split; [done|]. intros Hi. pose proof (si_own _ _ _ Hs _ Hi) as Ho. rewrite Hnone in Ho. destruct Ho; congruence. }
  destruct (slots t !! r_id r) as [slot|] eqn:E.
  - destruct (same_generation (slot_registration slot) r) eqn:M; cbn; [by destruct slot|].
    intros [= <- _]. apply Hset. destruct (slot_of t (reg_identity r)) as [sl|] eqn:E'; [|done].
    apply slot_of_Some in E' as [Hl Hi]. cbn in Hl. rewrite E in Hl. injection Hl as <-. symmetry in Hi.
    apply same_generation_iff in Hi. congruence.
  - intros [= <- _]. apply Hset. unfold slot_of. cbn. by rewrite E.
Qed.

Definition granted (o : result SessionTableError SessionClaim) : list Identity :=
  match o with Ok (ClaimNew start _) => [reg_identity start] | _ => [] end.

Lemma starts_claim_out g r k t replaced t' o ids :
  registry_inv g -> starts_inv g t ids ->
  claim_turn g r (Some k) t replaced = Out t' o -> starts_inv g t' (granted o ++ ids).
Proof.
  intros Hg Hs. unfold claim_turn. destruct (table_shutdown t) eqn:Hsh; [by intros [= <- <-]|].
  destruct (registry_contains g (reg_identity r)) eqn:Hc; [cbn|by intros [= <- <-]].
  destruct (slots t !! r_id r) as [slot|] eqn:E; [|done].
  destruct (same_generation (slot_registration slot) r) eqn:M; cbn; [|done].
  destruct slot as [stored| |]; cbn; [|by intros [= <- <-]|by intros [= <- <-]].
  intros [= <- <-]. cbn in *. apply same_generation_iff in M.
  assert (Hslot : slot_of t (reg_identity r) = Some (Registered stored)) by (apply slot_of_Some; auto).
  assert (Hnot : reg_identity r ∉ ids).
  { intros Hi. pose proof (si_own _ _ _ Hs _ Hi) as Ho. by rewrite Hslot in Ho. }
  apply (starts_set_slot g t ids _ (reg_identity r)); [done|done|done|by left| | |]; rewrite ?M.
  - constructor; [done|by destruct Hs].
  - intros j Hj. rewrite elem_of_cons. split; [by intros [?|?]|by right].
  - split; [by left|done].
Qed.

(** The guard is given up: activated, or dropped. *)
Lemma starts_release g t l start slot' :
  registry_inv g -> starts_inv g t (map reg_identity l) ->
  own_starting t start = true -> reg_identity (slot_registration slot') = reg_identity start ->
  is_starting slot' = false ->
  starts_inv g (set_slot t (r_id start) slot') (map reg_identity (forget start l)).
Proof.
  intros Hg Hs (slot & Hslot & _)%own_starting_iff Hr Hst.
  pose proof (si_nodup _ _ _ Hs) as Hnd.
  apply (starts_set_slot g t (map reg_identity l) _ (reg_identity start)); [done|done|done|by right; eexists| | |].
  - by apply (forget_ids start l (reg_identity start)).
  - intros j Hj. rewrite (proj2 (forget_ids start l j Hnd)). tauto.
  - rewrite (proj2 (forget_ids start l (reg_identity start) Hnd)). rewrite Hst. split; [done|tauto].
Qed.

Lemma starts_forget g t l start :
  starts_inv g t (map reg_identity l) -> own_starting t start = false ->
  starts_inv g t (map reg_identity (forget start l)).
Proof.
  intros [Hs Hgen Hn Ho Hst] Hown. pose proof (fun i => forget_ids start l i Hn) as Hf.
  split; [done| |by apply (Hf (reg_identity start))| |].
  - intros i [Hi _]%Hf. by apply Hgen.
  - intros i [Hi _]%Hf. by apply Ho.
  - intros i slot Hslot Hstart. apply Hf. split; [by eapply Hst|]. intros ->.
    assert (own_starting t start = true); [apply own_starting_iff; eauto|congruence].
Qed.

Lemma starts_drop g t l start :
  registry_inv g -> starts_inv g t (map reg_identity l) ->
  starts_inv g (drop_start t start) (map reg_identity (forget start l)).
Proof.
  intros Hg Hs. unfold drop_start. destruct (own_starting t start) eqn:E.
  - by apply starts_release.
  - by apply starts_forget.
Qed.

Lemma starts_activate g t l start session t' o :
  registry_inv g -> starts_inv g t (map reg_identity l) ->
  activate t start session = (t', o) -> starts_inv g t' (map reg_identity (forget start l)).
Proof.
  intros Hg Hs. unfold activate, activate_slot.
  destruct (table_shutdown t); [intros [= <- <-]; by apply starts_drop|].
  destruct (own_starting t start) eqn:E; intros [= <- <-]; [by apply starts_release|by apply starts_drop].
Qed.

Lemma starts_remove g t ids i t' o :
  starts_inv g t ids -> registry_contains g i = false ->
  remove_registration t i = (t', o) -> starts_inv g t' ids.
Proof.
  intros Hs Hc. unfold remove_registration. destruct (slot_of t i) eqn:E; intros [= <- <-]; [|done].
  apply starts_delete; [done|done|]. rewrite E. by eexists.
Qed.

Definition core_inv (c : RuntimeCore) : Prop :=
  registry_inv (registry c) /\ starts_inv (registry c) (sessions c) (map reg_identity (starts c)).

Lemma core_registry_step c s :
  core_inv c -> registry_evolves (registry c) s -> core_inv (set_registry c s).
Proof. intros [Hg Hs] Hev. split; [apply Hev|]. by eapply starts_evolves. Qed.

Lemma clone_stream_Ok s r cloned k :
  clone_stream s r cloned = Ok k -> registry_contains s (reg_identity r) = true.
Proof.
  unfold clone_stream, registry_contains. by destruct (current s (reg_identity r)).
Qed.

(** What the locked part of the sweep does: nothing, or it removes a
    registration and its unclaimed slot. *)
Lemma expire_locked_cases c r now cloned c' o :
  expire_locked c r now cloned = (c', o) ->
  (c' = c /\ forall k, o <> Expired k) \/
  (exists s k, o = Expired k /\ remove_if_current (registry c) (reg_identity r) now = (s, true) /\
   table_shutdown (sessions c) = false /\
   has_authenticated_registration (raw_sockets c) (reg_identity r) = false /\
   clone_stream (registry c) r cloned = Ok k /\
   match slot_of (sessions c) (reg_identity r) with
   | None => c' = set_registry c s
   | Some slot => is_registered slot = true /\ c' = set_sessions (set_registry c s)
       (mkTable (delete (r_id r) (slots (sessions c))) (table_shutdown (sessions c)))
   end).
Proof.
  unfold expire_locked. destruct (table_shutdown (sessions c)) eqn:Hsh; [intros [= <- <-]; by left|].
  destruct (is_some_and _ _) eqn:Hslot; [intros [= <- <-]; by left|].
  destruct (has_authenticated_registration _ _) eqn:Ha; [intros [= <- <-]; by left|].
  destruct (clone_stream (registry c) r cloned) as [k|[]] eqn:Hk; try (intros [= <- <-]; by left).
  destruct (remove_if_current (registry c) (reg_identity r) now) as [s []] eqn:Hr.
  - intros [= <- <-]. right. exists s, k. split_and!; try done.
    destruct (slot_of (sessions c) (reg_identity r)) as [slot|]; [|done].
    split; [by destruct slot|]. by rewrite <-Hsh.
  - apply clone_stream_Ok in Hk. apply remove_if_current_gone in Hr as (_ & Ho & _). congruence.
Qed.

Lemma core_expire c r now cloned c' o :
  core_inv c -> expire_locked c r now cloned = (c', o) -> core_inv c'.
Proof.
  intros Hc [[-> _]|(s & k & -> & Hr & _ & _ & _ & Hcase)]%expire_locked_cases; [done|].
  assert (Hc1 : core_inv (set_registry c s)).
  { apply core_registry_step; [done|]. eapply remove_if_current_evolves; [apply Hc|done]. }
  destruct (slot_of (sessions c) (reg_identity r)) eqn:E; [|by subst c'].
  destruct Hcase as [_ ->]. split; [apply Hc1|]. cbn.
  apply (starts_delete _ _ _ (reg_identity r)); [apply Hc1| |rewrite E; by eexists].
  by apply remove_if_current_gone in Hr as [? _].
Qed.

Lemma core_inv_step c c' : core_inv c -> core_step c c' -> core_inv c'.
Proof.
  intros Hc Hstep. pose proof Hc as [Hg Hs]. destruct Hstep; try done.
  - apply core_registry_step; [done|]. by eapply register_evolves.
  - apply core_registry_step; [done|]. by eapply report_startup_evolves.
  - apply core_registry_step; [done|]. by eapply was_removed_evolves.
  - apply core_registry_step; [done|]. by eapply remove_if_current_evolves.
  - apply core_registry_step; [done|]. by apply clear_evolves.
  - split; [done|]. by eapply starts_claim_again.
  - split; [done|]. eapply starts_claim_out in Hs; [|done|done]. cbn.
    destruct o as [[]|]; apply Hs.
  - split; [done|]. by eapply starts_activate.
  - split; [done|]. by apply starts_drop.
  - split; [done|]. by eapply starts_remove.
  - split; [done|]. by apply starts_shutdown.
  - by eapply core_expire.
Qed.

Lemma core_inv_new : core_inv core_new.
Proof.
  split.
  - intros id st Hl. cbn in Hl. by rewrite lookup_empty in Hl.
  - split; cbn; [|by intros i ?%elem_of_nil|constructor|by intros i ?%elem_of_nil|].
    + intros id slot Hl. by rewrite lookup_empty in Hl.
    + intros i slot. unfold slot_of. cbn. by rewrite lookup_empty.
Qed.

Lemma core_inv_steps c c' : core_inv c -> rtc core_step c c' -> core_inv c'.
Proof. intros Hc Hsteps. induction Hsteps; [done|]. eauto using core_inv_step. Qed.

Lemma core_reachable_inv c : core_reachable c -> core_inv c.
Proof. apply core_inv_steps, core_inv_new. Qed.

(** ** A retired generation stays retired *)

Definition gone (c : RuntimeCore) (i : Identity) : Prop :=
  (i_generation i < next_generation (registry c))%nat /\
  registry_contains (registry c) i = false /\ slot_of (sessions c) i = None.

Lemma gone_registry c s i : gone c i -> registry_evolves (registry c) s -> gone (set_registry c s) i.
Proof.
  intros (Hlt & Hc & Hs) (_ & Hle & Hev). split_and!; cbn; [lia| |done].
  destruct (registry_contains s i) eqn:E; [|done]. destruct (Hev i E); [congruence|lia].
Qed.

Lemma slot_of_set_none t id slot i :
  slot_of t i = None -> i <> reg_identity (slot_registration slot) -> slot_of (set_slot t id slot) i = None.
Proof. intros Hs Hi. rewrite slot_of_set_ne by done. by case_decide. Qed.

Lemma slot_of_sub t t' i : slots t' ⊆ slots t -> slot_of t i = None -> slot_of t' i = None.
Proof.
  intros Hsub Hs. destruct (slot_of t' i) as [slot|] eqn:E; [|done].
  apply slot_of_Some in E as [Hl Hi]. enough (slot_of t i = Some slot) by congruence.
  apply slot_of_Some. split; [by eapply lookup_weaken|done].
Qed.

Lemma claim_turn_slot_none g r k t replaced i :
  registry_contains g i = false -> slot_of t i = None ->
  match claim_turn g r k t replaced with Again t' _ | Out t' _ => slot_of t' i = None end.
Proof.
  intros Hc Hs. unfold claim_turn. destruct (table_shutdown t); [done|].
  destruct (registry_contains g (reg_identity r)) eqn:Hr; [cbn|done].
  assert (i <> reg_identity r) by congruence.
  destruct (slots t !! r_id r) as [slot|]; [|by apply slot_of_set_none].
  destruct (same_generation (slot_registration slot) r) eqn:M; cbn; [|by apply slot_of_set_none].
  apply same_generation_iff in M. destruct slot; [|done|done]. destruct k; [|done].
  apply slot_of_set_none; [done|]. cbn in *. congruence.
Qed.

Lemma release_slot_none t start slot i :
  own_starting t start = true -> reg_identity (slot_registration slot) = reg_identity start ->
  slot_of t i = None -> slot_of (set_slot t (r_id start) slot) i = None.
Proof.
  intros (s & Hs & _)%own_starting_iff Hr Hi. apply slot_of_set_none; [done|]. rewrite Hr. congruence.
Qed.

Lemma drop_slot_none t start i : slot_of t i = None -> slot_of (drop_start t start) i = None.
Proof.
  intros Hi. unfold drop_start. destruct (own_starting t start) eqn:E; [|done]. by apply release_slot_none.
Qed.

Lemma activate_slot_none t start session t' o i :
  slot_of t i = None -> activate t start session = (t', o) -> slot_of t' i = None.
Proof.
  intros Hi. unfold activate, activate_slot. destruct (table_shutdown t); [intros [= <- <-]; by apply drop_slot_none|].
  destruct (own_starting t start) eqn:E; intros [= <- <-]; [by apply release_slot_none|by apply drop_slot_none].
Qed.

Lemma gone_expire c r now cloned c' o i :
  core_inv c -> gone c i -> expire_locked c r now cloned = (c', o) -> gone c' i.
Proof.
  intros Hc Hi [[-> _]|(s & k & -> & Hr & _ & _ & _ & Hcase)]%expire_locked_cases; [done|].
  assert (Hi1 : gone (set_registry c s) i).
  { apply gone_registry; [done|]. eapply remove_if_current_evolves; [apply Hc|done]. }
  destruct (slot_of (sessions c) (reg_identity r)); [|by subst c'].
  destruct Hcase as [_ ->]. destruct Hi1 as (H1 & H2 & H3). split_and!; [done|done|].
  eapply slot_of_sub; [|done]. apply delete_subseteq.
Qed.

Lemma gone_step c c' i : core_inv c -> gone c i -> core_step c c' -> gone c' i.
Proof.
  intros Hc Hi Hstep. pose proof Hc as [Hg _]. pose proof Hi as (Hlt & Hcon & Hs). destruct Hstep; try done.
  - apply (gone_registry c); [done|]. by eapply register_evolves.
  - apply (gone_registry c); [done|]. by eapply report_startup_evolves.
  - apply (gone_registry c); [done|]. by eapply was_removed_evolves.
  - apply (gone_registry c); [done|]. by eapply remove_if_current_evolves.
  - split_and!; [done|done|]. pose proof (claim_turn_slot_none (registry c) r (Some socket) (sessions c) replaced i Hcon Hs) as H1.
    by rewrite H0 in H1.
  - split_and!; [done|done|]. pose proof (claim_turn_slot_none (registry c) r (Some socket) (sessions c) replaced i Hcon Hs) as H1.
    by rewrite H0 in H1.
  - split_and!; [done|done|]. by eapply activate_slot_none.
  - split_and!; [done|done|]. by apply drop_slot_none.
  - split_and!; [done|done|]. eapply slot_of_sub; [|done].
    revert H2. unfold remove_registration. destruct (slot_of (sessions c) i0); intros [= <- <-]; [apply delete_subseteq|done].
  - by eapply gone_expire.
Qed.

Lemma gone_steps c c' i : core_inv c -> gone c i -> rtc core_step c c' -> gone c' i.
Proof. intros Hc Hi Hsteps. induction Hsteps; [done|]. eauto using gone_step, core_inv_step. Qed.

(** ** Newest wins *)

(** At most one socket of a generation waits for its proof. *)
Definition newest_wins (k : RawSockets) : Prop :=
  forall a b sa sb i, a <> b ->
    streams k !! a = Some sa -> streams k !! b = Some sb ->
    k_registration sa = Some i -> k_registration sb = Some i ->
    authenticated sa = false -> authenticated sb = false ->
    k_shut sa = true \/ k_shut sb = true.

(** A change that keeps who is assigned, and only authenticates or shuts. *)
Definition settles (s s' : TrackedSocket) : Prop :=
  k_registration s' = k_registration s /\
  (authenticated s' = false -> authenticated s = false) /\ (k_shut s = true -> k_shut s' = true).

Lemma newest_settles k k' :
  newest_wins k ->
  (forall a s', streams k' !! a = Some s' ->
     k_registration s' = None \/ exists s, streams k !! a = Some s /\ settles s s') ->
  newest_wins k'.
Proof.
  intros Hk Hsub a b sa sb i Hab Ha Hb Ia Ib Fa Fb.
  destruct (Hsub a sa Ha) as [?|(ra & La & Ra & Aa & Sa)]; [congruence|].
  destruct (Hsub b sb Hb) as [?|(rb & Lb & Rb & Ab & Sb)]; [congruence|].
  destruct (Hk a b ra rb i Hab La Lb); [congruence|congruence|auto|auto|auto|auto].
Qed.

Lemma newest_fmap k f :
  newest_wins k -> (forall s, settles s (f s)) -> newest_wins (set_streams k (f <$> streams k)).
Proof.
  intros Hk Hf. apply (newest_settles k); [done|]. intros a s'. cbn. rewrite lookup_fmap, fmap_Some.
  intros (s & Hs & ->). right. eauto.
Qed.

Lemma newest_update k a s s' :
  newest_wins k -> streams k !! a = Some s -> settles s s' -> newest_wins (set_streams k (<[a := s']> (streams k))).
Proof.
  intros Hk Hs Hst. apply (newest_settles k); [done|]. intros b r. cbn. rewrite lookup_insert_Some.
  intros [[<- <-]|[_ Hr]]; right; [by exists s|exists r]. by split_and!.
Qed.

Lemma newest_assign k id i k' o : newest_wins k -> assign k id i = (k', o) -> newest_wins k'.
Proof.
  intros Hk. unfold assign. set (f := fun (other : Z) s =>
    Some (if negb (other =? id) && negb (authenticated s) && assigned_to i s then shut s else s)).
  assert (Hclosed : newest_wins (set_streams k (map_imap f (streams k)))).
  { apply (newest_settles k); [done|]. intros a s'. cbn. rewrite map_lookup_imap, bind_Some.
    intros (s & Hs & [= <-]). right. exists s. split; [done|]. by case_match. }
  destruct (map_imap f (streams k) !! id) as [s|] eqn:E; intros [= <- <-]; [|done].
  assert (Hother : forall a sa, a <> id -> map_imap f (streams k) !! a = Some sa ->
    k_registration sa = Some i -> authenticated sa = false -> k_shut sa = true).
  { intros a sa Ha. rewrite map_lookup_imap, bind_Some. intros (r & Hr & [= <-]) Hi Hf.
    rewrite (proj2 (Z.eqb_neq a id) Ha) in *. cbn in *. case_match eqn:Hc; [done|].
    apply andb_false_iff in Hc as [Hc|Hc]; [rewrite Hf in Hc; done|].
    unfold assigned_to in Hc. apply bool_decide_eq_false in Hc. congruence. }
  intros a b sa sb j Hab. cbn. rewrite !lookup_insert_Some.
  intros [[<- <-]|[Ha Hsa]] [[<- <-]|[Hb Hsb]] Ia Ib Fa Fb; [done| | |by eapply (Hclosed a b)]; cbn in *.
  - right. eapply Hother; [|done| |done]; [done|]. congruence.
  - left. eapply Hother; [|done| |done]; [done|]. congruence.
Qed.

Lemma newest_step c c' : newest_wins (raw_sockets c) -> core_step c c' -> newest_wins (raw_sockets c').
Proof.
  intros Hk Hstep. destruct Hstep; try done.
  - by destruct (expire_locked_cases _ _ _ _ _ _ H0) as [[-> _]|(s & k & _ & _ & _ & _ & _ & Hc)];
      [|destruct (slot_of (sessions c) (reg_identity r)); [destruct Hc as [_ ->]|subst c']].
  - revert H. unfold track. destruct cloned as [u|e]; intros [= <- <-]; [|done]. cbn.
    apply (newest_settles (raw_sockets c)); [done|]. intros a s'. cbn. rewrite lookup_insert_Some.
    intros [[_ <-]|[_ Hs]]; [by left|]. right. exists s'. by split_and!.
  - by eapply newest_assign.
  - revert H. unfold authenticate. destruct (streams (raw_sockets c) !! id) eqn:E; intros [= <- <-]; [|done].
    by eapply newest_update.
  - revert H. unfold own_session. destruct (streams (raw_sockets c) !! id) eqn:E; intros [= <- <-]; [|done].
    by eapply newest_update.
  - apply (newest_settles (raw_sockets c)); [done|]. intros a s'. cbn. intros [_ Hs]%lookup_delete_Some.
    right. exists s'. by split_and!.
  - apply newest_fmap; [done|]. intros s. by case_match.
  - by apply newest_fmap.
Qed.

Lemma newest_steps c c' : newest_wins (raw_sockets c) -> rtc core_step c c' -> newest_wins (raw_sockets c').
Proof. intros Hk Hsteps. induction Hsteps; [done|]. eauto using newest_step. Qed.

(** ** Claims *)

(** What [claim] means to do, in one look at the table. *)
Definition claim_reference (g : RegistryState) (r : Registration) (socket : Z) (t : TableState)
  : TableState * result SessionTableError SessionClaim :=
  if table_shutdown t then (t, Err ShuttingDown)
  else if negb (registry_contains g (reg_identity r)) then (t, Err ObsoleteRegistration)
  else
    match slot_of t (reg_identity r) with
    | Some (Starting _ _) => (t, Err StartingBusy)
    | Some (Active _ session) => (t, Ok (ClaimReturning session))
    | Some (Registered stored) => (set_slot t (r_id r) (Starting stored socket), Ok (ClaimNew stored None))
    | None =>
        (set_slot t (r_id r) (Starting r socket), Ok (ClaimNew r (slots t !! r_id r ≫= into_connection)))
    end.

Lemma claim_turn_own g r k t replaced :
  table_shutdown t = false -> registry_contains g (reg_identity r) = true ->
  slots t !! r_id r = Some (Registered r) ->
  claim_turn g r (Some k) t replaced = Out (set_slot t (r_id r) (Starting r k)) (Ok (ClaimNew r replaced)).
Proof.
  intros Hsh Hc Hl. unfold claim_turn. rewrite Hsh, Hc, Hl. cbn.
  by rewrite (proj2 (same_generation_iff r r) eq_refl).
Qed.

Definition unclaimed (t : TableState) (i : Identity) : bool :=
  negb (is_some_and (fun slot => negb (is_registered slot)) (slot_of t i)).

(** The sweep's decision on one registration, and its effect. *)
Lemma expire_locked_spec c r now cloned c' o :
  expire_locked c r now cloned = (c', o) ->
  (c' = c /\ forall k, o <> Expired k) \/
  ((exists k, o = Expired k) /\ raw_sockets c' = raw_sockets c /\
   registry_contains (registry c) (reg_identity r) = true /\
   unclaimed (sessions c) (reg_identity r) = true /\
   has_authenticated_registration (raw_sockets c) (reg_identity r) = false /\
   forall j, registry_contains (registry c') j =
               (if decide (j = reg_identity r) then false else registry_contains (registry c) j) /\
             slot_of (sessions c') j = if decide (j = reg_identity r) then None else slot_of (sessions c) j).
Proof.
  intros [?|(s & k & -> & Hr & _ & Ha & Hk & Hcase)]%expire_locked_cases; [by left|right].
  apply clone_stream_Ok in Hk. apply remove_if_current_gone in Hr as (Hg & _ & Hother).
  assert (Hreg : forall j, registry_contains s j =
    if decide (j = reg_identity r) then false else registry_contains (registry c) j).
  { intros j. case_decide as E; [by rewrite E|by apply Hother]. }
  unfold unclaimed. destruct (slot_of (sessions c) (reg_identity r)) as [slot|] eqn:E.
  - destruct Hcase as [Hcase ->]. split_and!; try done; [by eexists|by destruct slot|].
    intros j. split; [done|]. apply (slot_of_delete (sessions c) (reg_identity r)). rewrite E. by eexists.
  - subst c'. split_and!; try done; [by eexists|]. intros j. split; [done|]. cbn. by case_decide; subst.
Qed.

Lemma has_authenticated_iff k i :
  has_authenticated_registration k i = true <->
  exists a s, streams k !! a = Some s /\ authenticated s = true /\ k_registration s = Some i.
Proof.
  unfold has_authenticated_registration. rewrite existsb_exists. split.
  - intros (s & ([a s'] & <- & Hin)%in_map_iff & [Ha Hi]%andb_true_iff).
    apply list_elem_of_In, elem_of_map_to_list in Hin. exists a, s'. split_and!; [done|done|].
    by apply bool_decide_eq_true in Hi.
  - intros (a & s & Hl & Ha & Hi). exists s. split.
    + apply in_map_iff. exists (a, s). split; [done|]. by apply list_elem_of_In, elem_of_map_to_list.
    + rewrite Ha. by apply bool_decide_eq_true.
Qed.

Lemma shutdown_inactive_authenticated k i j :
  has_authenticated_registration (shutdown_inactive_registration k i) j = has_authenticated_registration k j.
Proof.
  apply eq_true_iff_eq. rewrite !has_authenticated_iff. cbn. split; intros (a & s & Hl & Ha & Hj).
  - rewrite lookup_fmap, fmap_Some in Hl. destruct Hl as (s' & Hl & ->). exists a, s'. by case_match.
  - exists a. rewrite lookup_fmap, Hl. cbn. eexists. split; [done|]. by case_match.
Qed.

(** The fold of the sweep. *)
Lemma expire_all_spares default_timeout entries c now cloned c' closed ok j :
  expire_all default_timeout entries c now cloned = (c', closed, ok) ->
  registry_contains (registry c) j = true -> registry_contains (registry c') j = false ->
  (exists r since, (r, since) ∈ entries /\ reg_identity r = j /\ resume_due default_timeout r since now = true) /\
  has_authenticated_registration (raw_sockets c) j = false /\ unclaimed (sessions c) j = true.
Proof.
  revert c closed. induction entries as [|[r since] entries IH]; intros c closed; cbn.
  { intros [= <- _ _]. congruence. }
  destruct (resume_due default_timeout r since now) eqn:Hdue; cbn [negb].
  2: { intros He Hc Hc'. destruct (IH _ _ He Hc Hc') as [(r' & s' & Hin & ?) ?]. split; [|done].
       exists r', s'. split; [by right|done]. }
  destruct (expire_locked c r now (cloned r)) as [c1 o] eqn:Hex.
  destruct (expire_locked_spec _ _ _ _ _ _ Hex) as [[-> Hno]|((k & ->) & Hraw & _ & Hu & Ha & Hall)].
  - intros He Hc Hc'. destruct o as [|k| |]; [|by destruct (Hno k)|simplify_eq; congruence|simplify_eq; congruence].
    destruct (IH _ _ He Hc Hc') as [(r' & s' & Hin & ?) ?]. split; [|done]. exists r', s'. split; [by right|done].
  - destruct (expire_all default_timeout entries _ now cloned) as [[c2 cl2] ok2] eqn:He.
    intros [= -> _ ->] Hc Hc'. destruct (decide (j = reg_identity r)) as [->|Hne].
    { split_and!; [exists r, since; split; [by left|done]|done|done]. }
    destruct (Hall j) as [H1 H2]. rewrite decide_False in H1 by done. rewrite decide_False in H2 by done.
    destruct (IH _ _ He) as [(r' & s' & Hin & ?) [Hauth Hun]]; [cbn; congruence|done|].
    cbn in Hauth, Hun. rewrite shutdown_inactive_authenticated, Hraw in Hauth. unfold unclaimed in Hun. rewrite H2 in Hun.
    split_and!; [exists r', s'; split; [by right|done]|done|done].
Qed.

Lemma resumed_iff s r since :
  (r, since) ∈ resumed s <->
  exists id stored, registrations s !! id = Some stored /\ pty_active (s_info stored) = true /\
    r = s_info stored /\ since = registered_at stored.
Proof.
  unfold resumed. rewrite list_elem_of_In, in_map_iff. split.
  - intros (stored & [= <- <-] & [([id st] & <- & Hin)%in_map_iff Hp]%filter_In).
    apply list_elem_of_In, elem_of_map_to_list in Hin. eauto 10.
  - intros (id & stored & Hl & Hp & -> & ->). exists stored. split; [done|]. apply filter_In. split; [|done].
    apply in_map_iff. exists (id, stored). split; [done|]. by apply list_elem_of_In, elem_of_map_to_list.
Qed.

(** ** Theorems *)

(** Claiming a slot always comes to an end, whatever the registry does between
    the turns of its loop: the third turn is the last. *)
Theorem claim_returns g1 g2 g3 views r cloned t :
  exists t' o, claim (g1 :: g2 :: g3 :: views) r cloned t = Some (t', o).
Proof.
  destruct cloned as [k|e]; cbn [claim]; [|eauto].
  assert (Hreg : forall t replaced, slots t !! r_id r = Some (Registered r) ->
    exists t' o, claim_loop (g2 :: g3 :: views) r (Some k) t replaced = Some (t', o)).
  { intros t1 replaced Hl. cbn. destruct (table_shutdown t1) eqn:Hsh; [unfold claim_turn; rewrite Hsh; eauto|].
    destruct (registry_contains g2 (reg_identity r)) eqn:Hc; [|unfold claim_turn; rewrite Hsh, Hc; cbn; eauto].
    rewrite claim_turn_own by done. eauto. }
  cbn. unfold claim_turn at 1. destruct (table_shutdown t); [eauto|].
  destruct (registry_contains g1 (reg_identity r)); cbn [negb]; [|eauto].
  destruct (slots t !! r_id r) as [slot|] eqn:E; [|apply Hreg; cbn; by rewrite lookup_insert_eq].
  destruct (same_generation (slot_registration slot) r); cbn [negb]; [|apply Hreg; cbn; by rewrite lookup_insert_eq].
  destruct slot; eauto.
Qed.

(** While the registry does not change, a claim does what its reference says:
    it is refused during shutdown or for a registration that is gone; a slot
    of another generation is displaced and its connection handed over; a
    generation that is starting is busy, one that is active is returned to. *)
Theorem claim_refines g r k t :
  claim [g; g; g] r (Ok k) t = Some (claim_reference g r k t).
Proof.
  cbn [claim]. cbn [claim_loop]. unfold claim_turn at 1, claim_reference.
  destruct (table_shutdown t) eqn:Hsh; [done|].
  destruct (registry_contains g (reg_identity r)) eqn:Hc; cbn [negb]; [|done].
  assert (Hset : forall replaced, match claim_turn g r (Some k) (set_slot t (r_id r) (Registered r)) replaced with
      | Out t o => Some (t, o) | Again t replaced => match claim_turn g r (Some k) t replaced with
        | Out t o => Some (t, o) | Again _ _ => None end end =
      Some (set_slot t (r_id r) (Starting r k), Ok (ClaimNew r replaced))).
  { intros replaced. rewrite claim_turn_own; [|done|done|cbn; by rewrite lookup_insert_eq].
    unfold set_slot. cbn. by rewrite insert_insert_eq. }
  unfold slot_of. cbn [i_id reg_identity].
  destruct (slots t !! r_id r) as [slot|] eqn:E; [|apply Hset].
  assert (Hm : matches (reg_identity r) (slot_registration slot) = same_generation (slot_registration slot) r).
  { apply eq_true_iff_eq. rewrite matches_iff, same_generation_iff. split; congruence. }
  cbn in Hm. rewrite Hm. destruct (same_generation (slot_registration slot) r); cbn [negb]; [|apply Hset].
  by destruct slot.
Qed.

(** C13: However the threads interleave, a generation has at most one guard that
    starts it: its slot is starting exactly while such a guard is
    outstanding, unless the generation has lost its slot, and then it is not
    registered any more or the server is shutting down. *)
Theorem start_guards_exclusive c i :
  core_reachable c ->
  NoDup (map reg_identity (starts c)) /\
  match slot_of (sessions c) i with
  | Some slot => is_starting slot = true <-> i ∈ map reg_identity (starts c)
  | None => i ∈ map reg_identity (starts c) ->
      registry_contains (registry c) i = false \/ table_shutdown (sessions c) = true
  end.
Proof.
  intros [_ Hs]%core_reachable_inv. split; [apply Hs|].
  pose proof (si_own _ _ _ Hs i) as Ho. destruct (slot_of (sessions c) i) as [slot|] eqn:E; [|done].
  split; [|done]. by apply (si_starting _ _ _ Hs).
Qed.

(** C12: A terminal that has disconnected is retired for good: once its generation
    is removed from the registry and from the table, no later interleaving
    registers it, gives it a slot, or lets an outstanding guard activate
    it. *)
Theorem retired_never_returns c c' i start session :
  core_reachable c -> (i_generation i < next_generation (registry c))%nat ->
  registry_contains (registry c) i = false ->
  rtc core_step (fst (terminal_disconnected c i)) c' ->
  registry_contains (registry c') i = false /\ slot_of (sessions c') i = None /\
  (reg_identity start = i -> exists e, snd (activate (sessions c') start session) = Err e).
Proof.
  intros Hc%core_reachable_inv Hlt Hcon Hsteps.
  assert (Hinv : core_inv (fst (terminal_disconnected c i)) /\ gone (fst (terminal_disconnected c i)) i).
  { unfold terminal_disconnected. destruct Hc as [Hg Hs].
    destruct (remove_registration _ i) as [t o] eqn:Hr.
    assert (Hsl : slot_of t i = None).
    { revert Hr. unfold remove_registration. destruct (slot_of _ i) eqn:E; intros [= <- <-]; [|done].
      unfold slot_of. cbn. by rewrite lookup_delete_eq. }
    eapply starts_remove in Hr; [|done|done].
    destruct o as [[]|]; (split; [by split|by split_and!]). }
  destruct Hinv as [Hinv Hgone]. destruct (gone_steps _ _ _ Hinv Hgone Hsteps) as (_ & H1 & H2).
  split_and!; [done|done|]. intros <-. unfold activate, activate_slot.
  destruct (table_shutdown (sessions c')); [by eexists|].
  destruct (own_starting (sessions c') start) eqn:E; [|by eexists].
  apply own_starting_iff in E as (slot & E & _). congruence.
Qed.

(** However the threads interleave, at most one connection per registered
    generation is left open while its proof is outstanding: the newest one
    closes the others, so a peer that knows an id but not its passkey holds
    one handshake at most. *)
Theorem one_unproven_socket_per_generation c a b sa sb i :
  core_reachable c -> a <> b ->
  streams (raw_sockets c) !! a = Some sa -> streams (raw_sockets c) !! b = Some sb ->
  k_registration sa = Some i -> k_registration sb = Some i ->
  authenticated sa = false -> authenticated sb = false ->
  k_shut sa = true \/ k_shut sb = true.
Proof.
  intros Hc. apply (newest_steps core_new); [|done].
  intros x y sx sy j _ Hx. cbn in Hx. by rewrite lookup_empty in Hx.
Qed.

(** The sweep of resumed terminals takes a registration away exactly when it
    is current, unclaimed, and no connection has proved its passkey; the
    generation then has no slot and no registration, and nobody else's slot
    or registration changes. *)
Theorem sweep_expires_iff c r now c' o :
  table_shutdown (sessions c) = false ->
  expire_locked c r now (Ok tt) = (c', o) ->
  let i := reg_identity r in
  ((exists k, o = Expired k) <->
     registry_contains (registry c) i = true /\ unclaimed (sessions c) i = true /\
     has_authenticated_registration (raw_sockets c) i = false) /\
  ((exists k, o = Expired k) -> registry_contains (registry c') i = false /\ slot_of (sessions c') i = None) /\
  (forall j, j <> i -> registry_contains (registry c') j = registry_contains (registry c) j /\
                       slot_of (sessions c') j = slot_of (sessions c) j).
Proof.
  intros Hsh Hex. cbn zeta.
  destruct (expire_locked_spec _ _ _ _ _ _ Hex) as [[-> Hno]|(Hk & _ & Hc & Hu & Ha & Hall)].
  - split_and!; [|by intros [k Hk%Hno]|done]. split; [by intros [k Hk%Hno]|]. intros (Hc & Hsl & Ha).
    revert Hex. unfold expire_locked. apply negb_true_iff in Hsl. rewrite Hsh, Hsl, Ha.
    unfold clone_stream, remove_if_current. unfold registry_contains in Hc.
    destruct (current (registry c) (reg_identity r)) eqn:E; [|done]. intros [= _ <-]. by eexists.
  - split_and!; [by split|intros _|intros j Hj].
    + destruct (Hall (reg_identity r)) as [H1 H2]. rewrite decide_True in H1 by done. by rewrite decide_True in H2 by done.
    + destruct (Hall j) as [H1 H2]. rewrite decide_False in H1 by done. by rewrite decide_False in H2 by done.
Qed.

(** A sweep takes a terminal away only when it had resumed a live pty, its
    recovery time is over, nobody has claimed it, and no connection has proved
    its passkey. *)
Theorem sweep_spares default_timeout c now cloned c' closed ok j :
  core_reachable c ->
  expire_unclaimed_resumes default_timeout c now cloned = (c', closed, ok) ->
  registry_contains (registry c) j = true -> registry_contains (registry c') j = false ->
  (exists stored, current (registry c) j = Some stored /\ pty_active (s_info stored) = true /\
     resume_due default_timeout (s_info stored) (registered_at stored) now = true) /\
  has_authenticated_registration (raw_sockets c) j = false /\ unclaimed (sessions c) j = true.
Proof.
  intros [Hg _]%core_reachable_inv He Hc Hc'.
  destruct (expire_all_spares _ _ _ _ _ _ _ _ _ He Hc Hc') as [(r & since & Hin & <- & Hd) ?].
  split; [|done]. apply resumed_iff in Hin as (id & stored & Hl & Hp & -> & ->).
  exists stored. split_and!; [|done|done]. apply current_Some. split; [|done]. cbn.
  by destruct (Hg _ _ Hl) as [-> _].
Qed.

(** The control thread applies what is queued: after a pass, every generation
    whose disconnection was queued before a shutdown request has no slot, and
    the pass gives no generation a slot. *)
Theorem service_retires_disconnected l c now events rest i :
  let '(_, c', _) := service_events l c now (events ++ rest) in
  (TerminalDisconnected i ∈ events -> Shutdown ∉ events -> slot_of (sessions c') i = None) /\
  (slot_of (sessions c) i = None -> slot_of (sessions c') i = None) /\ registry c' = registry c.
Proof.
  assert (Hdis : forall c j, slots (sessions (fst (terminal_disconnected c j))) ⊆ slots (sessions c) /\
    slot_of (sessions (fst (terminal_disconnected c j))) j = None /\
    registry (fst (terminal_disconnected c j)) = registry c).
  { intros c0 j. unfold terminal_disconnected, remove_registration. cbn.
    destruct (slot_of (sessions c0) j) eqn:E; cbn; [|done]. split_and!; [apply delete_subseteq| |done].
    unfold slot_of. cbn. by rewrite lookup_delete_eq. }
  assert (Hkeep : forall evs l c, let '(_, c', _) := service_events l c now evs in
    (slot_of (sessions c) i = None -> slot_of (sessions c') i = None) /\ registry c' = registry c).
  { induction evs as [|e evs IH]; intros l0 c0; cbn; [done|]. destruct e as [j| | |]; [|apply IH|apply IH|done].
    specialize (IH l0 (fst (terminal_disconnected c0 j))). destruct (service_events _ _ _ _) as [[l1 c1] b].
    destruct (Hdis c0 j) as (Hsub & _ & Hr), IH as [IH1 IH2]. split; [|congruence].
    intros Hi. apply IH1. by eapply slot_of_sub. }
  pose proof (Hkeep (events ++ rest) l c) as Hkeep'.
  destruct (service_events l c now (events ++ rest)) as [[l' c'] b] eqn:E. split; [|done]. clear Hkeep'.
  revert l c E. induction events as [|e events IH]; intros l c; [by intros _ ?%elem_of_nil|].
  cbn. rewrite !elem_of_cons. destruct e as [j| | |]; [|intros E [|Hin] Hs; [done|]..|].
  - intros E Hin Hs. destruct (decide (i = j)) as [->|Hne].
    + specialize (Hkeep (events ++ rest) l (fst (terminal_disconnected c j))). rewrite E in Hkeep.
      apply Hkeep, Hdis.
    + eapply IH; [exact E|by destruct Hin as [[=]|]|tauto].
  - eapply IH; [exact E|done|tauto].
  - eapply IH; [exact E|done|tauto].
  - intros _ _ []. by left.
Qed.

(** ** Witnesses *)

(** A claim that nothing interrupts is a run of [core_step]. *)
Lemma claim_steps c r k t o :
  claiming c = None -> claim [registry c; registry c; registry c] r (Ok k) (sessions c) = Some (t, o) ->
  rtc core_step c (set_starts (set_sessions c t)
    (match o with Ok (ClaimNew start _) => start :: starts c | _ => starts c end)).
Proof.
  intros Hnone. cbn [claim].
  assert (Hloop : forall views c1 replaced, Forall (fun v => v = registry c1) views ->
    claiming c1 = Some (r, k, replaced) -> claim_loop views r (Some k) (sessions c1) replaced = Some (t, o) ->
    rtc core_step c1 (set_starts (set_claiming (set_sessions c1 t) None)
      (match o with Ok (ClaimNew start _) => start :: starts c1 | _ => starts c1 end))).
  { induction views as [|v views IH]; intros c1 replaced; [done|]. intros [-> Hv]%Forall_cons Hh. cbn.
    destruct (claim_turn _ r (Some k) (sessions c1) replaced) as [t1 rep1|t1 o1] eqn:Ht.
    - intros Hl. eapply rtc_l; [by eapply step_claim_again|].
      by apply (IH (set_claiming (set_sessions c1 t1) (Some (r, k, rep1))) rep1).
    - intros [= -> ->]. apply rtc_once. by eapply step_claim_out. }
  intros Hl. eapply rtc_l; [by apply (step_claim_begin c r k)|].
  specialize (Hloop [registry c; registry c; registry c] (set_claiming c (Some (r, k, None))) None ltac:(by repeat constructor) eq_refl Hl).
  destruct c; cbn in *. by subst.
Qed.

Definition demo_reg : Registration :=
  mkRegistration (repeat "a"%byte 16) (repeat "K"%byte 32) 501 20 true Packets false false None 0.
Definition demo_registered : RuntimeCore :=
  set_registry core_new (fst (register registry_new demo_info 3 (mkPeer 501 20) (Ok tt) false 0)).
Definition demo_started : RuntimeCore :=
  let r := claim_reference (registry demo_registered) demo_reg 7 (sessions demo_registered) in
  set_starts (set_sessions demo_registered (fst r)) [demo_reg].

Lemma demo_started_reachable : core_reachable demo_started.
Proof.
  eapply rtc_l; [eapply (step_register _ demo_info 3 (mkPeer 501 20) (Ok tt) false 0); apply surjective_pairing|].
  eapply (claim_steps demo_registered demo_reg 7 _ (Ok (ClaimNew demo_reg None))); [done|].
  vm_compute. reflexivity.
Qed.

Lemma start_guards_exclusive_witness :
  is_starting (Starting demo_reg 7) = true <-> reg_identity demo_reg ∈ map reg_identity (starts demo_started).
Proof. exact (proj2 (start_guards_exclusive demo_started (reg_identity demo_reg) demo_started_reachable)). Defined.

(** The terminal of the started session hangs up. *)
Definition demo_hung_up : RuntimeCore :=
  set_registry demo_started (fst (remove_if_current (registry demo_started) (reg_identity demo_reg) 5)).

Lemma demo_hung_up_reachable : core_reachable demo_hung_up.
Proof.
  eapply rtc_r; [apply demo_started_reachable|].
  eapply (step_deregister _ (reg_identity demo_reg) 5). apply surjective_pairing.
Qed.

Lemma retired_never_returns_witness :
  exists e, snd (activate (sessions (fst (terminal_disconnected demo_hung_up (reg_identity demo_reg)))) demo_reg 9) = Err e.
Proof.
  refine (proj2 (proj2 (retired_never_returns demo_hung_up _ (reg_identity demo_reg) demo_reg 9
    demo_hung_up_reachable _ _ (rtc_refl _ _))) eq_refl); [vm_compute; lia|vm_compute; reflexivity].
Defined.

(** Two connections for the registered generation. *)
Definition demo_sockets : RuntimeCore :=
  let k := fst (track raw_new (Ok tt)) in
  let k := fst (track k (Ok tt)) in
  let k := fst (assign k 0 (reg_identity demo_reg)) in
  set_raw demo_started (fst (assign k 1 (reg_identity demo_reg))).

Lemma demo_sockets_reachable : core_reachable demo_sockets.
Proof.
  unfold core_reachable. etransitivity; [apply demo_started_reachable|].
  eapply rtc_l; [eapply (step_track demo_started (Ok tt)); apply surjective_pairing|].
  eapply rtc_l; [eapply (step_track _ (Ok tt)); apply surjective_pairing|].
  eapply rtc_l; [eapply (step_assign _ 0 (reg_identity demo_reg)); apply surjective_pairing|].
  eapply rtc_l; [eapply (step_assign _ 1 (reg_identity demo_reg)); apply surjective_pairing|].
  apply rtc_refl.
Qed.

Lemma one_unproven_socket_per_generation_witness :
  exists sa sb, streams (raw_sockets demo_sockets) !! 0 = Some sa /\ streams (raw_sockets demo_sockets) !! 1 = Some sb /\
    (k_shut sa = true \/ k_shut sb = true).
Proof.
  eexists _, _. split; [vm_compute; reflexivity|]. split; [vm_compute; reflexivity|].
  apply (one_unproven_socket_per_generation demo_sockets 0 1 _ _ (reg_identity demo_reg) demo_sockets_reachable);
    [done|vm_compute; reflexivity|vm_compute; reflexivity|reflexivity|reflexivity|reflexivity|reflexivity].
Defined.

(** A terminal that re-registered a live pty, and an hour later. *)
Definition demo_resumed : RuntimeCore :=
  set_registry core_new (fst (register registry_new
    (mkInfo (Some (repeat "a"%byte 16)) (Some (repeat "K"%byte 32)) None None (Some (-6)) (Some true) None None None)
    3 (mkPeer 501 20) (Ok tt) false 0)).

Lemma demo_resumed_reachable : core_reachable demo_resumed.
Proof. apply rtc_once. eapply step_register. apply surjective_pairing. Qed.

Lemma sweep_expires_iff_witness :
  exists k, snd (expire_locked demo_resumed demo_reg (secs 3600) (Ok tt)) = Expired k.
Proof.
  apply (sweep_expires_iff demo_resumed demo_reg (secs 3600) _ _ eq_refl (surjective_pairing _)).
  vm_compute. auto.
Defined.

Lemma sweep_spares_witness :
  let r := expire_unclaimed_resumes 600 demo_resumed (secs 3600) (fun _ => Ok tt) in
  registry_contains (registry (fst (fst r))) (reg_identity demo_reg) = false /\
  exists stored, current (registry demo_resumed) (reg_identity demo_reg) = Some stored /\
    pty_active (s_info stored) = true /\ resume_due 600 (s_info stored) (registered_at stored) (secs 3600) = true.
Proof.
  intros r. assert (Hgone : registry_contains (registry (fst (fst r))) (reg_identity demo_reg) = false) by (vm_compute; reflexivity).
  split; [done|].
  refine (proj1 (sweep_spares 600 demo_resumed (secs 3600) (fun _ => Ok tt) (fst (fst r)) (snd (fst r)) (snd r) _
    demo_resumed_reachable _ _ Hgone)); [|vm_compute; reflexivity].
  unfold r. by destruct (expire_unclaimed_resumes _ _ _ _) as [[??]?].
Defined.
