(* ===== verification/Router.v ===== *)
(** * Router: [crates/et-server/src/router_loop.rs], [router_registration.rs]

    The local socket on which terminals register: connections that are still
    being read, registered terminals that are watched for hang-up, and one
    turn of the Unix poll loop. What the system answers during a turn, the
    bytes of the sockets included, is an argument: a watched socket is shared
    with its session. Events are the ones handed to [emit] and [send]; the
    bounded diagnostic channel may drop some. Indexing a vector out of range
    panics. The generated decoder of [TerminalUserInfo] is a parameter. *)

From Stdlib Require Import String.
From stdpp Require Import gmap sorting.
From S2P Require Import Prelude Bytes FramingIo Crypto Keys Packet LocalPacket LocalDecoder Registry SessionTable.

(** ** Data *)

Definition MAX_PENDING_REGISTRATIONS : nat := 64.
Definition REGISTRATION_TIMEOUT : Z := secs 5.
Definition MAX_STARTUP_STATUS_LEN : Z := HEADER_LEN + 1 + MAX_STATUS_MESSAGE.

(** [TerminalPacketType] of [ETerminal.proto]. *)
Definition TERMINAL_USER_INFO : byte := x08.

Inductive RouterReject :=
| MalformedFrame | Encrypted | WrongPacketType | MalformedUserInfo | InvalidRegistration | Duplicate
| RegistryUnavailable | IdentityMismatch | Capacity | Timeout.

(** The derived [Debug]. *)
Definition reject_debug (r : RouterReject) : list byte :=
  match r with
  | MalformedFrame => bytes_of "MalformedFrame"
  | Encrypted => bytes_of "Encrypted"
  | WrongPacketType => bytes_of "WrongPacketType"
  | MalformedUserInfo => bytes_of "MalformedUserInfo"
  | InvalidRegistration => bytes_of "InvalidRegistration"
  | Duplicate => bytes_of "Duplicate"
  | RegistryUnavailable => bytes_of "RegistryUnavailable"
  | IdentityMismatch => bytes_of "IdentityMismatch"
  | Capacity => bytes_of "Capacity"
  | Timeout => bytes_of "Timeout"
  end.

Inductive RouterEvent :=
| Registered (id : list byte)
| Disconnected (id : list byte)
| Rejected (r : RouterReject).

(** [RouterError::Io], and the panic of an index that is out of range. *)
Inductive RouterError := RouterIo | RouterPanic.

Record PendingConnection := mkPending {
  pc_stream : Z;
  pc_decoder : LocalPacketDecoder;
  pc_accepted : Z;
  pc_peer : PeerIdentity
}.

Record WatchedRegistration := mkWatched {
  w_stream : Z;
  w_identity : Identity;
  w_startup : option LocalPacketDecoder
}.

Inductive ReadOutcome :=
| ReadPending
| ReadPacket (p : Packet)
| ReadReject.

(** [RouterPoll]; without a lifecycle sender the last field is [None]. *)
Record RouterPoll := mkRouter {
  rt_registry : RegistryState;
  pending : list PendingConnection;
  watched : list WatchedRegistration;
  rt_events : list RouterEvent;
  rt_lifecycle : option (list LifecycleEvent)
}.

Class UserInfoCodec := { user_info_decode : list byte -> option TerminalUserInfo }.

(** [Vec::swap_remove] at an index that is in range. *)
Definition swap_remove {A} (l : list A) (i : nat) : list A :=
  match last l with
  | None => l
  | Some x => take (length l - 1) (<[i := x]> l)
  end.

Definition set_rt_registry (r : RouterPoll) (s : RegistryState) : RouterPoll :=
  mkRouter s (pending r) (watched r) (rt_events r) (rt_lifecycle r).
Definition set_pending (r : RouterPoll) (l : list PendingConnection) : RouterPoll :=
  mkRouter (rt_registry r) l (watched r) (rt_events r) (rt_lifecycle r).
Definition set_watched (r : RouterPoll) (l : list WatchedRegistration) : RouterPoll :=
  mkRouter (rt_registry r) (pending r) l (rt_events r) (rt_lifecycle r).
Definition emit (r : RouterPoll) (e : RouterEvent) : RouterPoll :=
  mkRouter (rt_registry r) (pending r) (watched r) (rt_events r ++ [e]) (rt_lifecycle r).
Definition send (r : RouterPoll) (e : LifecycleEvent) : RouterPoll :=
  mkRouter (rt_registry r) (pending r) (watched r) (rt_events r) ((fun l => l ++ [e]) <$> rt_lifecycle r).

Definition router_new (s : RegistryState) (lifecycle : bool) : RouterPoll :=
  mkRouter s [] [] [] (if lifecycle then Some [] else None).

(** ** Reading *)

(** [read_decoder] on a socket that holds [bytes] and answers [ts]; a socket
    whose turns are used up blocks. *)
Fixpoint read_decoder_go (d : LocalPacketDecoder) (bytes : list byte) (ts : list stream_turn)
  : LocalPacketDecoder * ReadOutcome :=
  let needed := Z.min (required_bytes d) 8192 in
  if needed =? 0 then (d, ReadReject)
  else
    match ts with
    | [] | WouldBlockTurn :: _ | FailTurn WouldBlock :: _ => (d, ReadPending)
    | InterruptedTurn :: ts | FailTurn Interrupted :: ts => read_decoder_go d bytes ts
    | FailTurn _ :: _ => (d, ReadReject)
    | Give k :: ts =>
        match bytes with
        | [] => (decoder_new, match decoder_finish d with Ok _ => ReadPending | Err _ => ReadReject end)
        | _ =>
            let count := Z.min (Z.max 1 k) needed in
            match feed d (ztake count bytes) with
            | (d, Ok (Some p)) => (d, ReadPacket p)
            | (d, Ok None) => read_decoder_go d (zdrop count bytes) ts
            | (d, Err _) => (d, ReadReject)
            end
        end
    end.

Definition read_decoder (d : LocalPacketDecoder) (s : source) : LocalPacketDecoder * ReadOutcome :=
  read_decoder_go d (to_come s) (turns s).

Definition registration_decoder : LocalPacketDecoder := with_limit MAX_REGISTRATION_LEN.

Definition startup_watch (t : RegisteredTerminal) : option LocalPacketDecoder :=
  if t_startup_ack t && negb (t_resumed t) then Some (with_limit MAX_STARTUP_STATUS_LEN) else None.

(** ** Registering *)

Record Rejection := mkRejection {
  reason : RouterReject;
  wants_status : bool
}.

Definition map_error (e : RegistrationError) : RouterReject :=
  match e with
  | RInvalid => InvalidRegistration
  | RDuplicate => Duplicate
  | RUnavailable | RTimeout | RIo => RegistryUnavailable
  end.

(** What the system answers while one registration is completed: the two
    duplications of the socket, whether the terminal registered before under
    the id is gone, the clock, the write of the status, the socket mode. *)
Record pending_env := mkPendingEnv {
  pe_status : result io_kind unit;
  pe_cloned : result io_kind unit;
  pe_closed : bool;
  pe_registered : Z;
  pe_written : result io_kind unit;
  pe_rolled_back : Z;
  pe_nonblocking : result io_kind unit
}.

Section registration.
Context {codec : UserInfoCodec}.

(** [router_registration::process] *)
Definition process (p : Packet) (stream : Z) (s : RegistryState) (peer : PeerIdentity) (env : pending_env)
  : RegistryState * result Rejection RegisteredTerminal :=
  if encrypted p then (s, Err (mkRejection Encrypted false))
  else if negb (bool_decide (header p = TERMINAL_USER_INFO)) then (s, Err (mkRejection WrongPacketType false))
  else
    match user_info_decode (payload p) with
    | None => (s, Err (mkRejection MalformedUserInfo false))
    | Some info =>
        match register s info stream peer (pe_cloned env) (pe_closed env) (pe_registered env) with
        | (s, Ok t) => (s, Ok t)
        | (s, Err e) => (s, Err (mkRejection (map_error e) (bool_decide (ui_fd info = Some (-6)))))
        end
    end.

Definition rollback_registration (r : RouterPoll) (i : Identity) (now : Z) : RouterPoll :=
  emit (set_rt_registry r (fst (remove_if_current (rt_registry r) i now))) (Rejected RegistryUnavailable).

Definition rejection_message (r : RouterReject) : list byte := bytes_of "registration rejected: " ++ reject_debug r.

(** With the status packet that is written to the terminal, if any. *)
Definition complete_registration (r : RouterPoll) (c : PendingConnection) (p : Packet) (env : pending_env)
  : RouterPoll * option Packet * result RouterError (option RegisteredTerminal) :=
  match pe_status env with
  | Err _ => (r, None, Err RouterIo)
  | Ok _ =>
      match process p (pc_stream c) (rt_registry r) (pc_peer c) env with
      | (s, Ok t) =>
          let r := set_rt_registry r s in
          if t_startup_ack t then
            let status := registration_status_packet (Ok (t_router_framing t)) in
            match pe_written env with
            | Ok _ => (r, Some status, Ok (Some t))
            | Err _ => (rollback_registration r (t_identity t) (pe_rolled_back env), Some status, Ok None)
            end
          else (r, None, Ok (Some t))
      | (s, Err rejection) =>
          let status :=
            if wants_status rejection
            then Some (registration_status_packet (Err (rejection_message (reason rejection)))) else None in
          (emit (set_rt_registry r s) (Rejected (reason rejection)), status, Ok None)
      end
  end.

Definition notify_resumed (r : RouterPoll) : RouterPoll := send r TerminalResumed.

(** The body of the last loop of [service]. *)
Definition service_pending (r : RouterPoll) (index : nat) (streams : Z -> source) (envs : Z -> pending_env)
  : RouterPoll * result RouterError unit :=
  match pending r !! index with
  | None => (r, Err RouterPanic)
  | Some c =>
      match read_decoder (pc_decoder c) (streams (pc_stream c)) with
      | (d, ReadPending) =>
          (set_pending r (<[index := mkPending (pc_stream c) d (pc_accepted c) (pc_peer c)]> (pending r)), Ok tt)
      | (_, ReadReject) =>
          (emit (set_pending r (swap_remove (pending r) index)) (Rejected MalformedFrame), Ok tt)
      | (_, ReadPacket p) =>
          let r := set_pending r (swap_remove (pending r) index) in
          let env := envs (pc_stream c) in
          match complete_registration r c p env with
          | (r, _, Err e) => (r, Err e)
          | (r, _, Ok None) => (r, Ok tt)
          | (r, _, Ok (Some t)) =>
              match pe_nonblocking env with
              | Err _ => (r, Err RouterIo)
              | Ok _ =>
                  let r := set_watched r (watched r ++ [mkWatched (t_watcher t) (t_identity t) (startup_watch t)]) in
                  let r := emit r (Registered (i_id (t_identity t))) in
                  (if t_resumed t then notify_resumed r else r, Ok tt)
              end
          end
      end
  end.

Fixpoint service_pendings (r : RouterPoll) (ready : list nat) (streams : Z -> source) (envs : Z -> pending_env)
  : RouterPoll * result RouterError unit :=
  match ready with
  | [] => (r, Ok tt)
  | index :: ready =>
      match service_pending r index streams envs with
      | (r, Err e) => (r, Err e)
      | (r, Ok _) => service_pendings r ready streams envs
      end
  end.
End registration.

(** ** Watching *)

(** The flags of a watched terminal after a peek of one byte. *)
Definition probed (flags : poll_events) (probe : result io_kind Z) : poll_events :=
  match probe with
  | Ok n => if n =? 0 then mkEvents (ev_in flags) true (ev_err flags) else flags
  | Err WouldBlock | Err Interrupted => flags
  | Err _ => mkEvents (ev_in flags) (ev_hup flags) true
  end.

Fixpoint probe_all (flags : list poll_events) (ws : list WatchedRegistration) (probe : Z -> result io_kind Z)
  : list poll_events :=
  match flags, ws with
  | f :: flags, w :: ws => probed f (probe (w_stream w)) :: probe_all flags ws probe
  | _, _ => flags
  end.

Definition set_startup (w : WatchedRegistration) (d : option LocalPacketDecoder) : WatchedRegistration :=
  mkWatched (w_stream w) (w_identity w) d.

Definition set_watched_startup (r : RouterPoll) (index : nat) (w : WatchedRegistration)
    (d : option LocalPacketDecoder) : RouterPoll :=
  set_watched r (<[index := set_startup w d]> (watched r)).

(** [clock] is the time at which the terminal of a socket is removed. *)
Definition disconnect_watched (r : RouterPoll) (index : nat) (clock : Z -> Z) : RouterPoll * result RouterError unit :=
  match watched r !! index with
  | None => (r, Err RouterPanic)
  | Some w =>
      let r := set_watched r (swap_remove (watched r) index) in
      match remove_if_current (rt_registry r) (w_identity w) (clock (w_stream w)) with
      | (s, true) =>
          (send (emit (set_rt_registry r s) (Disconnected (i_id (w_identity w)))) (TerminalDisconnected (w_identity w)), Ok tt)
      | (s, false) => (set_rt_registry r s, Ok tt)
      end
  end.

(** The startup status of the terminal at [index]. *)
Definition service_startup (r : RouterPoll) (index : nat) (streams : Z -> source) : RouterPoll * result RouterError unit :=
  match watched r !! index with
  | None => (r, Err RouterPanic)
  | Some w =>
      match w_startup w with
      | None => (r, Ok tt)
      | Some d =>
          match read_decoder d (streams (w_stream w)) with
          | (d, ReadPending) => (set_watched_startup r index w (Some d), Ok tt)
          | (d, ReadPacket p) =>
              let answer :=
                match parse_status p STARTUP_STATUS with Ok _ => Ok tt | Err e => Err (status_error_text e) end in
              match report_startup (rt_registry r) (w_identity w) answer with
              | (s, Ok _) => (set_watched_startup (set_rt_registry r s) index w None, Ok tt)
              | (s, Err _) => (set_watched_startup (set_rt_registry r s) index w (Some d), Err RouterIo)
              end
          | (_, ReadReject) =>
              let (s, _) := report_startup (rt_registry r) (w_identity w)
                              (Err (bytes_of "malformed terminal startup status")) in
              (set_watched_startup (set_rt_registry r s) index w None, Ok tt)
          end
      end
  end.

Definition hung_up (f : poll_events) : bool := ev_hup f || ev_err f.

(** One index of [service_watched]. *)
Definition service_watched_at (r : RouterPoll) (index : nat) (f : poll_events) (streams : Z -> source) (clock : Z -> Z)
  : RouterPoll * result RouterError unit :=
  match (if ev_in f then service_startup r index streams else (r, Ok tt)) with
  | (r, Err e) => (r, Err e)
  | (r, Ok _) => if hung_up f then disconnect_watched r index clock else (r, Ok tt)
  end.

Definition no_events : poll_events := mkEvents false false false.

(** [service_watched] on the indices below [count], from the last. *)
Fixpoint service_watched (count : nat) (flags : list poll_events) (r : RouterPoll) (streams : Z -> source) (clock : Z -> Z)
  : RouterPoll * result RouterError unit :=
  match count with
  | O => (r, Ok tt)
  | S index =>
      match service_watched_at r index (unwrap_or no_events (flags !! index)) streams clock with
      | (r, Err e) => (r, Err e)
      | (r, Ok _) => service_watched index flags r streams clock
      end
  end.

(** ** Accepting and expiring *)

Inductive accept_answer :=
| Accepted (stream : Z) (peer : result io_kind PeerIdentity) (nonblocking : result io_kind unit) (now : Z)
| AcceptExhausted
| AcceptError (e : io_kind).

(** [accept_ready]; a listener whose answers are used up blocks. *)
Fixpoint accept_ready (r : RouterPoll) (answers : list accept_answer) : RouterPoll * result RouterError unit :=
  if (length (pending r) <? MAX_PENDING_REGISTRATIONS)%nat then
    match answers with
    | [] | AcceptError WouldBlock :: _ | AcceptExhausted :: _ => (r, Ok tt)
    | AcceptError Interrupted :: answers => accept_ready r answers
    | AcceptError _ :: _ => (r, Err RouterIo)
    | Accepted stream (Ok peer) (Ok _) now :: answers =>
        accept_ready (set_pending r (pending r ++ [mkPending stream registration_decoder now peer])) answers
    | Accepted _ _ _ _ :: _ => (r, Err RouterIo)
    end
  else (r, Ok tt).

Definition fresh_pending (now : Z) (c : PendingConnection) : bool :=
  Z.max 0 (now - pc_accepted c) <? REGISTRATION_TIMEOUT.

Definition expire_pending (r : RouterPoll) (now : Z) : RouterPoll :=
  let kept := List.filter (fresh_pending now) (pending r) in
  mkRouter (rt_registry r) kept (watched r)
    (rt_events r ++ repeat (Rejected Timeout) (length (pending r) - length kept)) (rt_lifecycle r).

Definition expiry (now : Z) (c : PendingConnection) : Z := Z.max 0 (pc_accepted c + REGISTRATION_TIMEOUT - now).

Definition min_expiry (now : Z) (l : list PendingConnection) : option Z :=
  match l with
  | [] => None
  | c :: l => Some (fold_left Z.min (map (expiry now) l) (expiry now c))
  end.

Definition idle_timeout (macos : bool) (l : list PendingConnection) (now : Z) : option Z :=
  let expiry := min_expiry now l in
  if macos then Some (match expiry with Some t => Z.min t (100 * 1000000) | None => 100 * 1000000 end) else expiry.

(** ** A turn *)

Definition descriptors (r : RouterPoll) : nat := 1 + length (pending r) + length (watched r).

(** The indices whose flags are set. *)
Fixpoint ready_from (i : nat) (flags : list poll_events) : list nat :=
  match flags with
  | [] => []
  | f :: flags => if ev_in f || hung_up f then i :: ready_from (S i) flags else ready_from (S i) flags
  end.

Definition ready_pending (flags : list poll_events) : list nat := rev (ready_from 0 flags).

Record service_env := mkServiceEnv {
  se_streams : Z -> source;
  se_probe : Z -> result io_kind Z;
  se_accept : list accept_answer;
  se_pending : Z -> pending_env;
  se_clock : Z -> Z
}.

(** [service] before its last loop. *)
Definition service_front (r : RouterPoll) (readiness : list poll_events) (env : service_env)
  : RouterPoll * result RouterError unit :=
  let flags := probe_all (drop (1 + length (pending r)) readiness) (watched r) (se_probe env) in
  match service_watched (length (watched r)) flags r (se_streams env) (se_clock env) with
  | (r, Err e) => (r, Err e)
  | (r, Ok _) =>
      if is_some_and ev_in (head readiness) then accept_ready r (se_accept env) else (r, Ok tt)
  end.

Definition router_service {codec : UserInfoCodec} (r : RouterPoll) (readiness : list poll_events) (env : service_env)
  : RouterPoll * result RouterError unit :=
  if (length readiness <? 1 + length (pending r))%nat then (r, Err RouterPanic)
  else
    let ready := ready_pending (take (length (pending r)) (drop 1 readiness)) in
    match service_front r readiness env with
    | (r, Err e) => (r, Err e)
    | (r, Ok _) => service_pendings r ready (se_streams env) (se_pending env)
    end.

(** ** Vectors *)

Lemma swap_remove_length {A} (l : list A) i : length (swap_remove l i) = (length l - 1)%nat.
Proof.
  unfold swap_remove. destruct (last l) eqn:E.
  - rewrite length_take, length_insert. lia.
  - apply last_None in E as ->. done.
Qed.

Lemma swap_remove_lookup {A} (l : list A) i j : (j < i < length l)%nat -> swap_remove l i !! j = l !! j.
Proof.
  intros H. unfold swap_remove. destruct (last l) eqn:E; [|done].
  rewrite lookup_take_lt by lia. by rewrite list_lookup_insert_ne by lia.
Qed.

Lemma swap_remove_perm {A} (l : list A) i x : l !! i = Some x -> x :: swap_remove l i ≡ₚ l.
Proof.
  intros Hx. pose proof (take_drop_middle _ _ _ Hx) as Hl. pose proof (lookup_lt_Some _ _ _ Hx) as Hi.
  assert (Hlen : length (take i l) = i) by (rewrite length_take; lia).
  revert Hl Hlen. generalize (take i l) (drop (S i) l). intros l1 l2 <- <-. unfold swap_remove.
  destruct l2 as [|y l2 _] using rev_ind.
  - rewrite last_snoc, length_app. cbn. rewrite insert_app_r_alt, Nat.sub_diag by lia. cbn.
    rewrite Nat.add_sub, take_app_length. apply Permutation_cons_append.
  - rewrite app_comm_cons, app_assoc, last_snoc, length_app. cbn [length]. rewrite Nat.add_sub.
    rewrite <-app_assoc, insert_app_r_alt, Nat.sub_diag by lia. cbn.
    rewrite app_comm_cons, app_assoc, take_app_length' by (rewrite !length_app; cbn; lia).
    rewrite (Permutation_app_comm l2 [y]). cbn. rewrite <-!Permutation_middle. done.
Qed.

(** ** The registrations are watched *)

Definition watched_ids (r : RouterPoll) : list Identity := map w_identity (watched r).

(** Whatever is registered is watched, by one watcher; a watcher's generation
    was allocated. *)
Record tracks (r : RouterPoll) : Prop := {
  tracks_inv : registry_inv (rt_registry r);
  tracks_all : forall i, registry_contains (rt_registry r) i = true -> i ∈ watched_ids r;
  tracks_once : NoDup (watched_ids r);
  tracks_old : forall i, i ∈ watched_ids r -> (i_generation i < next_generation (rt_registry r))%nat
}.

(** The registry loses entries or stays. *)
Definition shrinks (s s' : RegistryState) : Prop :=
  registry_inv s' /\ (next_generation s <= next_generation s')%nat /\
  forall i, registry_contains s' i = true -> registry_contains s i = true.

Lemma tracks_shrinks r r' :
  tracks r -> shrinks (rt_registry r) (rt_registry r') -> watched_ids r' = watched_ids r -> tracks r'.
Proof.
  intros [Hi Ha Ho Hg] (Hi' & Hn & Hs) E. split; rewrite ?E; auto. intros i Hin. specialize (Hg i Hin). lia.
Qed.

Lemma shrinks_refl s : registry_inv s -> shrinks s s.
Proof. intros H. split; [done|]. split; [done|auto]. Qed.

Lemma evolves_shrinks s s' :
  registry_evolves s s' -> next_generation s' = next_generation s -> shrinks s s'.
Proof.
  intros (Hi & Hn & Hc) E. split; [done|]. split; [lia|]. intros i H. destruct (Hc i H) as [|Hg]; [done|].
  apply contains_iff in H as (st & Hl & ->). apply Hi in Hl as [_ Hl]. cbn in Hg. lia.
Qed.

Lemma remove_shrinks s i now : registry_inv s -> shrinks s (fst (remove_if_current s i now)).
Proof.
  intros H. destruct (remove_if_current s i now) as [s' o] eqn:E. apply evolves_shrinks.
  - by eapply remove_if_current_evolves.
  - revert E. unfold remove_if_current. by destruct (current s i); intros [= <- _].
Qed.

Lemma report_startup_contains s i a s' o j :
  report_startup s i a = (s', o) -> registry_contains s' j = registry_contains s j.
Proof.
  unfold report_startup. destruct (current s i) as [st|] eqn:Hc; [|by intros [= <- _]].
  destruct (s_startup st); intros [= <- _]; try done. apply current_Some in Hc as [Hl _].
  unfold registry_contains, current. cbn. destruct (decide (i_id j = i_id i)) as [E|E].
  - rewrite E, lookup_insert_eq, Hl. cbn. by destruct (matches j (s_info st)).
  - by rewrite lookup_insert_ne by done.
Qed.

Lemma report_startup_shrinks s i a s' o : registry_inv s -> report_startup s i a = (s', o) -> shrinks s s'.
Proof.
  intros H E. apply evolves_shrinks; [by eapply report_startup_evolves|].
  revert E. unfold report_startup. destruct (current s i) as [st|]; [destruct (s_startup st)|]; by intros [= <- _].
Qed.

Lemma register_contains s info stream peer cloned closed now s' o i :
  register s info stream peer cloned closed now = (s', o) -> registry_contains s' i = true ->
  registry_contains s i = true \/ exists t, o = Ok t /\ i = t_identity t.
Proof.
  unfold register. destruct (validate info peer (next_generation s)) as [r|e]; [|intros [= <- _]; auto].
  destruct cloned; [|intros [= <- _]; auto]. cbn.
  assert (Hins : registry_contains (mkRegistry (<[r_id r := mkStored r stream (initial_startup r) now]> (registrations s))
      (removed s) (S (next_generation s))) i = true -> registry_contains s i = true \/ i = reg_identity r).
  { intros (st & Hl & Hi)%contains_iff. cbn in Hl. rewrite lookup_insert_Some in Hl.
    destruct Hl as [[_ <-]|[_ Hl]]; [by right|]. left. apply contains_iff. eauto. }
  destruct (registrations s !! r_id r); [destruct closed|]; intros [= <- <-]; try (by left);
    intros H; destruct (Hins H); eauto.
Qed.

Lemma register_generation s info stream peer cloned closed now s' t :
  register s info stream peer cloned closed now = (s', Ok t) ->
  i_generation (t_identity t) = next_generation s /\ next_generation s' = S (next_generation s).
Proof.
  unfold register. destruct (validate info peer (next_generation s)) as [r|e] eqn:Hv; [|done].
  apply validate_fields in Hv as (_ & _ & Hg & _). destruct cloned; [|done]. cbn.
  destruct (registrations s !! r_id r); [destruct closed|]; by intros [= <- <-].
Qed.

(** ** Hang-ups *)

(** The terminals below [count] that hung up, from the last. *)
Fixpoint hung_ids (count : nat) (flags : list poll_events) (ids : list Identity) : list Identity :=
  match count with
  | O => []
  | S k =>
      (if hung_up (unwrap_or no_events (flags !! k)) then option_list (ids !! k) else []) ++ hung_ids k flags ids
  end.

Lemma hung_ids_ext count flags ids ids' :
  (forall k, (k < count)%nat -> ids !! k = ids' !! k) -> hung_ids count flags ids = hung_ids count flags ids'.
Proof. induction count as [|k IH]; intros H; cbn; [done|]. rewrite (H k) by lia. f_equal. apply IH. auto. Qed.

Lemma hung_ids_in count flags ids i :
  i ∈ hung_ids count flags ids <->
  exists k, (k < count)%nat /\ ids !! k = Some i /\ hung_up (unwrap_or no_events (flags !! k)) = true.
Proof.
  induction count as [|n IH]; cbn.
  - split; [by intros ?%not_elem_of_nil|]. intros (k & Hk & _). lia.
  - rewrite elem_of_app, IH. split.
    + intros [H|(k & Hk & Hr)]; [|exists k; split; [lia|done]].
      destruct (hung_up _) eqn:Hh; [|by apply not_elem_of_nil in H].
      destruct (ids !! n) eqn:E; cbn in H; [|by apply not_elem_of_nil in H].
      apply list_elem_of_singleton in H as ->. exists n. split; [lia|done].
    + intros (k & Hk & Hl & Hh). destruct (decide (k = n)) as [->|]; [left|right; exists k; split; [lia|done]].
      rewrite Hh, Hl. cbn. by apply list_elem_of_singleton.
Qed.

(** What leaves the connections being read and the order of the watchers
    alone. *)
Lemma service_startup_spec r index streams r' o :
  registry_inv (rt_registry r) -> service_startup r index streams = (r', o) ->
  pending r' = pending r /\ watched_ids r' = watched_ids r /\ rt_lifecycle r' = rt_lifecycle r /\
  (forall i, registry_contains (rt_registry r') i = registry_contains (rt_registry r) i) /\
  shrinks (rt_registry r) (rt_registry r') /\ (o = Err RouterPanic -> watched r !! index = None).
Proof.
  intros Hinv. unfold service_startup. destruct (watched r !! index) as [w|] eqn:Hw.
  2: { intros [= <- <-]. split_and!; first [done|by apply shrinks_refl]. }
  assert (Hids : forall d, map w_identity (<[index := set_startup w d]> (watched r)) = watched_ids r).
  { intros d. unfold watched_ids.
    change (map w_identity) with (fmap (M := list) w_identity). rewrite list_fmap_insert. cbn.
    apply list_insert_id. by rewrite list_lookup_fmap, Hw. }
  destruct (w_startup w) as [d|]; [|intros [= <- <-]; split_and!; first [done|by apply shrinks_refl]].
  destruct (read_decoder d _) as [d' []].
  - intros [= <- <-]. split_and!; first [done|apply Hids|by apply shrinks_refl].
  - match goal with |- context [report_startup ?s ?i ?a] => destruct (report_startup s i a) as [s' [?|?]] eqn:E end;
    intros [= <- <-]; split_and!; first [done|apply Hids|by eapply report_startup_shrinks|intros j; by eapply report_startup_contains].
  - match goal with |- context [report_startup ?s ?i ?a] => destruct (report_startup s i a) as [s' o'] eqn:E end.
    intros [= <- <-]; split_and!; first [done|apply Hids|by eapply report_startup_shrinks|intros j; by eapply report_startup_contains].
Qed.

Definition drop_id (c : bool) (i : Identity) (l : list LifecycleEvent) : list LifecycleEvent :=
  l ++ (if c then [TerminalDisconnected i] else []).

Lemma disconnect_watched_spec r index clock w :
  registry_inv (rt_registry r) -> watched r !! index = Some w ->
  exists r', disconnect_watched r index clock = (r', Ok tt) /\
  pending r' = pending r /\ w_identity w :: watched_ids r' ≡ₚ watched_ids r /\
  (forall k, (k < index)%nat -> watched_ids r' !! k = watched_ids r !! k) /\
  length (watched r') = (length (watched r) - 1)%nat /\
  rt_lifecycle r' = drop_id (registry_contains (rt_registry r) (w_identity w)) (w_identity w) <$> rt_lifecycle r /\
  (forall i, registry_contains (rt_registry r') i =
     registry_contains (rt_registry r) i && negb (bool_decide (i = w_identity w))) /\
  shrinks (rt_registry r) (rt_registry r').
Proof.
  intros Hinv Hw. unfold disconnect_watched. rewrite Hw. cbn [rt_registry set_watched].
  pose proof (remove_shrinks _ (w_identity w) (clock (w_stream w)) Hinv) as Hs.
  destruct (remove_if_current _ _ _) as [s' o] eqn:E. cbn in Hs.
  destruct (remove_if_current_gone _ _ _ _ _ E) as (Hgone & Ho & Hothers).
  assert (Hc : forall i, registry_contains s' i =
    registry_contains (rt_registry r) i && negb (bool_decide (i = w_identity w))).
  { intros i. destruct (decide (i = w_identity w)) as [->|Hne].
    - by rewrite bool_decide_true, andb_false_r by done.
    - by rewrite bool_decide_false, andb_true_r, Hothers by done. }
  assert (Hp : w_identity w :: map w_identity (swap_remove (watched r) index) ≡ₚ watched_ids r).
  { unfold watched_ids. rewrite <-(swap_remove_perm _ _ _ Hw) at 2. done. }
  assert (Hk : forall k, (k < index)%nat -> map w_identity (swap_remove (watched r) index) !! k = watched_ids r !! k).
  { intros k Hk. unfold watched_ids. change (map w_identity) with (fmap (M := list) w_identity).
    rewrite !list_lookup_fmap, swap_remove_lookup; [done|]. split; [done|by eapply lookup_lt_Some]. }
  destruct o; eexists; (split; [reflexivity|]); rewrite <-?Ho; cbn; split_and!; try done;
    try apply swap_remove_length; unfold drop_id; destruct (rt_lifecycle r); cbn; by rewrite ?app_nil_r.
Qed.

Lemma service_watched_at_spec r index f streams clock r' o :
  registry_inv (rt_registry r) -> (index < length (watched r))%nat ->
  service_watched_at r index f streams clock = (r', o) ->
  pending r' = pending r /\ o <> Err RouterPanic /\ (o = Ok tt ->
    exists hung, hung = (if hung_up f then option_list (watched_ids r !! index) else []) /\
    hung ++ watched_ids r' ≡ₚ watched_ids r /\
    (forall k, (k < index)%nat -> watched_ids r' !! k = watched_ids r !! k) /\
    (index <= length (watched r'))%nat /\
    rt_lifecycle r' = (fun l => l ++ map TerminalDisconnected
      (List.filter (registry_contains (rt_registry r)) hung)) <$> rt_lifecycle r /\
    (forall i, registry_contains (rt_registry r') i =
       registry_contains (rt_registry r) i && negb (bool_decide (i ∈ hung))) /\
    shrinks (rt_registry r) (rt_registry r')).
Proof.
  intros Hinv Hlt. unfold service_watched_at.
  destruct (if ev_in f then _ else _) as [r1 o1] eqn:E1.
  assert (Hs : pending r1 = pending r /\ watched_ids r1 = watched_ids r /\ rt_lifecycle r1 = rt_lifecycle r /\
    (forall i, registry_contains (rt_registry r1) i = registry_contains (rt_registry r) i) /\
    shrinks (rt_registry r) (rt_registry r1) /\ o1 <> Err RouterPanic).
  { destruct (ev_in f); [|injection E1 as <- <-; split_and!; first [done|by apply shrinks_refl]].
    destruct (service_startup_spec _ _ _ _ _ Hinv E1) as (? & ? & ? & ? & ? & Hp). split_and!; try done.
    intros Ho. apply Hp, lookup_ge_None in Ho. lia. }
  destruct Hs as (Hp & Hids & Hl & Hc & Hsh & Hnp).
  assert (Hlen : length (watched r1) = length (watched r)).
  { apply (f_equal length) in Hids. unfold watched_ids in Hids. by rewrite !length_map in Hids. }
  destruct o1 as [[]|e]; [|by intros [= <- <-]].
  destruct (hung_up f) eqn:Hh.
  2: { intros [= <- <-]. split; [done|]. split; [done|]. intros _. exists []. cbn.
    split_and!; rewrite ?Hids; try done; [lia| |].
    - rewrite Hl. destruct (rt_lifecycle r); cbn; by rewrite ?app_nil_r.
    - intros i. rewrite Hc, bool_decide_false by apply not_elem_of_nil. by rewrite andb_true_r. }
  destruct (lookup_lt_is_Some_2 (watched r1) index) as [w Hw]; [lia|].
  destruct (disconnect_watched_spec r1 index clock w ltac:(apply Hsh) Hw)
    as (r2 & -> & Hp2 & Hperm & Hk & Hlen2 & Hl2 & Hc2 & Hs2).
  intros [= <- <-]. split; [congruence|]. split; [done|]. intros _. exists [w_identity w].
  assert (Hwi : watched_ids r !! index = Some (w_identity w)).
  { rewrite <-Hids. unfold watched_ids. change (map w_identity) with (fmap (M := list) w_identity).
    by rewrite list_lookup_fmap, Hw. }
  rewrite Hwi. split_and!; [done|by rewrite <-Hids|intros k ?; rewrite Hk, Hids by done; done|lia| | |].
  - rewrite Hl2, Hl, Hc. cbn [List.filter]. unfold drop_id. destruct (registry_contains (rt_registry r) (w_identity w)); reflexivity.
  - intros i. rewrite Hc2, Hc. f_equal. f_equal. apply bool_decide_ext. by rewrite list_elem_of_singleton.
  - destruct Hsh as (? & ? & ?), Hs2 as (? & ? & ?). split; [done|]. split; [lia|auto].
Qed.

Lemma filter_contains_ext (f g : Identity -> bool) l :
  (forall i, i ∈ l -> f i = g i) -> List.filter f l = List.filter g l.
Proof.
  induction l as [|x l IH]; intros H; cbn; [done|].
  rewrite (H x) by apply list_elem_of_here. rewrite IH; [done|]. intros i Hi. apply H. by apply list_elem_of_further.
Qed.

Lemma shrinks_trans s1 s2 s3 : shrinks s1 s2 -> shrinks s2 s3 -> shrinks s1 s3.
Proof. intros (? & ? & ?) (? & ? & ?). split; [done|]. split; [lia|auto]. Qed.

(** The loop over the watched terminals, as one step. *)
Lemma service_watched_spec count flags r streams clock r' o :
  registry_inv (rt_registry r) -> (count <= length (watched r))%nat ->
  service_watched count flags r streams clock = (r', o) ->
  pending r' = pending r /\ o <> Err RouterPanic /\ (o = Ok tt ->
    exists hung, hung = hung_ids count flags (watched_ids r) /\
    hung ++ watched_ids r' ≡ₚ watched_ids r /\
    (forall i, registry_contains (rt_registry r') i =
       registry_contains (rt_registry r) i && negb (bool_decide (i ∈ hung))) /\
    (NoDup (watched_ids r) -> rt_lifecycle r' = (fun l => l ++ map TerminalDisconnected
      (List.filter (registry_contains (rt_registry r)) hung)) <$> rt_lifecycle r) /\
    shrinks (rt_registry r) (rt_registry r')).
Proof.
  revert r. induction count as [|index IH]; intros r Hinv Hcount.
  { intros [= <- <-]. split; [done|]. split; [done|]. intros _. exists []. cbn. split_and!; try done.
    - intros i. rewrite bool_decide_false by apply not_elem_of_nil. by rewrite andb_true_r.
    - intros _. destruct (rt_lifecycle r); cbn; by rewrite ?app_nil_r. }
  cbn [service_watched]. destruct (service_watched_at r index _ streams clock) as [r1 o1] eqn:E1.
  destruct (service_watched_at_spec r index _ streams clock r1 o1 Hinv ltac:(lia) E1) as (Hp1 & Hn1 & H1).
  destruct o1 as [[]|e]; [|by intros [= <- <-]].
  destruct (H1 eq_refl) as (h1 & Eh & Hperm & Hk & Hlen & Hl & Hc & Hs).
  intros E. destruct (IH r1 ltac:(apply Hs) ltac:(lia) E) as (Hp2 & Hn2 & H2). split; [congruence|]. split; [done|].
  intros Ho. destruct (H2 Ho) as (h2 & Eh2 & Hperm2 & Hc2 & Hl2 & Hs2).
  exists (h1 ++ h2). rewrite (hung_ids_ext _ _ _ (watched_ids r) Hk) in Eh2.
  split_and!; [cbn; by rewrite Eh, Eh2|by rewrite <-app_assoc, Hperm2| | |by eapply shrinks_trans].
  - intros i. rewrite Hc2, Hc, <-andb_assoc, <-negb_orb, <-bool_decide_or. do 2 f_equal.
    apply bool_decide_ext. by rewrite elem_of_app.
  - intros Hnd. rewrite <-Hperm in Hnd. apply NoDup_app in Hnd as (_ & Hdis & Hnd1).
    rewrite (Hl2 Hnd1), Hl, List.filter_app, map_app.
    rewrite (filter_contains_ext (registry_contains (rt_registry r1)) (registry_contains (rt_registry r)) h2).
    + destruct (rt_lifecycle r); cbn; by rewrite ?app_assoc.
    + intros i Hi. rewrite Hc, bool_decide_false; [by rewrite andb_true_r|]. intros Hi1.
      apply (Hdis i Hi1). rewrite <-Hperm2. apply elem_of_app. by left.
Qed.

Lemma tracks_service_watched flags r streams clock r' :
  tracks r -> service_watched (length (watched r)) flags r streams clock = (r', Ok tt) -> tracks r'.
Proof.
  intros [Hi Ha Ho Hg] E. destruct (service_watched_spec (length (watched r)) _ r _ _ _ _ Hi ltac:(done) E) as (_ & _ & H).
  destruct (H eq_refl) as (hung & _ & Hperm & Hc & _ & Hs). split.
  - apply Hs.
  - intros i Hin. rewrite Hc, andb_true_iff, negb_true_iff, bool_decide_eq_false in Hin. destruct Hin as [Hin Hh].
    apply Ha in Hin. rewrite <-Hperm, elem_of_app in Hin. by destruct Hin.
  - rewrite <-Hperm in Ho. apply NoDup_app in Ho as (_ & _ & Ho). done.
  - intros i Hin. enough (i_generation i < next_generation (rt_registry r))%nat by (destruct Hs; lia).
    apply Hg. rewrite <-Hperm. apply elem_of_app. by right.
Qed.

(** ** Connections being read *)

(** How accepting leaves the router. *)
Definition accepted_into (r r' : RouterPoll) (o : result RouterError unit) : Prop :=
  o <> Err RouterPanic /\ (length (pending r') <= MAX_PENDING_REGISTRATIONS)%nat /\
  pending r `prefix_of` pending r' /\ rt_registry r' = rt_registry r /\ watched r' = watched r.

Lemma accepted_into_stop r e r' o :
  (length (pending r) <= MAX_PENDING_REGISTRATIONS)%nat -> e <> Err RouterPanic -> (r, e) = (r', o) ->
  accepted_into r r' o.
Proof. intros ?? [= <- <-]. by split_and!. Qed.

Lemma accept_ready_spec r answers r' o :
  (length (pending r) <= MAX_PENDING_REGISTRATIONS)%nat -> accept_ready r answers = (r', o) -> accepted_into r r' o.
Proof.
  revert r. induction answers as [|a answers IH]; intros r Hr; cbn [accept_ready];
    (destruct (Nat.ltb_spec (length (pending r)) MAX_PENDING_REGISTRATIONS); [|by apply accepted_into_stop]).
  { by apply accepted_into_stop. }
  destruct a as [stream [peer|] [[]|] now| |[]]; try (by apply accepted_into_stop); [|by apply IH].
  intros E. apply IH in E as (? & ? & Hpre & ? & ?); [|cbn; rewrite length_app; cbn; lia].
  split_and!; try done. etrans; [|exact Hpre]. by apply prefix_app_r.
Qed.

Section turns.
Context {codec : UserInfoCodec}.

(** What completing a registration leaves: nobody new, or the terminal that
    is handed back. *)
Lemma complete_registration_spec r c p env r' status o :
  registry_inv (rt_registry r) -> complete_registration r c p env = (r', status, o) ->
  pending r' = pending r /\ watched r' = watched r /\ o <> Err RouterPanic /\
  match o with
  | Ok (Some t) =>
      registry_inv (rt_registry r') /\ i_generation (t_identity t) = next_generation (rt_registry r) /\
      next_generation (rt_registry r') = S (next_generation (rt_registry r)) /\
      forall i, registry_contains (rt_registry r') i = true ->
        registry_contains (rt_registry r) i = true \/ i = t_identity t
  | _ => shrinks (rt_registry r) (rt_registry r')
  end.
Proof.
  intros Hinv. unfold complete_registration, process.
  destruct (pe_status env); [|intros [= <- _ <-]; split_and!; try done; by apply shrinks_refl].
  pose proof (shrinks_refl _ Hinv) as Hrefl.
  destruct (encrypted p); [intros [= <- _ <-]; by split_and!|].
  destruct (negb _); [intros [= <- _ <-]; by split_and!|].
  destruct (user_info_decode (payload p)) as [info|]; [|intros [= <- _ <-]; by split_and!].
  destruct (register _ _ _ _ _ _ _) as [s [t|e]] eqn:E;
    pose proof (register_evolves _ _ _ _ _ _ _ _ _ Hinv E) as Hev;
    pose proof (fun i => register_contains _ _ _ _ _ _ _ _ _ i E) as Hc.
  2: { intros [= <- _ <-]. split_and!; try done. destruct Hev as (? & ? & _). split_and!; try done.
    intros i Hi. destruct (Hc i Hi) as [|(? & Hx & _)]; [done|discriminate Hx]. }
  destruct (register_generation _ _ _ _ _ _ _ _ _ E) as [Hg Hn].
  assert (Hc' : forall i, registry_contains s i = true ->
    registry_contains (rt_registry r) i = true \/ i = t_identity t).
  { intros i Hi. destruct (Hc i Hi) as [|(t' & Hx & ->)]; [by left|right; congruence]. }
  destruct (t_startup_ack t); [destruct (pe_written env)|]; intros [= <- _ <-]; split_and!; try done; try apply Hev.
  cbn. destruct (remove_if_current s (t_identity t) (pe_rolled_back env)) as [s' b] eqn:Er. cbn.
  pose proof (remove_shrinks s (t_identity t) (pe_rolled_back env) ltac:(apply Hev)) as (Hi' & Hn' & Hs').
  rewrite Er in Hi', Hn', Hs'. cbn in *. apply remove_if_current_gone in Er as (Hgone & _).
  split_and!; [done|lia|]. intros i Hi. destruct (Hc' i (Hs' i Hi)) as [| ->]; [done|congruence].
Qed.

Lemma tracks_watch r r1 t :
  tracks r -> watched r1 = watched r -> registry_inv (rt_registry r1) ->
  i_generation (t_identity t) = next_generation (rt_registry r) ->
  next_generation (rt_registry r1) = S (next_generation (rt_registry r)) ->
  (forall i, registry_contains (rt_registry r1) i = true ->
    registry_contains (rt_registry r) i = true \/ i = t_identity t) ->
  tracks (set_watched r1 (watched r1 ++ [mkWatched (t_watcher t) (t_identity t) (startup_watch t)])).
Proof.
  intros [Hi Ha Ho Hg] Hw Hinv Hgen Hnext Hc.
  assert (E : watched_ids (set_watched r1 (watched r1 ++ [mkWatched (t_watcher t) (t_identity t) (startup_watch t)])) =
    watched_ids r ++ [t_identity t]).
  { unfold watched_ids. cbn. by rewrite map_app, Hw. }
  split; rewrite ?E; cbn; [done| | |].
  - intros i [H| ->]%Hc; rewrite elem_of_app; [left; auto|right; by apply list_elem_of_singleton].
  - apply NoDup_app. split; [done|]. split; [|apply NoDup_singleton].
    intros i Hin ->%list_elem_of_singleton. apply Hg in Hin. lia.
  - intros i. rewrite elem_of_app, list_elem_of_singleton. intros [H%Hg| ->]; lia.
Qed.

(** One connection: the ones below it stay where they are. *)
Lemma service_pending_spec r index streams envs r' o :
  tracks r -> service_pending r index streams envs = (r', o) ->
  (o = Ok tt -> tracks r') /\ (length (pending r') <= length (pending r))%nat /\
  (o = Err RouterPanic -> pending r !! index = None) /\
  (forall k, (k < index)%nat -> is_Some (pending r !! index) -> pending r' !! k = pending r !! k).
Proof.
  intros Ht. unfold service_pending. destruct (pending r !! index) as [c|] eqn:Hc.
  2: { intros [= <- <-]. by split_and!. }
  pose proof (lookup_lt_Some _ _ _ Hc) as Hlt.
  assert (Hswap : (length (swap_remove (pending r) index) <= length (pending r))%nat) by (rewrite swap_remove_length; lia).
  assert (Hk : forall k, (k < index)%nat -> is_Some (Some c) -> swap_remove (pending r) index !! k = pending r !! k).
  { intros k ? _. apply swap_remove_lookup. lia. }
  assert (Hsame : forall r1, rt_registry r1 = rt_registry r -> watched r1 = watched r -> tracks r1).
  { intros r1 E1 E2. eapply tracks_shrinks; [done|rewrite E1; apply shrinks_refl, Ht|unfold watched_ids; by rewrite E2]. }
  destruct (read_decoder _ _) as [d [|p|]].
  - intros [= <- <-]. split_and!; try done; [intros _; by apply Hsame|cbn; by rewrite length_insert|].
    intros k ? _. cbn. by rewrite list_lookup_insert_ne by lia.
  - destruct (complete_registration _ _ _ _) as [[r1 status] o1] eqn:E.
    apply complete_registration_spec in E as (Hp & Hw & Hn & Hreg); [|apply Ht]. cbn in Hp, Hw, Hreg.
    destruct o1 as [[t|]|e].
    + destruct (pe_nonblocking _); intros [= <- <-]; [|by rewrite Hp].
      split; [intros _|]. 2: { destruct (t_resumed t); cbn; by rewrite Hp. }
      enough (tracks (set_watched r1 (watched r1 ++ [mkWatched (t_watcher t) (t_identity t) (startup_watch t)]))) as Ht1.
      { eapply tracks_shrinks; [exact Ht1| |by destruct (t_resumed t)].
        destruct (t_resumed t); apply shrinks_refl, Ht1. }
      destruct Hreg as (? & ? & ? & ?). by apply (tracks_watch r).
    + intros [= <- <-]. rewrite Hp. split_and!; try done. intros _.
      eapply tracks_shrinks; [exact Ht|done|unfold watched_ids; by rewrite Hw].
    + intros [= <- <-]. rewrite Hp. split_and!; try done. by intros [= ->].
  - intros [= <- <-]. split_and!; try done. intros _. by apply Hsame.
Qed.

(** Indices from the last to the first. *)
Definition descending (l : list nat) : Prop :=
  forall l1 x l2 y, l = l1 ++ x :: l2 -> y ∈ l2 -> (y < x)%nat.

Lemma descending_tail x l : descending (x :: l) -> descending l /\ forall y, y ∈ l -> (y < x)%nat.
Proof.
  intros H. split; [|intros y; by apply (H [])]. intros l1 z l2 y ->. by apply (H (x :: l1) z l2 y).
Qed.

Lemma ready_from_bounds i flags k : k ∈ ready_from i flags -> (i <= k < i + length flags)%nat.
Proof.
  revert i. induction flags as [|f flags IH]; intros i; cbn; [by intros ?%not_elem_of_nil|].
  destruct (ev_in f || hung_up f); rewrite ?elem_of_cons; [intros [->|H%IH]|intros H%IH]; lia.
Qed.

Lemma ready_from_sorted i flags : StronglySorted lt (ready_from i flags).
Proof.
  revert i. induction flags as [|f flags IH]; intros i; cbn; [constructor|].
  destruct (ev_in f || hung_up f); [|done]. constructor; [done|].
  apply Forall_forall. intros k Hk%ready_from_bounds. lia.
Qed.

Lemma ready_pending_spec flags :
  descending (ready_pending flags) /\ forall k, k ∈ ready_pending flags -> (k < length flags)%nat.
Proof.
  unfold ready_pending. split.
  - intros l1 x l2 y E Hy. apply (f_equal (@rev nat)) in E. rewrite rev_involutive, rev_app_distr in E. cbn in E.
    pose proof (ready_from_sorted 0 flags) as Hs. rewrite E, <-app_assoc in Hs.
    apply (StronglySorted_app_1_elem_of lt (rev l2) ([x] ++ rev l1)); [done| |by apply list_elem_of_here].
    by apply list_elem_of_In, in_rev; rewrite rev_involutive; apply list_elem_of_In.
  - intros k Hk. apply list_elem_of_In, in_rev, list_elem_of_In, ready_from_bounds in Hk. lia.
Qed.

(** Each connection is serviced where it was when the loop began. *)
Lemma service_pendings_spec ready r streams envs r' o :
  tracks r -> descending ready -> (forall k, k ∈ ready -> (k < length (pending r))%nat) ->
  service_pendings r ready streams envs = (r', o) ->
  o <> Err RouterPanic /\ (length (pending r') <= length (pending r))%nat /\
  (o = Ok tt -> tracks r' /\ forall k, (forall x, x ∈ ready -> (k < x)%nat) -> pending r' !! k = pending r !! k).
Proof.
  revert r. induction ready as [|x ready IH]; intros r Ht Hd Hb; cbn [service_pendings].
  { intros [= <- <-]. by split_and!. }
  destruct (service_pending r x streams envs) as [r1 o1] eqn:E1.
  destruct (service_pending_spec _ _ _ _ _ _ Ht E1) as (Ht1 & Hlen & Hp & Hk).
  assert (Hx : (x < length (pending r))%nat) by (apply Hb, list_elem_of_here).
  apply lookup_lt_is_Some in Hx. apply descending_tail in Hd as [Hd Hlt].
  destruct o1 as [[]|e].
  2: { intros [= <- <-]. split_and!; try done. intros He. rewrite (Hp He) in Hx. by destruct Hx. }
  intros E. apply IH in E as (Ho & Hlen' & Hr); [|by apply Ht1|done|].
  2: { intros k Hin. apply lookup_lt_is_Some. rewrite Hk by auto. apply lookup_lt_is_Some, Hb. by apply list_elem_of_further. }
  split; [done|]. split; [lia|]. intros He. destruct (Hr He) as [Ht' Hk']. split; [done|].
  intros k Hall. rewrite Hk' by (intros; apply Hall; by apply list_elem_of_further).
  apply Hk; [|done]. apply Hall, list_elem_of_here.
Qed.

Lemma service_pendings_app ready1 ready2 r streams envs r' :
  service_pendings r (ready1 ++ ready2) streams envs = (r', Ok tt) ->
  exists r1, service_pendings r ready1 streams envs = (r1, Ok tt) /\
    service_pendings r1 ready2 streams envs = (r', Ok tt).
Proof.
  revert r. induction ready1 as [|x ready1 IH]; intros r; cbn; [by exists r|].
  destruct (service_pending r x streams envs) as [r1 [[]|]]; [apply IH|done].
Qed.

Lemma service_front_spec r readiness env r1 o :
  tracks r -> (length (pending r) <= MAX_PENDING_REGISTRATIONS)%nat -> service_front r readiness env = (r1, o) ->
  o <> Err RouterPanic /\ (length (pending r1) <= MAX_PENDING_REGISTRATIONS)%nat /\
  pending r `prefix_of` pending r1 /\ (o = Ok tt -> tracks r1).
Proof.
  intros Ht Hmax. unfold service_front. destruct (service_watched _ _ _ _ _) as [r2 o2] eqn:E.
  destruct (service_watched_spec (length (watched r)) _ r _ _ _ _ (tracks_inv _ Ht) ltac:(done) E) as (Hp & Hn & _).
  destruct o2 as [[]|e]; [|intros [= <- <-]; by rewrite Hp]. apply tracks_service_watched in E; [|done].
  destruct (is_some_and ev_in (head readiness)).
  2: { intros [= <- <-]. by rewrite Hp. }
  intros (Ho & Hlen & Hpre & Hreg & Hw)%accept_ready_spec; [|by rewrite Hp]. rewrite Hp in Hpre. split_and!; try done.
  intros _. eapply tracks_shrinks; [exact E|rewrite Hreg; apply shrinks_refl, E|unfold watched_ids; by rewrite Hw].
Qed.

(** What a turn finds ready. *)
Definition ready_of (r : RouterPoll) (readiness : list poll_events) : list nat :=
  ready_pending (take (length (pending r)) (drop 1 readiness)).

Lemma ready_of_bound r r1 readiness k :
  pending r `prefix_of` pending r1 -> k ∈ ready_of r readiness -> (k < length (pending r) <= length (pending r1))%nat.
Proof.
  intros Hpre%prefix_length Hk. apply ready_pending_spec in Hk. rewrite length_take in Hk. lia.
Qed.

Lemma router_service_spec r readiness env r' o :
  tracks r -> (length (pending r) <= MAX_PENDING_REGISTRATIONS)%nat ->
  (1 + length (pending r) <= length readiness)%nat -> router_service r readiness env = (r', o) ->
  o <> Err RouterPanic /\ (length (pending r') <= MAX_PENDING_REGISTRATIONS)%nat /\ (o = Ok tt -> tracks r').
Proof.
  intros Ht Hmax Hlen. unfold router_service. rewrite (proj2 (Nat.ltb_ge _ _) Hlen).
  destruct (service_front r readiness env) as [r1 o1] eqn:E1.
  apply service_front_spec in E1 as (Hn & Hm1 & Hpre & Ht1); [|done|done].
  destruct o1 as [[]|e]; [|by intros [= <- <-]].
  intros (Ho & Hl & Hr)%service_pendings_spec; [|by apply Ht1|apply ready_pending_spec|].
  2: { intros k Hk. apply (ready_of_bound r r1 readiness k Hpre) in Hk. lia. }
  split_and!; [done|lia|]. intros He. by apply Hr.
Qed.

(** ** The router among the other threads *)

(** A turn of the loop, its expiry, and what other threads do to the registry
    in between: remove a registration, forget old removals. They only take
    away, so a removal in the middle of a turn is one before or after it as
    far as these properties go. *)
Inductive router_step : RouterPoll -> RouterPoll -> Prop :=
| step_expire_pending r now : router_step r (expire_pending r now)
| step_router_service r readiness env r' :
    length readiness = descriptors r -> router_service r readiness env = (r', Ok tt) -> router_step r r'
| step_removed r i now : router_step r (set_rt_registry r (fst (remove_if_current (rt_registry r) i now)))
| step_pruned r id now : router_step r (set_rt_registry r (fst (was_removed (rt_registry r) id now))).

Definition router_reachable (r : RouterPoll) : Prop :=
  exists lifecycle, rtc router_step (router_new registry_new lifecycle) r.

Lemma filter_length_le {A} (f : A -> bool) l : (length (List.filter f l) <= length l)%nat.
Proof. induction l as [|x l IH]; cbn; [done|]. destruct (f x); cbn; lia. Qed.

Definition router_ok (r : RouterPoll) : Prop :=
  tracks r /\ (length (pending r) <= MAX_PENDING_REGISTRATIONS)%nat.

Lemma router_step_ok r r' : router_step r r' -> router_ok r -> router_ok r'.
Proof.
  intros [r0 now|r0 readiness env r1 Hl E|r0 i now|r0 id now] [Ht Hm].
  - split; [|cbn; etrans; [apply filter_length_le|done]].
    eapply tracks_shrinks; [exact Ht|apply shrinks_refl, Ht|done].
  - apply router_service_spec in E as (_ & Hm' & Ht'); [by split; [apply Ht'|]|done|done|].
    rewrite Hl. unfold descriptors. lia.
  - split; [|done]. eapply tracks_shrinks; [exact Ht|apply remove_shrinks, Ht|done].
  - split; [|done]. eapply tracks_shrinks; [exact Ht| |done].
    apply evolves_shrinks; [|done]. eapply was_removed_evolves; [apply Ht|apply surjective_pairing].
Qed.

Lemma router_reachable_ok r : router_reachable r -> router_ok r.
Proof.
  intros [lifecycle H]. cut (router_ok (router_new registry_new lifecycle)).
  { induction H as [|r1 r2 r3 Hs _ IH]; [done|]. intros Hok. by apply IH, (router_step_ok r1). }
  split; [|cbn; lia]. split; cbn.
  - intros id st Hl. cbn in Hl. by rewrite lookup_empty in Hl.
  - intros i (st & Hl & _)%contains_iff. cbn in Hl. by rewrite lookup_empty in Hl.
  - constructor.
  - by intros i ?%not_elem_of_nil.
Qed.
End turns.

Lemma fold_min_spec l t :
  fold_left Z.min l t <= t /\ (forall x, x ∈ l -> fold_left Z.min l t <= x) /\
  (fold_left Z.min l t = t \/ fold_left Z.min l t ∈ l).
Proof.
  revert t. induction l as [|y l IH]; intros t; cbn [fold_left].
  { split; [lia|]. split; [by intros x ?%not_elem_of_nil|by left]. }
  destruct (IH (Z.min t y)) as (Ht & Hl & Hin). split; [lia|]. split.
  - intros x [->|Hx]%elem_of_cons; [lia|auto].
  - rewrite elem_of_cons. destruct Hin as [Hin|Hin]; [|auto]. destruct (Z.min_spec t y) as [[? E]|[? E]]; rewrite E in *; auto.
Qed.

Lemma min_expiry_spec now l t :
  min_expiry now l = Some t -> (exists c, c ∈ l /\ t = expiry now c) /\ forall c, c ∈ l -> t <= expiry now c.
Proof.
  destruct l as [|c l]; [done|]. cbn. intros [= <-].
  destruct (fold_min_spec (map (expiry now) l) (expiry now c)) as (Ht & Hl & Hin). split.
  - destruct Hin as [Hin|Hin]; [exists c; split; [apply list_elem_of_here|done]|].
    apply list_elem_of_fmap in Hin as (c' & E & Hc). exists c'. split; [by apply list_elem_of_further|done].
  - intros c' [->|Hc]%elem_of_cons; [done|]. apply Hl, list_elem_of_fmap. by exists c'.
Qed.

Lemma filter_all {A} (f : A -> bool) l : (forall x, x ∈ l -> f x = true) -> List.filter f l = l.
Proof.
  induction l as [|x l IH]; intros H; cbn; [done|]. rewrite (H x) by apply list_elem_of_here.
  f_equal. apply IH. intros y Hy. apply H. by apply list_elem_of_further.
Qed.

(** ** Theorems *)

(** C29: Whatever the router, the terminals and the other threads do, every
    registration of the table is watched for hang-up by exactly one watcher,
    and at most [MAX_PENDING_REGISTRATIONS] connections are being read. *)
Theorem registrations_watched_once {codec : UserInfoCodec} r :
  router_reachable r ->
  (length (pending r) <= MAX_PENDING_REGISTRATIONS)%nat /\
  forall i, registry_contains (rt_registry r) i = true ->
    exists k, watched_ids r !! k = Some i /\ forall k', watched_ids r !! k' = Some i -> k' = k.
Proof.
  intros [Ht Hm]%router_reachable_ok. split; [done|]. intros i [k Hk]%(tracks_all r Ht)%list_elem_of_lookup.
  exists k. split; [done|]. intros k' Hk'. by eapply NoDup_lookup; [apply Ht| |].
Qed.

(** A turn on the readiness of the descriptors that were polled indexes no
    vector out of range, whatever is read, accepted, refused or hung up during
    the turn. *)
Theorem router_turn_never_panics {codec : UserInfoCodec} r readiness env :
  router_reachable r -> length readiness = descriptors r -> snd (router_service r readiness env) <> Err RouterPanic.
Proof.
  intros [Ht Hm]%router_reachable_ok Hl. destruct (router_service r readiness env) as [r' o] eqn:E.
  apply router_service_spec in E; [by apply E|done|done|]. rewrite Hl. unfold descriptors. lia.
Qed.

(** C30: The readiness of a connection reaches that connection: after hang-ups,
    new connections and the connections serviced before it, each of which may
    have reordered the vector, an index still holds what was polled under it. *)
Theorem readiness_addresses_polled {codec : UserInfoCodec} r readiness env r1 ready1 index ready2 r2 :
  router_reachable r ->
  service_front r readiness env = (r1, Ok tt) ->
  ready_of r readiness = ready1 ++ index :: ready2 ->
  service_pendings r1 ready1 (se_streams env) (se_pending env) = (r2, Ok tt) ->
  is_Some (pending r !! index) /\ pending r2 !! index = pending r !! index.
Proof.
  intros [Ht Hm]%router_reachable_ok E1 Er E2.
  apply service_front_spec in E1 as (_ & _ & Hpre & Ht1); [|done|done].
  destruct (ready_pending_spec (take (length (pending r)) (drop 1 readiness))) as [Hd _].
  change (ready_pending _) with (ready_of r readiness) in Hd.
  assert (Hb : forall k, k ∈ ready1 ++ [index] -> (k < length (pending r) <= length (pending r1))%nat).
  { intros k Hk. apply (ready_of_bound r r1 readiness k Hpre). rewrite Er.
    rewrite elem_of_app, elem_of_cons. apply elem_of_app in Hk as [|Hk%list_elem_of_singleton]; auto. }
  assert (Hi : (index < length (pending r))%nat) by (apply Hb, elem_of_app; right; by apply list_elem_of_singleton).
  split; [by apply lookup_lt_is_Some|].
  apply service_pendings_spec in E2 as (_ & _ & Hr); [|by apply Ht1| |].
  - destruct (Hr eq_refl) as [_ Hk]. rewrite Hk; [symmetry; by apply prefix_lookup_lt|].
    intros x [l1 [l2 ->]]%list_elem_of_split. apply (Hd l1 x (l2 ++ index :: ready2) index).
    + by rewrite Er, <-app_assoc.
    + apply elem_of_app. right. apply list_elem_of_here.
  - intros l1 x l2 y E Hy. apply (Hd l1 x (l2 ++ index :: ready2) y).
    + by rewrite Er, E, <-app_assoc.
    + apply elem_of_app. by left.
  - intros k Hk. enough (k < length (pending r) <= length (pending r1))%nat by lia. apply Hb, elem_of_app. by left.
Qed.

(** The loop over the watched terminals takes out of the table exactly the
    registrations whose socket hung up or failed, and tells the runtime of
    each of them once, and of no terminal that was no longer registered. *)
Theorem hangups_reported {codec : UserInfoCodec} r flags streams clock r' :
  router_reachable r ->
  service_watched (length (watched r)) flags r streams clock = (r', Ok tt) ->
  exists hung, NoDup hung /\
    (forall i, i ∈ hung <-> exists k, watched_ids r !! k = Some i /\ hung_up (unwrap_or no_events (flags !! k)) = true) /\
    (forall i, registry_contains (rt_registry r') i = registry_contains (rt_registry r) i && negb (bool_decide (i ∈ hung))) /\
    rt_lifecycle r' = (fun l => l ++ map TerminalDisconnected
      (List.filter (registry_contains (rt_registry r)) hung)) <$> rt_lifecycle r.
Proof.
  intros [Ht Hm]%router_reachable_ok E.
  destruct (service_watched_spec (length (watched r)) _ r _ _ _ _ (tracks_inv _ Ht) ltac:(done) E) as (_ & _ & H).
  destruct (H eq_refl) as (hung & -> & Hperm & Hc & Hl & _). eexists. split; [|split; [|split; [exact Hc|apply Hl, Ht]]].
  - pose proof (tracks_once _ Ht) as Hn. rewrite <-Hperm in Hn. by apply NoDup_app in Hn as (Hn & _).
  - intros i. rewrite hung_ids_in. split; intros (k & Hk); exists k; [by destruct Hk|].
    split; [|done]. destruct Hk as [Hk%lookup_lt_Some _]. unfold watched_ids in Hk. by rewrite length_map in Hk.
Qed.

(** Off macOS the router sleeps exactly until a connection expires: right
    after the expired ones are dropped the timeout is positive, dropping again
    before it has passed drops nobody, and once it has passed somebody is
    dropped. It sleeps without a timeout only with nothing to expire. *)
Theorem idle_timeout_exact r now :
  let r := expire_pending r now in
  match idle_timeout false (pending r) now with
  | None => pending r = []
  | Some t =>
      0 < t /\ (forall d, 0 <= d < t -> pending (expire_pending r (now + d)) = pending r) /\
      pending (expire_pending r (now + t)) <> pending r
  end.
Proof.
  cbn. set (kept := List.filter (fresh_pending now) (pending r)).
  assert (Hf : forall c, c ∈ kept -> fresh_pending now c = true).
  { intros c Hc%list_elem_of_In%filter_In. apply Hc. }
  destruct (min_expiry now kept) as [t|] eqn:E; [|by destruct kept].
  destruct (min_expiry_spec _ _ _ E) as [(c & Hc & ->) Hmin]. pose proof (Hf c Hc) as Hfc.
  unfold fresh_pending, expiry in *. rewrite Z.ltb_lt in Hfc. unfold REGISTRATION_TIMEOUT, secs in *.
  split; [lia|]. split.
  - intros d Hd. apply filter_all. intros x Hx. specialize (Hmin x Hx). apply Z.ltb_lt. lia.
  - intros Eq. rewrite <-Eq in Hc. apply list_elem_of_In, filter_In in Hc as [_ Hc%Z.ltb_lt]. lia.
Qed.

(** ** Witnesses *)

(** Two connections; the second sends the registration of [demo_info], the
    first nothing. Then the registered terminal hangs up. *)
#[local] Instance demo_user_info : UserInfoCodec := {| user_info_decode bytes := match bytes with [x2a] => Some demo_info | _ => None end |}.

Definition demo_frame : list byte := ne_bytes 3 ++ [x00; TERMINAL_USER_INFO; x2a].
Definition demo_streams (stream : Z) : source :=
  if stream =? 8 then mkSource demo_frame [Give 100; Give 100; Give 100; Give 100] else mkSource [] [WouldBlockTurn].
Definition demo_turn (answers : list accept_answer) (probe : result io_kind Z) : service_env :=
  mkServiceEnv demo_streams (fun _ => probe) answers
    (fun _ => mkPendingEnv (Ok tt) (Ok tt) false 0 (Ok tt) 0 (Ok tt)) (fun _ => 1).

Definition demo_accepted : service_env :=
  demo_turn [Accepted 7 (Ok (mkPeer 501 20)) (Ok tt) 0; AcceptError Interrupted; Accepted 8 (Ok (mkPeer 501 20)) (Ok tt) 0] (Ok 1).
Definition demo_in : poll_events := mkEvents true false false.
Definition demo_router0 : RouterPoll := router_new registry_new true.
Definition demo_router1 : RouterPoll := fst (router_service demo_router0 [demo_in] demo_accepted).
Definition demo_read : service_env := demo_turn [] (Err WouldBlock).
Definition demo_readiness : list poll_events := [no_events; demo_in; demo_in].
Definition demo_router2 : RouterPoll := fst (router_service demo_router1 demo_readiness demo_read).
Definition demo_identity : Identity := mkIdentity (repeat "a"%byte 16) 0.

Lemma demo_turn1 : router_service demo_router0 [demo_in] demo_accepted = (demo_router1, Ok tt).
Proof. vm_compute. reflexivity. Qed.
Lemma demo_turn2 : router_service demo_router1 demo_readiness demo_read = (demo_router2, Ok tt).
Proof. vm_compute. reflexivity. Qed.

Lemma demo_reachable1 : router_reachable demo_router1.
Proof. exists true. eapply rtc_once, step_router_service; [|exact demo_turn1]. reflexivity. Qed.
Lemma demo_reachable2 : router_reachable demo_router2.
Proof.
  destruct demo_reachable1 as [b H]. exists b. eapply rtc_r; [exact H|].
  eapply step_router_service; [|exact demo_turn2]. vm_compute. reflexivity.
Qed.

Lemma registrations_watched_once_witness :
  registry_contains (rt_registry demo_router2) demo_identity = true /\
  exists k, watched_ids demo_router2 !! k = Some demo_identity.
Proof.
  assert (H : registry_contains (rt_registry demo_router2) demo_identity = true) by (vm_compute; reflexivity).
  split; [exact H|].
  destruct (proj2 (registrations_watched_once demo_router2 demo_reachable2) demo_identity H) as (k & Hk & _). by exists k.
Defined.

Lemma router_turn_never_panics_witness :
  length demo_readiness = descriptors demo_router1 /\ snd (router_service demo_router1 demo_readiness demo_read) <> Err RouterPanic.
Proof.
  assert (H : length demo_readiness = descriptors demo_router1) by (vm_compute; reflexivity).
  split; [exact H|]. exact (router_turn_never_panics demo_router1 demo_readiness demo_read demo_reachable1 H).
Defined.

(** The second connection registers and leaves; the first is where it was. *)
Definition demo_front : RouterPoll := fst (service_front demo_router1 demo_readiness demo_read).
Definition demo_after : RouterPoll := fst (service_pendings demo_front [1%nat] (se_streams demo_read) (se_pending demo_read)).

Lemma demo_front_ok : service_front demo_router1 demo_readiness demo_read = (demo_front, Ok tt).
Proof. vm_compute. reflexivity. Qed.
Lemma demo_after_ok :
  service_pendings demo_front [1%nat] (se_streams demo_read) (se_pending demo_read) = (demo_after, Ok tt).
Proof. vm_compute. reflexivity. Qed.

Lemma readiness_addresses_polled_witness :
  ready_of demo_router1 demo_readiness = [1; 0]%nat /\ pending demo_after !! 0%nat = pending demo_router1 !! 0%nat.
Proof.
  assert (H : ready_of demo_router1 demo_readiness = [1; 0]%nat) by (vm_compute; reflexivity).
  split; [exact H|].
  exact (proj2 (readiness_addresses_polled demo_router1 demo_readiness demo_read demo_front [1%nat] 0 [] demo_after
    demo_reachable1 demo_front_ok H demo_after_ok)).
Defined.

Definition demo_hup : list poll_events := [mkEvents false true false].
Definition demo_gone : RouterPoll := fst (service_watched 1 demo_hup demo_router2 demo_streams (fun _ => 2)).
Lemma demo_gone_ok : service_watched (length (watched demo_router2)) demo_hup demo_router2 demo_streams (fun _ => 2) = (demo_gone, Ok tt).
Proof. vm_compute. reflexivity. Qed.

Lemma hangups_reported_witness :
  rt_lifecycle demo_gone = Some [TerminalDisconnected demo_identity] /\
  exists hung, NoDup hung /\
    (forall i, registry_contains (rt_registry demo_gone) i =
      registry_contains (rt_registry demo_router2) i && negb (bool_decide (i ∈ hung))).
Proof.
  split; [vm_compute; reflexivity|].
  destruct (hangups_reported demo_router2 demo_hup demo_streams (fun _ => 2) demo_gone demo_reachable2 demo_gone_ok)
    as (hung & Hn & _ & Hc & _). by exists hung.
Defined.
