(* ===== verification/Handshake.v ===== *)
(** * Handshake: [crates/et-net/src/handshake.rs], and the plaintext part of
    [handle] in [crates/et-server/src/runtime_handler.rs]

    The connect handshake: request, challenge, proof, decision. Both ends are
    programs of [Exchange]. What the server learns from its registry, its
    session table, its clock and its random source on the way is one record
    of answers. Deadlines end a program by failing it. *)

From Stdlib Require Import String.
From S2P Require Import Prelude Bytes Framing FramingIo Crypto Keys Packet Exchange Connection Recovery Wire LocalPacket Registry SessionTable.

(** ** Messages of [ET.proto] *)

Record ConnectRequest := mkRequest {
  client_id : option (list byte);
  version : option Z;
  q_reset_intent : option bool;
  q_supports_challenge : option bool
}.

Record ConnectResponse := mkResponse {
  status : option Z;
  error : option (list byte);
  auth_challenge : option (list byte);
  reset_required : option bool;
  reset_proof : option (list byte);
  p_reset_salt : option (list byte)
}.

(** The single field of [ConnectAuth]. *)
Record ConnectAuth := mkAuth { proof : option (list byte) }.

Inductive ConnectStatus := NewClient | ReturningClient | InvalidKey | MismatchedProtocol | RetryLater.

Definition status_value (s : ConnectStatus) : Z :=
  match s with
  | NewClient => 1
  | ReturningClient => 2
  | InvalidKey => 3
  | MismatchedProtocol => 4
  | RetryLater => 5
  end.

Definition PROTOCOL_VERSION : Z := 6.

Class HandshakeCodec := {
  request_encode : ConnectRequest -> list byte;
  request_decode : list byte -> option ConnectRequest;
  response_encode : ConnectResponse -> list byte;
  response_decode : list byte -> option ConnectResponse;
  auth_encode : ConnectAuth -> list byte;
  auth_decode : list byte -> option ConnectAuth
}.

Definition bytes_size (o : option (list byte)) : Z := match o with Some b => zlen b | None => 0 end.
Definition int_ok (o : option Z) : Prop := match o with Some z => 0 <= z <= i32_max | None => True end.

Definition response_bytes (r : ConnectResponse) : Z :=
  bytes_size (error r) + bytes_size (auth_challenge r) + bytes_size (reset_proof r) + bytes_size (p_reset_salt r).

(** What the code relies on: decoding inverts encoding, and a field takes at
    most eleven bytes besides its content. *)
Class HandshakeCodecLaws (codec : HandshakeCodec) : Prop := {
  request_roundtrip r :
    int_ok (version r) -> bytes_size (client_id r) <= i64_max -> request_decode (request_encode r) = Some r;
  request_size r : zlen (request_encode r) <= 44 + bytes_size (client_id r);
  response_roundtrip r :
    int_ok (status r) -> response_bytes r <= i64_max -> response_decode (response_encode r) = Some r;
  response_size r : zlen (response_encode r) <= 66 + response_bytes r;
  auth_roundtrip a : bytes_size (proof a) <= i64_max -> auth_decode (auth_encode a) = Some a;
  auth_size a : zlen (auth_encode a) <= 11 + bytes_size (proof a)
}.

(** ** Requests and responses *)

(** [client_request]: the legacy request. *)
Definition client_request (id : list byte) : ConnectRequest :=
  mkRequest (Some id) (Some PROTOCOL_VERSION) None None.

Definition client_request_challenge (id : list byte) (reset_intent : bool) : ConnectRequest :=
  mkRequest (Some id) (Some PROTOCOL_VERSION) (if reset_intent then Some true else None) (Some true).

Definition supports_challenge (r : ConnectRequest) : bool := unwrap_or false (q_supports_challenge r).

Definition reset_intent (r : ConnectRequest) : bool :=
  supports_challenge r && unwrap_or false (q_reset_intent r).

Definition protocol_matches (r : ConnectRequest) : bool := bool_decide (version r = Some PROTOCOL_VERSION).

Definition response_status (s : ConnectStatus) : ConnectResponse :=
  mkResponse (Some (status_value s)) None None None None None.

(** [status.unwrap_or_default()] *)
Definition status_or_default (r : ConnectResponse) : Z := unwrap_or 0 (status r).

(** [NewClient] or [ReturningClient]. *)
Definition accepted_status (s : Z) : bool :=
  (s =? status_value NewClient) || (s =? status_value ReturningClient).

(** ** Programs *)

Definition hs_write {A} (max_len : Z) (encoded : list byte) (k : prog io_kind A) : prog io_kind A :=
  match write_proto_limited max_len encoded with
  | Ok bytes => WriteMsg bytes k
  | Err e => Done (Err e)
  end.

(** [read_proto_limited_deadline]: a body that does not decode is
    [InvalidData]. *)
Definition hs_read {A M} (decode : list byte -> option M) (k : result io_kind M -> prog io_kind A) : prog io_kind A :=
  ReadMsg MAX_HANDSHAKE_PROTO_LEN (fun r =>
    match r with
    | Err e => k (Err e)
    | Ok body => match decode body with Some m => k (Ok m) | None => k (Err InvalidData) end
    end).

Section client.
Context {codec : HandshakeCodec} {sodium : Sodium}.

(** The checks on the final response. *)
Definition check_decision (key id challenge : list byte) (response : ConnectResponse) : result io_kind ConnectResponse :=
  let status := status_or_default response in
  if accepted_status status then
    let required := unwrap_or false (reset_required response) in
    let salt := unwrap_or [] (p_reset_salt response) in
    if required && negb (zlen salt =? EPOCH_SALT_BYTES) then Err InvalidData
    else if negb (is_some_and (fun proof =>
              verify_reset_decision_proof proof key id PROTOCOL_VERSION challenge status required salt)
              (reset_proof response))
    then Err InvalidData
    else Ok response
  else Ok response.

(** The response of a server without the challenge, stripped of what it could
    not prove. *)
Definition legacy_response (first : ConnectResponse) : ConnectResponse :=
  mkResponse (status first) (error first) (auth_challenge first) None None None.

Definition on_decision (id key challenge : list byte) (response : result io_kind ConnectResponse)
  : prog io_kind ConnectResponse :=
  match response with
  | Err e => Done (Err e)
  | Ok response => Done (check_decision key id challenge response)
  end.

Definition on_first (id key : list byte) (wants_reset : bool) (first : result io_kind ConnectResponse)
  : prog io_kind ConnectResponse :=
  match first with
  | Err e => Done (Err e)
  | Ok first =>
      match auth_challenge first with
      | None =>
          if wants_reset && accepted_status (status_or_default first) then Done (Err InvalidData)
          else Done (Ok (legacy_response first))
      | Some challenge =>
          if negb (zlen challenge =? AUTH_CHALLENGE_BYTES) then Done (Err InvalidData)
          else
            match connection_proof key id PROTOCOL_VERSION challenge wants_reset with
            | Err _ => Done (Err InvalidData)
            | Ok proof =>
                hs_write MAX_HANDSHAKE_PROTO_LEN (auth_encode (mkAuth (Some proof)))
                  (hs_read response_decode (on_decision id key challenge))
            end
      end
  end.

(** From the first read on. *)
Definition client_rest (id key : list byte) (wants_reset : bool) : prog io_kind ConnectResponse :=
  hs_read response_decode (on_first id key wants_reset).

Definition client_handshake (id key : list byte) (wants_reset : bool) : prog io_kind ConnectResponse :=
  hs_write MAX_HANDSHAKE_PROTO_LEN (request_encode (client_request_challenge id wants_reset))
    (client_rest id key wants_reset).
End client.

(** ** The server *)

(** What the server finds on its way through [handle]. *)
Record HandshakeView := mkView {
  (** The deadline is not over and the socket timeouts can be set. *)
  v_in_time : bool;
  (** [registry.get], before and after the authentication. *)
  v_registered : option Registration;
  v_current : option Registration;
  (** The server is young and has not removed the id. *)
  v_grace : bool;
  (** [random_bytes] *)
  v_challenge : list byte;
  v_salt : list byte;
  (** [guard.assign] and [registry.contains]. *)
  v_assigned : bool;
  v_contained : bool;
  (** [sessions.state] and [sessions.claim]. *)
  v_state : option SessionState;
  v_claim : result SessionTableError SessionClaim;
  (** [try_begin_recover] and [own_session]. *)
  v_permit : bool
}.

Inductive ServerOutcome :=
| Rejected (s : ConnectStatus)
| Dropped
| Accepted (s : ConnectStatus) (salt : option (list byte)) (legacy : bool).

Definition valid_id (id : list byte) : bool := (zlen id =? 16) && forallb is_ascii_alphanumeric id.

Section server.
Context {codec : HandshakeCodec} {sodium : Sodium}.

(** [write_response], ignoring its failure. *)
Definition reject (s : ConnectStatus) (message : list byte) : prog io_kind ServerOutcome :=
  match write_proto_limited MAX_PROTO_LEN
          (response_encode (mkResponse (Some (status_value s)) (Some message) None None None None)) with
  | Ok bytes => WriteMsg bytes (Done (Ok (Rejected s)))
  | Err _ => Done (Ok (Rejected s))
  end.

(** The response of [send_decision]; [decision] holds the challenge and the
    key when the client was challenged. *)
Definition decision_response (s : ConnectStatus) (decision : option (list byte * list byte)) (id : list byte)
    (required : bool) (salt : list byte) : result ProofError ConnectResponse :=
  match decision with
  | None => Ok (mkResponse (Some (status_value s)) None None None None None)
  | Some (challenge, key) =>
      let? proof := reset_decision_proof key id PROTOCOL_VERSION challenge (status_value s) required salt in
      Ok (mkResponse (Some (status_value s)) None None (Some required) (Some proof)
            (match salt with [] => None | _ => Some salt end))
  end.

(** [send_decision], then what follows; a failure drops the connection. *)
Definition send_decision (s : ConnectStatus) (decision : option (list byte * list byte)) (id : list byte)
    (required : bool) (salt : list byte) (o : ServerOutcome) : prog io_kind ServerOutcome :=
  match decision_response s decision id required salt with
  | Err _ => Done (Ok Dropped)
  | Ok response =>
      match write_proto_limited MAX_PROTO_LEN (response_encode response) with
      | Ok bytes => WriteMsg bytes (Done (Ok o))
      | Err _ => Done (Ok Dropped)
      end
  end.

(** [handle] once the client is authenticated, or legacy. *)
Definition classify (v : HandshakeView) (registration : Registration) (id : list byte) (legacy wants_reset : bool)
    (decision : option (list byte * list byte)) : prog io_kind ServerOutcome :=
  if negb (v_assigned v) then Done (Ok Dropped)
  else if negb (v_contained v) then Done (Ok Dropped)
  else
    match v_state v with
    | Some SActive =>
        match v_claim v with
        | Err ObsoleteRegistration => reject InvalidKey (bytes_of "client registration disconnected")
        | Err _ => Done (Ok Dropped)
        | Ok (ClaimNew _ _) => Done (Ok Dropped)
        | Ok (ClaimReturning _) =>
            if negb (v_permit v) then Done (Ok Dropped)
            else
              let reset_salt := if wants_reset then Some (v_salt v) else None in
              send_decision ReturningClient decision id wants_reset (unwrap_or [] reset_salt)
                (Accepted ReturningClient reset_salt legacy)
        end
    | _ =>
        if pty_active registration then
          if legacy then reject InvalidKey (bytes_of "Client is not registered")
          else send_decision ReturningClient decision id true (v_salt v) (Accepted ReturningClient (Some (v_salt v)) legacy)
        else send_decision NewClient decision id false [] (Accepted NewClient None legacy)
    end.

(** The answer to the challenge, and the second look at the registry. *)
Definition on_auth (v : HandshakeView) (registration : Registration) (id : list byte) (wants_reset : bool)
    (auth : result io_kind ConnectAuth) : prog io_kind ServerOutcome :=
  match auth with
  | Err _ => Done (Ok Dropped)
  | Ok auth =>
      let proof := unwrap_or [] (proof auth) in
      if negb (verify_connection_proof proof (r_key registration) id PROTOCOL_VERSION (v_challenge v) wants_reset)
      then reject InvalidKey (bytes_of "Client authentication failed")
      else
        match v_current v with
        | None => reject InvalidKey (bytes_of "client is not registered")
        | Some current =>
            if bool_decide (r_key current = r_key registration)
            then classify v current id false wants_reset (Some (v_challenge v, r_key current))
            else reject InvalidKey (bytes_of "Client authentication failed")
        end
  end.

Definition authenticate_client (v : HandshakeView) (registration : Registration) (id : list byte) (wants_reset : bool)
  : prog io_kind ServerOutcome :=
  match write_proto_limited MAX_PROTO_LEN
          (response_encode (mkResponse None None (Some (v_challenge v)) None None None)) with
  | Err _ => Done (Ok Dropped)
  | Ok bytes => WriteMsg bytes (hs_read auth_decode (on_auth v registration id wants_reset))
  end.

Definition handle (v : HandshakeView) : prog io_kind ServerOutcome :=
  hs_read request_decode (fun request =>
    match request with
    | Err _ => reject InvalidKey (bytes_of "malformed ConnectRequest")
    | Ok request =>
        if negb (protocol_matches request)
        then reject MismatchedProtocol (bytes_of "protocol version does not match server version 6")
        else if negb (v_in_time v) then Done (Ok Dropped)
        else
          let legacy := negb (supports_challenge request) in
          let wants_reset := reset_intent request in
          match client_id request with
          | Some id =>
              if negb (valid_id id) then reject InvalidKey (bytes_of "invalid client id")
              else
                match v_registered v with
                | None =>
                    reject (if negb legacy && v_grace v then RetryLater else InvalidKey)
                      (bytes_of "client is not registered")
                | Some registration =>
                    if legacy then classify v registration id true wants_reset None
                    else authenticate_client v registration id wants_reset
                end
          | None => reject InvalidKey (bytes_of "invalid client id")
          end
    end).
End server.

(** ** What a program does on a stream *)

Definition decoded {M} (decode : list byte -> option M) (r : result io_kind (list byte)) : result io_kind M :=
  match r with
  | Err e => Err e
  | Ok body => match decode body with Some m => Ok m | None => Err InvalidData end
  end.

Lemma outcome_hs_read {A M} (decode : list byte -> option M) (k : result io_kind M -> prog io_kind A) input :
  outcome (hs_read decode k) input =
  match split_frame MAX_HANDSHAKE_PROTO_LEN input with
  | None => ([], None)
  | Some (r, rest) => outcome (k (decoded decode r)) rest
  end.
Proof.
  cbn. destruct (split_frame _ input) as [[r rest]|]; [|done]. destruct r as [b|e]; cbn; [|done].
  by destruct (decode b).
Qed.

Lemma outcome_write {A} bytes (k : prog io_kind A) input out r :
  outcome (WriteMsg bytes k) input = (out, r) -> exists out', outcome k input = (out', r) /\ out = bytes ++ out'.
Proof. cbn. destruct (outcome k input) as [o x]. intros [= <- <-]. eauto. Qed.

Section streams.
Context {codec : HandshakeCodec} {sodium : Sodium}.

Lemma reject_outcome s m input out r :
  outcome (reject s m) input = (out, Some (Ok r)) -> r = Rejected s.
Proof. unfold reject. case_match; cbn; intros; by simplify_eq. Qed.

Lemma send_decision_outcome s d id q salt o input out r :
  outcome (send_decision s d id q salt o) input = (out, Some (Ok r)) ->
  r = Dropped \/
  r = o /\ exists response bytes, decision_response s d id q salt = Ok response /\
    write_proto_limited MAX_PROTO_LEN (response_encode response) = Ok bytes /\ out = bytes.
Proof.
  unfold send_decision. destruct (decision_response s d id q salt) as [response|]; [|intros; simplify_eq/=; by left].
  destruct (write_proto_limited _ _) as [bytes|] eqn:E; cbn; intros; simplify_eq; [right|by left].
  split; [done|]. exists response, bytes. by rewrite app_nil_r.
Qed.

(** Who is let in, and what it is told. *)
Lemma classify_outcome v reg id legacy wr d input out st salt l :
  outcome (classify v reg id legacy wr d) input = (out, Some (Ok (Accepted st salt l))) ->
  l = legacy /\ (legacy = true -> wr = false -> salt = None) /\
  exists response bytes, decision_response st d id (match salt with Some _ => true | None => false end) (unwrap_or [] salt) = Ok response /\
    write_proto_limited MAX_PROTO_LEN (response_encode response) = Ok bytes /\ out = bytes.
Proof.
  unfold classify. destruct (v_assigned v); [cbn|by intros; simplify_eq/=].
  destruct (v_contained v); [cbn|by intros; simplify_eq/=].
  assert (Hother : outcome (if pty_active reg then
      if legacy then reject InvalidKey (bytes_of "Client is not registered")
      else send_decision ReturningClient d id true (v_salt v) (Accepted ReturningClient (Some (v_salt v)) legacy)
    else send_decision NewClient d id false [] (Accepted NewClient None legacy)) input = (out, Some (Ok (Accepted st salt l))) ->
    l = legacy /\ (legacy = true -> wr = false -> salt = None) /\
    exists response bytes, decision_response st d id (match salt with Some _ => true | None => false end) (unwrap_or [] salt) = Ok response /\
      write_proto_limited MAX_PROTO_LEN (response_encode response) = Ok bytes /\ out = bytes).
  { destruct (pty_active reg); [destruct legacy|].
    - by intros ?%reject_outcome.
    - intros [|[[= -> -> ->] H]]%send_decision_outcome; [done|]. by split_and!.
    - intros [|[[= -> -> ->] H]]%send_decision_outcome; [done|]. by split_and!. }
  destruct (v_state v) as [[]|]; [exact Hother|exact Hother| |exact Hother].
  destruct (v_claim v) as [[start rep|session]|[]]; try (by intros; simplify_eq/=); [|by intros ?%reject_outcome].
  destruct (v_permit v); [cbn|by intros; simplify_eq/=].
  destruct wr; cbn; intros [|[[= -> -> ->] H]]%send_decision_outcome; try done; by split_and!.
Qed.
End streams.

(** ** Theorems *)

(** C6: Whatever bytes arrive, the server lets a client in after a challenge only
    if the second message carries the keyed hash of the client's id, the
    protocol version, this connection's challenge and the requested reset,
    under the key of the registration that is current; a client that did not
    offer the challenge is let in as such, and is never given a reset. *)
Theorem server_accepts_only_with_proof {codec : HandshakeCodec} {sodium : Sodium} {laws : SodiumLaws sodium}
    v input out st salt legacy :
  outcome (handle v) input = (out, Some (Ok (Accepted st salt legacy))) ->
  exists body rest request id reg,
    split_frame MAX_HANDSHAKE_PROTO_LEN input = Some (Ok body, rest) /\ request_decode body = Some request /\
    version request = Some PROTOCOL_VERSION /\ client_id request = Some id /\ valid_id id = true /\
    v_registered v = Some reg /\ legacy = negb (supports_challenge request) /\
    if legacy then salt = None
    else exists auth_body rest' auth cur proof_bytes,
      split_frame MAX_HANDSHAKE_PROTO_LEN rest = Some (Ok auth_body, rest') /\ auth_decode auth_body = Some auth /\
      v_current v = Some cur /\ proof auth = Some proof_bytes /\
      connection_proof (r_key cur) id PROTOCOL_VERSION (v_challenge v) (reset_intent request) = Ok proof_bytes.
Proof.
  unfold handle. rewrite outcome_hs_read.
  destruct (split_frame _ input) as [[r rest]|]; [|by intros; simplify_eq/=].
  destruct r as [body|e]; cbn [decoded]; [|by intros ?%reject_outcome].
  destruct (request_decode body) as [request|] eqn:Hreq; [|by intros ?%reject_outcome].
  destruct (protocol_matches request) eqn:Hv; cbn [negb]; [|by intros ?%reject_outcome].
  apply bool_decide_eq_true in Hv. destruct (v_in_time v); cbn [negb]; [|by intros; simplify_eq/=].
  destruct (client_id request) as [id|] eqn:Hid; [|by intros ?%reject_outcome].
  destruct (valid_id id) eqn:Hvalid; cbn [negb]; [|by intros ?%reject_outcome].
  destruct (v_registered v) as [reg|] eqn:Hreg; [|by intros ?%reject_outcome].
  intros Ho. exists body, rest, request, id, reg. do 6 (split; [done|]). revert Ho.
  destruct (supports_challenge request) eqn:Hs; cbn [negb].
  - unfold authenticate_client. destruct (write_proto_limited _ _) as [bytes|]; [|by intros; simplify_eq/=].
    intros (out' & Ho & _)%outcome_write. revert Ho. rewrite outcome_hs_read.
    destruct (split_frame _ rest) as [[r' rest']|] eqn:Hsplit; [|by intros; simplify_eq/=].
    destruct r' as [auth_body|e]; cbn [decoded]; [|by intros; simplify_eq/=].
    destruct (auth_decode auth_body) as [auth|] eqn:Hauth; [|by intros; simplify_eq/=]. unfold on_auth.
    destruct (verify_connection_proof _ _ _ _ _ _) eqn:Hp; cbn [negb]; [|by intros ?%reject_outcome].
    apply verify_connection_proof_iff in Hp.
    destruct (v_current v) as [cur|]; [|by intros ?%reject_outcome].
    case_bool_decide as Hk; [|by intros ?%reject_outcome]. intros (-> & _ & _)%classify_outcome.
    split; [done|]. cbn. destruct (proof auth) as [pb|] eqn:Hpb; cbn in Hp.
    + exists auth_body, rest', auth, cur, pb. rewrite Hk. done.
    + unfold connection_proof in Hp. case_all. by apply generichash_zlen in Hp.
  - intros (-> & Hn & _)%classify_outcome. split; [done|]. apply Hn; [done|]. unfold reset_intent. by rewrite Hs.
Qed.

(** C7: Whatever bytes arrive, a client that is told it is connected was either
    shown the keyed hash of its own id, its challenge, the status, the reset
    flag and the salt, under its own key, or it did not ask for a reset, the
    server did not challenge it, and the response carries no reset. *)
Theorem client_obeys_only_authenticated {codec : HandshakeCodec} {sodium : Sodium} {laws : SodiumLaws sodium}
    id key wants_reset input out response :
  outcome (client_handshake id key wants_reset) input = (out, Some (Ok response)) ->
  accepted_status (status_or_default response) = true ->
  let required := unwrap_or false (reset_required response) in
  let salt := unwrap_or [] (p_reset_salt response) in
  exists body rest first, split_frame MAX_HANDSHAKE_PROTO_LEN input = Some (Ok body, rest) /\
    response_decode body = Some first /\
    match auth_challenge first with
    | Some challenge => exists p, reset_proof response = Some p /\
        reset_decision_proof key id PROTOCOL_VERSION challenge (status_or_default response) required salt = Ok p
    | None => wants_reset = false /\ required = false /\ salt = []
    end.
Proof.
  unfold client_handshake, hs_write. destruct (write_proto_limited _ _) as [bytes|]; [|by intros; simplify_eq/=].
  intros (out' & Ho & _)%outcome_write Hacc. cbn zeta. revert Ho. unfold client_rest. rewrite outcome_hs_read.
  destruct (split_frame _ input) as [[r rest]|]; [|by intros; simplify_eq/=].
  destruct r as [body|e]; cbn [decoded]; [|by intros; simplify_eq/=].
  destruct (response_decode body) as [first|] eqn:Hfirst; [|by intros; simplify_eq/=].
  intros Ho. exists body, rest, first. split; [done|]. split; [done|]. revert Ho. unfold on_first.
  destruct (auth_challenge first) as [challenge|].
  - destruct (zlen challenge =? AUTH_CHALLENGE_BYTES); cbn [negb]; [|by intros; simplify_eq/=].
    destruct (connection_proof _ _ _ _ _) as [proof|]; [|by intros; simplify_eq/=].
    unfold hs_write. destruct (write_proto_limited _ (auth_encode _)) as [bytes'|]; [|by intros; simplify_eq/=].
    intros (out2 & Ho & _)%outcome_write. revert Ho. rewrite outcome_hs_read.
    destruct (split_frame _ rest) as [[r' rest']|]; [|by intros; simplify_eq/=].
    destruct (decoded response_decode r') as [resp|]; [|by intros; simplify_eq/=].
    cbn. intros [= _ Hc]. unfold check_decision in Hc.
    destruct (accepted_status (status_or_default resp)) eqn:Ha; [|injection Hc as <-; congruence].
    case_match; [done|]. destruct (reset_proof resp) as [p|] eqn:Hp; cbn in Hc; [|done].
    destruct (verify_reset_decision_proof _ _ _ _ _ _ _ _) eqn:Hver; cbn in Hc; [|done]. injection Hc as <-.
    exists p. split; [done|]. by apply verify_reset_decision_proof_iff.
  - destruct (accepted_status (status_or_default first)) eqn:Ha.
    + destruct wants_reset; cbn; [by intros; simplify_eq/=|]. by intros [= _ <-].
    + rewrite andb_false_r. cbn. intros [= _ <-]. unfold status_or_default in Hacc, Ha. cbn in Hacc. congruence.
Qed.

(** ** Two honest ends *)

Section honest.
Context {codec : HandshakeCodec} {claws : HandshakeCodecLaws codec} {sodium : Sodium} {laws : SodiumLaws sodium}.
Context (id key : list byte) (wants_reset : bool) (v : HandshakeView) (reg cur : Registration).
Context (Hid : valid_id id = true) (Hkey : zlen key = KEY_LEN).
Context (Hch : zlen (v_challenge v) = AUTH_CHALLENGE_BYTES) (Hsalt : zlen (v_salt v) = EPOCH_SALT_BYTES).
Context (Htime : v_in_time v = true).
Context (Hreg : v_registered v = Some reg) (Hreg_key : r_key reg = key).
Context (Hcur : v_current v = Some cur) (Hcur_key : r_key cur = key).

Definition request_message : list byte := request_encode (client_request_challenge id wants_reset).
Definition challenge_response : ConnectResponse := mkResponse None None (Some (v_challenge v)) None None None.
Definition auth_message (p : list byte) : list byte := auth_encode (mkAuth (Some p)).

(** What the server does with an authenticated client. *)
Definition verdict : prog io_kind ServerOutcome :=
  classify v cur id false wants_reset (Some (v_challenge v, key)).

(** A response small enough for the reader. *)
Definition small (r : ConnectResponse) : Prop := int_ok (status r) /\ response_bytes r <= 200.

Lemma id_len : zlen id = 16.
Proof. unfold valid_id in Hid. apply andb_true_iff in Hid as [H _]. lia. Qed.

Lemma small_fits r max_len :
  small r -> 300 <= max_len ->
  zlen (response_encode r) <= max_len /\ zlen (response_encode r) <= i64_max /\
  response_decode (response_encode r) = Some r.
Proof.
  intros [Hi Hs] Hm. pose proof (response_size r). unfold i64_max. split_and!; [lia|lia|].
  apply response_roundtrip; [done|unfold i64_max; lia].
Qed.

Lemma write_small r : small r ->
  write_proto_limited MAX_PROTO_LEN (response_encode r) = Ok (framed (response_encode r)).
Proof.
  intros H. destruct (small_fits r MAX_PROTO_LEN H) as (? & ? & _); [unfold MAX_PROTO_LEN; lia|].
  by apply write_proto_ok.
Qed.

Lemma read_small {A} r (k : result io_kind ConnectResponse -> prog io_kind A) rest : small r ->
  outcome (hs_read response_decode k) (framed (response_encode r) ++ rest) = outcome (k (Ok r)) rest.
Proof.
  intros H. destruct (small_fits r MAX_HANDSHAKE_PROTO_LEN H) as (? & ? & Hd); [unfold MAX_HANDSHAKE_PROTO_LEN; lia|].
  rewrite outcome_hs_read, split_frame_framed by done. cbn [decoded]. by rewrite Hd.
Qed.

Lemma read_partial {A M} (decode : list byte -> option M) (k : result io_kind M -> prog io_kind A) m i :
  zlen m <= MAX_HANDSHAKE_PROTO_LEN -> i `prefix_of` framed m -> i <> framed m ->
  outcome (hs_read decode k) i = ([], None).
Proof.
  intros Hm Hp Hne. rewrite outcome_hs_read. rewrite (split_frame_strict _ m); [done|done| |done|done].
  unfold MAX_HANDSHAKE_PROTO_LEN, i64_max in *. lia.
Qed.

Lemma request_fits :
  zlen request_message <= 60 /\ request_decode request_message = Some (client_request_challenge id wants_reset).
Proof.
  pose proof (request_size (client_request_challenge id wants_reset)) as H. cbn in H. rewrite id_len in H.
  split; [unfold request_message; lia|]. apply request_roundtrip; cbn; [unfold PROTOCOL_VERSION, i32_max; lia|].
  rewrite id_len. unfold i64_max. lia.
Qed.

Lemma challenge_small : small challenge_response.
Proof. split; [done|]. unfold response_bytes. cbn. rewrite Hch. unfold AUTH_CHALLENGE_BYTES. lia. Qed.

Lemma proof_exists : exists p, connection_proof key id PROTOCOL_VERSION (v_challenge v) wants_reset = Ok p /\ zlen p = PROOF_BYTES.
Proof.
  unfold connection_proof. rewrite Hch, Z.eqb_refl. cbn [negb]. unfold generichash.
  destruct (blake2b_accepts key (connection_proof_message id PROTOCOL_VERSION (v_challenge v) wants_reset)) as [d Hd].
  { rewrite Hkey. unfold KEY_LEN. lia. }
  rewrite Hd. exists d. split; [done|]. by eapply blake2b_zlen.
Qed.

Lemma auth_fits p : zlen p = PROOF_BYTES ->
  zlen (auth_message p) <= 50 /\ auth_decode (auth_message p) = Some (mkAuth (Some p)).
Proof.
  intros Hp. pose proof (auth_size (mkAuth (Some p))) as H. cbn in H. rewrite Hp in H. unfold PROOF_BYTES in H.
  split; [unfold auth_message; lia|]. apply auth_roundtrip. cbn. rewrite Hp. unfold PROOF_BYTES, i64_max. lia.
Qed.

(** The verdict is silence, or one small response that carries it. *)
Definition tells (o : ServerOutcome) (r : ConnectResponse) : Prop :=
  match o with
  | Accepted st salt legacy => legacy = false /\
      decision_response st (Some (v_challenge v, key)) id (match salt with Some _ => true | None => false end)
        (unwrap_or [] salt) = Ok r
  | Rejected st => status r = Some (status_value st) /\ accepted_status (status_value st) = false
  | Dropped => False
  end.

Lemma reject_says st m :
  zlen m <= 100 -> accepted_status (status_value st) = false ->
  exists r, reject st m = WriteMsg (framed (response_encode r)) (Done (Ok (Rejected st))) /\ small r /\ tells (Rejected st) r.
Proof.
  intros Hm Hst. eexists (mkResponse _ (Some m) None None None None). unfold reject.
  assert (small (mkResponse (Some (status_value st)) (Some m) None None None None)) as Hs.
  { split; [destruct st; cbn; unfold i32_max; lia|]. unfold response_bytes. cbn. lia. }
  rewrite write_small by exact Hs. by split_and!.
Qed.

Lemma decision_says st salt :
  match salt with Some s => zlen s = EPOCH_SALT_BYTES | None => True end ->
  exists r, send_decision st (Some (v_challenge v, key)) id (match salt with Some _ => true | None => false end)
      (unwrap_or [] salt) (Accepted st salt false) =
    WriteMsg (framed (response_encode r)) (Done (Ok (Accepted st salt false))) /\ small r /\ tells (Accepted st salt false) r.
Proof.
  intros Hs. unfold send_decision, tells. cbn [decision_response].
  assert (exists p, reset_decision_proof key id PROTOCOL_VERSION (v_challenge v) (status_value st)
    (match salt with Some _ => true | None => false end) (unwrap_or [] salt) = Ok p /\ zlen p = PROOF_BYTES) as (p & -> & Hp).
  { unfold reset_decision_proof. rewrite Hch, Z.eqb_refl. cbn [negb].
    assert (Hh : forall m, exists p, generichash key m = Ok p /\ zlen p = PROOF_BYTES).
    { intros m. unfold generichash. destruct (blake2b_accepts key m) as [d Hd]; [rewrite Hkey; unfold KEY_LEN; lia|].
      rewrite Hd. exists d. split; [done|]. by eapply blake2b_zlen. }
    destruct salt as [s|]; cbn; [rewrite Hs; cbn|]; apply Hh. }
  set (r := mkResponse _ _ _ _ _ _).
  assert (small r) as Hr.
  { split; [destruct st; cbn; unfold i32_max; lia|]. unfold response_bytes. cbn. rewrite Hp.
    unfold PROOF_BYTES. destruct salt as [[|b s]|]; cbn in *; [lia|rewrite Hs; unfold EPOCH_SALT_BYTES; lia|lia]. }
  exists r. by rewrite write_small by done.
Qed.

Lemma verdict_cases :
  verdict = Done (Ok Dropped) \/
  exists r o, verdict = WriteMsg (framed (response_encode r)) (Done (Ok o)) /\ small r /\ tells o r.
Proof.
  assert (Hrej : forall st m, zlen m <= 100 -> accepted_status (status_value st) = false -> exists r o,
    reject st m = WriteMsg (framed (response_encode r)) (Done (Ok o)) /\ small r /\ tells o r).
  { intros st m Hm Hst. destruct (reject_says st m Hm Hst) as [r ?]. eauto. }
  pose proof (decision_says ReturningClient (Some (v_salt v)) Hsalt) as (r1 & E1 & H1).
  pose proof (decision_says ReturningClient None I) as (r2 & E2 & H2).
  pose proof (decision_says NewClient None I) as (r3 & E3 & H3). cbn in E1, E2, E3.
  unfold verdict, classify. destruct (v_assigned v); [cbn|by left]. destruct (v_contained v); [cbn|by left].
  assert (Hother : exists r o, (if pty_active cur then send_decision ReturningClient (Some (v_challenge v, key)) id true
      (v_salt v) (Accepted ReturningClient (Some (v_salt v)) false)
    else send_decision NewClient (Some (v_challenge v, key)) id false [] (Accepted NewClient None false)) =
    WriteMsg (framed (response_encode r)) (Done (Ok o)) /\ small r /\ tells o r).
  { destruct (pty_active cur); [exists r1|exists r3]; eauto. }
  destruct (v_state v) as [[]|]; [by right|by right| |by right].
  destruct (v_claim v) as [[start rep|session]|[]]; try by left.
  - destruct (v_permit v); [right|by left]. cbn. destruct wants_reset; [exists r1|exists r2]; eauto.
  - right. by apply Hrej.
Qed.

(** *** The two programs on each other's output *)

Lemma handle_request rest :
  let answer := outcome (hs_read auth_decode (on_auth v reg id wants_reset)) rest in
  outcome (handle v) (framed request_message ++ rest) =
  (framed (response_encode challenge_response) ++ fst answer, snd answer).
Proof.
  destruct request_fits as [Hf Hd]. unfold handle. rewrite outcome_hs_read, split_frame_framed;
    [|unfold MAX_HANDSHAKE_PROTO_LEN; lia|unfold i64_max; lia].
  cbn [decoded]. rewrite Hd.
  change (protocol_matches (client_request_challenge id wants_reset)) with true.
  change (supports_challenge (client_request_challenge id wants_reset)) with true.
  change (client_id (client_request_challenge id wants_reset)) with (Some id).
  assert (reset_intent (client_request_challenge id wants_reset) = wants_reset) as -> by (by destruct wants_reset).
  rewrite Htime, Hid, Hreg. cbv iota beta zeta. cbn [negb].
  unfold authenticate_client. fold challenge_response. rewrite write_small by apply challenge_small.
  cbn [outcome]. by destruct (outcome (hs_read _ _) rest).
Qed.

Lemma handle_auth p rest :
  connection_proof key id PROTOCOL_VERSION (v_challenge v) wants_reset = Ok p -> zlen p = PROOF_BYTES ->
  outcome (hs_read auth_decode (on_auth v reg id wants_reset)) (framed (auth_message p) ++ rest) = outcome verdict rest.
Proof.
  intros Hp Hz. destruct (auth_fits p Hz) as [Hf Hd].
  rewrite outcome_hs_read, split_frame_framed; [|unfold MAX_HANDSHAKE_PROTO_LEN; lia|unfold i64_max; lia].
  cbn [decoded]. rewrite Hd. unfold on_auth. cbn [proof unwrap_or]. rewrite Hreg_key.
  rewrite (proj2 (verify_connection_proof_iff _ _ _ _ _ _) Hp), Hcur, Hcur_key. cbn [negb].
  by rewrite bool_decide_true by done.
Qed.

Lemma client_first input :
  outcome (client_handshake id key wants_reset) input =
  (framed request_message ++ fst (outcome (client_rest id key wants_reset) input), snd (outcome (client_rest id key wants_reset) input)).
Proof.
  destruct request_fits as [Hf _]. unfold client_handshake, hs_write. fold request_message.
  rewrite write_proto_ok; [|unfold MAX_HANDSHAKE_PROTO_LEN; lia|unfold i64_max; lia].
  cbn [outcome]. by destruct (outcome (client_rest id key wants_reset) input).
Qed.

Lemma client_challenged p rest :
  connection_proof key id PROTOCOL_VERSION (v_challenge v) wants_reset = Ok p -> zlen p = PROOF_BYTES ->
  let last := outcome (hs_read response_decode (on_decision id key (v_challenge v))) rest in
  outcome (client_rest id key wants_reset) (framed (response_encode challenge_response) ++ rest) =
  (framed (auth_message p) ++ fst last, snd last).
Proof.
  intros Hp Hz. destruct (auth_fits p Hz) as [Hf _]. unfold client_rest. rewrite read_small by apply challenge_small.
  unfold on_first. cbn [auth_challenge challenge_response]. rewrite Hch, Z.eqb_refl. cbn [negb]. rewrite Hp. unfold hs_write.
  fold (auth_message p). rewrite write_proto_ok; [|unfold MAX_HANDSHAKE_PROTO_LEN; lia|unfold i64_max; lia].
  cbn [outcome]. by destruct (outcome (hs_read _ _) rest).
Qed.

(** The client takes what the server tells it. *)
Lemma told_is_checked o r : tells o r -> check_decision key id (v_challenge v) r = Ok r.
Proof.
  destruct o as [st| |st salt legacy]; cbn [tells]; [|done|].
  - intros [Hs Ha]. unfold check_decision, status_or_default. rewrite Hs. cbn [unwrap_or]. by rewrite Ha.
  - intros [_ Hd]. cbn [decision_response] in Hd.
    destruct (reset_decision_proof _ _ _ _ _ _ _) as [p|] eqn:Hp; [|done]. cbn in Hd. injection Hd as <-.
    unfold check_decision, status_or_default. cbn [status unwrap_or reset_required p_reset_salt reset_proof is_some_and].
    assert (unwrap_or [] (match unwrap_or [] salt with [] => None | _ => Some (unwrap_or [] salt) end) = unwrap_or [] salt) as ->.
    { by destruct (unwrap_or [] salt). }
    rewrite (proj2 (verify_reset_decision_proof_iff _ _ _ _ _ _ _ _) Hp). cbn [negb].
    destruct (accepted_status (status_value st)); [|done]. unfold reset_decision_proof in Hp.
    destruct (negb (zlen (v_challenge v) =? AUTH_CHALLENGE_BYTES)); [done|]. by destruct (_ && _) eqn:E in Hp |- *; rewrite ?E.
Qed.

(** *** Agreement and completion *)

Definition client_side (p : list byte) : list byte := framed request_message ++ framed (auth_message p).
Definition server_side (r : ConnectResponse) : list byte := framed (response_encode challenge_response) ++ framed (response_encode r).

Lemma small_handshake r : small r -> zlen (response_encode r) <= MAX_HANDSHAKE_PROTO_LEN.
Proof. intros H. destruct (small_fits r MAX_HANDSHAKE_PROTO_LEN H) as [? _]; [unfold MAX_HANDSHAKE_PROTO_LEN; lia|done]. Qed.

Lemma handle_silent i : i `prefix_of` framed request_message -> i <> framed request_message -> outcome (handle v) i = ([], None).
Proof.
  intros Hp Hne. unfold handle. destruct request_fits as [Hf _].
  by apply (read_partial _ _ request_message); [unfold MAX_HANDSHAKE_PROTO_LEN; lia| |].
Qed.

Lemma handshake_agree p r o cap :
  connection_proof key id PROTOCOL_VERSION (v_challenge v) wants_reset = Ok p -> zlen p = PROOF_BYTES ->
  verdict = WriteMsg (framed (response_encode r)) (Done (Ok o)) -> small r -> tells o r -> 200 <= cap ->
  agree (client_handshake id key wants_reset) (handle v) (client_side p) (server_side r) (Ok r) (Ok o) 4 cap.
Proof.
  intros Hp Hz Hv Hr Ho Hcap. destruct (auth_fits p Hz) as [Hauth _].
  pose proof (challenge_small) as Hcs. pose proof (small_handshake r Hr) as Hrl.
  assert (Hc0 : outcome (client_handshake id key wants_reset) [] = (framed request_message, None)).
  { rewrite client_first. unfold client_rest. rewrite (read_partial _ _ (response_encode challenge_response));
      [by rewrite app_nil_r|by apply small_handshake|apply prefix_nil|unfold framed; by destruct (le_bytes _ _) eqn:E]. }
  assert (Hlast : forall i, i `prefix_of` framed (response_encode r) -> i <> framed (response_encode r) ->
    outcome (client_handshake id key wants_reset) (framed (response_encode challenge_response) ++ i) = (client_side p, None)).
  { intros i Hi Hne. rewrite client_first, (client_challenged p) by done.
    rewrite (read_partial _ _ (response_encode r)) by done. cbn [fst snd]. unfold client_side. by rewrite app_nil_r. }
  assert (Hc2 : outcome (client_handshake id key wants_reset) (server_side r) = (client_side p, Some (Ok r))).
  { unfold server_side. rewrite client_first, (client_challenged p) by done.
    rewrite <-(app_nil_r (framed (response_encode r))). rewrite read_small by done. cbn [on_decision outcome fst snd].
    rewrite (told_is_checked o r Ho). unfold client_side. by rewrite app_nil_r. }
  assert (Hs1 : forall i, i `prefix_of` framed (auth_message p) -> i <> framed (auth_message p) ->
    outcome (handle v) (framed request_message ++ i) = (framed (response_encode challenge_response), None)).
  { intros i Hi Hne. rewrite handle_request. cbv zeta.
    rewrite (read_partial _ _ (auth_message p)) by (done || (unfold MAX_HANDSHAKE_PROTO_LEN; lia)).
    cbn [fst snd]. by rewrite app_nil_r. }
  assert (Hs2 : outcome (handle v) (client_side p) = (server_side r, Some (Ok o))).
  { unfold client_side, server_side. rewrite <-(app_nil_r (framed (auth_message p))).
    rewrite handle_request. cbv zeta. rewrite (handle_auth p) by done. rewrite Hv. cbn [outcome fst snd]. by rewrite app_nil_r. }
  assert (Hne : forall m, [] <> framed m) by (intros m H%(f_equal zlen); rewrite zlen_framed in H; len_lia).
  assert (Hs1' : outcome (handle v) (framed request_message) = (framed (response_encode challenge_response), None)).
  { rewrite <-(app_nil_r (framed request_message)) at 1. apply Hs1; [apply prefix_nil|done]. }
  assert (Hc1 : outcome (client_handshake id key wants_reset) (framed (response_encode challenge_response)) = (client_side p, None)).
  { rewrite <-(app_nil_r (framed (response_encode challenge_response))). apply Hlast; [apply prefix_nil|done]. }
  split; [done|done| | | |lia|].
  - cbn [answers fst snd]. rewrite Hc0. rewrite (handle_silent []) by (apply prefix_nil || done). cbn [fst snd].
    rewrite Hc0, Hs1'. cbn [fst snd]. rewrite Hs1', Hc1. cbn [fst snd]. rewrite Hc1, Hs2. done.
  - intros i Hi Hn. destruct (two_frames_cut _ _ i Hi Hn) as [[H1 H2]|(j & -> & H1 & H2)].
    + rewrite client_first. unfold client_rest. by rewrite (read_partial _ _ _ i (small_handshake _ Hcs) H1 H2).
    + by rewrite Hlast.
  - intros i Hi Hn. destruct (two_frames_cut _ _ i Hi Hn) as [[H1 H2]|(j & -> & H1 & H2)].
    + by rewrite handle_silent.
    + by rewrite Hs1.
  - intros i Hi Hn. destruct (two_frames_cut _ _ i Hi Hn) as [[H1 H2]|(j & -> & H1 & H2)].
    + rewrite handle_silent by done. cbn [fst]. rewrite zlen_nil. lia.
    + rewrite Hs1 by done. cbn [fst]. rewrite zlen_framed. destruct Hcs as [_ Hcs].
      pose proof (response_size challenge_response) as Hsz. cbn in Hsz. unfold response_bytes in Hsz. cbn in Hsz.
      rewrite Hch in Hsz. unfold AUTH_CHALLENGE_BYTES in Hsz. lia.
Qed.

(** C8: With a client that holds the passkey of the registration, however slowly
    the bytes travel, the handshake never deadlocks: as long as the server
    does not drop the connection, one of the ends can move until both have
    returned, the client with the response that states the server's verdict,
    and the number of steps is bounded. *)
Theorem handshake_never_deadlocks cap n c :
  verdict <> Done (Ok Dropped) -> 200 <= cap ->
  net_reachable false cap (client_handshake id key wants_reset) (handle v) n c ->
  ((exists o r, pa c = Done (Ok r) /\ pb c = Done (Ok o) /\ tells o r) \/ exists c', nstep false cap c c') /\
  exists bound, forall n c, net_reachable false cap (client_handshake id key wants_reset) (handle v) n c -> (n <= bound)%nat.
Proof.
  intros Hd Hcap Hreach. destruct verdict_cases as [|(r & o & Hv & Hr & Ho)]; [done|].
  destruct proof_exists as (p & Hp & Hz). pose proof (handshake_agree p r o cap Hp Hz Hv Hr Ho Hcap) as Hagree.
  split; [|by eapply agree_bounded].
  destruct (never_stuck _ _ _ _ _ _ _ _ Hagree n c Hreach) as [[Ha Hb]|?]; [left; eauto|by right].
Qed.

(** C5: Whatever the transport does, and wherever it breaks: when a client that
    holds the passkey is told it is connected, the server has reached the
    verdict it was told of, so both know the same status, and use the same
    reset salt or none. *)
Theorem handshake_agreement cap n c response :
  net_reachable true cap (client_handshake id key wants_reset) (handle v) n c ->
  pa c = Done (Ok response) ->
  exists o, snd (outcome verdict []) = Some (Ok o) /\ tells o response.
Proof.
  intros Hreach Hdone. destruct (completed_against _ _ _ _ _ _ _ Hreach Hdone) as [Hout Hpre].
  destruct proof_exists as (p & Hp & Hz). pose proof challenge_small as Hcs.
  assert (Hread : forall i rest m, i `prefix_of` framed (response_encode m) ++ rest -> small m ->
    forall message i', split_frame MAX_HANDSHAKE_PROTO_LEN i = Some (message, i') ->
    message = Ok (response_encode m) /\ i = framed (response_encode m) ++ i' /\ i' `prefix_of` rest).
  { intros i rest m Hi Hm message i' Hs. eapply split_frame_prefix; [by apply small_handshake| |exact Hi|exact Hs].
    pose proof (small_handshake m Hm). unfold MAX_HANDSHAKE_PROTO_LEN, i64_max in *. lia. }
  assert (Hw : wa c = framed request_message ++ fst (outcome (client_rest id key wants_reset) (ra c)) /\
    snd (outcome (client_rest id key wants_reset) (ra c)) = Some (Ok response)).
  { pose proof (client_first (ra c)) as Ho. rewrite Hout in Ho. by apply pair_eq in Ho as [Hx <-]. }
  destruct Hw as [Hw Hres]. rewrite Hw, handle_request in Hpre. cbv zeta in Hpre. cbn [fst] in Hpre.
  destruct (split_frame MAX_HANDSHAKE_PROTO_LEN (ra c)) as [[m1 rest1]|] eqn:E1.
  2: { unfold client_rest in Hres. by rewrite outcome_hs_read, E1 in Hres. }
  destruct (Hread _ _ _ Hpre Hcs _ _ E1) as (_ & Era & Hpre1).
  rewrite Era, (client_challenged p) in Hres, Hpre1 by done. cbn [fst snd] in Hres, Hpre1.
  assert (Hsilent : fst (outcome (hs_read response_decode (on_decision id key (v_challenge v))) rest1) = []).
  { rewrite outcome_hs_read. destruct (split_frame _ rest1) as [[m2 rest2]|]; [|done]. by destruct (decoded _ m2). }
  rewrite Hsilent, handle_auth in Hpre1 by done.
  rewrite outcome_hs_read in Hres. destruct (split_frame _ rest1) as [[m2 rest2]|] eqn:E2; [|done].
  destruct verdict_cases as [Hv|(r & o & Hv & Hr & Ho)]; rewrite Hv in Hpre1 |- *; cbn [outcome fst snd] in *.
  { apply prefix_nil_inv in Hpre1. by subst rest1. }
  destruct (Hread _ _ _ Hpre1 Hr _ _ E2) as (-> & _ & _).
  destruct (small_fits r MAX_HANDSHAKE_PROTO_LEN Hr) as (_ & _ & Hd); [unfold MAX_HANDSHAKE_PROTO_LEN; lia|].
  cbn [decoded] in Hres. rewrite Hd in Hres. cbn [on_decision outcome snd] in Hres.
  rewrite (told_is_checked o r Ho) in Hres. injection Hres as <-. eauto.
Qed.
End honest.

(** ** The codec on the wire *)

#[export] Instance wire_handshake : HandshakeCodec := {
  request_encode r := encode_fields (opt_bytes 1 (client_id r) ++ opt_varint 2 (version r) ++
    opt_bool 3 (q_reset_intent r) ++ opt_bool 4 (q_supports_challenge r));
  request_decode bytes :=
    (fun fs => mkRequest (get_bytes 1 fs) (get_varint 2 fs) (get_bool 3 fs) (get_bool 4 fs)) <$> parse_fields bytes;
  response_encode r := encode_fields (opt_varint 1 (status r) ++ opt_bytes 2 (error r) ++ opt_bytes 3 (auth_challenge r) ++
    opt_bool 4 (reset_required r) ++ opt_bytes 5 (reset_proof r) ++ opt_bytes 6 (p_reset_salt r));
  response_decode bytes :=
    (fun fs => mkResponse (get_varint 1 fs) (get_bytes 2 fs) (get_bytes 3 fs) (get_bool 4 fs) (get_bytes 5 fs)
      (get_bytes 6 fs)) <$> parse_fields bytes;
  auth_encode a := encode_fields (opt_bytes 1 (proof a));
  auth_decode bytes := (fun fs => mkAuth (get_bytes 1 fs)) <$> parse_fields bytes
}.

Lemma opt_bytes_ok n b : 1 <= n <= 15 -> bytes_size b <= i64_max -> Forall field_ok (opt_bytes n b).
Proof. intros Hn Hb. destruct b; cbn in *; [|constructor]. constructor; [by split|constructor]. Qed.

Lemma opt_varint_ok n z : 1 <= n <= 15 -> int_ok z -> Forall field_ok (opt_varint n z).
Proof. intros Hn Hz. destruct z as [z|]; cbn in *; [|constructor]. unfold i32_max in Hz.
  constructor; [split; cbn; lia|constructor].
Qed.

Lemma opt_bool_ok n b : 1 <= n <= 15 -> Forall field_ok (opt_bool n b).
Proof. intros Hn. destruct b as [[]|]; cbn; try constructor; try constructor; cbn; lia. Qed.

Lemma bytes_size_nonneg b : 0 <= bytes_size b.
Proof. destruct b; cbn; [apply zlen_nonneg|lia]. Qed.

#[export] Instance wire_handshake_laws : HandshakeCodecLaws wire_handshake.
Proof.
  split.
  - intros [i ver q s] Hv Hi. cbn in Hv, Hi. cbn [request_decode request_encode wire_handshake client_id version q_reset_intent q_supports_challenge].
    rewrite parse_encoded.
    + destruct i, ver, q as [[]|], s as [[]|]; done.
    + rewrite !Forall_app. split_and!; [by apply opt_bytes_ok|by apply opt_varint_ok|by apply opt_bool_ok|by apply opt_bool_ok].
  - intros [i ver q s]. cbn [request_encode wire_handshake client_id version q_reset_intent q_supports_challenge].
    etrans; [apply encode_fields_size|]. destruct i, ver, q, s; cbn; lia.
  - intros [st e ch q p sl] Hv Hi. unfold response_bytes in Hi. cbn in Hv, Hi.
    cbn [response_decode response_encode wire_handshake status error auth_challenge reset_required reset_proof p_reset_salt].
    pose proof (bytes_size_nonneg e). pose proof (bytes_size_nonneg ch). pose proof (bytes_size_nonneg p).
    pose proof (bytes_size_nonneg sl). rewrite parse_encoded.
    + destruct st, e, ch, q as [[]|], p, sl; done.
    + rewrite !Forall_app. split_and!; [by apply opt_varint_ok|apply opt_bytes_ok; lia|apply opt_bytes_ok; lia|
        by apply opt_bool_ok|apply opt_bytes_ok; lia|apply opt_bytes_ok; lia].
  - intros [st e ch q p sl]. unfold response_bytes.
    cbn [response_encode wire_handshake status error auth_challenge reset_required reset_proof p_reset_salt].
    etrans; [apply encode_fields_size|]. destruct st, e, ch, q, p, sl; cbn; lia.
  - intros [p] Hp. cbn in Hp. cbn [auth_decode auth_encode wire_handshake proof]. rewrite parse_encoded; [by destruct p|].
    by apply opt_bytes_ok.
  - intros [p]. cbn [auth_encode wire_handshake proof]. etrans; [apply encode_fields_size|]. destruct p; cbn; lia.
Qed.

(** ** Witnesses *)

(** A client that returns to its active session and asks for a reset. *)
Definition demo_id : list byte := repeat "a"%byte 16.
Definition demo_key : list byte := repeat "K"%byte 32.
Definition demo_view : HandshakeView :=
  mkView true (Some demo_reg) (Some demo_reg) false (repeat x07 32) (repeat x09 32) true true (Some SActive)
    (Ok (ClaimReturning 1)) true.
Definition demo_handshake : nat * net io_kind ConnectResponse ServerOutcome :=
  schedule 100 200 (net_start (client_handshake (sodium := toy_sodium) demo_id demo_key true)
    (handle (sodium := toy_sodium) demo_view)) 0.

Definition demo_response : ConnectResponse :=
  match pa (snd demo_handshake) with Done (Ok r) => r | _ => response_status InvalidKey end.

Lemma demo_client_done : pa (snd demo_handshake) = Done (Ok demo_response).
Proof. vm_compute. reflexivity. Qed.

Lemma demo_reachable :
  net_reachable false 200 (client_handshake (sodium := toy_sodium) demo_id demo_key true)
    (handle (sodium := toy_sodium) demo_view) (fst demo_handshake) (snd demo_handshake).
Proof. exact (schedule_reachable 100 200 _ _). Qed.

Lemma handshake_agreement_witness :
  exists o, snd (outcome (verdict (sodium := toy_sodium) demo_id demo_key true demo_view demo_reg) []) = Some (Ok o).
Proof.
  destruct (handshake_agreement (laws := toy_laws) demo_id demo_key true demo_view demo_reg demo_reg
    eq_refl eq_refl eq_refl eq_refl eq_refl eq_refl eq_refl eq_refl eq_refl 200 (fst demo_handshake) (snd demo_handshake)
    demo_response (net_reachable_faulty _ _ _ _ _ demo_reachable) demo_client_done) as (o & Ho & _).
  exists o. exact Ho.
Defined.

Lemma handshake_never_deadlocks_witness :
  (exists o r, pa (snd demo_handshake) = Done (Ok r) /\ pb (snd demo_handshake) = Done (Ok o)) \/
  exists c', nstep false 200 (snd demo_handshake) c'.
Proof.
  destruct (handshake_never_deadlocks (laws := toy_laws) demo_id demo_key true demo_view demo_reg demo_reg
    eq_refl eq_refl eq_refl eq_refl eq_refl eq_refl eq_refl eq_refl eq_refl 200 (fst demo_handshake) (snd demo_handshake))
    as [[(o & r & H1 & H2 & _)|Hstep] _]; [vm_compute; discriminate|lia|exact demo_reachable|left; eauto|right; exact Hstep].
Defined.

(** What the server returns on the bytes of this run. *)
Lemma demo_server_outcome :
  outcome (handle (sodium := toy_sodium) demo_view) (rb (snd demo_handshake)) =
  (wb (snd demo_handshake), Some (Ok (Accepted ReturningClient (Some (repeat x09 32)) false))).
Proof. vm_compute. reflexivity. Qed.

Lemma server_accepts_only_with_proof_witness : exists reg, v_registered demo_view = Some reg.
Proof.
  destruct (server_accepts_only_with_proof (laws := toy_laws) _ _ _ _ _ _ demo_server_outcome)
    as (body & rest & request & i & reg & _ & _ & _ & _ & _ & H & _). exists reg. exact H.
Defined.

Lemma demo_client_outcome :
  outcome (client_handshake (sodium := toy_sodium) demo_id demo_key true) (ra (snd demo_handshake)) =
  (wa (snd demo_handshake), Some (Ok demo_response)).
Proof. vm_compute. reflexivity. Qed.

Lemma client_obeys_only_authenticated_witness :
  exists body rest, split_frame MAX_HANDSHAKE_PROTO_LEN (ra (snd demo_handshake)) = Some (Ok body, rest).
Proof.
  destruct (client_obeys_only_authenticated (laws := toy_laws) _ _ _ _ _ _ demo_client_outcome)
    as (body & rest & first & H & _); [vm_compute; reflexivity|]. exists body, rest. exact H.
Defined.
