(* ===== verification/Socks.v ===== *)
(** * Socks: [crates/et-net/src/socks.rs]

    SOCKS4, SOCKS4a and SOCKS5 requests of [et -D], and the loop of
    [forward_io.rs] that reads one from a client. What the client socket, the
    clock and the cancellation answer is an argument, one turn of the loop at
    a time. *)

From Stdlib Require Import String.
From S2P Require Import Prelude Bytes FramingIo.

(** ** Data *)

Definition SOCKS4_VERSION : byte := x04.
Definition SOCKS4_CONNECT : byte := x01.
Definition SOCKS4_GRANTED : byte := x5a.
Definition SOCKS4_REJECTED : byte := x5b.
Definition SOCKS5_VERSION : byte := x05.
Definition SOCKS5_NOAUTH : byte := x00.
Definition SOCKS5_NO_ACCEPTABLE : byte := xff.
Definition SOCKS5_CONNECT : byte := x01.
Definition SOCKS5_IPV4 : byte := x01.
Definition SOCKS5_DOMAIN : byte := x03.
Definition SOCKS5_IPV6 : byte := x04.
Definition SOCKS5_SUCCESS : byte := x00.
Definition SOCKS5_CONN_REFUSED : byte := x05.
Definition MAX_HANDSHAKE : Z := 4096.
Definition MAX_IDENT : Z := 255.

Inductive SocksParseStatus := SocksNeedMore | SocksComplete | SocksError.

Record SocketEndpoint := mkEndpoint {
  ep_name : option (list byte);
  ep_port : option Z
}.

Record SocksHandshake := mkSocks {
  s_input : list byte;
  s_reply : list byte;
  s_destination : SocketEndpoint;
  s_error : option (list byte);
  socks5_auth_done : bool;
  s_complete : bool;
  s_version : byte;
  early_data : list byte
}.

Definition socks_default : SocksHandshake :=
  mkSocks [] [] (mkEndpoint None None) None false false x00 [].

Definition set_input (s : SocksHandshake) (input : list byte) : SocksHandshake :=
  mkSocks input (s_reply s) (s_destination s) (s_error s) (socks5_auth_done s) (s_complete s) (s_version s) (early_data s).
Definition set_reply (s : SocksHandshake) (reply : list byte) : SocksHandshake :=
  mkSocks (s_input s) reply (s_destination s) (s_error s) (socks5_auth_done s) (s_complete s) (s_version s) (early_data s).
Definition set_error (s : SocksHandshake) (e : string) : SocksHandshake :=
  mkSocks (s_input s) (s_reply s) (s_destination s) (Some (bytes_of e)) (socks5_auth_done s) (s_complete s) (s_version s) (early_data s).
Definition set_early (s : SocksHandshake) (early : list byte) : SocksHandshake :=
  mkSocks (s_input s) (s_reply s) (s_destination s) (s_error s) (socks5_auth_done s) (s_complete s) (s_version s) early.

Definition socks_push (s : SocksHandshake) (bytes : list byte) : SocksHandshake := set_input s (s_input s ++ bytes).

Definition fails (s : SocksHandshake) (e : string) : SocksHandshake * SocksParseStatus := (set_error s e, SocksError).

(** ** Text of addresses *)

(** [format!("{}.{}.{}.{}", ..)] *)
Definition ipv4_text (ip : list byte) : list byte := joined (bytes_of ".") (map (fun b => digits 3 10 (b2z b)) ip).

Fixpoint be_segments (l : list byte) : list Z :=
  match l with
  | a :: b :: l => b2z a * 256 + b2z b :: be_segments l
  | _ => []
  end.

(** The first of the longest runs of zero segments: start and length. *)
Fixpoint zero_run (l : list Z) (i : nat) (current longest : nat * nat) : nat * nat :=
  match l with
  | [] => longest
  | s :: l =>
      if s =? 0 then
        let current := (if Nat.eqb (snd current) 0 then i else fst current, S (snd current)) in
        zero_run l (S i) current (if Nat.ltb (snd longest) (snd current) then current else longest)
      else zero_run l (S i) (0, 0)%nat longest
  end.

Definition segments_text (l : list Z) : list byte := joined (bytes_of ":") (map (digits 4 16) l).

(** [Ipv6Addr::to_string] of sixteen octets. *)
Definition ipv6_text (octets : list byte) : list byte :=
  if bool_decide (take 12 octets = repeat x00 10 ++ [xff; xff])
  then bytes_of "::ffff:" ++ ipv4_text (drop 12 octets)
  else
    let segments := be_segments octets in
    let (start, len) := zero_run segments 0 (0, 0)%nat (0, 0)%nat in
    if Nat.ltb 1 len
    then segments_text (take start segments) ++ bytes_of "::" ++ segments_text (drop (start + len) segments)
    else segments_text segments.

(** ** Parsing *)

Definition byte_at (l : list byte) (i : Z) : byte := nth (Z.to_nat i) l x00.

(** [u16::from_be_bytes] of the bytes at [i]. *)
Definition port_at (l : list byte) (i : Z) : Z := b2z (byte_at l i) * 256 + b2z (byte_at l (i + 1)).

Definition finish_destination (s : SocksHandshake) (host : list byte) (port : Z) (version : byte) (consumed : Z)
  : SocksHandshake * SocksParseStatus :=
  let destination :=
    if bool_decide (take 1 host = bytes_of "/") then mkEndpoint (Some host) None else mkEndpoint (Some host) (Some port) in
  (mkSocks [] (s_reply s) destination (s_error s) (socks5_auth_done s) true version (zdrop consumed (s_input s)),
   SocksComplete).

(** The loops for the NUL after a name: where it is, that it is too far, or
    that the input ended first. *)
Inductive nul_scan := NulAt (n : Z) | NulTooFar | NulMissing.

Fixpoint scan_nul (l : list byte) (n : Z) : nul_scan :=
  match l with
  | [] => NulMissing
  | b :: l =>
      if b2z b =? 0 then NulAt n
      else if MAX_IDENT <=? n then NulTooFar
      else scan_nul l (n + 1)
  end.

Definition is_socks4a (input : list byte) : bool :=
  (b2z (byte_at input 4) =? 0) && (b2z (byte_at input 5) =? 0) && (b2z (byte_at input 6) =? 0)
  && negb (b2z (byte_at input 7) =? 0).

(** The domain of a SOCKS4a request, from [userid_end] on. *)
Definition parse_socks4a_domain (s : SocksHandshake) (port userid_end : Z) : SocksHandshake * SocksParseStatus :=
  let input := s_input s in
  match scan_nul (zdrop userid_end input) 0 with
  | NulTooFar => fails s "SOCKS4a domain too long"
  | NulMissing =>
      if MAX_IDENT <? zlen input - userid_end then fails s "SOCKS4a domain too long" else (s, SocksNeedMore)
  | NulAt n =>
      finish_destination s (from_utf8_lossy (slice input userid_end (userid_end + n))) port SOCKS4_VERSION
        (userid_end + n + 1)
  end.

Definition parse_socks4 (s : SocksHandshake) : SocksHandshake * SocksParseStatus :=
  let input := s_input s in
  if zlen input <? 8 then (s, SocksNeedMore)
  else if negb (beq (byte_at input 1) SOCKS4_CONNECT) then fails s "SOCKS4 only supports CONNECT"
  else
    let port := port_at input 2 in
    match scan_nul (zdrop 8 input) 0 with
    | NulTooFar => fails s "SOCKS4 userid too long"
    | NulMissing =>
        if MAX_IDENT + 8 <? zlen input then fails s "SOCKS4 userid too long" else (s, SocksNeedMore)
    | NulAt n =>
        let userid_end := 8 + n + 1 in
        if is_socks4a input then parse_socks4a_domain s port userid_end
        else finish_destination s (ipv4_text (slice input 4 8)) port SOCKS4_VERSION userid_end
    end.

Definition parse_socks5_auth (s : SocksHandshake) : SocksHandshake * SocksParseStatus :=
  let input := s_input s in
  if zlen input <? 2 then (s, SocksNeedMore)
  else
    let methods := b2z (byte_at input 1) in
    if zlen input <? 2 + methods then (s, SocksNeedMore)
    else if negb (existsb (beq SOCKS5_NOAUTH) (slice input 2 (2 + methods)))
    then fails (set_reply s [SOCKS5_VERSION; SOCKS5_NO_ACCEPTABLE]) "SOCKS5 client did not offer no-auth"
    else
      (mkSocks (zdrop (2 + methods) input) [SOCKS5_VERSION; SOCKS5_NOAUTH] (s_destination s) (s_error s) true
         (s_complete s) (s_version s) (early_data s), SocksNeedMore).

(** The port of a SOCKS5 request, behind its host. *)
Definition parse_socks5_port (s : SocksHandshake) (host : list byte) (port_offset : Z)
  : SocksHandshake * SocksParseStatus :=
  if zlen (s_input s) <? port_offset + 2 then (s, SocksNeedMore)
  else finish_destination s host (port_at (s_input s) port_offset) SOCKS5_VERSION (port_offset + 2).

Definition parse_socks5_request (s : SocksHandshake) : SocksHandshake * SocksParseStatus :=
  let input := s_input s in
  if zlen input <? 4 then (s, SocksNeedMore)
  else if negb (beq (byte_at input 0) SOCKS5_VERSION) then fails s "Invalid SOCKS5 request version"
  else if negb (beq (byte_at input 1) SOCKS5_CONNECT) then fails s "SOCKS5 only supports CONNECT"
  else
    let atyp := byte_at input 3 in
    if beq atyp SOCKS5_IPV4 then
      if zlen input <? 10 then (s, SocksNeedMore) else parse_socks5_port s (ipv4_text (slice input 4 8)) 8
    else if beq atyp SOCKS5_DOMAIN then
      if zlen input <? 5 then (s, SocksNeedMore)
      else
        let len := b2z (byte_at input 4) in
        if zlen input <? 5 + len + 2 then (s, SocksNeedMore)
        else parse_socks5_port s (from_utf8_lossy (slice input 5 (5 + len))) (5 + len)
    else if beq atyp SOCKS5_IPV6 then
      if zlen input <? 22 then (s, SocksNeedMore) else parse_socks5_port s (ipv6_text (slice input 4 20)) 20
    else fails s "Unsupported SOCKS5 address type".

(** The SOCKS5 branch of [feed_socks_handshake] before authentication. *)
Definition feed_socks5_auth (s : SocksHandshake) : SocksHandshake * SocksParseStatus :=
  match parse_socks5_auth s with
  | (s, SocksError) => (s, SocksError)
  | (s, _) =>
      let auth_reply := s_reply s in
      match s_input s with
      | [] => (s, SocksNeedMore)
      | _ =>
          let (s, status) := parse_socks5_request (set_reply s []) in
          (set_reply s (auth_reply ++ s_reply s), status)
      end
  end.

Definition feed_socks_handshake (s : SocksHandshake) : SocksHandshake * SocksParseStatus :=
  if s_complete s then (set_early (set_input s []) (early_data s ++ s_input s), SocksComplete)
  else if MAX_HANDSHAKE <? zlen (s_input s) then fails s "SOCKS handshake too large"
  else
    match s_input s with
    | [] => (s, SocksNeedMore)
    | b :: _ =>
        if beq b SOCKS4_VERSION then parse_socks4 s
        else if beq b SOCKS5_VERSION then
          if socks5_auth_done s then parse_socks5_request s else feed_socks5_auth s
        else fails s "Unsupported SOCKS version"
    end.

Definition socks_connect_reply (version : byte) (success : bool) : list byte :=
  if beq version SOCKS4_VERSION
  then [x00; if success then SOCKS4_GRANTED else SOCKS4_REJECTED] ++ repeat x00 6
  else [SOCKS5_VERSION; if success then SOCKS5_SUCCESS else SOCKS5_CONN_REFUSED; x00; SOCKS5_IPV4] ++ repeat x00 6.

(** ** The loop around it *)

(** One turn: cancellation, deadline, whether a write succeeds, what a read
    answers (no bytes at the end of the stream). *)
Record socks_turn := mkTurn {
  st_cancelled : bool;
  st_expired : bool;
  st_write : bool;
  st_read : result io_kind (list byte)
}.

(** How the loop ends: cancelled, or with [outcome]. *)
Inductive socks_loop := LoopCancelled | LoopOutcome (outcome : bool) | LoopWaiting.

(** The state, what was written to the client, and how the loop ended. *)
Fixpoint socks_loop_go (s : SocksHandshake) (turns : list socks_turn)
  : SocksHandshake * list byte * socks_loop :=
  match turns with
  | [] => (s, [], LoopWaiting)
  | t :: turns =>
      if st_cancelled t then (s, [], LoopCancelled)
      else
        match feed_socks_handshake s with
        | (s, SocksComplete) => (s, [], LoopOutcome true)
        | (s, SocksError) => (s, if st_write t then s_reply s else [], LoopOutcome false)
        | (s, SocksNeedMore) =>
            if st_expired t then (s, [], LoopOutcome false)
            else
              let reply := s_reply s in
              if negb (bool_decide (reply = [])) && negb (st_write t) then (set_reply s [], [], LoopOutcome false)
              else
                let s := set_reply s [] in
                match st_read t with
                | Ok [] => (s, reply, LoopOutcome false)
                | Ok bytes =>
                    let '(s, written, o) := socks_loop_go (socks_push s (ztake 1024 bytes)) turns in
                    (s, reply ++ written, o)
                | Err Interrupted | Err WouldBlock | Err TimedOut =>
                    let '(s, written, o) := socks_loop_go s turns in (s, reply ++ written, o)
                | Err _ => (s, reply, LoopOutcome false)
                end
        end
  end.

(** The bytes that are already buffered once the request is complete. *)
Fixpoint follow_on (reads : list (result io_kind (list byte))) : list byte :=
  match reads with
  | Ok (b :: bytes) :: reads => ztake 1024 (b :: bytes) ++ follow_on reads
  | _ => []
  end.

(** [Command::Accepted] *)
Record SocksAccepted := mkAccepted {
  a_destination : SocketEndpoint;
  a_early : list byte;
  a_version : byte
}.

(** What was written, and the command when there is one; [None] while the
    loop waits. *)
Definition finish_socks_handshake (turns : list socks_turn) (cancelled : bool)
    (reads : list (result io_kind (list byte))) : list byte * option (option SocksAccepted) :=
  let '(s, written, o) := socks_loop_go socks_default turns in
  (written,
   match o with
   | LoopWaiting => None
   | LoopCancelled | LoopOutcome false => Some None
   | LoopOutcome true =>
       if cancelled then Some None
       else Some (Some (mkAccepted (s_destination s) (early_data s ++ follow_on reads) (s_version s)))
   end).

(** ** More input *)

(** What a settled answer becomes when more bytes follow. *)
Definition extended (r : SocksHandshake * SocksParseStatus) (ext : list byte) : SocksHandshake * SocksParseStatus :=
  match r with
  | (s, SocksComplete) => (set_early s (early_data s ++ ext), SocksComplete)
  | (s, st) => (socks_push s ext, st)
  end.

Lemma byte_at_app l ext i : 0 <= i < zlen l -> byte_at (l ++ ext) i = byte_at l i.
Proof. intros H. unfold byte_at. apply app_nth1. unfold zlen in H. lia. Qed.

Lemma slice_app_le {A} (l ext : list A) a b : 0 <= a <= b -> b <= zlen l -> slice (l ++ ext) a b = slice l a b.
Proof.
  intros H Hb. unfold slice. rewrite zdrop_app_l by lia. unfold ztake, zdrop. apply take_app_le.
  rewrite length_drop. unfold zlen in Hb. lia.
Qed.

Lemma scan_nul_app l ext n :
  match scan_nul l n with
  | NulMissing => n + zlen l <= Z.max n MAX_IDENT
  | r => scan_nul (l ++ ext) n = r
  end.
Proof.
  revert n. induction l as [|b l IH]; intros n; cbn [scan_nul app]; [rewrite zlen_nil; lia|].
  destruct (b2z b =? 0); [done|]. destruct (Z.leb_spec MAX_IDENT n); [done|].
  specialize (IH (n + 1)). destruct (scan_nul l (n + 1)); [done|done|]. rewrite zlen_cons. lia.
Qed.

Lemma scan_nul_at l n k : scan_nul l n = NulAt k -> n <= k < n + zlen l.
Proof.
  revert n. induction l as [|b l IH]; intros n; cbn [scan_nul]; [done|]. rewrite zlen_cons. pose proof (zlen_nonneg l).
  destruct (b2z b =? 0); [intros [= <-]; lia|]. destruct (MAX_IDENT <=? n); [done|]. intros Hk%IH. lia.
Qed.

Lemma finish_extended s host port version consumed ext :
  0 <= consumed <= zlen (s_input s) ->
  finish_destination (socks_push s ext) host port version consumed =
  extended (finish_destination s host port version consumed) ext.
Proof. intros H. unfold finish_destination. cbn. by rewrite zdrop_app_l. Qed.

(** A parser that asks for more leaves the state alone, and one that has
    answered gives the same answer with more input. *)
Definition monotone_at (parse : SocksHandshake -> SocksHandshake * SocksParseStatus) (s : SocksHandshake) : Prop :=
  forall ext,
  match parse s with
  | (s', SocksNeedMore) => s' = s
  | r => parse (socks_push s ext) = extended r ext
  end.

(** Conditions on the input that hold are kept by more of it. *)
Ltac more_input ext :=
  rewrite ?zlen_app;
  repeat match goal with
  | H : (?a <? ?b) = false |- context [(?a + zlen ext) <? ?b] =>
      rewrite (proj2 (Z.ltb_ge (a + zlen ext) b)) by (apply Z.ltb_ge in H; pose proof (zlen_nonneg ext); lia)
  end;
  repeat match goal with H : (_ <? _) = false |- _ => apply Z.ltb_ge in H end.

Lemma parse_socks5_port_monotone host port_offset s :
  0 <= port_offset -> monotone_at (fun s => parse_socks5_port s host port_offset) s.
Proof.
  intros Hp ext. unfold parse_socks5_port. cbn [s_input socks_push set_input].
  destruct (zlen (s_input s) <? port_offset + 2) eqn:E; [done|]. more_input ext.
  unfold port_at. rewrite !byte_at_app by lia. apply (finish_extended s). lia.
Qed.

Lemma parse_socks5_request_monotone s : monotone_at parse_socks5_request s.
Proof.
  intros ext. unfold parse_socks5_request. cbn [s_input socks_push set_input].
  destruct (zlen (s_input s) <? 4) eqn:E4; [done|]. more_input ext. rewrite !byte_at_app by lia.
  destruct (negb (beq _ SOCKS5_VERSION)); [done|]. destruct (negb (beq _ SOCKS5_CONNECT)); [done|].
  destruct (beq _ SOCKS5_IPV4).
  { destruct (zlen (s_input s) <? 10) eqn:E; [done|]. more_input ext. rewrite slice_app_le by lia.
    apply (parse_socks5_port_monotone _ 8 s). lia. }
  destruct (beq _ SOCKS5_DOMAIN).
  { destruct (zlen (s_input s) <? 5) eqn:E; [done|]. more_input ext. rewrite byte_at_app by lia.
    set (len := b2z (byte_at (s_input s) 4)). pose proof (b2z_range (byte_at (s_input s) 4)) as Hr. fold len in Hr.
    destruct (zlen (s_input s) <? 5 + len + 2) eqn:E5; [done|]. more_input ext. rewrite slice_app_le by lia.
    apply (parse_socks5_port_monotone _ (5 + len) s). lia. }
  destruct (beq _ SOCKS5_IPV6); [|done].
  destruct (zlen (s_input s) <? 22) eqn:E; [done|]. more_input ext. rewrite slice_app_le by lia.
  apply (parse_socks5_port_monotone _ 20 s). lia.
Qed.

Lemma parse_socks4a_domain_monotone port userid_end s :
  0 <= userid_end <= zlen (s_input s) -> monotone_at (fun s => parse_socks4a_domain s port userid_end) s.
Proof.
  intros Hu ext. unfold parse_socks4a_domain. cbn [s_input socks_push set_input]. rewrite zdrop_app_l by lia.
  pose proof (scan_nul_app (zdrop userid_end (s_input s)) ext 0) as Hs.
  destruct (scan_nul (zdrop userid_end (s_input s)) 0) as [n| |] eqn:E.
  - rewrite Hs. apply scan_nul_at in E. rewrite zlen_zdrop in E. rewrite slice_app_le by lia.
    apply (finish_extended s). lia.
  - by rewrite Hs.
  - rewrite zlen_zdrop in Hs. unfold MAX_IDENT in *.
    destruct (Z.ltb_spec 255 (zlen (s_input s) - userid_end)); [|done]. exfalso. lia.
Qed.

Lemma parse_socks4_monotone s : monotone_at parse_socks4 s.
Proof.
  intros ext. unfold parse_socks4. cbn [s_input socks_push set_input].
  destruct (zlen (s_input s) <? 8) eqn:E8; [done|]. more_input ext.
  unfold is_socks4a, port_at. rewrite !byte_at_app by lia.
  destruct (negb (beq _ SOCKS4_CONNECT)); [done|]. rewrite zdrop_app_l by lia.
  pose proof (scan_nul_app (zdrop 8 (s_input s)) ext 0) as Hs.
  destruct (scan_nul (zdrop 8 (s_input s)) 0) as [n| |] eqn:E.
  - rewrite Hs. apply scan_nul_at in E. rewrite zlen_zdrop in E.
    destruct (_ && _ && _ && _); [apply (parse_socks4a_domain_monotone _ (8 + n + 1) s); lia|].
    rewrite slice_app_le by lia. apply (finish_extended s). lia.
  - by rewrite Hs.
  - rewrite zlen_zdrop in Hs. unfold MAX_IDENT in *.
    destruct (Z.ltb_spec (255 + 8) (zlen (s_input s))); [|done]. exfalso. lia.
Qed.

(** The handshake is past the SOCKS5 greeting, or has none. *)
Definition in_request (s : SocksHandshake) : Prop :=
  s_complete s = false /\
  match s_input s with
  | b :: _ => b = SOCKS4_VERSION \/ b = SOCKS5_VERSION /\ socks5_auth_done s = true
  | [] => False
  end.

Lemma feed_in_request s :
  in_request s -> zlen (s_input s) <= MAX_HANDSHAKE ->
  feed_socks_handshake s =
    if beq (byte_at (s_input s) 0) SOCKS4_VERSION then parse_socks4 s else parse_socks5_request s.
Proof.
  intros [Hc Hb] Hl. unfold feed_socks_handshake. rewrite Hc, (proj2 (Z.ltb_ge _ _)) by done.
  destruct (s_input s) as [|b l] eqn:E; [done|]. cbn. destruct Hb as [->|[-> ->]]; [done|].
  by change (beq SOCKS5_VERSION SOCKS4_VERSION) with false.
Qed.

(** ** Theorems *)

(** C33: How a request is cut into reads does not matter: from the request on, the
    answer to [a ++ b] at once is the answer to [a] when that settles it, with
    [b] kept as early data, and else the answer to [b] after [a]. *)
Theorem request_cut_independent s a b :
  in_request (socks_push s a) -> zlen (s_input s ++ a ++ b) <= MAX_HANDSHAKE ->
  feed_socks_handshake (socks_push s (a ++ b)) =
    match feed_socks_handshake (socks_push s a) with
    | (s', SocksNeedMore) => feed_socks_handshake (socks_push s' b)
    | r => extended r b
    end.
Proof.
  intros Hr Hl. pose proof (zlen_nonneg b). rewrite app_assoc, zlen_app in Hl.
  assert (E : socks_push s (a ++ b) = socks_push (socks_push s a) b) by (unfold socks_push, set_input; cbn; by rewrite app_assoc).
  rewrite E. rewrite (feed_in_request (socks_push s a)) by (done || cbn; lia).
  assert (Hr' : in_request (socks_push (socks_push s a) b)).
  { destruct Hr as [Hc Hb]. split; [done|]. cbn in *. by destruct (s_input s ++ a). }
  rewrite (feed_in_request (socks_push (socks_push s a) b)) by (done || cbn; rewrite zlen_app; lia).
  assert (Hb : byte_at (s_input (socks_push (socks_push s a) b)) 0 = byte_at (s_input (socks_push s a)) 0).
  { apply byte_at_app. destruct Hr as [_ Hb]. cbn in *. destruct (s_input s ++ a); [done|]. rewrite zlen_cons. pose proof (zlen_nonneg l). lia. }
  rewrite Hb. destruct (beq _ SOCKS4_VERSION) eqn:Ev.
  - pose proof (parse_socks4_monotone (socks_push s a) b) as Hm.
    destruct (parse_socks4 (socks_push s a)) as [s' []]; [|done|done]. subst s'.
    rewrite (feed_in_request (socks_push (socks_push s a) b)) by (done || cbn; rewrite zlen_app; lia). by rewrite Hb, Ev.
  - pose proof (parse_socks5_request_monotone (socks_push s a) b) as Hm.
    destruct (parse_socks5_request (socks_push s a)) as [s' []]; [|done|done]. subst s'.
    rewrite (feed_in_request (socks_push (socks_push s a) b)) by (done || cbn; rewrite zlen_app; lia). by rewrite Hb, Ev.
Qed.

(** The bytes of a greeting and of a request for a domain. *)
Definition greeting (methods : list byte) : list byte := [SOCKS5_VERSION; z2b (zlen methods)] ++ methods.
Definition domain_request (host : list byte) (port : Z) : list byte :=
  [SOCKS5_VERSION; SOCKS5_CONNECT; x00; SOCKS5_DOMAIN; z2b (zlen host)] ++ host ++ [z2b (port / 256); z2b (port mod 256)].

(** The greeting is consumed, and what follows is left. *)
Lemma parse_greeting s methods rest :
  zlen methods <= 255 -> SOCKS5_NOAUTH ∈ methods -> s_input s = greeting methods ++ rest ->
  parse_socks5_auth s =
    (mkSocks rest [SOCKS5_VERSION; SOCKS5_NOAUTH] (s_destination s) (s_error s) true (s_complete s) (s_version s)
       (early_data s), SocksNeedMore).
Proof.
  intros Hm Hin Hi. unfold parse_socks5_auth. rewrite Hi. pose proof (zlen_nonneg methods). pose proof (zlen_nonneg rest).
  assert (Hl : zlen (greeting methods ++ rest) = 2 + zlen methods + zlen rest).
  { unfold greeting. rewrite !zlen_app, !zlen_cons, zlen_nil. lia. }
  rewrite Hl, (proj2 (Z.ltb_ge (2 + zlen methods + zlen rest) 2)) by lia.
  change (byte_at (greeting methods ++ rest) 1) with (z2b (zlen methods)). rewrite b2z_z2b_small by lia.
  rewrite (proj2 (Z.ltb_ge (2 + zlen methods + zlen rest) (2 + zlen methods))) by lia.
  assert (Hz : zlen (greeting methods) = 2 + zlen methods) by (unfold greeting; rewrite zlen_app, !zlen_cons, zlen_nil; lia).
  rewrite <-Hz, zdrop_app_exact, slice_app_le, slice_full by lia. unfold greeting at 1.
  change 2 with (zlen [SOCKS5_VERSION; z2b (zlen methods)]). rewrite zdrop_app_exact.
  rewrite (proj2 (existsb_exists (beq SOCKS5_NOAUTH) methods)); [done|].
  exists SOCKS5_NOAUTH. split; [by apply list_elem_of_In|done].
Qed.

Lemma port_of_bytes l i port :
  0 <= port < 65536 -> byte_at l i = z2b (port / 256) -> byte_at l (i + 1) = z2b (port mod 256) -> port_at l i = port.
Proof.
  intros Hp H1 H2. unfold port_at. rewrite H1, H2.
  pose proof (Z.div_mod port 256 ltac:(lia)). pose proof (Z.mod_pos_bound port 256 ltac:(lia)).
  rewrite !b2z_z2b_small; [lia|lia|]. split; [apply Z.div_pos; lia|]. apply Z.div_lt_upper_bound; lia.
Qed.

Lemma parse_domain_request s host port rest :
  zlen host <= 255 -> 0 <= port < 65536 -> s_input s = domain_request host port ++ rest ->
  parse_socks5_request s = finish_destination s (from_utf8_lossy host) port SOCKS5_VERSION (zlen (domain_request host port)).
Proof.
  intros Hh Hp Hi. pose proof (zlen_nonneg host). pose proof (zlen_nonneg rest).
  set (head := [SOCKS5_VERSION; SOCKS5_CONNECT; x00; SOCKS5_DOMAIN; z2b (zlen host)]).
  set (tail := [z2b (port / 256); z2b (port mod 256)]).
  assert (Hd : s_input s = head ++ host ++ tail ++ rest) by (rewrite Hi; unfold domain_request; by rewrite <-!app_assoc).
  assert (Hz : zlen (domain_request host port) = 5 + zlen host + 2).
  { unfold domain_request. rewrite !zlen_app, !zlen_cons, zlen_nil. lia. }
  assert (Hl : zlen (s_input s) = 5 + zlen host + 2 + zlen rest) by (rewrite Hi, zlen_app, Hz; lia).
  unfold parse_socks5_request, parse_socks5_port. rewrite Hl.
  rewrite (proj2 (Z.ltb_ge (5 + zlen host + 2 + zlen rest) 4)) by lia.
  assert (Hb : forall i, 0 <= i < 5 -> byte_at (s_input s) i = byte_at head i).
  { intros i Hlt. rewrite Hd. apply byte_at_app. done. }
  rewrite !Hb by lia. change (byte_at head 4) with (z2b (zlen host)). rewrite b2z_z2b_small by lia.
  cbn [negb]. change (beq (byte_at head 0) SOCKS5_VERSION) with true. change (beq (byte_at head 1) SOCKS5_CONNECT) with true.
  change (beq (byte_at head 3) SOCKS5_IPV4) with false. change (beq (byte_at head 3) SOCKS5_DOMAIN) with true. cbn [negb].
  rewrite (proj2 (Z.ltb_ge (5 + zlen host + 2 + zlen rest) 5)) by lia.
  rewrite !(proj2 (Z.ltb_ge (5 + zlen host + 2 + zlen rest) (5 + zlen host + 2))) by lia.
  assert (Hslice : slice (s_input s) 5 (5 + zlen host) = host).
  { rewrite Hd. unfold slice. change 5 with (zlen head) at 3. rewrite zdrop_app_exact.
    replace (5 + zlen host - 5) with (zlen host) by lia. apply ztake_app_exact. }
  assert (Ht : forall i, 0 <= i < 2 -> byte_at (s_input s) (5 + zlen host + i) = byte_at tail i).
  { intros i Hlt. unfold byte_at. rewrite Hd, app_assoc, app_nth2 by (rewrite length_app; unfold zlen; cbn; lia).
    rewrite app_nth1 by (rewrite length_app; unfold zlen; cbn; lia). f_equal. rewrite length_app. unfold zlen. cbn. lia. }
  rewrite Hslice, Hz. f_equal. apply port_of_bytes; [done| |].
  - specialize (Ht 0 ltac:(lia)). by rewrite Z.add_0_r in Ht.
  - by apply (Ht 1).
Qed.

Lemma connect_at_once methods host port rest :
  zlen methods <= 255 -> SOCKS5_NOAUTH ∈ methods -> zlen host <= 255 -> from_utf8 host = true -> 0 <= port < 65536 ->
  zlen (greeting methods ++ domain_request host port ++ rest) <= MAX_HANDSHAKE ->
  exists s, feed_socks_handshake (socks_push socks_default (greeting methods ++ domain_request host port ++ rest)) = (s, SocksComplete) /\
    s_destination s = mkEndpoint (Some host) (if bool_decide (take 1 host = bytes_of "/") then None else Some port) /\
    s_version s = SOCKS5_VERSION /\ s_reply s = [SOCKS5_VERSION; SOCKS5_NOAUTH] /\ early_data s = rest.
Proof.
  intros Hm Hin Hh Hu Hp Hl. unfold feed_socks_handshake. cbn [s_complete socks_push set_input socks_default s_input].
  rewrite app_nil_l, (proj2 (Z.ltb_ge MAX_HANDSHAKE _)) by done.
  change (greeting methods ++ domain_request host port ++ rest) with
    (SOCKS5_VERSION :: ([z2b (zlen methods)] ++ methods) ++ domain_request host port ++ rest) at 1.
  cbv iota beta. change (beq SOCKS5_VERSION SOCKS4_VERSION) with false. change (beq SOCKS5_VERSION SOCKS5_VERSION) with true.
  cbn [socks5_auth_done socks_push set_input socks_default]. unfold feed_socks5_auth.
  rewrite (parse_greeting _ methods (domain_request host port ++ rest)) by done. cbn [s_input s_reply].
  change (domain_request host port ++ rest) with (SOCKS5_VERSION :: drop 1 (domain_request host port) ++ rest) at 1.
  cbv iota beta. rewrite (parse_domain_request _ host port rest) by done.
  unfold finish_destination. eexists. split; [reflexivity|].
  cbn [set_reply s_destination s_version s_reply early_data s_input]. rewrite from_utf8_lossy_id by done.
  rewrite zdrop_app_exact. by destruct (bool_decide _).
Qed.

(** A SOCKS5 client that offers no authentication and asks for a domain, all
    in one read, is understood: the destination is the domain and the port
    it named (a path has no port), the method reply is the one for no
    authentication, and whatever follows the request is kept. *)
Theorem socks5_connect_parsed methods host port rest :
  zlen methods <= 255 -> SOCKS5_NOAUTH ∈ methods -> zlen host <= 255 -> from_utf8 host = true -> 0 <= port < 65536 ->
  zlen (greeting methods ++ domain_request host port ++ rest) <= MAX_HANDSHAKE ->
  exists s, feed_socks_handshake (socks_push socks_default (greeting methods ++ domain_request host port ++ rest)) = (s, SocksComplete) /\
    s_destination s = mkEndpoint (Some host) (if bool_decide (take 1 host = bytes_of "/") then None else Some port) /\
    s_version s = SOCKS5_VERSION /\ s_reply s = [SOCKS5_VERSION; SOCKS5_NOAUTH] /\ early_data s = rest.
Proof. apply connect_at_once. Qed.

(** ** Where the cut matters *)

Lemma feed_socks5_start l :
  head l = Some SOCKS5_VERSION -> zlen l <= MAX_HANDSHAKE ->
  feed_socks_handshake (socks_push socks_default l) = feed_socks5_auth (socks_push socks_default l).
Proof.
  intros E Hl. unfold feed_socks_handshake. cbn [s_complete socks_push set_input socks_default s_input].
  rewrite app_nil_l, (proj2 (Z.ltb_ge MAX_HANDSHAKE _)) by done. destruct l as [|b l]; [done|]. by injection E as ->.
Qed.

(** An unfinished greeting is parsed as a request. *)
Lemma unfinished_greeting part n :
  3 <= n <= 255 -> 4 <= zlen part < 2 + n -> byte_at part 0 = SOCKS5_VERSION -> byte_at part 1 = z2b n ->
  snd (feed_socks5_auth (socks_push socks_default part)) = SocksError.
Proof.
  intros Hn Hp Hb0 Hb.
  assert (Hauth : parse_socks5_auth (socks_push socks_default part) = (socks_push socks_default part, SocksNeedMore)).
  { unfold parse_socks5_auth. cbn [s_input socks_push set_input socks_default]. rewrite app_nil_l, Hb, b2z_z2b_small by lia.
    rewrite (proj2 (Z.ltb_ge (zlen part) 2)), (proj2 (Z.ltb_lt (zlen part) _)) by lia. done. }
  assert (Hreq : parse_socks5_request (set_reply (socks_push socks_default part) []) =
    fails (set_reply (socks_push socks_default part) []) "SOCKS5 only supports CONNECT").
  { unfold parse_socks5_request. cbn [s_input set_reply socks_push set_input socks_default]. rewrite app_nil_l, Hb, Hb0.
    rewrite (proj2 (Z.ltb_ge (zlen part) 4)) by lia. change (beq SOCKS5_VERSION SOCKS5_VERSION) with true. cbn [negb].
    replace (beq (z2b n) SOCKS5_CONNECT) with false; [done|].
    symmetry. apply not_true_iff_false. intros Hc. apply Byte.byte_dec_bl in Hc.
    apply (f_equal b2z) in Hc. rewrite b2z_z2b_small in Hc by lia. change (b2z SOCKS5_CONNECT) with 1 in Hc. lia. }
  unfold feed_socks5_auth. rewrite Hauth, Hreq. cbn. destruct part; [rewrite zlen_nil in Hp; lia|done].
Qed.

(** A greeting that offers three methods or more is refused when a read ends
    inside it after four bytes or more, although the whole of it is accepted:
    the unfinished greeting is parsed as a request. *)
Theorem split_greeting_refused methods k :
  3 <= zlen methods <= 255 -> SOCKS5_NOAUTH ∈ methods -> 4 <= k < zlen (greeting methods) ->
  snd (feed_socks_handshake (socks_push socks_default (greeting methods))) = SocksNeedMore /\
  s_reply (fst (feed_socks_handshake (socks_push socks_default (greeting methods)))) = [SOCKS5_VERSION; SOCKS5_NOAUTH] /\
  snd (feed_socks_handshake (socks_push socks_default (ztake k (greeting methods)))) = SocksError.
Proof.
  intros Hm Hin Hk.
  assert (Hz : zlen (greeting methods) = 2 + zlen methods) by (unfold greeting; rewrite zlen_app, !zlen_cons, zlen_nil; lia).
  set (part := ztake k (greeting methods)).
  assert (Hp : zlen part = k) by (unfold part; rewrite zlen_ztake; lia).
  assert (Hpre : greeting methods = part ++ zdrop k (greeting methods)) by (unfold part, ztake, zdrop; symmetry; apply take_drop).
  assert (Hb : forall i, 0 <= i < k -> byte_at part i = byte_at (greeting methods) i).
  { intros i Hi. rewrite <-(byte_at_app part (zdrop k (greeting methods))) by lia. by rewrite <-Hpre. }
  assert (Hh : head part = Some SOCKS5_VERSION).
  { destruct part as [|b part']; [rewrite zlen_nil in Hp; lia|]. by injection Hpre as <-. }
  rewrite (feed_socks5_start (greeting methods)) by (done || unfold MAX_HANDSHAKE; lia).
  rewrite (feed_socks5_start part) by (done || unfold MAX_HANDSHAKE; lia).
  split; [|split].
  3: { apply (unfinished_greeting part (zlen methods)); [done|lia|by rewrite Hb by lia|by rewrite Hb by lia]. }
  all: unfold feed_socks5_auth; rewrite (parse_greeting _ methods []) by (done || lia || (cbn; by rewrite app_nil_r)); done.
Qed.

Lemma finish_one_read bytes s t cancelled reads :
  0 < zlen bytes <= 1024 -> feed_socks_handshake (socks_push socks_default bytes) = (s, SocksComplete) ->
  st_cancelled t = false ->
  finish_socks_handshake [mkTurn false false true (Ok bytes); t] cancelled reads =
    ([], Some (if cancelled then None
               else Some (mkAccepted (s_destination s) (early_data s ++ follow_on reads) (s_version s)))).
Proof.
  intros Hl Hf Ht. unfold finish_socks_handshake. cbn [socks_loop_go st_cancelled].
  change (feed_socks_handshake socks_default) with (socks_default, SocksNeedMore). cbn [st_expired st_write st_read].
  change (bool_decide (s_reply socks_default = [])) with true. cbn [negb andb].
  destruct bytes as [|b l]; [by destruct Hl|]. rewrite ztake_all by lia.
  change (set_reply socks_default []) with socks_default. rewrite Ht, Hf. cbn. by destruct cancelled.
Qed.

Definition host_endpoint (host : list byte) (port : Z) : SocketEndpoint :=
  mkEndpoint (Some host) (if bool_decide (take 1 host = bytes_of "/") then None else Some port).

Definition reads_bytes (bytes : list byte) : socks_turn := mkTurn false false true (Ok bytes).

Lemma greeting_fed methods :
  zlen methods <= 255 -> SOCKS5_NOAUTH ∈ methods ->
  feed_socks_handshake (socks_push socks_default (greeting methods)) =
    (mkSocks [] [SOCKS5_VERSION; SOCKS5_NOAUTH] (mkEndpoint None None) None true false x00 [], SocksNeedMore).
Proof.
  intros Hm Hin. rewrite feed_socks5_start; [|done|unfold greeting, MAX_HANDSHAKE; rewrite zlen_app, !zlen_cons, zlen_nil; lia].
  unfold feed_socks5_auth. by rewrite (parse_greeting _ methods []) by (done || (cbn; by rewrite app_nil_r)).
Qed.

(** A request in a read of its own, after the greeting. *)
Lemma request_fed s host port :
  s_input s = [] -> s_complete s = false -> socks5_auth_done s = true ->
  zlen host <= 255 -> from_utf8 host = true -> 0 <= port < 65536 ->
  feed_socks_handshake (socks_push s (domain_request host port)) =
    (mkSocks [] (s_reply s) (host_endpoint host port) (s_error s) true true SOCKS5_VERSION [], SocksComplete).
Proof.
  intros Hi Hc Ha Hh Hu Hp. pose proof (zlen_nonneg host).
  assert (Hr : zlen (domain_request host port) = 5 + zlen host + 2).
  { unfold domain_request. rewrite !zlen_app, !zlen_cons, zlen_nil. lia. }
  assert (Hin : s_input (socks_push s (domain_request host port)) = domain_request host port).
  { cbn [s_input socks_push set_input]. by rewrite Hi. }
  rewrite feed_in_request; rewrite ?Hin.
  - change (beq (byte_at (domain_request host port) 0) SOCKS4_VERSION) with false. cbv iota beta.
    rewrite (parse_domain_request _ host port []) by (done || by rewrite app_nil_r).
    unfold finish_destination, host_endpoint. rewrite Hin, zdrop_all, from_utf8_lossy_id by (done || lia).
    cbn [s_reply s_error socks5_auth_done socks_push set_input]. rewrite Ha. by destruct (bool_decide _).
  - split; [done|]. rewrite Hin. right. done.
  - unfold MAX_HANDSHAKE. lia.
Qed.

(** C38: When greeting and request arrive in one read, the method reply is never
    written: a client that sends them in two reads is told that no
    authentication is needed, one that sends them together is accepted just
    the same and told nothing. *)
Theorem pipelined_method_reply_lost methods host port t :
  zlen methods <= 255 -> SOCKS5_NOAUTH ∈ methods -> zlen host <= 255 -> from_utf8 host = true -> 0 <= port < 65536 ->
  st_cancelled t = false ->
  let accepted := Some (Some (mkAccepted (host_endpoint host port) [] SOCKS5_VERSION)) in
  finish_socks_handshake [reads_bytes (greeting methods); reads_bytes (domain_request host port); t] false [] =
    ([SOCKS5_VERSION; SOCKS5_NOAUTH], accepted) /\
  finish_socks_handshake [reads_bytes (greeting methods ++ domain_request host port); t] false [] = ([], accepted).
Proof.
  intros Hm Hin Hh Hu Hp Ht accepted. pose proof (zlen_nonneg methods). pose proof (zlen_nonneg host).
  assert (Hg : zlen (greeting methods) = 2 + zlen methods) by (unfold greeting; rewrite zlen_app, !zlen_cons, zlen_nil; lia).
  assert (Hr : zlen (domain_request host port) = 5 + zlen host + 2).
  { unfold domain_request. rewrite !zlen_app, !zlen_cons, zlen_nil. lia. }
  split.
  - unfold finish_socks_handshake, reads_bytes. cbn [socks_loop_go st_cancelled st_expired st_write st_read].
    change (feed_socks_handshake socks_default) with (socks_default, SocksNeedMore). cbv iota beta.
    change (set_reply socks_default []) with socks_default.
    change (negb (bool_decide (s_reply socks_default = [])) && negb true) with false. cbv iota beta.
    change (greeting methods) with (SOCKS5_VERSION :: tail (greeting methods)) at 1. cbv iota beta.
    rewrite ztake_all by (cbn [tail]; lia). cbn [tail]. rewrite greeting_fed by done. cbv iota beta.
    cbn [s_reply set_reply]. change (negb (bool_decide ([SOCKS5_VERSION; SOCKS5_NOAUTH] = [])) && negb true) with false.
    cbv iota beta.
    change (domain_request host port) with (SOCKS5_VERSION :: tail (domain_request host port)) at 1. cbv iota beta.
    rewrite ztake_all by lia. rewrite Ht, (request_fed _ host port) by done. reflexivity.
  - destruct (connect_at_once methods host port [] Hm Hin Hh Hu Hp) as (s & Hf & Hd & Hv & _ & He).
    { rewrite app_nil_r, zlen_app. unfold MAX_HANDSHAKE. lia. }
    rewrite app_nil_r in Hf. unfold reads_bytes. rewrite (finish_one_read _ s t false []); [|rewrite zlen_app; lia|done|done].
    cbn. by rewrite Hd, Hv, He.
Qed.

(** Bytes that are refused behind a SOCKS5 greeting in the same read are taken
    for a SOCKS4 request when they come in the next one. *)
Theorem request_version_depends_on_cut :
  let request := [SOCKS4_VERSION; SOCKS4_CONNECT; x00; x50; x01; x02; x03; x04; x00] in
  snd (feed_socks_handshake (socks_push socks_default (greeting [SOCKS5_NOAUTH] ++ request))) = SocksError /\
  let '(s, status) := feed_socks_handshake (socks_push socks_default (greeting [SOCKS5_NOAUTH])) in
  status = SocksNeedMore /\ snd (feed_socks_handshake (socks_push s request)) = SocksComplete.
Proof. vm_compute. done. Qed.

(** ** Witnesses *)

Definition demo_host : list byte := bytes_of "example.com".

Lemma request_cut_independent_witness :
  let s := fst (feed_socks_handshake (socks_push socks_default (greeting [SOCKS5_NOAUTH]))) in
  let r := domain_request demo_host 80 in
  feed_socks_handshake (socks_push s (ztake 9 r ++ zdrop 9 r)) =
    feed_socks_handshake (socks_push (fst (feed_socks_handshake (socks_push s (ztake 9 r)))) (zdrop 9 r)).
Proof.
  intros s r. refine (request_cut_independent s (ztake 9 r) (zdrop 9 r) _ _).
  - split; [reflexivity|]. right. split; reflexivity.
  - vm_compute. discriminate.
Defined.

Lemma socks5_connect_parsed_witness :
  exists s, feed_socks_handshake (socks_push socks_default
    (greeting [SOCKS5_NOAUTH] ++ domain_request demo_host 80 ++ bytes_of "GET")) = (s, SocksComplete) /\
    s_destination s = mkEndpoint (Some demo_host) (Some 80) /\ early_data s = bytes_of "GET".
Proof.
  destruct (socks5_connect_parsed [SOCKS5_NOAUTH] demo_host 80 (bytes_of "GET")) as (s & Hf & Hd & _ & _ & He).
  - vm_compute. discriminate.
  - by apply list_elem_of_singleton.
  - vm_compute. discriminate.
  - vm_compute. reflexivity.
  - lia.
  - vm_compute. discriminate.
  - exists s. split; [exact Hf|]. split; [exact Hd|exact He].
Defined.

Lemma split_greeting_refused_witness :
  snd (feed_socks_handshake (socks_push socks_default (ztake 4 (greeting [x00; x01; x02])))) = SocksError.
Proof.
  apply (split_greeting_refused [x00; x01; x02] 4).
  - vm_compute. split; discriminate.
  - by apply list_elem_of_here.
  - vm_compute. split; [discriminate|reflexivity].
Defined.

Lemma pipelined_method_reply_lost_witness :
  finish_socks_handshake
    [reads_bytes (greeting [SOCKS5_NOAUTH] ++ domain_request demo_host 80); mkTurn false false true (Err WouldBlock)] false [] =
  ([], Some (Some (mkAccepted (mkEndpoint (Some demo_host) (Some 80)) [] SOCKS5_VERSION))).
Proof.
  refine (proj2 (pipelined_method_reply_lost [SOCKS5_NOAUTH] demo_host 80 (mkTurn false false true (Err WouldBlock)) _ _ _ _ _ _)).
  - vm_compute. discriminate.
  - by apply list_elem_of_singleton.
  - vm_compute. discriminate.
  - vm_compute. reflexivity.
  - lia.
  - reflexivity.
Defined.
