(* ===== verification/Tunnel.v ===== *)
(** * Tunnel: [crates/et-cli/src/tunnel.rs] and [host.rs]

    What [-t], [-r], [-D], [-W] and the destination of the command line mean:
    the requests and endpoints they stand for. Text is UTF-8; every delimiter
    is ASCII, so the code's characters are bytes here. *)

From Stdlib Require Import String.
From S2P Require Import Prelude Bytes FramingIo Socks.

(** ** Requests *)

Record PortForwardSourceRequest := mkSource {
  source : option SocketEndpoint;
  destination : option SocketEndpoint;
  environmentvariable : option (list byte)
}.

Definition MAX_TUNNEL_REQUESTS : Z := 65535.
Definition MAX_UNIX_SOCKET_PATH : Z := 107.

Inductive TunnelError :=
  | InvalidSyntax (input : list byte)
  | InvalidEndpoint (value : list byte)
  | MismatchedRanges
  | TooManyRequests.

Definition tcp_endpoint (name : list byte) (port : Z) : SocketEndpoint := mkEndpoint (Some name) (Some port).
Definition tcp_port_endpoint (port : Z) : SocketEndpoint := mkEndpoint None (Some port).

Definition unix_endpoint (path : list byte) : result TunnelError SocketEndpoint :=
  if negb (starts_with (bytes_of "/") path) || contains x00 path || (MAX_UNIX_SOCKET_PATH <? zlen path)
     || list_eqb path (bytes_of "/")
  then Err (InvalidEndpoint path)
  else Ok (mkEndpoint (Some path) None).

(** [str::parse::<u16>] *)
Definition parse_u16 (value : list byte) : option Z := from_str_radix 10 65535 value.

Definition parse_single_port (value : list byte) : result TunnelError Z :=
  match parse_u16 value with
  | None => Err (InvalidEndpoint value)
  | Some port => if port =? 0 then Err (InvalidEndpoint value) else Ok port
  end.

Record PortRange := mkRange { r_start : Z; r_end : Z }.

Definition count (r : PortRange) : Z := (r_end r - r_start r) mod 2 ^ 16 + 1.
Definition at_ (r : PortRange) (offset : Z) : Z :=
  (r_start r + if offset <=? 65535 then offset else 65535) mod 2 ^ 16.

Definition parse_port_range (value : list byte) : result TunnelError PortRange :=
  let parts := split_by (beq "-") value in
  let? start := parse_single_port (unwrap_or [] (head parts)) in
  let? last := match parts with _ :: raw :: _ => parse_single_port raw | _ => Ok start end in
  if (2 <? length parts)%nat || (last <? start) then Err (InvalidEndpoint value) else Ok (mkRange start last).

Definition ensure_capacity (current additional : Z) : result TunnelError unit :=
  match usize_checked_add current additional with
  | Some total => if MAX_TUNNEL_REQUESTS <? total then Err TooManyRequests else Ok tt
  | None => Err TooManyRequests
  end.

Definition push_request (requests : list PortForwardSourceRequest) (request : PortForwardSourceRequest)
    : result TunnelError (list PortForwardSourceRequest) :=
  let? _ := ensure_capacity (zlen requests) 1 in
  Ok (requests ++ [request]).

(** ** Arguments *)

Definition is_numeric (part : list byte) : bool := forallb (fun byte => is_ascii_digit byte || beq byte "-") part.

(** The requests of [0..count]. *)
Definition range_requests (sources destinations : PortRange) : list PortForwardSourceRequest :=
  map (fun offset =>
         mkSource (Some (tcp_endpoint (bytes_of "localhost") (at_ sources (Z.of_nat offset))))
           (Some (tcp_port_endpoint (at_ destinations (Z.of_nat offset)))) None)
    (seq 0 (Z.to_nat (count sources))).

Definition parse_et_style (parts : list (list byte)) (input : list byte) (requests : list PortForwardSourceRequest)
    : result TunnelError (list PortForwardSourceRequest) :=
  match parts with
  | src :: dst :: _ =>
      let source_is_socket := starts_with (bytes_of "/") src in
      let destination_is_socket := starts_with (bytes_of "/") dst in
      if source_is_socket || (destination_is_socket && is_numeric src) then
        let? s := if source_is_socket then unix_endpoint src
                  else let? port := parse_single_port src in Ok (tcp_endpoint (bytes_of "localhost") port) in
        let? d := if destination_is_socket then unix_endpoint dst
                  else let? port := parse_single_port dst in Ok (tcp_port_endpoint port) in
        push_request requests (mkSource (Some s) (Some d) None)
      else if negb (is_numeric src) && negb (is_numeric dst) then
        push_request requests (mkSource None (Some (mkEndpoint (Some dst) None)) (Some src))
      else if negb (eqb (contains "-" src) (contains "-" dst)) then Err (InvalidSyntax input)
      else
        let? sources := parse_port_range src in
        let? destinations := parse_port_range dst in
        if negb (count sources =? count destinations) then Err MismatchedRanges
        else
          let? _ := ensure_capacity (zlen requests) (count sources) in
          Ok (requests ++ range_requests sources destinations)
  | _ => Err (InvalidSyntax input)
  end.

(** Split on colons outside square brackets, which are dropped. *)
Fixpoint ssh_parts (input : list byte) (parts : list (list byte)) (current : list byte) (in_brackets : bool)
    : list (list byte) :=
  match input with
  | [] => parts ++ [current]
  | c :: input =>
      if beq c "[" then ssh_parts input parts current true
      else if beq c "]" then ssh_parts input parts current false
      else if beq c ":" && negb in_brackets then ssh_parts input (parts ++ [current]) [] in_brackets
      else ssh_parts input parts (current ++ [c]) in_brackets
  end.

Definition parse_ssh_style (input : list byte) (requests : list PortForwardSourceRequest)
    : result TunnelError (list PortForwardSourceRequest) :=
  let parts := ssh_parts input [] [] false in
  let parts := if (length parts =? 3)%nat then bytes_of "localhost" :: parts else parts in
  match parts with
  | [bind; port; host; hostport] =>
      match host with
      | [] => Err (InvalidSyntax input)
      | _ =>
          let? p := parse_single_port port in
          let? hp := parse_single_port hostport in
          push_request requests (mkSource (Some (tcp_endpoint bind p)) (Some (tcp_endpoint host hp)) None)
      end
  | _ => Err (InvalidSyntax input)
  end.

(** One element of a list of tunnels, or the only one. *)
Definition parse_element (element : list byte) (requests : list PortForwardSourceRequest)
    : result TunnelError (list PortForwardSourceRequest) :=
  let parts := split_by (beq ":") element in
  if (length parts <=? 2)%nat then parse_et_style parts element requests else parse_ssh_style element requests.

Fixpoint parse_elements (elements : list (list byte)) (requests : list PortForwardSourceRequest)
    : result TunnelError (list PortForwardSourceRequest) :=
  match elements with
  | [] => Ok requests
  | element :: elements => let? requests := parse_element element requests in parse_elements elements requests
  end.

Definition parse_argument (argument : list byte) (requests : list PortForwardSourceRequest)
    : result TunnelError (list PortForwardSourceRequest) :=
  let elements := split_by (beq ",") argument in
  if (1 <? length elements)%nat then parse_elements elements requests else parse_element argument requests.

Fixpoint parse_arguments (arguments : list (list byte)) (requests : list PortForwardSourceRequest)
    : result TunnelError (list PortForwardSourceRequest) :=
  match arguments with
  | [] => Ok requests
  | argument :: arguments => let? requests := parse_argument argument requests in parse_arguments arguments requests
  end.

Definition parse_tunnels (arguments : list (list byte)) : result TunnelError (list PortForwardSourceRequest) :=
  parse_arguments arguments [].

(** [str::rsplit_once(c)] *)
Definition rsplit_once (c : byte) (l : list byte) : option (list byte * list byte) :=
  match split_once c (rev l) with Some (x, y) => Some (rev y, rev x) | None => None end.

(** [strip_prefix('[')], then [split_once(']')] and [strip_prefix(':')]. *)
Definition bracketed (rest : list byte) (message : list byte) : result TunnelError (list byte * list byte) :=
  match split_once "]" rest with
  | None => Err (InvalidSyntax message)
  | Some (host, rest) =>
      match strip_prefix (bytes_of ":") rest with
      | None => Err (InvalidSyntax message)
      | Some port => Ok (host, port)
      end
  end.

Definition parse_dynamic_forward (input : list byte) : result TunnelError SocketEndpoint :=
  match input with
  | [] => Err (InvalidSyntax (bytes_of "Dynamic forward (-D) requires [bind:]port"))
  | _ =>
      match strip_prefix (bytes_of "[") input with
      | Some rest =>
          let? r := bracketed rest (bytes_of "Dynamic forward IPv6 bind must look like [::1]:1080") in
          let (host, port) := r in
          let? port := parse_single_port port in
          Ok (tcp_endpoint host port)
      | None =>
          match rsplit_once ":" input with
          | None => let? port := parse_single_port input in Ok (tcp_endpoint (bytes_of "127.0.0.1") port)
          | Some (host, port) =>
              let host := match host with [] => bytes_of "0.0.0.0" | _ => host end in
              let? port := parse_single_port port in
              Ok (tcp_endpoint host port)
          end
      end
  end.

Definition host_not_empty : list byte := bytes_of "Stdio forward host must not be empty".

Definition parse_stdio_forward (input : list byte) : result TunnelError SocketEndpoint :=
  match input with
  | [] => Err (InvalidSyntax (bytes_of "Stdio forward (-W) requires host:port"))
  | _ =>
      if starts_with (bytes_of "/") input then unix_endpoint input
      else
        let? r :=
          match strip_prefix (bytes_of "[") input with
          | Some rest => bracketed rest (bytes_of "Stdio forward IPv6 destination must look like [::1]:8080")
          | None =>
              match rsplit_once ":" input with
              | None => Err (InvalidSyntax (bytes_of "Stdio forward (-W) requires host:port or a Unix path"))
              | Some r => Ok r
              end
          end in
        let (host, port) := r in
        match host with
        | [] => Err (InvalidSyntax host_not_empty)
        | _ => let? port := parse_single_port port in Ok (tcp_endpoint host port)
        end
  end.

(** ** Hosts *)

Record ParsedHostString := mkHostString { user : list byte; host : list byte; port_suffix : list byte }.

(** It never fails. *)
Definition parse_host_string (input : list byte) : ParsedHostString :=
  let (user, remaining) := match split_once "@" input with Some r => r | None => ([], input) end in
  if starts_with (bytes_of "[") remaining then
    match split_once "]" remaining with
    | Some (inside, after) =>
        mkHostString user (inside ++ bytes_of "]")
          (match strip_prefix (bytes_of ":") after with Some rest => bytes_of ":" ++ rest | None => [] end)
    | None => mkHostString user remaining []
    end
  else
    match split_once ":" remaining with
    | Some (host, port) => mkHostString user host (bytes_of ":" ++ port)
    | None => mkHostString user remaining []
    end.

Inductive HostError := InvalidColonCount (input : list byte) | BadPort (port : list byte).

Record Destination := mkDestination { d_user : option (list byte); d_host : list byte; d_port : Z }.

(** [str::contains("::")] *)
Fixpoint double_colon (l : list byte) : bool :=
  match l with
  | a :: (b :: _) as rest => (beq a ":" && beq b ":") || double_colon rest
  | _ => false
  end.

Definition colons (l : list byte) : Z := zlen (filter (fun b => b = ":"%byte) l).

(** The [unwrap] of [rfind] is behind a colon count of one or eight. *)
Definition parse_positional_host (input : list byte) (default_port : Z) : result HostError Destination :=
  let (user, host_arg) :=
    match split_once "@" input with Some (user, rest) => (Some user, rest) | None => (None, input) end in
  let colon_count := colons host_arg in
  if (colon_count =? 0) || double_colon host_arg || (colon_count =? 7) then
    Ok (mkDestination user host_arg default_port)
  else if (colon_count =? 1) || (colon_count =? 8) then
    match rsplit_once ":" host_arg with
    | None => Err (InvalidColonCount input)
    | Some (host, port) =>
        match parse_u16 port with
        | None => Err (BadPort port)
        | Some port => Ok (mkDestination user host port)
        end
    end
  else Err (InvalidColonCount input).

(** ** What parsing accepts *)

Definition port_ok (port : Z) : Prop := 1 <= port <= 65535.

Definition path_ok (path : list byte) : Prop :=
  starts_with (bytes_of "/") path = true /\ 1 < zlen path <= MAX_UNIX_SOCKET_PATH /\ x00 ∉ path.

(** A path without a port, or a port with or without a name. *)
Definition endpoint_ok (e : SocketEndpoint) : Prop :=
  match ep_name e, ep_port e with
  | Some path, None => path_ok path
  | _, Some port => port_ok port
  | None, None => False
  end.

(** Two endpoints; or a variable that names the pipe the remote side makes. *)
Definition request_ok (r : PortForwardSourceRequest) : Prop :=
  match source r, destination r, environmentvariable r with
  | Some s, Some d, None => endpoint_ok s /\ endpoint_ok d
  | None, Some d, Some variable => is_numeric variable = false /\ exists name, d = mkEndpoint (Some name) None /\ is_numeric name = false
  | _, _, _ => False
  end.

Lemma parse_single_port_ok value port : parse_single_port value = Ok port -> port_ok port.
Proof.
  unfold parse_single_port, parse_u16. destruct (from_str_radix 10 65535 value) as [p|] eqn:Hp; [|done].
  destruct (Z.eqb_spec p 0); [done|]. intros [= <-]. apply from_str_radix_bound in Hp; [|done]. unfold port_ok. lia.
Qed.

Lemma unix_endpoint_ok path e : unix_endpoint path = Ok e -> e = mkEndpoint (Some path) None /\ path_ok path.
Proof.
  unfold unix_endpoint. destruct (starts_with _ path) eqn:Hs; [|done]. cbn [negb orb].
  destruct (contains x00 path) eqn:Hc; [done|]. destruct (Z.ltb_spec MAX_UNIX_SOCKET_PATH (zlen path)); [done|].
  destruct (list_eqb _ _) eqn:He; [done|]. intros [= <-]. split; [done|]. split_and!; [done| |done|].
  - apply starts_with_spec in Hs as [rest ->]. rewrite zlen_app. change (zlen (bytes_of "/")) with 1.
    destruct rest as [|b rest]; [by rewrite app_nil_r, (proj2 (list_eqb_spec _ _) eq_refl) in He|].
    rewrite zlen_cons. pose proof (zlen_nonneg rest). lia.
  - intros Hin. apply contains_spec in Hin. by rewrite Hin in Hc.
Qed.

Definition requests_ok (rs : list PortForwardSourceRequest) : Prop :=
  zlen rs <= MAX_TUNNEL_REQUESTS /\ Forall request_ok rs.

Lemma ensure_capacity_ok n m u : ensure_capacity n m = Ok u -> n + m <= MAX_TUNNEL_REQUESTS.
Proof.
  unfold ensure_capacity, usize_checked_add. destruct (_ <=? _); [|done].
  by destruct (Z.ltb_spec MAX_TUNNEL_REQUESTS (n + m)).
Qed.

Lemma push_request_ok rs r rs' : requests_ok rs -> request_ok r -> push_request rs r = Ok rs' -> requests_ok rs'.
Proof.
  intros [Hl Hrs] Hr. unfold push_request. destruct (ensure_capacity _ _) eqn:He; [|done]. intros [= <-].
  apply ensure_capacity_ok in He. split; [by rewrite zlen_app|]. apply Forall_app. split; [done|by constructor].
Qed.

Lemma parse_port_range_ok value r :
  parse_port_range value = Ok r -> port_ok (r_start r) /\ port_ok (r_end r) /\ r_start r <= r_end r.
Proof.
  unfold parse_port_range. cbv zeta. destruct (parse_single_port _) as [start|] eqn:Hs; [|done].
  apply parse_single_port_ok in Hs.
  destruct (match split_by (beq "-") value with _ :: raw :: _ => parse_single_port raw | _ => Ok start end) as [last|] eqn:Hl; [|done].
  destruct (_ || _) eqn:Hbad; [done|]. intros [= <-]. apply orb_false_elim in Hbad as [_ Hbad]. apply Z.ltb_ge in Hbad.
  split_and!; [done| |done]. cbn. repeat case_match; simplify_eq; first [done|by eapply parse_single_port_ok].
Qed.

Lemma range_at r offset :
  port_ok (r_start r) -> port_ok (r_end r) -> r_start r <= r_end r -> 0 <= offset < count r ->
  count r = r_end r - r_start r + 1 /\ at_ r offset = r_start r + offset /\ port_ok (at_ r offset).
Proof.
  unfold port_ok, at_. intros Hs He Hle Ho.
  assert (Hc : count r = r_end r - r_start r + 1) by (unfold count; rewrite Z.mod_small; lia). rewrite Hc in *.
  destruct (Z.leb_spec offset 65535); [|lia]. rewrite Z.mod_small by lia. lia.
Qed.

Lemma range_requests_ok s d :
  port_ok (r_start s) -> port_ok (r_end s) -> r_start s <= r_end s ->
  port_ok (r_start d) -> port_ok (r_end d) -> r_start d <= r_end d -> count s = count d ->
  Forall request_ok (range_requests s d) /\ zlen (range_requests s d) = count s.
Proof.
  intros Hs Hs' Hsl Hd Hd' Hdl Hc. assert (0 <= count s) by (unfold count; pose proof (Z.mod_pos_bound (r_end s - r_start s) (2 ^ 16)); lia). split.
  - apply Forall_forall. intros r Hr. apply list_elem_of_In, in_map_iff in Hr as (o & <- & Ho).
    apply in_seq in Ho. split; cbn; apply range_at; try done; lia.
  - unfold zlen, range_requests. rewrite length_map, length_seq. lia.
Qed.

Lemma parse_et_style_ok parts input rs rs' : requests_ok rs -> parse_et_style parts input rs = Ok rs' -> requests_ok rs'.
Proof.
  intros Hrs. unfold parse_et_style. destruct parts as [|src [|dst rest]]; [done|done|]. cbv zeta.
  destruct (_ || _) eqn:Hsock.
  - match goal with |- (let? s := ?e in _) = _ -> _ => assert (He : forall s, e = Ok s -> endpoint_ok s); [|destruct e as [s|]; [|done]] end.
    { intros s. destruct (starts_with _ src); [by intros [-> ?]%unix_endpoint_ok|].
      destruct (parse_single_port src) as [p|] eqn:Hp; [|done]. intros [= <-]. by apply parse_single_port_ok in Hp. }
    match goal with |- (let? d := ?e in _) = _ -> _ => assert (Hd : forall s, e = Ok s -> endpoint_ok s); [|destruct e as [d|]; [|done]] end.
    { intros d. destruct (starts_with _ dst); [by intros [-> ?]%unix_endpoint_ok|].
      destruct (parse_single_port dst) as [p|] eqn:Hp; [|done]. intros [= <-]. by apply parse_single_port_ok in Hp. }
    apply push_request_ok; [done|]. split; auto.
  - destruct (negb (is_numeric src) && negb (is_numeric dst)) eqn:Hnum.
    + apply push_request_ok; [done|]. apply andb_prop in Hnum as [?%negb_true_iff ?%negb_true_iff]. split; [done|]. by exists dst.
    + destruct (negb (eqb _ _)); [discriminate|]. destruct (parse_port_range src) as [s|] eqn:Hs; [|done].
      destruct (parse_port_range dst) as [d|] eqn:Hd; [|done]. destruct (Z.eqb_spec (count s) (count d)) as [Hc|]; [|done]. cbn [negb].
      destruct (ensure_capacity _ _) eqn:He; [|done]. intros [= <-].
      apply parse_port_range_ok in Hs as (? & ? & ?), Hd as (? & ? & ?). apply ensure_capacity_ok in He.
      destruct (range_requests_ok s d) as [Hok Hlen]; [done..|]. split; [rewrite zlen_app, Hlen; lia|].
      apply Forall_app. split; [apply Hrs|done].
Qed.

Lemma parse_ssh_style_ok input rs rs' : requests_ok rs -> parse_ssh_style input rs = Ok rs' -> requests_ok rs'.
Proof.
  intros Hrs. unfold parse_ssh_style. cbv zeta.
  destruct (if (length (ssh_parts input [] [] false) =? 3)%nat then _ else _) as [|bind [|port [|host [|hp [|]]]]]; try done.
  destruct host as [|h host]; [done|]. destruct (parse_single_port port) as [p|] eqn:Hp; [|done].
  destruct (parse_single_port hp) as [q|] eqn:Hq; [|done]. apply push_request_ok; [done|].
  apply parse_single_port_ok in Hp, Hq. by split.
Qed.

Lemma parse_element_ok e rs rs' : requests_ok rs -> parse_element e rs = Ok rs' -> requests_ok rs'.
Proof.
  unfold parse_element. cbv zeta. destruct (_ <=? _)%nat; [apply parse_et_style_ok|apply parse_ssh_style_ok].
Qed.

(** Whatever the command line, every request that parsing accepts has a valid
    shape (two endpoints with ports in range or Unix paths a socket can have,
    or a variable and a pipe name), and there are no more than the limit. *)
Theorem parsed_tunnels_ok arguments rs : parse_tunnels arguments = Ok rs -> requests_ok rs.
Proof.
  unfold parse_tunnels. assert (H0 : requests_ok []) by (split; [done|constructor]). revert H0.
  generalize (@nil PortForwardSourceRequest) as rs0. induction arguments as [|a arguments IH]; intros rs0 H0; cbn [parse_arguments].
  { by intros [= <-]. }
  destruct (parse_argument a rs0) as [rs1|] eqn:Ha; [|done]. apply IH. clear IH. revert Ha. unfold parse_argument. cbv zeta.
  destruct (_ <? _)%nat; [|by apply parse_element_ok].
  revert rs0 H0. induction (split_by (beq ",") a) as [|e es IH]; intros rs0 H0; cbn [parse_elements]; [by intros [= <-]|].
  destruct (parse_element e rs0) as [rs2|] eqn:He; [|done]. apply IH. by eapply parse_element_ok.
Qed.

Lemma parsed_tunnels_ok_witness :
  exists rs, parse_tunnels [bytes_of "8000-8002:9000-9002,/tmp/a.sock:22"; bytes_of "[::1]:80:example.org:8080"] = Ok rs /\
    zlen rs = 5 /\ requests_ok rs.
Proof.
  destruct (parse_tunnels _) as [rs|] eqn:E; [|exfalso; vm_compute in E; discriminate E].
  exists rs. split; [reflexivity|]. split; [vm_compute in E; by injection E as <-|]. exact (parsed_tunnels_ok _ _ E).
Defined.

(** ** Round trips *)

Lemma parse_single_port_dec port : port_ok port -> parse_single_port (dec port) = Ok port.
Proof.
  unfold port_ok, parse_single_port, parse_u16. intros Hp. rewrite from_str_radix_dec by lia.
  by rewrite (proj2 (Z.eqb_neq port 0)) by lia.
Qed.

(** Decimal text holds no delimiter. *)
Lemma dec_free c n : 0 <= n -> is_ascii_digit c = false -> Forall (fun b => beq c b = false) (dec n).
Proof.
  intros Hn Hc. destruct (dec_digits n Hn) as [Hd _]. eapply Forall_impl; [exact Hd|]. cbn. intros b Hb.
  destruct (beq_spec c b) as [->|]; [by rewrite Hb in Hc|done].
Qed.

Lemma is_numeric_app a b : is_numeric (a ++ b) = is_numeric a && is_numeric b.
Proof. apply forallb_app. Qed.

Lemma is_numeric_dec n : 0 <= n -> is_numeric (dec n) = true.
Proof.
  intros Hn. destruct (dec_digits n Hn) as [Hd _]. apply forallb_forall. intros b Hb. rewrite Forall_forall in Hd.
  by rewrite (Hd b) by (by apply list_elem_of_In).
Qed.

Definition range_text (a b : Z) : list byte := dec a ++ "-"%byte :: dec b.

Lemma range_text_facts a b :
  port_ok a -> port_ok b ->
  is_numeric (range_text a b) = true /\ contains "-" (range_text a b) = true /\ starts_with (bytes_of "/") (range_text a b) = false /\
  Forall (fun x => beq ":" x = false) (range_text a b) /\ Forall (fun x => beq "," x = false) (range_text a b).
Proof.
  unfold port_ok. intros Ha Hb. split_and!.
  - unfold range_text. rewrite is_numeric_app, is_numeric_dec by lia. cbn [andb]. change ("-"%byte :: dec b) with (["-"%byte] ++ dec b).
    by rewrite is_numeric_app, is_numeric_dec by lia.
  - apply contains_spec, elem_of_app. right. left.
  - unfold range_text. destruct (dec_digits a) as [Hd Hne]; [lia|]. destruct (dec a) as [|x rest]; [done|].
    apply Forall_cons_1 in Hd as [Hx _]. cbn. destruct (beq_spec "/" x) as [<-|]; [by vm_compute in Hx|done].
  - apply Forall_app. split; [apply dec_free; [lia|done]|]. constructor; [done|]. apply dec_free; [lia|done].
  - apply Forall_app. split; [apply dec_free; [lia|done]|]. constructor; [done|]. apply dec_free; [lia|done].
Qed.

Lemma parse_port_range_text a b : port_ok a -> port_ok b -> a <= b -> parse_port_range (range_text a b) = Ok (mkRange a b).
Proof.
  intros Ha Hb Hle. unfold parse_port_range, range_text. rewrite split_by_piece; [|apply dec_free; [unfold port_ok in *; lia|done]|done].
  rewrite split_by_last by (apply dec_free; [unfold port_ok in *; lia|done]). cbv zeta. cbn [head unwrap_or].
  rewrite !parse_single_port_dec by done. cbn [length Nat.ltb Nat.leb orb]. by rewrite (proj2 (Z.ltb_ge b a)) by done.
Qed.

(** A pair of ranges of one length forwards port by port: the argument that
    prints two ranges is parsed into one request for each port, the ports of
    both sides counted up together. *)
Theorem range_argument_expands a b c d :
  port_ok a -> port_ok b -> port_ok c -> port_ok d -> a <= b -> d - c = b - a ->
  parse_tunnels [range_text a b ++ ":"%byte :: range_text c d] =
  Ok (map (fun i => mkSource (Some (tcp_endpoint (bytes_of "localhost") (a + Z.of_nat i)))
        (Some (tcp_port_endpoint (c + Z.of_nat i))) None) (seq 0 (Z.to_nat (b - a + 1)))).
Proof.
  intros Ha Hb Hc Hd Hle Hlen. destruct (range_text_facts a b Ha Hb) as (N1 & C1 & S1 & F1 & G1).
  destruct (range_text_facts c d Hc Hd) as (N2 & C2 & S2 & F2 & G2).
  unfold parse_tunnels. cbn [parse_arguments]. unfold parse_argument.
  rewrite (split_by_last (beq ",")) by (apply Forall_app; split; [done|by constructor]). cbv zeta. cbn [length Nat.ltb Nat.leb].
  unfold parse_element. rewrite split_by_piece, split_by_last by done. cbv zeta. cbn [length Nat.leb]. unfold parse_et_style. cbv zeta.
  rewrite S1, S2, N1, N2, C1, C2. cbn [orb andb negb eqb]. rewrite !parse_port_range_text by (done || lia).
  assert (Hcount : forall x y, port_ok x -> port_ok y -> x <= y -> count (mkRange x y) = y - x + 1).
  { unfold port_ok, count. intros x y ? ? ?. cbn. rewrite Z.mod_small by lia. lia. }
  rewrite !Hcount by (done || lia). rewrite Hlen, Z.eqb_refl. cbn [negb].
  unfold ensure_capacity, usize_checked_add. unfold port_ok in *. rewrite zlen_nil.
  rewrite (proj2 (Z.leb_le _ _)) by (unfold usize_max, u64_max; lia). rewrite (proj2 (Z.ltb_ge _ _)) by (unfold MAX_TUNNEL_REQUESTS; lia).
  cbn [app]. f_equal. unfold range_requests. rewrite Hcount by (unfold port_ok; lia). apply map_ext_in. intros i Hi%in_seq.
  unfold at_. cbn. rewrite (proj2 (Z.leb_le _ _)), !Z.mod_small by lia. done.
Qed.

Lemma range_argument_expands_witness :
  parse_tunnels [bytes_of "8000-8001:9000-9001"] =
  Ok [mkSource (Some (tcp_endpoint (bytes_of "localhost") 8000)) (Some (tcp_port_endpoint 9000)) None;
      mkSource (Some (tcp_endpoint (bytes_of "localhost") 8001)) (Some (tcp_port_endpoint 9001)) None].
Proof. apply (range_argument_expands 8000 8001 9000 9001); unfold port_ok; lia. Defined.

(** *** The form of ssh, with names in brackets *)

Definition bracket_free (l : list byte) : Prop := Forall (fun b => beq b "[" = false /\ beq b "]" = false) l.

Lemma ssh_parts_text l rest parts current b :
  bracket_free l -> (b = true \/ Forall (fun x => beq x ":" = false) l) ->
  ssh_parts (l ++ rest) parts current b = ssh_parts rest parts (current ++ l) b.
Proof.
  intros Hl Hb. revert current. induction Hl as [|x l [H1 H2] _ IH]; intros current; [by rewrite app_nil_r|].
  cbn [app ssh_parts]. rewrite H1, H2.
  assert (Hx : beq x ":" && negb b = false).
  { destruct Hb as [->|Hb]; [apply andb_false_r|]. apply Forall_cons_1 in Hb as [-> _]. done. }
  rewrite Hx, IH by (destruct Hb as [?|Hb]; [by left|right; by apply Forall_cons_1 in Hb as [_ ?]]). by rewrite <- app_assoc.
Qed.

Definition bracket (l : list byte) : list byte := "["%byte :: l ++ ["]"%byte].

Lemma ssh_parts_bracket l rest parts :
  bracket_free l -> ssh_parts (bracket l ++ rest) parts [] false = ssh_parts rest parts l false.
Proof.
  intros Hl. unfold bracket. cbn [app ssh_parts]. rewrite <- app_assoc, ssh_parts_text by (done || by left). done.
Qed.

Lemma bracket_free_dec n : 0 <= n -> bracket_free (dec n).
Proof.
  intros Hn. destruct (dec_digits n Hn) as [Hd _]. eapply Forall_impl; [exact Hd|]. cbn. intros b Hb.
  destruct (beq_spec b "[") as [->|]; [by vm_compute in Hb|]. destruct (beq_spec b "]") as [->|]; [by vm_compute in Hb|]. done.
Qed.

Definition ssh_text (bind : list byte) (port : Z) (host : list byte) (hostport : Z) : list byte :=
  bracket bind ++ ":"%byte :: dec port ++ ":"%byte :: bracket host ++ ":"%byte :: dec hostport.

(** Both names may hold colons, as IPv6 addresses do: in brackets they arrive
    as they are, the empty bind address included. *)
Lemma ssh_style_roundtrip bind port host hostport rs :
  bracket_free bind -> bracket_free host -> host <> [] -> port_ok port -> port_ok hostport -> zlen rs < MAX_TUNNEL_REQUESTS ->
  parse_ssh_style (ssh_text bind port host hostport) rs =
  Ok (rs ++ [mkSource (Some (tcp_endpoint bind port)) (Some (tcp_endpoint host hostport)) None]).
Proof.
  intros Hb Hh Hne Hp Hq Hrs.
  assert (Hcol : forall n, port_ok n -> Forall (fun x => beq x ":" = false) (dec n)).
  { unfold port_ok. intros n Hn. eapply Forall_impl; [apply (dec_free ":" n); [lia|done]|]. cbn. intros b Hx.
    destruct (beq_spec b ":") as [->|]; [done|done]. }
  assert (Hfree : forall n, port_ok n -> bracket_free (dec n)) by (unfold port_ok; intros; apply bracket_free_dec; lia).
  assert (Hparts : ssh_parts (ssh_text bind port host hostport) [] [] false = [bind; dec port; host; dec hostport]).
  { unfold ssh_text. rewrite ssh_parts_bracket by done. cbn [ssh_parts]. cbn [andb negb app beq].
    change (beq ":" "[") with false. change (beq ":" "]") with false. change (beq ":" ":") with true. cbn [andb].
    rewrite ssh_parts_text by (auto; right; auto). cbn [app ssh_parts]. change (beq ":" "[") with false.
    change (beq ":" "]") with false. change (beq ":" ":") with true. cbn [andb negb app].
    rewrite ssh_parts_bracket by done. cbn [ssh_parts]. change (beq ":" "[") with false.
    change (beq ":" "]") with false. change (beq ":" ":") with true. cbn [andb negb app].
    rewrite <- (app_nil_r (dec hostport)) at 1. rewrite ssh_parts_text by (auto; right; auto). done. }
  unfold parse_ssh_style. rewrite Hparts. cbn [length Nat.eqb]. cbv zeta. destruct host as [|h host]; [done|].
  rewrite !parse_single_port_dec by done. unfold push_request, ensure_capacity, usize_checked_add.
  pose proof (zlen_nonneg rs). unfold MAX_TUNNEL_REQUESTS in *.
  rewrite (proj2 (Z.leb_le _ _)) by (unfold usize_max, u64_max; lia). by rewrite (proj2 (Z.ltb_ge _ _)) by lia.
Qed.

(** *** Hosts *)

Lemma rsplit_once_last c a b : c ∉ b -> rsplit_once c (a ++ c :: b) = Some (a, b).
Proof.
  intros Hb. unfold rsplit_once. rewrite rev_app_distr. cbn [rev]. rewrite <- app_assoc. cbn [app].
  rewrite (proj2 (split_once_spec c (rev b ++ c :: rev a) (rev b) (rev a))), !rev_involutive; [done|]. split; [done|].
  by rewrite list_elem_of_In, <- in_rev, <- list_elem_of_In.
Qed.

Lemma not_in_dec c n : 0 <= n -> is_ascii_digit c = false -> c ∉ dec n.
Proof.
  intros Hn Hc Hin. pose proof (dec_free c n Hn Hc) as Hf. rewrite Forall_forall in Hf. apply Hf in Hin.
  by rewrite beq_refl in Hin.
Qed.

Lemma colons_app a b : colons (a ++ b) = colons a + colons b.
Proof. unfold colons. by rewrite filter_app, zlen_app. Qed.

(** [user@host:port] is a host with no colon, or an IPv6 address written with
    all eight groups; its user, host and port come back. *)
Lemma positional_host_roundtrip user host port default_port :
  "@"%byte ∉ user -> colons host = 0 \/ colons host = 7 -> 0 <= port <= 65535 ->
  double_colon (host ++ ":"%byte :: dec port) = false ->
  parse_positional_host (user ++ "@"%byte :: host ++ ":"%byte :: dec port) default_port = Ok (mkDestination (Some user) host port).
Proof.
  intros Hu Hh Hp Hd. unfold parse_positional_host. rewrite (proj2 (split_once_spec _ _ user (host ++ ":"%byte :: dec port))) by done.
  cbv zeta. assert (Hc : colons (host ++ ":"%byte :: dec port) = colons host + 1).
  { rewrite colons_app. f_equal. unfold colons. rewrite filter_cons, decide_True, zlen_cons by done.
    assert (Hnil : filter (fun b => b = ":"%byte) (dec port) = []); [|by rewrite Hnil].
    pose proof (dec_free ":" port ltac:(lia) eq_refl) as Hf. clear -Hf. induction Hf as [|b l Hb _ IH]; [done|].
    rewrite filter_cons, decide_False; [done|]. intros ->. by rewrite beq_refl in Hb. }
  rewrite Hc, Hd. unfold parse_u16.
  destruct Hh as [-> | ->]; cbn [Z.add Z.eqb orb Pos.add Pos.eqb];
    rewrite rsplit_once_last by (apply not_in_dec; [lia|done]); rewrite from_str_radix_dec by lia; done.
Qed.
