(* ===== verification/ClientEnvironment.v ===== *)
(** * ClientEnvironment: [crates/et-bin/src/client_environment.rs]

    The environment that a client asks the server to give the terminal: the
    variables [SendEnv] selects, what fits the packet that carries them, and
    the packet [TERMINAL_INIT] that the server makes of it
    ([terminal_init_from_payload] of [crates/et-server/src/runtime_handler.rs]).
    Names and values are UTF-8 text, as bytes; a [BTreeMap] is its sorted list
    of entries, and so is a [HashMap] whose order is never looked at. *)

From Stdlib Require Import String.
From stdpp Require Import sorting.
From S2P Require Import Prelude Bytes Packet Wire FramingIo Socks Tunnel.

(** ** Ordered maps *)

(** [Ord] of byte strings. *)
Fixpoint bytes_cmp (a b : list byte) : comparison :=
  match a, b with
  | [], [] => Eq
  | [], _ :: _ => Lt
  | _ :: _, [] => Gt
  | x :: a, y :: b => match b2z x ?= b2z y with Eq => bytes_cmp a b | c => c end
  end.

Definition BTreeMap (V : Type) : Type := list (list byte * V).

Section btree.
Context {V : Type}.
Implicit Types (m : BTreeMap V).

Fixpoint bt_insert (k : list byte) (v : V) m : BTreeMap V :=
  match m with
  | [] => [(k, v)]
  | (k', v') :: m' =>
      match bytes_cmp k k' with
      | Lt => (k, v) :: m
      | Eq => (k, v) :: m'
      | Gt => (k', v') :: bt_insert k v m'
      end
  end.

Definition bt_extend m (entries : list (list byte * V)) : BTreeMap V :=
  foldl (fun m e => bt_insert (fst e) (snd e) m) m entries.

Definition contains_key (k : list byte) m : bool := existsb (fun e => list_eqb k (fst e)) m.

Definition bt_remove (k : list byte) m : BTreeMap V := filter (fun e => fst e <> k) m.
End btree.

(** ** Selection *)

Definition MAX_INIT_PACKET_LEN : Z := 64 * 1024.
Definition MAX_ENVIRONMENT : Z := 128.
Definition MAX_ENV_VALUE : Z := 4096.
Definition MAX_LOSSY_FORWARD_ENV_VALUE : Z := MAX_UNIX_SOCKET_PATH * 3.

Definition portable_environment_name (name : list byte) : bool :=
  match name with
  | [] => false
  | b :: rest =>
      (is_ascii_uppercase b || is_ascii_lowercase b || beq b "_") &&
      forallb (fun byte => is_ascii_alphanumeric byte || beq byte "_") rest
  end.

Definition normalize_terminal_type (term : option (list byte)) : list byte :=
  match term with
  | None | Some [] => bytes_of "xterm-256color"
  | Some term => term
  end.

Definition locale_priority (name : list byte) : Z :=
  if list_eqb name (bytes_of "LC_ALL") then 0
  else if list_eqb name (bytes_of "LC_CTYPE") then 1
  else if list_eqb name (bytes_of "LANG") then 2
  else 3.

(** The loop of [environment_pattern_matches] on what is left of the pattern
    and of the name: [star] is what follows the last star met, [retry] what
    the name had left there. The outcome is [None] when the fuel runs out. *)
Fixpoint glob_loop (fuel : nat) (p n : list byte) (star : option (list byte)) (retry : list byte) : option bool :=
  match n with
  | [] => Some (forallb (beq "*") p)
  | c :: n' =>
      match fuel with
      | O => None
      | S fuel =>
          let backtrack :=
            match star with
            | Some after => glob_loop fuel after (tl retry) star (tl retry)
            | None => Some false
            end in
          match p with
          | q :: p' =>
              if beq q "?" || beq q c then glob_loop fuel p' n' star retry
              else if beq q "*" then glob_loop fuel p' n (Some p') n
              else backtrack
          | [] => backtrack
          end
      end
  end.

(** Each retry walks the pattern at most once. *)
Definition glob_fuel (pattern name : list byte) : nat := length name * S (length pattern) + length pattern.

Definition glob (pattern name : list byte) : option bool := glob_loop (glob_fuel pattern name) pattern name None name.

Definition environment_pattern_matches (pattern name : list byte) : bool := unwrap_or false (glob pattern name).

Definition environment_before (a b : list byte * list byte) : bool :=
  match locale_priority (fst a) ?= locale_priority (fst b) with
  | Lt => true
  | Gt => false
  | Eq => match bytes_cmp (fst a) (fst b) with Gt => false | _ => true end
  end.

(** [sort_by] is stable: insertion from the right. *)
Fixpoint insert_variable (e : list byte * list byte) (l : list (list byte * list byte)) : list (list byte * list byte) :=
  match l with
  | [] => [e]
  | e' :: l' => if environment_before e e' then e :: l else e' :: insert_variable e l'
  end.

Definition sendable (patterns : list (list byte)) (e : list byte * list byte) : bool :=
  portable_environment_name (fst e) && (zlen (snd e) <=? MAX_ENV_VALUE) && negb (contains x00 (snd e)) &&
  existsb (fun pattern => environment_pattern_matches pattern (fst e)) patterns.

Definition select_send_environment (patterns : list (list byte)) (environment : list (list byte * list byte))
    : list (list byte * list byte) :=
  foldr insert_variable [] (filter (fun e => sendable patterns e = true) environment).

(** One word of [-o SendEnv=...], of [apply_session_options]. *)
Definition send_env_word (send_env : list (list byte)) (pattern : list byte) : list (list byte) :=
  match strip_prefix (bytes_of "-") pattern with
  | Some remove => filter (fun existing => environment_pattern_matches remove existing = false) send_env
  | None => send_env ++ [pattern]
  end.

(** ** The packets *)

Record TermInit := mkTermInit {
  environmentnames : list (list byte);
  environmentvalues : list (list byte);
  ti_no_pty : option bool;
  ti_command : option (list byte);
  ti_no_shell : option bool;
  hadreversetunnels : option bool;
  ti_disconnect_timeout_seconds : option Z;
  ti_flowcontrol : option Z
}.

Record InitialPayload := mkPayload {
  jumphost : option bool;
  reversetunnels : list PortForwardSourceRequest;
  environmentvariables : BTreeMap (list byte);
  no_pty : option bool;
  command : option (list byte);
  supports_exit_status : option bool;
  no_shell : option bool;
  disconnect_timeout_seconds : option Z;
  flowcontrol : option Z
}.

Definition set_environmentvariables (env : BTreeMap (list byte)) (p : InitialPayload) : InitialPayload :=
  mkPayload (jumphost p) (reversetunnels p) env (no_pty p) (command p) (supports_exit_status p) (no_shell p)
    (disconnect_timeout_seconds p) (flowcontrol p).

Definition set_jumphost (p : InitialPayload) : InitialPayload :=
  mkPayload (Some true) (reversetunnels p) (environmentvariables p) (no_pty p) (command p) (supports_exit_status p)
    (no_shell p) (disconnect_timeout_seconds p) (flowcontrol p).

(** The fields of [TermInit] by the numbers of [ETerminal.proto]; an [int32]
    is sent as a 64-bit number. *)
Definition term_init_fields (t : TermInit) : list field :=
  map (BytesField 1) (environmentnames t) ++ map (BytesField 2) (environmentvalues t) ++
  opt_bool 3 (ti_no_pty t) ++ opt_bytes 4 (ti_command t) ++ opt_bool 5 (ti_no_shell t) ++
  opt_bool 6 (hadreversetunnels t) ++
  opt_varint 7 ((fun v => v mod 2 ^ 64) <$> ti_disconnect_timeout_seconds t) ++
  opt_varint 8 ((fun v => v mod 2 ^ 64) <$> ti_flowcontrol t).

(** The generated codec, and that its output has the length of the documented
    wire format. *)
Class InitCodec := {
  encode_term_init : TermInit -> list byte;
  encode_initial_payload : InitialPayload -> list byte
}.

Class InitCodecLaws (codec : InitCodec) : Prop := {
  encode_term_init_len t : zlen (encode_term_init t) = zlen (encode_fields (term_init_fields t))
}.

Definition TERMINAL_INIT : byte := x09.
Definition JUMPHOST_INIT : byte := x0a.

Definition reserved_environment_value_lengths (existing : list (list byte * Z)) (forward_environment : list (list byte))
    : BTreeMap Z :=
  bt_extend (bt_extend [] existing) (map (fun name => (name, MAX_LOSSY_FORWARD_ENV_VALUE)) forward_environment).

Definition locale_environment_capacity (reserved : Z) : Z := sat_sub MAX_ENVIRONMENT reserved.

(** Nine shifts leave a [usize] below two. *)
Fixpoint varint_len_go (fuel : nat) (value len : Z) : Z :=
  match fuel with
  | O => len
  | S fuel => if 0x80 <=? value then varint_len_go fuel (Z.shiftr value 7) (len + 1) else len
  end.

Definition varint_len (value : Z) : Z := varint_len_go 9 value 1.

Definition encoded_string_field_len (value_len : Z) : Z :=
  sat_add usize_max (sat_add usize_max 1 (varint_len value_len)) value_len.

Section packets.
Context `{InitCodec}.

(** The packet without variables. *)
Definition bare_init (flowcontrol : option Z) (pipe_command : option (list byte)) : TermInit :=
  mkTermInit [] [] ((fun _ => true) <$> pipe_command) pipe_command None None None flowcontrol.

Definition add_reserved (packet_len : Z) (e : list byte * Z) : Z :=
  sat_add usize_max (sat_add usize_max packet_len (encoded_string_field_len (zlen (fst e))))
    (encoded_string_field_len (snd e)).

Fixpoint choose (reserved : BTreeMap Z) (capacity : Z) (candidates : list (list byte * list byte))
    (selected : list (list byte * list byte)) (seen : list (list byte)) (packet_len : Z)
    : list (list byte * list byte) :=
  match candidates with
  | [] => selected
  | (name, value) :: candidates =>
      if existsb (list_eqb name) seen || contains_key name reserved || (zlen selected =? capacity)
      then choose reserved capacity candidates selected (name :: seen) packet_len
      else
        let addition := encoded_string_field_len (zlen name) + encoded_string_field_len (zlen value) in
        if sat_add usize_max packet_len addition <=? MAX_INIT_PACKET_LEN
        then choose reserved capacity candidates (selected ++ [(name, value)]) (name :: seen) (packet_len + addition)
        else choose reserved capacity candidates selected (name :: seen) packet_len
  end.

Definition bounded_locale_environment (candidates : list (list byte * list byte)) (reserved : BTreeMap Z)
    (flowcontrol : option Z) (pipe_command : option (list byte)) : result Z (list (list byte * list byte)) :=
  let packet_len :=
    foldl add_reserved (wire_len (new TERMINAL_INIT (encode_term_init (bare_init flowcontrol pipe_command)))) reserved in
  if MAX_INIT_PACKET_LEN <? packet_len then Err packet_len
  else Ok (choose reserved (locale_environment_capacity (zlen reserved)) candidates [] [] packet_len).

(** The loop of [bound_jumphost_locale_environment], on the variables from
    the last to the first: it returns those that stay. *)
Fixpoint pop_until_fits (modeled : InitialPayload) (locale_rev : list (list byte * list byte))
    : result Z (list (list byte * list byte)) :=
  let packet_len := wire_len (new JUMPHOST_INIT (encode_initial_payload modeled)) in
  if packet_len <=? MAX_INIT_PACKET_LEN then Ok (rev locale_rev)
  else
    match locale_rev with
    | [] => Err packet_len
    | (name, _) :: locale_rev =>
        pop_until_fits (set_environmentvariables (bt_remove name (environmentvariables modeled)) modeled) locale_rev
    end.

Definition bound_jumphost_locale_environment (payload : InitialPayload) (locale : list (list byte * list byte))
    : result Z (list (list byte * list byte)) :=
  let modeled := set_jumphost payload in
  pop_until_fits (set_environmentvariables (bt_extend (environmentvariables modeled) locale) modeled) (rev locale).
End packets.

(** ** The server's packet *)

(** [environment] of [handle_new]: what the client sent, with the variables
    of the forwards over it. *)
Definition terminal_environment (payload : InitialPayload) (forward_environment : list (list byte * list byte))
    : BTreeMap (list byte) :=
  bt_extend (bt_extend [] (environmentvariables payload)) forward_environment.

Definition terminal_init_from_payload (environment : BTreeMap (list byte)) (payload : InitialPayload)
    : result (list byte) TermInit :=
  let pipe_mode := unwrap_or false (no_pty payload) in
  let no_shell := unwrap_or false (no_shell payload) in
  if pipe_mode && no_shell then Err (bytes_of "no_pty and no_shell cannot both be set")
  else if pipe_mode && (zlen (unwrap_or [] (command payload)) =? 0) then
    Err (bytes_of "no_pty requires a non-empty command")
  else
    Ok (mkTermInit (map fst environment) (map snd environment)
          (if pipe_mode then Some true else None)
          (if pipe_mode then Some (unwrap_or [] (command payload)) else None)
          (if no_shell then Some true else None)
          (match reversetunnels payload with [] => None | _ => Some true end)
          (disconnect_timeout_seconds payload) (flowcontrol payload)).

(** What [run_client] reserves and keeps before it connects, and the packet
    of the server for it. *)
Definition reserved_of (payload : InitialPayload) : BTreeMap Z :=
  reserved_environment_value_lengths
    (map (fun e => (fst e, zlen (snd e))) (environmentvariables payload))
    (omap environmentvariable (reversetunnels payload)).

Definition with_locale (payload : InitialPayload) (locale : list (list byte * list byte)) : InitialPayload :=
  set_environmentvariables (bt_extend (environmentvariables payload) locale) payload.

(** ** Patterns *)

(** What a pattern means: [?] is any byte, [*] any bytes, others themselves. *)
Inductive Glob : list byte -> list byte -> Prop :=
| Glob_nil : Glob [] []
| Glob_one q c p n : q = "?"%byte \/ q = c -> q <> "*"%byte -> Glob p n -> Glob (q :: p) (c :: n)
| Glob_star p x n : Glob p n -> Glob ("*"%byte :: p) (x ++ n).

Lemma glob_star_all p : Glob p [] <-> forallb (beq "*") p = true.
Proof.
  split.
  - remember [] as n eqn:Hn. induction 1 as [| |p x n Hg IH]; [done..|].
    apply app_eq_nil in Hn as [-> ->]. by apply IH.
  - induction p as [|q p IH]; [constructor|]. cbn [forallb]. destruct (beq_spec "*" q) as [<-|]; [|done].
    intros H. apply (Glob_star p [] []). by apply IH.
Qed.

(** A literal part of a pattern, matched against as many bytes. *)
Definition literal (q c : byte) : Prop := (q = "?"%byte \/ q = c) /\ q <> "*"%byte.

Lemma glob_literal w u p n : Forall2 literal w u -> Glob p n -> Glob (w ++ p) (u ++ n).
Proof. intros Hw Hg. induction Hw as [|q c w u [Hq Hs] Hw IH]; [done|]. by constructor. Qed.

Lemma glob_literal_inv w u p n :
  Forall2 literal w u -> Glob (w ++ p) n -> exists v n', n = v ++ n' /\ length v = length w /\ Glob p n'.
Proof.
  intros Hw. revert n. induction Hw as [|q c w u [Hq Hs] Hw IH]; intros n Hg; [by exists [], n|].
  inversion Hg; subst; [|done]. destruct (IH n0) as (v & n' & -> & Hl & Hp); [done|].
  exists (c0 :: v), n'. cbn. auto.
Qed.

(** The star's turn, after the first place failed. *)
Definition later (after retry : list byte) : Prop := exists x y, retry = x ++ y /\ x <> [] /\ Glob after y.

Lemma later_tail after c retry : later after (c :: retry) <-> Glob after retry \/ later after retry.
Proof.
  split.
  - intros (x & y & Heq & Hx & Hg). destruct x as [|c' x]; [done|]. injection Heq as <- ->.
    destruct x as [|d x]; [by left|]. right. by exists (d :: x), y.
  - intros [Hg|(x & y & -> & Hx & Hg)]; [by exists [c], retry|by exists (c :: x), y].
Qed.

(** What the loop keeps: since the last star, the pattern matched literally. *)
Definition loop_inv (p n : list byte) (star : option (list byte)) (retry : list byte) : Prop :=
  exists w u, retry = u ++ n /\ Forall2 literal w u /\ match star with Some after => after = w ++ p | None => True end.

Definition loop_goal (p n : list byte) (star : option (list byte)) (retry : list byte) : Prop :=
  Glob p n \/ match star with Some after => later after retry | None => False end.

(** A match by an earlier star is one by the present one. *)
Lemma later_commits p n after retry :
  loop_inv ("*"%byte :: p) n (Some after) retry -> later after retry -> later p n \/ Glob p n.
Proof.
  intros (w & u & -> & Hw & ->) (x & y & Heq & Hx & Hg).
  destruct (glob_literal_inv w u _ _ Hw Hg) as (v & n' & -> & Hl & Hs).
  inversion Hs as [| |? x' n'' Hp]; subst; [done|].
  apply Forall2_length in Hw. assert (Hn : exists z, n = z ++ n'').
  { destruct x as [|a x]; [done|]. rewrite !app_assoc in Heq. apply app_eq_inv in Heq as [(k & Hu & ->)|(k & Hu & ->)]; [|by exists k].
    apply (f_equal length) in Hu. rewrite !length_app in Hu. cbn in Hu.
    assert (k = []) as -> by (apply nil_length_inv; lia). by exists []. }
  destruct Hn as [z ->]. destruct z as [|a z]; [by right|]. left. by exists (a :: z), n''.
Qed.

Lemma glob_loop_returns k fuel p n star retry :
  (length n <= length retry)%nat -> (length p <= k)%nat ->
  match star with Some after => (length after <= k)%nat | None => True end ->
  (length retry * S k + length p <= fuel)%nat -> is_Some (glob_loop fuel p n star retry).
Proof.
  revert p n star retry. induction fuel as [|fuel IH]; intros p n star retry Hn Hp Hs Hf.
  { destruct n as [|c n]; [by eexists|]. cbn in *. lia. }
  destruct n as [|c n]; [by eexists|]. cbn [glob_loop].
  assert (is_Some (match star with
                   | Some after => glob_loop fuel after (tl retry) star (tl retry)
                   | None => Some false
                   end)) as Hback.
  { destruct star as [after|]; [|by eexists]. destruct retry as [|r retry]; [cbn in Hn; lia|].
    cbn [tl length] in *. apply IH; [lia|lia|done|]. cbn [Nat.mul] in Hf. lia. }
  destruct p as [|q p]; [done|]. cbn [length] in *.
  destruct (_ || _); [apply IH; [lia|lia|done|lia]|]. destruct (beq q "*"); [|done].
  apply IH; [done|lia|lia|]. assert (S (length n) * S k <= length retry * S k)%nat by (apply Nat.mul_le_mono_r; lia).
  cbn [length]. lia.
Qed.

Lemma loop_goal_nil p star retry : loop_inv p [] star retry -> loop_goal p [] star retry <-> Glob p [].
Proof.
  intros (w & u & -> & Hw & Hs). split; [|by left]. intros [Hg|Hl]; [done|]. exfalso.
  destruct star as [after|]; [|done]. subst. destruct Hl as (x & y & Heq & Hx & Hg).
  destruct (glob_literal_inv w u _ _ Hw Hg) as (v & n' & -> & Hl & _).
  apply Forall2_length in Hw. apply (f_equal length) in Heq. rewrite !length_app in Heq.
  destruct x; [done|]. cbn in Heq. lia.
Qed.

Lemma literal_spec q c : c <> "*"%byte -> beq q "?" || beq q c = true <-> literal q c.
Proof.
  intros Hc. unfold literal. rewrite orb_true_iff. destruct (beq_spec q "?"), (beq_spec q c); split; intros H; subst; auto.
  all: try (by destruct H); try (by destruct H as [[] ?]). all: split; [auto|done].
Qed.

Lemma glob_cons_literal q c p n : literal q c -> Glob (q :: p) (c :: n) <-> Glob p n.
Proof. intros [Hq Hs]. split; [by inversion 1|by constructor]. Qed.

Lemma loop_inv_step q c p n star retry :
  literal q c -> loop_inv (q :: p) (c :: n) star retry -> loop_inv p n star retry.
Proof.
  intros Hl (w & u & -> & Hw & Hs). exists (w ++ [q]), (u ++ [c]). rewrite <-!app_assoc. split_and!; [done| |].
  - by apply Forall2_app; [|constructor].
  - by destruct star.
Qed.

Lemma loop_goal_star p n star retry :
  loop_inv ("*"%byte :: p) n star retry ->
  loop_goal p n (Some p) n <-> loop_goal ("*"%byte :: p) n star retry.
Proof.
  intros Hi. split.
  - intros [Hg|(x & y & -> & _ & Hg)]; left; [by apply (Glob_star p [])|by constructor].
  - intros [Hg|Hl].
    + inversion Hg as [| |? x n' Hp]; subst; [done|]. destruct x as [|a x]; [by left|]. right. by exists (a :: x), n'.
    + destruct star as [after|]; [|done]. destruct (later_commits p n after retry Hi Hl); [by right|by left].
Qed.

Lemma glob_loop_spec fuel p n star retry b :
  loop_inv p n star retry -> "*"%byte ∉ retry -> glob_loop fuel p n star retry = Some b ->
  b = true <-> loop_goal p n star retry.
Proof.
  revert p n star retry. induction fuel as [|fuel IH]; intros p n star retry Hi Hstar.
  all: destruct n as [|c n]; [intros [= <-]; rewrite loop_goal_nil by done; symmetry; apply glob_star_all|].
  { done. }
  cbn [glob_loop].
  assert (c <> "*"%byte) as Hc.
  { intros ->. destruct Hi as (w & u & -> & _). apply Hstar. set_solver. }
  assert (Hback : ~ Glob p (c :: n) ->
    match star with Some after => glob_loop fuel after (tl retry) star (tl retry) | None => Some false end = Some b ->
    b = true <-> loop_goal p (c :: n) star retry).
  { intros Hg. destruct star as [after|]; [|intros [= <-]; split; [done|by intros [?|?]]].
    assert (exists r, retry = r :: tl retry) as [r Hr].
    { destruct Hi as (w & u & -> & _). destruct u; by eexists. }
    rewrite Hr in Hstar |- *. cbn [tl]. intros Hb. apply IH in Hb.
    - rewrite Hb. unfold loop_goal. rewrite later_tail. tauto.
    - by exists [], [].
    - set_solver. }
  destruct p as [|q p]; [apply Hback; by inversion 1|].
  destruct (_ || _) eqn:Hm.
  - apply (literal_spec q c) in Hm; [|done]. intros Hb. apply IH in Hb; [|by apply (loop_inv_step q c)|done].
    rewrite Hb. unfold loop_goal. by rewrite (glob_cons_literal q c p n Hm).
  - destruct (beq_spec q "*") as [->|Hq].
    + intros Hb. apply IH in Hb; [|by exists [], []|].
      * rewrite Hb. by apply loop_goal_star.
      * destruct Hi as (w & u & -> & _). set_solver.
    + apply Hback. inversion 1; subst; [|done].
      assert (beq q "?" || beq q c = true) as Ht by (by apply literal_spec). congruence.
Qed.

Lemma glob_returns pattern name : is_Some (glob pattern name).
Proof. apply (glob_loop_returns (length pattern)); [done..|unfold glob_fuel; lia]. Qed.

Lemma glob_matches pattern name :
  "*"%byte ∉ name -> environment_pattern_matches pattern name = true <-> Glob pattern name.
Proof.
  intros Hs. unfold environment_pattern_matches. destruct (glob_returns pattern name) as [b Hb]. rewrite Hb. cbn [unwrap_or].
  apply glob_loop_spec in Hb; [|by exists [], []|done]. rewrite Hb. unfold loop_goal. tauto.
Qed.

(** The matching of [SendEnv] patterns ends on every input, and a name
    without stars matches exactly the patterns whose meaning it has: the
    backtracking to the last star alone loses no match. *)
Theorem pattern_matching_decides pattern name :
  is_Some (glob pattern name) /\
  ("*"%byte ∉ name -> environment_pattern_matches pattern name = true <-> Glob pattern name).
Proof. split; [apply glob_returns|apply glob_matches]. Qed.

Lemma pattern_matching_decides_witness :
  "*"%byte ∉ bytes_of "AXYBZBQC" /\ Glob (bytes_of "A*B?C") (bytes_of "AXYBZBQC").
Proof.
  assert ("*"%byte ∉ bytes_of "AXYBZBQC") as Hs.
  { intros Hin. apply contains_spec in Hin. by vm_compute in Hin. }
  split; [done|]. apply (pattern_matching_decides (bytes_of "A*B?C") (bytes_of "AXYBZBQC")); [done|]. by vm_compute.
Defined.

(** A pattern of the list that starts with a star is the name that a removal
    is matched against, and there the star is taken for itself: [-o SendEnv=-*]
    removes everything but such patterns. *)
Theorem removal_keeps_star_pattern c rest :
  let pattern := "*"%byte :: c :: rest in
  send_env_word [pattern] (bytes_of "-*") = [pattern] /\ Glob (bytes_of "*") pattern.
Proof.
  intros pattern. split.
  - unfold send_env_word. cbn [strip_prefix starts_with bytes_of list_byte_of_string].
    change (strip_prefix (bytes_of "-") (bytes_of "-*")) with (Some (bytes_of "*")). cbv iota.
    by rewrite filter_cons_True.
  - rewrite <-(app_nil_r pattern). apply Glob_star. constructor.
Qed.

(** ** Sizes *)

Lemma varint_len_go_spec fuel value len :
  varint_len_go fuel value len = len - 1 + zlen (encode_varint_go (S fuel) value).
Proof.
  revert value len. induction fuel as [|fuel IH]; intros value len; cbn [varint_len_go].
  - cbn [encode_varint_go]. destruct (_ <=? _); rewrite zlen_cons; change (zlen (@nil byte)) with 0; lia.
  - remember (S fuel) as f. cbn [encode_varint_go]. destruct (_ <=? _).
    + rewrite IH, zlen_cons. lia.
    + rewrite zlen_cons. change (zlen (@nil byte)) with 0. lia.
Qed.

Lemma varint_len_spec value : varint_len value = zlen (encode_varint value).
Proof. unfold varint_len. rewrite varint_len_go_spec. unfold encode_varint. lia. Qed.

(** The bytes of a field that holds a string. *)
Definition field_cost (n : Z) : Z := 1 + varint_len n + n.

Definition entry_cost (e : list byte * Z) : Z := field_cost (zlen (fst e)) + field_cost (snd e).
Definition total_cost (l : list (list byte * Z)) : Z := foldr (fun e n => entry_cost e + n) 0 l.

(** A variable as the length of its value. *)
Definition sized (e : list byte * list byte) : list byte * Z := (fst e, zlen (snd e)).

Lemma field_cost_mono n m : 0 <= n <= m -> 0 < field_cost n <= field_cost m.
Proof.
  intros H. unfold field_cost. rewrite !varint_len_spec. pose proof (encode_varint_zlen n).
  pose proof (encode_varint_go_mono 10 n m H). unfold encode_varint in *. lia.
Qed.

Lemma zlen_bytes_field k b : zlen (encode_field (BytesField k b)) = field_cost (zlen b).
Proof. cbn [encode_field]. unfold field_cost. rewrite zlen_cons, zlen_app, varint_len_spec. lia. Qed.

Lemma encode_fields_app a b : zlen (encode_fields (a ++ b)) = zlen (encode_fields a) + zlen (encode_fields b).
Proof. unfold encode_fields. by rewrite map_app, concat_app, zlen_app. Qed.

Lemma encode_entries i j (m : list (list byte * list byte)) :
  zlen (encode_fields (map (BytesField i) (map fst m))) + zlen (encode_fields (map (BytesField j) (map snd m))) =
  total_cost (map sized m).
Proof.
  unfold encode_fields, total_cost, entry_cost. induction m as [|[k v] m IH]; [done|].
  cbn [map concat foldr fst snd sized] in *. rewrite !zlen_app, !zlen_bytes_field. lia.
Qed.

Lemma total_cost_app a b : total_cost (a ++ b) = total_cost a + total_cost b.
Proof. unfold total_cost. induction a as [|e a IH]; cbn [foldr app]; lia. Qed.

Lemma add_reserved_spec p e : 0 <= p -> 0 <= snd e -> add_reserved p e = Z.min usize_max (p + entry_cost e).
Proof.
  intros Hp He. unfold add_reserved, encoded_string_field_len, entry_cost, sat_add.
  pose proof (field_cost_mono (zlen (fst e)) (zlen (fst e)) ltac:(pose proof (zlen_nonneg (fst e)); lia)).
  pose proof (field_cost_mono (snd e) (snd e) ltac:(lia)). unfold field_cost in *.
  pose proof (varint_len_spec (zlen (fst e))). pose proof (varint_len_spec (snd e)).
  pose proof (zlen_nonneg (encode_varint (zlen (fst e)))). pose proof (zlen_nonneg (encode_varint (snd e))).
  pose proof (zlen_nonneg (fst e)). unfold usize_max, u64_max. lia.
Qed.

Lemma total_cost_nonneg l : Forall (fun e => 0 <= snd e) l -> 0 <= total_cost l.
Proof.
  induction 1 as [|e l He Hl IH]; [done|]. cbn [total_cost foldr]. fold (total_cost l). unfold entry_cost.
  pose proof (field_cost_mono (zlen (fst e)) (zlen (fst e)) ltac:(pose proof (zlen_nonneg (fst e)); lia)).
  pose proof (field_cost_mono (snd e) (snd e) ltac:(lia)). lia.
Qed.

Lemma foldl_reserved p l :
  0 <= p -> Forall (fun e => 0 <= snd e) l -> Z.min usize_max (foldl add_reserved p l) = Z.min usize_max (p + total_cost l).
Proof.
  intros Hp Hl. revert p Hp. induction Hl as [|e l He Hl IH]; intros p Hp; cbn [foldl]; [cbn; lia|].
  assert (0 <= entry_cost e) by (pose proof (total_cost_nonneg [e] ltac:(by constructor)) as Hc; cbn in Hc; lia).
  pose proof (total_cost_nonneg l Hl). rewrite add_reserved_spec by done.
  rewrite IH by (unfold usize_max, u64_max; lia). cbn [total_cost foldr]. fold (total_cost l). lia.
Qed.

(** ** Ordered maps have one entry for a key *)

Lemma bytes_cmp_eq a b : bytes_cmp a b = Eq -> a = b.
Proof.
  revert b. induction a as [|x a IH]; intros [|y b]; cbn [bytes_cmp]; [done..|].
  destruct (Z.compare_spec (b2z x) (b2z y)) as [He| |]; [|done..]. intros H. f_equal; [by apply b2z_inj|by apply IH].
Qed.

Lemma bytes_cmp_antisym a b : bytes_cmp b a = CompOpp (bytes_cmp a b).
Proof.
  revert b. induction a as [|x a IH]; intros [|y b]; cbn [bytes_cmp]; [done..|].
  rewrite (Z.compare_antisym (b2z x) (b2z y)). destruct (b2z x ?= b2z y); cbn [CompOpp]; [apply IH|done..].
Qed.

Lemma bytes_cmp_trans a b c : bytes_cmp a b = Lt -> bytes_cmp b c = Lt -> bytes_cmp a c = Lt.
Proof.
  revert b c. induction a as [|x a IH]; intros [|y b] [|z c]; cbn [bytes_cmp]; try done.
  destruct (Z.compare_spec (b2z x) (b2z y)), (Z.compare_spec (b2z y) (b2z z)), (Z.compare_spec (b2z x) (b2z z));
    try done; try lia. apply IH.
Qed.

Definition key_lt {V} (e e' : list byte * V) : Prop := bytes_cmp (fst e) (fst e') = Lt.
Definition sorted {V} (m : BTreeMap V) : Prop := StronglySorted key_lt m.

Section btree_lemmas.
Context {V : Type}.
Implicit Types (m : BTreeMap V).

Lemma bt_insert_elem k v m e : e ∈ bt_insert k v m -> e = (k, v) \/ e ∈ m.
Proof.
  induction m as [|[k' v'] m IH]; cbn [bt_insert]; [set_solver|].
  destruct (bytes_cmp k k'); set_solver.
Qed.

Lemma bt_insert_sorted k v m : sorted m -> sorted (bt_insert k v m).
Proof.
  induction 1 as [|[k' v'] m Hs IH Hall]; cbn [bt_insert]; [repeat constructor|].
  destruct (bytes_cmp k k') eqn:Hc.
  - apply bytes_cmp_eq in Hc as ->. by constructor.
  - constructor; [by constructor|]. constructor; [done|]. eapply Forall_impl; [done|].
    intros e. by apply bytes_cmp_trans.
  - constructor; [done|]. apply Forall_forall. intros e He. apply bt_insert_elem in He as [->|He].
    + unfold key_lt. cbn [fst]. by rewrite bytes_cmp_antisym, Hc.
    + by rewrite Forall_forall in Hall; apply Hall.
Qed.

Lemma sorted_nodup m : sorted m -> NoDup (map fst m).
Proof.
  induction 1 as [|e m Hs IH Hall]; cbn [map]; constructor; [|done]. intros Hin.
  apply list_elem_of_fmap in Hin as (e' & He & Hin). rewrite Forall_forall in Hall. specialize (Hall e' Hin).
  unfold key_lt in Hall. rewrite He in Hall. pose proof (bytes_cmp_antisym (fst e') (fst e')) as Ha.
  rewrite Hall in Ha. done.
Qed.

Lemma sorted_unique m k v w : sorted m -> (k, v) ∈ m -> (k, w) ∈ m -> v = w.
Proof.
  intros Hs. induction Hs as [|e m Hs IH Hall]; [set_solver|].
  assert (Hno : forall x, (k, x) ∈ m -> fst e <> k).
  { intros x Hx He. rewrite Forall_forall in Hall. specialize (Hall _ Hx). unfold key_lt in Hall. cbn [fst] in Hall.
    rewrite He in Hall. pose proof (bytes_cmp_antisym k k) as Ha. rewrite Hall in Ha. done. }
  rewrite !elem_of_cons. intros [Hv|Hv] [Hw|Hw]; [congruence|..|by apply IH].
  - destruct (Hno _ Hw). by rewrite <-Hv.
  - destruct (Hno _ Hv). by rewrite <-Hw.
Qed.

Lemma bt_insert_here k v m : (k, v) ∈ bt_insert k v m.
Proof.
  induction m as [|[k' v'] m IH]; cbn [bt_insert]; [set_solver|]. destruct (bytes_cmp k k'); set_solver.
Qed.

Lemma bt_insert_other k v m e : e ∈ m -> fst e <> k -> e ∈ bt_insert k v m.
Proof.
  intros Hin Hk. induction m as [|[k' v'] m IH]; cbn [bt_insert]; [set_solver|].
  destruct (bytes_cmp k k') eqn:Hc; [|set_solver..]. apply bytes_cmp_eq in Hc as ->.
  apply elem_of_cons in Hin as [->|Hin]; [done|]. set_solver.
Qed.

Lemma bt_insert_spec k v m e : sorted m -> e ∈ bt_insert k v m <-> e = (k, v) \/ (e ∈ m /\ fst e <> k).
Proof.
  intros Hs. split; [|by intros [->|[??]]; [apply bt_insert_here|apply bt_insert_other]].
  intros He. destruct (decide (fst e = k)) as [<-|Hk]; [left|right; by apply bt_insert_elem in He as [->|?]].
  destruct e as [k w]. cbn [fst] in *. f_equal. symmetry.
  apply (sorted_unique (bt_insert k v m) k); [by apply bt_insert_sorted|apply bt_insert_here|done].
Qed.

Lemma bt_extend_sorted m es : sorted m -> sorted (bt_extend m es).
Proof. revert m. induction es as [|e es IH]; intros m Hs; [done|]. apply IH. by apply bt_insert_sorted. Qed.

Lemma bt_extend_elem m es e :
  sorted m -> e ∈ bt_extend m es -> e ∈ es \/ (e ∈ m /\ fst e ∉ map fst es).
Proof.
  revert m. induction es as [|[k v] es IH]; intros m Hs He; [right; split; [done|apply not_elem_of_nil]|].
  cbn [bt_extend foldl fst snd] in He. apply IH in He as [He|[He Hk]]; [set_solver| |by apply bt_insert_sorted].
  apply bt_insert_spec in He as [->|[He Hne]]; [set_solver| |done]. right. split; [done|]. cbn. set_solver.
Qed.

Lemma bt_extend_keys m es k : sorted m -> k ∈ map fst m \/ k ∈ map fst es -> k ∈ map fst (bt_extend m es).
Proof.
  revert m. induction es as [|[k' v] es IH]; intros m Hs Hk; [set_solver|].
  apply IH; [by apply bt_insert_sorted|]. cbn [map fst snd] in *.
  destruct (decide (k = k')) as [->|Hne].
  - left. apply list_elem_of_fmap. exists (k', v). split; [done|]. apply bt_insert_here.
  - destruct Hk as [Hk|Hk]; [left|right; set_solver]. apply list_elem_of_fmap in Hk as (e & -> & He).
    apply list_elem_of_fmap. exists e. split; [done|]. by apply bt_insert_other.
Qed.

Lemma contains_key_spec k m : contains_key k m = true <-> k ∈ map fst m.
Proof.
  unfold contains_key. rewrite existsb_exists, list_elem_of_fmap. split.
  - intros (e & He & Hk). apply list_eqb_spec in Hk. exists e. by rewrite list_elem_of_In.
  - intros (e & -> & He). exists e. rewrite <-list_elem_of_In. split; [done|]. by apply list_eqb_spec.
Qed.
End btree_lemmas.

(** Entries with different keys cost no more than a budget that has one for
    each of them. *)
Lemma total_cost_covered m R :
  NoDup (map fst m) -> NoDup (map fst R) -> Forall (fun e => 0 <= snd e) R ->
  (forall k n, (k, n) ∈ m -> 0 <= n /\ exists l, (k, l) ∈ R /\ n <= l) ->
  total_cost m <= total_cost R /\ zlen m <= zlen R.
Proof.
  revert R. induction m as [|[k n] m IH]; intros R Hm HR Hpos Hc.
  { split; [by apply total_cost_nonneg|]. change (zlen (@nil (list byte * Z))) with 0. apply zlen_nonneg. }
  destruct (Hc k n) as (Hn & l & Hin & Hl); [set_solver|].
  apply list_elem_of_split in Hin as (a & b & ->). cbn [map fst] in Hm. apply NoDup_cons in Hm as [Hk Hm].
  rewrite map_app in HR. cbn [map fst] in HR.
  destruct (IH (a ++ b)) as [Hcost Hlen].
  - done.
  - rewrite map_app. apply NoDup_app in HR as (Ha & Hd & Hb). apply NoDup_cons in Hb as [Hkb Hb].
    apply NoDup_app. split_and!; [done| |done]. set_solver.
  - rewrite Forall_app, Forall_cons in Hpos. rewrite Forall_app. tauto.
  - intros k' n' Hin. destruct (Hc k' n') as (Hn' & l' & Hl' & Hle); [set_solver|]. split; [done|]. exists l'.
    split; [|done]. apply elem_of_app in Hl' as [?|Hl']; [set_solver|].
    apply elem_of_cons in Hl' as [[= -> ->]|?]; [|set_solver].
    destruct Hk. apply list_elem_of_fmap. by exists (k, n').
  - rewrite total_cost_app in *. rewrite zlen_app in *. rewrite !zlen_cons. cbn [total_cost foldr] in *.
    fold (total_cost m) (total_cost b). split; [|lia]. unfold entry_cost. cbn [fst snd].
    pose proof (field_cost_mono n l ltac:(lia)). lia.
Qed.

(** ** What is chosen *)

(** The first of its name in the list. *)
Definition first_of (e : list byte * list byte) (l : list (list byte * list byte)) : Prop :=
  exists a b, l = a ++ e :: b /\ fst e ∉ map fst a.

Lemma first_of_app e l k : first_of e l -> first_of e (l ++ k).
Proof. intros (a & b & -> & Ha). exists a, (b ++ k). by rewrite <-app_assoc. Qed.

Record chosen_ok (reserved : BTreeMap Z) (capacity base : Z) (candidates selected : list (list byte * list byte)) : Prop := mkChosen {
  chosen_fits : base + total_cost (map sized selected) <= MAX_INIT_PACKET_LEN;
  chosen_count : zlen selected <= capacity;
  chosen_names : NoDup (map fst selected);
  chosen_free : forall e, e ∈ selected -> contains_key (fst e) reserved = false /\ first_of e candidates
}.

Lemma string_addition name value :
  let addition := encoded_string_field_len (zlen name) + encoded_string_field_len (zlen value) in
  0 < addition /\ (addition <= MAX_INIT_PACKET_LEN -> addition = entry_cost (sized (name, value))).
Proof.
  cbv zeta. unfold encoded_string_field_len, entry_cost, sized, field_cost, sat_add. cbn [fst snd].
  rewrite !varint_len_spec. pose proof (encode_varint_zlen (zlen name)). pose proof (encode_varint_zlen (zlen value)).
  pose proof (zlen_nonneg name). pose proof (zlen_nonneg value). unfold usize_max, u64_max, MAX_INIT_PACKET_LEN. lia.
Qed.

Lemma total_cost_snoc l e : total_cost (map sized (l ++ [e])) = total_cost (map sized l) + entry_cost (sized e).
Proof. rewrite map_app, total_cost_app. cbn. lia. Qed.

Lemma chosen_skip reserved capacity base done candidate selected :
  chosen_ok reserved capacity base done selected -> chosen_ok reserved capacity base (done ++ [candidate]) selected.
Proof.
  intros [Hf Hc Hn Hfree]. split; [done..|]. intros e He. destruct (Hfree e He). split; [done|]. by apply first_of_app.
Qed.

Lemma chosen_add reserved capacity base done name value selected :
  chosen_ok reserved capacity base done selected ->
  base + total_cost (map sized selected) + entry_cost (sized (name, value)) <= MAX_INIT_PACKET_LEN ->
  zlen selected <> capacity -> contains_key name reserved = false -> name ∉ map fst done ->
  chosen_ok reserved capacity base (done ++ [(name, value)]) (selected ++ [(name, value)]).
Proof.
  intros [Hf Hc Hn Hfree] Hsum Hcap Hr Hnew. split.
  - rewrite total_cost_snoc. lia.
  - rewrite zlen_app, zlen_cons. change (zlen (@nil (list byte * list byte))) with 0. lia.
  - rewrite map_app. apply NoDup_app. split_and!; [done| |cbn; apply NoDup_singleton].
    intros k Hk Hin. cbn in Hin. apply list_elem_of_singleton in Hin as ->. apply list_elem_of_fmap in Hk as (e & -> & He).
    destruct (Hfree e He) as [_ (a & b & -> & _)]. apply Hnew. rewrite map_app. set_solver.
  - intros e He. apply elem_of_app in He as [He|He].
    + destruct (Hfree e He). split; [done|by apply first_of_app].
    + apply list_elem_of_singleton in He as ->. split; [done|]. by exists done, [].
Qed.

Lemma choose_spec reserved capacity base candidates done selected seen packet_len :
  0 <= base -> packet_len = base + total_cost (map sized selected) ->
  chosen_ok reserved capacity base done selected -> (forall k, k ∈ seen <-> k ∈ map fst done) ->
  chosen_ok reserved capacity base (done ++ candidates) (choose reserved capacity candidates selected seen packet_len).
Proof.
  intros Hbase. revert done selected seen packet_len.
  induction candidates as [|[name value] candidates IH]; intros done selected seen packet_len Hp Hok Hseen;
    [by rewrite app_nil_r|]. cbn [choose].
  assert (Hseen' : forall k, k ∈ name :: seen <-> k ∈ map fst (done ++ [(name, value)])).
  { intros k. rewrite map_app, elem_of_app, elem_of_cons, Hseen. cbn. set_solver. }
  change (done ++ (name, value) :: candidates) with (done ++ [(name, value)] ++ candidates). rewrite app_assoc.
  assert (Hskip : chosen_ok reserved capacity base ((done ++ [(name, value)]) ++ candidates)
                    (choose reserved capacity candidates selected (name :: seen) packet_len)).
  { apply IH; [done|by apply chosen_skip|done]. }
  destruct (existsb _ seen) eqn:Hs; cbn [orb]; [done|].
  destruct (contains_key name reserved) eqn:Hr; cbn [orb]; [done|].
  destruct (Z.eqb_spec (zlen selected) capacity) as [|Hcap]; [done|].
  destruct (string_addition name value) as [Hpos Hadd].
  set (addition := encoded_string_field_len (zlen name) + encoded_string_field_len (zlen value)) in *. cbv zeta.
  destruct (Z.leb_spec (sat_add usize_max packet_len addition) MAX_INIT_PACKET_LEN) as [Hle|]; [|done].
  assert (0 <= total_cost (map sized selected)).
  { apply total_cost_nonneg, Forall_forall. intros e He. apply list_elem_of_fmap in He as (e' & -> & _). apply zlen_nonneg. }
  assert (packet_len + addition <= MAX_INIT_PACKET_LEN) as Hsum.
  { unfold sat_add, usize_max, u64_max, MAX_INIT_PACKET_LEN in *. lia. }
  specialize (Hadd ltac:(lia)).
  apply IH; [rewrite total_cost_snoc; lia| |done]. apply chosen_add; [done|lia|done|done|].
  rewrite <-Hseen. intros Hin. assert (existsb (list_eqb name) seen = true); [|congruence].
  apply existsb_exists. exists name. rewrite <-list_elem_of_In. split; [done|]. by apply list_eqb_spec.
Qed.

Section bounded.
Context `{!InitCodec} `{!InitCodecLaws _}.

Lemma bounded_spec candidates reserved flowcontrol pipe selected :
  Forall (fun e => 0 <= snd e) reserved ->
  bounded_locale_environment candidates reserved flowcontrol pipe = Ok selected ->
  chosen_ok reserved (locale_environment_capacity (zlen reserved))
    (HEADER_LEN + zlen (encode_fields (term_init_fields (bare_init flowcontrol pipe))) + total_cost reserved)
    candidates selected.
Proof.
  intros Hpos. unfold bounded_locale_environment. cbv zeta. unfold wire_len, new. cbn [payload].
  rewrite encode_term_init_len. set (base := HEADER_LEN + _).
  assert (0 <= base) by (unfold base, HEADER_LEN; pose proof (zlen_nonneg (encode_fields (term_init_fields (bare_init flowcontrol pipe)))); lia).
  pose proof (total_cost_nonneg reserved Hpos). pose proof (foldl_reserved base reserved ltac:(done) Hpos) as Hfold.
  destruct (Z.ltb_spec MAX_INIT_PACKET_LEN (foldl add_reserved base reserved)); [done|]. intros [= <-].
  assert (foldl add_reserved base reserved = base + total_cost reserved) as ->.
  { unfold MAX_INIT_PACKET_LEN, usize_max, u64_max in *. lia. }
  apply (choose_spec reserved _ (base + total_cost reserved) candidates []); [lia|cbn; lia| |done].
  split; [cbn|change (zlen (@nil (list byte * list byte))) with 0|constructor|].
  - unfold MAX_INIT_PACKET_LEN, usize_max, u64_max in *. lia.
  - unfold locale_environment_capacity, sat_sub. lia.
  - set_solver.
Qed.

(** The fields of the server's packet that the client's budget leaves out. *)
Definition unbudgeted (payload : InitialPayload) : Z :=
  (if unwrap_or false (no_shell payload) then 2 else 0) +
  (match reversetunnels payload with [] => 0 | _ => 2 end) +
  (match disconnect_timeout_seconds payload with Some v => 1 + varint_len (v mod 2 ^ 64) | None => 0 end).

(** The forwards of the payload export their variables, as paths. *)
Definition exported (payload : InitialPayload) (forward_environment : list (list byte * list byte)) : Prop :=
  map fst forward_environment = omap environmentvariable (reversetunnels payload) /\
  Forall (fun e => zlen (snd e) <= MAX_LOSSY_FORWARD_ENV_VALUE) forward_environment.

Lemma reserved_of_pos payload : Forall (fun e => 0 <= snd e) (reserved_of payload).
Proof.
  apply Forall_forall. intros e He. apply bt_extend_elem in He as [He|[He _]].
  - apply list_elem_of_fmap in He as (? & -> & _). by vm_compute.
  - apply bt_extend_elem in He as [He|[He _]]; [|set_solver|constructor].
    apply list_elem_of_fmap in He as (? & -> & _). apply zlen_nonneg.
  - apply bt_extend_sorted. constructor.
Qed.

Lemma reserved_of_sorted payload : sorted (reserved_of payload).
Proof. apply bt_extend_sorted, bt_extend_sorted. constructor. Qed.

Lemma reserved_of_key payload k :
  k ∈ omap environmentvariable (reversetunnels payload) \/ k ∈ map fst (environmentvariables payload) ->
  exists l, (k, l) ∈ reserved_of payload.
Proof.
  intros Hk. assert (k ∈ map fst (reserved_of payload)) as Hin.
  { apply bt_extend_keys; [apply bt_extend_sorted; constructor|]. rewrite map_map. cbn [fst]. rewrite map_id.
    destruct Hk as [Hk|Hk]; [by right|left]. apply bt_extend_keys; [constructor|]. right. by rewrite map_map. }
  apply list_elem_of_fmap in Hin as ([k' l] & -> & Hin). by exists l.
Qed.

Lemma reserved_of_elem payload k l :
  (k, l) ∈ reserved_of payload ->
  (k ∈ omap environmentvariable (reversetunnels payload) /\ l = MAX_LOSSY_FORWARD_ENV_VALUE) \/
  (k ∉ omap environmentvariable (reversetunnels payload) /\ exists v, (k, v) ∈ environmentvariables payload /\ l = zlen v).
Proof.
  intros He. apply bt_extend_elem in He as [He|[He Hk]]; [..|apply bt_extend_sorted; constructor].
  - left. by apply list_elem_of_fmap in He as (? & [= -> ->] & ?).
  - right. rewrite map_map in Hk. cbn [fst] in Hk. rewrite map_id in Hk. split; [done|].
    apply bt_extend_elem in He as [He|[He _]]; [|set_solver|constructor].
    apply list_elem_of_fmap in He as ([k' v] & [= -> ->] & Hin). by exists v.
Qed.

(** Every variable of the server's packet has room in the budget. *)
Lemma environment_covered payload locale forward_environment k v :
  sorted (environmentvariables payload) -> exported payload forward_environment ->
  (k, v) ∈ terminal_environment (with_locale payload locale) forward_environment ->
  exists l, (k, l) ∈ reserved_of payload ++ map sized locale /\ zlen v <= l.
Proof.
  intros Hs [Hnames Hfwd] He. unfold terminal_environment, with_locale in He.
  cbn [environmentvariables set_environmentvariables] in He.
  apply bt_extend_elem in He as [He|[He Hk]]; [| |apply bt_extend_sorted; constructor].
  - rewrite Forall_forall in Hfwd. specialize (Hfwd _ He). cbn [snd] in Hfwd.
    assert (k ∈ omap environmentvariable (reversetunnels payload)) as Hn.
    { rewrite <-Hnames. apply list_elem_of_fmap. by exists (k, v). }
    destruct (reserved_of_key payload k) as [l Hl]; [by left|]. exists l. split; [set_solver|].
    apply reserved_of_elem in Hl as [[_ ->]|[? _]]; done.
  - cbn [fst] in Hk. rewrite Hnames in Hk. apply bt_extend_elem in He as [He|[He _]]; [|set_solver|constructor].
    apply bt_extend_elem in He as [He|[He _]]; [| |done].
    + exists (zlen v). split; [|done]. apply elem_of_app. right. apply list_elem_of_fmap. by exists (k, v).
    + destruct (reserved_of_key payload k) as [l Hl].
      { right. apply list_elem_of_fmap. by exists (k, v). }
      exists l. split; [set_solver|]. apply reserved_of_elem in Hl as [[? _]|(_ & v' & Hin & ->)]; [done|].
      by rewrite (sorted_unique _ _ _ _ Hs He Hin).
Qed.

Lemma term_init_len environment payload t :
  no_pty payload = (fun _ => true) <$> command payload ->
  terminal_init_from_payload environment payload = Ok t ->
  zlen (encode_term_init t) =
    zlen (encode_fields (term_init_fields (bare_init (flowcontrol payload) (command payload)))) +
    total_cost (map sized environment) + unbudgeted payload.
Proof.
  intros Hpipe. unfold terminal_init_from_payload. rewrite Hpipe. cbv zeta.
  case_match; [done|]. case_match; [done|]. intros [= <-]. rewrite encode_term_init_len. unfold term_init_fields, bare_init, unbudgeted.
  cbn [environmentnames environmentvalues ti_no_pty ti_command ti_no_shell hadreversetunnels
    ti_disconnect_timeout_seconds ti_flowcontrol map].
  rewrite !encode_fields_app. pose proof (encode_entries 1 2 environment).
  set (names := zlen (encode_fields (map (BytesField 1) (map fst environment)))) in *.
  set (values := zlen (encode_fields (map (BytesField 2) (map snd environment)))) in *.
  assert (Hv : forall o, zlen (encode_fields (opt_varint 7 ((fun v => v mod 2 ^ 64) <$> o))) =
    match o with Some v => 1 + varint_len (v mod 2 ^ 64) | None => 0 end).
  { intros [v|]; [|done]. rewrite varint_len_spec. unfold encode_fields. cbn [fmap option_fmap option_map opt_varint map concat encode_field].
    rewrite app_nil_r, zlen_cons. done. }
  rewrite Hv. destruct (command payload) as [c|]; cbn [fmap option_fmap option_map unwrap_or].
  all: destruct (unwrap_or false (no_shell payload)), (reversetunnels payload).
  all: cbn [fmap option_fmap option_map opt_bool opt_bytes opt_varint].
  all: change (zlen (encode_fields [VarintField 5 1])) with 2; change (zlen (encode_fields [VarintField 6 1])) with 2;
    change (zlen (encode_fields [])) with 0; lia.
Qed.

(** The [TERMINAL_INIT] that the server builds exceeds the client's budget by
    at most the fields the budget leaves out, and has no more variables than
    the limit allows unless the forwards alone exceed it. *)
Lemma terminal_init_bounded payload candidates locale forward_environment t :
  sorted (environmentvariables payload) -> no_pty payload = (fun _ => true) <$> command payload ->
  bounded_locale_environment candidates (reserved_of payload) (flowcontrol payload) (command payload) = Ok locale ->
  exported payload forward_environment ->
  terminal_init_from_payload (terminal_environment (with_locale payload locale) forward_environment)
    (with_locale payload locale) = Ok t ->
  wire_len (new TERMINAL_INIT (encode_term_init t)) <= MAX_INIT_PACKET_LEN + unbudgeted payload /\
  zlen (environmentnames t) <= Z.max MAX_ENVIRONMENT (zlen (reserved_of payload)).
Proof.
  intros Hs Hpipe Hb Hx Ht. apply bounded_spec in Hb as [Hfits Hcount Hnodup Hfree]; [|apply reserved_of_pos].
  set (env := terminal_environment _ _) in *.
  assert (sorted env) as Hsorted by (apply bt_extend_sorted, bt_extend_sorted; constructor).
  destruct (total_cost_covered (map sized env) (reserved_of payload ++ map sized locale)) as [Hcost Hlen].
  - rewrite map_map. by apply sorted_nodup.
  - rewrite map_app, map_map. apply NoDup_app. split_and!; [apply sorted_nodup, reserved_of_sorted| |done].
    intros k Hk Hin. apply list_elem_of_fmap in Hin as (e & -> & Hin). destruct (Hfree e Hin) as [Hf _].
    cbn [sized fst] in Hk. apply contains_key_spec in Hk. congruence.
  - apply Forall_app. split; [apply reserved_of_pos|]. apply Forall_forall. intros e He.
    apply list_elem_of_fmap in He as (e' & -> & _). apply zlen_nonneg.
  - intros k n Hin. apply list_elem_of_fmap in Hin as ([k' v] & [= -> ->] & Hin). split; [apply zlen_nonneg|].
    by apply (environment_covered payload locale forward_environment).
  - assert (environmentnames t = map fst env) as ->.
    { unfold terminal_init_from_payload in Ht. cbv zeta in Ht. repeat case_match; simplify_eq; done. }
    unfold wire_len, new. cbn [Packet.payload]. rewrite (term_init_len _ _ _ Hpipe Ht).
    rewrite total_cost_app in Hcost. split; [unfold unbudgeted in *; cbn in *; lia|].
    unfold zlen in *. rewrite !length_map, length_app, length_map in *. unfold locale_environment_capacity, sat_sub, MAX_ENVIRONMENT in *. lia.
Qed.
End bounded.

(** ** The jumphost's packet *)

Lemma bt_remove_cons {V} k e (m : BTreeMap V) :
  bt_remove k (e :: m) = if decide (fst e = k) then bt_remove k m else e :: bt_remove k m.
Proof.
  unfold bt_remove, filter. cbn [list_filter]. fold (@filter _ (BTreeMap V) _).
  by destruct (decide (fst e <> k)), (decide (fst e = k)).
Qed.

Lemma bt_remove_absent {V} k (m : BTreeMap V) : k ∉ map fst m -> bt_remove k m = m.
Proof.
  intros Hk. induction m as [|e m IH]; [done|]. cbn [map] in Hk. apply not_elem_of_cons in Hk as [Hne Hk].
  rewrite bt_remove_cons, decide_False by done. f_equal. by apply IH.
Qed.

Lemma bt_remove_insert {V} k v (m : BTreeMap V) : k ∉ map fst m -> bt_remove k (bt_insert k v m) = m.
Proof.
  induction m as [|[k' v'] m IH]; intros Hk; cbn [bt_insert map fst] in *.
  { by rewrite bt_remove_cons, decide_True. }
  pose proof (bt_remove_absent k ((k', v') :: m) Hk) as Hsame.
  apply not_elem_of_cons in Hk as [Hne Hk]. destruct (bytes_cmp k k') eqn:Hc.
  - by apply bytes_cmp_eq in Hc.
  - by rewrite bt_remove_cons, decide_True.
  - rewrite bt_remove_cons, decide_False by (cbn; congruence). f_equal. by apply IH.
Qed.

Section jumphost.
Context `{!InitCodec}.

(** The packet that a jumphost makes of a payload. *)
Definition jumphost_len (payload : InitialPayload) (locale : list (list byte * list byte)) : Z :=
  wire_len (new JUMPHOST_INIT (encode_initial_payload (with_locale (set_jumphost payload) locale))).

(** For a jumphost, the client keeps the longest beginning of its variables
    whose packet fits: so the locale's come before the others. When it gives
    up, not even the packet without them does. *)
Theorem jumphost_keeps_longest payload locale :
  NoDup (map fst locale) -> (forall k, k ∈ map fst locale -> k ∉ map fst (environmentvariables payload)) ->
  sorted (environmentvariables payload) ->
  match bound_jumphost_locale_environment payload locale with
  | Ok kept =>
      exists dropped, locale = kept ++ dropped /\ jumphost_len payload kept <= MAX_INIT_PACKET_LEN /\
        match dropped with [] => True | e :: _ => MAX_INIT_PACKET_LEN < jumphost_len payload (kept ++ [e]) end
  | Err n => n = jumphost_len payload [] /\ MAX_INIT_PACKET_LEN < n
  end.
Proof.
  intros Hn Hd Hs.
  change (bound_jumphost_locale_environment payload locale)
    with (pop_until_fits (with_locale (set_jumphost payload) locale) (rev locale)).
  induction locale as [|[k v] locale IH] using rev_ind.
  - cbn [rev pop_until_fits]. fold (jumphost_len payload []).
    destruct (Z.leb_spec (jumphost_len payload []) MAX_INIT_PACKET_LEN); [|done]. by exists [].
  - rewrite rev_app_distr. cbn [rev app pop_until_fits]. fold (jumphost_len payload (locale ++ [(k, v)])).
    destruct (Z.leb_spec (jumphost_len payload (locale ++ [(k, v)])) MAX_INIT_PACKET_LEN) as [Hle|Hlt].
    { exists []. cbn [rev]. rewrite rev_involutive, app_nil_r. done. }
    rewrite map_app in Hn, Hd. apply NoDup_app in Hn as (Hn & Hdis & _).
    assert (set_environmentvariables
              (bt_remove k (environmentvariables (with_locale (set_jumphost payload) (locale ++ [(k, v)]))))
              (with_locale (set_jumphost payload) (locale ++ [(k, v)])) = with_locale (set_jumphost payload) locale) as ->.
    { unfold with_locale, set_environmentvariables. cbn [environmentvariables set_jumphost jumphost reversetunnels
        no_pty command supports_exit_status no_shell disconnect_timeout_seconds flowcontrol]. f_equal.
      unfold bt_extend at 1. rewrite foldl_app. cbn [foldl fst snd]. fold (bt_extend (environmentvariables payload) locale).
      apply bt_remove_insert. intros Hin. apply list_elem_of_fmap in Hin as (e & -> & He).
      apply bt_extend_elem in He as [He|[He _]]; [| |done].
      - apply (Hdis (fst e)); [by apply list_elem_of_fmap_2|]. cbn. set_solver.
      - apply (Hd (fst e)); [cbn; set_solver|]. by apply list_elem_of_fmap_2. }
    specialize (IH Hn (fun k Hk => Hd k ltac:(set_solver))).
    destruct (pop_until_fits _ (rev locale)) as [kept|n]; [|done].
    destruct IH as (dropped & -> & Hfit & Hmax). exists (dropped ++ [(k, v)]). rewrite app_assoc. split_and!; [done..|].
    destruct dropped; [|done]. by rewrite app_nil_r in Hlt.
Qed.
End jumphost.

(** ** The variables that are sent *)

Lemma portable_no_star name : portable_environment_name name = true -> "*"%byte ∉ name.
Proof.
  destruct name as [|b rest]; [done|]. cbn [portable_environment_name]. intros H Hin.
  apply andb_true_iff in H as [Hb Hr]. apply elem_of_cons in Hin as [<-|Hin]; [done|].
  rewrite forallb_forall in Hr. specialize (Hr "*"%byte). rewrite <-list_elem_of_In in Hr. by specialize (Hr Hin).
Qed.

Lemma environment_before_total a b : environment_before a b = false -> environment_before b a = true.
Proof.
  unfold environment_before. rewrite (Z.compare_antisym (locale_priority (fst a))), (bytes_cmp_antisym (fst a)).
  destruct (_ ?= _); cbn [CompOpp]; [|done..]. by destruct (bytes_cmp (fst a) (fst b)).
Qed.

Lemma environment_before_trans a b c :
  environment_before a b = true -> environment_before b c = true -> environment_before a c = true.
Proof.
  unfold environment_before.
  destruct (Z.compare_spec (locale_priority (fst a)) (locale_priority (fst b))),
    (Z.compare_spec (locale_priority (fst b)) (locale_priority (fst c))),
    (Z.compare_spec (locale_priority (fst a)) (locale_priority (fst c))); try done; try lia.
  destruct (bytes_cmp (fst a) (fst b)) eqn:Hab; [apply bytes_cmp_eq in Hab as ->; done| |done].
  destruct (bytes_cmp (fst b) (fst c)) eqn:Hbc; [apply bytes_cmp_eq in Hbc as <-; by rewrite Hab| |done].
  by rewrite (bytes_cmp_trans _ _ _ Hab Hbc).
Qed.

Lemma insert_variable_perm e l : insert_variable e l ≡ₚ e :: l.
Proof.
  induction l as [|e' l IH]; cbn [insert_variable]; [done|]. destruct (environment_before e e'); [done|].
  rewrite IH. apply Permutation_swap.
Qed.

Lemma insert_variable_sorted e l :
  StronglySorted (fun a b => environment_before a b = true) l ->
  StronglySorted (fun a b => environment_before a b = true) (insert_variable e l).
Proof.
  induction 1 as [|e' l Hs IH Hall]; cbn [insert_variable]; [repeat constructor|].
  destruct (environment_before e e') eqn:He.
  - constructor; [by constructor|]. constructor; [done|]. eapply Forall_impl; [done|]. intros x.
    by apply environment_before_trans.
  - constructor; [done|]. rewrite insert_variable_perm. constructor; [by apply environment_before_total|done].
Qed.

(** What [SendEnv] sends of an environment: the variables with a portable
    name, a short value without NUL and a name that one of the patterns
    means, all of them, sorted with the locale's first. *)
Theorem send_env_selects patterns environment :
  let selected := select_send_environment patterns environment in
  StronglySorted (fun a b => environment_before a b = true) selected /\
  selected ≡ₚ filter (fun e => sendable patterns e = true) environment /\
  forall e, sendable patterns e = true <->
    portable_environment_name (fst e) = true /\ zlen (snd e) <= MAX_ENV_VALUE /\ x00 ∉ snd e /\
    exists pattern, pattern ∈ patterns /\ Glob pattern (fst e).
Proof.
  cbv zeta. unfold select_send_environment. split_and!.
  - induction (filter _ environment) as [|e l IH]; cbn [foldr]; [constructor|by apply insert_variable_sorted].
  - induction (filter _ environment) as [|e l IH]; cbn [foldr]; [done|]. by rewrite insert_variable_perm, IH.
  - intros e. unfold sendable. rewrite !andb_true_iff, Z.leb_le, negb_true_iff, <-not_true_iff_false, contains_spec, existsb_exists.
    split.
    + intros [[[Hp Hl] Hz] (pattern & Hin & Hm)]. split_and!; [done..|]. exists pattern.
      rewrite list_elem_of_In. split; [done|]. by apply glob_matches; [apply portable_no_star|].
    + intros (Hp & Hl & Hz & pattern & Hin & Hm). split_and!; [done..|]. exists pattern.
      rewrite <-list_elem_of_In. split; [done|]. by apply glob_matches; [apply portable_no_star|].
Qed.

(** ** A codec *)

Definition endpoint_fields (e : SocketEndpoint) : list field := opt_bytes 1 (ep_name e) ++ opt_varint 2 (ep_port e).

Definition request_fields (r : PortForwardSourceRequest) : list field :=
  opt_bytes 1 ((fun e => encode_fields (endpoint_fields e)) <$> source r) ++
  opt_bytes 2 ((fun e => encode_fields (endpoint_fields e)) <$> destination r) ++
  opt_bytes 3 (environmentvariable r).

Definition payload_fields (p : InitialPayload) : list field :=
  opt_bool 1 (jumphost p) ++
  map (fun r => BytesField 2 (encode_fields (request_fields r))) (reversetunnels p) ++
  map (fun e => BytesField 3 (encode_fields [BytesField 1 (fst e); BytesField 2 (snd e)])) (environmentvariables p) ++
  opt_bool 4 (no_pty p) ++ opt_bytes 5 (command p) ++ opt_bool 6 (supports_exit_status p) ++ opt_bool 7 (no_shell p) ++
  opt_varint 8 ((fun v => v mod 2 ^ 64) <$> disconnect_timeout_seconds p) ++
  opt_varint 9 ((fun v => v mod 2 ^ 64) <$> flowcontrol p).

#[export] Instance wire_init : InitCodec := {
  encode_term_init t := encode_fields (term_init_fields t);
  encode_initial_payload p := encode_fields (payload_fields p)
}.

#[export] Instance wire_init_laws : InitCodecLaws wire_init.
Proof. by split. Qed.

(** Five of the largest values do not fit beside a command of 48 KiB. *)
Definition long_payload : InitialPayload :=
  mkPayload (Some false) [] [] (Some true) (Some (replicate (Z.to_nat 49152) "x"%byte)) (Some true) None None None.
Definition large_variables : list (list byte * list byte) :=
  map (fun c => ([c], replicate (Z.to_nat 4096) "v"%byte)) (bytes_of "ABCDE").

Lemma large_names : map fst large_variables = map (fun c => [c]) (bytes_of "ABCDE").
Proof. unfold large_variables. by rewrite map_map. Qed.

Lemma large_variables_kept : bound_jumphost_locale_environment long_payload large_variables = Ok (ztake 3 large_variables).
Proof. vm_compute. reflexivity. Qed.

Lemma jumphost_keeps_longest_witness :
  exists kept dropped, large_variables = kept ++ dropped /\ zlen kept = 3 /\ jumphost_len long_payload kept <= MAX_INIT_PACKET_LEN.
Proof.
  pose proof (jumphost_keeps_longest long_payload large_variables) as H. rewrite large_variables_kept, large_names in H.
  destruct H as (dropped & Heq & Hfit & _).
  - apply (bool_decide_unpack _). by vm_compute.
  - intros k _. apply not_elem_of_nil.
  - constructor.
  - exists (ztake 3 large_variables), dropped. split; [exact Heq|]. split; [rewrite zlen_ztake; by vm_compute|exact Hfit].
Defined.
