(* ===== verification/ForwardConfig.v ===== *)
(** * ForwardConfig: [crates/et-bin/src/forward_config.rs]

    The forwards of a session: those of the command line, then those of the
    ssh configuration that are new, and the [InitialPayload] that announces
    the reverse ones. [ClientArgs] and [ResolvedSshConfig] hold the fields
    that this module reads. *)

From Stdlib Require Import String.
From S2P Require Import Prelude Bytes Packet Socks Tunnel ClientEnvironment.

#[export] Instance SocketEndpoint_eq_dec : EqDecision SocketEndpoint.
Proof. solve_decision. Defined.
#[export] Instance PortForwardSourceRequest_eq_dec : EqDecision PortForwardSourceRequest.
Proof. solve_decision. Defined.

(** ** Data *)

(** [ForwardOrigin] and [ForwardSource] of [et-net/src/forward.rs]. *)
Inductive ForwardOrigin := Explicit | SshConfig (strict : bool).

Record ForwardSource := mkForwardSource {
  request : PortForwardSourceRequest;
  origin : ForwardOrigin;
  socks : bool;
  stdio : bool
}.

Definition explicit (r : PortForwardSourceRequest) : ForwardSource := mkForwardSource r Explicit false false.
Definition ssh_config (r : PortForwardSourceRequest) (strict : bool) : ForwardSource :=
  mkForwardSource r (SshConfig strict) false false.
Definition dynamic (listen : SocketEndpoint) : ForwardSource :=
  mkForwardSource (mkSource (Some listen) None None) Explicit true false.
Definition stdio_source (destination : SocketEndpoint) : ForwardSource :=
  mkForwardSource (mkSource None (Some destination) None) Explicit false true.

Inductive ForwardConfigError :=
  | MissingAgentSocket
  | TunnelFailed (error : TunnelError)
  | InvalidEnvironmentName (name : list byte)
  | TooManyEnvironmentNames (count : Z)
  | EnvironmentPacketTooLarge (length : Z)
  | JumphostPacketTooLarge (length : Z).

Inductive FlowControlMode := FlowNone | FlowBackpressure | FlowDiscard.

Definition protocol_value (m : FlowControlMode) : option Z :=
  match m with FlowNone => None | FlowBackpressure => Some 1 | FlowDiscard => Some 2 end.

Record ClientArgs := mkArgs {
  tunnel : list (list byte);
  arg_dynamic : list (list byte);
  stdio_forward : option (list byte);
  reverse_tunnel : list (list byte);
  forward_ssh_agent : bool;
  ssh_socket : option (list byte);
  no_remote_command : bool;
  arg_no_pty : bool;
  arg_command : option (list byte);
  flow_control : FlowControlMode;
  disconnect_timeout : option Z;
  arg_no_terminal : bool
}.

Record ResolvedSshConfig := mkResolved {
  exit_on_forward_failure : bool;
  local_forwards : list PortForwardSourceRequest;
  remote_forwards : list PortForwardSourceRequest;
  dynamic_forwards : list SocketEndpoint;
  clear_all_forwardings : bool
}.

Record ForwardConfig := mkConfig {
  local_sources : list ForwardSource;
  initial_payload : InitialPayload;
  explicit_disconnect_timeout : option Z;
  no_terminal : bool;
  shell_less : bool
}.

Definition set_local_sources (l : list ForwardSource) (c : ForwardConfig) : ForwardConfig :=
  mkConfig l (initial_payload c) (explicit_disconnect_timeout c) (no_terminal c) (shell_less c).
Definition set_initial_payload (p : InitialPayload) (c : ForwardConfig) : ForwardConfig :=
  mkConfig (local_sources c) p (explicit_disconnect_timeout c) (no_terminal c) (shell_less c).
Definition set_reversetunnels (l : list PortForwardSourceRequest) (p : InitialPayload) : InitialPayload :=
  mkPayload (jumphost p) l (environmentvariables p) (no_pty p) (command p) (supports_exit_status p) (no_shell p)
    (disconnect_timeout_seconds p) (flowcontrol p).
Definition set_disconnect_timeout_seconds (v : option Z) (p : InitialPayload) : InitialPayload :=
  mkPayload (jumphost p) (reversetunnels p) (environmentvariables p) (no_pty p) (command p) (supports_exit_status p)
    (no_shell p) v (flowcontrol p).

(** ** Timeouts ([et-cli/src/client.rs]) *)

Definition FORWARD_ONLY_DISCONNECT_TIMEOUT_SECONDS : Z := 5 * 60.

Definition effective_disconnect_timeout_seconds (explicit_seconds : option Z) (forward_only : bool) : option Z :=
  match explicit_seconds with
  | Some seconds => Some seconds
  | None => if forward_only then Some FORWARD_ONLY_DISCONNECT_TIMEOUT_SECONDS else None
  end.

(** The parser refuses minutes whose seconds do not fit an [i32]. *)
Definition args_disconnect_timeout_seconds (args : ClientArgs) : option Z := (fun minutes => minutes * 60) <$> disconnect_timeout args.

Definition has_port_forwards (c : ForwardConfig) : bool :=
  negb (zlen (local_sources c) =? 0) || negb (zlen (reversetunnels (initial_payload c)) =? 0).

Definition forward_only (c : ForwardConfig) : bool := shell_less c || (no_terminal c && has_port_forwards c).

Definition refresh_disconnect_timeout (c : ForwardConfig) : ForwardConfig :=
  set_initial_payload
    (set_disconnect_timeout_seconds
       (effective_disconnect_timeout_seconds (explicit_disconnect_timeout c) (forward_only c)) (initial_payload c)) c.

(** ** The configuration *)

(** The names go into a set. *)
Fixpoint check_names (reverse_tunnels : list PortForwardSourceRequest) (names : list (list byte))
    : result ForwardConfigError (list (list byte)) :=
  match reverse_tunnels with
  | [] => Ok names
  | r :: reverse_tunnels =>
      match environmentvariable r with
      | None => check_names reverse_tunnels names
      | Some name =>
          if negb (portable_environment_name name) then Err (InvalidEnvironmentName name)
          else check_names reverse_tunnels (if existsb (list_eqb name) names then names else name :: names)
      end
  end.

Definition validate_environment_names (reverse_tunnels : list PortForwardSourceRequest) : result ForwardConfigError unit :=
  let? names := check_names reverse_tunnels [] in
  if MAX_ENVIRONMENT <? zlen names then Err (TooManyEnvironmentNames (zlen names)) else Ok tt.

Definition SSH_AUTH_SOCK : list byte := bytes_of "SSH_AUTH_SOCK".

(** The request that [build] makes for the agent. *)
Definition is_agent_forward (r : PortForwardSourceRequest) : bool :=
  match source r, environmentvariable r with None, Some name => list_eqb name SSH_AUTH_SOCK | _, _ => false end.

Fixpoint dynamic_sources (specs : list (list byte)) : result ForwardConfigError (list ForwardSource) :=
  match specs with
  | [] => Ok []
  | spec :: specs =>
      let? endpoint := map_err TunnelFailed (parse_dynamic_forward spec) in
      let? rest := dynamic_sources specs in
      Ok (dynamic endpoint :: rest)
  end.

Definition agent_tunnels (args : ClientArgs) (environment_agent : option (list byte))
    : result ForwardConfigError (list PortForwardSourceRequest) :=
  if forward_ssh_agent args then
    match (match ssh_socket args with Some s => Some s | None => environment_agent end) with
    | None | Some [] => Err MissingAgentSocket
    | Some destination => Ok [mkSource None (Some (mkEndpoint (Some destination) None)) (Some SSH_AUTH_SOCK)]
    end
  else Ok [].

Definition build (args : ClientArgs) (environment_agent : option (list byte)) : result ForwardConfigError ForwardConfig :=
  let? tunnels := map_err TunnelFailed (parse_tunnels (tunnel args)) in
  let? dynamics := dynamic_sources (arg_dynamic args) in
  let? stdios :=
    match stdio_forward args with
    | Some spec => let? destination := map_err TunnelFailed (parse_stdio_forward spec) in Ok [stdio_source destination]
    | None => Ok []
    end in
  let? reverse_tunnels := map_err TunnelFailed (parse_tunnels (reverse_tunnel args)) in
  let? agent := agent_tunnels args environment_agent in
  let? _ := validate_environment_names (reverse_tunnels ++ agent) in
  let shell_less := bool_decide (is_Some (stdio_forward args)) || no_remote_command args in
  let pipe := arg_no_pty args && negb (no_remote_command args) in
  Ok (refresh_disconnect_timeout
        (mkConfig (map explicit tunnels ++ dynamics ++ stdios)
           (mkPayload (Some false) (reverse_tunnels ++ agent) []
              (if pipe then Some true else None)
              (if pipe then Some (unwrap_or [] (arg_command args)) else None)
              (Some true)
              (if shell_less then Some true else None)
              None (protocol_value (flow_control args)))
           (args_disconnect_timeout_seconds args) (arg_no_terminal args) shell_less)).

(** [local_sources.retain(...)]: the sources kept, and their requests. *)
Fixpoint retain_new (sources : list ForwardSource) (local_requests : list PortForwardSourceRequest)
    : list ForwardSource * list PortForwardSourceRequest :=
  match sources with
  | [] => ([], local_requests)
  | s :: sources =>
      if bool_decide (request s ∈ local_requests) then retain_new sources local_requests
      else let (kept, local_requests) := retain_new sources (local_requests ++ [request s]) in (s :: kept, local_requests)
  end.

(** The loops over the configuration's forwards. *)
Fixpoint import_sources (sources : list ForwardSource) (local_requests : list PortForwardSourceRequest)
    (local_sources : list ForwardSource) : list ForwardSource * list PortForwardSourceRequest :=
  match sources with
  | [] => (local_sources, local_requests)
  | s :: sources =>
      if bool_decide (request s ∈ local_requests) then import_sources sources local_requests local_sources
      else import_sources sources (local_requests ++ [request s]) (local_sources ++ [s])
  end.

Fixpoint import_requests (requests : list PortForwardSourceRequest) (remote_requests : list PortForwardSourceRequest)
    (deduplicated : list PortForwardSourceRequest) : list PortForwardSourceRequest :=
  match requests with
  | [] => deduplicated
  | r :: requests =>
      if is_agent_forward r || negb (bool_decide (r ∈ remote_requests))
      then import_requests requests (remote_requests ++ [r]) (deduplicated ++ [r])
      else import_requests requests remote_requests deduplicated
  end.

(** [last().is_some_and(...).then(|| pop().unwrap())]: the agent's request
    taken off the end. *)
Definition take_agent (requests : list PortForwardSourceRequest)
    : list PortForwardSourceRequest * option PortForwardSourceRequest :=
  match last requests with
  | Some r => if is_agent_forward r then (removelast requests, Some r) else (requests, None)
  | None => (requests, None)
  end.

Definition config_dynamic (strict : bool) (endpoint : SocketEndpoint) : ForwardSource :=
  mkForwardSource (request (dynamic endpoint)) (SshConfig strict) true false.

Definition apply_ssh_config (c : ForwardConfig) (resolved : ResolvedSshConfig)
    : ForwardConfig * result ForwardConfigError unit :=
  if clear_all_forwardings resolved then
    let c := set_local_sources (filter (fun s => stdio s = true) (local_sources c)) c in
    let c := set_initial_payload
               (set_reversetunnels (filter (fun r => is_agent_forward r = true) (reversetunnels (initial_payload c)))
                  (initial_payload c)) c in
    let c := refresh_disconnect_timeout c in
    (c, validate_environment_names (reversetunnels (initial_payload c)))
  else
    let strict := exit_on_forward_failure resolved in
    let (kept, local_requests) := retain_new (local_sources c) [] in
    let (sources, local_requests) :=
      import_sources (map (fun r => ssh_config r strict) (local_forwards resolved)) local_requests kept in
    let (sources, local_requests) :=
      import_sources (map (config_dynamic strict) (dynamic_forwards resolved)) local_requests sources in
    let c := set_local_sources sources c in
    let (explicit, agent) := take_agent (reversetunnels (initial_payload c)) in
    let deduplicated := import_requests (explicit ++ remote_forwards resolved) [] [] in
    let reversetunnels' := deduplicated ++ match agent with Some r => [r] | None => [] end in
    let c := set_initial_payload (set_reversetunnels reversetunnels' (initial_payload c)) c in
    let c := refresh_disconnect_timeout c in
    (c, validate_environment_names (reversetunnels (initial_payload c))).

(** ** What the configuration holds *)

(** The first of each, in order. *)
Fixpoint firsts {A} `{EqDecision A} (seen l : list A) : list A :=
  match l with
  | [] => []
  | x :: l => if bool_decide (x ∈ seen) then firsts seen l else x :: firsts (seen ++ [x]) l
  end.

Lemma firsts_app {A} `{EqDecision A} (seen l k : list A) :
  firsts seen (l ++ k) = firsts seen l ++ firsts (seen ++ firsts seen l) k.
Proof.
  revert seen. induction l as [|x l IH]; intros seen; cbn [firsts app]; [by rewrite app_nil_r|].
  destruct (bool_decide (x ∈ seen)); [done|]. rewrite IH, <-app_assoc. done.
Qed.

Lemma firsts_nodup {A} `{EqDecision A} (seen l : list A) :
  NoDup (firsts seen l) /\ forall x, x ∈ firsts seen l <-> x ∈ l /\ x ∉ seen.
Proof.
  revert seen. induction l as [|x l IH]; intros seen; cbn [firsts]; [split; [constructor|set_solver]|].
  case_bool_decide as Hx.
  - destruct (IH seen) as [Hn He]. split; [done|]. intros y. rewrite He. set_solver.
  - destruct (IH (seen ++ [x])) as [Hn He]. split.
    + constructor; [|done]. rewrite He. set_solver.
    + intros y. rewrite elem_of_cons, He, elem_of_cons, elem_of_app, list_elem_of_singleton.
      destruct (decide (y = x)); set_solver.
Qed.

Lemma retain_new_spec sources seen kept seen' :
  retain_new sources seen = (kept, seen') ->
  map request kept = firsts seen (map request sources) /\ seen' = seen ++ map request kept /\ kept `sublist_of` sources.
Proof.
  revert seen kept seen'. induction sources as [|s sources IH]; intros seen kept seen'; cbn [retain_new map firsts].
  { intros [= <- <-]. by rewrite app_nil_r. }
  destruct (bool_decide _); [intros H; apply IH in H as (? & ? & ?); split_and!; [done..|by constructor]|].
  destruct (retain_new sources _) as [kept1 seen1] eqn:Hr. intros [= <- <-]. apply IH in Hr as (Hk & -> & Hs).
  cbn [map]. rewrite Hk, <-app_assoc. split_and!; [done..|by constructor].
Qed.

Lemma import_sources_spec sources seen acc sources' seen' :
  import_sources sources seen acc = (sources', seen') ->
  exists new, sources' = acc ++ new /\ map request new = firsts seen (map request sources) /\
    seen' = seen ++ map request new /\ new `sublist_of` sources.
Proof.
  revert seen acc. induction sources as [|s sources IH]; intros seen acc; cbn [import_sources map firsts].
  { intros [= <- <-]. exists []. rewrite !app_nil_r. split_and!; [done..|constructor]. }
  destruct (bool_decide _); intros H; apply IH in H as (new & -> & Hn & -> & Hs).
  - exists new. split_and!; [done..|by constructor].
  - exists (s :: new). cbn [map]. rewrite Hn, <-!app_assoc. split_and!; [done..|by constructor].
Qed.

Lemma import_requests_spec requests acc :
  let result := import_requests requests acc acc in
  filter (fun r => is_agent_forward r = false) result =
    filter (fun r => is_agent_forward r = false) acc ++
    firsts (filter (fun r => is_agent_forward r = false) acc) (filter (fun r => is_agent_forward r = false) requests) /\
  filter (fun r => is_agent_forward r = true) result =
    filter (fun r => is_agent_forward r = true) acc ++ filter (fun r => is_agent_forward r = true) requests.
Proof.
  cbv zeta. revert acc. induction requests as [|r requests IH]; intros acc; cbn [import_requests].
  { rewrite !filter_nil. cbn [firsts]. by rewrite !app_nil_r. }
  destruct (is_agent_forward r) eqn:Ha; cbn [orb].
  - destruct (IH (acc ++ [r])) as [H1 H2]. rewrite !filter_app in H1, H2.
    rewrite (filter_cons_True _ r []), filter_nil in H2 by done. rewrite (filter_cons_False _ r []), filter_nil, app_nil_r in H1 by congruence.
    rewrite H1, H2, (filter_cons_False _ r) by congruence. rewrite (filter_cons_True _ r), <-app_assoc by done. done.
  - rewrite !(filter_cons_True (fun r => is_agent_forward r = false) r) by done.
    rewrite !(filter_cons_False (fun r => is_agent_forward r = true) r) by congruence. cbn [firsts].
    assert (r ∈ filter (fun r => is_agent_forward r = false) acc <-> r ∈ acc) as Hin.
    { rewrite list_elem_of_filter. tauto. }
    rewrite (bool_decide_ext _ _ Hin). destruct (bool_decide (r ∈ acc)); cbn [negb]; [apply IH|].
    destruct (IH (acc ++ [r])) as [H1 H2]. rewrite !filter_app in H1, H2.
    rewrite (filter_cons_True _ r []), filter_nil in H1 by done. rewrite (filter_cons_False _ r []), filter_nil, app_nil_r in H2 by congruence.
    rewrite H1, H2, <-app_assoc. done.
Qed.

Lemma take_agent_spec requests explicit agent :
  take_agent requests = (explicit, agent) ->
  requests = explicit ++ match agent with Some r => [r] | None => [] end /\
  match agent with Some r => is_agent_forward r = true | None => is_some_and is_agent_forward (last requests) = false end.
Proof.
  unfold take_agent. destruct (last requests) as [r|] eqn:Hl; [|intros [= <- <-]; by rewrite app_nil_r].
  destruct (is_agent_forward r) eqn:Ha; intros [= <- <-].
  - split; [|done]. apply last_Some in Hl as [l ->]. by rewrite removelast_last.
  - rewrite app_nil_r. by cbn.
Qed.

Lemma sublist_Forall {A} (P : A -> Prop) (l k : list A) : l `sublist_of` k -> Forall P k -> Forall P l.
Proof.
  intros Hs Hk. rewrite Forall_forall in *. intros x Hx. apply Hk. eapply elem_of_submseteq; [done|].
  by apply sublist_submseteq.
Qed.

(** ** Names *)

Lemma check_names_spec requests names names' :
  check_names requests names = Ok names' -> NoDup names ->
  NoDup names' /\ (forall k, k ∈ names' <-> k ∈ names \/ k ∈ omap environmentvariable requests) /\
  Forall (fun k => portable_environment_name k = true) (omap environmentvariable requests).
Proof.
  revert names. induction requests as [|r requests IH]; intros names; cbn [check_names].
  { intros [= ->] Hn. split_and!; [done|set_solver|constructor]. }
  destruct (environmentvariable r) as [k|] eqn:Hr.
  2: { intros H Hn. destruct (IH _ H Hn) as (? & ? & ?). cbn [omap list_omap]. by rewrite Hr. }
  destruct (portable_environment_name k) eqn:Hp; [|done]. cbn [negb]. intros H Hn.
  assert (Hin : existsb (list_eqb k) names = true <-> k ∈ names).
  { rewrite existsb_exists, list_elem_of_In. split; [|intros ?; exists k; split; [done|by apply list_eqb_spec]].
    intros (x & Hx & He). by apply list_eqb_spec in He as ->. }
  cbn [omap list_omap]. rewrite Hr. destruct (existsb _ names) eqn:Hs.
  - destruct (IH _ H Hn) as (H1 & H2 & H3). split_and!; [done| |by constructor].
    intros x. rewrite H2. assert (k ∈ names) by (by apply Hin). set_solver.
  - assert (k ∉ names) by (rewrite <-Hin; congruence).
    destruct (IH _ H) as (H1 & H2 & H3); [by constructor|]. split_and!; [done| |by constructor]. intros x. rewrite H2. set_solver.
Qed.

(** Validated tunnels reserve no more names than the limit. *)
Lemma validated_reserves payload :
  validate_environment_names (reversetunnels payload) = Ok tt -> environmentvariables payload = [] ->
  zlen (reserved_of payload) <= MAX_ENVIRONMENT /\
  Forall (fun k => portable_environment_name k = true) (omap environmentvariable (reversetunnels payload)).
Proof.
  unfold validate_environment_names. destruct (check_names _ []) as [names|] eqn:Hc; [|done].
  destruct (Z.ltb_spec MAX_ENVIRONMENT (zlen names)) as [|Hle]; [done|]. intros _ He.
  apply check_names_spec in Hc as (Hn & Hk & Hp); [|constructor]. split; [|done].
  etrans; [|done]. unfold zlen. apply inj_le. rewrite <-(length_map fst).
  apply submseteq_length, NoDup_submseteq; [apply sorted_nodup, reserved_of_sorted|].
  intros k Hin. rewrite Hk. right. apply list_elem_of_fmap in Hin as ([k' l] & -> & Hin).
  apply reserved_of_elem in Hin as [[? _]|(_ & v & Hv & _)]; [done|]. rewrite He in Hv. set_solver.
Qed.

(** ** The session's configuration *)

(** What [build] sets up and [apply_ssh_config] keeps. *)
Record config_ok (c : ForwardConfig) : Prop := mkConfigOk {
  ok_variables : environmentvariables (initial_payload c) = [];
  ok_pipe : no_pty (initial_payload c) = (fun _ => true) <$> command (initial_payload c);
  ok_no_shell : unwrap_or false (no_shell (initial_payload c)) = shell_less c;
  ok_timeout : disconnect_timeout_seconds (initial_payload c) =
    effective_disconnect_timeout_seconds (explicit_disconnect_timeout c) (forward_only c);
  ok_names : validate_environment_names (reversetunnels (initial_payload c)) = Ok tt
}.

Lemma build_inv args agent c :
  build args agent = Ok c ->
  exists tunnels dynamics stdios reverse agents,
    agent_tunnels args agent = Ok agents /\ validate_environment_names (reverse ++ agents) = Ok tt /\
    c = refresh_disconnect_timeout
          (let shell_less := bool_decide (is_Some (stdio_forward args)) || no_remote_command args in
           let pipe := arg_no_pty args && negb (no_remote_command args) in
           mkConfig (map explicit tunnels ++ dynamics ++ stdios)
             (mkPayload (Some false) (reverse ++ agents) [] (if pipe then Some true else None)
                (if pipe then Some (unwrap_or [] (arg_command args)) else None) (Some true)
                (if shell_less then Some true else None) None (protocol_value (flow_control args)))
             (args_disconnect_timeout_seconds args) (arg_no_terminal args) shell_less).
Proof.
  unfold build. destruct (map_err _ (parse_tunnels (tunnel args))) as [tunnels|]; [|done].
  destruct (dynamic_sources _) as [dynamics|]; [|done].
  destruct (match stdio_forward args with Some _ => _ | None => _ end) as [stdios|]; [|done].
  destruct (map_err _ (parse_tunnels (reverse_tunnel args))) as [reverse|]; [|done].
  destruct (agent_tunnels args agent) as [agents|]; [|done].
  destruct (validate_environment_names _) as [[]|] eqn:Hv; [|done]. intros [= <-].
  by exists tunnels, dynamics, stdios, reverse, agents.
Qed.

Lemma build_config_ok args agent c : build args agent = Ok c -> config_ok c.
Proof.
  intros H. apply build_inv in H as (tunnels & dynamics & stdios & reverse & agents & _ & Hv & ->).
  split; cbn.
  - done.
  - by destruct (_ && _).
  - by destruct (_ || _).
  - done.
  - done.
Qed.

(** With [-A], the last reverse tunnel is the agent's. *)
Lemma build_agent_last args agent c :
  build args agent = Ok c -> forward_ssh_agent args = true ->
  exists r, last (reversetunnels (initial_payload c)) = Some r /\ is_agent_forward r = true.
Proof.
  intros H Ha. apply build_inv in H as (tunnels & dynamics & stdios & reverse & agents & Hag & _ & ->).
  unfold agent_tunnels in Hag. rewrite Ha in Hag. repeat case_match; simplify_eq.
  all: eexists; cbn; rewrite last_snoc; split; [done|]; by vm_compute.
Qed.

Lemma apply_config_ok c resolved c' : config_ok c -> apply_ssh_config c resolved = (c', Ok tt) -> config_ok c'.
Proof.
  intros [H1 H2 H3 H4 H5]. unfold apply_ssh_config. destruct (clear_all_forwardings resolved).
  { intros [= <- Hv]. by split. }
  destruct (retain_new _ _) as [kept seen]. destruct (import_sources _ seen kept) as [sources seen'].
  destruct (import_sources _ seen' sources) as [sources' seen'']. destruct (take_agent _) as [rest agent].
  intros [= <- Hv]. by split.
Qed.

(** What the configuration of ssh adds to that of the command line: each new
    forward once and after the explicit ones; agent requests are never
    merged, the generated one stays last, and the timeout is the one of the
    forwards that result. *)
Theorem import_extends args agent c resolved c' :
  build args agent = Ok c -> clear_all_forwardings resolved = false -> apply_ssh_config c resolved = (c', Ok tt) ->
  map request (local_sources c') =
    firsts [] (map request (local_sources c) ++ local_forwards resolved ++
               map (fun e => request (dynamic e)) (dynamic_forwards resolved)) /\
  (exists kept new, local_sources c' = kept ++ new /\ kept `sublist_of` local_sources c /\
     Forall (fun s => origin s = SshConfig (exit_on_forward_failure resolved)) new) /\
  filter (fun r => is_agent_forward r = false) (reversetunnels (initial_payload c')) =
    firsts [] (filter (fun r => is_agent_forward r = false) (reversetunnels (initial_payload c) ++ remote_forwards resolved)) /\
  (forward_ssh_agent args = true ->
     last (reversetunnels (initial_payload c')) = last (reversetunnels (initial_payload c))) /\
  config_ok c'.
Proof.
  intros Hb Hclear Happ. assert (config_ok c') as Hok by (eapply apply_config_ok; [by eapply build_config_ok|done]).
  assert (Hagent : forward_ssh_agent args = true -> is_some_and is_agent_forward (last (reversetunnels (initial_payload c))) = true).
  { intros Ha. destruct (build_agent_last _ _ _ Hb Ha) as (r & -> & Hr). done. }
  clear Hb. unfold apply_ssh_config in Happ. rewrite Hclear in Happ.
  destruct (retain_new _ _) as [kept seen] eqn:Hr. apply retain_new_spec in Hr as (Hk & -> & Hsub).
  destruct (import_sources _ _ kept) as [sources seen'] eqn:Hi. apply import_sources_spec in Hi as (new1 & -> & Hn1 & -> & Hs1).
  destruct (import_sources _ _ (kept ++ new1)) as [sources' seen''] eqn:Hj.
  apply import_sources_spec in Hj as (new2 & -> & Hn2 & -> & Hs2).
  cbn [initial_payload set_local_sources] in Happ.
  destruct (take_agent _) as [rest ag] eqn:Ht. apply take_agent_spec in Ht as [Hrest Hag].
  assert (Hl : local_sources c' = (kept ++ new1) ++ new2 /\ reversetunnels (initial_payload c') =
    import_requests (rest ++ remote_forwards resolved) [] [] ++ match ag with Some r => [r] | None => [] end).
  { by injection Happ as <- _. }
  destruct Hl as [Hl Hrev]. clear Happ. split_and!; [| | | |done].
  - rewrite Hl, !map_app, Hn2, Hn1, Hk. rewrite map_map in *. cbn [app] in *. rewrite !firsts_app. cbn [app].
    rewrite <-!app_assoc. rewrite !map_map. cbn [request ssh_config config_dynamic]. rewrite map_id. done.
  - exists kept, (new1 ++ new2). rewrite Hl, app_assoc. split_and!; [done..|]. apply Forall_app. split.
    all: eapply sublist_Forall; [done|]; apply Forall_forall; intros s (? & -> & _)%list_elem_of_fmap; done.
  - rewrite Hrev, Hrest, filter_app, (proj1 (import_requests_spec _ [])), filter_nil. cbn [app].
    destruct ag as [r|]; [|by rewrite filter_nil, !app_nil_r].
    rewrite (filter_cons_False _ r), filter_nil, app_nil_r by congruence. rewrite <-app_assoc, !filter_app.
    by rewrite (filter_cons_False _ r), filter_nil by congruence.
  - intros Ha. specialize (Hagent Ha). rewrite Hrev. destruct ag as [r|]; [|by rewrite Hagent in Hag].
    by rewrite Hrest, !last_snoc.
Qed.

(** ** The server's packet for a session *)

Lemma unbudgeted_bound payload : 0 <= unbudgeted payload <= 15.
Proof.
  unfold unbudgeted. repeat case_match; rewrite ?varint_len_spec.
  all: try match goal with |- context [encode_varint ?v] => pose proof (encode_varint_zlen v) end; lia.
Qed.

Section session.
Context `{!InitCodec} `{!InitCodecLaws _}.

(** C34: From the command line to the server: the [TERMINAL_INIT] of a session
    names at most 128 variables and is within fifteen bytes of the client's
    limit; within the limit when the session is not forward-only, sets no
    timeout and has no reverse tunnels. *)
Theorem session_init_bounded args agent c resolved c' candidates locale forward_environment t :
  build args agent = Ok c -> apply_ssh_config c resolved = (c', Ok tt) ->
  let payload := initial_payload c' in
  bounded_locale_environment candidates (reserved_of payload) (flowcontrol payload) (command payload) = Ok locale ->
  exported payload forward_environment ->
  terminal_init_from_payload (terminal_environment (with_locale payload locale) forward_environment)
    (with_locale payload locale) = Ok t ->
  let len := wire_len (new TERMINAL_INIT (encode_term_init t)) in
  zlen (environmentnames t) <= MAX_ENVIRONMENT /\ len <= MAX_INIT_PACKET_LEN + 15 /\
  (forward_only c' = false -> explicit_disconnect_timeout c' = None -> reversetunnels payload = [] ->
   len <= MAX_INIT_PACKET_LEN).
Proof.
  cbv zeta. intros Hb Ha Hl Hx Ht. assert (config_ok c') as [Hv Hp Hn Hd Hnames].
  { eapply apply_config_ok; [by eapply build_config_ok|done]. }
  destruct (terminal_init_bounded _ _ _ _ _ ltac:(by rewrite Hv; constructor) Hp Hl Hx Ht) as [Hlen Hcount].
  destruct (validated_reserves _ Hnames Hv) as [Hres _]. pose proof (unbudgeted_bound (initial_payload c')).
  split_and!; [lia|lia|]. intros Hf He Hr. revert Hlen. unfold unbudgeted.
  rewrite Hn, Hr, Hd, He, Hf. cbn [effective_disconnect_timeout_seconds].
  unfold forward_only in Hf. apply orb_false_iff in Hf as [-> _]. lia.
Qed.
End session.

(** [et -N]: no shell, and so the timeout of forward-only sessions. *)
Definition no_command_args : ClientArgs := mkArgs [] [] None [] false None true false None FlowNone None false.
Definition empty_config : ResolvedSshConfig := mkResolved false [] [] [] false.

(** Fifteen values of the largest size, and one that fills the packet. *)
Definition filling_variables : list (list byte * list byte) :=
  map (fun c => ([c], replicate (Z.to_nat 4096) "v"%byte)) (bytes_of "ABCDEFGHIJKLMNO") ++
  [(bytes_of "P", replicate (Z.to_nat 3998) "v"%byte)].

Definition no_command_payload : InitialPayload :=
  mkPayload (Some false) [] [] None None (Some true) (Some true) (Some 300) None.

Lemma no_command_config :
  exists c, build no_command_args None = Ok c /\ apply_ssh_config c empty_config = (c, Ok tt) /\
    initial_payload c = no_command_payload /\ explicit_disconnect_timeout c = None.
Proof. eexists. split; [by vm_compute|]. by vm_compute. Qed.

Lemma filling_kept :
  bounded_locale_environment filling_variables (reserved_of no_command_payload) None None = Ok filling_variables.
Proof. vm_compute. reflexivity. Qed.

(** The client's limit is not the server's: for [et -N] the client lets
    through variables that fill the packet, and the server adds [no_shell]
    and the timeout to it. *)
Theorem forward_only_init_overruns :
  exists c t, build no_command_args None = Ok c /\ apply_ssh_config c empty_config = (c, Ok tt) /\
    bounded_locale_environment filling_variables (reserved_of (initial_payload c)) (flowcontrol (initial_payload c))
      (command (initial_payload c)) = Ok filling_variables /\
    terminal_init_from_payload (terminal_environment (with_locale (initial_payload c) filling_variables) [])
      (with_locale (initial_payload c) filling_variables) = Ok t /\
    wire_len (new TERMINAL_INIT (encode_term_init t)) = MAX_INIT_PACKET_LEN + 5.
Proof.
  destruct no_command_config as (c & Hb & Ha & Hp & _). exists c. eexists. rewrite Hp.
  split_and!; [exact Hb|exact Ha|exact filling_kept|reflexivity|]. vm_compute. reflexivity.
Qed.

(** ** Examples *)

Lemma session_init_bounded_witness :
  exists t, terminal_init_from_payload (terminal_environment (with_locale no_command_payload filling_variables) [])
      (with_locale no_command_payload filling_variables) = Ok t /\
    wire_len (new TERMINAL_INIT (encode_term_init t)) <= MAX_INIT_PACKET_LEN + 15.
Proof.
  destruct no_command_config as (c & Hb & Ha & Hp & _). eexists. split; [reflexivity|].
  refine (proj1 (proj2 (session_init_bounded no_command_args None c empty_config c filling_variables filling_variables [] _ Hb Ha _ _ _))).
  - rewrite Hp. exact filling_kept.
  - rewrite Hp. by split.
  - rewrite Hp. reflexivity.
Defined.

(** [et -A -t 8080:80 -t 8080:80], and a configuration with the same forward,
    another one and two remote ones. *)
Definition example_args : ClientArgs :=
  mkArgs [bytes_of "8080:80,8080:80"] [] None [bytes_of "9000:90"] true (Some (bytes_of "/tmp/agent")) false false None
    FlowNone None false.

Definition example_forward (port to : Z) : PortForwardSourceRequest :=
  mkSource (Some (tcp_endpoint (bytes_of "localhost") port)) (Some (tcp_port_endpoint to)) None.

Definition example_resolved : ResolvedSshConfig :=
  mkResolved true [example_forward 8080 80; example_forward 8081 81] [example_forward 9001 91; example_forward 9000 90]
    [tcp_endpoint (bytes_of "127.0.0.1") 1080] false.

Lemma import_extends_witness :
  exists c c', build example_args None = Ok c /\ apply_ssh_config c example_resolved = (c', Ok tt) /\
    map request (local_sources c') =
      [example_forward 8080 80; example_forward 8081 81; mkSource (Some (tcp_endpoint (bytes_of "127.0.0.1") 1080)) None None] /\
    last (reversetunnels (initial_payload c')) = last (reversetunnels (initial_payload c)).
Proof.
  eexists _, _. split; [reflexivity|]. split; [reflexivity|].
  refine ((fun H => conj (proj1 H) (proj1 (proj2 (proj2 (proj2 H))) eq_refl))
            (import_extends example_args None _ example_resolved _ eq_refl eq_refl eq_refl)).
Defined.
