(* ===== verification/SshAgentBind.v ===== *)
(** * SshAgentBind: [crates/et-net/src/ssh_agent_session_bind.rs] and
    [ssh_agent_recorder.rs]

    The binding of an ssh agent connection to a session: the request ssh
    sends its agent, the proxy that relays and records it, and the removal of
    the agent's answers when the request is replayed on a forwarded
    connection. *)

From Stdlib Require Import String.
From S2P Require Import Prelude Bytes.

Definition SSH_AGENT_MAX_MESSAGE_LENGTH : Z := 256 * 1024.
Definition SSH_AGENTC_EXTENSION : byte := z2b 27.
Definition SSH_AGENT_FAILURE : byte := z2b 5.
Definition SESSION_BIND_EXTENSION : list byte := bytes_of "session-bind@openssh.com".

Inductive SessionBindEncodeError := BindTooLong.

(** ** Requests *)

Definition push_ssh_string (out bytes : list byte) : result SessionBindEncodeError (list byte) :=
  if zlen bytes <=? u32_max then Ok (out ++ be_bytes 4 (zlen bytes) ++ bytes) else Err BindTooLong.

Definition encode_session_bind (host_key session_id signature : list byte) (is_forwarding : bool)
    : result SessionBindEncodeError (list byte) :=
  let? body := push_ssh_string [SSH_AGENTC_EXTENSION] SESSION_BIND_EXTENSION in
  let? body := push_ssh_string body host_key in
  let? body := push_ssh_string body session_id in
  let? body := push_ssh_string body signature in
  Ok (body ++ [if is_forwarding then x01 else x00]).

(** The string at [pos] and the position behind it. *)
Definition read_ssh_string (message : list byte) (pos : Z) : option (list byte * Z) :=
  if zlen message - pos <? 4 then None
  else
    let length := be_val (slice message pos (pos + 4)) in
    let pos := pos + 4 in
    if zlen message <? pos + length then None else Some (slice message pos (pos + length), pos + length).

Definition parse_session_bind (request : list byte) : option (list byte * bool) :=
  match head request with
  | None => None
  | Some b =>
      if negb (beq b SSH_AGENTC_EXTENSION) then None
      else
        match read_ssh_string request 1 with
        | None => None
        | Some (name, pos) =>
            if negb (list_eqb name SESSION_BIND_EXTENSION) then None
            else
              match read_ssh_string request pos with
              | None => None
              | Some (host_key, pos) =>
                  match read_ssh_string request pos with
                  | None => None
                  | Some (session_id, pos) =>
                      match read_ssh_string request pos with
                      | None => None
                      | Some (signature, pos) =>
                          if (zlen host_key =? 0) || (zlen session_id =? 0) || (zlen signature =? 0) then None
                          else if negb (pos + 1 =? zlen request) then None
                          else
                            match head (zdrop pos request) with
                            | None => None
                            | Some flag => if 1 <? b2z flag then None else Some (host_key, b2z flag =? 1)
                            end
                      end
                  end
              end
        end
  end.

Definition forwarded_session_bind (request : list byte) : option (list byte) :=
  match parse_session_bind request with
  | None | Some (_, true) => None
  | Some (_, false) => match request with [] => None | _ => Some (removelast request ++ [x01]) end
  end.

(** Unix: paths are compared byte for byte. *)
Definition binds_for_destination (recorded_path : list byte) (recorded_binds : list (list byte)) (is_tcp : bool)
    (destination_name : option (list byte)) : option (list byte * list (list byte)) :=
  if is_tcp || (zlen recorded_binds =? 0) || (zlen recorded_path =? 0) then None
  else
    match destination_name with
    | None => None
    | Some name => if list_eqb name recorded_path then Some (recorded_path, recorded_binds) else None
    end.

(** ** Frames *)

Definition frame_agent_message (body : list byte) : option (list byte) :=
  if zlen body <=? u32_max then Some (be_bytes 4 (zlen body) ++ body) else None.

(** What [write_session_binds] writes. *)
Fixpoint bind_requests (binds : list (list byte)) : option (list byte) :=
  match binds with
  | [] => Some []
  | bind :: binds =>
      match frame_agent_message bind, bind_requests binds with
      | Some f, Some rest => Some (f ++ rest)
      | _, _ => None
      end
  end.

(** [pop_frame]: an error, or the frame at the front and what follows it. *)
Definition pop_frame (buffer : list byte) : result unit (option (list byte) * list byte) :=
  if zlen buffer <? 4 then Ok (None, buffer)
  else
    let length := be_val (ztake 4 buffer) in
    if (length =? 0) || (SSH_AGENT_MAX_MESSAGE_LENGTH <? length) then Err tt
    else
      let total := 4 + length in
      if zlen buffer <? total then Ok (None, buffer) else Ok (Some (slice buffer 4 total), zdrop total buffer).

Definition frame (body : list byte) : list byte :=
  be_bytes 4 (if zlen body <=? u32_max then zlen body else u32_max) ++ body.

(** ** The recorder *)

Definition note_bind (last : option (list byte)) (request : list byte) : option (list byte) :=
  match forwarded_session_bind request with None => last | Some bind => Some bind end.

(** A connection of the proxy and what [service] did with it: the requests
    relayed to the agent and the answers written back. *)
Record Recorder := mkRecorder {
  buffer : list byte;
  last_bind : option (list byte);
  relayed : list (list byte);
  written : list byte
}.

(** The loop of [service] over the requests in the buffer. The agent answers
    with [agent], [None] when the relay or the write fails; it has the answers
    to the requests so far to go by. The fuel is the length of the buffer. *)
Fixpoint serve (agent : list (list byte) -> option (list byte)) (fuel : nat) (r : Recorder) : Recorder * bool :=
  match pop_frame (buffer r) with
  | Err _ => (r, false)
  | Ok (None, _) => (r, true)
  | Ok (Some request, rest) =>
      let r := mkRecorder rest (note_bind (last_bind r) request) (relayed r ++ [request]) (written r) in
      match agent (relayed r), fuel with
      | Some reply, S fuel => serve agent fuel (mkRecorder rest (last_bind r) (relayed r) (written r ++ frame reply))
      | _, _ => (r, false)
      end
  end.

(** One read of the client, at most 4096 bytes; [false] when it is gone. *)
Definition service (agent : list (list byte) -> option (list byte)) (r : Recorder) (chunk : list byte) : Recorder * bool :=
  let buffer := buffer r ++ chunk in
  serve agent (length buffer) (mkRecorder buffer (last_bind r) (relayed r) (written r)).

Fixpoint serve_chunks (agent : list (list byte) -> option (list byte)) (r : Recorder) (chunks : list (list byte)) : Recorder * bool :=
  match chunks with
  | [] => (r, true)
  | chunk :: chunks =>
      match service agent r chunk with
      | (r, true) => serve_chunks agent r chunks
      | (r, false) => (r, false)
      end
  end.

(** ** Answers to replayed binds *)

Record AgentSessionBindReplies := mkReplies { bind_count : Z; replies_seen : Z; pending : list byte }.

Definition replies_new (bind_count : Z) : AgentSessionBindReplies := mkReplies bind_count 0 [].

(** The [while] of [consume]; each turn takes at least five bytes. *)
Fixpoint take_replies (fuel : nat) (r : AgentSessionBindReplies) : result unit AgentSessionBindReplies :=
  if (replies_seen r <? bind_count r) && (4 <=? zlen (pending r)) then
    let length := be_val (ztake 4 (pending r)) in
    if (length =? 0) || (SSH_AGENT_MAX_MESSAGE_LENGTH <? length) then Err tt
    else
      let total := 4 + length in
      if zlen (pending r) <? total then Ok r
      else
        match fuel with
        | O => Ok r
        | S fuel => take_replies fuel (mkReplies (bind_count r) (replies_seen r + 1) (zdrop total (pending r)))
        end
  else Ok r.

Definition consume (r : AgentSessionBindReplies) (data : list byte) : result unit (AgentSessionBindReplies * list byte) :=
  if replies_seen r =? bind_count r then Ok (r, data)
  else
    let all := pending r ++ data in
    let? r := take_replies (length all) (mkReplies (bind_count r) (replies_seen r) all) in
    if replies_seen r =? bind_count r then Ok (mkReplies (bind_count r) (replies_seen r) [], pending r) else Ok (r, []).

Fixpoint consume_all (r : AgentSessionBindReplies) (chunks : list (list byte)) : result unit (AgentSessionBindReplies * list byte) :=
  match chunks with
  | [] => Ok (r, [])
  | chunk :: chunks =>
      let? p := consume r chunk in
      let? q := consume_all (fst p) chunks in
      Ok (fst q, snd p ++ snd q)
  end.

(** ** Requests are read back *)

Lemma read_ssh_string_at a s b :
  zlen s <= u32_max -> read_ssh_string (a ++ be_bytes 4 (zlen s) ++ s ++ b) (zlen a) = Some (s, zlen a + 4 + zlen s).
Proof.
  intros Hs. unfold read_ssh_string. rewrite !zlen_app, zlen_be_bytes. pose proof (zlen_nonneg a).
  pose proof (zlen_nonneg s). pose proof (zlen_nonneg b). change (Z.of_nat 4) with 4.
  destruct (Z.ltb_spec (zlen a + (4 + (zlen s + zlen b)) - zlen a) 4); [lia|].
  assert (slice (a ++ be_bytes 4 (zlen s) ++ s ++ b) (zlen a) (zlen a + 4) = be_bytes 4 (zlen s)) as ->.
  { unfold slice. rewrite zdrop_app_exact. replace (zlen a + 4 - zlen a) with (zlen (be_bytes 4 (zlen s))) by (rewrite zlen_be_bytes; lia).
    apply ztake_app_exact. }
  rewrite be_val_be_bytes, Z.mod_small by (unfold u32_max in Hs; change (256 ^ Z.of_nat 4) with (2 ^ 32); lia). cbv zeta.
  destruct (Z.ltb_spec (zlen a + (4 + (zlen s + zlen b))) (zlen a + 4 + zlen s)); [lia|]. do 2 f_equal.
  unfold slice. rewrite (app_assoc a). replace (zlen a + 4) with (zlen (a ++ be_bytes 4 (zlen s))) by (rewrite zlen_app, zlen_be_bytes; lia).
  rewrite zdrop_app_exact. replace (zlen (a ++ be_bytes 4 (zlen s)) + zlen s - zlen (a ++ be_bytes 4 (zlen s))) with (zlen s) by lia.
  apply ztake_app_exact.
Qed.

(** The pieces of an encoded bind. *)
Definition bind_body (host_key session_id signature : list byte) : list byte :=
  [SSH_AGENTC_EXTENSION] ++ be_bytes 4 (zlen SESSION_BIND_EXTENSION) ++ SESSION_BIND_EXTENSION ++
  be_bytes 4 (zlen host_key) ++ host_key ++ be_bytes 4 (zlen session_id) ++ session_id ++
  be_bytes 4 (zlen signature) ++ signature.

Lemma encode_session_bind_spec hk sid sig f body :
  encode_session_bind hk sid sig f = Ok body <->
  (zlen hk <= u32_max /\ zlen sid <= u32_max /\ zlen sig <= u32_max) /\ body = bind_body hk sid sig ++ [if f then x01 else x00].
Proof.
  unfold encode_session_bind, push_ssh_string, bind_body.
  change (zlen SESSION_BIND_EXTENSION <=? u32_max) with true. cbv iota beta.
  destruct (Z.leb_spec (zlen hk) u32_max), (Z.leb_spec (zlen sid) u32_max), (Z.leb_spec (zlen sig) u32_max).
  2-8: split; [done|lia]. rewrite <-!app_assoc. split; [intros [= <-]; done|intros [_ ->]; done].
Qed.

Lemma read_next m a s b :
  m = a ++ be_bytes 4 (zlen s) ++ s ++ b -> zlen s <= u32_max ->
  read_ssh_string m (zlen a) = Some (s, zlen (a ++ be_bytes 4 (zlen s) ++ s)) /\ m = (a ++ be_bytes 4 (zlen s) ++ s) ++ b.
Proof.
  intros -> Hs. rewrite read_ssh_string_at by done. split; [|by rewrite <-!app_assoc].
  do 2 f_equal. rewrite !zlen_app, zlen_be_bytes. lia.
Qed.

Lemma parse_bind_body hk sid sig flag :
  zlen hk <= u32_max -> zlen sid <= u32_max -> zlen sig <= u32_max -> hk <> [] -> sid <> [] -> sig <> [] ->
  b2z flag <= 1 -> parse_session_bind (bind_body hk sid sig ++ [flag]) = Some (hk, b2z flag =? 1).
Proof.
  intros H1 H2 H3 N1 N2 N3 Hf. remember (bind_body hk sid sig ++ [flag]) as m eqn:Hm.
  unfold bind_body in Hm. rewrite <-!app_assoc in Hm. unfold parse_session_bind.
  assert (head m = Some SSH_AGENTC_EXTENSION) as -> by (by rewrite Hm).
  change (negb (beq SSH_AGENTC_EXTENSION SSH_AGENTC_EXTENSION)) with false. cbv iota.
  apply read_next in Hm as [Hr Hm]; [|by vm_compute]. change (zlen [SSH_AGENTC_EXTENSION]) with 1 in Hr. rewrite Hr. clear Hr.
  rewrite (proj2 (list_eqb_spec _ _) eq_refl). cbn [negb].
  apply read_next in Hm as [Hr Hm]; [|done]. rewrite Hr. clear Hr.
  apply read_next in Hm as [Hr Hm]; [|done]. rewrite Hr. clear Hr.
  apply read_next in Hm as [Hr Hm]; [|done]. rewrite Hr. clear Hr.
  assert (Hpos : forall l : list byte, l <> [] -> (zlen l =? 0) = false).
  { intros l Hl. apply Z.eqb_neq. intros Hz. by apply zlen_0_nil in Hz. }
  rewrite !Hpos by done. cbn [orb]. lazymatch type of Hm with _ = ?P ++ _ => set (pre := P) in * end. rewrite Hm.
  rewrite zdrop_app_exact, zlen_app. change (zlen [flag]) with 1. rewrite Z.eqb_refl. cbn [negb head].
  destruct (Z.ltb_spec 1 (b2z flag)); [lia|done].
Qed.

(** The request ssh makes is recognised, the replayed one is the same with
    the flag set, and one that is already forwarded is not replayed. *)
Theorem session_bind_roundtrip hk sid sig direct forwarded :
  encode_session_bind hk sid sig false = Ok direct -> encode_session_bind hk sid sig true = Ok forwarded ->
  hk <> [] -> sid <> [] -> sig <> [] ->
  parse_session_bind direct = Some (hk, false) /\ parse_session_bind forwarded = Some (hk, true) /\
  forwarded_session_bind direct = Some forwarded /\ forwarded_session_bind forwarded = None.
Proof.
  intros Hd Hf N1 N2 N3. apply encode_session_bind_spec in Hd as [(H1 & H2 & H3) ->], Hf as [_ ->].
  pose proof (parse_bind_body hk sid sig x00 H1 H2 H3 N1 N2 N3 ltac:(by vm_compute)) as P0.
  pose proof (parse_bind_body hk sid sig x01 H1 H2 H3 N1 N2 N3 ltac:(by vm_compute)) as P1.
  unfold forwarded_session_bind. rewrite P0, P1. split_and!; try done. cbn [b2z Byte.to_N].
  change (b2z x00 =? 1) with false. cbv iota. destruct (bind_body hk sid sig ++ [x00]) eqn:Hb; [by destruct (bind_body hk sid sig)|].
  by rewrite <-Hb, removelast_last.
Qed.

Lemma session_bind_roundtrip_witness :
  exists direct forwarded, encode_session_bind (bytes_of "host-key") (bytes_of "session") (bytes_of "signature") false = Ok direct /\
    forwarded_session_bind direct = Some forwarded.
Proof.
  eexists _, _. split; [reflexivity|].
  apply (session_bind_roundtrip (bytes_of "host-key") (bytes_of "session") (bytes_of "signature") _ _ eq_refl eq_refl); done.
Defined.

(** ** Frames are found however the stream is cut *)

(** A message an agent or its client may send. *)
Definition message_ok (body : list byte) : Prop := 1 <= zlen body <= SSH_AGENT_MAX_MESSAGE_LENGTH.

Definition frames (bodies : list (list byte)) : list byte := concat (map frame bodies).

(** The beginning of a frame, valid so far. *)
Definition incomplete (buffer : list byte) : Prop := pop_frame buffer = Ok (None, buffer).

Lemma frame_ok body : message_ok body -> frame body = be_bytes 4 (zlen body) ++ body.
Proof.
  intros [_ H]. unfold frame. by rewrite (proj2 (Z.leb_le (zlen body) u32_max)) by (unfold SSH_AGENT_MAX_MESSAGE_LENGTH, u32_max in *; lia).
Qed.

Lemma frame_length body : message_ok body -> zlen (frame body) = 4 + zlen body.
Proof. intros H. rewrite frame_ok, zlen_app, zlen_be_bytes by done. lia. Qed.

(** The length field of what starts like a frame. *)
Lemma frame_head body rest t :
  message_ok body -> 4 <= zlen t -> (exists x, t ++ x = frame body ++ rest) -> be_val (ztake 4 t) = zlen body.
Proof.
  intros Hok Ht [x Hx]. rewrite frame_ok in Hx by done.
  assert (ztake 4 t = be_bytes 4 (zlen body)) as ->.
  { rewrite <-(ztake_app_l 4 t x) by lia. rewrite Hx, <-app_assoc.
    change 4 with (Z.of_nat 4). rewrite <-(zlen_be_bytes 4 (zlen body)). apply ztake_app_exact. }
  rewrite be_val_be_bytes. apply Z.mod_small. destruct Hok. unfold SSH_AGENT_MAX_MESSAGE_LENGTH in *.
  change (256 ^ Z.of_nat 4) with (2 ^ 32). lia.
Qed.

Lemma message_ok_test body : message_ok body -> (zlen body =? 0) || (SSH_AGENT_MAX_MESSAGE_LENGTH <? zlen body) = false.
Proof. intros [??]. apply orb_false_iff. split; [apply Z.eqb_neq; lia|apply Z.ltb_ge; lia]. Qed.

Lemma pop_frame_whole body rest :
  message_ok body -> pop_frame (frame body ++ rest) = Ok (Some body, rest).
Proof.
  intros Hok. unfold pop_frame. rewrite zlen_app, frame_length by done. pose proof (zlen_nonneg rest). destruct Hok as [H1 H2].
  destruct (Z.ltb_spec (4 + zlen body + zlen rest) 4); [lia|].
  rewrite (frame_head body rest) by first [done|by exists []; rewrite app_nil_r|rewrite zlen_app, frame_length by done; lia].
  rewrite message_ok_test by done. cbv zeta.
  destruct (Z.ltb_spec (4 + zlen body + zlen rest) (4 + zlen body)); [lia|].
  rewrite <-(frame_length body) by done. rewrite zdrop_app_exact. do 3 f_equal.
  unfold slice. rewrite frame_length by done. rewrite frame_ok by done. rewrite <-app_assoc.
  assert (zdrop 4 (be_bytes 4 (zlen body) ++ body ++ rest) = body ++ rest) as ->.
  { change 4 with (Z.of_nat 4) at 1. rewrite <-(zlen_be_bytes 4 (zlen body)). apply zdrop_app_exact. }
  replace (4 + zlen body - 4) with (zlen body) by lia. apply ztake_app_exact.
Qed.

Lemma incomplete_prefix body rest t x :
  message_ok body -> t ++ x = frame body ++ rest -> zlen t < zlen (frame body) -> incomplete t.
Proof.
  intros Hok Hx Hl. unfold incomplete, pop_frame. destruct (Z.ltb_spec (zlen t) 4) as [|H4]; [done|].
  rewrite (frame_head body rest t) by first [done|by exists x]. rewrite message_ok_test by done. cbv zeta.
  rewrite frame_length in Hl by done. destruct (Z.ltb_spec (zlen t) (4 + zlen body)); [done|lia].
Qed.

Lemma incomplete_shorter t x : incomplete (t ++ x) -> incomplete t.
Proof.
  unfold incomplete, pop_frame. destruct (Z.ltb_spec (zlen t) 4) as [|H4]; [done|].
  rewrite zlen_app. pose proof (zlen_nonneg x). destruct (Z.ltb_spec (zlen t + zlen x) 4); [lia|].
  rewrite ztake_app_l by lia. destruct (_ || _); [done|]. cbv zeta.
  destruct (Z.ltb_spec (zlen t + zlen x) (4 + be_val (ztake 4 t))); [|done].
  by destruct (Z.ltb_spec (zlen t) (4 + be_val (ztake 4 t))); [|lia].
Qed.

(** What has arrived of a stream that starts with frames is some of them and,
    while others are due, the beginning of the next. *)
Lemma stream_prefix bodies rest t x :
  Forall message_ok bodies -> t ++ x = frames bodies ++ rest ->
  exists done todo tail, bodies = done ++ todo /\ t = frames done ++ tail /\ tail ++ x = frames todo ++ rest /\
    (todo <> [] -> incomplete tail).
Proof.
  intros Hok. revert t. induction Hok as [|body bodies Hb Hok IH]; intros t Heq; [by exists [], [], t|].
  unfold frames in Heq. cbn [map concat] in Heq. rewrite <-app_assoc in Heq. fold (frames bodies) in Heq.
  destruct (Z.lt_ge_cases (zlen t) (zlen (frame body))) as [Hlt|Hge].
  { exists [], (body :: bodies), t. split_and!; [done..| |intros _; by eapply incomplete_prefix].
    unfold frames. cbn [map concat]. by rewrite <-app_assoc. }
  assert (exists t', t = frame body ++ t') as [t' ->].
  { exists (zdrop (zlen (frame body)) t). rewrite <-(ztake_zdrop (zlen (frame body)) t) at 1. f_equal.
    rewrite <-(ztake_app_l _ t x) by done. rewrite Heq. apply ztake_app_exact. }
  rewrite <-app_assoc in Heq. apply app_inv_head in Heq. destruct (IH t' Heq) as (d & todo & tail & -> & -> & Hx & Hi).
  exists (body :: d), todo, tail. unfold frames. cbn [map concat]. by rewrite <-app_assoc.
Qed.

(** ** The recorder *)

Section recorder.
Context (agent : list (list byte) -> option (list byte)).
Context (answers : forall requests, is_Some (agent requests)).

(** The answers written to requests that follow others. *)
Fixpoint replies_to (before requests : list (list byte)) : list byte :=
  match requests with
  | [] => []
  | r :: requests => frame (unwrap_or [] (agent (before ++ [r]))) ++ replies_to (before ++ [r]) requests
  end.

Lemma replies_to_app before a b : replies_to before (a ++ b) = replies_to before a ++ replies_to (before ++ a) b.
Proof.
  revert before. induction a as [|r a IH]; intros before; cbn [replies_to app]; [by rewrite app_nil_r|].
  by rewrite IH, <-!app_assoc.
Qed.

Lemma serve_frames fuel bodies tail r :
  Forall message_ok bodies -> incomplete tail -> buffer r = frames bodies ++ tail -> (length (buffer r) <= fuel)%nat ->
  serve agent fuel r =
    (mkRecorder tail (foldl note_bind (last_bind r) bodies) (relayed r ++ bodies)
       (written r ++ replies_to (relayed r) bodies), true).
Proof.
  intros Hok Htail. revert fuel r. induction Hok as [|body bodies Hb Hok IH]; intros fuel [b l rs w] Hbuf Hf; cbn [buffer relayed written last_bind] in *.
  { subst b. assert (incomplete tail) as Hi by done. unfold incomplete in Hi. destruct fuel; cbn [serve buffer frames map concat app]; rewrite Hi;
      cbn [foldl replies_to]; by rewrite !app_nil_r. }
  subst b. unfold frames in *. cbn [map concat] in *. rewrite <-app_assoc in *. fold (frames bodies) in *.
  destruct fuel as [|fuel].
  { rewrite length_app in Hf. pose proof (frame_length body Hb) as Hz. unfold zlen in Hz. destruct Hb. unfold zlen in *. lia. }
  cbn [serve buffer]. rewrite pop_frame_whole by done. cbn [relayed last_bind written].
  destruct (answers (rs ++ [body])) as [reply Hr]. rewrite Hr.
  rewrite IH; cbn [buffer relayed written last_bind]; [|done|].
  - cbn [foldl replies_to]. rewrite Hr. cbn [unwrap_or]. by rewrite <-!app_assoc.
  - rewrite length_app in Hf. pose proof (frame_length body Hb) as Hz. destruct Hb. unfold zlen in *. lia.
Qed.

(** However the requests of a client are cut into reads, each is relayed to
    the agent once and in order, its answer goes back in a frame, and the
    last binding that ssh made itself is kept in its forwarded form. *)
Theorem recorder_any_cut chunks requests tail :
  Forall message_ok requests -> incomplete tail -> concat chunks = frames requests ++ tail ->
  serve_chunks agent (mkRecorder [] None [] []) chunks =
    (mkRecorder tail (foldl note_bind None requests) requests (replies_to [] requests), true).
Proof.
  intros Hok Htail Heq.
  assert (Hgen : forall chunks todo b l before w,
    Forall message_ok todo -> incomplete b -> b ++ concat chunks = frames todo ++ tail ->
    serve_chunks agent (mkRecorder b l before w) chunks =
      (mkRecorder tail (foldl note_bind l todo) (before ++ todo) (w ++ replies_to before todo), true)).
  { clear chunks requests Hok Heq. induction chunks as [|chunk chunks IH]; intros todo b l before w Hok Hb Heq.
    - cbn [concat] in Heq. rewrite app_nil_r in Heq. cbn [serve_chunks].
      destruct todo as [|body todo]; [cbn in Heq; subst; cbn; by rewrite !app_nil_r|].
      exfalso. apply Forall_cons in Hok as [Hbody _]. unfold frames in Heq. cbn [map concat] in Heq. rewrite <-app_assoc in Heq.
      unfold incomplete in Hb. rewrite Heq, pop_frame_whole in Hb by done. done.
    - cbn [concat] in Heq. rewrite app_assoc in Heq. cbn [serve_chunks].
      destruct (stream_prefix todo tail (b ++ chunk) (concat chunks) Hok Heq) as (d & todo' & t & -> & Hbc & Hx & Ht).
      assert (incomplete t).
      { destruct todo'; [|by apply Ht]. cbn in Hx. apply (incomplete_shorter t (concat chunks)). by rewrite Hx. }
      apply Forall_app in Hok as [Hd Ht']. unfold service. cbn [buffer last_bind relayed written].
      rewrite (serve_frames _ d t) by done. cbn [last_bind relayed written].
      rewrite (IH todo') by done. rewrite foldl_app, replies_to_app, <-!app_assoc. done. }
  rewrite (Hgen chunks requests []) by done. done.
Qed.
End recorder.

(** ** The answers to replayed binds *)

(** It takes whole answers while one is due, and stops at the beginning of
    the next. *)
Lemma take_replies_spec fuel n seen bodies rest :
  Forall message_ok bodies -> seen + zlen bodies = n \/ (seen + zlen bodies < n /\ incomplete rest) ->
  (length (frames bodies ++ rest) <= fuel)%nat ->
  take_replies fuel (mkReplies n seen (frames bodies ++ rest)) = Ok (mkReplies n (seen + zlen bodies) rest).
Proof.
  intros Hok. revert fuel seen. induction Hok as [|body bodies Hb Hok IH]; intros fuel seen Hn Hf.
  { change (zlen (@nil (list byte))) with 0 in *. rewrite Z.add_0_r in *. cbn [frames map concat app].
    destruct Hn as [->|[Hlt Hi]]; [destruct fuel; cbn [take_replies replies_seen bind_count]; by rewrite Z.ltb_irrefl|].
    unfold incomplete, pop_frame in Hi. destruct fuel; cbn [take_replies replies_seen bind_count pending].
    all: destruct (_ && _) eqn:Hc; [|done]; apply andb_true_iff in Hc as [_ Hc]; apply Z.leb_le in Hc.
    all: rewrite (proj2 (Z.ltb_ge (zlen rest) 4)) in Hi by lia; destruct (_ || _); [done|]; cbv zeta in *.
    all: by destruct (Z.ltb_spec (zlen rest) (4 + be_val (ztake 4 rest))). }
  rewrite zlen_cons in *. pose proof (zlen_nonneg bodies). unfold frames in *. cbn [map concat] in *. rewrite <-app_assoc in *.
  fold (frames bodies) in *. pose proof (frame_length body Hb) as Hz. pose proof (zlen_nonneg (frames bodies ++ rest)).
  destruct fuel as [|fuel]; [rewrite length_app in Hf; destruct Hb; unfold zlen in *; lia|].
  cbn [take_replies replies_seen bind_count pending]. rewrite (proj2 (Z.ltb_lt seen n)) by lia.
  rewrite (proj2 (Z.leb_le 4 _)) by (rewrite zlen_app; destruct Hb; lia). cbn [andb].
  rewrite (frame_head body (frames bodies ++ rest)) by first [done|by exists []; rewrite app_nil_r|rewrite zlen_app; destruct Hb; lia].
  rewrite message_ok_test by done. cbv zeta. rewrite <-Hz.
  rewrite (proj2 (Z.ltb_ge _ _)) by (rewrite zlen_app; lia). rewrite zdrop_app_exact.
  rewrite IH; [do 2 f_equal; lia| |].
  - destruct Hn as [?|[? ?]]; [left; lia|right; split; [lia|done]].
  - rewrite length_app in Hf. destruct Hb. unfold zlen in *. lia.
Qed.

Lemma consume_done n chunks : consume_all (mkReplies n n []) chunks = Ok (mkReplies n n [], concat chunks).
Proof.
  induction chunks as [|chunk chunks IH]; [done|]. cbn [consume_all concat]. unfold consume.
  cbn [replies_seen bind_count]. rewrite Z.eqb_refl. cbn [fst snd]. by rewrite IH.
Qed.

(** One read while answers are due. *)
Lemma consume_due n seen t chunk d tail :
  seen < n -> Forall message_ok d -> t ++ chunk = frames d ++ tail ->
  seen + zlen d = n \/ (seen + zlen d < n /\ incomplete tail) ->
  consume (mkReplies n seen t) chunk =
    Ok (if seen + zlen d =? n then (mkReplies n n [], tail) else (mkReplies n (seen + zlen d) tail, [])).
Proof.
  intros Hlt Hok Heq Hn. unfold consume. cbn [replies_seen bind_count pending].
  rewrite (proj2 (Z.eqb_neq seen n)) by lia. rewrite Heq. rewrite take_replies_spec by done.
  cbn [replies_seen bind_count pending]. by destruct (Z.eqb_spec (seen + zlen d) n) as [->|].
Qed.

(** However the agent's output is cut into reads, exactly the answers to the
    replayed binds are taken off its front, and the rest is forwarded. *)
Theorem bind_replies_any_cut n chunks replies rest :
  Forall message_ok replies -> zlen replies = n -> concat chunks = frames replies ++ rest ->
  consume_all (replies_new n) chunks = Ok (mkReplies n n [], rest).
Proof.
  intros Hok Hn Heq.
  assert (Hgen : forall chunks todo seen t, Forall message_ok todo -> seen + zlen todo = n ->
    (todo = [] -> t = []) -> t ++ concat chunks = frames todo ++ rest -> (todo <> [] -> incomplete t) ->
    consume_all (mkReplies n seen t) chunks = Ok (mkReplies n n [], rest)).
  { clear chunks replies Hok Hn Heq. induction chunks as [|chunk chunks IH]; intros todo seen t Hok Hn Ht Heq Hi.
    all: destruct todo as [|body todo].
    1, 3: rewrite (Ht eq_refl) in *; change (zlen (@nil (list byte))) with 0 in Hn; replace seen with n by lia;
      rewrite consume_done; cbn in *; by rewrite Heq.
    { exfalso. specialize (Hi ltac:(done)). cbn [concat] in Heq. rewrite app_nil_r in Heq. apply Forall_cons in Hok as [Hb _].
      unfold frames in Heq. cbn [map concat] in Heq. rewrite <-app_assoc in Heq. unfold incomplete in Hi.
      rewrite Heq, pop_frame_whole in Hi by done. done. }
    cbn [concat] in Heq. rewrite app_assoc in Heq. set (bodies := body :: todo) in *.
    assert (0 < zlen bodies) by (unfold bodies; rewrite zlen_cons; pose proof (zlen_nonneg todo); lia).
    destruct (stream_prefix bodies rest (t ++ chunk) (concat chunks) Hok Heq) as (d & todo' & tail & Hb & Hbc & Hx & Hinc).
    rewrite Hb in Hok, Hn. apply Forall_app in Hok as [Hd Ht']. rewrite zlen_app in Hn. pose proof (zlen_nonneg todo').
    cbn [consume_all]. rewrite (consume_due n seen t chunk d tail); [| |done|done|].
    - destruct (Z.eqb_spec (seen + zlen d) n) as [He|Hne]; cbn [fst snd].
      + rewrite consume_done. cbn [fst snd]. assert (todo' = []) as -> by (apply zlen_0_nil; lia). cbn in Hx. by rewrite Hx.
      + rewrite (IH todo'); [done|done|lia| |done|done]. intros ->. change (zlen (@nil (list byte))) with 0 in *. lia.
    - rewrite Hb, zlen_app in *. lia.
    - destruct todo' as [|b' todo']; [left; change (zlen (@nil (list byte))) with 0 in *; lia|right].
      split; [rewrite zlen_cons in *; pose proof (zlen_nonneg todo'); lia|by apply Hinc]. }
  apply (Hgen chunks replies 0 []); [done|lia|done|done|]. intros _. by unfold incomplete.
Qed.

(** What is forwarded is no longer than what was read. *)
Definition replies_ok (r : AgentSessionBindReplies) : Prop :=
  replies_seen r <= bind_count r /\ incomplete (pending r).

Lemma take_replies_shrinks fuel r r' :
  take_replies fuel r = Ok r' -> replies_seen r <= bind_count r ->
  zlen (pending r') <= zlen (pending r) /\ replies_seen r' <= bind_count r' /\ bind_count r' = bind_count r /\
  (replies_seen r' <> bind_count r' -> (length (pending r) <= fuel)%nat -> incomplete (pending r')).
Proof.
  revert r. induction fuel as [|fuel IH]; intros r; cbn [take_replies]; destruct (_ && _) eqn:Hc.
  2, 4: intros [= <-] Hle; split_and!; [done..|]; intros Hne _; unfold incomplete, pop_frame;
    apply andb_false_iff in Hc as [Hc|Hc]; [apply Z.ltb_ge in Hc; lia|]; apply Z.leb_gt in Hc; by rewrite (proj2 (Z.ltb_lt (zlen (pending r)) 4)) by lia.
  all: apply andb_true_iff in Hc as [Hc1 Hc2]; apply Z.ltb_lt in Hc1; apply Z.leb_le in Hc2.
  all: destruct (_ || _) eqn:Hl; [done|]; cbv zeta; destruct (Z.ltb_spec (zlen (pending r)) (4 + be_val (ztake 4 (pending r)))) as [Ht|Ht].
  1, 3: intros [= <-] _; split_and!; [done|lia|done|]; intros _ _; unfold incomplete, pop_frame;
    rewrite (proj2 (Z.ltb_ge (zlen (pending r)) 4)) by lia; rewrite Hl; cbv zeta; by rewrite (proj2 (Z.ltb_lt _ _)) by done.
  { intros [= <-] _. split_and!; [done|lia|done|]. intros _ Hf. unfold zlen in *. lia. }
  apply orb_false_iff in Hl as [Hl0 _]. apply Z.eqb_neq in Hl0.
  pose proof (be_val_bound (ztake 4 (pending r))). intros Hr _. apply IH in Hr; cbn [replies_seen bind_count pending] in *; [|lia].
  destruct Hr as (H1 & H2 & H3 & H4). rewrite zlen_zdrop in H1. split_and!; [lia|done|done|].
  intros Hne Hf. apply H4; [done|]. assert (zlen (zdrop (4 + be_val (ztake 4 (pending r))) (pending r)) < zlen (pending r)) by (rewrite zlen_zdrop; lia).
  unfold zlen in *. lia.
Qed.

Lemma consume_shorter r data r' forwarded :
  replies_ok r -> consume r data = Ok (r', forwarded) -> zlen forwarded <= zlen data /\ replies_ok r'.
Proof.
  intros [Hle Hi]. unfold consume. destruct (Z.eqb_spec (replies_seen r) (bind_count r)) as [He|Hne]; [by intros [= <- <-]|].
  cbv zeta. set (all := pending r ++ data).
  destruct (take_replies _ _) as [r1|] eqn:Hr; [|done].
  assert (Hlen : replies_seen r1 = bind_count r1 -> zlen (pending r1) <= zlen data).
  { unfold all in Hr. destruct (length (pending r ++ data)) as [|fuel] eqn:Hf.
    - apply nil_length_inv in Hf. rewrite Hf in Hr. cbn in Hr. rewrite andb_false_r in Hr. injection Hr as <-. cbn. intros; lia.
    - cbn [take_replies replies_seen bind_count pending] in Hr. destruct (_ && _) eqn:Hc; [|injection Hr as <-; cbn; intros; lia].
      destruct (_ || _) eqn:Hl; [done|]. cbv zeta in Hr. apply andb_true_iff in Hc as [_ Hc]. apply Z.leb_le in Hc.
      apply orb_false_iff in Hl as [Hl0 Hlm]. apply Z.eqb_neq in Hl0. pose proof (be_val_bound (ztake 4 (pending r ++ data))).
      destruct (Z.ltb_spec (zlen (pending r ++ data)) (4 + be_val (ztake 4 (pending r ++ data)))); [injection Hr as <-; cbn; lia|].
      intros _. apply take_replies_shrinks in Hr as [Hs _]; cbn [replies_seen bind_count pending] in *; [|lia]. rewrite zlen_zdrop, zlen_app in Hs.
      pose proof (zlen_nonneg data). assert (zlen (pending r) < 4 + be_val (ztake 4 (pending r ++ data))); [|lia].
      destruct (Z.lt_ge_cases (zlen (pending r)) 4) as [|H4]; [lia|]. rewrite ztake_app_l in * by lia.
      unfold incomplete, pop_frame in Hi. rewrite (proj2 (Z.ltb_ge (zlen (pending r)) 4)) in Hi by lia.
      rewrite (proj2 (Z.eqb_neq _ _) Hl0), Hlm in Hi. cbv zeta in Hi. cbn [orb] in Hi.
      destruct (Z.ltb_spec (zlen (pending r)) (4 + be_val (ztake 4 (pending r)))); [done|]. injection Hi as Hi. done. }
  apply take_replies_shrinks in Hr as (_ & H2 & H3 & H4); cbn [replies_seen bind_count pending] in *; [|done].
  destruct (Z.eqb_spec (replies_seen r1) (bind_count r1)) as [He|He]; intros [= <- <-].
  - split; [by apply Hlen|]. split; [done|]. by unfold incomplete.
  - split; [apply zlen_nonneg|]. split; [done|by apply H4].
Qed.

(** ** Examples *)

Definition success_reply : list byte := [z2b 6].

Lemma bind_replies_any_cut_witness :
  consume_all (replies_new 2)
    [[x00; x00]; [x00; x01; z2b 6; x00; x00; x00]; [x01; z2b 5] ++ bytes_of "forwarded"] =
  Ok (mkReplies 2 2 [], bytes_of "forwarded").
Proof.
  apply (bind_replies_any_cut 2 _ [success_reply; [SSH_AGENT_FAILURE]]); [|reflexivity|reflexivity].
  repeat constructor; by vm_compute.
Defined.

(** A request for the keys, then a binding, cut in three. *)
Definition example_bind : list byte :=
  match encode_session_bind (bytes_of "key") (bytes_of "session") (bytes_of "signature") false with Ok b => b | Err _ => [] end.

Lemma recorder_any_cut_witness :
  exists r, serve_chunks (fun _ => Some success_reply) (mkRecorder [] None [] [])
      [ztake 3 (frames [[z2b 11]; example_bind]); slice (frames [[z2b 11]; example_bind]) 3 20;
       zdrop 20 (frames [[z2b 11]; example_bind])] = (r, true) /\
    relayed r = [[z2b 11]; example_bind] /\ is_Some (last_bind r).
Proof.
  eexists. split.
  - apply (recorder_any_cut (fun _ => Some success_reply) ltac:(intros; by eexists) _ [[z2b 11]; example_bind] []).
    + repeat constructor; by vm_compute.
    + reflexivity.
    + by vm_compute.
  - cbn [relayed last_bind]. split; [reflexivity|]. eexists. by vm_compute.
Defined.
