(* ===== verification/ForwardSocket.v ===== *)
(** * ForwardSocket: one forwarded socket

    [SocketIo] of [crates/et-net/src/forward_poll.rs]: what a forwarding
    worker keeps of a socket, its window in each direction, and its reads and
    writes. The answers of a socket to reads and writes are lists, which end
    where it would block. *)

From S2P Require Import Prelude Bytes Packet OutputWindow SshAgentBind.

(** ** Windows *)

Definition OUT_QUEUE_PACKETS : Z := 128.
Definition MAX_DATA_PACKET : Z := 64 * 1024.
Definition READ_CHUNK : Z := 64 * 1024.
Definition FORWARD_READ_LEN : Z := READ_CHUNK - 64.
Definition WINDOW_BYTES : Z := 4 * 1024 * 1024.
Definition WINDOW_PACKETS : Z := 127.
Definition CREDIT_RETURN_THRESHOLD : Z := WINDOW_BYTES / 8.
Definition PACKET_CREDIT_RETURN_THRESHOLD : Z := WINDOW_PACKETS / 8.
Definition DRAINED_CREDIT_BYTES : Z := 16 * 1024.
Definition PIPELINE_CHUNK : Z := 16 * 1024.

Record FlowWindow := mkFlow { fw_bytes : Z; fw_packets : Z }.

(** The message [PortForwardWindow]. *)
Record PortForwardWindow := mkPortWindow { pw_bytes : option Z; pw_packets : option Z }.

Definition advertised_window : PortForwardWindow := mkPortWindow (Some WINDOW_BYTES) (Some WINDOW_PACKETS).

Definition positive (v : option Z) : option Z :=
  match v with Some n => if 0 <? n then Some n else None | None => None end.

Definition decode_window (window : option PortForwardWindow) : option FlowWindow :=
  match window with
  | None => None
  | Some w =>
      match positive (pw_bytes w), positive (pw_packets w) with
      | Some bytes, Some packets => Some (mkFlow (Z.min bytes WINDOW_BYTES) (Z.min packets WINDOW_PACKETS))
      | _, _ => None
      end
  end.

(** [x.clamp(lo, hi)] *)
Definition clamp (lo hi x : Z) : Z := Z.max lo (Z.min hi x).

Definition credit_batch (window cap : Z) : Z := clamp 1 cap (Z.quot window 8).

Definition pipelined_split (available : option Z) : Z * Z :=
  match available with
  | Some available =>
      if available <=? 4 * FORWARD_READ_LEN
      then (available, clamp PIPELINE_CHUNK FORWARD_READ_LEN ((available + 3) / 4))
      else (0, FORWARD_READ_LEN)
  | None => (0, FORWARD_READ_LEN)
  end.

(** ** The socket *)

Inductive Role := Source | Destination.

#[export] Instance Role_eq_dec : EqDecision Role.
Proof. solve_decision. Defined.

Record QueuedBuffer := mkQueued { q_data : list byte; q_start : Z; q_len : Z }.

(** [&data[start + offset..start + len]] *)
Definition pending_bytes (b : QueuedBuffer) (offset : Z) : list byte :=
  slice (q_data b) (q_start b + offset) (q_start b + q_len b).

(** A stream is known by its descriptor. *)
Record SocketIo := mkSocket {
  stream : Z;
  role : Role;
  socket_id : Z;
  out : list QueuedBuffer;
  out_offset : Z;
  read_open : bool;
  close_when_drained : bool;
  shutdown_write_when_drained : bool;
  write_closed : bool;
  half_close_on_eof : bool;
  bind_replies : option AgentSessionBindReplies;
  window_bytes : Z;
  window_packets : Z;
  in_flight_bytes : Z;
  in_flight_packets : Z;
  credit_bytes : Z;
  credit_packets : Z;
  last_read_full : bool
}.

Definition socket_new (role : Role) (socket_id stream : Z) (peer_window : option FlowWindow)
    (bind_replies : option AgentSessionBindReplies) : SocketIo :=
  mkSocket stream role socket_id [] 0 true false false false false bind_replies
    (match peer_window with Some w => fw_bytes w | None => -1 end)
    (match peer_window with Some w => fw_packets w | None => -1 end) 0 0 0 0 false.

Definition set_out (l : list QueuedBuffer) (offset : Z) (s : SocketIo) : SocketIo :=
  mkSocket (stream s) (role s) (socket_id s) l offset (read_open s) (close_when_drained s) (shutdown_write_when_drained s)
    (write_closed s) (half_close_on_eof s) (bind_replies s) (window_bytes s) (window_packets s) (in_flight_bytes s)
    (in_flight_packets s) (credit_bytes s) (credit_packets s) (last_read_full s).
Definition set_in_flight (bytes packets : Z) (s : SocketIo) : SocketIo :=
  mkSocket (stream s) (role s) (socket_id s) (out s) (out_offset s) (read_open s) (close_when_drained s)
    (shutdown_write_when_drained s) (write_closed s) (half_close_on_eof s) (bind_replies s) (window_bytes s)
    (window_packets s) bytes packets (credit_bytes s) (credit_packets s) (last_read_full s).
Definition set_credit (bytes packets : Z) (s : SocketIo) : SocketIo :=
  mkSocket (stream s) (role s) (socket_id s) (out s) (out_offset s) (read_open s) (close_when_drained s)
    (shutdown_write_when_drained s) (write_closed s) (half_close_on_eof s) (bind_replies s) (window_bytes s)
    (window_packets s) (in_flight_bytes s) (in_flight_packets s) bytes packets (last_read_full s).
Definition set_read (replies : option AgentSessionBindReplies) (full : bool) (s : SocketIo) : SocketIo :=
  mkSocket (stream s) (role s) (socket_id s) (out s) (out_offset s) (read_open s) (close_when_drained s)
    (shutdown_write_when_drained s) (write_closed s) (half_close_on_eof s) replies (window_bytes s)
    (window_packets s) (in_flight_bytes s) (in_flight_packets s) (credit_bytes s) (credit_packets s) full.
(** The flags of reading, closing and half-closing. *)
Definition set_flags (read_open close shutdown closed half : bool) (s : SocketIo) : SocketIo :=
  mkSocket (stream s) (role s) (socket_id s) (out s) (out_offset s) read_open close shutdown closed half
    (bind_replies s) (window_bytes s) (window_packets s) (in_flight_bytes s) (in_flight_packets s) (credit_bytes s)
    (credit_packets s) (last_read_full s).

Definition windowed (s : SocketIo) : bool := (0 <=? window_bytes s) && (0 <=? window_packets s).

Definition read_interest (s : SocketIo) : bool :=
  if negb (read_open s) || close_when_drained s then false
  else if negb (windowed s) then true
  else (in_flight_bytes s <? window_bytes s) && (in_flight_packets s <? window_packets s).

Definition write_interest (s : SocketIo) : bool := match out s with [] => false | _ => true end.

(** [Err] gives the buffer back. *)
Definition queue_write (s : SocketIo) (buffer : list byte) : result (list byte) SocketIo :=
  if OUT_QUEUE_PACKETS <=? zlen (out s) then Err buffer
  else Ok (set_out (out s ++ [mkQueued buffer 0 (zlen buffer)]) (out_offset s) s).

Definition queue_write_span (s : SocketIo) (data : list byte) (start len : Z) : result (list byte) SocketIo :=
  if len =? 0 then Ok s
  else if (MAX_DATA_PACKET <? len) || (OUT_QUEUE_PACKETS <=? zlen (out s)) then Err data
  else Ok (set_out (out s ++ [mkQueued data start len]) (out_offset s) s).

Definition writes_dropped (s : SocketIo) : bool := write_closed s || close_when_drained s || shutdown_write_when_drained s.

Definition apply_delivery (s : SocketIo) (delivered : FlowWindow) : SocketIo :=
  set_in_flight
    (if 0 <? fw_bytes delivered then Z.max (i64_clamp (in_flight_bytes s - fw_bytes delivered)) 0 else in_flight_bytes s)
    (if 0 <? fw_packets delivered then Z.max (i64_clamp (in_flight_packets s - fw_packets delivered)) 0
     else in_flight_packets s) s.

Definition note_sent (s : SocketIo) (bytes : Z) : SocketIo :=
  if negb (windowed s) then s
  else set_in_flight (i64_clamp (in_flight_bytes s + Z.min bytes i64_max)) (i64_clamp (in_flight_packets s + 1)) s.

(** ** Reads *)

Inductive ReadAnswer := ReadBytes (bytes : list byte) | ReadInterrupted | ReadFailed.

(** [Data] carries the bytes to forward; the code encodes them as
    [encode_data_packet] does. *)
Inductive ReadOutcome := Data (bytes : list byte) | Idle | Eof | ReadError.

(** The bytes [read_encoded_chunk] may ask for. *)
Definition read_limit (s : SocketIo) (scratch_len : Z) : Z :=
  if windowed s then Z.max 0 (Z.min (i64_clamp (window_bytes s - in_flight_bytes s)) scratch_len) else scratch_len.

(** The loop of [read_encoded_chunk]: an answer gives at most the bytes asked
    for, an empty one is the end of the stream. *)
Fixpoint read_loop (s : SocketIo) (limit scratch_len : Z) (answers : list ReadAnswer)
    : SocketIo * ReadOutcome * list ReadAnswer :=
  match answers with
  | [] => (s, Idle, [])
  | ReadInterrupted :: answers => read_loop s limit scratch_len answers
  | ReadFailed :: answers => (s, ReadError, answers)
  | ReadBytes bytes :: answers =>
      let bytes := ztake limit bytes in
      match bytes with
      | [] => (s, Eof, answers)
      | _ =>
          let full := zlen bytes =? scratch_len in
          match bind_replies s with
          | Some replies =>
              match consume replies bytes with
              | Err _ => (set_read (Some replies) full s, ReadError, answers)
              | Ok (replies, []) => read_loop (set_read (Some replies) full s) limit scratch_len answers
              | Ok (replies, forwarded) =>
                  (note_sent (set_read (Some replies) full s) (zlen forwarded), Data forwarded, answers)
              end
          | None => (note_sent (set_read None full s) (zlen bytes), Data bytes, answers)
          end
      end
  end.

Definition read_encoded_chunk (s : SocketIo) (scratch_len : Z) (answers : list ReadAnswer)
    : SocketIo * ReadOutcome * list ReadAnswer :=
  let limit := read_limit s scratch_len in
  if limit =? 0 then (s, Idle, answers) else read_loop s limit scratch_len answers.

(** ** Writes *)

Inductive WriteAnswer := Wrote (n : Z) | WriteInterrupted | WriteFailed.

(** What a write offers: the front buffer, or up to sixteen at once. *)
Definition offered (s : SocketIo) : list byte :=
  match out s with
  | [] => []
  | front :: rest => pending_bytes front (out_offset s) ++ concat (map (fun b => pending_bytes b 0) (take 15 rest))
  end.

(** A buffer written in full is credited to a windowed peer. *)
Definition pop_front (front : QueuedBuffer) (rest : list QueuedBuffer) (s : SocketIo) : SocketIo :=
  let s := set_out rest 0 s in
  if windowed s
  then set_credit (i64_clamp (credit_bytes s + Z.min (q_len front) i64_max)) (i64_clamp (credit_packets s + 1)) s
  else s.

(** The inner loop of [flush_out]: [written] bytes come off the queue. *)
Fixpoint pop_written (bufs : list QueuedBuffer) (s : SocketIo) (written : Z) : SocketIo :=
  match bufs with
  | [] => s
  | front :: rest =>
      if written <=? 0 then s
      else
        let rem := q_len front - out_offset s in
        if rem <=? written then pop_written rest (pop_front front rest s) (written - rem)
        else set_out bufs (out_offset s + written) s
  end.

(** [flush_out]: the socket, the bytes it took, whether it failed, and the
    answers left. A write takes no more than it is offered. *)
Fixpoint flush_out (s : SocketIo) (answers : list WriteAnswer) : SocketIo * list byte * bool * list WriteAnswer :=
  match out s, answers with
  | [], _ => (s, [], true, answers)
  | _, [] => (s, [], true, [])
  | _, WriteInterrupted :: answers => flush_out s answers
  | _, WriteFailed :: answers => (s, [], false, answers)
  | _, Wrote n :: answers =>
      let taken := ztake n (offered s) in
      match taken with
      | [] => (s, [], false, answers)
      | _ =>
          let '(s', rest, ok, answers) := flush_out (pop_written (out s) s (zlen taken)) answers in
          (s', taken ++ rest, ok, answers)
      end
  end.

Definition credit_due (s : SocketIo) : bool :=
  (0 <? credit_bytes s) && (0 <? credit_packets s) &&
  ((credit_batch (window_bytes s) CREDIT_RETURN_THRESHOLD <=? credit_bytes s)
   || (credit_batch (window_packets s) PACKET_CREDIT_RETURN_THRESHOLD <=? credit_packets s)
   || (negb (write_interest s) && (DRAINED_CREDIT_BYTES <=? credit_bytes s))).

Definition take_credit (s : SocketIo) : SocketIo * option (Z * Z) :=
  if (credit_bytes s <=? 0) || (credit_packets s <=? 0) then (s, None)
  else (set_credit 0 0 s, Some (credit_bytes s, credit_packets s)).

(** ** What a socket still has to write *)

Definition contents_at (bufs : list QueuedBuffer) (offset : Z) : list byte :=
  match bufs with
  | [] => []
  | front :: rest => pending_bytes front offset ++ concat (map (fun b => pending_bytes b 0) rest)
  end.

Definition contents (s : SocketIo) : list byte := contents_at (out s) (out_offset s).

(** The bytes the peer counts as in flight: whole buffers. *)
Definition queued_len (bufs : list QueuedBuffer) : Z := foldr (fun b n => q_len b + n) 0 bufs.

Definition buffer_ok (b : QueuedBuffer) : Prop := 0 <= q_start b /\ 0 < q_len b <= MAX_DATA_PACKET /\ q_start b + q_len b <= zlen (q_data b).

Definition offset_ok (bufs : list QueuedBuffer) (offset : Z) : Prop :=
  match bufs with [] => offset = 0 | front :: _ => 0 <= offset < q_len front end.

(** A well-formed socket. *)
Record socket_ok (s : SocketIo) : Prop := mkSocketOk {
  ok_buffers : Forall buffer_ok (out s);
  ok_offset : offset_ok (out s) (out_offset s);
  ok_count : zlen (out s) <= OUT_QUEUE_PACKETS;
  ok_credit : 0 <= credit_bytes s /\ 0 <= credit_packets s;
  ok_flight : 0 <= in_flight_bytes s /\ 0 <= in_flight_packets s
}.

Lemma pending_bytes_len b offset : buffer_ok b -> 0 <= offset <= q_len b -> zlen (pending_bytes b offset) = q_len b - offset.
Proof. intros (H1 & H2 & H3) Ho. unfold pending_bytes. rewrite zlen_slice by lia. lia. Qed.

Lemma pending_bytes_split b offset n :
  buffer_ok b -> 0 <= offset -> 0 <= n -> offset + n <= q_len b ->
  pending_bytes b offset = ztake n (pending_bytes b offset) ++ pending_bytes b (offset + n).
Proof.
  intros (H1 & H2 & H3) Ho Hn Hl. unfold pending_bytes. rewrite ztake_slice by lia.
  by rewrite (Z.add_assoc (q_start b) offset n), slice_join by lia.
Qed.

Lemma queued_len_nonneg bufs : Forall buffer_ok bufs -> 0 <= queued_len bufs.
Proof. induction 1 as [|b bufs (?&?&?) Hb IH]; cbn [queued_len foldr]; [lia|]. fold (queued_len bufs). lia. Qed.

Lemma queued_len_app a b : queued_len (a ++ b) = queued_len a + queued_len b.
Proof. unfold queued_len. induction a as [|x a IH]; cbn [foldr app]; lia. Qed.

(** A socket after some bytes left it: the same but for its queue and the
    credit it owes. *)
Record drained (s s' : SocketIo) : Prop := mkDrained {
  dr_same : s' = set_credit (credit_bytes s') (credit_packets s') (set_out (out s') (out_offset s') s);
  dr_bytes : windowed s = true -> credit_bytes s' + queued_len (out s') = credit_bytes s + queued_len (out s);
  dr_packets : windowed s = true -> credit_packets s' + zlen (out s') = credit_packets s + zlen (out s);
  dr_legacy : windowed s = false -> credit_bytes s' = credit_bytes s /\ credit_packets s' = credit_packets s;
  dr_shorter : zlen (out s') <= zlen (out s);
  dr_less : queued_len (out s') <= queued_len (out s);
  dr_ratio : credit_packets s' - credit_packets s <= credit_bytes s' - credit_bytes s <=
    MAX_DATA_PACKET * (credit_packets s' - credit_packets s)
}.

Lemma socket_eta s : s = set_credit (credit_bytes s) (credit_packets s) (set_out (out s) (out_offset s) s).
Proof. by destruct s. Qed.

Lemma drained_refl s : drained s s.
Proof. split; [apply socket_eta|done|done|done|lia|lia|lia]. Qed.

Lemma drained_windowed s s' : drained s s' -> windowed s' = windowed s.
Proof. intros [-> _ _ _ _ _ _]. by destruct s. Qed.

Lemma drained_trans s1 s2 s3 : drained s1 s2 -> drained s2 s3 -> drained s1 s3.
Proof.
  intros H12 H23. pose proof (drained_windowed _ _ H12) as Hw.
  destruct H12 as [E1 B1 P1 L1 S1 Q1 R1], H23 as [E2 B2 P2 L2 S2 Q2 R2]. rewrite Hw in *.
  split; [|naive_solver lia..|lia|lia|lia].
  rewrite E2 at 1. rewrite E1. by destruct s1.
Qed.

(** Room for the credit of everything queued. *)
Definition credit_room (s : SocketIo) : Prop :=
  credit_bytes s + queued_len (out s) < 2 ^ 62 /\ credit_packets s + zlen (out s) < 2 ^ 62.

Lemma pop_front_spec front rest s :
  out s = front :: rest -> socket_ok s -> credit_room s ->
  out (pop_front front rest s) = rest /\ out_offset (pop_front front rest s) = 0 /\
  socket_ok (pop_front front rest s) /\ credit_room (pop_front front rest s) /\ drained s (pop_front front rest s).
Proof.
  intros Hout [Hb Ho Hc [Hr1 Hr2] Hf] [Hcb Hcp]. rewrite Hout in *. apply Forall_cons in Hb as [(Hq1 & Hq2 & Hq3) Hrest].
  rewrite zlen_cons in *. cbn [queued_len foldr] in Hcb. fold (queued_len rest) in Hcb.
  pose proof (queued_len_nonneg rest Hrest). pose proof (zlen_nonneg rest).
  assert (offset_ok rest 0) as Hoff.
  { destruct rest as [|b rest]; [done|]. apply Forall_cons in Hrest as [(?&?&?) _]. cbn. lia. }
  assert (windowed (set_out rest 0 s) = windowed s) as Hw by (by destruct s).
  unfold pop_front. cbv zeta. rewrite Hw. destruct (windowed s) eqn:E.
  - cbn [credit_bytes credit_packets set_out]. unfold MAX_DATA_PACKET in *.
    assert (i64_clamp (credit_bytes s + Z.min (q_len front) i64_max) = credit_bytes s + q_len front) as ->
      by (unfold i64_clamp, i64_max, i64_min; lia).
    assert (i64_clamp (credit_packets s + 1) = credit_packets s + 1) as -> by (unfold i64_clamp, i64_max, i64_min; lia).
    split_and!; [done|done| | |].
    + split; cbn; [done|done|lia|lia|done].
    + unfold credit_room. cbn [credit_bytes credit_packets out set_out set_credit]. lia.
    + split; cbn [credit_bytes credit_packets out set_out set_credit]; [by destruct s| | |congruence| | |unfold MAX_DATA_PACKET; lia].
      all: rewrite Hout, ?zlen_cons; intros; cbn [queued_len foldr]; fold (queued_len rest); lia.
  - split_and!; [done|done| | |].
    + split; cbn; [done|done|lia|lia|done].
    + unfold credit_room. cbn [credit_bytes credit_packets out set_out set_credit]. lia.
    + split; cbn; [by destruct s|congruence|congruence|done|rewrite Hout, zlen_cons; lia| |lia].
      rewrite Hout. cbn [queued_len foldr]. fold (queued_len rest). lia.
Qed.

Lemma contents_cons front rest s :
  out s = front :: rest -> contents s = pending_bytes front (out_offset s) ++ contents_at rest 0.
Proof. intros Hout. unfold contents, contents_at. rewrite Hout. by destruct rest. Qed.

Lemma pop_written_spec bufs s written :
  out s = bufs -> socket_ok s -> credit_room s -> 0 <= written <= zlen (contents s) ->
  contents s = ztake written (contents s) ++ contents (pop_written bufs s written) /\
  socket_ok (pop_written bufs s written) /\ drained s (pop_written bufs s written).
Proof.
  revert s written. induction bufs as [|front rest IH]; intros s written Hout Hok Hroom Hw; cbn [pop_written].
  { unfold contents, contents_at in *. rewrite Hout in *. change (zlen (@nil byte)) with 0 in Hw. replace written with 0 by lia.
    split_and!; [done|done|apply drained_refl]. }
  destruct (Z.leb_spec written 0) as [H0|H0].
  { replace written with 0 by lia. rewrite ztake_0. split_and!; [done|done|apply drained_refl]. }
  assert (buffer_ok front) as Hfront by (destruct Hok as [Hb _ _ _ _]; rewrite Hout in Hb; by apply Forall_cons in Hb as [? _]).
  assert (0 <= out_offset s < q_len front) as Ho by (destruct Hok as [_ Ho _ _ _]; by rewrite Hout in Ho).
  pose proof (pending_bytes_len front (out_offset s) Hfront ltac:(lia)) as Hlen.
  pose proof (contents_cons front rest s Hout) as Hcont. rewrite Hcont, zlen_app in Hw. cbv zeta.
  destruct (Z.leb_spec (q_len front - out_offset s) written) as [Hle|Hlt].
  - destruct (pop_front_spec front rest s Hout Hok Hroom) as (Ho1 & Hoff1 & Hok1 & Hroom1 & Hd1).
    destruct (IH _ (written - (q_len front - out_offset s)) Ho1 Hok1 Hroom1) as (Hc1 & Hok2 & Hd2).
    { unfold contents. rewrite Ho1, Hoff1. lia. }
    split_and!; [|done|by eapply drained_trans].
    unfold contents in Hc1 at 1 2. rewrite Ho1, Hoff1 in Hc1. rewrite Hcont.
    rewrite <-Hlen in Hc1, Hle |- *. rewrite ztake_app_ge by lia. rewrite <-app_assoc. f_equal. exact Hc1.
  - split_and!.
    + rewrite Hcont, ztake_app_l by lia. unfold contents, contents_at. cbn [out out_offset set_out].
      rewrite app_assoc, <-pending_bytes_split by (done || lia). by destruct rest.
    + destruct Hok as [Hb _ Hc Hr Hf]. rewrite Hout in *. split; cbn; [done|lia|done|done|done].
    + split; cbn; [by rewrite <-Hout; destruct s|by rewrite Hout|by rewrite Hout|done|by rewrite Hout|by rewrite Hout|lia].
Qed.

Lemma drained_room s s' : drained s s' -> credit_room s -> credit_room s'.
Proof.
  intros [_ Hb Hp Hl Hs Hq _] [H1 H2]. unfold credit_room. destruct (windowed s); [naive_solver lia|].
  destruct (Hl eq_refl) as [-> ->]. lia.
Qed.

Lemma offered_prefix s : exists rest, contents s = offered s ++ rest.
Proof.
  unfold contents, contents_at, offered. destruct (out s) as [|front bufs]; [by exists []|].
  exists (concat (map (fun b => pending_bytes b 0) (drop 15 bufs))).
  by rewrite <-app_assoc, <-concat_app, <-map_app, take_drop.
Qed.

Lemma ztake_zlen_ztake {A} n (l : list A) : ztake (zlen (ztake n l)) l = ztake n l.
Proof.
  rewrite <-(ztake_zdrop n l) at 2. apply ztake_app_exact.
Qed.

(** What [flush_out] takes off the queue is what the socket took, in order;
    what it took in full is owed to the peer as credit. *)
Lemma flush_out_spec s answers s' taken ok left :
  flush_out s answers = (s', taken, ok, left) -> socket_ok s -> credit_room s ->
  contents s = taken ++ contents s' /\ socket_ok s' /\ drained s s'.
Proof.
  revert s taken ok. induction answers as [|a answers IH]; intros s taken ok Hf Hok Hroom; cbn [flush_out] in Hf.
  { destruct (out s); injection Hf as <- <- <- <-; split_and!; [done|done|apply drained_refl|done|done|apply drained_refl]. }
  destruct (out s) as [|front rest] eqn:Hout; [injection Hf as <- <- <- <-; split_and!; [done|done|apply drained_refl]|].
  destruct a as [n| |]; [|by eapply IH|injection Hf as <- <- <- <-; split_and!; [done|done|apply drained_refl]].
  destruct (ztake n (offered s)) as [|b bytes] eqn:Htake; [injection Hf as <- <- <- <-; split_and!; [done|done|apply drained_refl]|].
  rewrite <-Htake in Hf. set (t := ztake n (offered s)) in *.
  destruct (flush_out (pop_written _ s (zlen t)) answers) as [[[s1 more] ok1] left1] eqn:Hf1. injection Hf as <- <- <- <-.
  destruct (offered_prefix s) as [tail Htail].
  assert (t = ztake (zlen t) (contents s)) as Ht.
  { rewrite Htail, ztake_app_l by (unfold t; rewrite zlen_ztake; lia). symmetry. apply ztake_zlen_ztake. }
  destruct (pop_written_spec (front :: rest) s (zlen t) Hout Hok Hroom) as (Hc & Hok1 & Hd1).
  { split; [apply zlen_nonneg|]. rewrite Ht, zlen_ztake. pose proof (zlen_nonneg (contents s)). lia. }
  destruct (IH _ _ _ Hf1 Hok1 (drained_room _ _ Hd1 Hroom)) as (Hc1 & Hok2 & Hd2).
  split_and!; [|done|by eapply drained_trans]. rewrite Hc, <-Ht, Hc1 at 1. by rewrite app_assoc.
Qed.

(** ** What a read yields *)

Definition bind_ok (s : SocketIo) : Prop := match bind_replies s with Some r => replies_ok r | None => True end.

(** A read changes what it noted of the stream; a chunk is counted. *)
Lemma read_loop_spec limit scratch_len answers s s' o left :
  0 <= limit -> bind_ok s -> read_loop s limit scratch_len answers = (s', o, left) ->
  exists replies full, bind_ok (set_read replies full s) /\
    match o with
    | Data bytes => bytes <> [] /\ zlen bytes <= limit /\ s' = note_sent (set_read replies full s) (zlen bytes)
    | _ => s' = set_read replies full s
    end.
Proof.
  intros Hl. assert (Hset : forall s, s = set_read (bind_replies s) (last_read_full s) s) by (by intros []).
  revert s. induction answers as [|a answers IH]; intros s Hb Hr; cbn [read_loop] in Hr.
  { injection Hr as <- <- <-. exists (bind_replies s), (last_read_full s). rewrite <-Hset. done. }
  destruct a as [bytes| |]; [|by apply IH|injection Hr as <- <- <-; exists (bind_replies s), (last_read_full s); rewrite <-Hset; done].
  cbv zeta in Hr. assert (zlen (ztake limit bytes) <= limit) as Hle by (rewrite zlen_ztake; lia).
  destruct (ztake limit bytes) as [|b bs]; [injection Hr as <- <- <-; exists (bind_replies s), (last_read_full s); rewrite <-Hset; done|].
  remember (b :: bs) as got eqn:Hgot. assert (got <> []) by (by subst). clear Hgot.
  destruct (bind_replies s) as [replies|] eqn:Hrep.
  2: { injection Hr as <- <- <-. by exists None, (zlen got =? scratch_len). }
  assert (replies_ok replies) as Hok by (by unfold bind_ok in Hb; rewrite Hrep in Hb).
  destruct (consume replies got) as [[r' fwd]|] eqn:Hc.
  2: { injection Hr as <- <- <-. by exists (Some replies), (zlen got =? scratch_len). }
  apply consume_shorter in Hc as [Hlen Hok']; [|done].
  destruct fwd as [|f fwd].
  - apply IH in Hr as (rep & full & Hb' & Ho); [|done]. exists rep, full. by destruct s.
  - injection Hr as <- <- <-. exists (Some r'), (zlen got =? scratch_len). split_and!; [done|done|lia|done].
Qed.
