(* ===== verification/ForwardPacket.v ===== *)
(** * ForwardPacket: the packets of forwarding

    The data packets that [crates/et-net/src/forward_worker_state.rs] encodes
    and parses by hand, beside the generated codec: [encode_data_packet] and
    [try_fast_parse_data]. *)

From S2P Require Import Prelude Bytes Packet Recovery Wire ForwardSocket.

(** ** Data packets *)

Definition encode_data_packet (source_to_destination : bool) (socket_id : Z) (buffer : list byte) : list byte :=
  [x08; if source_to_destination then x01 else x00; x10] ++ encode_varint (socket_id mod 2 ^ 64) ++
  [x1a] ++ encode_varint (zlen buffer) ++ buffer.

(** The direction flag and the id that [read_encoded_chunk] encodes with. *)
Definition data_packet (s : SocketIo) (bytes : list byte) : list byte :=
  encode_data_packet (bool_decide (role s = Source)) (socket_id s) bytes.

(** The varint decoders, on the bytes from [offset] on; they return the value
    and the new offset. *)
Fixpoint decode_varint_u32 (bytes : list byte) (offset result shift : Z) : option (Z * Z) :=
  match bytes with
  | [] => None
  | b :: bytes =>
      if 32 <=? shift then None
      else
        let offset := offset + 1 in
        let bits := Z.land (b2z b) 0x7f in
        if (shift =? 28) && (0x0f <? bits) then None
        else
          let result := Z.lor result (Z.shiftl bits shift mod 2 ^ 32) in
          if Z.land (b2z b) 0x80 =? 0 then Some (result, offset) else decode_varint_u32 bytes offset result (shift + 7)
  end.

Fixpoint decode_varint_usize (bytes : list byte) (offset result shift : Z) : option (Z * Z) :=
  match bytes with
  | [] => None
  | b :: bytes =>
      if 64 <=? shift then None
      else
        let offset := offset + 1 in
        let result := Z.lor result (Z.shiftl (Z.land (b2z b) 0x7f) shift mod 2 ^ 64) in
        if Z.land (b2z b) 0x80 =? 0 then Some (result, offset) else decode_varint_usize bytes offset result (shift + 7)
  end.

(** Direction, socket, and where the buffer is. *)
Definition try_fast_parse_data (payload : list byte) : option (bool * Z * Z * Z) :=
  match payload with
  | t1 :: dir :: t2 :: rest =>
      if (zlen payload <? 6) || negb (beq t1 x08) then None
      else
        match (if b2z dir =? 0 then Some false else if b2z dir =? 1 then Some true else None) with
        | None => None
        | Some source_to_dest =>
            if negb (beq t2 x10) then None
            else
              match decode_varint_u32 rest 3 0 0 with
              | None => None
              | Some (id, offset) =>
                  match zdrop offset payload with
                  | t3 :: rest =>
                      if negb (beq t3 x1a) then None
                      else
                        match decode_varint_usize rest (offset + 1) 0 0 with
                        | None => None
                        | Some (buf_len, offset) =>
                            match usize_checked_add offset buf_len with
                            | Some last =>
                                if last =? zlen payload then Some (source_to_dest, to_signed 32 id, offset, buf_len) else None
                            | None => None
                            end
                        end
                  | [] => None
                  end
              end
        end
  | _ => None
  end.

(** ** The two parsers agree *)

Lemma u32_varint bytes i acc offset w o :
  0 <= i -> 0 <= acc < 2 ^ (7 * i) -> decode_varint_u32 bytes offset acc (7 * i) = Some (w, o) ->
  decode_varint_go bytes i acc = Some (w, i + (o - offset)) /\ 0 <= w < 2 ^ 32.
Proof.
  revert i acc offset. induction bytes as [|b bytes IH]; intros i acc offset Hi Hacc; [done|].
  cbn [decode_varint_u32 decode_varint_go]. destruct (Z.leb_spec 32 (7 * i)); [done|]. cbv zeta.
  rewrite land_7f, land_80. pose proof (Z.mod_pos_bound (b2z b) 128 ltac:(lia)) as Hm. pose proof (b2z_range b).
  destruct ((7 * i =? 28) && (0x0f <? b2z b mod 128)) eqn:E28; [done|].
  assert (0 < 2 ^ (7 * i)) by (apply Z.pow_pos_nonneg; lia).
  assert (Hpow : 2 ^ (7 * (i + 1)) = 2 ^ (7 * i) * 128) by (rewrite Z.mul_add_distr_l, Z.pow_add_r by lia; done).
  assert (Hbits : b2z b mod 128 * 2 ^ (7 * i) + acc < 2 ^ 32).
  { assert (i = 0 \/ i = 1 \/ i = 2 \/ i = 3 \/ i = 4) as Hcases by lia.
    apply andb_false_iff in E28. destruct Hcases as [->|[->|[->|[->| ->]]]]; change (7 * 4) with 28 in *; cbn in *; lia. }
  rewrite Z.shiftl_mul_pow2 by lia. rewrite (Z.mod_small (b2z b mod 128 * 2 ^ (7 * i))) by nia.
  rewrite <-Z.shiftl_mul_pow2 by lia. rewrite lor_shiftl_add by lia.
  destruct (Z.leb_spec 10 i); [lia|]. rewrite (proj2 (Z.eqb_neq i 9)) by lia. cbn [andb]. replace (i * 7) with (7 * i) by lia.
  rewrite lor_shiftl_add by lia. destruct (b2z b <? 128).
  - intros [= <- <-]. split; [do 2 f_equal; lia|nia].
  - replace (7 * i + 7) with (7 * (i + 1)) by lia. intros H'. apply IH in H' as [-> Hw]; [|lia|nia].
    split; [do 2 f_equal; lia|done].
Qed.

Lemma usize_varint bytes i acc offset v n :
  0 <= i <= 9 -> 0 <= acc < 2 ^ (7 * i) -> decode_varint_go bytes i acc = Some (v, n) ->
  decode_varint_usize bytes offset acc (7 * i) = Some (v, offset + (n - i)).
Proof.
  revert i acc offset. induction bytes as [|b bytes IH]; intros i acc offset Hi Hacc; [done|].
  cbn [decode_varint_usize decode_varint_go]. destruct (Z.leb_spec 10 i); [lia|]. cbv zeta.
  destruct (Z.leb_spec 64 (7 * i)); [lia|]. rewrite land_7f, land_80.
  pose proof (Z.mod_pos_bound (b2z b) 128 ltac:(lia)) as Hm. pose proof (b2z_range b).
  destruct ((i =? 9) && (1 <? b2z b)) eqn:E9; [done|].
  assert (0 < 2 ^ (7 * i)) by (apply Z.pow_pos_nonneg; lia).
  assert (Hpow : 2 ^ (7 * (i + 1)) = 2 ^ (7 * i) * 128) by (rewrite Z.mul_add_distr_l, Z.pow_add_r by lia; done).
  assert (Hbits : b2z b mod 128 * 2 ^ (7 * i) < 2 ^ 64).
  { destruct (Z.eq_dec i 9) as [->|Hi9].
    - apply andb_false_iff in E9 as [E|E]; [done|]. apply Z.ltb_ge in E. rewrite Z.mod_small by lia. change (7 * 9) with 63. lia.
    - assert (2 ^ (7 * i) <= 2 ^ 56) by (apply Z.pow_le_mono_r; lia). nia. }
  replace (i * 7) with (7 * i) by lia. rewrite Z.shiftl_mul_pow2 by lia.
  rewrite (Z.mod_small (b2z b mod 128 * 2 ^ (7 * i))) by nia. rewrite <-Z.shiftl_mul_pow2 by lia.
  rewrite lor_shiftl_add by lia. destruct (b2z b <? 128) eqn:Hlast.
  - intros [= <- <-]. do 2 f_equal. lia.
  - replace (7 * i + 7) with (7 * (i + 1)) by lia. destruct (Z.eq_dec i 9) as [->|Hi9].
    { apply andb_false_iff in E9 as [E|E]; [done|]. apply Z.ltb_ge in E, Hlast. lia. }
    intros H'. apply (IH _ _ (offset + 1)) in H'; [|lia|nia]. rewrite H'. do 2 f_equal. lia.
Qed.

(** The decoder of [Wire] on a tag and what follows it. *)
Lemma parse_varint_field fuel tag rest fs :
  parse_fields_go (S fuel) (tag :: rest) = Some fs -> b2z tag mod 8 = 0 ->
  exists v used fs', decode_varint rest = Some (v, used) /\ fs = VarintField (b2z tag / 8) v :: fs' /\
    parse_fields_go fuel (zdrop used rest) = Some fs'.
Proof.
  cbn [parse_fields_go]. intros H Hz. destruct (128 <=? b2z tag); [done|]. rewrite Hz in H. cbn in H.
  destruct (decode_varint rest) as [[v used]|]; [|done]. destruct (parse_fields_go fuel (zdrop used rest)) as [fs'|] eqn:E; [|done].
  injection H as <-. by exists v, used, fs'.
Qed.

Lemma parse_bytes_field fuel tag rest fs :
  parse_fields_go (S fuel) (tag :: rest) = Some fs -> b2z tag mod 8 = 2 ->
  exists bytes more fs', read_bytes rest = Some (bytes, more) /\ fs = BytesField (b2z tag / 8) bytes :: fs' /\
    parse_fields_go fuel more = Some fs'.
Proof.
  cbn [parse_fields_go]. intros H Hz. destruct (128 <=? b2z tag); [done|]. rewrite Hz in H. cbn in H.
  destruct (read_bytes rest) as [[bytes more]|]; [|done]. destruct (parse_fields_go fuel more) as [fs'|] eqn:E; [|done].
  injection H as <-. by exists bytes, more, fs'.
Qed.

Lemma varint_u32 bytes i acc offset w n :
  0 <= i <= 4 -> 0 <= acc < 2 ^ (7 * i) -> decode_varint_go bytes i acc = Some (w, n) -> w < 2 ^ 32 -> n <= 5 ->
  decode_varint_u32 bytes offset acc (7 * i) = Some (w, offset + (n - i)).
Proof.
  revert i acc offset. induction bytes as [|b bytes IH]; intros i acc offset Hi Hacc; [done|].
  cbn [decode_varint_u32 decode_varint_go]. destruct (Z.leb_spec 10 i); [lia|]. cbv zeta.
  destruct (Z.leb_spec 32 (7 * i)); [lia|]. rewrite land_7f, land_80. replace (i * 7) with (7 * i) by lia.
  pose proof (Z.mod_pos_bound (b2z b) 128 ltac:(lia)) as Hm. rewrite (proj2 (Z.eqb_neq i 9)) by lia. cbn [andb].
  assert (0 < 2 ^ (7 * i)) by (apply Z.pow_pos_nonneg; lia).
  assert (Hpow : 2 ^ (7 * (i + 1)) = 2 ^ (7 * i) * 128) by (rewrite Z.mul_add_distr_l, Z.pow_add_r by lia; done).
  rewrite lor_shiftl_add by lia. intros Hgo Hw Hn.
  assert (Hbits : b2z b mod 128 * 2 ^ (7 * i) < 2 ^ 32 /\ (i = 4 -> b2z b mod 128 <= 15 /\ b2z b < 128)).
  { destruct (Z.eq_dec i 4) as [->|Hi4].
    - change (2 ^ (7 * 4)) with 268435456 in *. destruct (Z.ltb_spec (b2z b) 128).
      + injection Hgo as <- <-. lia.
      + apply decode_varint_go_bounds in Hgo; [lia|lia|]. rewrite Hpow. lia.
    - assert (2 ^ (7 * i) <= 2 ^ 21) by (apply Z.pow_le_mono_r; lia). nia. }
  destruct Hbits as [Hbits H4]. destruct ((7 * i =? 28) && (0x0f <? b2z b mod 128)) eqn:E28.
  { apply andb_true_iff in E28 as [E1 E2]. lia. }
  rewrite Z.shiftl_mul_pow2 by lia. rewrite (Z.mod_small (b2z b mod 128 * 2 ^ (7 * i))) by nia.
  rewrite <-Z.shiftl_mul_pow2 by lia. rewrite lor_shiftl_add by lia. destruct (Z.ltb_spec (b2z b) 128).
  - injection Hgo as <- <-. do 2 f_equal. lia.
  - replace (7 * i + 7) with (7 * (i + 1)) by lia. rewrite (IH (i + 1) _ (offset + 1)) by (done || lia || nia).
    do 2 f_equal. lia.
Qed.

Lemma encode_varint_go_short fuel v (k : nat) :
  0 <= v < 128 ^ Z.of_nat k -> (1 <= k)%nat -> zlen (encode_varint_go fuel v) <= Z.of_nat k.
Proof.
  revert v k. induction fuel as [|fuel IH]; intros v k Hv Hk; [cbn; len_lia|]. cbn [encode_varint_go].
  destruct (Z.leb_spec 0x80 v); [|rewrite zlen_cons; change (zlen (@nil byte)) with 0; lia].
  destruct k as [|[|k]]; [lia|cbn in Hv; lia|]. rewrite zlen_cons, Z.shiftr_div_pow2 by lia. change (2 ^ 7) with 128.
  assert (zlen (encode_varint_go fuel (v / 128)) <= Z.of_nat (S k)); [|lia]. apply IH; [|lia].
  replace (Z.of_nat (S (S k))) with (Z.of_nat (S k) + 1) in Hv by lia. rewrite Z.pow_add_r in Hv by lia.
  split; [apply Z.div_pos; lia|apply Z.div_lt_upper_bound; lia].
Qed.

Lemma direction_byte dir d :
  (if b2z dir =? 0 then Some false else if b2z dir =? 1 then Some true else None) = Some d ->
  dir = if d then x01 else x00.
Proof.
  rewrite <-(z2b_b2z dir) at 3. destruct (Z.eqb_spec (b2z dir) 0) as [->|]; [by intros [= <-]|].
  destruct (Z.eqb_spec (b2z dir) 1) as [->|]; [by intros [= <-]|done].
Qed.

(** What the hand-written parser accepts, step by step. *)
Lemma fast_parse_inv payload d id start len :
  try_fast_parse_data payload = Some (d, id, start, len) ->
  exists rest offset id32 rest', payload = x08 :: (if d then x01 else x00) :: x10 :: rest /\
    decode_varint_u32 rest 3 0 0 = Some (id32, offset) /\ id = to_signed 32 id32 /\
    zdrop offset payload = x1a :: rest' /\ decode_varint_usize rest' (offset + 1) 0 0 = Some (len, start) /\
    start + len = zlen payload.
Proof.
  unfold try_fast_parse_data. destruct payload as [|t1 [|dir [|t2 rest]]]; try done. set (payload := t1 :: dir :: t2 :: rest).
  destruct (zlen payload <? 6); [done|]. cbn [orb]. destruct (beq_spec t1 x08) as [->|]; [|done]. cbn [negb].
  intros H. destruct (if b2z dir =? 0 then _ else _) as [e|] eqn:Edir; [|done].
  destruct (beq_spec t2 x10) as [->|]; [|done]. cbn [negb] in H.
  destruct (decode_varint_u32 rest 3 0 0) as [[id32 offset]|] eqn:E32; [|done].
  destruct (zdrop offset payload) as [|t3 rest'] eqn:Ed; [done|]. destruct (beq_spec t3 x1a) as [->|]; [|done]. cbn [negb] in H.
  destruct (decode_varint_usize rest' (offset + 1) 0 0) as [[n o']|] eqn:Eu; [|done].
  unfold usize_checked_add in H. destruct (o' + n <=? usize_max); [|done]. destruct (Z.eqb_spec (o' + n) (zlen payload)); [|done].
  injection H as -> <- -> ->. exists rest, offset, id32, rest'. split_and!; try done. unfold payload.
  by rewrite (direction_byte dir d).
Qed.

(** Wherever the hand-written parser of data packets takes a payload, the
    generated codec reads the same three fields out of it: the direction, the
    socket (an [int32], so the low 32 bits of the varint) and a buffer that is
    the span of the payload the fast path copies from, and nothing else is in
    the payload. *)
Theorem fast_parse_agrees payload fs d id start len :
  parse_fields payload = Some fs -> try_fast_parse_data payload = Some (d, id, start, len) ->
  exists v, fs = [VarintField 1 (if d then 1 else 0); VarintField 2 v; BytesField 3 (slice payload start (start + len))] /\
    0 <= v < 2 ^ 32 /\ id = to_signed 32 v.
Proof.
  intros Hp Hf. apply fast_parse_inv in Hf as (rest & offset & v & rest' & -> & E32 & -> & Ed & Eu & Hlen).
  unfold parse_fields in Hp. cbn [length] in Hp. apply parse_varint_field in Hp as (v1 & used1 & fs1 & H1 & -> & Hp); [|done].
  assert (v1 = (if d then 1 else 0) /\ used1 = 1) as [-> ->] by (destruct d; by injection H1 as <- <-).
  change (zdrop 1 (_ :: x10 :: rest)) with (x10 :: rest) in Hp.
  apply parse_varint_field in Hp as (v2 & used2 & fs2 & H2 & -> & Hp); [|done].
  destruct (u32_varint rest 0 0 3 v offset) as [Hgo Hv]; [lia|cbn; lia|done|]. unfold decode_varint in H2.
  rewrite Hgo in H2. injection H2 as <- <-. apply decode_varint_bounds in Hgo as Hb.
  set (payload := x08 :: _) in *.
  assert (Hrest : zdrop (0 + (offset - 3)) rest = x1a :: rest').
  { rewrite <-Ed. change rest with (zdrop 3 payload). rewrite zdrop_zdrop by lia. f_equal. lia. }
  rewrite Hrest in Hp. apply parse_bytes_field in Hp as (bytes & more & fs3 & H3 & -> & Hp); [|done].
  unfold read_bytes in H3. destruct (decode_varint rest') as [[n used]|] eqn:E3; [|done]. cbv zeta in H3.
  apply decode_varint_bounds in E3 as Hb3. unfold decode_varint in E3.
  apply (usize_varint _ _ _ (offset + 1)) in E3; [|lia|cbn; lia]. change (7 * 0) with 0 in E3. rewrite Eu in E3.
  injection E3 as <- ->. destruct (zlen (zdrop used rest') <? len); [done|]. injection H3 as <- <-.
  assert (Hspan : zdrop used rest' = zdrop (offset + 1 + (used - 0)) payload).
  { replace rest' with (zdrop 1 (zdrop offset payload)) by (by rewrite Ed). rewrite !zdrop_zdrop by lia. f_equal. lia. }
  exists v. split; [|done]. unfold slice. rewrite Hspan in *.
  replace (offset + 1 + (used - 0) + len - _) with len by lia. do 3 f_equal. rewrite zdrop_zdrop in Hp by lia.
  rewrite Hlen, zdrop_all in Hp by lia. by destruct (length _); injection Hp as <-.
Qed.

(** What [encode_data_packet] writes for a socket the worker can have, the
    fast parser takes back, byte for byte. *)
Lemma data_packet_roundtrip d id buffer :
  0 <= id < 2 ^ 31 -> zlen buffer < 2 ^ 62 ->
  exists start, 0 <= start /\ start + zlen buffer = zlen (encode_data_packet d id buffer) /\
    try_fast_parse_data (encode_data_packet d id buffer) = Some (d, id, start, zlen buffer) /\
    slice (encode_data_packet d id buffer) start (start + zlen buffer) = buffer.
Proof.
  intros Hid Hb. pose proof (zlen_nonneg buffer). unfold encode_data_packet. rewrite Z.mod_small by lia.
  set (vid := encode_varint id). set (vlen := encode_varint (zlen buffer)).
  pose proof (encode_varint_zlen id) as Hvid. pose proof (encode_varint_zlen (zlen buffer)) as Hvlen.
  fold vid in Hvid. fold vlen in Hvlen. set (front := [x08; if d then x01 else x00; x10] ++ vid).
  assert (Hfront : zlen front = 3 + zlen vid) by (unfold front; rewrite zlen_app; done).
  rewrite (app_assoc _ vid). fold front. assert (Hdrop : zdrop (zlen front) (front ++ [x1a] ++ vlen ++ buffer) = x1a :: vlen ++ buffer).
  { apply zdrop_app_exact. }
  assert (Hlen : zlen (front ++ [x1a] ++ vlen ++ buffer) = zlen front + 1 + zlen vlen + zlen buffer).
  { rewrite !zlen_app. change (zlen [x1a]) with 1. lia. }
  assert (E32 : decode_varint_u32 (vid ++ [x1a] ++ vlen ++ buffer) 3 0 (7 * 0) = Some (id, 3 + (zlen vid - 0))).
  { apply varint_u32; [lia|cbn; lia|by apply decode_varint_app; lia|lia|].
    apply (encode_varint_go_short _ _ 5); [change (128 ^ Z.of_nat 5) with (2 ^ 35); lia|lia]. }
  assert (E64 : decode_varint_usize (vlen ++ buffer) (zlen front + 1) 0 (7 * 0) =
    Some (zlen buffer, zlen front + 1 + (zlen vlen - 0))).
  { apply usize_varint; [lia|cbn; lia|]. apply decode_varint_app. lia. }
  rewrite Z.sub_0_r in E32, E64. rewrite <-Hfront in E32. change (7 * 0) with 0 in *.
  exists (zlen front + 1 + zlen vlen). split_and!; [lia|lia| |].
  - unfold try_fast_parse_data. unfold front at 1. cbn [app]. cbn [app] in E32, Hdrop, Hlen. rewrite E32.
    rewrite Hlen, Hdrop, E64.
    replace (_ <? 6) with false by (symmetry; apply Z.ltb_ge; lia). replace (if b2z _ =? 0 then _ else _) with (Some d) by (by destruct d).
    change (beq x08 x08) with true. change (beq x10 x10) with true. change (beq x1a x1a) with true. cbn [orb negb].
    unfold usize_checked_add, usize_max, u64_max. rewrite (proj2 (Z.leb_le _ _)) by lia. rewrite Z.eqb_refl. unfold to_signed.
    change (32 - 1) with 31. by rewrite (proj2 (Z.ltb_lt _ _)) by lia.
  - replace (zlen front + 1 + zlen vlen + zlen buffer) with (zlen (front ++ [x1a] ++ vlen ++ buffer)) by lia.
    rewrite slice_full by lia. rewrite zdrop_app_ge by lia. change ([x1a] ++ vlen ++ buffer) with (([x1a] ++ vlen) ++ buffer).
    replace (zlen front + 1 + zlen vlen - zlen front) with (zlen ([x1a] ++ vlen)); [apply zdrop_app_exact|].
    rewrite zlen_app. change (zlen [x1a]) with 1. lia.
Qed.

Lemma fast_parse_agrees_witness :
  exists v, parse_fields (encode_data_packet true 5 [x61; x62]) =
    Some [VarintField 1 1; VarintField 2 v; BytesField 3 (slice (encode_data_packet true 5 [x61; x62]) 6 8)] /\ to_signed 32 v = 5.
Proof.
  destruct (fast_parse_agrees (encode_data_packet true 5 [x61; x62])
    [VarintField 1 1; VarintField 2 5; BytesField 3 [x61; x62]] true 5 6 2) as (v & H & _ & Hv);
    [by vm_compute|by vm_compute|]. exists v. split; [|done]. change (6 + 2) with 8 in H. rewrite <-H. by vm_compute.
Defined.
