(* ===== verification/ForwardFlow.v ===== *)
(** * ForwardFlow: both ends of a forwarded connection

    Two sockets of [ForwardSocket] joined by a session that loses and reorders
    nothing ([System]): the data packets and the returned credit on the way
    between them, and the steps of [service_socket], [admit_data_span],
    [flush_due_credits] and [apply_window] of
    [crates/et-net/src/forward_poll.rs] at either end. The sockets are as
    [connected] and [destination_response] make them between two ends that
    both advertise a window. *)

From stdpp Require Import relations.
From S2P Require Import Prelude Bytes Packet OutputWindow Recovery Wire SshAgentBind ForwardSocket ForwardPacket.

(** ** The pair *)

Record Pair := mkPair {
  left : SocketIo;
  right : SocketIo;
  to_right : list (list byte);
  to_left : list (list byte);
  credit_right : list (Z * Z);
  credit_left : list (Z * Z);
  left_sent : list byte;
  right_sent : list byte;
  left_took : list byte;
  right_took : list byte
}.

Definition flip (p : Pair) : Pair :=
  mkPair (right p) (left p) (to_left p) (to_right p) (credit_left p) (credit_right p) (right_sent p) (left_sent p)
    (right_took p) (left_took p).

(** The window that [send_credit] puts in its packet. *)
Definition credit_window (bytes packets : Z) : PortForwardWindow :=
  mkPortWindow (Some bytes) (Some (Z.min packets (2 ^ 31 - 1))).

(** What the left end does. *)
Inductive act (p : Pair) : Pair -> Prop :=
| act_read len answers s bytes more :
    read_interest (left p) = true -> 0 < len <= FORWARD_READ_LEN ->
    read_encoded_chunk (left p) len answers = (s, Data bytes, more) ->
    act p (mkPair s (right p) (to_right p ++ [data_packet (left p) bytes]) (to_left p) (credit_right p) (credit_left p)
             (left_sent p ++ bytes) (right_sent p) (left_took p) (right_took p))
| act_read_nothing len answers s outcome more :
    0 < len <= FORWARD_READ_LEN -> read_encoded_chunk (left p) len answers = (s, outcome, more) ->
    match outcome with Data _ => False | _ => True end ->
    act p (mkPair s (right p) (to_right p) (to_left p) (credit_right p) (credit_left p)
             (left_sent p) (right_sent p) (left_took p) (right_took p))
| act_receive packet rest direction id start len s :
    to_left p = packet :: rest -> try_fast_parse_data packet = Some (direction, id, start, len) ->
    writes_dropped (left p) = false -> queue_write_span (left p) packet start len = Ok s ->
    act p (mkPair s (right p) (to_right p) rest (credit_right p) (credit_left p)
             (left_sent p) (right_sent p) (left_took p) (right_took p))
| act_flush answers s bytes more :
    flush_out (left p) answers = (s, bytes, true, more) ->
    act p (mkPair s (right p) (to_right p) (to_left p) (credit_right p) (credit_left p)
             (left_sent p) (right_sent p) (left_took p ++ bytes) (right_took p))
| act_credit s bytes packets :
    credit_due (left p) = true -> take_credit (left p) = (s, Some (bytes, packets)) ->
    act p (mkPair s (right p) (to_right p) (to_left p) (credit_right p ++ [(bytes, packets)]) (credit_left p)
             (left_sent p) (right_sent p) (left_took p) (right_took p))
| act_delivery bytes packets rest delivered :
    credit_left p = (bytes, packets) :: rest -> decode_window (Some (credit_window bytes packets)) = Some delivered ->
    act p (mkPair (apply_delivery (left p) delivered) (right p) (to_right p) (to_left p) (credit_right p) rest
             (left_sent p) (right_sent p) (left_took p) (right_took p)).

(** Either end acts. *)
Definition pair_step (p p' : Pair) : Prop := act p p' \/ act (flip p) (flip p').

(** The connection is made: what a SOCKS client sent behind its request is on
    its way, uncounted. *)
Definition pair_new (id source_stream destination_stream : Z) (early : list byte) (replies : option AgentSessionBindReplies)
    : Pair :=
  mkPair (socket_new Source id source_stream (decode_window (Some advertised_window)) None)
    (socket_new Destination id destination_stream (decode_window (Some advertised_window)) replies)
    (match early with [] => [] | _ => [encode_data_packet true id early] end) [] [] [] early [] [] [].

(** ** The invariant *)

(** One end: windowed, nothing closed, its counters within the window. *)
Record end_ok (dir : bool) (id : Z) (s : SocketIo) : Prop := mkEndOk {
  eo_role : bool_decide (role s = Source) = dir;
  eo_id : socket_id s = id;
  eo_open : read_open s = true /\ writes_dropped s = false;
  eo_window : window_bytes s = WINDOW_BYTES /\ window_packets s = WINDOW_PACKETS;
  eo_flight : 0 <= in_flight_bytes s <= WINDOW_BYTES /\ 0 <= in_flight_packets s <= WINDOW_PACKETS;
  eo_ok : socket_ok s;
  eo_ratio : credit_packets s <= credit_bytes s <= MAX_DATA_PACKET * credit_packets s;
  eo_bind : bind_ok s
}.

Definition body_ok (body : list byte) : Prop := 0 < zlen body <= MAX_DATA_PACKET.
Definition credit_ok (c : Z * Z) : Prop := 0 < fst c /\ 0 < snd c.
Definition bodies_len (bodies : list (list byte)) : Z := zlen (concat bodies).
Definition credit_sum (f : Z * Z -> Z) (credits : list (Z * Z)) : Z := foldr (fun c n => f c + n) 0 credits.

(** One direction: every byte sent is on its way, queued or taken, in order,
    and the sender counts all of it but for the [extra] it never counted. *)
Record flow_ok (extra : Z) (sender receiver : SocketIo) (bodies : list (list byte))
    (credits : list (Z * Z)) (sent took : list byte) : Prop := mkFlowOk {
  fo_bodies : Forall body_ok bodies;
  fo_credits : Forall credit_ok credits;
  fo_order : sent = took ++ contents receiver ++ concat bodies;
  fo_bytes : 0 <= bodies_len bodies + queued_len (out receiver) + credit_bytes receiver + credit_sum fst credits
                  - in_flight_bytes sender <= extra;
  fo_packets : 0 <= zlen bodies + zlen (out receiver) + credit_packets receiver + credit_sum snd credits
                    - in_flight_packets sender <= Z.min extra 1
}.

Definition direction_ok (extra : Z) (dir : bool) (id : Z) (p : Pair) : Prop :=
  exists bodies, to_right p = map (encode_data_packet dir id) bodies /\
    flow_ok extra (left p) (right p) bodies (credit_left p) (left_sent p) (right_took p).

Record pair_ok (dir : bool) (extra_right extra_left id : Z) (p : Pair) : Prop := mkPairOk {
  po_left : end_ok dir id (left p);
  po_right : end_ok (negb dir) id (right p);
  po_to_right : direction_ok extra_right dir id p;
  po_to_left : direction_ok extra_left (negb dir) id (flip p)
}.

(** ** The operations on an end *)

Lemma flow_frame extra s s' r r' bodies credits sent took :
  in_flight_bytes s' = in_flight_bytes s -> in_flight_packets s' = in_flight_packets s ->
  out r' = out r -> out_offset r' = out_offset r -> credit_bytes r' = credit_bytes r -> credit_packets r' = credit_packets r ->
  flow_ok extra s r bodies credits sent took -> flow_ok extra s' r' bodies credits sent took.
Proof.
  intros Hb Hp Ho Hoff Hcb Hcp [H1 H2 H3 H4 H5]. split; [done|done| |by rewrite Hb, Ho, Hcb|by rewrite Hp, Ho, Hcp].
  by unfold contents; rewrite Ho, Hoff.
Qed.

(** A read keeps the end and its window. *)
Lemma end_read dir id s len answers s' o more :
  end_ok dir id s -> 0 < len <= FORWARD_READ_LEN -> read_encoded_chunk s len answers = (s', o, more) ->
  (match o with
   | Data bytes => read_interest s = true ->
       body_ok bytes /\ in_flight_bytes s' = in_flight_bytes s + zlen bytes /\ in_flight_packets s' = in_flight_packets s + 1 /\
       end_ok dir id s'
   | _ => in_flight_bytes s' = in_flight_bytes s /\ in_flight_packets s' = in_flight_packets s /\ end_ok dir id s'
   end) /\
  out s' = out s /\ out_offset s' = out_offset s /\ credit_bytes s' = credit_bytes s /\ credit_packets s' = credit_packets s.
Proof.
  intros [Hrole Hid Hopen [Hwb Hwp] [Hfb Hfp] Hok Hratio Hbind] Hlen. unfold read_encoded_chunk. cbv zeta.
  assert (Hw : windowed s = true) by (unfold windowed; rewrite Hwb, Hwp; done).
  assert (Hlim : read_limit s len = Z.min (WINDOW_BYTES - in_flight_bytes s) len).
  { unfold read_limit. rewrite Hw, Hwb. unfold i64_clamp, i64_min, i64_max, WINDOW_BYTES in *. lia. }
  rewrite Hlim. unfold FORWARD_READ_LEN, READ_CHUNK in Hlen. destruct (Z.eqb_spec (Z.min (WINDOW_BYTES - in_flight_bytes s) len) 0) as [H0|H0].
  { intros [= <- <- <-]. split_and!; try done. }
  intros Hr. apply read_loop_spec in Hr as (replies & full & Hb & Ho); [|lia|done].
  destruct o as [bytes| | |].
  2-4: subst s'; split_and!; try done; destruct Hok as [? ? ? ? ?]; split; try done; split; done.
  destruct Ho as (Hne & Hn & ->). assert (0 < zlen bytes) as Hpos by (destruct bytes; [done|rewrite zlen_cons; len_lia]).
  assert (Hns : note_sent (set_read replies full s) (zlen bytes) =
    set_in_flight (in_flight_bytes s + zlen bytes) (in_flight_packets s + 1) (set_read replies full s)).
  { unfold note_sent. replace (windowed (set_read replies full s)) with (windowed s) by done. rewrite Hw. cbn [negb set_read in_flight_bytes in_flight_packets].
    f_equal; unfold i64_clamp, i64_min, i64_max, WINDOW_BYTES, WINDOW_PACKETS in *; lia. }
  rewrite Hns. split_and!; try done. intros Hri. unfold read_interest in Hri. rewrite Hw in Hri.
  destruct (negb (read_open s) || close_when_drained s); [done|]. cbn [negb] in Hri. apply andb_true_iff in Hri as [_ Hlt].
  apply Z.ltb_lt in Hlt. split_and!; [split; [done|unfold MAX_DATA_PACKET; lia]|done|done|].
  destruct Hok as [? ? ? ? ?]. split; cbn [set_in_flight set_read in_flight_bytes in_flight_packets]; try done; [lia|].
  split; cbn [set_in_flight set_read in_flight_bytes in_flight_packets out out_offset credit_bytes credit_packets]; try done. lia.
Qed.

Lemma contents_push s b :
  offset_ok (out s) (out_offset s) -> contents (set_out (out s ++ [b]) (out_offset s) s) = contents s ++ pending_bytes b 0.
Proof.
  intros Ho. unfold contents, contents_at. cbn [set_out out out_offset]. destruct (out s) as [|front rest].
  - cbn in Ho |- *. by rewrite Ho, app_nil_r.
  - cbn [app]. rewrite map_app, concat_app. cbn [map concat]. by rewrite app_nil_r, app_assoc.
Qed.

(** Data that is not refused goes behind what is queued. *)
Lemma end_receive dir id s packet d i start len body s' :
  end_ok dir id s -> packet = encode_data_packet (negb dir) id body -> 0 <= id < 2 ^ 31 -> body_ok body ->
  try_fast_parse_data packet = Some (d, i, start, len) -> queue_write_span s packet start len = Ok s' ->
  end_ok dir id s' /\ contents s' = contents s ++ body /\ queued_len (out s') = queued_len (out s) + zlen body /\
  zlen (out s') = zlen (out s) + 1 /\ in_flight_bytes s' = in_flight_bytes s /\ in_flight_packets s' = in_flight_packets s /\
  credit_bytes s' = credit_bytes s /\ credit_packets s' = credit_packets s.
Proof.
  intros [Hrole Hid Hopen Hw Hf [Hb Ho Hc Hcr Hfl] Hratio Hbind] -> Hi [Hb1 Hb2] Hp.
  destruct (data_packet_roundtrip (negb dir) id body Hi) as (start' & Hs0 & Hs1 & Hp' & Hslice); [unfold MAX_DATA_PACKET in Hb2; lia|].
  rewrite Hp' in Hp. injection Hp as _ _ <- <-. unfold queue_write_span.
  destruct (Z.eqb_spec (zlen body) 0); [lia|]. destruct (_ || _) eqn:Hfull; [done|]. apply orb_false_iff in Hfull as [_ Hfull].
  apply Z.leb_gt in Hfull. intros [= <-]. set (b := mkQueued _ start' (zlen body)).
  assert (Hpb : pending_bytes b 0 = body) by (unfold pending_bytes, b; cbn [q_start q_len q_data]; by rewrite Z.add_0_r).
  assert (buffer_ok b) as Hbok by (unfold buffer_ok, b; cbn [q_start q_len q_data]; lia).
  rewrite contents_push, Hpb by done. cbn [set_out out in_flight_bytes in_flight_packets credit_bytes credit_packets].
  rewrite queued_len_app, zlen_app. change (zlen [b]) with 1. cbn [queued_len foldr]. split_and!; try done; [|cbn [b q_len]; lia].
  split; try done. split; cbn [set_out out out_offset]; [by apply Forall_app_2; [|constructor]| |rewrite zlen_app; change (zlen [b]) with 1; lia|done|done].
  destruct (out s); cbn in Ho |- *; [lia|done].
Qed.

Lemma end_flush dir id s answers s' bytes ok more :
  end_ok dir id s -> credit_room s -> flush_out s answers = (s', bytes, ok, more) ->
  end_ok dir id s' /\ contents s = bytes ++ contents s' /\
  credit_bytes s' + queued_len (out s') = credit_bytes s + queued_len (out s) /\
  credit_packets s' + zlen (out s') = credit_packets s + zlen (out s) /\
  in_flight_bytes s' = in_flight_bytes s /\ in_flight_packets s' = in_flight_packets s.
Proof.
  intros [Hrole Hid Hopen [Hwb Hwp] Hf Hok Hratio Hbind] Hroom Hfl.
  destruct (flush_out_spec _ _ _ _ _ _ Hfl Hok Hroom) as (Hc & Hok' & [Hsame Hb Hp _ _ _ Hr]).
  assert (windowed s = true) as Hw by (unfold windowed; rewrite Hwb, Hwp; done).
  specialize (Hb Hw). specialize (Hp Hw). rewrite Hsame in *.
  cbn [set_credit set_out in_flight_bytes in_flight_packets credit_bytes credit_packets out out_offset] in *.
  split_and!; try done. split; try done. cbn [set_credit credit_bytes credit_packets]. nia.
Qed.

Lemma end_credit dir id s s' bytes packets :
  end_ok dir id s -> take_credit s = (s', Some (bytes, packets)) ->
  end_ok dir id s' /\ credit_ok (bytes, packets) /\ bytes = credit_bytes s /\ packets = credit_packets s /\
  credit_bytes s' = 0 /\ credit_packets s' = 0 /\ out s' = out s /\ out_offset s' = out_offset s /\
  in_flight_bytes s' = in_flight_bytes s /\ in_flight_packets s' = in_flight_packets s.
Proof.
  intros [Hrole Hid Hopen Hw Hf [Hb Ho Hc Hcr Hfl] Hratio Hbind]. unfold take_credit. destruct (_ || _) eqn:E; [done|].
  apply orb_false_iff in E as [E1 E2]. apply Z.leb_gt in E1, E2. intros [= <- <- <-].
  split_and!; done.
Qed.

(** Delivery frees what was counted, and no more. *)
Lemma end_delivery dir id s bytes packets delivered :
  end_ok dir id s -> credit_ok (bytes, packets) -> decode_window (Some (credit_window bytes packets)) = Some delivered ->
  let s' := apply_delivery s delivered in
  end_ok dir id s' /\ in_flight_bytes s' = Z.max 0 (in_flight_bytes s - bytes) /\
  in_flight_packets s' = Z.max 0 (in_flight_packets s - packets) /\
  out s' = out s /\ out_offset s' = out_offset s /\ credit_bytes s' = credit_bytes s /\ credit_packets s' = credit_packets s.
Proof.
  intros [Hrole Hid Hopen Hw [Hfb Hfp] [Hb Ho Hc Hcr Hfl] Hratio Hbind] [Hc1 Hc2]. cbn [fst snd] in *.
  unfold decode_window, credit_window, positive. cbn [pw_bytes pw_packets].
  rewrite (proj2 (Z.ltb_lt 0 bytes)) by done. rewrite (proj2 (Z.ltb_lt 0 (Z.min packets _))) by lia. intros [= <-].
  unfold WINDOW_BYTES, WINDOW_PACKETS in *.
  assert (Hnew : apply_delivery s (mkFlow (Z.min bytes (4 * 1024 * 1024)) (Z.min (Z.min packets (2 ^ 31 - 1)) 127)) =
    set_in_flight (Z.max 0 (in_flight_bytes s - bytes)) (Z.max 0 (in_flight_packets s - packets)) s).
  { unfold apply_delivery. cbn [fw_bytes fw_packets]. rewrite !(proj2 (Z.ltb_lt 0 (Z.min _ _))) by lia.
    unfold i64_clamp, i64_min, i64_max. f_equal; lia. }
  cbv zeta. rewrite Hnew. split_and!; try done. split; try done; cbn [set_in_flight in_flight_bytes in_flight_packets].
  - unfold WINDOW_BYTES, WINDOW_PACKETS. lia.
  - split; cbn [set_in_flight in_flight_bytes in_flight_packets out out_offset credit_bytes credit_packets]; try done. lia.
Qed.

(** ** Every step keeps the invariant *)

Ltac pair_cbn := cbn [flip left right to_right to_left credit_right credit_left left_sent right_sent left_took right_took].
Ltac pair_cbn_in H :=
  cbn [flip left right to_right to_left credit_right credit_left left_sent right_sent left_took right_took] in H.

Lemma credit_sum_app f a b : credit_sum f (a ++ b) = credit_sum f a + credit_sum f b.
Proof. unfold credit_sum. induction a as [|c a IH]; cbn [app foldr]; lia. Qed.

Lemma credit_sum_nonneg f credits : Forall (fun c => 0 < f c) credits -> 0 <= credit_sum f credits.
Proof. unfold credit_sum. induction 1 as [|c l H _ IH]; cbn [foldr]; lia. Qed.

Lemma bodies_len_app a b : bodies_len (a ++ b) = bodies_len a + bodies_len b.
Proof. unfold bodies_len. by rewrite concat_app, zlen_app. Qed.

Lemma flow_nonneg dir id receiver credits (bodies : list (list byte)) :
  end_ok dir id receiver -> Forall credit_ok credits ->
  0 <= bodies_len bodies /\ 0 <= zlen bodies /\ 0 <= queued_len (out receiver) /\ 0 <= zlen (out receiver) /\
  0 <= credit_bytes receiver /\ 0 <= credit_packets receiver /\ 0 <= credit_sum fst credits /\ 0 <= credit_sum snd credits.
Proof.
  intros [_ _ _ _ _ [Hbuf _ _ Hcr _] _ _] Hcredits.
  split_and!; [apply zlen_nonneg|apply zlen_nonneg|by apply queued_len_nonneg|apply zlen_nonneg|lia|lia|..];
    apply credit_sum_nonneg; (eapply Forall_impl; [done|by intros ? [? ?]]).
Qed.

(** What is queued for an end is within the window of the other. *)
Lemma flow_room extra dir dir' id sender receiver bodies credits sent took :
  end_ok dir id sender -> end_ok dir' id receiver -> extra <= MAX_DATA_PACKET ->
  flow_ok extra sender receiver bodies credits sent took ->
  credit_room receiver /\ queued_len (out receiver) <= WINDOW_BYTES + extra /\
  zlen bodies + zlen (out receiver) <= OUT_QUEUE_PACKETS.
Proof.
  intros Hs Hr Hx [_ Hcredits _ Hb Hp]. pose proof (flow_nonneg _ _ _ _ bodies Hr Hcredits).
  destruct Hs as [_ _ _ _ [Hfb Hfp] _ _ _].
  unfold credit_room, OUT_QUEUE_PACKETS, WINDOW_BYTES, WINDOW_PACKETS, MAX_DATA_PACKET in *. lia.
Qed.

(** What the steps do to the direction they are about. *)
Lemma flow_send extra s s' r bodies credits sent took bytes :
  flow_ok extra s r bodies credits sent took -> body_ok bytes ->
  in_flight_bytes s' = in_flight_bytes s + zlen bytes -> in_flight_packets s' = in_flight_packets s + 1 ->
  flow_ok extra s' r (bodies ++ [bytes]) credits (sent ++ bytes) took.
Proof.
  intros [F1 F2 F3 F4 F5] Hbody Hfb Hfp. split; [by apply Forall_app_2; [|constructor]|done| | |].
  - rewrite F3, concat_app. cbn [concat]. by rewrite app_nil_r, !app_assoc.
  - rewrite Hfb, bodies_len_app.
    replace (bodies_len [bytes]) with (zlen bytes) by (unfold bodies_len; cbn [concat]; by rewrite app_nil_r). lia.
  - rewrite Hfp, zlen_app. change (zlen [bytes]) with 1. lia.
Qed.

Lemma flow_receive extra s r r' body bodies credits sent took :
  flow_ok extra s r (body :: bodies) credits sent took -> contents r' = contents r ++ body ->
  queued_len (out r') = queued_len (out r) + zlen body -> zlen (out r') = zlen (out r) + 1 ->
  credit_bytes r' = credit_bytes r -> credit_packets r' = credit_packets r ->
  flow_ok extra s r' bodies credits sent took.
Proof.
  intros [F1 F2 F3 F4 F5] Hc Hql Hn Hcb Hcp. apply Forall_cons in F1 as [_ F1]. split; [done|done| | |].
  - rewrite F3, Hc. cbn [concat]. by rewrite <-!app_assoc.
  - rewrite Hql, Hcb. unfold bodies_len in *. cbn [concat] in F4. rewrite zlen_app in F4. lia.
  - rewrite Hn, Hcp. rewrite zlen_cons in F5. lia.
Qed.

Lemma flow_deliver extra dir id s s' r bodies b k credits sent took :
  flow_ok extra s r bodies ((b, k) :: credits) sent took -> end_ok dir id r ->
  in_flight_bytes s' = Z.max 0 (in_flight_bytes s - b) -> in_flight_packets s' = Z.max 0 (in_flight_packets s - k) ->
  flow_ok extra s' r bodies credits sent took.
Proof.
  intros [F1 F2 F3 F4 F5] Hr Hfb Hfp. apply Forall_cons in F2 as [_ F2]. cbn [credit_sum foldr fst snd] in F4, F5.
  fold (credit_sum fst credits) in F4. fold (credit_sum snd credits) in F5.
  pose proof (flow_nonneg _ _ _ _ bodies Hr F2). split; [done|done|done|rewrite Hfb; lia|rewrite Hfp; lia].
Qed.

Lemma act_ok dir extra_right extra_left id p p' :
  0 <= id < 2 ^ 31 -> 0 <= extra_right <= MAX_DATA_PACKET -> 0 <= extra_left <= MAX_DATA_PACKET ->
  pair_ok dir extra_right extra_left id p -> act p p' -> pair_ok dir extra_right extra_left id p'.
Proof.
  intros Hid Hxr Hxl [Hl Hr (br & Er & Fr) (bl & El & Fl)] Hact. pair_cbn_in El. pair_cbn_in Fl.
  edestruct (flow_room extra_left) as (Hroom & _ & _); [exact Hr|exact Hl|lia|exact Fl|].
  destruct Hact as [len answers s bytes more Hri Hlen Hread|len answers s o more Hlen Hread Ho|packet rest d i start len s Hto Hparse Hdrop Hq
    |answers s bytes more Hflush|s bytes packets Hdue Htake|bytes packets rest delivered Hcr Hdec].
  - destruct (end_read _ _ _ _ _ _ _ _ Hl Hlen Hread) as [H1 (Ho & Hoff & Hcb & Hcp)]. destruct (H1 Hri) as (Hbody & Hfb & Hfp & Hs).
    split; [done|done|exists (br ++ [bytes])|exists bl].
    + split; [|by eapply flow_send]. pair_cbn. rewrite map_app, Er. unfold data_packet. by rewrite (eo_role _ _ _ Hl), (eo_id _ _ _ Hl).
    + split; [done|]. by eapply flow_frame, Fl.
  - destruct (end_read _ _ _ _ _ _ _ _ Hl Hlen Hread) as [H1 (Ho' & Hoff & Hcb & Hcp)].
    assert (in_flight_bytes s = in_flight_bytes (left p) /\ in_flight_packets s = in_flight_packets (left p) /\ end_ok dir id s)
      as (Hfb & Hfp & Hs) by (by destruct o).
    split; [done|done|exists br|exists bl]; (split; [done|]); [by eapply flow_frame, Fr|by eapply flow_frame, Fl].
  - destruct bl as [|body bl]; [by rewrite El in Hto|]. rewrite El in Hto. injection Hto as <- <-.
    assert (body_ok body) as Hbody by (destruct Fl as [F1 _ _ _ _]; by apply Forall_cons in F1 as [? _]).
    destruct (end_receive _ _ _ _ _ _ _ _ _ _ Hl eq_refl Hid Hbody Hparse Hq) as (Hs & Hc & Hql & Hn & Hfb & Hfp & Hcb & Hcp).
    split; [done|done|exists br|exists bl]; (split; [done|]); [by eapply flow_frame, Fr|by eapply flow_receive].
  - destruct (end_flush _ _ _ _ _ _ _ _ Hl Hroom Hflush) as (Hs & Hc & Hb & Hp & Hfb & Hfp).
    split; [done|done|exists br|exists bl]; (split; [done|]); [by eapply flow_frame, Fr|].
    destruct Fl as [F1 F2 F3 F4 F5]. pair_cbn. split; [done|done| |lia|lia]. by rewrite F3, Hc, <-!app_assoc.
  - destruct (end_credit _ _ _ _ _ _ Hl Htake) as (Hs & Hok & -> & -> & Hcb & Hcp & Ho & Hoff & Hfb & Hfp).
    split; [done|done|exists br|exists bl]; (split; [done|]); [by eapply flow_frame, Fr|].
    destruct Fl as [F1 F2 F3 F4 F5]. pair_cbn. split; [done|by apply Forall_app_2; [|constructor]| | |].
    + rewrite F3. unfold contents. by rewrite Ho, Hoff.
    + rewrite credit_sum_app, Hcb, Ho. cbn [credit_sum foldr fst]. lia.
    + rewrite credit_sum_app, Hcp, Ho. cbn [credit_sum foldr snd]. lia.
  - rewrite Hcr in Fr. assert (credit_ok (bytes, packets)) as Hok by (destruct Fr as [_ F2 _ _ _]; by apply Forall_cons in F2 as [? _]).
    destruct (end_delivery _ _ _ _ _ _ Hl Hok Hdec) as (Hs & Hfb & Hfp & Ho & Hoff & Hcb & Hcp).
    split; [done|done|exists br|exists bl]; (split; [done|]); [by eapply flow_deliver|by eapply flow_frame, Fl].
Qed.

Lemma flip_ok dir extra_right extra_left id p :
  pair_ok dir extra_right extra_left id p <-> pair_ok (negb dir) extra_left extra_right id (flip p).
Proof.
  split; intros [Hl Hr Fr Fl].
  - split; [done|by rewrite negb_involutive|done|rewrite negb_involutive]. by destruct p.
  - rewrite negb_involutive in *. split; [done|done|by destruct p|done].
Qed.

Lemma step_ok dir extra_right extra_left id p p' :
  0 <= id < 2 ^ 31 -> 0 <= extra_right <= MAX_DATA_PACKET -> 0 <= extra_left <= MAX_DATA_PACKET ->
  pair_ok dir extra_right extra_left id p -> pair_step p p' -> pair_ok dir extra_right extra_left id p'.
Proof.
  intros Hid Hxr Hxl Hp [Ha|Ha]; [by eapply act_ok|]. apply flip_ok. apply flip_ok in Hp. by eapply act_ok.
Qed.

Lemma steps_ok dir extra_right extra_left id p p' :
  0 <= id < 2 ^ 31 -> 0 <= extra_right <= MAX_DATA_PACKET -> 0 <= extra_left <= MAX_DATA_PACKET ->
  pair_ok dir extra_right extra_left id p -> rtc pair_step p p' -> pair_ok dir extra_right extra_left id p'.
Proof. intros Hid Hxr Hxl Hp. induction 1 as [|p1 p2 p3 H12 _ IH]; [done|]. by eapply IH, step_ok. Qed.

Definition replies_fresh (replies : option AgentSessionBindReplies) : Prop :=
  match replies with Some r => exists n, 0 <= n /\ r = replies_new n | None => True end.

Lemma new_ok id fl fr early replies :
  zlen early <= MAX_DATA_PACKET -> replies_fresh replies -> pair_ok true (zlen early) 0 id (pair_new id fl fr early replies).
Proof.
  intros He Hr.
  assert (Hend : forall role fd rep, replies_fresh rep ->
    end_ok (bool_decide (role = Source)) id (socket_new role id fd (decode_window (Some advertised_window)) rep)).
  { intros role fd rep Hrep. split; try done. destruct rep as [r|]; [|done]. destruct Hrep as (n & Hn & ->). done. }
  split; [by apply (Hend Source)|by apply (Hend Destination)| |].
  - unfold direction_ok, pair_new. pair_cbn. destruct early as [|b early]; [by exists []|].
    assert (0 < zlen (b :: early)) by (rewrite zlen_cons; len_lia). exists [b :: early]. split; [done|].
    split; [by constructor|done|by rewrite <-(app_nil_r (b :: early)) at 1| |]; unfold bodies_len; cbn [concat]; rewrite ?app_nil_r;
      cbn [socket_new out queued_len foldr credit_bytes credit_packets credit_sum in_flight_bytes in_flight_packets];
      [|change (zlen [b :: early]) with 1; change (zlen (@nil QueuedBuffer)) with 0]; lia.
  - by exists [].
Qed.

(** ** Everything gets through *)

Lemma flush_front s front rest :
  out s = front :: rest -> socket_ok s -> credit_room s ->
  exists n s1, 0 < n /\ out s1 = rest /\ socket_ok s1 /\ credit_room s1 /\
    forall answers, flush_out s (Wrote n :: answers) =
      (let '(s', more, ok, left) := flush_out s1 answers in (s', pending_bytes front (out_offset s) ++ more, ok, left)).
Proof.
  intros Hout Hok Hroom. pose proof (pop_front_spec front rest s Hout Hok Hroom) as (Ho1 & _ & Hok1 & Hroom1 & _).
  destruct Hok as [Hb Ho _ _ _]. rewrite Hout in Hb, Ho. cbn in Ho. apply Forall_cons in Hb as [Hfront _].
  pose proof (pending_bytes_len front (out_offset s) Hfront ltac:(lia)) as Hlen.
  exists (q_len front - out_offset s), (pop_front front rest s). split_and!; [lia|done|done|done|]. intros answers.
  assert (Htake : ztake (q_len front - out_offset s) (offered s) = pending_bytes front (out_offset s)).
  { unfold offered. rewrite Hout, <-Hlen. apply ztake_app_exact. }
  cbn [flush_out]. rewrite Hout, Htake. destruct (pending_bytes front (out_offset s)) as [|b bs] eqn:E; [change (zlen (@nil byte)) with 0 in Hlen; lia|].
  rewrite Hlen. cbn [pop_written]. rewrite (proj2 (Z.leb_gt _ 0)) by lia. cbv zeta. rewrite (proj2 (Z.leb_le _ _)) by lia.
  rewrite Z.sub_diag. by replace (pop_written rest (pop_front front rest s) 0) with (pop_front front rest s) by (by destruct rest).
Qed.

Lemma flush_empties s :
  socket_ok s -> credit_room s -> exists answers s' bytes, flush_out s answers = (s', bytes, true, []) /\ out s' = [].
Proof.
  remember (out s) as bufs eqn:Hout. revert s Hout. induction bufs as [|front rest IH]; intros s Hout Hok Hroom.
  - exists [], s, []. split; [|done]. cbn [flush_out]. by rewrite <-Hout.
  - destruct (flush_front s front rest) as (n & s1 & Hn & Ho1 & Hok1 & Hroom1 & Hf); [done|done|done|].
    destruct (IH s1) as (answers & s' & bytes & Hf' & Ho'); [done|done|done|].
    exists (Wrote n :: answers), s', (pending_bytes front (out_offset s) ++ bytes). by rewrite Hf, Hf'.
Qed.

Section drain.
Context (dir : bool) (extra_right extra_left id : Z).
Context (Hid : 0 <= id < 2 ^ 31) (Hxr : 0 <= extra_right <= MAX_DATA_PACKET) (Hxl : 0 <= extra_left <= MAX_DATA_PACKET).

Lemma right_acts p q : act (flip p) q -> pair_step p (flip q).
Proof. right. by destruct q. Qed.

(** What is on its way can be taken in. *)
Lemma can_receive p packet rest :
  pair_ok dir extra_right extra_left id p -> to_right p = packet :: rest ->
  exists direction start len s, try_fast_parse_data packet = Some (direction, id, start, len) /\
    writes_dropped (right p) = false /\ queue_write_span (right p) packet start len = Ok s.
Proof.
  intros [Hl Hr (bodies & Eb & F) _] Hto. edestruct (flow_room extra_right) as (_ & _ & Hroom); [exact Hl|exact Hr|lia|exact F|].
  destruct bodies as [|body bodies]; [by rewrite Eb in Hto|]. rewrite Eb in Hto. injection Hto as <- _. rewrite zlen_cons in Hroom.
  destruct F as [Hb _ _ _ _]. apply Forall_cons in Hb as [[Hb1 Hb2] _].
  destruct (data_packet_roundtrip dir id body Hid) as (start & _ & _ & Hp & _); [unfold MAX_DATA_PACKET in Hb2; lia|].
  exists dir, start, (zlen body). eexists. split_and!; [done|by destruct Hr as [_ _ [_ ?] _ _ _ _ _]|]. unfold queue_write_span.
  rewrite (proj2 (Z.eqb_neq _ 0)), (proj2 (Z.ltb_ge _ _)), (proj2 (Z.leb_gt _ _)) by (pose proof (zlen_nonneg bodies); lia). done.
Qed.

Lemma receive_all p :
  pair_ok dir extra_right extra_left id p -> exists p', rtc pair_step p p' /\ to_right p' = [] /\ left_sent p' = left_sent p.
Proof.
  remember (to_right p) as packets eqn:Hto. revert p Hto. induction packets as [|packet rest IH]; intros p Hto Hp; [by exists p|].
  destruct (can_receive p packet rest Hp) as (d & start & len & s & Hparse & Hdrop & Hq); [done|].
  pose proof (right_acts p _ (act_receive (flip p) packet rest d id start len s (eq_sym Hto) Hparse Hdrop Hq)) as Hstep.
  pose proof (step_ok _ _ _ _ _ _ Hid Hxr Hxl Hp Hstep) as Hp'. edestruct IH as (p' & Hsteps & Hto' & Hs'); [|exact Hp'|]; [done|].
  exists p'. split_and!; [by eapply rtc_l|done|done].
Qed.

Lemma flush_all p :
  pair_ok dir extra_right extra_left id p ->
  exists p', rtc pair_step p p' /\ out (right p') = [] /\ to_right p' = to_right p /\ left_sent p' = left_sent p.
Proof.
  intros [Hl Hr (bodies & Eb & F) _]. edestruct (flow_room extra_right) as (Hroom & _ & _); [exact Hl|exact Hr|lia|exact F|].
  destruct (flush_empties (right p)) as (answers & s & bytes & Hf & Ho); [by destruct Hr|done|].
  eexists. split; [apply rtc_once, (right_acts p), (act_flush (flip p) _ _ _ _ Hf)|]. done.
Qed.

Lemma credit_all p :
  exists p', rtc pair_step p p' /\ credit_due (right p') = false /\ out (right p') = out (right p) /\ to_right p' = to_right p /\
    left_sent p' = left_sent p.
Proof.
  destruct (credit_due (right p)) eqn:Hdue; [|by exists p]. destruct (take_credit (right p)) as [s c] eqn:Ht. unfold take_credit in Ht.
  assert ((credit_bytes (right p) <=? 0) || (credit_packets (right p) <=? 0) = false) as Hpos.
  { unfold credit_due in Hdue. apply andb_true_iff in Hdue as [Hdue _]. apply andb_true_iff in Hdue as [H1 H2].
    apply Z.ltb_lt in H1, H2. apply orb_false_iff. split; apply Z.leb_gt; lia. }
  rewrite Hpos in Ht. eexists. split; [apply rtc_once, (right_acts p), (act_credit (flip p) s (credit_bytes (right p)) (credit_packets (right p))); [done|]|].
  { unfold take_credit. cbn [flip left]. rewrite Hpos. by injection Ht as <- _. }
  injection Ht as <- _. done.
Qed.

Lemma deliver_all p :
  pair_ok dir extra_right extra_left id p ->
  exists p', rtc pair_step p p' /\ credit_left p' = [] /\ right p' = right p /\ to_right p' = to_right p /\ left_sent p' = left_sent p.
Proof.
  remember (credit_left p) as credits eqn:Hc. revert p Hc. induction credits as [|[b k] rest IH]; intros p Hc Hp; [by exists p|].
  assert (credit_ok (b, k)) as [Hb Hk].
  { destruct Hp as [_ _ (bodies & _ & [_ Hcr _ _ _]) _]. rewrite <-Hc in Hcr. by apply Forall_cons in Hcr as [? _]. }
  cbn [fst snd] in Hb, Hk.
  assert (exists d, decode_window (Some (credit_window b k)) = Some d) as [d Hd].
  { unfold decode_window, credit_window, positive. cbn [pw_bytes pw_packets]. rewrite !(proj2 (Z.ltb_lt 0 _)) by lia. by eexists. }
  assert (Hstep : pair_step p _) by (left; by eapply act_delivery).
  pose proof (step_ok _ _ _ _ _ _ Hid Hxr Hxl Hp Hstep) as Hp'. edestruct IH as (p' & Hsteps & H'); [|exact Hp'|]; [done|].
  exists p'. split; [by eapply rtc_l|done].
Qed.

(** With nothing on its way, nothing queued and no credit due, a sender is
    never left waiting. *)
Lemma idle_may_send p :
  pair_ok dir extra_right extra_left id p -> to_right p = [] -> out (right p) = [] -> credit_left p = [] ->
  credit_due (right p) = false -> read_interest (left p) = true.
Proof.
  intros [Hl Hr (bodies & Eb & [_ _ _ Fb Fp]) _] Hto Hout Hcr Hdue. rewrite Hto in Eb. symmetry in Eb. apply map_eq_nil in Eb as ->.
  rewrite Hout, Hcr in Fb, Fp. cbn [bodies_len concat queued_len foldr credit_sum] in Fb, Fp. change (zlen (@nil QueuedBuffer)) with 0 in Fp.
  change (bodies_len []) with 0 in Fb. change (zlen (@nil (list byte))) with 0 in Fp.
  destruct Hl as [_ _ [Hopen Hd] [Hwb Hwp] [Hfb Hfp] _ _ _], Hr as [_ _ _ [Rwb Rwp] _ _ Hratio _].
  apply orb_false_iff in Hd as [Hd _]. apply orb_false_iff in Hd as [_ Hd].
  unfold read_interest, windowed. rewrite Hopen, Hd, Hwb, Hwp. cbn [negb orb]. change (0 <=? WINDOW_BYTES) with true. change (0 <=? WINDOW_PACKETS) with true.
  cbn [negb andb]. apply andb_true_iff.
  unfold credit_due in Hdue. rewrite Rwb, Rwp in Hdue. change (credit_batch WINDOW_BYTES CREDIT_RETURN_THRESHOLD) with 524288 in Hdue.
  change (credit_batch WINDOW_PACKETS PACKET_CREDIT_RETURN_THRESHOLD) with 15 in Hdue. unfold MAX_DATA_PACKET in Hratio.
  assert (credit_bytes (right p) < 524288 /\ credit_packets (right p) < 15) as [? ?].
  { destruct (Z.ltb_spec 0 (credit_bytes (right p))) as [H1|H1]; [|lia]. destruct (Z.ltb_spec 0 (credit_packets (right p))) as [H2|H2]; [|lia].
    cbn [andb] in Hdue. apply orb_false_iff in Hdue as [Hdue _]. apply orb_false_iff in Hdue as [H3 H4]. apply Z.leb_gt in H3, H4. done. }
  unfold WINDOW_BYTES, WINDOW_PACKETS. split; apply Z.ltb_lt; lia.
Qed.
End drain.

(** What a connection promises from left to right. *)
Definition delivers (extra id : Z) (p : Pair) : Prop :=
  right_took p `prefix_of` left_sent p /\
  (to_right p = [] -> out (right p) = [] -> right_took p = left_sent p) /\
  (forall packet rest, to_right p = packet :: rest ->
     exists direction start len s, try_fast_parse_data packet = Some (direction, id, start, len) /\
       queue_write_span (right p) packet start len = Ok s) /\
  queued_len (out (right p)) <= WINDOW_BYTES + extra.

Definition can_finish (p : Pair) : Prop :=
  exists p', rtc pair_step p p' /\ left_sent p' = left_sent p /\ right_took p' = left_sent p /\ read_interest (left p') = true.

Section pair.
Context (dir : bool) (extra_right extra_left id : Z).
Context (Hid : 0 <= id < 2 ^ 31) (Hxr : 0 <= extra_right <= MAX_DATA_PACKET) (Hxl : 0 <= extra_left <= MAX_DATA_PACKET).

Lemma drained_took p :
  pair_ok dir extra_right extra_left id p -> to_right p = [] -> out (right p) = [] -> right_took p = left_sent p.
Proof.
  intros [_ _ (bodies & Eb & [_ _ F _ _]) _] Hto Hout. rewrite Hto in Eb. symmetry in Eb. apply map_eq_nil in Eb as ->.
  rewrite F. unfold contents, contents_at. rewrite Hout. cbn [concat app]. by rewrite app_nil_r.
Qed.

Lemma ok_delivers p : pair_ok dir extra_right extra_left id p -> delivers extra_right id p.
Proof.
  intros Hp. split_and!.
  - destruct Hp as [_ _ (bodies & _ & [_ _ F _ _]) _]. rewrite F. by eexists.
  - by apply drained_took.
  - intros packet rest Hto. destruct (can_receive _ _ _ _ Hid Hxr p packet rest Hp Hto) as (d & start & len & s & H1 & _ & H2).
    by exists d, start, len, s.
  - destruct Hp as [Hl Hr (bodies & _ & F) _]. edestruct (flow_room extra_right) as (_ & H & _); [exact Hl|exact Hr|lia|exact F|done].
Qed.

Lemma ok_can_finish p : pair_ok dir extra_right extra_left id p -> can_finish p.
Proof.
  intros Hp. destruct (receive_all _ _ _ _ Hid Hxr Hxl p Hp) as (p1 & S1 & T1 & L1).
  pose proof (steps_ok _ _ _ _ _ _ Hid Hxr Hxl Hp S1) as Hp1.
  destruct (flush_all _ _ _ _ Hxr p1 Hp1) as (p2 & S2 & O2 & T2 & L2). pose proof (steps_ok _ _ _ _ _ _ Hid Hxr Hxl Hp1 S2) as Hp2.
  destruct (credit_all p2) as (p3 & S3 & D3 & O3 & T3 & L3). pose proof (steps_ok _ _ _ _ _ _ Hid Hxr Hxl Hp2 S3) as Hp3.
  destruct (deliver_all _ _ _ _ Hid Hxr Hxl p3 Hp3) as (p4 & S4 & C4 & R4 & T4 & L4).
  pose proof (steps_ok _ _ _ _ _ _ Hid Hxr Hxl Hp3 S4) as Hp4. rewrite <-R4 in D3, O3.
  exists p4. split_and!; [by do 3 (etrans; [done|])|congruence| |
    eapply idle_may_send; [exact Hp4|congruence|congruence|done|done]].
  rewrite (drained_took p4 Hp4); congruence.
Qed.
End pair.

(** C18: Between two ends with windows, whatever the local sockets, the reads and
    the session do: each end gives its application the bytes the other end's
    application wrote, in order, without loss or repetition; a data packet
    that arrives is never refused for want of room, so none is ever held
    back behind others; and what waits for an application is bounded by the
    window and what was sent before it was counted. *)
Theorem forwarded_stream_sound id source_stream destination_stream early replies p :
  0 <= id < 2 ^ 31 -> zlen early <= MAX_DATA_PACKET -> replies_fresh replies ->
  rtc pair_step (pair_new id source_stream destination_stream early replies) p ->
  delivers (zlen early) id p /\ delivers 0 id (flip p).
Proof.
  intros Hid He Hr Hsteps. pose proof (zlen_nonneg early). assert (0 <= 0 <= MAX_DATA_PACKET) as H0 by done.
  assert (pair_ok true (zlen early) 0 id p) as Hp by (eapply steps_ok; [done|lia|done| |done]; by apply new_ok).
  split; [eapply ok_delivers; [..|exact Hp]; lia|]. apply flip_ok in Hp. eapply ok_delivers; [..|exact Hp]; lia.
Qed.

(** C19: Neither direction ever wedges: from every state the connection can come
    to, receiving, writing to the local sockets and returning the credit that
    is due deliver everything that was read and reopen the sender's window,
    however often credit was held back below the batch. *)
Theorem forwarded_stream_live id source_stream destination_stream early replies p :
  0 <= id < 2 ^ 31 -> zlen early <= MAX_DATA_PACKET -> replies_fresh replies ->
  rtc pair_step (pair_new id source_stream destination_stream early replies) p ->
  can_finish p /\ can_finish (flip p).
Proof.
  intros Hid He Hr Hsteps. pose proof (zlen_nonneg early). assert (0 <= 0 <= MAX_DATA_PACKET) as H0 by done.
  assert (pair_ok true (zlen early) 0 id p) as Hp by (eapply steps_ok; [done|lia|done| |done]; by apply new_ok).
  split; [eapply ok_can_finish; [..|exact Hp]; lia|]. apply flip_ok in Hp. eapply ok_can_finish; [..|exact Hp]; lia.
Qed.

(** A connection whose client sent a byte early and two more once it was made. *)
Definition example_new : Pair := pair_new 1 3 4 [x61] None.
Definition example_read : Pair :=
  mkPair (fst (fst (read_encoded_chunk (left example_new) PIPELINE_CHUNK [ReadBytes [x62; x63]]))) (right example_new)
    [encode_data_packet true 1 [x61]; encode_data_packet true 1 [x62; x63]] [] [] [] [x61; x62; x63] [] [] [].

Lemma example_steps : rtc pair_step example_new example_read.
Proof.
  apply rtc_once. left. change example_read with (mkPair (left example_read) (right example_new)
    (to_right example_new ++ [data_packet (left example_new) [x62; x63]]) (to_left example_new) (credit_right example_new)
    (credit_left example_new) (left_sent example_new ++ [x62; x63]) (right_sent example_new) (left_took example_new) (right_took example_new)).
  by apply (act_read example_new PIPELINE_CHUNK [ReadBytes [x62; x63]] (left example_read) [x62; x63] []).
Qed.

Lemma forwarded_stream_sound_witness : delivers (zlen [x61]) 1 example_read /\ delivers 0 1 (flip example_read).
Proof. by apply (forwarded_stream_sound 1 3 4 [x61] None example_read); [| | |apply example_steps]. Defined.

Lemma forwarded_stream_live_witness : can_finish example_read /\ can_finish (flip example_read).
Proof. by apply (forwarded_stream_live 1 3 4 [x61] None example_read); [| | |apply example_steps]. Defined.
