(* ===== verification/ForwardWorker.v ===== *)
(** * ForwardWorker: the forwarding worker of a session

    [Worker] of [crates/et-net/src/forward_worker.rs] with the handlers of
    [forward_worker_state.rs] and [forward_poll.rs], in the mode in which the
    session's own thread drives it ([Engine]): the parked and connecting
    sockets, the maps of sources and destinations, data held for full sockets
    and the queues of packets for the session. Descriptors are numbers; what
    the kernel answers to reads and writes is part of the state, what the
    worker asks of it goes to a log. The order in which a [HashMap] is walked,
    connecting, and the texts of I/O errors are parameters. *)

From Stdlib Require Import String.
From stdpp Require Import gmap.
From S2P Require Import Prelude Bytes Packet OutputWindow Wire Socks SshAgentBind ForwardSocket ForwardPacket.

(** ** Data *)

Definition MAX_ACTIVE_SOCKETS : Z := 256.
Definition MAX_UNASSIGNED_FDS : Z := 128.
Definition UNASSIGNED_FD_TIMEOUT : Z := 30 * 1000000000.
Definition READS_PER_CYCLE : nat := 128.
Definition ENGINE_OUTBOUND_LIMIT : Z := 256.
Definition ENGINE_OUTBOUND_BYTES : Z := 2 * 1024 * 1024.

Definition PORT_FORWARD_DESTINATION_REQUEST : byte := x05.
Definition PORT_FORWARD_DESTINATION_RESPONSE : byte := x06.
Definition PORT_FORWARD_DATA : byte := x07.

Inductive Endpoint := Tcp (host : list byte) (port : Z) | Unix (path : list byte).

Record PortForwardDestinationRequest := mkRequest {
  rq_destination : option SocketEndpoint;
  rq_fd : option Z;
  rq_window : option PortForwardWindow
}.

Record PortForwardDestinationResponse := mkResponse {
  rs_clientfd : option Z;
  rs_socketid : option Z;
  rs_error : option (list byte);
  rs_window : option PortForwardWindow
}.

Record PortForwardData := mkData {
  sourcetodestination : option bool;
  d_socketid : option Z;
  d_buffer : option (list byte);
  d_error : option (list byte);
  d_closed : option bool;
  d_half_close : option bool;
  d_window : option PortForwardWindow
}.

(** The generated codec. *)
Class ForwardCodec := {
  encode_request : PortForwardDestinationRequest -> list byte;
  decode_request : list byte -> option PortForwardDestinationRequest;
  encode_response : PortForwardDestinationResponse -> list byte;
  decode_response : list byte -> option PortForwardDestinationResponse;
  encode_data : PortForwardData -> list byte;
  decode_data : list byte -> option PortForwardData
}.

Inductive ForwardError := ForwardIo | Protocol (message : list byte) | Unavailable.

(** What the worker asks of the kernel. *)
Inductive Effect :=
| Took (stream : Z) (bytes : list byte)
| Shutdown (stream : Z)
| ShutdownRead (stream : Z)
| ShutdownWrite (stream : Z)
| Closed (stream : Z)
| SocksReply (stream : Z) (bytes : list byte)
| BindsWritten (stream : Z) (bytes : list byte)
| SocksStarted (client_fd stream : Z)
| ListenerRetired (listener : Z).

(** A connection that was accepted and waits for the peer's answer. *)
Record PendingAccept := mkPending {
  pa_stream : Z;
  pa_early : list byte;
  pa_socks_version : option byte;
  pa_half_close_on_eof : bool;
  pa_stdio : bool;
  pa_deadline : Z
}.

Record Worker := mkWorker {
  engine_priority : list Packet;
  engine_outbound : list Packet;
  engine_outbound_bytes : Z;
  fresh_sources : list Z;
  parked : gmap Z PendingAccept;
  connecting : gset Z;
  sources : gmap Z SocketIo;
  destinations : gmap Z SocketIo;
  held : list (Role * Z * list byte);
  pending_windows : gmap Z (option FlowWindow);
  next_socket_id : Z;
  stdio_open : option bool;
  stdio_socket : option Z;
  ssh_agent_socket_path : list byte;
  ssh_agent_session_binds : list (list byte);
  pending_agent_binds : gmap Z (list byte * list (list byte));
  connectors : list (Z * Z * Endpoint);
  abandoned : bool;
  reads : gmap Z (list ReadAnswer);
  writes : gmap Z (list WriteAnswer);
  log : list Effect
}.

Definition set_engine_priority (x : list Packet) (w : Worker) : Worker :=
  mkWorker x (engine_outbound w) (engine_outbound_bytes w) (fresh_sources w) (parked w) (connecting w) (sources w)
    (destinations w) (held w) (pending_windows w) (next_socket_id w) (stdio_open w) (stdio_socket w)
    (ssh_agent_socket_path w) (ssh_agent_session_binds w) (pending_agent_binds w) (connectors w) (abandoned w) (reads
    w) (writes w) (log w).
Definition set_engine_outbound (x : list Packet) (w : Worker) : Worker :=
  mkWorker (engine_priority w) x (engine_outbound_bytes w) (fresh_sources w) (parked w) (connecting w) (sources w)
    (destinations w) (held w) (pending_windows w) (next_socket_id w) (stdio_open w) (stdio_socket w)
    (ssh_agent_socket_path w) (ssh_agent_session_binds w) (pending_agent_binds w) (connectors w) (abandoned w) (reads
    w) (writes w) (log w).
Definition set_engine_outbound_bytes (x : Z) (w : Worker) : Worker :=
  mkWorker (engine_priority w) (engine_outbound w) x (fresh_sources w) (parked w) (connecting w) (sources w)
    (destinations w) (held w) (pending_windows w) (next_socket_id w) (stdio_open w) (stdio_socket w)
    (ssh_agent_socket_path w) (ssh_agent_session_binds w) (pending_agent_binds w) (connectors w) (abandoned w) (reads
    w) (writes w) (log w).
Definition set_fresh_sources (x : list Z) (w : Worker) : Worker :=
  mkWorker (engine_priority w) (engine_outbound w) (engine_outbound_bytes w) x (parked w) (connecting w) (sources w)
    (destinations w) (held w) (pending_windows w) (next_socket_id w) (stdio_open w) (stdio_socket w)
    (ssh_agent_socket_path w) (ssh_agent_session_binds w) (pending_agent_binds w) (connectors w) (abandoned w) (reads
    w) (writes w) (log w).
Definition set_parked (x : gmap Z PendingAccept) (w : Worker) : Worker :=
  mkWorker (engine_priority w) (engine_outbound w) (engine_outbound_bytes w) (fresh_sources w) x (connecting w)
    (sources w) (destinations w) (held w) (pending_windows w) (next_socket_id w) (stdio_open w) (stdio_socket w)
    (ssh_agent_socket_path w) (ssh_agent_session_binds w) (pending_agent_binds w) (connectors w) (abandoned w) (reads
    w) (writes w) (log w).
Definition set_connecting (x : gset Z) (w : Worker) : Worker :=
  mkWorker (engine_priority w) (engine_outbound w) (engine_outbound_bytes w) (fresh_sources w) (parked w) x (sources
    w) (destinations w) (held w) (pending_windows w) (next_socket_id w) (stdio_open w) (stdio_socket w)
    (ssh_agent_socket_path w) (ssh_agent_session_binds w) (pending_agent_binds w) (connectors w) (abandoned w) (reads
    w) (writes w) (log w).
Definition set_sources (x : gmap Z SocketIo) (w : Worker) : Worker :=
  mkWorker (engine_priority w) (engine_outbound w) (engine_outbound_bytes w) (fresh_sources w) (parked w) (connecting
    w) x (destinations w) (held w) (pending_windows w) (next_socket_id w) (stdio_open w) (stdio_socket w)
    (ssh_agent_socket_path w) (ssh_agent_session_binds w) (pending_agent_binds w) (connectors w) (abandoned w) (reads
    w) (writes w) (log w).
Definition set_destinations (x : gmap Z SocketIo) (w : Worker) : Worker :=
  mkWorker (engine_priority w) (engine_outbound w) (engine_outbound_bytes w) (fresh_sources w) (parked w) (connecting
    w) (sources w) x (held w) (pending_windows w) (next_socket_id w) (stdio_open w) (stdio_socket w)
    (ssh_agent_socket_path w) (ssh_agent_session_binds w) (pending_agent_binds w) (connectors w) (abandoned w) (reads
    w) (writes w) (log w).
Definition set_held (x : list (Role * Z * list byte)) (w : Worker) : Worker :=
  mkWorker (engine_priority w) (engine_outbound w) (engine_outbound_bytes w) (fresh_sources w) (parked w) (connecting
    w) (sources w) (destinations w) x (pending_windows w) (next_socket_id w) (stdio_open w) (stdio_socket w)
    (ssh_agent_socket_path w) (ssh_agent_session_binds w) (pending_agent_binds w) (connectors w) (abandoned w) (reads
    w) (writes w) (log w).
Definition set_pending_windows (x : gmap Z (option FlowWindow)) (w : Worker) : Worker :=
  mkWorker (engine_priority w) (engine_outbound w) (engine_outbound_bytes w) (fresh_sources w) (parked w) (connecting
    w) (sources w) (destinations w) (held w) x (next_socket_id w) (stdio_open w) (stdio_socket w)
    (ssh_agent_socket_path w) (ssh_agent_session_binds w) (pending_agent_binds w) (connectors w) (abandoned w) (reads
    w) (writes w) (log w).
Definition set_next_socket_id (x : Z) (w : Worker) : Worker :=
  mkWorker (engine_priority w) (engine_outbound w) (engine_outbound_bytes w) (fresh_sources w) (parked w) (connecting
    w) (sources w) (destinations w) (held w) (pending_windows w) x (stdio_open w) (stdio_socket w)
    (ssh_agent_socket_path w) (ssh_agent_session_binds w) (pending_agent_binds w) (connectors w) (abandoned w) (reads
    w) (writes w) (log w).
Definition set_stdio_open (x : option bool) (w : Worker) : Worker :=
  mkWorker (engine_priority w) (engine_outbound w) (engine_outbound_bytes w) (fresh_sources w) (parked w) (connecting
    w) (sources w) (destinations w) (held w) (pending_windows w) (next_socket_id w) x (stdio_socket w)
    (ssh_agent_socket_path w) (ssh_agent_session_binds w) (pending_agent_binds w) (connectors w) (abandoned w) (reads
    w) (writes w) (log w).
Definition set_stdio_socket (x : option Z) (w : Worker) : Worker :=
  mkWorker (engine_priority w) (engine_outbound w) (engine_outbound_bytes w) (fresh_sources w) (parked w) (connecting
    w) (sources w) (destinations w) (held w) (pending_windows w) (next_socket_id w) (stdio_open w) x
    (ssh_agent_socket_path w) (ssh_agent_session_binds w) (pending_agent_binds w) (connectors w) (abandoned w) (reads
    w) (writes w) (log w).
Definition set_ssh_agent_socket_path (x : list byte) (w : Worker) : Worker :=
  mkWorker (engine_priority w) (engine_outbound w) (engine_outbound_bytes w) (fresh_sources w) (parked w) (connecting
    w) (sources w) (destinations w) (held w) (pending_windows w) (next_socket_id w) (stdio_open w) (stdio_socket w) x
    (ssh_agent_session_binds w) (pending_agent_binds w) (connectors w) (abandoned w) (reads w) (writes w) (log w).
Definition set_ssh_agent_session_binds (x : list (list byte)) (w : Worker) : Worker :=
  mkWorker (engine_priority w) (engine_outbound w) (engine_outbound_bytes w) (fresh_sources w) (parked w) (connecting
    w) (sources w) (destinations w) (held w) (pending_windows w) (next_socket_id w) (stdio_open w) (stdio_socket w)
    (ssh_agent_socket_path w) x (pending_agent_binds w) (connectors w) (abandoned w) (reads w) (writes w) (log w).
Definition set_pending_agent_binds (x : gmap Z (list byte * list (list byte))) (w : Worker) : Worker :=
  mkWorker (engine_priority w) (engine_outbound w) (engine_outbound_bytes w) (fresh_sources w) (parked w) (connecting
    w) (sources w) (destinations w) (held w) (pending_windows w) (next_socket_id w) (stdio_open w) (stdio_socket w)
    (ssh_agent_socket_path w) (ssh_agent_session_binds w) x (connectors w) (abandoned w) (reads w) (writes w) (log w).
Definition set_connectors (x : list (Z * Z * Endpoint)) (w : Worker) : Worker :=
  mkWorker (engine_priority w) (engine_outbound w) (engine_outbound_bytes w) (fresh_sources w) (parked w) (connecting
    w) (sources w) (destinations w) (held w) (pending_windows w) (next_socket_id w) (stdio_open w) (stdio_socket w)
    (ssh_agent_socket_path w) (ssh_agent_session_binds w) (pending_agent_binds w) x (abandoned w) (reads w) (writes w)
    (log w).
Definition set_abandoned (x : bool) (w : Worker) : Worker :=
  mkWorker (engine_priority w) (engine_outbound w) (engine_outbound_bytes w) (fresh_sources w) (parked w) (connecting
    w) (sources w) (destinations w) (held w) (pending_windows w) (next_socket_id w) (stdio_open w) (stdio_socket w)
    (ssh_agent_socket_path w) (ssh_agent_session_binds w) (pending_agent_binds w) (connectors w) x (reads w) (writes
    w) (log w).
Definition set_reads (x : gmap Z (list ReadAnswer)) (w : Worker) : Worker :=
  mkWorker (engine_priority w) (engine_outbound w) (engine_outbound_bytes w) (fresh_sources w) (parked w) (connecting
    w) (sources w) (destinations w) (held w) (pending_windows w) (next_socket_id w) (stdio_open w) (stdio_socket w)
    (ssh_agent_socket_path w) (ssh_agent_session_binds w) (pending_agent_binds w) (connectors w) (abandoned w) x
    (writes w) (log w).
Definition set_writes (x : gmap Z (list WriteAnswer)) (w : Worker) : Worker :=
  mkWorker (engine_priority w) (engine_outbound w) (engine_outbound_bytes w) (fresh_sources w) (parked w) (connecting
    w) (sources w) (destinations w) (held w) (pending_windows w) (next_socket_id w) (stdio_open w) (stdio_socket w)
    (ssh_agent_socket_path w) (ssh_agent_session_binds w) (pending_agent_binds w) (connectors w) (abandoned w) (reads
    w) x (log w).
Definition set_log (x : list Effect) (w : Worker) : Worker :=
  mkWorker (engine_priority w) (engine_outbound w) (engine_outbound_bytes w) (fresh_sources w) (parked w) (connecting
    w) (sources w) (destinations w) (held w) (pending_windows w) (next_socket_id w) (stdio_open w) (stdio_socket w)
    (ssh_agent_socket_path w) (ssh_agent_session_binds w) (pending_agent_binds w) (connectors w) (abandoned w) (reads
    w) (writes w) x.

Definition worker_new (path : list byte) (binds : list (list byte)) : Worker :=
  mkWorker [] [] 0 [] ∅ ∅ ∅ ∅ [] ∅ 1 None None path binds ∅ [] false ∅ ∅ [].

(** ** Endpoints ([forward_endpoint.rs]) *)

Definition endpoint_missing : list byte := bytes_of "endpoint is missing".
Definition endpoint_port_invalid : list byte := bytes_of "endpoint port is invalid".
Definition endpoint_path_absolute : list byte := bytes_of "Unix endpoint path must be absolute".

Definition parse_destination (endpoint : option SocketEndpoint) : result (list byte) Endpoint :=
  match endpoint with
  | None => Err endpoint_missing
  | Some e =>
      match ep_port e with
      | Some port =>
          if (port <=? 0) || (65535 <? port) then Err endpoint_port_invalid
          else
            Ok (Tcp (match ep_name e with
                     | Some name => if contains x00 name then bytes_of "localhost" else name
                     | None => bytes_of "localhost"
                     end) port)
      | None =>
          match ep_name e with
          | Some name =>
              if starts_with (bytes_of "/") name && negb (contains x00 name) then Ok (Unix name) else Err endpoint_path_absolute
          | None => Err endpoint_path_absolute
          end
      end
  end.

(** [other_user]: connecting needs the session's user, who is another one. *)
Definition can_connect_inline (other_user : bool) (e : Endpoint) : bool :=
  if other_user then false
  else
    match e with
    | Tcp host _ =>
        (zlen host =? 0) || eq_ignore_ascii_case host (bytes_of "localhost") || list_eqb host (bytes_of "127.0.0.1")
        || list_eqb host (bytes_of "::1")
    | Unix _ => false
    end.

(** ** The handlers *)

Definition effect (e : Effect) (w : Worker) : Worker := set_log (log w ++ [e]) w.

Definition zsize {A} (m : gmap Z A) : Z := Z.of_nat (size m).

Definition total_sockets (w : Worker) : Z :=
  zsize (parked w) + Z.of_nat (size (connecting w)) + zsize (sources w) + zsize (destinations w).

Definition map_ref (r : Role) (w : Worker) : gmap Z SocketIo :=
  match r with Source => sources w | Destination => destinations w end.
Definition set_map (r : Role) (m : gmap Z SocketIo) (w : Worker) : Worker :=
  match r with Source => set_sources m w | Destination => set_destinations m w end.
(** A socket of a map is changed in place. *)
Definition put (r : Role) (id : Z) (s : SocketIo) (w : Worker) : Worker := set_map r (<[id := s]> (map_ref r w)) w.

Definition outbound_backlog_full (w : Worker) : bool :=
  (ENGINE_OUTBOUND_BYTES <=? engine_outbound_bytes w) || (ENGINE_OUTBOUND_LIMIT <=? zlen (engine_outbound w)).

(** [emit] and [emit_raw] of an engine. *)
Definition emit (header : byte) (body : list byte) (w : Worker) : Worker :=
  let p := new header body in
  set_engine_outbound (engine_outbound w ++ [p]) (set_engine_outbound_bytes (engine_outbound_bytes w + zlen (payload p)) w).

Definition emit_priority (header : byte) (body : list byte) (w : Worker) : Worker :=
  set_engine_priority (engine_priority w ++ [new header body]) w.

Definition clear_stdio (w : Worker) : Worker :=
  let w := set_stdio_socket None w in
  match stdio_open w with Some _ => set_stdio_open (Some false) w | None => w end.

(** Dropping a socket closes its descriptor. *)
Definition remove (r : Role) (id : Z) (w : Worker) : Worker :=
  let w := if bool_decide (r = Source /\ stdio_socket w = Some id) then set_stdio_socket None w else w in
  match map_ref r w !! id with
  | Some s => effect (Closed (stream s)) (set_map r (delete id (map_ref r w)) w)
  | None => w
  end.

Definition apply_window (r : Role) (id : Z) (delivered : FlowWindow) (w : Worker) : Worker :=
  match map_ref r w !! id with Some s => put r id (apply_delivery s delivered) w | None => w end.

Definition set_shutdown_write (b : bool) (s : SocketIo) : SocketIo :=
  set_flags (read_open s) (close_when_drained s) b (write_closed s) (half_close_on_eof s) s.
(** The pending half-close is carried out. *)
Definition close_write (s : SocketIo) : SocketIo :=
  set_flags (read_open s) (close_when_drained s) false true (half_close_on_eof s) s.
Definition start_close (read : bool) (s : SocketIo) : SocketIo :=
  set_flags read true (shutdown_write_when_drained s) (write_closed s) (half_close_on_eof s) s.

Definition peer_half_close (r : Role) (id : Z) (w : Worker) : Worker :=
  match map_ref r w !! id with
  | None => w
  | Some s =>
      let s := set_shutdown_write true s in
      if negb (write_interest s) && negb (write_closed s)
      then effect (ShutdownWrite (stream s)) (put r id (close_write s) w)
      else put r id s w
  end.

Definition admit_data (r : Role) (id : Z) (buffer : list byte) (w : Worker) : Worker :=
  match map_ref r w !! id with
  | None => w
  | Some s =>
      if writes_dropped s then w
      else match queue_write s buffer with
           | Ok s => put r id s w
           | Err buffer => set_held (held w ++ [(r, id, buffer)]) w
           end
  end.

Definition admit_data_span (r : Role) (id : Z) (data : list byte) (start len : Z) (w : Worker) : Worker :=
  match map_ref r w !! id with
  | None => w
  | Some s =>
      if writes_dropped s || (len =? 0) then w
      else if MAX_DATA_PACKET <? len then remove r id w
      else match queue_write_span s data start len with
           | Ok s => put r id s w
           | Err data => set_held (held w ++ [(r, id, slice data start (start + len))]) w
           end
  end.

Fixpoint flush_held_go (entries : list (Role * Z * list byte)) (w : Worker) : Worker :=
  match entries with
  | [] => set_held [] w
  | (r, id, buffer) :: rest =>
      match map_ref r w !! id with
      | Some s =>
          if writes_dropped s then flush_held_go rest w
          else match queue_write s buffer with
               | Ok s => flush_held_go rest (put r id s w)
               | Err buffer => set_held ((r, id, buffer) :: rest) w
               end
      | None => flush_held_go rest w
      end
  end.

Definition flush_held (w : Worker) : Worker := flush_held_go (held w) w.

Section worker.
Context `{ForwardCodec}.
Context (keys : gset Z -> list Z) (nonblocking write_all_ok : Z -> bool) (fionread : Z -> option Z)
  (connect : Endpoint -> result (list byte) Z) (other_user : bool) (error_text : list byte).

Definition send_data (r : Role) (id : Z) (buffer : list byte) (closed : bool) (error : option (list byte)) (w : Worker)
    : Worker :=
  let '(buffer, closed) :=
    match error with
    | Some _ => (None, None)
    | None => if closed then (None, Some true) else (if zlen buffer =? 0 then None else Some buffer, None)
    end in
  emit PORT_FORWARD_DATA
    (encode_data (mkData (Some (bool_decide (r = Source))) (Some id) buffer error closed None None)) w.

Definition send_half_close (r : Role) (id : Z) (w : Worker) : Worker :=
  emit PORT_FORWARD_DATA
    (encode_data (mkData (Some (bool_decide (r = Source))) (Some id) None None (Some true) (Some true) None)) w.

Definition send_credit (r : Role) (id credit packet_credit : Z) (w : Worker) : Worker :=
  emit_priority PORT_FORWARD_DATA
    (encode_data (mkData (Some (bool_decide (r = Source))) (Some id) None None None None
                    (Some (mkPortWindow (Some credit) (Some (Z.min packet_credit (2 ^ 31 - 1))))))) w.

Definition reject_stale_destination (response : PortForwardDestinationResponse) (w : Worker) : Worker :=
  match rs_error response, positive (rs_socketid response) with
  | None, Some id =>
      emit PORT_FORWARD_DATA (encode_data (mkData (Some true) (Some id) None None (Some true) None None)) w
  | _, _ => w
  end.

(** A socket that had the id is dropped. *)
Definition activate (r : Role) (id fd : Z) (window : option FlowWindow) (replies : option AgentSessionBindReplies) (w : Worker)
    : Worker * result ForwardError unit :=
  if nonblocking fd then
    let s := socket_new r id fd window replies in
    let dropped := match map_ref r w !! id with Some s => effect (Closed (stream s)) w | None => w end in
    (put r id s dropped, Ok tt)
  else (effect (Closed fd) w, Err ForwardIo).

Definition accepted (client_fd : Z) (destination : SocketEndpoint) (p : PendingAccept) (w : Worker) : Worker :=
  if (MAX_ACTIVE_SOCKETS <=? total_sockets w) || (MAX_UNASSIGNED_FDS <=? zsize (parked w)) then
    let w := effect (Shutdown (pa_stream p)) w in
    if pa_stdio p then clear_stdio w else w
  else
    emit PORT_FORWARD_DESTINATION_REQUEST
      (encode_request (mkRequest (Some destination) (Some client_fd) (Some advertised_window)))
      (set_parked (<[client_fd := p]> (parked w)) w).

Definition binds_failed : list byte := bytes_of "could not send ssh agent session binding".

(** The stream of [connected], with the bindings of the agent sent first. *)
Definition start_destination (id : Z) (outcome : result (list byte) Z) (binds : option (list byte * list (list byte)))
    (advertised : option FlowWindow) (w : Worker) : Worker * result ForwardError (option (list byte)) :=
  match outcome with
  | Err text => (w, Ok (Some text))
  | Ok fd =>
      match binds with
      | Some (_, bodies) =>
          match bind_requests bodies with
          | Some bytes =>
              if (zlen bodies =? 0) || write_all_ok fd then
                let (w, r) := activate Destination id fd advertised (Some (replies_new (zlen bodies)))
                                (effect (BindsWritten fd bytes) w) in
                (w, match r with Ok _ => Ok None | Err e => Err e end)
              else (effect (Closed fd) w, Ok (Some binds_failed))
          | None => (effect (Closed fd) w, Ok (Some binds_failed))
          end
      | None =>
          let (w, r) := activate Destination id fd advertised None w in
          (w, match r with Ok _ => Ok None | Err e => Err e end)
      end
  end.

Definition connected (client_fd id : Z) (outcome : result (list byte) Z) (advertised : option FlowWindow) (w : Worker)
    : Worker * result ForwardError unit :=
  let w := set_connecting (connecting w ∖ {[ id ]}) w in
  let binds := pending_agent_binds w !! id in
  let w := set_pending_agent_binds (delete id (pending_agent_binds w)) w in
  match start_destination id outcome binds advertised w with
  | (w, Err e) => (w, Err e)
  | (w, Ok error) =>
      let ok := match error with None => true | Some _ => false end in
      (emit PORT_FORWARD_DESTINATION_RESPONSE
         (encode_response
            (mkResponse (Some client_fd) (if ok then Some id else None) error
               (if ok && bool_decide (is_Some advertised) then Some advertised_window else None))) w, Ok tt)
  end.

Definition allocate_socket_id (w : Worker) : Worker * result ForwardError Z :=
  let id := next_socket_id w in
  if id + 1 <? 2 ^ 31 then (set_next_socket_id (id + 1) w, Ok id)
  else (w, Err (Protocol (bytes_of "forwarding socket id exhausted"))).

Definition recorded_binds_for (destination : Endpoint) (w : Worker) : option (list byte * list (list byte)) :=
  let '(is_tcp, name) := match destination with Tcp _ _ => (true, None) | Unix path => (false, Some path) end in
  binds_for_destination (ssh_agent_socket_path w) (ssh_agent_session_binds w) is_tcp name.

Definition request_destination (request : PortForwardDestinationRequest) (w : Worker) : Worker * result ForwardError unit :=
  match positive (rq_fd request) with
  | None => (w, Err (Protocol (bytes_of "destination request fd is invalid")))
  | Some client_fd =>
      let advertised := decode_window (rq_window request) in
      match parse_destination (rq_destination request) with
      | Err text => connected client_fd 0 (Err text) advertised w
      | Ok destination =>
          if MAX_ACTIVE_SOCKETS <=? total_sockets w
          then connected client_fd 0 (Err (bytes_of "forwarding socket limit reached")) advertised w
          else
            match allocate_socket_id w with
            | (w, Err e) => (w, Err e)
            | (w, Ok id) =>
                let binds := recorded_binds_for destination w in
                if can_connect_inline other_user destination && bool_decide (binds = None)
                then connected client_fd id (connect destination) advertised w
                else
                  let w := set_connecting (connecting w ∪ {[ id ]}) w in
                  let w := set_pending_windows (<[id := advertised]> (pending_windows w)) w in
                  let w := match binds with
                           | Some b => set_pending_agent_binds (<[id := b]> (pending_agent_binds w)) w
                           | None => w
                           end in
                  (set_connectors (connectors w ++ [(client_fd, id, destination)]) w, Ok tt)
            end
      end
  end.

Definition write_socks_reply (fd : Z) (version : option byte) (success : bool) (w : Worker) : Worker :=
  match version with Some v => effect (SocksReply fd (socks_connect_reply v success)) w | None => w end.

(** A parked connection whose destination could not be had. *)
Definition refuse_parked (p : PendingAccept) (w : Worker) : Worker :=
  let w := effect (Shutdown (pa_stream p)) (write_socks_reply (pa_stream p) (pa_socks_version p) false w) in
  if pa_stdio p then clear_stdio w else w.

Definition set_half_close_on_eof (b : bool) (s : SocketIo) : SocketIo :=
  set_flags (read_open s) (close_when_drained s) (shutdown_write_when_drained s) (write_closed s) b s.

Definition destination_response (response : PortForwardDestinationResponse) (w : Worker) : Worker * result ForwardError unit :=
  match rs_clientfd response with
  | None => (w, Ok tt)
  | Some client_fd =>
      match parked w !! client_fd with
      | None => (reject_stale_destination response w, Ok tt)
      | Some p =>
          let w := set_parked (delete client_fd (parked w)) w in
          match rs_error response, positive (rs_socketid response) with
          | Some _, _ | None, None => (refuse_parked p w, Ok tt)
          | None, Some id =>
              let advertised := decode_window (rs_window response) in
              let w := write_socks_reply (pa_stream p) (pa_socks_version p) true w in
              let w := if zlen (pa_early p) =? 0 then w else send_data Source id (pa_early p) false None w in
              match activate Source id (pa_stream p) advertised None w with
              | (w, Err e) => (w, Err e)
              | (w, Ok _) =>
                  let w :=
                    match sources w !! id with
                    | Some s =>
                        set_fresh_sources (fresh_sources w ++ [id])
                          (put Source id (set_half_close_on_eof (pa_half_close_on_eof p) s) w)
                    | None => w
                    end in
                  (if pa_stdio p then set_stdio_socket (Some id) w else w, Ok tt)
              end
          end
      end
  end.

Definition peer_closed (r : Role) (id : Z) (w : Worker) : Worker :=
  match map_ref r w !! id with
  | None => w
  | Some _ =>
      let w := send_data r id [] true None w in
      match map_ref r w !! id with
      | Some s =>
          let s := start_close false s in
          if write_interest s then effect (ShutdownRead (stream s)) (put r id s w) else remove r id (put r id s w)
      | None => remove r id w
      end
  end.

Definition receive_data (data : PortForwardData) (w : Worker) : Worker :=
  let id := unwrap_or 0 (d_socketid data) in
  let buffer := unwrap_or [] (d_buffer data) in
  let r := if unwrap_or false (sourcetodestination data) then Destination else Source in
  let closed := unwrap_or false (d_closed data) in
  let half_close := unwrap_or false (d_half_close data) in
  match d_error data with
  | Some _ => remove r id w
  | None =>
      let '(w, credit_only) :=
        match decode_window (d_window data) with
        | Some delivered => (apply_window r id delivered w, (zlen buffer =? 0) && negb closed && negb half_close)
        | None => (w, false)
        end in
      if credit_only then w
      else if bool_decide (r = Destination) && half_close then peer_half_close r id w
      else if closed then peer_closed r id w
      else if zlen buffer =? 0 then w
      else if MAX_DATA_PACKET <? zlen buffer then remove r id w
      else admit_data r id buffer w
  end.

Definition handle_packet (p : Packet) (w : Worker) : Worker * result ForwardError unit :=
  if beq (header p) PORT_FORWARD_DESTINATION_REQUEST then
    match decode_request (payload p) with
    | Some request => request_destination request w
    | None => (w, Err (Protocol (bytes_of "malformed destination request")))
    end
  else if beq (header p) PORT_FORWARD_DESTINATION_RESPONSE then
    match decode_response (payload p) with
    | Some response => destination_response response w
    | None => (w, Err (Protocol (bytes_of "malformed destination response")))
    end
  else if beq (header p) PORT_FORWARD_DATA then
    match try_fast_parse_data (payload p) with
    | Some (source_to_dest, id, start, len) =>
        let r := if source_to_dest then Destination else Source in
        (if len =? 0 then w
         else if MAX_DATA_PACKET <? len then remove r id w
         else admit_data_span r id (payload p) start len w, Ok tt)
    | None =>
        match decode_data (payload p) with
        | Some data => (receive_data data w, Ok tt)
        | None => (w, Err (Protocol (bytes_of "malformed forwarding data")))
        end
    end
  else (w, Err (Protocol (bytes_of "unsupported forwarding packet"))).

Definition read_closed (r : Role) (id : Z) (w : Worker) : Worker :=
  match map_ref r w !! id with
  | None => w
  | Some s =>
      if close_when_drained s then w
      else if half_close_on_eof s then
        send_half_close r id
          (put r id (set_flags false (close_when_drained s) (shutdown_write_when_drained s) (write_closed s) false s) w)
      else
        let s := set_flags false (close_when_drained s) (shutdown_write_when_drained s) (write_closed s) (half_close_on_eof s) s in
        let w := send_data r id [] true None (put r id s w) in
        let s := start_close false s in
        if write_interest s then put r id s w else remove r id (put r id s w)
  end.

(** Credit that is due, in the order the map is walked. *)
Definition return_credit (r : Role) (w : Worker) (id : Z) : Worker :=
  match map_ref r w !! id with
  | None => w
  | Some s =>
      match take_credit s with
      | (s, Some (credit, packet_credit)) => send_credit r id credit packet_credit (put r id s w)
      | (_, None) => w
      end
  end.

Definition due_credits (r : Role) (w : Worker) : list Z :=
  filter (fun id => is_some_and credit_due (map_ref r w !! id) = true) (keys (dom (map_ref r w))).

Definition flush_due_credits (w : Worker) : Worker :=
  let w := foldl (return_credit Source) w (due_credits Source w) in
  foldl (return_credit Destination) w (due_credits Destination w).

(** [flush_out] against what the kernel answers. *)
Definition flush_socket (s : SocketIo) (w : Worker) : SocketIo * bool * Worker :=
  let '(s', bytes, ok, more) := flush_out s (unwrap_or [] (writes w !! stream s)) in
  (s', ok, effect (Took (stream s) bytes) (set_writes (<[stream s := more]> (writes w)) w)).

Record ReadySocket := mkReady { e_role : Role; e_socket_id : Z; readable : bool; writable : bool; error : bool }.

Inductive SocketVerdict := Keep | DropSocket | LocalEof.

(** The loop over the reads of a socket; [None] when it ends without a
    verdict. *)
Fixpoint read_socket (n : nat) (split : option (Z * Z)) (s : SocketIo) (w : Worker)
    : SocketIo * Worker * option SocketVerdict :=
  match n with
  | O => (s, w, None)
  | S n =>
      if negb (read_interest s) || outbound_backlog_full w then (s, w, None)
      else
        let read_len := match split with
                        | None => PIPELINE_CHUNK
                        | Some (bytes, len) => if 0 <? bytes then len else FORWARD_READ_LEN
                        end in
        let '(s', outcome, more) := read_encoded_chunk s read_len (unwrap_or [] (reads w !! stream s)) in
        let w := set_reads (<[stream s := more]> (reads w)) w in
        match outcome with
        | Data bytes =>
            let body := data_packet s' bytes in
            let split := match split with
                         | None => if last_read_full s' then pipelined_split (fionread (stream s)) else (0, FORWARD_READ_LEN)
                         | Some (bytes, len) => (sat_sub bytes (zlen body), len)
                         end in
            let w := emit PORT_FORWARD_DATA body w in
            if zlen body <=? 4096 then (s', w, None) else read_socket n (Some split) s' w
        | Idle => (s', w, None)
        | Eof => (s', w, Some LocalEof)
        | ReadError => (s', send_data (role s') (socket_id s') [] true (Some error_text) w, Some DropSocket)
        end
  end.

Definition socket_error : list byte := bytes_of "forwarded socket error".

(** A pending half-close is carried out when everything is written. *)
Definition finish_half_close (s : SocketIo) (w : Worker) : SocketIo * Worker :=
  if shutdown_write_when_drained s && negb (write_closed s) then (close_write s, effect (ShutdownWrite (stream s)) w) else (s, w).

Definition service_socket (s : SocketIo) (e : ReadySocket) (w : Worker) : SocketIo * Worker * SocketVerdict :=
  let '(s, ok, w) := if writable e || (error e && write_interest s) then flush_socket s w else (s, true, w) in
  if negb ok then (s, send_data (role s) (socket_id s) [] true (Some error_text) w, DropSocket)
  else if negb (write_interest s) && close_when_drained s then (s, w, DropSocket)
  else
    let '(s, w) := if write_interest s then (s, w) else finish_half_close s w in
    if error e && negb (readable e)
    then (s, send_data (role s) (socket_id s) [] true (Some socket_error) w, DropSocket)
    else
      let '(s, w, verdict) := if readable e then read_socket READS_PER_CYCLE None s w else (s, w, None) in
      match verdict with
      | Some v => (s, w, v)
      | None => if close_when_drained s && negb (write_interest s) then (s, w, DropSocket) else (s, w, Keep)
      end.

Definition service_event (e : ReadySocket) (w : Worker) : Worker :=
  match map_ref (e_role e) w !! e_socket_id e with
  | None => w
  | Some s =>
      let '(s, w, verdict) := service_socket s e w in
      let w := put (e_role e) (e_socket_id e) s w in
      match verdict with
      | Keep => w
      | DropSocket => remove (e_role e) (e_socket_id e) w
      | LocalEof => read_closed (e_role e) (e_socket_id e) w
      end
  end.

(** ** Writing out what was queued *)

(** The sockets with something to write. *)
Definition unwritten (w : Worker) : list (Role * Z) :=
  let ids r := map (fun id => (r, id))
    (filter (fun id => is_some_and write_interest (map_ref r w !! id) = true)
       (keys (dom (map_ref r w)))) in
  ids Source ++ ids Destination.

Definition write_queued (ws : Worker * bool) (entry : Role * Z) : Worker * bool :=
  let '(w, progressed) := ws in
  let '(r, id) := entry in
  match map_ref r w !! id with
  | None => (w, progressed)
  | Some s =>
      let '(s', ok, w) := flush_socket s w in
      let progressed := progressed || negb (bool_decide (zlen (out s') = zlen (out s) /\ out_offset s' = out_offset s)) in
      if negb ok then (remove r id (send_data r id [] true (Some error_text) (put r id s' w)), progressed)
      else
        let '(s', credit) := if negb (write_interest s') && credit_due s' then take_credit s' else (s', None) in
        let credited w := match credit with Some (c, p) => send_credit r id c p w | None => w end in
        if negb (write_interest s') && close_when_drained s' then (remove r id (credited (put r id s' w)), progressed)
        else
          let '(s', w) := if write_interest s' then (s', w) else finish_half_close s' w in
          (credited (put r id s' w), progressed)
  end.

Fixpoint flush_queued_go (fuel : nat) (w : Worker) : option Worker :=
  match fuel with
  | O => None
  | S fuel =>
      let w := flush_held w in
      match unwritten w with
      | [] => Some w
      | entries =>
          let '(w, progressed) := foldl write_queued (w, false) entries in
          if negb progressed || bool_decide (held w = []) then Some w else flush_queued_go fuel w
      end
  end.

(** What the kernel will still take bounds the rounds. *)
Definition write_turns (w : Worker) : nat := map_fold (fun _ answers n => (length answers + n)%nat) 0%nat (writes w).

Definition flush_queued_writes (w : Worker) : option Worker := flush_queued_go (S (write_turns w)) w.

(** ** Timers, the end *)

Definition expire_one (w : Worker) (client_fd : Z) : Worker :=
  match parked w !! client_fd with
  | None => w
  | Some p =>
      let w := effect (Shutdown (pa_stream p)) (set_parked (delete client_fd (parked w)) w) in
      if pa_stdio p then clear_stdio w else w
  end.

Definition expire_parked (now : Z) (w : Worker) : Worker :=
  foldl expire_one w
    (filter (fun fd => is_some_and (fun p => pa_deadline p <=? now) (parked w !! fd) = true) (keys (dom (parked w)))).

Definition next_park_deadline (w : Worker) : option Z :=
  map_fold (fun _ p m => Some (match m with Some t => Z.min t (pa_deadline p) | None => pa_deadline p end)) None (parked w).

(** [stop_sockets(true)] and [finish(true)]. *)
Definition abort_sockets (w : Worker) : Worker :=
  let lost := negb (bool_decide (held w = [])) || negb (bool_decide (unwritten w = [])) in
  let streams r := omap (fun id => stream <$> map_ref r w !! id) (keys (dom (map_ref r w))) in
  let w := set_held [] (set_abandoned (abandoned w || lost) w) in
  let w := foldl (fun w fd => effect (Shutdown fd) w) w (streams Source ++ streams Destination) in
  set_sources ∅ (set_destinations ∅ w).

Definition finish_hard (w : Worker) : Worker :=
  let streams := omap (fun fd => pa_stream <$> parked w !! fd) (keys (dom (parked w))) in
  abort_sockets (foldl (fun w fd => effect (Shutdown fd) w) (set_parked ∅ w) streams).

(** ** Commands *)

Inductive Command :=
| PacketCommand (p : Packet)
| AcceptedCommand (client_fd : Z) (destination : SocketEndpoint) (stream : Z) (early : list byte)
    (socks_version : option byte) (half_close_on_eof stdio : bool)
| ConnectedCommand (client_fd id : Z) (outcome : result (list byte) Z)
| SetSshAgentSessionBinds (path : list byte) (binds : list (list byte)).

Definition park (now fd : Z) (early : list byte) (version : option byte) (half_close stdio : bool) : PendingAccept :=
  mkPending fd early version half_close stdio (now + UNASSIGNED_FD_TIMEOUT).

Definition handle_command (now : Z) (c : Command) (w : Worker) : Worker * result ForwardError unit :=
  match c with
  | PacketCommand p => handle_packet p w
  | AcceptedCommand client_fd destination fd early version half_close stdio =>
      (accepted client_fd destination (park now fd early version half_close stdio) w, Ok tt)
  | ConnectedCommand client_fd id outcome =>
      let advertised := unwrap_or None (pending_windows w !! id) in
      connected client_fd id outcome advertised (set_pending_windows (delete id (pending_windows w)) w)
  | SetSshAgentSessionBinds path binds => (set_ssh_agent_session_binds binds (set_ssh_agent_socket_path path w), Ok tt)
  end.
End worker.
