(* ===== verification/ForwardEngine.v ===== *)
(** * ForwardEngine: the worker driven by the session's thread

    [Engine] of [crates/et-net/src/forward_poll.rs]: what the session calls
    before and after its poll ([collect], [service]), for packets that came
    ([receive]) and for packets to send ([pop_outbound]). What the command
    queue gave when it was drained, what a poll reported and what listeners
    accepted are arguments. *)

From Stdlib Require Import String.
From stdpp Require Import gmap.
From S2P Require Import Prelude Bytes Packet Socks SshAgentBind ForwardSocket ForwardPacket ForwardWorker.

(** ** Data *)

Record Engine := mkEngine {
  worker : Worker;
  failed : bool;
  en_error : option ForwardError;
  next_client_fd : Z
}.

Definition set_worker (w : Worker) (e : Engine) : Engine := mkEngine w (failed e) (en_error e) (next_client_fd e).

Definition engine_new (w : Worker) (next_client_fd : Z) : Engine := mkEngine w false None next_client_fd.

(** What draining the command queue gave: nothing to do, the commands, or
    that the queue is shut down. *)
Inductive Drained := NoCommands | Batch (commands : list Command) | Gone.

(** What a poll reports of a descriptor. *)
Record Revents := mkRevents { ev_in : bool; ev_out : bool; ev_hup : bool; ev_error : bool }.

Definition revents_empty (e : Revents) : bool := negb (ev_in e || ev_out e || ev_hup e || ev_error e).

Definition ready_socket (r : Role) (id : Z) (e : Revents) : ReadySocket :=
  mkReady r id (ev_in e || ev_hup e) (ev_out e) (ev_error e).

(** A connection taken off a listener. *)
Record AcceptedStream := mkAccepted { ac_listener : Z; ac_destination : SocketEndpoint; ac_socks : bool; ac_stream : Z }.

(** A descriptor of the poll set, and what [accept_streams] would take off a
    listener that is ready. *)
Inductive EngineFd :=
| WakeFd
| ListenerFd (listener : Z) (ready : list AcceptedStream)
| SocketFd (r : Role) (id stream : Z) (reading writing : bool).

(** [i32] arithmetic of the shared counter. *)
Definition fetch_add_i32 (v : Z) : Z := to_signed 32 ((v + 1) mod 2 ^ 32).

Section engine.
Context `{ForwardCodec}.
Context (keys : gset Z -> list Z) (nonblocking write_all_ok : Z -> bool) (fionread : Z -> option Z)
  (connect : Endpoint -> result (list byte) Z) (other_user : bool) (error_text : list byte).

Notation handle_packet := (handle_packet nonblocking write_all_ok connect other_user).
Notation handle_command := (handle_command nonblocking write_all_ok connect other_user).
Notation service_event := (service_event fionread error_text).
Notation flush_queued_writes := (flush_queued_writes keys error_text).
Notation flush_due_credits := (flush_due_credits keys).

(** [guard]: a failure of the step tears the engine down. *)
Definition guard {A} (step : Engine -> Engine * result ForwardError A) (e : Engine) : Engine * result ForwardError A :=
  if failed e then (e, Err Unavailable)
  else
    match step e with
    | (e, Err error) => (mkEngine (finish_hard keys (worker e)) true (en_error e) (next_client_fd e), Err error)
    | (e, Ok a) => (e, Ok a)
    end.

Definition flush_writes (w : Worker) : Worker := unwrap_or w (flush_queued_writes w).

(** Sources activated by the packets handled, last first. *)
Definition read_fresh_sources (w : Worker) : Worker :=
  foldl (fun w id => service_event (mkReady Source id true false false) w) (set_fresh_sources [] w) (rev (fresh_sources w)).

Fixpoint handle_commands (now : Z) (commands : list Command) (w : Worker) : Worker * result ForwardError unit :=
  match commands with
  | [] => (w, Ok tt)
  | c :: commands =>
      match handle_command now c w with
      | (w, Ok _) => handle_commands now commands w
      | (w, Err e) => (w, Err e)
      end
  end.

Definition drain_commands (now : Z) (d : Drained) (w : Worker) : Worker * result ForwardError unit :=
  match d with
  | NoCommands => (read_fresh_sources w, Ok tt)
  | Gone => (w, Err Unavailable)
  | Batch commands =>
      match handle_commands now commands w with
      | (w, Err e) => (w, Err e)
      | (w, Ok _) => (read_fresh_sources (match commands with [] => w | _ => flush_writes w end), Ok tt)
      end
  end.

(** A step on the worker alone. *)
Definition on_worker (f : Worker -> Worker * result ForwardError unit) (e : Engine) : Engine * result ForwardError unit :=
  let (w, r) := f (worker e) in (set_worker w e, r).

Definition queued (e : Engine) : bool :=
  negb (bool_decide (engine_priority (worker e) = [])) || negb (bool_decide (engine_outbound (worker e) = [])).

Definition has_outbound (e : Engine) : bool := failed e || queued e.

Definition record (error : ForwardError) (e : Engine) : Engine :=
  match en_error e with None => mkEngine (worker e) (failed e) (Some error) (next_client_fd e) | Some _ => e end.

(** Poll interest; nothing is read while the backlog is full. *)
Definition socket_fds (r : Role) (reads : bool) (w : Worker) : list EngineFd :=
  omap (fun id => (fun s => SocketFd r id (stream s) (reads && read_interest s) (write_interest s)) <$> map_ref r w !! id)
    (keys (dom (map_ref r w))).

Definition collect (now : Z) (d : Drained) (listeners : list EngineFd) (e : Engine) : Engine * list EngineFd * option Z :=
  match guard (on_worker (fun w =>
    match drain_commands now d w with
    | (w, Err error) => (w, Err error)
    | (w, Ok _) => (flush_due_credits (flush_held (expire_parked keys now w)), Ok tt)
    end)) e with
  | (e, Err error) => (record error e, [], Some now)
  | (e, Ok _) =>
      let w := worker e in
      let reads := negb (outbound_backlog_full w) in
      (e, [WakeFd] ++ (if reads then listeners else []) ++ socket_fds Source reads w ++ socket_fds Destination reads w,
       if has_outbound e then Some now else next_park_deadline w)
  end.

(** The counter is advanced even when it is exhausted. *)
Definition admit_accepted (now : Z) (a : AcceptedStream) (e : Engine) : Engine :=
  let client_fd := next_client_fd e in
  let e := mkEngine (worker e) (failed e) (en_error e) (fetch_add_i32 client_fd) in
  let w := worker e in
  if client_fd <=? 0 then set_worker (effect (ListenerRetired (ac_listener a)) (effect (Shutdown (ac_stream a)) w)) e
  else if ac_socks a then set_worker (effect (SocksStarted client_fd (ac_stream a)) w) e
  else set_worker (accepted client_fd (ac_destination a) (park now (ac_stream a) [] None false false) w) e.

(** One ready descriptor; a socket that was replaced since the poll set was
    built is left alone. *)
Definition service_fd (now : Z) (e : Engine) (entry : EngineFd * Revents) : Engine :=
  let '(fd, revents) := entry in
  if revents_empty revents then e
  else
    match fd with
    | WakeFd => e
    | ListenerFd _ ready =>
        if outbound_backlog_full (worker e) then e else foldl (fun e a => admit_accepted now a e) e ready
    | SocketFd r id fd _ _ =>
        if is_some_and (fun s => stream s =? fd) (map_ref r (worker e) !! id)
        then set_worker (service_event (ready_socket r id revents) (worker e)) e
        else e
    end.

Definition service (now : Z) (d : Drained) (polled : list (EngineFd * Revents)) (e : Engine)
    : Engine * result ForwardError unit :=
  guard (fun e =>
    match on_worker (drain_commands now d) e with
    | (e, Err error) => (e, Err error)
    | (e, Ok _) =>
        let e := foldl (service_fd now) e polled in
        (set_worker (flush_due_credits (worker e)) e, Ok tt)
    end) e.

(** The packets of the session, until the backlog is full: the worker, the
    packets left, and whether any was handled. *)
Fixpoint receive_packets (bounded : bool) (queue : list Packet) (handled : bool) (w : Worker)
    : Worker * list Packet * result ForwardError bool :=
  if bounded && outbound_backlog_full w then (w, queue, Ok handled)
  else
    match queue with
    | [] => (w, [], Ok handled)
    | p :: queue =>
        match handle_packet p w with
        | (w, Err e) => (w, queue, Err e)
        | (w, Ok _) => receive_packets bounded queue true w
        end
    end.

Definition receive (now : Z) (d : Drained) (queue : list Packet) (bounded : bool) (e : Engine)
    : Engine * result ForwardError (list Packet) :=
  guard (fun e =>
    match on_worker (drain_commands now d) e with
    | (e, Err error) => (e, Err error)
    | (e, Ok _) =>
        match receive_packets bounded queue false (worker e) with
        | (w, _, Err error) => (set_worker w e, Err error)
        | (w, queue, Ok handled) => (set_worker (if handled then read_fresh_sources (flush_writes w) else w) e, Ok queue)
        end
    end) e.

(** Credit first. *)
Definition pop_outbound (e : Engine) : Engine * option (result ForwardError Packet) :=
  let w := worker e in
  match engine_priority w, engine_outbound w with
  | p :: rest, _ => (set_worker (set_engine_priority rest w) e, Some (Ok p))
  | [], p :: rest =>
      (set_worker (set_engine_outbound rest (set_engine_outbound_bytes (sat_sub (engine_outbound_bytes w) (zlen (payload p))) w)) e,
       Some (Ok p))
  | [], [] =>
      if failed e
      then (mkEngine w true None (next_client_fd e), Some (Err (unwrap_or Unavailable (en_error e))))
      else (e, None)
  end.

(** [finish(true)]: whether anything was abandoned. *)
Definition engine_finish (e : Engine) : Engine * bool :=
  let lost := queued e in
  let w := set_engine_priority [] (set_engine_outbound [] (set_engine_outbound_bytes 0 (worker e))) in
  let e := if failed e then set_worker w e else mkEngine (finish_hard keys w) true (en_error e) (next_client_fd e) in
  (e, lost || abandoned (worker e)).
End engine.
