(* ===== verification/ForwardOrder.v ===== *)
(** * ForwardOrder: the order of data from a peer without windows

    Data for a socket waits in its queue and, when that is full, in [held]
    until [flush_held] moves it. This file runs the engine against a peer
    that sends without a window and shows where the two lose the order. It
    also has the documented wire format of the packets of forwarding as an
    instance of their codec. *)

From Stdlib Require Import String.
From stdpp Require Import gmap.
From S2P Require Import Prelude Bytes Packet Recovery Wire Socks ClientEnvironment SshAgentBind.
From S2P Require Import ForwardSocket ForwardPacket ForwardWorker ForwardEngine.

(** ** The wire format *)

Definition int_field (n : Z) (v : option Z) : list field := opt_varint n ((fun v => v mod 2 ^ 64) <$> v).
Definition message_field (n : Z) (fs : option (list field)) : list field := opt_bytes n (encode_fields <$> fs).

Definition get_int (n : Z) (fs : list field) : option Z := (fun v => to_signed 32 (v mod 2 ^ 32)) <$> get_varint n fs.
Definition get_int64 (n : Z) (fs : list field) : option Z := (fun v => to_signed 64 v) <$> get_varint n fs.
Definition get_message {A} (decode : list field -> A) (n : Z) (fs : list field) : option (option A) :=
  match get_bytes n fs with
  | Some bytes => (fun fs => Some (decode fs)) <$> parse_fields bytes
  | None => Some None
  end.

Definition window_fields (w : PortForwardWindow) : list field := int_field 1 (pw_bytes w) ++ int_field 2 (pw_packets w).
Definition window_of (fs : list field) : PortForwardWindow := mkPortWindow (get_int64 1 fs) (get_int 2 fs).
Definition endpoint_of (fs : list field) : SocketEndpoint := mkEndpoint (get_bytes 1 fs) (get_int 2 fs).

Definition decode_fields {A} (decode : list field -> option A) (bytes : list byte) : option A :=
  match parse_fields bytes with Some fs => decode fs | None => None end.

#[export] Instance wire_forward : ForwardCodec := {
  encode_request r :=
    encode_fields (message_field 1 (endpoint_fields <$> rq_destination r) ++ int_field 2 (rq_fd r) ++
                   message_field 3 (window_fields <$> rq_window r));
  decode_request := decode_fields (fun fs =>
    match get_message endpoint_of 1 fs, get_message window_of 3 fs with
    | Some e, Some w => Some (mkRequest e (get_int 2 fs) w)
    | _, _ => None
    end);
  encode_response r :=
    encode_fields (int_field 1 (rs_clientfd r) ++ int_field 2 (rs_socketid r) ++ opt_bytes 3 (rs_error r) ++
                   message_field 4 (window_fields <$> rs_window r));
  decode_response := decode_fields (fun fs =>
    match get_message window_of 4 fs with
    | Some w => Some (mkResponse (get_int 1 fs) (get_int 2 fs) (get_bytes 3 fs) w)
    | None => None
    end);
  encode_data d :=
    encode_fields (opt_bool 1 (sourcetodestination d) ++ int_field 2 (d_socketid d) ++ opt_bytes 3 (d_buffer d) ++
                   opt_bytes 4 (d_error d) ++ opt_bool 5 (d_closed d) ++ opt_bool 6 (d_half_close d) ++
                   message_field 7 (window_fields <$> d_window d));
  decode_data := decode_fields (fun fs =>
    match get_message window_of 7 fs with
    | Some w => Some (mkData (get_bool 1 fs) (get_int 2 fs) (get_bytes 3 fs) (get_bytes 4 fs) (get_bool 5 fs) (get_bool 6 fs) w)
    | None => None
    end)
}.

(** ** A run against a peer without windows *)

(** What a descriptor took. *)
Definition took (fd : Z) (l : list Effect) : list byte :=
  concat (map (fun e => match e with Took fd' bytes => if fd' =? fd then bytes else [] | _ => [] end) l).

Section run.
Let keys : gset Z -> list Z := elements.
Let yes (_ : Z) : bool := true.
Let unknown (_ : Z) : option Z := None.
Let connect7 (_ : Endpoint) : result (list byte) Z := Ok 7.

Definition run_receive (queue : list Packet) (e : Engine) : Engine :=
  fst (receive keys yes yes unknown connect7 false [] 0 NoCommands queue false e).
Definition run_collect (e : Engine) : Engine :=
  fst (fst (collect keys yes yes unknown connect7 false [] 0 NoCommands [] e)).
Definition run_service (e : Engine) : Engine :=
  fst (service keys yes yes unknown connect7 false [] 0 NoCommands
         [(SocketFd Destination 1 7 true true, mkRevents false true false false)] e).
(** The application reads again. *)
Definition run_unblock (e : Engine) : Engine :=
  set_worker (set_reads ∅ (set_writes {[ 7 := repeat (Wrote 1000) 20 ]} (worker e))) e.

(** A legacy peer asks for a destination, without a window. *)
Definition legacy_request : Packet :=
  new PORT_FORWARD_DESTINATION_REQUEST (encode_request (mkRequest (Some (mkEndpoint None (Some 80))) (Some 3) None)).
Definition legacy_data (i : Z) : Packet := new PORT_FORWARD_DATA (encode_data_packet true 1 [z2b i]).
Definition legacy_close : Packet :=
  new PORT_FORWARD_DATA (encode_data (mkData (Some true) (Some 1) None None (Some true) None None)).

Definition run_start : Engine := engine_new (worker_new [] []) 1.
(** 130 packets come while the application does not read. *)
Definition run_full : Engine := run_collect (run_receive (legacy_request :: map legacy_data (seqZ 1 130)) run_start).
(** It reads, and one more packet comes. *)
Definition run_more : Engine := run_receive [legacy_data 131] (run_service (run_unblock run_full)).
(** The peer closes, and the application reads everything. *)
Definition run_closed : Engine := run_service (run_unblock (run_collect (run_receive [legacy_close] run_full))).
End run.

(** C36: Packets 1 to 131 come in order from a peer without a window; when the
    application reads again before the last one, that one is written ahead of
    the two that were held since the queue was full. *)
Theorem legacy_data_overtaken : took 7 (log (worker run_more)) = map z2b (seqZ 1 128 ++ [131; 129; 130]).
Proof. vm_compute. reflexivity. Qed.

(** C37: When the peer closes behind packet 130 instead, the two packets that were
    held are lost, although they came before the close. *)
Theorem legacy_close_loses :
  took 7 (log (worker run_closed)) = map z2b (seqZ 1 128) /\ destinations (worker run_closed) = ∅ /\ held (worker run_full) = [(Destination, 1, [z2b 129]); (Destination, 1, [z2b 130])].
Proof. split_and!; vm_compute; reflexivity. Qed.
