(* ===== verification/ForwardInvariant.v ===== *)
(** * ForwardInvariant: what every state of the forwarding worker satisfies

    The invariant of [ForwardWorker] and [ForwardEngine]: the limits on
    sockets, the shape of the sockets and of what is held for them, the ids,
    and the count of the bytes that wait for the session; and that every call
    of the engine keeps it, whatever the peer sends. *)

From Stdlib Require Import String.
From stdpp Require Import gmap.
From S2P Require Import Prelude Bytes Packet OutputWindow Recovery Wire Socks SshAgentBind.
From S2P Require Import ForwardSocket ForwardPacket ForwardWorker ForwardEngine ForwardOrder.

(** ** Sockets *)

Record sock_ok (r : Role) (id : Z) (s : SocketIo) : Prop := mkSockOk {
  so_role : role s = r;
  so_id : socket_id s = id;
  so_ok : socket_ok s;
  so_bind : bind_ok s
}.

Lemma clamp_nonneg x : 0 <= x -> 0 <= i64_clamp x.
Proof. unfold i64_clamp, i64_min, i64_max. lia. Qed.

Lemma new_sock r id fd window replies :
  match replies with Some p => replies_ok p | None => True end -> sock_ok r id (socket_new r id fd window replies).
Proof. intros Hr. by split; [| |split|]. Qed.

Lemma flags_sock r id s a b c d e : sock_ok r id s -> sock_ok r id (set_flags a b c d e s).
Proof. intros [? ? [? ? ? ? ?] ?]. by split; [| |split|]. Qed.

Lemma push_sock r id s b :
  sock_ok r id s -> buffer_ok b -> zlen (out s) < OUT_QUEUE_PACKETS -> sock_ok r id (set_out (out s ++ [b]) (out_offset s) s).
Proof.
  intros [? ? [Hb Ho Hc ? ?] ?] Hbuf Hlt. split; [done|done| |done].
  split; cbn [set_out out out_offset]; [by apply Forall_app_2; [|constructor]| |rewrite zlen_app; change (zlen [b]) with 1; lia|done|done].
  destruct Hbuf as (? & ? & ?). destruct (out s); cbn in Ho |- *; [lia|done].
Qed.

Lemma queue_write_sock r id s buffer s' :
  sock_ok r id s -> 0 < zlen buffer <= MAX_DATA_PACKET -> queue_write s buffer = Ok s' -> sock_ok r id s'.
Proof.
  intros Hs Hb. unfold queue_write. destruct (Z.leb_spec OUT_QUEUE_PACKETS (zlen (out s))); [done|]. intros [= <-].
  apply push_sock; [done| |done]. unfold buffer_ok. cbn [q_start q_len q_data]. lia.
Qed.

Lemma queue_span_sock r id s data start len s' :
  sock_ok r id s -> 0 <= start -> 0 <= len -> start + len <= zlen data -> queue_write_span s data start len = Ok s' -> sock_ok r id s'.
Proof.
  intros Hs H1 H2 H3. unfold queue_write_span. destruct (Z.eqb_spec len 0); [by intros [= <-]|].
  destruct (Z.ltb_spec MAX_DATA_PACKET len); [done|]. destruct (Z.leb_spec OUT_QUEUE_PACKETS (zlen (out s))); [done|]. cbn [orb].
  intros [= <-]. apply push_sock; [done| |done]. unfold buffer_ok. cbn [q_start q_len q_data]. lia.
Qed.

Lemma delivery_sock r id s d : sock_ok r id s -> sock_ok r id (apply_delivery s d).
Proof.
  intros [? ? [? ? ? ? [Hf1 Hf2]] ?]. split; [done|done| |done]. split; try done. unfold apply_delivery.
  cbn [set_in_flight in_flight_bytes in_flight_packets]. do 2 case_match; lia.
Qed.

Lemma credit_sock r id s s' c : sock_ok r id s -> take_credit s = (s', c) -> sock_ok r id s'.
Proof. unfold take_credit. intros [? ? [? ? ? ? ?] ?]. case_match; intros [= <- <-]; by split; [| |split|]. Qed.

Lemma pop_front_sock r id s front rest : sock_ok r id s -> out s = front :: rest -> sock_ok r id (pop_front front rest s).
Proof.
  intros [Hr Hi [Hb Ho Hc [Hc1 Hc2] Hf] Hbind] Hout. rewrite Hout in Hb, Hc. apply Forall_cons in Hb as [(? & ? & ?) Hb]. rewrite zlen_cons in Hc.
  assert (offset_ok rest 0) by (destruct rest as [|b rest]; [done|]; apply Forall_cons in Hb as [(? & ? & ?) _]; cbn; lia).
  unfold pop_front. cbv zeta. case_match; (split; [done|done| |done]); split; cbn [set_credit set_out out out_offset credit_bytes credit_packets]; try done; try lia.
  split; apply clamp_nonneg; unfold i64_max; lia.
Qed.

Lemma pop_written_sock r id bufs s written :
  out s = bufs -> sock_ok r id s -> 0 <= written -> sock_ok r id (pop_written bufs s written).
Proof.
  revert s written. induction bufs as [|front rest IH]; intros s written Hout Hs Hw; cbn [pop_written]; [done|].
  destruct (Z.leb_spec written 0); [done|]. cbv zeta.
  assert (offset_ok (out s) (out_offset s)) as Ho by (by destruct Hs as [_ _ [_ ? _ _ _] _]). rewrite Hout in Ho. cbn in Ho.
  destruct (Z.leb_spec (q_len front - out_offset s) written).
  - apply IH; [unfold pop_front; cbv zeta; by case_match|by apply pop_front_sock|lia].
  - destruct Hs as [? ? [Hb _ Hc ? ?] ?]. split; [done|done| |done]. rewrite Hout in Hb, Hc. split; cbn [set_out out out_offset]; try done. cbn. lia.
Qed.

Lemma flush_sock r id s answers s' bytes ok more :
  sock_ok r id s -> flush_out s answers = (s', bytes, ok, more) -> sock_ok r id s'.
Proof.
  revert s bytes ok. induction answers as [|a answers IH]; intros s bytes ok Hs; cbn [flush_out].
  { by destruct (out s); intros [= <- _ _ _]. }
  destruct (out s) as [|front rest] eqn:Hout; [by intros [= <- _ _ _]|]. destruct a as [n| |]; [|by apply IH|by intros [= <- _ _ _]].
  destruct (ztake n (offered s)) as [|b bs] eqn:Ht; [by intros [= <- _ _ _]|].
  destruct (flush_out (pop_written _ s _) answers) as [[[s1 more1] ok1] left1] eqn:Hf. intros [= <- _ _ <-].
  eapply IH, Hf. apply pop_written_sock; [done|done|apply zlen_nonneg].
Qed.

Lemma read_sock r id s len answers s' o more :
  sock_ok r id s -> 0 <= len -> read_encoded_chunk s len answers = (s', o, more) -> sock_ok r id s'.
Proof.
  intros [Hr Hi [? ? ? ? [Hf1 Hf2]] Hbind] Hlen. unfold read_encoded_chunk. cbv zeta. destruct (Z.eqb_spec (read_limit s len) 0); [by intros [= <- _ _]|].
  intros Hread. apply read_loop_spec in Hread as (replies & full & Hb & Ho); [|unfold read_limit; case_match; lia|done].
  assert (sock_ok r id (set_read replies full s)) as Hset by (by split; [| |split|]).
  destruct o as [bytes| | |]; [|by subst..]. destruct Ho as (_ & _ & ->). unfold note_sent. case_match; [done|].
  destruct Hset as [? ? [? ? ? ? ?] ?]. split; [done|done| |done]. split; try done.
  cbn [set_in_flight set_read in_flight_bytes in_flight_packets]. pose proof (zlen_nonneg bytes). split; apply clamp_nonneg; unfold i64_max; lia.
Qed.

(** Where the buffer of a data packet is. *)
Lemma usize_offset bytes offset acc shift v o :
  0 <= acc -> 0 <= shift -> decode_varint_usize bytes offset acc shift = Some (v, o) -> 0 <= v /\ offset <= o.
Proof.
  revert offset acc shift. induction bytes as [|b bytes IH]; intros offset acc shift Ha Hs; [done|]. cbn [decode_varint_usize].
  destruct (64 <=? shift); [done|]. cbv zeta. set (acc' := Z.lor _ _).
  assert (0 <= acc').
  { apply Z.lor_nonneg. split; [done|]. apply Z.mod_pos_bound. lia. }
  case_match; [intros [= <- <-]; lia|]. intros Hgo. apply IH in Hgo; lia.
Qed.

Lemma u32_offset bytes offset acc shift v o : decode_varint_u32 bytes offset acc shift = Some (v, o) -> offset <= o.
Proof.
  revert offset acc shift. induction bytes as [|b bytes IH]; intros offset acc shift; [done|]. cbn [decode_varint_u32].
  destruct (32 <=? shift); [done|]. cbv zeta. case_match; [done|]. case_match; [intros [= <- <-]; lia|]. intros Hgo. apply IH in Hgo. lia.
Qed.

Lemma fast_parse_span packet d id start len :
  try_fast_parse_data packet = Some (d, id, start, len) -> 0 <= start /\ 0 <= len /\ start + len = zlen packet.
Proof.
  intros Hp. apply fast_parse_inv in Hp as (rest & offset & v & rest' & _ & E32 & _ & _ & Eu & Hlen).
  apply u32_offset in E32. apply usize_offset in Eu; [|lia..]. lia.
Qed.

(** ** The worker *)

Definition held_ok (h : Role * Z * list byte) : Prop := 0 < zlen (snd h) <= MAX_DATA_PACKET.

Definition payload_bytes (ps : list Packet) : Z := foldr (fun p n => zlen (payload p) + n) 0 ps.

Record worker_ok (w : Worker) : Prop := mkWorkerOk {
  wo_total : total_sockets w <= MAX_ACTIVE_SOCKETS;
  wo_parked : zsize (parked w) <= MAX_UNASSIGNED_FDS;
  wo_sockets : forall r id s, map_ref r w !! id = Some s -> sock_ok r id s;
  wo_held : Forall held_ok (held w);
  wo_bytes : engine_outbound_bytes w = payload_bytes (engine_outbound w);
  wo_next : 1 <= next_socket_id w < 2 ^ 31;
  wo_ids : forall id, id ∈ connecting w \/ id ∈ dom (destinations w) -> 1 <= id < next_socket_id w;
  wo_apart : connecting w ## dom (destinations w)
}.

(** What the invariant reads of a worker. *)
Lemma worker_ok_ext w w' :
  worker_ok w -> parked w' = parked w -> connecting w' = connecting w -> sources w' = sources w ->
  destinations w' = destinations w -> held w' = held w -> engine_outbound_bytes w' = engine_outbound_bytes w ->
  engine_outbound w' = engine_outbound w -> next_socket_id w' = next_socket_id w -> worker_ok w'.
Proof.
  intros [Ht Hp Hs Hh Hb Hn Hi Ha] E1 E2 E3 E4 E5 E6 E7 E8. unfold total_sockets in Ht.
  split; unfold total_sockets; rewrite ?E1, ?E2, ?E3, ?E4, ?E5, ?E6, ?E7, ?E8; try done.
  intros r. destruct r; cbn [map_ref]; rewrite ?E3, ?E4; [apply (Hs Source)|apply (Hs Destination)].
Qed.

Lemma effect_ok e w : worker_ok w -> worker_ok (effect e w).
Proof. intros Hw. by apply (worker_ok_ext w). Qed.

Lemma payload_bytes_app a b : payload_bytes (a ++ b) = payload_bytes a + payload_bytes b.
Proof. unfold payload_bytes. induction a as [|p a IH]; cbn [app foldr]; lia. Qed.

Lemma emit_ok h body w : worker_ok w -> worker_ok (emit h body w).
Proof.
  intros [Ht Hp Hs Hh Hb Hn Hi Ha]. split; try done. cbn [emit set_engine_outbound set_engine_outbound_bytes engine_outbound engine_outbound_bytes].
  rewrite payload_bytes_app, Hb. cbn [payload_bytes foldr]. lia.
Qed.

Lemma emit_priority_ok h body w : worker_ok w -> worker_ok (emit_priority h body w).
Proof. intros Hw. by apply (worker_ok_ext w). Qed.

Lemma clear_stdio_ok w : worker_ok w -> worker_ok (clear_stdio w).
Proof. intros Hw. unfold clear_stdio. case_match; by apply (worker_ok_ext w). Qed.

Lemma set_held_ok h w : worker_ok w -> Forall held_ok h -> worker_ok (set_held h w).
Proof. intros [Ht Hp Hs Hh Hb Hn Hi Ha] Hh'. by split. Qed.

Lemma map_ref_set r r' m w : map_ref r (set_map r' m w) = if decide (r = r') then m else map_ref r w.
Proof. by destruct r, r'. Qed.

Lemma zsize_insert {A} (m : gmap Z A) k v : zsize (<[k := v]> m) <= zsize m + 1 /\ (is_Some (m !! k) -> zsize (<[k := v]> m) = zsize m).
Proof.
  unfold zsize. rewrite map_size_insert. split; [case_match; unfold id; lia|]. intros [x ->]. done.
Qed.

Lemma zsize_delete {A} (m : gmap Z A) k : zsize (delete k m) <= zsize m /\ (is_Some (m !! k) -> zsize (delete k m) = zsize m - 1).
Proof.
  unfold zsize. rewrite map_size_delete. split; [case_match; unfold id; lia|]. intros [x Hx]. rewrite Hx.
  assert (size m <> 0%nat); [|lia]. intros H0. apply map_size_empty_inv in H0. subst m. by rewrite lookup_empty in Hx.
Qed.

Lemma zsize_empty {A} : zsize (∅ : gmap Z A) = 0.
Proof. unfold zsize. by rewrite map_size_empty. Qed.

(** A socket that is there is changed. *)
Lemma put_ok r id s w : worker_ok w -> is_Some (map_ref r w !! id) -> sock_ok r id s -> worker_ok (put r id s w).
Proof.
  intros [Ht Hp Hs Hh Hb Hn Hi Ha] Hsome Hsock. pose proof (zsize_insert (map_ref r w) id s) as [_ Hsize]. specialize (Hsize Hsome).
  assert (Hdom : dom (<[id := s]> (map_ref r w)) = dom (map_ref r w)).
  { rewrite dom_insert_L. apply elem_of_dom in Hsome. set_solver. }
  unfold put. split; try (by destruct r).
  - unfold total_sockets in *. destruct r; cbn [set_map set_sources set_destinations sources destinations connecting parked map_ref] in *; lia.
  - intros r' id' s'. rewrite map_ref_set. destruct (decide (r' = r)) as [->|]; [|by apply Hs].
    destruct (decide (id' = id)) as [->|Hne]; [rewrite lookup_insert_eq; by intros [= <-]|]. rewrite lookup_insert_ne by done. by apply Hs.
  - intros id'. destruct r; cbn [set_map set_sources set_destinations destinations connecting next_socket_id map_ref] in *; [by apply Hi|].
    rewrite Hdom. apply Hi.
  - destruct r; cbn [set_map set_sources set_destinations destinations connecting map_ref] in *; [done|]. by rewrite Hdom.
Qed.

Lemma put_lookup r id s w : map_ref r (put r id s w) !! id = Some s.
Proof. unfold put. rewrite map_ref_set, decide_True by done. apply lookup_insert_eq. Qed.

Lemma put_is_Some r id s w : is_Some (map_ref r (put r id s w) !! id).
Proof. rewrite put_lookup. by eexists. Qed.

Lemma delete_ok r id w : worker_ok w -> worker_ok (set_map r (delete id (map_ref r w)) w).
Proof.
  intros [Ht Hp Hs Hh Hb Hn Hi Ha]. pose proof (zsize_delete (map_ref r w) id) as [Hsize _].
  split; try (by destruct r).
  - unfold total_sockets in *. destruct r; cbn [set_map set_sources set_destinations sources destinations connecting parked map_ref] in *; lia.
  - intros r' id' s'. rewrite map_ref_set. destruct (decide (r' = r)) as [->|]; [|by apply Hs].
    intros Hl. apply lookup_delete_Some in Hl as [_ Hl]. by apply Hs.
  - intros id'. destruct r; cbn [set_map set_sources set_destinations destinations connecting next_socket_id map_ref] in *; [by apply Hi|].
    rewrite dom_delete_L. intros H'. apply Hi. set_solver.
  - destruct r; cbn [set_map set_sources set_destinations destinations connecting map_ref] in *; [done|]. rewrite dom_delete_L. set_solver.
Qed.

Lemma remove_ok r id w : worker_ok w -> worker_ok (remove r id w).
Proof.
  intros Hw. unfold remove. set (w' := if bool_decide _ then _ else _).
  assert (worker_ok w') by (unfold w'; case_match; [by apply (worker_ok_ext w)|done]).
  destruct (map_ref r w' !! id); [|done]. by apply effect_ok, delete_ok.
Qed.

Create HintDb forward.
#[export] Hint Resolve effect_ok emit_ok emit_priority_ok clear_stdio_ok remove_ok put_ok flags_sock delivery_sock put_is_Some : forward.
#[export] Hint Extern 1 (is_Some (map_ref _ _ !! _)) => (eexists; eassumption) : forward.

Lemma apply_window_ok r id d w : worker_ok w -> worker_ok (apply_window r id d w).
Proof.
  intros Hw. unfold apply_window. destruct (map_ref r w !! id) as [s|] eqn:Hs; [|done].
  pose proof (wo_sockets _ Hw _ _ _ Hs). eauto with forward.
Qed.

Lemma half_close_ok r id w : worker_ok w -> worker_ok (peer_half_close r id w).
Proof.
  intros Hw. unfold peer_half_close. destruct (map_ref r w !! id) as [s|] eqn:Hs; [|done].
  pose proof (wo_sockets _ Hw _ _ _ Hs). cbv zeta. unfold close_write, set_shutdown_write. case_match; eauto 8 with forward.
Qed.

Lemma admit_ok r id buffer w : worker_ok w -> 0 < zlen buffer <= MAX_DATA_PACKET -> worker_ok (admit_data r id buffer w).
Proof.
  intros Hw Hb. unfold admit_data. destruct (map_ref r w !! id) as [s|] eqn:Hs; [|done]. case_match; [done|].
  pose proof (wo_sockets _ Hw _ _ _ Hs). destruct (queue_write s buffer) as [s'|b'] eqn:Hq.
  - apply put_ok; [done|by eexists|by eapply queue_write_sock].
  - apply set_held_ok; [done|]. apply Forall_app_2; [apply Hw|]. constructor; [|done].
    unfold queue_write in Hq. case_match; [|done]. by injection Hq as <-.
Qed.

Lemma admit_span_ok r id data start len w :
  worker_ok w -> 0 <= start -> 0 <= len -> start + len <= zlen data -> worker_ok (admit_data_span r id data start len w).
Proof.
  intros Hw H1 H2 H3. unfold admit_data_span. destruct (map_ref r w !! id) as [s|] eqn:Hs; [|done].
  pose proof (wo_sockets _ Hw _ _ _ Hs). destruct (writes_dropped s); [done|]. cbn [orb]. destruct (Z.eqb_spec len 0); [done|].
  destruct (Z.ltb_spec MAX_DATA_PACKET len); [by apply remove_ok|]. destruct (queue_write_span s data start len) as [s'|d'] eqn:Hq.
  - apply put_ok; [done|by eexists|]. by eapply queue_span_sock, Hq.
  - apply set_held_ok; [done|]. apply Forall_app_2; [apply Hw|]. constructor; [|done]. unfold held_ok. cbn [snd].
    unfold queue_write_span in Hq. case_match; [done|]. case_match; [|done]. injection Hq as <-. rewrite zlen_slice by lia. lia.
Qed.

Lemma flush_held_ok w : worker_ok w -> worker_ok (flush_held w).
Proof.
  intros Hw. unfold flush_held. pose proof (wo_held _ Hw) as Hh. revert Hh. generalize (held w) as entries. intros entries. revert w Hw.
  induction entries as [|[[r id] buffer] entries IH]; intros w Hw Hh; cbn [flush_held_go]; [by apply set_held_ok|].
  apply Forall_cons in Hh as [Hb Hh]. destruct (map_ref r w !! id) as [s|] eqn:Hs; [|by apply IH]. case_match; [by apply IH|].
  destruct (queue_write s buffer) as [s'|b'] eqn:Hq.
  - apply IH; [|done]. apply put_ok; [done|by eexists|]. eapply queue_write_sock; [by apply (wo_sockets _ Hw)|done|done].
  - apply set_held_ok; [done|]. constructor; [|done]. unfold queue_write in Hq. case_match; [|done]. by injection Hq as <-.
Qed.

(** ** The handlers *)

Section handlers.
Context `{ForwardCodec}.
Context (keys : gset Z -> list Z) (nonblocking write_all_ok : Z -> bool) (fionread : Z -> option Z)
  (connect : Endpoint -> result (list byte) Z) (other_user : bool) (error_text : list byte).

Notation handle_packet := (handle_packet nonblocking write_all_ok connect other_user).
Notation handle_command := (handle_command nonblocking write_all_ok connect other_user).
Notation service_event := (service_event fionread error_text).

Lemma send_data_emit r id buffer closed error w : exists body, send_data r id buffer closed error w = emit PORT_FORWARD_DATA body w.
Proof. unfold send_data. repeat case_match; by eexists. Qed.

Lemma emit_map r h body w : map_ref r (emit h body w) = map_ref r w.
Proof. by destruct r. Qed.

Lemma send_data_ok r id buffer closed error w : worker_ok w -> worker_ok (send_data r id buffer closed error w).
Proof. intros Hw. unfold send_data. by repeat case_match; apply emit_ok. Qed.
Hint Resolve send_data_ok : forward.

Lemma peer_closed_ok r id w : worker_ok w -> worker_ok (peer_closed r id w).
Proof.
  intros Hw. unfold peer_closed. destruct (map_ref r w !! id) as [s0|] eqn:Hs0; [|done].
  assert (worker_ok (send_data r id [] true None w)) as Hw' by eauto with forward.
  destruct (map_ref r (send_data r id [] true None w) !! id) as [s|] eqn:Hs; [|by apply remove_ok].
  pose proof (wo_sockets _ Hw' _ _ _ Hs). unfold start_close. cbv zeta. case_match; eauto 8 with forward.
Qed.

Lemma receive_data_ok data w : worker_ok w -> worker_ok (receive_data data w).
Proof.
  intros Hw. unfold receive_data. cbv zeta. destruct (d_error data); [by apply remove_ok|].
  set (r := if unwrap_or false (sourcetodestination data) then Destination else Source). set (id := unwrap_or 0 (d_socketid data)).
  destruct (match decode_window (d_window data) with Some _ => _ | None => _ end) as [w1 credit] eqn:Hc.
  assert (worker_ok w1) as Hw1.
  { destruct (decode_window (d_window data)); injection Hc as <- <-; [by apply apply_window_ok|done]. }
  clear Hc. destruct credit; [done|]. case_match; [by apply half_close_ok|]. case_match; [by apply peer_closed_ok|].
  destruct (Z.eqb_spec (zlen (unwrap_or [] (d_buffer data))) 0); [done|].
  destruct (Z.ltb_spec MAX_DATA_PACKET (zlen (unwrap_or [] (d_buffer data)))); [by apply remove_ok|].
  apply admit_ok; [done|]. pose proof (zlen_nonneg (unwrap_or [] (d_buffer data))). lia.
Qed.

Lemma accepted_ok client_fd destination p w : worker_ok w -> worker_ok (accepted client_fd destination p w).
Proof.
  intros Hw. unfold accepted. destruct (Z.leb_spec MAX_ACTIVE_SOCKETS (total_sockets w)); cbn [orb]; [case_match; eauto with forward|].
  destruct (Z.leb_spec MAX_UNASSIGNED_FDS (zsize (parked w))); [case_match; eauto with forward|]. apply emit_ok.
  destruct Hw as [Ht Hp Hs Hh Hb Hn Hi Ha]. pose proof (zsize_insert (parked w) client_fd p) as [Hsize _].
  split; try done; unfold total_sockets in *; cbn [set_parked parked connecting sources destinations]; lia.
Qed.

(** A socket becomes active: there is room for it, and a destination's id is
    not used. *)
Lemma activate_ok r id fd window replies w w' e :
  worker_ok w -> match replies with Some p => replies_ok p | None => True end ->
  total_sockets w < MAX_ACTIVE_SOCKETS -> (r = Destination -> 1 <= id < next_socket_id w /\ id ∉ connecting w) ->
  activate nonblocking r id fd window replies w = (w', e) -> worker_ok w'.
Proof.
  intros Hw Hrep Hroom Hid. unfold activate. destruct (nonblocking fd); intros [= <- <-]; [|by apply effect_ok].
  set (w0 := match map_ref r w !! id with Some s => _ | None => w end).
  assert (worker_ok w0) as Hw0 by (unfold w0; destruct (map_ref r w !! id); [by apply effect_ok|done]).
  assert (map_ref r w0 = map_ref r w /\ total_sockets w0 = total_sockets w /\ next_socket_id w0 = next_socket_id w /\ connecting w0 = connecting w)
    as (Em & Et & En & Ec) by (unfold w0; destruct (map_ref r w !! id); by destruct r).
  pose proof (new_sock r id fd window replies Hrep) as Hsock. destruct Hw0 as [Ht Hp Hs Hh Hb Hn Hi Ha].
  pose proof (zsize_insert (map_ref r w0) id (socket_new r id fd window replies)) as [Hsize _]. unfold put.
  split; try (by destruct r).
  - unfold total_sockets in *. destruct r; cbn [set_map set_sources set_destinations sources destinations connecting parked map_ref] in *; lia.
  - intros r' id' s'. rewrite map_ref_set. destruct (decide (r' = r)) as [->|]; [|by apply Hs].
    destruct (decide (id' = id)) as [->|Hne]; [rewrite lookup_insert_eq; by intros [= <-]|]. rewrite lookup_insert_ne by done. by apply Hs.
  - intros id'. destruct r; cbn [set_map set_sources set_destinations destinations connecting next_socket_id map_ref] in *; [by apply Hi|].
    rewrite dom_insert_L, En. destruct (Hid eq_refl) as [Hid1 _]. rewrite elem_of_union, elem_of_singleton. rewrite <-En in *. naive_solver.
  - destruct r; cbn [set_map set_sources set_destinations destinations connecting map_ref] in *; [done|].
    rewrite dom_insert_L. destruct (Hid eq_refl) as [_ Hid2]. rewrite <-Ec in Hid2. set_solver.
Qed.

Lemma forget_connecting_ok id w : worker_ok w -> worker_ok (set_connecting (connecting w ∖ {[ id ]}) w).
Proof.
  intros [Ht Hp Hs Hh Hb Hn Hi Ha]. split; try done.
  - unfold total_sockets in *. cbn [set_connecting connecting parked sources destinations].
    pose proof (subseteq_size (connecting w ∖ {[id]}) (connecting w) ltac:(set_solver)). lia.
  - intros id' Hin. apply Hi. cbn [set_connecting connecting destinations] in Hin. set_solver.
  - cbn [set_connecting connecting destinations]. set_solver.
Qed.

Lemma forget_connecting_room id w :
  id ∈ connecting w -> total_sockets (set_connecting (connecting w ∖ {[ id ]}) w) = total_sockets w - 1.
Proof.
  intros Hin. unfold total_sockets. cbn [set_connecting connecting parked sources destinations].
  assert (size (connecting w) = S (size (connecting w ∖ {[id]}))); [|lia].
  rewrite size_difference, size_singleton by set_solver. assert (size (connecting w) <> 0%nat); [|lia].
  intros H0. apply size_empty_inv in H0. set_solver.
Qed.

Lemma start_destination_ok id outcome binds advertised w w' e :
  worker_ok w -> (is_ok outcome = true -> 1 <= id < next_socket_id w /\ id ∉ connecting w /\ total_sockets w < MAX_ACTIVE_SOCKETS) ->
  start_destination nonblocking write_all_ok id outcome binds advertised w = (w', e) -> worker_ok w'.
Proof.
  intros Hw Hok. unfold start_destination. destruct outcome as [fd|text]; [|by intros [= <- _]].
  destruct (Hok eq_refl) as (Hid & Hnew & Hroom). destruct binds as [[path bodies]|].
  - destruct (bind_requests bodies) as [bytes|]; [|intros [= <- _]; by apply effect_ok].
    destruct (_ || _); [|intros [= <- _]; by apply effect_ok].
    destruct (activate _ Destination id fd advertised _ _) as [w1 r] eqn:Ha. intros [= <- _].
    eapply activate_ok, Ha; [by apply effect_ok| |done|done]. split; [cbn; len_lia|by unfold incomplete].
  - destruct (activate _ Destination id fd advertised None w) as [w1 r] eqn:Ha. intros [= <- _]. by eapply activate_ok, Ha.
Qed.

Lemma connected_ok client_fd id outcome advertised w w' e :
  worker_ok w -> (is_ok outcome = true -> 1 <= id < next_socket_id w /\ (id ∈ connecting w \/ total_sockets w < MAX_ACTIVE_SOCKETS)) ->
  connected nonblocking write_all_ok client_fd id outcome advertised w = (w', e) -> worker_ok w'.
Proof.
  intros Hw Hok. unfold connected. set (w0 := set_connecting _ w). set (w1 := set_pending_agent_binds _ w0). cbv zeta.
  assert (worker_ok w1) as Hw1 by (apply (worker_ok_ext w0); [by apply forget_connecting_ok|done..]).
  destruct (start_destination _ _ id outcome _ advertised w1) as [w2 r] eqn:Hs.
  assert (worker_ok w2) as Hw2.
  { eapply start_destination_ok, Hs; [done|]. intros Hout. destruct (Hok Hout) as (Hid & Hin). split; [done|]. split; [cbn; set_solver|].
    change (total_sockets w0 < MAX_ACTIVE_SOCKETS). destruct (decide (id ∈ connecting w)) as [Hin'|Hout'].
    - unfold w0. rewrite forget_connecting_room by done. pose proof (wo_total _ Hw). lia.
    - destruct Hin as [|Hroom]; [done|]. unfold w0. replace (connecting w ∖ {[id]}) with (connecting w) by set_solver. done. }
  destruct r as [error|err]; intros [= <- _]; [by apply emit_ok|done].
Qed.

Lemma request_ok request w w' e :
  worker_ok w -> request_destination nonblocking write_all_ok connect other_user request w = (w', e) -> worker_ok w'.
Proof.
  intros Hw. unfold request_destination. destruct (positive (rq_fd request)) as [client_fd|]; [|by intros [= <- _]].
  destruct (parse_destination (rq_destination request)) as [destination|text]; [|by apply connected_ok].
  destruct (Z.leb_spec MAX_ACTIVE_SOCKETS (total_sockets w)) as [|Hroom]; [by apply connected_ok|].
  unfold allocate_socket_id. destruct (Z.ltb_spec (next_socket_id w + 1) (2 ^ 31)) as [Hnext|]; [|by intros [= <- _]].
  set (id := next_socket_id w). set (w1 := set_next_socket_id (id + 1) w). pose proof (wo_next _ Hw) as Hn.
  assert (worker_ok w1) as Hw1.
  { destruct Hw as [Ht Hp Hs Hh Hb _ Hi Ha]. split; try done; [cbn; lia|]. intros id' Hin. cbn [w1 set_next_socket_id next_socket_id].
    specialize (Hi id' Hin). unfold id. lia. }
  assert (id ∉ connecting w1 /\ id ∉ dom (destinations w1)) as [Hf1 Hf2].
  { split; intros Hin; [pose proof (wo_ids _ Hw id (or_introl Hin))|pose proof (wo_ids _ Hw id (or_intror Hin))]; unfold id in *; lia. }
  case_match; [intros Hc; eapply connected_ok, Hc; [done|]; intros _; cbn; split; [unfold id; lia|by right]|].
  set (w2 := set_connecting _ w1). intros [= <- _].
  assert (worker_ok w2) as Hw2.
  { destruct Hw1 as [Ht Hp Hs Hh Hb Hn1 Hi Ha]. split; try done.
    - unfold total_sockets in *. cbn [w2 set_connecting connecting parked sources destinations]. rewrite size_union by set_solver.
      rewrite size_singleton. cbn [w1 set_next_socket_id connecting parked sources destinations] in *. lia.
    - intros id'. cbn [w2 set_connecting connecting destinations next_socket_id]. rewrite elem_of_union, elem_of_singleton.
      intros [[Hin| ->]|Hin]; [by apply Hi; left|cbn; unfold id; lia|by apply Hi; right].
    - cbn [w2 set_connecting connecting destinations]. set_solver. }
  apply (worker_ok_ext w2); [done|..]; by destruct (recorded_binds_for destination w1).
Qed.

Lemma response_ok response w w' e : worker_ok w -> destination_response nonblocking response w = (w', e) -> worker_ok w'.
Proof.
  intros Hw. unfold destination_response. destruct (rs_clientfd response) as [client_fd|]; [|by intros [= <- _]].
  destruct (parked w !! client_fd) as [p|] eqn:Hp.
  2: { intros [= <- _]. unfold reject_stale_destination. repeat case_match; eauto with forward. }
  set (w0 := set_parked _ w). assert (worker_ok w0 /\ total_sockets w0 = total_sockets w - 1) as [Hw0 Ht0].
  { destruct (zsize_delete (parked w) client_fd) as [_ Hsize]. specialize (Hsize ltac:(by eexists)).
    destruct Hw as [Ht Hpk Hs Hh Hb Hn Hi Ha]. unfold total_sockets in *. cbn [w0 set_parked parked connecting sources destinations].
    split; [|lia]. split; try done; unfold total_sockets; cbn [w0 set_parked parked connecting sources destinations]; lia. }
  assert (forall fd v b w, worker_ok w -> worker_ok (write_socks_reply fd v b w)) as Hreply.
  { intros fd v b w1 Hw1. unfold write_socks_reply. case_match; eauto with forward. }
  assert (worker_ok (refuse_parked p w0)) by (unfold refuse_parked; cbv zeta; case_match; eauto with forward).
  destruct (rs_error response); [by intros [= <- _]|]. destruct (positive (rs_socketid response)) as [id|]; [|by intros [= <- _]].
  set (w1 := write_socks_reply _ _ _ w0). set (w2 := if _ =? 0 then w1 else _).
  assert (worker_ok w2) as Hw2 by (unfold w2; case_match; eauto with forward).
  assert (total_sockets w2 = total_sockets w0) as Ht2.
  { unfold w2, w1, write_socks_reply, send_data. repeat case_match; done. }
  destruct (activate nonblocking Source id _ _ None w2) as [w3 r] eqn:Ha.
  assert (worker_ok w3) as Hw3 by (eapply activate_ok, Ha; [done|done|pose proof (wo_total _ Hw); lia|done]).
  destruct r as [u|err]; intros [= <- _]; [|done].
  set (w4 := match sources w3 !! id with Some _ => _ | None => _ end).
  assert (worker_ok w4); [|case_match; [by apply (worker_ok_ext w4)|done]]. unfold w4. destruct (sources w3 !! id) as [s|] eqn:Hs; [|done].
  eapply worker_ok_ext; [eapply (put_ok Source id); [exact Hw3|by eexists|apply flags_sock, (wo_sockets _ Hw3 Source _ _ Hs)]|done..].
Qed.

Lemma handle_packet_ok p w w' e : worker_ok w -> handle_packet p w = (w', e) -> worker_ok w'.
Proof.
  intros Hw. unfold ForwardWorker.handle_packet. case_match.
  { destruct (decode_request (payload p)); [by apply request_ok|by intros [= <- _]]. }
  case_match. { destruct (decode_response (payload p)); [by apply response_ok|by intros [= <- _]]. }
  case_match; [|by intros [= <- _]].
  destruct (try_fast_parse_data (payload p)) as [[[[d id] start] len]|] eqn:Hp.
  - apply fast_parse_span in Hp as (H1' & H2' & H3'). intros [= <- _]. destruct (len =? 0); [done|].
    case_match; [by apply remove_ok|apply admit_span_ok; [done|done|done|lia]].
  - destruct (decode_data (payload p)); intros [= <- _]; [by apply receive_data_ok|done].
Qed.

Lemma read_closed_ok r id w : worker_ok w -> worker_ok (read_closed r id w).
Proof.
  intros Hw. unfold read_closed. destruct (map_ref r w !! id) as [s|] eqn:Hs; [|done]. pose proof (wo_sockets _ Hw _ _ _ Hs) as Hsock.
  destruct (close_when_drained s); [done|]. destruct (half_close_on_eof s); [unfold send_half_close; eauto with forward|].
  cbv zeta. set (s1 := set_flags _ _ _ _ _ s). assert (sock_ok r id s1) by (by apply flags_sock).
  set (w1 := send_data r id [] true None (put r id s1 w)). assert (worker_ok w1) by (unfold w1; eauto with forward).
  assert (is_Some (map_ref r w1 !! id)).
  { unfold w1. destruct (send_data_emit r id [] true None (put r id s1 w)) as [body ->]. rewrite emit_map. apply put_is_Some. }
  unfold start_close. case_match; eauto with forward.
Qed.

Lemma return_credit_ok r id w : worker_ok w -> worker_ok (return_credit r w id).
Proof.
  intros Hw. unfold return_credit. destruct (map_ref r w !! id) as [s|] eqn:Hs; [|done]. pose proof (wo_sockets _ Hw _ _ _ Hs) as Hsock.
  destruct (take_credit s) as [s' [[c p]|]] eqn:Ht; [|done]. unfold send_credit. apply emit_priority_ok, put_ok; [done|by eexists|by eapply credit_sock].
Qed.

Lemma fold_ok {A} (f : Worker -> A -> Worker) l w : (forall w a, worker_ok w -> worker_ok (f w a)) -> worker_ok w -> worker_ok (foldl f w l).
Proof. intros Hf. revert w. induction l as [|a l IH]; intros w Hw; [done|]. by apply IH, Hf. Qed.

Lemma due_credits_ok w : worker_ok w -> worker_ok (flush_due_credits keys w).
Proof. intros Hw. unfold flush_due_credits. cbv zeta. by do 2 (apply fold_ok; [intros; by apply return_credit_ok|]). Qed.

(** Work on a socket that was taken out of its map. *)
Definition aside (r : Role) (id : Z) (w : Worker) (s : SocketIo) (w' : Worker) : Prop :=
  sock_ok r id s /\ worker_ok w' /\ sources w' = sources w /\ destinations w' = destinations w.

Lemma aside_flush r id w s w1 s' ok w' :
  aside r id w s w1 -> flush_socket s w1 = (s', ok, w') -> aside r id w s' w'.
Proof.
  intros (Hs & Hw & E1 & E2). unfold flush_socket. destruct (flush_out s _) as [[[s1 bytes] ok1] more] eqn:Hf. intros [= <- <- <-].
  split_and!; [by eapply flush_sock|apply effect_ok; by apply (worker_ok_ext w1)|done|done].
Qed.

Lemma aside_send r id w s w1 h body : aside r id w s w1 -> aside r id w s (emit h body w1).
Proof. intros (Hs & Hw & E1 & E2). split_and!; [done|by apply emit_ok|done|done]. Qed.

Lemma aside_data r id w s w1 r' id' buffer closed error : aside r id w s w1 -> aside r id w s (send_data r' id' buffer closed error w1).
Proof. intros Ha. destruct (send_data_emit r' id' buffer closed error w1) as [body ->]. by apply aside_send. Qed.

Lemma split_len available : let '(_, len) := pipelined_split available in 0 <= len.
Proof.
  unfold pipelined_split, clamp, PIPELINE_CHUNK, FORWARD_READ_LEN, READ_CHUNK. destruct available as [a|]; [|done].
  destruct (a <=? _); [lia|done].
Qed.

Lemma aside_read r id n split w s w1 s' w' v :
  match split with Some (_, len) => 0 <= len | None => True end ->
  aside r id w s w1 -> read_socket fionread error_text n split s w1 = (s', w', v) -> aside r id w s' w'.
Proof.
  revert split s w1. induction n as [|n IH]; intros split s w1 Hsp Ha; cbn [read_socket]; [by intros [= <- <- _]|].
  destruct (_ || _); [by intros [= <- <- _]|]. set (read_len := match split with None => _ | Some _ => _ end).
  assert (0 <= read_len) as Hlen by (unfold read_len; destruct split as [[b l]|]; [destruct (0 <? b)|]; done).
  destruct (read_encoded_chunk s read_len _) as [[s1 o] more] eqn:Hr. cbv zeta.
  set (w2 := set_reads _ w1). assert (aside r id w s1 w2) as Ha2.
  { destruct Ha as (Hs & Hw & E1 & E2). split_and!; [by eapply read_sock|by apply (worker_ok_ext w1)|done|done]. }
  destruct o as [bytes| | |]; [|by intros [= <- <- _]|by intros [= <- <- _]|intros [= <- <- _]; by apply aside_data].
  destruct (_ <=? 4096); [intros [= <- <- _]; by apply aside_send|]. apply IH; [|by apply aside_send].
  destruct split as [[b l]|]; [done|]. destruct (last_read_full s1); [apply split_len|done].
Qed.

Lemma aside_half_close r id w s w1 s' w' : aside r id w s w1 -> finish_half_close s w1 = (s', w') -> aside r id w s' w'.
Proof.
  intros (Hs & Hw & E1 & E2). unfold finish_half_close. case_match; intros [= <- <-]; [|done].
  split_and!; [by apply flags_sock|by apply effect_ok|done|done].
Qed.

Lemma aside_service r id e w s w1 s' w' v :
  aside r id w s w1 -> service_socket fionread error_text s e w1 = (s', w', v) -> aside r id w s' w'.
Proof.
  intros Ha. unfold service_socket. generalize READS_PER_CYCLE as n. intros n.
  destruct (if _ || _ then flush_socket s w1 else _) as [[s2 ok] w2] eqn:Hf.
  assert (aside r id w s2 w2) as Ha2 by (destruct (_ || _); [by eapply aside_flush|by injection Hf as <- <- <-]).
  destruct ok; cbn [negb]; [|intros [= <- <- _]; by apply aside_data]. destruct (_ && close_when_drained s2); [by intros [= <- <- _]|].
  destruct (if write_interest s2 then (s2, w2) else _) as [s3 w3] eqn:Hh.
  assert (aside r id w s3 w3) as Ha3 by (destruct (write_interest s2); [by injection Hh as <- <-|by eapply aside_half_close]).
  destruct (error e && negb (readable e)); [intros [= <- <- _]; by apply aside_data|].
  destruct (if readable e then read_socket _ _ _ _ s3 w3 else _) as [[s4 w4] v4] eqn:Hr.
  assert (aside r id w s4 w4) as Ha4 by (destruct (readable e); [by eapply (aside_read _ _ n None)|by injection Hr as <- <- <-]).
  destruct v4 as [v4|]; [by intros [= <- <- _]|]. destruct (close_when_drained s4 && _); by intros [= <- <- _].
Qed.

Lemma aside_back r id w s w1 : is_Some (map_ref r w !! id) -> aside r id w s w1 -> worker_ok (put r id s w1).
Proof. intros Hl (Hs & Hw & E1 & E2). apply put_ok; [done| |done]. by destruct r; cbn [map_ref] in *; rewrite ?E1, ?E2. Qed.

Lemma aside_start r id w s : worker_ok w -> map_ref r w !! id = Some s -> aside r id w s w.
Proof. intros Hw Hs. split_and!; [by apply (wo_sockets _ Hw)|done|done|done]. Qed.

Lemma service_event_ok e w : worker_ok w -> worker_ok (service_event e w).
Proof.
  intros Hw. unfold ForwardWorker.service_event. destruct (map_ref (e_role e) w !! e_socket_id e) as [s|] eqn:Hs; [|done].
  destruct (service_socket fionread error_text s e w) as [[s' w'] v] eqn:Hv.
  pose proof (aside_service _ _ _ _ _ _ _ _ _ (aside_start _ _ _ _ Hw Hs) Hv) as Ha. apply aside_back in Ha; [|by eexists].
  destruct v; [done|by apply remove_ok|by apply read_closed_ok].
Qed.

Lemma write_queued_ok entry w progressed : worker_ok w -> worker_ok (fst (write_queued error_text (w, progressed) entry)).
Proof.
  intros Hw. unfold write_queued. destruct entry as [r id]. destruct (map_ref r w !! id) as [s|] eqn:Hs; [|done].
  assert (is_Some (map_ref r w !! id)) as Hsome by (by eexists).
  destruct (flush_socket s w) as [[s1 ok] w1] eqn:Hf. pose proof (aside_flush _ _ _ _ _ _ _ _ (aside_start _ _ _ _ Hw Hs) Hf) as Ha. cbv zeta.
  destruct ok; cbn [negb]; [|by apply remove_ok, send_data_ok, (aside_back _ _ w)].
  destruct (if _ && credit_due s1 then take_credit s1 else _) as [s2 credit] eqn:Hc.
  assert (aside r id w s2 w1) as Ha2.
  { destruct Ha as (H1' & H2' & H3' & H4'). split_and!; [|done..]. destruct (_ && credit_due s1); [by eapply credit_sock|by injection Hc as <- <-]. }
  assert (Hcr : forall w, worker_ok w -> worker_ok (match credit with Some (c, p) => send_credit r id c p w | None => w end)).
  { intros w0 Hw0. destruct credit as [[c p]|]; [by apply emit_priority_ok|done]. }
  destruct (_ && close_when_drained s2); [by apply remove_ok, Hcr, (aside_back _ _ w)|].
  destruct (if write_interest s2 then (s2, w1) else _) as [s3 w3] eqn:Hh.
  apply Hcr, (aside_back _ _ w); [done|]. destruct (write_interest s2); [by injection Hh as <- <-|by eapply aside_half_close].
Qed.

Lemma writes_ok entries w progressed : worker_ok w -> worker_ok (fst (foldl (write_queued error_text) (w, progressed) entries)).
Proof.
  revert w progressed. induction entries as [|e entries IH]; intros w progressed Hw; [done|]. cbn [foldl].
  destruct (write_queued error_text (w, progressed) e) as [w1 p1] eqn:E. apply IH.
  change w1 with (fst (w1, p1)). rewrite <-E. by apply write_queued_ok.
Qed.

Lemma flush_queued_ok w w' : worker_ok w -> flush_queued_writes keys error_text w = Some w' -> worker_ok w'.
Proof.
  unfold flush_queued_writes. generalize (S (write_turns w)) as fuel. intros fuel. revert w. induction fuel as [|fuel IH]; intros w Hw; [done|].
  cbn [flush_queued_go]. apply flush_held_ok in Hw. destruct (unwritten keys (flush_held w)) as [|e entries]; [by intros [= <-]|].
  pose proof (writes_ok (e :: entries) (flush_held w) false Hw) as Hw1.
  destruct (foldl _ _ (e :: entries)) as [w1 p1]. case_match; [by intros [= <-]|by apply IH].
Qed.

Lemma expire_ok now w : worker_ok w -> worker_ok (expire_parked keys now w).
Proof.
  apply fold_ok. clear w. intros w fd Hw. unfold expire_one. destruct (parked w !! fd) as [p|]; [|done]. cbv zeta.
  assert (worker_ok (set_parked (delete fd (parked w)) w)).
  { destruct (zsize_delete (parked w) fd) as [Hsize _]. destruct Hw as [Ht Hpk Hs Hh Hb Hn Hi Ha].
    split; try done; unfold total_sockets in *; cbn [set_parked parked connecting sources destinations]; lia. }
  case_match; eauto with forward.
Qed.

Lemma finish_hard_ok w : worker_ok w -> worker_ok (finish_hard keys w).
Proof.
  intros [Ht Hp Hs Hh Hb Hn Hi Ha]. unfold finish_hard, abort_sockets. cbv zeta. set (streams := omap _ _).
  set (w1 := foldl _ (set_parked ∅ w) streams).
  assert (Hlog : forall l w0, exists l', foldl (fun w fd => effect (Shutdown fd) w) w0 l = set_log l' w0).
  { induction l as [|fd l IH]; intros w0; [exists (log w0); by destruct w0|]. cbn [foldl]. destruct (IH (effect (Shutdown fd) w0)) as [l' ->]. by exists l'. }
  destruct (Hlog streams (set_parked ∅ w)) as [l1 Hl1]. fold w1 in Hl1. rewrite Hl1.
  match goal with |- context [foldl _ ?w0 ?l] => destruct (Hlog l w0) as [l2 Hl2]; rewrite Hl2 end.
  assert (0 <= Z.of_nat (size (connecting w)) /\ 0 <= zsize (parked w) /\ 0 <= zsize (sources w) /\ 0 <= zsize (destinations w))
    by (unfold zsize; lia).
  split; try done.
  - unfold total_sockets in *. cbn [set_sources set_destinations set_log set_held set_abandoned set_parked parked connecting sources destinations].
    rewrite (zsize_empty (A:=PendingAccept)), !(zsize_empty (A:=SocketIo)). lia.
  - intros r id s. destruct r; cbn [map_ref set_sources set_destinations sources destinations]; by rewrite lookup_empty.
  - intros id [Hin|Hin]; [apply Hi; by left|]. cbn [set_sources set_destinations destinations] in Hin. by rewrite dom_empty_L in Hin.
Qed.

(** A connector answers once. *)
Definition allowed (c : Command) (w : Worker) : Prop :=
  match c with ConnectedCommand _ id (Ok _) => id ∈ connecting w | _ => True end.

Lemma handle_command_ok now c w w' e : worker_ok w -> allowed c w -> handle_command now c w = (w', e) -> worker_ok w'.
Proof.
  intros Hw Hc. unfold ForwardWorker.handle_command. destruct c as [p|fd dest st early v hc stdio|fd id outcome|path binds].
  - by apply handle_packet_ok.
  - intros [= <- _]. by apply accepted_ok.
  - intros Hcon. eapply connected_ok, Hcon; [by apply (worker_ok_ext w)|]. intros Hok. destruct outcome; [|done].
    split; [apply (wo_ids _ Hw); by left|by left].
  - intros [= <- _]. by apply (worker_ok_ext w).
Qed.

(** ** The engine *)

Fixpoint batch_ok (now : Z) (commands : list Command) (w : Worker) : Prop :=
  match commands with
  | [] => True
  | c :: commands => allowed c w /\ batch_ok now commands (fst (handle_command now c w))
  end.

Definition drained_ok (now : Z) (d : Drained) (e : Engine) : Prop :=
  match d with Batch commands => batch_ok now commands (worker e) | _ => True end.

Lemma commands_ok now commands w w' e :
  worker_ok w -> batch_ok now commands w -> handle_commands nonblocking write_all_ok connect other_user now commands w = (w', e) -> worker_ok w'.
Proof.
  revert w. induction commands as [|c commands IH]; intros w Hw Hb; cbn [handle_commands]; [by intros [= <- _]|].
  destruct Hb as [Hc Hb]. destruct (handle_command now c w) as [w1 r] eqn:Hh. pose proof (handle_command_ok _ _ _ _ _ Hw Hc Hh) as Hw1.
  destruct r; [|by intros [= <- _]]. by apply IH.
Qed.

Lemma fresh_ok w : worker_ok w -> worker_ok (read_fresh_sources fionread error_text w).
Proof. intros Hw. unfold read_fresh_sources. apply fold_ok; [intros; by apply service_event_ok|]. by apply (worker_ok_ext w). Qed.

Lemma flush_writes_ok w : worker_ok w -> worker_ok (flush_writes keys error_text w).
Proof.
  intros Hw. unfold flush_writes. destruct (flush_queued_writes keys error_text w) eqn:Hf; [|done]. by eapply flush_queued_ok.
Qed.

Lemma drain_ok now d w w' e :
  worker_ok w -> match d with Batch commands => batch_ok now commands w | _ => True end ->
  drain_commands keys nonblocking write_all_ok fionread connect other_user error_text now d w = (w', e) -> worker_ok w'.
Proof.
  intros Hw Hd. unfold drain_commands. destruct d as [|commands|]; [intros [= <- _]; by apply fresh_ok| |by intros [= <- _]].
  destruct (handle_commands _ _ _ _ now commands w) as [w1 r] eqn:Hh. pose proof (commands_ok _ _ _ _ _ Hw Hd Hh) as Hw1.
  destruct r; intros [= <- _]; [|done]. apply fresh_ok. destruct commands; [done|by apply flush_writes_ok].
Qed.

Definition engine_ok (e : Engine) : Prop := worker_ok (worker e).

Lemma guard_ok {A} (step : Engine -> Engine * result ForwardError A) e e' r :
  engine_ok e -> (forall e' r, step e = (e', r) -> engine_ok e') -> guard keys step e = (e', r) -> engine_ok e'.
Proof.
  intros He Hstep. unfold guard. destruct (failed e); [by intros [= <- _]|]. destruct (step e) as [e1 [a|err]] eqn:Hs; intros [= <- _].
  - by eapply Hstep.
  - unfold engine_ok. cbn [worker]. apply finish_hard_ok. by eapply (Hstep e1).
Qed.

Notation collect := (collect keys nonblocking write_all_ok fionread connect other_user error_text).
Notation service := (service keys nonblocking write_all_ok fionread connect other_user error_text).
Notation receive := (receive keys nonblocking write_all_ok fionread connect other_user error_text).

Lemma on_worker_ok f e e' r : (forall w r, f (worker e) = (w, r) -> worker_ok w) -> on_worker f e = (e', r) -> engine_ok e'.
Proof. intros Hf. unfold on_worker. destruct (f (worker e)) as [w1 r1] eqn:E. intros [= <- _]. by eapply Hf. Qed.

Lemma collect_ok now d listeners e e' fds t :
  engine_ok e -> drained_ok now d e -> collect now d listeners e = (e', fds, t) -> engine_ok e'.
Proof.
  intros He Hd. unfold ForwardEngine.collect. destruct (guard keys _ e) as [e1 r] eqn:Hg.
  assert (engine_ok e1) as He1.
  { eapply guard_ok, Hg; [done|]. intros e2 r2 H2. eapply on_worker_ok, H2. intros w r3. cbv beta.
    destruct (drain_commands keys nonblocking write_all_ok fionread connect other_user error_text now d (worker e)) as [w1 r1] eqn:Hdr. pose proof (drain_ok _ _ _ _ _ He Hd Hdr).
    destruct r1; intros [= <- _]; [|done]. by apply due_credits_ok, flush_held_ok, expire_ok. }
  destruct r as [u|err]; intros [= <- _ _]; [done|]. unfold record. by destruct (en_error e1).
Qed.

Lemma admit_accepted_ok now a e : engine_ok e -> engine_ok (admit_accepted now a e).
Proof.
  intros He. unfold admit_accepted. cbv zeta. case_match; [by do 2 apply effect_ok|]. case_match; [by apply effect_ok|]. by apply accepted_ok.
Qed.

Lemma service_fds_ok now polled e : engine_ok e -> engine_ok (foldl (service_fd fionread error_text now) e polled).
Proof.
  revert e. induction polled as [|[fd revents] polled IH]; intros e He; [done|]. cbn [foldl]. apply IH. unfold service_fd.
  case_match; [done|]. destruct fd as [|l ready|r id st a b]; [done| |case_match; [by apply service_event_ok|done]].
  case_match; [done|]. clear -He. revert e He. induction ready as [|a ready IH]; intros e He; [done|]. cbn [foldl]. by apply IH, admit_accepted_ok.
Qed.

Lemma service_ok now d polled e e' r : engine_ok e -> drained_ok now d e -> service now d polled e = (e', r) -> engine_ok e'.
Proof.
  intros He Hd. unfold ForwardEngine.service. apply guard_ok; [done|]. clear e' r. intros e' r.
  destruct (on_worker _ e) as [e1 r1] eqn:Ho.
  assert (engine_ok e1) by (eapply on_worker_ok, Ho; intros w' r' Hdr; by eapply drain_ok).
  destruct r1; intros [= <- _]; [|done]. unfold engine_ok. cbn [set_worker worker]. by apply due_credits_ok, service_fds_ok.
Qed.

Lemma packets_ok bounded queue handled w w' rest r :
  worker_ok w -> receive_packets nonblocking write_all_ok connect other_user bounded queue handled w = (w', rest, r) -> worker_ok w'.
Proof.
  revert handled w. induction queue as [|p queue IH]; intros handled w Hw; cbn [receive_packets]; destruct (_ && _); try (by intros [= <- _ _]).
  destruct (handle_packet p w) as [w1 r1] eqn:Hp. pose proof (handle_packet_ok _ _ _ _ Hw Hp). destruct r1; [by apply IH|by intros [= <- _ _]].
Qed.

Lemma receive_ok now d queue bounded e e' r : engine_ok e -> drained_ok now d e -> receive now d queue bounded e = (e', r) -> engine_ok e'.
Proof.
  intros He Hd. unfold ForwardEngine.receive. apply guard_ok; [done|]. clear e' r. intros e' r.
  destruct (on_worker _ e) as [e1 r1] eqn:Ho.
  assert (engine_ok e1) by (eapply on_worker_ok, Ho; intros w' r' Hdr; by eapply drain_ok).
  destruct r1; [|by intros [= <- _]].
  destruct (receive_packets _ _ _ _ bounded queue false (worker e1)) as [[w2 rest] r2] eqn:Hr.
  assert (worker_ok w2) by (by eapply packets_ok, Hr). destruct r2 as [handled|err]; intros [= <- _]; [|done].
  unfold engine_ok. cbn [set_worker worker]. destruct handled; [by apply fresh_ok, flush_writes_ok|done].
Qed.

Lemma pop_ok e e' p : engine_ok e -> pop_outbound e = (e', p) -> engine_ok e'.
Proof.
  intros He. unfold pop_outbound. destruct (engine_priority (worker e)) as [|p1 rest1] eqn:E1.
  2: { intros [= <- _]. by apply (worker_ok_ext (worker e)). }
  destruct (engine_outbound (worker e)) as [|p2 rest2] eqn:E2; [destruct (failed e); by intros [= <- _]|].
  intros [= <- _]. destruct He as [Ht Hp Hs Hh Hb Hn Hi Ha]. split; try done. rewrite E2 in Hb. cbn [payload_bytes foldr] in Hb.
  cbn [set_worker worker set_engine_outbound set_engine_outbound_bytes engine_outbound_bytes engine_outbound]. unfold sat_sub.
  fold (payload_bytes rest2) in Hb. assert (0 <= payload_bytes rest2) by (unfold payload_bytes; clear; induction rest2 as [|q l IH]; cbn [foldr]; [lia|pose proof (zlen_nonneg (payload q)); lia]).
  lia.
Qed.

(** What the session and the kernel do with an engine. *)
Inductive engine_call : Engine -> Engine -> Prop :=
| call_collect now d listeners e e' fds t :
    drained_ok now d e -> collect now d listeners e = (e', fds, t) -> engine_call e e'
| call_service now d polled e e' r : drained_ok now d e -> service now d polled e = (e', r) -> engine_call e e'
| call_receive now d queue bounded e e' r : drained_ok now d e -> receive now d queue bounded e = (e', r) -> engine_call e e'
| call_pop e e' p : pop_outbound e = (e', p) -> engine_call e e'
| call_finish e : engine_call e (fst (engine_finish keys e))
| kernel_answers e more_reads more_writes :
    engine_call e (set_worker (set_reads more_reads (set_writes more_writes (worker e))) e).

Lemma engine_finish_ok e : engine_ok e -> engine_ok (fst (engine_finish keys e)).
Proof.
  intros He. unfold engine_finish. cbv zeta. cbn [fst]. set (w1 := set_engine_priority [] _).
  assert (worker_ok w1) by (destruct He as [Ht Hp Hs Hh Hb Hn Hi Ha]; by split).
  case_match; [done|]. by apply finish_hard_ok.
Qed.

Lemma call_ok e e' : engine_ok e -> engine_call e e' -> engine_ok e'.
Proof.
  intros He Hcall. destruct Hcall.
  - by eapply collect_ok.
  - by eapply service_ok.
  - by eapply receive_ok.
  - by eapply pop_ok.
  - by apply engine_finish_ok.
  - by apply (worker_ok_ext (worker e)).
Qed.

Lemma worker_new_ok path binds : worker_ok (worker_new path binds).
Proof.
  split; try done.
  - intros r id s. destruct r; cbn [map_ref worker_new sources destinations]; by rewrite lookup_empty.
  - intros id [Hin|Hin]; [by apply not_elem_of_empty in Hin|]. cbn [worker_new destinations] in Hin. by rewrite dom_empty_L in Hin.
Qed.

(** C20: Whatever the peer sends, the applications do and the kernel answers, in
    whatever order the session calls: at most 256 sockets are parked,
    connecting or active, at most 128 of them parked; each socket queues at
    most 128 buffers of at most 64 KiB, with counters that never go negative;
    a destination never takes an id that is in use; and the count of bytes
    that stops reads is the count of what waits. *)
Theorem engine_keeps_limits path binds next_fd e :
  rtc engine_call (engine_new (worker_new path binds) next_fd) e -> worker_ok (worker e).
Proof.
  intros Hcalls. assert (engine_ok (engine_new (worker_new path binds) next_fd)) as He by (apply worker_new_ok).
  induction Hcalls as [|e1 e2 e3 H12 _ IH]; [done|]. by eapply IH, call_ok.
Qed.
End handlers.

(** ** Writing out ends *)

Lemma flush_turns s answers s' bytes ok more :
  flush_out s answers = (s', bytes, ok, more) -> (length more <= length answers)%nat /\ (length more = length answers -> s' = s).
Proof.
  revert s bytes ok. induction answers as [|a answers IH]; intros s bytes ok; cbn [flush_out].
  { destruct (out s); by intros [= <- _ _ <-]. }
  destruct (out s); [by intros [= <- _ _ <-]|]. destruct a as [n| |].
  - destruct (ztake n (offered s)); [intros [= <- _ _ <-]; cbn; lia|].
    destruct (flush_out _ answers) as [[[s1 b1] ok1] more1] eqn:Hf. intros [= <- _ _ <-]. apply IH in Hf as [Hf _]. cbn. lia.
  - intros Hf. apply IH in Hf as [Hf _]. cbn. lia.
  - intros [= <- _ _ <-]. cbn. lia.
Qed.

Definition turns (m : gmap Z (list WriteAnswer)) : nat := map_fold (fun _ answers n => (length answers + n)%nat) 0%nat m.

Lemma turns_insert m k answers : (turns (<[k := answers]> m) + length (unwrap_or [] (m !! k)) = turns m + length answers)%nat.
Proof.
  unfold turns.
  assert (Hfresh : forall (m : gmap Z (list WriteAnswer)) x, m !! k = None ->
    map_fold (fun _ answers n => (length answers + n)%nat) 0%nat (<[k := x]> m) =
    (length x + map_fold (fun _ answers n => (length answers + n)%nat) 0%nat m)%nat).
  { intros m' x Hn. apply (map_fold_insert_L (fun _ answers n => (length answers + n)%nat)); [intros; lia|done]. }
  destruct (m !! k) as [old|] eqn:E; cbn [unwrap_or].
  - rewrite <-(insert_delete_id m k old E) at 2. rewrite <-insert_delete_eq. rewrite !Hfresh by apply lookup_delete_eq. lia.
  - rewrite Hfresh by done. cbn [length]. lia.
Qed.

Section flushing.
Context `{ForwardCodec}.
Context (keys : gset Z -> list Z) (error_text : list byte).

Lemma flush_socket_turns s w s' ok w' :
  flush_socket s w = (s', ok, w') -> (write_turns w' <= write_turns w)%nat /\ (write_turns w' = write_turns w -> s' = s).
Proof.
  unfold flush_socket. destruct (flush_out s _) as [[[s1 bytes] ok1] more] eqn:Hf. intros [= <- <- <-]. apply flush_turns in Hf as [Hle Heq].
  pose proof (turns_insert (writes w) (stream s) more) as Ht. unfold turns in Ht. unfold write_turns.
  cbn [effect set_log set_writes writes]. split; [lia|]. intros E. apply Heq. lia.
Qed.

Lemma writes_frame w :
  (forall r id, writes (remove r id w) = writes w) /\ (forall r id s, writes (put r id s w) = writes w) /\
  (forall r id b c e, writes (send_data r id b c e w) = writes w) /\ (forall r id c p, writes (send_credit r id c p w) = writes w).
Proof.
  split_and!; intros.
  - unfold remove. destruct (bool_decide _); destruct (map_ref r _ !! id); by destruct r.
  - by destruct r.
  - destruct (send_data_emit r id b c e w) as [body ->]. done.
  - done.
Qed.

Lemma write_queued_turns w progressed entry w' progressed' :
  write_queued error_text (w, progressed) entry = (w', progressed') ->
  (write_turns w' <= write_turns w)%nat /\ (progressed' = true -> progressed = false -> (write_turns w' < write_turns w)%nat).
Proof.
  unfold write_queued. destruct entry as [r id]. destruct (map_ref r w !! id) as [s|]; [|intros [= <- <-]; split; [done|congruence]].
  destruct (flush_socket s w) as [[s1 ok] w1] eqn:Hf. apply flush_socket_turns in Hf as [Hle Heq].
  set (moved := negb (bool_decide (zlen (out s1) = zlen (out s) /\ out_offset s1 = out_offset s))).
  assert (Hmoved : moved = true -> (write_turns w1 < write_turns w)%nat).
  { intros Hm. destruct (decide (write_turns w1 = write_turns w)) as [E|]; [|lia]. unfold moved in Hm. rewrite (Heq E) in Hm.
    by rewrite bool_decide_true in Hm. }
  assert (Hdone : forall w2, writes w2 = writes w1 -> (w2, progressed || moved) = (w', progressed') ->
    (write_turns w' <= write_turns w)%nat /\ (progressed' = true -> progressed = false -> (write_turns w' < write_turns w)%nat)).
  { intros w2 Ew [= <- <-]. unfold write_turns in *. rewrite Ew. split; [done|]. intros Hp ->. by apply Hmoved. }
  cbv zeta. destruct ok; cbn [negb]; [|apply Hdone; by rewrite (proj1 (writes_frame _)), (proj1 (proj2 (proj2 (writes_frame _)))), (proj1 (proj2 (writes_frame _)))].
  destruct (if _ && credit_due s1 then take_credit s1 else _) as [s2 credit].
  assert (Hcr : forall s w, writes (match credit with Some (c, p) => send_credit r id c p (put r id s w) | None => put r id s w end) = writes w).
  { intros s0 w0. destruct credit as [[c p]|]; [change (writes (put r id s0 w0) = writes w0)|]; apply writes_frame. }
  destruct (_ && close_when_drained s2); [apply Hdone; by rewrite (proj1 (writes_frame _)), Hcr|].
  unfold finish_half_close. destruct (write_interest s2); [apply Hdone, Hcr|]. destruct (_ && _); apply Hdone; by rewrite Hcr.
Qed.

Lemma writes_turns entries w progressed w' progressed' :
  foldl (write_queued error_text) (w, progressed) entries = (w', progressed') ->
  (write_turns w' <= write_turns w)%nat /\ (progressed' = true -> progressed = false -> (write_turns w' < write_turns w)%nat).
Proof.
  revert w progressed. induction entries as [|e entries IH]; intros w progressed; cbn [foldl]; [intros [= <- <-]; split; [done|congruence]|].
  destruct (write_queued error_text (w, progressed) e) as [w1 p1] eqn:E. apply write_queued_turns in E as [H1 H2]. intros Hf.
  apply IH in Hf as [H3 H4]. split; [lia|]. intros Hp' Hp. destruct p1; [specialize (H2 eq_refl Hp)|specialize (H4 Hp' eq_refl)]; lia.
Qed.

Lemma flush_held_writes w : writes (flush_held w) = writes w.
Proof.
  unfold flush_held. generalize (held w) as entries. intros entries. revert w.
  induction entries as [|[[r id] buffer] entries IH]; intros w; cbn [flush_held_go]; [done|].
  destruct (map_ref r w !! id) as [s|]; [|apply IH]. destruct (writes_dropped s); [apply IH|].
  destruct (queue_write s buffer); [|done]. rewrite IH. apply writes_frame.
Qed.

(** Writing out what packets queued always ends: a round that is repeated
    moved at least one byte. *)
Lemma flush_queued_total w : is_Some (flush_queued_writes keys error_text w).
Proof.
  unfold flush_queued_writes. assert (Hfuel : (write_turns w < S (write_turns w))%nat) by lia. revert Hfuel.
  generalize (S (write_turns w)) as fuel. intros fuel. revert w. induction fuel as [|fuel IH]; intros w Hfuel; [lia|].
  cbn [flush_queued_go]. destruct (unwritten keys (flush_held w)) as [|e entries]; [by eexists|].
  destruct (foldl _ _ (e :: entries)) as [w1 p1] eqn:Hf. apply writes_turns in Hf as [_ Hlt].
  destruct p1; cbn [negb orb]; [|by eexists]. case_match; [by eexists|]. apply IH.
  specialize (Hlt eq_refl eq_refl). unfold write_turns in *. rewrite flush_held_writes in Hlt. lia.
Qed.
End flushing.

(** A session with a legacy peer that filled a socket. *)
Lemma engine_keeps_limits_witness : worker_ok (worker run_full).
Proof.
  apply (engine_keeps_limits elements (fun _ => true) (fun _ => true) (fun _ => None) (fun _ => Ok 7) false [] [] [] 1).
  eapply rtc_l; [|apply rtc_once].
  - by eapply (call_receive _ _ _ _ _ _ _ 0 NoCommands (legacy_request :: map legacy_data (seqZ 1 130)) false), surjective_pairing.
  - eapply (call_collect _ _ _ _ _ _ _ 0 NoCommands []); [done|]. unfold run_full, run_collect.
    rewrite (surjective_pairing (collect _ _ _ _ _ _ _ _ _ _ _)). by rewrite (surjective_pairing (fst (collect _ _ _ _ _ _ _ _ _ _ _))).
Defined.
