(* ===== verification/Text.v ===== *)
(** * Text: the [str] operations that look at white space and lines

    A [str] is its UTF-8 bytes. White space is Unicode's; the encodings of
    its characters start with bytes that no other character contains, so they
    are recognised at the bytes. *)

From S2P Require Import Prelude Bytes.

(** [char::is_whitespace] of the first character: the length of its encoding,
    or zero. *)
Definition ws_len (l : list byte) : nat :=
  match l with
  | [] => O
  | b :: l =>
      if in_range 9 13 b || (b2z b =? 0x20) then 1%nat
      else
        match b, l with
        | xc2, c :: _ => if (b2z c =? 0x85) || (b2z c =? 0xa0) then 2%nat else O
        | xe1, x9a :: x80 :: _ => 3%nat
        | xe2, x80 :: c :: _ =>
            if in_range 0x80 0x8a c || (b2z c =? 0xa8) || (b2z c =? 0xa9) || (b2z c =? 0xaf) then 3%nat else O
        | xe2, x81 :: x9f :: _ => 3%nat
        | xe3, x80 :: x80 :: _ => 3%nat
        | _, _ => O
        end
  end.

(** [str::split_whitespace]: [skip] bytes of a white-space character are still
    to be passed, and [word] is the word so far. *)
Fixpoint words_go (skip : nat) (word : list byte) (l : list byte) : list (list byte) :=
  let ended := match word with [] => [] | _ => [word] end in
  match l with
  | [] => ended
  | b :: rest =>
      match skip with
      | S skip => words_go skip word rest
      | O => match ws_len l with
             | O => words_go O (word ++ [b]) rest
             | S skip => ended ++ words_go skip [] rest
             end
      end
  end.
Definition split_whitespace (l : list byte) : list (list byte) := words_go 0 [] l.

(** [str::trim_start]. *)
Fixpoint trim_start_go (skip : nat) (l : list byte) : list byte :=
  match l with
  | [] => []
  | _ :: rest =>
      match skip with
      | S skip => trim_start_go skip rest
      | O => match ws_len l with O => l | S skip => trim_start_go skip rest end
      end
  end.
Definition trim_start (l : list byte) : list byte := trim_start_go 0 l.

(** [str::trim_end]: a white-space character stays when something follows
    it that stays. *)
Fixpoint trim_end_go (skip : nat) (l : list byte) : list byte :=
  match l with
  | [] => []
  | b :: rest =>
      let white := match skip with O => ws_len l | S _ => skip end in
      let kept := trim_end_go (Nat.pred white) rest in
      match white, kept with S _, [] => [] | _, _ => b :: kept end
  end.
Definition trim_end (l : list byte) : list byte := trim_end_go 0 l.
Definition trim (l : list byte) : list byte := trim_end (trim_start l).

(** [str::find(pred)] then [split_at], for [pred] white space or one of the
    ASCII characters of [also]; the second part starts with what was found. *)
Fixpoint split_at_white (also : byte -> bool) (l : list byte) : list byte * list byte :=
  match l with
  | [] => ([], [])
  | b :: rest =>
      if also b || negb (Nat.eqb (ws_len l) 0) then ([], l)
      else let (x, y) := split_at_white also rest in (b :: x, y)
  end.

(** [str::split_once(char::is_whitespace)]: what follows the character. *)
Definition after_white (l : list byte) : option (list byte) :=
  match snd (split_at_white (fun _ => false) l) with
  | [] => None
  | rest => Some (drop (ws_len rest) rest)
  end.

(** [str::strip_suffix]. *)
Definition strip_suffix (suf l : list byte) : option (list byte) :=
  match strip_prefix (rev suf) (rev l) with Some r => Some (rev r) | None => None end.

(** [str::lines]: the newline is not part of a line, nor is a carriage
    return before it. *)
Definition line_of (piece : list byte) : list byte :=
  match strip_suffix [x0a] piece with
  | Some line => unwrap_or line (strip_suffix [x0d] line)
  | None => piece
  end.
Definition lines (l : list byte) : list (list byte) := map line_of (split_inclusive x0a l).

(** [str::split_once] of a string. *)
Fixpoint split_once_str (pat l : list byte) : option (list byte * list byte) :=
  match strip_prefix pat l with
  | Some rest => Some ([], rest)
  | None =>
      match l with
      | [] => None
      | b :: l => match split_once_str pat l with Some (x, y) => Some (b :: x, y) | None => None end
      end
  end.

(** ** Lemmas *)

Lemma strip_prefix_spec pre l rest : strip_prefix pre l = Some rest <-> l = pre ++ rest.
Proof.
  unfold strip_prefix. destruct (starts_with pre l) eqn:E.
  - apply starts_with_spec in E as [r ->]. rewrite drop_app_length. split; [by intros [= ->]|].
    intros H%app_inv_head. by subst.
  - split; [done|]. intros ->. assert (starts_with pre (pre ++ rest) = true) by (apply starts_with_spec; eauto). congruence.
Qed.

Lemma strip_suffix_spec suf l rest : strip_suffix suf l = Some rest <-> l = rest ++ suf.
Proof.
  unfold strip_suffix. destruct (strip_prefix (rev suf) (rev l)) as [r|] eqn:E.
  - apply strip_prefix_spec in E. apply (f_equal (@rev byte)) in E. rewrite rev_app_distr, !rev_involutive in E. subst l.
    split; [by intros [= <-]|]. intros H%app_inv_tail. by subst.
  - split; [done|]. intros ->.
    assert (strip_prefix (rev suf) (rev (rest ++ suf)) = Some (rev rest)) by (apply strip_prefix_spec; by rewrite rev_app_distr).
    congruence.
Qed.

Lemma split_once_str_app pat l x y : split_once_str pat l = Some (x, y) -> l = x ++ pat ++ y.
Proof.
  revert x. induction l as [|b l IH]; intros x; cbn [split_once_str].
  - destruct (strip_prefix pat []) eqn:E; [|done]. intros [= <- <-]. by apply strip_prefix_spec in E.
  - destruct (strip_prefix pat (b :: l)) eqn:E; [intros [= <- <-]; by apply strip_prefix_spec in E|].
    destruct (split_once_str pat l) as [[x' y']|]; [|done]. intros [= <- <-]. by rewrite (IH x' eq_refl).
Qed.

(** Texts that end where a line ends. *)
Definition whole_lines (l : list byte) : Prop := l = [] \/ exists x, l = x ++ [x0a].

Lemma split_inclusive_app sep a b : split_inclusive sep ((a ++ [sep]) ++ b) = split_inclusive sep (a ++ [sep]) ++ split_inclusive sep b.
Proof.
  induction a as [|c a IH]; cbn [app split_inclusive]; [by rewrite beq_refl|].
  destruct (beq c sep); [cbn; by rewrite IH|]. rewrite IH.
  assert (split_inclusive sep (a ++ [sep]) <> []) as Hne by (destruct a as [|d a]; cbn; [by rewrite beq_refl|]; destruct (beq d sep); [done|]; by destruct (split_inclusive sep (a ++ [sep]))).
  by destruct (split_inclusive sep (a ++ [sep])).
Qed.

Lemma lines_app a b : whole_lines a -> lines (a ++ b) = lines a ++ lines b.
Proof. intros [->|[x ->]]; [done|]. unfold lines. by rewrite split_inclusive_app, map_app. Qed.

Lemma whole_lines_app a b : whole_lines a -> whole_lines b -> whole_lines (a ++ b).
Proof. intros Ha [->|[y ->]]; [by rewrite app_nil_r|right]. exists (a ++ y). by rewrite app_assoc. Qed.

Lemma whole_lines_concat l : Forall (is_line x0a) l -> whole_lines (concat l).
Proof.
  induction 1 as [|p l (body & -> & _) _ IH]; [by left|]. apply whole_lines_app; [right; by exists body|done].
Qed.

(** A text of lines keeps no newline inside them. *)
Lemma lines_no_newline l : Forall (fun line => x0a ∉ line) (lines l).
Proof.
  unfold lines. rewrite Forall_map.
  assert (forall p, is_line x0a p -> x0a ∉ line_of p) as Hline.
  { intros p (body & -> & Hb). unfold line_of. rewrite (proj2 (strip_suffix_spec _ _ body) eq_refl).
    destruct (strip_suffix [x0d] body) as [r|] eqn:E; [|done]. apply strip_suffix_spec in E. subst. set_solver. }
  destruct (split_inclusive_pieces x0a l) as [H|(ls & rest & -> & H & _ & Hr)].
  - by eapply Forall_impl; [exact H|].
  - apply Forall_app. split; [by eapply Forall_impl|]. constructor; [|done]. unfold line_of.
    destruct (strip_suffix [x0a] rest) eqn:E; [|done]. apply strip_suffix_spec in E. subst. set_solver.
Qed.
