(* ===== verification/SshConfig.v ===== *)
(** * SshConfig: [crates/et-bin/src/ssh_config.rs]

    What the client learns from [ssh -G]: the query, the check that a value
    which may hold a newline did not become a directive, the parser of the
    output, and the options of the command line that are added to it. The
    values of [ControlMaster] and [ControlPersist] and the splitting of options
    are those of [et-cli/src/client.rs]. *)

From Stdlib Require Import String.
From S2P Require Import Prelude Bytes Text Socks Tunnel ClientEnvironment ForwardConfig.

Definition same (key : list byte) (name : string) : bool := list_eqb key (bytes_of name).
Definition is_key (key : list byte) (name : string) : bool := eq_ignore_ascii_case key (bytes_of name).
Definition lowercase (l : list byte) : list byte := map to_ascii_lowercase l.

(** Those of the client's errors that are raised here and by the program that
    runs ssh. *)
Inductive ClientError :=
  | ForwardConfigFailed (error : ForwardConfigError)
  | Unsupported (what : list byte)
  | InvalidSshComponent (what : list byte)
  | InvalidSshConfig (reason : list byte)
  | SshSpawn
  | SshStdout
  | SshWait
  | SshTerminate
  | SshTimeout (operation : list byte)
  | SshNonZero (code : option Z)
  | SshOutputTooLarge (limit : Z)
  | SshConfigMalformed (field : list byte)
  | SshConfigMalformedForward (directive reason : list byte)
  | MissingIdPasskeyMarker
  | MalformedIdPasskeyMarker
  | InvalidSessionId
  | InvalidPasskey.

Definition malformed {A} (field : string) : result ClientError A := Err (SshConfigMalformed (bytes_of field)).

(** ** Values ([et-cli/src/client.rs]) *)

Fixpoint trim_start_matches (c : byte) (l : list byte) : list byte :=
  match l with b :: rest => if beq b c then trim_start_matches c rest else l | [] => [] end.

Definition split_ssh_option (option : list byte) : list byte * list byte :=
  let (key, rest) := split_at_white (fun b => beq b "=") (trim option) in
  (key, trim_start (trim_start_matches "=" (trim_start rest))).

Inductive ControlMasterMode := MasterNo | MasterYes | MasterAuto.

Definition parse_control_master (value : list byte) : option ControlMasterMode :=
  let v := lowercase value in
  if same v "no" || same v "false" then Some MasterNo
  else if same v "yes" || same v "true" then Some MasterYes
  else if same v "auto" then Some MasterAuto
  else None.

Record ControlPersist := mkPersist { cp_enabled : bool; cp_seconds : Z }.

(** The loop of [parse_time_seconds]; [digits] are those of the amount. *)
Fixpoint time_loop (l digits : list byte) (total : Z) : option Z :=
  match l with
  | [] =>
      match digits with
      | [] => Some total
      | _ => let! amount := from_str_radix 10 u64_max digits in
             if total + amount <=? u64_max then Some (total + amount) else None
      end
  | b :: l =>
      if is_ascii_digit b then time_loop l (digits ++ [b]) total
      else
        match digits with
        | [] => None
        | _ =>
            let! amount := from_str_radix 10 u64_max digits in
            let c := to_ascii_lowercase b in
            let! multiplier :=
              if beq c "w" then Some (7 * 24 * 60 * 60)
              else if beq c "d" then Some (24 * 60 * 60)
              else if beq c "h" then Some (60 * 60)
              else if beq c "m" then Some 60
              else if beq c "s" then Some 1
              else None in
            if amount * multiplier <=? u64_max then
              if total + amount * multiplier <=? u64_max then time_loop l [] (total + amount * multiplier) else None
            else None
        end
  end.

Definition parse_time_seconds (value : list byte) : option Z :=
  match value with [] => None | _ => time_loop value [] 0 end.

Definition parse_control_persist (value : list byte) : option ControlPersist :=
  let v := lowercase value in
  if same v "no" || same v "false" then Some (mkPersist false 0)
  else if same v "yes" || same v "true" then Some (mkPersist true 0)
  else let! seconds := parse_time_seconds value in Some (mkPersist true seconds).

(** ** The configuration *)

Inductive GatewayPorts := GatewayNo | GatewayYes | ClientSpecified.
Inductive StreamLocalBindPolicy := BindDefault | BindUnsupported.
Record ForwardPolicies := mkPolicies { gateway_ports : GatewayPorts; stream_local_bind : StreamLocalBindPolicy }.

Record ResolvedSshConfig := mkResolved {
  rc_hostname : list byte;
  rc_user : option (list byte);
  rc_port : Z;
  rc_exit_on_forward_failure : bool;
  rc_local_forwards : list PortForwardSourceRequest;
  rc_set_env : list (list byte * list byte);
  rc_proxy_jump : option (list byte);
  rc_forward_agent : bool;
  rc_identity_agent : option (list byte);
  rc_remote_forwards : list PortForwardSourceRequest;
  rc_dynamic_forwards : list SocketEndpoint;
  rc_send_env : list (list byte);
  rc_remote_command : option (list byte);
  rc_clear_all_forwardings : bool;
  rc_batch_mode : bool;
  rc_server_alive_interval : Z;
  rc_control_master : option ControlMasterMode;
  rc_control_path : option (list byte);
  rc_control_persist : option ControlPersist;
  rc_dump : list byte
}.

Definition resolved_default : ResolvedSshConfig :=
  mkResolved [] None 0 false [] [] None false None [] [] [] None false false 0 None None None [].

Definition set_rc_local_forwards (v : list PortForwardSourceRequest) (c : ResolvedSshConfig) : ResolvedSshConfig :=
  mkResolved (rc_hostname c) (rc_user c) (rc_port c) (rc_exit_on_forward_failure c) v (rc_set_env c)
    (rc_proxy_jump c) (rc_forward_agent c) (rc_identity_agent c) (rc_remote_forwards c) (rc_dynamic_forwards c)
    (rc_send_env c) (rc_remote_command c) (rc_clear_all_forwardings c) (rc_batch_mode c) (rc_server_alive_interval
    c) (rc_control_master c) (rc_control_path c) (rc_control_persist c) (rc_dump c).
Definition set_rc_set_env (v : list (list byte * list byte)) (c : ResolvedSshConfig) : ResolvedSshConfig :=
  mkResolved (rc_hostname c) (rc_user c) (rc_port c) (rc_exit_on_forward_failure c) (rc_local_forwards c) v
    (rc_proxy_jump c) (rc_forward_agent c) (rc_identity_agent c) (rc_remote_forwards c) (rc_dynamic_forwards c)
    (rc_send_env c) (rc_remote_command c) (rc_clear_all_forwardings c) (rc_batch_mode c) (rc_server_alive_interval
    c) (rc_control_master c) (rc_control_path c) (rc_control_persist c) (rc_dump c).
Definition set_rc_proxy_jump (v : option (list byte)) (c : ResolvedSshConfig) : ResolvedSshConfig :=
  mkResolved (rc_hostname c) (rc_user c) (rc_port c) (rc_exit_on_forward_failure c) (rc_local_forwards c)
    (rc_set_env c) v (rc_forward_agent c) (rc_identity_agent c) (rc_remote_forwards c) (rc_dynamic_forwards c)
    (rc_send_env c) (rc_remote_command c) (rc_clear_all_forwardings c) (rc_batch_mode c) (rc_server_alive_interval
    c) (rc_control_master c) (rc_control_path c) (rc_control_persist c) (rc_dump c).
Definition set_rc_forward_agent (v : bool) (c : ResolvedSshConfig) : ResolvedSshConfig :=
  mkResolved (rc_hostname c) (rc_user c) (rc_port c) (rc_exit_on_forward_failure c) (rc_local_forwards c)
    (rc_set_env c) (rc_proxy_jump c) v (rc_identity_agent c) (rc_remote_forwards c) (rc_dynamic_forwards c)
    (rc_send_env c) (rc_remote_command c) (rc_clear_all_forwardings c) (rc_batch_mode c) (rc_server_alive_interval
    c) (rc_control_master c) (rc_control_path c) (rc_control_persist c) (rc_dump c).
Definition set_rc_identity_agent (v : option (list byte)) (c : ResolvedSshConfig) : ResolvedSshConfig :=
  mkResolved (rc_hostname c) (rc_user c) (rc_port c) (rc_exit_on_forward_failure c) (rc_local_forwards c)
    (rc_set_env c) (rc_proxy_jump c) (rc_forward_agent c) v (rc_remote_forwards c) (rc_dynamic_forwards c)
    (rc_send_env c) (rc_remote_command c) (rc_clear_all_forwardings c) (rc_batch_mode c) (rc_server_alive_interval
    c) (rc_control_master c) (rc_control_path c) (rc_control_persist c) (rc_dump c).
Definition set_rc_remote_forwards (v : list PortForwardSourceRequest) (c : ResolvedSshConfig) : ResolvedSshConfig :=
  mkResolved (rc_hostname c) (rc_user c) (rc_port c) (rc_exit_on_forward_failure c) (rc_local_forwards c)
    (rc_set_env c) (rc_proxy_jump c) (rc_forward_agent c) (rc_identity_agent c) v (rc_dynamic_forwards c)
    (rc_send_env c) (rc_remote_command c) (rc_clear_all_forwardings c) (rc_batch_mode c) (rc_server_alive_interval
    c) (rc_control_master c) (rc_control_path c) (rc_control_persist c) (rc_dump c).
Definition set_rc_dynamic_forwards (v : list SocketEndpoint) (c : ResolvedSshConfig) : ResolvedSshConfig :=
  mkResolved (rc_hostname c) (rc_user c) (rc_port c) (rc_exit_on_forward_failure c) (rc_local_forwards c)
    (rc_set_env c) (rc_proxy_jump c) (rc_forward_agent c) (rc_identity_agent c) (rc_remote_forwards c) v
    (rc_send_env c) (rc_remote_command c) (rc_clear_all_forwardings c) (rc_batch_mode c) (rc_server_alive_interval
    c) (rc_control_master c) (rc_control_path c) (rc_control_persist c) (rc_dump c).
Definition set_rc_send_env (v : list (list byte)) (c : ResolvedSshConfig) : ResolvedSshConfig :=
  mkResolved (rc_hostname c) (rc_user c) (rc_port c) (rc_exit_on_forward_failure c) (rc_local_forwards c)
    (rc_set_env c) (rc_proxy_jump c) (rc_forward_agent c) (rc_identity_agent c) (rc_remote_forwards c)
    (rc_dynamic_forwards c) v (rc_remote_command c) (rc_clear_all_forwardings c) (rc_batch_mode c)
    (rc_server_alive_interval c) (rc_control_master c) (rc_control_path c) (rc_control_persist c) (rc_dump c).
Definition set_rc_remote_command (v : option (list byte)) (c : ResolvedSshConfig) : ResolvedSshConfig :=
  mkResolved (rc_hostname c) (rc_user c) (rc_port c) (rc_exit_on_forward_failure c) (rc_local_forwards c)
    (rc_set_env c) (rc_proxy_jump c) (rc_forward_agent c) (rc_identity_agent c) (rc_remote_forwards c)
    (rc_dynamic_forwards c) (rc_send_env c) v (rc_clear_all_forwardings c) (rc_batch_mode c)
    (rc_server_alive_interval c) (rc_control_master c) (rc_control_path c) (rc_control_persist c) (rc_dump c).
Definition set_rc_clear_all_forwardings (v : bool) (c : ResolvedSshConfig) : ResolvedSshConfig :=
  mkResolved (rc_hostname c) (rc_user c) (rc_port c) (rc_exit_on_forward_failure c) (rc_local_forwards c)
    (rc_set_env c) (rc_proxy_jump c) (rc_forward_agent c) (rc_identity_agent c) (rc_remote_forwards c)
    (rc_dynamic_forwards c) (rc_send_env c) (rc_remote_command c) v (rc_batch_mode c) (rc_server_alive_interval c)
    (rc_control_master c) (rc_control_path c) (rc_control_persist c) (rc_dump c).
Definition set_rc_batch_mode (v : bool) (c : ResolvedSshConfig) : ResolvedSshConfig :=
  mkResolved (rc_hostname c) (rc_user c) (rc_port c) (rc_exit_on_forward_failure c) (rc_local_forwards c)
    (rc_set_env c) (rc_proxy_jump c) (rc_forward_agent c) (rc_identity_agent c) (rc_remote_forwards c)
    (rc_dynamic_forwards c) (rc_send_env c) (rc_remote_command c) (rc_clear_all_forwardings c) v
    (rc_server_alive_interval c) (rc_control_master c) (rc_control_path c) (rc_control_persist c) (rc_dump c).
Definition set_rc_server_alive_interval (v : Z) (c : ResolvedSshConfig) : ResolvedSshConfig :=
  mkResolved (rc_hostname c) (rc_user c) (rc_port c) (rc_exit_on_forward_failure c) (rc_local_forwards c)
    (rc_set_env c) (rc_proxy_jump c) (rc_forward_agent c) (rc_identity_agent c) (rc_remote_forwards c)
    (rc_dynamic_forwards c) (rc_send_env c) (rc_remote_command c) (rc_clear_all_forwardings c) (rc_batch_mode c) v
    (rc_control_master c) (rc_control_path c) (rc_control_persist c) (rc_dump c).
Definition set_rc_control_master (v : option ControlMasterMode) (c : ResolvedSshConfig) : ResolvedSshConfig :=
  mkResolved (rc_hostname c) (rc_user c) (rc_port c) (rc_exit_on_forward_failure c) (rc_local_forwards c)
    (rc_set_env c) (rc_proxy_jump c) (rc_forward_agent c) (rc_identity_agent c) (rc_remote_forwards c)
    (rc_dynamic_forwards c) (rc_send_env c) (rc_remote_command c) (rc_clear_all_forwardings c) (rc_batch_mode c)
    (rc_server_alive_interval c) v (rc_control_path c) (rc_control_persist c) (rc_dump c).
Definition set_rc_control_path (v : option (list byte)) (c : ResolvedSshConfig) : ResolvedSshConfig :=
  mkResolved (rc_hostname c) (rc_user c) (rc_port c) (rc_exit_on_forward_failure c) (rc_local_forwards c)
    (rc_set_env c) (rc_proxy_jump c) (rc_forward_agent c) (rc_identity_agent c) (rc_remote_forwards c)
    (rc_dynamic_forwards c) (rc_send_env c) (rc_remote_command c) (rc_clear_all_forwardings c) (rc_batch_mode c)
    (rc_server_alive_interval c) (rc_control_master c) v (rc_control_persist c) (rc_dump c).
Definition set_rc_control_persist (v : option ControlPersist) (c : ResolvedSshConfig) : ResolvedSshConfig :=
  mkResolved (rc_hostname c) (rc_user c) (rc_port c) (rc_exit_on_forward_failure c) (rc_local_forwards c)
    (rc_set_env c) (rc_proxy_jump c) (rc_forward_agent c) (rc_identity_agent c) (rc_remote_forwards c)
    (rc_dynamic_forwards c) (rc_send_env c) (rc_remote_command c) (rc_clear_all_forwardings c) (rc_batch_mode c)
    (rc_server_alive_interval c) (rc_control_master c) (rc_control_path c) v (rc_dump c).
Definition set_rc_dump (v : list byte) (c : ResolvedSshConfig) : ResolvedSshConfig :=
  mkResolved (rc_hostname c) (rc_user c) (rc_port c) (rc_exit_on_forward_failure c) (rc_local_forwards c)
    (rc_set_env c) (rc_proxy_jump c) (rc_forward_agent c) (rc_identity_agent c) (rc_remote_forwards c)
    (rc_dynamic_forwards c) (rc_send_env c) (rc_remote_command c) (rc_clear_all_forwardings c) (rc_batch_mode c)
    (rc_server_alive_interval c) (rc_control_master c) (rc_control_path c) (rc_control_persist c) v.

(** What [ForwardConfig] reads of it. *)
Definition forward_view (c : ResolvedSshConfig) : ForwardConfig.ResolvedSshConfig :=
  ForwardConfig.mkResolved (rc_exit_on_forward_failure c) (rc_local_forwards c) (rc_remote_forwards c)
    (rc_dynamic_forwards c) (rc_clear_all_forwardings c).

(** ** Endpoints *)

Definition parse_port (value : list byte) : option Z :=
  let! port := parse_u16 value in if port =? 0 then None else Some port.

Definition parse_unix_endpoint (value : list byte) : option SocketEndpoint :=
  if negb (starts_with (bytes_of "/") value) || same value "/" || (107 <? zlen value) || contains x00 value then None
  else Some (mkEndpoint (Some value) None).

Definition parse_tcp_endpoint (value : list byte) (allow_empty_host : bool) : option SocketEndpoint :=
  let! hp :=
    match strip_prefix (bytes_of "[") value with
    | Some bracketed =>
        let! hp := split_once_str (bytes_of "]:") bracketed in
        let (host, port) := hp in
        if (negb allow_empty_host && bool_decide (host = [])) || contains ":" port then None else Some (host, port)
    | None =>
        let! hp := rsplit_once ":" value in
        let (host, port) := hp in
        if bool_decide (host = []) || contains ":" host then None else Some (host, port)
    end in
  let (host, port) := hp in
  let! port := parse_port port in
  Some (mkEndpoint (Some host) (Some port)).

Definition normalize_tcp_source (endpoint : SocketEndpoint) (gateway_ports : GatewayPorts) (is_local_forward : bool)
    : SocketEndpoint :=
  let normalized :=
    match is_local_forward, gateway_ports, ep_name endpoint with
    | false, _, None => bytes_of "localhost"
    | false, _, Some requested => if same requested "*" || same requested "[*]" then [] else requested
    | true, _, Some requested =>
        if bool_decide (requested = []) || same requested "*" || same requested "[*]" then [] else requested
    | true, (GatewayNo | ClientSpecified), None => bytes_of "localhost"
    | true, GatewayYes, None => []
    end in
  mkEndpoint (Some normalized) (ep_port endpoint).

Definition parse_source_endpoint (value : list byte) (gateway_ports : GatewayPorts) (is_local_forward : bool)
    : option SocketEndpoint :=
  match parse_unix_endpoint value with
  | Some endpoint => Some endpoint
  | None =>
      if negb (bool_decide (value = [])) && forallb is_ascii_digit value then
        let! port := parse_port value in
        Some (normalize_tcp_source (mkEndpoint None (Some port)) gateway_ports is_local_forward)
      else
        let! endpoint := parse_tcp_endpoint value true in
        Some (normalize_tcp_source endpoint gateway_ports is_local_forward)
  end.

Definition parse_destination_endpoint (value : list byte) : option SocketEndpoint :=
  match parse_unix_endpoint value with Some endpoint => Some endpoint | None => parse_tcp_endpoint value false end.

Inductive ForwardRecord := Supported (request : PortForwardSourceRequest) | UnsupportedRecord (reason : list byte).

Definition is_relative_stream_path (value : list byte) : bool :=
  negb (starts_with (bytes_of "/") value) && contains "/" value.

Definition parse_forward (fields : list (list byte)) (policies : ForwardPolicies) (directive : list byte)
    : result ClientError ForwardRecord :=
  if negb (zlen fields =? 2) && existsb (contains "/") fields
  then Ok (UnsupportedRecord (bytes_of "ambiguous stream-local path is unsupported"))
  else
    match fields with
    | [source; destination] =>
        if is_relative_stream_path source || is_relative_stream_path destination
        then Ok (UnsupportedRecord (bytes_of "relative stream-local path is unsupported"))
        else if starts_with (bytes_of "/") source && match stream_local_bind policies with BindUnsupported => true | BindDefault => false end
        then Ok (UnsupportedRecord (bytes_of "stream-local bind policy is unsupported"))
        else
          match parse_source_endpoint source (gateway_ports policies) true with
          | None => Err (SshConfigMalformedForward directive (bytes_of "invalid source endpoint"))
          | Some source =>
              match parse_destination_endpoint destination with
              | None => Err (SshConfigMalformedForward directive (bytes_of "invalid destination endpoint"))
              | Some destination => Ok (Supported (mkSource (Some source) (Some destination) None))
              end
          end
    | _ => Err (SshConfigMalformedForward directive (bytes_of "expected exactly two fields"))
    end.

(** ** The parser *)

Definition parse_yes_no (directive : string) (value : list byte) : result ClientError bool :=
  if same value "yes" then Ok true else if same value "no" then Ok false else malformed directive.

Definition parse_gateway_ports (value : list byte) : result ClientError GatewayPorts :=
  if same value "no" then Ok GatewayNo
  else if same value "yes" then Ok GatewayYes
  else if same value "clientspecified" then Ok ClientSpecified
  else malformed "gatewayports".

(** The value of the first line with the key that has one. *)
Fixpoint first_value (key : string) (ls : list (list byte)) : option (list byte) :=
  match ls with
  | [] => None
  | line :: ls =>
      match split_whitespace line with
      | k :: value :: _ => if is_key k key then Some value else first_value key ls
      | _ => first_value key ls
      end
  end.

Definition bind_line (policy : StreamLocalBindPolicy) (line : list byte) : StreamLocalBindPolicy :=
  match split_whitespace line with
  | key :: value :: _ =>
      if is_key key "streamlocalbindunlink" && negb (is_key value "no") then BindUnsupported
      else if is_key key "streamlocalbindmask" && negb (same value "0177") && negb (same value "177") then BindUnsupported
      else policy
  | _ => policy
  end.
Definition parse_stream_local_bind (ls : list (list byte)) : StreamLocalBindPolicy := foldl bind_line BindDefault ls.

(** [dynamic.remove(index)] of the first that is equal. *)
Fixpoint remove_first (x : list byte) (l : list (list byte)) : list (list byte) :=
  match l with [] => [] | y :: l => if list_eqb y x then l else y :: remove_first x l end.

Definition dynamic_of (line : list byte) : list (list byte) :=
  match split_whitespace line with
  | key :: value :: _ => if is_key key "dynamicforward" then [value] else []
  | _ => []
  end.
Definition drop_unix (dynamic : list (list byte)) (line : list byte) : list (list byte) :=
  match split_whitespace line with
  | key :: source :: destination :: _ =>
      if is_key key "localforward" && starts_with (bytes_of "/") destination then remove_first source dynamic else dynamic
  | _ => dynamic
  end.
Definition unsupported_dynamic_forwards (ls : list (list byte)) : list (list byte) :=
  foldl drop_unix (concat (map dynamic_of ls)) ls.

(** The variables of the loop over the lines. *)
Record Rows := mkRows {
  r_hostname : option (list byte);
  r_user : option (list byte);
  r_port : option Z;
  r_local : list PortForwardSourceRequest;
  r_names : list (list byte);
  r_extra : ResolvedSshConfig
}.
Definition on_extra (f : ResolvedSshConfig -> ResolvedSshConfig) (r : Rows) : Rows :=
  mkRows (r_hostname r) (r_user r) (r_port r) (r_local r) (r_names r) (f (r_extra r)).

Definition unless (b : bool) (value : list byte) : option (list byte) := if b then None else Some value.

Definition setenv_row (value : list byte) (r : Rows) : result ClientError Rows :=
  match split_once "=" value with
  | None => malformed "setenv"
  | Some (name, value) =>
      if negb (portable_environment_name name) || (MAX_ENV_VALUE <? zlen value) || contains x00 value || contains x0d value
      then malformed "setenv"
      else if bool_decide (name ∈ r_names r) then Ok r
      else Ok (mkRows (r_hostname r) (r_user r) (r_port r) (r_local r) (name :: r_names r)
                 (set_rc_set_env (rc_set_env (r_extra r) ++ [(name, value)]) (r_extra r)))
  end.

Definition remoteforward_row (policies : ForwardPolicies) (fields : list (list byte)) (r : Rows) : result ClientError Rows :=
  if bool_decide (nth_error fields 1 = Some (bytes_of "[socks]:0"))
     || is_some_and (fun source => same source "0" || ends_with (bytes_of ":0") source) (head fields)
  then Ok r
  else
    let? record := parse_forward fields (mkPolicies ClientSpecified (stream_local_bind policies)) (bytes_of "remoteforward") in
    match record with
    | Supported forward => Ok (on_extra (fun c => set_rc_remote_forwards (rc_remote_forwards c ++ [forward]) c) r)
    | UnsupportedRecord _ => Ok r
    end.

Definition localforward_row (policies : ForwardPolicies) (fields : list (list byte)) (r : Rows) : result ClientError Rows :=
  let? record := parse_forward fields policies (bytes_of "localforward") in
  match record with
  | Supported forward =>
      Ok (mkRows (r_hostname r) (r_user r) (r_port r) (r_local r ++ [forward]) (r_names r) (r_extra r))
  | UnsupportedRecord _ => Ok r
  end.

Definition dynamicforward_row (policies : ForwardPolicies) (dynamic : list (list byte)) (value : list byte) (r : Rows)
    : result ClientError Rows :=
  if bool_decide (value ∈ dynamic) then
    match parse_source_endpoint value (gateway_ports policies) true with
    | None => malformed "dynamicforward"
    | Some source => Ok (on_extra (fun c => set_rc_dynamic_forwards (rc_dynamic_forwards c ++ [source]) c) r)
    end
  else Ok r.

(** One line. [plf] is [parse_local_forwards]. *)
Definition row (plf : bool) (policies : ForwardPolicies) (dynamic : list (list byte)) (r : Rows) (line : list byte)
    : result ClientError Rows :=
  let value := unwrap_or [] (after_white (trim_start line)) in
  match split_whitespace line with
  | [] => Ok r
  | key :: fields =>
      if plf && is_key key "setenv" then setenv_row value r
      else if plf && is_key key "proxyjump" then Ok (on_extra (set_rc_proxy_jump (unless (same value "none") value)) r)
      else if plf && is_key key "forwardagent" then
        let? b := parse_yes_no "forwardagent" value in Ok (on_extra (set_rc_forward_agent b) r)
      else if plf && is_key key "identityagent" then Ok (on_extra (set_rc_identity_agent (Some value)) r)
      else if plf && is_key key "sendenv" then
        Ok (on_extra (fun c => set_rc_send_env (rc_send_env c ++ split_whitespace value) c) r)
      else if plf && is_key key "remotecommand" then
        Ok (on_extra (set_rc_remote_command (unless (is_key value "none" || bool_decide (value = [])) value)) r)
      else if plf && is_key key "clearallforwardings" then
        let? b := parse_yes_no "clearallforwardings" value in Ok (on_extra (set_rc_clear_all_forwardings b) r)
      else if plf && is_key key "batchmode" then
        let? b := parse_yes_no "batchmode" value in Ok (on_extra (set_rc_batch_mode b) r)
      else if plf && is_key key "serveraliveinterval" then
        match from_str_radix 10 u32_max value with
        | Some n => Ok (on_extra (set_rc_server_alive_interval n) r)
        | None => malformed "serveraliveinterval"
        end
      else if plf && is_key key "controlmaster" then
        match parse_control_master value with
        | Some m => Ok (on_extra (set_rc_control_master (Some m)) r)
        | None => malformed "controlmaster"
        end
      else if plf && is_key key "controlpath" then Ok (on_extra (set_rc_control_path (unless (same value "none") value)) r)
      else if plf && is_key key "controlpersist" then
        match parse_control_persist value with
        | Some p => Ok (on_extra (set_rc_control_persist (Some p)) r)
        | None => malformed "controlpersist"
        end
      else if is_key key "hostname" then
        Ok (mkRows (head fields) (r_user r) (r_port r) (r_local r) (r_names r) (r_extra r))
      else if is_key key "user" then
        Ok (mkRows (r_hostname r) (head fields) (r_port r) (r_local r) (r_names r) (r_extra r))
      else if is_key key "port" then
        Ok (mkRows (r_hostname r) (r_user r) (let! p := head fields in parse_u16 p) (r_local r) (r_names r) (r_extra r))
      else if plf && is_key key "dynamicforward" then dynamicforward_row policies dynamic value r
      else if plf && is_key key "remoteforward" then remoteforward_row policies fields r
      else if plf && is_key key "localforward" then localforward_row policies fields r
      else Ok r
  end.

Fixpoint rows (plf : bool) (policies : ForwardPolicies) (dynamic : list (list byte)) (ls : list (list byte)) (r : Rows)
    : result ClientError Rows :=
  match ls with
  | [] => Ok r
  | line :: ls => let? r := row plf policies dynamic r line in rows plf policies dynamic ls r
  end.

Definition validate_ssh_destination (host : list byte) (user : option (list byte)) : result ClientError unit :=
  if starts_with (bytes_of "-") host then Err (InvalidSshComponent (bytes_of "host"))
  else if is_some_and (starts_with (bytes_of "-")) user then Err (InvalidSshComponent (bytes_of "user"))
  else Ok tt.

Definition nonempty (o : option (list byte)) : option (list byte) :=
  match o with Some [] => None | _ => o end.

(** The end of [parse_ssh_config]. *)
Definition finish_rows (exit_on_forward_failure : bool) (r : Rows) : result ClientError ResolvedSshConfig :=
  match nonempty (r_hostname r) with
  | None => malformed "hostname"
  | Some hostname =>
      let user := nonempty (r_user r) in
      let? _ := validate_ssh_destination hostname user in
      let c := r_extra r in
      let clear := rc_clear_all_forwardings c in
      Ok (mkResolved hostname user (unwrap_or 22 (r_port r)) exit_on_forward_failure
            (if clear then [] else r_local r) (rc_set_env c) (rc_proxy_jump c) (rc_forward_agent c) (rc_identity_agent c)
            (if clear then [] else rc_remote_forwards c) (if clear then [] else rc_dynamic_forwards c) (rc_send_env c)
            (rc_remote_command c) clear (rc_batch_mode c) (rc_server_alive_interval c) (rc_control_master c)
            (rc_control_path c) (rc_control_persist c) (rc_dump c))
  end.

(** The parts of [parse_ssh_config] before and in its loop, on the lines. *)
Definition parse_lines (plf : bool) (dump : list byte) (ls : list (list byte)) : result ClientError ResolvedSshConfig :=
  let? gateway_ports :=
    match first_value "gatewayports" ls with Some v => parse_gateway_ports v | None => Ok GatewayNo end in
  let policies := mkPolicies gateway_ports (parse_stream_local_bind ls) in
  let? exit_on_forward_failure :=
    match first_value "exitonforwardfailure" ls with Some v => parse_yes_no "exitonforwardfailure" v | None => Ok false end in
  let? r := rows plf policies (unsupported_dynamic_forwards ls) ls
              (mkRows None None None [] [] (set_rc_dump dump resolved_default)) in
  finish_rows exit_on_forward_failure r.

Definition parse_ssh_config (stdout : list byte) (parse_local_forwards : bool) : result ClientError ResolvedSshConfig :=
  if from_utf8 stdout then parse_lines parse_local_forwards stdout (lines stdout) else malformed "UTF-8 output".

(** ** The query *)

Definition SENTINEL_LINE : list byte := bytes_of "setenv ET_RS_CONFIG_SENTINEL=1".

(** The loop of [verify_setenv_block] over the lines of the baseline: what is
    before the block and what is behind it. *)
Fixpoint find_block (pieces : list (list byte)) (before : list byte) (block : option (list byte * list byte))
    : option (option (list byte * list byte)) :=
  match pieces with
  | [] => Some block
  | line :: pieces =>
      if starts_with (bytes_of "setenv ") line then
        if match block with Some _ => true | None => false end
           || negb (list_eqb line (SENTINEL_LINE ++ [x0a]) || list_eqb line (SENTINEL_LINE ++ [x0d; x0a]))
        then None
        else find_block pieces (before ++ line) (Some (before, concat pieces))
      else find_block pieces (before ++ line) block
  end.

Definition verify_setenv_block (original baseline : list byte) : result ClientError unit :=
  let malformed := malformed "ambiguous or changed SetEnv output" in
  if negb (from_utf8 original && from_utf8 baseline) then malformed
  else
    match find_block (split_inclusive x0a baseline) [] None with
    | Some (Some (before, after)) =>
        match (let! rest := strip_prefix before original in strip_suffix after rest) with
        | None => malformed
        | Some environment =>
            if negb (ends_with [x0a] environment)
               || negb (forallb (fun line => starts_with (bytes_of "setenv ") line && negb (contains x0d line))
                          (lines environment))
            then malformed
            else Ok tt
        end
    | _ => malformed
    end.

Definition COMMAND_SENTINEL : list byte := bytes_of "remotecommand ET_RS_CONFIG_SENTINEL".

(** The check of [RemoteCommand] in [resolve_ssh_config_on_port]. *)
Definition verify_remote_command (original baseline : list byte) : result ClientError unit :=
  let malformed := malformed "ambiguous RemoteCommand output" in
  if negb (from_utf8 baseline && from_utf8 original) then malformed
  else
    match split_once_str COMMAND_SENTINEL baseline with
    | None => malformed
    | Some (before, after) =>
        match (match strip_prefix [x0d; x0a] after with
               | Some after => Some ([x0d; x0a], after)
               | None => let! after := strip_prefix [x0a] after in Some ([x0a], after)
               end) with
        | None => malformed
        | Some (newline, after) =>
            match (let! rest := strip_prefix before original in
                   let! command := strip_suffix after rest in
                   let! rest := strip_prefix (bytes_of "remotecommand ") command in
                   strip_suffix newline rest) with
            | None => malformed
            | Some command =>
                if contains x0a command || contains x0d command || contains x00 command then malformed else Ok tt
            end
        end
    end.

Record SshInvocation := mkInvocation { program : list byte; args : list (list byte) }.

(** [status] is absent when the program was stopped at its marker; its code is
    absent when a signal ended it. *)
Record SshOutput := mkSshOutput { status : option (option Z); stdout : list byte }.

Record SshConfigQuery := mkQuery {
  host_alias : list byte;
  requested_user : option (list byte);
  explicit_port : option Z;
  ssh_options : list (list byte);
  query_config : option (list byte);
  parse_local_forwards : bool
}.

Definition append_ssh_config_flag (args : list (list byte)) (config : option (list byte)) : list (list byte) :=
  match config with Some path => args ++ [bytes_of "-F"; path] | None => args end.

Definition option_argument (option : list byte) : list byte := bytes_of "-o" ++ option.

Definition user_at (user : option (list byte)) (host : list byte) : list byte :=
  match user with Some user => user ++ bytes_of "@" ++ host | None => host end.

Definition config_invocation (q : SshConfigQuery) : SshInvocation :=
  let args := append_ssh_config_flag [bytes_of "-G"; bytes_of "-T"] (query_config q) in
  let args := match explicit_port q with Some port => args ++ [bytes_of "-p"; dec port] | None => args end in
  let args := args ++ map option_argument (ssh_options q) in
  mkInvocation (bytes_of "ssh") (args ++ [user_at (requested_user q) (host_alias q)]).

(** [args.insert(2, argument)]; there are at least three. *)
Definition insert_argument (argument : list byte) (i : SshInvocation) : SshInvocation :=
  mkInvocation (program i) (take 2 (args i) ++ argument :: drop 2 (args i)).

Definition SETENV_ARGUMENT : list byte := bytes_of "-oSetEnv=ET_RS_CONFIG_SENTINEL=1".
Definition COMMAND_ARGUMENT : list byte := bytes_of "-oRemoteCommand=ET_RS_CONFIG_SENTINEL".

Definition has_line (prefix : string) (text : list byte) : bool :=
  existsb (starts_with (bytes_of prefix)) (split_by (fun b => beq b x0a) text).

Section query.
(** What the runs of ssh answer, the first, second and third. *)
Context (runner : nat -> SshInvocation -> result ClientError SshOutput).

Definition run_checked (n : nat) (i : SshInvocation) : result ClientError (list byte) :=
  let? output := runner n i in
  match status output with
  | Some (Some 0) | None => Ok (stdout output)
  | Some code => Err (SshNonZero code)
  end.

Definition resolve_ssh_config_on_port (q : SshConfigQuery) : result ClientError ResolvedSshConfig :=
  let? _ := validate_ssh_destination (host_alias q) (requested_user q) in
  let invocation := config_invocation q in
  let? out := run_checked 0 invocation in
  let? n := if has_line "setenv " out then
              let? baseline := run_checked 1 (insert_argument SETENV_ARGUMENT invocation) in
              let? _ := verify_setenv_block out baseline in Ok 2%nat
            else Ok 1%nat in
  let? _ := if has_line "remotecommand " out then
              let? baseline := run_checked n (insert_argument COMMAND_ARGUMENT invocation) in
              verify_remote_command out baseline
            else Ok tt in
  parse_ssh_config out (parse_local_forwards q).
End query.

(** ** Options of the session *)

(** [split_quoted_words]; [skip] is as in [split_whitespace]. *)
Fixpoint quoted_go (skip : nat) (words : list (list byte)) (word : list byte) (quote : option byte) (escaped : bool)
    (l : list byte) : result ClientError (list (list byte)) :=
  let ended := match word with [] => words | _ => words ++ [word] end in
  match l with
  | [] => if escaped || bool_decide (is_Some quote) then malformed "setenv" else Ok ended
  | c :: rest =>
      match skip with
      | S skip => quoted_go skip words word quote escaped rest
      | O =>
          if escaped then quoted_go 0 words (word ++ [c]) quote false rest
          else if beq c x5c then quoted_go 0 words word quote true rest
          else if bool_decide (quote = Some c) then quoted_go 0 words word None false rest
          else if bool_decide (quote = None) && (beq c x27 || beq c x22) then quoted_go 0 words word (Some c) false rest
          else if bool_decide (quote = None) && negb (Nat.eqb (ws_len l) 0) then
            quoted_go (Nat.pred (ws_len l)) ended [] quote false rest
          else quoted_go 0 words (word ++ [c]) quote false rest
      end
  end.
Definition split_quoted_words (value : list byte) : result ClientError (list (list byte)) := quoted_go 0 [] [] None false value.

Definition format_endpoint (endpoint : SocketEndpoint) : list byte :=
  match ep_name endpoint, ep_port endpoint with
  | Some name, Some port =>
      if contains ":" name then bytes_of "[" ++ name ++ bytes_of "]:" ++ dec port else name ++ bytes_of ":" ++ dec port
  | None, Some port => bytes_of "localhost:" ++ dec port
  | Some name, None => name
  | None, None => []
  end.

(** The words of one [SetEnv]; those before a bad one have been set. *)
Fixpoint assign_words (assignments : list (list byte)) (c : ResolvedSshConfig) : ResolvedSshConfig * result ClientError unit :=
  match assignments with
  | [] => (c, Ok tt)
  | assignment :: rest =>
      match split_once "=" assignment with
      | None => (c, malformed "setenv")
      | Some (name, value) =>
          if negb (portable_environment_name name) || (MAX_ENV_VALUE <? zlen value) then (c, malformed "setenv")
          else assign_words rest (set_rc_set_env (filter (fun e => fst e <> name) (rc_set_env c) ++ [(name, value)]) c)
      end
  end.

(** The requests of [LocalForward] and [RemoteForward]. *)
Definition option_requests (key value : list byte) : result ClientError (list PortForwardSourceRequest) :=
  if zlen (split_whitespace value) =? 1 then map_err (fun e => ForwardConfigFailed (TunnelFailed e)) (parse_tunnels [value])
  else
    let gateway := if same key "localforward" then GatewayNo else ClientSpecified in
    let directive := if same key "localforward" then bytes_of "localforward" else bytes_of "remoteforward" in
    let? record := parse_forward (split_whitespace value) (mkPolicies gateway BindDefault) directive in
    match record with Supported request => Ok [request] | UnsupportedRecord _ => Ok [] end.

(** One option; [Ok None] when it is not one of the session. *)
Definition apply_option (text : list byte) (c : ResolvedSshConfig)
    : ResolvedSshConfig * result ClientError (option (list byte)) :=
  let (key, value) := split_ssh_option text in
  let key := lowercase key in
  if bool_decide (key = []) || bool_decide (value = []) || contains x00 value || contains x0a value || contains x0d value
  then (c, malformed "-o option")
  else if same key "localforward" || same key "remoteforward" then
    match option_requests key value with
    | Err e => (c, Err e)
    | Ok requests =>
        (if rc_clear_all_forwardings c then c
         else if same key "localforward" then set_rc_local_forwards (rc_local_forwards c ++ requests) c
         else set_rc_remote_forwards (rc_remote_forwards c ++ requests) c, Ok (Some key))
    end
  else if same key "dynamicforward" then
    match parse_dynamic_forward value with
    | Err e => (c, Err (ForwardConfigFailed (TunnelFailed e)))
    | Ok endpoint =>
        (if rc_clear_all_forwardings c then c else set_rc_dynamic_forwards (rc_dynamic_forwards c ++ [endpoint]) c,
         Ok (Some key))
    end
  else if same key "sendenv" then
    (set_rc_send_env (foldl send_env_word (rc_send_env c) (split_whitespace value)) c, Ok (Some key))
  else if same key "setenv" then
    match split_quoted_words value with
    | Err e => (c, Err e)
    | Ok assignments =>
        match assign_words assignments c with
        | (c, Ok _) => (c, Ok (Some key))
        | (c, Err e) => (c, Err e)
        end
    end
  else (c, Ok None).

Fixpoint apply_options (options : list (list byte)) (changed : BTreeMap unit) (c : ResolvedSshConfig)
    : ResolvedSshConfig * result ClientError (BTreeMap unit) :=
  match options with
  | [] => (c, Ok changed)
  | option :: options =>
      match apply_option option c with
      | (c, Err e) => (c, Err e)
      | (c, Ok None) => apply_options options changed c
      | (c, Ok (Some key)) => apply_options options (bt_insert key tt changed) c
      end
  end.

Definition dump_request (key : list byte) (r : PortForwardSourceRequest) : list byte :=
  match source r, destination r with
  | Some source, Some destination =>
      key ++ bytes_of " " ++ format_endpoint source ++ bytes_of " " ++ format_endpoint destination ++ [x0a]
  | _, _ => []
  end.

(** The lines of a key that changed. *)
Definition dump_key (c : ResolvedSshConfig) (key : list byte) : list byte :=
  if same key "sendenv" then concat (map (fun p => bytes_of "sendenv " ++ p ++ [x0a]) (rc_send_env c))
  else if same key "setenv" then
    concat (map (fun e => bytes_of "setenv " ++ fst e ++ bytes_of "=" ++ snd e ++ [x0a]) (rc_set_env c))
  else if same key "dynamicforward" then
    concat (map (fun e => bytes_of "dynamicforward " ++ format_endpoint e ++ [x0a]) (rc_dynamic_forwards c))
  else concat (map (dump_request key) (if same key "localforward" then rc_local_forwards c else rc_remote_forwards c)).

Definition apply_session_options (c : ResolvedSshConfig) (options : list (list byte))
    : ResolvedSshConfig * result ClientError unit :=
  match apply_options options [] c with
  | (c, Err e) => (c, Err e)
  | (c, Ok []) => (c, Ok tt)
  | (c, Ok changed) =>
      let kept := filter (fun line => contains_key (unwrap_or [] (head (split_whitespace line))) changed = false)
                    (lines (rc_dump c)) in
      (set_rc_dump (concat (map (fun line => line ++ [x0a]) kept) ++ concat (map (dump_key c) (map fst changed))) c, Ok tt)
  end.

(** ** The file of [--ssh-config] *)

Definition is_windows_absolute_ssh_config_path (path : list byte) : bool :=
  match path with
  | a :: b :: c :: _ =>
      (beq a x5c && beq b x5c) || (is_ascii_alphabetic a && beq b ":" && (beq c x5c || beq c "/"))
  | _ => false
  end.
Definition is_absolute_ssh_config_path (path : list byte) : bool :=
  starts_with (bytes_of "/") path || is_windows_absolute_ssh_config_path path.
Definition is_ssh_config_path_char_safe (character : byte) (windows_path : bool) : bool :=
  is_ascii_alphanumeric character || beq character "/" || beq character "." || beq character "_" || beq character "-"
  || (windows_path && (beq character ":" || beq character x5c)).
Definition is_ssh_config_path_safe_for_proxy_jump (path : list byte) : bool :=
  is_absolute_ssh_config_path path
  && forallb (fun c => is_ssh_config_path_char_safe c (is_windows_absolute_ssh_config_path path)) path.

(** What the system says of a path: nothing, or whether it is a symbolic link,
    a regular file and readable. *)
Definition validate_ssh_config_file (metadata : list byte -> option (bool * bool * bool)) (path : list byte)
    : result ClientError unit :=
  let not_a_file := Err (InvalidSshConfig (bytes_of "must name a readable, non-symlink regular file")) in
  if negb (is_absolute_ssh_config_path path)
  then Err (InvalidSshConfig (bytes_of "must be an absolute path or 'none'"))
  else if negb (is_ssh_config_path_safe_for_proxy_jump path)
  then Err (InvalidSshConfig (bytes_of "must contain only ASCII letters, digits, '/', '.', '_', and '-' (Windows also allows ':' and '\')"))
  else
    match metadata path with
    | None => not_a_file
    | Some (is_symlink, is_file, readable) => if is_symlink || negb is_file || negb readable then not_a_file else Ok tt
    end.

(** ** A value cannot become a directive

    [ssh -G] prints the values of [SetEnv] and of [RemoteCommand] as they are,
    with the newlines they may hold. The configuration without what one of
    the two sets: *)

Inductive Printed := SetEnv | RemoteCommand.

Definition keyword (h : Printed) : string := match h with SetEnv => "setenv" | RemoteCommand => "remotecommand" end.

Definition without (h : Printed) (c : ResolvedSshConfig) : ResolvedSshConfig :=
  set_rc_dump [] (match h with SetEnv => set_rc_set_env [] c | RemoteCommand => set_rc_remote_command None c end).

Definition quiet (h : Printed) (r : Rows) : Rows :=
  mkRows (r_hostname r) (r_user r) (r_port r) (r_local r) (match h with SetEnv => [] | RemoteCommand => r_names r end)
    (without h (r_extra r)).

Lemma quiet_eq h r s :
  quiet h r = quiet h s <->
  r_hostname r = r_hostname s /\ r_user r = r_user s /\ r_port r = r_port s /\ r_local r = r_local s /\
  (h = RemoteCommand -> r_names r = r_names s) /\ without h (r_extra r) = without h (r_extra s).
Proof.
  split.
  - intros H. split_and!; [exact (f_equal r_hostname H)|exact (f_equal r_user H)|exact (f_equal r_port H)
      |exact (f_equal r_local H)|intros ->; exact (f_equal r_names H)|exact (f_equal r_extra H)].
  - intros (H1 & H2 & H3 & H4 & H5 & H6). unfold quiet. rewrite H1, H2, H3, H4, H6. destruct h; [done|]. by rewrite H5.
Qed.

(** What comes of a row whatever is hidden; [Err] comes of it in both cases. *)
Definition related (h : Printed) (o o' : result ClientError Rows) : Prop :=
  forall r', o = Ok r' -> exists s', o' = Ok s' /\ quiet h r' = quiet h s'.

Lemma related_ok h r s : quiet h r = quiet h s -> related h (Ok r) (Ok s).
Proof. intros H r' [= <-]. eauto. Qed.

Lemma related_extra h f r s :
  (forall c c', without h c = without h c' -> without h (f c) = without h (f c')) ->
  quiet h r = quiet h s -> related h (Ok (on_extra f r)) (Ok (on_extra f s)).
Proof.
  intros Hf H. apply related_ok, quiet_eq. apply quiet_eq in H as (? & ? & ? & ? & ? & He). split_and!; try done. by apply Hf.
Qed.

(** Comparisons of two keywords. *)
Ltac keys :=
  repeat match goal with
  | |- context [is_key (bytes_of ?a) ?b] =>
      let v := eval vm_compute in (is_key (bytes_of a) b) in replace (is_key (bytes_of a) b) with v by (vm_compute; reflexivity)
  end.

(** A field that is set from itself and from nothing that is hidden. *)
Ltac field_only h :=
  let c := fresh in let d := fresh in
  intros c d; destruct h, c, d; unfold without; cbn; intros [=]; subst; done.

Lemma related_setenv h value r s : quiet h r = quiet h s -> related h (setenv_row value r) (setenv_row value s).
Proof.
  intros (H1 & H2 & H3 & H4 & H5 & H6)%quiet_eq r'. unfold setenv_row.
  destruct (split_once _ _) as [[name v]|]; [|done]. destruct (_ || _); [done|].
  destruct h.
  - intros Hr. assert (quiet SetEnv r' = quiet SetEnv s) as Hr'.
    { apply quiet_eq. destruct (bool_decide _); injection Hr as <-; split_and!; done. }
    destruct (bool_decide (name ∈ r_names s)); eexists; (split; [done|]); [done|].
    rewrite Hr'. apply quiet_eq. by split_and!.
  - specialize (H5 eq_refl). rewrite H5. destruct (bool_decide _); intros [= <-]; eexists; (split; [done|]).
    + by apply quiet_eq.
    + unfold quiet. cbn [r_hostname r_user r_port r_local r_names r_extra]. rewrite H1, H2, H3, H4. f_equal.
      revert H6. destruct (r_extra r), (r_extra s). unfold without. cbn. intros [=]. by subst.
Qed.

Lemma related_forward h policies fields r s :
  quiet h r = quiet h s -> related h (localforward_row policies fields r) (localforward_row policies fields s).
Proof.
  intros H. unfold localforward_row. destruct (parse_forward _ _ _) as [[request|]|]; [|by apply related_ok|done].
  apply related_ok, quiet_eq. apply quiet_eq in H as (? & ? & ? & He & ? & ?). cbn. by rewrite He.
Qed.

Lemma related_remote h policies fields r s :
  quiet h r = quiet h s -> related h (remoteforward_row policies fields r) (remoteforward_row policies fields s).
Proof.
  intros H. unfold remoteforward_row. destruct (_ || _); [by apply related_ok|].
  destruct (parse_forward _ _ _) as [[request|]|]; [|by apply related_ok|done]. apply related_extra; [field_only h|done].
Qed.

Lemma related_dynamic h policies dynamic value r s :
  quiet h r = quiet h s -> related h (dynamicforward_row policies dynamic value r) (dynamicforward_row policies dynamic value s).
Proof.
  intros H. unfold dynamicforward_row. destruct (bool_decide _); [|by apply related_ok].
  destruct (parse_source_endpoint _ _ _); [|done]. apply related_extra; [field_only h|done].
Qed.

Lemma row_related h plf policies dynamic r s line :
  quiet h r = quiet h s -> related h (row plf policies dynamic r line) (row plf policies dynamic s line).
Proof.
  intros H. unfold row. cbv zeta. destruct (split_whitespace line) as [|key fields]; [by apply related_ok|].
  repeat match goal with
  | |- related _ (if ?b then _ else _) _ => destruct b
  | |- related _ (match ?x with Ok _ => _ | Err _ => _ end) _ => destruct x; [|done]
  | |- related _ (match ?x with Some _ => _ | None => _ end) _ => destruct x; [|done]
  end;
  first [by apply related_setenv | by apply related_forward | by apply related_remote | by apply related_dynamic
        | by apply related_extra; [field_only h|]
        | apply related_ok, quiet_eq; apply quiet_eq in H as (? & ? & ? & ? & ? & ?); by split_and!].
Qed.

Lemma rows_related h plf policies dynamic ls r s :
  quiet h r = quiet h s -> related h (rows plf policies dynamic ls r) (rows plf policies dynamic ls s).
Proof.
  revert r s. induction ls as [|line ls IH]; intros r s H; cbn [rows]; [by apply related_ok|].
  intros r' Hr. destruct (row _ _ _ r line) as [r1|] eqn:E; [|done].
  destruct (row_related h plf policies dynamic r s line H r1 E) as (s1 & -> & H1). by apply (IH r1 s1).
Qed.

(** ** Lines of one of the two *)

Definition prefix_of (h : Printed) : list byte := bytes_of (keyword h) ++ [x20].
Definition line_for (h : Printed) (line : list byte) : Prop := starts_with (prefix_of h) line = true.

Lemma line_words h line : line_for h line -> exists fields, split_whitespace line = bytes_of (keyword h) :: fields.
Proof. intros [rest ->]%starts_with_spec. exists (words_go 0 [] rest). by destruct h. Qed.

Lemma rows_app plf policies dynamic a b r :
  rows plf policies dynamic (a ++ b) r = let? r := rows plf policies dynamic a r in rows plf policies dynamic b r.
Proof.
  revert r. induction a as [|line a IH]; intros r; cbn [rows app]; [done|].
  destruct (row _ _ _ r line); [apply IH|done].
Qed.

Lemma rows_quiet h plf policies dynamic ls r r' :
  Forall (line_for h) ls -> rows plf policies dynamic ls r = Ok r' -> quiet h r' = quiet h r.
Proof.
  intros H. revert r. induction H as [|line ls Hl _ IH]; intros r; cbn [rows]; [by intros [= <-]|].
  destruct (row _ _ _ r line) as [r1|] eqn:E; [|done]. intros ->%IH. revert E.
  destruct (line_words h line Hl) as [fields Hf]. unfold row. rewrite Hf. clear Hf. cbv zeta.
  destruct plf, h; cbn [keyword andb]; keys; cbn [andb]; try by intros [= <-].
  unfold setenv_row. destruct (split_once _ _) as [[name v]|]; [|done].
  destruct (_ || _); [done|]. by destruct (bool_decide _); intros [= <-].
Qed.

(** No other lookup sees them. *)
Lemma first_value_for h key a e b :
  is_key (bytes_of (keyword h)) key = false -> Forall (line_for h) e -> first_value key (a ++ e ++ b) = first_value key (a ++ b).
Proof.
  intros Hk He. induction a as [|line a IH]; cbn [app first_value].
  - induction He as [|line e Hl _ IH]; [done|]. cbn [app first_value].
    destruct (line_words h line Hl) as [[|v fields] ->]; [done|]. by rewrite Hk.
  - destruct (split_whitespace line) as [|k [|v f]]; try done. destruct (is_key k key); [done|apply IH].
Qed.

Lemma foldl_for {A} h (f : A -> list byte -> A) e x :
  (forall y line, line_for h line -> f y line = y) -> Forall (line_for h) e -> foldl f x e = x.
Proof. intros Hf H. revert x. induction H as [|line e Hl _ IH]; intros x; cbn; [done|]. by rewrite Hf. Qed.

Lemma unsupported_for h a e b :
  Forall (line_for h) e -> unsupported_dynamic_forwards (a ++ e ++ b) = unsupported_dynamic_forwards (a ++ b).
Proof.
  intros He. unfold unsupported_dynamic_forwards. rewrite !foldl_app, !map_app, !concat_app.
  assert (concat (map dynamic_of e) = []) as ->.
  { induction He as [|line e Hl _ IH]; [done|]. cbn. rewrite IH, app_nil_r. unfold dynamic_of.
    by destruct h, (line_words _ line Hl) as [[|v fields] ->]. }
  cbn [app]. rewrite (foldl_for h drop_unix e); [done| |done].
  intros y line Hl. unfold drop_unix. by destruct h, (line_words _ line Hl) as [[|v [|w fields]] ->].
Qed.

Lemma stream_local_for h a e b :
  Forall (line_for h) e -> parse_stream_local_bind (a ++ e ++ b) = parse_stream_local_bind (a ++ b).
Proof.
  intros He. unfold parse_stream_local_bind. rewrite !foldl_app. rewrite (foldl_for h bind_line e); [done| |done].
  intros y line Hl. unfold bind_line. by destruct h, (line_words _ line Hl) as [[|v fields] ->].
Qed.

Lemma finish_related h b r s c :
  quiet h r = quiet h s -> finish_rows b r = Ok c -> exists c', finish_rows b s = Ok c' /\ without h c = without h c'.
Proof.
  intros (H1 & H2 & H3 & H4 & _ & H6)%quiet_eq. unfold finish_rows. rewrite H1, H2, H3, H4.
  destruct (nonempty (r_hostname s)) as [hostname|]; [|done].
  destruct (validate_ssh_destination _ _); [|done]. intros [= <-]. eexists. split; [done|].
  revert H6. destruct (r_extra r), (r_extra s), h; unfold without; cbn; intros [=]; by subst.
Qed.

(** Lines of [h] are exchanged for others that are not refused. *)
Lemma parse_lines_exchange h plf dump dump' a e e' b c :
  Forall (line_for h) e -> Forall (line_for h) e' ->
  (forall policies dynamic r, is_ok (rows plf policies dynamic e' r) = true) ->
  parse_lines plf dump (a ++ e ++ b) = Ok c ->
  exists c', parse_lines plf dump' (a ++ e' ++ b) = Ok c' /\ without h c = without h c'.
Proof.
  intros He He' Hok. unfold parse_lines.
  rewrite !(first_value_for h), !(stream_local_for h), !(unsupported_for h) by (assumption || (destruct h; vm_compute; reflexivity)).
  destruct (match first_value "gatewayports" _ with Some _ => _ | None => _ end) as [g|]; [|done].
  destruct (match first_value "exitonforwardfailure" _ with Some _ => _ | None => _ end) as [x|]; [|done].
  cbv zeta. set (policies := mkPolicies _ _). set (dynamic := unsupported_dynamic_forwards _).
  destruct (rows plf policies dynamic (a ++ e ++ b) _) as [r|] eqn:E; [|done].
  rewrite rows_app in E. destruct (rows plf policies dynamic a _) as [r1|] eqn:E1; [|done]. cbn in E. rewrite rows_app in E.
  destruct (rows plf policies dynamic e r1) as [r2|] eqn:E2; [|done]. cbn in E. apply (rows_quiet h) in E2; [|done].
  edestruct (rows_related h plf policies dynamic a) as (s1 & F1 & H1); [|exact E1|].
  { instantiate (1 := mkRows None None None [] [] (set_rc_dump dump' resolved_default)). by destruct h. }
  rewrite rows_app, F1. cbn. rewrite rows_app. specialize (Hok policies dynamic s1).
  destruct (rows plf policies dynamic e' s1) as [s2|] eqn:F2; [|done]. apply (rows_quiet h) in F2; [|done]. cbn.
  destruct (rows_related h plf policies dynamic b r2 s2 ltac:(congruence) r E) as (s & -> & Hs). cbn.
  by apply finish_related.
Qed.

(** ** What the checks establish *)

(** How the lines of a system end. *)
Definition newline_ok (newline : list byte) : Prop := newline = [x0a] \/ newline = [x0d; x0a].

Lemma absent (b : byte) l : contains b l = false -> b ∉ l.
Proof. intros H Hin%contains_spec. congruence. Qed.

Lemma cut_unique (x : byte) a b c d : x ∉ a -> x ∉ b -> a ++ x :: c = b ++ x :: d -> a = b /\ c = d.
Proof.
  intros Ha Hb H. assert (split_once x (b ++ x :: d) = Some (a, c)) as H1 by by apply split_once_spec.
  assert (split_once x (b ++ x :: d) = Some (b, d)) as H2 by by apply split_once_spec. naive_solver.
Qed.

Lemma cut_inside (x : byte) a b c d : x ∉ a -> a ++ b = c ++ x :: d -> exists q, c = a ++ q /\ b = q ++ x :: d.
Proof.
  intros Hx H. apply app_eq_inv in H as [(k & -> & H)|(k & -> & H)].
  - destruct k as [|y k].
    + exists []. by rewrite !app_nil_r in *.
    + injection H as -> _. set_solver.
  - eauto.
Qed.

Lemma newline_cut newline a b c d :
  newline_ok newline -> x0a ∉ a -> x0d ∉ a -> x0a ∉ b -> x0d ∉ b -> a ++ newline ++ c = b ++ newline ++ d -> a = b /\ c = d.
Proof.
  intros [-> | ->] ???? H; cbn in H.
  - by eapply cut_unique in H.
  - apply cut_unique in H as [-> H]; [by simplify_eq|done|done].
Qed.

Lemma lines_one body newline : newline_ok newline -> x0a ∉ body -> x0d ∉ body -> lines (body ++ newline) = [body].
Proof.
  intros Hn Ha Hd. assert (forall rest, x0a ∉ rest -> split_inclusive x0a (rest ++ [x0a]) = [rest ++ [x0a]]) as Hs.
  { induction rest as [|y rest IH]; intros Hr; [done|]. cbn. destruct (beq_spec y x0a) as [->|]; [set_solver|].
    rewrite IH; [done|set_solver]. }
  unfold lines. destruct Hn as [-> | ->].
  - rewrite Hs by done. cbn [map]. unfold line_of. rewrite (proj2 (strip_suffix_spec _ _ body) eq_refl).
    destruct (strip_suffix [x0d] body) eqn:E; [|done]. apply strip_suffix_spec in E. subst. set_solver.
  - change [x0d; x0a] with ([x0d] ++ [x0a]). rewrite app_assoc, Hs by set_solver. cbn [map]. unfold line_of.
    by rewrite (proj2 (strip_suffix_spec _ _ _) eq_refl), (proj2 (strip_suffix_spec _ _ body) eq_refl).
Qed.

Lemma whole_lines_newline body newline : newline_ok newline -> whole_lines (body ++ newline).
Proof. intros [-> | ->]; right; [by exists body|]. exists (body ++ [x0d]). by rewrite <-app_assoc. Qed.

Lemma find_block_kept pieces before x block : find_block pieces before (Some x) = Some block -> block = Some x.
Proof.
  revert before. induction pieces as [|line pieces IH]; intros before; cbn [find_block]; [congruence|].
  destruct (starts_with _ line); [done|apply IH].
Qed.

Lemma find_block_spec pieces before x y :
  find_block pieces before None = Some (Some (x, y)) ->
  exists p newline q, newline_ok newline /\ pieces = p ++ (SENTINEL_LINE ++ newline) :: q /\ x = before ++ concat p /\ y = concat q.
Proof.
  revert before. induction pieces as [|line pieces IH]; intros before; cbn [find_block]; [done|].
  destruct (starts_with _ line).
  - cbn [orb]. destruct (list_eqb line (SENTINEL_LINE ++ [x0a])) eqn:E1; cbn [orb negb].
    + apply list_eqb_spec in E1 as ->. intros [= -> ->]%find_block_kept. exists [], [x0a], pieces. rewrite app_nil_r. by split_and!; [left|..].
    + clear E1. destruct (list_eqb line _) eqn:E2; cbn [negb]; [|done]. apply list_eqb_spec in E2 as ->.
      intros [= -> ->]%find_block_kept. exists [], [x0d; x0a], pieces. rewrite app_nil_r. by split_and!; [right|..].
  - intros (p & newline & q & Hn & -> & -> & ->)%IH. exists (line :: p), newline, q. cbn. by rewrite app_assoc.
Qed.

Lemma pieces_before l p x q : split_inclusive x0a l = p ++ x :: q -> whole_lines (concat p).
Proof.
  intros H. apply whole_lines_concat. destruct (split_inclusive_pieces x0a l) as [Hl|(ls & rest & E & Hl & _)].
  - rewrite H in Hl. by apply Forall_app in Hl as [? _].
  - rewrite H in E. destruct (rev q) as [|z q'] eqn:Eq.
    + apply (f_equal (@rev _)) in Eq. rewrite rev_involutive in Eq. subst q. by apply app_inj_tail in E as [-> _].
    + apply (f_equal (@rev _)) in Eq. rewrite rev_involutive in Eq. cbn in Eq. subst q.
      rewrite app_comm_cons, app_assoc in E. apply app_inj_tail in E as [<- _]. by apply Forall_app in Hl as [? _].
Qed.

Lemma verify_setenv_spec original baseline :
  verify_setenv_block original baseline = Ok tt ->
  exists x env newline y,
    original = x ++ env ++ y /\ baseline = x ++ (SENTINEL_LINE ++ newline) ++ y /\ newline_ok newline /\ whole_lines x /\
    whole_lines env /\ Forall (line_for SetEnv) (lines env) /\ from_utf8 baseline = true.
Proof.
  unfold verify_setenv_block. destruct (from_utf8 original), (from_utf8 baseline) eqn:Hu; cbn [andb negb]; try done.
  destruct (find_block _ _ _) as [[[x y]|]|] eqn:E; try done.
  apply find_block_spec in E as (p & newline & q & Hn & Hp & -> & ->). cbn [app].
  destruct (strip_prefix _ original) as [rest|] eqn:E1; [|done]. apply strip_prefix_spec in E1 as ->.
  destruct (strip_suffix _ rest) as [env|] eqn:E2; [|done]. apply strip_suffix_spec in E2 as ->.
  destruct (ends_with [x0a] env) eqn:E3; [|done]. destruct (forallb _ _) eqn:E4; [|done]. intros _.
  exists (concat p), env, newline, (concat q). split_and!; try done.
  - rewrite <-(concat_split_inclusive x0a baseline), Hp, concat_app. by cbn.
  - by eapply pieces_before.
  - right. unfold ends_with in E3. apply starts_with_spec in E3 as [r Hr]. exists (rev r).
    apply (f_equal (@rev _)) in Hr. by rewrite rev_involutive in Hr.
  - apply Forall_forall. intros line Hl. rewrite forallb_forall in E4. apply list_elem_of_In, E4 in Hl.
    by apply andb_true_iff in Hl as [Hl _].
Qed.

Lemma sentinel_row plf policies dynamic r : is_ok (rows plf policies dynamic [SENTINEL_LINE] r) = true.
Proof.
  cbn [rows]. unfold row. replace (split_whitespace SENTINEL_LINE) with [bytes_of "setenv"; bytes_of "ET_RS_CONFIG_SENTINEL=1"] by (vm_compute; reflexivity).
  replace (unwrap_or [] (after_white (trim_start SENTINEL_LINE))) with (bytes_of "ET_RS_CONFIG_SENTINEL=1") by (vm_compute; reflexivity).
  cbv zeta. destruct plf; cbn [andb]; keys; [|done]. unfold setenv_row.
  replace (split_once "=" (bytes_of "ET_RS_CONFIG_SENTINEL=1")) with (Some (bytes_of "ET_RS_CONFIG_SENTINEL", bytes_of "1")) by (vm_compute; reflexivity).
  replace (negb _ || _ || _ || _) with false by (vm_compute; reflexivity). by destruct (bool_decide _).
Qed.

Lemma setenv_confined original baseline plf c :
  verify_setenv_block original baseline = Ok tt -> parse_ssh_config original plf = Ok c ->
  exists c', parse_ssh_config baseline plf = Ok c' /\ without SetEnv c = without SetEnv c'.
Proof.
  intros (x & env & newline & y & -> & -> & Hn & Hx & He & Henv & Hu)%verify_setenv_spec. unfold parse_ssh_config.
  rewrite Hu. clear Hu. destruct (from_utf8 _); [|done]. intros Hp.
  rewrite (lines_app x), (lines_app env) in Hp by done.
  rewrite (lines_app x), (lines_app (SENTINEL_LINE ++ newline)), lines_one 
    by first [done|by apply whole_lines_newline|apply absent; vm_compute; reflexivity].
  eapply parse_lines_exchange; [exact Henv| |intros; apply sentinel_row|exact Hp]. constructor; [|done]. by vm_compute.
Qed.

Lemma split_once_str_first pat l x y a b : split_once_str pat l = Some (x, y) -> l = a ++ pat ++ b -> (length x <= length a)%nat.
Proof.
  revert x a. induction l as [|c l IH]; intros x a; cbn [split_once_str].
  - destruct (strip_prefix pat []); [|done]. intros [= <- <-] _. cbn. lia.
  - destruct (strip_prefix pat (c :: l)) eqn:E; [intros [= <- <-] _; cbn; lia|].
    destruct (split_once_str pat l) as [[x' y']|]; [|done]. intros [= <- <-] H. destruct a as [|a0 a].
    + rewrite (proj2 (strip_prefix_spec pat (c :: l) b) H) in E. done.
    + injection H as _ H. cbn. specialize (IH x' a eq_refl H). lia.
Qed.

Definition COMMAND_NAME : list byte := bytes_of "ET_RS_CONFIG_SENTINEL".
Definition COMMAND_PREFIX : list byte := bytes_of "remotecommand ".

(** The first sentinel in the baseline is the one ssh printed for the option,
    or one in an earlier line; then the outputs are the same. *)
Lemma command_is_one_line P command newline R command' newline' before after :
  whole_lines P -> newline_ok newline -> newline_ok newline' -> x0a ∉ command' -> x0d ∉ command' ->
  (length before <= length P)%nat ->
  before ++ COMMAND_SENTINEL ++ newline' ++ after = P ++ COMMAND_SENTINEL ++ newline ++ R ->
  P ++ COMMAND_PREFIX ++ command ++ newline ++ R = before ++ (COMMAND_PREFIX ++ command' ++ newline') ++ after ->
  x0a ∉ command /\ x0d ∉ command.
Proof.
  intros HP Hn Hn' Ha Hd Hlen Hb Ho. change COMMAND_SENTINEL with (COMMAND_PREFIX ++ COMMAND_NAME) in Hb.
  assert (x0a ∉ COMMAND_NAME /\ x0d ∉ COMMAND_NAME) as [Na Nd] by (split; apply absent; vm_compute; reflexivity).
  assert (exists P', P = before ++ P') as [P' ->].
  { apply app_eq_inv in Hb as [(k & -> & _)|(k & -> & _)]; [|by exists k]. rewrite length_app in Hlen.
    destruct k; [|cbn in Hlen; lia]. exists []. by rewrite !app_nil_r. }
  rewrite <-!app_assoc in *. apply app_inv_head in Hb, Ho.
  destruct (decide (P' = [])) as [->|HP'].
  { cbn [app] in *. apply app_inv_head in Hb, Ho. apply app_inv_head in Hb.
    assert (newline' = newline /\ after = R) as [-> ->] by (destruct Hn as [-> | ->], Hn' as [-> | ->]; cbn in Hb; by simplify_eq).
    rewrite !app_assoc in Ho. apply app_inv_tail, app_inv_tail in Ho. by subst. }
  assert (exists p, P' = p ++ [x0a]) as [p ->].
  { destruct HP as [HP|[z Hz]]; [by apply app_eq_nil in HP as [_ ?]|]. destruct (exists_last HP') as (p & e & ->).
    rewrite app_assoc in Hz. apply app_inj_tail in Hz as [_ ->]. by exists p. }
  rewrite <-!app_assoc in *. cbn [app] in Hb, Ho.
  assert (x0a ∉ COMMAND_PREFIX ++ COMMAND_NAME) as Hs by (apply absent; vm_compute; reflexivity).
  rewrite (app_assoc COMMAND_PREFIX COMMAND_NAME (newline' ++ after)) in Hb. apply cut_inside in Hb as (q & -> & Hq); [|done].
  assert (exists q2, q ++ [x0a] = newline' ++ q2 /\ after = q2 ++ COMMAND_PREFIX ++ COMMAND_NAME ++ newline ++ R) as (q2 & Hq2 & ->).
  { assert (exists pre, newline' = pre ++ [x0a] /\ x0a ∉ pre) as (pre & -> & Hpre).
    { destruct Hn' as [-> | ->]; [by exists []; split; [|set_solver]|exists [x0d]; split; [done|]]. apply absent. by vm_compute. }
    rewrite <-app_assoc in Hq. apply (cut_inside x0a pre) in Hq as (r & -> & Hr); [|done].
    destruct r as [|r0 r]; cbn in Hr.
    - injection Hr as ->. exists []. by rewrite !app_nil_r.
    - injection Hr as <- ->. exists (r ++ [x0a]). by rewrite <-!app_assoc. }
  assert (COMMAND_PREFIX ++ COMMAND_NAME ++ newline' ++ q2 ++ COMMAND_PREFIX ++ command ++ newline ++ R =
          COMMAND_PREFIX ++ command' ++ newline' ++ q2 ++ COMMAND_PREFIX ++ COMMAND_NAME ++ newline ++ R) as E.
  { rewrite <-Ho, (app_assoc newline' q2), <-Hq2, <-!app_assoc. done. }
  apply app_inv_head in E. apply newline_cut in E as [_ E]; [|done..].
  apply app_inv_head, app_inv_head in E. rewrite !app_assoc in E. by apply app_inv_tail, app_inv_tail in E as ->.
Qed.

Lemma verify_command_spec P command newline R :
  whole_lines P -> newline_ok newline ->
  verify_remote_command (P ++ COMMAND_PREFIX ++ command ++ newline ++ R) (P ++ COMMAND_SENTINEL ++ newline ++ R) = Ok tt ->
  x0a ∉ command /\ x0d ∉ command /\ from_utf8 (P ++ COMMAND_SENTINEL ++ newline ++ R) = true.
Proof.
  intros HP Hn. unfold verify_remote_command. destruct (from_utf8 (P ++ COMMAND_SENTINEL ++ _)); [|done].
  destruct (from_utf8 _); [|done]. cbn [andb negb].
  destruct (split_once_str _ _) as [[before rest]|] eqn:E; [|done].
  assert (length before <= length P)%nat as Hlen by (by eapply split_once_str_first in E).
  apply split_once_str_app in E.
  destruct (match strip_prefix [x0d; x0a] rest with Some _ => _ | None => _ end) as [[newline' after]|] eqn:E1; [|done].
  assert (newline_ok newline' /\ rest = newline' ++ after) as [Hn' ->].
  { destruct (strip_prefix [x0d; x0a] rest) eqn:E2.
    - injection E1 as <- <-. apply strip_prefix_spec in E2. split; [by right|done].
    - destruct (strip_prefix [x0a] rest) eqn:E3; [|done]. injection E1 as <- <-. apply strip_prefix_spec in E3. split; [by left|done]. }
  destruct (strip_prefix before _) as [r1|] eqn:E2; [|done]. apply strip_prefix_spec in E2.
  destruct (strip_suffix after r1) as [r2|] eqn:E3; [|done]. apply strip_suffix_spec in E3 as ->.
  destruct (strip_prefix _ r2) as [r3|] eqn:E4; [|done]. apply strip_prefix_spec in E4 as ->.
  destruct (strip_suffix newline' r3) as [command'|] eqn:E5; [|done]. apply strip_suffix_spec in E5 as ->.
  destruct (contains x0a command') eqn:Ca; [done|]. destruct (contains x0d command') eqn:Cd; [done|]. intros _.
  destruct (command_is_one_line P command newline R command' newline' before after) as [? ?]; auto using absent.
Qed.

Lemma command_line text : line_for RemoteCommand (COMMAND_PREFIX ++ text).
Proof. apply starts_with_spec. by exists text. Qed.

Lemma command_row plf policies dynamic text r : is_ok (rows plf policies dynamic [COMMAND_PREFIX ++ text] r) = true.
Proof.
  cbn [rows]. unfold row. destruct (line_words RemoteCommand _ (command_line text)) as [fields ->]. cbv zeta. cbn [keyword].
  by destruct plf; cbn [andb]; keys.
Qed.

Lemma command_confined P command newline R plf c :
  whole_lines P -> newline_ok newline ->
  verify_remote_command (P ++ COMMAND_PREFIX ++ command ++ newline ++ R) (P ++ COMMAND_SENTINEL ++ newline ++ R) = Ok tt ->
  parse_ssh_config (P ++ COMMAND_PREFIX ++ command ++ newline ++ R) plf = Ok c ->
  exists c', parse_ssh_config (P ++ COMMAND_SENTINEL ++ newline ++ R) plf = Ok c' /\ without RemoteCommand c = without RemoteCommand c'.
Proof.
  intros HP Hn (Ha & Hd & Hu)%verify_command_spec; [|done..]. unfold parse_ssh_config. rewrite Hu. clear Hu.
  destruct (from_utf8 _); [|done]. change COMMAND_SENTINEL with (COMMAND_PREFIX ++ COMMAND_NAME).
  assert (forall text, x0a ∉ text -> x0d ∉ text ->
    lines (P ++ COMMAND_PREFIX ++ text ++ newline ++ R) = lines P ++ [COMMAND_PREFIX ++ text] ++ lines R) as Hlines.
  { intros text Ta Td. assert (x0a ∉ COMMAND_PREFIX /\ x0d ∉ COMMAND_PREFIX) as [? ?] by (split; apply absent; vm_compute; reflexivity).
    rewrite lines_app by done. rewrite (app_assoc _ text), (app_assoc _ newline), lines_app, lines_one;
      [done|done|set_solver|set_solver|by apply whole_lines_newline]. }
  rewrite <-(app_assoc COMMAND_PREFIX COMMAND_NAME). rewrite !Hlines by (done || (apply absent; vm_compute; reflexivity)).
  apply (parse_lines_exchange RemoteCommand); [..|intros; apply command_row]; constructor; auto using command_line.
Qed.

(** C22: The value of [SetEnv] or [RemoteCommand] in a configuration, with any
    newlines in it, does not become another directive. When the query
    succeeds, everything but the environment is what ssh answered with the
    environment of the configuration put aside. For the command, ssh is assumed
    to print it as one [remotecommand] entry between whole lines [P] and a rest
    [R], with the same [P], newline and [R] when the option gives the command;
    then everything but the command is what ssh answered with it put aside. *)
Theorem values_cannot_inject runner q c :
  resolve_ssh_config_on_port runner q = Ok c ->
  exists out, run_checked runner 0 (config_invocation q) = Ok out /\ parse_ssh_config out (parse_local_forwards q) = Ok c /\
  (has_line "setenv " out = true -> exists baseline c',
    run_checked runner 1 (insert_argument SETENV_ARGUMENT (config_invocation q)) = Ok baseline /\
    parse_ssh_config baseline (parse_local_forwards q) = Ok c' /\ without SetEnv c = without SetEnv c') /\
  (forall P command newline R, whole_lines P -> newline_ok newline ->
    let baseline := P ++ COMMAND_SENTINEL ++ newline ++ R in
    out = P ++ COMMAND_PREFIX ++ command ++ newline ++ R -> has_line "remotecommand " out = true ->
    run_checked runner (if has_line "setenv " out then 2 else 1) (insert_argument COMMAND_ARGUMENT (config_invocation q)) = Ok baseline ->
    exists c', parse_ssh_config baseline (parse_local_forwards q) = Ok c' /\ without RemoteCommand c = without RemoteCommand c').
Proof.
  unfold resolve_ssh_config_on_port. destruct (validate_ssh_destination _ _); [|done]. cbv zeta.
  destruct (run_checked runner 0 _) as [out|]; [|done]. intros H. exists out.
  assert (exists n : nat, n = (if has_line "setenv " out then 2 else 1)%nat /\
    (has_line "setenv " out = true -> exists baseline,
      run_checked runner 1 (insert_argument SETENV_ARGUMENT (config_invocation q)) = Ok baseline /\
      verify_setenv_block out baseline = Ok tt) /\
    (let? _ := if has_line "remotecommand " out then
                 let? baseline := run_checked runner n (insert_argument COMMAND_ARGUMENT (config_invocation q)) in
                 verify_remote_command out baseline
               else Ok tt in parse_ssh_config out (parse_local_forwards q)) = Ok c) as (n & -> & Henv & Hrest).
  { destruct (has_line "setenv " out); [|by exists 1%nat].
    destruct (run_checked runner 1 _) as [baseline|]; [|done]. destruct (verify_setenv_block out baseline) as [[]|] eqn:V; [|done].
    exists 2%nat. split_and!; [done|eauto|done]. }
  clear H. destruct (if has_line "remotecommand " out then _ else _) as [[]|] eqn:V in Hrest; [|done].
  split_and!; [done|done| |].
  - intros (baseline & Hb & Hv)%Henv. destruct (setenv_confined out baseline _ c Hv Hrest) as (c' & ? & ?). eauto.
  - intros P command newline R HP Hn Ho Hl Hb. rewrite Hl, Hb in V. rewrite Ho in V, Hrest. by eapply command_confined.
Qed.

(** An ssh that prints the environment and the command it is told, or those of
    the options [SetEnv] and [RemoteCommand] where they are given. A value that
    brings a line of its own is refused, in either place; without one, the
    environment and the command are set. *)
Definition telling_ssh (env command : list byte) (n : nat) (i : SshInvocation) : result ClientError SshOutput :=
  let env := if bool_decide (SETENV_ARGUMENT ∈ args i) then bytes_of "ET_RS_CONFIG_SENTINEL=1" else env in
  let command := if bool_decide (COMMAND_ARGUMENT ∈ args i) then COMMAND_NAME else command in
  Ok (mkSshOutput (Some (Some 0)) (bytes_of "hostname real" ++ [x0a] ++ bytes_of "setenv " ++ env ++ [x0a] ++
    COMMAND_PREFIX ++ command ++ [x0a] ++ bytes_of "port 2200" ++ [x0a])).
Definition example_query : SshConfigQuery := mkQuery (bytes_of "alias") None None [] None true.
Definition example_before : list byte := bytes_of "hostname real" ++ [x0a] ++ bytes_of "setenv A=x" ++ [x0a].
Definition example_after : list byte := bytes_of "port 2200" ++ [x0a].

Lemma values_cannot_inject_witness :
  resolve_ssh_config_on_port (telling_ssh (bytes_of "A=x" ++ [x0a] ++ bytes_of "hostname evil") (bytes_of "top")) example_query
    = malformed "ambiguous or changed SetEnv output" /\
  resolve_ssh_config_on_port (telling_ssh (bytes_of "A=x") (bytes_of "top" ++ [x0a] ++ bytes_of "hostname evil")) example_query
    = malformed "ambiguous RemoteCommand output" /\
  exists c c', resolve_ssh_config_on_port (telling_ssh (bytes_of "A=x") (bytes_of "top")) example_query = Ok c /\
    rc_hostname c = bytes_of "real" /\ rc_set_env c = [(bytes_of "A", bytes_of "x")] /\
    rc_remote_command c = Some (bytes_of "top") /\
    parse_ssh_config (example_before ++ COMMAND_SENTINEL ++ [x0a] ++ example_after) true = Ok c' /\
    without RemoteCommand c = without RemoteCommand c'.
Proof.
  split; [vm_compute; reflexivity|]. split; [vm_compute; reflexivity|].
  destruct (resolve_ssh_config_on_port (telling_ssh (bytes_of "A=x") (bytes_of "top")) example_query) as [c|] eqn:E;
    [|vm_compute in E; discriminate].
  destruct (values_cannot_inject _ _ _ E) as (out & Hout & _ & _ & H).
  vm_compute in Hout. injection Hout as <-.
  destruct (H example_before (bytes_of "top") [x0a] example_after) as (c' & H1 & H2);
    [right; exists (bytes_of "hostname real" ++ [x0a] ++ bytes_of "setenv A=x"); vm_compute; reflexivity|left; reflexivity|
     vm_compute; reflexivity..|].
  exists c, c'. vm_compute in E. injection E as <-. split; [reflexivity|].
  split; [vm_compute; reflexivity|]. split; [vm_compute; reflexivity|]. split; [vm_compute; reflexivity|].
  split; [exact H1|exact H2].
Defined.
