(* ===== verification/SshConfigInvariant.v ===== *)
(** * SshConfigInvariant: what a resolved configuration holds

    [parse_ssh_config] establishes it, and [apply_session_options] keeps it,
    also when it refuses an option after it has applied others. *)

From Stdlib Require Import String.
From S2P Require Import Prelude Bytes Text Socks Tunnel ClientEnvironment ForwardConfig SshConfig.

(** A text that is printed on one line and passed on as an argument. *)
Definition one_line (l : list byte) : Prop := x00 ∉ l /\ x0a ∉ l /\ x0d ∉ l.

Definition variable_ok (e : list byte * list byte) : Prop :=
  portable_environment_name (fst e) = true /\ zlen (snd e) <= MAX_ENV_VALUE /\ one_line (snd e).

(** A component of an ssh destination cannot be taken for an option. *)
Definition component_ok (l : list byte) : Prop := l <> [] /\ starts_with (bytes_of "-") l = false.

Record forwards_ok (c : ResolvedSshConfig) : Prop := mkForwardsOk {
  ok_local : Forall request_ok (rc_local_forwards c);
  ok_remote : Forall request_ok (rc_remote_forwards c);
  ok_dynamic : Forall endpoint_ok (rc_dynamic_forwards c);
}.

Record environment_ok (c : ResolvedSshConfig) : Prop := mkEnvironmentOk {
  ok_set : Forall variable_ok (rc_set_env c);
  ok_distinct : NoDup (fst <$> rc_set_env c)
}.

Definition cleared_ok (c : ResolvedSshConfig) : Prop :=
  rc_clear_all_forwardings c = true -> rc_local_forwards c = [] /\ rc_remote_forwards c = [] /\ rc_dynamic_forwards c = [].

Record resolved_ok (c : ResolvedSshConfig) : Prop := mkResolvedOk {
  ok_hostname : component_ok (rc_hostname c);
  ok_user : forall user, rc_user c = Some user -> component_ok user;
  ok_forwards : forwards_ok c;
  ok_environment : environment_ok c;
  ok_cleared : cleared_ok c
}.

(** ** Endpoints *)

Lemma parse_port_ok value port : parse_port value = Some port -> port_ok port.
Proof.
  unfold parse_port, parse_u16. destruct (from_str_radix 10 65535 value) as [p|] eqn:Hp; [|done].
  destruct (Z.eqb_spec p 0); [done|]. intros [= <-]. apply from_str_radix_bound in Hp; [|done]. unfold port_ok. lia.
Qed.

Lemma parse_unix_endpoint_ok value e : parse_unix_endpoint value = Some e -> endpoint_ok e.
Proof.
  unfold parse_unix_endpoint. destruct (starts_with _ value) eqn:Hs; [|done]. cbn [negb orb].
  destruct (same value "/") eqn:He; [done|]. destruct (Z.ltb_spec 107 (zlen value)); [done|].
  destruct (contains x00 value) eqn:Hc; [done|]. intros [= <-]. split_and!; [done| |done|by apply absent].
  apply starts_with_spec in Hs as [rest ->]. rewrite zlen_app. change (zlen (bytes_of "/")) with 1.
  destruct rest as [|b rest]; [done|]. rewrite zlen_cons. pose proof (zlen_nonneg rest). lia.
Qed.

Lemma parse_tcp_endpoint_ok value allow e : parse_tcp_endpoint value allow = Some e -> exists host port, e = mkEndpoint (Some host) (Some port) /\ port_ok port.
Proof.
  unfold parse_tcp_endpoint. destruct (match strip_prefix _ value with Some _ => _ | None => _ end) as [[host port]|]; [|done].
  destruct (parse_port port) as [p|] eqn:Hp; [|done]. intros [= <-]. apply parse_port_ok in Hp. eauto.
Qed.

Lemma parse_source_endpoint_ok value gateway local e : parse_source_endpoint value gateway local = Some e -> endpoint_ok e.
Proof.
  unfold parse_source_endpoint. destruct (parse_unix_endpoint value) eqn:Hu.
  { intros [= <-]. by eapply parse_unix_endpoint_ok. }
  destruct (_ && _).
  - destruct (parse_port value) eqn:Hp; [|done]. intros [= <-]. by apply parse_port_ok in Hp.
  - destruct (parse_tcp_endpoint value true) eqn:Ht; [|done]. intros [= <-].
    by apply parse_tcp_endpoint_ok in Ht as (host & port & -> & Hp).
Qed.

Lemma parse_destination_endpoint_ok value e : parse_destination_endpoint value = Some e -> endpoint_ok e.
Proof.
  unfold parse_destination_endpoint. destruct (parse_unix_endpoint value) eqn:Hu.
  - intros [= <-]. by eapply parse_unix_endpoint_ok.
  - by intros (host & port & -> & Hp)%parse_tcp_endpoint_ok.
Qed.

Lemma parse_forward_ok fields policies directive request : parse_forward fields policies directive = Ok (Supported request) -> request_ok request.
Proof.
  unfold parse_forward. destruct (_ && _); [done|]. destruct fields as [|source [|destination [|]]]; try done.
  destruct (_ || _); [done|]. destruct (_ && _); [done|].
  destruct (parse_source_endpoint _ _ _) eqn:Hs; [|done]. destruct (parse_destination_endpoint _) eqn:Hd; [|done].
  intros [= <-]. split; [by eapply parse_source_endpoint_ok|by eapply parse_destination_endpoint_ok].
Qed.

(** ** The values of lines and options are parts of them *)

Lemma trim_start_go_suffix skip l : exists p, l = p ++ trim_start_go skip l.
Proof.
  revert skip. induction l as [|b l IH]; intros skip; [by exists []|]. cbn [trim_start_go].
  destruct skip as [|skip]; [|destruct (IH skip) as [p Hp]; exists (b :: p); cbn; by rewrite <-Hp].
  destruct (ws_len (b :: l)) as [|k]; [by exists []|]. destruct (IH k) as [p Hp]. exists (b :: p). cbn. by rewrite <-Hp.
Qed.

Lemma split_at_white_app also l : fst (split_at_white also l) ++ snd (split_at_white also l) = l.
Proof.
  induction l as [|b l IH]; [done|]. cbn [split_at_white]. destruct (_ || _); [done|].
  destruct (split_at_white also l) as [x y]. cbn in *. by rewrite IH.
Qed.

(** The bytes of [k] are among those of [l]. *)
Definition within (k l : list byte) : Prop := forall b, b ∈ k -> b ∈ l.

Lemma within_trim_start l : within (trim_start l) l.
Proof. intros b Hb. destruct (trim_start_go_suffix 0 l) as [p Hp]. rewrite Hp. set_solver. Qed.

Lemma within_after_white l value : after_white l = Some value -> within value l.
Proof.
  unfold after_white. pose proof (split_at_white_app (fun _ => false) l) as E.
  destruct (snd (split_at_white _ l)) as [|b rest] eqn:Es; [done|]. intros [= <-] c Hc. rewrite <-E.
  apply elem_of_app. right. by apply subseteq_drop in Hc.
Qed.

Lemma within_value line : within (unwrap_or [] (after_white (trim_start line))) line.
Proof.
  destruct (after_white (trim_start line)) as [v|] eqn:E; cbn; [|intros b Hb; by apply elem_of_nil in Hb].
  intros b Hb. by eapply within_trim_start, within_after_white.
Qed.

Lemma within_split_once c l x y : split_once c l = Some (x, y) -> within y l.
Proof. intros [-> _]%split_once_spec b Hb. set_solver. Qed.

Lemma quoted_go_within skip words word quote escaped l ws (P : list byte) :
  Forall (fun w => within w P) words -> within word P -> within l P ->
  quoted_go skip words word quote escaped l = Ok ws -> Forall (fun w => within w P) ws.
Proof.
  revert skip words word quote escaped. induction l as [|c l IH]; intros skip words word quote escaped Hs Hw Hl; cbn [quoted_go].
  - destruct (_ || _); [done|]. intros [= <-]. destruct word; [done|]. apply Forall_app. by split; [|constructor].
  - assert (within l P) as Hl' by (intros b Hb; apply Hl; set_solver).
    assert (within (word ++ [c]) P) as Hw' by (intros b [Hb|Hb%list_elem_of_singleton]%elem_of_app; [by apply Hw|subst; apply Hl; set_solver]).
    assert (within [] P) as Hn by (intros b Hb; by apply elem_of_nil in Hb).
    assert (Forall (fun w => within w P) (match word with [] => words | _ => words ++ [word] end)) as He
      by (destruct word; [done|apply Forall_app; by split; [|constructor]]).
    destruct skip; [|by apply IH]. repeat case_match; by eapply IH.
Qed.

Lemma within_one_line k l : within k l -> one_line l -> one_line k.
Proof. intros H (H1 & H2 & H3). split_and!; eauto. Qed.

(** ** Lines *)

Record rows_ok (r : Rows) : Prop := mkRowsOk {
  ok_rows_local : Forall request_ok (r_local r);
  ok_rows_forwards : forwards_ok (r_extra r);
  ok_rows_environment : environment_ok (r_extra r);
  ok_rows_names : forall name, name ∈ (fst <$> rc_set_env (r_extra r)) -> name ∈ r_names r
}.

Lemma rows_ok_start dump : rows_ok (mkRows None None None [] [] (set_rc_dump dump resolved_default)).
Proof. split; [constructor|split; constructor|split; [constructor|apply NoDup_nil_2]|]. intros name H. by apply elem_of_nil in H. Qed.

(** What none of the checked fields depends on. *)
Lemma rows_ok_same r r' :
  r_local r' = r_local r -> r_names r' = r_names r -> rc_local_forwards (r_extra r') = rc_local_forwards (r_extra r) ->
  rc_remote_forwards (r_extra r') = rc_remote_forwards (r_extra r) ->
  rc_dynamic_forwards (r_extra r') = rc_dynamic_forwards (r_extra r) -> rc_set_env (r_extra r') = rc_set_env (r_extra r) ->
  rows_ok r -> rows_ok r'.
Proof.
  intros E1 E2 E3 E4 E5 E6 [H1 [] [] H4].
  split; [by rewrite E1|split; by rewrite ?E3, ?E4, ?E5|split; by rewrite E6|by rewrite E6, E2].
Qed.

Lemma setenv_row_ok value r r' : x0a ∉ value -> rows_ok r -> setenv_row value r = Ok r' -> rows_ok r'.
Proof.
  intros Hv H. unfold setenv_row. destruct (split_once _ _) as [[name v]|] eqn:Es; [|done].
  apply within_split_once in Es. destruct (portable_environment_name name) eqn:Hp; [|done]. cbn [negb orb].
  destruct (Z.ltb_spec MAX_ENV_VALUE (zlen v)); [done|]. cbn [orb]. destruct (contains x00 v) eqn:Hnul; [done|].
  destruct (contains x0d v) eqn:Hd; [done|]. cbn [orb]. destruct (bool_decide_reflect (name ∈ r_names r)) as [|Hn]; intros [= <-]; [done|].
  destruct H as [H1 H2 [H3 H4] H5]. split; [done|by destruct H2|split|]; cbn.
  - apply Forall_app. split; [done|]. constructor; [|done]. split_and!; [done|done|]. split_and!; auto using absent.
  - rewrite fmap_app. apply NoDup_app. split_and!; [done| |apply NoDup_singleton].
    intros x Hx%H5 Hx'. cbn in Hx'. apply list_elem_of_singleton in Hx' as ->. done.
  - intros x. rewrite fmap_app, elem_of_app. intros [Hx|Hx]; [right; by apply H5|]. apply list_elem_of_singleton in Hx as ->. by left.
Qed.

Lemma row_ok plf policies dynamic r line r' : x0a ∉ line -> rows_ok r -> row plf policies dynamic r line = Ok r' -> rows_ok r'.
Proof.
  intros Hl H. unfold row. cbv zeta. destruct (split_whitespace line) as [|key fields]; [by intros [= <-]|].
  assert (x0a ∉ unwrap_or [] (after_white (trim_start line))) as Hv by (intros Hin%within_value; done).
  repeat match goal with
  | |- (if ?b then _ else _) = _ -> _ => destruct b
  | |- match ?x with Ok _ => _ | Err _ => _ end = _ -> _ => destruct x; [|done]
  | |- match ?x with Some _ => _ | None => _ end = _ -> _ => destruct x; [|done]
  end; try (intros [= <-]; by apply (rows_ok_same r)).
  - by apply setenv_row_ok.
  - unfold dynamicforward_row. destruct (bool_decide _); [|by intros [= <-]].
    destruct (parse_source_endpoint _ _ _) eqn:Hs; [|done]. intros [= <-]. apply parse_source_endpoint_ok in Hs.
    destruct H as [H1 [] H3 H4]. split; [done|split; try done|by destruct H3|done]. apply Forall_app. by split; [|constructor].
  - unfold remoteforward_row. destruct (_ || _); [by intros [= <-]|].
    destruct (parse_forward _ _ _) as [[request|]|] eqn:Hf; [|by intros [= <-]|done]. intros [= <-]. apply parse_forward_ok in Hf.
    destruct H as [H1 [] H3 H4]. split; [done|split; try done|by destruct H3|done]. apply Forall_app. by split; [|constructor].
  - unfold localforward_row. destruct (parse_forward _ _ _) as [[request|]|] eqn:Hf; [|by intros [= <-]|done]. intros [= <-].
    apply parse_forward_ok in Hf. destruct H as [H1 H2 H3 H4]. split; [|done..]. apply Forall_app. by split; [|constructor].
Qed.

Lemma rows_all_ok plf policies dynamic ls r r' :
  Forall (fun line => x0a ∉ line) ls -> rows_ok r -> rows plf policies dynamic ls r = Ok r' -> rows_ok r'.
Proof.
  intros H. revert r. induction H as [|line ls Hl _ IH]; intros r Hr; cbn [rows]; [by intros [= <-]|].
  destruct (row _ _ _ r line) eqn:E; [|done]. apply IH. by eapply row_ok.
Qed.

Lemma parse_ssh_config_ok stdout plf c : parse_ssh_config stdout plf = Ok c -> resolved_ok c.
Proof.
  unfold parse_ssh_config. destruct (from_utf8 stdout); [|done]. unfold parse_lines.
  destruct (match first_value "gatewayports" _ with Some _ => _ | None => _ end); [|done]. cbv zeta.
  destruct (match first_value "exitonforwardfailure" _ with Some _ => _ | None => _ end); [|done].
  destruct (rows _ _ _ _ _) as [r|] eqn:E; [|done].
  eapply rows_all_ok in E; [|apply lines_no_newline|apply rows_ok_start]. destruct E as [H1 [] H3 _].
  unfold finish_rows. destruct (nonempty (r_hostname r)) as [hostname|] eqn:Hh; [|done].
  unfold validate_ssh_destination. destruct (starts_with _ hostname) eqn:Hd; [done|]. destruct (is_some_and _ _) eqn:Hu; [done|].
  intros [= <-]. split; cbn.
  - split; [|done]. by destruct (r_hostname r) as [[]|]; cbn in Hh; simplify_eq.
  - intros user Hs. rewrite Hs in Hu. split; [|done]. by destruct (r_user r) as [[]|]; cbn in Hs; simplify_eq.
  - split; cbn; by destruct (rc_clear_all_forwardings _).
  - by destruct H3.
  - unfold cleared_ok. cbn. by intros ->.
Qed.

(** ** Options *)

Lemma parse_dynamic_forward_ok input e : parse_dynamic_forward input = Ok e -> endpoint_ok e.
Proof.
  unfold parse_dynamic_forward. destruct input as [|b input]; [done|].
  destruct (strip_prefix _ _).
  - destruct (bracketed _ _) as [[host port]|]; [|done]. destruct (parse_single_port port) eqn:Hp; [|done].
    intros [= <-]. by apply parse_single_port_ok in Hp.
  - destruct (rsplit_once _ _) as [[host port]|]; destruct (parse_single_port _) eqn:Hp; try done;
      intros [= <-]; by apply parse_single_port_ok in Hp.
Qed.

Lemma option_requests_ok key value requests : option_requests key value = Ok requests -> Forall request_ok requests.
Proof.
  unfold option_requests. destruct (_ =? _).
  - destruct (parse_tunnels [value]) eqn:E; [|done]. intros [= <-]. by apply parsed_tunnels_ok in E as [_ ?].
  - cbv zeta. destruct (parse_forward _ _ _) as [[request|]|] eqn:E; [| |done]; intros [= <-]; [|done].
    constructor; [by eapply parse_forward_ok|done].
Qed.

Lemma assign_words_ok assignments c :
  Forall one_line assignments -> environment_ok c -> environment_ok (fst (assign_words assignments c)).
Proof.
  intros H. revert c. induction H as [|assignment rest Ha _ IH]; intros c [Hs Hd]; cbn [assign_words]; [done|].
  destruct (split_once "=" assignment) as [[name value]|] eqn:Es; [|done]. apply within_split_once in Es.
  destruct (portable_environment_name name) eqn:Hp; [|done]. cbn [negb orb].
  destruct (Z.ltb_spec MAX_ENV_VALUE (zlen value)); [done|]. apply IH. split; cbn.
  - apply Forall_app. split; [rewrite Forall_forall in Hs |- *; by intros e [_ He%Hs]%list_elem_of_filter|]. constructor; [|done]. split_and!; [done|done|by eapply within_one_line].
  - rewrite fmap_app. apply NoDup_app. split_and!; [| |apply NoDup_singleton].
    + eapply sublist_NoDup; [exact Hd|]. apply fmap_sublist, sublist_filter.
    + intros x (e & -> & [He _]%list_elem_of_filter)%list_elem_of_fmap Hx%list_elem_of_singleton. done.
Qed.

(** [assign_words] touches nothing else. *)
Lemma assign_words_else assignments c :
  exists env, fst (assign_words assignments c) = set_rc_set_env env c.
Proof.
  revert c. induction assignments as [|assignment rest IH]; intros c; cbn [assign_words].
  - exists (rc_set_env c). by destruct c.
  - destruct (split_once _ _) as [[name value]|]; [|exists (rc_set_env c); by destruct c].
    destruct (_ || _); [exists (rc_set_env c); by destruct c|].
    destruct (IH (set_rc_set_env (filter (fun e => fst e <> name) (rc_set_env c) ++ [(name, value)]) c)) as [env ->].
    by exists env.
Qed.

Lemma apply_option_ok text c : resolved_ok c -> resolved_ok (fst (apply_option text c)).
Proof.
  intros H. unfold apply_option. destruct (split_ssh_option text) as [key value]. cbv zeta.
  destruct (bool_decide _ || bool_decide _ || _ || _ || _) eqn:Hbad; [done|].
  repeat rewrite orb_false_iff in Hbad. destruct Hbad as ((((_ & _) & Hnul) & Hnl) & Hcr).
  pose proof H as [H1 H2 [F1 F2 F3] [E1 E2] Hc].
  destruct (same (lowercase key) "localforward" || _).
  { destruct (option_requests _ _) as [requests|] eqn:Hr; [|done]. apply option_requests_ok in Hr. cbn [fst].
    destruct (rc_clear_all_forwardings c) eqn:Hcl; [done|].
    destruct (same _ _); (split; cbn; [done|done|split; cbn; try done; by apply Forall_app|done|]);
      unfold cleared_ok; cbn; congruence. }
  destruct (same _ _).
  { destruct (parse_dynamic_forward value) eqn:Hd; [|done]. apply parse_dynamic_forward_ok in Hd. cbn [fst].
    destruct (rc_clear_all_forwardings c) eqn:Hcl; [done|].
    split; cbn; [done|done|split; cbn; try done; apply Forall_app; by split; [|constructor]|done|].
    unfold cleared_ok. cbn. congruence. }
  destruct (same _ _); [by split|]. destruct (same _ _); [|done].
  destruct (split_quoted_words value) as [assignments|] eqn:Hq; [|done].
  assert (environment_ok (fst (assign_words assignments c))) as He.
  { apply assign_words_ok; [|done]. apply (quoted_go_within _ _ _ _ _ _ _ value) in Hq; [| | |done].
    - eapply Forall_impl; [exact Hq|]. intros w Hw. eapply within_one_line; [exact Hw|]. split_and!; by apply absent.
    - constructor.
    - intros b Hb. by apply elem_of_nil in Hb. }
  destruct (assign_words_else assignments c) as [env Henv].
  assert (resolved_ok (fst (assign_words assignments c))) as Hall by (revert He; rewrite Henv; intros [? ?]; by split).
  by destruct (assign_words assignments c) as [c' []].
Qed.

Lemma apply_options_ok options changed c : resolved_ok c -> resolved_ok (fst (apply_options options changed c)).
Proof.
  revert changed c. induction options as [|text options IH]; intros changed c H; cbn [apply_options]; [done|].
  pose proof (apply_option_ok text c H) as H'. destruct (apply_option text c) as [c' [[key|]|]]; [by apply IH..|done].
Qed.

Lemma apply_session_options_ok options c : resolved_ok c -> resolved_ok (fst (apply_session_options c options)).
Proof.
  intros H. pose proof (apply_options_ok options [] c H) as H'. unfold apply_session_options.
  destruct (apply_options options [] c) as [c' [[|e changed]|]]; [done| |done]. cbn in *. by destruct H' as [? ? [] [] ?].
Qed.

(** ** The configuration of a session *)

(** C24: Whatever ssh prints and whatever options the command line adds, also when
    one of them is refused, host and user cannot be taken for options, every
    forward has endpoints that can be bound or connected, the variables have
    portable and different names and values of one line within the limit,
    and nothing is forwarded when all forwardings are cleared. *)
Theorem resolved_config_ok runner q c options :
  resolve_ssh_config_on_port runner q = Ok c -> resolved_ok (fst (apply_session_options c options)).
Proof.
  intros H. apply apply_session_options_ok. revert H. unfold resolve_ssh_config_on_port. cbv zeta.
  repeat match goal with |- match ?x with Ok _ => _ | Err _ => _ end = _ -> _ => destruct x; [|done] end.
  apply parse_ssh_config_ok.
Qed.

Definition example_options : list (list byte) :=
  map bytes_of ["LocalForward=8000-8001:80-81"; "DynamicForward=[::1]:1081"; "SetEnv=A=y B='two words'"; "SetEnv=bad"]%string.

Lemma resolved_config_ok_witness :
  exists c, resolve_ssh_config_on_port (telling_ssh (bytes_of "A=x") (bytes_of "top")) example_query = Ok c /\
    resolved_ok (fst (apply_session_options c example_options)) /\
    rc_set_env (fst (apply_session_options c example_options)) = [(bytes_of "A", bytes_of "y"); (bytes_of "B", bytes_of "two words")] /\
    zlen (rc_local_forwards (fst (apply_session_options c example_options))) = 2 /\
    snd (apply_session_options c example_options) = malformed "setenv".
Proof.
  destruct (resolve_ssh_config_on_port (telling_ssh (bytes_of "A=x") (bytes_of "top")) example_query) as [c|] eqn:E; [|vm_compute in E; discriminate].
  exists c. split; [reflexivity|]. split; [exact (resolved_config_ok _ _ c example_options E)|].
  vm_compute in E. injection E as <-. split_and!; vm_compute; reflexivity.
Defined.
