(* ===== verification/Bootstrap.v ===== *)
(** * Bootstrap: [crates/et-bin/src/bootstrap.rs]

    The command lines with which the client has ssh start the remote terminal
    process, the credentials it prints, and the probe for the remote shell. Of
    an invocation, the program and its arguments are modelled. A shell is its
    rules of quoting, which the theorems are stated against. *)

From Stdlib Require Import String.
From S2P Require Import Prelude Bytes Text Crypto Keys Socks Tunnel ClientEnvironment ForwardConfig SshConfig.

Definition MARKER : list byte := bytes_of "IDPASSKEY:".
Definition CREDENTIAL_LEN : Z := 16 + 1 + 32.
Definition WINDOWS_SHELL_PROBE_SENTINEL : list byte := bytes_of "__ET_COMSPEC__".
Definition OPERATIONAL_SSH_OPTIONS : list (list byte) :=
  map bytes_of ["ClearAllForwardings=yes"; "RemoteCommand=none"; "PermitLocalCommand=no"; "SessionType=default"]%string.
Definition FILTERED_SSH_OPTION_KEYS : list string :=
  ["ClearAllForwardings"; "RemoteCommand"; "PermitLocalCommand"; "SessionType"]%string.

Record Credentials := mkCredentials { cr_id : list byte; cr_passkey : list byte }.

Inductive RemoteShell := Posix | Cmd.

Record BootstrapRequest := mkBootstrap {
  br_user : option (list byte);
  br_host_alias : list byte;
  br_jumphost : option (list byte);
  br_terminal_path : option (list byte);
  br_server_fifo : option (list byte);
  br_kill_other_sessions : bool;
  br_verbose : Z;
  br_ssh_options : list (list byte);
  br_ssh_config : option (list byte);
  br_term : list byte;
  br_remote_shell : RemoteShell;
  br_session_shell : option (list byte)
}.

Record JumpBootstrapRequest := mkJump {
  jr_jumphost : list byte;
  jr_destination_host : list byte;
  jr_destination_port : Z;
  jr_jump_server_fifo : option (list byte);
  jr_terminal_path : option (list byte);
  jr_kill_other_sessions : bool;
  jr_verbose : Z;
  jr_ssh_config : option (list byte);
  jr_term : list byte
}.

(** ** Credentials *)

Definition validate_credentials (credentials : Credentials) : result ClientError Credentials :=
  if negb (zlen (cr_id credentials) =? 16) || negb (forallb is_ascii_alphanumeric (cr_id credentials)) then Err InvalidSessionId
  else if negb (forallb is_ascii_alphanumeric (cr_passkey credentials))
          || match passkey_to_key (cr_passkey credentials) with None => true | Some _ => false end
  then Err InvalidPasskey
  else Ok credentials.

(** What follows the first marker; anything may stand before it. *)
Definition parse_id_passkey (stdout : list byte) : result ClientError Credentials :=
  match split_once_str MARKER stdout with
  | None => Err MissingIdPasskeyMarker
  | Some (_, tail) =>
      if zlen tail <? CREDENTIAL_LEN then Err MalformedIdPasskeyMarker
      else
        let value := ztake CREDENTIAL_LEN tail in
        if negb (bool_decide (nth_error value 16 = Some "/"%byte)) then Err MalformedIdPasskeyMarker
        else
          let id := ztake 16 value in
          let passkey := slice value 17 CREDENTIAL_LEN in
          if negb (forallb is_ascii_alphanumeric id) then Err InvalidSessionId
          else if negb (forallb is_ascii_alphanumeric passkey) then Err InvalidPasskey
          else if negb (from_utf8 id) then Err InvalidSessionId
          else if negb (from_utf8 passkey) then Err InvalidPasskey
          else validate_credentials (mkCredentials id passkey)
  end.

(** The server replaces ids that start so. *)
Definition provisional_credentials (picks : nat -> Z) : result ClientError Credentials :=
  let (id, passkey) := gen_id_passkey picks in
  if zlen id <? 3 then Err InvalidSessionId
  else validate_credentials (mkCredentials (bytes_of "XXX" ++ zdrop 3 id) passkey).

(** ** Options *)

Definition ssh_option_key (text : list byte) : list byte :=
  unwrap_or text (head (split_by (fun c => beq c "=" || is_ascii_whitespace c) (trim_start text))).

Definition is_control_option (text : list byte) : bool :=
  let key := ssh_option_key text in
  is_key key "ControlMaster" || is_key key "ControlPath" || is_key key "ControlPersist".

Definition is_forced_operational_option (text : list byte) : bool :=
  is_control_option text || existsb (is_key (ssh_option_key text)) FILTERED_SSH_OPTION_KEYS.

Definition append_operational_options (args options : list (list byte)) : list (list byte) :=
  args ++ map option_argument OPERATIONAL_SSH_OPTIONS
       ++ map option_argument (filter (fun o => is_forced_operational_option o = false) options).

(** ** Remote commands *)

(** [value.replace(c, by)]. *)
Fixpoint replace_byte (c : byte) (by_ : list byte) (value : list byte) : list byte :=
  match value with
  | [] => []
  | b :: value => (if beq b c then by_ else [b]) ++ replace_byte c by_ value
  end.

Definition shell_quote (value : list byte) : list byte :=
  [x27] ++ replace_byte x27 [x27; x22; x27; x22; x27] value ++ [x27].
Definition cmd_quote (value : list byte) : list byte := [x22] ++ replace_byte x22 [x22; x22] value ++ [x22].

Definition cmd_safe (value : list byte) : bool :=
  negb (bool_decide (value = [])) &&
  forallb (fun b => is_ascii_alphanumeric b || beq b "/" || beq b "_" || beq b "-" || beq b "." || beq b "+") value.

(** [rsplit(['/', '\\']).next()], in lower case. *)
Definition terminal_is_etterminal (path : list byte) : bool :=
  let name := lowercase (unwrap_or path (last (split_by (fun b => beq b "/" || beq b x5c) path))) in
  same name "etterminal" || same name "etterminal.exe".

Definition credential_line (credentials : Credentials) (term : list byte) : list byte :=
  cr_id credentials ++ bytes_of "/" ++ cr_passkey credentials ++ bytes_of "_" ++ term.

Definition verbose_flag (verbose : Z) : list byte := bytes_of "--verbose=" ++ dec verbose.
Definition fifo_flag (fifo : list byte) : list byte := bytes_of "--serverfifo=" ++ fifo.

(** [printf '%s\n' <line> | <terminal> <flag>] *)
Definition printf_command (line terminal flag : list byte) : list byte :=
  bytes_of "printf '%s\n' " ++ shell_quote line ++ bytes_of " | " ++ shell_quote terminal ++ bytes_of " " ++ shell_quote flag.

(** [id -un] in double quotes. *)
Definition current_user : list byte := [x22] ++ bytes_of "$(id -un)" ++ [x22].

Definition kill_prefix (user : list byte) : list byte := bytes_of "pkill -u " ++ user ++ bytes_of " 'etterminal'; sleep 0.5; ".

Definition jump_remote_command (r : JumpBootstrapRequest) (credentials : Credentials) : list byte :=
  let terminal := unwrap_or (bytes_of "etterminal") (nonempty (jr_terminal_path r)) in
  (if jr_kill_other_sessions r then kill_prefix current_user else [])
  ++ printf_command (credential_line credentials (jr_term r)) terminal (verbose_flag (jr_verbose r))
  ++ match jr_jump_server_fifo r with Some fifo => bytes_of " " ++ shell_quote (fifo_flag fifo) | None => [] end
  ++ bytes_of " '--jump'"
  ++ bytes_of " " ++ shell_quote (bytes_of "--dsthost=" ++ jr_destination_host r)
  ++ bytes_of " " ++ shell_quote (bytes_of "--dstport=" ++ dec (jr_destination_port r)).

Definition cmd_remote_command (r : BootstrapRequest) (terminal input : list byte) : list byte :=
  match br_session_shell r with
  | Some shell => bytes_of "set " ++ [x22] ++ bytes_of "ET_SHELL=" ++ shell ++ [x22] ++ bytes_of " & "
  | None => []
  end
  ++ (if br_kill_other_sessions r
      then bytes_of "taskkill /F /FI " ++ [x22] ++ bytes_of "USERNAME eq %USERNAME%" ++ [x22] ++ bytes_of " /IM et.exe >nul 2>&1 & "
      else [])
  ++ bytes_of "echo " ++ input ++ bytes_of "| " ++ cmd_quote terminal
  ++ (if terminal_is_etterminal terminal then [] else bytes_of " terminal")
  ++ bytes_of " " ++ cmd_quote (verbose_flag (br_verbose r))
  ++ match br_server_fifo r with Some fifo => bytes_of " " ++ cmd_quote (fifo_flag fifo) | None => [] end.

Definition bootstrap_terminal (r : BootstrapRequest) : list byte :=
  unwrap_or (match br_remote_shell r with Posix => bytes_of "etterminal" | Cmd => bytes_of "et.exe" end) (nonempty (br_terminal_path r)).

Definition remote_command (r : BootstrapRequest) (credentials : Credentials) : list byte :=
  let terminal := bootstrap_terminal r in
  let input := credential_line credentials (br_term r) in
  match br_remote_shell r with
  | Cmd => cmd_remote_command r terminal input
  | Posix =>
      (if br_kill_other_sessions r
       then kill_prefix (match br_user r with Some user => shell_quote user | None => current_user end)
       else [])
      ++ printf_command input terminal (verbose_flag (br_verbose r))
      ++ match br_server_fifo r with Some fifo => bytes_of " " ++ shell_quote (fifo_flag fifo) | None => [] end
  end.

(** ** Invocations *)

Definition jump_flag (args : list (list byte)) (jumphost : option (list byte)) : list (list byte) :=
  match jumphost with Some jumphost => args ++ [bytes_of "-J"; jumphost] | None => args end.

Definition build_invocation (r : BootstrapRequest) (credentials : Credentials) : SshInvocation :=
  let args := jump_flag (append_ssh_config_flag [] (br_ssh_config r)) (br_jumphost r) in
  let args := append_operational_options args (br_ssh_options r) in
  mkInvocation (bytes_of "ssh") (args ++ [user_at (br_user r) (br_host_alias r); remote_command r credentials]).

Definition build_shell_probe (r : BootstrapRequest) : SshInvocation :=
  let args := jump_flag (append_ssh_config_flag [] (br_ssh_config r)) (br_jumphost r) in
  let args := append_operational_options args (br_ssh_options r) in
  mkInvocation (bytes_of "ssh")
    (args ++ [bytes_of "-oLogLevel=ERROR"; user_at (br_user r) (br_host_alias r);
              bytes_of "echo " ++ WINDOWS_SHELL_PROBE_SENTINEL ++ bytes_of "%ComSpec%"]).

(** [trim_matches] of square brackets. *)
Fixpoint trim_brackets (l : list byte) : list byte :=
  match l with b :: rest => if beq b "[" || beq b "]" then trim_brackets rest else l | [] => [] end.

Definition build_jump_invocation (r : JumpBootstrapRequest) (credentials : Credentials) : SshInvocation :=
  let parsed := parse_host_string (jr_jumphost r) in
  let args := append_ssh_config_flag [] (jr_ssh_config r) in
  let args := match strip_prefix (bytes_of ":") (port_suffix parsed) with Some port => args ++ [bytes_of "-p"; port] | None => args end in
  let args := append_operational_options args [] in
  let host := rev (trim_brackets (rev (trim_brackets (host parsed)))) in
  mkInvocation (bytes_of "ssh")
    (args ++ [user_at (match user parsed with [] => None | u => Some u end) host; jump_remote_command r credentials]).

Fixpoint probe_lines (pieces : list (list byte)) : result ClientError RemoteShell :=
  let unexpected := Err (Unsupported (bytes_of "remote shell probe returned unexpected output")) in
  match pieces with
  | [] => unexpected
  | line :: pieces =>
      if negb (ends_with [x0a] line) then probe_lines pieces
      else
        match strip_prefix WINDOWS_SHELL_PROBE_SENTINEL (trim line) with
        | None => probe_lines pieces
        | Some value =>
            if is_key value "%ComSpec%" then Ok Posix
            else if ends_with (bytes_of "cmd.exe") (lowercase value) then Ok Cmd
            else unexpected
        end
  end.
Definition parse_shell_probe (stdout : list byte) : result ClientError RemoteShell :=
  probe_lines (split_inclusive x0a (from_utf8_lossy stdout)).

(** [run_bootstrap] and [run_shell_probe] of [ssh_process.rs]. *)
Definition run_bootstrap (runner : nat -> SshInvocation -> result ClientError SshOutput) (n : nat) (i : SshInvocation)
    : result ClientError Credentials :=
  let? out := run_checked runner n i in parse_id_passkey out.
Definition run_shell_probe (runner : nat -> SshInvocation -> result ClientError SshOutput) (n : nat) (i : SshInvocation)
    : result ClientError RemoteShell :=
  let? out := run_checked runner n i in parse_shell_probe out.

(** The check of [client.rs] before a command for [cmd.exe] is built. *)
Definition check_windows (r : BootstrapRequest) (provisional : Credentials) : result ClientError unit :=
  match br_remote_shell r with
  | Posix => Ok tt
  | Cmd => if forallb cmd_safe [br_term r; cr_id provisional; cr_passkey provisional] then Ok tt
           else Err (Unsupported (bytes_of "Windows bootstrap requires alphanumeric TERM and credentials"))
  end.

(** ** A POSIX shell's reading of a command

    What sections 2.2 and 2.3 of the shell's standard say of the characters
    that these commands consist of: a word is made of plain characters, of
    text in single quotes, in which every character stands for itself, and of
    text in double quotes, in which [$(] starts a command to substitute. [None]
    is a character that would do something else. *)

Inductive Fragment := Lit (b : byte) | Substitution (command : list byte).
Inductive Token := Word (w : list Fragment) | Pipe | Semicolon.
Inductive Mode := Plain | Single | Double | Dollar | Substituted (text : list byte).

Definition plain (b : byte) : bool := is_ascii_alphanumeric b || beq b "-" || beq b "." || beq b "/" || beq b "_".

Definition add (f : Fragment) (word : option (list Fragment)) : option (list Fragment) := Some (unwrap_or [] word ++ [f]).
Definition ended (word : option (list Fragment)) : list Token := match word with Some w => [Word w] | None => [] end.

Fixpoint lex (m : Mode) (word : option (list Fragment)) (l : list byte) : option (list Token) :=
  match l with
  | [] => match m with Plain => Some (ended word) | _ => None end
  | b :: l =>
      match m with
      | Plain =>
          if beq b x27 then lex Single (Some (unwrap_or [] word)) l
          else if beq b x22 then lex Double (Some (unwrap_or [] word)) l
          else if beq b x20 then let! rest := lex Plain None l in Some (ended word ++ rest)
          else if beq b "|" then let! rest := lex Plain None l in Some (ended word ++ Pipe :: rest)
          else if beq b ";" then let! rest := lex Plain None l in Some (ended word ++ Semicolon :: rest)
          else if plain b then lex Plain (add (Lit b) word) l
          else None
      | Single => if beq b x27 then lex Plain word l else lex Single (add (Lit b) word) l
      | Double =>
          if beq b x22 then lex Plain word l
          else if beq b "$" then lex Dollar word l
          else if beq b x5c || beq b "`" then None
          else lex Double (add (Lit b) word) l
      | Dollar => if beq b "(" then lex (Substituted []) word l else None
      | Substituted text =>
          if beq b ")" then lex Double (add (Substitution text) word) l else lex (Substituted (text ++ [b])) word l
      end
  end.

(** The tokens of a command. *)
Definition shell_tokens (command : list byte) : option (list Token) := lex Plain None command.

Definition verbatim (l : list byte) : Token := Word (map Lit l).

Lemma lex_single word v rest :
  lex Single (Some word) (replace_byte x27 [x27; x22; x27; x22; x27] v ++ x27 :: rest) = lex Plain (Some (word ++ map Lit v)) rest.
Proof.
  revert word. induction v as [|b v IH]; intros word; [by rewrite app_nil_r|]. cbn [replace_byte map].
  destruct (beq_spec b x27) as [->|Hb].
  - cbn [app lex]. rewrite !beq_refl. change (beq x22 x27) with false. change (beq x27 x22) with false.
    change (beq x27 "$") with false. change (beq x27 x5c || beq x27 "`") with false. cbn [unwrap_or add].
    rewrite IH. by rewrite <-app_assoc.
  - cbn [app lex]. destruct (beq_spec b x27); [done|]. unfold add. cbn [unwrap_or]. rewrite IH. by rewrite <-app_assoc.
Qed.

(** A quoted value is read as itself, whatever it holds. *)
Lemma lex_quote v rest : lex Plain None (shell_quote v ++ rest) = lex Plain (Some (map Lit v)) rest.
Proof. unfold shell_quote. cbn [app lex]. rewrite beq_refl. cbn [unwrap_or]. rewrite <-app_assoc. apply (lex_single []). Qed.

Lemma lex_quoted v rest : lex Plain None (shell_quote v ++ bytes_of " " ++ rest) = cons (verbatim v) <$> lex Plain None rest.
Proof. rewrite lex_quote. cbn. by destruct (lex Plain None rest). Qed.

Lemma lex_last v : lex Plain None (shell_quote v) = Some [verbatim v].
Proof. by rewrite <-(app_nil_r (shell_quote v)), lex_quote. Qed.

Lemma plain_special b :
  plain b = true -> beq b x27 = false /\ beq b x22 = false /\ beq b x20 = false /\ beq b "|" = false /\ beq b ";" = false.
Proof. destruct b; vm_compute; intuition congruence. Qed.

Lemma lex_plain word t rest :
  forallb plain t = true -> lex Plain (Some word) (t ++ rest) = lex Plain (Some (word ++ map Lit t)) rest.
Proof.
  revert word. induction t as [|b t IH]; intros word H; [by rewrite app_nil_r|].
  apply andb_true_iff in H as [Hb Ht]. destruct (plain_special b Hb) as (E1 & E2 & E3 & E4 & E5).
  cbn [app lex]. rewrite E1, E2, E3, E4, E5, Hb. unfold add. cbn [unwrap_or map]. rewrite IH by done. by rewrite <-app_assoc.
Qed.

Lemma lex_word t c rest :
  forallb plain t = true -> t <> [] -> c = bytes_of " " \/ c = bytes_of "; " ->
  lex Plain None (t ++ c ++ rest) = app (verbatim t :: if bool_decide (c = bytes_of " ") then [] else [Semicolon]) <$> lex Plain None rest.
Proof.
  intros Ht Hne Hc. destruct t as [|b t]; [done|]. apply andb_true_iff in Ht as [Hb Ht].
  destruct (plain_special b Hb) as (E1 & E2 & E3 & E4 & E5). cbn [app lex].
  rewrite E1, E2, E3, E4, E5, Hb. unfold add. cbn [unwrap_or app]. rewrite lex_plain by done.
  destruct Hc as [-> | ->]; cbn; by destruct (lex Plain None rest).
Qed.

(** What the commands start with. *)
Lemma lex_printf rest :
  lex Plain None (bytes_of "printf '%s\n' " ++ rest) =
  app [verbatim (bytes_of "printf"); verbatim (bytes_of "%s\n")] <$> lex Plain None rest.
Proof.
  change (bytes_of "printf '%s\n' ") with (bytes_of "printf" ++ bytes_of " " ++ shell_quote (bytes_of "%s\n") ++ bytes_of " ").
  rewrite <-!app_assoc, lex_word, lex_quoted by (done || by left). by destruct (lex Plain None rest).
Qed.

Lemma lex_kill user token rest :
  (forall r, lex Plain None (user ++ bytes_of " " ++ r) = cons token <$> lex Plain None r) ->
  lex Plain None (kill_prefix user ++ rest) =
  app [verbatim (bytes_of "pkill"); verbatim (bytes_of "-u"); token; verbatim (bytes_of "etterminal"); Semicolon;
       verbatim (bytes_of "sleep"); verbatim (bytes_of "0.5"); Semicolon] <$> lex Plain None rest.
Proof.
  intros Hu. unfold kill_prefix.
  change (bytes_of "pkill -u ") with (bytes_of "pkill" ++ bytes_of " " ++ bytes_of "-u" ++ bytes_of " ").
  change (bytes_of " 'etterminal'; sleep 0.5; ") with
    (bytes_of " " ++ shell_quote (bytes_of "etterminal") ++ bytes_of "; " ++ bytes_of "sleep" ++ bytes_of " " ++ bytes_of "0.5" ++ bytes_of "; ").
  rewrite <-!app_assoc, lex_word, lex_word, Hu, lex_quote by (done || by left).
  change (bytes_of "; " ++ ?r) with (";"%byte :: x20 :: r) at 1. cbn [lex]. change (beq ";" x27) with false.
  change (beq ";" x22) with false. change (beq ";" x20) with false. change (beq ";" "|") with false. rewrite !beq_refl.
  change (beq x20 x27) with false. change (beq x20 x22) with false. cbv iota.
  rewrite lex_word, lex_word by (done || (left; done) || (right; done)). by destruct (lex Plain None rest).
Qed.

(** ** What the remote shell runs *)

Definition printf_tokens (line terminal flag : list byte) : list Token :=
  [verbatim (bytes_of "printf"); verbatim (bytes_of "%s\n"); verbatim line; Pipe; verbatim terminal; verbatim flag].

Definition kill_tokens (user : Token) : list Token :=
  [verbatim (bytes_of "pkill"); verbatim (bytes_of "-u"); user; verbatim (bytes_of "etterminal"); Semicolon;
   verbatim (bytes_of "sleep"); verbatim (bytes_of "0.5"); Semicolon].

(** The user whom the remote system reports. *)
Definition current_user_token : Token := Word [Substitution (bytes_of "id -un")].

Lemma lex_current_user r : lex Plain None (current_user ++ bytes_of " " ++ r) = cons current_user_token <$> lex Plain None r.
Proof.
  transitivity (let! rest := lex Plain None r in Some (current_user_token :: rest)); [reflexivity|]. by destruct (lex Plain None r).
Qed.

(** The flags, each with a space before it. *)
Definition flags (fs : list (list byte)) : list byte := concat (map (fun f => bytes_of " " ++ shell_quote f) fs).

Lemma lex_flags v fs : lex Plain None (shell_quote v ++ flags fs) = Some (map verbatim (v :: fs)).
Proof.
  revert v. induction fs as [|f fs IH]; intros v; [unfold flags; cbn [map concat]; rewrite app_nil_r; apply lex_last|].
  unfold flags. cbn [map concat]. rewrite <-app_assoc, lex_quoted. fold (flags fs). by rewrite IH.
Qed.

Lemma lex_command line terminal flag fs :
  lex Plain None (printf_command line terminal flag ++ flags fs) = Some (printf_tokens line terminal flag ++ map verbatim fs).
Proof.
  unfold printf_command. change (bytes_of " | ") with (bytes_of " " ++ bytes_of "| "). rewrite <-!app_assoc, lex_printf, lex_quoted.
  change (bytes_of "| " ++ ?r) with ("|"%byte :: x20 :: r). cbn [lex]. change (beq "|" x27) with false. change (beq "|" x22) with false.
  change (beq "|" x20) with false. rewrite !beq_refl. change (beq x20 x27) with false. change (beq x20 x22) with false. cbv iota.
  by rewrite lex_quoted, lex_flags.
Qed.

Definition optional_fifo (fifo : option (list byte)) : list (list byte) := match fifo with Some f => [fifo_flag f] | None => [] end.

Lemma flags_fifo fifo :
  match fifo with Some f => bytes_of " " ++ shell_quote (fifo_flag f) | None => [] end = flags (optional_fifo fifo).
Proof. destruct fifo; [|done]. unfold flags. cbn [optional_fifo map concat]. by rewrite app_nil_r. Qed.

Lemma lex_killing (kill : bool) user token rest ts :
  (forall r, lex Plain None (user ++ bytes_of " " ++ r) = cons token <$> lex Plain None r) -> lex Plain None rest = Some ts ->
  lex Plain None ((if kill then kill_prefix user else []) ++ rest) = Some ((if kill then kill_tokens token else []) ++ ts).
Proof. intros Hu Hr. destruct kill; cbn [app]; [|done]. by rewrite (lex_kill _ token), Hr. Qed.

(** C23: On a POSIX remote, the shell gives the terminal process, the credentials,
    the paths and the user to the programs as they are, each as one word,
    whatever characters they hold, and runs nothing else; the same holds of
    the command for a jump host. *)
Theorem remote_command_words r j credentials :
  br_remote_shell r = Posix ->
  shell_tokens (remote_command r credentials) =
    Some ((if br_kill_other_sessions r
           then kill_tokens (match br_user r with Some user => verbatim user | None => current_user_token end) else [])
          ++ printf_tokens (credential_line credentials (br_term r)) (bootstrap_terminal r) (verbose_flag (br_verbose r))
          ++ map verbatim (optional_fifo (br_server_fifo r))) /\
  shell_tokens (jump_remote_command j credentials) =
    Some ((if jr_kill_other_sessions j then kill_tokens current_user_token else [])
          ++ printf_tokens (credential_line credentials (jr_term j)) (unwrap_or (bytes_of "etterminal") (nonempty (jr_terminal_path j)))
               (verbose_flag (jr_verbose j))
          ++ map verbatim (optional_fifo (jr_jump_server_fifo j) ++
               [bytes_of "--jump"; bytes_of "--dsthost=" ++ jr_destination_host j; bytes_of "--dstport=" ++ dec (jr_destination_port j)])).
Proof.
  intros Hp. unfold shell_tokens, remote_command, jump_remote_command. rewrite Hp. cbv zeta. split.
  - rewrite flags_fifo. apply lex_killing; [|apply lex_command].
    intros rest. destruct (br_user r); [apply lex_quoted|apply lex_current_user].
  - rewrite flags_fifo. apply lex_killing; [apply lex_current_user|]. rewrite <-lex_command. f_equal.
    unfold flags. rewrite map_app, concat_app. cbn [map concat]. rewrite app_nil_r.
    change (bytes_of " '--jump'") with (bytes_of " " ++ shell_quote (bytes_of "--jump")). by rewrite <-!app_assoc.
Qed.

(** A terminal path that tries to leave its quotes. *)
Definition example_request : BootstrapRequest :=
  mkBootstrap (Some (bytes_of "a b")) (bytes_of "host") None (Some (bytes_of "x'; rm -rf $HOME; '")) (Some (bytes_of "`id`")) true 2 [] None
    (bytes_of "xterm") Posix None.
Definition example_jump : JumpBootstrapRequest :=
  mkJump (bytes_of "jump") (bytes_of "$(reboot)") 2022 None None false 0 None (bytes_of "xterm").
Definition example_credentials : Credentials := mkCredentials (bytes_of "XXXdefghijklmnop") (bytes_of "abcdefghijklmnopabcdefghijklmnop").

Lemma remote_command_words_witness :
  shell_tokens (remote_command example_request example_credentials) =
    Some (kill_tokens (verbatim (bytes_of "a b")) ++
          printf_tokens (bytes_of "XXXdefghijklmnop/abcdefghijklmnopabcdefghijklmnop_xterm") (bytes_of "x'; rm -rf $HOME; '") (bytes_of "--verbose=2")
          ++ [verbatim (bytes_of "--serverfifo=`id`")]).
Proof. exact (proj1 (remote_command_words example_request example_jump example_credentials eq_refl)). Defined.

(** ** Credentials *)

Lemma validate_credentials_iff c r :
  validate_credentials c = Ok r <-> r = c /\ alphanumeric 16 (cr_id c) /\ alphanumeric PASSKEY_LEN (cr_passkey c).
Proof.
  unfold validate_credentials, passkey_to_key. destruct (negb (zlen (cr_id c) =? 16) || _) eqn:E1.
  { split; [done|]. intros (_ & H%checked_iff & _). congruence. }
  apply checked_iff in E1. destruct (negb (zlen (cr_passkey c) =? PASSKEY_LEN) || _) eqn:E2.
  { rewrite orb_true_r. split; [done|]. intros (_ & _ & H%checked_iff). congruence. }
  pose proof E2 as E3. apply orb_false_iff in E3 as [_ ->]. apply checked_iff in E2. cbn. naive_solver.
Qed.

(** The client takes the credentials behind the first marker, whatever the
    remote prints around them, and only well-formed ones. *)
Theorem parse_id_passkey_sound stdout c :
  Bootstrap.parse_id_passkey stdout = Ok c ->
  alphanumeric 16 (cr_id c) /\ alphanumeric PASSKEY_LEN (cr_passkey c) /\
  exists noise tail, split_once_str MARKER stdout = Some (noise, cr_id c ++ "/"%byte :: cr_passkey c ++ tail).
Proof.
  unfold Bootstrap.parse_id_passkey. destruct (split_once_str MARKER stdout) as [[noise tail]|]; [|done].
  destruct (Z.ltb_spec (zlen tail) CREDENTIAL_LEN) as [|Hl]; [done|]. cbv zeta.
  destruct (bool_decide_reflect (nth_error (ztake CREDENTIAL_LEN tail) 16 = Some "/"%byte)) as [Hn|]; [|done]. cbn [negb].
  repeat match goal with |- (if ?b then _ else _) = _ -> _ => destruct b; [done|] end.
  intros (-> & Hi & Hp)%validate_credentials_iff. cbn [cr_id cr_passkey] in *. split_and!; [done|done|].
  exists noise, (zdrop CREDENTIAL_LEN tail). do 2 f_equal.
  apply nth_error_split in Hn as (a & b & Hab & Ha). rewrite Hab in *.
  assert (zlen a = 16) as Ha16 by (unfold zlen; lia).
  assert (ztake 16 (a ++ "/"%byte :: b) = a) as -> by (rewrite <-Ha16; apply ztake_app_exact).
  assert (slice (a ++ "/"%byte :: b) 17 CREDENTIAL_LEN = b) as ->.
  { unfold slice. change 17 with (16 + 1). rewrite zdrop_app_ge by lia. rewrite Ha16. change (16 + 1 - 16) with 1.
    rewrite zdrop_cons, zdrop_0 by lia. apply ztake_all. apply (f_equal zlen) in Hab. rewrite zlen_ztake, zlen_app, zlen_cons, Ha16 in Hab.
    unfold CREDENTIAL_LEN in *. lia. }
  rewrite <-(ztake_zdrop CREDENTIAL_LEN tail) at 1. rewrite Hab. by rewrite <-app_assoc.
Qed.

(** What is printed so is taken. *)
Theorem parse_id_passkey_complete noise id passkey tail :
  alphanumeric 16 id -> alphanumeric PASSKEY_LEN passkey -> from_utf8 id = true -> from_utf8 passkey = true ->
  split_once_str MARKER (noise ++ MARKER ++ id ++ "/"%byte :: passkey ++ tail) = Some (noise, id ++ "/"%byte :: passkey ++ tail) ->
  Bootstrap.parse_id_passkey (noise ++ MARKER ++ id ++ "/"%byte :: passkey ++ tail) = Ok (mkCredentials id passkey).
Proof.
  intros Hi Hp Ui Up Hs. unfold Bootstrap.parse_id_passkey. rewrite Hs. destruct Hi as [Li Hi'], Hp as [Lp Hp'].
  assert (zlen (id ++ "/"%byte :: passkey) = CREDENTIAL_LEN) as L by (rewrite zlen_app, zlen_cons, Li, Lp; done).
  change ("/"%byte :: passkey ++ tail) with (("/"%byte :: passkey) ++ tail). rewrite app_assoc.
  rewrite zlen_app, L. pose proof (zlen_nonneg tail). destruct (Z.ltb_spec (CREDENTIAL_LEN + zlen tail) CREDENTIAL_LEN); [lia|]. cbv zeta.
  assert (ztake CREDENTIAL_LEN ((id ++ "/"%byte :: passkey) ++ tail) = id ++ "/"%byte :: passkey) as -> by (rewrite <-L; apply ztake_app_exact).
  assert (nth_error (id ++ "/"%byte :: passkey) 16 = Some "/"%byte) as ->.
  { assert (length id = 16%nat) as E by (unfold zlen in Li; lia). rewrite nth_error_app2 by lia. by rewrite E. }
  rewrite bool_decide_true by done. cbn [negb].
  assert (slice (id ++ "/"%byte :: passkey) 17 CREDENTIAL_LEN = passkey) as ->.
  { unfold slice. rewrite zdrop_app_ge by lia. rewrite Li. change (17 - 16) with 1. rewrite zdrop_cons, zdrop_0 by lia. apply ztake_all. rewrite Lp. done. }
  assert (ztake 16 (id ++ "/"%byte :: passkey) = id) as -> by (rewrite <-Li; apply ztake_app_exact).
  assert (forall n s, alphanumeric n s -> forallb is_ascii_alphanumeric s = true) as Hall
    by (intros n s [_ H']; apply forallb_forall; intros x Hx; rewrite Forall_forall in H'; by apply H', list_elem_of_In).
  rewrite (Hall 16 id) by done. rewrite (Hall PASSKEY_LEN passkey) by done. rewrite Ui, Up. cbn [negb]. by apply validate_credentials_iff.
Qed.

(** ** Options *)

(** What ssh takes for an option that is given more than once: the first. *)
Definition first_option (key : string) (args : list (list byte)) : option (list byte) :=
  head (filter (fun o => is_key (ssh_option_key o) key = true) (omap (strip_prefix (bytes_of "-o")) args)).

Lemma omap_option_argument l : omap (strip_prefix (bytes_of "-o")) (map option_argument l) = l.
Proof.
  induction l as [|o l IH]; [done|]. cbn [map]. unfold option_argument at 1.
  change (omap (strip_prefix (bytes_of "-o")) (?a :: ?b)) with (match strip_prefix (bytes_of "-o") a with Some y => y :: omap (strip_prefix (bytes_of "-o")) b | None => omap (strip_prefix (bytes_of "-o")) b end).
  rewrite (proj2 (strip_prefix_spec _ _ o) eq_refl). by rewrite IH.
Qed.

(** Whatever options the user gives, the bootstrap forwards nothing, runs no
    other command, and does not use a shared master. *)
Theorem forced_options_win options :
  let args := append_operational_options [] options in
  first_option "ClearAllForwardings" args = Some (bytes_of "ClearAllForwardings=yes") /\
  first_option "RemoteCommand" args = Some (bytes_of "RemoteCommand=none") /\
  first_option "PermitLocalCommand" args = Some (bytes_of "PermitLocalCommand=no") /\
  first_option "SessionType" args = Some (bytes_of "SessionType=default") /\
  Forall (fun o => is_control_option o = false) (omap (strip_prefix (bytes_of "-o")) args).
Proof.
  cbv zeta. unfold first_option, append_operational_options. cbn [app].
  rewrite omap_app, !omap_option_argument. rewrite !filter_app. split_and!; [vm_compute; reflexivity..|].
  apply Forall_app. split; [repeat constructor; vm_compute; reflexivity|].
  apply Forall_forall. intros o [Ho _]%list_elem_of_filter. unfold is_forced_operational_option in Ho. by apply orb_false_iff in Ho as [-> _].
Qed.

(** ** Paths on Windows

    The check before a command for [cmd.exe] looks at the terminal type and
    the credentials, not at the paths: a path with percent signs, which
    [cmd.exe] expands also between quotes, passes. *)
Lemma windows_path_unchecked :
  let r := mkBootstrap None (bytes_of "host") None (Some (bytes_of "C:\%TEMP%\et.exe")) None false 0 [] None (bytes_of "xterm") Cmd None in
  check_windows r example_credentials = Ok tt /\ contains "%" (remote_command r example_credentials) = true.
Proof. split; vm_compute; reflexivity. Qed.
