(* ===== verification/ClientTimers.v ===== *)
(** * ClientTimers: [crates/et-bin/src/delivery_gate.rs] and
    [keepalive_clock.rs]

    Two clocks of the client's session loop: one pauses its producers while
    too much is unacknowledged, the other decides that a link is dead. *)

From Stdlib Require Import Sorted.
From S2P Require Import Prelude Bytes Framing Crypto Packet BackedWriter.

(** ** The gate *)

Record DeliveryGate := mkGate { stalled : option (Z * Z); released : option Z }.

Definition gate_default : DeliveryGate := mkGate None None.

Definition release_at (g : DeliveryGate) (patience : Z) : option Z :=
  match stalled g with Some (_, since) => Some (since + patience) | None => None end.

Definition check (g : DeliveryGate) (backlog : option (Z * Z)) (now patience : Z) : DeliveryGate * bool :=
  match backlog with
  | None => (g, false)
  | Some (acknowledged, unacknowledged) =>
      if is_some_and (fun released_at => acknowledged <=? released_at) (released g) then (g, false)
      else if unacknowledged <? MAX_UNACKNOWLEDGED_BYTES then (mkGate None None, false)
      else
        match stalled g with
        | Some (seen, since) =>
            if seen =? acknowledged then
              if patience <=? Z.max 0 (now - since) then (mkGate None (Some acknowledged), false)
              else (mkGate (stalled g) None, true)
            else (mkGate (Some (acknowledged, now)) None, true)
        | None => (mkGate (Some (acknowledged, now)) None, true)
        end
  end.

Definition observe (g : DeliveryGate) (connected : bool) (backlog : option (Z * Z)) (now patience : Z)
    : DeliveryGate * bool :=
  if negb connected then (mkGate None None, false) else check g backlog now patience.

(** ** The clock *)

Definition PROBE_LAG : Z := 1000000000.
Definition MIN_REPLY_WINDOW : Z := 1000000000.

Record KeepaliveClock := mkClock {
  probe_after : Z;
  reply_window : Z;
  deadline : Z;
  probe_outstanding : bool
}.

Definition clock_new (interval now : Z) : KeepaliveClock :=
  let verdict := interval * 2 in
  let probe_after := Z.max (Z.min (interval + PROBE_LAG) (sat_sub verdict MIN_REPLY_WINDOW)) interval in
  mkClock probe_after (verdict - probe_after) (now + probe_after) false.

Definition alive (c : KeepaliveClock) (now : Z) : KeepaliveClock :=
  mkClock (probe_after c) (reply_window c) (now + probe_after c) false.

Definition probe_sent (c : KeepaliveClock) (now : Z) : KeepaliveClock :=
  mkClock (probe_after c) (reply_window c) (now + reply_window c) true.

Definition probe_due (c : KeepaliveClock) (now : Z) : bool := negb (probe_outstanding c) && (deadline c <=? now).

Definition dead (c : KeepaliveClock) (now : Z) (reading : bool) : bool :=
  reading && probe_outstanding c && (deadline c <=? now).

Definition wake_at (c : KeepaliveClock) (reading can_probe : bool) : option Z :=
  if (if probe_outstanding c then reading else can_probe) then Some (deadline c) else None.

(** ** The gate never wedges *)

Record Obs := mkObs { o_connected : bool; o_backlog : option (Z * Z); o_now : Z }.

Definition observe_obs (patience : Z) (g : DeliveryGate) (o : Obs) : DeliveryGate * bool :=
  observe g (o_connected o) (o_backlog o) (o_now o) patience.

(** The gate after some observations, and what each answered. *)
Fixpoint gate_run (patience : Z) (g : DeliveryGate) (os : list Obs) : DeliveryGate * list bool :=
  match os with
  | [] => (g, [])
  | o :: os =>
      let (g, blocked) := observe_obs patience g o in
      let (g, answers) := gate_run patience g os in
      (g, blocked :: answers)
  end.

(** A stall began in the past, and a released gate is not stalled. *)
Definition gate_ok (g : DeliveryGate) (now : Z) : Prop :=
  (forall a since, stalled g = Some (a, since) -> since <= now) /\ (released g <> None -> stalled g = None).

Lemma gate_observe_ok patience g o now :
  gate_ok g now -> now <= o_now o -> gate_ok (fst (observe_obs patience g o)) (o_now o).
Proof.
  intros [Hs Hr] Hle. assert (Hlater : gate_ok g (o_now o)) by (split; [intros a since H%Hs; lia|done]).
  unfold observe_obs, observe. destruct (negb _); [done|]. unfold check. destruct (o_backlog o) as [[a u]|]; [|done].
  destruct (is_some_and _ _); [done|]. destruct (_ <? _); [done|].
  destruct (stalled g) as [[seen since]|] eqn:Hst; [|split; cbn; [by intros ? ? [= _ <-]|done]].
  destruct (seen =? a); [|split; cbn; [by intros ? ? [= _ <-]|done]].
  destruct (_ <=? _); split; cbn; try done. intros ? ? [= _ <-]. specialize (Hs _ _ eq_refl). lia.
Qed.

(** A gate that blocks: there is a connection, the bound is reached, and it
    remembers since when. *)
Lemma observe_blocked patience g o g' :
  observe_obs patience g o = (g', true) ->
  exists a u since, o_connected o = true /\ o_backlog o = Some (a, u) /\ MAX_UNACKNOWLEDGED_BYTES <= u /\
    g' = mkGate (Some (a, since)) None /\ (since = o_now o \/ stalled g = Some (a, since)).
Proof.
  unfold observe_obs, observe. destruct (o_connected o); [|done]. cbn [negb]. unfold check.
  destruct (o_backlog o) as [[a u]|]; [|done]. destruct (is_some_and _ _); [done|].
  destruct (Z.ltb_spec u MAX_UNACKNOWLEDGED_BYTES); [done|].
  destruct (stalled g) as [[seen since]|] eqn:Hst.
  - destruct (Z.eqb_spec seen a) as [->|].
    + destruct (_ <=? _); [done|]. intros [= <-]. exists a, u, since. split_and!; auto.
    + intros [= <-]. exists a, u, (o_now o). split_and!; auto.
  - intros [= <-]. exists a, u, (o_now o). split_and!; auto.
Qed.

(** One acknowledgement, and a connection that stays. *)
Definition still (a : Z) (o : Obs) : Prop :=
  o_connected o = true /\ forall a' u, o_backlog o = Some (a', u) -> a' = a.

(** Waiting for [a] since [since], with nothing stalled, or let go at [a]. *)
Definition waits (a since : Z) (g : DeliveryGate) : Prop :=
  g = mkGate (Some (a, since)) None \/ g = mkGate None (Some a).

Lemma still_released patience a g os :
  g = mkGate None (Some a) -> Forall (still a) os -> gate_run patience g os = (g, map (fun _ => false) os).
Proof.
  intros Hg. induction 1 as [|o os [Hc Ha] _ IH]; [done|]. cbn [gate_run map]. unfold observe_obs, observe. rewrite Hc.
  cbn [negb]. unfold check. destruct (o_backlog o) as [[a' u]|]; [|by rewrite IH]. rewrite (Ha a' u eq_refl). rewrite Hg in *.
  cbn [released is_some_and]. rewrite Z.leb_refl. by rewrite IH.
Qed.

(** As long as the bound is reached and the acknowledgement stays, the answer
    turns at the deadline, once. *)
Definition loaded (o : Obs) : Prop := forall a u, o_backlog o = Some (a, u) -> MAX_UNACKNOWLEDGED_BYTES <= u.

Lemma still_waits patience a since os :
  0 <= patience -> Forall (still a) os -> Forall loaded os ->
  forall i o b, os !! i = Some o -> since + patience <= o_now o ->
    snd (gate_run patience (mkGate (Some (a, since)) None) os) !! i = Some b -> b = false.
Proof.
  intros Hp Hst Hld. induction Hst as [|o os [Hc Ha] Hst IH]; [done|]. apply Forall_cons_1 in Hld as [Hl Hld].
  intros i o' b Hi Hdue. cbn [gate_run]. unfold observe_obs, observe. rewrite Hc. cbn [negb]. unfold check.
  destruct (o_backlog o) as [[a' u]|] eqn:Hbl.
  - assert (a' = a) as -> by (by eapply Ha). cbn [released is_some_and stalled]. specialize (Hl _ _ Hbl).
    rewrite (proj2 (Z.ltb_ge _ _)), Z.eqb_refl by done. destruct (Z.leb_spec patience (Z.max 0 (o_now o - since))) as [Hrel|Hwait].
    + rewrite (still_released patience a) by done. cbn [snd]. destruct i as [|i]; cbn; [by intros [= <-]|].
      intros Hb. apply list_elem_of_lookup_2, list_elem_of_In, in_map_iff in Hb as (? & <- & _). done.
    + destruct (gate_run patience _ os) as [g' answers] eqn:Hrun. cbn [snd]. destruct i as [|i]; cbn in *; [simplify_eq; lia|].
      intros Hb. by eapply (IH Hld i o').
  - destruct (gate_run patience _ os) as [g' answers] eqn:Hrun. cbn [snd]. destruct i as [|i]; cbn in *; [by intros [= <-]|].
    intros Hb. by eapply (IH Hld i o').
Qed.

(** Producers are paused for at most [patience] while the acknowledgement
    stands still: whenever the gate has blocked, after any observations and
    under a clock that does not go back, every later observation of the same
    connection and acknowledgement that is at least [patience] later is let
    through; and it blocks only a live connection whose unacknowledged bytes
    reached the bound. *)
Theorem gate_never_wedges patience before o g g' after :
  0 <= patience -> StronglySorted Z.le (map o_now (before ++ [o])) ->
  fst (gate_run patience gate_default before) = g -> observe_obs patience g o = (g', true) ->
  exists a u, o_connected o = true /\ o_backlog o = Some (a, u) /\ MAX_UNACKNOWLEDGED_BYTES <= u /\
    (Forall (still a) after -> Forall loaded after ->
     forall i o' b, after !! i = Some o' -> o_now o + patience <= o_now o' ->
       snd (gate_run patience g' after) !! i = Some b -> b = false).
Proof.
  intros Hp Hsort Hg Ho.
  assert (Hok : gate_ok g (o_now o)).
  { assert (Hrun : forall os g0 t0, gate_ok g0 t0 -> StronglySorted Z.le (t0 :: map o_now (os ++ [o])) ->
      gate_ok (fst (gate_run patience g0 os)) (o_now o)).
    { induction os as [|x os IH]; intros g0 t0 H0 Hs.
      - apply StronglySorted_inv in Hs as [_ Hall]. apply Forall_cons_1 in Hall as [Hle _]. destruct H0 as [Hs0 Hr0].
        split; [intros a since H%Hs0; lia|done].
      - cbn [gate_run app map] in *. apply StronglySorted_inv in Hs as [Hs Hall]. apply Forall_cons_1 in Hall as [Hle _].
        pose proof (gate_observe_ok patience g0 x t0 H0 Hle) as H1. destruct (observe_obs patience g0 x) as [g1 b1]. cbn in H1.
        specialize (IH g1 (o_now x) H1 Hs). by destruct (gate_run patience g1 os). }
    subst g. destruct before as [|x before]; cbn [app map] in Hsort.
    - by split.
    - eapply (Hrun _ _ (o_now x)); [by split|]. cbn [app map]. constructor; [done|]. constructor; [done|].
      apply StronglySorted_inv in Hsort as [_ Hall]. done. }
  destruct (observe_blocked _ _ _ _ Ho) as (a & u & since & Hc & Hb & Hu & -> & Hsince). exists a, u. split_and!; [done..|].
  intros Hst Hld i o' b Hi Hdue. assert (since <= o_now o).
  { destruct Hsince as [->|Hs]; [lia|]. destruct Hok as [Hs0 _]. by eapply Hs0. }
  eapply still_waits; try done. lia.
Qed.

Lemma gate_never_wedges_witness :
  let full := Some (7, MAX_UNACKNOWLEDGED_BYTES) in
  snd (gate_run 100 (mkGate (Some (7, 5)) None) [mkObs true full 60; mkObs true full 105; mkObs true full 110]) !! 1%nat = Some false.
Proof.
  cbv zeta. set (full := Some (7, MAX_UNACKNOWLEDGED_BYTES)).
  destruct (snd (gate_run 100 (mkGate (Some (7, 5)) None) [mkObs true full 60; mkObs true full 105; mkObs true full 110]) !! 1%nat)
    as [b|] eqn:E; [|exfalso; vm_compute in E; discriminate E].
  f_equal. destruct (gate_never_wedges 100 [] (mkObs true full 5) gate_default (mkGate (Some (7, 5)) None)
    [mkObs true full 60; mkObs true full 105; mkObs true full 110]) as (a & u & _ & Hb & _ & H).
  - lia.
  - repeat constructor.
  - reflexivity.
  - reflexivity.
  - cbn in Hb. injection Hb as <- <-. eapply H; [| | |..|exact E].
    + repeat constructor; cbn; intros ? ? [= <- <-]; reflexivity.
    + repeat constructor; cbn; intros ? ? [= <- <-]; reflexivity.
    + reflexivity.
    + cbn. lia.
Defined.

(** ** The verdict *)

(** The clocks of a session loop, with the time of the last sign of life. *)
Inductive ticking (interval : Z) : KeepaliveClock -> Z -> Prop :=
  | tick_new now : ticking interval (clock_new interval now) now
  | tick_alive c last now : ticking interval c last -> last <= now -> ticking interval (alive c now) now
  | tick_probe c last now : ticking interval c last -> probe_due c now = true -> ticking interval (probe_sent c now) last.

Lemma ticking_spec interval c last :
  0 <= interval -> ticking interval c last ->
  interval <= probe_after c /\ 0 <= reply_window c /\ probe_after c + reply_window c = interval * 2 /\
  (MIN_REPLY_WINDOW <= interval -> MIN_REPLY_WINDOW <= reply_window c) /\
  if probe_outstanding c then last + interval * 2 <= deadline c else deadline c = last + probe_after c.
Proof.
  intros Hi. induction 1 as [now|c last now _ IH Hle|c last now _ IH Hdue].
  - unfold clock_new. cbv zeta. cbn. unfold PROBE_LAG, MIN_REPLY_WINDOW, sat_sub. lia.
  - cbn. destruct (probe_outstanding c); lia.
  - unfold probe_due in Hdue. apply andb_prop in Hdue as [Hno Hd]. apply negb_true_iff in Hno. rewrite Hno in IH.
    apply Z.leb_le in Hd. cbn. lia.
Qed.

(** A link is declared dead only after two whole intervals without a sign of
    life, of which an unanswered probe had the last second at least (when the
    interval is that long), and never while the loop does not read; a loop
    that probes when the clock wakes it gets the verdict at two intervals. *)
Theorem verdict_after_two_intervals interval c last now reading :
  MIN_REPLY_WINDOW <= interval -> ticking interval c last ->
  (dead c now reading = true -> reading = true /\ probe_outstanding c = true /\ last + interval * 2 <= now) /\
  (probe_due c now = true -> last + interval <= now) /\
  MIN_REPLY_WINDOW <= reply_window c /\
  (probe_outstanding c = false ->
   exists due, wake_at c reading true = Some due /\ probe_due c due = true /\ last + interval <= due /\
     dead (probe_sent c due) (last + interval * 2) true = true /\
     wake_at (probe_sent c due) true false = Some (last + interval * 2)).
Proof.
  intros Hi Ht. destruct (ticking_spec interval c last) as (H1 & H2 & H3 & H4 & H5); [unfold MIN_REPLY_WINDOW in Hi; lia|done|].
  unfold dead, probe_due, wake_at. split_and!.
  - destruct reading, (probe_outstanding c); cbn [andb]; try done. intros Hd%Z.leb_le. split_and!; [done..|lia].
  - destruct (probe_outstanding c); [done|]. cbn [negb andb]. intros Hd%Z.leb_le. lia.
  - auto.
  - intros Hno. rewrite Hno in *. exists (deadline c). cbn [negb andb probe_sent probe_outstanding deadline].
    split_and!; [done|apply Z.leb_refl|lia|apply Z.leb_le; lia|f_equal; lia].
Qed.

Lemma verdict_after_two_intervals_witness :
  dead (probe_sent (clock_new 5000000000 0) 6000000000) 10000000000 true = true /\
  dead (probe_sent (clock_new 5000000000 0) 6000000000) 9999999999 true = false.
Proof.
  split; [|reflexivity].
  destruct (verdict_after_two_intervals 5000000000 (clock_new 5000000000 0) 0 0 true) as (_ & _ & _ & H).
  - unfold MIN_REPLY_WINDOW. lia.
  - constructor.
  - destruct (H eq_refl) as (due & Hw & _ & _ & Hd & _). vm_compute in Hw. injection Hw as <-. exact Hd.
Defined.
