(* ===== verification/TmuxFilter.v ===== *)
(** * TmuxFilter: [crates/et-bin/src/terminal_tmux_filter.rs]

    What a terminal writes while tmux is in control mode on it: lines that are
    not tmux's own are dropped, so that a broadcast does not reach the client
    as protocol. *)

From Stdlib Require Import String.
From S2P Require Import Prelude Bytes Framing Crypto Packet OutputInterrupt.

Definition ESC_ : byte := x1b.
Definition NL_ : byte := x0a.
Definition DCS : list byte := x1b :: bytes_of "P1000p".
Definition ST : list byte := [x1b; x5c].

Inductive AfterLine := AfterNone | AfterBegin | AfterEnd | AfterExit.
Inductive Line := Prefix | Pass (after : AfterLine) | Drop.

Record TmuxCcFilter := mkFilter {
  control : bool;
  response : bool;
  introducer_line : bool;
  line_start : bool;
  line : Line;
  escape : bool;
  pending : list byte
}.

Definition filter_default : TmuxCcFilter := mkFilter false false false true Prefix false [].

Definition set_pending (f : TmuxCcFilter) (p : list byte) : TmuxCcFilter :=
  mkFilter (control f) (response f) (introducer_line f) (line_start f) (line f) (escape f) p.

Definition leave_control : TmuxCcFilter := mkFilter false false false true Prefix false [].

Definition is_notification (bytes : list byte) : bool :=
  match bytes with a :: b :: _ => beq a "%" && is_ascii_alphabetic b | _ => false end.

Definition tokens : list (list byte) := [bytes_of "%begin"; bytes_of "%end"; bytes_of "%error"; bytes_of "%exit"].

Definition after_token (token : list byte) : AfterLine :=
  if list_eqb token (bytes_of "%begin") then AfterBegin
  else if list_eqb token (bytes_of "%end") || list_eqb token (bytes_of "%error") then AfterEnd
  else if list_eqb token (bytes_of "%exit") then AfterExit
  else AfterNone.

(** What the start of a line decides; [None] while it is undecided. *)
Definition classify (f : TmuxCcFilter) (p : list byte) (byte : byte) : option Line :=
  if starts_with p ST || list_eqb p (bytes_of "%") then None
  else if is_notification p then
    if is_ascii_whitespace byte then Some (Pass (after_token (removelast p)))
    else if existsb (fun token => starts_with p token) tokens then None
    else Some (Pass AfterNone)
  else if response f then Some (Pass AfterNone)
  else if introducer_line f && list_eqb p [x0d] then None
  else if introducer_line f && (list_eqb p [x0a] || list_eqb p [x0d; x0a]) then Some (Pass AfterNone)
  else Some Drop.

(** The end of the loop's body, for a byte that did not [continue]. *)
Definition end_byte (f : TmuxCcFilter) (l : Line) (p : list byte) (byte : byte) : TmuxCcFilter :=
  if beq byte NL_ then
    let f' := mkFilter (control f) (response f) (introducer_line f) (line_start f) l (beq byte ESC_) p in
    let f' :=
      match l with
      | Pass AfterBegin => mkFilter (control f') true (introducer_line f') (line_start f') l (escape f') p
      | Pass AfterEnd => mkFilter (control f') false (introducer_line f') (line_start f') l (escape f') p
      | Pass AfterExit => leave_control
      | _ => f'
      end in
    mkFilter (control f') (response f') false true Prefix (escape f') (pending f')
  else mkFilter (control f) (response f) (introducer_line f) (line_start f) l (beq byte ESC_) p.

(** One byte outside control mode. *)
Definition step_outside (f : TmuxCcFilter) (byte : byte) : list Byte.byte * TmuxCcFilter :=
  let start b := mkFilter (control f) (response f) (introducer_line f) b (line f) (escape f) [] in
  if line_start f && (bool_decide (pending f <> []) || beq byte ESC_) then
    let p := pending f ++ [byte] in
    if list_eqb p DCS then
      (DCS, mkFilter true (response f) true (line_start f) (line f) (escape f) [])
    else if negb (starts_with p DCS) then (p, start (beq byte NL_))
    else ([], set_pending f p)
  else ([byte], mkFilter (control f) (response f) (introducer_line f) (beq byte NL_) (line f) (escape f) (pending f)).

(** One byte of a line of control mode. *)
Definition step_inside (f : TmuxCcFilter) (byte : byte) : list Byte.byte * TmuxCcFilter :=
  match line f with
  | Prefix =>
      let p := pending f ++ [byte] in
      if negb (response f) && list_eqb p ST then (ST, leave_control)
      else
        match classify f p byte with
        | None => ([], set_pending f p)
        | Some Drop => ([], end_byte f Drop [] byte)
        | Some l => (p, end_byte f l [] byte)
        end
  | Pass after =>
      if negb (response f) && escape f && beq byte x5c then ([byte], leave_control)
      else ([byte], end_byte f (Pass after) (pending f) byte)
  | Drop =>
      if escape f && beq byte x5c then (ST, leave_control) else ([], end_byte f Drop (pending f) byte)
  end.

Definition step (f : TmuxCcFilter) (byte : byte) : list Byte.byte * TmuxCcFilter :=
  if negb (control f) then step_outside f byte else step_inside f byte.

Fixpoint steps (f : TmuxCcFilter) (chunk : list byte) : list byte * TmuxCcFilter :=
  match chunk with
  | [] => ([], f)
  | byte :: chunk =>
      let (out, f) := step f byte in
      let (rest, f) := steps f chunk in
      (out ++ rest, f)
  end.

(** A wall that ended without a newline before tmux wrote again. *)
Definition resume_line (f : TmuxCcFilter) (chunk : list byte) : TmuxCcFilter :=
  match line f with
  | Drop =>
      if control f && negb (response f) && (starts_with (bytes_of "%") chunk || starts_with [ESC_] chunk) then
        mkFilter (control f) (response f) (introducer_line f) (line_start f) Prefix false (pending f)
      else f
  | _ => f
  end.

Section memchr.
Context `{Memchr}.

(** Nothing to look at: no introducer can start in the chunk. *)
Definition plain (f : TmuxCcFilter) (chunk : list byte) : bool :=
  negb (control f) && bool_decide (pending f = []) && bool_decide (memchr ESC_ chunk = None).

Definition pass_plain (f : TmuxCcFilter) (chunk : list byte) : TmuxCcFilter :=
  match last chunk with
  | Some b => mkFilter (control f) (response f) (introducer_line f) (beq b NL_) (line f) (escape f) (pending f)
  | None => f
  end.

Definition apply_ (f : TmuxCcFilter) (chunk : list byte) : list byte * TmuxCcFilter :=
  if plain f chunk then (chunk, pass_plain f chunk) else steps (resume_line f chunk) chunk.

Definition apply_slice (f : TmuxCcFilter) (chunk : list byte) : list byte * TmuxCcFilter :=
  if plain f chunk then (chunk, pass_plain f chunk) else apply_ f chunk.

(** What is sent of a terminal's writes, one chunk each, up to its end. *)
Fixpoint apply_all (f : TmuxCcFilter) (chunks : list (list byte)) : list byte * TmuxCcFilter :=
  match chunks with
  | [] => ([], f)
  | chunk :: chunks =>
      let (out, f) := apply_slice f chunk in
      let (rest, f) := apply_all f chunks in
      (out ++ rest, f)
  end.
End memchr.

Definition finish (f : TmuxCcFilter) : list byte * TmuxCcFilter :=
  if negb (control f) || response f || is_notification (pending f) then (pending f, set_pending f [])
  else ([], set_pending f []).

(** ** No byte is added, and none is lost outside walls *)

(** Bytes taken in and not yet sent or dropped: the start of a line that is
    undecided, and the escape of a terminator behind a wall. *)
Definition held (f : TmuxCcFilter) : list byte :=
  match line f with Drop => if escape f then [ESC_] else [] | _ => pending f end.

Record filter_ok (f : TmuxCcFilter) : Prop := mkFilterOk {
  ok_outside : control f = false -> line f = Prefix /\ response f = false /\ starts_with (pending f) DCS = true /\ pending f <> DCS /\
    (pending f <> [] -> line_start f = true);
  ok_line : line f <> Prefix -> pending f = [];
  ok_drop : line f = Drop -> response f = false;
  ok_short : zlen (pending f) <= 6
}.

Lemma default_ok : filter_ok filter_default.
Proof. by split. Qed.

Lemma leave_ok : filter_ok leave_control.
Proof. by split. Qed.

Lemma end_byte_ok f l b :
  control f = true -> l <> Prefix -> (l = Drop -> response f = false) ->
  filter_ok (end_byte f l [] b) /\ held (end_byte f l [] b) = (match l with Drop => if beq b ESC_ then [ESC_] else [] | _ => [] end).
Proof.
  intros Hc Hl Hd. unfold end_byte. destruct (beq_spec b NL_) as [->|Hb].
  - cbv zeta. destruct l as [|[]|]; try done; (split; [split; cbn; try done; by rewrite Hc|done]).
  - split; [|by destruct l]. split; cbn; try done. by rewrite Hc.
Qed.

Lemma starts_with_length p l : starts_with p l = true -> zlen p <= zlen l.
Proof. intros [rest ->]%starts_with_spec. rewrite zlen_app. pose proof (zlen_nonneg rest). lia. Qed.

(** What is undecided is short. *)
Lemma classify_undecided f p b : classify f p b = None -> zlen p <= 6.
Proof.
  unfold classify. destruct (starts_with p ST || list_eqb p (bytes_of "%")) eqn:H1.
  { intros _. apply orb_true_iff in H1 as [H1|H1%list_eqb_spec]; [apply starts_with_length in H1; change (zlen ST) with 2 in H1; lia|by subst p]. }
  destruct (is_notification p).
  - destruct (is_ascii_whitespace b); [done|]. destruct (existsb _ _) eqn:Ht; [|done]. intros _.
    apply existsb_exists in Ht as (t & Hin & Ht%starts_with_length). unfold tokens in Hin. cbn [In] in Hin.
    destruct Hin as [<-|[<-|[<-|[<-|[]]]]]; vm_compute (zlen (bytes_of _)) in Ht; lia.
  - destruct (response f); [done|]. destruct (introducer_line f && list_eqb p [x0d]) eqn:H2; [|repeat case_match; discriminate].
    intros _. apply andb_prop in H2 as [_ H2%list_eqb_spec]. by subst p.
Qed.

Lemma classify_drop f p b : classify f p b = Some Drop -> response f = false.
Proof.
  unfold classify. destruct (_ || _); [done|]. destruct (is_notification p).
  - destruct (is_ascii_whitespace b); [done|]. by destruct (existsb _ _).
  - destruct (response f); [done|]. done.
Qed.

Lemma classify_prefix f p b : classify f p b <> Some Prefix.
Proof. unfold classify. repeat case_match; done. Qed.

(** What a byte does: what is sent and kept is, in order, a part of what was
    kept and came; all of it outside control mode and inside a response. *)
Definition accounts (f : TmuxCcFilter) (b : byte) (r : list byte * TmuxCcFilter) : Prop :=
  filter_ok (snd r) /\ sublist (fst r ++ held (snd r)) (held f ++ [b]) /\
  (control f = false \/ response f = true -> fst r ++ held (snd r) = held f ++ [b]).

Lemma step_inside_accounts f b : filter_ok f -> control f = true -> accounts f b (step_inside f b).
Proof.
  intros Hok Hc. pose proof Hok as [_ Hl Hd Hs]. unfold accounts.
  unfold step_inside. destruct (line f) as [|a|] eqn:Hline.
  - unfold held at 2 4. rewrite Hline.
    destruct (negb (response f) && list_eqb (pending f ++ [b]) ST) eqn:Hst.
    { apply andb_prop in Hst as [Hr%negb_true_iff Hp%list_eqb_spec]. split; [apply leave_ok|]. rewrite Hp, Hr.
      split; [done|]. intros [?|?]; congruence. }
    destruct (classify f (pending f ++ [b]) b) as [l|] eqn:Hcl.
    + assert (Hdr : l = Drop -> response f = false) by (intros ->; by eapply classify_drop).
      assert (Hnp : l <> Prefix) by (intros ->; by apply classify_prefix in Hcl).
      destruct (end_byte_ok f l b Hc Hnp Hdr) as [He Hh].
      destruct l as [|a|]; [done| |].
      * split; [done|]. cbn [fst snd]. rewrite Hh, app_nil_r. split; done.
      * split; [done|]. cbn [fst snd]. rewrite Hh. split; [|intros [?|?]; [congruence|by rewrite Hdr in *]].
         cbn [app]. destruct (beq_spec b ESC_) as [->|]; [|apply sublist_nil_l]. apply sublist_inserts_l. done.
    + split; [|cbn [app]; unfold held; cbn; by rewrite Hline]. split; cbn; [by rewrite Hc|by rewrite Hline|by rewrite Hline|].
      by eapply classify_undecided.
  - unfold held at 2 4. rewrite Hline. rewrite Hl by done. cbn [app].
    destruct (negb (response f) && escape f && beq b x5c); [split; [apply leave_ok|done]|].
    destruct (end_byte_ok f (Pass a) b Hc) as [He Hh]; [done|done|]. cbn [fst snd]. by rewrite Hh.
  - unfold held at 2 4. rewrite Hline. rewrite Hl by done.
    destruct (escape f && beq b x5c) eqn:Hst.
    + apply andb_prop in Hst as [-> Hb]. destruct (beq_spec b x5c) as [->|]; [|done]. split; [apply leave_ok|done].
    + destruct (end_byte_ok f Drop b Hc) as [He Hh]; [done|done|]. cbn [fst snd]. rewrite Hh. split; [done|]. cbn [app].
      split; [|intros [?|?]; [congruence|by rewrite Hd in *]].
      destruct (beq_spec b ESC_) as [->|]; [|apply sublist_nil_l]. apply sublist_inserts_l. done.
Qed.

Lemma step_outside_accounts f b : filter_ok f -> control f = false -> accounts f b (step_outside f b).
Proof.
  intros [Ho Hl Hd Hs] Hc. unfold accounts.
  destruct (Ho Hc) as (Hline & Hr & Hpre & Hne & Hstart). unfold held at 2 4. rewrite Hline. unfold step_outside. cbv zeta.
  destruct (line_start f && _) eqn:Hls.
  - destruct (list_eqb _ DCS) eqn:Hdcs.
    { apply list_eqb_spec in Hdcs. rewrite Hdcs. split; [|unfold held; cbn; rewrite Hline; done]. split; cbn; try done; by rewrite Hline. }
    destruct (starts_with (pending f ++ [b]) DCS) eqn:Hp; cbn [negb].
    + split; [|unfold held; cbn; rewrite Hline; done]. split; cbn; [|by rewrite Hline..|].
      * intros _. apply andb_prop in Hls as [Hls _]. split_and!; try done. intros He. by rewrite He in Hdcs.
      * assert (Hlen : zlen (pending f ++ [b]) <> 7).
         { intros H7. apply starts_with_spec in Hp as [rest Hrest]. assert (rest = []) as ->.
           { apply (f_equal zlen) in Hrest. rewrite zlen_app, H7 in Hrest. change (zlen DCS) with 7 in Hrest.
             destruct rest; [done|]. rewrite zlen_cons in Hrest. pose proof (zlen_nonneg rest). lia. }
           rewrite app_nil_r in Hrest. by rewrite <- Hrest, (proj2 (list_eqb_spec _ _) eq_refl) in Hdcs. }
         apply starts_with_length in Hp. change (zlen DCS) with 7 in Hp. lia.
    + split; [|unfold held; cbn; rewrite Hline, app_nil_r; done]. split; cbn; try done.
  - assert (Hpe : pending f = []).
    { apply dec_stable. intros Hpe. rewrite (Hstart Hpe), (bool_decide_true _ Hpe) in Hls. done. }
    split; [|unfold held; cbn; rewrite Hline, Hpe; done]. split; cbn; rewrite ?Hline, ?Hpe; try done.
Qed.

Lemma step_accounts f b : filter_ok f -> accounts f b (step f b).
Proof.
  intros Hok. unfold step. destruct (control f) eqn:Hc; [by apply step_inside_accounts|by apply step_outside_accounts].
Qed.

Lemma steps_app f a b :
  steps f (a ++ b) = let (out, f') := steps f a in let (rest, f'') := steps f' b in (out ++ rest, f'').
Proof.
  revert f. induction a as [|x a IH]; intros f; cbn [app steps]; [by destruct (steps f b)|].
  destruct (step f x) as [o f1]. rewrite IH. destruct (steps f1 a) as [o1 f2]. destruct (steps f2 b) as [o2 f3].
  by rewrite app_assoc.
Qed.

Lemma steps_accounts f l :
  filter_ok f -> filter_ok (snd (steps f l)) /\ sublist (fst (steps f l) ++ held (snd (steps f l))) (held f ++ l).
Proof.
  revert f. induction l as [|b l IH]; intros f Hf; cbn [steps]; [by rewrite app_nil_r|].
  destruct (step_accounts f b Hf) as (H1 & Hs & _). destruct (step f b) as [o f1]. cbn [fst snd] in *.
  destruct (IH f1 H1) as [H2 Hs2]. destruct (steps f1 l) as [o2 f2]. cbn [fst snd] in *. split; [done|].
  rewrite <- app_assoc. change (b :: l) with ([b] ++ l). rewrite (app_assoc (held f)). transitivity (o ++ held f1 ++ l).
  - by apply sublist_app.
  - rewrite app_assoc. by apply sublist_app.
Qed.

Lemma resume_line_ok f chunk : filter_ok f -> filter_ok (resume_line f chunk) /\ sublist (held (resume_line f chunk)) (held f).
Proof.
  intros Hf. pose proof Hf as [Ho Hl Hd Hs]. unfold resume_line. destruct (line f) eqn:Hline; [done..|].
  destruct (control f && negb (response f) && _) eqn:Hg; [|done].
  apply andb_prop in Hg as [Hg _]. apply andb_prop in Hg as [Hc _]. rewrite Hl by done. split.
  - split; cbn; try done. by rewrite Hc.
  - unfold held. cbn. apply sublist_nil_l.
Qed.

Section memchr_laws.
Context `{search : Memchr} `{!MemchrLaws search}.

(** The fast path computes what the loop would. *)
Lemma plain_steps f chunk : filter_ok f -> plain f chunk = true -> steps (resume_line f chunk) chunk = (chunk, pass_plain f chunk).
Proof.
  intros Hf Hp. unfold plain in Hp. apply andb_prop in Hp as [Hp Hm]. apply andb_prop in Hp as [Hc Hp].
  apply negb_true_iff in Hc. apply bool_decide_eq_true in Hp, Hm.
  destruct (ok_outside _ Hf Hc) as (Hline & _). unfold resume_line. rewrite Hline.
  pose proof (memchr_spec ESC_ chunk) as Hno. rewrite Hm in Hno. clear Hf Hm. unfold pass_plain.
  revert f Hc Hp Hline. induction chunk as [|b chunk IH]; intros f Hc Hp Hline; [done|]. cbn [steps].
  apply not_elem_of_cons in Hno as [Hb Hno]. unfold step. rewrite Hc. cbn [negb]. unfold step_outside. cbv zeta.
  rewrite bool_decide_false by (intros H; by apply H). destruct (beq_spec b ESC_) as [->|]; [done|]. rewrite andb_false_r.
  set (f1 := mkFilter _ _ _ _ _ _ _). rewrite (IH Hno f1) by done. cbn [app]. f_equal.
  change (last (b :: chunk)) with (match chunk with [] => Some b | _ => last chunk end).
  subst f1. rewrite Hc. destruct chunk as [|x chunk]; [done|]. destruct (last (x :: chunk)) eqn:E; [done|]. by apply last_None in E.
Qed.

Lemma apply_slice_steps f chunk : filter_ok f -> apply_slice f chunk = steps (resume_line f chunk) chunk.
Proof.
  intros Hf. unfold apply_slice, apply_. destruct (plain f chunk) eqn:Hp; [|done]. by rewrite plain_steps.
Qed.

Lemma apply_all_accounts f chunks :
  filter_ok f -> filter_ok (snd (apply_all f chunks)) /\
  sublist (fst (apply_all f chunks) ++ held (snd (apply_all f chunks))) (held f ++ concat chunks).
Proof.
  revert f. induction chunks as [|c chunks IH]; intros f Hf; cbn [apply_all concat]; [by rewrite app_nil_r|].
  rewrite apply_slice_steps by done. destruct (resume_line_ok f c Hf) as [H0 S0].
  destruct (steps_accounts _ c H0) as [H1 S1]. destruct (steps (resume_line f c) c) as [o f1]. cbn [fst snd] in *.
  destruct (IH f1 H1) as [H2 S2]. destruct (apply_all f1 chunks) as [o2 f2]. cbn [fst snd] in *. split; [done|].
  rewrite <- app_assoc. transitivity (o ++ held f1 ++ concat chunks); [by apply sublist_app|].
  rewrite (app_assoc o), (app_assoc (held f)). apply sublist_app; [|done]. transitivity (held (resume_line f c) ++ c); [done|]. by apply sublist_app.
Qed.

Lemma finish_held f : filter_ok f -> sublist (fst (finish f)) (held f).
Proof.
  intros Hf. unfold finish, held. destruct (_ || _); cbn [fst]; [|apply sublist_nil_l].
  destruct (line f) eqn:Hl; [done..|]. rewrite (ok_line _ Hf) by (by rewrite Hl). apply sublist_nil_l.
Qed.
End memchr_laws.

(** ** Lines of control mode *)

(** A line starts: in control mode, with nothing undecided. *)
Definition ready (r : bool) : TmuxCcFilter := mkFilter true r false true Prefix false [].

(** After a line that passed. *)
Definition final (r : bool) (a : AfterLine) : TmuxCcFilter :=
  match a with AfterNone => ready r | AfterBegin => ready true | AfterEnd => ready false | AfterExit => leave_control end.

(** No string terminator, after an escape or not. *)
Fixpoint no_st (e : bool) (l : list byte) : bool :=
  match l with [] => true | b :: l => negb (e && beq b x5c) && no_st (beq b ESC_) l end.

(** Behind a dropped byte of a line, no cut before this byte starts a new
    line. *)
Fixpoint safe (f : TmuxCcFilter) (l : list byte) : Prop :=
  match l with
  | [] => True
  | b :: l => (line f = Drop -> b <> "%"%byte /\ b <> ESC_) /\ safe (snd (step f b)) l
  end.

Lemma safe_app f a b : safe f a -> safe (snd (steps f a)) b -> safe f (a ++ b).
Proof.
  revert f. induction a as [|x a IH]; intros f; [done|]. cbn [app safe steps]. intros [Hx Ha] Hb. split; [done|].
  destruct (step f x) as [o f1]. cbn [snd] in *. apply IH; [done|]. by destruct (steps f1 a).
Qed.

(** What a run of bytes sends, where it ends, and that it may be cut. *)
Definition runs (f : TmuxCcFilter) (l out : list byte) (f' : TmuxCcFilter) : Prop := steps f l = (out, f') /\ safe f l.

Lemma runs_app f a b out out' f1 f2 : runs f a out f1 -> runs f1 b out' f2 -> runs f (a ++ b) (out ++ out') f2.
Proof.
  intros [H1 S1] [H2 S2]. split; [by rewrite steps_app, H1, H2|]. apply safe_app; [done|]. by rewrite H1.
Qed.

Lemma runs_cons f b l o out f1 f2 :
  line f <> Drop \/ (b <> "%"%byte /\ b <> ESC_) -> step f b = (o, f1) -> runs f1 l out f2 -> runs f (b :: l) (o ++ out) f2.
Proof.
  intros Hs Hb [H2 S2]. split; [cbn [steps]; by rewrite Hb, H2|]. cbn [safe]. rewrite Hb. split; [|done].
  intros Hd. by destruct Hs.
Qed.

Lemma runs_nil f : runs f [] [] f.
Proof. by split. Qed.

Lemma end_of_line f a : control f = true -> end_byte f (Pass a) [] NL_ = final (response f) a.
Proof. intros Hc. unfold end_byte. rewrite beq_refl. cbv zeta. destruct a; cbn; by rewrite ?Hc. Qed.

(** The rest of a line that passes. *)
Lemma pass_run f a body :
  control f = true -> line f = Pass a -> pending f = [] -> NL_ ∉ body -> response f || no_st (escape f) (body ++ [NL_]) = true ->
  runs f (body ++ [NL_]) (body ++ [NL_]) (final (response f) a).
Proof.
  revert f. induction body as [|b body IH]; intros f Hc Hl Hp Hnl Hst; cbn [app] in *.
  - apply (runs_cons f NL_ [] [NL_] [] (final (response f) a)); [left; by rewrite Hl| |apply runs_nil].
    unfold step. rewrite Hc. cbn [negb]. unfold step_inside. rewrite Hl, Hp.
    change (beq NL_ x5c) with false. rewrite andb_false_r. by rewrite end_of_line.
  - apply not_elem_of_cons in Hnl as [Hb Hnl]. cbn [no_st] in Hst.
    assert (Hstep : step f b = ([b], end_byte f (Pass a) [] b)).
    { unfold step. rewrite Hc. cbn [negb]. unfold step_inside. rewrite Hl, Hp. destruct (response f); [done|]. cbn [negb andb orb] in *.
      apply andb_prop in Hst as [Hst _]. apply negb_true_iff in Hst. by rewrite Hst. }
    assert (Hend : end_byte f (Pass a) [] b = mkFilter true (response f) (introducer_line f) (line_start f) (Pass a) (beq b ESC_) []).
    { unfold end_byte. destruct (beq_spec b NL_); [by subst b|]. by rewrite Hc. }
    change (b :: body ++ [NL_]) with ([b] ++ body ++ [NL_]) at 2.
    eapply runs_cons; [left; by rewrite Hl|rewrite Hstep, Hend; done|].
    apply (IH (mkFilter true (response f) (introducer_line f) (line_start f) (Pass a) (beq b ESC_) [])); try done.
    cbn. destruct (response f); [done|]. cbn [orb] in *. by apply andb_prop in Hst as [_ Hst].
Qed.

(** The first decision about a line. *)
Fixpoint decision (f : TmuxCcFilter) (p rest : list byte) : option Line :=
  match rest with
  | [] => None
  | b :: rest => match classify f (p ++ [b]) b with None => decision f (p ++ [b]) rest | l => l end
  end.

Lemma decision_pending f q p rest : decision (set_pending f q) p rest = decision f p rest.
Proof. revert p. induction rest as [|b rest IH]; intros p; [done|]. cbn [decision]. change (classify (set_pending f q) (p ++ [b]) b) with (classify f (p ++ [b]) b). by rewrite IH. Qed.

Definition after_esc (p : list byte) : bool := match last p with Some b => beq b ESC_ | None => false end.

Lemma after_esc_snoc p b : after_esc (p ++ [b]) = beq b ESC_.
Proof. unfold after_esc. by rewrite last_snoc. Qed.

(** A line that passes, from what is undecided of it. *)
Lemma prefix_run f a body :
  control f = true -> line f = Prefix -> NL_ ∉ body -> response f || no_st (after_esc (pending f)) (body ++ [NL_]) = true ->
  decision f (pending f) (body ++ [NL_]) = Some (Pass a) ->
  runs f (body ++ [NL_]) (pending f ++ body ++ [NL_]) (final (response f) a).
Proof.
  revert f. induction body as [|b body IH]; intros f Hc Hl Hnl Hst Hdec; cbn [app decision no_st] in *.
  - destruct (classify f (pending f ++ [NL_]) NL_) as [l|] eqn:Hcl; [|done]. injection Hdec as ->. rewrite <- (app_nil_r (pending f ++ [NL_])).
    apply (runs_cons f NL_ [] (pending f ++ [NL_]) [] (final (response f) a)); [left; by rewrite Hl| |apply runs_nil].
    unfold step. rewrite Hc. cbn [negb]. unfold step_inside. rewrite Hl. cbv zeta.
    assert (Hn : list_eqb (pending f ++ [NL_]) ST = false).
    { destruct (list_eqb _ ST) eqn:E; [|done]. apply list_eqb_spec in E. apply (f_equal last) in E. rewrite last_snoc in E. done. }
    by rewrite Hn, andb_false_r, Hcl, end_of_line.
  - apply not_elem_of_cons in Hnl as [Hb Hnl].
    assert (Hn : negb (response f) && list_eqb (pending f ++ [b]) ST = false).
    { destruct (response f); [done|]. cbn [negb andb orb] in *. apply andb_prop in Hst as [Hst _]. apply negb_true_iff in Hst.
      destruct (list_eqb _ ST) eqn:E; [|done]. apply list_eqb_spec in E. apply (app_inj_tail (pending f) [ESC_] b x5c) in E as [Hp ->].
      by rewrite Hp in Hst. }
    assert (Hst' : response f || no_st (beq b ESC_) (body ++ [NL_]) = true).
    { destruct (response f); [done|]. cbn [orb] in *. by apply andb_prop in Hst as [_ Hst]. }
    assert (Hstep : step f b = match classify f (pending f ++ [b]) b with
        None => ([], set_pending f (pending f ++ [b])) | Some Drop => ([], end_byte f Drop [] b)
        | Some l => (pending f ++ [b], end_byte f l [] b) end).
    { unfold step. rewrite Hc. cbn [negb]. unfold step_inside. rewrite Hl. cbv zeta. by rewrite Hn. }
    replace (pending f ++ b :: body ++ [NL_]) with ((pending f ++ [b]) ++ body ++ [NL_]) by (by rewrite <- app_assoc).
    destruct (classify f (pending f ++ [b]) b) as [l|] eqn:Hcl.
    + injection Hdec as ->. eapply runs_cons; [left; by rewrite Hl|exact Hstep|].
      assert (Hend : end_byte f (Pass a) [] b = mkFilter true (response f) (introducer_line f) (line_start f) (Pass a) (beq b ESC_) []).
      { unfold end_byte. destruct (beq_spec b NL_); [by subst b|]. by rewrite Hc. }
      rewrite Hend. by apply (pass_run (mkFilter true (response f) (introducer_line f) (line_start f) (Pass a) (beq b ESC_) [])).
    + change ((pending f ++ [b]) ++ body ++ [NL_]) with ([] ++ (pending f ++ [b]) ++ body ++ [NL_]).
      eapply runs_cons; [left; by rewrite Hl|exact Hstep|].
      apply (IH (set_pending f (pending f ++ [b]))); try done; cbn [pending set_pending response].
      * by rewrite after_esc_snoc.
      * by rewrite decision_pending.
Qed.

(** The word a line starts with. *)
Fixpoint word (l : list byte) : list byte :=
  match l with [] => [] | b :: l => if is_ascii_whitespace b then [] else b :: word l end.

Lemma word_app p l : Forall (fun b => is_ascii_whitespace b = false) p -> word (p ++ l) = p ++ word l.
Proof. induction 1 as [|b p Hb _ IH]; [done|]. cbn. by rewrite Hb, IH. Qed.

Lemma after_token_known t : after_token t <> AfterNone -> existsb (fun token => list_eqb t token) tokens = true.
Proof.
  unfold after_token, tokens. cbn [existsb]. destruct (list_eqb t (bytes_of "%begin")); [done|].
  destruct (list_eqb t (bytes_of "%end")); [done|]. destruct (list_eqb t (bytes_of "%error")); [done|].
  by destruct (list_eqb t (bytes_of "%exit")).
Qed.

Lemma percent_not_st p b : head p = Some "%"%byte -> starts_with (p ++ [b]) ST = false.
Proof. by destruct p as [|x p]; [|intros [= ->]]. Qed.

Lemma is_notification_app p l : is_notification p = true -> is_notification (p ++ l) = true.
Proof. by destruct p as [|x [|y p]]. Qed.

(** A notification is decided at the end of its word at the latest, and by
    the whole word. *)
Lemma note_decision f p b rest body :
  head p = Some "%"%byte -> Forall (fun b => is_ascii_whitespace b = false) p -> is_notification (p ++ [b]) = true ->
  b :: rest = body ++ [NL_] -> decision f p (b :: rest) = Some (Pass (after_token (word (p ++ b :: rest)))).
Proof.
  revert p b body. induction rest as [|b' rest IH]; intros p b body Hh Hp Hn Hl; cbn [decision]; unfold classify;
    rewrite percent_not_st by done.
  all: assert (Hne : list_eqb (p ++ [b]) (bytes_of "%") = false)
    by (destruct (list_eqb _ _) eqn:E; [|done]; apply list_eqb_spec in E; by rewrite E in Hn).
  all: rewrite Hne, Hn; cbn [orb]; destruct (is_ascii_whitespace b) eqn:Hb.
  1, 3: rewrite removelast_last, word_app by done; cbn [word]; rewrite Hb, app_nil_r; done.
  - destruct body as [|x body]; [injection Hl as ->; done|]. injection Hl as -> Hl. by destruct body.
  - destruct (existsb (fun token => starts_with (p ++ [b]) token) tokens) eqn:Ht.
    + replace (p ++ b :: b' :: rest) with ((p ++ [b]) ++ b' :: rest) by (by rewrite <- app_assoc).
      destruct body as [|x body]; [by injection Hl|]. injection Hl as -> Hl. apply (IH (p ++ [x]) b' body).
      * by destruct p.
      * apply Forall_app. split; [done|]. by constructor.
      * by apply is_notification_app.
      * done.
    + do 2 f_equal. destruct (after_token (word (p ++ b :: b' :: rest))) eqn:Ha; [done|exfalso..].
      all: assert (Hk : existsb (fun token => list_eqb (word (p ++ b :: b' :: rest)) token) tokens = true)
        by (apply after_token_known; by rewrite Ha).
      all: apply existsb_exists in Hk as (t & Hin & Hw%list_eqb_spec).
      all: apply not_true_iff_false in Ht; apply Ht; apply existsb_exists; exists t; split; [done|].
      all: rewrite <- Hw, word_app by done; cbn [word]; rewrite Hb; apply starts_with_spec; eexists; by rewrite <- app_assoc.
Qed.

Lemma decision_note f l :
  is_line NL_ l -> is_notification l = true -> decision f [] l = Some (Pass (after_token (word l))).
Proof.
  intros (body & Hl & _) Hn. destruct l as [|x [|c l]]; [done|done|]. cbn in Hn. apply andb_prop in Hn as [Hx Hc].
  destruct (beq_spec x "%") as [->|]; [|done]. cbn [decision app]. change (classify f ["%"%byte] "%") with (@None Line).
  destruct body as [|y body]; [by injection Hl|]. injection Hl as <- Hl.
  apply (note_decision f ["%"%byte] c l body); [done|by constructor|cbn; by rewrite Hc|done].
Qed.

(** A line inside a response passes, whatever it holds. *)
Lemma decision_response f l :
  response f = true -> is_line NL_ l ->
  decision f [] l = Some (Pass (if is_notification l then after_token (word l) else AfterNone)).
Proof.
  intros Hr Hline. destruct (is_notification l) eqn:Hn; [by apply decision_note|].
  destruct Hline as (body & Hl & _). destruct l as [|x l]; [by destruct body|]. cbn [decision app].
  assert (Hpass : forall p b, starts_with p ST = false -> list_eqb p (bytes_of "%") = false -> is_notification p = false ->
    classify f p b = Some (Pass AfterNone)).
  { intros p b H1 H2 H3. unfold classify. by rewrite H1, H2, H3, Hr. }
  destruct (beq_spec x "%") as [->|Hx].
  { change (classify f ["%"%byte] "%") with (@None Line). destruct l as [|c l].
    - destruct body as [|y body]; [by injection Hl|]. injection Hl as _ Hl. by destruct body.
    - cbn [decision app]. by rewrite Hpass. }
  destruct (beq_spec x ESC_) as [->|He].
  { change (classify f [ESC_] ESC_) with (@None Line). destruct l as [|c l].
    { destruct body as [|y body]; [by injection Hl|]. injection Hl as _ Hl. by destruct body. }
    cbn [decision app]. destruct (beq_spec c x5c) as [->|Hc].
    - change (classify f [ESC_; x5c] x5c) with (@None Line). destruct l as [|d l]; [|by cbn [decision app]; rewrite Hpass].
      destruct body as [|y [|z body]]; [by injection Hl|by injection Hl|]. injection Hl as _ _ Hl. by destruct body.
    - rewrite Hpass; try done. cbn. destruct (beq_spec c x5c); [by subst c|done]. }
  rewrite Hpass; try done.
  - cbn. destruct (beq_spec x x1b); [by subst x|done].
  - destruct (list_eqb [x] (bytes_of "%")) eqn:E; [|done]. apply list_eqb_spec in E. by injection E as ->.
Qed.

(** ** Streams of control mode *)

(** What tmux writes, and walls between. *)
Inductive Item :=
  | Notice (l : list byte)
  | Block (header : list byte) (body : list (list byte)) (footer : list byte)
  | Wall (l : list byte).

Definition item_text (i : Item) : list byte :=
  match i with Notice l => l | Block h body e => h ++ concat body ++ e | Wall l => l end.

(** What the client is to see of it. *)
Definition item_sent (i : Item) : list byte := match i with Wall _ => [] | _ => item_text i end.

(** A notification is a line that starts with a percent sign and a letter; a
    block ends with its [%end] or [%error] and its own lines start with none
    of the words that end it; a wall is a line without a percent sign or an
    escape. Outside blocks there is no string terminator. *)
Definition item_ok (i : Item) : Prop :=
  match i with
  | Notice l => is_line NL_ l /\ is_notification l = true /\ after_token (word l) = AfterNone /\ no_st false l = true
  | Block h body e =>
      (is_line NL_ h /\ is_notification h = true /\ after_token (word h) = AfterBegin /\ no_st false h = true) /\
      Forall (fun l => is_line NL_ l /\ after_token (word l) <> AfterEnd /\ after_token (word l) <> AfterExit) body /\
      (is_line NL_ e /\ is_notification e = true /\ after_token (word e) = AfterEnd)
  | Wall l => is_line NL_ l /\ "%"%byte ∉ l /\ ESC_ ∉ l
  end.

(** The start of a line of control mode, the first one included. *)
Definition at_start (i : bool) : TmuxCcFilter := mkFilter true false i true Prefix false [].

Lemma note_run f l :
  control f = true -> line f = Prefix -> pending f = [] -> is_line NL_ l -> is_notification l = true ->
  response f || no_st false l = true -> runs f l l (final (response f) (after_token (word l))).
Proof.
  intros Hc Hl Hp Hline Hn Hst. pose proof (decision_note f l Hline Hn) as Hd. destruct Hline as (body & -> & Hnl).
  pose proof (prefix_run f (after_token (word (body ++ [NL_]))) body Hc Hl Hnl) as H. rewrite Hp in H. by apply H.
Qed.

Lemma body_run body :
  Forall (fun l => is_line NL_ l /\ after_token (word l) <> AfterEnd /\ after_token (word l) <> AfterExit) body ->
  runs (ready true) (concat body) (concat body) (ready true).
Proof.
  induction 1 as [|l body (Hline & He & Hx) _ IH]; [apply runs_nil|]. cbn [concat]. eapply runs_app; [|exact IH].
  pose proof (decision_response (ready true) l eq_refl Hline) as Hd. destruct Hline as (body' & -> & Hnl).
  set (a := if is_notification (body' ++ [NL_]) then after_token (word (body' ++ [NL_])) else AfterNone) in *.
  assert (Hf : final true a = ready true) by (subst a; destruct (is_notification _); [destruct (after_token _)|]; done).
  rewrite <- Hf at 2. apply (prefix_run (ready true) a body'); done.
Qed.

Lemma dropped_run body ls :
  NL_ ∉ body -> "%"%byte ∉ body -> ESC_ ∉ body ->
  runs (mkFilter true false false ls Drop false []) (body ++ [NL_]) [] (ready false).
Proof.
  induction body as [|b body IH]; intros Hn Hp He.
  - apply (runs_cons _ NL_ [] [] [] (ready false)); [by right|done|apply runs_nil].
  - apply not_elem_of_cons in Hn as [Hn ?], Hp as [Hp ?], He as [He ?]. cbn [app].
    apply (runs_cons _ b _ [] [] (mkFilter true false false ls Drop false [])); [by right| |by apply IH].
    unfold step. cbn. unfold end_byte. destruct (beq_spec b NL_); [by subst b|]. destruct (beq_spec b ESC_); [by subst b|done].
Qed.

Lemma wall_run l : is_line NL_ l -> "%"%byte ∉ l -> ESC_ ∉ l -> runs (ready false) l [] (ready false).
Proof.
  intros (body & -> & Hn) [Hp _]%not_elem_of_app [He _]%not_elem_of_app. destruct body as [|b body].
  - apply (runs_cons _ NL_ [] [] [] (ready false)); [by left|done|apply runs_nil].
  - apply not_elem_of_cons in Hn as [Hn ?], Hp as [Hp ?], He as [He ?]. cbn [app].
    apply (runs_cons _ b _ [] [] (mkFilter true false false true Drop false [])); [by left| |by apply dropped_run].
    assert (Hcl : classify (ready false) [b] b = Some Drop).
    { unfold classify. change (starts_with [b] ST) with (beq b x1b && true). change (list_eqb [b] (bytes_of "%")) with (beq b "%" && true).
      destruct (beq_spec b x1b) as [->|]; [by destruct He|]. by destruct (beq_spec b "%") as [->|]. }
    unfold step, step_inside. cbn [ready control line pending response negb app andb].
    change (list_eqb [b] ST) with (beq b x1b && false). rewrite andb_false_r. fold (ready false). rewrite Hcl.
    unfold end_byte. destruct (beq_spec b NL_); [by subst b|]. destruct (beq_spec b ESC_); [by subst b|done].
Qed.

Lemma item_run i it :
  item_ok it -> (i = true -> forall l, it <> Wall l) -> runs (at_start i) (item_text it) (item_sent it) (ready false).
Proof.
  intros Hok Hi. destruct it as [l|h body e|l]; cbn [item_text item_sent item_ok] in *.
  - destruct Hok as (Hl & Hn & Ha & Hst). pose proof (note_run (at_start i) l) as H. rewrite Ha in H. by apply H.
  - destruct Hok as ((Hl & Hn & Ha & Hst) & Hb & (Hl' & Hn' & Ha')).
    pose proof (note_run (at_start i) h) as H. rewrite Ha in H. eapply runs_app; [by apply H|]. cbn [final].
    eapply runs_app; [by apply body_run|]. pose proof (note_run (ready true) e) as H'. rewrite Ha' in H'. by apply H'.
  - destruct Hok as (Hl & Hp & He). destruct i; [by edestruct Hi|]. by apply wall_run.
Qed.

Lemma items_run items :
  Forall item_ok items -> runs (ready false) (concat (map item_text items)) (concat (map item_sent items)) (ready false).
Proof.
  induction 1 as [|it items Hit _ IH]; [apply runs_nil|]. cbn [map concat]. eapply runs_app; [by apply (item_run false)|done].
Qed.

(** Outside control mode, without an escape. *)
Lemma outside_run f l :
  control f = false -> line f = Prefix -> pending f = [] -> ESC_ ∉ l ->
  runs f l l (mkFilter false (response f) (introducer_line f) (match last l with Some b => beq b NL_ | None => line_start f end)
    Prefix (escape f) []).
Proof.
  revert f. induction l as [|b l IH]; intros f Hc Hl Hp He.
  - destruct f. cbn in *. subst. apply runs_nil.
  - apply not_elem_of_cons in He as [Hb He].
    change (b :: l) with ([b] ++ l) at 2. eapply runs_cons; [left; by rewrite Hl| |].
    { unfold step. rewrite Hc. cbn [negb]. unfold step_outside. cbv zeta. rewrite bool_decide_false by (intros H; by apply H).
      destruct (beq_spec b ESC_); [by subst b|]. rewrite andb_false_r. done. }
    set (f1 := mkFilter _ _ _ _ _ _ _). pose proof (IH f1) as H. cbn in H. specialize (H Hc Hl Hp He).
    replace (match last (b :: l) with Some b0 => beq b0 NL_ | None => line_start f end)
      with (match last l with Some b0 => beq b0 NL_ | None => beq b NL_ end); [done|].
    destruct l as [|x l]; [done|]. change (last (b :: x :: l)) with (last (x :: l)). destruct (last (x :: l)) eqn:E; [done|].
    by apply last_None in E.
Qed.

(** The two marks. *)
Lemma introducer_run : runs (mkFilter false false false true Prefix false []) DCS DCS (at_start true).
Proof. split; [vm_compute; reflexivity|]. vm_compute. repeat split; discriminate. Qed.

Lemma terminator_run : runs (ready false) ST ST leave_control.
Proof. split; [vm_compute; reflexivity|]. vm_compute. repeat split; discriminate. Qed.

Section theorems.
Context `{search : Memchr} `{!MemchrLaws search}.

(** A stream that may be cut anywhere is filtered as one piece. *)
Lemma apply_all_safe f chunks : filter_ok f -> safe f (concat chunks) -> apply_all f chunks = steps f (concat chunks).
Proof.
  revert f. induction chunks as [|c chunks IH]; intros f Hf Hs; [done|]. cbn [apply_all concat] in *.
  assert (Hr : resume_line f c = f).
  { unfold resume_line. destruct (line f) eqn:Hl; [done..|]. destruct c as [|b c]; [by rewrite andb_false_r|].
    destruct Hs as [Hb _]. destruct (Hb Hl) as [H1 H2]. cbn [starts_with bytes_of].
    change (starts_with (bytes_of "%") (b :: c)) with (beq "%" b && true).
    destruct (beq_spec "%" b) as [<-|]; [done|]. destruct (beq_spec ESC_ b) as [<-|]; [done|]. by rewrite andb_false_r. }
  rewrite apply_slice_steps, Hr, steps_app by done. destruct (steps_accounts f c Hf) as [Hf' _].
  assert (Hs' : safe (snd (steps f c)) (concat chunks)).
  { clear -Hs. revert f Hs. induction c as [|b c IH]; intros f Hs; [done|]. cbn [app safe steps] in *. destruct Hs as [_ Hs].
    destruct (step f b) as [o f1]. cbn [snd] in Hs. specialize (IH f1 Hs). by destruct (steps f1 c). }
  destruct (steps f c) as [o f1]. cbn [snd] in *. by rewrite (IH f1 Hf' Hs').
Qed.

Definition ends_line (l : list byte) : Prop := l = [] \/ last l = Some NL_.

(** In control mode, exactly the walls are taken out: from a terminal that
    enters it at the start of a line, runs any notifications and command
    blocks with walls between and leaves it again, the client is sent
    everything but the walls, unchanged and in order, however the stream is
    cut into reads. *)
Theorem walls_are_taken_out chunks before first items after :
  ESC_ ∉ before -> ends_line before -> ESC_ ∉ after -> Forall item_ok (first :: items) -> (forall l, first <> Wall l) ->
  concat chunks = before ++ DCS ++ concat (map item_text (first :: items)) ++ ST ++ after ->
  fst (apply_all filter_default chunks) ++ fst (finish (snd (apply_all filter_default chunks))) =
  before ++ DCS ++ concat (map item_sent (first :: items)) ++ ST ++ after.
Proof.
  intros Hb Hends Ha Hitems Hfirst Hchunks. apply Forall_cons_1 in Hitems as [Hf Hitems].
  assert (Hrun : exists ls, runs filter_default (concat chunks)
    (before ++ DCS ++ concat (map item_sent (first :: items)) ++ ST ++ after) (mkFilter false false false ls Prefix false [])).
  { rewrite Hchunks. cbn [map concat]. rewrite <- !(app_assoc (item_text first)), <- !(app_assoc (item_sent first)).
    eexists. eapply runs_app; [by apply (outside_run filter_default)|].
    assert (Hl : match last before with Some b => beq b NL_ | None => line_start filter_default end = true).
    { destruct Hends as [->|Hl]; [done|]. rewrite Hl. apply beq_refl. }
    rewrite Hl. eapply runs_app; [apply introducer_run|].
    eapply runs_app; [apply (item_run true); [done|by intros]|]. eapply runs_app; [by apply items_run|].
    eapply runs_app; [apply terminator_run|]. by apply (outside_run leave_control). }
  destruct Hrun as (ls & Hsteps & Hsafe). rewrite apply_all_safe by (done || apply default_ok). rewrite Hsteps. cbn [fst snd finish].
  by rewrite app_nil_r.
Qed.

(** Whatever is written, and however it is cut, the filter adds and reorders
    nothing: what the client is sent is the terminal's output with bytes left
    out, never more than seven bytes are held back, and inside a command's
    response and outside control mode nothing is left out. *)
Theorem filter_only_leaves_out chunks :
  let r := apply_all filter_default chunks in
  sublist (fst r ++ fst (finish (snd r))) (concat chunks) /\ zlen (held (snd r)) <= 7 /\
  forall b, control (snd r) = false \/ response (snd r) = true ->
    fst (step (snd r) b) ++ held (snd (step (snd r) b)) = held (snd r) ++ [b].
Proof.
  cbv zeta. destruct (apply_all_accounts filter_default chunks default_ok) as [Hok Hs]. split_and!.
  - etransitivity; [|exact Hs]. apply sublist_app; [done|]. by apply finish_held.
  - unfold held. destruct (line _); [pose proof (ok_short _ Hok); lia..|]. destruct (escape _); [by vm_compute|by vm_compute].
  - intros b Hq. by apply (step_accounts _ b Hok).
Qed.
End theorems.

#[local] Existing Instance simple_search.
#[local] Existing Instance simple_search_laws.

Lemma walls_are_taken_out_witness :
  let wall := bytes_of "Broadcast message" ++ [NL_] in
  let notice := bytes_of "%window-add @2" ++ [NL_] in
  let chunks := map (fun b => [b]) (DCS ++ notice ++ wall ++ ST ++ bytes_of "$ ") in
  fst (apply_all filter_default chunks) ++ fst (finish (snd (apply_all filter_default chunks))) =
  DCS ++ notice ++ ST ++ bytes_of "$ ".
Proof.
  cbv zeta.
  apply (walls_are_taken_out (search := simple_search) _ [] (Notice (bytes_of "%window-add @2" ++ [NL_]))
    [Wall (bytes_of "Broadcast message" ++ [NL_])] (bytes_of "$ ")).
  - apply not_elem_of_nil.
  - by left.
  - intros Hin. apply contains_spec in Hin. discriminate Hin.
  - repeat constructor.
    + exists (bytes_of "%window-add @2"). split; [reflexivity|]. intros Hin. apply contains_spec in Hin. discriminate Hin.
    + exists (bytes_of "Broadcast message"). split; [reflexivity|]. intros Hin. apply contains_spec in Hin. discriminate Hin.
    + intros Hin. apply contains_spec in Hin. discriminate Hin.
    + intros Hin. apply contains_spec in Hin. discriminate Hin.
  - discriminate.
  - reflexivity.
Defined.

(** A line of a response that starts with [%end] ends the response, although
    it does not end the block, and the line behind it is taken for a wall:
    the client loses a part of the response. *)
Theorem response_line_is_lost :
  let response_text := bytes_of "%end of file" ++ [NL_] ++ bytes_of "last line" ++ [NL_] in
  let stream := DCS ++ bytes_of "%begin 1 2 3" ++ [NL_] ++ response_text ++ bytes_of "%end 1 2 3" ++ [NL_] in
  forall search : Memchr, MemchrLaws search ->
  fst (apply_all filter_default [stream]) =
  DCS ++ bytes_of "%begin 1 2 3" ++ [NL_] ++ bytes_of "%end of file" ++ [NL_] ++ bytes_of "%end 1 2 3" ++ [NL_].
Proof.
  cbv zeta. intros search Hlaws. cbn [apply_all]. rewrite apply_slice_steps by apply default_ok. vm_compute. reflexivity.
Qed.

Lemma response_line_is_lost_witness :
  fst (apply_all filter_default [DCS ++ bytes_of "%begin 1 2 3" ++ [NL_] ++ (bytes_of "%end of file" ++ [NL_] ++ bytes_of "last line" ++ [NL_])
    ++ bytes_of "%end 1 2 3" ++ [NL_]]) =
  DCS ++ bytes_of "%begin 1 2 3" ++ [NL_] ++ bytes_of "%end of file" ++ [NL_] ++ bytes_of "%end 1 2 3" ++ [NL_].
Proof. exact (response_line_is_lost simple_search simple_search_laws). Defined.

Lemma filter_only_leaves_out_witness :
  sublist (fst (apply_all filter_default [DCS; bytes_of "wall" ++ [NL_]])) (DCS ++ bytes_of "wall" ++ [NL_]).
Proof.
  destruct (filter_only_leaves_out [DCS; bytes_of "wall" ++ [NL_]]) as (H & _).
  etransitivity; [|exact H]. apply sublist_inserts_r. done.
Defined.
