(* ===== verification/HtmLayout.v ===== *)
(** * HtmLayout: [crates/et-htm/src/layout.rs]

    The split tree of a window of the multiplexer: which panes it holds, how
    panes enter, leave and change places, and where each is on the screen.
    Weights are IEEE single-precision numbers; [u16] arithmetic wraps, as in
    a release build. An index out of range, and [clamp] on an empty range,
    panic. *)

From Stdlib Require Import String.
From Stdlib Require Import SpecFloat.
From S2P Require Import Prelude Bytes.

(** ** Numbers *)

(** [f32] *)
Definition f32 : Type := spec_float.
Definition f32_mul : f32 -> f32 -> f32 := SFmul 24 128.
Definition f32_div : f32 -> f32 -> f32 := SFdiv 24 128.
Definition f32_add : f32 -> f32 -> f32 := SFadd 24 128.
Definition f32_of_Z (z : Z) : f32 := binary_normalize 24 128 z 0 false.
Definition half : f32 := f32_div (f32_of_Z 1) (f32_of_Z 2).
Definition f32_sum (l : list f32) : f32 := fold_left f32_add l (S754_zero true).

Definition u16 (z : Z) : Z := z mod 65536.

(** [x.round().max(1.0) as u16]: halves away from zero, saturating. *)
Definition round_size (x : f32) : Z :=
  match x with
  | S754_finite false m e =>
      let n := if 0 <=? e then Z.pos m * 2 ^ e else (Z.pos m * 2 + 2 ^ (- e)) / (2 * 2 ^ (- e)) in
      Z.min 65535 (Z.max 1 n)
  | S754_infinity false => 65535
  | _ => 1
  end.

(** ** The tree *)

(** What stops an operation: an error it returns, or a panic. *)
Inductive Failure := Fails (message : list byte) | Panicked.

Record Rect := mkRect {
  cols : Z;
  rows : Z;
  rx : Z;
  ry : Z
}.

Inductive Layout :=
| Pane (p : Z)
| Split (horizontal : bool) (children : list Layout) (sizes : list f32).

Fixpoint panes (l : Layout) : list Z :=
  match l with
  | Pane p => [p]
  | Split _ children _ => flat_map panes children
  end.

Fixpoint contains (l : Layout) (pane : Z) : bool :=
  match l with
  | Pane p => p =? pane
  | Split _ children _ => existsb (fun c => contains c pane) children
  end.

Definition is_pane (pane : Z) (l : Layout) : bool :=
  match l with Pane p => p =? pane | Split _ _ _ => false end.

Fixpoint position_of {A} (f : A -> bool) (l : list A) : option nat :=
  match l with
  | [] => None
  | x :: l => if f x then Some O else S <$> position_of f l
  end.

(** [Vec::insert] *)
Definition vec_insert {A} (l : list A) (i : nat) (x : A) : result Failure (list A) :=
  if (length l <? i)%nat then Err Panicked else Ok (take i l ++ x :: drop i l).

Fixpoint insert (l : Layout) (dest pane : Z) (horizontal : bool) (before : option bool) : result Failure Layout :=
  match l with
  | Pane p =>
      if p =? dest then
        let children :=
          if bool_decide (before = Some true) then [Pane pane; Pane dest] else [Pane dest; Pane pane] in
        Ok (Split horizontal children [half; half])
      else Ok l
  | Split axis children sizes =>
      match (if eqb axis horizontal then position_of (is_pane dest) children else None) with
      | Some index =>
          let at_ :=
            match before with None => length children | Some b => (index + if b then 0 else 1)%nat end in
          let? children := vec_insert children at_ (Pane pane) in
          let? sizes := vec_insert (map (fun size => f32_mul size half) sizes) at_ half in
          Ok (Split axis children sizes)
      | None =>
          let? children :=
            (fix go (cs : list Layout) : result Failure (list Layout) :=
               match cs with
               | [] => Ok []
               | c :: cs =>
                   if contains c dest then let? c := insert c dest pane horizontal before in Ok (c :: cs)
                   else let? cs := go cs in Ok (c :: cs)
               end) children in
          Ok (Split axis children sizes)
      end
  end.

Fixpoint remove (l : Layout) (pane : Z) : option Layout :=
  match l with
  | Pane p => if p =? pane then None else Some (Pane p)
  | Split horizontal children sizes =>
      let kept :=
        (fix go (cs : list Layout) (ss : list f32) : list (Layout * f32) :=
           match cs, ss with
           | c :: cs, s :: ss => match remove c pane with Some c => (c, s) :: go cs ss | None => go cs ss end
           | _, _ => []
           end) children sizes in
      match kept with
      | [] => None
      | [(c, _)] => Some c
      | _ =>
          let sum := f32_sum (map snd kept) in
          Some (Split horizontal (map fst kept) (map (fun s => f32_div s sum) (map snd kept)))
      end
  end.

Definition swapped (a b p : Z) : Z := if p =? a then b else if p =? b then a else p.

Fixpoint swap (l : Layout) (a b : Z) : Layout :=
  match l with
  | Pane p => Pane (swapped a b p)
  | Split horizontal children sizes => Split horizontal (map (fun c => swap c a b) children) sizes
  end.

Definition has_infix (needle text : list byte) : bool :=
  existsb (fun i => bool_decide (take (length needle) (drop i text) = needle)) (seq 0 (S (length text))).

Definition select (l : Layout) (name : list byte) : Layout :=
  let ids := panes l in
  if (length ids <? 2)%nat then l
  else
    let horizontal :=
      bool_decide (name = bytes_of "even-horizontal") || bool_decide (name = bytes_of "main-vertical")
      || (negb (has_infix (bytes_of "vertical") name) && negb (bool_decide (name = bytes_of "main-horizontal"))) in
    Split horizontal (map Pane ids) (repeat (f32_div (f32_of_Z 1) (f32_of_Z (Z.of_nat (length ids)))) (length ids)).

(** ** Geometry *)

(** The rectangles of the children that are left, from the [i]th on. *)
Fixpoint rects_from (horizontal : bool) (sizes : list f32) (i count available used : Z) (rect : Rect) : list Rect :=
  match sizes with
  | [] => []
  | s :: sizes =>
      let size :=
        if i + 1 =? count then Z.max 1 (Z.max 0 (available - used))
        else round_size (f32_mul s (f32_of_Z available)) in
      let child :=
        if horizontal then mkRect size (rows rect) (u16 (rx rect + u16 (used + u16 i))) (ry rect)
        else mkRect (cols rect) size (rx rect) (u16 (ry rect + u16 (used + u16 i))) in
      child :: rects_from horizontal sizes (i + 1) count available (u16 (used + size)) rect
  end.

Definition rects (horizontal : bool) (sizes : list f32) (rect : Rect) : list Rect :=
  let total := if horizontal then cols rect else rows rect in
  let count := zlen sizes in
  let available := Z.max (Z.max 0 (total - u16 (u16 count - 1))) (u16 count) in
  rects_from horizontal sizes 0 count available 0 rect.

Definition commas (l : list (list byte)) : list byte := joined (bytes_of ",") l.

Definition brackets (horizontal : bool) (body : list byte) : list byte :=
  if horizontal then bytes_of "{" ++ body ++ bytes_of "}" else bytes_of "[" ++ body ++ bytes_of "]".

Definition rect_text (r : Rect) : list byte :=
  dec (cols r) ++ bytes_of "x" ++ commas [dec (rows r); dec (rx r); dec (ry r)].

(** The panes with their rectangles, and the text. *)
Fixpoint geometry (l : Layout) (rect : Rect) : list (Z * Rect) * list byte :=
  match l with
  | Pane p => ([(p, rect)], rect_text rect ++ bytes_of "," ++ dec p)
  | Split horizontal children sizes =>
      let parts :=
        (fix go (cs : list Layout) (rs : list Rect) : list (list (Z * Rect) * list byte) :=
           match cs, rs with
           | c :: cs, r :: rs => geometry c r :: go cs rs
           | _, _ => []
           end) children (rects horizontal sizes rect) in
      (concat (map fst parts), rect_text rect ++ brackets horizontal (commas (map snd parts)))
  end.

(** ** What the panes' rectangles say *)

Section rectangles.
Context (rect : Z -> result Failure Rect).

(** The rectangles of the first and the last pane; there is one. *)
Definition first_last (l : Layout) : result Failure (Rect * Rect) :=
  match head (panes l), last (panes l) with
  | Some a, Some b => let? ra := rect a in let? rb := rect b in Ok (ra, rb)
  | _, _ => Err Panicked
  end.

Fixpoint all_ok {A} (l : list (result Failure A)) : result Failure (list A) :=
  match l with
  | [] => Ok []
  | r :: l => let? x := r in let? xs := all_ok l in Ok (x :: xs)
  end.

Fixpoint dump (l : Layout) : result Failure (list byte) :=
  match l with
  | Pane id => let? r := rect id in Ok (rect_text r ++ bytes_of "," ++ dec id)
  | Split horizontal children _ =>
      let? fl := first_last l in
      let (first, last) := fl in
      let '(c, r) :=
        if horizontal then (rx last + cols last - rx first, rows first)
        else (cols first, ry last + rows last - ry first) in
      let? body := all_ok (map dump children) in
      Ok (dec c ++ bytes_of "x" ++ commas [dec r; dec (rx first); dec (ry first)] ++ brackets horizontal (commas body))
  end.

(** [sizes.iter_mut().zip(dims)] *)
Fixpoint reweigh (sizes : list f32) (dims : list Z) (total : Z) : list f32 :=
  match sizes, dims with
  | _ :: sizes, d :: dims => f32_div (f32_of_Z d) (f32_of_Z total) :: reweigh sizes dims total
  | _, _ => sizes
  end.

Definition sum (l : list Z) : Z := fold_left Z.add l 0.

Definition dim_at (dims : list Z) (i : nat) : Z := nth i dims 0.

(** Take what is needed from the others, down to one each. *)
Fixpoint take_from (dims : list Z) (index : nat) (need : Z) (order : list nat) : list Z :=
  match order with
  | [] => dims
  | j :: order =>
      let taken := Z.min need (dim_at dims j - 1) in
      let dims := <[j := dim_at dims j - taken]> dims in
      let dims := <[index := dim_at dims index + taken]> dims in
      take_from dims index (need - taken) order
  end.

Definition extent (axis : bool) (child : Layout) : result Failure Z :=
  let? fl := first_last child in
  let (first, last) := fl in
  Ok (Z.max 1 (if axis then rx last + cols last - rx first else ry last + rows last - ry first)).

(** The new extents, and [None] where nothing changes. *)
Definition absolute_dims (dims : list Z) (index : nat) (want : Z) : result Failure (option (list Z)) :=
  let most := sum dims - zlen dims + 1 in
  if most <? 1 then Err Panicked
  else
    let target := Z.max 1 (Z.min want most) in
    let delta := target - dim_at dims index in
    if delta =? 0 then Ok None
    else if 0 <? delta then
      Ok (Some (take_from dims index delta (seq (S index) (length dims - S index) ++ rev (seq 0 index))))
    else
      let dims := <[index := target]> dims in
      if (S index <? length dims)%nat then Ok (Some (<[S index := dim_at dims (S index) - delta]> dims))
      else match index with
           | O => Err Panicked
           | S neighbor => Ok (Some (<[neighbor := dim_at dims neighbor - delta]> dims))
           end.

(** [absolute] at the split that controls the axis. *)
Definition absolute_here (horizontal : bool) (children : list Layout) (sizes : list f32) (index : nat) (axis : bool)
    (want : Z) : result Failure (Layout * option bool) :=
  let? dims := all_ok (map (extent axis) children) in
  let? changed := absolute_dims dims index want in
  match changed with
  | None => Ok (Split horizontal children sizes, Some false)
  | Some dims' => Ok (Split horizontal children (reweigh sizes dims' (sum dims)), Some true)
  end.

(** The tree, and the answer: [None] when no ancestor controls the axis. *)
Fixpoint absolute (l : Layout) (pane : Z) (axis : bool) (want : Z) : result Failure (Layout * option bool) :=
  match l with
  | Pane _ => Ok (l, None)
  | Split horizontal children sizes =>
      (fix go (before cs : list Layout) : result Failure (Layout * option bool) :=
         match cs with
         | [] => Ok (l, None)
         | c :: cs =>
             if contains c pane then
               let? r := absolute c pane axis want in
               let (c, changed) := r in
               let children := rev before ++ c :: cs in
               match changed with
               | Some b => Ok (Split horizontal children sizes, Some b)
               | None =>
                   if eqb horizontal axis then absolute_here horizontal children sizes (length before) axis want
                   else Ok (Split horizontal children sizes, None)
               end
             else go (c :: before) cs
         end) [] children
  end.

Definition first_dim (horizontal : bool) (child : Layout) : result Failure Z :=
  match head (panes child) with
  | Some p => let? r := rect p in Ok (if horizontal then cols r else rows r)
  | None => Err Panicked
  end.

(** [directional] at the split that holds the pane itself. *)
Definition directional_here (horizontal : bool) (children : list Layout) (sizes : list f32) (index : nat)
    (dir : byte) (amount : Z) : result Failure (Layout * bool) :=
  let unchanged := Split horizontal children sizes in
  let sideways := beq dir "L" || beq dir "R" in
  if negb (eqb horizontal sideways) then Ok (unchanged, false)
  else
    let backwards := beq dir "L" || beq dir "U" in
    let '(neighbor, grow) :=
      if backwards && (0 <? index)%nat then (pred index, true)
      else if negb backwards && (S index <? length children)%nat then (S index, true)
      else if (0 <? index)%nat then (pred index, false)
      else (S index, false) in
    let? dims := all_ok (map (first_dim horizontal) children) in
    let total := sum dims in
    let shrinking := if grow then neighbor else index in
    let movement := Z.min (Z.max 0 amount) (dim_at dims shrinking - 1) in
    if movement =? 0 then Ok (unchanged, false)
    else if (length dims <=? neighbor)%nat then Err Panicked
    else
      let delta := if grow then movement else - movement in
      let dims := <[index := dim_at dims index + delta]> dims in
      let dims := <[neighbor := dim_at dims neighbor - delta]> dims in
      Ok (Split horizontal children (reweigh sizes dims total), true).

Fixpoint directional (l : Layout) (pane : Z) (dir : byte) (amount : Z) : result Failure (Layout * bool) :=
  match l with
  | Pane _ => Ok (l, false)
  | Split horizontal children sizes =>
      (fix go (before cs : list Layout) : result Failure (Layout * bool) :=
         match cs with
         | [] => Ok (l, false)
         | c :: cs =>
             if contains c pane then
               match c with
               | Pane _ => directional_here horizontal children sizes (length before) dir amount
               | Split _ _ _ =>
                   let? r := directional c pane dir amount in
                   Ok (Split horizontal (rev before ++ fst r :: cs) sizes, snd r)
               end
             else go (c :: before) cs
         end) [] children
  end.
End rectangles.

(** [checksum] of [state.rs]: a sixteen-bit rotating sum, in hexadecimal. *)
Definition rotate_add (s : Z) (b : byte) : Z := u16 (Z.lor (Z.shiftr s 1) (Z.shiftl (Z.land s 1) 15) + b2z b).

Definition hex4 (z : Z) : list byte :=
  map (fun i => digit_char (Z.land (Z.shiftr z (4 * i)) 15)) [3; 2; 1; 0].

Definition checksum (body : list byte) : list byte :=
  hex4 (fold_left rotate_add body 0) ++ bytes_of "," ++ body.

(** ** Well-formed trees *)

(** A split has at least two children, and as many weights. *)
Fixpoint well_formed (l : Layout) : bool :=
  match l with
  | Pane _ => true
  | Split _ children sizes =>
      (2 <=? length children)%nat && (length sizes =? length children)%nat && forallb well_formed children
  end.

Section induction.
Context (P : Layout -> Prop).
Hypothesis leaf : forall p, P (Pane p).
Hypothesis node : forall h cs ss, Forall P cs -> P (Split h cs ss).

Fixpoint layout_induction (l : Layout) : P l :=
  match l with
  | Pane p => leaf p
  | Split h cs ss =>
      node h cs ss
        ((fix go (cs : list Layout) : Forall P cs :=
            match cs with
            | [] => Forall_nil_2 P
            | c :: cs => Forall_cons_2 P c cs (layout_induction c) (go cs)
            end) cs)
  end.
End induction.

Lemma well_formed_split h cs ss :
  well_formed (Split h cs ss) = true <->
  (2 <= length cs)%nat /\ length ss = length cs /\ Forall (fun c => well_formed c = true) cs.
Proof.
  cbn [well_formed]. rewrite !andb_true_iff, Nat.leb_le, Nat.eqb_eq, forallb_forall, Forall_forall.
  setoid_rewrite list_elem_of_In. tauto.
Qed.

Lemma elem_of_panes h cs ss p : p ∈ panes (Split h cs ss) <-> exists c, c ∈ cs /\ p ∈ panes c.
Proof.
  cbn [panes]. rewrite list_elem_of_In, in_flat_map. setoid_rewrite list_elem_of_In. naive_solver.
Qed.

Lemma contains_panes l p : contains l p = true <-> p ∈ panes l.
Proof.
  induction l as [q|h cs ss IH] using layout_induction.
  - cbn. rewrite Z.eqb_eq, list_elem_of_singleton. naive_solver.
  - rewrite elem_of_panes. cbn [contains]. rewrite existsb_exists. rewrite Forall_forall in IH.
    split; intros (c & Hc & Hp); exists c.
    + apply list_elem_of_In in Hc. split; [done|]. by apply IH.
    + split; [by apply list_elem_of_In|]. by apply IH.
Qed.

Lemma contains_false l p : contains l p = false <-> p ∉ panes l.
Proof. rewrite <- contains_panes. destruct (contains l p); naive_solver. Qed.

Lemma panes_nonempty l : well_formed l = true -> panes l <> [].
Proof.
  induction l as [q|h cs ss IH] using layout_induction; [done|].
  rewrite well_formed_split. intros (H2 & _ & Hcs). destruct cs as [|c cs]; [cbn in H2; lia|].
  apply Forall_cons_1 in Hcs as [Hc _], IH as [IH _]. cbn. intros [? _]%app_eq_nil. by apply (IH Hc).
Qed.

(** *** [insert] *)

Lemma position_of_pane dest cs i :
  position_of (is_pane dest) cs = Some i ->
  exists a z, cs = a ++ Pane dest :: z /\ length a = i.
Proof.
  revert i. induction cs as [|c cs IH]; [done|]. cbn. intros i Hi. destruct (is_pane dest c) eqn:E.
  - destruct c; [|done]. apply Z.eqb_eq in E as ->. simplify_eq. by exists [], cs.
  - destruct (position_of _ cs) as [j|]; [|done]. cbn in Hi. simplify_eq.
    destruct (IH j eq_refl) as (a & z & -> & <-). by exists (c :: a), z.
Qed.

Lemma position_of_contained dest cs i :
  position_of (is_pane dest) cs = Some i -> exists c, c ∈ cs /\ contains c dest = true.
Proof.
  intros (a & z & -> & _)%position_of_pane. exists (Pane dest).
  split; [apply elem_of_app; right; left|apply Z.eqb_refl].
Qed.

Lemma vec_insert_ok {A} (l : list A) i x : (i <= length l)%nat -> vec_insert l i x = Ok (take i l ++ x :: drop i l).
Proof. intros H. unfold vec_insert. by rewrite (proj2 (Nat.ltb_ge (length l) i)). Qed.

Lemma take_insert_length {A} (l : list A) i x :
  (i <= length l)%nat -> length (take i l ++ x :: drop i l) = S (length l).
Proof. intros H. rewrite length_app. cbn. rewrite length_take, length_drop. lia. Qed.

(** Where the recursion of [insert] goes: the first child that holds it. *)
Fixpoint first_with (dest : Z) (cs : list Layout) : option (list Layout * Layout * list Layout) :=
  match cs with
  | [] => None
  | c :: cs =>
      if contains c dest then Some ([], c, cs)
      else match first_with dest cs with Some (a, d, z) => Some (c :: a, d, z) | None => None end
  end.

Lemma first_with_spec dest cs :
  match first_with dest cs with
  | Some (a, c, z) => cs = a ++ c :: z /\ contains c dest = true /\ Forall (fun c => contains c dest = false) a
  | None => Forall (fun c => contains c dest = false) cs
  end.
Proof.
  induction cs as [|c cs IH]; [by constructor|]. cbn. destruct (contains c dest) eqn:E; [done|].
  destruct (first_with dest cs) as [[[a d] z]|].
  - destruct IH as (-> & ? & ?). split_and!; [done..|]. by constructor.
  - by constructor.
Qed.

Lemma insert_split axis cs ss dest pane h b :
  insert (Split axis cs ss) dest pane h b =
  match (if eqb axis h then position_of (is_pane dest) cs else None) with
  | Some index =>
      let at_ := match b with None => length cs | Some b => (index + if b then 0 else 1)%nat end in
      let? children := vec_insert cs at_ (Pane pane) in
      let? sizes := vec_insert (map (fun size => f32_mul size half) ss) at_ half in
      Ok (Split axis children sizes)
  | None =>
      match first_with dest cs with
      | Some (a, c, z) => let? c := insert c dest pane h b in Ok (Split axis (a ++ c :: z) ss)
      | None => Ok (Split axis cs ss)
      end
  end.
Proof.
  cbn [insert]. destruct (if eqb axis h then _ else _) as [i|]; [done|].
  enough (forall k : list Layout -> result Failure Layout,
    (let? children :=
      (fix go (cs : list Layout) : result Failure (list Layout) :=
         match cs with
         | [] => Ok []
         | c :: cs =>
             if contains c dest then let? c := insert c dest pane h b in Ok (c :: cs)
             else let? cs := go cs in Ok (c :: cs)
         end) cs in k children) =
    match first_with dest cs with
    | Some (a, c, z) => let? c := insert c dest pane h b in k (a ++ c :: z)
    | None => k cs
    end) as H by apply H.
  induction cs as [|c cs IH]; intros k; [done|]. cbn. destruct (contains c dest).
  - by destruct (insert c dest pane h b).
  - specialize (IH (fun cs => k (c :: cs))). cbn in IH.
    destruct (first_with dest cs) as [[[a d] z]|]; (etransitivity; [|exact IH]); by case_match.
Qed.

(** [insert] keeps the tree well formed and adds the one pane. *)
Lemma insert_spec l dest pane h b :
  well_formed l = true -> dest ∈ panes l ->
  exists l', insert l dest pane h b = Ok l' /\ well_formed l' = true /\ panes l' ≡ₚ pane :: panes l.
Proof.
  induction l as [q|axis cs ss IH] using layout_induction; intros Hwf Hin.
  - apply list_elem_of_singleton in Hin as ->. cbn. rewrite Z.eqb_refl. eexists. split; [done|].
    destruct (bool_decide _); (split; [done|]); cbn; [done|]. apply Permutation_swap.
  - rewrite insert_split. apply well_formed_split in Hwf as (H2 & Hss & Hcs).
    destruct (if eqb axis h then _ else _) as [i|] eqn:Hpos.
    + assert (Hi : (i < length cs)%nat).
      { destruct (eqb axis h); [|done]. apply position_of_pane in Hpos as (a & z & -> & <-).
        rewrite length_app. cbn. lia. }
      set (k := match b with None => _ | Some _ => _ end).
      assert (Hk : (k <= length cs)%nat) by (subst k; destruct b as [[]|]; lia). cbn zeta.
      rewrite !vec_insert_ok by (rewrite ?length_map; lia). eexists. split; [done|]. split.
      * apply well_formed_split. rewrite !take_insert_length by (rewrite ?length_map; lia). rewrite length_map.
        split_and!; [lia|lia|]. apply Forall_app. rewrite <- (take_drop k cs), Forall_app in Hcs.
        split; [apply Hcs|constructor; [done|apply Hcs]].
      * cbn [panes]. rewrite flat_map_app. cbn. rewrite <- Permutation_middle, <- flat_map_app. by rewrite take_drop.
    + pose proof (first_with_spec dest cs) as Hf. destruct (first_with dest cs) as [[[a c] z]|].
      * destruct Hf as (-> & Hc & _). apply Forall_app in Hcs as [Ha [Hc' Hz]%Forall_cons_1].
        apply Forall_app in IH as [_ [IH _]%Forall_cons_1].
        destruct (IH Hc') as (c' & -> & Hwf & Hp); [by apply contains_panes|]. eexists. split; [done|]. split.
        -- apply well_formed_split. rewrite !length_app in *. cbn [length] in *. split_and!; [lia|lia|].
           apply Forall_app. split; [done|]. by constructor.
        -- cbn [panes]. rewrite !flat_map_app. cbn. rewrite Hp. cbn. symmetry; apply Permutation_middle.
      * apply elem_of_panes in Hin as (c & Hc & Hin). rewrite Forall_forall in Hf.
        apply contains_panes in Hin. by rewrite Hf in Hin.
Qed.

(** Asked for a side, [insert] puts the pane directly beside the first
    occurrence of its destination. *)
Lemma insert_beside l dest pane h side :
  well_formed l = true -> dest ∈ panes l ->
  exists l' a z, insert l dest pane h (Some side) = Ok l' /\ panes l = a ++ dest :: z /\
    panes l' = a ++ (if side then [pane; dest] else [dest; pane]) ++ z.
Proof.
  induction l as [q|axis cs ss IH] using layout_induction; intros Hwf Hin.
  - apply list_elem_of_singleton in Hin as ->. cbn. rewrite Z.eqb_refl. eexists _, [], []. split; [done|].
    split; [done|]. by destruct side.
  - rewrite insert_split. apply well_formed_split in Hwf as (H2 & Hss & Hcs).
    destruct (if eqb axis h then _ else _) as [i|] eqn:Hpos.
    + destruct (eqb axis h); [|done]. apply position_of_pane in Hpos as (a & z & -> & <-). cbn zeta.
      rewrite length_app in *. cbn [length] in *.
      rewrite !vec_insert_ok by (rewrite ?length_map, ?length_app; cbn [length]; destruct side; lia).
      eexists _, (flat_map panes a), (flat_map panes z). split; [done|]. cbn [panes]. rewrite !flat_map_app.
      split; [done|]. cbn [flat_map]. destruct side.
      * rewrite Nat.add_0_r, take_app_length, drop_app_length. done.
      * rewrite take_app_ge, drop_app_ge by lia. replace (length a + 1 - length a)%nat with 1%nat by lia.
        cbn. rewrite flat_map_app. cbn. by rewrite <- app_assoc.
    + pose proof (first_with_spec dest cs) as Hf. destruct (first_with dest cs) as [[[a c] z]|].
      * destruct Hf as (-> & Hc & _). apply Forall_app in Hcs as [Ha [Hc' Hz]%Forall_cons_1].
        apply Forall_app in IH as [_ [IH _]%Forall_cons_1].
        destruct (IH Hc') as (c' & pa & pz & -> & Hp & Hp'); [by apply contains_panes|].
        eexists _, (flat_map panes a ++ pa), (pz ++ flat_map panes z). split; [done|].
        cbn [panes]. rewrite !flat_map_app. cbn [flat_map]. rewrite Hp, Hp'. by rewrite <- !app_assoc.
      * apply elem_of_panes in Hin as (c & Hc & Hin). rewrite Forall_forall in Hf.
        apply contains_panes in Hin. by rewrite Hf in Hin.
Qed.

(** *** [remove] *)

Definition kept (pane : Z) (cs : list Layout) (ss : list f32) : list (Layout * f32) :=
  omap (fun '(c, s) => (fun c => (c, s)) <$> remove c pane) (zip cs ss).

Lemma remove_split h cs ss pane :
  remove (Split h cs ss) pane =
  match kept pane cs ss with
  | [] => None
  | [(c, _)] => Some c
  | k =>
      let sum := f32_sum (map snd k) in
      Some (Split h (map fst k) (map (fun s => f32_div s sum) (map snd k)))
  end.
Proof.
  cbn [remove].
  enough (forall ss, (fix go (cs : list Layout) (ss : list f32) : list (Layout * f32) :=
           match cs, ss with
           | c :: cs, s :: ss => match remove c pane with Some c => (c, s) :: go cs ss | None => go cs ss end
           | _, _ => []
           end) cs ss = kept pane cs ss) as ->
    by by destruct (kept pane cs ss) as [|[? ?] [|[? ?] ?]].
  induction cs as [|c cs IH]; intros [|s ss']; try done. unfold kept. cbn. rewrite IH.
  by destruct (remove c pane).
Qed.

(** [remove] leaves the other panes in order, and nothing when none is left. *)
Lemma remove_spec l pane :
  well_formed l = true ->
  match remove l pane with
  | Some l' => well_formed l' = true /\ panes l' = filter (fun p => p <> pane) (panes l)
  | None => filter (fun p => p <> pane) (panes l) = []
  end.
Proof.
  induction l as [q|h cs ss IH] using layout_induction; intros Hwf.
  - cbn [remove]. destruct (Z.eqb_spec q pane) as [->|Hq]; cbn [panes].
    + by rewrite filter_cons_False by tauto.
    + split; [done|]. by rewrite filter_cons_True.
  - rewrite remove_split. apply well_formed_split in Hwf as (H2 & Hss & Hcs).
    assert (Hk : Forall (fun c => well_formed c = true) (map fst (kept pane cs ss)) /\
      flat_map panes (map fst (kept pane cs ss)) = filter (fun p => p <> pane) (flat_map panes cs)).
    { clear H2. revert ss Hss. induction cs as [|c cs IHcs]; intros [|s ss] Hss; try done.
      apply Forall_cons_1 in IH as [IHc IH], Hcs as [Hc Hcs]. injection Hss as Hss.
      destruct (IHcs IH Hcs ss Hss) as [Hw Hp]. specialize (IHc Hc). unfold kept. cbn.
      rewrite filter_app. destruct (remove c pane) as [c'|]; cbn.
      - destruct IHc as [Hw' Hp']. split; [by constructor|]. by rewrite Hp', <- Hp.
      - rewrite IHc. done. }
    destruct Hk as [Hw Hp]. cbn [panes]. rewrite <- Hp.
    destruct (kept pane cs ss) as [|[c s] [|[c2 s2] k]]; [done| |].
    + cbn in *. rewrite app_nil_r. by apply Forall_cons_1 in Hw as [? _].
    + split; [|done]. apply well_formed_split. rewrite !length_map. split_and!; [cbn; lia|done|done].
Qed.

(** *** [swap], [select] *)

Lemma swap_spec l a b :
  panes (swap l a b) = map (swapped a b) (panes l) /\ well_formed (swap l a b) = well_formed l.
Proof.
  induction l as [q|h cs ss IH] using layout_induction; [done|]. cbn [swap panes well_formed].
  rewrite length_map. split.
  - induction IH as [|c cs [Hc _] _ IH]; [done|]. cbn. by rewrite Hc, IH, map_app.
  - f_equal. induction IH as [|c cs [_ Hc] _ IH]; [done|]. cbn. by rewrite Hc, IH.
Qed.

Lemma swapped_involutive a b p : swapped a b (swapped a b p) = p.
Proof. unfold swapped. repeat case_match; lia. Qed.

Lemma swapped_inj a b p q : swapped a b p = swapped a b q -> p = q.
Proof. intros H%(f_equal (swapped a b)). by rewrite !swapped_involutive in H. Qed.

Lemma swapped_l a b : swapped a b a = b.
Proof. unfold swapped. by rewrite Z.eqb_refl. Qed.

Lemma swapped_r a b : swapped a b b = a.
Proof. unfold swapped. repeat case_match; lia. Qed.

Lemma swapped_other a b p : p <> a -> p <> b -> swapped a b p = p.
Proof. intros Ha Hb. unfold swapped. repeat case_match; lia. Qed.

Lemma select_spec l name :
  well_formed l = true -> well_formed (select l name) = true /\ panes (select l name) = panes l.
Proof.
  intros Hwf. unfold select. destruct (Nat.ltb_spec (length (panes l)) 2); [done|]. split.
  - apply well_formed_split. rewrite repeat_length, length_map. split_and!; [done..|].
    apply Forall_map, Forall_true. done.
  - cbn [panes]. induction (panes l) as [|p ps IH] in *; [done|]. clear H. cbn. f_equal. clear Hwf IH.
    induction ps as [|q ps IH]; [done|]. cbn. by f_equal.
Qed.

(** ** Rectangles *)

(** A rectangle that shows something, in sixteen bits. *)
Definition rect_ok (r : Rect) : Prop := 1 <= cols r <= 65535 /\ 1 <= rows r <= 65535.

Lemma u16_range z : 0 <= u16 z <= 65535.
Proof. unfold u16. pose proof (Z.mod_pos_bound z 65536). lia. Qed.

Lemma round_size_range x : 1 <= round_size x <= 65535.
Proof. unfold round_size. destruct x as [| [] | | [] m e]; lia. Qed.

Lemma rects_from_ok h ss i n available used rect :
  rect_ok rect -> 0 <= available <= 65535 -> 0 <= used ->
  Forall rect_ok (rects_from h ss i n available used rect) /\
  length (rects_from h ss i n available used rect) = length ss.
Proof.
  intros [Hc Hr] Ha. revert i used. induction ss as [|s ss IH]; intros i used Hu; [done|]. cbn [rects_from].
  set (size := if i + 1 =? n then _ else _).
  assert (Hsize : 1 <= size <= 65535) by (subst size; destruct (i + 1 =? n); [lia|apply round_size_range]).
  destruct (IH (i + 1) (u16 (used + size))) as [Hok Hlen]; [pose proof (u16_range (used + size)); lia|].
  cbn [length]. rewrite Hlen. split; [|done]. constructor; [|done]. destruct h; split; cbn; lia.
Qed.

Lemma rects_ok h ss rect :
  rect_ok rect -> Forall rect_ok (rects h ss rect) /\ length (rects h ss rect) = length ss.
Proof.
  intros Hok. unfold rects. apply rects_from_ok; [done| |lia].
  pose proof (u16_range (zlen ss)). pose proof (u16_range (u16 (zlen ss) - 1)). destruct Hok. destruct h; lia.
Qed.

Lemma geometry_split h cs ss rect :
  geometry (Split h cs ss) rect =
  (concat (map fst (zip_with geometry cs (rects h ss rect))),
   rect_text rect ++ brackets h (commas (map snd (zip_with geometry cs (rects h ss rect))))).
Proof. reflexivity. Qed.

(** [geometry] places each pane once, in order, on a rectangle that shows. *)
Lemma geometry_spec l rect :
  well_formed l = true -> rect_ok rect ->
  map fst (fst (geometry l rect)) = panes l /\ Forall (fun pr => rect_ok (snd pr)) (fst (geometry l rect)).
Proof.
  revert rect. induction l as [q|h cs ss IH] using layout_induction; intros rect Hwf Hok.
  { split; [done|]. by apply Forall_singleton. }
  apply well_formed_split in Hwf as (_ & Hss & Hcs). rewrite geometry_split. cbn [fst panes].
  destruct (rects_ok h ss rect Hok) as [Hr Hlen]. rewrite Hss in Hlen. revert Hr Hlen.
  generalize (rects h ss rect) as rs. clear Hss.
  induction cs as [|c cs IHcs]; intros [|r rs] Hr Hlen; try done.
  apply Forall_cons_1 in IH as [IHc IH], Hcs as [Hc Hcs], Hr as [Hr Hrs]. injection Hlen as Hlen.
  destruct (IHc r Hc Hr) as [Hp Hf]. destruct (IHcs IH Hcs rs Hrs Hlen) as [Hp' Hf']. cbn.
  rewrite map_app, Hp, Hp'. split; [done|]. by apply Forall_app.
Qed.

(** One cell apart: the next child starts one past the end of this one. *)
Definition follows (horizontal : bool) (a b : Rect) : Prop :=
  if horizontal then rx b = u16 (rx a + cols a + 1) /\ ry b = ry a /\ rows b = rows a
  else ry b = u16 (ry a + rows a + 1) /\ rx b = rx a /\ cols b = cols a.

Lemma rects_from_cons h s ss i n available used rect :
  exists r, head (rects_from h (s :: ss) i n available used rect) = Some r /\
  exists size, (if h then cols r = size /\ rx r = u16 (rx rect + u16 (used + u16 i)) /\ ry r = ry rect /\ rows r = rows rect
    else rows r = size /\ ry r = u16 (ry rect + u16 (used + u16 i)) /\ rx r = rx rect /\ cols r = cols rect) /\
  rects_from h (s :: ss) i n available used rect = r :: rects_from h ss (i + 1) n available (u16 (used + size)) rect.
Proof. cbn [rects_from]. eexists. split; [done|]. eexists. split; [|done]. by destruct h. Qed.

Lemma u16_step x used i size :
  u16 (x + u16 (u16 (used + size) + u16 (i + 1))) = u16 (u16 (x + u16 (used + u16 i)) + size + 1).
Proof.
  unfold u16. Z.to_euclidean_division_equations. lia.
Qed.

Fixpoint chained {A} (R : A -> A -> Prop) (l : list A) : Prop :=
  match l with
  | a :: (b :: _) as l' => R a b /\ chained R l'
  | _ => True
  end.

Lemma rects_from_chained h ss i n av used rect : chained (follows h) (rects_from h ss i n av used rect).
Proof.
  revert i used. induction ss as [|s [|s2 ss] IH]; intros i used; [done|done|].
  destruct (rects_from_cons h s (s2 :: ss) i n av used rect) as (r & _ & size & Hr & ->).
  destruct (rects_from_cons h s2 ss (i + 1) n av (u16 (used + size)) rect) as (r2 & Hhd & size2 & Hr2 & Heq).
  specialize (IH (i + 1) (u16 (used + size))). rewrite Heq in *. split; [|exact IH].
  unfold follows. destruct h; destruct Hr as (<- & Hx & Hy & Hz), Hr2 as (_ & Hx2 & Hy2 & Hz2);
    rewrite Hx2, Hx, u16_step; (split; [done|]); split; congruence.
Qed.

Section rectangles_known.
Context (rect : Z -> result Failure Rect).

Definition known (l : Layout) : Prop := forall p, p ∈ panes l -> exists r, rect p = Ok r.

Lemma known_child h cs ss : known (Split h cs ss) -> Forall known cs.
Proof.
  intros H. apply Forall_forall. intros c Hc p Hp. apply H. apply elem_of_panes. by exists c.
Qed.

Lemma all_ok_exists {A B} (f : A -> result Failure B) l :
  Forall (fun x => exists y, f x = Ok y) l -> exists ys, all_ok (map f l) = Ok ys /\ Forall2 (fun x y => f x = Ok y) l ys.
Proof.
  induction 1 as [|x l [y Hy] _ (ys & IH & Hall)]; cbn; [by exists []|]. rewrite Hy, IH. eexists. split; [done|].
  by constructor.
Qed.

Lemma first_last_ok l :
  well_formed l = true -> known l -> exists a b, first_last rect l = Ok (a, b).
Proof.
  intros Hwf Hk. unfold first_last. pose proof (panes_nonempty l Hwf) as Hne.
  destruct (head (panes l)) as [a|] eqn:Ha; [|by destruct (panes l)].
  destruct (last (panes l)) as [b|] eqn:Hb; [|by apply last_None in Hb].
  destruct (Hk a) as [ra Hra]. { destruct (panes l); simplify_eq/=. left. }
  destruct (Hk b) as [rb Hrb]. { by apply last_Some_elem_of. }
  rewrite Hra, Hrb. by eexists _, _.
Qed.

Lemma dump_ok l : well_formed l = true -> known l -> exists text, dump rect l = Ok text.
Proof.
  induction l as [q|h cs ss IH] using layout_induction; intros Hwf Hk.
  - destruct (Hk q) as [r Hr]; [left|]. cbn. rewrite Hr. by eexists.
  - destruct (first_last_ok _ Hwf Hk) as (a & b & Hab). cbn [dump]. rewrite Hab.
    apply well_formed_split in Hwf as (_ & _ & Hcs). apply known_child in Hk.
    destruct (all_ok_exists (dump rect) cs) as (ys & Hys & _).
    { rewrite Forall_forall in *. naive_solver. }
    destruct (if h then _ else _) as [c r]. rewrite Hys. by eexists.
Qed.

Lemma extent_ok axis l : well_formed l = true -> known l -> exists d, extent rect axis l = Ok d /\ 1 <= d.
Proof.
  intros Hwf Hk. destruct (first_last_ok l Hwf Hk) as (a & b & Hab). unfold extent. rewrite Hab.
  eexists. split; [done|]. lia.
Qed.

Lemma length_reweigh ss ds total : length (reweigh ss ds total) = length ss.
Proof. revert ds. induction ss as [|s ss IH]; intros [|d ds]; cbn; by rewrite ?IH. Qed.
End rectangles_known.

(** ** What an absolute resize does to the extents *)

Lemma sum_cons d ds : sum (d :: ds) = d + sum ds.
Proof.
  unfold sum. cbn [fold_left]. rewrite Z.add_0_l.
  enough (forall a, fold_left Z.add ds a = a + fold_left Z.add ds 0) as H by apply H.
  induction ds as [|e ds IH]; intros a; cbn [fold_left]; [lia|].
  rewrite (IH (a + e)), (IH (0 + e)). lia.
Qed.

Lemma sum_insert ds i x : (i < length ds)%nat -> sum (<[i := x]> ds) = sum ds + x - dim_at ds i.
Proof.
  revert i. induction ds as [|d ds IH]; intros [|i] Hi; cbn in *; [lia|lia| |].
  - change (sum (x :: ds) = sum (d :: ds) + x - d). rewrite !sum_cons. lia.
  - change (sum (d :: <[i := x]> ds) = sum (d :: ds) + x - dim_at ds i). rewrite !sum_cons, IH by lia. lia.
Qed.

Lemma dim_at_insert ds i j x :
  (i < length ds)%nat -> dim_at (<[i := x]> ds) j = if (j =? i)%nat then x else dim_at ds j.
Proof.
  unfold dim_at. revert i j. induction ds as [|d ds IH]; intros [|i] [|j] Hi; cbn in *; try lia; [done..|].
  apply IH. lia.
Qed.

Lemma sum_at_least ds : Forall (fun d => 1 <= d) ds -> zlen ds <= sum ds.
Proof. induction 1 as [|d ds Hd _ IH]; [done|]. rewrite zlen_cons, sum_cons. lia. Qed.

Lemma dim_at_pos ds i : Forall (fun d => 1 <= d) ds -> (i < length ds)%nat -> 1 <= dim_at ds i.
Proof. intros Hall Hi. unfold dim_at. rewrite Forall_forall in Hall. by apply Hall, list_elem_of_In, nth_In. Qed.

Lemma dims_insert ds i x :
  Forall (fun d => 1 <= d) ds -> 1 <= x -> Forall (fun d => 1 <= d) (<[i := x]> ds).
Proof. intros. by apply Forall_insert. Qed.

(** What the others can give. *)
Definition slack (ds : list Z) (order : list nat) : Z := sum (map (fun j => dim_at ds j - 1) order).

Lemma sum_perm (a b : list Z) : a ≡ₚ b -> sum a = sum b.
Proof. induction 1; rewrite ?sum_cons in *; lia. Qed.

Lemma slack_all ds : slack ds (seq 0 (length ds)) = sum ds - zlen ds.
Proof.
  unfold slack. induction ds as [|d ds IH]; [done|]. cbn [length seq map]. rewrite <- seq_shift, map_map, !sum_cons.
  rewrite zlen_cons. change (map (fun j => dim_at (d :: ds) (S j) - 1) (seq 0 (length ds)))
    with (map (fun j => dim_at ds j - 1) (seq 0 (length ds))). rewrite IH. cbn. lia.
Qed.

Lemma slack_nonneg ds order :
  Forall (fun d => 1 <= d) ds -> Forall (fun j => (j < length ds)%nat) order -> 0 <= slack ds order.
Proof.
  intros Hd. unfold slack. induction 1 as [|j order Hj _ IH]; [done|]. cbn [map]. rewrite sum_cons.
  pose proof (dim_at_pos ds j Hd Hj). lia.
Qed.

Lemma slack_ext ds ds' order :
  Forall (fun j => dim_at ds j = dim_at ds' j) order -> slack ds order = slack ds' order.
Proof. unfold slack. induction 1 as [|j order Hj _ IH]; [done|]. cbn [map]. by rewrite !sum_cons, Hj, IH. Qed.

Lemma take_from_spec ds index need order :
  Forall (fun d => 1 <= d) ds -> (index < length ds)%nat -> NoDup (index :: order) ->
  Forall (fun j => (j < length ds)%nat) order -> 0 <= need ->
  let r := take_from ds index need order in
  Forall (fun d => 1 <= d) r /\ length r = length ds /\ sum r = sum ds /\
  dim_at r index = dim_at ds index + Z.min need (slack ds order).
Proof.
  intros Hd Hi Hnd Ho Hn. cbn zeta. revert ds need Hd Hi Ho Hn.
  induction order as [|j order IH]; intros ds need Hd Hi Ho Hn.
  { cbn [take_from]. unfold slack. cbn. split_and!; [done..|]. lia. }
  apply NoDup_cons in Hnd as [Hni [Hnj Hnd]%NoDup_cons]. apply not_elem_of_cons in Hni as [Hij Hni].
  apply Forall_cons_1 in Ho as [Hj Ho]. cbn [take_from].
  set (taken := Z.min need (dim_at ds j - 1)). pose proof (dim_at_pos ds j Hd Hj) as Hdj.
  pose proof (dim_at_pos ds index Hd Hi) as Hdi.
  rewrite (dim_at_insert ds j index) by done. rewrite (proj2 (Nat.eqb_neq index j)) by done.
  set (ds' := <[index := _]> _).
  assert (Hd' : Forall (fun d => 1 <= d) ds') by (subst ds'; repeat apply dims_insert; [done|lia|lia]).
  assert (Hlen : length ds' = length ds) by (subst ds'; by rewrite !length_insert).
  assert (Hat : forall k, k <> index -> k <> j -> dim_at ds' k = dim_at ds k).
  { intros k Hk Hk'. subst ds'. rewrite !dim_at_insert by (rewrite ?length_insert; done).
    by rewrite (proj2 (Nat.eqb_neq k index)), (proj2 (Nat.eqb_neq k j)). }
  destruct (IH ltac:(by apply NoDup_cons) ds' (need - taken) Hd') as (Hr & Hl & Hs & Hx); [by rewrite Hlen|by rewrite Hlen|lia|].
  split_and!; [done|by rewrite Hl| |].
  - rewrite Hs. subst ds'. rewrite !sum_insert by (rewrite ?length_insert; done).
    rewrite dim_at_insert, (proj2 (Nat.eqb_neq index j)) by done. lia.
  - rewrite Hx, (slack_ext ds' ds).
    + unfold slack. cbn [map]. rewrite sum_cons. fold (slack ds order). pose proof (slack_nonneg ds order Hd Ho).
      subst ds'. rewrite dim_at_insert, Nat.eqb_refl by (by rewrite length_insert). lia.
    + apply Forall_forall. intros k Hk. apply Hat; congruence.
Qed.

Lemma order_perm n index :
  (index < n)%nat -> index :: seq (S index) (n - S index) ++ rev (seq 0 index) ≡ₚ seq 0 n.
Proof.
  intros H. rewrite <- Permutation_rev, Permutation_app_comm. rewrite (Permutation_middle (seq 0 index)).
  replace n with (index + S (n - S index))%nat at 2 by lia. by rewrite seq_app.
Qed.

(** Every extent stays positive, the total stays, and the pane's own is the
    size asked for, as far as the others can give. *)
Lemma absolute_dims_spec ds index want :
  Forall (fun d => 1 <= d) ds -> (index < length ds)%nat -> (2 <= length ds)%nat ->
  let target := Z.max 1 (Z.min want (sum ds - zlen ds + 1)) in
  match absolute_dims ds index want with
  | Ok None => dim_at ds index = target
  | Ok (Some ds') =>
      Forall (fun d => 1 <= d) ds' /\ length ds' = length ds /\ sum ds' = sum ds /\ dim_at ds' index = target
  | Err _ => False
  end.
Proof.
  intros Hd Hi H2. pose proof (sum_at_least ds Hd) as Hsum. unfold absolute_dims. cbn zeta.
  rewrite (proj2 (Z.ltb_ge (sum ds - zlen ds + 1) 1)) by lia.
  set (target := Z.max 1 (Z.min want _)). pose proof (dim_at_pos ds index Hd Hi) as Hpos.
  destruct (Z.eqb_spec (target - dim_at ds index) 0) as [E|E]; [lia|].
  destruct (Z.ltb_spec 0 (target - dim_at ds index)) as [Hgrow|Hshrink].
  - pose proof (order_perm (length ds) index Hi) as Hperm. set (order := seq _ _ ++ rev _) in *.
    assert (Ho : Forall (fun j => (j < length ds)%nat) order).
    { apply Forall_forall. intros j Hj. assert (j ∈ seq 0 (length ds)) as Hin by (rewrite <- Hperm; by right).
      apply elem_of_seq in Hin. lia. }
    destruct (take_from_spec ds index (target - dim_at ds index) order) as (Hr & Hl & Hs & Hx);
      [done|done|rewrite Hperm; apply NoDup_seq|done|lia|].
    split_and!; [done..|]. rewrite Hx.
    assert (Hslack : slack ds order = sum ds - zlen ds - (dim_at ds index - 1)).
    { rewrite <- slack_all. unfold slack. rewrite <- (sum_perm _ _ (Permutation_map _ Hperm)). cbn [map].
      rewrite sum_cons. lia. }
    lia.
  - assert (Hins : forall k, (k < length ds)%nat -> k <> index ->
      let ds1 := <[index := target]> ds in let ds2 := <[k := dim_at ds1 k - (target - dim_at ds index)]> ds1 in
      Forall (fun d => 1 <= d) ds2 /\ length ds2 = length ds /\ sum ds2 = sum ds /\ dim_at ds2 index = target).
    { intros k Hk Hki. cbn zeta. rewrite (dim_at_insert ds index k) by done.
      rewrite (proj2 (Nat.eqb_neq k index)) by done. pose proof (dim_at_pos ds k Hd Hk). split_and!.
      - repeat apply dims_insert; [done|lia|lia].
      - by rewrite !length_insert.
      - rewrite !sum_insert by (rewrite ?length_insert; done). rewrite dim_at_insert by done.
        rewrite (proj2 (Nat.eqb_neq k index)) by done. lia.
      - rewrite dim_at_insert by (by rewrite length_insert). rewrite (proj2 (Nat.eqb_neq index k)) by done.
        rewrite dim_at_insert by done. by rewrite Nat.eqb_refl. }
    rewrite length_insert. destruct (Nat.ltb_spec (S index) (length ds)); [apply Hins; lia|].
    destruct index as [|neighbor]; [lia|]. apply Hins; lia.
Qed.

Section resizing.
Context (rect : Z -> result Failure Rect).

Lemma absolute_split h cs ss pane axis want :
  absolute rect (Split h cs ss) pane axis want =
  match first_with pane cs with
  | None => Ok (Split h cs ss, None)
  | Some (a, c, z) =>
      let? r := absolute rect c pane axis want in
      let (c, changed) := r in
      match changed with
      | Some b => Ok (Split h (a ++ c :: z) ss, Some b)
      | None =>
          if eqb h axis then absolute_here rect h (a ++ c :: z) ss (length a) axis want
          else Ok (Split h (a ++ c :: z) ss, None)
      end
  end.
Proof.
  cbn [absolute].
  match goal with |- ?go [] ?l = _ =>
    enough (forall before, go before l = match first_with pane l with
      | None => Ok (Split h cs ss, None)
      | Some (a, c, z) =>
          let? r := absolute rect c pane axis want in
          let (c, changed) := r in
          let children := rev before ++ a ++ c :: z in
          match changed with
          | Some b => Ok (Split h children ss, Some b)
          | None =>
              if eqb h axis then absolute_here rect h children ss (length before + length a) axis want
              else Ok (Split h children ss, None)
          end
      end) as H by apply (H []) end.
  generalize (Split h cs ss) as l0. intros l0.
  induction cs as [|c cs IH]; intros before; [done|]. cbn [first_with]. destruct (contains c pane).
  - cbn [app length]. by rewrite Nat.add_0_r.
  - rewrite IH. destruct (first_with pane cs) as [[[a d] z]|]; [|done]. cbn [rev app length].
    rewrite <- Nat.add_succ_comm. destruct (absolute rect d pane axis want) as [[d' ch]|]; [|done].
    by rewrite <- app_assoc.
Qed.

Lemma absolute_ok l pane axis want :
  well_formed l = true -> known rect l ->
  exists l' changed, absolute rect l pane axis want = Ok (l', changed) /\ well_formed l' = true /\ panes l' = panes l.
Proof.
  induction l as [q|h cs ss IH] using layout_induction; intros Hwf Hk; [by eexists _, _|].
  rewrite absolute_split. pose proof (first_with_spec pane cs) as Hf. apply known_child in Hk as Hkc.
  destruct (first_with pane cs) as [[[a c] z]|]; [|by eexists _, _]. destruct Hf as (-> & _ & _).
  apply well_formed_split in Hwf as (H2 & Hss & Hcs).
  apply Forall_app in Hcs as [Ha [Hc Hz]%Forall_cons_1], IH as [_ [IH _]%Forall_cons_1].
  apply Forall_app in Hkc as [Hka [Hkc Hkz]%Forall_cons_1].
  destruct (IH Hc Hkc) as (c' & changed & -> & Hc' & Hp).
  assert (Hpanes : forall ss', panes (Split h (a ++ c' :: z) ss') = panes (Split h (a ++ c :: z) ss)).
  { intros ss'. cbn [panes]. rewrite !flat_map_app. cbn [flat_map]. by rewrite Hp. }
  assert (Hlen : length (a ++ c' :: z) = length (a ++ c :: z)) by (by rewrite !length_app).
  assert (Hall : Forall (fun c => well_formed c = true) (a ++ c' :: z)) by (apply Forall_app; split; [done|by constructor]).
  assert (Hwf' : forall ss', length ss' = length ss -> well_formed (Split h (a ++ c' :: z) ss') = true).
  { intros ss' Hss'. apply well_formed_split. rewrite Hss', Hlen. done. }
  destruct changed as [b|]; [eexists _, _; split_and!; [done|by apply Hwf'|apply Hpanes]|].
  destruct (eqb h axis); [|eexists _, _; split_and!; [done|by apply Hwf'|apply Hpanes]].
  unfold absolute_here. destruct (all_ok_exists (extent rect axis) (a ++ c' :: z)) as (ds & Hds & Hall2).
  { assert (Hkn : Forall (known rect) (a ++ c' :: z)).
    { apply Forall_app. split; [done|]. constructor; [|done]. intros p. rewrite Hp. apply Hkc. }
    rewrite Forall_forall in *. intros x Hx. destruct (extent_ok rect axis x) as (d & Hd & _); eauto. }
  rewrite Hds. pose proof (absolute_dims_spec ds (length a) want) as Hspec.
  assert (Hdlen : length ds = length (a ++ c' :: z)) by (symmetry; by eapply Forall2_length).
  assert (Hpos : Forall (fun d => 1 <= d) ds).
  { clear -Hall2. induction Hall2 as [|x d ? ? Hx _ IH]; constructor; [|done].
    unfold extent in Hx. destruct (first_last rect x) as [[]|]; [|done]. injection Hx as <-. lia. }
  assert (Hia : (length a < length ds)%nat) by (rewrite Hdlen, length_app; cbn; lia).
  specialize (Hspec Hpos Hia ltac:(by rewrite Hdlen, Hlen)). cbn zeta in Hspec.
  destruct (absolute_dims ds (length a) want) as [[ds'|]|]; [| |done].
  - eexists _, _. split_and!; [done|apply Hwf', length_reweigh|apply Hpanes].
  - eexists _, _. split_and!; [done|by apply Hwf'|apply Hpanes].
Qed.

Lemma directional_split h cs ss pane dir amount :
  directional rect (Split h cs ss) pane dir amount =
  match first_with pane cs with
  | None => Ok (Split h cs ss, false)
  | Some (a, Pane p, z) => directional_here rect h cs ss (length a) dir amount
  | Some (a, c, z) => let? r := directional rect c pane dir amount in Ok (Split h (a ++ fst r :: z) ss, snd r)
  end.
Proof.
  cbn [directional].
  match goal with |- ?go [] _ = _ =>
    enough (forall l before, go before l = match first_with pane l with
      | None => Ok (Split h cs ss, false)
      | Some (a, Pane p, z) => directional_here rect h cs ss (length before + length a) dir amount
      | Some (a, c, z) =>
          let? r := directional rect c pane dir amount in Ok (Split h (rev before ++ a ++ fst r :: z) ss, snd r)
      end) as H by apply (H cs []) end.
  induction l as [|c l IH]; intros before; [done|]. cbn [first_with]. destruct (contains c pane).
  - cbn [app length]. by rewrite Nat.add_0_r.
  - rewrite IH. destruct (first_with pane l) as [[[a d] z]|]; [|done]. cbn [rev app length].
    rewrite <- Nat.add_succ_comm. destruct d as [q|h' cs' ss']; [done|].
    destruct (directional rect (Split h' cs' ss') pane dir amount); [|done]. by rewrite <- app_assoc.
Qed.

(** The neighbour a directional resize trades with is a child. *)
Lemma directional_here_ok h cs ss index dir amount :
  well_formed (Split h cs ss) = true -> known rect (Split h cs ss) -> (index < length cs)%nat ->
  exists l' changed, directional_here rect h cs ss index dir amount = Ok (l', changed) /\
    well_formed l' = true /\ panes l' = panes (Split h cs ss).
Proof.
  intros Hwf Hk Hi. apply well_formed_split in Hwf as Hparts. destruct Hparts as (H2 & Hss & Hcs).
  unfold directional_here. destruct (negb _); [by eexists _, _|].
  set (b := beq dir _ || beq dir _).
  destruct (if b && (0 <? index)%nat then (pred index, true)
    else if negb b && (S index <? length cs)%nat then (S index, true)
    else if (0 <? index)%nat then (pred index, false) else (S index, false)) as [n grow] eqn:Hn.
  assert (Hneighbor : (n < length cs)%nat).
  { clear -Hn Hi H2. clearbody b. revert Hn.
    destruct (Nat.ltb_spec 0 index), (Nat.ltb_spec (S index) (length cs)), b; cbn [andb negb]; intros [= <- <-]; lia. }
  destruct (all_ok_exists (first_dim rect h) cs) as (ds & -> & Hall).
  { apply known_child in Hk. rewrite Forall_forall in *. intros c Hc.
    destruct (first_last_ok rect c) as (x & y & Hxy); [by apply Hcs|by apply Hk|].
    unfold first_last in Hxy. unfold first_dim. destruct (head (panes c)) as [p|]; [|done].
    destruct (last (panes c)); [|done]. destruct (rect p); [by eexists|done]. }
  apply Forall2_length in Hall. destruct (_ =? 0); [by eexists _, _|].
  rewrite (proj2 (Nat.leb_gt (length ds) n)) by lia. eexists _, _. split_and!; [done| |done].
  apply well_formed_split. by rewrite length_reweigh.
Qed.

Lemma directional_ok l pane dir amount :
  well_formed l = true -> known rect l ->
  exists l' changed, directional rect l pane dir amount = Ok (l', changed) /\ well_formed l' = true /\ panes l' = panes l.
Proof.
  induction l as [q|h cs ss IH] using layout_induction; intros Hwf Hk; [by eexists _, _|].
  rewrite directional_split. pose proof (first_with_spec pane cs) as Hf.
  destruct (first_with pane cs) as [[[a c] z]|]; [|by eexists _, _]. destruct Hf as (-> & _ & _).
  destruct c as [q|h' cs' ss']; [apply directional_here_ok; [done|done|rewrite length_app; cbn; lia]|].
  apply well_formed_split in Hwf as (H2 & Hss & Hcs). apply known_child in Hk.
  apply Forall_app in Hcs as [Ha [Hc Hz]%Forall_cons_1], IH as [_ [IH _]%Forall_cons_1].
  apply Forall_app in Hk as [_ [Hk _]%Forall_cons_1].
  destruct (IH Hc Hk) as (c' & changed & -> & Hc' & Hp). eexists _, _. split_and!; [done| |].
  - apply well_formed_split. rewrite length_app in *. cbn in *. split_and!; [done..|].
    apply Forall_app. split; [done|]. by constructor.
  - cbn [panes]. rewrite !flat_map_app. cbn [flat_map fst]. by rewrite Hp.
Qed.
End resizing.

(** ** Splitting, closing, placing and resizing *)

(** A split puts the new pane directly beside the one it splits, on the side
    asked for, and disturbs no other; closing that pane again gives the window
    its panes back, in their order. *)
Theorem split_then_close l dest pane h side :
  well_formed l = true -> dest ∈ panes l -> pane ∉ panes l ->
  exists l' l'' a z, insert l dest pane h (Some side) = Ok l' /\
    panes l = a ++ dest :: z /\ panes l' = a ++ (if side then [pane; dest] else [dest; pane]) ++ z /\
    remove l' pane = Some l'' /\ panes l'' = panes l /\ well_formed l' = true /\ well_formed l'' = true.
Proof.
  intros Hwf Hd Hp. destruct (insert_beside l dest pane h side Hwf Hd) as (l' & a & z & Hi & Hl & Hl').
  destruct (insert_spec l dest pane h (Some side) Hwf Hd) as (l0 & Hi0 & Hwf' & _). rewrite Hi in Hi0. injection Hi0 as <-.
  assert (Hf : filter (fun p => p <> pane) (panes l') = panes l).
  { rewrite Hl'. rewrite Hl in Hp |- *. apply not_elem_of_app in Hp as [Ha [Hd' Hz]%not_elem_of_cons].
    assert (Hid : forall ps : list Z, pane ∉ ps -> filter (fun p => p <> pane) ps = ps).
    { intros ps Hps. induction ps as [|p ps IH]; [done|]. apply not_elem_of_cons in Hps as [? ?].
      rewrite filter_cons, decide_True by done. by rewrite IH. }
    rewrite !filter_app, (Hid a) by done. f_equal.
    assert (Hself : ~ pane <> pane) by auto.
    destruct side; rewrite !filter_cons, filter_nil, (decide_False (P := pane <> pane)), (decide_True (P := dest <> pane)) by done; by rewrite Hid. }
  pose proof (remove_spec l' pane Hwf') as Hr. destruct (remove l' pane) as [l''|] eqn:E.
  - destruct Hr as [Hwf'' Hr]. exists l', l'', a, z. split_and!; try done. by rewrite Hr.
  - rewrite Hf, Hl in Hr. by destruct a.
Qed.

Lemma split_then_close_witness :
  exists l'', (let? l := insert (Split true [Pane 0; Pane 1] [half; half]) 1 2 false (Some true) in Ok (remove l 2)) = Ok (Some l'')
    /\ panes l'' = [0; 1].
Proof.
  destruct (split_then_close (Split true [Pane 0; Pane 1] [half; half]) 1 2 false true) as (l' & l'' & a & z & Hi & _ & _ & Hr & Hp & _).
  - reflexivity.
  - cbn. right. left.
  - cbn. intros [?|[?|?%not_elem_of_nil]%elem_of_cons]%elem_of_cons; done.
  - exists l''. rewrite Hi. split; [by rewrite <- Hr|exact Hp].
Defined.

(** Every pane of a window is placed exactly once, in order, on a rectangle of
    at least one cell; and the children of a split follow each other, one cell
    of border apart, with the other extent shared. *)
Theorem geometry_places_panes l r :
  well_formed l = true -> rect_ok r ->
  map fst (fst (geometry l r)) = panes l /\ Forall (fun pr => rect_ok (snd pr)) (fst (geometry l r)) /\
  forall h ss, chained (follows h) (rects h ss r) /\ Forall rect_ok (rects h ss r).
Proof.
  intros Hwf Hr. destruct (geometry_spec l r Hwf Hr) as [Hp Hok]. split_and!; [done..|]. intros h ss. split.
  - apply rects_from_chained.
  - by apply rects_ok.
Qed.

Lemma geometry_places_panes_witness :
  map fst (fst (geometry (Split true [Pane 0; Split false [Pane 1; Pane 2] [half; half]] [half; half]) (mkRect 80 24 0 0))) = [0; 1; 2].
Proof. apply geometry_places_panes; [reflexivity|]. split; cbn; lia. Defined.

(** Resizing a pane to a size takes what it needs from its neighbours and
    nothing from outside the split: the total stays, no sibling goes below one
    cell, and the pane's own extent is the size asked for, clamped to what the
    split can hold. *)
Theorem resize_conserves_extents ds index want :
  Forall (fun d => 1 <= d) ds -> (index < length ds)%nat -> (2 <= length ds)%nat ->
  exists r, absolute_dims ds index want = Ok r /\
    let ds' := unwrap_or ds r in
    Forall (fun d => 1 <= d) ds' /\ length ds' = length ds /\ sum ds' = sum ds /\
    dim_at ds' index = Z.max 1 (Z.min want (sum ds - zlen ds + 1)).
Proof.
  intros Hd Hi H2. pose proof (absolute_dims_spec ds index want Hd Hi H2) as H. cbv zeta in H.
  destruct (absolute_dims ds index want) as [r|e]; [|done]. exists r. split; [done|]. by destruct r.
Qed.

Lemma resize_conserves_extents_witness :
  absolute_dims [20; 1; 30; 27] 1 60 = Ok (Some [16; 60; 1; 1]) /\ sum [16; 60; 1; 1] = 78.
Proof.
  destruct (resize_conserves_extents [20; 1; 30; 27] 1 60) as (r & Hr & _ & _ & Hsum & _).
  - repeat constructor; lia.
  - cbn. lia.
  - cbn. lia.
  - assert (Hc : absolute_dims [20; 1; 30; 27] 1 60 = Ok (Some [16; 60; 1; 1])) by reflexivity.
    split; [exact Hc|]. rewrite Hc in Hr. injection Hr as <-. exact Hsum.
Defined.
