(* ===== verification/HtmFraming.v ===== *)
(** * HtmFraming: [crates/et-htm/src/framing.rs]

    The multiplexer's control protocol as bytes: lines in, the words of the
    commands on a line, escaped output and framed replies out. Text is UTF-8;
    every character the code tests for is ASCII, so a walk over the bytes
    takes the decisions of a walk over the characters. *)

From Stdlib Require Import String.
From S2P Require Import Prelude Bytes HtmLayout.

Definition MAX_COMMAND : Z := 64 * 1024.
Definition MAX_QUEUE : Z := 256 * 1024.

(** ** Lines *)

Record Lines := mkLines {
  pending : list byte;
  cr : bool
}.

Definition Lines_default : Lines := mkLines [] false.

Definition CR : byte := "013".
Definition LF : byte := "010".

Inductive LineError := CommandNotUtf8 | CommandTooLong.

Fixpoint feed_from (lines : list (list byte)) (s : Lines) (bytes : list byte)
    : result LineError (list (list byte)) * Lines :=
  match bytes with
  | [] => (Ok lines, s)
  | byte :: bytes =>
      if beq byte LF && cr s then feed_from lines (mkLines (pending s) false) bytes
      else
        let cr := beq byte CR in
        if beq byte CR || beq byte LF then
          if from_utf8 (pending s) then feed_from (lines ++ [pending s]) (mkLines [] cr) bytes
          else (Err CommandNotUtf8, mkLines [] cr)
        else if zlen (pending s) =? MAX_COMMAND then (Err CommandTooLong, mkLines (pending s) cr)
        else feed_from lines (mkLines (pending s ++ [byte]) cr) bytes
  end.

Definition feed (s : Lines) (bytes : list byte) : result LineError (list (list byte)) * Lines := feed_from [] s bytes.

(** ** Commands and their words *)

Fixpoint drop_while (f : byte -> bool) (l : list byte) : list byte :=
  match l with
  | [] => []
  | b :: l' => if f b then drop_while f l' else l
  end.

Definition trim_ascii_start (l : list byte) : list byte := drop_while is_ascii_whitespace l.
Definition trim_ascii_end (l : list byte) : list byte := rev (drop_while is_ascii_whitespace (rev l)).
Definition trim_ascii (l : list byte) : list byte := trim_ascii_end (trim_ascii_start l).

Definition is_quote (b : byte) : bool := beq b "'" || beq b "034".

(** The first pass, character by character: the commands so far, the word,
    the open quote, whether the last character was a backslash, and whether
    a separator was seen. *)
Fixpoint command_list (line : list byte) (commands : list (list byte)) (word : list byte) (quote : option byte)
    (escaped separated : bool) : list (list byte) * list byte * bool :=
  match line with
  | [] => (commands, word, separated)
  | ch :: line =>
      if escaped then command_list line commands (word ++ [ch]) quote false separated
      else if beq ch "\" && negb (bool_decide (quote = Some "'"%byte)) then
        command_list line commands word quote true separated
      else if bool_decide (quote = Some ch) then command_list line commands (word ++ [ch]) None false separated
      else if bool_decide (quote <> None) then command_list line commands (word ++ [ch]) quote false separated
      else if is_quote ch then command_list line commands (word ++ [ch]) (Some ch) false separated
      else if beq ch ";" then
        let commands := match trim_ascii word with [] => commands | w => commands ++ [w] end in
        command_list line commands [] quote false true
      else command_list line commands (word ++ [ch]) quote false separated
  end.

(** The second pass: the words of one command. *)
Fixpoint command_words (command : list byte) (words : list (list byte)) (word : list byte) (quote : option byte)
    (escaped : bool) : list (list byte) :=
  match command with
  | [] => match word with [] => words | _ => words ++ [word] end
  | ch :: command =>
      if escaped then command_words command words (word ++ [ch]) quote false
      else if beq ch "\" && negb (bool_decide (quote = Some "'"%byte)) then command_words command words word quote true
      else if bool_decide (quote = Some ch) then command_words command words word None false
      else if bool_decide (quote <> None) then command_words command words (word ++ [ch]) quote false
      else if is_quote ch then command_words command words word (Some ch) false
      else if is_ascii_whitespace ch then
        match word with
        | [] => command_words command words [] quote false
        | _ => command_words command (words ++ [word]) [] quote false
        end
      else command_words command words (word ++ [ch]) quote false
  end.

(** It never fails. *)
Definition parse (line : list byte) : list (list (list byte)) :=
  let '(commands, word, separated) := command_list line [] [] None false false in
  let commands :=
    if negb separated then [line]
    else match trim_ascii word with [] => commands | w => commands ++ [w] end in
  let commands := match commands with [] => [line] | _ => commands end in
  map (fun command => command_words command [] [] None false) commands.

(** ** Output *)

Definition escape_byte (byte : byte) : list Byte.byte :=
  let b := b2z byte in
  if (b <? 32) || beq byte "\" then
    ["\"%byte; z2b (48 + Z.shiftr b 6); z2b (48 + Z.land (Z.shiftr b 3) 7); z2b (48 + Z.land b 7)]
  else [byte].

Definition escape (bytes : list byte) : list byte := flat_map escape_byte bytes.

(** [time]: the seconds the clock tells. *)
Definition reply (time sequence flags : Z) (r : result (list byte) (list byte)) : list byte :=
  let line kind := bytes_of "%" ++ bytes_of kind ++ bytes_of " " ++ joined (bytes_of " ") [dec time; dec sequence; dec flags] ++ [LF] in
  let '(body, ending) :=
    match r with
    | Ok body => (body, "end"%string)
    | Err error => (escape error, "error"%string)
    end in
  let separator := if bool_decide (body <> []) && negb (ends_with [LF] body) then [LF] else [] in
  line "begin"%string ++ body ++ separator ++ line ending.

(** ** Lines: any cut of the stream, and every terminator *)

Lemma feed_from_app lines s a b :
  feed_from lines s (a ++ b) =
  match feed_from lines s a with
  | (Ok lines', s') => feed_from lines' s' b
  | (Err e, s') => (Err e, s')
  end.
Proof.
  revert lines s. induction a as [|x a IH]; intros lines s; [done|]. cbn [feed_from app].
  destruct (beq x LF && cr s); [apply IH|]. cbn zeta. destruct (beq x CR || beq x LF).
  - destruct (from_utf8 _); [apply IH|done].
  - destruct (_ =? _); [done|apply IH].
Qed.

Lemma feed_from_lines lines s a :
  feed_from lines s a =
  match feed_from [] s a with
  | (Ok new, s') => (Ok (lines ++ new), s')
  | (Err e, s') => (Err e, s')
  end.
Proof.
  revert lines s. induction a as [|x a IH]; intros lines s; cbn [feed_from]; [by rewrite app_nil_r|].
  destruct (beq x LF && cr s); [apply IH|]. cbn zeta.
  destruct (beq x CR || beq x LF); [|destruct (_ =? _); [done|apply IH]].
  destruct (from_utf8 _); [|done]. rewrite IH, (IH ([] ++ [pending s])).
  destruct (feed_from [] _ a) as [[new|e] s']; [|done]. by rewrite <- app_assoc.
Qed.

(** A stream handed over in pieces, up to the first error. *)
Fixpoint feed_all (s : Lines) (chunks : list (list byte)) : result LineError (list (list byte)) * Lines :=
  match chunks with
  | [] => (Ok [], s)
  | c :: chunks =>
      match feed s c with
      | (Ok lines, s) =>
          match feed_all s chunks with
          | (Ok more, s) => (Ok (lines ++ more), s)
          | err => err
          end
      | err => err
      end
  end.

Lemma feed_all_concat s chunks : feed_all s chunks = feed s (concat chunks).
Proof.
  revert s. induction chunks as [|c chunks IH]; intros s; [done|]. cbn [feed_all concat]. unfold feed at 2.
  rewrite feed_from_app. fold (feed s c). destruct (feed s c) as [[lines|e] s']; [|done].
  rewrite IH, feed_from_lines. fold (feed s' (concat chunks)). by destruct (feed s' _) as [[more|e] s''].
Qed.

Definition is_end (b : byte) : bool := beq b CR || beq b LF.

(** A command that fits on a line. *)
Definition command_ok (c : list byte) : Prop :=
  Forall (fun b => is_end b = false) c /\ zlen c <= MAX_COMMAND /\ from_utf8 c = true.

Lemma feed_text lines p c s :
  Forall (fun b => is_end b = false) c -> zlen p + zlen c <= MAX_COMMAND -> pending s = p ->
  exists s', feed_from lines s c = (Ok lines, s') /\ pending s' = p ++ c /\ (c <> [] \/ cr s = false -> cr s' = false).
Proof.
  intros Hc. revert p s. induction Hc as [|b c Hb Hc IH]; intros p s Hlen Hp.
  { exists s. rewrite app_nil_r. split_and!; [done..|]. tauto. }
  rewrite zlen_cons in Hlen. pose proof (zlen_nonneg c). unfold is_end in Hb. apply orb_false_iff in Hb as [Hcr Hlf].
  cbn [feed_from]. rewrite Hlf, Hcr. cbn [andb orb]. rewrite Hp, (proj2 (Z.eqb_neq (zlen p) MAX_COMMAND)) by lia.
  destruct (IH (p ++ [b]) (mkLines (p ++ [b]) false)) as (s' & Hf & Hp' & Hcr'); [rewrite zlen_app, zlen_cons, zlen_nil; lia|done|].
  exists s'. split_and!; [done|by rewrite Hp', <- app_assoc|]. intros _. apply Hcr'. by right.
Qed.

Lemma feed_line lines s c ending :
  command_ok c -> ending = [LF] \/ ending = [CR] \/ ending = [CR; LF] -> pending s = [] ->
  cr s = false \/ ending = [CR] ->
  feed_from lines s (c ++ ending) = (Ok (lines ++ [c]), mkLines [] (bool_decide (ending = [CR]))).
Proof.
  intros (Hc & Hlen & Hutf) Hend Hp Hcr. rewrite feed_from_app.
  destruct (feed_text lines [] c s) as (s' & -> & Hp' & Hcr'); [done|done|done|]. cbn in Hp'.
  destruct Hend as [-> | [-> | ->]]; cbn [feed_from].
  - destruct Hcr as [Hcr|]; [|done]. rewrite Hcr', Hp' by tauto. cbn. by rewrite Hutf.
  - cbn. by rewrite Hp', Hutf.
  - cbn. by rewrite Hp', Hutf.
Qed.

Lemma feed_lines lines s cs ending :
  Forall command_ok cs -> ending = [LF] \/ ending = [CR] \/ ending = [CR; LF] -> pending s = [] ->
  cr s = false \/ ending = [CR] ->
  exists s', feed_from lines s (flat_map (fun c => c ++ ending) cs) = (Ok (lines ++ cs), s').
Proof.
  intros Hcs Hend. revert lines s. induction Hcs as [|c cs Hc Hcs IH]; intros lines s Hp Hcr.
  { exists s. by rewrite app_nil_r. }
  cbn [flat_map]. rewrite feed_from_app, (feed_line lines s c ending) by done.
  destruct (IH (lines ++ [c]) (mkLines [] (bool_decide (ending = [CR])))) as [s' ->]; [done| |].
  { cbn. destruct (decide (ending = [CR])); [by right|left; by apply bool_decide_eq_false]. }
  exists s'. by rewrite <- app_assoc.
Qed.

(** The commands a client sends, with any of the three line endings and
    however the stream is cut, are the lines the daemon reads. *)
Theorem lines_any_cut cs ending chunks :
  Forall command_ok cs -> ending = [LF] \/ ending = [CR] \/ ending = [CR; LF] ->
  concat chunks = flat_map (fun c => c ++ ending) cs ->
  fst (feed_all Lines_default chunks) = Ok cs.
Proof.
  intros Hcs Hend Hcat. rewrite feed_all_concat, Hcat. unfold feed.
  destruct (feed_lines [] Lines_default cs ending Hcs Hend eq_refl) as [s' ->]; [by left|done].
Qed.

Lemma lines_any_cut_witness :
  fst (feed_all Lines_default [bytes_of "list-pa"; bytes_of "nes" ++ [CR]; [LF] ++ bytes_of "foo" ++ [CR]; [LF]])
  = Ok [bytes_of "list-panes"; bytes_of "foo"].
Proof.
  apply (lines_any_cut [bytes_of "list-panes"; bytes_of "foo"] [CR; LF]).
  - repeat constructor; vm_compute; done.
  - by right; right.
  - reflexivity.
Defined.

(** ** Escaped output *)

(** The reader's side: a backslash and three octal digits are a byte. *)
Fixpoint unescape (l : list byte) : list byte :=
  match l with
  | [] => []
  | b :: l' =>
      if beq b "\" then
        match l' with
        | x :: y :: z :: rest => z2b ((b2z x - 48) * 64 + (b2z y - 48) * 8 + (b2z z - 48)) :: unescape rest
        | _ => []
        end
      else b :: unescape l'
  end.

Definition escapes_right (b : byte) : bool :=
  match escape_byte b with
  | [c] => beq c b && negb (beq b "\") && (32 <=? b2z b)
  | [s; x; y; z] =>
      beq s "\" && forallb (fun c => 32 <=? b2z c) [x; y; z]
      && beq (z2b ((b2z x - 48) * 64 + (b2z y - 48) * 8 + (b2z z - 48))) b
  | _ => false
  end.

Lemma escapes_right_all b : escapes_right b = true.
Proof. by destruct b. Qed.

Lemma escape_byte_cases b :
  (escape_byte b = [b] /\ beq b "\" = false /\ 32 <= b2z b) \/
  (exists x y z, escape_byte b = ["\"%byte; x; y; z] /\ Forall (fun c => 32 <= b2z c) [x; y; z] /\
     z2b ((b2z x - 48) * 64 + (b2z y - 48) * 8 + (b2z z - 48)) = b).
Proof.
  pose proof (escapes_right_all b) as H. unfold escapes_right in H.
  destruct (escape_byte b) as [|c [|x [|y [|z [|]]]]]; try done.
  - left. apply andb_true_iff in H as [[H1 H2]%andb_true_iff H3]. destruct (beq_spec c b) as [Hc|]; [|done].
    split_and!; [by rewrite Hc|by apply negb_true_iff|lia].
  - right. apply andb_true_iff in H as [[H1 H2]%andb_true_iff H3]. destruct (beq_spec c "\"%byte) as [->|]; [|done].
    destruct (beq_spec (z2b ((b2z x - 48) * 64 + (b2z y - 48) * 8 + (b2z z - 48))) b); [|done].
    eexists _, _, _. split_and!; [done| |done]. cbn in H2. repeat constructor; lia.
Qed.

Lemma escape_cons b l : escape (b :: l) = escape_byte b ++ escape l.
Proof. done. Qed.

(** Escaped output is printable, on one line, and tells the bytes back. *)
Theorem escape_roundtrip l : unescape (escape l) = l /\ Forall (fun c => 32 <= b2z c) (escape l).
Proof.
  induction l as [|b l [IH Hall]]; [done|]. rewrite escape_cons.
  destruct (escape_byte_cases b) as [(-> & Hb & Hge) | (x & y & z & -> & Hxyz & Hval)].
  - cbn [app unescape]. rewrite Hb, IH. split; [done|]. by constructor.
  - cbn [app unescape]. rewrite beq_refl, Hval, IH. split; [done|].
    constructor; [done|]. by apply (proj2 (Forall_app _ [x; y; z] _)).
Qed.

(** ** Quoted words *)

Definition quoted (w : list byte) : list byte := ("'"%byte :: w) ++ ["'"%byte].

(** A word that single quotes can carry. *)
Definition quotable (w : list byte) : Prop := w <> [] /\ Forall (fun b => b <> "'"%byte) w.

Lemma command_list_quoted w rest commands word separated :
  Forall (fun b => b <> "'"%byte) w ->
  command_list (quoted w ++ rest) commands word None false separated =
  command_list rest commands (word ++ quoted w) None false separated.
Proof.
  intros Hw. unfold quoted. rewrite <- app_assoc. cbn [app command_list]. cbn [is_quote orb].
  enough (forall word, command_list (w ++ "'"%byte :: rest) commands word (Some "'"%byte) false separated =
    command_list rest commands (word ++ w ++ ["'"%byte]) None false separated) as H.
  { etransitivity; [apply (H (word ++ ["'"%byte]))|]. by rewrite <- app_assoc. }
  clear word. induction Hw as [|b w Hb _ IH]; intros word; [done|]. cbn [app command_list].
  rewrite bool_decide_true by done. rewrite andb_false_r. rewrite bool_decide_false by congruence.
  rewrite bool_decide_true by done. rewrite IH. by rewrite <- app_assoc.
Qed.

Lemma command_words_quoted w rest words :
  Forall (fun b => b <> "'"%byte) w ->
  command_words (quoted w ++ rest) words [] None false = command_words rest words w None false.
Proof.
  intros Hw. unfold quoted. rewrite <- app_assoc. cbn [app command_words]. cbn [is_quote orb].
  enough (forall word, command_words (w ++ "'"%byte :: rest) words word (Some "'"%byte) false =
    command_words rest words (word ++ w) None false) as H by apply (H []).
  induction Hw as [|b w Hb _ IH]; intros word; [by rewrite app_nil_r|]. cbn [app command_words].
  rewrite bool_decide_true by done. rewrite andb_false_r. rewrite bool_decide_false by congruence.
  rewrite bool_decide_true by done. rewrite IH. by rewrite <- app_assoc.
Qed.

Definition quoted_line (ws : list (list byte)) : list byte := joined (bytes_of " ") (map quoted ws).

Lemma quoted_line_cons w w2 ws :
  quoted_line (w :: w2 :: ws) = quoted w ++ " "%byte :: quoted_line (w2 :: ws).
Proof. done. Qed.

Lemma quoted_line_list ws commands word :
  Forall quotable ws -> exists word', command_list (quoted_line ws) commands word None false false = (commands, word', false).
Proof.
  intros Hws. revert word. induction Hws as [|w ws [_ Hw] Hws IH]; intros word; [by eexists|].
  destruct ws as [|w2 ws].
  - change (quoted_line [w]) with (quoted w). rewrite <- (app_nil_r (quoted w)), command_list_quoted by done. by eexists.
  - rewrite quoted_line_cons, command_list_quoted by done. cbn [command_list]. apply IH.
Qed.

Lemma quoted_line_words ws words :
  Forall quotable ws -> command_words (quoted_line ws) words [] None false = words ++ ws.
Proof.
  intros Hws. revert words. induction Hws as [|w ws [Hne Hw] Hws IH]; intros words; [by rewrite app_nil_r|].
  destruct ws as [|w2 ws].
  - change (quoted_line [w]) with (quoted w). rewrite <- (app_nil_r (quoted w)), command_words_quoted by done.
    by destruct w.
  - rewrite quoted_line_cons, command_words_quoted by done. cbn [command_words].
    destruct w as [|b w]; [done|]. etransitivity; [apply IH|]. by rewrite <- app_assoc.
Qed.

(** Words in single quotes reach the dispatcher as they are, whatever
    separators, blanks, backslashes or double quotes they hold. *)
Theorem parse_quoted ws : Forall quotable ws -> parse (quoted_line ws) = [ws].
Proof.
  intros Hws. unfold parse. destruct (quoted_line_list ws [] [] Hws) as [word' ->]. cbn.
  by rewrite quoted_line_words.
Qed.

Lemma parse_quoted_witness :
  parse (bytes_of "'send' 'a;b' '\x y'") = [[bytes_of "send"; bytes_of "a;b"; bytes_of "\x y"]].
Proof.
  apply (parse_quoted [bytes_of "send"; bytes_of "a;b"; bytes_of "\x y"]).
  repeat constructor; discriminate.
Defined.
