(* ===== verification/HtmPane.v ===== *)
(** * HtmPane: [crates/et-htm/src/screen.rs] and [terminal_handler.rs]

    What a pane owns. The screen is a WebAssembly guest behind a host shim:
    the guest's answers are arguments, the shim's bookkeeping (poisoning, the
    memory budget, the bounds on what it reads back) is the code's. The
    terminal is a shell on a pseudo-terminal behind two channels: what the
    channels, the clock and the operating system answer are arguments. *)

From Stdlib Require Import String.
From stdpp Require Import gmap.
From S2P Require Import Prelude Bytes HtmLayout HtmFraming.

(** ** The memory budget *)

Definition PANE_MEMORY : Z := 64 * 1024 * 1024.
Definition DAEMON_MEMORY : Z := 512 * 1024 * 1024.

Record Budget := mkBudget { reserved : Z }.

Definition Budget_default : Budget := mkBudget 0.

(** [MEMORY] is the daemon's total; the answer, the total and the budget. *)
Definition memory_growing (MEMORY : Z) (b : Budget) (desired : Z) (maximum : option Z) : bool * Z * Budget :=
  if (PANE_MEMORY <? desired) || is_some_and (fun max => max <? desired) maximum then (false, MEMORY, b)
  else
    let growth := sat_sub desired (reserved b) in
    match usize_checked_add MEMORY growth with
    | Some n => if n <=? DAEMON_MEMORY then (true, n, mkBudget (reserved b + growth)) else (false, MEMORY, b)
    | None => (false, MEMORY, b)
    end.

(** [drop] *)
Definition release (MEMORY : Z) (b : Budget) : Z := MEMORY - reserved b.

Definition table_growing (desired : Z) : bool := desired <=? 1024.

(** ** The screen *)

(** What the guest answers to the calls of one operation: a trap's message or
    a value. [guest_memory] is its memory when the host reads or writes it, and
    [guest_bounds] the message of an access outside it. *)
Record Guest := mkGuest {
  guest_fuel : result (list byte) unit;
  guest_feed : result (list byte) unit;
  guest_resize : result (list byte) unit;
  guest_metadata : Z -> result (list byte) Z;
  guest_capture : Z -> Z -> Z -> result (list byte) Z;
  guest_memory : list byte;
  guest_bounds : list byte
}.

Record PaneScreen := mkPaneScreen {
  input : Z;
  output : Z;
  metadata : list Z;
  failed : bool
}.

Definition set_failed (s : PaneScreen) : PaneScreen := mkPaneScreen (input s) (output s) (metadata s) true.

Definition set_metadata (s : PaneScreen) (i : nat) (v : Z) : PaneScreen :=
  mkPaneScreen (input s) (output s) (<[i := v]> (metadata s)) (failed s).

Record Capture := mkCapture {
  styled : bool;
  alternate : bool;
  start : Z;
  end_ : Z;
  join : bool;
  trailing : bool
}.

(** A screen operation: what it returns and the screen after it. *)
Definition Shim (A : Type) : Type := PaneScreen -> result (list byte) A * PaneScreen.

Definition shim_bind {A B} (m : Shim A) (k : A -> Shim B) : Shim B :=
  fun s => match m s with (Ok a, s) => k a s | (Err e, s) => (Err e, s) end.

Definition shim_ok {A} (a : A) : Shim A := fun s => (Ok a, s).
Definition shim_lift {A} (r : result (list byte) A) : Shim A := fun s => (r, s).

Declare Scope shim_scope.
Delimit Scope shim_scope with shim.
Notation "'let*' x ':=' m 'in' k" := (shim_bind m (fun x => k)) (at level 200, x pattern, k at level 200) : shim_scope.
Local Open Scope shim_scope.

Definition call {A} (name : string) (answer : result (list byte) A) : Shim A :=
  fun s =>
    if failed s then (Err (bytes_of "pane screen is poisoned"), s)
    else match answer with
         | Ok a => (Ok a, s)
         | Err e => (Err (bytes_of "pane screen " ++ bytes_of name ++ bytes_of ": " ++ e), set_failed s)
         end.

Fixpoint metadata_from (g : Guest) (keys : list nat) : Shim unit :=
  match keys with
  | [] => shim_ok tt
  | key :: keys =>
      let* value := call "metadata" (guest_metadata g (Z.of_nat key)) in
      fun s => metadata_from g keys (set_metadata s key (u16 value))
  end.

Definition update_metadata (g : Guest) : Shim unit := metadata_from g (seq 0 8).

(** [memory.write(store, offset, bytes)] and [memory.read] fail out of bounds. *)
Definition in_memory (g : Guest) (offset len : Z) : bool := offset + len <=? zlen (guest_memory g).

Definition process (g : Guest) (bytes : list byte) : Shim unit :=
  if 65536 <? zlen bytes then shim_lift (Err (bytes_of "screen feed exceeds 64 KiB"))
  else
    let* _ := shim_lift (guest_fuel g) in
    fun s =>
      (if in_memory g (input s) (zlen bytes) then
         let* _ := call "feed" (guest_feed g) in update_metadata g
       else shim_lift (Err (guest_bounds g))) s.

Definition screen_resize (g : Guest) : Shim unit :=
  let* _ := shim_lift (guest_fuel g) in
  let* _ := call "resize" (guest_resize g) in
  update_metadata g.

Definition b2i (b : bool) : Z := if b then 1 else 0.

Definition capture_flags (args : Capture) : Z :=
  Z.lor (Z.lor (Z.lor (b2i (styled args)) (Z.shiftl (b2i (alternate args)) 1)) (Z.shiftl (b2i (join args)) 2))
    (Z.shiftl (b2i (trailing args)) 3).

Definition capture (g : Guest) (args : Capture) : Shim (list byte) :=
  let* _ := shim_lift (guest_fuel g) in
  let* len := call "capture" (guest_capture g (capture_flags args) (start args) (end_ args)) in
  fun s =>
    if len =? -1 then (Err (bytes_of "capture exceeds reply size limit"), s)
    else if negb ((0 <=? len) && (len <=? 131072)) then (Err (bytes_of "invalid screen output length"), set_failed s)
    else if in_memory g (output s) len then (Ok (slice (guest_memory g) (output s) (output s + len)), s)
    else (Err (guest_bounds g), s).

Definition metadata_at (s : PaneScreen) (i : nat) : Z := nth i (metadata s) 0.

Definition cursor_position (s : PaneScreen) : Z * Z := (metadata_at s 1, metadata_at s 0).
Definition hide_cursor (s : PaneScreen) : bool := metadata_at s 2 =? 0.
Definition alternate_screen (s : PaneScreen) : bool := negb (metadata_at s 3 =? 0).
Definition is_poisoned (s : PaneScreen) : bool := failed s.

(** [PaneScreen::new]: what loading and starting the module answer, then the
    offsets the guest tells. *)
Definition PaneScreen_new (g : Guest) (started : result (list byte) unit) (input output : result (list byte) Z)
    : result (list byte) PaneScreen :=
  let? _ := started in
  let? i := input in
  let? o := output in
  match update_metadata g (mkPaneScreen (i mod 2 ^ 64) (o mod 2 ^ 64) (repeat 0 8) false) with
  | (Ok _, s) => Ok s
  | (Err e, _) => Err e
  end.

(** ** The terminal *)

Definition MAX_BUFFER_LINES : Z := 1024.
Definition MAX_BUFFER_CHARS : Z := 128 * MAX_BUFFER_LINES.
Definition READ_BUFFER : Z := 16 * 1024.

Record TerminalHandler := mkTerminalHandler {
  winsize : Z * Z;
  writer : list (list byte);
  initial_cwd : list byte;
  running : bool;
  exit_deadline : option Z;
  buffer : list (list byte);
  buffer_length : Z
}.

Definition default_shell (SHELL : option (list byte)) : list byte :=
  match SHELL with
  | Some (b :: shell) => b :: shell
  | _ => bytes_of "/bin/sh"
  end.

(** What opening a pseudo-terminal and starting the shell and the two threads
    on it answer, in order. *)
Record PtyOs := mkPtyOs {
  openpty : result (list byte) unit;
  spawn_command : list byte -> result (list byte) unit;
  take_writer : result (list byte) unit;
  spawn_input : result (list byte) unit;
  clone_reader : result (list byte) unit;
  spawn_output : result (list byte) unit;
  HTM_INITIAL_CWD : option (list byte);
  home_directory : option (list byte)
}.

Definition or_else {A} (a b : option A) : option A := match a with Some _ => a | None => b end.

Definition start_in_size (os : PtyOs) (cwd : option (list byte)) (cols rows : Z) : result (list byte) TerminalHandler :=
  let? _ := openpty os in
  let initial_cwd := unwrap_or (bytes_of "/") (or_else (or_else cwd (HTM_INITIAL_CWD os)) (home_directory os)) in
  let? _ := spawn_command os initial_cwd in
  let? _ := take_writer os in
  let? _ := spawn_input os in
  let? _ := clone_reader os in
  let? _ := spawn_output os in
  Ok (mkTerminalHandler (cols, rows) [] initial_cwd true None [] 0).

Inductive Recv := Chunk (c : list byte) | Empty | Disconnected.

(** [try_recv] until the batch is full; an exhausted list is an empty channel.
    The bytes and whether the channel has ended. *)
Fixpoint drain_output (answers : list Recv) (collected : list byte) : list byte * bool :=
  if zlen collected <? READ_BUFFER then
    match answers with
    | Chunk c :: answers => drain_output answers (collected ++ c)
    | Disconnected :: _ => (collected, true)
    | Empty :: _ | [] => (collected, false)
    end
  else (collected, false).

Fixpoint pop_lines (buffer : list (list byte)) (len : Z) : list (list byte) * Z :=
  match buffer with
  | front :: rest =>
      if MAX_BUFFER_LINES <? zlen buffer then pop_lines rest (len - zlen front) else (buffer, len)
  | [] => ([], len)
  end.

Fixpoint pop_chars (buffer : list (list byte)) (len : Z) : list (list byte) * Z :=
  if MAX_BUFFER_CHARS <? len then
    match buffer with
    | front :: rest => pop_chars rest (len - zlen front)
    | [] => ([], len)
    end
  else (buffer, len).

(** The last line of the buffer takes the first token. *)
Fixpoint extend_lines (buffer tokens : list (list byte)) : list (list byte) :=
  match buffer with
  | [] => tokens
  | [last] => match tokens with first :: tokens => (last ++ first) :: tokens | [] => [last] end
  | line :: buffer => line :: extend_lines buffer tokens
  end.

Fixpoint total_len (tokens : list (list byte)) : Z :=
  match tokens with
  | [] => 0
  | token :: tokens => zlen token + total_len tokens
  end.

Definition buffer_new_chars (h : TerminalHandler) (chunk : list byte) : TerminalHandler :=
  let tokens := split_by (beq LF) (from_utf8_lossy chunk) in
  let '(buf, len) := pop_lines (extend_lines (buffer h) tokens) (buffer_length h + total_len tokens) in
  let '(buf, len) := pop_chars buf len in
  mkTerminalHandler (winsize h) (writer h) (initial_cwd h) (running h) (exit_deadline h) buf len.

(** [exited]: whether the child has been reaped; the two readings of the
    clock, in milliseconds. *)
Definition poll_user_terminal (h : TerminalHandler) (answers : list Recv) (exited : bool) (now now' : Z)
    : list byte * TerminalHandler :=
  if negb (running h) then ([], h)
  else
    let (collected, eof) := drain_output answers [] in
    let deadline :=
      match exit_deadline h with Some d => Some d | None => if exited then Some (now + 250) else None end in
    let running' := match deadline with Some d => negb (eof || (d <=? now')) | None => true end in
    let h := mkTerminalHandler (winsize h) (writer h) (initial_cwd h) running' deadline (buffer h) (buffer_length h) in
    (collected, match collected with [] => h | _ => buffer_new_chars h collected end).

(** [sent]: what the bounded channel to the writing thread answers. *)
Definition append_data (h : TerminalHandler) (data : list byte) (sent : result (list byte) unit)
    : result (list byte) unit * TerminalHandler :=
  if 64 * 1024 <? zlen data then (Err (bytes_of "pane input too large"), h)
  else match sent with
       | Ok _ =>
           (Ok tt, mkTerminalHandler (winsize h) (writer h ++ [data]) (initial_cwd h) (running h) (exit_deadline h)
                     (buffer h) (buffer_length h))
       | Err e => (Err e, h)
       end.

Definition update_terminal_size (h : TerminalHandler) (cols rows : Z) : TerminalHandler :=
  mkTerminalHandler (u16 cols, u16 rows) (writer h) (initial_cwd h) (running h) (exit_deadline h) (buffer h)
    (buffer_length h).

Definition is_running (h : TerminalHandler) : bool := running h.

(** The working directory on Linux: what the link of the child's entry under
    [/proc] says, when there is one. *)
Definition cwd (h : TerminalHandler) (proc_cwd : option (list byte)) : list byte :=
  unwrap_or (initial_cwd h) proc_cwd.

Definition trim_newlines (l : list byte) : list byte := rev (drop_while (beq LF) (rev l)).

(** [foreground_command] on Linux: [comm] reads an entry of [/proc]. *)
Definition command_name (comm : Z -> option (list byte)) (pid : Z) : list byte :=
  let value := trim_newlines (unwrap_or [] (comm pid)) in
  if existsb (fun name => list_eqb value (bytes_of name)) ["pgrep"; "pkill"; "htmd"; "htm"]%string then [] else value.

Definition foreground_command (comm : Z -> option (list byte)) (leader child : option Z) : list byte :=
  let fallback := match child with Some pid => command_name comm pid | None => [] end in
  match leader with
  | Some pid =>
      if 0 <? pid then match command_name comm pid with [] => fallback | name => name end else fallback
  | None => fallback
  end.

Definition stop (h : TerminalHandler) : TerminalHandler :=
  mkTerminalHandler (winsize h) (writer h) (initial_cwd h) false (exit_deadline h) (buffer h) (buffer_length h).

(** ** The budget holds *)

(** The panes that live, each with its budget, and the daemon's total. *)
Inductive budget_step : Z * gmap Z Budget -> Z * gmap Z Budget -> Prop :=
| step_new total live id : live !! id = None -> budget_step (total, live) (total, <[id := Budget_default]> live)
| step_grow total live id b desired maximum ok total' b' :
    live !! id = Some b -> 0 <= desired -> memory_growing total b desired maximum = (ok, total', b') ->
    budget_step (total, live) (total', <[id := b']> live)
| step_drop total live id b :
    live !! id = Some b -> budget_step (total, live) (release total b, delete id live).

Definition all_reserved (live : gmap Z Budget) : Z := map_fold (fun _ b acc => reserved b + acc) 0 live.

Definition budget_inv (st : Z * gmap Z Budget) : Prop :=
  fst st = all_reserved (snd st) /\ 0 <= fst st <= DAEMON_MEMORY /\
  map_Forall (fun _ b => 0 <= reserved b <= PANE_MEMORY) (snd st).

Lemma all_reserved_insert live id b :
  live !! id = None -> all_reserved (<[id := b]> live) = reserved b + all_reserved live.
Proof. intros H. unfold all_reserved. rewrite map_fold_insert_L; [done|intros; lia|done]. Qed.

Lemma all_reserved_delete live id b :
  live !! id = Some b -> all_reserved live = reserved b + all_reserved (delete id live).
Proof.
  intros H. rewrite <- (insert_delete_id live id b H) at 1. apply all_reserved_insert, lookup_delete_eq.
Qed.

Lemma all_reserved_replace live id b b' :
  live !! id = Some b -> all_reserved (<[id := b']> live) = all_reserved live - reserved b + reserved b'.
Proof.
  intros H. rewrite (all_reserved_delete _ _ _ H), <- (insert_delete_eq live id b'), all_reserved_insert; [lia|].
  apply lookup_delete_eq.
Qed.

Lemma all_reserved_nonneg live :
  map_Forall (fun _ b => 0 <= reserved b) live -> 0 <= all_reserved live.
Proof.
  induction live as [|id b live Hid IH] using map_ind; [done|].
  rewrite map_Forall_insert by done. intros [Hb Hl].
  rewrite all_reserved_insert by done. specialize (IH Hl). lia.
Qed.

Lemma budget_step_inv st st' : budget_inv st -> budget_step st st' -> budget_inv st'.
Proof.
  intros (Htot & Hle & Hall). destruct 1 as [total live id H|total live id b desired maximum ok total' b' H Hd Hg|total live id b H];
    cbn [fst snd] in *; unfold budget_inv; cbn [fst snd].
  - rewrite all_reserved_insert by done. cbn. split_and!; [lia..|]. apply map_Forall_insert_2; [done|done].
  - pose proof (map_Forall_lookup_1 _ _ _ _ Hall H) as Hb. cbn in Hb. unfold memory_growing in Hg.
    destruct (Z.ltb_spec PANE_MEMORY desired) as [|Hp]; cbn [orb] in Hg; [simplify_eq; by rewrite insert_id|].
    destruct (is_some_and _ _); [simplify_eq; by rewrite insert_id|].
    destruct (usize_checked_add _ _) as [n|] eqn:Hn; [|simplify_eq; by rewrite insert_id].
    destruct (Z.leb_spec n DAEMON_MEMORY); [|simplify_eq; by rewrite insert_id]. simplify_eq.
    unfold usize_checked_add in Hn. destruct (_ <=? _); [|done]. injection Hn as <-. unfold sat_sub in *.
    rewrite (all_reserved_replace _ _ b) by done. cbn. split_and!; [lia..|].
    apply map_Forall_insert_2; [cbn; lia|done].
  - rewrite (all_reserved_delete _ _ _ H) in Htot. unfold release.
    pose proof (map_Forall_lookup_1 _ _ _ _ Hall H) as Hb. cbn in Hb.
    assert (Hnn : 0 <= all_reserved (delete id live)).
    { apply all_reserved_nonneg. apply map_Forall_delete. intros i x Hx. apply (Hall i x Hx). }
    split_and!; [lia..|]. by apply map_Forall_delete.
Qed.

(** Whatever the guests ask for, and whichever panes come and go, the shared
    total is the sum of what the live panes hold; no pane holds more than its
    share and the daemon never more than its own. *)
Theorem guest_memory_bounded st :
  rtc budget_step (0, ∅) st ->
  fst st = all_reserved (snd st) /\ 0 <= fst st <= DAEMON_MEMORY /\
  map_Forall (fun _ b => 0 <= reserved b <= PANE_MEMORY) (snd st).
Proof.
  intros H. change (budget_inv st). assert (H0 : budget_inv (0, ∅)) by done. revert H0.
  induction H as [|x y z Hxy _ IH]; [done|]. intros Hx. apply IH. by apply (budget_step_inv x).
Qed.

Lemma guest_memory_bounded_witness :
  let st := (PANE_MEMORY, <[7 := mkBudget PANE_MEMORY]> (<[7 := Budget_default]> ∅)) in
  rtc budget_step (0, ∅) st /\ fst st <= DAEMON_MEMORY.
Proof.
  cbn zeta. match goal with |- ?A /\ _ => assert (H : A) end.
  - eapply rtc_l; [by apply (step_new 0 ∅ 7)|]. apply rtc_once.
    by apply (step_grow 0 _ 7 Budget_default PANE_MEMORY None true).
  - split; [exact H|]. apply (guest_memory_bounded _ H).
Defined.

(** ** A trapped screen is inert *)

Lemma call_failed {A} name (answer : result (list byte) A) s :
  failed s = true -> call name answer s = (Err (bytes_of "pane screen is poisoned"), s).
Proof. intros H. unfold call. by rewrite H. Qed.

Lemma call_traps {A} name (answer : result (list byte) A) s e s' :
  call name answer s = (Err e, s') -> failed s' = true.
Proof. unfold call. destruct (failed s) eqn:H; [by intros [= _ <-]|]. destruct answer; [done|]. by intros [= _ <-]. Qed.

Lemma metadata_traps g keys s e s' : metadata_from g keys s = (Err e, s') -> failed s' = true.
Proof.
  revert s. induction keys as [|key keys IH]; intros s; cbn [metadata_from]; [done|]. unfold shim_bind.
  destruct (call _ _ s) as [[v|e'] s1] eqn:Hc; [apply IH|]. intros [= <- <-]. by eapply call_traps.
Qed.

(** A poisoned screen refuses every operation and changes no more; an
    operation the guest traps in poisons it; and what is captured fits the
    reply limit. *)
Theorem poisoned_screen_is_inert g s :
  (failed s = true -> forall bytes args,
     snd (process g bytes s) = s /\ is_ok (fst (process g bytes s)) = false /\
     snd (screen_resize g s) = s /\ is_ok (fst (screen_resize g s)) = false /\
     snd (capture g args s) = s /\ is_ok (fst (capture g args s)) = false) /\
  (guest_fuel g = Ok tt -> forall e s', screen_resize g s = (Err e, s') -> failed s' = true) /\
  (0 <= output s -> forall args bytes s', capture g args s = (Ok bytes, s') -> zlen bytes <= 131072).
Proof.
  split_and!.
  - intros Hf bytes args. unfold process, screen_resize, capture, shim_bind, shim_lift.
    destruct (guest_fuel g), (65536 <? zlen bytes), (in_memory g (input s) (zlen bytes)); cbn [fst snd];
      rewrite ?call_failed by done; done.
  - intros Hfuel e s' H. unfold screen_resize, shim_bind, shim_lift in H. rewrite Hfuel in H.
    destruct (call _ _ s) as [[v|e'] s1] eqn:Hc.
    + by apply metadata_traps in H.
    + injection H as <- <-. by eapply call_traps.
  - intros Ho args bytes s' H. unfold capture, shim_bind, shim_lift in H. destruct (guest_fuel g); [|done].
    destruct (call _ _ s) as [[len|e'] s1] eqn:Hc; [|done].
    assert (s1 = s) as -> by (unfold call in Hc; destruct (failed s); [done|];
      destruct (guest_capture g _ _ _); congruence).
    destruct (len =? -1); [done|]. destruct (Z.leb_spec 0 len); [|done]. destruct (Z.leb_spec len 131072); [|done].
    cbn [andb negb] in H. unfold in_memory in H. destruct (Z.leb_spec (output s + len) (zlen (guest_memory g))); [|done].
    injection H as <- _. rewrite zlen_slice; lia.
Qed.

Lemma poisoned_screen_is_inert_witness :
  let g := mkGuest (Ok tt) (Ok tt) (Err (bytes_of "unreachable")) (fun _ => Ok 0) (fun _ _ _ => Ok 4)
             (repeat "."%byte 16) (bytes_of "bounds") in
  let s := mkPaneScreen 0 8 (repeat 0 8) false in
  failed (snd (screen_resize g s)) = true.
Proof.
  cbn zeta.
  match goal with |- failed (snd (screen_resize ?g ?s)) = true =>
    destruct (poisoned_screen_is_inert g s) as (_ & H & _) end.
  eapply H; [reflexivity|]. vm_compute. reflexivity.
Defined.

(** ** The history is bounded and recent *)

Lemma total_len_app a b : total_len (a ++ b) = total_len a + total_len b.
Proof. induction a as [|x a IH]; cbn; [done|]. rewrite IH. lia. Qed.

Lemma total_len_nonneg l : 0 <= total_len l.
Proof. induction l as [|x l IH]; cbn; [done|]. pose proof (zlen_nonneg x). lia. Qed.

Lemma pop_lines_spec b len :
  exists d, b = d ++ fst (pop_lines b len) /\ snd (pop_lines b len) = len - total_len d /\
    zlen (fst (pop_lines b len)) <= MAX_BUFFER_LINES.
Proof.
  revert len. induction b as [|x b IH]; intros len; cbn [pop_lines].
  { exists []. cbn. split_and!; [done|lia|done]. }
  destruct (Z.ltb_spec MAX_BUFFER_LINES (zlen (x :: b))).
  - destruct (IH (len - zlen x)) as (d & Hd & Hl & Hm). exists (x :: d). cbn [app total_len].
    split_and!; [by rewrite <- Hd|lia|done].
  - exists []. cbn. split_and!; [done|lia|done].
Qed.

Lemma pop_chars_spec b :
  exists d, b = d ++ fst (pop_chars b (total_len b)) /\
    snd (pop_chars b (total_len b)) = total_len (fst (pop_chars b (total_len b))) /\
    snd (pop_chars b (total_len b)) <= MAX_BUFFER_CHARS.
Proof.
  induction b as [|x b IH]; [exists []; by vm_compute|]. cbn [pop_chars].
  destruct (Z.ltb_spec MAX_BUFFER_CHARS (total_len (x :: b))); [|exists []; by cbn [app fst snd]].
  replace (total_len (x :: b) - zlen x) with (total_len b) by (cbn; lia).
  destruct IH as (d & Hd & Hl & Hm). exists (x :: d). split_and!; [|done..]. cbn [app]. by rewrite <- Hd.
Qed.

Definition unlines (l : list (list byte)) : list byte := joined [LF] l.

Lemma unlines_cons x y l : unlines (x :: y :: l) = x ++ LF :: unlines (y :: l).
Proof. done. Qed.

Lemma unlines_split text : unlines (split_by (beq LF) text) = text /\ split_by (beq LF) text <> [].
Proof.
  induction text as [|b text [IH Hne]]; [done|]. cbn [split_by].
  destruct (split_by (beq LF) text) as [|p ps] eqn:Hs; [done|].
  destruct (beq_spec LF b) as [<-|Hb]; (split; [|done]).
  - rewrite unlines_cons, IH. done.
  - destruct ps as [|q ps]; [cbn in *; by rewrite IH|]. rewrite unlines_cons in *. cbn [app]. by rewrite IH.
Qed.

Lemma unlines_suffix d b : exists pre, unlines (d ++ b) = pre ++ unlines b.
Proof.
  induction d as [|x d [pre IH]]; [by exists []|]. cbn [app]. destruct (d ++ b) as [|y l].
  - exists x. cbn in *. destruct pre, (unlines b); by rewrite ?app_nil_r.
  - rewrite unlines_cons, IH. exists (x ++ LF :: pre). by rewrite <- app_assoc.
Qed.

Lemma extend_lines_spec b tokens :
  tokens <> [] ->
  unlines (extend_lines b tokens) = unlines b ++ unlines tokens /\
  total_len (extend_lines b tokens) = total_len b + total_len tokens /\ extend_lines b tokens <> [].
Proof.
  intros Ht. induction b as [|x b IH]; [done|]. destruct b as [|y b].
  - destruct tokens as [|t tokens]; [done|]. cbn [extend_lines]. split_and!; [|cbn; rewrite zlen_app; lia|done].
    destruct tokens; [done|]. rewrite !unlines_cons. by rewrite <- app_assoc.
  - change (extend_lines (x :: y :: b) tokens) with (x :: extend_lines (y :: b) tokens). destruct IH as (Hu & Hl & Hne). split_and!; [| |done].
    + destruct (extend_lines (y :: b) tokens) as [|z l]; [done|]. rewrite !unlines_cons, Hu. by rewrite <- app_assoc.
    + cbn [total_len]. rewrite Hl. cbn [total_len]. lia.
Qed.

(** The diagnostic history counts what it holds, stays within its two bounds,
    and is the most recent part of the text. *)
Theorem history_bounded_and_recent h chunk :
  buffer_length h = total_len (buffer h) ->
  let h' := buffer_new_chars h chunk in
  buffer_length h' = total_len (buffer h') /\ zlen (buffer h') <= MAX_BUFFER_LINES /\
  buffer_length h' <= MAX_BUFFER_CHARS /\
  exists old, unlines (buffer h) ++ from_utf8_lossy chunk = old ++ unlines (buffer h').
Proof.
  intros Hlen. cbn zeta. unfold buffer_new_chars.
  destruct (unlines_split (from_utf8_lossy chunk)) as [Hsplit Hne]. set (tokens := split_by _ _) in *.
  destruct (extend_lines_spec (buffer h) tokens Hne) as (Hu & Hl & _).
  pose proof (pop_lines_spec (extend_lines (buffer h) tokens) (buffer_length h + total_len tokens)) as (d & Hd & Hpl & Hm).
  destruct (pop_lines _ _) as [b1 l1]. cbn [fst snd] in *.
  assert (l1 = total_len b1) as -> by (rewrite Hd, total_len_app in Hl; lia).
  pose proof (pop_chars_spec b1) as (d2 & Hd2 & Hpl2 & Hm2). destruct (pop_chars b1 _) as [b2 l2]. cbn [fst snd] in *.
  cbn [buffer buffer_length]. split_and!; [done| |lia|].
  - rewrite Hd2, zlen_app in Hm. pose proof (zlen_nonneg d2). lia.
  - rewrite <- Hsplit, <- Hu, Hd, Hd2, app_assoc. apply unlines_suffix.
Qed.

Lemma history_bounded_and_recent_witness :
  let h := mkTerminalHandler (80, 24) [] (bytes_of "/") true None [bytes_of "abc"] 3 in
  buffer (buffer_new_chars h (bytes_of "def" ++ [LF] ++ bytes_of "ghi")) = [bytes_of "abcdef"; bytes_of "ghi"] /\
  buffer_length (buffer_new_chars h (bytes_of "def" ++ [LF] ++ bytes_of "ghi")) <= MAX_BUFFER_CHARS.
Proof.
  cbn zeta. split; [reflexivity|].
  apply (history_bounded_and_recent (mkTerminalHandler (80, 24) [] (bytes_of "/") true None [bytes_of "abc"] 3)).
  reflexivity.
Defined.
