(* ===== verification/HtmState.v ===== *)
(** * HtmState: [crates/et-htm/src/state.rs]

    The daemon's sessions, windows and panes. An operation takes the state to
    its answer and the state after it: a value, an error it returns, or a
    panic (an index or an [unwrap] with nothing there), which ends the daemon
    and every shell in it. What the panes' guests, terminals and the operating
    system answer during an operation is the [Host]. *)

From Stdlib Require Import String.
From stdpp Require Import gmap sorting.
From S2P Require Import Prelude Bytes HtmLayout HtmFraming HtmPane.

(** ** Data *)

Record Pane := mkPane {
  terminal : TerminalHandler;
  screen : PaneScreen;
  rect : Rect;
  title : list byte
}.

Record Window := mkWindow {
  session : Z;
  window_name : list byte;
  order : Z;
  automatic_rename : bool;
  layout : Layout;
  window_rect : Rect;
  window_active : Z;
  zoom : option Z
}.

Record Session := mkSession {
  session_name : list byte;
  session_active : Z;
  session_windows : list Z
}.

Record MultiplexerState := mkState {
  state_panes : gmap Z Pane;
  windows : gmap Z Window;
  sessions : gmap Z Session;
  active : Z;
  client_size : Z * Z;
  options : gmap (byte * Z * list byte) (list byte);
  buffers : gmap (list byte) (list byte);
  notifications : list byte;
  pane_gates : gmap Z bool;
  next_pane : Z;
  next_window : Z;
  next_session : Z;
  initial_attach_sent : bool
}.

Definition with_panes f s := mkState (f (state_panes s)) (windows s) (sessions s) (active s) (client_size s) (options s)
  (buffers s) (notifications s) (pane_gates s) (next_pane s) (next_window s) (next_session s) (initial_attach_sent s).
Definition with_windows f s := mkState (state_panes s) (f (windows s)) (sessions s) (active s) (client_size s) (options s)
  (buffers s) (notifications s) (pane_gates s) (next_pane s) (next_window s) (next_session s) (initial_attach_sent s).
Definition with_sessions f s := mkState (state_panes s) (windows s) (f (sessions s)) (active s) (client_size s) (options s)
  (buffers s) (notifications s) (pane_gates s) (next_pane s) (next_window s) (next_session s) (initial_attach_sent s).
Definition with_active a s := mkState (state_panes s) (windows s) (sessions s) a (client_size s) (options s)
  (buffers s) (notifications s) (pane_gates s) (next_pane s) (next_window s) (next_session s) (initial_attach_sent s).
Definition with_client_size c s := mkState (state_panes s) (windows s) (sessions s) (active s) c (options s)
  (buffers s) (notifications s) (pane_gates s) (next_pane s) (next_window s) (next_session s) (initial_attach_sent s).
Definition with_options f s := mkState (state_panes s) (windows s) (sessions s) (active s) (client_size s) (f (options s))
  (buffers s) (notifications s) (pane_gates s) (next_pane s) (next_window s) (next_session s) (initial_attach_sent s).
Definition with_buffers f s := mkState (state_panes s) (windows s) (sessions s) (active s) (client_size s) (options s)
  (f (buffers s)) (notifications s) (pane_gates s) (next_pane s) (next_window s) (next_session s) (initial_attach_sent s).
Definition with_notifications f s := mkState (state_panes s) (windows s) (sessions s) (active s) (client_size s)
  (options s) (buffers s) (f (notifications s)) (pane_gates s) (next_pane s) (next_window s) (next_session s)
  (initial_attach_sent s).
Definition with_gates f s := mkState (state_panes s) (windows s) (sessions s) (active s) (client_size s) (options s)
  (buffers s) (notifications s) (f (pane_gates s)) (next_pane s) (next_window s) (next_session s) (initial_attach_sent s).
Definition with_next_pane n s := mkState (state_panes s) (windows s) (sessions s) (active s) (client_size s) (options s)
  (buffers s) (notifications s) (pane_gates s) n (next_window s) (next_session s) (initial_attach_sent s).
Definition with_next_window n s := mkState (state_panes s) (windows s) (sessions s) (active s) (client_size s) (options s)
  (buffers s) (notifications s) (pane_gates s) (next_pane s) n (next_session s) (initial_attach_sent s).
Definition with_next_session n s := mkState (state_panes s) (windows s) (sessions s) (active s) (client_size s)
  (options s) (buffers s) (notifications s) (pane_gates s) (next_pane s) (next_window s) n (initial_attach_sent s).
Definition with_attach_sent b s := mkState (state_panes s) (windows s) (sessions s) (active s) (client_size s)
  (options s) (buffers s) (notifications s) (pane_gates s) (next_pane s) (next_window s) (next_session s) b.

(** What the outside answers while one operation runs; by pane where it
    concerns one. [feed_of] also by the piece of output fed. *)
Record Host := mkHost {
  new_guest : Guest;
  guest_started : result (list byte) unit;
  guest_input : result (list byte) Z;
  guest_output : result (list byte) Z;
  pty : PtyOs;
  guest_of : Z -> Guest;
  feed_of : Z -> nat -> Guest;
  proc_cwd : Z -> option (list byte);
  comm : Z -> option (list byte);
  leader : Z -> option Z;
  process_id : Z -> option Z;
  sent : Z -> result (list byte) unit;
  received : Z -> list Recv;
  reaped : Z -> bool;
  now : Z -> Z;
  now' : Z -> Z
}.

(** ** Operations *)

Definition M (A : Type) : Type := MultiplexerState -> result Failure A * MultiplexerState.

Definition ret {A} (a : A) : M A := fun s => (Ok a, s).
Definition bind {A B} (m : M A) (k : A -> M B) : M B :=
  fun s => match m s with (Ok a, s) => k a s | (Err e, s) => (Err e, s) end.
Definition fail {A} (message : list byte) : M A := fun s => (Err (Fails message), s).
Definition modify (f : MultiplexerState -> MultiplexerState) : M unit := fun s => (Ok tt, f s).
(** A method that only reads. *)
Definition reads {A} (f : MultiplexerState -> result Failure A) : M A := fun s => (f s, s).
Definition gets {A} (f : MultiplexerState -> A) : M A := fun s => (Ok (f s), s).

Declare Scope state_scope.
Delimit Scope state_scope with state.
Notation "'let*' x ':=' m 'in' k" := (bind m (fun x => k)) (at level 200, x pattern, k at level 200) : state_scope.
Notation "m ';;;' k" := (bind m (fun _ => k)) (at level 199, right associativity) : state_scope.
Open Scope state_scope.

(** [map[&key]], and [get_mut(&key).unwrap()]. *)
Definition index {A} (m : gmap Z A) (key : Z) : result Failure A :=
  match m !! key with Some a => Ok a | None => Err Panicked end.

Definition pane_at (id : Z) : M Pane := reads (fun s => index (state_panes s) id).
Definition window_at (id : Z) : M Window := reads (fun s => index (windows s) id).
Definition session_at (id : Z) : M Session := reads (fun s => index (sessions s) id).
Definition put_pane (id : Z) (p : Pane) : M unit := modify (with_panes (fun m => <[id := p]> m)).
Definition put_window (id : Z) (w : Window) : M unit := modify (with_windows (fun m => <[id := w]> m)).
Definition put_session (id : Z) (v : Session) : M unit := modify (with_sessions (fun m => <[id := v]> m)).

(** The keys of a [BTreeMap], in order. *)
Definition keys {A} (m : gmap Z A) : list Z := merge_sort Z.le (map fst (map_to_list m)).

(** [iter().find(f)] on a [BTreeMap]. *)
Definition find_key {A} (f : A -> bool) (m : gmap Z A) : option Z :=
  find (fun k => match m !! k with Some a => f a | None => false end) (keys m).

Definition wrap32 (z : Z) : Z := z mod 2 ^ 32.

Fixpoint for_each {A} (l : list A) (f : A -> M unit) : M unit :=
  match l with
  | [] => ret tt
  | a :: l => f a;;; for_each l f
  end.

Definition notify (text : list byte) : M unit := modify (with_notifications (fun n => n ++ text)).

Definition text (parts : list (list byte)) : list byte := concat parts.
Definition nl : list byte := [LF].

(** *** Targets *)

Definition take_while (f : byte -> bool) (l : list byte) : list byte :=
  match position (fun b => negb (f b)) l with Some i => take i l | None => l end.

Definition strip_sign (l : list byte) : list byte :=
  match l with b :: rest => if beq b "-" || beq b "+" then rest else l | [] => [] end.

Definition numeric_id (t : list byte) : result Failure Z :=
  let t := trim_ascii_start t in
  let negative := starts_with (bytes_of "-") t in
  let t := take_while is_ascii_digit (strip_sign t) in
  match from_str_radix 10 u64_max t with
  | None => Err (Fails (bytes_of "invalid target id"))
  | Some value => Ok (wrap32 (if negative then (- value) mod 2 ^ 64 else value))
  end.

Definition active_window (s : MultiplexerState) : Z :=
  match sessions s !! active s with Some v => session_active v | None => 0 end.

Definition active_pane (s : MultiplexerState) : Z :=
  match windows s !! active_window s with Some w => window_active w | None => 0 end.

Definition or_missing (known : bool) (id : Z) (message : list byte) : result Failure Z :=
  if known then Ok id else Err (Fails message).

Definition has {A} (m : gmap Z A) (k : Z) : bool := bool_decide (is_Some (m !! k)).

Definition parse_session_target (target : option (list byte)) (s : MultiplexerState) : result Failure Z :=
  let t := unwrap_or [] target in
  match strip_prefix (bytes_of "$") t with
  | Some n => numeric_id n
  | None => Ok (unwrap_or (active s) (find_key (fun v => list_eqb (session_name v) t) (sessions s)))
  end.

Definition session_target (target : option (list byte)) (s : MultiplexerState) : result Failure Z :=
  let? id := parse_session_target target s in
  or_missing (has (sessions s) id) id (text [bytes_of "can't find session: $"; dec id]).

Definition window_of (pane : Z) (s : MultiplexerState) : result Failure Z :=
  match find_key (fun w => HtmLayout.contains (layout w) pane) (windows s) with
  | Some id => Ok id
  | None => Err (Fails (text [bytes_of "can't find pane: %"; dec pane]))
  end.

Definition parse_pane_target (target : option (list byte)) (s : MultiplexerState) : result Failure Z :=
  let t := unwrap_or [] target in
  match t with
  | [] => Ok (active_pane s)
  | _ =>
      match strip_prefix (bytes_of "%") t, strip_prefix (bytes_of "@") t with
      | Some n, _ => numeric_id n
      | None, Some n =>
          let? id := numeric_id n in
          match windows s !! id with
          | Some w => Ok (window_active w)
          | None => Err (Fails (bytes_of "can't find window"))
          end
      | None, None =>
          let? n := numeric_id t in
          Ok (if has (state_panes s) n then n else active_pane s)
      end
  end.

Definition pane_target (target : option (list byte)) (s : MultiplexerState) : result Failure Z :=
  let? id := parse_pane_target target s in
  or_missing (has (state_panes s) id) id (text [bytes_of "can't find pane: %"; dec id]).

Definition parse_window_target (target : option (list byte)) (s : MultiplexerState) : result Failure Z :=
  let t := unwrap_or [] target in
  match split_once "@" t with
  | Some (_, (_ :: _) as n) => numeric_id n
  | _ =>
      if starts_with (bytes_of "%") t then let? p := pane_target (Some t) s in window_of p s
      else Ok (active_window s)
  end.

Definition window_target (target : option (list byte)) (s : MultiplexerState) : result Failure Z :=
  let? id := parse_window_target target s in
  or_missing (has (windows s) id) id (text [bytes_of "can't find window: @"; dec id]).

(** *** Creation *)

Section host.
Context (host : Host).

Definition terminal_cwd (id : Z) (p : Pane) : list byte := cwd (terminal p) (proc_cwd host id).

Definition spawn (dir : option (list byte)) : M Z :=
  let* count := gets (fun s => Z.of_nat (size (state_panes s))) in
  if 64 <=? count then fail (bytes_of "pane limit reached")
  else
    let* size := gets client_size in
    let (cols, rows) := size in
    let* scr := reads (fun _ => map_err Fails
      (PaneScreen_new (new_guest host) (guest_started host) (guest_input host) (guest_output host))) in
    let* term := reads (fun _ => map_err Fails (start_in_size (pty host) dir cols rows)) in
    let* id := gets next_pane in
    modify (with_next_pane (wrap32 (id + 1)));;;
    put_pane id (mkPane term scr (mkRect cols rows 0 0) []);;;
    ret id.

(** One rectangle: the screen first, and the terminal when the screen took it. *)
Definition place (id : Z) (r : Rect) : M unit :=
  let* p := pane_at id in
  match screen_resize (guest_of host id) (screen p) with
  | (Err _, scr) => put_pane id (mkPane (terminal p) scr r (title p))
  | (Ok _, scr) => put_pane id (mkPane (update_terminal_size (terminal p) (cols r) (rows r)) scr r (title p))
  end.

Definition resize (id : Z) : M unit :=
  let* w := window_at id in
  let placed :=
    match zoom w with
    | Some p => [(p, window_rect w)]
    | None => fst (geometry (layout w) (window_rect w))
    end in
  for_each placed (fun '(id, r) => place id r).

Definition rect_of (m : gmap Z Pane) (id : Z) : result Failure Rect := let? p := index m id in Ok (rect p).

Definition window_layout (id : Z) (visible : bool) (s : MultiplexerState) : result Failure (list byte) :=
  let? w := index (windows s) id in
  match (if visible then zoom w else None) with
  | Some pane => Ok (checksum (rect_text (mkRect (cols (window_rect w)) (rows (window_rect w)) 0 0) ++ bytes_of "," ++ dec pane))
  | None => let? body := dump (rect_of (state_panes s)) (layout w) in Ok (checksum body)
  end.

Definition window_flags (id : Z) (w : Window) (s : MultiplexerState) : result Failure (list byte) :=
  let? v := index (sessions s) (session w) in
  Ok ((if session_active v =? id then bytes_of "*" else []) ++ (if zoom w then bytes_of "Z" else [])).

Definition layout_changed (id : Z) : M unit :=
  let* w := window_at id in
  let* flags := reads (window_flags id w) in
  let* whole := reads (window_layout id false) in
  let* visible := reads (window_layout id true) in
  notify (text [bytes_of "%layout-change @"; dec id; bytes_of " "; whole; bytes_of " "; visible; bytes_of " "; flags; nl]).

Definition window_from_pane (pane sid : Z) (name : option (list byte)) : M Z :=
  let* id := gets next_window in
  modify (with_next_window (wrap32 (id + 1)));;;
  let* v := session_at sid in
  let order := zlen (session_windows v) in
  let* size := gets client_size in
  let (cols, rows) := size in
  let name := match name with Some (_ :: _ as n) => n | _ => dec order end in
  put_window id (mkWindow sid name order true (HtmLayout.Pane pane) (mkRect cols rows 0 0) pane None);;;
  put_session sid (mkSession (session_name v) id (session_windows v ++ [id]));;;
  resize id;;;
  (if 0 <? order then notify (text [bytes_of "%session-window-changed $"; dec sid; bytes_of " @"; dec id; nl]) else ret tt);;;
  notify (text [bytes_of "%window-add @"; dec id; nl]);;;
  ret id.

Definition non_empty (l : option (list byte)) : option (list byte) := match l with Some [] => None | _ => l end.

Definition new_window (name dir : option (list byte)) : M Z :=
  let* dir :=
    match non_empty dir with
    | Some d => ret (Some d)
    | None =>
        let* sid := gets active in
        let* v := session_at sid in
        match session_windows v with
        | [] => ret None
        | _ => gets (fun s => (fun p => terminal_cwd (active_pane s) p) <$> state_panes s !! active_pane s)
        end
    end in
  let* p := spawn dir in
  let* sid := gets active in
  window_from_pane p sid name.

Definition new_session (name : list byte) : M Z :=
  let* count := gets (fun s => Z.of_nat (size (sessions s))) in
  if 32 <=? count then fail (bytes_of "session limit reached")
  else
    let* id := gets next_session in
    modify (with_next_session (wrap32 (id + 1)));;;
    put_session id (mkSession (match name with [] => dec id | _ => name end) 0 []);;;
    let* previous := gets active in
    modify (with_active id);;;
    fun s =>
      let (created, s) := new_window None None s in
      let s := with_active (if previous =? 0 then id else previous) s in
      match created with
      | Err (Fails e) => (Err (Fails e), with_sessions (delete id) s)
      | Err Panicked => (Err Panicked, s)
      | Ok _ => (notify (bytes_of "%sessions-changed" ++ nl);;; ret id) s
      end.

Definition empty_state : MultiplexerState :=
  mkState ∅ ∅ ∅ 0 (80, 24) ∅ ∅ [] ∅ 0 0 1 false.

(** [MultiplexerState::new] *)
Definition MultiplexerState_new : result Failure MultiplexerState :=
  match new_session (bytes_of "htm") empty_state with
  | (Ok _, s) => Ok (with_notifications (fun _ => []) s)
  | (Err e, _) => Err e
  end.

Definition split (source : Z) (horizontal : bool) (dir : option (list byte)) : M Z :=
  let* w := reads (window_of source) in
  let* dir :=
    match non_empty dir with
    | Some d => ret d
    | None => let* p := pane_at source in ret (terminal_cwd source p)
    end in
  let* p := spawn (Some dir) in
  let* win := window_at w in
  let* l := reads (fun _ => insert (layout win) source p horizontal None) in
  put_window w (mkWindow (session win) (window_name win) (order win) (automatic_rename win) l (window_rect win) p (zoom win));;;
  resize w;;;
  notify (text [bytes_of "%window-pane-changed @"; dec w; bytes_of " %"; dec p; nl]);;;
  layout_changed w;;;
  ret p.

(** *** Sizes *)

Definition set_layout (w : Window) (l : Layout) : Window :=
  mkWindow (session w) (window_name w) (order w) (automatic_rename w) l (window_rect w) (window_active w) (zoom w).
Definition set_window_rect (w : Window) (r : Rect) : Window :=
  mkWindow (session w) (window_name w) (order w) (automatic_rename w) (layout w) r (window_active w) (zoom w).
Definition set_focus (w : Window) (a : Z) (z : option Z) : Window :=
  mkWindow (session w) (window_name w) (order w) (automatic_rename w) (layout w) (window_rect w) a z.
Definition set_name (w : Window) (name : list byte) (automatic : bool) : Window :=
  mkWindow (session w) name (order w) automatic (layout w) (window_rect w) (window_active w) (zoom w).
Definition set_home (w : Window) (sid o : Z) : Window :=
  mkWindow sid (window_name w) o (automatic_rename w) (layout w) (window_rect w) (window_active w) (zoom w).

(** One axis of [resize_pane]: the window and whether it changed. *)
Definition resize_axis (pane : Z) (axis : bool) (desired : option Z) (w : Window) (changed : bool) (m : gmap Z Pane)
    : result Failure (Window * bool) :=
  match desired with
  | None => Ok (w, changed)
  | Some want =>
      let? r := absolute (rect_of m) (layout w) pane axis want in
      let (l, did) := r in
      let w := set_layout w l in
      match did with
      | Some did_change => Ok (w, changed || did_change)
      | None =>
          let r := window_rect w in
          if axis then Ok (set_window_rect w (mkRect want (rows r) (rx r) (ry r)), changed || negb (cols r =? want))
          else Ok (set_window_rect w (mkRect (cols r) want (rx r) (ry r)), changed || negb (rows r =? want))
      end
  end.

Definition is_leaf (l : Layout) : bool := match l with HtmLayout.Pane _ => true | Split _ _ _ => false end.

Definition resize_pane (pane : Z) (new_cols new_rows : option Z) : M unit :=
  let* id := reads (window_of pane) in
  let* w := window_at id in
  let* r := reads (fun s => resize_axis pane true new_cols w (is_leaf (layout w)) (state_panes s)) in
  let (w, changed) := r in
  let* r := reads (fun s => resize_axis pane false new_rows w changed (state_panes s)) in
  let (w, changed) := r in
  put_window id w;;;
  if changed then resize id;;; layout_changed id else ret tt.

Definition resize_direction (pane : Z) (dir : byte) (amount : Z) : M unit :=
  let* id := reads (window_of pane) in
  let* w := window_at id in
  let* r := reads (fun s => directional (rect_of (state_panes s)) (layout w) pane dir amount) in
  let (l, changed) := r in
  put_window id (set_layout w l);;;
  if changed then resize id;;; layout_changed id else ret tt.

(** *** Removal *)

(** The first pane of a layout, which has one. *)
Definition first_pane (l : Layout) : result Failure Z :=
  match panes l with p :: _ => Ok p | [] => Err Panicked end.

Definition unlink (pane : Z) : M (Z * bool) :=
  let* id := reads (window_of pane) in
  let* w := window_at id in
  match remove (layout w) pane with
  | Some tree =>
      let zoomed := bool_decide (zoom w = Some pane) in
      let* a :=
        if (window_active w =? pane) || zoomed then reads (fun _ => first_pane tree) else ret (window_active w) in
      put_window id (set_focus (set_layout w tree) a (if zoomed then None else zoom w));;;
      ret (id, false)
  | None => ret (id, true)
  end.

(** [options.retain(|(scope, target, _), _| ...)] *)
Definition forget_options (scope : byte) (id : Z) : M unit :=
  modify (with_options (fun m => filter (fun kv => kv.1.1.1 <> scope \/ kv.1.1.2 <> id) m)).

Definition safe (t : list byte) : list byte := escape t.

(** [session_changed] of [control.rs] *)
Definition session_changed : M unit :=
  let* id := gets active in
  let* v := session_at id in
  notify (text [bytes_of "%session-changed $"; dec id; bytes_of " "; safe (session_name v); nl]).

Definition remove_window (id : Z) : M unit :=
  let* found := gets (fun s => windows s !! id) in
  match found with
  | None => ret tt
  | Some w =>
      modify (with_windows (delete id));;;
      forget_options "w" id;;;
      let* v := session_at (session w) in
      let left := filter (fun x => x <> id) (session_windows v) in
      put_session (session w) (mkSession (session_name v) (session_active v) left);;;
      match last left with
      | None =>
          notify (text [bytes_of "%unlinked-window-close @"; dec id; nl]);;;
          modify (with_sessions (delete (session w)));;;
          forget_options " " (session w);;;
          notify (bytes_of "%sessions-changed" ++ nl);;;
          let* a := gets active in
          if a =? session w then
            let* next := gets (fun s => unwrap_or 0 (head (keys (sessions s)))) in
            modify (with_active next);;;
            if negb (next =? 0) then session_changed else ret tt
          else ret tt
      | Some newest =>
          (if session_active v =? id then
             put_session (session w) (mkSession (session_name v) newest left);;;
             notify (text [bytes_of "%session-window-changed $"; dec (session w); bytes_of " @"; dec newest; nl])
           else ret tt);;;
          notify (text [bytes_of "%unlinked-window-close @"; dec id; nl])
      end
  end.

Definition drop_pane (pane : Z) : M unit :=
  modify (with_panes (delete pane));;;
  modify (with_gates (delete pane));;;
  forget_options "p" pane.

(** Say which pane of a window is active now. *)
Definition announce_active (id : Z) : M unit :=
  let* w := window_at id in
  notify (text [bytes_of "%window-pane-changed @"; dec id; bytes_of " %"; dec (window_active w); nl]).

Definition close (pane : Z) : M unit :=
  let* known := gets (fun s => has (state_panes s) pane) in
  if negb known then ret tt
  else
    let* r := unlink pane in
    let (id, empty) := r in
    drop_pane pane;;;
    if empty then remove_window id
    else resize id;;; layout_changed id;;; announce_active id.

Definition close_window (id : Z) : M unit :=
  let* found := gets (fun s => windows s !! id) in
  match found with
  | None => ret tt
  | Some w => for_each (panes (layout w)) drop_pane;;; remove_window id
  end.

(** *** Moves *)

(** One window of a swap. *)
Definition swap_in (a b wa id : Z) : M unit :=
  let* w := window_at id in
  let l := HtmLayout.swap (layout w) a b in
  let focus :=
    if HtmLayout.contains l (window_active w) then window_active w else if id =? wa then b else a in
  let zoom' := if is_some_and (fun p => negb (HtmLayout.contains l p)) (zoom w) then None else zoom w in
  put_window id (set_focus (set_layout w l) focus zoom');;;
  resize id;;;
  layout_changed id.

Definition swap (a b : Z) : M unit :=
  let* known := gets (fun s => has (state_panes s) a && has (state_panes s) b) in
  if (a =? b) || negb known then ret tt
  else
    let* wa := reads (window_of a) in
    let* wb := reads (window_of b) in
    for_each (if wa =? wb then [wa] else [wa; wb]) (swap_in a b wa).

(** The pane goes beside its destination, and is the active one there. *)
Definition enter_window (destination dest src : Z) (horizontal before : bool) : M unit :=
  let* w := window_at destination in
  let* l := reads (fun _ => insert (layout w) dest src horizontal (Some before)) in
  put_window destination (set_focus (set_layout w l) src (zoom w));;;
  resize destination;;;
  layout_changed destination;;;
  notify (text [bytes_of "%window-pane-changed @"; dec destination; bytes_of " %"; dec src; nl]).

Definition move_pane (src dest : Z) (horizontal before : bool) : M unit :=
  let* known := gets (fun s => has (state_panes s) src && has (state_panes s) dest) in
  if (src =? dest) || negb known then ret tt
  else
    let* destination := reads (window_of dest) in
    let* r := unlink src in
    let (source, empty) := r in
    (if negb empty && negb (source =? destination) then
       resize source;;; layout_changed source;;; announce_active source
     else ret tt);;;
    enter_window destination dest src horizontal before;;;
    if empty && negb (source =? destination) then remove_window source else ret tt.

Definition break_pane (pane : Z) : M Z :=
  let* known := gets (fun s => has (state_panes s) pane) in
  if negb known then ret 0
  else
    let* source := reads (window_of pane) in
    let* w := window_at source in
    if (length (panes (layout w)) =? 1)%nat then ret source
    else
      unlink pane;;;
      resize source;;;
      layout_changed source;;;
      let* id := window_from_pane pane (session w) None in
      layout_changed id;;;
      ret id.

(** The window is the last of its new session, and the active one. *)
Definition join_session (id sid : Z) : M unit :=
  let* w := window_at id in
  let* v := session_at sid in
  put_window id (set_home w sid (zlen (session_windows v)));;;
  put_session sid (mkSession (session_name v) id (session_windows v ++ [id]));;;
  notify (text [bytes_of "%session-window-changed $"; dec sid; bytes_of " @"; dec id; nl]).

(** The session it left, when that has no windows any more. *)
Definition retire_session (old sid : Z) : M unit :=
  let* v := session_at old in
  match session_windows v with
  | [] =>
      modify (with_sessions (delete old));;;
      forget_options " " old;;;
      notify (bytes_of "%sessions-changed" ++ nl);;;
      let* a := gets active in
      if a =? old then modify (with_active sid);;; session_changed else ret tt
  | _ => ret tt
  end.

Definition move_window (id sid : Z) : M unit :=
  let* known := gets (fun s => has (windows s) id && has (sessions s) sid) in
  if negb known then ret tt
  else
    let* w := window_at id in
    let old := session w in
    let* v := session_at old in
    let left := filter (fun x => x <> id) (session_windows v) in
    let focus := if session_active v =? id then unwrap_or 0 (last left) else session_active v in
    put_session old (mkSession (session_name v) focus left);;;
    (if (session_active v =? id) && bool_decide (left <> []) then
       notify (text [bytes_of "%session-window-changed $"; dec old; bytes_of " @"; dec focus; nl])
     else ret tt);;;
    join_session id sid;;;
    if negb (old =? sid) then retire_session old sid else ret tt.

(** *** Output *)

(** [bytes.chunks(65536)], fed one after the other up to an error. *)
Fixpoint feed_chunks (fuel : nat) (id : Z) (piece : nat) (bytes : list byte) (scr : PaneScreen)
    : result (list byte) unit * PaneScreen :=
  match fuel, bytes with
  | _, [] | O, _ => (Ok tt, scr)
  | S fuel, _ =>
      match process (feed_of host id piece) (ztake 65536 bytes) scr with
      | (Ok _, scr) => feed_chunks fuel id (S piece) (zdrop 65536 bytes) scr
      | (Err e, scr) => (Err e, scr)
      end
  end.

(** A window that follows its active pane's command is renamed. *)
Definition auto_rename (id : Z) : M unit :=
  let* found := gets (fun s => find_key (fun w => (window_active w =? id) && automatic_rename w) (windows s)) in
  match found with
  | None => ret tt
  | Some wid =>
      let* w := window_at wid in
      let command := foreground_command (comm host) (leader host id) (process_id host id) in
      if bool_decide (command <> []) && negb (list_eqb command (window_name w)) then
        put_window wid (set_name w command (automatic_rename w));;;
        notify (text [bytes_of "%window-renamed @"; dec wid; bytes_of " "; escape command; nl])
      else ret tt
  end.

(** One pane of [poll]: the output for the client, and whether it is over. *)
Definition poll_pane (no_output extended pause : bool) (id : Z) : M (list byte * bool) :=
  let* p := pane_at id in
  if is_poisoned (screen p) then ret ([], true)
  else
    let (bytes, term) := poll_user_terminal (terminal p) (received host id) (reaped host id) (now host id) (now' host id) in
    put_pane id (mkPane term (screen p) (rect p) (title p));;;
    match bytes with
    | [] => auto_rename id;;; ret ([], negb (is_running term))
    | _ =>
        let (fed, scr) := feed_chunks (length bytes) id 0 bytes (screen p) in
        put_pane id (mkPane term scr (rect p) (title p));;;
        match fed with
        | Err _ => ret ([], true)
        | Ok _ =>
            let* gated := gets (fun s => unwrap_or false (pane_gates s !! id)) in
            if negb no_output && negb gated then
              let record :=
                text [(if extended then text [bytes_of "%extended-output %"; dec id; bytes_of " 0 : "]
                       else text [bytes_of "%output %"; dec id; bytes_of " "]); escape bytes; nl] in
              let* paused :=
                if pause then
                  modify (with_gates (fun m => <[id := true]> m));;; ret (text [bytes_of "%pause %"; dec id; nl])
                else ret [] in
              auto_rename id;;; ret (record ++ paused, false)
            else auto_rename id;;; ret ([], false)
        end
    end.

Fixpoint poll_panes (no_output extended pause : bool) (ids : list Z) : M (list byte * list Z) :=
  match ids with
  | [] => ret ([], [])
  | id :: ids =>
      let* r := poll_pane no_output extended pause id in
      let (out, over) := r in
      let* r := poll_panes no_output extended pause ids in
      let (more, exited) := r in
      ret (out ++ more, if over : bool then id :: exited else exited)
  end.

(** [let _ = self.close(id)]: an error is dropped, a panic is not. *)
Definition ignored (m : M unit) : M unit :=
  fun s => match m s with (Err (Fails _), s) => (Ok tt, s) | r => r end.

Definition poll (no_output extended pause : bool) : M (list byte) :=
  let* ids := gets (fun s => keys (state_panes s)) in
  let* r := poll_panes no_output extended pause ids in
  let (output, exited) := r in
  for_each exited (fun id => ignored (close id));;;
  ret output.

Definition stop_all : M unit := modify (with_panes (fun _ => ∅)).

Definition attach_notifications : M unit :=
  let* found := gets (fun s => sessions s !! active s) in
  match found with
  | None => ret tt
  | Some v =>
      let* sent := gets initial_attach_sent in
      (if negb sent then
         for_each (session_windows v) (fun id => notify (text [bytes_of "%window-add @"; dec id; nl]));;;
         notify (bytes_of "%sessions-changed" ++ nl);;;
         modify (with_attach_sent true)
       else ret tt);;;
      session_changed
  end.

Definition affinities : list byte := bytes_of "@affinities".

Definition detach : M unit :=
  let* found := gets (fun s => non_empty (options s !! (" "%byte, active s, affinities))) in
  match found with
  | Some value => modify (with_options (fun m => <[("g"%byte, 0, affinities) := value]> m))
  | None => ret tt
  end.

(** *** The diagnostic dump *)

Fixpoint hex_pairs (l : list byte) : option (list byte) :=
  match l with
  | [] => Some []
  | h :: l :: rest =>
      let! hi := hex_digit h in
      let! lo := hex_digit l in
      let! rest := hex_pairs rest in
      Some (z2b (hi * 16 + lo) :: rest)
  | [_] => None
  end.

Definition affinity_group (part : list byte) : option (list Z) :=
  let part := unwrap_or [] (head (split_by (beq ";") part)) in
  let ids := omap (fun v => if bool_decide (v <> []) && forallb is_ascii_digit v then
                              wrap32 <$> from_str_radix 10 u64_max v else None) (split_by (beq ",") part) in
  match ids with [] => None | _ => Some (merge_sort Z.le ids) end.

(** [sort_by_key(|group| group[0])] is stable: insertion from the right. *)
Fixpoint insert_group (g : list Z) (l : list (list Z)) : list (list Z) :=
  match l with
  | [] => [g]
  | g' :: l' => if nth 0 g 0 <=? nth 0 g' 0 then g :: l else g' :: insert_group g l'
  end.

Definition affinity_text (s : MultiplexerState) : list byte :=
  let raw :=
    unwrap_or [] (or_else (non_empty (options s !! (" "%byte, active s, affinities)))
                    (options s !! ("g"%byte, 0, affinities))) in
  let decoded :=
    match strip_prefix (bytes_of "a_") raw with
    | Some hex => unwrap_or raw (hex_pairs hex)
    | None => raw
    end in
  let groups := foldr insert_group [] (omap affinity_group (split_by (beq " ") decoded)) in
  text [bytes_of "# affinities: ["; commas (map (fun g => text [bytes_of "["; commas (map dec g); bytes_of "]"]) groups);
        bytes_of "]"; nl].

Definition flag (b : bool) : list byte := dec (b2i b).

Definition dump_pane (v : Session) (wid : Z) (w : Window) (out : list byte) (pid : Z) : M (list byte) :=
  let* p := pane_at pid in
  let (y, x) := cursor_position (screen p) in
  let out :=
    out ++ text [bytes_of "--- window @"; dec wid; bytes_of " name="; window_name w; bytes_of " pane %"; dec pid;
      bytes_of " active="; flag (window_active w =? pid); bytes_of " "; dec (cols (rect p)); bytes_of "x";
      dec (rows (rect p)); bytes_of " cursor="; dec x; bytes_of ","; dec y; bytes_of " shell_pid=";
      dec (unwrap_or 0 (process_id host pid)); bytes_of " current=";
      flag ((session_active v =? wid) && (window_active w =? pid)); nl] in
  let (r, scr) := capture (guest_of host pid) (mkCapture false false (-1000) (-1) true true) (screen p) in
  put_pane pid (mkPane (terminal p) scr (rect p) (title p));;;
  let* captured := reads (fun _ => map_err Fails r) in
  let out := out ++ from_utf8_lossy captured ++ (if ends_with nl captured then [] else nl) in
  if MAX_QUEUE / 2 <? zlen out then fail (bytes_of "pane dump exceeds reply limit") else ret out.

Fixpoint fold_out {A} (f : list byte -> A -> M (list byte)) (out : list byte) (l : list A) : M (list byte) :=
  match l with
  | [] => ret out
  | a :: l => let* out := f out a in fold_out f out l
  end.

Definition dump_panes : M (list byte) :=
  let* header := gets affinity_text in
  let* ids := gets (fun s => keys (sessions s)) in
  fold_out (fun out sid =>
    let* v := session_at sid in
    fold_out (fun out wid =>
      let* w := window_at wid in
      fold_out (dump_pane v wid w) out (panes (layout w))) out (session_windows v)) header ids.

End host.
