(* ===== verification/HtmInvariant.v ===== *)
(** * HtmInvariant: the multiplexer's state stays well formed

    The type invariant of [MultiplexerState], and that the operations of
    [state.rs] keep it and never panic. Inside an operation the invariant is
    relaxed by what is in hand: panes without a window, a window about to go,
    a session that has no window yet. *)

From Stdlib Require Import String.
From stdpp Require Import gmap sorting.
From S2P Require Import Prelude Bytes HtmLayout HtmFraming HtmPane HtmState.

(** ** What holds after an operation *)

(** It does not panic; [Q] holds of its answer, or [F] after an error. *)
Definition wp {A} (m : M A) (Q : A -> MultiplexerState -> Prop) (F : MultiplexerState -> Prop) (s : MultiplexerState)
    : Prop :=
  match m s with
  | (Ok a, s') => Q a s'
  | (Err (Fails _), s') => F s'
  | (Err Panicked, _) => False
  end.

Section wp.
Context {A B : Type}.
Implicit Types (m : M A) (Q : A -> MultiplexerState -> Prop) (F : MultiplexerState -> Prop).

Lemma wp_bind m (k : A -> M B) (Q : B -> MultiplexerState -> Prop) F s :
  wp m (fun a s => wp (k a) Q F s) F s -> wp (bind m k) Q F s.
Proof. unfold wp, bind. destruct (m s) as [[a|[e|]] s']; done. Qed.

Lemma wp_ret (a : A) Q F s : Q a s -> wp (ret a) Q F s.
Proof. done. Qed.

Lemma wp_fail e Q F s : F s -> wp (fail e) Q F s.
Proof. done. Qed.

Lemma wp_gets (f : MultiplexerState -> A) Q F s : Q (f s) s -> wp (gets f) Q F s.
Proof. done. Qed.

Lemma wp_reads_ok (f : MultiplexerState -> result Failure A) a Q F s : f s = Ok a -> Q a s -> wp (reads f) Q F s.
Proof. unfold wp, reads. by intros ->. Qed.

Lemma wp_reads (f : MultiplexerState -> result Failure A) Q F s :
  f s <> Err Panicked -> F s -> (forall a, f s = Ok a -> Q a s) -> wp (reads f) Q F s.
Proof. unfold wp, reads. destruct (f s) as [a|[e|]]; naive_solver. Qed.

Lemma wp_mono m Q Q' F F' s :
  (forall a s', Q a s' -> Q' a s') -> (forall s', F s' -> F' s') -> wp m Q F s -> wp m Q' F' s.
Proof. unfold wp. destruct (m s) as [[a|[e|]] s']; auto. Qed.
End wp.

Lemma wp_modify f Q F s : Q tt (f s) -> wp (modify f) Q F s.
Proof. done. Qed.

Lemma wp_index {A} (field : MultiplexerState -> gmap Z A) id a Q F s :
  field s !! id = Some a -> Q a s -> wp (reads (fun s => index (field s) id)) Q F s.
Proof. intros H HQ. apply (wp_reads_ok _ a); [|done]. unfold index. by rewrite H. Qed.

Lemma wp_for_each {A} (l : list A) (f : A -> M unit) (I : MultiplexerState -> Prop) (Q : unit -> MultiplexerState -> Prop) F s :
  I s -> (forall a s, a ∈ l -> I s -> wp (f a) (fun _ s' => I s') F s) -> (forall s', I s' -> Q tt s') ->
  wp (for_each l f) Q F s.
Proof.
  intros HI Hf HQ. revert s HI. induction l as [|a l IH]; intros s HI; [by apply HQ|]. cbn [for_each].
  apply wp_bind. eapply wp_mono; [| |apply Hf; [left|done]]; [|done].
  intros [] s' HI'. apply IH; [|done]. intros b s'' Hb. apply Hf. by right.
Qed.

(** Apply the rules that have one outcome. *)
Ltac wp_step :=
  lazymatch goal with
  | |- wp (bind _ _) _ _ _ => apply wp_bind
  | |- wp (ret _) _ _ _ => apply wp_ret
  | |- wp (gets _) _ _ _ => apply wp_gets
  | |- wp (modify _) _ _ _ => apply wp_modify
  | |- wp (put_pane _ _) _ _ _ => apply wp_modify
  | |- wp (put_window _ _) _ _ _ => apply wp_modify
  | |- wp (put_session _ _) _ _ _ => apply wp_modify
  | |- wp (fail _) _ _ _ => apply wp_fail
  end; cbv beta.
Ltac wp_steps := repeat wp_step.

(** ** Same shape *)

(** Only what the panes show, and the notifications, may have changed. *)
Record same (s s' : MultiplexerState) : Prop := mkSame {
  same_windows : windows s' = windows s;
  same_sessions : sessions s' = sessions s;
  same_active : active s' = active s;
  same_client : client_size s' = client_size s;
  same_options : options s' = options s;
  same_buffers : buffers s' = buffers s;
  same_next_pane : next_pane s' = next_pane s;
  same_next_window : next_window s' = next_window s;
  same_next_session : next_session s' = next_session s;
  same_panes : dom (state_panes s') = dom (state_panes s);
  same_rects : map_Forall (fun _ p => rect_ok (rect p)) (state_panes s) ->
    map_Forall (fun _ p => rect_ok (rect p)) (state_panes s')
}.

#[export] Instance same_preorder : PreOrder same.
Proof.
  split.
  - intros s. by split.
  - intros s1 s2 s3 [] []. split; try congruence. auto.
Qed.

Lemma same_live s s' p : same s s' -> is_Some (state_panes s' !! p) <-> is_Some (state_panes s !! p).
Proof. intros H. by rewrite <- !elem_of_dom, (same_panes _ _ H). Qed.

Lemma same_notify text s : same s (with_notifications (fun n => n ++ text) s).
Proof. by split. Qed.

Lemma same_put_pane s id p p' :
  state_panes s !! id = Some p -> (rect_ok (rect p) -> rect_ok (rect p')) ->
  same s (with_panes (fun m => <[id := p']> m) s).
Proof.
  intros Hp Hr. split; try done; cbn.
  - rewrite dom_insert_L. assert (id ∈ dom (state_panes s)) by (apply elem_of_dom; by exists p). set_solver.
  - intros Hall. apply map_Forall_insert_2; [|done]. apply Hr. by apply (Hall id).
Qed.

(** A window that can be laid out and described. *)
Record drawable (s : MultiplexerState) (w : Window) : Prop := mkDrawable {
  d_wf : well_formed (layout w) = true;
  d_live : forall p, p ∈ panes (layout w) -> is_Some (state_panes s !! p);
  d_zoom : forall p, zoom w = Some p -> is_Some (state_panes s !! p);
  d_rect : rect_ok (window_rect w);
  d_session : is_Some (sessions s !! session w)
}.

Lemma drawable_same s s' w : same s s' -> drawable s w -> drawable s' w.
Proof.
  intros H [Hwf Hlive Hzoom Hrect Hs]. split; [done|..|done|by rewrite (same_sessions _ _ H)];
    intros p Hp; apply (same_live _ _ p H); auto.
Qed.

Section host.
Context (host : Host).

Lemma wp_notify text (Q : unit -> MultiplexerState -> Prop) F s :
  (forall s', same s s' -> Q tt s') -> wp (notify text) Q F s.
Proof. intros HQ. apply wp_modify, HQ, same_notify. Qed.

Lemma wp_place id r (Q : unit -> MultiplexerState -> Prop) F s :
  is_Some (state_panes s !! id) -> rect_ok r -> (forall s', same s s' -> Q tt s') -> wp (place host id r) Q F s.
Proof.
  intros [p Hp] Hr HQ. unfold place, pane_at. apply wp_bind, (wp_index state_panes _ p); [done|].
  destruct (screen_resize _ _) as [[u|e] scr]; apply wp_modify, HQ; by apply (same_put_pane _ _ p).
Qed.

Lemma wp_resize id w (Q : unit -> MultiplexerState -> Prop) F s :
  windows s !! id = Some w -> drawable s w -> (forall s', same s s' -> Q tt s') -> wp (resize host id) Q F s.
Proof.
  intros Hw Hd HQ. unfold resize, window_at. apply wp_bind, (wp_index windows _ w); [done|].
  apply (wp_for_each _ _ (same s)); [reflexivity| |done]. intros [p r] s' Hin Hsame.
  assert (Hpr : is_Some (state_panes s !! p) /\ rect_ok r).
  { destruct (zoom w) as [z|] eqn:Hz.
    - apply list_elem_of_singleton in Hin. simplify_eq. split; [by apply (d_zoom s w)|by apply (d_rect s w)].
    - destruct (geometry_spec (layout w) (window_rect w)) as [Hp Hr]; [by apply (d_wf s w)|by apply (d_rect s w)|].
      split; [|rewrite Forall_forall in Hr; by apply (Hr (p, r))]. apply (d_live s w Hd). rewrite <- Hp.
      by apply (list_elem_of_fmap_2 fst _ (p, r)). }
  destruct Hpr as [Hp Hr]. apply wp_place; [by apply (same_live s s')|done|]. intros s'' H. by transitivity s'.
Qed.

Lemma window_layout_ok s id w visible :
  windows s !! id = Some w -> drawable s w -> exists t, window_layout id visible s = Ok t.
Proof.
  intros Hw Hd. unfold window_layout, index. rewrite Hw. destruct (if visible then zoom w else None); [by eexists|].
  destruct (dump_ok (rect_of (state_panes s)) (layout w)) as [t Ht]; [by apply (d_wf s w)| |rewrite Ht; by eexists].
  intros p Hp. destruct (d_live s w Hd p Hp) as [x Hx]. unfold rect_of, index. rewrite Hx. by eexists.
Qed.

Lemma window_flags_ok s id w : drawable s w -> exists t, window_flags id w s = Ok t.
Proof. intros [_ _ _ _ [v Hv]]. unfold window_flags, index. rewrite Hv. by eexists. Qed.

Lemma wp_layout_changed id w (Q : unit -> MultiplexerState -> Prop) F s :
  windows s !! id = Some w -> drawable s w -> (forall s', same s s' -> Q tt s') -> wp (layout_changed id) Q F s.
Proof.
  intros Hw Hd HQ. unfold layout_changed, window_at. apply wp_bind, (wp_index windows _ w); [done|].
  destruct (window_flags_ok s id w Hd) as [flags Hf]. apply wp_bind, (wp_reads_ok _ flags); [done|].
  destruct (window_layout_ok s id w false Hw Hd) as [t1 H1]. apply wp_bind, (wp_reads_ok _ t1); [done|].
  destruct (window_layout_ok s id w true Hw Hd) as [t2 H2]. apply wp_bind, (wp_reads_ok _ t2); [done|].
  by apply wp_notify.
Qed.

Lemma wp_announce_active id w (Q : unit -> MultiplexerState -> Prop) F s :
  windows s !! id = Some w -> (forall s', same s s' -> Q tt s') -> wp (announce_active id) Q F s.
Proof.
  intros Hw HQ. unfold announce_active, window_at. apply wp_bind, (wp_index windows _ w); [done|]. by apply wp_notify.
Qed.

Lemma wp_session_changed v (Q : unit -> MultiplexerState -> Prop) F s :
  sessions s !! active s = Some v -> (forall s', same s s' -> Q tt s') -> wp session_changed Q F s.
Proof.
  intros Hv HQ. unfold session_changed, session_at. apply wp_bind, wp_gets. apply wp_bind, (wp_index sessions _ v); [done|].
  by apply wp_notify.
Qed.
End host.

(** ** Ordered maps *)

Section ordered.
Context {A : Type}.
Implicit Types (m : gmap Z A).

Lemma elem_of_keys m k : k ∈ keys m <-> is_Some (m !! k).
Proof.
  unfold keys. rewrite (merge_sort_Permutation Z.le). rewrite list_elem_of_fmap. split.
  - intros ([k' a] & -> & Hin). apply elem_of_map_to_list in Hin. by exists a.
  - intros [a Ha]. exists (k, a). split; [done|]. by apply elem_of_map_to_list.
Qed.

Lemma find_key_some (f : A -> bool) m k : find_key f m = Some k -> exists a, m !! k = Some a /\ f a = true.
Proof.
  unfold find_key. intros [_ H]%find_some. destruct (m !! k) as [a|]; [by exists a|done].
Qed.

Lemma find_key_none (f : A -> bool) m k a : find_key f m = None -> m !! k = Some a -> f a = false.
Proof.
  unfold find_key. intros H Ha. pose proof (find_none _ _ H k) as Hk. cbv beta in Hk. rewrite Ha in Hk.
  apply Hk, list_elem_of_In, elem_of_keys. by exists a.
Qed.

Lemma head_keys m k : head (keys m) = Some k -> is_Some (m !! k).
Proof. intros H. apply elem_of_keys. destruct (keys m); simplify_eq/=. left. Qed.

Lemma head_keys_none m : head (keys m) = None -> m = ∅.
Proof.
  intros H. apply map_empty. intros i. apply eq_None_not_Some. intros Hi. apply elem_of_keys in Hi.
  destruct (keys m); [by apply not_elem_of_nil in Hi|done].
Qed.
End ordered.

Lemma has_spec {A} (m : gmap Z A) k : has m k = true <-> is_Some (m !! k).
Proof. unfold has. apply bool_decide_eq_true. Qed.

Lemma has_false {A} (m : gmap Z A) k : has m k = false <-> m !! k = None.
Proof. unfold has. rewrite bool_decide_eq_false. symmetry. apply eq_None_not_Some. Qed.

(** ** The invariant *)

(** A window's content: its tree, its focus and its zoom. *)
Record content_ok (m : gmap Z Pane) (w : Window) : Prop := mkContent {
  c_wf : well_formed (layout w) = true;
  c_nodup : NoDup (panes (layout w));
  c_live : forall p, p ∈ panes (layout w) -> is_Some (m !! p);
  c_active : window_active w ∈ panes (layout w);
  c_zoom : forall p, zoom w = Some p -> p ∈ panes (layout w);
  c_rect : rect_ok (window_rect w)
}.

(** The window of a pane, among those that stay. *)
Definition owns (dead : option Z) (ws : gmap Z Window) (id p : Z) : Prop :=
  exists w, ws !! id = Some w /\ Some id <> dead /\ p ∈ panes (layout w).

Definition affinity_key : byte * Z * list byte := ("g"%byte, 0, affinities).

(** What an option is about is there. *)
Definition option_live (s : MultiplexerState) (scope : byte) (id : Z) : Prop :=
  (scope = "p"%byte -> is_Some (state_panes s !! id)) /\
  (scope = "w"%byte -> is_Some (windows s !! id)) /\
  (scope = " "%byte -> is_Some (sessions s !! id)).

(** [loose]: panes in hand, without a window. [dead]: a window about to be
    removed. [young]: a session that has no window yet. *)
Record inv (loose : list Z) (dead young : option Z) (s : MultiplexerState) : Prop := mkInv {
  i_content : forall id w, windows s !! id = Some w -> Some id <> dead -> content_ok (state_panes s) w;
  i_home : forall id w, windows s !! id = Some w ->
    exists v, sessions s !! session w = Some v /\ id ∈ session_windows v;
  i_owned : forall p, is_Some (state_panes s !! p) -> p ∈ loose \/ exists id, owns dead (windows s) id p;
  i_loose : forall p id, p ∈ loose -> ~ owns dead (windows s) id p;
  i_unique : forall p id id', owns dead (windows s) id p -> owns dead (windows s) id' p -> id = id';
  i_listed : forall sid v id, sessions s !! sid = Some v -> id ∈ session_windows v ->
    exists w, windows s !! id = Some w /\ session w = sid;
  i_session : forall sid v, sessions s !! sid = Some v ->
    NoDup (session_windows v) /\ (Some sid <> young -> session_active v ∈ session_windows v);
  i_active : is_Some (sessions s !! active s) \/ (sessions s = ∅ /\ active s = 0);
  i_rects : map_Forall (fun _ p => rect_ok (rect p)) (state_panes s);
  i_client : rect_ok (mkRect (fst (client_size s)) (snd (client_size s)) 0 0);
  i_pane_ids : forall p, is_Some (state_panes s !! p) -> 0 <= p < next_pane s;
  i_window_ids : forall id, is_Some (windows s !! id) -> 0 <= id < next_window s;
  i_session_ids : forall sid, is_Some (sessions s !! sid) -> 1 <= sid < next_session s;
  i_next : 0 <= next_pane s /\ 0 <= next_window s /\ 1 <= next_session s;
  i_options : forall scope id key, is_Some (options s !! (scope, id, key)) -> option_live s scope id;
  i_limits : Z.of_nat (size (state_panes s)) <= 64 /\ Z.of_nat (size (sessions s)) <= 32 /\
    Z.of_nat (size (delete affinity_key (options s))) <= 256 /\ Z.of_nat (size (buffers s)) <= 32
}.

(** The type invariant of the state. *)
Definition state_ok : MultiplexerState -> Prop := inv [] None None.

(** The counters of identities, which only grow. *)
Definition same_ids (s s' : MultiplexerState) : Prop :=
  next_pane s' = next_pane s /\ next_window s' = next_window s /\ next_session s' = next_session s.
Definition more_ids (s s' : MultiplexerState) : Prop :=
  next_pane s' <= next_pane s + 1 /\ next_window s' <= next_window s + 1 /\ next_session s' <= next_session s + 1.
(** There are identities left. *)
Definition ids_left (s : MultiplexerState) : Prop :=
  next_pane s < 2 ^ 32 - 1 /\ next_window s < 2 ^ 32 - 1 /\ next_session s < 2 ^ 32 - 1.

Lemma content_ok_ext m m' w : dom m' = dom m -> content_ok m w -> content_ok m' w.
Proof.
  intros H []. split; try done. intros p Hp. apply elem_of_dom. rewrite H. apply elem_of_dom. auto.
Qed.

Lemma inv_same loose dead young s s' : same s s' -> inv loose dead young s -> inv loose dead young s'.
Proof.
  intros H []. destruct H as [Hw Hs Ha Hc Ho Hb Hnp Hnw Hns Hd Hr].
  split; rewrite ?Hw, ?Hs, ?Ha, ?Hc, ?Ho, ?Hb, ?Hnp, ?Hnw, ?Hns; auto.
  - intros id w Hid Hdead. eapply content_ok_ext; [exact Hd|]. by eapply i_content0.
  - intros p Hp. apply i_owned0. by rewrite <- elem_of_dom, <- Hd, elem_of_dom.
  - intros p Hp. apply i_pane_ids0. by rewrite <- elem_of_dom, <- Hd, elem_of_dom.
  - intros scope id key Hk. destruct (i_options0 scope id key Hk) as (H1 & H2 & H3).
    unfold option_live. rewrite Hw, Hs. split_and!; [|done..]. intros Hp. rewrite <- elem_of_dom, Hd, elem_of_dom. auto.
  - destruct i_limits0 as (H1 & H2). split; [|done]. by rewrite <- size_dom, Hd, size_dom.
Qed.

Lemma same_ids_of_same s s' : same s s' -> same_ids s s'.
Proof. intros []. by split_and!. Qed.

#[export] Instance same_ids_preorder : PreOrder same_ids.
Proof.
  split; [by intros s|]. unfold same_ids. intros s1 s2 s3 (? & ? & ?) (? & ? & ?). split_and!; congruence.
Qed.

Lemma drawable_of_inv loose dead young s id w :
  inv loose dead young s -> windows s !! id = Some w -> Some id <> dead -> drawable s w.
Proof.
  intros H Hw Hd. destruct (i_content _ _ _ _ H id w Hw Hd). destruct (i_home _ _ _ _ H id w Hw) as (v & Hv & _).
  split; [done|done| |done|by exists v]. auto.
Qed.

(** ** Steps on the topology *)

Definition put_windows (id : Z) (w : Window) (s : MultiplexerState) : MultiplexerState :=
  with_windows (fun m => <[id := w]> m) s.

Lemma owns_insert dead ws id w j p :
  Some id <> dead ->
  owns dead (<[id := w]> ws) j p <-> (j = id /\ p ∈ panes (layout w)) \/ (j <> id /\ owns dead ws j p).
Proof.
  intros Hd. unfold owns. destruct (decide (j = id)) as [->|Hj].
  - setoid_rewrite lookup_insert_eq. naive_solver.
  - setoid_rewrite lookup_insert_ne; [|done]. naive_solver.
Qed.

Lemma home_insert (ws : gmap Z Window) id w w' sid j :
  ws !! id = Some w -> session w' = session w ->
  (exists x, ws !! j = Some x /\ session x = sid) -> exists x, <[id := w']> ws !! j = Some x /\ session x = sid.
Proof.
  intros Hw Hs (x & Hx & Hsx). destruct (decide (j = id)) as [->|Hj].
  - exists w'. rewrite lookup_insert_eq. split; [done|]. congruence.
  - exists x. by rewrite lookup_insert_ne.
Qed.

(** A window takes new content; panes move between it and the hand. *)
Lemma inv_replace loose loose' dead young s id w w' :
  inv loose dead young s -> windows s !! id = Some w -> Some id <> dead ->
  session w' = session w -> content_ok (state_panes s) w' ->
  (forall p, p ∈ loose' \/ p ∈ panes (layout w') <-> p ∈ loose \/ p ∈ panes (layout w)) ->
  (forall p, p ∈ loose' -> p ∉ panes (layout w')) ->
  inv loose' dead young (put_windows id w' s).
Proof.
  intros H Hw Hd Hs Hc Hiff Hdisj.
  assert (Hwo : forall p, p ∈ panes (layout w) -> owns dead (windows s) id p) by (intros p Hp; by exists w).
  split; cbn; try apply H.
  - intros j x Hx Hj. apply lookup_insert_Some in Hx as [[<- <-]|[Hne Hx]]; [done|]. by apply (i_content _ _ _ _ H j).
  - intros j x Hx. apply lookup_insert_Some in Hx as [[<- <-]|[Hne Hx]].
    + rewrite Hs. by apply (i_home _ _ _ _ H).
    + by apply (i_home _ _ _ _ H).
  - intros p Hp. setoid_rewrite (owns_insert _ _ _ _ _ _ Hd). destruct (i_owned _ _ _ _ H p Hp) as [Hl|[j Hj]].
    + destruct (proj2 (Hiff p) (or_introl Hl)); [by left|right; exists id; by left].
    + destruct (decide (j = id)) as [->|Hne]; [|right; exists j; by right].
      destruct Hj as (x & Hx & _ & Hpx). simplify_eq.
      destruct (proj2 (Hiff p) (or_intror Hpx)); [by left|right; exists id; by left].
  - intros p j Hp [[-> Hpw]|[Hne Ho]]%(owns_insert _ _ _ _ _ _ Hd); [by eapply Hdisj|].
    destruct (proj1 (Hiff p) (or_introl Hp)) as [Hl|Hpw]; [by eapply (i_loose _ _ _ _ H)|].
    apply Hne. by eapply (i_unique _ _ _ _ H p); [|apply Hwo].
  - intros p j j' [[-> Hp]|[Hne Ho]]%(owns_insert _ _ _ _ _ _ Hd) [[-> Hp']|[Hne' Ho']]%(owns_insert _ _ _ _ _ _ Hd).
    + done.
    + destruct (proj1 (Hiff p) (or_intror Hp)) as [Hl|Hpw]; [by destruct (i_loose _ _ _ _ H p j')|].
      by eapply (i_unique _ _ _ _ H p); [apply Hwo|].
    + destruct (proj1 (Hiff p) (or_intror Hp')) as [Hl|Hpw]; [by destruct (i_loose _ _ _ _ H p j)|].
      by eapply (i_unique _ _ _ _ H p); [|apply Hwo].
    + by eapply (i_unique _ _ _ _ H p).
  - intros sid v j Hv Hj. eapply home_insert; [done|done|]. by eapply (i_listed _ _ _ _ H).
  - intros j Hj. apply (i_window_ids _ _ _ _ H). apply lookup_insert_is_Some' in Hj as [<-|Hj]; [by exists w|done].
  - intros scope j key Hk. destruct (i_options _ _ _ _ H scope j key Hk) as (H1 & H2 & H3). split_and!; [done| |done].
    cbn. intros Hsc. apply lookup_insert_is_Some'. by right; apply H2.
Qed.

(** A window is given up: its panes are in hand. *)
Lemma inv_kill loose young s id w :
  inv loose None young s -> windows s !! id = Some w -> inv (panes (layout w) ++ loose) (Some id) young s.
Proof.
  intros H Hw.
  assert (Hsub : forall j p, owns (Some id) (windows s) j p <-> j <> id /\ owns None (windows s) j p).
  { intros j p. unfold owns. naive_solver. }
  split; try apply H.
  - intros j x Hx _. by apply (i_content _ _ _ _ H j).
  - intros p Hp. destruct (i_owned _ _ _ _ H p Hp) as [Hl|[j Hj]].
    + left. apply elem_of_app. by right.
    + destruct (decide (j = id)) as [->|Hne].
      * left. apply elem_of_app. left. destruct Hj as (x & Hx & _ & Hpx). by simplify_eq.
      * right. exists j. by apply Hsub.
  - intros p j [Hp|Hp]%elem_of_app [Hne Ho]%Hsub.
    + apply Hne. eapply (i_unique _ _ _ _ H p); [done|]. by exists w.
    + by eapply (i_loose _ _ _ _ H).
  - intros p j j' [_ Ho]%Hsub [_ Ho']%Hsub. by eapply (i_unique _ _ _ _ H p).
Qed.

(** It gets other panes from the hand instead, all that are there. *)
Lemma inv_revive loose young s id w w' :
  inv loose (Some id) young s -> windows s !! id = Some w -> session w' = session w ->
  content_ok (state_panes s) w' -> (forall p, p ∈ panes (layout w') <-> p ∈ loose) ->
  inv [] None young (put_windows id w' s).
Proof.
  intros H Hw Hs Hc Hiff.
  assert (Hown : forall j p, owns None (<[id := w']> (windows s)) j p <->
    (j = id /\ p ∈ loose) \/ owns (Some id) (windows s) j p).
  { intros j p. rewrite owns_insert by done. rewrite Hiff. unfold owns. naive_solver. }
  split; cbn; try apply H.
  - intros j x Hx _. apply lookup_insert_Some in Hx as [[<- <-]|[Hne Hx]]; [done|]. apply (i_content _ _ _ _ H j); [done|congruence].
  - intros j x Hx. apply lookup_insert_Some in Hx as [[<- <-]|[Hne Hx]].
    + rewrite Hs. by apply (i_home _ _ _ _ H).
    + by apply (i_home _ _ _ _ H).
  - intros p Hp. right. setoid_rewrite Hown. destruct (i_owned _ _ _ _ H p Hp) as [Hl|[j Hj]]; [exists id|exists j]; tauto.
  - intros p j Hp. by apply not_elem_of_nil in Hp.
  - intros p j j' [[-> Hp]|Ho]%Hown [[-> Hp']|Ho']%Hown; [done|..].
    + by destruct (i_loose _ _ _ _ H p j').
    + by destruct (i_loose _ _ _ _ H p j).
    + by eapply (i_unique _ _ _ _ H p).
  - intros sid v j Hv Hj. eapply home_insert; [done|done|]. by eapply (i_listed _ _ _ _ H).
  - intros j Hj. apply (i_window_ids _ _ _ _ H). apply lookup_insert_is_Some' in Hj as [<-|Hj]; [by exists w|done].
  - intros scope j key Hk. destruct (i_options _ _ _ _ H scope j key Hk) as (H1 & H2 & H3). split_and!; [done| |done].
    cbn. intros Hsc. apply lookup_insert_is_Some'. by right; apply H2.
Qed.

(** *** Options *)

Definition forgotten (scope : byte) (id : Z) (s : MultiplexerState) : MultiplexerState :=
  with_options (fun m => filter (fun kv => kv.1.1.1 <> scope \/ kv.1.1.2 <> id) m) s.

Lemma forgotten_some scope id s sc j key :
  is_Some (options (forgotten scope id s) !! (sc, j, key)) ->
  is_Some (options s !! (sc, j, key)) /\ (sc <> scope \/ j <> id).
Proof. intros [v Hv]. cbn in Hv. apply map_lookup_filter_Some in Hv as [Hv Hne]. split; [by exists v|done]. Qed.

Lemma options_limit (m m' : gmap (byte * Z * list byte) (list byte)) :
  m' ⊆ m -> Z.of_nat (size (delete affinity_key m)) <= 256 -> Z.of_nat (size (delete affinity_key m')) <= 256.
Proof.
  intros Hsub Hle. assert (size (delete affinity_key m') <= size (delete affinity_key m))%nat; [|lia].
  apply map_subseteq_size. by apply delete_mono.
Qed.

(** *** Panes come and go *)

Definition dropped (p : Z) (s : MultiplexerState) : MultiplexerState :=
  forgotten "p" p (with_gates (delete p) (with_panes (delete p) s)).

Lemma inv_drop p loose dead young s : inv (p :: loose) dead young s -> inv loose dead young (dropped p s).
Proof.
  intros H.
  assert (Hlive : forall q, is_Some (delete p (state_panes s) !! q) <-> q <> p /\ is_Some (state_panes s !! q)).
  { intros q. rewrite lookup_delete_is_Some. naive_solver. }
  split; cbn; try apply H.
  - intros id w Hw Hd. destruct (i_content _ _ _ _ H id w Hw Hd). split; try done.
    intros q Hq. apply Hlive. split; [|auto]. intros ->. eapply (i_loose _ _ _ _ H p id); [left|]. by exists w.
  - intros q [Hne Hq]%Hlive. destruct (i_owned _ _ _ _ H q Hq) as [Hl|Ho]; [|by right].
    apply elem_of_cons in Hl as [?|?]; [done|by left].
  - intros q id Hq. apply (i_loose _ _ _ _ H). by right.
  - apply map_Forall_delete, H.
  - intros q [_ Hq]%Hlive. by apply (i_pane_ids _ _ _ _ H).
  - intros scope id key [Hk Hne]%forgotten_some. destruct (i_options _ _ _ _ H scope id key Hk) as (H1 & H2 & H3).
    split_and!; [|done..]. intros Hp. apply Hlive. naive_solver.
  - destruct (i_limits _ _ _ _ H) as (H1 & H2 & H3 & H4). split_and!; [|done| |done].
    + assert (size (delete p (state_panes s)) <= size (state_panes s))%nat; [|lia]. apply map_subseteq_size, delete_subseteq.
    + eapply options_limit; [|exact H3]. apply map_filter_subseteq.
Qed.

Definition spawned (x : Pane) (s : MultiplexerState) : MultiplexerState :=
  with_panes (fun m => <[next_pane s := x]> m) (with_next_pane (next_pane s + 1) s).

Lemma next_pane_fresh loose dead young s : inv loose dead young s -> state_panes s !! next_pane s = None.
Proof. intros H. apply eq_None_not_Some. intros Hs. apply (i_pane_ids _ _ _ _ H) in Hs. lia. Qed.

Lemma inv_spawn young s x :
  inv [] None young s -> Z.of_nat (size (state_panes s)) < 64 -> rect_ok (rect x) ->
  inv [next_pane s] None young (spawned x s).
Proof.
  intros H Hsize Hx. pose proof (next_pane_fresh _ _ _ _ H) as Hfresh. pose proof (i_next _ _ _ _ H) as Hnext.
  split; cbn; try apply H.
  - intros id w Hw Hd. destruct (i_content _ _ _ _ H id w Hw Hd). split; try done.
    intros q Hq. apply lookup_insert_is_Some'. right. auto.
  - intros q [<-|Hq]%lookup_insert_is_Some'; [left; left|]. destruct (i_owned _ _ _ _ H q Hq) as [Hl|Ho]; [|by right].
    by apply not_elem_of_nil in Hl.
  - intros p id ->%list_elem_of_singleton (w & Hw & Hd & Hp).
    destruct (c_live _ _ (i_content _ _ _ _ H id w Hw Hd) _ Hp) as [? Hsome]. by rewrite Hfresh in Hsome.
  - apply map_Forall_insert_2; [done|apply H].
  - intros p [<-|Hp]%lookup_insert_is_Some'; [lia|]. apply (i_pane_ids _ _ _ _ H) in Hp. lia.
  - lia.
  - intros scope id key Hk. destruct (i_options _ _ _ _ H scope id key Hk) as (H1 & H2 & H3). split_and!; [|done..].
    cbn. intros Hp. apply lookup_insert_is_Some'. by right; apply H1.
  - destruct (i_limits _ _ _ _ H) as (_ & H2). split; [|done]. rewrite map_size_insert_None by done. lia.
Qed.

(** *** A pane gets a window *)

Definition added (id : Z) (w : Window) (v : Session) (s : MultiplexerState) : MultiplexerState :=
  with_sessions (fun m => <[session w := mkSession (session_name v) id (session_windows v ++ [id])]> m)
    (with_windows (fun m => <[id := w]> m) (with_next_window (id + 1) s)).

Lemma next_window_fresh loose dead young s : inv loose dead young s -> windows s !! next_window s = None.
Proof. intros H. apply eq_None_not_Some. intros Hs. apply (i_window_ids _ _ _ _ H) in Hs. lia. Qed.

Lemma inv_add p young s w v :
  inv [p] None young s -> young = None \/ young = Some (session w) -> sessions s !! session w = Some v ->
  is_Some (state_panes s !! p) -> layout w = HtmLayout.Pane p -> window_active w = p -> zoom w = None ->
  rect_ok (window_rect w) -> inv [] None None (added (next_window s) w v s).
Proof.
  intros H Hy Hv Hp Hl Ha Hz Hr. pose proof (next_window_fresh _ _ _ _ H) as Hfresh.
  pose proof (i_next _ _ _ _ H) as Hnext.
  assert (Hpw : forall q, q ∈ panes (layout w) <-> q = p) by (intros q; rewrite Hl; apply list_elem_of_singleton).
  assert (Hnew : next_window s ∉ session_windows v).
  { intros Hin. destruct (i_listed _ _ _ _ H _ _ _ Hv Hin) as (x & Hx & _). by rewrite Hfresh in Hx. }
  split; cbn; try apply H.
  - intros j x Hx _. apply lookup_insert_Some in Hx as [[<- <-]|[Hne Hx]]; [|by apply (i_content _ _ _ _ H j)].
    split; rewrite ?Hl, ?Ha, ?Hz; [done|apply NoDup_singleton| |left|done|done].
    intros q ->%list_elem_of_singleton. done.
  - intros j x Hx. apply lookup_insert_Some in Hx as [[<- <-]|[Hne Hx]].
    + eexists. rewrite lookup_insert_eq. split; [done|]. apply elem_of_app. right. left.
    + destruct (i_home _ _ _ _ H j x Hx) as (v' & Hv' & Hj). destruct (decide (session x = session w)) as [E|E].
      * rewrite E in *. simplify_eq. eexists. rewrite lookup_insert_eq. split; [done|]. apply elem_of_app. by left.
      * exists v'. by rewrite lookup_insert_ne.
  - intros q Hq. right. setoid_rewrite owns_insert; [|done].
    destruct (i_owned _ _ _ _ H q Hq) as [->%list_elem_of_singleton|[j Hj]].
    + exists (next_window s). left. split; [done|]. by apply Hpw.
    + exists j. right. split; [|done]. intros ->. destruct Hj as (x & Hx & _). by rewrite Hfresh in Hx.
  - intros q j Hq. by apply not_elem_of_nil in Hq.
  - assert (Hold : forall j, ~ owns None (windows s) j p) by (intros j; apply (i_loose _ _ _ _ H); left).
    intros q j j' [[-> Hq]|[Hne Ho]]%owns_insert [[-> Hq']|[Hne' Ho']]%owns_insert; try done.
    + apply Hpw in Hq as ->. by destruct (Hold j').
    + apply Hpw in Hq' as ->. by destruct (Hold j).
    + by eapply (i_unique _ _ _ _ H q).
  - intros sid v' j Hv' Hj. apply lookup_insert_Some in Hv' as [[<- <-]|[Hne Hv']].
    + cbn in Hj. apply elem_of_app in Hj as [Hj| ->%list_elem_of_singleton].
      * destruct (i_listed _ _ _ _ H _ _ _ Hv Hj) as (x & Hx & Hsx). exists x. split; [|done].
        rewrite lookup_insert_ne; [done|]. congruence.
      * exists w. by rewrite lookup_insert_eq.
    + destruct (i_listed _ _ _ _ H _ _ _ Hv' Hj) as (x & Hx & Hsx). exists x. split; [|done].
      rewrite lookup_insert_ne; [done|]. congruence.
  - intros sid v' Hv'. apply lookup_insert_Some in Hv' as [[<- <-]|[Hne Hv']]; cbn.
    + split; [|intros _; apply elem_of_app; right; left]. destruct (i_session _ _ _ _ H _ _ Hv) as [Hnd _].
      apply NoDup_app. split_and!; [done| |apply NoDup_singleton]. intros j Hj ->%list_elem_of_singleton. done.
    + destruct (i_session _ _ _ _ H _ _ Hv') as [Hnd Hact]. split; [done|]. intros _. apply Hact.
      destruct Hy as [->| ->]; congruence.
  - left. destruct (i_active _ _ _ _ H) as [Hact|[He _]]; [|by rewrite He in Hv].
    apply lookup_insert_is_Some'. by right.
  - intros j [<-|Hj]%lookup_insert_is_Some'; [lia|]. apply (i_window_ids _ _ _ _ H) in Hj. lia.
  - intros sid [<-|Hsid]%lookup_insert_is_Some'; apply (i_session_ids _ _ _ _ H); [by exists v|done].
  - lia.
  - intros scope j key Hk. destruct (i_options _ _ _ _ H scope j key Hk) as (H1 & H2 & H3). split_and!; [done|..]; cbn;
      intros Hsc; apply lookup_insert_is_Some'; right; auto.
  - destruct (i_limits _ _ _ _ H) as (H1 & H2 & H3). split_and!; [done| |apply H3..].
    rewrite map_size_insert_Some by by exists v. done.
Qed.

(** *** A window goes *)

Lemma filter_other {s id dead sid v w} :
  inv [] dead None s -> windows s !! id = Some w -> sessions s !! sid = Some v -> sid <> session w ->
  filter (fun x => x <> id) (session_windows v) = session_windows v.
Proof.
  intros H Hw Hv Hne. assert (Hni : id ∉ session_windows v).
  { intros Hin. destruct (i_listed _ _ _ _ H _ _ _ Hv Hin) as (x & Hx & Hs). congruence. }
  revert Hni. generalize (session_windows v). induction l as [|a l IH]; [done|]. intros [Ha Hl]%not_elem_of_cons.
  rewrite filter_cons_True by congruence. by rewrite IH.
Qed.

(** Every session loses the window, and those it was the last of are gone. *)
Lemma inv_removed s s' id w :
  inv [] (Some id) None s -> windows s !! id = Some w -> windows s' = delete id (windows s) ->
  state_panes s' = state_panes s -> client_size s' = client_size s -> buffers s' = buffers s ->
  same_ids s s' -> options s' ⊆ options s ->
  (forall sc j key, is_Some (options s' !! (sc, j, key)) ->
     (sc = "w"%byte -> j <> id) /\ (sc = " "%byte -> is_Some (sessions s' !! j))) ->
  (forall sid x, sessions s' !! sid = Some x -> exists y, sessions s !! sid = Some y /\
     session_windows x = filter (fun x => x <> id) (session_windows y) /\ session_active x ∈ session_windows x) ->
  (forall sid y, sessions s !! sid = Some y -> filter (fun x => x <> id) (session_windows y) <> [] ->
     is_Some (sessions s' !! sid)) ->
  is_Some (sessions s' !! active s') \/ (sessions s' = ∅ /\ active s' = 0) -> inv [] None None s'.
Proof.
  intros H Hw Ews Ep Ec Eb (En1 & En2 & En3) Hopt Hopts Hold Hnew Hact.
  assert (Hown : forall j p, owns None (windows s') j p <-> owns (Some id) (windows s) j p).
  { intros j p. rewrite Ews. unfold owns. setoid_rewrite lookup_delete_Some. naive_solver. }
  split; rewrite ?Ep, ?Ec, ?Eb, ?En1, ?En2, ?En3; try done; try apply H.
  - intros j x Hx _. rewrite Ews in Hx. apply lookup_delete_Some in Hx as [Hne Hx].
    apply (i_content _ _ _ _ H j); [done|congruence].
  - intros j x Hx. rewrite Ews in Hx. apply lookup_delete_Some in Hx as [Hne Hx].
    destruct (i_home _ _ _ _ H j x Hx) as (y & Hy & Hj).
    assert (Hin : j ∈ filter (fun x => x <> id) (session_windows y)) by (apply list_elem_of_filter; done).
    destruct (Hnew _ _ Hy) as [z Hz]; [intros E; rewrite E in Hin; by apply not_elem_of_nil in Hin|].
    destruct (Hold _ _ Hz) as (y' & Hy' & Hwin & _). simplify_eq. exists z. by rewrite Hwin.
  - intros p Hp. setoid_rewrite Hown. by apply (i_owned _ _ _ _ H).
  - intros p j. rewrite Hown. apply (i_loose _ _ _ _ H).
  - intros p j j'. rewrite !Hown. apply (i_unique _ _ _ _ H).
  - intros sid x j Hx Hj. destruct (Hold _ _ Hx) as (y & Hy & Hwin & _). rewrite Hwin in Hj.
    apply list_elem_of_filter in Hj as [Hne Hj]. destruct (i_listed _ _ _ _ H _ _ _ Hy Hj) as (z & Hz & Hs).
    exists z. rewrite Ews, lookup_delete_ne by done. done.
  - intros sid x Hx. destruct (Hold _ _ Hx) as (y & Hy & Hwin & Ha). split; [|done]. rewrite Hwin.
    apply NoDup_filter. apply (i_session _ _ _ _ H _ _ Hy).
  - intros j Hj. rewrite Ews in Hj. apply lookup_delete_is_Some in Hj as [_ Hj]. by apply (i_window_ids _ _ _ _ H).
  - intros sid [x Hx]. destruct (Hold _ _ Hx) as (y & Hy & _). apply (i_session_ids _ _ _ _ H). by exists y.
  - intros sc j key Hk. destruct (Hopts sc j key Hk) as [Hw1 Hs1]. destruct Hk as [o Ho].
    destruct (i_options _ _ _ _ H sc j key) as (H1 & H2 & H3); [exists o; by eapply lookup_weaken|].
    split_and!; [by rewrite Ep| |done]. intros Hsc. rewrite Ews, lookup_delete_ne by (by apply not_eq_sym, Hw1). by apply H2.
  - destruct (i_limits _ _ _ _ H) as (H1 & H2 & H3 & H4). split_and!; [done| | |done].
    + rewrite <- size_dom in *. assert (size (dom (sessions s')) <= size (dom (sessions s)))%nat; [|lia].
      apply subseteq_size. intros sid [x Hx]%elem_of_dom. destruct (Hold _ _ Hx) as (y & Hy & _).
      apply elem_of_dom. by exists y.
    + by eapply options_limit.
Qed.

(** The session keeps other windows. *)
Lemma inv_removed_some s s' id w v a :
  inv [] (Some id) None s -> windows s !! id = Some w -> sessions s !! session w = Some v ->
  let left := filter (fun x => x <> id) (session_windows v) in
  a ∈ left -> windows s' = delete id (windows s) -> state_panes s' = state_panes s ->
  client_size s' = client_size s -> buffers s' = buffers s -> same_ids s s' ->
  options s' = options (forgotten "w" id s) -> active s' = active s ->
  sessions s' = <[session w := mkSession (session_name v) a left]> (sessions s) -> inv [] None None s'.
Proof.
  intros H Hw Hv left Ha E1 E2 E3 E4 E5 E6 E7 E8.
  apply (inv_removed s s' id w); try done; rewrite ?E6, ?E7, ?E8.
  - apply map_filter_subseteq.
  - intros sc j key [Hk Hne]%forgotten_some. split; [tauto|]. intros Hsc. apply lookup_insert_is_Some'. right.
    by apply (i_options _ _ _ _ H sc j key).
  - intros sid x [[<- <-]|[Hne Hx]]%lookup_insert_Some; [by exists v|].
    exists x. rewrite (filter_other H Hw Hx) by congruence. split_and!; [done..|].
    by apply (i_session _ _ _ _ H _ _ Hx).
  - intros sid y Hy _. apply lookup_insert_is_Some'. right. by exists y.
  - left. destruct (i_active _ _ _ _ H) as [Hact|[He _]]; [|by rewrite He in Hv].
    apply lookup_insert_is_Some'. by right.
Qed.

(** The session goes with its last window. *)
Lemma inv_removed_last s s' id w v :
  inv [] (Some id) None s -> windows s !! id = Some w -> sessions s !! session w = Some v ->
  filter (fun x => x <> id) (session_windows v) = [] -> windows s' = delete id (windows s) ->
  state_panes s' = state_panes s -> client_size s' = client_size s -> buffers s' = buffers s -> same_ids s s' ->
  options s' = options (forgotten " " (session w) (forgotten "w" id s)) ->
  sessions s' = delete (session w) (sessions s) ->
  is_Some (sessions s' !! active s') \/ (sessions s' = ∅ /\ active s' = 0) -> inv [] None None s'.
Proof.
  intros H Hw Hv Hleft E1 E2 E3 E4 E5 E6 E7 Hact. apply (inv_removed s s' id w); try done; rewrite ?E6, ?E7.
  - etransitivity; apply map_filter_subseteq.
  - intros sc j key [[Hk Hn1]%forgotten_some Hn2]%forgotten_some. split; [tauto|].
    intros ->. rewrite lookup_delete_ne by naive_solver. by apply (i_options _ _ _ _ H _ _ _ Hk).
  - intros sid x [Hne Hx]%lookup_delete_Some. exists x. rewrite (filter_other H Hw Hx) by congruence.
    split_and!; [done..|]. by apply (i_session _ _ _ _ H _ _ Hx).
  - intros sid y Hy Hf. rewrite lookup_delete_ne; [by exists y|]. intros <-. apply Hf. by simplify_eq.
Qed.

Lemma wp_remove_window id w s (Q : unit -> MultiplexerState -> Prop) F :
  inv [] (Some id) None s -> windows s !! id = Some w ->
  (forall s', inv [] None None s' -> same_ids s s' -> Q tt s') -> wp (remove_window id) Q F s.
Proof.
  intros H Hw HQ. unfold remove_window. apply wp_bind, wp_gets. rewrite Hw. unfold forget_options, notify. wp_steps.
  destruct (i_home _ _ _ _ H id w Hw) as (v & Hv & Hid). apply (wp_index sessions _ v); [done|]. wp_steps.
  set (left := filter _ _). destruct (last left) as [newest|] eqn:Hlast.
  - apply last_Some_elem_of in Hlast. apply wp_bind.
    destruct (Z.eqb_spec (session_active v) id) as [E|E]; wp_steps; (apply HQ; [|done]).
    + apply (inv_removed_some s _ id w v newest); try done. cbn. by rewrite insert_insert_eq.
    + apply (inv_removed_some s _ id w v (session_active v)); try done. apply list_elem_of_filter. split; [done|].
      by apply (i_session _ _ _ _ H _ _ Hv).
  - apply last_None in Hlast. wp_steps. cbn [active with_active with_notifications with_sessions with_options with_windows].
    set (s2 := with_notifications _ (with_options _ (with_sessions _ _))).
    assert (Hs2 : sessions s2 = delete (session w) (sessions s)) by (cbn; by rewrite delete_insert_eq).
    destruct (Z.eqb_spec (active s) (session w)) as [E|E].
    + wp_steps. destruct (head (keys (sessions s2))) as [next|] eqn:Hhd; cbn [unwrap_or].
      * pose proof (head_keys _ _ Hhd) as [vn Hvn].
        assert (Hpos : 1 <= next < next_session s).
        { apply (i_session_ids _ _ _ _ H). rewrite Hs2 in Hvn. apply lookup_delete_Some in Hvn as [_ Hvn]. by exists vn. }
        rewrite (proj2 (Z.eqb_neq next 0)) by lia. cbn [negb].
        assert (Hi : inv [] None None (with_active next s2)).
        { apply (inv_removed_last s _ id w v); try done. left. by exists vn. }
        apply (wp_session_changed vn); [done|]. intros s' Hs'. apply HQ; [by eapply inv_same|].
        by apply same_ids_of_same in Hs'.
      * apply wp_ret, HQ; [|done]. apply (inv_removed_last s _ id w v); try done. right. cbn. split; [|done].
        by apply (head_keys_none (sessions s2)).
    + apply wp_ret, HQ; [|done]. apply (inv_removed_last s _ id w v); try done. left.
      change (is_Some (sessions s2 !! active s)). rewrite Hs2.
      destruct (i_active _ _ _ _ H) as [Hact|[He _]]; [|by rewrite He in Hv]. by rewrite lookup_delete_ne by done.
Qed.
