(* ===== verification/HtmSafety.v ===== *)
(** * HtmSafety: the operations of [state.rs] keep the invariant

    Each operation, run on a well-formed state with identities left, ends in a
    well-formed state and does not panic, whether it succeeds or fails. *)

From Stdlib Require Import String.
From stdpp Require Import gmap sorting.
From S2P Require Import Prelude Bytes HtmLayout HtmFraming HtmPane HtmState HtmInvariant.

(** ** Targets *)

Lemma window_of_spec p s :
  match window_of p s with
  | Ok id => exists w, windows s !! id = Some w /\ p ∈ panes (layout w)
  | Err e => e <> Panicked /\ forall id w, windows s !! id = Some w -> p ∉ panes (layout w)
  end.
Proof.
  unfold window_of. destruct (find_key _ _) as [id|] eqn:Hf.
  - apply find_key_some in Hf as (w & Hw & Hc). exists w. split; [done|]. by apply contains_panes.
  - split; [done|]. intros id w Hw. apply contains_false. by eapply (find_key_none _ _ id w) in Hf.
Qed.

Lemma wp_window_of p s (Q : Z -> MultiplexerState -> Prop) F :
  F s -> (forall id w, windows s !! id = Some w -> p ∈ panes (layout w) -> Q id s) -> wp (reads (window_of p)) Q F s.
Proof.
  intros HF HQ. pose proof (window_of_spec p s) as H. apply wp_reads; [|done|].
  - intros E. rewrite E in H. naive_solver.
  - intros id E. rewrite E in H. destruct H as (w & Hw & Hp). by eapply HQ.
Qed.

Lemma wp_window_of_live loose p s (Q : Z -> MultiplexerState -> Prop) F :
  inv loose None None s -> is_Some (state_panes s !! p) -> p ∉ loose ->
  (forall id w, windows s !! id = Some w -> p ∈ panes (layout w) -> Q id s) -> wp (reads (window_of p)) Q F s.
Proof.
  intros H Hp Hl HQ. pose proof (window_of_spec p s) as Hs. destruct (window_of p s) as [id|e] eqn:E.
  - apply (wp_reads_ok _ id); [done|]. destruct Hs as (w & Hw & Hin). by eapply HQ.
  - destruct (i_owned _ _ _ _ H p Hp) as [?|(id & w & Hw & _ & Hin)]; [done|]. by destruct (proj2 Hs id w Hw).
Qed.

(** ** Small steps *)

Lemma inv_with_active loose dead young s a :
  inv loose dead young s -> is_Some (sessions s !! a) -> inv loose dead young (with_active a s).
Proof. intros H Ha. split; cbn; try apply H. by left. Qed.

Lemma inv_with_gates loose dead young s f : inv loose dead young s -> inv loose dead young (with_gates f s).
Proof. intros H. split; cbn; apply H. Qed.

(** A window keeps its panes and its session. *)
Lemma inv_update loose dead young s id w w' :
  inv loose dead young s -> windows s !! id = Some w -> Some id <> dead -> session w' = session w ->
  panes (layout w') = panes (layout w) -> well_formed (layout w') = true ->
  window_active w' ∈ panes (layout w) -> (forall p, zoom w' = Some p -> p ∈ panes (layout w)) ->
  rect_ok (window_rect w') -> inv loose dead young (put_windows id w' s).
Proof.
  intros H Hw Hd Hs Hp Hwf Ha Hz Hr. pose proof (i_content _ _ _ _ H id w Hw Hd) as [Cwf Cnd Clive Cact Czoom Crect].
  eapply inv_replace; [done|done|done|done| | |].
  - split; rewrite ?Hp; try done.
  - intros p. by rewrite Hp.
  - intros p Hl Hin. rewrite Hp in Hin. eapply (i_loose _ _ _ _ H p id); [done|]. by exists w.
Qed.

Section host.
Context (host : Host).

(** Lay out a window that stays, and tell; more may follow. *)
Lemma wp_redraw loose dead young id w s (Q : unit -> MultiplexerState -> Prop) F :
  inv loose dead young s -> windows s !! id = Some w -> Some id <> dead ->
  (forall s', same s s' -> Q tt s') -> wp (resize host id) (fun _ s' => wp (layout_changed id) Q F s') F s.
Proof.
  intros H Hw Hd HQ. pose proof (drawable_of_inv _ _ _ _ _ _ H Hw Hd) as Hdraw.
  eapply wp_resize; [done|done|]. intros s1 H1.
  eapply (wp_layout_changed id w); [by rewrite (same_windows _ _ H1)|by eapply drawable_same|].
  intros s2 H2. apply HQ. by transitivity s1.
Qed.

Lemma wp_redraw_then {A} loose dead young id w s (k : M A) (Q : A -> MultiplexerState -> Prop) F :
  inv loose dead young s -> windows s !! id = Some w -> Some id <> dead ->
  (forall s', same s s' -> wp k Q F s') -> wp (resize host id) (fun _ s' => wp (layout_changed id;;; k) Q F s') F s.
Proof.
  intros H Hw Hd HQ. pose proof (drawable_of_inv _ _ _ _ _ _ H Hw Hd) as Hdraw.
  eapply wp_resize; [done|done|]. intros s1 H1. apply wp_bind.
  eapply (wp_layout_changed id w); [by rewrite (same_windows _ _ H1)|by eapply drawable_same|].
  intros s2 H2. apply HQ. by transitivity s1.
Qed.

Lemma wrap32_next n : 0 <= n -> n < 2 ^ 32 - 1 -> wrap32 (n + 1) = n + 1.
Proof. intros. unfold wrap32. apply Z.mod_small. lia. Qed.

(** ** Creation *)

Lemma wp_spawn young dir s (Q : Z -> MultiplexerState -> Prop) F :
  inv [] None young s -> next_pane s < 2 ^ 32 - 1 -> F s ->
  (forall x, inv [next_pane s] None young (spawned x s) -> Q (next_pane s) (spawned x s)) ->
  wp (spawn host dir) Q F s.
Proof.
  intros H Hid HF HQ. unfold spawn. apply wp_bind, wp_gets. destruct (Z.leb_spec 64 (Z.of_nat (size (state_panes s)))).
  { by apply wp_fail. }
  apply wp_bind, wp_gets. pose proof (i_client _ _ _ _ H) as Hc. destruct (client_size s) as [c r].
  apply wp_bind, wp_reads; [by destruct (PaneScreen_new _ _ _ _)|done|]. intros scr _.
  apply wp_bind, wp_reads; [by destruct (start_in_size _ _ _ _)|done|]. intros term _. wp_steps.
  rewrite wrap32_next by (done || apply (i_next _ _ _ _ H)). apply HQ. by apply inv_spawn.
Qed.

Lemma wp_window_from_pane young p sid name v s (Q : Z -> MultiplexerState -> Prop) F :
  inv [p] None young s -> young = None \/ young = Some sid -> sessions s !! sid = Some v ->
  is_Some (state_panes s !! p) -> next_window s < 2 ^ 32 - 1 ->
  (forall s' w, state_ok s' -> next_pane s' = next_pane s -> next_window s' = next_window s + 1 ->
     next_session s' = next_session s -> dom (sessions s') = dom (sessions s) -> active s' = active s ->
     windows s' !! next_window s = Some w -> Q (next_window s) s') ->
  wp (window_from_pane host p sid name) Q F s.
Proof.
  intros H Hy Hv Hp Hid HQ. unfold window_from_pane, session_at. wp_steps. apply (wp_index sessions _ v); [done|]. wp_steps.
  pose proof (i_client _ _ _ _ H) as Hc. cbn [client_size with_next_window]. destruct (client_size s) as [c r]. wp_steps.
  rewrite wrap32_next by (done || apply (i_next _ _ _ _ H)).
  set (w := mkWindow sid _ _ _ _ _ _ _). set (s1 := with_sessions _ _).
  assert (H1 : inv [] None None s1) by (apply (inv_add p young s w v); done).
  assert (Hw1 : windows s1 !! next_window s = Some w) by apply lookup_insert_eq.
  assert (Hdom : dom (sessions s1) = dom (sessions s)).
  { cbn. rewrite dom_insert_L. assert (sid ∈ dom (sessions s)) by (apply elem_of_dom; by exists v). set_solver. }
  eapply wp_resize; [done|by eapply drawable_of_inv|]. intros s2 H2. apply wp_bind.
  assert (Hgo : forall s3, same s1 s3 -> Q (next_window s) s3).
  { intros s3 H3. apply (HQ s3 w).
    - by eapply inv_same.
    - by rewrite (same_next_pane _ _ H3).
    - by rewrite (same_next_window _ _ H3).
    - by rewrite (same_next_session _ _ H3).
    - by rewrite (same_sessions _ _ H3).
    - by rewrite (same_active _ _ H3).
    - by rewrite (same_windows _ _ H3). }
  destruct (0 <? _).
  - apply wp_notify. intros s3 H3. apply wp_bind, wp_notify. intros s4 H4. apply wp_ret, Hgo.
    transitivity s2; [done|]. by transitivity s3.
  - apply wp_ret, wp_bind, wp_notify. intros s3 H3. apply wp_ret, Hgo. by transitivity s2.
Qed.

(** A window in the active session. *)
Lemma wp_new_window young name dir v s (Q : Z -> MultiplexerState -> Prop) F :
  inv [] None young s -> young = None \/ young = Some (active s) -> sessions s !! active s = Some v ->
  next_pane s < 2 ^ 32 - 1 -> next_window s < 2 ^ 32 - 1 -> F s ->
  (forall id s' w, state_ok s' -> next_pane s' = next_pane s + 1 -> next_window s' = next_window s + 1 ->
     next_session s' = next_session s -> dom (sessions s') = dom (sessions s) -> active s' = active s ->
     windows s' !! id = Some w -> Q id s') ->
  wp (new_window host name dir) Q F s.
Proof.
  intros H Hy Hv Hp Hw HF HQ. unfold new_window. apply wp_bind.
  assert (Hgo : forall dir, wp (let* p := spawn host dir in let* sid := gets active in window_from_pane host p sid name) Q F s).
  { intros dir'. apply wp_bind. apply (wp_spawn young); [done|done|done|]. intros x Hx. wp_steps.
    eapply (wp_window_from_pane young _ (active s) name v); [done|done|done| |done|].
    - cbn. rewrite lookup_insert_eq. by eexists.
    - intros s' w Hok E1 E2 E3 E4 E5 Hwin. by eapply (HQ _ s' w). }
  destruct (non_empty dir) as [d|]; [apply wp_ret, Hgo|]. unfold session_at. wp_steps. apply (wp_index sessions _ v); [done|].
  destruct (session_windows v); [apply wp_ret, Hgo|apply wp_gets, Hgo].
Qed.

(** A session that has no window yet. *)
Lemma inv_young s name :
  state_ok s -> Z.of_nat (size (sessions s)) < 32 -> let id := next_session s in
  inv [] None (Some id)
    (with_active id (with_sessions (fun m => <[id := mkSession name 0 []]> m) (with_next_session (id + 1) s))).
Proof.
  intros H Hsize. cbn zeta. pose proof (i_next _ _ _ _ H) as Hn.
  assert (Hfresh : sessions s !! next_session s = None).
  { apply eq_None_not_Some. intros Hs. apply (i_session_ids _ _ _ _ H) in Hs. lia. }
  split; cbn; try apply H.
  - intros id w Hw. destruct (i_home _ _ _ _ H id w Hw) as (v & Hv & Hin). exists v. split; [|done].
    rewrite lookup_insert_ne; [done|]. congruence.
  - intros sid v id [[<- <-]|[Hne Hv]]%lookup_insert_Some Hid; [by apply not_elem_of_nil in Hid|].
    by eapply (i_listed _ _ _ _ H).
  - intros sid v [[<- <-]|[Hne Hv]]%lookup_insert_Some; cbn.
    + split; [apply NoDup_nil_2|done].
    + destruct (i_session _ _ _ _ H sid v Hv) as [Hnd Ha]. split; [done|]. intros _. by apply Ha.
  - left. rewrite lookup_insert_eq. by eexists.
  - intros sid [<-|Hs]%lookup_insert_is_Some'; [lia|]. apply (i_session_ids _ _ _ _ H) in Hs. lia.
  - lia.
  - intros scope id key Hk. destruct (i_options _ _ _ _ H scope id key Hk) as (H1 & H2 & H3). split_and!; [done|done|].
    cbn. intros Hsc. apply lookup_insert_is_Some'. by right; apply H3.
  - destruct (i_limits _ _ _ _ H) as (H1 & H2 & H3). split_and!; [done| |apply H3..].
    rewrite map_size_insert_None by done. lia.
Qed.

(** And without it again. *)
Lemma inv_more_sessions s n : state_ok s -> next_session s <= n -> state_ok (with_next_session n s).
Proof.
  intros H Hn. pose proof (i_next _ _ _ _ H). split; cbn; try apply H.
  - intros sid Hs. apply (i_session_ids _ _ _ _ H) in Hs. lia.
  - lia.
Qed.

Lemma wp_new_session name s (Q : Z -> MultiplexerState -> Prop) F :
  state_ok s -> ids_left s ->
  (is_Some (sessions s !! active s) -> forall s', state_ok s' -> more_ids s s' -> F s') ->
  (sessions s = ∅ -> forall s', F s') ->
  (forall id s', state_ok s' -> more_ids s s' -> is_Some (sessions s' !! id) -> is_Some (sessions s' !! active s') -> Q id s') ->
  wp (new_session host name) Q F s.
Proof.
  intros H (Hp & Hw & Hsn) HF HF0 HQ. pose proof (i_next _ _ _ _ H) as Hn. unfold new_session. apply wp_bind, wp_gets.
  destruct (Z.leb_spec 32 (Z.of_nat (size (sessions s)))) as [Hfull|Hroom].
  { apply wp_fail. destruct (i_active _ _ _ _ H) as [Ha|[He _]]; [apply HF; [done|done|unfold more_ids; lia]|by apply HF0]. }
  apply wp_bind, wp_gets, wp_bind, wp_modify, wp_bind, wp_modify, wp_bind, wp_gets, wp_bind, wp_modify.
  rewrite wrap32_next by (done || lia). set (id := next_session s).
  pose proof (inv_young s (match name with [] => dec id | _ => name end) H Hroom) as Hy. cbn zeta in Hy. fold id in Hy.
  set (s1 := with_active id _) in *.
  assert (Hfresh : sessions s !! id = None).
  { apply eq_None_not_Some. intros Hs. apply (i_session_ids _ _ _ _ H) in Hs. subst id. lia. }
  assert (Hv1 : exists v, sessions s1 !! active s1 = Some v) by (cbn; rewrite lookup_insert_eq; by eexists).
  destruct Hv1 as [v1 Hv1]. change (active (with_sessions _ _)) with (active s).
  pose proof (wp_new_window (Some id) None None v1 s1
    (fun wid s2 => state_ok s2 /\ more_ids s s2 /\ dom (sessions s2) = dom (sessions s1)) (fun s2 => s2 = s1)) as Hnw.
  assert (Hpost : wp (new_window host None None)
    (fun wid s2 => state_ok s2 /\ more_ids s s2 /\ dom (sessions s2) = dom (sessions s1)) (fun s2 => s2 = s1) s1).
  { apply Hnw; try done; [by right|]. intros wid s' w Hok E1 E2 E3 E4 E5 _. split_and!; [done| |done].
    unfold more_ids. rewrite E1, E2, E3. cbn. lia. }
  unfold wp in Hpost |- *. destruct (new_window host None None s1) as [[wid|[e|]] s2]; [| |done].
  - destruct Hpost as (Hok & Hmore & Hdom). cbn.
    assert (Hlive : is_Some (sessions s2 !! id)).
    { apply elem_of_dom. rewrite Hdom. apply elem_of_dom, lookup_insert_is_Some'. by left. }
    assert (Hact : is_Some (sessions s2 !! (if active s =? 0 then id else active s))).
    { destruct (Z.eqb_spec (active s) 0); [done|]. apply elem_of_dom. rewrite Hdom.
      apply elem_of_dom, lookup_insert_is_Some'. right. by destruct (i_active _ _ _ _ H) as [Ha|[_ E]]. }
    apply HQ; [|done|done|done]. apply (inv_same _ _ _ (with_active (if active s =? 0 then id else active s) s2)); [by split|].
    by apply inv_with_active.
  - rewrite Hpost. destruct (i_active _ _ _ _ H) as [Ha|[He E0]]; [|by apply HF0]. apply HF; [done| |].
    + assert (active s <> 0) by (apply (i_session_ids _ _ _ _ H) in Ha; lia).
      rewrite (proj2 (Z.eqb_neq (active s) 0)) by done.
      enough (with_sessions (delete id) (with_active (active s) s1) = with_next_session (id + 1) s) as ->.
      { apply inv_more_sessions; [done|]. subst id. lia. }
      unfold s1, with_sessions, with_active, with_next_session. cbn. by rewrite delete_insert_id.
    + unfold more_ids. cbn. subst id. lia.
Qed.

(** ** Splits and sizes *)

Lemma content_insert dead s id w p dest h b :
  inv [p] dead None s -> windows s !! id = Some w -> Some id <> dead -> dest ∈ panes (layout w) ->
  is_Some (state_panes s !! p) ->
  exists l, insert (layout w) dest p h b = Ok l /\
    inv [] dead None (put_windows id (set_focus (set_layout w l) p (zoom w)) s).
Proof.
  intros H Hw Hd Hdest Hp. pose proof (i_content _ _ _ _ H id w Hw Hd) as [Cwf Cnd Clive Cact Czoom Crect].
  destruct (insert_spec (layout w) dest p h b) as (l & Hl & Hwf & Hperm); [done..|]. exists l. split; [done|].
  assert (Hnew : p ∉ panes (layout w)).
  { intros Hin. eapply (i_loose _ _ _ _ H p id); [left|]. by exists w. }
  eapply inv_replace; [done|done|done|done| | |]; cbn.
  - split; cbn; [done| | | | |done].
    + rewrite Hperm. by apply NoDup_cons.
    + intros q. rewrite Hperm, elem_of_cons. intros [->|Hq]; auto.
    + rewrite Hperm. left.
    + intros q Hq. rewrite Hperm. right. auto.
  - intros q. rewrite Hperm, !elem_of_cons. pose proof (not_elem_of_nil q). tauto.
  - intros q Hq. by apply not_elem_of_nil in Hq.
Qed.

Lemma wp_split source horizontal dir s (Q : Z -> MultiplexerState -> Prop) F :
  state_ok s -> ids_left s -> F s ->
  (forall p s', state_ok s' -> more_ids s s' -> is_Some (state_panes s' !! p) -> Q p s') ->
  wp (split host source horizontal dir) Q F s.
Proof.
  intros H (Hp & _ & _) HF HQ. unfold split. apply wp_bind, wp_window_of; [done|]. intros id w Hw Hin. apply wp_bind.
  assert (Hgo : forall d, wp
    (let* p := spawn host (Some d) in
     let* win := window_at id in
     let* l := reads (fun _ => insert (layout win) source p horizontal None) in
     put_window id (set_focus (set_layout win l) p (zoom win));;;
     resize host id;;;
     notify (text [bytes_of "%window-pane-changed @"; dec id; bytes_of " %"; dec p; nl]);;;
     layout_changed id;;;
     ret p) Q F s).
  { intros d. apply wp_bind. apply (wp_spawn None); [done|done|done|]. intros x Hx. unfold window_at.
    apply wp_bind, (wp_index windows _ w); [done|].
    destruct (content_insert None _ id w (next_pane s) source horizontal None Hx) as (l & Hl & Hl'); [done|done|done| |].
    { cbn. rewrite lookup_insert_eq. by eexists. }
    apply wp_bind, (wp_reads_ok _ l); [done|]. wp_steps. set (s1 := with_windows _ _).
    change (put_windows _ _ _) with s1 in Hl'.
    assert (Hw1 : windows s1 !! id = Some (set_focus (set_layout w l) (next_pane s) (zoom w))) by apply lookup_insert_eq.
    pose proof (drawable_of_inv _ _ _ _ _ _ Hl' Hw1 ltac:(done)) as Hd.
    eapply wp_resize; [done|done|]. intros s2 H2. apply wp_bind, wp_notify. intros s3 H3. apply wp_bind.
    assert (H13 : same s1 s3) by (by transitivity s2).
    eapply wp_layout_changed; [by rewrite (same_windows _ _ H13)|by eapply drawable_same|]. intros s4 H4. apply wp_ret.
    assert (H14 : same s1 s4) by (by transitivity s3). pose proof (i_next _ _ _ _ H). apply HQ.
    - by eapply inv_same.
    - unfold more_ids. rewrite (same_next_pane _ _ H14), (same_next_window _ _ H14), (same_next_session _ _ H14). cbn. lia.
    - rewrite (same_live _ _ _ H14). cbn. rewrite lookup_insert_eq. by eexists. }
  destruct (non_empty dir) as [d|]; [apply wp_ret, Hgo|]. unfold pane_at.
  destruct (c_live _ _ (i_content _ _ _ _ H id w Hw ltac:(done)) source Hin) as [x Hx].
  apply wp_bind, (wp_index state_panes _ x); [done|]. apply wp_ret, Hgo.
Qed.

Lemma resize_axis_ok s id w w0 pane axis desired changed :
  state_ok s -> windows s !! id = Some w0 -> panes (layout w) = panes (layout w0) -> well_formed (layout w) = true ->
  rect_ok (window_rect w) -> (forall d, desired = Some d -> 1 <= d <= 65535) ->
  exists w' c, resize_axis pane axis desired w changed (state_panes s) = Ok (w', c) /\
    panes (layout w') = panes (layout w0) /\ well_formed (layout w') = true /\ rect_ok (window_rect w') /\
    session w' = session w /\ window_active w' = window_active w /\ zoom w' = zoom w.
Proof.
  intros H Hw Hp Hwf Hr Hd. unfold resize_axis. destruct desired as [want|]; [|by eexists _, _].
  destruct (absolute_ok (rect_of (state_panes s)) (layout w) pane axis want) as (l & did & Hl & Hlwf & Hlp); [done| |].
  { intros p Hin. rewrite Hp in Hin. destruct (c_live _ _ (i_content _ _ _ _ H id w0 Hw ltac:(done)) p Hin) as [x Hx].
    unfold rect_of, index. rewrite Hx. by eexists. }
  rewrite Hl. specialize (Hd want eq_refl). destruct Hr as [Hc Hrr].
  destruct did as [b|]; [eexists _, _; split_and!; try done; cbn; congruence|].
  destruct axis; eexists _, _; split_and!; try done; cbn; try congruence; split; cbn; lia.
Qed.

Lemma wp_resize_pane pane c r s (Q : unit -> MultiplexerState -> Prop) F :
  state_ok s -> (forall d, c = Some d -> 1 <= d <= 65535) -> (forall d, r = Some d -> 1 <= d <= 65535) -> F s ->
  (forall s', state_ok s' -> same_ids s s' -> Q tt s') -> wp (resize_pane host pane c r) Q F s.
Proof.
  intros H Hc Hr HF HQ. unfold resize_pane, window_at. apply wp_bind, wp_window_of; [done|]. intros id w Hw Hin.
  apply wp_bind, (wp_index windows _ w); [done|]. pose proof (i_content _ _ _ _ H id w Hw ltac:(done)) as [Cwf Cnd Clive Cact Czoom Crect].
  destruct (resize_axis_ok s id w w pane true c (is_leaf (layout w))) as (w1 & c1 & E1 & P1 & W1 & R1 & S1 & A1 & Z1); [done..|].
  apply wp_bind, (wp_reads_ok _ (w1, c1)); [done|].
  destruct (resize_axis_ok s id w1 w pane false r c1) as (w2 & c2 & E2 & P2 & W2 & R2 & S2 & A2 & Z2); [done..|].
  apply wp_bind, (wp_reads_ok _ (w2, c2)); [done|]. wp_steps.
  assert (Hi : state_ok (put_windows id w2 s)).
  { eapply inv_update; try done; [congruence|rewrite A2, A1; done|]. intros p. rewrite Z2, Z1. auto. }
  destruct c2; [|apply wp_ret, HQ; done].
  apply wp_bind. eapply wp_redraw; [exact Hi|apply lookup_insert_eq|done|]. intros s' Hs. apply HQ; [by eapply inv_same|].
  by apply same_ids_of_same in Hs.
Qed.

Lemma wp_resize_direction pane dir amount s (Q : unit -> MultiplexerState -> Prop) F :
  state_ok s -> F s -> (forall s', state_ok s' -> same_ids s s' -> Q tt s') ->
  wp (resize_direction host pane dir amount) Q F s.
Proof.
  intros H HF HQ. unfold resize_direction, window_at. apply wp_bind, wp_window_of; [done|]. intros id w Hw Hin.
  apply wp_bind, (wp_index windows _ w); [done|]. pose proof (i_content _ _ _ _ H id w Hw ltac:(done)) as [Cwf Cnd Clive Cact Czoom Crect].
  destruct (directional_ok (rect_of (state_panes s)) (layout w) pane dir amount) as (l & c & E & W & P); [done| |].
  { intros p Hp. destruct (Clive p Hp) as [x Hx]. unfold rect_of, index. rewrite Hx. by eexists. }
  apply wp_bind, (wp_reads_ok _ (l, c)); [done|]. wp_steps.
  assert (Hi : state_ok (put_windows id (set_layout w l) s)) by (eapply inv_update; try done; auto).
  destruct c; [|apply wp_ret, HQ; done].
  apply wp_bind. eapply wp_redraw; [exact Hi|apply lookup_insert_eq|done|]. intros s' Hs. apply HQ; [by eapply inv_same|].
  by apply same_ids_of_same in Hs.
Qed.

(** ** Removal *)

(** [unlink]: the pane is in hand, or it was its window's only one. *)
Lemma wp_unlink pane s (Q : Z * bool -> MultiplexerState -> Prop) F :
  state_ok s -> is_Some (state_panes s !! pane) ->
  (forall id w w', windows s !! id = Some w -> pane ∈ panes (layout w) -> session w' = session w ->
     panes (layout w') = filter (fun p => p <> pane) (panes (layout w)) ->
     inv [pane] None None (put_windows id w' s) -> Q (id, false) (put_windows id w' s)) ->
  (forall id w, windows s !! id = Some w -> panes (layout w) = [pane] -> Q (id, true) s) ->
  wp (unlink pane) Q F s.
Proof.
  intros H Hp HQ HQ'. unfold unlink, window_at. apply wp_bind.
  apply (wp_window_of_live []); [done|done|apply not_elem_of_nil|]. intros id w Hw Hin.
  apply wp_bind, (wp_index windows _ w); [done|]. pose proof (i_content _ _ _ _ H id w Hw ltac:(done)) as [Cwf Cnd Clive Cact Czoom Crect].
  pose proof (remove_spec (layout w) pane Cwf) as Hrem. destruct (remove (layout w) pane) as [tree|].
  - destruct Hrem as [Hwf Htree]. apply wp_bind.
    assert (Hsub : forall q, q ∈ panes tree <-> q ∈ panes (layout w) /\ q <> pane).
    { intros q. rewrite Htree, list_elem_of_filter. tauto. }
    assert (Hgo : forall a, a ∈ panes tree -> wp (put_window id
      (set_focus (set_layout w tree) a (if bool_decide (zoom w = Some pane) then None else zoom w));;; ret (id, false)) Q F s).
    { intros a Ha. wp_steps. apply (HQ id w); [done..|].
      eapply inv_replace; [exact H|exact Hw|done|done| | |]; cbn.
      - split; cbn; [done|rewrite Htree; by apply NoDup_filter| |done| |done].
        + intros q Hq. apply Clive. by apply Hsub.
        + intros q Hq. apply Hsub. case_bool_decide as Hz; [done|]. split; [auto|congruence].
      - intros q. rewrite Hsub, list_elem_of_singleton. pose proof (not_elem_of_nil q).
        destruct (decide (q = pane)) as [->|]; naive_solver.
      - intros q ->%list_elem_of_singleton. rewrite Hsub. naive_solver. }
    destruct (Z.eqb_spec (window_active w) pane) as [E|E]; cbn [orb].
    + unfold first_pane. destruct (panes tree) as [|a l] eqn:Et; [by apply panes_nonempty in Hwf|].
      apply (wp_reads_ok _ a); [done|]. apply Hgo. left.
    + case_bool_decide.
      * unfold first_pane. destruct (panes tree) as [|a l] eqn:Et; [by apply panes_nonempty in Hwf|].
        apply (wp_reads_ok _ a); [done|]. apply Hgo. left.
      * apply wp_ret, Hgo. by apply Hsub.
  - apply wp_ret, (HQ' id w); [done|].
    destruct (panes (layout w)) as [|a [|b l]]; [by apply not_elem_of_nil in Hin|by apply list_elem_of_singleton in Hin as ->|].
    exfalso. assert (Hall : forall q, q ∈ a :: b :: l -> q = pane).
    { intros q Hq. destruct (decide (q = pane)) as [|Hne]; [done|]. assert (Hf : q ∈ filter (fun p => p <> pane) (a :: b :: l)).
      { apply list_elem_of_filter. done. } rewrite Hrem in Hf. by apply not_elem_of_nil in Hf. }
    apply NoDup_cons in Cnd as [Hna _]. apply Hna. rewrite (Hall a), (Hall b); [left|right; left|left].
Qed.

Lemma wp_close pane s (Q : unit -> MultiplexerState -> Prop) F :
  state_ok s -> (forall s', state_ok s' -> same_ids s s' -> Q tt s') -> wp (close host pane) Q F s.
Proof.
  intros H HQ. unfold close. apply wp_bind, wp_gets. destruct (has (state_panes s) pane) eqn:Hk; [|by apply wp_ret, HQ].
  apply has_spec in Hk. apply wp_bind, wp_unlink; [done|done| |].
  - intros id w w' Hw Hin Hs Hp Hi. unfold drop_pane, forget_options. wp_steps.
    set (s1 := with_options _ _). assert (H1 : inv [] None None s1) by (by apply (inv_drop pane)).
    eapply (wp_redraw_then [] None None id w'); [done|apply lookup_insert_eq|done|]. intros s2 H2.
    eapply (wp_announce_active id w'); [rewrite (same_windows _ _ H2); apply lookup_insert_eq|]. intros s3 H3.
    assert (H13 : same s1 s3) by (by transitivity s2). apply HQ; [by eapply inv_same|]. by apply same_ids_of_same in H13.
  - intros id w Hw Hp. unfold drop_pane, forget_options. wp_steps.
    pose proof (inv_kill [] None s id w H Hw) as Hkill. rewrite Hp, app_nil_r in Hkill.
    eapply wp_remove_window; [by apply (inv_drop pane)|done|]. intros s' Hs Hids. by apply HQ.
Qed.

Lemma wp_drop_all l loose dead young s (Q : unit -> MultiplexerState -> Prop) F :
  inv (l ++ loose) dead young s ->
  (forall s', inv loose dead young s' -> windows s' = windows s -> same_ids s s' -> Q tt s') ->
  wp (for_each l drop_pane) Q F s.
Proof.
  revert s. induction l as [|p l IH]; intros s H HQ; cbn [for_each]; [by apply wp_ret, HQ|].
  unfold drop_pane at 1, forget_options. wp_steps. apply IH; [by apply (inv_drop p)|].
  intros s' Hs Hw Hids. by apply HQ.
Qed.

Lemma wp_close_window id s (Q : unit -> MultiplexerState -> Prop) F :
  state_ok s -> (forall s', state_ok s' -> same_ids s s' -> Q tt s') -> wp (close_window id) Q F s.
Proof.
  intros H HQ. unfold close_window. apply wp_bind, wp_gets. destruct (windows s !! id) as [w|] eqn:Hw; [|by apply wp_ret, HQ].
  apply wp_bind, (wp_drop_all _ [] (Some id) None); [by apply inv_kill|]. intros s1 H1 Ew Hids.
  eapply wp_remove_window; [done|by rewrite Ew|]. intros s2 H2 Hids2. apply HQ; [done|]. by transitivity s1.
Qed.

(** ** Moves *)

Definition swap_window (a b wa id : Z) (w : Window) : Window :=
  let l := HtmLayout.swap (layout w) a b in
  set_focus (set_layout w l)
    (if HtmLayout.contains l (window_active w) then window_active w else if id =? wa then b else a)
    (if is_some_and (fun p => negb (HtmLayout.contains l p)) (zoom w) then None else zoom w).

Lemma elem_of_swapped a b p l : p ∈ map (swapped a b) l <-> swapped a b p ∈ l.
Proof.
  rewrite list_elem_of_fmap. split.
  - intros (q & -> & Hq). by rewrite swapped_involutive.
  - intros Hp. exists (swapped a b p). by rewrite swapped_involutive.
Qed.

Lemma content_swap m a b wa id w :
  content_ok m w -> is_Some (m !! a) -> is_Some (m !! b) -> (if id =? wa then a else b) ∈ panes (layout w) ->
  content_ok m (swap_window a b wa id w).
Proof.
  intros [Cwf Cnd Clive Cact Czoom Crect] Ha Hb Hin. destruct (swap_spec (layout w) a b) as [Hp Hwf].
  unfold swap_window. split; cbn; rewrite ?Hwf, ?Hp; try done.
  - apply NoDup_fmap_2; [|done]. intros x y. apply swapped_inj.
  - intros p [q [-> Hq]]%list_elem_of_fmap. unfold swapped. repeat case_match; auto.
  - destruct (HtmLayout.contains _ _) eqn:Hc; [apply contains_panes in Hc; by rewrite Hp in Hc|].
    apply elem_of_swapped. destruct (id =? wa); [by rewrite swapped_r|by rewrite swapped_l].
  - intros p. destruct (zoom w) as [z|]; [|done]. cbn. destruct (HtmLayout.contains _ z) eqn:Hc; [|done]. cbn.
    intros [= <-]. apply contains_panes in Hc. by rewrite Hp in Hc.
Qed.

Lemma panes_swap_window a b wa id w : panes (layout (swap_window a b wa id w)) = map (swapped a b) (panes (layout w)).
Proof. unfold swap_window. cbn. apply swap_spec. Qed.

(** One window of a swap, from a state where its new content is accounted for. *)
Lemma wp_swap_in loose dead young a b wa id w s (Q : unit -> MultiplexerState -> Prop) F :
  windows s !! id = Some w -> Some id <> dead -> inv loose dead young (put_windows id (swap_window a b wa id w) s) ->
  (forall s', same (put_windows id (swap_window a b wa id w) s) s' -> Q tt s') -> wp (swap_in host a b wa id) Q F s.
Proof.
  intros Hw Hd Hi HQ. unfold swap_in, window_at. apply wp_bind, (wp_index windows _ w); [done|]. wp_steps.
  eapply (wp_redraw _ _ _ id (swap_window a b wa id w)); [exact Hi|apply lookup_insert_eq|done|done].
Qed.

(** Both in one window. *)
Lemma inv_swap_within a b id w s :
  state_ok s -> windows s !! id = Some w -> a ∈ panes (layout w) -> b ∈ panes (layout w) ->
  state_ok (put_windows id (swap_window a b id id w) s).
Proof.
  intros H Hw Ha Hb. pose proof (i_content _ _ _ _ H id w Hw ltac:(done)) as C. pose proof C as [_ _ Clive _ _ _].
  eapply inv_replace; [exact H|done|done|done|apply content_swap; [done|auto|auto|by rewrite Z.eqb_refl]| |].
  - intros p. rewrite panes_swap_window, elem_of_swapped. pose proof (not_elem_of_nil p).
    destruct (decide (p = a)) as [->|Hpa]; [rewrite swapped_l; tauto|].
    destruct (decide (p = b)) as [->|Hpb]; [rewrite swapped_r; tauto|]. rewrite swapped_other by done. tauto.
  - intros p Hp. by apply not_elem_of_nil in Hp.
Qed.

(** In two: the second window's panes are in hand while the first changes. *)
Lemma inv_swap_first a b wa wb Wa Wb s :
  state_ok s -> windows s !! wa = Some Wa -> windows s !! wb = Some Wb -> wa <> wb ->
  a ∈ panes (layout Wa) -> b ∈ panes (layout Wb) ->
  inv (a :: filter (fun x => x <> b) (panes (layout Wb))) (Some wb) None (put_windows wa (swap_window a b wa wa Wa) s).
Proof.
  intros H HWa HWb Hne Ha Hb.
  assert (Huniq : forall p, p ∈ panes (layout Wa) -> p ∉ panes (layout Wb)).
  { intros p Hpa Hpb. apply Hne. apply (i_unique _ _ _ _ H p); [by exists Wa|by exists Wb]. }
  assert (Hab : a <> b) by (intros ->; by eapply Huniq).
  pose proof (i_content _ _ _ _ H wa Wa HWa ltac:(done)) as Ca. pose proof (i_content _ _ _ _ H wb Wb HWb ltac:(done)) as Cb.
  pose proof (inv_kill [] None s wb Wb H HWb) as Hk. rewrite app_nil_r in Hk.
  eapply inv_replace; [exact Hk|exact HWa|congruence|done| | |].
  - apply content_swap; [done|by apply (c_live _ _ Ca)|by apply (c_live _ _ Cb)|by rewrite Z.eqb_refl].
  - intros p. rewrite panes_swap_window, elem_of_swapped, elem_of_cons, list_elem_of_filter.
    destruct (decide (p = a)) as [->|Hpa]; [rewrite swapped_l; naive_solver|].
    destruct (decide (p = b)) as [->|Hpb]; [rewrite swapped_r; naive_solver|]. rewrite swapped_other by done. naive_solver.
  - intros p. rewrite panes_swap_window, elem_of_swapped, elem_of_cons, list_elem_of_filter.
    intros [->|[Hpb Hp]]; [rewrite swapped_l; intros Hba; by apply (Huniq b)|].
    destruct (decide (p = a)) as [->|Hpa]; [by destruct (Huniq a)|].
    rewrite swapped_other by done. intros Hp'. by eapply Huniq.
Qed.

Lemma wp_swap a b s (Q : unit -> MultiplexerState -> Prop) F :
  state_ok s -> (forall s', state_ok s' -> same_ids s s' -> Q tt s') -> wp (swap host a b) Q F s.
Proof.
  intros H HQ. unfold swap. apply wp_bind, wp_gets. destruct (Z.eqb_spec a b) as [|Hab]; [by apply wp_ret, HQ|].
  destruct (has (state_panes s) a) eqn:Ha; [|by apply wp_ret, HQ]. destruct (has (state_panes s) b) eqn:Hb; [|by apply wp_ret, HQ].
  apply has_spec in Ha, Hb. cbn [andb orb negb].
  apply wp_bind, (wp_window_of_live []); [done|done|apply not_elem_of_nil|]. intros wa Wa HWa Hina.
  apply wp_bind, (wp_window_of_live []); [done|done|apply not_elem_of_nil|]. intros wb Wb HWb Hinb.
  destruct (Z.eqb_spec wa wb) as [->|Hne]; cbn [for_each]; apply wp_bind.
  - assert (Wa = Wb) as -> by congruence. pose proof (inv_swap_within a b wb Wb s H HWb Hina Hinb) as Hi.
    eapply (wp_swap_in [] None None _ _ _ _ Wb); [done|done|done|]. intros s' Hs.
    apply wp_ret, HQ; [by eapply inv_same|]. by apply same_ids_of_same in Hs.
  - pose proof (inv_swap_first a b wa wb Wa Wb s H HWa HWb Hne Hina Hinb) as Hi.
    eapply (wp_swap_in _ (Some wb) None _ _ _ _ Wa); [done|congruence|done|]. intros s1 H1. apply wp_bind.
    assert (HWb1 : windows s1 !! wb = Some Wb) by (rewrite (same_windows _ _ H1); cbn; by rewrite lookup_insert_ne).
    assert (Hi2 : inv [] None None (put_windows wb (swap_window a b wa wb Wb) s1)).
    { eapply inv_revive; [by eapply inv_same|done|done| |].
      - eapply content_ok_ext; [exact (same_panes _ _ H1)|]. apply content_swap; [|done|done|].
        + by apply (i_content _ _ _ _ H wb).
        + by rewrite (proj2 (Z.eqb_neq wb wa)) by congruence.
      - intros p. rewrite panes_swap_window, elem_of_swapped, elem_of_cons, list_elem_of_filter.
        assert (a ∉ panes (layout Wb)).
        { intros Hin. apply Hne. apply (i_unique _ _ _ _ H a); [by exists Wa|by exists Wb]. }
        destruct (decide (p = a)) as [->|Hpa]; [rewrite swapped_l; naive_solver|].
        destruct (decide (p = b)) as [->|Hpb]; [rewrite swapped_r; naive_solver|]. rewrite swapped_other by done. naive_solver. }
    eapply (wp_swap_in [] None None _ _ _ _ Wb); [done|done|done|]. intros s2 H2. apply wp_ret, HQ; [by eapply inv_same|].
    apply same_ids_of_same in H1, H2. unfold same_ids in *. cbn in *. naive_solver congruence.
Qed.

(** The second half of a move, from a state with the pane in hand. *)
Lemma wp_enter_window src dest horizontal before destination w dead s (Q : unit -> MultiplexerState -> Prop) F :
  inv [src] dead None s -> windows s !! destination = Some w -> Some destination <> dead -> dest ∈ panes (layout w) ->
  is_Some (state_panes s !! src) ->
  (forall s', inv [] dead None s' -> (forall j x, j <> destination -> windows s !! j = Some x -> windows s' !! j = Some x) ->
     same_ids s s' -> Q tt s') ->
  wp (enter_window host destination dest src horizontal before) Q F s.
Proof.
  intros H Hw Hd Hdest Hsrc HQ. unfold enter_window, window_at. apply wp_bind, (wp_index windows _ w); [done|].
  destruct (content_insert dead s destination w src dest horizontal (Some before) H Hw Hd Hdest Hsrc) as (l & Hl & Hi).
  apply wp_bind, (wp_reads_ok _ l); [done|]. wp_steps.
  eapply (wp_redraw_then [] dead None destination); [exact Hi|apply lookup_insert_eq|done|]. intros s1 H1.
  apply wp_notify. intros s2 H2. set (s0 := put_windows _ _ _) in *. assert (H02 : same s0 s2) by (by transitivity s1).
  apply HQ; [by eapply inv_same| |by apply same_ids_of_same in H02].
  intros j x Hj Hx. rewrite (same_windows _ _ H02). cbn. by rewrite lookup_insert_ne.
Qed.

(** The window a pane has left is laid out again. *)
Lemma wp_left_behind loose dead young id w s (Q : unit -> MultiplexerState -> Prop) F :
  inv loose dead young s -> windows s !! id = Some w -> Some id <> dead -> (forall s', same s s' -> Q tt s') ->
  wp (resize host id;;; layout_changed id;;; announce_active id) Q F s.
Proof.
  intros H Hw Hd HQ. apply wp_bind. eapply wp_redraw_then; [done|done|done|]. intros s1 H1.
  eapply wp_announce_active; [by rewrite (same_windows _ _ H1)|]. intros s2 H2. apply HQ. by transitivity s1.
Qed.

Lemma wp_move_pane src dest horizontal before s (Q : unit -> MultiplexerState -> Prop) F :
  state_ok s -> (forall s', state_ok s' -> same_ids s s' -> Q tt s') ->
  wp (move_pane host src dest horizontal before) Q F s.
Proof.
  intros H HQ. unfold move_pane. apply wp_bind, wp_gets. destruct (Z.eqb_spec src dest) as [|Hne]; [by apply wp_ret, HQ|].
  destruct (has (state_panes s) src) eqn:Hs; [|by apply wp_ret, HQ].
  destruct (has (state_panes s) dest) eqn:Hd; [|by apply wp_ret, HQ]. apply has_spec in Hs, Hd. cbn [andb orb negb].
  apply wp_bind, (wp_window_of_live []); [done|done|apply not_elem_of_nil|]. intros dw W HW Hdest.
  apply wp_bind, wp_unlink; [done|done| |].
  - intros id w w' Hw Hin Hs' Hp Hi. set (s1 := put_windows id w' s) in *. apply wp_bind. cbn [andb negb].
    assert (HW1 : exists W1, windows s1 !! dw = Some W1 /\ dest ∈ panes (layout W1)).
    { destruct (decide (id = dw)) as [->|Hd']; [|exists W; split; [by apply lookup_insert_Some; right|done]].
      exists w'. assert (w = W) as -> by congruence. split; [apply lookup_insert_eq|]. rewrite Hp. by apply list_elem_of_filter. }
    destruct HW1 as (W1 & HW1 & Hdest1).
    assert (Hgo : forall s2, same s1 s2 -> wp (enter_window host dw dest src horizontal before;;; ret tt) Q F s2).
    { intros s2 H2. apply wp_bind. eapply (wp_enter_window _ _ _ _ dw W1 None); [by eapply inv_same| |done|done| |].
      - by rewrite (same_windows _ _ H2).
      - by rewrite (same_live _ _ _ H2).
      - intros s3 H3 _ Hids. apply wp_ret, HQ; [done|]. apply same_ids_of_same in H2. by transitivity s2. }
    destruct (Z.eqb_spec id dw) as [|Hid]; cbn [negb].
    + by apply wp_ret, Hgo.
    + eapply (wp_left_behind _ None None id w'); [done|apply lookup_insert_eq|done|]. done.
  - intros id w Hw Hp. cbn [andb negb]. apply wp_bind, wp_ret, wp_bind.
    assert (Hid : id <> dw).
    { intros ->. simplify_eq. rewrite Hp in Hdest. apply list_elem_of_singleton in Hdest. congruence. }
    pose proof (inv_kill [] None s id w H Hw) as Hk. rewrite Hp, app_nil_r in Hk.
    eapply (wp_enter_window _ _ _ _ dw W (Some id)); [done|done|congruence|done|done|].
    intros s1 H1 Hkeep Hids. rewrite (proj2 (Z.eqb_neq id dw)) by done. cbn [negb].
    eapply wp_remove_window; [done|by apply Hkeep|]. intros s2 H2 Hids2. apply HQ; [done|]. by transitivity s1.
Qed.

Lemma wp_break_pane pane s (Q : Z -> MultiplexerState -> Prop) F :
  state_ok s -> ids_left s ->
  (forall id s', state_ok s' -> more_ids s s' -> (is_Some (sessions s !! active s) -> is_Some (sessions s' !! active s')) -> Q id s') ->
  wp (break_pane host pane) Q F s.
Proof.
  intros H (_ & Hid & _) HQ. assert (Hrefl : more_ids s s) by (unfold more_ids; lia). unfold break_pane, window_at.
  apply wp_bind, wp_gets.
  destruct (has (state_panes s) pane) eqn:Hp; [|by apply wp_ret, HQ]. apply has_spec in Hp. cbn [negb].
  apply wp_bind, (wp_window_of_live []); [done|done|apply not_elem_of_nil|]. intros source w Hw Hin.
  apply wp_bind, (wp_index windows _ w); [done|]. destruct (Nat.eqb_spec (length (panes (layout w))) 1); [by apply wp_ret, HQ|].
  apply wp_bind, wp_unlink; [done|done| |].
  - intros id w1 w' Hw1 Hin1 Hs' Hp' Hi. assert (id = source) as ->.
    { apply (i_unique _ _ _ _ H pane); [by exists w1|by exists w]. }
    assert (w1 = w) as -> by congruence. set (s1 := put_windows source w' s) in *. apply wp_bind.
    eapply (wp_redraw_then _ None None source w'); [done|apply lookup_insert_eq|done|]. intros s2 H2. apply wp_bind.
    destruct (i_home _ _ _ _ H source w Hw) as (v & Hv & _).
    eapply (wp_window_from_pane None pane (session w) None v); [by eapply inv_same|by left| | | |].
    + by rewrite (same_sessions _ _ H2).
    + by rewrite (same_live _ _ _ H2).
    + by rewrite (same_next_window _ _ H2).
    + intros s3 wn H3 E1 E2 E3 E4 E5 Hwn. apply wp_bind. eapply wp_layout_changed; [done|by eapply drawable_of_inv|].
      intros s4 H4. apply wp_ret, HQ; [by eapply inv_same| |].
      2:{ rewrite <- !elem_of_dom, (same_sessions _ _ H4), (same_active _ _ H4), E4, E5. by rewrite (same_sessions _ _ H2), (same_active _ _ H2). }
      apply same_ids_of_same in H2, H4.
      destruct H2 as (? & ? & ?), H4 as (? & ? & ?). unfold more_ids. cbn in *. lia.
  - intros id w1 Hw1 Hp1. assert (id = source) as ->.
    { apply (i_unique _ _ _ _ H pane); [exists w1; rewrite Hp1; repeat split; [done|done|left]|by exists w]. }
    assert (w1 = w) as -> by congruence. by rewrite Hp1 in *.
Qed.

(** *** A window changes its session *)

(** Every session loses the window, the new one gains it at the end, and one
    that is left without windows goes. *)
Lemma inv_moved s s' id w sid o :
  state_ok s -> windows s !! id = Some w -> windows s' = <[id := set_home w sid o]> (windows s) ->
  state_panes s' = state_panes s -> client_size s' = client_size s -> buffers s' = buffers s ->
  same_ids s s' -> options s' ⊆ options s ->
  (forall j key, is_Some (options s' !! (" "%byte, j, key)) -> is_Some (sessions s' !! j)) ->
  is_Some (sessions s' !! sid) ->
  (forall k x, sessions s' !! k = Some x -> exists y, sessions s !! k = Some y /\
     session_windows x = filter (fun j => j <> id) (session_windows y) ++ (if k =? sid then [id] else []) /\
     session_active x ∈ session_windows x) ->
  (forall k y, sessions s !! k = Some y -> filter (fun j => j <> id) (session_windows y) <> [] -> is_Some (sessions s' !! k)) ->
  is_Some (sessions s' !! active s') -> state_ok s'.
Proof.
  intros H Hw Ews Ep Ec Eb (En1 & En2 & En3) Hopt Hopts Hsid Hold Hnew Hact.
  assert (Hown : forall j p, owns None (windows s') j p <-> owns None (windows s) j p).
  { intros j p. rewrite Ews, owns_insert by done. unfold owns. cbn. destruct (decide (j = id)) as [->|]; naive_solver. }
  split; rewrite ?Ep, ?Ec, ?Eb, ?En1, ?En2, ?En3; try done; try apply H.
  - intros j x Hx _. rewrite Ews in Hx. apply lookup_insert_Some in Hx as [[<- <-]|[Hne Hx]].
    + destruct (i_content _ _ _ _ H id w Hw ltac:(done)). by split.
    + by apply (i_content _ _ _ _ H j).
  - intros j x Hx. rewrite Ews in Hx. apply lookup_insert_Some in Hx as [[<- <-]|[Hne Hx]]; cbn.
    + destruct Hsid as [z Hz]. exists z. split; [done|]. destruct (Hold _ _ Hz) as (y & _ & Hwin & _).
      rewrite Hwin, Z.eqb_refl. apply elem_of_app. right. left.
    + destruct (i_home _ _ _ _ H j x Hx) as (y & Hy & Hj).
      assert (Hin : j ∈ filter (fun j => j <> id) (session_windows y)) by (apply list_elem_of_filter; done).
      destruct (Hnew _ _ Hy) as [z Hz]; [intros E; rewrite E in Hin; by apply not_elem_of_nil in Hin|].
      destruct (Hold _ _ Hz) as (y' & Hy' & Hwin & _). simplify_eq. exists z. split; [done|]. rewrite Hwin.
      apply elem_of_app. by left.
  - intros p Hp. setoid_rewrite Hown. by apply (i_owned _ _ _ _ H).
  - intros p j. rewrite Hown. apply (i_loose _ _ _ _ H).
  - intros p j j'. rewrite !Hown. apply (i_unique _ _ _ _ H).
  - intros k x j Hx Hj. destruct (Hold _ _ Hx) as (y & Hy & Hwin & _). rewrite Hwin in Hj. rewrite Ews.
    apply elem_of_app in Hj as [[Hne Hj]%list_elem_of_filter|Hj].
    + destruct (i_listed _ _ _ _ H _ _ _ Hy Hj) as (z & Hz & Hs). exists z. by rewrite lookup_insert_ne by done.
    + destruct (Z.eqb_spec k sid) as [->|]; [|by apply not_elem_of_nil in Hj]. apply list_elem_of_singleton in Hj as ->.
      eexists. by rewrite lookup_insert_eq.
  - intros k x Hx. destruct (Hold _ _ Hx) as (y & Hy & Hwin & Ha). split; [|done]. rewrite Hwin.
    apply NoDup_app. split_and!; [apply NoDup_filter, (i_session _ _ _ _ H _ _ Hy)| |destruct (k =? sid); [apply NoDup_singleton|apply NoDup_nil_2]].
    intros j [Hne _]%list_elem_of_filter. destruct (k =? sid); [|apply not_elem_of_nil]. by intros ->%list_elem_of_singleton.
  - by left.
  - intros j Hj. rewrite Ews in Hj. apply (i_window_ids _ _ _ _ H). apply lookup_insert_is_Some' in Hj as [<-|Hj]; [by exists w|done].
  - intros k [x Hx]. destruct (Hold _ _ Hx) as (y & Hy & _). apply (i_session_ids _ _ _ _ H). by exists y.
  - intros sc j key [x Hx]. destruct (i_options _ _ _ _ H sc j key) as (H1 & H2 & H3); [exists x; by eapply lookup_weaken|].
    split_and!; [by rewrite Ep| |intros ->; apply (Hopts j key); by exists x]. intros Hsc. rewrite Ews.
    apply lookup_insert_is_Some'. by right; apply H2.
  - destruct (i_limits _ _ _ _ H) as (H1 & H2 & H3 & H4). split_and!; [done| |by eapply options_limit|done].
    rewrite <- size_dom in *. assert (size (dom (sessions s')) <= size (dom (sessions s)))%nat; [|lia].
    apply subseteq_size. intros k [x Hx]%elem_of_dom. destruct (Hold _ _ Hx) as (y & Hy & _).
    apply elem_of_dom. by exists y.
Qed.

(** The sessions after the window has moved, before an empty one goes. *)
Definition rehomed (id old sid focus : Z) (v v2 : Session) (m : gmap Z Session) : gmap Z Session :=
  <[sid := mkSession (session_name v2) id (filter (fun j => j <> id) (session_windows v2) ++ [id])]>
    (<[old := mkSession (session_name v) focus (filter (fun j => j <> id) (session_windows v))]> m).

Lemma rehomed_old s id w v v2 sid focus :
  state_ok s -> windows s !! id = Some w -> sessions s !! session w = Some v -> sessions s !! sid = Some v2 ->
  let left := filter (fun j => j <> id) (session_windows v) in
  (left <> [] -> focus ∈ left) ->
  forall k x, rehomed id (session w) sid focus v v2 (sessions s) !! k = Some x -> (k <> session w \/ k = sid \/ left <> []) ->
  exists y, sessions s !! k = Some y /\
    session_windows x = filter (fun j => j <> id) (session_windows y) ++ (if k =? sid then [id] else []) /\
    session_active x ∈ session_windows x.
Proof.
  intros H Hw Hv Hv2 left Hfocus k x Hx Hk. unfold rehomed in Hx.
  apply lookup_insert_Some in Hx as [[<- <-]|[Hks Hx]].
  { exists v2. rewrite Z.eqb_refl. split_and!; [done|done|]. apply elem_of_app. right. left. }
  rewrite (proj2 (Z.eqb_neq k sid)) by congruence.
  apply lookup_insert_Some in Hx as [[<- <-]|[Hko Hx]].
  - exists v. rewrite app_nil_r. split_and!; [done|done|]. apply Hfocus. naive_solver.
  - exists x. rewrite (filter_other H Hw Hx), app_nil_r by congruence. split_and!; [done|done|].
    by apply (i_session _ _ _ _ H _ _ Hx).
Qed.

Lemma rehomed_known id old sid focus v v2 m k :
  is_Some (m !! k) -> is_Some (rehomed id old sid focus v v2 m !! k).
Proof. intros H. unfold rehomed. apply lookup_insert_is_Some'. right. apply lookup_insert_is_Some'. by right. Qed.

Lemma wp_notify_if (b : bool) t s (Q : unit -> MultiplexerState -> Prop) F :
  (forall f, Q tt (with_notifications f s)) -> wp (if b then notify t else ret tt) Q F s.
Proof.
  intros HQ. destruct b; [apply HQ|]. specialize (HQ (fun n => n)). by destruct s.
Qed.

(** The state once the window has joined. *)
Record joined (id sid focus : Z) (w : Window) (v v2 : Session) (s s' : MultiplexerState) : Prop := mkJoined {
  j_windows : exists o, windows s' = <[id := set_home w sid o]> (windows s);
  j_sessions : sessions s' = rehomed id (session w) sid focus v v2 (sessions s);
  j_panes : state_panes s' = state_panes s;
  j_active : active s' = active s;
  j_client : client_size s' = client_size s;
  j_options : options s' = options s;
  j_buffers : buffers s' = buffers s;
  j_ids : same_ids s s'
}.

Lemma wp_join_session id sid focus w v v2 s f (Q : unit -> MultiplexerState -> Prop) F :
  state_ok s -> windows s !! id = Some w -> sessions s !! session w = Some v -> sessions s !! sid = Some v2 ->
  let left := filter (fun j => j <> id) (session_windows v) in
  (forall s', joined id sid focus w v v2 s s' -> Q tt s') ->
  wp (join_session id sid) Q F
    (with_notifications f (with_sessions (fun m => <[session w := mkSession (session_name v) focus left]> m) s)).
Proof.
  intros H Hw Hv Hv2 left HQ. unfold join_session, window_at, session_at.
  apply wp_bind, (wp_index windows _ w); [done|]. destruct (decide (sid = session w)) as [->|Hne].
  - assert (v2 = v) as -> by congruence.
    apply wp_bind, (wp_index sessions _ (mkSession (session_name v) focus left)); [apply lookup_insert_eq|].
    unfold notify. wp_steps. apply HQ. split; try done; cbn; first [by eexists | unfold rehomed; by rewrite !insert_insert_eq].
  - apply wp_bind, (wp_index sessions _ v2); [cbn; by rewrite lookup_insert_ne|]. unfold notify. wp_steps. apply HQ.
    split; try done; cbn; first [by eexists | unfold rehomed; by rewrite (filter_other H Hw Hv2)].
Qed.

(** It is well formed again when the session left behind has windows. *)
Lemma joined_ok id sid focus w v v2 s s' :
  state_ok s -> windows s !! id = Some w -> sessions s !! session w = Some v -> sessions s !! sid = Some v2 ->
  let left := filter (fun j => j <> id) (session_windows v) in
  (left <> [] -> focus ∈ left) -> joined id sid focus w v v2 s s' -> session w = sid \/ left <> [] -> state_ok s'.
Proof.
  intros H Hw Hv Hv2 left Hfocus [[o Ew] Es Ep Ea Ec Eo Eb Ei] Hl.
  apply (inv_moved s s' id w sid o); try done; rewrite ?Es, ?Eo, ?Ea; try done.
  - intros j key Hk. apply rehomed_known. by apply (i_options _ _ _ _ H _ _ _ Hk).
  - apply rehomed_known. by exists v2.
  - intros k x Hx. eapply rehomed_old; try done. destruct (decide (k = session w)) as [->|]; tauto.
  - intros k y Hy _. apply rehomed_known. by exists y.
  - apply rehomed_known. destruct (i_active _ _ _ _ H) as [Ha|[He _]]; [done|]. by rewrite He in Hv.
Qed.

(** And when it has none and goes. *)
Lemma retired_ok id sid focus w v v2 s s' s'' :
  state_ok s -> windows s !! id = Some w -> sessions s !! session w = Some v -> sessions s !! sid = Some v2 ->
  filter (fun j => j <> id) (session_windows v) = [] -> joined id sid focus w v v2 s s' -> session w <> sid ->
  windows s'' = windows s' -> state_panes s'' = state_panes s' -> client_size s'' = client_size s' ->
  buffers s'' = buffers s' -> same_ids s s'' -> options s'' = options (forgotten " " (session w) s') ->
  sessions s'' = delete (session w) (sessions s') ->
  (active s'' = sid \/ (active s'' = active s /\ active s <> session w)) -> state_ok s''.
Proof.
  intros H Hw Hv Hv2 Hleft [[o Ew] Es Ep Ea Ec Eo Eb Ei] Hne E1 E2 E3 E4 E5 E6 E7 Hact.
  assert (Hk : forall k, k <> session w -> is_Some (sessions s !! k) -> is_Some (sessions s'' !! k)).
  { intros k Hk Hs. rewrite E7, Es, lookup_delete_ne by done. by apply rehomed_known. }
  apply (inv_moved s s'' id w sid o); try done.
  - by rewrite E1.
  - by rewrite E2.
  - by rewrite E3.
  - by rewrite E4.
  - rewrite E6, <- Eo. apply map_filter_subseteq.
  - intros j key Hkey. rewrite E6 in Hkey. apply forgotten_some in Hkey as [Hkey Hn]. rewrite Eo in Hkey.
    apply Hk; [naive_solver|]. by apply (i_options _ _ _ _ H _ _ _ Hkey).
  - apply Hk; [done|]. by exists v2.
  - intros k x Hx. rewrite E7, Es in Hx. apply lookup_delete_Some in Hx as [Hkw Hx].
    eapply rehomed_old; try done; first [by rewrite Hleft | left; congruence].
  - intros k y Hy Hf. apply Hk; [|by exists y]. intros ->. apply Hf. by simplify_eq.
  - destruct Hact as [->|[-> Ha]]; [apply Hk; [done|by exists v2]|]. apply Hk; [done|].
    destruct (i_active _ _ _ _ H) as [Ha'|[He _]]; [done|]. by rewrite He in Hv.
Qed.

Lemma wp_retire_session id sid focus w v v2 s s' (Q : unit -> MultiplexerState -> Prop) F :
  state_ok s -> windows s !! id = Some w -> sessions s !! session w = Some v -> sessions s !! sid = Some v2 ->
  let left := filter (fun j => j <> id) (session_windows v) in
  (left <> [] -> focus ∈ left) -> joined id sid focus w v v2 s s' -> session w <> sid ->
  (forall s'', state_ok s'' -> same_ids s s'' -> Q tt s'') -> wp (retire_session (session w) sid) Q F s'.
Proof.
  intros H Hw Hv Hv2 left Hfocus J Hne HQ. pose proof J as [[o Ew] Es Ep Ea Ec Eo Eb Ei].
  unfold retire_session, session_at. apply wp_bind, (wp_index sessions _ (mkSession (session_name v) focus left)).
  { rewrite Es. unfold rehomed. rewrite lookup_insert_ne by done. apply lookup_insert_eq. }
  cbn [session_windows]. subst left. destruct (filter (fun j => j <> id) (session_windows v)) as [|x l] eqn:Hleft.
  - unfold forget_options, notify. wp_steps. cbn [active with_notifications with_options with_sessions].
    destruct (Z.eqb_spec (active s') (session w)) as [Ha|Ha].
    + wp_steps. set (s2 := with_active _ _).
      assert (Hi : state_ok s2) by (eapply (retired_ok id sid focus w v v2 s s'); try done; by left).
      destruct (i_active _ _ _ _ Hi) as [[vs Hvs]|[_ E0]].
      * eapply (wp_session_changed vs); [done|]. intros s3 H3. apply HQ; [by eapply inv_same|].
        apply same_ids_of_same in H3. etransitivity; [|exact H3]. done.
      * cbn in E0. subst sid. pose proof (i_session_ids _ _ _ _ H 0 ltac:(by exists v2)). lia.
    + wp_steps. apply HQ; [|done]. eapply (retired_ok id sid focus w v v2 s s'); try done. right. cbn. by rewrite <- Ea.
  - apply wp_ret, HQ; [|done]. eapply joined_ok; try done; rewrite Hleft; [done|by right].
Qed.

Lemma wp_move_window id sid s (Q : unit -> MultiplexerState -> Prop) F :
  state_ok s -> (forall s', state_ok s' -> same_ids s s' -> Q tt s') -> wp (move_window id sid) Q F s.
Proof.
  intros H HQ. unfold move_window. apply wp_bind, wp_gets.
  destruct (has (windows s) id) eqn:Hw; [|by apply wp_ret, HQ]. destruct (has (sessions s) sid) eqn:Hs; [|by apply wp_ret, HQ].
  apply has_spec in Hw as [w Hw], Hs as [v2 Hv2]. cbn [andb negb]. unfold window_at, session_at.
  apply wp_bind, (wp_index windows _ w); [done|]. destruct (i_home _ _ _ _ H id w Hw) as (v & Hv & Hid).
  apply wp_bind, (wp_index sessions _ v); [done|]. set (left := filter _ _). set (focus := if session_active v =? id then unwrap_or 0 (last left) else session_active v).
  assert (Hfocus : left <> [] -> focus ∈ left).
  { intros Hl. subst focus. destruct (Z.eqb_spec (session_active v) id) as [E|E].
    - destruct (last left) as [x|] eqn:Hx; [by apply last_Some_elem_of in Hx|by apply last_None in Hx].
    - apply list_elem_of_filter. split; [done|]. by apply (i_session _ _ _ _ H _ _ Hv). }
  apply wp_bind, wp_modify, wp_bind, wp_notify_if. intros f. apply wp_bind.
  apply (wp_join_session id sid focus w v v2); [done..|]. intros s1 J.
  destruct (Z.eqb_spec (session w) sid) as [E|E]; cbn [negb].
  - apply wp_ret, HQ; [|apply J]. exact (joined_ok id sid focus w v v2 s s1 H Hw Hv Hv2 Hfocus J (or_introl E)).
  - by apply (wp_retire_session id sid focus w v v2 s).
Qed.

(** ** Output *)

(** The panes that live are the same ones. *)
Definition kept (s s' : MultiplexerState) : Prop :=
  state_ok s' /\ same_ids s s' /\ dom (state_panes s') = dom (state_panes s).

Lemma kept_trans s1 s2 s3 : kept s1 s2 -> kept s2 s3 -> kept s1 s3.
Proof. intros (_ & H1 & D1) (H2 & H3 & D2). split_and!; [done|by transitivity s2|congruence]. Qed.

Lemma kept_same s s' : state_ok s -> same s s' -> kept s s'.
Proof. intros H Hs. split_and!; [by eapply inv_same|by apply same_ids_of_same in Hs|apply Hs]. Qed.

Lemma kept_gates s f : state_ok s -> kept s (with_gates f s).
Proof. intros H. split_and!; [by apply inv_with_gates|done|done]. Qed.

Lemma wp_auto_rename id s (Q : unit -> MultiplexerState -> Prop) F :
  state_ok s -> (forall s', kept s s' -> Q tt s') -> wp (auto_rename host id) Q F s.
Proof.
  intros H HQ. unfold auto_rename, window_at. apply wp_bind, wp_gets.
  assert (Hrefl : kept s s) by done.
  destruct (find_key _ _) as [wid|] eqn:Hf; [|by apply wp_ret, HQ]. apply find_key_some in Hf as (w & Hw & _).
  apply wp_bind, (wp_index windows _ w); [done|]. destruct (_ && _); [|by apply wp_ret, HQ].
  apply wp_bind, wp_modify, wp_notify. intros s' Hs. apply HQ.
  pose proof (i_content _ _ _ _ H wid w Hw ltac:(done)) as [Cwf Cnd Clive Cact Czoom Crect].
  eapply kept_trans; [|apply kept_same; [|exact Hs]].
  - split_and!; [by eapply inv_update|done|done].
  - by eapply inv_update.
Qed.

Lemma wp_poll_pane a b c id s (Q : list byte * bool -> MultiplexerState -> Prop) F :
  state_ok s -> is_Some (state_panes s !! id) -> (forall r s', kept s s' -> Q r s') ->
  wp (poll_pane host a b c id) Q F s.
Proof.
  intros H [p Hp] HQ. unfold poll_pane, pane_at. apply wp_bind, (wp_index state_panes _ p); [done|].
  destruct (is_poisoned _); [by apply wp_ret, HQ|]. destruct (poll_user_terminal _ _ _ _ _) as [bytes term].
  assert (Hput : forall t scr s, kept s s -> state_panes s !! id = Some p \/ (exists t' scr', state_panes s !! id = Some (mkPane t' scr' (rect p) (title p))) ->
    kept s (with_panes (fun m => <[id := mkPane t scr (rect p) (title p)]> m) s)).
  { intros t scr s0 (H0 & _) [Hl|(t' & scr' & Hl)]; apply kept_same; try done; by eapply same_put_pane. }
  apply wp_bind, wp_modify. set (s1 := with_panes _ s). assert (K1 : kept s s1) by (apply Hput; [done|by left]).
  assert (Hren : forall s2 (r : list byte * bool), kept s s2 -> wp (auto_rename host id;;; ret r) Q F s2).
  { intros s2 r K2. apply wp_bind, wp_auto_rename; [apply K2|]. intros s3 K3. apply wp_ret, HQ. by eapply kept_trans. }
  destruct bytes as [|x bytes]; [by apply Hren|]. destruct (feed_chunks _ _ _ _ _ _) as [fed scr].
  apply wp_bind, wp_modify. set (s2 := with_panes _ s1). assert (K2 : kept s s2).
  { apply (kept_trans s s1); [done|]. apply Hput; [by split; [apply K1|]|]. right. eexists _, _. apply lookup_insert_eq. }
  destruct fed; [|by apply wp_ret, HQ]. apply wp_bind, wp_gets. destruct (_ && _); [|by apply Hren].
  apply wp_bind. destruct c; [|apply wp_ret; by apply Hren]. apply wp_bind, wp_modify, wp_ret, Hren.
  eapply kept_trans; [done|]. apply kept_gates, K2.
Qed.

Lemma wp_poll_panes a b c ids s (Q : list byte * list Z -> MultiplexerState -> Prop) F :
  state_ok s -> Forall (fun id => is_Some (state_panes s !! id)) ids -> (forall r s', kept s s' -> Q r s') ->
  wp (poll_panes host a b c ids) Q F s.
Proof.
  intros H Hids. revert s Q H Hids. induction ids as [|id ids IH]; intros s Q H Hids HQ; cbn [poll_panes]; [by apply wp_ret, HQ|].
  apply Forall_cons_1 in Hids as [Hid Hids]. apply wp_bind, wp_poll_pane; [done|done|]. intros [out over] s1 K1.
  apply wp_bind, IH; [apply K1| |].
  - eapply Forall_impl; [exact Hids|]. cbv beta. intros x. rewrite <- !elem_of_dom. by rewrite (proj2 (proj2 K1)).
  - intros [more exited] s2 K2. apply wp_ret, HQ. by eapply kept_trans.
Qed.

Lemma wp_poll a b c s (Q : list byte -> MultiplexerState -> Prop) F :
  state_ok s -> (forall r s', state_ok s' -> same_ids s s' -> Q r s') -> wp (poll host a b c) Q F s.
Proof.
  intros H HQ. unfold poll. apply wp_bind, wp_gets, wp_bind, wp_poll_panes; [done| |].
  { apply Forall_forall. intros id. apply elem_of_keys. }
  intros [out exited] s1 (H1 & I1 & _). apply wp_bind.
  apply (wp_for_each _ _ (fun s' => state_ok s' /\ same_ids s s')); [done| |].
  - intros id s2 _ [H2 I2]. pose proof (wp_close id s2 (fun _ s' => state_ok s' /\ same_ids s s') (fun _ => False) H2) as Hc.
    unfold ignored, wp in *. specialize (Hc ltac:(intros s' H' I'; split; [done|by transitivity s2])).
    by destruct (close host id s2) as [[u|[e|]] s3].
  - intros s2 [H2 I2]. by apply wp_ret, HQ.
Qed.

(** ** The client comes and goes *)

Lemma inv_options_insert s key value :
  state_ok s -> option_live s key.1.1 key.1.2 ->
  (Z.of_nat (size (options s)) < 256 \/ is_Some (options s !! key) \/ key = affinity_key) ->
  state_ok (with_options (fun m => <[key := value]> m) s).
Proof.
  intros H Hl Hsize. split; cbn; try apply H.
  - intros sc j k [E|Hk]%lookup_insert_is_Some'; [by subst key|]. by apply (i_options _ _ _ _ H sc j k).
  - destruct (i_limits _ _ _ _ H) as (H1 & H2 & H3 & H4). split_and!; [done|done| |done].
    destruct (decide (key = affinity_key)) as [->|Hne]; [by rewrite delete_insert_eq|].
    rewrite delete_insert_ne by done. destruct Hsize as [Hlt|[Hsome|?]]; [| |done].
    + assert (size (<[key := value]> (delete affinity_key (options s))) <= S (size (delete affinity_key (options s))))%nat.
      { rewrite map_size_insert. by case_match; cbn; lia. }
      assert (size (delete affinity_key (options s)) <= size (options s))%nat by apply map_subseteq_size, delete_subseteq. lia.
    + rewrite map_size_insert_Some; [done|]. by rewrite lookup_delete_ne.
Qed.

Lemma wp_detach s (Q : unit -> MultiplexerState -> Prop) F :
  state_ok s -> (forall s', state_ok s' -> same_ids s s' -> state_panes s' = state_panes s -> Q tt s') -> wp detach Q F s.
Proof.
  intros H HQ. unfold detach. apply wp_bind, wp_gets. destruct (non_empty _) as [value|]; [|by apply wp_ret, HQ].
  apply wp_modify, HQ; [|done|done]. apply inv_options_insert; [done|by split_and!|]. by right; right.
Qed.

Lemma wp_attach_notifications s (Q : unit -> MultiplexerState -> Prop) F :
  (forall s', same s s' -> Q tt s') -> wp attach_notifications Q F s.
Proof.
  intros HQ. unfold attach_notifications. apply wp_bind, wp_gets.
  destruct (sessions s !! active s) as [v|] eqn:Hv; [|by apply wp_ret, HQ]. apply wp_bind, wp_gets, wp_bind.
  assert (Hend : forall s', same s s' -> wp session_changed Q F s').
  { intros s' Hs. eapply (wp_session_changed v); [by rewrite (same_sessions _ _ Hs), (same_active _ _ Hs)|].
    intros s2 H2. apply HQ. by transitivity s'. }
  destruct (negb _); [|by apply wp_ret, Hend]. apply wp_bind.
  apply (wp_for_each _ _ (same s)); [done| |].
  - intros id s1 _ H1. apply wp_notify. intros s2 H2. by transitivity s1.
  - intros s1 H1. apply wp_bind, wp_notify. intros s2 H2. apply wp_modify, Hend. transitivity s1; [done|].
    transitivity s2; [done|]. by split.
Qed.

Lemma wp_fold_out {A} (f : list byte -> A -> M (list byte)) l (I : MultiplexerState -> Prop) out s
    (Q : list byte -> MultiplexerState -> Prop) F :
  I s -> (forall out a s, a ∈ l -> I s -> wp (f out a) (fun _ s' => I s') F s) -> (forall out s', I s' -> Q out s') ->
  wp (fold_out f out l) Q F s.
Proof.
  intros HI Hf HQ. revert out s HI. induction l as [|a l IH]; intros out s HI; [by apply HQ|]. cbn [fold_out].
  apply wp_bind. eapply wp_mono; [| |apply Hf; [left|done]]; [|done].
  intros out' s' HI'. apply IH; [|done]. intros o b s'' Hb. apply Hf. by right.
Qed.

(** The diagnostic reads the whole tree; only the screens it captures from
    may change. *)
Lemma wp_dump_panes s (Q : list byte -> MultiplexerState -> Prop) F :
  state_ok s -> (forall s', same s s' -> F s') -> (forall out s', same s s' -> Q out s') -> wp (dump_panes host) Q F s.
Proof.
  intros H HF HQ. unfold dump_panes, session_at, window_at. apply wp_bind, wp_gets, wp_bind, wp_gets.
  apply (wp_fold_out _ _ (same s)); [done| |done]. intros out sid s1 Hsid H1. apply elem_of_keys in Hsid as [v Hv].
  apply wp_bind, (wp_index sessions _ v); [by rewrite (same_sessions _ _ H1)|].
  apply (wp_fold_out _ _ (same s)); [done| |done]. clear s1 H1. intros out' wid s1 Hwid H1.
  destruct (i_listed _ _ _ _ H sid v wid Hv Hwid) as (w & Hw & _).
  apply wp_bind, (wp_index windows _ w); [by rewrite (same_windows _ _ H1)|].
  apply (wp_fold_out _ _ (same s)); [done| |done]. clear s1 H1. intros out'' pid s1 Hpid H1. unfold dump_pane, pane_at.
  pose proof (c_live _ _ (i_content _ _ _ _ H wid w Hw ltac:(done)) pid Hpid) as Hlive.
  apply (same_live _ _ _ H1) in Hlive as [p Hp].
  apply wp_bind, (wp_index state_panes _ p); [done|]. destruct (cursor_position _) as [y x].
  destruct (capture _ _ _) as [r scr]. apply wp_bind, wp_modify. set (s2 := with_panes _ _).
  assert (H2 : same s s2) by (transitivity s1; [done|]; by eapply same_put_pane).
  apply wp_bind, wp_reads; [by destruct r|by apply HF|]. intros text _. destruct (_ <? _); [by apply wp_fail, HF|by apply wp_ret].
Qed.
End host.
