(* ===== verification/HtmFormats.v ===== *)
(** * HtmFormats: [crates/et-htm/src/formats.rs]

    The expansion of [#{...}] templates over the state of the multiplexer,
    with nested conditionals and a bound on nesting and on size. *)

From Stdlib Require Import String.
From stdpp Require Import gmap.
From S2P Require Import Prelude Bytes HtmLayout HtmFraming HtmPane HtmState.

Definition append (out value : list byte) : result Failure (list byte) :=
  if sat_sub (MAX_QUEUE / 2) (zlen out) <? zlen value then Err (Fails (bytes_of "format exceeds reply size limit"))
  else Ok (out ++ value).

Definition key_is (key : list byte) (name : string) : bool := list_eqb key (bytes_of name).
Definition is_one_of (key : list byte) (names : list string) : bool := existsb (key_is key) names.

Section host.
Context (host : Host).

Definition bit (b : bool) : list byte := dec (b2i b).

(** The keys of a window; [None] when it is none of them. *)
Definition window_key (key : list byte) (id : Z) (w : Window) (v : option Session) (flags : list byte)
    (s : MultiplexerState) : option (result Failure (list byte)) :=
  if key_is key "window_id" then Some (Ok (text [bytes_of "@"; dec id]))
  else if key_is key "window_name" then Some (Ok (window_name w))
  else if key_is key "window_index" then Some (Ok (dec (order w)))
  else if key_is key "window_layout" then Some (window_layout id false s)
  else if key_is key "window_visible_layout" then Some (window_layout id true s)
  else if key_is key "window_flags" then Some (Ok (match flags with [] => bytes_of "-" | _ => flags end))
  else if key_is key "window_raw_flags" then Some (Ok flags)
  else if key_is key "window_width" then Some (Ok (dec (cols (window_rect w))))
  else if key_is key "window_height" then Some (Ok (dec (rows (window_rect w))))
  else if key_is key "window_active" then Some (Ok (bit (is_some_and (fun v => session_active v =? id) v)))
  else if key_is key "history_limit" then Some (Ok (bytes_of "2000"))
  else None.

Definition pane_is_active (id : Z) (s : MultiplexerState) : result Failure bool :=
  match window_of id s with
  | Ok wid => let? w := index (windows s) wid in Ok (window_active w =? id)
  | Err _ => Ok false
  end.

Definition pane_key (key : list byte) (id : Z) (p : Pane) (s : MultiplexerState) : option (result Failure (list byte)) :=
  if key_is key "pane_id" then Some (Ok (text [bytes_of "%"; dec id]))
  else if key_is key "pane_width" then Some (Ok (dec (cols (rect p))))
  else if key_is key "pane_height" then Some (Ok (dec (rows (rect p))))
  else if key_is key "pane_left" then Some (Ok (dec (rx (rect p))))
  else if key_is key "pane_top" then Some (Ok (dec (ry (rect p))))
  else if key_is key "pane_index" then Some (Ok (bytes_of "0"))
  else if key_is key "pane_title" then Some (Ok (title p))
  else if key_is key "pane_current_path" then Some (Ok (from_utf8_lossy (terminal_cwd host id p)))
  else if key_is key "pane_current_command" then
    Some (Ok (foreground_command (comm host) (leader host id) (process_id host id)))
  else if key_is key "pane_dead" then Some (Ok (bit (negb (is_running (terminal p)))))
  else if key_is key "pane_pid" then Some (Ok (dec (unwrap_or 0 (process_id host id))))
  else if key_is key "pane_active" then Some (let? a := pane_is_active id s in Ok (bit a))
  else if key_is key "cursor_x" then Some (Ok (dec (snd (cursor_position (screen p)))))
  else if key_is key "cursor_y" then Some (Ok (dec (fst (cursor_position (screen p)))))
  else if key_is key "cursor_flag" then Some (Ok (bit (negb (hide_cursor (screen p)))))
  else if key_is key "alternate_on" then Some (Ok (bit (alternate_screen (screen p))))
  else if key_is key "scroll_region_lower" then Some (Ok (dec (sat_sub (rows (rect p)) 1)))
  else if is_one_of key
    ["alternate_saved_x"; "alternate_saved_y"; "insert_flag"; "wrap_flag"; "keypad_flag"; "keypad_cursor_flag";
     "origin_flag"; "focus_flag"; "bracketed_paste"; "scroll_region_upper"; "mouse_standard_flag"; "mouse_button_flag";
     "mouse_any_flag"; "mouse_utf8_flag"; "mouse_sgr_flag"; "cursor_shape"; "cursor_blinking"]%string
  then Some (Ok (bytes_of "0"))
  else None.

Definition one (s : MultiplexerState) (key : list byte) (sid : Z) (window pane : option Z) : result Failure (list byte) :=
  let v := sessions s !! sid in
  let of_pane :=
    match (let! id := pane in let! p := state_panes s !! id in Some (id, p)) with
    | Some (id, p) => unwrap_or (Ok []) (pane_key key id p s)
    | None => Ok []
    end in
  let of_window :=
    match (let! id := window in let! w := windows s !! id in Some (id, w)) with
    | Some (id, w) =>
        let? flags := window_flags id w s in
        match window_key key id w v flags s with Some r => r | None => of_pane end
    | None => of_pane
    end in
  if starts_with (bytes_of "@") key && bool_decide (is_Some v) then
    Ok (unwrap_or [] (options s !! (" "%byte, sid, key)))
  else if key_is key "version" then Ok (bytes_of "3.5a")
  else if key_is key "socket_path" then Ok (bytes_of "htm")
  else if key_is key "pid" then Ok (bytes_of "0")
  else if is_one_of key ["pane-border-status"; "pane_border_status"]%string then Ok (bytes_of "off")
  else
    match v with
    | Some v =>
        if key_is key "session_id" then Ok (text [bytes_of "$"; dec sid])
        else if key_is key "session_name" then Ok (session_name v)
        else of_window
    | None => of_window
    end.

(** The text before the first [#{] and the text after it. *)
Fixpoint find_open (rest : list byte) : option (list byte * list byte) :=
  match rest with
  | [] => None
  | b :: rest' =>
      match strip_prefix (bytes_of "#{") rest with
      | Some inner => Some ([], inner)
      | None => match find_open rest' with Some (before, inner) => Some (b :: before, inner) | None => None end
      end
  end.

(** The key up to the brace that closes it, and the text after that brace. *)
Fixpoint find_close (nesting : Z) (inner : list byte) : option (list byte * list byte) :=
  match inner with
  | [] => None
  | c :: inner =>
      let nesting := if beq c "{" then nesting + 1 else if beq c "}" then nesting - 1 else nesting in
      if nesting =? 0 then Some ([], inner)
      else match find_close nesting inner with Some (key, rest) => Some (c :: key, rest) | None => None end
  end.

(** The parts of a conditional: split at the commas outside braces. *)
Fixpoint condition_parts (nesting : Z) (condition : list byte) : list (list byte) :=
  match condition with
  | [] => [[]]
  | c :: condition =>
      if beq c "," && (nesting =? 0) then [] :: condition_parts nesting condition
      else
        let nesting := if beq c "{" then nesting + 1 else if beq c "}" then nesting - 1 else nesting in
        match condition_parts nesting condition with
        | part :: parts => (c :: part) :: parts
        | [] => [[c]]
        end
  end.

(** The loop over a template; [deeper] expands one level down and [single] a
    key. Its fuel is more than the length of what is left; it never runs out. *)
Fixpoint expand_loop (deeper single : list byte -> result Failure (list byte)) (fuel : nat) (out rest : list byte)
    : result Failure (list byte) :=
  match fuel with
  | O => Err Panicked
  | S fuel =>
      match find_open rest with
      | None => append out rest
      | Some (before, inner) =>
          let? out := append out before in
          match find_close 1 inner with
          | None => append out (bytes_of "#{" ++ inner)
          | Some (key, rest) =>
              let key := unwrap_or key (strip_prefix (bytes_of "q:") key) in
              let? value :=
                match strip_prefix (bytes_of "?") key with
                | Some condition =>
                    let parts := condition_parts 0 condition in
                    let cond := nth 0 parts [] in
                    let? value := if has_infix (bytes_of "#{") cond then deeper cond else single cond in
                    deeper (nth (if key_is value "" || key_is value "0" then 2 else 1)%nat parts [])
                | None => single key
                end in
              let? out := append out value in
              expand_loop deeper single fuel out rest
          end
      end
  end.

(** [levels] is 64 less the depth. *)
Fixpoint expand_at (levels : nat) (s : MultiplexerState) (template : list byte) (sid : Z) (window pane : option Z)
    : result Failure (list byte) :=
  match levels with
  | O => Err (Fails (bytes_of "format nesting limit reached"))
  | S levels =>
      expand_loop (fun t => expand_at levels s t sid window pane) (fun key => one s key sid window pane)
        (S (length template)) [] template
  end.

Definition expand (s : MultiplexerState) (template : list byte) (sid : Z) (window pane : option Z)
    : result Failure (list byte) := expand_at 64 s template sid window pane.
End host.
