(* ===== verification/HtmControl.v ===== *)
(** * HtmControl: [crates/et-htm/src/control.rs]

    The dispatcher: the words of a command, its flags and what it does to the
    state. The flags of the client live beside the state. *)

From Stdlib Require Import String.
From stdpp Require Import gmap.
From S2P Require Import Prelude Bytes HtmLayout HtmFraming HtmPane HtmState HtmFormats.

Record ClientFlags := mkFlags {
  no_output : bool;
  pause : option Z;
  wait_exit : bool
}.

Definition ClientFlags_default : ClientFlags := mkFlags false None false.

(** ** Arguments *)

Record Args := mkArgs {
  arg_flags : gmap byte (list (list byte));
  words : list (list byte)
}.

(** The characters of one flag token; [next] is the token after it. The
    flags, and whether that token was taken as a value. *)
Fixpoint flag_chars (values : list byte) (chars : list byte) (next : option (list byte))
    (flags : gmap byte (list (list byte))) : gmap byte (list (list byte)) * bool :=
  match chars with
  | [] => (flags, false)
  | flag :: chars =>
      let entry := unwrap_or [] (flags !! flag) in
      let flags := <[flag := entry]> flags in
      if Bytes.contains flag values then
        match chars, next with
        | _ :: _, _ => (<[flag := entry ++ [chars]]> flags, false)
        | [], Some t =>
            if negb (starts_with (bytes_of "-") t) || (zlen t =? 1) then (<[flag := entry ++ [t]]> flags, true)
            else (flags, false)
        | [], None => (flags, false)
        end
      else flag_chars values chars next flags
  end.

(** [taken]: the token was the value of the flag before it. *)
Fixpoint parse_tokens (values : list byte) (tokens : list (list byte)) (taken : bool) (a : Args) : Args :=
  match tokens with
  | [] => a
  | token :: tokens =>
      if taken then parse_tokens values tokens false a
      else if key_is token "--" then mkArgs (arg_flags a) (words a ++ tokens)
      else if starts_with (bytes_of "-") token && negb (starts_with (bytes_of "--") token) && (1 <? zlen token) then
        let (flags, taken) := flag_chars values (drop 1 token) (head tokens) (arg_flags a) in
        parse_tokens values tokens taken (mkArgs flags (words a))
      else parse_tokens values tokens false (mkArgs (arg_flags a) (words a ++ [token]))
  end.

(** [Args::parse] *)
Definition Args_parse (tokens : list (list byte)) (values : list byte) : Args :=
  parse_tokens values tokens false (mkArgs ∅ []).

Definition has_flag (a : Args) (key : byte) : bool := bool_decide (is_Some (arg_flags a !! key)).
Definition get (a : Args) (key : byte) : option (list byte) := let! v := arg_flags a !! key in last v.
Definition word (a : Args) : list byte := unwrap_or [] (head (words a)).

Definition values (name : list byte) : list byte :=
  let one_of := is_one_of name in
  bytes_of
    (if one_of ["refresh-client"; "refresh"] then "CABfFrt"
     else if one_of ["capture-pane"; "capturep"] then "tSEb"
     else if one_of ["send-keys"; "send"; "display-message"; "display"; "copy-mode"] then "t"
     else if one_of ["list-windows"; "lsw"; "list-panes"; "lsp"; "list-sessions"; "list-session"; "ls"] then "Ftf"
     else if one_of ["new-window"; "neww"; "split-window"; "splitw"] then "tcFnl"
     else if one_of ["kill-pane"; "killp"; "kill-window"; "killw"; "select-pane"; "selectp"; "select-window"; "selectw";
       "resize-pane"; "resizep"; "resize-window"; "resizew"; "rename-window"; "renamew"; "select-layout"; "selectl"]
     then "tTxy"
     else if one_of ["attach-session"; "attach"; "new-session"; "new"; "kill-session"; "rename-session"; "rename"]
     then "tsnc"
     else if one_of ["show-buffer"; "showb"; "set-buffer"; "setb"] then "b"
     else if one_of ["swap-pane"; "swapp"; "move-pane"; "movep"; "break-pane"; "breakp"; "join-pane"; "joinp"] then "stF"
     else if one_of ["show-options"; "show"; "show-option"; "set-option"; "set"; "show-window-options"; "showw";
       "set-window-option"; "setw"] then "to"
     else if one_of ["unlink-window"; "unlinkw"; "link-window"; "linkw"; "move-window"; "movew"] then "st"
     else "tFcsnb")%string.

(** [str::parse::<i32>] *)
Definition parse_i32 (t : list byte) : option Z :=
  match t with
  | b :: (_ :: _) as rest =>
      if beq b "-" then let! v := digits_value hex_digit 10 (2 ^ 31) 0 rest in Some (- v)
      else if beq b "+" then digits_value hex_digit 10 (2 ^ 31 - 1) 0 rest
      else digits_value hex_digit 10 (2 ^ 31 - 1) 0 t
  | [b] => digits_value hex_digit 10 (2 ^ 31 - 1) 0 t
  | [] => None
  end.

Definition integer (t : list byte) (fallback : Z) : Z :=
  let t := trim_ascii_start t in
  let signed := match t with b :: _ => beq b "-" || beq b "+" | [] => false end in
  let digits :=
    if signed then take 1 t ++ take_while is_ascii_digit (drop 1 t) else take_while is_ascii_digit t in
  unwrap_or fallback (parse_i32 digits).

Definition dimension (t : option (list byte)) (fallback max : Z) : result Failure Z :=
  let n := Z.max 1 (integer (unwrap_or [] t) fallback) in
  if max <? n then Err (Fails (text [bytes_of "size exceeds "; dec max])) else Ok n.

Definition list_row (output row : list byte) : result Failure (list byte) :=
  let? output := match output with [] => Ok [] | _ => append output nl end in
  append output row.

(** ** Keys *)

Definition is_ascii_hexdigit (b : byte) : bool := bool_decide (is_Some (hex_digit b)).

Definition hex_byte (t : list byte) : option byte :=
  let t := trim_ascii_start t in
  let negative := starts_with (bytes_of "-") t in
  let t := strip_sign t in
  let digits := unwrap_or t (or_else (strip_prefix (bytes_of "0x") t) (strip_prefix (bytes_of "0X") t)) in
  match take_while is_ascii_hexdigit digits with
  | [] => if starts_with (bytes_of "0") t then Some x00 else None
  | ds =>
      match from_str_radix 16 u64_max ds with
      | None => Some xff
      | Some v => Some (z2b (if negative then (- v) mod 2 ^ 64 else v))
      end
  end.

Definition encode_key (hex literal : bool) (w : list byte) : list byte :=
  if hex then [unwrap_or x00 (hex_byte w)]
  else if literal then w
  else if is_one_of w ["Enter"; "C-m"; "KPEnter"]%string then [CR]
  else if is_one_of w ["Escape"; "C-["; "Esc"]%string then [x1b]
  else if key_is w "Space" then [x20]
  else if is_one_of w ["Tab"; "C-i"]%string then [x09]
  else if is_one_of w ["BSpace"; "Bspace"]%string then [x7f]
  else
    let third := nth 2 w x00 in
    if (zlen w =? 3) && starts_with (bytes_of "C-") w && is_ascii_alphabetic third then [z2b (Z.land (b2z third) 31)]
    else if (3 <=? zlen w) && (starts_with (bytes_of "0x") w || starts_with (bytes_of "0X") w) then
      match hex_byte w with Some b => [b] | None => w end
    else w.

Definition encode_keys (ws : list (list byte)) (hex literal : bool) : list byte := flat_map (encode_key hex literal) ws.

(** ** Commands *)

Section host.
Context (host : Host).

Definition expands (template : list byte) (sid : Z) (window pane : option Z) : M (list byte) :=
  reads (fun s => expand host s template sid window pane).

(** [format] *)
Definition format (template : list byte) (window pane : Z) : M (list byte) :=
  let* w := window_at window in
  expands template (session w) (Some window) (Some pane).

Definition done : M (list byte) := ret [].
Definition then_done (m : M unit) : M (list byte) := m;;; done.

Definition template_or (a : Args) (default : string) : list byte :=
  unwrap_or (bytes_of default) (non_empty (get a "F")).

Definition display_message (a : Args) : M (list byte) :=
  let target := get a "t" in
  let t := unwrap_or [] target in
  let* sid := gets active in
  let* w := gets active_window in
  let* p := gets active_pane in
  let* aim :=
    if starts_with (bytes_of "%") t then
      let* id := reads (parse_pane_target target) in
      let* known := gets (fun s => has (state_panes s) id) in
      if known : bool then let* w := reads (window_of id) in ret (sid, w, id) else ret (sid, w, p)
    else if starts_with (bytes_of "@") t then
      let* id := reads (parse_window_target target) in
      let* known := gets (fun s => has (windows s) id) in
      if known : bool then let* win := window_at id in ret (sid, id, window_active win) else ret (sid, w, p)
    else if starts_with (bytes_of "$") t then
      let* id := reads (parse_session_target target) in
      let* known := gets (fun s => has (sessions s) id) in
      if known : bool then
        let* v := session_at id in
        let* win := window_at (session_active v) in
        ret (id, session_active v, window_active win)
      else ret (sid, w, p)
    else ret (sid, w, p) in
  let '(sid, w, p) := aim in
  if has_flag a "p" then expands (unwrap_or (bytes_of "#{pane_id}") (head (words a))) sid (Some w) (Some p) else done.

(** A list of rows, each from one element. *)
Fixpoint list_rows {A} (row : A -> M (list byte)) (output : list byte) (l : list A) : M (list byte) :=
  match l with
  | [] => ret output
  | x :: l =>
      let* r := row x in
      let* output := reads (fun _ => list_row output r) in
      list_rows row output l
  end.

Definition end_list (output : list byte) : result Failure (list byte) :=
  match output with
  | [] => Ok []
  | _ => if ends_with nl output then Ok output else append output nl
  end.

Definition list_sessions (a : Args) : M (list byte) :=
  let* ids := gets (fun s => keys (sessions s)) in
  let* output := list_rows (fun sid => expands (template_or a "#{session_id} #{session_name}") sid None None) [] ids in
  reads (fun _ => end_list output).

Definition session_arg (a : Args) : option (list byte) := or_else (get a "t") (get a "s").

Definition list_windows (a : Args) : M (list byte) :=
  let* parsed := reads (parse_session_target (session_arg a)) in
  let* sid := if parsed =? 0 then gets active else reads (session_target (session_arg a)) in
  let* v := session_at sid in
  let* output :=
    list_rows (fun w =>
      let* win := window_at w in
      format (template_or a "#{window_id} #{window_layout} #{window_flags} #{window_visible_layout}") w
        (window_active win)) [] (session_windows v) in
  reads (fun _ => end_list output).

Definition window_panes (a : Args) (w : Z) : M (list byte) :=
  let* win := window_at w in
  list_rows (format (template_or a "#{pane_id} #{pane_width} #{pane_height}") w) [] (panes (layout win)).

Fixpoint list_chunks (a : Args) (output : list byte) (ws : list Z) : M (list byte) :=
  match ws with
  | [] => ret output
  | w :: ws =>
      let* chunk := window_panes a w in
      let* output := match chunk with [] => ret output | _ => reads (fun _ => list_row output chunk) end in
      list_chunks a output ws
  end.

Definition list_panes (a : Args) : M (list byte) :=
  let target := get a "t" in
  let* id :=
    reads (if is_some_and (starts_with (bytes_of "%")) target then parse_pane_target target
           else parse_window_target target) in
  let* ws :=
    if has_flag a "a" then let* sid := gets active in let* v := session_at sid in ret (session_windows v)
    else
      gets (fun s => [if has (windows s) id then id
                      else match window_of id s with Ok w => w | Err _ => active_window s end]) in
  let* output := list_chunks a [] ws in
  reads (fun _ => end_list output).

Definition cmd_new_window (a : Args) : M (list byte) :=
  let* w := new_window host (get a "n") (get a "c") in
  if has_flag a "P" then
    let* win := window_at w in format (unwrap_or (bytes_of "#{window_id}") (get a "F")) w (window_active win)
  else done.

Definition split_window (a : Args) : M (list byte) :=
  let* source := reads (pane_target (get a "t")) in
  let* p := split host source (has_flag a "h" && negb (has_flag a "v")) (get a "c") in
  if has_flag a "P" then
    let* sid := gets active in
    let* w := reads (window_of p) in
    expands (unwrap_or (bytes_of "#{pane_id}") (get a "F")) sid (Some w) (Some p)
  else done.

Definition send_keys (a : Args) : M (list byte) :=
  let* id := reads (pane_target (get a "t")) in
  let* p := pane_at id in
  let (r, term) := append_data (terminal p) (encode_keys (words a) (has_flag a "H") (has_flag a "l")) (sent host id) in
  put_pane id (mkPane term (screen p) (rect p) (title p));;;
  then_done (reads (fun _ => map_err Fails r)).

Definition select_pane (a : Args) : M (list byte) :=
  let* p := reads (pane_target (get a "t")) in
  let* w := reads (window_of p) in
  if has_flag a "T" then
    let* pane := pane_at p in
    then_done (put_pane p (mkPane (terminal pane) (screen pane) (rect pane) (unwrap_or [] (get a "T"))))
  else
    let* win := window_at w in
    put_window w (set_focus win p (zoom win));;;
    let* v := session_at (session win) in
    put_session (session win) (mkSession (session_name v) w (session_windows v));;;
    then_done (notify (text [bytes_of "%window-pane-changed @"; dec w; bytes_of " %"; dec p; nl])).

Definition select_window (a : Args) : M (list byte) :=
  let* w := reads (window_target (get a "t")) in
  let* win := window_at w in
  let* v := session_at (session win) in
  put_session (session win) (mkSession (session_name v) w (session_windows v));;;
  then_done (notify (text [bytes_of "%session-window-changed $"; dec (session win); bytes_of " @"; dec w; nl])).

(** A size asked for, when it is a positive number. *)
Definition wanted (t : option (list byte)) (max : Z) : result Failure (option Z) :=
  match t with
  | Some t => if 0 <? integer t 0 then let? n := dimension (Some t) 1 max in Ok (Some n) else Ok None
  | None => Ok None
  end.

Definition cmd_resize_pane (a : Args) : M (list byte) :=
  let target := get a "t" in
  let* _ := reads (parse_pane_target target) in
  if negb (existsb (has_flag a) (bytes_of "ZxyLRUD")) then done
  else
    let* p := reads (pane_target target) in
    let* w := reads (window_of p) in
    if has_flag a "Z" then
      let* win := window_at w in
      put_window w (set_focus win (window_active win)
        (match zoom win with Some _ => None | None => if p =? 0 then None else Some p end));;;
      resize host w;;;
      then_done (layout_changed w)
    else if has_flag a "x" || has_flag a "y" then
      let* c := reads (fun _ => wanted (get a "x") 512) in
      let* r := reads (fun _ => wanted (get a "y") 256) in
      then_done (resize_pane host p c r)
    else
      match find (has_flag a) (bytes_of "LRUD") with
      | Some dir => then_done (resize_direction host p dir (integer (word a) 1))
      | None => done
      end.

(** A window takes a size. *)
Definition size_window (w c r : Z) : M unit :=
  let* win := window_at w in
  put_window w (set_window_rect win (mkRect c r 0 0));;;
  resize host w;;;
  layout_changed w.

Definition resize_window (a : Args) : M (list byte) :=
  let* w := reads (window_target (get a "t")) in
  let* size := gets client_size in
  let* c := reads (fun _ => dimension (get a "x") (fst size) 512) in
  let* r := reads (fun _ => dimension (get a "y") (snd size) 256) in
  then_done (size_window w c r).

Definition kill_pane (a : Args) : M (list byte) :=
  let* p := reads (parse_pane_target (get a "t")) in then_done (close host p).

Definition kill_window (a : Args) : M (list byte) :=
  let* w := reads (parse_window_target (get a "t")) in then_done (close_window w).

Definition select_layout (a : Args) : M (list byte) :=
  let* w := reads (window_target (get a "t")) in
  let* win := window_at w in
  if (1 <? length (panes (layout win)))%nat then
    put_window w (set_layout win (select (layout win) (match word a with [] => bytes_of "tiled" | name => name end)));;;
    resize host w;;;
    then_done (layout_changed w)
  else done.

Definition swap_pane (a : Args) : M (list byte) :=
  let* p := reads (parse_pane_target (get a "s")) in
  let* q := reads (parse_pane_target (get a "t")) in
  then_done (swap host p q).

Definition cmd_move_pane (a : Args) : M (list byte) :=
  let* p := reads (parse_pane_target (get a "s")) in
  let* q := reads (parse_pane_target (get a "t")) in
  then_done (move_pane host p q (has_flag a "h" && negb (has_flag a "v")) (has_flag a "b")).

Definition cmd_break_pane (a : Args) : M (list byte) :=
  let* p := reads (parse_pane_target (or_else (or_else (non_empty (get a "s")) (non_empty (get a "t"))) (head (words a)))) in
  let* w := break_pane host p in
  if has_flag a "P" then
    let* w := gets (fun s => if has (windows s) w then w else active_window s) in
    let* sid := gets active in
    let* win := window_at w in
    expands (unwrap_or (bytes_of "#{window_id}") (get a "F")) sid (Some w) (Some (window_active win))
  else done.

Definition cmd_move_window (a : Args) : M (list byte) :=
  let* w := reads (parse_window_target (get a "s")) in
  let* sid := reads (parse_session_target (get a "t")) in
  then_done (move_window w sid).

Definition cmd_new_session (a : Args) : M (list byte) :=
  let* id := new_session host (unwrap_or [] (get a "s")) in
  if has_flag a "d" then done else modify (with_active id);;; then_done session_changed.

Definition attach_session (a : Args) : M (list byte) :=
  let* id := reads (session_target (session_arg a)) in
  modify (with_active id);;; then_done session_changed.

Definition rename_session (a : Args) : M (list byte) :=
  let* sid := reads (session_target (session_arg a)) in
  let* v := session_at sid in
  put_session sid (mkSession (word a) (session_active v) (session_windows v));;;
  then_done (notify (text [bytes_of "%session-renamed $"; dec sid; bytes_of " "; safe (word a); nl])).

Definition kill_session (a : Args) : M (list byte) :=
  let* sid := reads (parse_session_target (session_arg a)) in
  let* found := gets (fun s => sessions s !! sid) in
  match found with
  | Some v => for_each (session_windows v) close_window;;; then_done (notify (bytes_of "%sessions-changed" ++ nl))
  | None => done
  end.

Definition rename_window (a : Args) : M (list byte) :=
  let* w := reads (window_target (get a "t")) in
  let* win := window_at w in
  put_window w (set_name win (word a) false);;;
  then_done (notify (text [bytes_of "%window-renamed @"; dec w; bytes_of " "; safe (word a); nl])).

Definition set_buffer (a : Args) : M (list byte) :=
  let name := unwrap_or (bytes_of "buffer0") (get a "b") in
  let* full := gets (fun s => (32 <=? Z.of_nat (size (buffers s))) && bool_decide (buffers s !! name = None)) in
  if full : bool then fail (bytes_of "buffer limit reached")
  else
    modify (with_buffers (fun m => <[name := word a]> m));;;
    then_done (notify (text [bytes_of "%paste-buffer-changed "; safe name; nl])).

Definition show_buffer (a : Args) : M (list byte) :=
  gets (fun s => unwrap_or [] (buffers s !! unwrap_or (bytes_of "buffer0") (get a "b"))).

(** Whose option it is: the scope and the target. *)
Definition option_scope (name : list byte) (a : Args) : M (byte * Z) :=
  let target := get a "t" in
  if has_flag a "p" then let* id := reads (parse_pane_target target) in ret ("p"%byte, id)
  else if has_flag a "w" || has_infix (bytes_of "window") name || is_one_of name ["setw"; "showw"]%string then
    let* id := reads (parse_window_target target) in ret ("w"%byte, id)
  else if has_flag a "g" then ret ("g"%byte, 0)
  else if has_flag a "s" then ret ("s"%byte, 0)
  else let* id := reads (parse_session_target target) in ret (" "%byte, id).

Definition scope_missing (scope : byte) (id : Z) (s : MultiplexerState) : bool :=
  if beq scope "p" then negb (has (state_panes s) id)
  else if beq scope "w" then negb (has (windows s) id)
  else if beq scope " " then negb (has (sessions s) id)
  else false.

Definition is_none_or_empty (o : option (list byte)) : bool := match o with None | Some [] => true | _ => false end.

Definition set_option (a : Args) (entry : byte * Z * list byte) : M (list byte) :=
  let value := unwrap_or [] (words a !! (if is_none_or_empty (get a "o") then 1 else 0)%nat) in
  let* full := gets (fun s => (256 <=? Z.of_nat (size (options s))) && bool_decide (options s !! entry = None)) in
  if full : bool then fail (bytes_of "option limit reached")
  else
    let* value := gets (fun s => if has_flag a "a" then unwrap_or [] (options s !! entry) ++ value else value) in
    if 65536 <? zlen value then fail (bytes_of "option too long")
    else then_done (modify (with_options (fun m => <[entry := value]> m))).

Definition cmd_options (name : list byte) (a : Args) : M (list byte) :=
  let* scoped := option_scope name a in
  let (scope, id) := scoped in
  let* missing := gets (scope_missing scope id) in
  if missing : bool then done
  else
    let key := unwrap_or (word a) (non_empty (get a "o")) in
    if negb (starts_with (bytes_of "@") key) then done
    else
      let entry := (scope, id, key) in
      if starts_with (bytes_of "show") name then
        gets (fun s => match non_empty (options s !! entry) with
                       | Some value => if has_flag a "v" then value else text [key; bytes_of " "; value]
                       | None => []
                       end)
      else if has_flag a "u" then then_done (modify (with_options (delete entry)))
      else set_option a entry.

(** *** [refresh-client] *)

(** The window a size is for, and the size's text. *)
Definition size_spec (spec : list byte) : option (list byte) * list byte :=
  if starts_with (bytes_of "@") spec then
    match split_once ":" spec with Some (t, size) => (Some t, size) | None => (None, spec) end
  else (None, spec).

Definition refresh_size (a : Args) : M unit :=
  if has_flag a "C" then
    let (target, size) := size_spec (unwrap_or [] (get a "C")) in
    let* client := gets client_size in
    let* wh :=
      match or_else (split_once "x" size) (split_once "," size) with
      | Some (x, y) =>
          let* c := reads (fun _ => dimension (Some x) (fst client) 512) in
          let* r := reads (fun _ => dimension (Some y) (snd client) 256) in
          ret (c, r)
      | None => ret client
      end in
    let (c, r) := wh in
    let* wid :=
      match target with
      | Some t => let* id := reads (fun _ => numeric_id (drop 1 t)) in ret id
      | None => ret 0
      end in
    let* ws :=
      if negb (wid =? 0) then
        let* known := gets (fun s => has (windows s) wid) in
        if known : bool then ret [wid] else fail (bytes_of "can't find window")
      else
        modify (with_client_size (c, r));;;
        let* sid := gets active in
        let* v := session_at sid in
        ret (session_windows v) in
    for_each ws (fun w => size_window w c r)
  else ret tt.

Definition refresh_flag (f : ClientFlags) (spec : list byte) : ClientFlags :=
  let off := starts_with (bytes_of "!") spec in
  let spec := unwrap_or spec (strip_prefix (bytes_of "!") spec) in
  let (key, val) := unwrap_or (spec, []) (split_once "=" spec) in
  if key_is key "no-output" then mkFlags (negb off) (pause f) (wait_exit f)
  else if key_is key "wait-exit" then mkFlags (no_output f) (pause f) (negb off)
  else if key_is key "pause-after" then
    let n := integer val 0 in
    mkFlags (no_output f) (if negb off && (0 <=? n) then Some n else None) (wait_exit f)
  else f.

Definition refresh_flags (a : Args) (f : ClientFlags) : ClientFlags :=
  match or_else (get a "f") (get a "F") with
  | Some value => fold_left refresh_flag (split_by (beq ",") value) f
  | None => f
  end.

Definition refresh_gate (value : list byte) : M unit :=
  match split_once ":" value with
  | None => ret tt
  | Some (target, action) =>
      let* p := reads (parse_pane_target (Some target)) in
      (if is_one_of action ["pause"; "off"]%string then
         let* full := gets (fun s => (4096 <=? Z.of_nat (size (pane_gates s))) && bool_decide (pane_gates s !! p = None)) in
         if full : bool then fail (bytes_of "pane gate limit reached")
         else modify (with_gates (fun m => <[p := true]> m))
       else modify (with_gates (delete p)));;;
      if key_is action "continue" then notify (text [bytes_of "%continue %"; dec p; nl]) else ret tt
  end.

Definition refresh_gates (a : Args) : M (list byte) :=
  then_done (for_each (unwrap_or [] (arg_flags a !! "A"%byte)) refresh_gate).

(** *** [capture-pane] *)

Definition capture_pane (a : Args) : M (list byte) :=
  let* id := reads (parse_pane_target (get a "t")) in
  let* known := gets (fun s => has (state_panes s) id) in
  if negb known || negb (has_flag a "p") || (has_flag a "P" && has_flag a "C") then done
  else
    let* p := pane_at id in
    let args := mkCapture (has_flag a "e") (has_flag a "a") (integer (unwrap_or [] (get a "S")) 0)
                  (integer (unwrap_or [] (get a "E")) 0) (has_flag a "J") (has_flag a "N") in
    let (r, scr) := capture (guest_of host id) args (screen p) in
    put_pane id (mkPane (terminal p) scr (rect p) (title p));;;
    let* bytes := reads (fun _ => map_err Fails r) in
    ret (if has_flag a "C" then escape bytes else bytes).

Definition list_commands : list byte :=
  joined nl (map bytes_of
    ["kill-pane [-a] [-t target-pane]";
     "new-window [-adkP] [-c start-directory] [-n window-name] [-t target-window]";
     "refresh-client [-C XxY] [-t target-client]";
     "resize-pane [-DLRTUZ] [-x width] [-y height] [-t target-pane]";
     "resize-window [-aADLTUx] [-x width] [-y height] [-t target-window]";
     "send-keys [-Hl] [-t target-pane] key ...";
     "split-window [-bdfhvP] [-c start-directory] [-t target-pane]"]%string).

(** *** The dispatcher *)

(** Every command but [refresh-client]. *)
Definition run_command (name : list byte) (a : Args) : M (list byte) :=
  let one_of := is_one_of name in
  if one_of ["display-message"; "display"]%string then display_message a
  else if one_of ["list-sessions"; "list-session"; "ls"]%string then list_sessions a
  else if one_of ["list-windows"; "lsw"]%string then list_windows a
  else if one_of ["list-panes"; "lsp"]%string then list_panes a
  else if one_of ["new-window"; "neww"]%string then cmd_new_window a
  else if one_of ["split-window"; "splitw"]%string then split_window a
  else if one_of ["send-keys"; "send"]%string then send_keys a
  else if one_of ["select-pane"; "selectp"]%string then select_pane a
  else if one_of ["select-window"; "selectw"]%string then select_window a
  else if one_of ["resize-pane"; "resizep"]%string then cmd_resize_pane a
  else if one_of ["resize-window"; "resizew"]%string then resize_window a
  else if one_of ["kill-pane"; "killp"]%string then kill_pane a
  else if one_of ["kill-window"; "killw"; "unlink-window"; "unlinkw"]%string then kill_window a
  else if one_of ["select-layout"; "selectl"]%string then select_layout a
  else if one_of ["swap-pane"; "swapp"]%string then swap_pane a
  else if one_of ["move-pane"; "movep"; "join-pane"; "joinp"]%string then cmd_move_pane a
  else if one_of ["break-pane"; "breakp"]%string then cmd_break_pane a
  else if one_of ["move-window"; "movew"]%string then cmd_move_window a
  else if one_of ["new-session"; "new"]%string then cmd_new_session a
  else if one_of ["attach-session"; "attach"]%string then attach_session a
  else if one_of ["rename-session"; "rename"]%string then rename_session a
  else if one_of ["kill-session"]%string then kill_session a
  else if one_of ["rename-window"; "renamew"]%string then rename_window a
  else if one_of ["set-buffer"; "setb"]%string then set_buffer a
  else if one_of ["show-buffer"; "showb"]%string then show_buffer a
  else if one_of ["set-option"; "set"; "set-window-option"; "setw"; "show-options"; "show"; "show-option";
    "show-window-options"; "showw"]%string then cmd_options name a
  else if one_of ["capture-pane"; "capturep"]%string then capture_pane a
  else if one_of ["list-commands"; "lscm"]%string then ret list_commands
  else if one_of ["link-window"; "linkw"; "copy-mode"; "list-keys"; "lsk"; "list-clients"; "lsc"; "phony-command";
    "clear-history"; "clearhist"]%string then done
  else fail (text [bytes_of "parse error: unknown command: "; name]).

Definition execute (flags : ClientFlags) (ws : list (list byte)) (s : MultiplexerState)
    : result Failure (list byte) * MultiplexerState * ClientFlags :=
  match ws with
  | [] => (Err (Fails (bytes_of "missing command")), s, flags)
  | name :: rest =>
      let a := Args_parse rest (values name) in
      if is_one_of name ["refresh-client"; "refresh"]%string then
        match refresh_size a s with
        | (Err e, s) => (Err e, s, flags)
        | (Ok _, s) => (refresh_gates a s, refresh_flags a flags)
        end
      else (run_command name a s, flags)
  end.
End host.
