(* ===== verification/HtmCommands.v ===== *)
(** * HtmCommands: no command brings the daemon down

    Every command of the dispatcher, whatever its words, run on a well-formed
    state that has a session, ends in a well-formed state and does not panic.
    A panic would end the daemon and every shell in it. *)

From Stdlib Require Import String.
From stdpp Require Import gmap sorting.
From S2P Require Import Prelude Bytes HtmLayout HtmFraming HtmPane HtmState HtmFormats HtmControl HtmInvariant HtmSafety.

(** ** Results that are no panic *)

Definition calm {A} (r : result Failure A) : Prop := r <> Err Panicked.

Lemma calm_ok {A} (a : A) : calm (Ok a).
Proof. done. Qed.

Lemma calm_bind {A B} (r : result Failure A) (k : A -> result Failure B) :
  calm r -> (forall a, r = Ok a -> calm (k a)) -> calm (let? a := r in k a).
Proof. unfold calm. destruct r as [a|e]; naive_solver. Qed.

Lemma calm_append out value : calm (append out value).
Proof. unfold append. by case_match. Qed.

Lemma calm_numeric_id t : calm (numeric_id t).
Proof. unfold numeric_id. by case_match. Qed.

Lemma calm_window_of p s : calm (window_of p s).
Proof. intros E. pose proof (window_of_spec p s) as H. rewrite E in H. naive_solver. Qed.

Lemma calm_or_missing b id m : calm (or_missing b id m).
Proof. unfold or_missing. by destruct b. Qed.

Lemma calm_parse_session_target t s : calm (parse_session_target t s).
Proof. unfold parse_session_target. case_match; [apply calm_numeric_id|done]. Qed.

Lemma calm_parse_pane_target t s : calm (parse_pane_target t s).
Proof.
  unfold parse_pane_target. destruct (unwrap_or [] t); [done|]. case_match; [apply calm_numeric_id|].
  case_match; (apply calm_bind; [apply calm_numeric_id|]); intros; [by case_match|done].
Qed.

Lemma calm_pane_target t s : calm (pane_target t s).
Proof. apply calm_bind; [apply calm_parse_pane_target|]. intros. apply calm_or_missing. Qed.

Lemma calm_parse_window_target t s : calm (parse_window_target t s).
Proof.
  unfold parse_window_target.
  assert (Hrest : calm (if starts_with (bytes_of "%") (unwrap_or [] t)
    then let? p := pane_target (Some (unwrap_or [] t)) s in window_of p s else Ok (active_window s))).
  { case_match; [|done]. apply calm_bind; [apply calm_pane_target|]. intros. apply calm_window_of. }
  destruct (split_once _ _) as [[x [|y n]]|]; [done|apply calm_numeric_id|done].
Qed.

Lemma calm_session_target t s : calm (session_target t s).
Proof. apply calm_bind; [apply calm_parse_session_target|]. intros. apply calm_or_missing. Qed.

Lemma calm_window_target t s : calm (window_target t s).
Proof. apply calm_bind; [apply calm_parse_window_target|]. intros. apply calm_or_missing. Qed.

Lemma calm_dimension t f m : calm (dimension t f m).
Proof. unfold dimension. by case_match. Qed.

Lemma calm_wanted t m : calm (wanted t m).
Proof.
  unfold wanted. destruct t; [|done]. destruct (0 <? _); [|done]. apply calm_bind; [apply calm_dimension|done].
Qed.

Lemma calm_list_row output row : calm (list_row output row).
Proof. unfold list_row. apply calm_bind; [case_match; [done|apply calm_append]|]. intros. apply calm_append. Qed.

Lemma calm_end_list output : calm (end_list output).
Proof. unfold end_list. repeat case_match; try done. apply calm_append. Qed.

Lemma calm_map_err {A} (r : result (list byte) A) : calm (map_err Fails r).
Proof. by destruct r. Qed.

Create HintDb calm discriminated.
#[export] Hint Resolve calm_append calm_numeric_id calm_window_of calm_parse_session_target calm_parse_pane_target
  calm_pane_target calm_parse_window_target calm_session_target calm_window_target calm_dimension calm_wanted
  calm_list_row calm_end_list calm_map_err : calm.

(** ** What targets name *)

Lemma or_missing_ok b id m id' : or_missing b id m = Ok id' -> id' = id /\ b = true.
Proof. unfold or_missing. destruct b; [|done]. by intros [= ->]. Qed.

Lemma pane_target_live t s p : pane_target t s = Ok p -> is_Some (state_panes s !! p).
Proof.
  unfold pane_target. destruct (parse_pane_target t s); [|done]. intros [-> H]%or_missing_ok. by apply has_spec.
Qed.

Lemma window_target_live t s w : window_target t s = Ok w -> is_Some (windows s !! w).
Proof.
  unfold window_target. destruct (parse_window_target t s); [|done]. intros [-> H]%or_missing_ok. by apply has_spec.
Qed.

Lemma session_target_live t s sid : session_target t s = Ok sid -> is_Some (sessions s !! sid).
Proof.
  unfold session_target. destruct (parse_session_target t s); [|done]. intros [-> H]%or_missing_ok. by apply has_spec.
Qed.

Lemma dimension_range t f m n : dimension t f m = Ok n -> 1 <= n <= m.
Proof. unfold dimension. destruct (Z.ltb_spec m (Z.max 1 (integer (unwrap_or [] t) f))); [done|]. intros [= <-]. lia. Qed.

Lemma wanted_range t m o d : wanted t m = Ok o -> o = Some d -> 1 <= d <= m.
Proof.
  unfold wanted. destruct t as [t|]; [|congruence]. destruct (0 <? _); [|congruence].
  destruct (dimension (Some t) 1 m) eqn:E; [|done]. intros [= <-] [= <-]. by eapply dimension_range.
Qed.

(** ** Templates *)

(** Through a chain of keys, each with its text. *)
Ltac by_keys :=
  repeat match goal with
    | |- context [if key_is ?key ?k then _ else _] => destruct (key_is key k); [by eexists|]
    | |- context [if is_one_of ?key ?ks then _ else _] => destruct (is_one_of key ks); [by eexists|]
    end.

Section host.
Context (host : Host).

Lemma one_ok s key sid window pane : state_ok s -> exists t, one host s key sid window pane = Ok t.
Proof.
  intros H. unfold one.
  assert (Hpane : exists t, match (let! id := pane in let! p := state_panes s !! id in Some (id, p)) with
    | Some (id, p) => unwrap_or (Ok []) (pane_key host key id p s) | None => Ok [] end = Ok t).
  { destruct pane as [id|]; [|by eexists]. destruct (state_panes s !! id) as [p|]; [|by eexists].
    unfold pane_key, pane_is_active. pose proof (window_of_spec id s) as Hw.
    destruct (window_of id s) as [wid|e]; [destruct Hw as (w & Hw & _); unfold index; rewrite Hw|];
      by_keys; by eexists. }
  destruct Hpane as [tp Hpane].
  assert (Hwin : exists t, match (let! id := window in let! w := windows s !! id in Some (id, w)) with
    | Some (id, w) => let? flags := window_flags id w s in
        match window_key key id w (sessions s !! sid) flags s with Some r => r | None => Ok tp end
    | None => Ok tp end = Ok t).
  { destruct window as [id|]; [|by eexists]. destruct (windows s !! id) as [w|] eqn:Hw; [|by eexists].
    pose proof (drawable_of_inv _ _ _ _ _ _ H Hw ltac:(done)) as Hd. destruct (window_flags_ok s id w Hd) as [f ->].
    destruct (window_layout_ok s id w false Hw Hd) as [t1 H1], (window_layout_ok s id w true Hw Hd) as [t2 H2].
    unfold window_key. rewrite H1, H2. by_keys. by eexists. }
  destruct Hwin as [tw Hwin]. cbn zeta. rewrite Hpane, Hwin.
  destruct (_ && _); [by eexists|]. destruct (sessions s !! sid); by_keys; by eexists.
Qed.

Lemma find_open_shorter rest before inner : find_open rest = Some (before, inner) -> (length inner < length rest)%nat.
Proof.
  revert before. induction rest as [|b rest IH]; intros before; cbn [find_open]; [done|].
  destruct (strip_prefix (bytes_of "#{") (b :: rest)) as [i|] eqn:E.
  - intros [= <- <-]. unfold strip_prefix in E. destruct (starts_with _ _); [|done]. injection E as <-.
    rewrite length_drop. cbn. lia.
  - destruct (find_open rest) as [[b' i']|]; [|done]. intros [= <- <-]. specialize (IH _ eq_refl). cbn. lia.
Qed.

Lemma find_close_shorter n inner key rest : find_close n inner = Some (key, rest) -> (length rest < length inner)%nat.
Proof.
  revert n key. induction inner as [|c inner IH]; intros n key; cbn [find_close]; [done|]. cbn zeta.
  destruct (_ =? 0); [intros [= <- <-]; cbn; lia|]. destruct (find_close _ inner) as [[k r]|] eqn:E; [|done].
  intros [= <- <-]. specialize (IH _ _ E). cbn. lia.
Qed.

Lemma calm_expand_loop deeper single fuel out rest :
  (forall t, calm (deeper t)) -> (forall key, calm (single key)) -> (length rest < fuel)%nat ->
  calm (expand_loop deeper single fuel out rest).
Proof.
  intros Hd Hs. revert out rest. induction fuel as [|fuel IH]; intros out rest Hlen; [lia|]. cbn [expand_loop].
  destruct (find_open rest) as [[before inner]|] eqn:Ho; [|apply calm_append].
  apply find_open_shorter in Ho. apply calm_bind; [apply calm_append|]. intros out1 _.
  destruct (find_close 1 inner) as [[key rest']|] eqn:Hc; [|apply calm_append]. apply find_close_shorter in Hc.
  apply calm_bind.
  - destruct (strip_prefix (bytes_of "?") _) as [condition|]; [|apply Hs].
    apply calm_bind; [by destruct (has_infix _ _)|]. intros value _. apply Hd.
  - intros value _. apply calm_bind; [apply calm_append|]. intros out2 _. apply IH. lia.
Qed.

(** Expansion ends with a text or an error; its fuel is enough. *)
Lemma calm_expand_at levels s template sid window pane :
  state_ok s -> calm (expand_at host levels s template sid window pane).
Proof.
  intros H. revert template. induction levels as [|levels IH]; intros template; [done|].
  apply calm_expand_loop; [done| |lia]. intros key. destruct (one_ok s key sid window pane H) as [t ->]. done.
Qed.

Lemma wp_expands template sid window pane s (Q : list byte -> MultiplexerState -> Prop) F :
  state_ok s -> F s -> (forall t, Q t s) -> wp (expands host template sid window pane) Q F s.
Proof. intros H HF HQ. apply wp_reads; [by apply calm_expand_at|done|]. intros t _. apply HQ. Qed.

(** ** The commands *)

(** After a command: well formed, with at most one identity of a kind spent. *)
Definition good (s s' : MultiplexerState) : Prop := state_ok s' /\ more_ids s s'.

Lemma good_ids s s' : state_ok s' -> same_ids s s' -> good s s'.
Proof. intros H (E1 & E2 & E3). split; [done|]. unfold more_ids. lia. Qed.

Lemma good_refl s : state_ok s -> good s s.
Proof. intros H. by apply good_ids. Qed.

Lemma good_same s s' : state_ok s -> same s s' -> good s s'.
Proof. intros H Hs. apply good_ids; [by eapply inv_same|by apply same_ids_of_same]. Qed.

Lemma good_then s s' s'' : good s s' -> same s' s'' -> good s s''.
Proof.
  intros [H (M1 & M2 & M3)] Hs. split; [by eapply inv_same|]. unfold more_ids.
  by rewrite (same_next_pane _ _ Hs), (same_next_window _ _ Hs), (same_next_session _ _ Hs).
Qed.

Notation keeps_well m := (fun s => wp m (fun _ s' => good s s') (good s) s).

Lemma wp_reads_calm {A} (f : MultiplexerState -> result Failure A) Q F s :
  calm (f s) -> F s -> (forall a, f s = Ok a -> Q a s) -> wp (reads f) Q F s.
Proof. apply wp_reads. Qed.

Lemma wp_format template w p s (Q : list byte -> MultiplexerState -> Prop) F :
  state_ok s -> is_Some (windows s !! w) -> F s -> (forall t, Q t s) -> wp (format host template w p) Q F s.
Proof.
  intros H [x Hx] HF HQ. unfold format, window_at. apply wp_bind, (wp_index windows _ x); [done|]. by apply wp_expands.
Qed.

Lemma wp_list_rows {A} (row : A -> M (list byte)) output l s (Q : list byte -> MultiplexerState -> Prop) F :
  F s -> (forall x (Q' : list byte -> MultiplexerState -> Prop), x ∈ l -> (forall t, Q' t s) -> wp (row x) Q' F s) ->
  (forall t, Q t s) -> wp (list_rows row output l) Q F s.
Proof.
  intros HF Hrow HQ. revert output. induction l as [|x l IH]; intros output; cbn [list_rows]; [by apply wp_ret|].
  apply wp_bind, Hrow; [left|]. intros t. apply wp_bind, wp_reads; [apply calm_list_row|done|]. intros o _.
  apply IH. intros y Q' Hy. apply Hrow. by right.
Qed.

Lemma active_live s v : state_ok s -> sessions s !! active s = Some v -> is_Some (windows s !! active_window s).
Proof.
  intros H Hv. unfold active_window. rewrite Hv. destruct (i_session _ _ _ _ H _ _ Hv) as [_ Ha].
  destruct (i_listed _ _ _ _ H _ _ _ Hv (Ha ltac:(done))) as (w & Hw & _). by exists w.
Qed.

Section on_state.
Context (s : MultiplexerState) (v0 : Session).
Hypothesis Hok : state_ok s.
Hypothesis Hids : ids_left s.
Hypothesis Hlive : sessions s !! active s = Some v0.

Lemma display_message_ok a : keeps_well (display_message host a) s.
Proof.
  pose proof (good_refl s Hok) as Hg. unfold display_message. cbv zeta. apply wp_bind, wp_gets, wp_bind, wp_gets, wp_bind, wp_gets, wp_bind.
  assert (Hend : forall sid w p, wp (if has_flag a "p" then expands host (unwrap_or (bytes_of "#{pane_id}") (head (words a))) sid (Some w) (Some p) else done)
    (fun _ s' => good s s') (good s) s).
  { intros sid w p. destruct (has_flag _ _); [by apply wp_expands|by apply wp_ret]. }
  destruct (starts_with (bytes_of "%") _).
  - apply wp_bind, wp_reads; [apply calm_parse_pane_target|done|]. intros id _. apply wp_bind, wp_gets.
    destruct (has _ _); [|by apply wp_ret, Hend]. apply wp_bind, wp_window_of; [done|]. intros. by apply wp_ret, Hend.
  - destruct (starts_with (bytes_of "@") _); [|destruct (starts_with (bytes_of "$") _)].
    + apply wp_bind, wp_reads; [apply calm_parse_window_target|done|]. intros id _. apply wp_bind, wp_gets.
      destruct (has _ _) eqn:Hw; [|by apply wp_ret, Hend]. apply has_spec in Hw as [w Hw].
      apply wp_bind, (wp_index windows _ w); [done|]. by apply wp_ret, Hend.
    + apply wp_bind, wp_reads; [apply calm_parse_session_target|done|]. intros id _. apply wp_bind, wp_gets.
      destruct (has _ _) eqn:Hv; [|by apply wp_ret, Hend]. apply has_spec in Hv as [v Hv].
      apply wp_bind, (wp_index sessions _ v); [done|]. destruct (i_session _ _ _ _ Hok _ _ Hv) as [_ Ha].
      destruct (i_listed _ _ _ _ Hok _ _ _ Hv (Ha ltac:(done))) as (w & Hw & _).
      apply wp_bind, (wp_index windows _ w); [done|]. by apply wp_ret, Hend.
    + by apply wp_ret, Hend.
Qed.

Lemma list_sessions_ok a : keeps_well (list_sessions host a) s.
Proof.
  pose proof (good_refl s Hok) as Hg. unfold list_sessions. apply wp_bind, wp_gets, wp_bind, wp_list_rows; [done| |].
  - intros sid Q' _ HQ'. by apply wp_expands.
  - intros t. apply wp_reads; [apply calm_end_list|done|done].
Qed.

Lemma list_windows_ok a : keeps_well (list_windows host a) s.
Proof.
  pose proof (good_refl s Hok) as Hg. unfold list_windows. apply wp_bind, wp_reads; [apply calm_parse_session_target|done|].
  intros parsed _. apply wp_bind.
  assert (Hend : forall sid v, sessions s !! sid = Some v -> wp (
    let* v := session_at sid in
    let* output := list_rows (fun w => let* win := window_at w in
      format host (template_or a "#{window_id} #{window_layout} #{window_flags} #{window_visible_layout}") w (window_active win)) []
      (session_windows v) in
    reads (fun _ => end_list output)) (fun _ s' => good s s') (good s) s).
  { intros sid v Hv. apply wp_bind, (wp_index sessions _ v); [done|]. apply wp_bind, wp_list_rows; [done| |].
    - intros w Q' Hw HQ'. destruct (i_listed _ _ _ _ Hok _ _ _ Hv Hw) as (x & Hx & _).
      apply wp_bind, (wp_index windows _ x); [done|]. apply wp_format; [done|by exists x|done|done].
    - intros t. apply wp_reads; [apply calm_end_list|done|done]. }
  destruct (parsed =? 0); [by apply wp_gets, (Hend _ v0)|].
  apply wp_reads; [apply calm_session_target|done|]. intros sid Hsid. apply session_target_live in Hsid as [v Hv]. by apply (Hend _ v).
Qed.

Lemma list_panes_ok a : keeps_well (list_panes host a) s.
Proof.
  pose proof (good_refl s Hok) as Hg. unfold list_panes. apply wp_bind, wp_reads.
  { destruct (is_some_and _ _); [apply calm_parse_pane_target|apply calm_parse_window_target]. }
  { done. }
  intros id _. apply wp_bind.
  assert (Hend : forall ws, Forall (fun w => is_Some (windows s !! w)) ws -> wp (
    let* output := list_chunks host a [] ws in reads (fun _ => end_list output)) (fun _ s' => good s s') (good s) s).
  { intros ws Hws. apply wp_bind. generalize (@nil byte) as out. induction Hws as [|w ws [x Hx] _ IH]; intros out; cbn [list_chunks].
    { apply wp_ret, wp_reads; [apply calm_end_list|done|done]. }
    apply wp_bind. unfold window_panes. apply wp_bind, (wp_index windows _ x); [done|]. apply wp_list_rows; [done| |].
    - intros p Q' _ HQ'. apply wp_format; [done|by exists x|done|done].
    - intros chunk. apply wp_bind. destruct chunk; [apply wp_ret, IH|].
      apply wp_reads; [apply calm_list_row|done|]. intros o _. apply IH. }
  destruct (has_flag a "a").
  - apply wp_bind, wp_gets, wp_bind, (wp_index sessions _ v0); [done|]. apply wp_ret, Hend, Forall_forall. intros w Hw.
    destruct (i_listed _ _ _ _ Hok _ _ _ Hlive Hw) as (x & Hx & _). by exists x.
  - apply wp_gets, Hend, Forall_singleton. destruct (has (windows s) id) eqn:Hw; [by apply has_spec|].
    pose proof (window_of_spec id s) as Hof. destruct (window_of id s) as [w|].
    + destruct Hof as (x & Hx & _). by exists x.
    + by eapply active_live.
Qed.

Lemma new_window_ok a : keeps_well (cmd_new_window host a) s.
Proof.
  destruct Hids as (I1 & I2 & I3). pose proof (i_next _ _ _ _ Hok) as Hn. unfold cmd_new_window.
  apply wp_bind. eapply (wp_new_window host None _ _ v0); [done|by left|done|done|done|by apply good_refl|].
  intros id s' w H' E1 E2 E3 _ _ Hw. assert (Hg : good s s') by (split; [done|]; unfold more_ids; lia).
  destruct (has_flag _ _); [|by apply wp_ret]. apply wp_bind, (wp_index windows _ w); [done|].
  apply wp_format; [done|by exists w|done|done].
Qed.

Lemma split_window_ok a : keeps_well (split_window host a) s.
Proof.
  pose proof (good_refl s Hok) as Hg. unfold split_window. apply wp_bind, wp_reads; [apply calm_pane_target|done|]. intros source _.
  apply wp_bind, wp_split; [done|done|done|]. intros p s' H' M' Hp. assert (Hg' : good s s') by done.
  destruct (has_flag _ _); [|by apply wp_ret]. apply wp_bind, wp_gets, wp_bind, wp_window_of; [done|]. intros. by apply wp_expands.
Qed.

Lemma send_keys_ok a : keeps_well (send_keys host a) s.
Proof.
  pose proof (good_refl s Hok) as Hg. unfold send_keys, then_done. apply wp_bind, wp_reads; [apply calm_pane_target|done|].
  intros id Hid. apply pane_target_live in Hid as [p Hp]. apply wp_bind, (wp_index state_panes _ p); [done|].
  destruct (append_data _ _ _) as [r term]. apply wp_bind, wp_modify. set (s1 := with_panes _ _).
  assert (H1 : good s s1) by (apply good_same; [done|]; by eapply same_put_pane).
  apply wp_bind, wp_reads; [apply calm_map_err|done|]. intros. by apply wp_ret.
Qed.

(** The state after a session's active window is set. *)
Lemma inv_select_window s1 id w v :
  state_ok s1 -> windows s1 !! id = Some w -> sessions s1 !! session w = Some v ->
  state_ok (with_sessions (fun m => <[session w := mkSession (session_name v) id (session_windows v)]> m) s1).
Proof.
  intros H Hw Hv. destruct (i_home _ _ _ _ H id w Hw) as (v' & Hv' & Hin). simplify_eq. split; cbn; try apply H.
  - intros j x Hx. destruct (i_home _ _ _ _ H j x Hx) as (y & Hy & Hj). destruct (decide (session x = session w)) as [E|E].
    + rewrite E in *. simplify_eq. eexists. rewrite lookup_insert_eq. done.
    + exists y. by rewrite lookup_insert_ne.
  - intros sid x j [[<- <-]|[Hne Hx]]%lookup_insert_Some Hj; by eapply (i_listed _ _ _ _ H).
  - intros sid x [[<- <-]|[Hne Hx]]%lookup_insert_Some; [|by apply (i_session _ _ _ _ H)].
    split; [by apply (i_session _ _ _ _ H _ _ Hv)|done].
  - destruct (i_active _ _ _ _ H) as [Ha|[He _]]; [|by rewrite He in Hv]. left. apply lookup_insert_is_Some'. by right.
  - intros sid [<-|Hs]%lookup_insert_is_Some'; apply (i_session_ids _ _ _ _ H); [by exists v|done].
  - intros sc j key Hk. destruct (i_options _ _ _ _ H sc j key Hk) as (H1 & H2 & H3). split_and!; [done|done|]. cbn.
    intros Hsc. apply lookup_insert_is_Some'. by right; apply H3.
  - destruct (i_limits _ _ _ _ H) as (H1 & H2 & H3). split_and!; [done| |apply H3..].
    rewrite map_size_insert_Some by by exists v. done.
Qed.

Lemma select_pane_ok a : keeps_well (select_pane a) s.
Proof.
  pose proof (good_refl s Hok) as Hg. unfold select_pane, then_done, window_at, session_at, pane_at.
  apply wp_bind, wp_reads; [apply calm_pane_target|done|].
  intros p Hp. apply pane_target_live in Hp as [x Hx]. apply wp_bind, wp_window_of; [done|]. intros w win Hw Hin.
  destruct (has_flag _ _).
  - apply wp_bind, (wp_index state_panes _ x); [done|]. apply wp_bind, wp_modify, wp_ret. apply good_same; [done|].
    by eapply same_put_pane.
  - apply wp_bind, (wp_index windows _ win); [done|]. apply wp_bind, wp_modify.
    pose proof (i_content _ _ _ _ Hok w win Hw ltac:(done)) as [Cwf Cnd Clive Cact Czoom Crect].
    assert (H1 : state_ok (put_windows w (set_focus win p (zoom win)) s)) by (by eapply inv_update).
    destruct (i_home _ _ _ _ Hok w win Hw) as (v & Hv & _). apply wp_bind, (wp_index sessions _ v); [done|].
    apply wp_bind, wp_modify. unfold notify. wp_steps. eapply good_then; [|apply same_notify]. apply good_ids; [|done].
    eapply (inv_select_window _ w (set_focus win p (zoom win))); [exact H1|apply lookup_insert_eq|done].
Qed.

Lemma select_window_ok a : keeps_well (select_window a) s.
Proof.
  pose proof (good_refl s Hok) as Hg. unfold select_window, then_done, window_at, session_at.
  apply wp_bind, wp_reads; [apply calm_window_target|done|]. intros w Hw. apply window_target_live in Hw as [win Hw].
  apply wp_bind, (wp_index windows _ win); [done|]. destruct (i_home _ _ _ _ Hok w win Hw) as (v & Hv & _).
  apply wp_bind, (wp_index sessions _ v); [done|]. unfold notify. wp_steps. eapply good_then; [|apply same_notify].
  apply good_ids; [by eapply inv_select_window|done].
Qed.

(** A window's new content, laid out and told. *)
Lemma wp_put_redraw {A} w win' s1 (k : M A) Q F :
  state_ok (put_windows w win' s1) -> (forall s', state_ok s' -> same_ids s1 s' -> wp k Q F s') ->
  wp (put_window w win';;; resize host w;;; layout_changed w;;; k) Q F s1.
Proof.
  intros H HQ. wp_steps. eapply (wp_redraw_then host [] None None w win'); [exact H|apply lookup_insert_eq|done|].
  intros s2 H2. apply HQ; [by eapply inv_same|by apply same_ids_of_same in H2].
Qed.

Lemma resize_pane_ok a : keeps_well (cmd_resize_pane host a) s.
Proof.
  pose proof (good_refl s Hok) as Hg. unfold cmd_resize_pane, then_done, window_at.
  apply wp_bind, wp_reads; [apply calm_parse_pane_target|done|]. intros _ _. destruct (negb _); [by apply wp_ret|].
  apply wp_bind, wp_reads; [apply calm_pane_target|done|]. intros p _. apply wp_bind, wp_window_of; [done|]. intros w win Hw Hin.
  destruct (has_flag a "Z").
  - apply wp_bind, (wp_index windows _ win); [done|].
    pose proof (i_content _ _ _ _ Hok w win Hw ltac:(done)) as [Cwf Cnd Clive Cact Czoom Crect].
    apply wp_put_redraw.
    + eapply inv_update; try done. cbn. intros q. destruct (zoom win); [done|]. destruct (p =? 0); [done|]. by intros [= <-].
    + intros s' H' I'. apply wp_ret. by apply good_ids.
  - destruct (has_flag a "x" || has_flag a "y").
    + apply wp_bind, wp_reads; [apply calm_wanted|done|]. intros c Hc. apply wp_bind, wp_reads; [apply calm_wanted|done|]. intros r Hr.
      apply wp_bind, wp_resize_pane; [done| | |done|].
      * intros d Hd. apply (wanted_range _ _ _ _ Hc) in Hd. lia.
      * intros d Hd. apply (wanted_range _ _ _ _ Hr) in Hd. lia.
      * intros s' H' I'. apply wp_ret. by apply good_ids.
    + destruct (find _ _); [|by apply wp_ret]. apply wp_bind, wp_resize_direction; [done|done|].
      intros s' H' I'. apply wp_ret. by apply good_ids.
Qed.

Lemma wp_size_window w win c r s1 (Q : unit -> MultiplexerState -> Prop) F :
  state_ok s1 -> windows s1 !! w = Some win -> 1 <= c <= 65535 -> 1 <= r <= 65535 ->
  (forall s', state_ok s' -> same_ids s1 s' -> (forall j, is_Some (windows s1 !! j) -> is_Some (windows s' !! j)) -> Q tt s') ->
  wp (size_window host w c r) Q F s1.
Proof.
  intros H Hw Hc Hr HQ. unfold size_window, window_at. apply wp_bind, (wp_index windows _ win); [done|]. wp_steps.
  pose proof (i_content _ _ _ _ H w win Hw ltac:(done)) as [Cwf Cnd Clive Cact Czoom Crect].
  set (win' := set_window_rect win (mkRect c r 0 0)).
  assert (H' : state_ok (put_windows w win' s1)) by (eapply inv_update; try done; by split; cbn).
  eapply (wp_redraw host [] None None w win'); [exact H'|apply lookup_insert_eq|done|]. intros s2 H2.
  apply HQ; [by eapply inv_same|by apply same_ids_of_same in H2|].
  intros j Hj. rewrite (same_windows _ _ H2). apply lookup_insert_is_Some'. by right.
Qed.

Lemma resize_window_ok a : keeps_well (resize_window host a) s.
Proof.
  pose proof (good_refl s Hok) as Hg. unfold resize_window, then_done.
  apply wp_bind, wp_reads; [apply calm_window_target|done|]. intros w Hw. apply window_target_live in Hw as [win Hw].
  apply wp_bind, wp_gets. apply wp_bind, wp_reads; [apply calm_dimension|done|]. intros c Hc%dimension_range.
  apply wp_bind, wp_reads; [apply calm_dimension|done|]. intros r Hr%dimension_range.
  apply wp_bind. eapply wp_size_window; [done|done|lia|lia|]. intros s' H' I' _. apply wp_ret. by apply good_ids.
Qed.

Lemma kill_pane_ok a : keeps_well (kill_pane host a) s.
Proof.
  pose proof (good_refl s Hok) as Hg. unfold kill_pane, then_done.
  apply wp_bind, wp_reads; [apply calm_parse_pane_target|done|]. intros p _.
  apply wp_bind, wp_close; [done|]. intros s' H' I'. apply wp_ret. by apply good_ids.
Qed.

Lemma kill_window_ok a : keeps_well (kill_window a) s.
Proof.
  pose proof (good_refl s Hok) as Hg. unfold kill_window, then_done.
  apply wp_bind, wp_reads; [apply calm_parse_window_target|done|]. intros p _.
  apply wp_bind, wp_close_window; [done|]. intros s' H' I'. apply wp_ret. by apply good_ids.
Qed.

Lemma select_layout_ok a : keeps_well (select_layout host a) s.
Proof.
  pose proof (good_refl s Hok) as Hg. unfold select_layout, then_done, window_at.
  apply wp_bind, wp_reads; [apply calm_window_target|done|]. intros w Hw. apply window_target_live in Hw as [win Hw].
  apply wp_bind, (wp_index windows _ win); [done|]. destruct (_ <? _)%nat; [|by apply wp_ret].
  pose proof (i_content _ _ _ _ Hok w win Hw ltac:(done)) as [Cwf Cnd Clive Cact Czoom Crect].
  match goal with |- context [select ?l ?n] => destruct (select_spec l n Cwf) as [Swf Sp] end.
  apply wp_put_redraw; [by eapply inv_update|]. intros s' H' I'. apply wp_ret. by apply good_ids.
Qed.

Lemma swap_pane_ok a : keeps_well (swap_pane host a) s.
Proof.
  pose proof (good_refl s Hok) as Hg. unfold swap_pane, then_done.
  apply wp_bind, wp_reads; [apply calm_parse_pane_target|done|]. intros p _.
  apply wp_bind, wp_reads; [apply calm_parse_pane_target|done|]. intros q _.
  apply wp_bind, wp_swap; [done|]. intros s' H' I'. apply wp_ret. by apply good_ids.
Qed.

Lemma move_pane_ok a : keeps_well (cmd_move_pane host a) s.
Proof.
  pose proof (good_refl s Hok) as Hg. unfold cmd_move_pane, then_done.
  apply wp_bind, wp_reads; [apply calm_parse_pane_target|done|]. intros p _.
  apply wp_bind, wp_reads; [apply calm_parse_pane_target|done|]. intros q _.
  apply wp_bind, wp_move_pane; [done|]. intros s' H' I'. apply wp_ret. by apply good_ids.
Qed.

Lemma break_pane_ok a : keeps_well (cmd_break_pane host a) s.
Proof.
  pose proof (good_refl s Hok) as Hg. unfold cmd_break_pane.
  apply wp_bind, wp_reads; [apply calm_parse_pane_target|done|]. intros p _.
  apply wp_bind, wp_break_pane; [done|done|]. intros w s' H' M' Hs. assert (Hg' : good s s') by done.
  destruct (has_flag _ _); [|by apply wp_ret]. apply wp_bind, wp_gets, wp_bind, wp_gets.
  assert (Hw : is_Some (windows s' !! (if has (windows s') w then w else active_window s'))).
  { destruct (has (windows s') w) eqn:E; [by apply has_spec|]. destruct (Hs ltac:(by exists v0)) as [v Hv]. by eapply active_live. }
  destruct Hw as [win Hw]. apply wp_bind, (wp_index windows _ win); [done|]. by apply wp_expands.
Qed.

Lemma move_window_ok a : keeps_well (cmd_move_window a) s.
Proof.
  pose proof (good_refl s Hok) as Hg. unfold cmd_move_window, then_done.
  apply wp_bind, wp_reads; [apply calm_parse_window_target|done|]. intros w _.
  apply wp_bind, wp_reads; [apply calm_parse_session_target|done|]. intros sid _.
  apply wp_bind, wp_move_window; [done|]. intros s' H' I'. apply wp_ret. by apply good_ids.
Qed.

(** A session becomes the active one. *)
Lemma wp_switch s1 id (Q : list byte -> MultiplexerState -> Prop) F :
  state_ok s1 -> is_Some (sessions s1 !! id) -> (forall s', state_ok s' -> same_ids s1 s' -> Q [] s') ->
  wp (modify (with_active id);;; then_done session_changed) Q F s1.
Proof.
  intros H [v Hv] HQ. unfold then_done. wp_steps. eapply (wp_session_changed v); [done|]. intros s' Hs. apply wp_ret.
  apply HQ; [|by apply same_ids_of_same in Hs]. eapply inv_same; [done|]. apply inv_with_active; [done|by exists v].
Qed.

Lemma new_session_ok a : keeps_well (cmd_new_session host a) s.
Proof.
  unfold cmd_new_session. apply wp_bind, wp_new_session; [done|done|done| |].
  - intros E. by rewrite E in Hlive.
  - intros id s' H' M' Hid _. assert (Hg : good s s') by done. destruct (has_flag _ _); [by apply wp_ret|].
    apply wp_switch; [done|done|]. intros s'' H'' (I1 & I2 & I3). split; [done|]. unfold more_ids in *. lia.
Qed.

Lemma attach_session_ok a : keeps_well (attach_session a) s.
Proof.
  pose proof (good_refl s Hok) as Hg. unfold attach_session.
  apply wp_bind, wp_reads; [apply calm_session_target|done|]. intros sid Hsid%session_target_live.
  apply wp_switch; [done|done|]. intros s' H' I'. by apply good_ids.
Qed.

(** A session's name is nobody's business. *)
Lemma inv_rename_session s1 sid v name :
  state_ok s1 -> sessions s1 !! sid = Some v ->
  state_ok (with_sessions (fun m => <[sid := mkSession name (session_active v) (session_windows v)]> m) s1).
Proof.
  intros H Hv. split; cbn; try apply H.
  - intros j x Hx. destruct (i_home _ _ _ _ H j x Hx) as (y & Hy & Hj). destruct (decide (session x = sid)) as [E|E].
    + rewrite E in *. simplify_eq. eexists. rewrite lookup_insert_eq. done.
    + exists y. by rewrite lookup_insert_ne.
  - intros k x j [[<- <-]|[Hne Hx]]%lookup_insert_Some Hj; by eapply (i_listed _ _ _ _ H).
  - intros k x [[<- <-]|[Hne Hx]]%lookup_insert_Some; [apply (i_session _ _ _ _ H _ _ Hv)|by apply (i_session _ _ _ _ H)].
  - destruct (i_active _ _ _ _ H) as [Ha|[He _]]; [|by rewrite He in Hv]. left. apply lookup_insert_is_Some'. by right.
  - intros k [<-|Hs]%lookup_insert_is_Some'; apply (i_session_ids _ _ _ _ H); [by exists v|done].
  - intros sc j key Hk. destruct (i_options _ _ _ _ H sc j key Hk) as (H1 & H2 & H3). split_and!; [done|done|]. cbn.
    intros Hsc. apply lookup_insert_is_Some'. by right; apply H3.
  - destruct (i_limits _ _ _ _ H) as (H1 & H2 & H3). split_and!; [done| |apply H3..].
    rewrite map_size_insert_Some by by exists v. done.
Qed.

Lemma rename_session_ok a : keeps_well (rename_session a) s.
Proof.
  pose proof (good_refl s Hok) as Hg. unfold rename_session, then_done, session_at.
  apply wp_bind, wp_reads; [apply calm_session_target|done|]. intros sid Hsid. apply session_target_live in Hsid as [v Hv].
  apply wp_bind, (wp_index sessions _ v); [done|]. unfold notify. wp_steps. eapply good_then; [|apply same_notify].
  apply good_ids; [by apply inv_rename_session|done].
Qed.

Lemma kill_session_ok a : keeps_well (kill_session a) s.
Proof.
  pose proof (good_refl s Hok) as Hg. unfold kill_session, then_done.
  apply wp_bind, wp_reads; [apply calm_parse_session_target|done|]. intros sid _. apply wp_bind, wp_gets.
  destruct (sessions s !! sid) as [v|]; [|by apply wp_ret]. apply wp_bind.
  apply (wp_for_each _ _ (fun s' => state_ok s' /\ same_ids s s')); [done| |].
  - intros w s1 _ [H1 I1]. apply wp_close_window; [done|]. intros s2 H2 I2. split; [done|]. by transitivity s1.
  - intros s1 [H1 I1]. unfold notify. wp_steps. eapply good_then; [|apply same_notify]. by apply good_ids.
Qed.

Lemma rename_window_ok a : keeps_well (rename_window a) s.
Proof.
  pose proof (good_refl s Hok) as Hg. unfold rename_window, then_done, window_at.
  apply wp_bind, wp_reads; [apply calm_window_target|done|]. intros w Hw. apply window_target_live in Hw as [win Hw].
  apply wp_bind, (wp_index windows _ win); [done|]. unfold notify. wp_steps. eapply good_then; [|apply same_notify].
  pose proof (i_content _ _ _ _ Hok w win Hw ltac:(done)) as [Cwf Cnd Clive Cact Czoom Crect].
  apply good_ids; [by eapply (inv_update [] None None s w win)|done].
Qed.

Lemma set_buffer_ok a : keeps_well (set_buffer a) s.
Proof.
  pose proof (good_refl s Hok) as Hg. unfold set_buffer, then_done. cbv zeta. apply wp_bind, wp_gets.
  set (name := unwrap_or _ _). destruct (_ && _) eqn:Hfull; [by apply wp_fail|]. unfold notify. wp_steps.
  eapply good_then; [|apply same_notify]. apply good_ids; [|done]. split; cbn; try apply Hok.
  destruct (i_limits _ _ _ _ Hok) as (H1 & H2 & H3 & H4). split_and!; [done..|].
  rewrite map_size_insert. destruct (buffers s !! name) eqn:Hb; [done|].
  rewrite bool_decide_true, andb_true_r in Hfull by done. lia.
Qed.

Lemma show_buffer_ok a : keeps_well (show_buffer a) s.
Proof. unfold show_buffer. cbv beta. apply wp_gets. by apply good_refl. Qed.

Lemma scope_live scope id : scope_missing scope id s = false -> option_live s scope id.
Proof.
  unfold scope_missing, option_live. intros H. split_and!; intros ->; cbn in H; apply has_spec; by apply negb_false_iff.
Qed.

Lemma set_option_ok a scope id key :
  option_live s scope id -> keeps_well (set_option a (scope, id, key)) s.
Proof.
  pose proof (good_refl s Hok) as Hg. intros Hl. unfold set_option, then_done. cbv zeta. apply wp_bind, wp_gets.
  destruct (_ && _) eqn:Hfull; [by apply wp_fail|]. apply wp_bind, wp_gets. destruct (65536 <? _); [by apply wp_fail|].
  wp_steps. apply good_ids; [|done]. apply inv_options_insert; [done|done|].
  destruct (Z.leb_spec 256 (Z.of_nat (size (options s)))) as [Hge|Hlt]; [|by left]. right. left. cbn [andb] in Hfull.
  apply bool_decide_eq_false in Hfull. by apply not_eq_None_Some.
Qed.

Lemma options_ok name a : keeps_well (cmd_options name a) s.
Proof.
  pose proof (good_refl s Hok) as Hg. unfold cmd_options, then_done. apply wp_bind.
  assert (Hend : forall scope id, wp (
    let* missing := gets (scope_missing scope id) in
    if missing : bool then done
    else
      let key := unwrap_or (word a) (non_empty (get a "o")) in
      if negb (starts_with (bytes_of "@") key) then done
      else
        let entry := (scope, id, key) in
        if starts_with (bytes_of "show") name then
          gets (fun s => match non_empty (options s !! entry) with
                         | Some value => if has_flag a "v" then value else text [key; bytes_of " "; value]
                         | None => [] end)
        else if has_flag a "u" then modify (with_options (delete entry));;; done
        else set_option a entry) (fun _ s' => good s s') (good s) s).
  { intros scope id. apply wp_bind, wp_gets. destruct (scope_missing scope id s) eqn:Hm; [by apply wp_ret|]. cbv zeta.
    destruct (negb _); [by apply wp_ret|]. destruct (starts_with (bytes_of "show") name); [by apply wp_gets|].
    destruct (has_flag _ _); [|by apply set_option_ok, scope_live]. wp_steps. apply good_ids; [|done].
    split; cbn; try apply Hok.
    - intros sc j key [_ Hk]%lookup_delete_is_Some. by apply (i_options _ _ _ _ Hok sc j key).
    - destruct (i_limits _ _ _ _ Hok) as (H1 & H2 & H3 & H4). split_and!; [done|done| |done].
      eapply options_limit; [apply delete_subseteq|done]. }
  unfold option_scope. cbv zeta.
  destruct (has_flag a "p"); [apply wp_bind, wp_reads_calm; [auto with calm|done|]; intros id _; apply wp_ret, Hend|].
  destruct (_ || is_one_of _ _); [apply wp_bind, wp_reads_calm; [auto with calm|done|]; intros id _; apply wp_ret, Hend|].
  destruct (has_flag a "g"); [apply wp_ret, Hend|]. destruct (has_flag a "s"); [apply wp_ret, Hend|].
  apply wp_bind, wp_reads_calm; [auto with calm|done|]. intros id _. apply wp_ret, Hend.
Qed.

Lemma capture_pane_ok a : keeps_well (capture_pane host a) s.
Proof.
  pose proof (good_refl s Hok) as Hg. unfold capture_pane, pane_at.
  apply wp_bind, wp_reads; [apply calm_parse_pane_target|done|]. intros id _. apply wp_bind, wp_gets.
  destruct (has (state_panes s) id) eqn:Hp; cbn [negb orb]; [|by apply wp_ret]. apply has_spec in Hp as [p Hp].
  destruct (_ || _); [by apply wp_ret|]. apply wp_bind, (wp_index state_panes _ p); [done|].
  destruct (capture _ _ _) as [r scr]. apply wp_bind, wp_modify. set (s1 := with_panes _ _).
  assert (H1 : good s s1) by (apply good_same; [done|]; by eapply same_put_pane).
  apply wp_bind, wp_reads; [apply calm_map_err|done|]. intros. by apply wp_ret.
Qed.

Lemma refresh_size_ok a : wp (refresh_size host a) (fun _ s' => state_ok s' /\ same_ids s s') (good s) s.
Proof.
  pose proof (good_refl s Hok) as Hg. unfold refresh_size. destruct (has_flag a "C"); [|by apply wp_ret].
  destruct (size_spec _) as [target size]. apply wp_bind, wp_gets, wp_bind.
  assert (Hsizes : forall ws c r s1, state_ok s1 -> same_ids s s1 -> Forall (fun w => is_Some (windows s1 !! w)) ws ->
    1 <= c <= 65535 -> 1 <= r <= 65535 ->
    wp (for_each ws (fun w => size_window host w c r)) (fun _ s' => state_ok s' /\ same_ids s s') (good s) s1).
  { intros ws c r s1 H1 I1 Hws Hc Hr.
    apply (wp_for_each _ _ (fun s' => state_ok s' /\ same_ids s s' /\ Forall (fun w => is_Some (windows s' !! w)) ws)); [done| |naive_solver].
    intros w s2 Hw (H2 & I2 & F2). rewrite Forall_forall in F2. destruct (F2 w Hw) as [win Hwin].
    eapply wp_size_window; [done|done|lia|lia|]. intros s3 H3 I3 Hk. split_and!; [done|by transitivity s2|].
    apply Forall_forall. intros x Hx. by apply Hk, F2. }
  assert (Hend : forall c r, 1 <= c <= 65535 -> 1 <= r <= 65535 -> wp (
    let* wid := match target with Some t => let* id := reads (fun _ => numeric_id (drop 1 t)) in ret id | None => ret 0 end in
    let* ws :=
      if negb (wid =? 0) then
        let* known := gets (fun s => has (windows s) wid) in
        if known : bool then ret [wid] else fail (bytes_of "can't find window")
      else modify (with_client_size (c, r));;; let* sid := gets active in let* v := session_at sid in ret (session_windows v) in
    for_each ws (fun w => size_window host w c r)) (fun _ s' => state_ok s' /\ same_ids s s') (good s) s).
  { intros c r Hc Hr. apply wp_bind. eapply (wp_mono _ (fun _ s' => s' = s) _ (good s)).
    - intros wid s' ->. apply wp_bind. destruct (negb _).
      + apply wp_bind, wp_gets. destruct (has _ wid) eqn:Hw; [|by apply wp_fail]. apply wp_ret, Hsizes; try done.
        apply Forall_singleton. by apply has_spec.
      + apply wp_bind, wp_modify, wp_bind, wp_gets, wp_bind, (wp_index sessions _ v0); [done|]. apply wp_ret, Hsizes; try done.
        * split; cbn; try apply Hok. by split.
        * apply Forall_forall. intros w Hw. destruct (i_listed _ _ _ _ Hok _ _ _ Hlive Hw) as (x & Hx & _). by exists x.
    - done.
    - destruct target; [|by apply wp_ret]. apply wp_bind, wp_reads; [apply calm_numeric_id|done|]. intros. by apply wp_ret. }
  destruct (or_else _ _) as [[x y]|].
  - apply wp_bind, wp_reads; [apply calm_dimension|done|]. intros c Hc%dimension_range.
    apply wp_bind, wp_reads; [apply calm_dimension|done|]. intros r Hr%dimension_range. apply wp_ret, Hend; lia.
  - apply wp_ret. pose proof (i_client _ _ _ _ Hok) as [Hc Hr]. destruct (client_size s) as [c r]. by apply Hend.
Qed.
End on_state.

Lemma refresh_gates_ok a s s1 :
  state_ok s1 -> same_ids s s1 -> wp (refresh_gates a) (fun _ s' => good s s') (good s) s1.
Proof.
  intros H I. unfold refresh_gates, then_done. apply wp_bind.
  apply (wp_for_each _ _ (fun s' => state_ok s' /\ same_ids s s')); [done| |intros s' [H' I']; by apply wp_ret, good_ids].
  intros value s2 _ [H2 I2]. assert (Hg : good s s2) by (by apply good_ids). unfold refresh_gate.
  destruct (split_once _ _) as [[t action]|]; [|by apply wp_ret].
  apply wp_bind, wp_reads; [apply calm_parse_pane_target|done|]. intros p _. apply wp_bind.
  assert (Hend : forall f, wp (if key_is action "continue" then notify (text [bytes_of "%continue %"; dec p; nl]) else ret tt)
    (fun _ s' => state_ok s' /\ same_ids s s') (good s) (with_gates f s2)).
  { intros f. pose proof (inv_with_gates [] None None s2 f H2) as H3. destruct (key_is _ _); [|by apply wp_ret].
    apply wp_notify. intros s4 H4. split; [by eapply inv_same|]. apply same_ids_of_same in H4. transitivity s2; done. }
  destruct (is_one_of _ _); [|apply wp_modify, Hend].
  apply wp_bind, wp_gets. destruct (_ && _); [by apply wp_fail|apply wp_modify, Hend].
Qed.

(** A state with panes has a session to act in. *)
Lemma session_there s : state_ok s -> state_panes s <> ∅ -> exists v, sessions s !! active s = Some v.
Proof.
  intros H Hp. destruct (i_active _ _ _ _ H) as [[v Hv]|[He _]]; [by exists v|]. exfalso. apply Hp, map_empty. intros p.
  apply eq_None_not_Some. intros Hs. destruct (i_owned _ _ _ _ H p Hs) as [Hl|(id & w & Hw & _)].
  - by apply not_elem_of_nil in Hl.
  - destruct (i_home _ _ _ _ H id w Hw) as (v & Hv & _). by rewrite He in Hv.
Qed.

(** The command at hand is this one, or one of the rest. *)
Local Ltac command lem := destruct (is_one_of _ _); [eapply lem; eassumption|].

Lemma run_command_ok name a s v0 :
  state_ok s -> ids_left s -> sessions s !! active s = Some v0 -> wp (run_command host name a) (fun _ s' => good s s') (good s) s.
Proof.
  intros H Hi Hv. unfold run_command. cbv zeta.
  command display_message_ok. command list_sessions_ok. command list_windows_ok. command list_panes_ok.
  command new_window_ok. command split_window_ok. command send_keys_ok. command select_pane_ok.
  command select_window_ok. command resize_pane_ok. command resize_window_ok. command kill_pane_ok.
  command kill_window_ok. command select_layout_ok. command swap_pane_ok. command move_pane_ok.
  command break_pane_ok. command move_window_ok. command new_session_ok. command attach_session_ok.
  command rename_session_ok. command kill_session_ok. command rename_window_ok. command set_buffer_ok.
  command show_buffer_ok. command options_ok. command capture_pane_ok.
  destruct (is_one_of name _); [apply wp_ret; by apply good_refl|].
  destruct (is_one_of name _); [apply wp_ret|apply wp_fail]; by apply good_refl.
Qed.

Lemma execute_ok flags ws s :
  state_ok s -> ids_left s -> state_panes s <> ∅ ->
  let '(r, s', _) := execute host flags ws s in r <> Err Panicked /\ good s s'.
Proof.
  intros H Hi Hp. destruct (session_there s H Hp) as [v0 Hv]. unfold execute.
  destruct ws as [|name rest]; [split; [done|by apply good_refl]|]. cbv zeta.
  destruct (is_one_of name _).
  - pose proof (refresh_size_ok s v0 H Hv (Args_parse rest (values name))) as Hr. unfold wp in Hr.
    destruct (refresh_size host _ s) as [[u|[e|]] s1]; [|done|done]. destruct Hr as [H1 I1].
    pose proof (refresh_gates_ok (Args_parse rest (values name)) s s1 H1 I1) as Hg. unfold wp in Hg.
    by destruct (refresh_gates _ s1) as [[u'|[e|]] s2].
  - pose proof (run_command_ok name (Args_parse rest (values name)) s v0 H Hi Hv) as Hr. unfold wp in Hr.
    by destruct (run_command host name _ s) as [[u|[e|]] s1].
Qed.

(** C17: Whatever the words of a command, and whatever the outside answers, the
    dispatcher does not panic and leaves the state well formed: every pane in
    exactly one window, every window in exactly one session, focus and zoom on
    panes of their window, options about things that exist, and every limit
    kept. *)
Theorem execute_keeps_state_ok flags ws s :
  state_ok s -> ids_left s -> state_panes s <> ∅ ->
  let '(r, s', _) := execute host flags ws s in r <> Err Panicked /\ state_ok s'.
Proof.
  intros H Hi Hp. pose proof (execute_ok flags ws s H Hi Hp) as He. destruct (execute host flags ws s) as [[r s'] f].
  split; apply He.
Qed.
End host.

(** ** The first state *)

Lemma empty_state_ok : state_ok empty_state.
Proof.
  assert (Hno : forall A (m : gmap Z A) k, m = ∅ -> ~ is_Some (m !! k)).
  { intros A m k ->. rewrite lookup_empty. by intros []. }
  split; cbn; try done.
  - intros p Hp. by apply Hno in Hp.
  - intros p id Hp. by apply not_elem_of_nil in Hp.
  - intros p id id' (w & Hw & _). done.
  - by right.
  - intros p Hp. by apply Hno in Hp.
  - intros p Hp. by apply Hno in Hp.
  - intros p Hp. by apply Hno in Hp.
  - intros sc id key [? Hp]. by rewrite lookup_empty in Hp.
Qed.

(** A new daemon's state is well formed, or it reports why there is none. *)
Lemma new_state_ok host :
  match MultiplexerState_new host with
  | Ok s => state_ok s /\ next_pane s <= 1 /\ next_window s <= 1 /\ next_session s <= 2 /\ is_Some (sessions s !! active s)
  | Err e => e <> Panicked
  end.
Proof.
  unfold MultiplexerState_new.
  pose proof (wp_new_session host (bytes_of "htm") empty_state
    (fun _ s => state_ok s /\ more_ids empty_state s /\ is_Some (sessions s !! active s)) (fun _ => True) empty_state_ok) as H.
  unfold wp in H. destruct (new_session host _ _) as [[id|[e|]] s]; [|done|].
  - destruct H as (H & (M1 & M2 & M3) & Hs); [by unfold ids_left; cbn; lia|done|done|by intros|].
    cbn in *. split_and!; [|lia..|done]. eapply inv_same; [|exact H]. by split.
  - exfalso. apply H; [by unfold ids_left; cbn; lia|done|done|by intros].
Qed.

(** A state with a session shows a pane. *)
Lemma session_has_pane s : state_ok s -> is_Some (sessions s !! active s) -> state_panes s <> ∅.
Proof.
  intros H [v Hv] Hp. destruct (i_session _ _ _ _ H _ _ Hv) as [_ Hact]. specialize (Hact ltac:(done)).
  destruct (i_listed _ _ _ _ H _ _ _ Hv Hact) as (w & Hw & _).
  destruct (i_content _ _ _ _ H _ _ Hw ltac:(done)) as [_ _ Clive Cact _ _].
  destruct (Clive _ Cact) as [pn Hpn]. by rewrite Hp, lookup_empty in Hpn.
Qed.

(** An outside in which everything succeeds and nothing happens. *)
Definition quiet_guest : Guest := mkGuest (Ok tt) (Ok tt) (Ok tt) (fun _ => Ok 0) (fun _ _ _ => Ok 0) [] [].

Definition quiet_host : Host :=
  mkHost quiet_guest (Ok tt) (Ok 0) (Ok 0)
    (mkPtyOs (Ok tt) (fun _ => Ok tt) (Ok tt) (Ok tt) (Ok tt) (Ok tt) None None)
    (fun _ => quiet_guest) (fun _ _ => quiet_guest) (fun _ => None) (fun _ => None) (fun _ => None) (fun _ => None)
    (fun _ => Ok tt) (fun _ => []) (fun _ => false) (fun _ => 0) (fun _ => 0).

Lemma execute_keeps_state_ok_witness :
  exists s, MultiplexerState_new quiet_host = Ok s /\
    let '(r, s', _) := execute quiet_host ClientFlags_default [bytes_of "split-window"; bytes_of "-h"] s in
    r <> Err Panicked /\ state_ok s'.
Proof.
  pose proof (new_state_ok quiet_host) as H. destruct (MultiplexerState_new quiet_host) as [s|e] eqn:E.
  - destruct H as (H & N1 & N2 & N3 & Hv). exists s. split; [reflexivity|].
    apply (execute_keeps_state_ok quiet_host); [exact H|unfold ids_left; lia|by apply session_has_pane].
  - exfalso. vm_compute in E. discriminate E.
Defined.
