(* ===== verification/HtmServer.v ===== *)
(** * HtmServer: [crates/et-htm/src/server.rs]

    The daemon's loop: one control client at a time, its commands and their
    replies, the panes' output, and a diagnostic endpoint beside it. What the
    sockets, the clock and the panes' hosts answer are arguments. *)

From Stdlib Require Import String.
From stdpp Require Import gmap.
From S2P Require Import Prelude Bytes HtmLayout HtmFraming HtmPane HtmState HtmFormats HtmControl.

(** ** Sockets *)

Inductive Write := Wrote (n : Z) | WriteWouldBlock | WriteInterrupted | WriteFailed.
Inductive Read := ReadData (bytes : list byte) | ReadEof | ReadWouldBlock | ReadInterrupted | ReadFailed.
(** [accept], and making the stream nonblocking. *)
Inductive Accept := Accepted (nonblocking : bool) | AcceptWouldBlock | AcceptFailed.

(** One [flush]: what its writes answer, and whether the deadline of a drain
    has passed after it. *)
Record Flush := mkFlush { writes : list Write; late : bool }.

(** Write while there is something, up to an error or a full socket: the
    bytes left, the bytes written and whether it went well. An exhausted list
    is a full socket. *)
Fixpoint write_out (answers : list Write) (bytes : list byte) : list byte * list byte * bool :=
  match bytes, answers with
  | [], _ => ([], [], true)
  | _, [] | _, WriteWouldBlock :: _ => (bytes, [], true)
  | _, WriteInterrupted :: answers => write_out answers bytes
  | _, WriteFailed :: _ => (bytes, [], false)
  | _, Wrote n :: answers =>
      if n <=? 0 then (bytes, [], false)
      else
        let '(rest, sent, ok) := write_out answers (zdrop n bytes) in
        (rest, ztake n bytes ++ sent, ok)
  end.

(** ** The daemon *)

(** [wire] is what the endpoint has been sent; [flushes] what the flushes to
    come will answer. *)
Record HtmServer := mkServer {
  diagnostic_reply : option (list byte * Z);
  endpoint : bool;
  state : MultiplexerState;
  input : Lines;
  pending : list byte;
  flags : ClientFlags;
  sequence : Z;
  running : bool;
  wire : list byte;
  flushes : list Flush
}.

Definition set_state m v := mkServer (diagnostic_reply v) (endpoint v) m (input v) (pending v) (flags v) (sequence v)
  (running v) (wire v) (flushes v).
Definition set_input i v := mkServer (diagnostic_reply v) (endpoint v) (state v) i (pending v) (flags v) (sequence v)
  (running v) (wire v) (flushes v).
Definition set_pending p v := mkServer (diagnostic_reply v) (endpoint v) (state v) (input v) p (flags v) (sequence v)
  (running v) (wire v) (flushes v).
Definition set_running r v := mkServer (diagnostic_reply v) (endpoint v) (state v) (input v) (pending v) (flags v)
  (sequence v) r (wire v) (flushes v).
Definition set_reply d v := mkServer d (endpoint v) (state v) (input v) (pending v) (flags v) (sequence v) (running v)
  (wire v) (flushes v).
Definition next_sequence v := mkServer (diagnostic_reply v) (endpoint v) (state v) (input v) (pending v) (flags v)
  ((sequence v + 1) mod 2 ^ 64) (running v) (wire v) (flushes v).

(** A method of the daemon: it panics, or ends in a state. *)
Definition Server : Type := HtmServer -> result Failure HtmServer.

(** An operation of the state that returns nothing: an error of it cannot be
    told apart from a panic here, and does not happen. *)
Definition on_state (m : M unit) : Server :=
  fun v => match m (state v) with (Ok _, s) => Ok (set_state s v) | (Err _, _) => Err Panicked end.

Definition pop_flush (v : HtmServer) : Flush * list Flush :=
  match flushes v with f :: fs => (f, fs) | [] => (mkFlush [] true, []) end.

(** [flush]: whether it went well. *)
Definition flush (v : HtmServer) : bool * HtmServer :=
  if endpoint v then
    let (f, fs) := pop_flush v in
    let '(rest, sent, ok) := write_out (writes f) (pending v) in
    (ok, mkServer (diagnostic_reply v) (endpoint v) (state v) (input v) rest (flags v) (sequence v) (running v)
           (wire v ++ sent) fs)
  else (true, v).

(** The bounded drain: flush until nothing is pending, an error or the
    deadline. *)
Fixpoint drain (fs : list Flush) (bytes : list byte) : list byte * list Flush :=
  match bytes, fs with
  | [], _ => ([], fs)
  | _, [] => ([], [])
  | _, f :: fs =>
      let '(rest, sent, ok) := write_out (writes f) bytes in
      if ok && negb (late f) then let '(more, fs) := drain fs rest in (sent ++ more, fs) else (sent, fs)
  end.

Definition exit_marker : list byte := bytes_of "%exit" ++ nl.

Definition close_endpoint (v : HtmServer) : result Failure HtmServer :=
  if endpoint v then
    let? v := on_state detach v in
    let pending' := if zlen (pending v) + 6 <=? MAX_QUEUE then pending v ++ exit_marker else pending v in
    let '(sent, fs) := drain (flushes v) pending' in
    Ok (mkServer (diagnostic_reply v) false (state v) (input v) [] (flags v) (sequence v) (running v) (wire v ++ sent) fs)
  else Ok (set_pending [] v).

Definition queue (bytes : list byte) (v : HtmServer) : result Failure HtmServer :=
  if negb (endpoint v) then Ok v
  else if MAX_QUEUE <? zlen (pending v) + zlen bytes then close_endpoint v
  else Ok (set_pending (pending v ++ bytes) v).

(** [std::mem::take(&mut self.state.notifications)], queued. *)
Definition queue_notifications (v : HtmServer) : result Failure HtmServer :=
  let bytes := notifications (state v) in
  queue bytes (set_state (with_notifications (fun _ => []) (state v)) v).

Definition no_panes (v : HtmServer) : bool := bool_decide (state_panes (state v) = ∅).

Section host.
(** The outside during the command or the poll numbered so, and the clock. *)
Context (host : Z -> Host) (clock : Z -> Z).

Definition limit_reply (r : result Failure (list byte)) : result Failure (result (list byte) (list byte)) :=
  match r with
  | Ok body =>
      Ok (if MAX_QUEUE / 2 <? zlen body then Err (bytes_of "reply exceeds control size limit") else Ok body)
  | Err (Fails e) => Ok (Err e)
  | Err Panicked => Err Panicked
  end.

(** One command that is executed: the daemon, and whether the list goes on. *)
Definition run_words (words : list (list byte)) (v : HtmServer) : result Failure (HtmServer * bool) :=
  let v := next_sequence v in
  let '(r, s, f) := execute (host (sequence v)) (flags v) words (state v) in
  let v := mkServer (diagnostic_reply v) (endpoint v) s (input v) (pending v) f (sequence v) (running v) (wire v) (flushes v) in
  let? answer := limit_reply r in
  let? v := queue (reply (clock (sequence v)) (sequence v) 1 answer) v in
  let? v := queue_notifications v in
  Ok (v, is_ok answer && negb (no_panes v) && endpoint v).

Inductive Next := NextLine | Stop.

(** The commands of a line. *)
Fixpoint run_line (commands : list (list (list byte))) (v : HtmServer) : result Failure (HtmServer * Next) :=
  match commands with
  | [] => Ok (v, NextLine)
  | words :: commands =>
      let name := unwrap_or [] (head words) in
      if is_one_of name [""; "detach-client"; "detach"; "exit"]%string then
        let? v := close_endpoint v in Ok (v, Stop)
      else if key_is name "kill-server" then Ok (set_running false v, Stop)
      else
        let? r := run_words words v in
        let (v, go_on) := r in
        if go_on : bool then run_line commands v else Ok (v, NextLine)
  end.

Fixpoint run_lines (lines : list (list byte)) (v : HtmServer) : result Failure HtmServer :=
  match lines with
  | [] => Ok v
  | line :: lines =>
      match parse line with
      | [] => close_endpoint v
      | commands =>
          let? r := run_line commands v in
          match r with
          | (v, Stop) => Ok v
          | (v, NextLine) => if no_panes v || negb (endpoint v) then Ok v else run_lines lines v
          end
      end
  end.

(** The daemon, and whether the method returned an error. *)
Definition read_commands (answer : Read) (v : HtmServer) : result Failure (HtmServer * bool) :=
  if negb (endpoint v) then Ok (v, false)
  else
    match answer with
    | ReadEof => let? v := close_endpoint v in Ok (v, false)
    | ReadWouldBlock | ReadInterrupted => Ok (v, false)
    | ReadFailed => Ok (v, true)
    | ReadData bytes =>
        match feed (input v) (ztake 4096 bytes) with
        | (Err _, i) => Ok (set_input i v, true)
        | (Ok lines, i) => let? v := run_lines lines (set_input i v) in Ok (v, false)
        end
    end.

Definition close_if (failed : bool) (v : HtmServer) : result Failure HtmServer :=
  if failed then close_endpoint v else Ok v.

(** A client takes over. *)
Definition accept_client (answer : Accept) (v : HtmServer) : result Failure (HtmServer * bool) :=
  match answer with
  | AcceptWouldBlock | AcceptFailed => Ok (v, true)
  | Accepted nonblocking =>
      let? v := close_endpoint v in
      if negb nonblocking then Ok (v, false)
      else
        let v := next_sequence (mkServer (diagnostic_reply v) true (state v) Lines_default (pending v) (flags v) (sequence v)
                   (running v) [] (flushes v)) in
        let? v := queue (reply (clock (sequence v)) (sequence v) 0 (Ok [])) v in
        let? v := on_state attach_notifications v in
        Ok (v, true)
  end.

(** *** The diagnostic endpoint *)

Definition diagnostic_bytes (r : result (list byte) (list byte)) : list byte :=
  let (status, body) := match r with Ok body => (x00, body) | Err error => (x01, error) end in
  status :: be_bytes 4 (zlen body) ++ body.

(** Write while there is something and the deadline has not passed, each
    write with the clock read before it. An exhausted list is a full socket. *)
Fixpoint write_until (answers : list (Z * Write)) (deadline : Z) (bytes : list byte) : list byte * list byte * bool :=
  match bytes, answers with
  | [], _ => ([], [], true)
  | _, [] => (bytes, [], true)
  | _, (now, answer) :: answers =>
      if deadline <=? now then (bytes, [], true)
      else
        match answer with
        | WriteWouldBlock => (bytes, [], true)
        | WriteInterrupted => write_until answers deadline bytes
        | WriteFailed => (bytes, [], false)
        | Wrote n =>
            if n <=? 0 then (bytes, [], false)
            else
              let '(rest, sent, ok) := write_until answers deadline (zdrop n bytes) in
              (rest, ztake n bytes ++ sent, ok)
        end
  end.

(** What it writes, with the clock after the writes. *)
Definition send_diagnostic (answers : list (Z * Write)) (now' : Z) (v : HtmServer) : HtmServer * list byte :=
  match diagnostic_reply v with
  | None => (v, [])
  | Some (bytes, deadline) =>
      let '(rest, sent, ok) := write_until answers deadline bytes in
      if negb ok || bool_decide (rest = []) || (deadline <=? now') then (set_reply None v, sent)
      else (set_reply (Some (rest, deadline)) v, sent)
  end.

(** The daemon, and what the diagnostic client is sent. *)
Definition poll_diagnostic (h : Host) (accepted : Accept) (now : Z) (answers : list (Z * Write)) (now' : Z) (v : HtmServer)
    : result Failure (HtmServer * list byte) :=
  match diagnostic_reply v with
  | Some _ => Ok (send_diagnostic answers now' v)
  | None =>
      match accepted with
      | Accepted true =>
          let (r, s) := dump_panes h (state v) in
          match r with
          | Err Panicked => Err Panicked
          | Err (Fails e) =>
              Ok (send_diagnostic answers now' (set_reply (Some (diagnostic_bytes (Err e), now + 2000)) (set_state s v)))
          | Ok body =>
              Ok (send_diagnostic answers now' (set_reply (Some (diagnostic_bytes (Ok body), now + 2000)) (set_state s v)))
          end
      | _ => Ok (v, [])
      end
  end.

(** ** The loop *)

(** What one turn meets outside. *)
Record Turn := mkTurn {
  t_diagnostic : Accept;
  t_now : Z;
  t_writes : list (Z * Write);
  t_now' : Z;
  t_dump : Host;
  t_accept : Accept;
  t_read : Read;
  t_poll : Host;
  t_flushes : list Flush
}.

Definition set_flushes fs v := mkServer (diagnostic_reply v) (endpoint v) (state v) (input v) (pending v) (flags v)
  (sequence v) (running v) (wire v) fs.

(** One turn of [run]; [false] when the method returns with an error. *)
Definition turn (t : Turn) (v : HtmServer) : result Failure (HtmServer * bool) :=
  let? d := poll_diagnostic (t_dump t) (t_diagnostic t) (t_now t) (t_writes t) (t_now' t) (set_flushes (t_flushes t) v) in
  let? r := accept_client (t_accept t) (fst d) in
  match r with
  | (v, false) => Ok (v, false)
  | (v, true) =>
      let? r := read_commands (t_read t) v in
      let (v, failed) := r in
      let? v := close_if failed v in
      let (r, s) := poll (t_poll t) (negb (endpoint v) || no_output (flags v))
                      (bool_decide (is_Some (pause (flags v)))) (bool_decide (pause (flags v) = Some 0)) (state v) in
      match r with
      | Err _ => Err Panicked
      | Ok output =>
          let? v := queue output (set_state s v) in
          let? v := queue_notifications v in
          let (ok, v) := flush v in
          let? v := close_if (negb ok) v in
          Ok (if no_panes v then set_running false v else v, true)
      end
  end.

(** What [run] does when the loop has ended: [retired] is whether the
    listeners' retirement went well, and [false] an error it returns. *)
Definition finish (retired : bool) (v : HtmServer) : result Failure (HtmServer * bool) :=
  let? v := on_state stop_all v in
  if retired then let? v := close_endpoint (set_reply None v) in Ok (v, true) else Ok (v, false).

(** [bind], with the state already made. *)
Definition bind_server (s : MultiplexerState) : HtmServer :=
  mkServer None false s Lines_default [] ClientFlags_default 0 true [] [].
End host.

(** ** The diagnostic client *)

(** [read_diagnostic]: fill a buffer of [n] bytes before the deadline; each
    answer comes with the clock read before it. *)
Inductive ReadError := TimedOut | UnexpectedEof | ReadError_other.

Fixpoint read_diagnostic (answers : list (Z * Read)) (deadline : Z) (n : Z) (got : list byte)
    : result ReadError (list byte * list (Z * Read)) :=
  if n <=? zlen got then Ok (got, answers)
  else
    match answers with
    | [] => Err TimedOut
    | (now, answer) :: answers =>
        if deadline <=? now then Err TimedOut
        else
          match answer with
          | ReadEof => Err UnexpectedEof
          | ReadData bytes => read_diagnostic answers deadline n (got ++ ztake (n - zlen got) bytes)
          | ReadInterrupted | ReadWouldBlock => read_diagnostic answers deadline n got
          | ReadFailed => Err ReadError_other
          end
    end.

Inductive DumpError := DumpRead (e : ReadError) | InvalidHeader | DumpNotUtf8 | DumpFailed (text : list byte).

(** [dump_panes] of [server.rs]: the length of the body, then the body. *)
Definition dump_header (header : list byte) : result DumpError (bool * Z) :=
  match header with
  | status :: len =>
      let size := be_val len in
      if (MAX_QUEUE / 2 <? size) || (1 <? b2z status) then Err InvalidHeader else Ok (b2z status =? 1, size)
  | [] => Err InvalidHeader
  end.

Definition read_dump (answers : list (Z * Read)) (deadline : Z) : result DumpError (list byte) :=
  let? r := map_err DumpRead (read_diagnostic answers deadline 5 []) in
  let (header, answers) := r in
  let? h := dump_header header in
  let (failed, size) := h in
  let? r := map_err DumpRead (read_diagnostic answers deadline size []) in
  let (body, _) := r in
  if negb (from_utf8 body) then Err DumpNotUtf8
  else if failed : bool then Err (DumpFailed body) else Ok body.
