(* ===== verification/HtmDaemon.v ===== *)
(** * HtmDaemon: the daemon's loop keeps running

    Turns of the loop, with any client, any bytes, and any answers of the
    sockets and the panes: no turn panics, the state stays well formed, the
    queue stays within its bound, and the client's stream is never cut inside
    a record that was admitted after it. *)

From Stdlib Require Import String.
From stdpp Require Import gmap.
From S2P Require Import Prelude Bytes HtmLayout HtmFraming HtmPane HtmState HtmFormats HtmControl HtmInvariant HtmSafety HtmCommands HtmServer.

(** ** How many commands a read can hold *)

Definition counts (f : list byte -> Z) (lines : list (list byte)) : Z := foldr (fun l n => f l + n) 0 lines.

Lemma command_list_count line commands word quote escaped separated :
  let '(cs, _, _) := command_list line commands word quote escaped separated in
  zlen cs <= zlen commands + zlen line.
Proof.
  revert commands word quote escaped separated.
  induction line as [|ch line IH]; intros commands word quote escaped separated; cbn [command_list]; [rewrite zlen_nil; lia|].
  rewrite zlen_cons.
  assert (Hsame : forall w q e sep, let '(cs, _, _) := command_list line commands w q e sep in zlen cs <= zlen commands + (1 + zlen line)).
  { intros w q e sep. specialize (IH commands w q e sep). destruct (command_list _ _ _ _ _ _) as [[cs ?] ?]. lia. }
  destruct escaped; [apply Hsame|]. destruct (_ && _); [apply Hsame|]. destruct (bool_decide _); [apply Hsame|].
  destruct (bool_decide _); [apply Hsame|]. destruct (is_quote _); [apply Hsame|]. destruct (beq _ _); [|apply Hsame]. cbv zeta.
  set (cs' := match trim_ascii word with [] => commands | w => commands ++ [w] end).
  assert (Hlen : zlen cs' <= zlen commands + 1).
  { subst cs'. destruct (trim_ascii word); [lia|]. rewrite zlen_app, zlen_cons, zlen_nil. lia. }
  specialize (IH cs' [] quote false true). destruct (command_list _ _ _ _ _ _) as [[cs ?] ?]. lia.
Qed.

Lemma parse_count line : 1 <= zlen (parse line) <= zlen line + 1.
Proof.
  unfold parse. pose proof (command_list_count line [] [] None false false) as H. pose proof (zlen_nonneg line).
  destruct (command_list _ _ _ _ _ _) as [[cs word] separated]. rewrite zlen_nil in H.
  set (cs1 := if negb separated then _ else _). assert (H1 : zlen cs1 <= zlen line + 1).
  { subst cs1. destruct (negb separated); [rewrite zlen_cons, zlen_nil; lia|].
    destruct (trim_ascii word); [lia|]. rewrite zlen_app, zlen_cons, zlen_nil. lia. }
  unfold zlen at 1 2. rewrite length_map. fold (zlen (match cs1 with [] => [line] | _ => cs1 end)).
  destruct cs1; [rewrite zlen_cons, zlen_nil; lia|]. rewrite zlen_cons in *. pose proof (zlen_nonneg cs1). lia.
Qed.

Lemma feed_from_count lines s bytes :
  match feed_from lines s bytes with
  | (Ok lines', s') =>
      counts (fun l => zlen l + 1) lines' + zlen (HtmFraming.pending s') <=
      counts (fun l => zlen l + 1) lines + zlen (HtmFraming.pending s) + 2 * zlen bytes /\
      (zlen (HtmFraming.pending s) <= MAX_COMMAND -> zlen (HtmFraming.pending s') <= MAX_COMMAND)
  | (Err _, s') => zlen (HtmFraming.pending s) <= MAX_COMMAND -> zlen (HtmFraming.pending s') <= MAX_COMMAND
  end.
Proof.
  assert (Happ : forall a l, counts (fun l => zlen l + 1) (a ++ [l]) = counts (fun l => zlen l + 1) a + zlen l + 1).
  { intros a l. unfold counts. induction a as [|x a IH]; cbn; [lia|]. lia. }
  revert lines s. induction bytes as [|b bytes IH]; intros lines s; cbn [feed_from]; [split; [change (zlen (@nil byte)) with 0; lia|done]|].
  rewrite zlen_cons. pose proof (zlen_nonneg bytes). destruct (_ && _).
  { specialize (IH lines (mkLines (HtmFraming.pending s) false)). cbn [HtmFraming.pending] in IH.
    destruct (feed_from _ _ _) as [[l|e] s']; [|done]. split; [lia|]. apply IH. }
  cbv zeta. destruct (_ || _).
  - destruct (from_utf8 _); [|by cbn]. specialize (IH (lines ++ [HtmFraming.pending s]) (mkLines [] (beq b CR))).
    cbn [HtmFraming.pending] in IH. destruct (feed_from _ _ _) as [[l|e] s']; [|intros _; by apply IH].
    rewrite Happ, zlen_nil in IH. split; [lia|]. intros _. by apply IH.
  - destruct (Z.eqb_spec (zlen (HtmFraming.pending s)) MAX_COMMAND) as [|Hne]; [done|].
    specialize (IH lines (mkLines (HtmFraming.pending s ++ [b]) (beq b CR))). cbn [HtmFraming.pending] in IH.
    rewrite zlen_app, zlen_cons, zlen_nil in IH. destruct (feed_from _ _ _) as [[l|e] s']; [split; [lia|]|]; intros; apply IH; lia.
Qed.

(** ** The invariant *)

Record server_ok (v : HtmServer) : Prop := mkServerOk {
  v_state : state_ok (state v);
  v_ids : next_pane (state v) <= sequence v + 1 /\ next_window (state v) <= sequence v + 1 /\
    next_session (state v) <= sequence v + 2;
  v_sequence : 0 <= sequence v;
  v_pending : zlen (pending v) <= MAX_QUEUE;
  v_input : zlen (HtmFraming.pending (input v)) <= MAX_COMMAND
}.

(** Numbers left for the commands of a turn. *)
Definition numbers_left (n : Z) (v : HtmServer) : Prop := sequence v + n < 2 ^ 32 - 3.

Lemma write_out_split answers bytes :
  let '(rest, sent, _) := write_out answers bytes in sent ++ rest = bytes.
Proof.
  revert bytes. induction answers as [|a answers IH]; intros [|b bytes]; cbn [write_out]; try done.
  destruct a as [n| | |]; try done; [|apply IH]. destruct (n <=? 0); [done|].
  specialize (IH (zdrop n (b :: bytes))). destruct (write_out _ _) as [[rest sent] ok]. rewrite <- app_assoc, IH. apply ztake_zdrop.
Qed.

(** An operation of the state that keeps it, through the server. *)
Lemma on_state_ok (P : MultiplexerState -> Prop) m v :
  server_ok v -> wp m (fun _ s' => state_ok s' /\ same_ids (state v) s' /\ P s') (fun _ => False) (state v) ->
  exists s', on_state m v = Ok (set_state s' v) /\ server_ok (set_state s' v) /\ P s'.
Proof.
  intros [] H. unfold on_state. unfold wp in H. destruct (m (state v)) as [[u|[e|]] s']; [|done|done].
  destruct H as (H & (E1 & E2 & E3) & HP). exists s'. split; [done|]. split; [|done]. split; cbn; [done|lia|done|done|done].
Qed.

Lemma close_endpoint_ok v :
  server_ok v -> exists v', close_endpoint v = Ok v' /\ server_ok v' /\ endpoint v' = false /\ sequence v' = sequence v /\
    state_panes (state v') = state_panes (state v) /\ running v' = running v /\ pending v' = [].
Proof.
  intros H. unfold close_endpoint. destruct (endpoint v) eqn:He.
  - destruct (on_state_ok (fun s' => state_panes s' = state_panes (state v)) detach v H) as (s' & -> & H' & Hp).
    { apply wp_detach; [apply H|done]. }
    destruct (drain _ _) as [sent fs]. eexists. split; [done|]. cbn. destruct H'. by split_and!.
  - eexists. split; [done|]. destruct H. by split_and!.
Qed.

Lemma queue_ok bytes v :
  server_ok v -> exists v', queue bytes v = Ok v' /\ server_ok v' /\ sequence v' = sequence v /\
    state_panes (state v') = state_panes (state v) /\ running v' = running v.
Proof.
  intros H. unfold queue. destruct (endpoint v); cbn [negb]; [|by eexists].
  destruct (Z.ltb_spec MAX_QUEUE (zlen (pending v) + zlen bytes)).
  - destruct (close_endpoint_ok v H) as (v' & Hv & H' & _ & Hs & Hp & Hr & _). by exists v'.
  - eexists. split; [done|]. destruct H. split_and!; try done. split; try done. cbn. by rewrite zlen_app.
Qed.

Lemma queue_notifications_ok v :
  server_ok v -> exists v', queue_notifications v = Ok v' /\ server_ok v' /\ sequence v' = sequence v /\
    state_panes (state v') = state_panes (state v) /\ running v' = running v.
Proof.
  intros H. unfold queue_notifications.
  apply (queue_ok _ (set_state (with_notifications (fun _ => []) (state v)) v)). destruct H. split; try done. cbn.
  eapply inv_same; [|done]. by split.
Qed.

Lemma flush_ok v :
  server_ok v -> let (_, v') := flush v in server_ok v' /\ sequence v' = sequence v /\ state v' = state v /\ running v' = running v.
Proof.
  intros H. unfold flush. destruct (endpoint v); [|done]. destruct (pop_flush v) as [f fs].
  pose proof (write_out_split (writes f) (pending v)) as Hw. destruct (write_out _ _) as [[rest sent] ok].
  destruct H. split_and!; try done. split; try done. cbn. rewrite <- Hw, zlen_app in v_pending0.
  pose proof (zlen_nonneg sent). lia.
Qed.

Section host.
Context (host : Z -> Host) (clock : Z -> Z).

Lemma run_words_ok words v :
  server_ok v -> numbers_left 1 v -> state_panes (state v) <> ∅ ->
  exists v' go_on, run_words host clock words v = Ok (v', go_on) /\ server_ok v' /\ sequence v' = sequence v + 1 /\
    running v' = running v /\ (go_on = true -> state_panes (state v') <> ∅).
Proof.
  intros H Hn Hp. unfold run_words. pose proof (v_ids _ H) as Hids. pose proof (v_sequence _ H) as Hseq. unfold numbers_left in Hn.
  assert (Hs1 : (sequence v + 1) mod 2 ^ 64 = sequence v + 1) by (apply Z.mod_small; lia).
  pose proof (execute_ok (host (sequence (next_sequence v))) (flags v) words (state v) (v_state _ H)) as He.
  cbv zeta. cbn [flags state next_sequence]. destruct (execute _ _ _ _) as [[r s] f].
  destruct He as (Hr & Hs & Hm); [unfold ids_left; lia|done|].
  assert (Ha : exists answer, limit_reply r = Ok answer).
  { destruct r as [b|[e|]]; [by eexists|by eexists|done]. }
  destruct Ha as [answer ->]. set (v1 := mkServer _ _ _ _ _ _ _ _ _ _).
  assert (H1 : server_ok v1).
  { unfold more_ids in Hm. destruct H. split; cbn; try done; rewrite ?Hs1; lia. }
  destruct (queue_ok (reply (clock (sequence v1)) (sequence v1) 1 answer) v1 H1) as (v2 & Hq & H2 & E2 & P2 & R2).
  cbv beta iota. rewrite Hq. destruct (queue_notifications_ok v2 H2) as (v3 & Hq3 & H3 & E3 & P3 & R3). rewrite Hq3.
  eexists _, _. split; [done|]. split_and!; [done|by rewrite E3, E2; cbn|by rewrite R3, R2|].
  intros Hgo. apply andb_prop in Hgo as [Hgo _]. apply andb_prop in Hgo as [_ Hgo]. unfold no_panes in Hgo.
  by case_bool_decide.
Qed.

(** What a step of the loop leaves. *)
Definition stepped (n : Z) (v v' : HtmServer) : Prop :=
  server_ok v' /\ sequence v <= sequence v' <= sequence v + n.

Lemma run_line_ok commands v :
  server_ok v -> numbers_left (zlen commands) v -> state_panes (state v) <> ∅ ->
  exists v' next, run_line host clock commands v = Ok (v', next) /\ stepped (zlen commands) v v'.
Proof.
  revert v. induction commands as [|words commands IH]; intros v H Hn Hp; cbn [run_line].
  { eexists _, _. split; [done|]. split; [done|]. rewrite zlen_nil. lia. }
  rewrite zlen_cons in Hn |- *. pose proof (zlen_nonneg commands) as Hc. cbv zeta. destruct (is_one_of _ _).
  { destruct (close_endpoint_ok v H) as (v' & -> & H' & _ & E & _). eexists _, _. split; [done|]. split; [done|lia]. }
  destruct (key_is _ _).
  { eexists _, _. split; [done|]. destruct H. split; [by split|cbn; lia]. }
  unfold numbers_left in *.
  destruct (run_words_ok words v H) as (v1 & go_on & -> & H1 & E1 & _ & Hgo); [unfold numbers_left; lia|done|].
  cbv beta iota. destruct go_on.
  - destruct (IH v1 H1) as (v2 & next & -> & H2 & E2); [lia|by apply Hgo|]. eexists _, _. split; [done|]. split; [done|lia].
  - eexists _, _. split; [done|]. split; [done|lia].
Qed.

Lemma run_lines_ok lines v :
  server_ok v -> numbers_left (counts (fun l => zlen l + 1) lines) v -> state_panes (state v) <> ∅ ->
  exists v', run_lines host clock lines v = Ok v' /\ stepped (counts (fun l => zlen l + 1) lines) v v'.
Proof.
  assert (Hc : forall ls, 0 <= counts (fun l => zlen l + 1) ls).
  { induction ls as [|l ls IH]; cbn; [done|]. pose proof (zlen_nonneg l). unfold counts in *. lia. }
  revert v. induction lines as [|line lines IH]; intros v H Hn Hp; cbn [run_lines].
  { eexists. split; [done|]. split; [done|]. cbn. lia. }
  change (counts _ (line :: lines)) with (zlen line + 1 + counts (fun l => zlen l + 1) lines) in *.
  pose proof (parse_count line) as Hl. pose proof (zlen_nonneg line) as Hz. specialize (Hc lines).
  destruct (parse line) as [|words commands] eqn:Hparse; [rewrite zlen_nil in Hl; lia|]. rewrite <- Hparse in *. clear Hparse. unfold numbers_left in *.
  destruct (run_line_ok (parse line) v H) as (v1 & next & -> & H1 & E1); [unfold numbers_left; lia|done|].
  cbv beta iota. destruct next; [|eexists; split; [done|]; split; [done|lia]].
  destruct (no_panes v1 || negb (endpoint v1)) eqn:Hstop; [eexists; split; [done|]; split; [done|lia]|].
  apply orb_false_elim in Hstop as [Hno _]. apply bool_decide_eq_false in Hno.
  destruct (IH v1 H1) as (v2 & -> & H2 & E2); [lia|done|]. eexists. split; [done|]. split; [done|lia].
Qed.

(** More commands than a turn can run: one for each byte of a full line and
    of a read, and one for each line. *)
Definition TURN_COMMANDS : Z := 2 ^ 18.

Lemma read_commands_ok answer v :
  server_ok v -> numbers_left TURN_COMMANDS v -> state_panes (state v) <> ∅ ->
  exists v' failed, read_commands host clock answer v = Ok (v', failed) /\ stepped TURN_COMMANDS v v'.
Proof.
  intros H Hn Hp. unfold read_commands.
  assert (Hsame : forall failed : bool, exists v' failed', Ok (E := Failure) (v, failed) = Ok (v', failed') /\ stepped TURN_COMMANDS v v').
  { intros failed. eexists _, _. split; [done|]. split; [done|]. unfold TURN_COMMANDS. lia. }
  destruct (negb _); [done|]. destruct answer as [bytes| | | |]; try done.
  - pose proof (feed_from_count [] (input v) (ztake 4096 bytes)) as Hf. unfold feed.
    assert (Ht : zlen (ztake 4096 bytes) <= 4096) by (unfold zlen, ztake; rewrite length_take; lia).
    destruct (feed_from _ _ _) as [[lines|e] i].
    + destruct Hf as [Hc Hi]. pose proof (v_input _ H) as Hv. pose proof (zlen_nonneg (HtmFraming.pending i)).
      change (counts _ []) with 0 in Hc. unfold MAX_COMMAND in *. unfold numbers_left, TURN_COMMANDS in *.
      assert (H1 : server_ok (set_input i v)) by (destruct H; split; try done; cbn; auto).
      destruct (run_lines_ok lines (set_input i v) H1) as (v1 & -> & H2 & E2); [cbn; unfold numbers_left; cbn; lia|done|].
      eexists _, _. split; [done|]. split; [done|]. cbn in E2. lia.
    + eexists _, _. split; [done|]. split; [|cbn; unfold TURN_COMMANDS; lia]. destruct H. split; try done. cbn. auto.
  - destruct (close_endpoint_ok v H) as (v' & -> & H' & _ & E & _). eexists _, _. split; [done|]. split; [done|].
    unfold TURN_COMMANDS. lia.
Qed.

Lemma close_if_ok failed v :
  server_ok v -> exists v', close_if failed v = Ok v' /\ stepped 0 v v' /\ state_panes (state v') = state_panes (state v) /\
    running v' = running v.
Proof.
  intros H. unfold close_if. destruct failed.
  - destruct (close_endpoint_ok v H) as (v' & -> & H' & _ & E & P & R & _). exists v'. split; [done|].
    split; [split; [done|lia]|done].
  - exists v. split; [done|]. split; [split; [done|lia]|done].
Qed.

Lemma accept_client_ok answer v :
  server_ok v -> numbers_left 1 v ->
  exists v' go_on, accept_client clock answer v = Ok (v', go_on) /\ stepped 1 v v' /\
    dom (state_panes (state v')) = dom (state_panes (state v)) /\ running v' = running v.
Proof.
  intros H Hn. unfold accept_client.
  assert (Hsame : exists v' go_on, Ok (E := Failure) (v, true) = Ok (v', go_on) /\ stepped 1 v v' /\
    dom (state_panes (state v')) = dom (state_panes (state v)) /\ running v' = running v).
  { eexists _, _. split; [done|]. split; [split; [done|lia]|done]. }
  destruct answer as [nonblocking| |]; try done.
  destruct (close_endpoint_ok v H) as (v1 & -> & H1 & _ & E1 & P1 & R1 & _). cbv beta iota. unfold numbers_left in Hn.
  destruct (negb nonblocking).
  { eexists _, _. split; [done|]. rewrite P1, R1. split; [split; [done|lia]|done]. }
  cbv zeta. pose proof (v_sequence _ H) as Hseq. rewrite <- E1 in *.
  set (v2 := next_sequence _). assert (E2 : sequence v2 = sequence v1 + 1) by (cbn; apply Z.mod_small; lia).
  assert (H2 : server_ok v2).
  { destruct H1. split; try done; rewrite ?E2; cbn [state v2 next_sequence]; lia. }
  destruct (queue_ok (reply (clock (sequence v2)) (sequence v2) 0 (Ok [])) v2 H2) as (v3 & -> & H3 & E3 & P3 & R3).
  cbv beta iota. destruct (on_state_ok (same (state v3)) attach_notifications v3 H3) as (s4 & -> & H4 & P4).
  { apply wp_attach_notifications. intros s' Hs. split_and!; [eapply inv_same; [done|apply H3]|by apply same_ids_of_same in Hs|done]. }
  eexists _, _. split; [done|]. cbn [set_state state running]. rewrite (same_panes _ _ P4), P3, R3. cbn [v2 next_sequence state running].
  rewrite P1, R1.
  split; [split; [done|cbn; lia]|done].
Qed.

(** The diagnostic endpoint leaves the client, its stream and its commands
    alone; of the panes it only asks what they show. *)
Definition untouched (v v' : HtmServer) : Prop :=
  endpoint v' = endpoint v /\ input v' = input v /\ pending v' = pending v /\ flags v' = flags v /\
  sequence v' = sequence v /\ running v' = running v /\ wire v' = wire v /\ flushes v' = flushes v /\ same (state v) (state v').

Lemma send_diagnostic_ok answers now' v : untouched v (fst (send_diagnostic answers now' v)).
Proof.
  unfold send_diagnostic. destruct (diagnostic_reply v) as [[bytes deadline]|]; [|by split_and!].
  destruct (write_until _ _ _) as [[rest sent] ok]. by destruct (_ || _); split_and!.
Qed.

Lemma poll_diagnostic_ok h accepted now answers now' v :
  state_ok (state v) -> exists v' sent, poll_diagnostic h accepted now answers now' v = Ok (v', sent) /\ untouched v v'.
Proof.
  intros H. unfold poll_diagnostic.
  assert (Hsend : forall v1, untouched v v1 -> exists v' sent, Ok (E := Failure) (send_diagnostic answers now' v1) = Ok (v', sent) /\ untouched v v').
  { intros v1 H1. pose proof (send_diagnostic_ok answers now' v1) as H2. destruct (send_diagnostic _ _ _) as [v2 sent].
    eexists _, _. split; [done|]. destruct H1 as (?&?&?&?&?&?&?&?&?), H2 as (?&?&?&?&?&?&?&?&?). cbn in *.
    split_and!; try congruence. by transitivity (state v1). }
  destruct (diagnostic_reply v); [by apply Hsend; split_and!|].
  destruct accepted as [[|]| |]; try (eexists _, _; split; [done|by split_and!]).
  pose proof (wp_dump_panes h (state v) (fun _ => same (state v)) (same (state v)) H (fun _ H => H) (fun _ _ H => H)) as Hd.
  unfold wp in Hd. destruct (dump_panes h (state v)) as [[body|[e|]] s]; [| |done]; apply Hsend; by split_and!.
Qed.

Lemma untouched_ok v v' : untouched v v' -> server_ok v -> server_ok v'.
Proof.
  intros (E1 & E2 & E3 & E4 & E5 & E6 & E7 & E8 & Hs) []. pose proof (same_ids_of_same _ _ Hs) as (I1 & I2 & I3).
  split; [by eapply inv_same|lia|lia|by rewrite E3|by rewrite E2].
Qed.

Lemma dom_nonempty {A} (m m' : gmap Z A) : dom m' = dom m -> m <> ∅ -> m' <> ∅.
Proof. intros H Hm Hm'. subst m'. apply Hm. apply dom_empty_inv_L. by rewrite <- H, dom_empty_L. Qed.

(** One turn: it ends, and keeps the invariant; while the loop goes on there
    are panes. *)
Lemma turn_ok t v :
  server_ok v -> numbers_left (TURN_COMMANDS + 1) v -> state_panes (state v) <> ∅ ->
  exists v' go_on, turn host clock t v = Ok (v', go_on) /\ stepped (TURN_COMMANDS + 1) v v' /\
    (go_on = true -> running v' = true -> state_panes (state v') <> ∅).
Proof.
  intros H Hn Hp. unfold turn, numbers_left, TURN_COMMANDS in *.
  assert (H0 : server_ok (set_flushes (t_flushes t) v)) by (destruct H; by split).
  destruct (poll_diagnostic_ok (t_dump t) (t_diagnostic t) (t_now t) (t_writes t) (t_now' t) _ (v_state _ H0)) as (v1 & sent & -> & U1).
  cbv beta iota. cbn [fst]. pose proof (untouched_ok _ _ U1 H0) as H1.
  destruct U1 as (_ & _ & _ & _ & E1 & _ & _ & _ & S1%same_panes). cbn in E1, S1.
  destruct (accept_client_ok (t_accept t) v1 H1) as (v2 & go2 & -> & [H2 E2] & P2 & _); [unfold numbers_left; lia|].
  cbv beta iota. destruct go2; [|by eexists _, _; split; [done|]; split; [split; [done|lia]|]].
  destruct (read_commands_ok (t_read t) v2 H2) as (v3 & failed & -> & [H3 E3]); [unfold numbers_left, TURN_COMMANDS; lia| |].
  { eapply dom_nonempty; [|exact Hp]. by rewrite P2, S1. }
  cbv beta iota. unfold TURN_COMMANDS in E3. destruct (close_if_ok failed v3 H3) as (v4 & -> & [H4 E4] & _ & _). cbv beta iota.
  pose proof (wp_poll (t_poll t) (negb (endpoint v4) || no_output (flags v4)) (bool_decide (is_Some (pause (flags v4))))
    (bool_decide (pause (flags v4) = Some 0)) (state v4) (fun _ s' => state_ok s' /\ same_ids (state v4) s') (fun _ => False)
    (v_state _ H4)) as Hpoll.
  unfold wp in Hpoll. destruct (poll _ _ _ _ _) as [[out|[e|]] s5]; [|by destruct Hpoll..]. destruct Hpoll as (Hs5 & I1 & I2 & I3); [done|].
  assert (H5 : server_ok (set_state s5 v4)) by (destruct H4; split; cbn; try done; lia).
  destruct (queue_ok out _ H5) as (v6 & -> & H6 & E6 & _). cbv beta iota.
  destruct (queue_notifications_ok v6 H6) as (v7 & -> & H7 & E7 & _). cbv beta iota. cbn in E6.
  pose proof (flush_ok v7 H7) as Hf. destruct (flush v7) as [ok v8]. destruct Hf as (H8 & E8 & _).
  destruct (close_if_ok (negb ok) v8 H8) as (v9 & -> & [H9 E9] & _). eexists _, _. split; [done|].
  unfold no_panes. case_bool_decide as Hno; [|split; [split; [done|lia]|done]].
  split; [split; [|cbn; lia]|done]. destruct H9. by split.
Qed.

Lemma finish_ok v :
  exists v', finish true v = Ok (v', true) /\ state_panes (state v') = ∅ /\ endpoint v' = false /\ pending v' = [].
Proof.
  unfold finish, on_state, stop_all, modify. cbv beta iota. set (v1 := set_reply _ _). unfold close_endpoint.
  destruct (endpoint v1) eqn:He; [|by eexists]. unfold on_state, detach, bind, gets.
  destruct (non_empty _); cbv beta iota; cbn [modify ret]; destruct (drain _ _) as [sent fs]; by eexists.
Qed.
End host.

(** ** Reachable daemons *)

(** [bind], then turns of the loop with any outside, while it runs and fewer
    than four billion commands have been numbered. *)
Inductive reached : HtmServer -> Prop :=
  | reached_bind host s : MultiplexerState_new host = Ok s -> reached (bind_server s)
  | reached_turn host clock t v v' :
      reached v -> running v = true -> numbers_left (TURN_COMMANDS + 1) v ->
      turn host clock t v = Ok (v', true) -> reached v'.

Lemma reached_ok v : reached v -> server_ok v /\ (running v = true -> state_panes (state v) <> ∅).
Proof.
  induction 1 as [host s Hs|host clock t v v' _ [H Hp] Hr Hn Ht].
  - pose proof (new_state_ok host) as H. rewrite Hs in H. destruct H as (H & N1 & N2 & N3 & Hv).
    split; [|intros _; by apply session_has_pane]. by split; cbn.
  - destruct (turn_ok host clock t v H Hn (Hp Hr)) as (v1 & go & Ht' & [H1 _] & Hp1). rewrite Ht in Ht'. injection Ht' as <- <-.
    split; [done|]. by apply Hp1.
Qed.

(** C16: Whatever a control client sends, in whatever pieces, and whatever the
    sockets, the panes' processes and their screens answer, no turn of the
    daemon's loop panics, nor does the end of the loop; every turn leaves the
    state well formed and the queue and the half-read line within their
    limits. *)
Theorem daemon_never_panics host clock t v :
  reached v -> running v = true -> numbers_left (TURN_COMMANDS + 1) v ->
  exists v' go_on, turn host clock t v = Ok (v', go_on) /\ state_ok (state v') /\
    zlen (pending v') <= MAX_QUEUE /\ zlen (HtmFraming.pending (input v')) <= MAX_COMMAND /\
    exists v'', finish true v' = Ok (v'', true) /\ state_panes (state v'') = ∅ /\ endpoint v'' = false.
Proof.
  intros [H Hp]%reached_ok Hr Hn. destruct (turn_ok host clock t v H Hn (Hp Hr)) as (v' & go & Ht & [H' _] & _).
  destruct (finish_ok v') as (v'' & Hf & P & E & _). exists v', go. destruct H'. split_and!; try done. by exists v''.
Qed.

(** A client attaches and splits the window in its first read. *)
Definition first_turn : Turn :=
  mkTurn AcceptWouldBlock 0 [] 0 quiet_host (Accepted true) (ReadData (bytes_of "split-window -h" ++ [LF])) quiet_host
    [mkFlush [Wrote 10; WriteInterrupted; Wrote 4096] true].

Lemma daemon_never_panics_witness :
  exists s, MultiplexerState_new quiet_host = Ok s /\
  exists v' go_on, turn (fun _ => quiet_host) (fun _ => 7) first_turn (bind_server s) = Ok (v', go_on) /\ state_ok (state v').
Proof.
  destruct (MultiplexerState_new quiet_host) as [s|e] eqn:E; [|exfalso; vm_compute in E; discriminate E].
  exists s. split; [reflexivity|].
  destruct (daemon_never_panics (fun _ => quiet_host) (fun _ => 7) first_turn (bind_server s)) as (v' & go & Ht & H & _).
  - by apply (reached_bind quiet_host).
  - reflexivity.
  - vm_compute. reflexivity.
  - exists v', go. by split.
Defined.

(** ** The client's stream *)

(** What the daemon does to a client's stream: records queued, and flushes. *)
Inductive StreamOp := Queues (bytes : list byte) | Flushes.

Definition stream_op (o : StreamOp) (v : HtmServer) : result Failure HtmServer :=
  match o with
  | Queues bytes => queue bytes v
  | Flushes => let (ok, v) := flush v in close_if (negb ok) v
  end.

Fixpoint stream_ops (os : list StreamOp) (v : HtmServer) : result Failure HtmServer :=
  match os with [] => Ok v | o :: os => let? v := stream_op o v in stream_ops os v end.

Definition queued (os : list StreamOp) : list (list byte) :=
  omap (fun o : StreamOp => match o with Queues bytes => Some bytes | Flushes => None end) os.

Lemma drain_prefix fs bytes : fst (drain fs bytes) `prefix_of` bytes.
Proof.
  revert bytes. induction fs as [|f fs IH]; intros [|b bytes]; cbn [drain]; try apply prefix_nil.
  pose proof (write_out_split (writes f) (b :: bytes)) as Hw. destruct (write_out _ _) as [[rest sent] ok]. rewrite <- Hw.
  destruct (_ && _); [|by apply prefix_app_r]. specialize (IH rest). destruct (drain fs rest) as [more fs']. by apply prefix_app.
Qed.

(** Closing sends a prefix of what was admitted and of the exit marker. *)
Lemma close_endpoint_wire v v' :
  endpoint v = true -> close_endpoint v = Ok v' ->
  endpoint v' = false /\ pending v' = [] /\ wire v' `prefix_of` wire v ++ pending v ++ exit_marker.
Proof.
  intros He. unfold close_endpoint. rewrite He. unfold on_state. destruct (detach (state v)) as [[u|e] s]; [|done].
  cbv beta iota. cbn [set_state pending flushes wire].
  set (p := if zlen (pending v) + 6 <=? MAX_QUEUE then pending v ++ exit_marker else pending v). assert (Hp : p `prefix_of` pending v ++ exit_marker).
  { subst p. destruct (_ <=? _); [done|]. by apply prefix_app_r. }
  pose proof (drain_prefix (flushes v) p) as Hd. destruct (drain _ _) as [sent fs]. intros [= <-]. cbn in *.
  split_and!; [done|done|]. apply prefix_app. by transitivity p.
Qed.

(** An operation either adds the record whole, or closes. *)
Lemma stream_op_wire o v v' :
  endpoint v = true -> stream_op o v = Ok v' ->
  (endpoint v' = true /\ wire v' ++ pending v' = wire v ++ pending v ++ concat (queued [o])) \/
  (endpoint v' = false /\ wire v' `prefix_of` wire v ++ pending v ++ exit_marker).
Proof.
  intros He. destruct o as [bytes|]; cbn [stream_op queued omap list_omap concat].
  - unfold queue. rewrite He. cbn [negb]. destruct (_ <? _).
    + intros (H1 & _ & H2)%close_endpoint_wire; [|done]. by right.
    + intros [= <-]. left. split; [done|]. cbn. by rewrite app_nil_r.
  - unfold flush. rewrite He. destruct (pop_flush v) as [f fs].
    pose proof (write_out_split (writes f) (pending v)) as Hw. destruct (write_out _ _) as [[rest sent] ok].
    set (v1 := mkServer _ _ _ _ _ _ _ _ _ _). destruct ok; cbn [negb close_if].
    + intros [= <-]. left. split; [done|]. cbn. by rewrite app_nil_r, <- app_assoc, Hw.
    + intros (H1 & _ & H2)%close_endpoint_wire; [|done]. right. split; [done|]. cbn in H2.
      by rewrite <- app_assoc, (app_assoc sent), Hw in H2.
Qed.

Lemma stream_ops_detached os v v' : endpoint v = false -> stream_ops os v = Ok v' -> endpoint v' = false /\ wire v' = wire v.
Proof.
  intros He. revert v He. induction os as [|o os IH]; intros v He; cbn [stream_ops]; [by intros [= <-]|].
  destruct o as [bytes|]; cbn [stream_op].
  - unfold queue. rewrite He. cbn. by apply IH.
  - unfold flush. rewrite He. cbn. by apply IH.
Qed.

(** C21: The client's stream is never cut: while a client is attached it has been
    sent, or has waiting, exactly the records queued for it, whole and in
    order; when it is dropped, because a record does not fit or the socket
    fails, it has been sent a prefix of some of the first records and an exit
    marker, and nothing queued later. *)
Theorem client_stream_whole os v v' :
  endpoint v = true -> wire v = [] -> pending v = [] -> stream_ops os v = Ok v' ->
  (endpoint v' = true /\ wire v' ++ pending v' = concat (queued os)) \/
  (endpoint v' = false /\ exists first later, os = first ++ later /\ wire v' `prefix_of` concat (queued first) ++ exit_marker).
Proof.
  intros He Hw Hp.
  enough (forall before v, endpoint v = true -> wire v ++ pending v = concat (queued before) -> stream_ops os v = Ok v' ->
    (endpoint v' = true /\ wire v' ++ pending v' = concat (queued (before ++ os))) \/
    (endpoint v' = false /\ exists first later, before ++ os = first ++ later /\
       wire v' `prefix_of` concat (queued first) ++ exit_marker)) as Hgo.
  { apply (Hgo []); [done|by rewrite Hw, Hp]. }
  clear v He Hw Hp. induction os as [|o os IH]; intros before v He Hs; cbn [stream_ops].
  { intros [= <-]. left. by rewrite app_nil_r. }
  destruct (stream_op o v) as [v1|e] eqn:Ho; [|done]. cbv beta iota. intros Hos.
  destruct (stream_op_wire _ _ _ He Ho) as [[He1 Hw1]|[He1 Hw1]].
  - change (o :: os) with ([o] ++ os). rewrite app_assoc. apply (IH (before ++ [o]) v1); [done| |done].
    unfold queued. rewrite omap_app, concat_app. rewrite Hw1. rewrite app_assoc, Hs. done.
  - destruct (stream_ops_detached _ _ _ He1 Hos) as [He2 Hw2]. right. split; [done|]. exists before, (o :: os). split; [done|].
    rewrite Hw2. by rewrite app_assoc, Hs in Hw1.
Qed.

Lemma client_stream_whole_witness :
  exists v, stream_ops [Queues (bytes_of "%begin"); Flushes; Queues (bytes_of "%end")]
    (set_flushes [mkFlush [Wrote 4; WriteFailed] false; mkFlush [Wrote 1; WriteFailed] false]
      (mkServer None true empty_state Lines_default [] ClientFlags_default 0 true [] [])) = Ok v /\
    wire v = bytes_of "%begi" /\ endpoint v = false.
Proof.
  destruct (stream_ops _ _) as [v|e] eqn:E; [|exfalso; vm_compute in E; discriminate E].
  exists v. split; [reflexivity|]. apply client_stream_whole in E as E'; [|reflexivity..].
  destruct E' as [[H _]|[H _]].
  - exfalso. vm_compute in E. injection E as <-. discriminate H.
  - split; [|exact H]. vm_compute in E. by injection E as <-.
Defined.

(** ** The diagnostic snapshot *)

(** The client's reads: pieces of a stream, between answers that only wait,
    each before the deadline. *)
Fixpoint delivers (answers : list (Z * Read)) (deadline : Z) (bytes : list byte) : Prop :=
  match answers with
  | [] => bytes = []
  | (now, answer) :: answers =>
      now < deadline /\
      match answer with
      | ReadData piece => piece <> [] /\ exists rest, bytes = piece ++ rest /\ delivers answers deadline rest
      | ReadWouldBlock | ReadInterrupted => delivers answers deadline bytes
      | ReadEof | ReadFailed => False
      end
  end.

Lemma read_diagnostic_delivers answers more deadline bytes got n :
  delivers answers deadline bytes -> n = zlen got + zlen bytes ->
  exists rest, delivers rest deadline [] /\ read_diagnostic (answers ++ more) deadline n got = Ok (got ++ bytes, rest ++ more).
Proof.
  revert bytes got. induction answers as [|[now answer] answers IH]; intros bytes got Hd ->; cbn [delivers] in Hd.
  { subst bytes. exists []. split; [done|]. rewrite app_nil_r, zlen_nil. destruct more; cbn [read_diagnostic app]; case_match; try done; lia. }
  cbn [app read_diagnostic]. destruct (Z.leb_spec (zlen got + zlen bytes) (zlen got)) as [Hle|Hgt].
  { assert (bytes = []) as -> by (destruct bytes; [done|rewrite zlen_cons in Hle; pose proof (zlen_nonneg bytes); lia]).
    exists ((now, answer) :: answers). split; [done|]. by rewrite app_nil_r. }
  destruct Hd as [Hnow Hd]. destruct (Z.leb_spec deadline now); [lia|]. destruct answer as [piece| | | |]; [|done| | |done].
  - destruct Hd as (_ & rest & -> & Hd). pose proof (zlen_nonneg rest).
    destruct (IH rest (got ++ piece) Hd) as (r & Hr & E); [by rewrite !zlen_app, Z.add_assoc|]. exists r. split; [done|].
    rewrite ztake_all by (rewrite zlen_app; lia). rewrite E. by rewrite <- app_assoc.
  - by apply (IH bytes got).
  - by apply (IH bytes got).
Qed.

Definition snapshot_body (r : result (list byte) (list byte)) : list byte := match r with Ok body => body | Err error => error end.

(** The snapshot the daemon sends is the one the diagnostic client prints: a
    dump arrives as a dump and a failure as that failure, however the reads
    cut the stream and however often they wait, when they end before the
    client's deadline. *)
Theorem diagnostic_roundtrip r header body deadline :
  zlen (snapshot_body r) <= MAX_QUEUE / 2 -> from_utf8 (snapshot_body r) = true ->
  delivers header deadline (ztake 5 (diagnostic_bytes r)) -> delivers body deadline (zdrop 5 (diagnostic_bytes r)) ->
  read_dump (header ++ body) deadline = match r with Ok text => Ok text | Err error => Err (DumpFailed error) end.
Proof.
  intros Hlen Hutf Hh Hb. pose proof (zlen_nonneg (snapshot_body r)) as H0. change (MAX_QUEUE / 2) with 131072 in Hlen.
  set (status := match r with Ok _ => x00 | Err _ => x01 end).
  assert (Hbytes : diagnostic_bytes r = (status :: be_bytes 4 (zlen (snapshot_body r))) ++ snapshot_body r) by (by destruct r).
  assert (H5 : zlen (status :: be_bytes 4 (zlen (snapshot_body r))) = 5) by (rewrite zlen_cons, zlen_be_bytes; lia).
  rewrite Hbytes, <- H5 in Hh, Hb. rewrite ztake_app_exact in Hh. rewrite zdrop_app_exact in Hb.
  unfold read_dump. destruct (read_diagnostic_delivers header body deadline _ [] 5 Hh) as (w & Hw & ->); [by rewrite zlen_nil, H5|].
  cbn [map_err app]. cbv beta iota. unfold dump_header. rewrite be_val_be_bytes. change (256 ^ Z.of_nat 4) with 4294967296.
  rewrite Z.mod_small by lia.
  assert (Hhead : (MAX_QUEUE / 2 <? zlen (snapshot_body r)) || (1 <? b2z status) = false).
  { apply orb_false_intro; [by apply Z.ltb_ge|by destruct r]. }
  cbv zeta. rewrite Hhead. cbv beta iota.
  destruct (read_diagnostic_delivers (w ++ body) [] deadline (snapshot_body r) [] (zlen (snapshot_body r))) as (w' & _ & E).
  - clear - Hw Hb. induction w as [|[now answer] w IH]; [done|]. destruct Hw as [Hn Hw]. cbn. split; [done|].
    destruct answer as [piece| | | |]; auto. destruct Hw as (Hne & rest & Hnil & _). by destruct piece.
  - by rewrite zlen_nil.
  - rewrite app_nil_r in E. rewrite E. cbn [map_err app]. cbv beta iota. rewrite Hutf. cbn [negb].
    subst status. by destruct r.
Qed.

Lemma diagnostic_roundtrip_witness :
  read_dump ([(0, ReadData [x01]); (1, ReadWouldBlock); (2, ReadData [x00; x00; x00; x04])] ++
    [(3, ReadData (bytes_of "no")); (4, ReadInterrupted); (5, ReadData (bytes_of "pe"))]) 10000 =
  Err (DumpFailed (bytes_of "nope")).
Proof.
  apply (diagnostic_roundtrip (Err (bytes_of "nope"))).
  - vm_compute. discriminate.
  - reflexivity.
  - cbn. split_and!; try lia; try done. eexists. split; [reflexivity|]. split_and!; try lia; try done.
    eexists. by split_and!.
  - cbn. split_and!; try lia; try done. eexists. split; [reflexivity|]. split_and!; try lia; try done.
    eexists. by split_and!.
Defined.
